(* ===== verification/_CoqProject ===== *)
-Q . S2P
Prelude.v
Buffer.v
Codec.v
Tlv.v
Wire.v
WireBasic.v
WireUpdate.v
WireCommitment.v
WireClose.v
WireFunding.v
WireOpen.v
WireTx.v
Messages.v
Features.v
WireInit.v
ShaChain.v
CommitmentTx.v
Quiescence.v
JsMap.v
Ledger.v
Scripts.v
ChannelTypes.v
CommitmentBuilder.v
HtlcPolicy.v
HtlcAdmission.v
Channel.v
HtlcBounds.v
HtlcMirror.v
ChannelFee.v
HtlcProtocol.v
ChannelEntries.v
ChannelTrack.v
ChannelPair.v
ChannelRates.v
ChannelRun.v
ChannelSafety.v
Sphinx.v
HopPayload.v
Onion.v
OnionFailures.v
Blinding.v
BlindedPath.v
BlindedRoute.v
InteractiveTx.v
DualFunding.v
DualFundingRun.v
DualFundingOpen.v
Transport.v
TransportRun.v
InvoiceAmount.v
Text.v
InvoiceWords.v
Invoice.v
InvoiceRun.v
InvoiceSample.v
GossipTypes.v
GossipMessages.v
GossipAddress.v
GossipNode.v
Pathfinding.v
PathfindingRun.v
PathfindingMpp.v
NetworkGraph.v
NetworkGraphInv.v
NetworkGraphRun.v
NetworkGraphGates.v
GossipSample.v
ClosingTx.v
ClosingTypes.v
Closing.v
SimpleClose.v
ClosingManager.v
ClosingSafety.v
SimpleCloseSafety.v
ClosingRun.v
ClosingSample.v
Reestablish.v
ReestablishRun.v
ReestablishSafety.v
ReestablishSample.v
