(* ===== verification/Prelude.v ===== *)
(** * A verification of the Lightning core of beignet

    beignet (src/) is a Bitcoin wallet with a Lightning node in TypeScript.  This
    library models parts of the node under src/src/lightning and proves what makes
    them correct.  Every definition keeps the name of the function, method or type
    it translates; the comments name the file.

    ** The parts and how they meet

    A peer connection (transport/noise.ts, cipher.ts, peer.ts) delivers byte strings.
    message/codec.ts takes the type off a
    frame and message/*.ts decode the payload, through the TLV streams of
    message/tlv.ts.  The init message carries the feature flags of features/flags.ts.
    A channel (channel/channel.ts) then exchanges updates, builds commitment
    transactions (script/commitment.ts) and, on every revoke_and_ack, adds the
    peer's secret to its store (keys/shachain.ts), from which a breach is punished
    later.  After a reconnection two channels level their states with channel_reestablish.  An
    HTLC of an update carries an onion (onion/construct.ts, process.ts), which
    tells each node of a route its part; what goes wrong on the way comes back as an
    encrypted failure (onion/failures.ts), and a recipient can hide behind a blinded
    path (onion/blinded-path.ts).  The number of a commitment on the chain is read back by
    chain/output-resolver.ts.  Splices and similar sessions first stop the channel with the stfu
    handshake (channel/quiescence.ts).  Peers that fund a channel together build its
    transaction in a session of interactive-tx/builder.ts.  A payment starts from an
    invoice (invoice/encode.ts, decode.ts) and takes a route that gossip/pathfinding.ts
    finds in the graph (gossip/network-graph.ts) built from gossip messages.  What must survive a crash around money
    goes through the record ledger of storage/durable-ledger.ts.

    ** The files

    - Prelude: the error monad [result] for code that throws, loops that may
      throw, bytes as integers, the inversion tactics and the hint databases.
    - Buffer: the operations of Node's Buffer that the codecs use, with their clamping
      and their exceptions, and the layout lemmas of every codec proof.
    - Codec: message/codec.ts.  BigSize and the message frame.
    - Tlv: message/tlv.ts.  Encoding and decoding of TLV streams.
    - Wire: the class [WireMessage], the contract of a codec, and the tactics for
      codec proofs.
    - WireBasic, WireInit, WireUpdate, WireCommitment, WireClose, WireFunding,
      WireOpen, WireTx: one file per group of messages (ping.ts, error.ts,
      stfu.ts, peer-storage.ts, init.ts, channel-update.ts, channel-commitment.ts,
      channel-close.ts, channel-funding.ts with channel-reestablish.ts, channel-open.ts, interactive-tx.ts):
      the interfaces as records, the encoders and decoders with every check.
    - Messages: message/types.ts, and the registry that ties a message type to
      its codec.
    - Features: features/flags.ts.  The buffer and its reading as a set of bits.
    - ShaChain: keys/shachain.ts and the secret index of channel/channel-helpers.ts.
    - CommitmentTx: script/commitment.ts and script/anchor.ts from the inputs of
      [buildCommitmentTx] to the transaction and the map of its outputs, and
      extractCommitmentNumber of chain/output-resolver.ts.
    - Scripts: the output scripts and the key derivation of keys/derivation.ts,
      script/funding.ts, script/htlc.ts and script/commitment-taproot.ts, over the
      class [BitcoinLib] of library functions.
    - ChannelTypes: channel/types.ts and channel/channel-state.ts.  The state of a
      channel and of an HTLC in it.
    - CommitmentBuilder: channel/commitment-builder.ts.  Fees, trimming, which HTLCs
      and balances each of the two commitments carries, and both builders.
    - HtlcPolicy: channel/htlc-policy.ts.  Reserves, dust, the views of what the
      funder pays, the refusals.
    - HtlcAdmission: the checks of channel/channel.ts on an HTLC on its way out and in.
    - Channel: the update and commitment handlers of channel/channel.ts, from addHtlc
      to handleRevokeAndAck.
    - ChannelFee: update_fee and update_blockheight.
    - HtlcBounds, HtlcMirror: theorems on the policy.
    - HtlcProtocol: the life of one HTLC as the flags of both sides see it, with
      its own transitions; ChannelEntries and ChannelTrack relate a channel to the
      machines of its HTLCs.
    - ChannelPair: two channels and the manager step of channel/channel-manager.ts
      that signs, connected by two ordered streams of messages.
    - ChannelRates: the fee rate along both streams.
    - ChannelRun, ChannelSafety: the invariant of such a pair and what follows.
    - Sphinx, HopPayload, Onion: onion/sphinx-crypto.ts, hop-payload.ts, construct.ts and
      process.ts.  The keys of an onion, the payload of a hop, building and peeling.
    - OnionFailures: onion/failures.ts.
    - Blinding, BlindedPath, BlindedRoute: onion/blinding.ts and blinded-path.ts, and an
      onion that travels a blinded path as node/lightning-node.ts handles it.
    - Transport: crypto/hkdf.ts, transport/cipher.ts, transport/noise.ts, and the frames of
      transport/peer.ts; TransportRun: two peers over a socket.
    - InteractiveTx: interactive-tx/types.ts, validation.ts and builder.ts.  A session to
      which both peers add inputs and outputs.
    - DualFunding: the v2 open of channel/channel.ts and channel/dual-funding.ts: what
      each side contributes, the turns, the audit of the result.
    - DualFundingRun, DualFundingOpen: two such nodes, from their wallets to the
      transaction.
    - Text: JavaScript strings, their UTF-8 bytes, hexadecimal text.
    - InvoiceAmount, InvoiceWords, Invoice: invoice/amount.ts, words.ts, signing.ts, encode.ts
      and decode.ts; InvoiceRun: the theorems; InvoiceSample: concrete libraries.
    - GossipTypes, GossipMessages, GossipAddress, GossipNode: gossip/types.ts, messages.ts,
      gossip-queries.ts, scid-encoding.ts and validation.ts.
    - Pathfinding: gossip/pathfinding.ts, over the class [RoutingGraph] of what it
      asks of a graph; PathfindingRun, PathfindingMpp: what the routes satisfy.
    - NetworkGraph: gossip/network-graph.ts, and the rows of gossip/graph-restore.ts; NetworkGraphInv, NetworkGraphRun,
      NetworkGraphGates: its invariant, its runs, its gates, and the instance of [RoutingGraph].
    - GossipSample: a network of four nodes.
    - ClosingTx: chain/closing.ts and the shutdown scripts of channel/validation.ts;
      ClosingTypes: the fields of a channel that a close uses, its gates and its fees;
      Closing: shutdown and closing_signed of channel/channel.ts; SimpleClose: closing_complete
      and closing_sig; ClosingManager: what channel/channel-manager.ts adds (signing,
      verification, broadcast, resuming after a reconnection).
    - ClosingSafety, SimpleCloseSafety, ClosingRun: what a close guarantees, and two nodes that
      close; ClosingSample: concrete channels.
    - Reestablish: a lost connection (markForReestablish, createReestablish and handleReestablish
      of channel/channel.ts, handleChannelReestablish of the manager); ReestablishRun: what a
      side of a run keeps for it, and for how long; ReestablishSafety: two nodes that reconnect,
      and the proof of a loss of data; ReestablishSample: concrete runs.
    - Quiescence: channel/quiescence.ts, the stfu handlers of channel/channel.ts, and
      two channels connected by two ordered streams.
    - JsMap: the JavaScript Map with string keys.
    - Ledger: storage/durable-ledger.ts.  The store interface as a class, the
      in-memory store as an instance, the ledger over any instance.

    ** How the code is translated

    A number or bigint is a [Z]; the width of a field is the range check of the
    buffer write that stores it.  A function that throws returns [result] with the
    fixed part of its message.  An object that is mutated is a record that
    methods return anew.  Optional fields are [option].  A string is a [string], or
    the list of its UTF-16 code units where the code measures it.  Loops are
    structural recursions, or run on fuel: [tlv_loop] takes one unit per byte of
    input and one more, and [tlv_decode_terminates] shows it never runs out;
    [hop_loop] and [decode_until] do the same, and the round trips show it is enough.
    Array.prototype.sort is the stable insertion sort by the code's comparison.

    Libraries are parameters: the hash functions, the ciphers, the curve, the script
    compiler, the payment templates, the bytes of a transaction id.  What is assumed of them is stated
    where they are introduced (for instance that a digest has 32 bytes), and the witnesses
    instantiate them.

    ** What the theorems show

    - Secrets: the compact store answers as a store of every revealed secret,
      whatever the peer sends; it accepts every secret of an honest peer and
      refuses one that contradicts the earlier ones.
    - Commitments: outputs pay exactly the untrimmed amounts, are in the BIP 69 order, do
      not depend on the order HTLCs are listed in, and the map returned with the
      transaction points at the right outputs; the commitment number is recovered.
    - Commitment builder: two sides with the same view build the same transaction,
      one to sign it and one to hold it, and it spends no more than the funding.
    - Channel pair: in every run of two nodes from a fresh channel, however HTLCs, fee
      rates and commitments cross, each commitment_signed verifies at the peer, each
      revoke_and_ack is accepted, each settlement finds its HTLC committed and settles it
      and nothing else, no value is lost, and an HTLC is forwarded only once it is irrevocable on both sides.
    - Policy: the HTLCs let in stay within the limits, reserves and fees of both
      sides; what a settled channel lets out the peer takes when the reserves of the two
      ends agree, and [v2_reserves_refused] is a channel where they do not; the funder's
      output survives an inbound HTLC.
    - Onions: every node of a route reads the payload meant for it and the last one
      knows it is the last; a failure is attributed to the hop that created it; the
      nodes of a blinded path find their keys and their data, which tell nothing by
      their length; the payloads and paths survive their encoding, but for
      amounts the sender leaves out, which read as zero.
    - Transport: the handshake completes and the two ends hold the same keys, messages
      arrive whole and in order however the bytes are cut, no key and nonce is used
      twice.  The reading loop runs on fuel, one unit per buffered byte and one more.
    - Interactive construction: what a peer adds to a session stays within bounds
      whatever it sends; two nodes whose wallets cover their shares of a v2 open reach
      the same funding transaction, which both audits pass.  The exchange runs on fuel,
      two units for each input and seven more, which is shown to be enough.
    - Invoices: an encoded invoice is decoded to what it was made from and to the key
      that signed it; whatever is accepted is well formed and signed by its payee; the
      signed bytes are the words, whatever the accumulator overflows.  [take_fields] has
      one unit of fuel per word ([take_fields_fuel]).
    - Gossip: over all the lives of a node ([graph_runs]: live gossip, and the rows that an
      earlier life stored or that carry no flags, restored by graph-restore.ts) the maps, the
      node sets and the eviction indexes agree and every verified flag was earned; only verified messages are served; the gates
      before verification are exact; a proven channel is never evicted; announcements
      survive their encoding, the textual addresses included.
    - Routes: what the search returns can be paid hop by hop, within the limits; it ends, and
      finds no route only when it has settled every node that a walk of usable edges reaches at
      its least cost ([exhausted]); the parts of a
      multi-path payment add up within every channel.  [search_fuel] has one unit per edge and
      one more, [loop_ends] shows it is enough.
    - Closing: no stage of a close that refuses signs or closes, and nothing is signed while an
      HTLC or an update is pending; a channel is closed only on a transaction that was verified,
      that is broadcast and that pays our share; an affordable simple close ends in one
      exchange; for an opener that can pay its ideal fee, a negotiation of fees ends when the two
      ranges meet, after at most as
      many messages as the larger end of the ranges has satoshis and three more (the fuel of
      [exchange]), and never ends when they do not.
    - Reconnection: wherever a connection is lost, the two nodes accept each other's
      channel_reestablish, and each sends again what the other lost, signatures and
      revocations in their order and updates on their side of a signature; what a node forgets
      is sent again; a node only gives up its state for a proof that it is stale.
    - Some theorems state behaviour that the code does not intend:
      [credited_add_fails_channel], [offer_set_not_atomic], [legacy_trim_differs],
      [oversized_onion_built], [peer_can_remove_ours], [add_after_complete_closes],
      [closing_negotiation_diverges], [closee_closes_unrelayable], [poor_opener_overpays],
      [v2_reserves_refused], [failed_reload_forgets], [restoreNode_orphan],
      [uncommitted_add_survives] and [empty_signature_sent].
    - Quiescence: by induction on the steps of the linked pair, two quiescent sides
      agree on one initiator; the handshake raises no error and completes.
    - Ledger: over any store that keeps its contract, with failing writes, failing loads at
      the start and restarts at any point, cache and store agree; transitions are compare-and-swap.
    - Wire: BigSize and TLV decoding accept only canonical input and undo encoding;
      every registered message survives a framed round trip; errors keep
      their scope.
    - Features: flags are a set of bits, serialised canonically; the node
      disconnects on exactly the required bits it does not implement.

    ** What is not modelled

    Sockets, timers, databases, onion messages, the signature
    cryptography (library calls), the on-chain wallet and the command line.  The
    channel is modelled without a splice in flight and without an FFOR epoch; the v1
    open, splicing, offers, swaps and FFOR are not modelled, nor what a reconnection does for
    them.  A v2 open is modelled up to the two
    tx_complete.  Of a taproot close the negotiation is modelled and the MuSig2 session of the
    manager is not. *)
From stdpp Require Export base list numbers strings.
From Stdlib Require Export ZArith Lia.
From Stdlib Require Import Strings.Byte.

Global Open Scope Z_scope.

(** ** Fallible computations

    A TypeScript function that may [throw] returns a [result]; the error
    carries the fixed part of the message the code throws. *)

Inductive result (A : Type) : Type :=
| Ok (a : A)
| Err (e : string).
Arguments Ok {A} _.
Arguments Err {A} _.

Global Instance result_ret : MRet result := fun A a => Ok a.
Global Instance result_bind : MBind result := fun A B f m =>
  match m with Ok a => f a | Err e => Err e end.
Global Instance result_fmap : FMap result := fun A B f m =>
  match m with Ok a => Ok (f a) | Err e => Err e end.

Definition is_ok {A} (r : result A) : bool :=
  match r with Ok _ => true | Err _ => false end.

(** A [throw] guarded by a condition: [if (c) throw new Error(e)]. *)
Definition throw_if (c : bool) (e : string) : result unit :=
  if c then Err e else Ok tt.

Lemma bind_Ok {A B} (a : A) (f : A -> result B) : (Ok a ≫= f) = f a.
Proof. reflexivity. Qed.

Lemma Ok_pair_inv {A B} (a a' : A) (b b' : B) : Ok (a, b) = Ok (a', b') -> a = a' /\ b = b'.
Proof. by intros [= -> ->]. Qed.

Lemma bind_Ok_inv {A B} (m : result A) (f : A -> result B) b :
  (m ≫= f) = Ok b -> exists a, m = Ok a /\ f a = Ok b.
Proof. destruct m; simpl; [eauto | discriminate]. Qed.

Lemma throw_if_false c e : c = false -> throw_if c e = Ok tt.
Proof. intros ->; reflexivity. Qed.

(** A guard that does not fire, and one that does. *)
Lemma throw_pass {B} c e (f : unit -> result B) :
  c = false -> (throw_if c e ≫= f) = f tt.
Proof. intros ->; reflexivity. Qed.

Lemma throw_stop {B} c e (f : unit -> result B) :
  c = true -> (throw_if c e ≫= f) = Err e.
Proof. intros ->; reflexivity. Qed.

Lemma throw_if_true c e : c = true -> throw_if c e = Err e.
Proof. intros ->; reflexivity. Qed.

Lemma throw_if_Ok c e u : throw_if c e = Ok u -> c = false.
Proof. destruct c; simpl; [discriminate | done]. Qed.

(** [for (const x of xs) acc = step(acc, x)] where the body may throw. *)
Fixpoint foldM {A B} (f : B -> A -> result B) (acc : B) (xs : list A) : result B :=
  match xs with
  | [] => Ok acc
  | x :: xs' => acc' ← f acc x; foldM f acc' xs'
  end.

(** [xs.map(f)] where [f] may throw. *)
Lemma mapM_cons {A B} (f : A -> result B) x l :
  mapM f (x :: l) = (y ← f x; ys ← mapM f l; Ok (y :: ys)).
Proof. reflexivity. Qed.

Lemma mapM_length {A B} (f : A -> result B) l : forall ys, mapM f l = Ok ys -> length ys = length l.
Proof.
  induction l as [|x l IH]; intros ys; [by intros [= <-]|]. rewrite mapM_cons.
  intros (y & _ & (ys' & Hys & [= <-])%bind_Ok_inv)%bind_Ok_inv. cbn. by rewrite (IH _ Hys).
Qed.

(** Inversion of every bind in the hypotheses. *)
Ltac inv_result :=
  repeat match goal with
  | H : (_ ≫= _) = Ok _ |- _ =>
      apply bind_Ok_inv in H; destruct H as (? & ? & H)
  | H : throw_if _ _ = Ok _ |- _ => apply throw_if_Ok in H
  | H : Ok _ = Ok _ |- _ => injection H; clear H; intros; subst
  | H : Err _ = Ok _ |- _ => discriminate H
  | u : unit |- _ => destruct u
  end.

(** Boolean comparisons of the code turned into propositions. *)
Ltac bool_props :=
  repeat match goal with
  | H : (_ && _)%bool = true |- _ => apply andb_true_iff in H; destruct H
  | H : (_ || _)%bool = false |- _ => apply orb_false_iff in H; destruct H
  | H : (_ <? _) = true |- _ => apply Z.ltb_lt in H
  | H : (_ <? _) = false |- _ => apply Z.ltb_ge in H
  | H : (_ <=? _) = true |- _ => apply Z.leb_le in H
  | H : (_ <=? _) = false |- _ => apply Z.leb_gt in H
  | H : (_ =? _) = true |- _ => apply Z.eqb_eq in H
  | H : (_ =? _) = false |- _ => apply Z.eqb_neq in H
  | H : negb _ = true |- _ => apply negb_true_iff in H
  | H : negb _ = false |- _ => apply negb_false_iff in H
  end.

(** ** Bytes as integers *)

Definition byte_of_Z (z : Z) : byte :=
  match Byte.of_N (Z.to_N (z mod 256)) with Some b => b | None => x00 end.

Definition Z_of_byte (b : byte) : Z := Z.of_N (Byte.to_N b).

Lemma Z_of_byte_range b : 0 <= Z_of_byte b < 256.
Proof. unfold Z_of_byte. pose proof (to_N_bounded b). lia. Qed.

Lemma Z_of_byte_of_Z z : Z_of_byte (byte_of_Z z) = z mod 256.
Proof.
  unfold Z_of_byte, byte_of_Z.
  pose proof (Z.mod_pos_bound z 256 ltac:(lia)) as Hb.
  destruct (Byte.of_N (Z.to_N (z mod 256))) as [b|] eqn:E.
  - apply to_of_N in E. rewrite E. lia.
  - apply of_N_None_iff in E. lia.
Qed.

Lemma Z_of_byte_inj a b : Z_of_byte a = Z_of_byte b -> a = b.
Proof.
  unfold Z_of_byte. intros H. apply N2Z.inj in H.
  pose proof (of_to_N a) as Ha. pose proof (of_to_N b) as Hb.
  rewrite H in Ha. congruence.
Qed.

Lemma byte_of_Z_of_byte b : byte_of_Z (Z_of_byte b) = b.
Proof.
  apply Z_of_byte_inj. rewrite Z_of_byte_of_Z.
  apply Z.mod_small, Z_of_byte_range.
Qed.

Global Instance byte_eq_dec : EqDecision byte := Byte.byte_eq_dec.

(** ** Sums *)

Fixpoint zsum {A} (f : A -> Z) (l : list A) : Z :=
  match l with [] => 0 | x :: l => f x + zsum f l end.

Lemma zsum_perm {A} (f : A -> Z) l l' : Permutation l l' -> zsum f l = zsum f l'.
Proof. induction 1; simpl; lia. Qed.

Lemma zsum_map {A B} (f : B -> Z) (g : A -> B) l : zsum f (map g l) = zsum (fun x => f (g x)) l.
Proof. induction l; simpl; lia. Qed.

Lemma zsum_ext {A} (f g : A -> Z) l : (forall x, x ∈ l -> f x = g x) -> zsum f l = zsum g l.
Proof.
  induction l as [|x l IH]; simpl; [done|]. intros H.
  rewrite IH, (H x); [done|by left|]. intros y Hy. apply H. by right.
Qed.

Lemma zsum_add {A} (f g : A -> Z) l : zsum (fun x => f x + g x) l = zsum f l + zsum g l.
Proof. induction l; simpl; lia. Qed.

Lemma zsum_omap {A B} (f : B -> Z) (g : A -> option B) l :
  zsum f (omap g l) = zsum (fun x => match g x with Some y => f y | None => 0 end) l.
Proof.
  induction l as [|x l IH]; [done|]. cbn. destruct (g x); cbn; rewrite <- IH; reflexivity.
Qed.

(** A sum that changes at one index. *)
Lemma zsum_update {A} `{EqDecision A} (f g : A -> Z) (l : list A) k :
  NoDup l -> k ∈ l -> (forall x, x <> k -> f x = g x) -> zsum f l = zsum g l + (f k - g k).
Proof.
  intros Hn Hk H. apply elem_of_Permutation in Hk as [l' Hp]. rewrite !(zsum_perm _ _ _ Hp).
  rewrite Hp in Hn. apply NoDup_cons in Hn as [Hn _]. simpl.
  rewrite (zsum_ext f g l'); [lia|]. intros x Hx. apply H. congruence.
Qed.

Lemma zsum_app {A} (f : A -> Z) l l' : zsum f (l ++ l') = zsum f l + zsum f l'.
Proof. induction l; simpl; lia. Qed.

Lemma zsum_le {A} (f g : A -> Z) l : (forall x, x ∈ l -> f x <= g x) -> zsum f l <= zsum g l.
Proof.
  induction l as [|x l IH]; simpl; intros H; [lia|].
  pose proof (H x ltac:(by left)). assert (zsum f l <= zsum g l); [|lia].
  apply IH. intros y Hy. apply H. by right.
Qed.

(** A loop that adds a term per element. *)
Lemma zsum_nonneg {A} (f : A -> Z) l : (forall x, 0 <= f x) -> 0 <= zsum f l.
Proof. intros H. induction l as [|x l IH]; simpl; [lia|]. specialize (H x). lia. Qed.

Lemma fold_sum {A} (f : A -> Z) l b : fold_left (fun acc x => acc + f x) l b = b + zsum f l.
Proof. revert b. induction l as [|x l IH]; intros b; simpl; [lia|]. rewrite IH. lia. Qed.

(** Simplification of [result] binds whose head is already [Ok]. *)
Ltac ok_step := rewrite ?bind_Ok; cbv beta.

(** Evaluate the branch conditions that are closed terms. *)
Ltac closed_ifs :=
  repeat match goal with
  | |- context [if ?c then _ else _] =>
      let v := eval vm_compute in c in
      first [constr_eq v true | constr_eq v false]; change c with v; cbv iota
  end.

Create HintDb wire.
Create Rewrite HintDb blen.
