(* ===== verification/Buffer.v ===== *)
(** * Node's [Buffer], as the codecs of src/src/lightning/message use it

    A buffer is a list of bytes.  The operations keep Node's behaviour at the
    edges: [copy] stops at the end of the target, [subarray] clamps, a read or
    a write of an integer out of bounds (or of a value that does not fit its
    width) throws.  The second half holds the layout lemmas every codec proof
    rests on: writing fields left to right into an allocated buffer yields
    their concatenation, and reading at a field's offset yields the field. *)

From S2P Require Import Prelude.
From Stdlib Require Import Strings.Byte.

Abbreviation buffer := (list byte).

Definition blen (b : buffer) : Z := Z.of_nat (length b).

(** [Buffer.alloc(n)] *)
Definition alloc (n : Z) : buffer := replicate (Z.to_nat n) x00.

(** [src.copy(dst, off)], [dst] after the call *)
Definition copy (src dst : buffer) (off : Z) : buffer :=
  take (Z.to_nat off) dst
    ++ take (Z.to_nat (blen dst - off)) src
    ++ drop (Z.to_nat (off + blen src)) dst.

(** [b.subarray(s, e)] for non-negative indices *)
Definition subarray (b : buffer) (s e : Z) : buffer :=
  take (Z.to_nat (e - s)) (drop (Z.to_nat s) b).

(** [b.subarray(s)] *)
Definition subarray_from (b : buffer) (s : Z) : buffer := drop (Z.to_nat s) b.

(** [b[i]], read as a number; the callers check the index first *)
Definition byte_at (b : buffer) (i : Z) : Z :=
  match b !! Z.to_nat i with Some x => Z_of_byte x | None => 0 end.

(** [b[i] = v]: the value is stored modulo 256; out of range is ignored *)
Definition set_byte (b : buffer) (i : Z) (v : Z) : buffer :=
  <[Z.to_nat i := byte_of_Z v]> b.

(** Big-endian bytes of [v], [n] of them, and the value of a byte string. *)
Fixpoint be (n : nat) (v : Z) : buffer :=
  match n with
  | O => []
  | S n' => be n' (v / 256) ++ [byte_of_Z v]
  end.

Definition unbe (b : buffer) : Z :=
  fold_left (fun acc x => acc * 256 + Z_of_byte x) b 0.

Definition ERR_RANGE : string := "ERR_OUT_OF_RANGE".

(** [writeUInt16BE], [writeUInt32BE], [writeBigUInt64BE]: [n] is 2, 4 or 8 *)
Definition writeUIntBE (n : Z) (b : buffer) (v off : Z) : result buffer :=
  _ ← throw_if ((v <? 0) || (256 ^ n <=? v)) ERR_RANGE;
  _ ← throw_if (blen b <? off + n) ERR_RANGE;
  Ok (copy (be (Z.to_nat n) v) b off).

Definition writeUInt16BE := writeUIntBE 2.
Definition writeUInt32BE := writeUIntBE 4.
Definition writeBigUInt64BE := writeUIntBE 8.

(** [readUInt16BE], [readUInt32BE], [readBigUInt64BE] *)
Definition readUIntBE (n : Z) (b : buffer) (off : Z) : result Z :=
  _ ← throw_if (blen b <? off + n) ERR_RANGE;
  Ok (unbe (subarray b off (off + n))).

Definition readUInt16BE := readUIntBE 2.
Definition readUInt32BE := readUIntBE 4.
Definition readBigUInt64BE := readUIntBE 8.

Global Instance buffer_eq_dec : EqDecision buffer := _.

(** [a.equals(b)] *)
Definition buf_equals (a b : buffer) : bool := bool_decide (a = b).

(** ** Lengths *)

Lemma blen_nil : blen [] = 0.
Proof. reflexivity. Qed.

Lemma blen_cons x b : blen (x :: b) = 1 + blen b.
Proof. unfold blen. simpl length. lia. Qed.

Lemma blen_app a b : blen (a ++ b) = blen a + blen b.
Proof. unfold blen. rewrite length_app. lia. Qed.

Lemma blen_nonneg b : 0 <= blen b.
Proof. unfold blen. lia. Qed.

Lemma blen_alloc n : 0 <= n -> blen (alloc n) = n.
Proof. unfold blen, alloc. rewrite length_replicate. lia. Qed.

Lemma length_be n v : length (be n v) = n.
Proof.
  revert v. induction n as [|n IH]; intros v; [done|].
  simpl. rewrite length_app, IH. simpl. lia.
Qed.

Lemma blen_be n v : blen (be n v) = Z.of_nat n.
Proof. unfold blen. by rewrite length_be. Qed.

Lemma blen_subarray b s e :
  0 <= s -> s <= e -> e <= blen b -> blen (subarray b s e) = e - s.
Proof.
  unfold blen, subarray. intros. rewrite length_take, length_drop. lia.
Qed.

Lemma blen_0_nil b : blen b = 0 -> b = [].
Proof. destruct b; [done | rewrite blen_cons; pose proof (blen_nonneg b0); lia]. Qed.

Lemma alloc_0 n : n <= 0 -> alloc n = [].
Proof. intros. unfold alloc. by replace (Z.to_nat n) with 0%nat by lia. Qed.

Global Hint Rewrite blen_nil blen_cons blen_app blen_be : blen.

(** [len]: normalise every buffer length, then linear arithmetic. *)
Ltac len :=
  autorewrite with blen in *; simpl Z.of_nat in *;
  try lia.

(** ** Big-endian integers *)

Lemma unbe_snoc b x : unbe (b ++ [x]) = unbe b * 256 + Z_of_byte x.
Proof. unfold unbe. by rewrite fold_left_app. Qed.

Lemma unbe_bound b : 0 <= unbe b < 256 ^ blen b.
Proof.
  induction b as [|x b IH] using rev_ind; [done|].
  rewrite unbe_snoc, blen_app. pose proof (Z_of_byte_range x).
  change (blen [x]) with 1. rewrite Z.pow_add_r by (apply blen_nonneg || lia).
  change (256 ^ 1) with 256. nia.
Qed.

Lemma unbe_be n v : 0 <= v < 256 ^ Z.of_nat n -> unbe (be n v) = v.
Proof.
  revert v. induction n as [|n IH]; intros v Hv.
  - change (256 ^ Z.of_nat 0) with 1 in Hv. simpl. unfold unbe. simpl. lia.
  - simpl be. rewrite unbe_snoc, Z_of_byte_of_Z, IH.
    + pose proof (Z.div_mod v 256 ltac:(lia)). lia.
    + rewrite Nat2Z.inj_succ, Z.pow_succ_r in Hv by lia. split.
      * apply Z.div_pos; lia.
      * apply Z.div_lt_upper_bound; lia.
Qed.

Lemma be_unbe b n : length b = n -> be n (unbe b) = b.
Proof.
  revert n. induction b as [|x b IH] using rev_ind; intros n Hn.
  - by rewrite <- Hn.
  - rewrite length_app in Hn. simpl in Hn.
    destruct n as [|n]; [lia|]. simpl. rewrite unbe_snoc.
    pose proof (Z_of_byte_range x).
    rewrite Z.div_add_l, Z.div_small, Z.add_0_r by lia.
    rewrite (IH n) by lia. f_equal.
    replace (byte_of_Z (unbe b * 256 + Z_of_byte x)) with x; [done|].
    apply Z_of_byte_inj. rewrite Z_of_byte_of_Z.
    rewrite Z.add_comm, Z.mod_add, Z.mod_small; lia.
Qed.

(** ** Reading at a field's offset *)

Section reads.
Implicit Types a r b : buffer.

Lemma subarray_hd a r s e : s = 0 -> e = blen a -> subarray (a ++ r) s e = a.
Proof.
  intros -> ->. unfold subarray, blen. rewrite Z.sub_0_r, Nat2Z.id. simpl.
  apply take_app_length.
Qed.

Lemma subarray_skip a r s e :
  blen a <= s -> subarray (a ++ r) s e = subarray r (s - blen a) (e - blen a).
Proof.
  intros H. unfold subarray, blen in *.
  rewrite drop_app_ge by lia.
  replace (Z.to_nat s - length a)%nat with (Z.to_nat (s - Z.of_nat (length a))) by lia.
  f_equal. lia.
Qed.

Lemma subarray_all b s e : s = 0 -> e = blen b -> subarray b s e = b.
Proof. intros -> ->. rewrite <- (app_nil_r b) at 1. by apply subarray_hd. Qed.

Lemma subarray_from_hd a r s : s = blen a -> subarray_from (a ++ r) s = r.
Proof. intros ->. unfold subarray_from, blen. rewrite Nat2Z.id. apply drop_app_length. Qed.

Lemma readUIntBE_hd n v r off :
  0 <= n -> off = 0 -> 0 <= v < 256 ^ n ->
  readUIntBE n (be (Z.to_nat n) v ++ r) off = Ok v.
Proof.
  intros Hn -> Hv. unfold readUIntBE.
  rewrite throw_if_false; simpl.
  - rewrite subarray_hd; [|done|rewrite blen_be; lia].
    rewrite unbe_be; [done|]. by rewrite Z2Nat.id.
  - apply Z.ltb_ge. rewrite blen_app, blen_be. pose proof (blen_nonneg r). lia.
Qed.

Lemma readUIntBE_all n v off :
  0 <= n -> off = 0 -> 0 <= v < 256 ^ n ->
  readUIntBE n (be (Z.to_nat n) v) off = Ok v.
Proof.
  intros. rewrite <- (app_nil_r (be _ _)). by apply readUIntBE_hd.
Qed.

Lemma readUIntBE_skip n a r off :
  blen a <= off -> readUIntBE n (a ++ r) off = readUIntBE n r (off - blen a).
Proof.
  intros H. unfold readUIntBE. rewrite subarray_skip by done.
  replace (off + n - blen a) with (off - blen a + n) by lia.
  f_equal. f_equal. rewrite blen_app.
  destruct (Z.ltb_spec (blen a + blen r) (off + n)),
    (Z.ltb_spec (blen r) (off - blen a + n)); lia.
Qed.

Lemma readUIntBE_cons n x r off :
  1 <= off -> readUIntBE n (x :: r) off = readUIntBE n r (off - 1).
Proof. intros H. apply (readUIntBE_skip n [x] r off H). Qed.

Lemma byte_at_skip a r i : blen a <= i -> byte_at (a ++ r) i = byte_at r (i - blen a).
Proof.
  intros H. unfold byte_at, blen in *. rewrite lookup_app_r by lia.
  by replace (Z.to_nat i - length a)%nat with (Z.to_nat (i - Z.of_nat (length a))) by lia.
Qed.

Lemma byte_at_hd x r i : i = 0 -> byte_at (x :: r) i = Z_of_byte x.
Proof. by intros ->. Qed.

Lemma byte_at_one x r i : i = 0 -> byte_at ([x] ++ r) i = Z_of_byte x.
Proof. by intros ->. Qed.

(** A read returns a value of its width. *)
Lemma readUIntBE_bound n b off v :
  0 <= n -> 0 <= off -> readUIntBE n b off = Ok v -> 0 <= v < 256 ^ n.
Proof.
  unfold readUIntBE. intros Hn Ho H. inv_result. bool_props.
  pose proof (unbe_bound (subarray b off (off + n))) as Hb.
  rewrite blen_subarray in Hb by lia. by replace (off + n - off) with n in Hb by lia.
Qed.

Lemma readUIntBE_ok n b off :
  off + n <= blen b -> readUIntBE n b off = Ok (unbe (subarray b off (off + n))).
Proof. intros H. unfold readUIntBE. rewrite throw_if_false; [done|]. apply Z.ltb_ge. lia. Qed.

Lemma readUIntBE_inv n b off v :
  0 <= n -> 0 <= off -> readUIntBE n b off = Ok v ->
  0 <= v < 256 ^ n /\ off + n <= blen b /\ v = unbe (subarray b off (off + n)).
Proof.
  intros Hn Ho H. pose proof (readUIntBE_bound _ _ _ _ Hn Ho H) as Hv.
  unfold readUIntBE in H. inv_result. bool_props. done.
Qed.

Lemma subarray_split b s m e :
  0 <= s -> s <= m -> m <= e -> subarray b s e = subarray b s m ++ subarray b m e.
Proof.
  intros. unfold subarray.
  replace (Z.to_nat (e - s)) with (Z.to_nat (m - s) + Z.to_nat (e - m))%nat by lia.
  replace (Z.to_nat m) with (Z.to_nat s + Z.to_nat (m - s))%nat by lia.
  by rewrite <- drop_drop, take_take_drop.
Qed.
End reads.

(** ** Writing fields left to right into an allocated buffer *)

Section writes.
Implicit Types pre src : buffer.

Lemma copy_fill pre src k off :
  off = blen pre -> blen src <= k ->
  copy src (pre ++ alloc k) off = (pre ++ src) ++ alloc (k - blen src).
Proof.
  intros -> Hk. pose proof (blen_nonneg src). unfold copy.
  rewrite blen_app, blen_alloc by lia.
  unfold blen at 1. rewrite Nat2Z.id, take_app_length.
  rewrite take_ge by (unfold blen in *; lia).
  rewrite <- app_assoc. f_equal. f_equal.
  rewrite drop_app_ge by (unfold blen; lia). unfold alloc.
  rewrite drop_replicate. f_equal. unfold blen. lia.
Qed.

Lemma write_fill n pre v k off :
  0 <= n -> off = blen pre -> n <= k -> 0 <= v < 256 ^ n ->
  writeUIntBE n (pre ++ alloc k) v off =
    Ok ((pre ++ be (Z.to_nat n) v) ++ alloc (k - n)).
Proof.
  intros Hn Ho Hk Hv. unfold writeUIntBE.
  rewrite throw_pass by (apply orb_false_iff; split; [apply Z.ltb_ge|apply Z.leb_gt]; lia).
  rewrite throw_pass; simpl.
  - rewrite copy_fill by (rewrite ?blen_be; lia). rewrite blen_be.
    by rewrite Z2Nat.id.
  - apply Z.ltb_ge. rewrite blen_app, blen_alloc by lia. lia.
Qed.

(** A value that does not fit its width is refused. *)
Lemma write_refused n b v off :
  v < 0 \/ 256 ^ n <= v -> writeUIntBE n b v off = Err ERR_RANGE.
Proof.
  intros H. unfold writeUIntBE. rewrite throw_stop; [done|]. apply orb_true_iff.
  rewrite Z.ltb_lt, Z.leb_le. done.
Qed.

Lemma copy_fill0 src k :
  blen src <= k -> copy src (alloc k) 0 = src ++ alloc (k - blen src).
Proof. intros H. by apply (copy_fill [] src k 0). Qed.

Lemma write_fill0 n v k :
  0 <= n -> n <= k -> 0 <= v < 256 ^ n ->
  writeUIntBE n (alloc k) v 0 = Ok (be (Z.to_nat n) v ++ alloc (k - n)).
Proof. intros. by apply (write_fill n [] v k 0). Qed.

Lemma alloc_fill k : alloc k = [] ++ alloc k.
Proof. reflexivity. Qed.
End writes.

(** ** Bytes one at a time *)

Lemma byte_at_range b i : 0 <= byte_at b i < 256.
Proof. unfold byte_at. destruct (b !! Z.to_nat i); [apply Z_of_byte_range | lia]. Qed.

Lemma subarray_byte b i :
  0 <= i < blen b -> subarray b i (i + 1) = [byte_of_Z (byte_at b i)].
Proof.
  intros H. unfold subarray, byte_at. replace (i + 1 - i) with 1 by lia.
  destruct (lookup_lt_is_Some_2 b (Z.to_nat i)) as [x Hx]; [unfold blen in H; lia|].
  rewrite Hx, byte_of_Z_of_byte, (drop_S _ _ _ Hx). reflexivity.
Qed.

Lemma unbe_subarray_snoc b s e :
  0 <= s -> s <= e -> e < blen b ->
  unbe (subarray b s (e + 1)) = unbe (subarray b s e) * 256 + byte_at b e.
Proof.
  intros Hs He Hb. rewrite (subarray_split b s e (e + 1)) by lia.
  rewrite subarray_byte, unbe_snoc, Z_of_byte_of_Z by lia. f_equal.
  apply Z.mod_small, byte_at_range.
Qed.

Lemma subarray_nil b s e : e <= s -> subarray b s e = [].
Proof. intros. unfold subarray. by replace (Z.to_nat (e - s)) with 0%nat by lia. Qed.

Lemma unbe_2 b s :
  0 <= s -> s + 2 <= blen b ->
  unbe (subarray b s (s + 2)) = byte_at b s * 256 + byte_at b (s + 1).
Proof.
  intros Hs Hb. pose proof (unbe_subarray_snoc b s s) as E0.
  pose proof (unbe_subarray_snoc b s (s + 1)) as E1.
  rewrite (subarray_nil b s s) in E0 by lia. change (unbe []) with 0 in E0.
  replace (s + 1 + 1) with (s + 2) in E1 by lia. rewrite E1, E0 by lia. lia.
Qed.

Lemma unbe_4 b s :
  0 <= s -> s + 4 <= blen b ->
  unbe (subarray b s (s + 4)) =
    byte_at b s * 2 ^ 24 + byte_at b (s + 1) * 2 ^ 16 + byte_at b (s + 2) * 2 ^ 8
    + byte_at b (s + 3).
Proof.
  intros Hs Hb. pose proof (unbe_2 b s) as E1.
  pose proof (unbe_subarray_snoc b s (s + 2)) as E2.
  pose proof (unbe_subarray_snoc b s (s + 3)) as E3.
  replace (s + 2 + 1) with (s + 3) in E2 by lia.
  replace (s + 3 + 1) with (s + 4) in E3 by lia. rewrite E3, E2, E1 by lia. lia.
Qed.

Lemma subarray_from_eq b s : 0 <= s -> subarray_from b s = subarray b s (blen b).
Proof.
  intros. unfold subarray_from, subarray. rewrite take_ge; [done|].
  rewrite length_drop. unfold blen. lia.
Qed.

(** [(a << n) | b] when [b] fits in the low [n] bits. *)
Lemma lor_shiftl_add a b n :
  0 <= n -> 0 <= b < 2 ^ n -> Z.lor (Z.shiftl a n) b = a * 2 ^ n + b.
Proof.
  intros Hn Hb.
  assert (Hl : Z.land (Z.shiftl a n) b = 0).
  { apply Z.bits_inj'. intros i Hi. rewrite Z.land_spec, Z.bits_0.
    destruct (Z.ltb_spec i n); [by rewrite Z.shiftl_spec_low by lia|].
    rewrite <- (Z.mod_small b (2 ^ n)) by lia.
    rewrite Z.mod_pow2_bits_high by lia. apply andb_false_r. }
  rewrite <- Z.lxor_lor, <- Z.add_nocarry_lxor by done.
  by rewrite Z.shiftl_mul_pow2 by lia.
Qed.

(** ** Little-endian and signed reads and writes *)

(** [writeUInt16LE], [writeUInt32LE] *)
Definition writeUIntLE (n : Z) (b : buffer) (v off : Z) : result buffer :=
  _ ← throw_if ((v <? 0) || (256 ^ n <=? v)) ERR_RANGE;
  _ ← throw_if (blen b <? off + n) ERR_RANGE;
  Ok (copy (reverse (be (Z.to_nat n) v)) b off).

(** [readUInt16LE], [readUInt32LE] *)
Definition readUIntLE (n : Z) (b : buffer) (off : Z) : result Z :=
  _ ← throw_if (blen b <? off + n) ERR_RANGE;
  Ok (unbe (reverse (subarray b off (off + n)))).

(** [writeBigInt64BE(v, 0)] into 8 bytes, and [readBigInt64BE(0)] *)
Definition bigInt64BE (v : Z) : result buffer :=
  _ ← throw_if ((v <? - 2 ^ 63) || (2 ^ 63 <=? v)) ERR_RANGE;
  Ok (be 8 (v mod 2 ^ 64)).

Definition readBigInt64BE (b : buffer) : result Z :=
  u ← readUIntBE 8 b 0; Ok (if u <? 2 ^ 63 then u else u - 2 ^ 64).

Lemma blen_reverse b : blen (reverse b) = blen b.
Proof. unfold blen. by rewrite length_reverse. Qed.

Lemma readUIntLE_hd n v r off :
  0 <= n -> off = 0 -> 0 <= v < 256 ^ n ->
  readUIntLE n (reverse (be (Z.to_nat n) v) ++ r) off = Ok v.
Proof.
  intros Hn -> Hv. unfold readUIntLE. pose proof (blen_nonneg r).
  rewrite throw_pass by (apply Z.ltb_ge; rewrite blen_app, blen_reverse, blen_be; lia).
  rewrite subarray_hd by (rewrite ?blen_reverse, ?blen_be; lia).
  rewrite reverse_involutive, unbe_be; [done|]. by rewrite Z2Nat.id.
Qed.

Lemma readUIntLE_skip n a r off :
  blen a <= off -> readUIntLE n (a ++ r) off = readUIntLE n r (off - blen a).
Proof.
  intros H. unfold readUIntLE. rewrite subarray_skip by done.
  replace (off + n - blen a) with (off - blen a + n) by lia.
  f_equal. f_equal. rewrite blen_app.
  destruct (Z.ltb_spec (blen a + blen r) (off + n)),
    (Z.ltb_spec (blen r) (off - blen a + n)); lia.
Qed.

Lemma readUIntLE_cons n x r off :
  1 <= off -> readUIntLE n (x :: r) off = readUIntLE n r (off - 1).
Proof. intros H. apply (readUIntLE_skip n [x] r off H). Qed.

Lemma writeLE_after_prefix n p v k :
  0 <= n -> 0 <= v < 256 ^ n -> k = 1 + n ->
  writeUIntLE n (set_byte (alloc k) 0 p) v 1 =
    Ok (byte_of_Z p :: reverse (be (Z.to_nat n) v)).
Proof.
  intros Hn Hv ->. unfold writeUIntLE.
  assert (set_byte (alloc (1 + n)) 0 p = [byte_of_Z p] ++ alloc n) as ->.
  { unfold set_byte, alloc. replace (Z.to_nat (1 + n)) with (S (Z.to_nat n)) by lia.
    reflexivity. }
  rewrite throw_pass by (apply orb_false_iff; split; [apply Z.ltb_ge|apply Z.leb_gt]; lia).
  rewrite throw_pass by
    (apply Z.ltb_ge; rewrite blen_app, blen_alloc by lia; rewrite blen_cons, blen_nil; lia).
  rewrite copy_fill by (rewrite ?blen_reverse, ?blen_be; done || lia).
  rewrite blen_reverse, blen_be, alloc_0 by lia. by rewrite app_nil_r.
Qed.

Lemma bigInt64_bytes v :
  - 2 ^ 63 <= v < 2 ^ 63 ->
  bigInt64BE v = Ok (be 8 (v mod 2 ^ 64)) /\ blen (be 8 (v mod 2 ^ 64)) = 8 /\
  readBigInt64BE (be 8 (v mod 2 ^ 64)) = Ok v.
Proof.
  intros Hv. unfold bigInt64BE, readBigInt64BE.
  rewrite throw_pass by (apply orb_false_iff; split; [apply Z.ltb_ge|apply Z.leb_gt]; lia).
  split; [done|]. split; [by rewrite blen_be|].
  pose proof (Z.mod_pos_bound v (2 ^ 64) ltac:(lia)).
  change (be 8 (v mod 2 ^ 64)) with (be (Z.to_nat 8) (v mod 2 ^ 64)).
  rewrite readUIntBE_all, bind_Ok by (done || lia). f_equal.
  destruct (Z.ltb_spec v 0).
  - assert (Hm : v mod 2 ^ 64 = v + 2 ^ 64).
    { symmetry. apply Z.mod_unique with (-1); lia. }
    rewrite Hm, (proj2 (Z.ltb_ge _ _)); lia.
  - rewrite Z.mod_small, (proj2 (Z.ltb_lt _ _)); lia.
Qed.

Global Opaque be readUIntBE writeUIntBE readUIntLE writeUIntLE.
Global Arguments alloc : simpl never.
Global Arguments copy : simpl never.
Global Arguments subarray : simpl never.
Global Arguments byte_at : simpl never.
Global Arguments readUInt16BE : simpl never.
Global Arguments readUInt32BE : simpl never.
Global Arguments readBigUInt64BE : simpl never.
Global Arguments writeUInt16BE : simpl never.
Global Arguments writeUInt32BE : simpl never.
Global Arguments writeBigUInt64BE : simpl never.
