(* ===== verification/Codec.v ===== *)
(** * BigSize integers and message framing (src/src/lightning/message/codec.ts)

    [encodeBigSize]/[decodeBigSize] are BOLT 1's variable-length integer;
    [readBigSizeParts] is the allocation-free reader of the rapid-gossip hot
    loop; [encodeMessage]/[decodeMessage] put the 2-byte type in front of a
    payload.  [bigint] values are [Z]; the 64-bit bound is the range check of
    [writeBigUInt64BE]. *)

From S2P Require Import Prelude Buffer.
From Stdlib Require Import Strings.Byte.

Definition E_BIGSIZE_NEG : string := "BigSize value must be non-negative".
Definition E_BIGSIZE_END : string := "BigSize: unexpected end of data".
Definition E_BIGSIZE_END2 : string := "BigSize: unexpected end of data for 2-byte value".
Definition E_BIGSIZE_END4 : string := "BigSize: unexpected end of data for 4-byte value".
Definition E_BIGSIZE_END8 : string := "BigSize: unexpected end of data for 8-byte value".
Definition E_BIGSIZE_CANON : string := "BigSize: non-canonical encoding for value".

Definition encodeBigSize (value : Z) : result buffer :=
  _ ← throw_if (value <? 0) E_BIGSIZE_NEG;
  if value <? 0xfd then Ok (set_byte (alloc 1) 0 value)
  else if value <? 0x10000 then
    writeUInt16BE (set_byte (alloc 3) 0 0xfd) value 1
  else if value <? 0x100000000 then
    writeUInt32BE (set_byte (alloc 5) 0 0xfe) value 1
  else
    writeBigUInt64BE (set_byte (alloc 9) 0 0xff) value 1.

Record IBigSizeResult := { bs_value : Z; bytesRead : Z }.

Definition decodeBigSize (data : buffer) (offset : Z) : result IBigSizeResult :=
  _ ← throw_if (blen data <=? offset) E_BIGSIZE_END;
  let first := byte_at data offset in
  if first <? 0xfd then Ok {| bs_value := first; bytesRead := 1 |}
  else if first =? 0xfd then
    _ ← throw_if (blen data <? offset + 3) E_BIGSIZE_END2;
    value ← readUInt16BE data (offset + 1);
    _ ← throw_if (value <? 0xfd) E_BIGSIZE_CANON;
    Ok {| bs_value := value; bytesRead := 3 |}
  else if first =? 0xfe then
    _ ← throw_if (blen data <? offset + 5) E_BIGSIZE_END4;
    value ← readUInt32BE data (offset + 1);
    _ ← throw_if (value <? 0x10000) E_BIGSIZE_CANON;
    Ok {| bs_value := value; bytesRead := 5 |}
  else
    _ ← throw_if (blen data <? offset + 9) E_BIGSIZE_END8;
    value ← readBigUInt64BE data (offset + 1);
    _ ← throw_if (value <? 0x100000000) E_BIGSIZE_CANON;
    Ok {| bs_value := value; bytesRead := 9 |}.

(** The int32 shifts and ors stay below 2^24, so they do not wrap. *)
Definition readU32Unchecked (data : buffer) (offset : Z) : Z :=
  byte_at data offset * 0x1000000 +
  Z.lor (Z.lor (Z.shiftl (byte_at data (offset + 1)) 16)
               (Z.shiftl (byte_at data (offset + 2)) 8))
        (byte_at data (offset + 3)).

(** The bytes consumed and the two halves left in [out]. *)
Record BigSizeParts := { parts_read : Z; parts_hi : Z; parts_lo : Z }.

Definition readBigSizeParts (data : buffer) (offset : Z) : result BigSizeParts :=
  _ ← throw_if (blen data <=? offset) E_BIGSIZE_END;
  let first := byte_at data offset in
  if first <? 0xfd then Ok {| parts_read := 1; parts_hi := 0; parts_lo := first |}
  else if first =? 0xfd then
    _ ← throw_if (blen data <? offset + 3) E_BIGSIZE_END2;
    let value := Z.lor (Z.shiftl (byte_at data (offset + 1)) 8)
                       (byte_at data (offset + 2)) in
    _ ← throw_if (value <? 0xfd) E_BIGSIZE_CANON;
    Ok {| parts_read := 3; parts_hi := 0; parts_lo := value |}
  else if first =? 0xfe then
    _ ← throw_if (blen data <? offset + 5) E_BIGSIZE_END4;
    let value := readU32Unchecked data (offset + 1) in
    _ ← throw_if (value <? 0x10000) E_BIGSIZE_CANON;
    Ok {| parts_read := 5; parts_hi := 0; parts_lo := value |}
  else
    _ ← throw_if (blen data <? offset + 9) E_BIGSIZE_END8;
    let hi := readU32Unchecked data (offset + 1) in
    let lo := readU32Unchecked data (offset + 5) in
    _ ← throw_if (hi =? 0) E_BIGSIZE_CANON;
    Ok {| parts_read := 9; parts_hi := hi; parts_lo := lo |}.

Definition encodeMessage (type : Z) (payload : buffer) : result buffer :=
  _ ← throw_if ((type <? 0) || (0xffff <? type)) "Message type must be 0-65535";
  header ← writeUInt16BE (alloc 2) type 0;
  Ok (header ++ payload).

Record IDecodedMessage := { dm_type : Z; dm_payload : buffer }.

Definition decodeMessage (data : buffer) : result IDecodedMessage :=
  _ ← throw_if (blen data <? 2) "Message too short: must be at least 2 bytes";
  type ← readUInt16BE data 0;
  Ok {| dm_type := type; dm_payload := subarray_from data 2 |}.

(** ** The bytes of an encoding *)

(** What [encodeBigSize] writes, as a closed form. *)
Definition bigsize (v : Z) : buffer :=
  if v <? 0xfd then [byte_of_Z v]
  else if v <? 0x10000 then byte_of_Z 0xfd :: be 2 v
  else if v <? 0x100000000 then byte_of_Z 0xfe :: be 4 v
  else byte_of_Z 0xff :: be 8 v.

Lemma write_after_prefix n p v k :
  0 <= n -> 0 <= v < 256 ^ n -> k = 1 + n ->
  writeUIntBE n (set_byte (alloc k) 0 p) v 1 =
    Ok (byte_of_Z p :: be (Z.to_nat n) v).
Proof.
  intros Hn Hv ->.
  assert (set_byte (alloc (1 + n)) 0 p = [byte_of_Z p] ++ alloc n) as ->.
  { unfold set_byte, alloc. replace (Z.to_nat (1 + n)) with (S (Z.to_nat n)) by lia.
    reflexivity. }
  rewrite write_fill by (done || lia). rewrite alloc_0 by lia. by rewrite app_nil_r.
Qed.

Lemma encodeBigSize_bytes v : 0 <= v < 2 ^ 64 -> encodeBigSize v = Ok (bigsize v).
Proof.
  intros Hv. unfold encodeBigSize, bigsize.
  rewrite throw_pass by (apply Z.ltb_ge; lia).
  repeat case_match; bool_props; try done;
    apply write_after_prefix; lia.
Qed.

(** A negative value or one past 64 bits is refused, whatever the branch. *)
Lemma encodeBigSize_refused v : v < 0 \/ 2 ^ 64 <= v -> is_ok (encodeBigSize v) = false.
Proof.
  intros [H|H]; unfold encodeBigSize.
  - rewrite throw_stop; [done | apply Z.ltb_lt; lia].
  - rewrite throw_pass by (apply Z.ltb_ge; lia).
    repeat (case_match; bool_props; try lia).
    unfold writeBigUInt64BE. rewrite write_refused; [done|].
    right. change (256 ^ 8) with (2 ^ 64). lia.
Qed.

Lemma blen_bigsize v : 1 <= blen (bigsize v) <= 9.
Proof. unfold bigsize. repeat case_match; autorewrite with blen; simpl; lia. Qed.

Lemma decodeBigSize_skip a r off :
  blen a <= off -> decodeBigSize (a ++ r) off = decodeBigSize r (off - blen a).
Proof.
  intros H. unfold decodeBigSize.
  unfold readUInt16BE, readUInt32BE, readBigUInt64BE.
  rewrite byte_at_skip, !readUIntBE_skip, blen_app by lia.
  assert (forall k, (blen a + blen r <? off + k) = (blen r <? off - blen a + k)) as E.
  { intros k. destruct (Z.ltb_spec (blen a + blen r) (off + k)),
      (Z.ltb_spec (blen r) (off - blen a + k)); lia. }
  rewrite !E. replace (off + 1 - blen a) with (off - blen a + 1) by lia.
  f_equal. f_equal.
  destruct (Z.leb_spec (blen a + blen r) off), (Z.leb_spec (blen r) (off - blen a)); lia.
Qed.

Lemma decodeBigSize_hd v r :
  0 <= v < 2 ^ 64 ->
  decodeBigSize (bigsize v ++ r) 0 = Ok {| bs_value := v; bytesRead := blen (bigsize v) |}.
Proof.
  intros Hv. pose proof (blen_nonneg r). unfold bigsize.
  repeat case_match; bool_props; unfold decodeBigSize;
    rewrite throw_pass by (apply Z.leb_gt; autorewrite with blen; simpl; lia);
    rewrite <- app_comm_cons, byte_at_hd, Z_of_byte_of_Z by done.
  1: { rewrite Z.mod_small by lia. by rewrite (proj2 (Z.ltb_lt _ _)). }
  all: closed_ifs;
    rewrite throw_pass by (apply Z.ltb_ge; autorewrite with blen; simpl; lia);
    unfold readUInt16BE, readUInt32BE, readBigUInt64BE;
    rewrite readUIntBE_cons by done;
    match goal with |- context [readUIntBE ?n (be ?m ?v ++ ?r) _] =>
      change (be m v) with (be (Z.to_nat n) v) end;
    rewrite readUIntBE_hd, bind_Ok by (done || lia);
    rewrite throw_pass by (apply Z.ltb_ge; lia);
    by rewrite blen_cons, blen_be.
Qed.

(** ** A decoded integer has exactly one encoding *)

Lemma canonical_bytes k p v data off :
  0 <= off -> off + (1 + k) <= blen data -> 0 <= k ->
  byte_at data off = p -> v = unbe (subarray data (off + 1) (off + 1 + k)) ->
  byte_of_Z p :: be (Z.to_nat k) v = subarray data off (off + (1 + k)).
Proof.
  intros Ho Hb Hk Hp ->. rewrite (subarray_split data off (off + 1)) by lia.
  rewrite subarray_byte, Hp by lia. simpl. f_equal.
  replace (off + (1 + k)) with (off + 1 + k) by lia.
  apply be_unbe. pose proof (blen_subarray data (off + 1) (off + 1 + k)).
  unfold blen in *. lia.
Qed.

Lemma decodeBigSize_sound data off r :
  0 <= off -> decodeBigSize data off = Ok r ->
  0 <= bs_value r < 2 ^ 64 /\ 1 <= bytesRead r /\ off + bytesRead r <= blen data /\
  bigsize (bs_value r) = subarray data off (off + bytesRead r).
Proof.
  intros Ho. unfold decodeBigSize. pose proof (byte_at_range data off) as Hr.
  intros H. inv_result. bool_props.
  repeat case_match; inv_result; bool_props; unfold bigsize; simpl;
    unfold readUInt16BE, readUInt32BE, readBigUInt64BE in *;
    try match goal with H : readUIntBE ?n _ _ = Ok ?x |- _ =>
      apply readUIntBE_inv in H; [destruct H as (? & ? & ?)|lia..] end;
    repeat rewrite (proj2 (Z.ltb_lt _ _)) by lia;
    repeat rewrite (proj2 (Z.ltb_ge _ _)) by lia;
    repeat rewrite (proj2 (Z.ltb_lt _ _)) by lia;
    (split; [lia|split; [lia|split; [lia|]]]).
  - by rewrite subarray_byte by lia.
  - by apply (canonical_bytes 2).
  - by apply (canonical_bytes 4).
  - apply (canonical_bytes 8); [lia..| |done]. lia.
Qed.

(** ** The halves reader agrees with the bigint reader *)

Lemma readU32Unchecked_unbe data off :
  0 <= off -> off + 4 <= blen data ->
  readU32Unchecked data off = unbe (subarray data off (off + 4)).
Proof.
  intros Ho Hb. unfold readU32Unchecked. rewrite unbe_4 by lia.
  pose proof (byte_at_range data (off + 1)). pose proof (byte_at_range data (off + 2)).
  pose proof (byte_at_range data (off + 3)).
  rewrite (lor_shiftl_add _ (Z.shiftl _ 8)) by
    (rewrite ?Z.shiftl_mul_pow2 by lia; simpl; lia).
  rewrite Z.shiftl_mul_pow2 by lia.
  replace (byte_at data (off + 1) * 2 ^ 16 + byte_at data (off + 2) * 2 ^ 8)
    with ((byte_at data (off + 1) * 2 ^ 8 + byte_at data (off + 2)) * 2 ^ 8) by lia.
  rewrite <- Z.shiftl_mul_pow2, lor_shiftl_add by (simpl; lia). simpl. lia.
Qed.

(** A big-endian value splits into its high and low halves. *)
Lemma unbe_halves a b :
  unbe (a ++ b) = unbe a * 256 ^ blen b + unbe b.
Proof.
  induction b as [|x b IH] using rev_ind.
  - rewrite app_nil_r. change (unbe []) with 0. change (256 ^ blen []) with 1. lia.
  - rewrite app_assoc, !unbe_snoc, IH, blen_app. change (blen [x]) with 1.
    rewrite Z.pow_add_r by (apply blen_nonneg || lia). lia.
Qed.

Definition parts_of (r : IBigSizeResult) : BigSizeParts :=
  {| parts_read := bytesRead r;
     parts_hi := bs_value r / 2 ^ 32; parts_lo := bs_value r mod 2 ^ 32 |}.

Lemma parts_small v n :
  0 <= v < 2 ^ 32 ->
  parts_of {| bs_value := v; bytesRead := n |} =
    {| parts_read := n; parts_hi := 0; parts_lo := v |}.
Proof. intros H. unfold parts_of. simpl. by rewrite Z.div_small, Z.mod_small by lia. Qed.

Lemma read16_lor data off :
  0 <= off -> off + 2 <= blen data ->
  Z.lor (Z.shiftl (byte_at data off) 8) (byte_at data (off + 1)) =
    unbe (subarray data off (off + 2)).
Proof.
  intros Ho Hb. pose proof (byte_at_range data (off + 1)).
  by rewrite lor_shiftl_add, unbe_2 by (simpl; lia).
Qed.

(** The 9-byte branch: the test on the high half is the canonicity test. *)
Lemma parts_wide data off :
  0 <= off -> off + 9 <= blen data ->
  let hi := readU32Unchecked data (off + 1) in
  let lo := readU32Unchecked data (off + 5) in
  let v := unbe (subarray data (off + 1) (off + 1 + 8)) in
  (hi =? 0) = (v <? 2 ^ 32) /\ v / 2 ^ 32 = hi /\ v mod 2 ^ 32 = lo.
Proof.
  intros Ho Hb. cbv zeta. rewrite !readU32Unchecked_unbe by lia.
  rewrite (subarray_split data (off + 1) (off + 1 + 4) (off + 1 + 8)) by lia.
  rewrite unbe_halves, blen_subarray by lia.
  replace (off + 5) with (off + 1 + 4) by lia.
  replace (off + 1 + 8 - (off + 1 + 4)) with 4 by lia. change (256 ^ 4) with (2 ^ 32).
  replace (off + 1 + 4 + 4) with (off + 1 + 8) by lia.
  set (H := unbe (subarray data (off + 1) (off + 1 + 4))).
  pose proof (unbe_bound (subarray data (off + 1 + 4) (off + 1 + 8))) as HL.
  pose proof (unbe_bound (subarray data (off + 1) (off + 1 + 4))) as HH. fold H in HH.
  rewrite blen_subarray in HL by lia.
  replace (off + 1 + 8 - (off + 1 + 4)) with 4 in HL by lia. change (256 ^ 4) with (2 ^ 32) in HL.
  set (L := unbe (subarray data (off + 1 + 4) (off + 1 + 8))) in *.
  rewrite Z.div_add_l, (Z.div_small L), Z.add_0_r by lia.
  rewrite Z.add_comm, Z.mod_add, Z.mod_small by lia. split; [|done].
  destruct (Z.eqb_spec H 0), (Z.ltb_spec (L + H * 2 ^ 32) (2 ^ 32)); try done; lia.
Qed.

Lemma readBigSizeParts_spec data off :
  0 <= off ->
  readBigSizeParts data off = parts_of <$> decodeBigSize data off.
Proof.
  intros Ho. unfold readBigSizeParts, decodeBigSize.
  pose proof (byte_at_range data off).
  unfold readUInt16BE, readUInt32BE, readBigUInt64BE.
  destruct (Z.leb_spec (blen data) off); [done|].
  rewrite !throw_pass by done.
  repeat case_match; bool_props; try (simpl; by rewrite parts_small by lia);
    match goal with |- context [throw_if (blen data <? off + ?k)] =>
      destruct (Z.ltb_spec (blen data) (off + k)); [done|]; rewrite !throw_pass by done
    end; rewrite readUIntBE_ok, bind_Ok by lia.
  - replace (off + 2) with (off + 1 + 1) by lia. rewrite read16_lor by lia.
    pose proof (unbe_bound (subarray data (off + 1) (off + 1 + 2))) as HB.
    rewrite blen_subarray in HB by lia.
    replace (off + 1 + 2 - (off + 1)) with 2 in HB by lia.
    unfold throw_if. case_match; [done|]. simpl. by rewrite parts_small by lia.
  - rewrite readU32Unchecked_unbe by lia.
    pose proof (unbe_bound (subarray data (off + 1) (off + 1 + 4))) as HB.
    rewrite blen_subarray in HB by lia.
    replace (off + 1 + 4 - (off + 1)) with 4 in HB by lia.
    unfold throw_if. case_match; [done|]. simpl. by rewrite parts_small by lia.
  - pose proof (parts_wide data off Ho ltac:(lia)) as (E & Hh & Hl). rewrite E.
    unfold throw_if. change 4294967296 with (2 ^ 32). case_match; [done|].
    simpl. unfold parts_of. simpl bs_value. simpl bytesRead. by rewrite Hh, Hl.
Qed.

(** ** Framing *)

Lemma encodeMessage_bytes type payload :
  0 <= type <= 0xffff -> encodeMessage type payload = Ok (be 2 type ++ payload).
Proof.
  intros H. unfold encodeMessage, writeUInt16BE.
  rewrite throw_pass by (apply orb_false_iff; split; apply Z.ltb_ge; lia).
  rewrite alloc_fill, write_fill by (done || lia).
  rewrite bind_Ok, alloc_0 by lia. by rewrite app_nil_r.
Qed.

Lemma decodeMessage_frame type payload :
  0 <= type <= 0xffff ->
  decodeMessage (be 2 type ++ payload) = Ok {| dm_type := type; dm_payload := payload |}.
Proof.
  intros H. unfold decodeMessage, readUInt16BE. pose proof (blen_nonneg payload).
  rewrite throw_pass by (apply Z.ltb_ge; autorewrite with blen; simpl; lia).
  change (be 2 type) with (be (Z.to_nat 2) type).
  rewrite readUIntBE_hd, bind_Ok by (done || lia).
  by rewrite subarray_from_hd by (by rewrite blen_be).
Qed.

(** ** Properties *)

(** Every value that fits in 64 bits encodes, and
    decoding the encoding at its offset inside any buffer returns the value and
    the number of bytes the encoding takes. *)
Theorem bigsize_roundtrip (pre rest : buffer) (v : Z) :
  0 <= v < 2 ^ 64 ->
  exists b, encodeBigSize v = Ok b /\
    decodeBigSize (pre ++ b ++ rest) (blen pre) =
      Ok {| bs_value := v; bytesRead := blen b |}.
Proof.
  intros H. exists (bigsize v). split; [by apply encodeBigSize_bytes|].
  rewrite decodeBigSize_skip, Z.sub_diag by lia. by apply decodeBigSize_hd.
Qed.

Lemma bigsize_roundtrip_witness :
  0 <= 0x10000 < 2 ^ 64 /\
  exists b, encodeBigSize 0x10000 = Ok b /\
    decodeBigSize ([x01] ++ b ++ [xff]) (blen [x01]) =
      Ok {| bs_value := 0x10000; bytesRead := blen b |}.
Proof. split; [lia | apply (bigsize_roundtrip [x01] [xff] 0x10000); lia]. Defined.

(** Whatever bytes the decoder accepts, they are the
    encoder's own output for the decoded value and lie inside the buffer: no two
    byte strings decode to the same integer. *)
Theorem bigsize_canonical (data : buffer) (off : Z) (r : IBigSizeResult) :
  0 <= off -> decodeBigSize data off = Ok r ->
  off + bytesRead r <= blen data /\
  encodeBigSize (bs_value r) = Ok (subarray data off (off + bytesRead r)).
Proof.
  intros Ho H. apply decodeBigSize_sound in H as (Hv & _ & Hb & <-); [|done].
  split; [done | by apply encodeBigSize_bytes].
Qed.

Lemma bigsize_canonical_witness :
  encodeBigSize 0xfd = Ok (subarray [x00; xfd; x00; xfd; x07] 1 (1 + 3)).
Proof.
  apply (bigsize_canonical [x00; xfd; x00; xfd; x07] 1
           {| bs_value := 0xfd; bytesRead := 3 |}); [lia | vm_compute; reflexivity].
Defined.

(** The allocation-free reader used by the
    rapid-gossip import returns on every buffer, errors included, the 32-bit
    halves of what [decodeBigSize] returns. *)
Theorem readBigSizeParts_agrees (data : buffer) (off : Z) :
  0 <= off ->
  readBigSizeParts data off =
    (r ← decodeBigSize data off;
     Ok {| parts_read := bytesRead r;
           parts_hi := bs_value r / 2 ^ 32; parts_lo := bs_value r mod 2 ^ 32 |}).
Proof.
  intros Ho. rewrite readBigSizeParts_spec by done. by destruct (decodeBigSize data off).
Qed.

Lemma readBigSizeParts_agrees_witness :
  readBigSizeParts [xff; x00; x00; x00; x02; x00; x00; x00; x05] 0 =
    Ok {| parts_read := 9; parts_hi := 2; parts_lo := 5 |}.
Proof. rewrite readBigSizeParts_agrees by lia. vm_compute. reflexivity. Defined.
