(* ===== verification/Tlv.v ===== *)
(** * TLV streams (src/src/lightning/message/tlv.ts)

    A record is a BigSize type, a BigSize length and the value; a stream is a
    strictly increasing sequence of records.  The decoder's [while] loop runs
    on fuel: every iteration consumes at least two bytes, so one unit per byte
    and one for the final test are enough ([tlv_loop_fuel]).  [Number(length)]
    is the identity here: a length of 2^53 or more is rounded to another number
    above any buffer length, and is refused either way. *)

From S2P Require Import Prelude Buffer Codec.
From Stdlib Require Import Strings.Byte.

Record ITlvRecord := { tlv_type : Z; tlv_value : buffer }.

Definition encodeTlvRecord (record : ITlvRecord) : result buffer :=
  typeBytes ← encodeBigSize (tlv_type record);
  lengthBytes ← encodeBigSize (blen (tlv_value record));
  Ok (typeBytes ++ lengthBytes ++ tlv_value record).

Definition E_TLV_SORT : string := "TLV records must be in strictly increasing order".
Definition E_TLV_ORDER : string := "TLV stream not in order".
Definition E_TLV_SHORT : string := "TLV record: expected more bytes than available".
Definition E_TLV_UNKNOWN : string := "Unknown required TLV type".
Definition E_TLV_FUEL : string := "out of fuel".

Fixpoint check_order (records : list ITlvRecord) : result unit :=
  match records with
  | r1 :: ((r2 :: _) as tl) =>
      _ ← throw_if (tlv_type r2 <=? tlv_type r1) E_TLV_SORT; check_order tl
  | _ => Ok tt
  end.

Fixpoint encode_all (records : list ITlvRecord) : result buffer :=
  match records with
  | [] => Ok []
  | r :: rs => b ← encodeTlvRecord r; bs ← encode_all rs; Ok (b ++ bs)
  end.

Definition encodeTlvStream (records : list ITlvRecord) : result buffer :=
  _ ← check_order records; encode_all records.

Record ITlvStreamResult := { records : list ITlvRecord; stream_bytesRead : Z }.

(** [Set.has] *)
Definition has (s : list Z) (x : Z) : bool := existsb (Z.eqb x) s.

Definition unknown_required (knownTypes : option (list Z)) (t : Z) : bool :=
  match knownTypes with
  | Some known => (t mod 2 =? 0) && negb (has known t)
  | None => false
  end.

Fixpoint tlv_loop (fuel : nat) (data : buffer) (pos lastType : Z)
    (knownTypes : option (list Z)) (acc : list ITlvRecord) : result (list ITlvRecord * Z) :=
  if pos <? blen data then
    match fuel with
    | O => Err E_TLV_FUEL
    | S fuel' =>
        typeResult ← decodeBigSize data pos;
        let pos := pos + bytesRead typeResult in
        let recordType := bs_value typeResult in
        _ ← throw_if (recordType <=? lastType) E_TLV_ORDER;
        lengthResult ← decodeBigSize data pos;
        let pos := pos + bytesRead lengthResult in
        let recordLength := bs_value lengthResult in
        _ ← throw_if (blen data <? pos + recordLength) E_TLV_SHORT;
        let value := subarray data pos (pos + recordLength) in
        let pos := pos + recordLength in
        _ ← throw_if (unknown_required knownTypes recordType) E_TLV_UNKNOWN;
        tlv_loop fuel' data pos recordType knownTypes
          (acc ++ [{| tlv_type := recordType; tlv_value := value |}])
    end
  else Ok (acc, pos).

Definition decodeTlvStream (data : buffer) (offset : Z)
    (knownTypes : option (list Z)) : result ITlvStreamResult :=
  '(rs, pos) ← tlv_loop (S (length data)) data offset (-1) knownTypes [];
  Ok {| records := rs; stream_bytesRead := pos - offset |}.

Definition findTlvRecord (rs : list ITlvRecord) (type : Z) : option buffer :=
  tlv_value <$> List.find (fun r => tlv_type r =? type) rs.

(** ** The bytes of a stream *)

Definition record_bytes (r : ITlvRecord) : buffer :=
  bigsize (tlv_type r) ++ bigsize (blen (tlv_value r)) ++ tlv_value r.

Definition stream_bytes (rs : list ITlvRecord) : buffer := concat (map record_bytes rs).

(** A record whose type and length fit the wire. *)
Definition record_wf (r : ITlvRecord) : Prop :=
  0 <= tlv_type r < 2 ^ 64 /\ blen (tlv_value r) < 2 ^ 64.

(** Types strictly above [last] and strictly increasing. *)
Fixpoint increasing_from (last : Z) (rs : list ITlvRecord) : Prop :=
  match rs with
  | [] => True
  | r :: rs => last < tlv_type r /\ increasing_from (tlv_type r) rs
  end.

(** No record the receiver would have to understand and does not. *)
Definition all_known (knownTypes : option (list Z)) (rs : list ITlvRecord) : Prop :=
  Forall (fun r => unknown_required knownTypes (tlv_type r) = false) rs.

Lemma encodeTlvRecord_bytes r : record_wf r -> encodeTlvRecord r = Ok (record_bytes r).
Proof.
  intros [Ht Hv]. unfold encodeTlvRecord. pose proof (blen_nonneg (tlv_value r)).
  by rewrite !encodeBigSize_bytes by lia.
Qed.

Lemma encode_all_bytes rs : Forall record_wf rs -> encode_all rs = Ok (stream_bytes rs).
Proof.
  induction 1 as [|r rs Hr _ IH]; [done|]. simpl.
  by rewrite encodeTlvRecord_bytes, IH by done.
Qed.

Lemma increasing_check last rs : increasing_from last rs -> check_order rs = Ok tt.
Proof.
  revert last. induction rs as [|r1 [|r2 rs] IH]; intros last H; [done..|].
  destruct H as [_ [H12 Hrs]]. change (check_order (r1 :: r2 :: rs)) with
    (_ ← throw_if (tlv_type r2 <=? tlv_type r1) E_TLV_SORT; check_order (r2 :: rs)).
  rewrite throw_pass by (apply Z.leb_gt; lia). by apply (IH (tlv_type r1)).
Qed.

Lemma encodeTlvStream_bytes last rs :
  increasing_from last rs -> Forall record_wf rs ->
  encodeTlvStream rs = Ok (stream_bytes rs).
Proof.
  intros Hi Hw. unfold encodeTlvStream. erewrite increasing_check by done.
  by apply encode_all_bytes.
Qed.

Lemma record_bytes_len r : 2 <= blen (record_bytes r).
Proof.
  unfold record_bytes. autorewrite with blen.
  pose proof (blen_bigsize (tlv_type r)). pose proof (blen_bigsize (blen (tlv_value r))).
  pose proof (blen_nonneg (tlv_value r)). lia.
Qed.

Lemma stream_bytes_count rs : (length rs <= length (stream_bytes rs))%nat.
Proof.
  induction rs as [|r rs IH]; [done|]. unfold stream_bytes in *. simpl.
  rewrite length_app. pose proof (record_bytes_len r) as H. unfold blen in H. lia.
Qed.

(** ** Decoding what was encoded *)

Lemma tlv_loop_step fuel pre r rest last known acc :
  record_wf r -> last < tlv_type r -> unknown_required known (tlv_type r) = false ->
  tlv_loop (S fuel) (pre ++ record_bytes r ++ rest) (blen pre) last known acc =
  tlv_loop fuel (pre ++ record_bytes r ++ rest) (blen (pre ++ record_bytes r))
    (tlv_type r) known (acc ++ [r]).
Proof.
  intros [Ht Hv] Hlast Hk. simpl tlv_loop at 1.
  pose proof (record_bytes_len r). pose proof (blen_nonneg rest).
  pose proof (blen_nonneg (tlv_value r)) as Hvn.
  rewrite (proj2 (Z.ltb_lt _ _)) by (autorewrite with blen; lia).
  unfold record_bytes. rewrite <- !app_assoc.
  rewrite decodeBigSize_skip, Z.sub_diag, decodeBigSize_hd by lia.
  rewrite bind_Ok. cbn [bs_value bytesRead].
  rewrite throw_pass by (apply Z.leb_gt; lia).
  rewrite decodeBigSize_skip by (pose proof (blen_bigsize (tlv_type r)); lia).
  replace (blen pre + blen (bigsize (tlv_type r)) - blen pre)
    with (blen (bigsize (tlv_type r))) by lia.
  rewrite decodeBigSize_skip, Z.sub_diag, decodeBigSize_hd by lia.
  rewrite bind_Ok. cbn [bs_value bytesRead].
  pose proof (blen_bigsize (tlv_type r)).
  pose proof (blen_bigsize (blen (tlv_value r))).
  rewrite throw_pass by (apply Z.ltb_ge; autorewrite with blen; lia).
  rewrite throw_pass by done.
  rewrite !subarray_skip by lia. rewrite subarray_hd by lia.
  f_equal.
  - autorewrite with blen. lia.
  - by destruct r.
Qed.

Lemma tlv_loop_end fuel data pos last known acc :
  blen data <= pos -> tlv_loop fuel data pos last known acc = Ok (acc, pos).
Proof.
  intros H. destruct fuel; simpl; by rewrite (proj2 (Z.ltb_ge _ _)).
Qed.

Lemma tlv_loop_run rs : forall fuel pre last known acc,
  (length rs <= fuel)%nat -> Forall record_wf rs -> increasing_from last rs ->
  all_known known rs ->
  tlv_loop fuel (pre ++ stream_bytes rs) (blen pre) last known acc =
    Ok (acc ++ rs, blen (pre ++ stream_bytes rs)).
Proof.
  induction rs as [|r rs IH]; intros fuel pre last known acc Hf Hw Hi Hk.
  - change (stream_bytes []) with (@nil byte). rewrite !app_nil_r.
    by rewrite tlv_loop_end by lia.
  - inversion Hw; inversion Hk; subst. destruct Hi as [Hi Hi'].
    destruct fuel as [|fuel]; [simpl in Hf; lia|].
    change (stream_bytes (r :: rs)) with (record_bytes r ++ stream_bytes rs).
    rewrite tlv_loop_step by done. rewrite (app_assoc pre).
    rewrite IH by (done || simpl in Hf; lia). by rewrite <- app_assoc.
Qed.

Lemma decodeTlvStream_run pre rs known :
  Forall record_wf rs -> increasing_from (-1) rs -> all_known known rs ->
  decodeTlvStream (pre ++ stream_bytes rs) (blen pre) known =
    Ok {| records := rs; stream_bytesRead := blen (stream_bytes rs) |}.
Proof.
  intros Hw Hi Hk. unfold decodeTlvStream.
  rewrite tlv_loop_run; [|rewrite length_app; pose proof (stream_bytes_count rs); lia|done..].
  simpl. do 2 f_equal. rewrite blen_app. lia.
Qed.

(** ** What the decoder accepts *)

Lemma tlv_loop_sound fuel : forall data pos last known acc rs pos',
  0 <= pos <= blen data -> -1 <= last ->
  tlv_loop fuel data pos last known acc = Ok (rs, pos') ->
  exists new, rs = acc ++ new /\ pos' = blen data /\
    subarray data pos (blen data) = stream_bytes new /\
    Forall record_wf new /\ increasing_from last new /\ all_known known new.
Proof.
  assert (Hend : forall data pos last known acc rs pos',
    0 <= pos <= blen data -> blen data <= pos ->
    Ok (acc, pos) = Ok (rs, pos') ->
    exists new, rs = acc ++ new /\ pos' = blen data /\
      subarray data pos (blen data) = stream_bytes new /\
      Forall record_wf new /\ increasing_from last new /\ all_known known new).
  { intros data pos last known acc rs pos' Hp Hle H. injection H as <- <-. exists [].
    rewrite app_nil_r, subarray_nil by lia. repeat split; try constructor. lia. }
  induction fuel as [|fuel IH]; intros data pos last known acc rs pos' Hp Hl H;
    simpl in H; destruct (Z.ltb_spec pos (blen data)); [discriminate|eauto| |eauto].
  inv_result. bool_props.
  match goal with H : decodeBigSize data pos = Ok ?t |- _ =>
    apply decodeBigSize_sound in H as (Ht & Ht1 & Htb & Htbytes); [|lia] end.
  match goal with H : decodeBigSize data _ = Ok ?t |- _ =>
    apply decodeBigSize_sound in H as (Hn & Hn1 & Hnb & Hnbytes); [|lia] end.
  apply IH in H as (new & -> & -> & Hs & Hw & Hi & Hk); [|lia..].
  eexists (_ :: new). split; [by rewrite <- app_assoc|]. split; [done|].
  assert (Hlen : forall p n, 0 <= p -> 0 <= n -> p + n <= blen data ->
            blen (subarray data p (p + n)) = n).
  { intros. rewrite blen_subarray by lia. lia. }
  split; [|split; [|split]].
  - change (stream_bytes (?r :: new)) with (record_bytes r ++ stream_bytes new).
    rewrite <- Hs. unfold record_bytes. cbn [tlv_type tlv_value].
    rewrite Hlen by lia. rewrite Htbytes, Hnbytes, <- !app_assoc.
    by rewrite <- !subarray_split by lia.
  - constructor; [|done]. split; cbn [tlv_type tlv_value]; [done|]. rewrite Hlen; lia.
  - simpl. split; [lia | done].
  - by constructor.
Qed.

(** Any two amounts of fuel above the bytes left give the same outcome. *)
Lemma tlv_loop_fuel f1 : forall f2 data pos last known acc,
  0 <= pos -> blen data - pos < Z.of_nat f1 -> blen data - pos < Z.of_nat f2 ->
  tlv_loop f1 data pos last known acc = tlv_loop f2 data pos last known acc.
Proof.
  induction f1 as [|f1 IH]; intros f2 data pos last known acc Hp H1 H2.
  - rewrite !tlv_loop_end by lia. done.
  - destruct f2 as [|f2]; [rewrite !tlv_loop_end by lia; done|]. simpl.
    case_match; [|done].
    destruct (decodeBigSize data pos) as [t|] eqn:Et; [simpl|done].
    apply decodeBigSize_sound in Et as (Ht & Ht1 & Htb & _); [|done].
    unfold throw_if at 1 4. case_match; [done|]. simpl.
    destruct (decodeBigSize data (pos + bytesRead t)) as [n|] eqn:En; [simpl|done].
    apply decodeBigSize_sound in En as (Hn & Hn1 & Hnb & _); [|lia].
    unfold throw_if at 1 3. case_match; [done|]. simpl.
    unfold throw_if. case_match; [done|]. simpl. apply IH; lia.
Qed.

(** ** Properties *)

(** A strictly increasing list of records whose
    types and lengths fit 64 bits encodes, and decoding the bytes at their offset
    returns exactly those records and consumes exactly those bytes, provided the
    reader knows every even type. *)
Theorem tlv_stream_roundtrip (pre : buffer) (rs : list ITlvRecord) (known : option (list Z)) :
  Forall record_wf rs -> increasing_from (-1) rs -> all_known known rs ->
  exists b, encodeTlvStream rs = Ok b /\
    decodeTlvStream (pre ++ b) (blen pre) known =
      Ok {| records := rs; stream_bytesRead := blen b |}.
Proof.
  intros Hw Hi Hk. exists (stream_bytes rs).
  split; [by eapply encodeTlvStream_bytes | by apply decodeTlvStream_run].
Qed.

Lemma tlv_stream_roundtrip_witness :
  exists b, encodeTlvStream [{| tlv_type := 1; tlv_value := [xaa] |};
                             {| tlv_type := 4; tlv_value := [] |}] = Ok b /\
    decodeTlvStream ([x00; x00] ++ b) (blen [x00; x00]) (Some [4]) =
      Ok {| records := [{| tlv_type := 1; tlv_value := [xaa] |};
                        {| tlv_type := 4; tlv_value := [] |}];
            stream_bytesRead := blen b |}.
Proof.
  apply (tlv_stream_roundtrip [x00; x00]).
  - repeat constructor; simpl; lia.
  - simpl. lia.
  - repeat constructor.
Defined.

(** Whatever the decoder accepts is the encoding of
    the records it returns: they are strictly increasing, no even type among
    them is unknown to the reader, and re-encoding them yields the input bytes
    to the end of the buffer, which are all consumed. *)
Theorem tlv_stream_sound (data : buffer) (off : Z) (known : option (list Z)) res :
  0 <= off <= blen data -> decodeTlvStream data off known = Ok res ->
  increasing_from (-1) (records res) /\ all_known known (records res) /\
  stream_bytesRead res = blen data - off /\
  encodeTlvStream (records res) = Ok (subarray data off (blen data)).
Proof.
  unfold decodeTlvStream. intros Ho H.
  apply bind_Ok_inv in H as ([rs pos] & Hl & H). injection H as <-.
  apply tlv_loop_sound in Hl as (new & -> & -> & Hs & Hw & Hi & Hk); [|lia..].
  simpl. repeat split; try done. rewrite Hs. by eapply encodeTlvStream_bytes.
Qed.

Lemma tlv_stream_sound_witness :
  encodeTlvStream [{| tlv_type := 1; tlv_value := [xaa; xbb] |}] =
    Ok (subarray [x07; x01; x02; xaa; xbb] 1 (blen [x07; x01; x02; xaa; xbb])).
Proof.
  apply (tlv_stream_sound [x07; x01; x02; xaa; xbb] 1 (Some [])
    {| records := [{| tlv_type := 1; tlv_value := [xaa; xbb] |}]; stream_bytesRead := 4 |}).
  - vm_compute. split; discriminate.
  - vm_compute. reflexivity.
Defined.

(** The decoder's loop always ends on its own:
    giving it any larger number of iterations does not change its outcome, for
    accepted and refused streams alike. *)
Theorem tlv_decode_terminates (data : buffer) (off : Z) (known : option (list Z)) (extra : nat) :
  0 <= off ->
  decodeTlvStream data off known =
    ('(rs, pos) ← tlv_loop (S (length data) + extra) data off (-1) known [];
     Ok {| records := rs; stream_bytesRead := pos - off |}).
Proof.
  intros Ho. unfold decodeTlvStream.
  rewrite (tlv_loop_fuel (S (length data)) (S (length data) + extra)); [done|lia|..];
    unfold blen; lia.
Qed.

Lemma tlv_decode_terminates_witness :
  decodeTlvStream [x01; x01; x05] 0 None =
    ('(rs, pos) ← tlv_loop (S (length [x01; x01; x05]) + 7) [x01; x01; x05] 0 (-1) None [];
     Ok {| records := rs; stream_bytesRead := pos - 0 |}).
Proof. apply (tlv_decode_terminates [x01; x01; x05] 0 None 7). lia. Defined.

Global Arguments decodeTlvStream : simpl never.
Global Arguments encodeTlvRecord : simpl never.
