(* ===== verification/Wire.v ===== *)
(** * The interface of a message codec

    [WireMessage] is what a message type of src/src/lightning/message promises
    its users: an encoder, a decoder, the messages it is meant for, and that
    decoding undoes encoding on them.  The codec files declare its instances and
    Messages.v proves the framed round trip once, against the class.  The tactics
    here evaluate an encoder to the concatenation of its fields, and a decoder on
    such a concatenation; every codec file uses them. *)

From S2P Require Import Prelude Buffer Codec Tlv.
From Stdlib Require Import Strings.Byte.

(** ** Automation *)

Ltac blia := autorewrite with blen; simpl Z.of_nat; simpl Z.to_nat; lia.

Ltac rng := first [ lia | done | blia ].

(** Fill an allocated buffer field by field. *)
Ltac enc :=
  unfold writeUInt16BE, writeUInt32BE, writeBigUInt64BE;
  repeat first
    [ rewrite copy_fill0 by blia
    | rewrite write_fill0 by rng
    | rewrite copy_fill by blia
    | rewrite write_fill by rng
    | progress rewrite ?bind_Ok ];
  repeat match goal with |- context [alloc ?n] => rewrite (alloc_0 n) by blia end;
  simpl Z.to_nat; rewrite ?app_nil_r, <- ?app_assoc.

(** Pass the guards that hold; the side conditions are on lengths. *)
Ltac pass_guard := rewrite throw_pass by (first [apply Z.ltb_ge | apply Z.leb_gt]; blia).

(** Read fields out of a concatenation. *)
Ltac rd :=
  unfold readUInt16BE, readUInt32BE, readBigUInt64BE;
  repeat match goal with
  | |- context [subarray (?a ++ ?r) ?s ?e] =>
      first [ rewrite (subarray_hd a r s e) by blia
            | rewrite (subarray_skip a r s e) by blia ]
  | |- context [subarray ?a ?s ?e] => rewrite (subarray_all a s e) by blia
  | |- context [readUIntBE ?n (be ?k ?v ++ ?r) ?off] =>
      change (be k v) with (be (Z.to_nat n) v);
      rewrite (readUIntBE_hd n v r off) by rng; simpl Z.to_nat; rewrite ?bind_Ok
  | |- context [readUIntBE ?n (be ?k ?v) ?off] =>
      change (be k v) with (be (Z.to_nat n) v);
      rewrite (readUIntBE_all n v off) by rng; simpl Z.to_nat; rewrite ?bind_Ok
  | |- context [readUIntBE ?n (?a ++ ?r) ?off] =>
      rewrite (readUIntBE_skip n a r off) by blia
  | |- context [byte_at ([?x] ++ ?r) ?i] =>
      rewrite (byte_at_one x r i) by blia
  | |- context [byte_at (?a ++ ?r) ?i] => rewrite (byte_at_skip a r i) by blia
  | |- context [throw_if (_ <? _) _ ≫= _] => pass_guard
  end; cbv beta.

(** The [if (offset < payload.length)] tests in front of a TLV stream. *)
Ltac tail_test :=
  repeat match goal with
  | |- context [if ?a <? ?b then _ else _] =>
      first [ rewrite (proj2 (Z.ltb_lt a b)) by blia | rewrite (proj2 (Z.ltb_ge a b)) by blia ]
  end; cbv iota.

(** ** The interface *)

Class WireMessage (M : Type) := {
  wm_type : Z;
  wm_encode : M -> result buffer;
  wm_decode : buffer -> result M;
  wm_wf : M -> Prop;
  wm_type_range : 0 <= wm_type <= 0xffff;
  wm_roundtrip : forall m, wm_wf m -> exists b, wm_encode m = Ok b /\ wm_decode b = Ok m
}.

(** [peer.sendMessage(type, encode(msg))]: the bytes handed to the transport. *)
Definition frame_message {M} `{WireMessage M} (m : M) : result buffer :=
  payload ← wm_encode m; encodeMessage wm_type payload.

(** The receiver's side: the frame is split and the payload decoded. *)
Definition unframe_message {M} `{WireMessage M} (data : buffer) : result (Z * M) :=
  d ← decodeMessage data; m ← wm_decode (dm_payload d); Ok (dm_type d, m).

Lemma frame_unframe {M} `{WireMessage M} (m : M) :
  wm_wf m -> exists b, frame_message m = Ok b /\ unframe_message b = Ok (wm_type, m).
Proof.
  intros Hw. destruct (wm_roundtrip m Hw) as (p & He & Hd).
  exists (be 2 wm_type ++ p). unfold frame_message, unframe_message.
  rewrite He, bind_Ok, encodeMessage_bytes, decodeMessage_frame by apply wm_type_range.
  split; [done|]. simpl. by rewrite Hd.
Qed.

(** ** TLV tails *)

Lemma stream_bytes_nil : stream_bytes [] = [].
Proof. reflexivity. Qed.

Lemma stream_bytes_cons r rs : stream_bytes (r :: rs) = record_bytes r ++ stream_bytes rs.
Proof. reflexivity. Qed.

Lemma decodeTlvStream_at pre rs off known data :
  data = pre ++ stream_bytes rs -> off = blen pre ->
  Forall record_wf rs -> increasing_from (-1) rs -> all_known known rs ->
  decodeTlvStream data off known =
    Ok {| records := rs; stream_bytesRead := blen (stream_bytes rs) |}.
Proof. intros -> ->. apply decodeTlvStream_run. Qed.

Lemma stream_bytes_app a b : stream_bytes (a ++ b) = stream_bytes a ++ stream_bytes b.
Proof. unfold stream_bytes. by rewrite map_app, concat_app. Qed.

Lemma stream_bytes_empty rs : blen (stream_bytes rs) <= 0 -> rs = [].
Proof.
  destruct rs as [|r rs]; [done|]. rewrite stream_bytes_cons, blen_app.
  pose proof (record_bytes_len r). pose proof (blen_nonneg (stream_bytes rs)). lia.
Qed.

(** The records of a stream the receiver can read. *)
Definition tlvs_ok (known : list Z) (rs : list ITlvRecord) : Prop :=
  Forall record_wf rs /\ increasing_from (-1) rs /\ all_known (Some known) rs.

(** [if (offset < payload.length) { for (record of decodeTlvStream(..)) step }]
    after a fixed part: the loop runs over the records that were encoded. *)
Lemma tlv_tail {A} (pre : buffer) rs off known (init : A) step :
  off = blen pre -> tlvs_ok known rs ->
  (if off <? blen (pre ++ stream_bytes rs) then
     res ← decodeTlvStream (pre ++ stream_bytes rs) off (Some known);
     foldM step init (records res)
   else Ok init) = foldM step init rs.
Proof.
  intros -> (Hw & Hi & Hk). rewrite decodeTlvStream_run by done.
  case_match eqn:E; [done|]. apply Z.ltb_ge in E. rewrite blen_app in E.
  by rewrite (stream_bytes_empty rs) by lia.
Qed.

(** The same with the buffer and the offset as a decoder computes them. *)
Lemma tlv_tail_at {A} (pre data : buffer) rs off known (init : A) step :
  data = pre ++ stream_bytes rs -> off = blen pre -> tlvs_ok known rs ->
  (if off <? blen data then
     res ← decodeTlvStream data off (Some known); foldM step init (records res)
   else Ok init) = foldM step init rs.
Proof. intros ->. apply tlv_tail. Qed.

(** An optional value as the list of its TLV record. *)
Definition opt_tlv (t : Z) (v : option buffer) : list ITlvRecord :=
  match v with Some b => [{| tlv_type := t; tlv_value := b |}] | None => [] end.

(** An optional field has exactly [n] bytes when present. *)
Definition opt_len (v : option buffer) (n : Z) : Prop :=
  match v with Some b => blen b = n | None => True end.

(** Side conditions on a concrete list of records. *)
Ltac tlv_side :=
  repeat match goal with
  | |- tlvs_ok _ _ => split; [|split]
  | |- all_known _ _ => unfold all_known
  | |- Forall _ (_ :: _) => apply Forall_cons; split
  | |- Forall _ [] => apply Forall_nil; exact I
  | |- increasing_from _ _ => cbn [increasing_from tlv_type]; repeat split; lia
  | |- record_wf _ => split; cbn [tlv_type tlv_value];
      [first [lia | split; vm_compute; first [reflexivity | discriminate]] | blia]
  | |- unknown_required _ _ = false => reflexivity
  end.

(** ** types.ts *)

Definition isRequiredMessageType (type : Z) : bool := type mod 2 =? 0.
