(* ===== verification/WireBasic.v ===== *)
(** * ping, pong, error, warning, stfu and peer storage

    src/src/lightning/message/ping.ts, error.ts, stfu.ts and peer-storage.ts.
    A JavaScript string is the list of its UTF-16 code units. *)

From S2P Require Import Prelude Buffer Codec Tlv Wire.
From Stdlib Require Import Strings.Byte.

(** ** ping.ts *)

Record IPingMessage := { pi_numPongBytes : Z; pi_byteslen : Z }.
Record IPongMessage := { po_byteslen : Z }.

Definition encodePingMessage (numPongBytes paddingLen : Z) : result buffer :=
  _ ← throw_if ((numPongBytes <? 0) || (65531 <? numPongBytes)) "num_pong_bytes must be 0-65531";
  _ ← throw_if ((paddingLen <? 0) || (65531 <? paddingLen)) "Padding length must be 0-65531";
  let buf := alloc (4 + paddingLen) in
  buf ← writeUInt16BE buf numPongBytes 0;
  writeUInt16BE buf paddingLen 2.

Definition decodePingMessage (payload : buffer) : result IPingMessage :=
  _ ← throw_if (blen payload <? 4) "Ping message too short: need at least 4 bytes";
  numPongBytes ← readUInt16BE payload 0;
  byteslen ← readUInt16BE payload 2;
  _ ← throw_if (blen payload <? 4 + byteslen) "Ping message truncated";
  Ok {| pi_numPongBytes := numPongBytes; pi_byteslen := byteslen |}.

Definition encodePongMessage (byteslen : Z) : result buffer :=
  _ ← throw_if ((byteslen <? 0) || (65531 <? byteslen)) "byteslen must be 0-65531";
  writeUInt16BE (alloc (2 + byteslen)) byteslen 0.

Definition decodePongMessage (payload : buffer) : result IPongMessage :=
  _ ← throw_if (blen payload <? 2) "Pong message too short: need at least 2 bytes";
  byteslen ← readUInt16BE payload 0;
  _ ← throw_if (blen payload <? 2 + byteslen) "Pong message truncated";
  Ok {| po_byteslen := byteslen |}.

Definition ping_wf (m : IPingMessage) : Prop :=
  0 <= pi_numPongBytes m <= 65531 /\ 0 <= pi_byteslen m <= 65531.

(** A pair of range checks that do not fire. *)
Ltac in_range := rewrite throw_pass by (apply orb_false_iff; split; apply Z.ltb_ge; lia).

(** The zero padding at the end of a buffer stays. *)
Ltac blen_pad := rewrite ?blen_alloc by lia.

Lemma ping_roundtrip m : ping_wf m ->
  exists b, encodePingMessage (pi_numPongBytes m) (pi_byteslen m) = Ok b /\
    decodePingMessage b = Ok m.
Proof.
  destruct m as [n p]. intros [Hn Hp]. simpl in *.
  exists (be 2 n ++ be 2 p ++ alloc p). split.
  - unfold encodePingMessage, writeUInt16BE. do 2 in_range.
    rewrite write_fill0, bind_Ok by rng. rewrite write_fill by rng.
    replace (4 + p - 2 - 2) with p by lia. by rewrite <- app_assoc.
  - unfold decodePingMessage, readUInt16BE.
    rewrite throw_pass by (apply Z.ltb_ge; autorewrite with blen; blen_pad; simpl; lia).
    rd. rewrite throw_pass; [done|].
    apply Z.ltb_ge; autorewrite with blen; blen_pad; simpl; lia.
Qed.

Lemma pong_roundtrip m : 0 <= po_byteslen m <= 65531 ->
  exists b, encodePongMessage (po_byteslen m) = Ok b /\ decodePongMessage b = Ok m.
Proof.
  destruct m as [p]. intros Hp. simpl in *. exists (be 2 p ++ alloc p). split.
  - unfold encodePongMessage, writeUInt16BE. in_range. rewrite write_fill0 by rng.
    by replace (2 + p - 2) with p by lia.
  - unfold decodePongMessage, readUInt16BE.
    rewrite throw_pass by (apply Z.ltb_ge; autorewrite with blen; blen_pad; simpl; lia).
    rd. rewrite throw_pass; [done|].
    apply Z.ltb_ge; autorewrite with blen; blen_pad; simpl; lia.
Qed.

(** ** error.ts *)

Record IErrorMessage := { er_channelId : buffer; er_data : buffer }.

Definition ALL_CHANNELS : buffer := alloc 32.

Definition canScopeWireError (channelId : buffer) : bool :=
  (blen channelId =? 32) && negb (forallb (fun b => Z_of_byte b =? 0) channelId).

Definition encodeErrorMessage (msg : IErrorMessage) : result buffer :=
  _ ← throw_if (negb (blen (er_channelId msg) =? 32)) "Channel ID must be 32 bytes";
  len ← writeUInt16BE (alloc 2) (blen (er_data msg)) 0;
  Ok (er_channelId msg ++ len ++ er_data msg).

Definition decodeErrorMessage (payload : buffer) : result IErrorMessage :=
  _ ← throw_if (blen payload <? 34) "Error message too short: need at least 34 bytes";
  let channelId := subarray payload 0 32 in
  len ← readUInt16BE payload 32;
  _ ← throw_if (blen payload <? 34 + len) "Error: data length exceeds payload";
  Ok {| er_channelId := channelId; er_data := subarray payload 34 (34 + len) |}.

(** [Buffer.from(message, 'ascii')] keeps the low byte of each code unit. *)
Definition from_ascii (message : list Z) : buffer := map byte_of_Z message.

Definition createError (channelId : buffer) (message : list Z) : IErrorMessage :=
  {| er_channelId := channelId; er_data := from_ascii message |}.

Definition createConnectionError (message : list Z) : IErrorMessage :=
  {| er_channelId := ALL_CHANNELS; er_data := from_ascii message |}.

Definition isConnectionError (msg : IErrorMessage) : bool :=
  buf_equals (er_channelId msg) ALL_CHANNELS.

Definition MAX_ERROR_TEXT_LENGTH := 1024.

Definition getErrorText (msg : IErrorMessage) : list Z :=
  let shown := subarray (er_data msg) 0 MAX_ERROR_TEXT_LENGTH in
  let text := map (fun b => let byte := Z_of_byte b in
                            if (0x20 <=? byte) && (byte <=? 0x7e) then byte else 63) shown in
  if blen shown <? blen (er_data msg) then text ++ [46; 46; 46] else text.

Definition error_wf (m : IErrorMessage) : Prop :=
  blen (er_channelId m) = 32 /\ blen (er_data m) < 2 ^ 16.

Lemma error_roundtrip m : error_wf m ->
  exists b, encodeErrorMessage m = Ok b /\ decodeErrorMessage b = Ok m.
Proof.
  destruct m as [cid d]. intros [Hc Hd]. simpl in *. pose proof (blen_nonneg d).
  exists (cid ++ be 2 (blen d) ++ d). split.
  - unfold encodeErrorMessage. simpl. rewrite throw_pass by (by rewrite Hc). enc. done.
  - unfold decodeErrorMessage. pass_guard. rd. done.
Qed.

(** An error the node scopes to one channel is never read as one for all. *)
Lemma scoped_not_connection cid message :
  canScopeWireError cid = true -> isConnectionError (createError cid message) = false.
Proof.
  unfold canScopeWireError, isConnectionError, buf_equals, createError. simpl.
  intros H. bool_props. apply bool_decide_eq_false. intros ->. by vm_compute in H0.
Qed.

Lemma connection_error_scope message :
  isConnectionError (createConnectionError message) = true /\
  canScopeWireError (er_channelId (createConnectionError message)) = false.
Proof. done. Qed.

(** ** stfu.ts *)

Record IStfuMessage := { st_channelId : buffer; st_initiator : bool }.

Definition encodeStfuMessage (msg : IStfuMessage) : buffer :=
  let buf := copy (st_channelId msg) (alloc 33) 0 in
  set_byte buf 32 (if st_initiator msg then 1 else 0).

Definition decodeStfuMessage (payload : buffer) : result IStfuMessage :=
  _ ← throw_if (blen payload <? 33) "STFU message too short";
  Ok {| st_channelId := subarray payload 0 32; st_initiator := byte_at payload 32 =? 1 |}.

Lemma set_byte_end pre v i :
  i = blen pre -> set_byte (pre ++ alloc 1) i v = pre ++ [byte_of_Z v].
Proof.
  intros ->. unfold set_byte, alloc, blen. rewrite Nat2Z.id.
  rewrite insert_app_r_alt by lia. by rewrite Nat.sub_diag.
Qed.

Lemma stfu_roundtrip m : blen (st_channelId m) = 32 ->
  decodeStfuMessage (encodeStfuMessage m) = Ok m.
Proof.
  destruct m as [cid i]. simpl. intros H. unfold encodeStfuMessage, decodeStfuMessage. simpl.
  rewrite copy_fill0 by lia. rewrite H. change (33 - 32) with 1.
  rewrite set_byte_end by lia. pass_guard. rd.
  rewrite byte_at_hd, Z_of_byte_of_Z by lia. by destruct i.
Qed.

(** ** peer-storage.ts *)

Definition PEER_STORAGE_MAX_BYTES := 65531.

Record IPeerStorageMessage := { ps_blob : buffer }.

Definition encodeBlobMessage (msg : IPeerStorageMessage) : result buffer :=
  _ ← throw_if (PEER_STORAGE_MAX_BYTES <? blen (ps_blob msg)) "blob too large";
  let buf := alloc (2 + blen (ps_blob msg)) in
  buf ← writeUInt16BE buf (blen (ps_blob msg)) 0;
  Ok (copy (ps_blob msg) buf 2).

Definition decodeBlobMessage (payload : buffer) : result IPeerStorageMessage :=
  _ ← throw_if (blen payload <? 2) "message too short";
  length ← readUInt16BE payload 0;
  _ ← throw_if (PEER_STORAGE_MAX_BYTES <? length) "blob too large";
  _ ← throw_if (blen payload <? 2 + length) "truncated";
  Ok {| ps_blob := subarray payload 2 (2 + length) |}.

Definition peer_storage_wf (m : IPeerStorageMessage) : Prop :=
  blen (ps_blob m) <= PEER_STORAGE_MAX_BYTES.

Lemma peer_storage_roundtrip m : peer_storage_wf m ->
  exists b, encodeBlobMessage m = Ok b /\ decodeBlobMessage b = Ok m.
Proof.
  destruct m as [d]. unfold peer_storage_wf, PEER_STORAGE_MAX_BYTES. simpl. intros H.
  pose proof (blen_nonneg d). exists (be 2 (blen d) ++ d).
  unfold encodeBlobMessage, decodeBlobMessage, PEER_STORAGE_MAX_BYTES. cbn [ps_blob]. split.
  - pass_guard. enc. done.
  - pass_guard. rd. done.
Qed.
