(* ===== verification/WireUpdate.v ===== *)
(** * HTLC and fee update messages (src/src/lightning/message/channel-update.ts)

    The six update messages of BOLT 2 as records, their encoders and decoders
    with the same buffer operations, checks and order as the code, and their
    instances of [WireMessage]. *)

From S2P Require Import Prelude Buffer Codec Tlv Wire.
From Stdlib Require Import Strings.Byte.

(** ** update_add_htlc *)

Record IUpdateAddHtlcMessage := {
  ua_channelId : buffer;
  ua_id : Z;
  ua_amountMsat : Z;
  ua_paymentHash : buffer;
  ua_cltvExpiry : Z;
  ua_onionRoutingPacket : buffer;
  ua_blindingPoint : option buffer;
  ua_skimmedFeeMsat : option Z
}.

Definition UPDATE_ADD_HTLC_LENGTH := 1450.
Definition TLV_BLINDING_POINT := 0.
Definition TLV_SKIMMED_FEE_MSAT := 65537.
Definition UPDATE_ADD_HTLC_TLV_TYPES := [TLV_BLINDING_POINT; TLV_SKIMMED_FEE_MSAT].

Definition encodeUpdateAddHtlcMessage (msg : IUpdateAddHtlcMessage) : result buffer :=
  let buf := alloc UPDATE_ADD_HTLC_LENGTH in
  let buf := copy (ua_channelId msg) buf 0 in
  buf ← writeBigUInt64BE buf (ua_id msg) 32;
  buf ← writeBigUInt64BE buf (ua_amountMsat msg) 40;
  let buf := copy (ua_paymentHash msg) buf 48 in
  buf ← writeUInt32BE buf (ua_cltvExpiry msg) 80;
  let buf := copy (ua_onionRoutingPacket msg) buf 84 in
  blinding ← match ua_blindingPoint msg with
             | Some p =>
                 _ ← throw_if (negb (blen p =? 33)) "blindingPoint must be 33 bytes";
                 encodeTlvRecord {| tlv_type := TLV_BLINDING_POINT; tlv_value := p |}
             | None => Ok []
             end;
  skimmed ← match ua_skimmedFeeMsat msg with
            | Some fee =>
                value ← writeBigUInt64BE (alloc 8) fee 0;
                encodeTlvRecord {| tlv_type := TLV_SKIMMED_FEE_MSAT; tlv_value := value |}
            | None => Ok []
            end;
  Ok (buf ++ blinding ++ skimmed).

(** One turn of the loop over the decoded TLV records. *)
Definition update_add_tlv (acc : option buffer * option Z) (record : ITlvRecord)
    : result (option buffer * option Z) :=
  if tlv_type record =? TLV_BLINDING_POINT then
    _ ← throw_if (negb (blen (tlv_value record) =? 33))
          "update_add_htlc: blinding_point must be 33 bytes";
    Ok (Some (tlv_value record), acc.2)
  else if tlv_type record =? TLV_SKIMMED_FEE_MSAT then
    _ ← throw_if (negb (blen (tlv_value record) =? 8))
          "update_add_htlc: skimmed_fee_msat must be 8 bytes";
    fee ← readBigUInt64BE (tlv_value record) 0;
    Ok (acc.1, Some fee)
  else Ok acc.

Definition decodeUpdateAddHtlcMessage (payload : buffer) : result IUpdateAddHtlcMessage :=
  _ ← throw_if (blen payload <? UPDATE_ADD_HTLC_LENGTH) "update_add_htlc too short";
  let channelId := subarray payload 0 32 in
  id ← readBigUInt64BE payload 32;
  amountMsat ← readBigUInt64BE payload 40;
  let paymentHash := subarray payload 48 80 in
  cltvExpiry ← readUInt32BE payload 80;
  let onionRoutingPacket := subarray payload 84 1450 in
  '(blindingPoint, skimmedFeeMsat) ←
    (if 1450 <? blen payload then
       res ← decodeTlvStream payload 1450 (Some UPDATE_ADD_HTLC_TLV_TYPES);
       foldM update_add_tlv (None, None) (records res)
     else Ok (None, None));
  Ok {| ua_channelId := channelId; ua_id := id; ua_amountMsat := amountMsat;
        ua_paymentHash := paymentHash; ua_cltvExpiry := cltvExpiry;
        ua_onionRoutingPacket := onionRoutingPacket;
        ua_blindingPoint := blindingPoint; ua_skimmedFeeMsat := skimmedFeeMsat |}.

Definition update_add_wf (m : IUpdateAddHtlcMessage) : Prop :=
  blen (ua_channelId m) = 32 /\ 0 <= ua_id m < 2 ^ 64 /\ 0 <= ua_amountMsat m < 2 ^ 64 /\
  blen (ua_paymentHash m) = 32 /\ 0 <= ua_cltvExpiry m < 2 ^ 32 /\
  blen (ua_onionRoutingPacket m) = 1366 /\ opt_len (ua_blindingPoint m) 33 /\
  match ua_skimmedFeeMsat m with Some f => 0 <= f < 2 ^ 64 | None => True end.

(** The TLV records of a message, and its fixed part. *)
Definition update_add_tlvs (m : IUpdateAddHtlcMessage) : list ITlvRecord :=
  opt_tlv TLV_BLINDING_POINT (ua_blindingPoint m) ++
  opt_tlv TLV_SKIMMED_FEE_MSAT (be 8 <$> ua_skimmedFeeMsat m).

Definition update_add_fixed (m : IUpdateAddHtlcMessage) : buffer :=
  ua_channelId m ++ be 8 (ua_id m) ++ be 8 (ua_amountMsat m) ++ ua_paymentHash m ++
  be 4 (ua_cltvExpiry m) ++ ua_onionRoutingPacket m.

Lemma update_add_bytes m : update_add_wf m ->
  encodeUpdateAddHtlcMessage m = Ok (update_add_fixed m ++ stream_bytes (update_add_tlvs m)).
Proof.
  destruct m as [cid id amt ph cltv onion bp sk].
  intros (H1 & H2 & H3 & H4 & H5 & H6 & H7 & H8).
  unfold encodeUpdateAddHtlcMessage, UPDATE_ADD_HTLC_LENGTH, update_add_tlvs, update_add_fixed.
  cbn [ua_channelId ua_id ua_amountMsat ua_paymentHash ua_cltvExpiry ua_onionRoutingPacket
       ua_blindingPoint ua_skimmedFeeMsat] in *. enc.
  assert (Hsk : match sk with
    | Some fee => value ← writeUIntBE 8 (alloc 8) fee 0;
        encodeTlvRecord {| tlv_type := TLV_SKIMMED_FEE_MSAT; tlv_value := value |}
    | None => Ok [] end = Ok (stream_bytes (opt_tlv TLV_SKIMMED_FEE_MSAT (be 8 <$> sk)))).
  { destruct sk; [|done]. simpl opt_tlv. enc. by rewrite encodeTlvRecord_bytes by tlv_side. }
  rewrite Hsk, stream_bytes_app. destruct bp as [p|]; simpl in H7; simpl opt_tlv.
  - rewrite throw_pass by (by rewrite H7).
    rewrite encodeTlvRecord_bytes by (split; simpl; unfold TLV_BLINDING_POINT; lia).
    by rewrite stream_bytes_cons, !bind_Ok, <- !app_assoc.
  - by rewrite !bind_Ok, <- !app_assoc.
Qed.

Lemma update_add_tlvs_ok m : update_add_wf m ->
  tlvs_ok UPDATE_ADD_HTLC_TLV_TYPES (update_add_tlvs m) /\
  foldM update_add_tlv (None, None) (update_add_tlvs m) =
    Ok (ua_blindingPoint m, ua_skimmedFeeMsat m).
Proof.
  intros (_ & _ & _ & _ & _ & _ & H7 & H8).
  unfold update_add_tlvs. destruct m as [? ? ? ? ? ? [p|] [f|]]; simpl in *;
    unfold TLV_SKIMMED_FEE_MSAT, TLV_BLINDING_POINT; (split; [tlv_side|]);
    unfold update_add_tlv; simpl; rewrite ?H7; simpl; rd; rewrite ?unbe_be by done; done.
Qed.

Lemma update_add_decode m : update_add_wf m ->
  decodeUpdateAddHtlcMessage (update_add_fixed m ++ stream_bytes (update_add_tlvs m)) = Ok m.
Proof.
  intros Hw. destruct (update_add_tlvs_ok m Hw) as (Ht & Hf).
  destruct Hw as (H1 & H2 & H3 & H4 & H5 & H6 & _ & _).
  pose proof (blen_nonneg (stream_bytes (update_add_tlvs m))).
  unfold decodeUpdateAddHtlcMessage, UPDATE_ADD_HTLC_LENGTH.
  rewrite tlv_tail, Hf by (done || unfold update_add_fixed; blia).
  unfold update_add_fixed. rewrite <- !app_assoc. pass_guard. rd. by destruct m.
Qed.

(** ** update_fulfill_htlc *)

Record IUpdateFulfillHtlcMessage := {
  ff_channelId : buffer; ff_id : Z; ff_paymentPreimage : buffer
}.

Definition UPDATE_FULFILL_HTLC_LENGTH := 72.

Definition encodeUpdateFulfillHtlcMessage (msg : IUpdateFulfillHtlcMessage) : result buffer :=
  let buf := alloc UPDATE_FULFILL_HTLC_LENGTH in
  let buf := copy (ff_channelId msg) buf 0 in
  buf ← writeBigUInt64BE buf (ff_id msg) 32;
  Ok (copy (ff_paymentPreimage msg) buf 40).

Definition decodeUpdateFulfillHtlcMessage (payload : buffer) : result IUpdateFulfillHtlcMessage :=
  _ ← throw_if (blen payload <? UPDATE_FULFILL_HTLC_LENGTH) "update_fulfill_htlc too short";
  let channelId := subarray payload 0 32 in
  id ← readBigUInt64BE payload 32;
  let paymentPreimage := subarray payload 40 72 in
  Ok {| ff_channelId := channelId; ff_id := id; ff_paymentPreimage := paymentPreimage |}.

Definition update_fulfill_wf (m : IUpdateFulfillHtlcMessage) : Prop :=
  blen (ff_channelId m) = 32 /\ 0 <= ff_id m < 2 ^ 64 /\ blen (ff_paymentPreimage m) = 32.

Lemma update_fulfill_roundtrip m : update_fulfill_wf m ->
  exists b, encodeUpdateFulfillHtlcMessage m = Ok b /\ decodeUpdateFulfillHtlcMessage b = Ok m.
Proof.
  destruct m as [cid id pre]. intros (H1 & H2 & H3). simpl in *.
  exists (cid ++ be 8 id ++ pre). split.
  - unfold encodeUpdateFulfillHtlcMessage, UPDATE_FULFILL_HTLC_LENGTH; simpl. enc. done.
  - unfold decodeUpdateFulfillHtlcMessage, UPDATE_FULFILL_HTLC_LENGTH. pass_guard. rd. done.
Qed.

(** ** update_fail_htlc *)

Record IUpdateFailHtlcMessage := {
  uh_channelId : buffer; uh_id : Z; uh_reason : buffer
}.

Definition UPDATE_FAIL_HTLC_FIXED_LENGTH := 42.

Definition encodeUpdateFailHtlcMessage (msg : IUpdateFailHtlcMessage) : result buffer :=
  let buf := alloc (UPDATE_FAIL_HTLC_FIXED_LENGTH + blen (uh_reason msg)) in
  let buf := copy (uh_channelId msg) buf 0 in
  buf ← writeBigUInt64BE buf (uh_id msg) 32;
  buf ← writeUInt16BE buf (blen (uh_reason msg)) 40;
  Ok (copy (uh_reason msg) buf 42).

Definition decodeUpdateFailHtlcMessage (payload : buffer) : result IUpdateFailHtlcMessage :=
  _ ← throw_if (blen payload <? UPDATE_FAIL_HTLC_FIXED_LENGTH) "update_fail_htlc too short";
  let channelId := subarray payload 0 32 in
  id ← readBigUInt64BE payload 32;
  len ← readUInt16BE payload 40;
  _ ← throw_if (blen payload <? 42 + len) "update_fail_htlc reason length exceeds payload";
  Ok {| uh_channelId := channelId; uh_id := id; uh_reason := subarray payload 42 (42 + len) |}.

Definition update_fail_wf (m : IUpdateFailHtlcMessage) : Prop :=
  blen (uh_channelId m) = 32 /\ 0 <= uh_id m < 2 ^ 64 /\ blen (uh_reason m) < 2 ^ 16.

Lemma update_fail_roundtrip m : update_fail_wf m ->
  exists b, encodeUpdateFailHtlcMessage m = Ok b /\ decodeUpdateFailHtlcMessage b = Ok m.
Proof.
  destruct m as [cid id rs]. intros (H1 & H2 & H3). simpl in *.
  pose proof (blen_nonneg rs).
  exists (cid ++ be 8 id ++ be 2 (blen rs) ++ rs). split.
  - unfold encodeUpdateFailHtlcMessage, UPDATE_FAIL_HTLC_FIXED_LENGTH; simpl. enc. done.
  - unfold decodeUpdateFailHtlcMessage, UPDATE_FAIL_HTLC_FIXED_LENGTH. pass_guard. rd. done.
Qed.

(** ** update_fail_malformed_htlc *)

Record IUpdateFailMalformedHtlcMessage := {
  um_channelId : buffer; um_id : Z; um_sha256OfOnion : buffer; um_failureCode : Z
}.

Definition UPDATE_FAIL_MALFORMED_HTLC_LENGTH := 74.

Definition encodeUpdateFailMalformedHtlcMessage (msg : IUpdateFailMalformedHtlcMessage)
    : result buffer :=
  let buf := alloc UPDATE_FAIL_MALFORMED_HTLC_LENGTH in
  let buf := copy (um_channelId msg) buf 0 in
  buf ← writeBigUInt64BE buf (um_id msg) 32;
  let buf := copy (um_sha256OfOnion msg) buf 40 in
  writeUInt16BE buf (um_failureCode msg) 72.

Definition decodeUpdateFailMalformedHtlcMessage (payload : buffer)
    : result IUpdateFailMalformedHtlcMessage :=
  _ ← throw_if (blen payload <? UPDATE_FAIL_MALFORMED_HTLC_LENGTH)
        "update_fail_malformed_htlc too short";
  let channelId := subarray payload 0 32 in
  id ← readBigUInt64BE payload 32;
  let sha256OfOnion := subarray payload 40 72 in
  failureCode ← readUInt16BE payload 72;
  Ok {| um_channelId := channelId; um_id := id; um_sha256OfOnion := sha256OfOnion;
        um_failureCode := failureCode |}.

Definition update_malformed_wf (m : IUpdateFailMalformedHtlcMessage) : Prop :=
  blen (um_channelId m) = 32 /\ 0 <= um_id m < 2 ^ 64 /\
  blen (um_sha256OfOnion m) = 32 /\ 0 <= um_failureCode m < 2 ^ 16.

Lemma update_malformed_roundtrip m : update_malformed_wf m ->
  exists b, encodeUpdateFailMalformedHtlcMessage m = Ok b /\
    decodeUpdateFailMalformedHtlcMessage b = Ok m.
Proof.
  destruct m as [cid id sha code]. intros (H1 & H2 & H3 & H4). simpl in *.
  exists (cid ++ be 8 id ++ sha ++ be 2 code). split.
  - unfold encodeUpdateFailMalformedHtlcMessage, UPDATE_FAIL_MALFORMED_HTLC_LENGTH; simpl.
    enc. done.
  - unfold decodeUpdateFailMalformedHtlcMessage, UPDATE_FAIL_MALFORMED_HTLC_LENGTH.
    pass_guard. rd. done.
Qed.

(** ** update_fee *)

Record IUpdateFeeMessage := { uf_channelId : buffer; uf_feeratePerKw : Z }.

Definition UPDATE_FEE_LENGTH := 36.

Definition encodeUpdateFeeMessage (msg : IUpdateFeeMessage) : result buffer :=
  let buf := alloc UPDATE_FEE_LENGTH in
  let buf := copy (uf_channelId msg) buf 0 in
  writeUInt32BE buf (uf_feeratePerKw msg) 32.

Definition decodeUpdateFeeMessage (payload : buffer) : result IUpdateFeeMessage :=
  _ ← throw_if (blen payload <? UPDATE_FEE_LENGTH) "update_fee too short";
  let channelId := subarray payload 0 32 in
  feeratePerKw ← readUInt32BE payload 32;
  Ok {| uf_channelId := channelId; uf_feeratePerKw := feeratePerKw |}.

Definition update_fee_wf (m : IUpdateFeeMessage) : Prop :=
  blen (uf_channelId m) = 32 /\ 0 <= uf_feeratePerKw m < 2 ^ 32.

Lemma update_fee_roundtrip m : update_fee_wf m ->
  exists b, encodeUpdateFeeMessage m = Ok b /\ decodeUpdateFeeMessage b = Ok m.
Proof.
  destruct m as [cid fee]. intros [Hc Hf]. simpl in *.
  exists (cid ++ be 4 fee). split.
  - unfold encodeUpdateFeeMessage, UPDATE_FEE_LENGTH; simpl. enc. done.
  - unfold decodeUpdateFeeMessage, UPDATE_FEE_LENGTH. pass_guard. rd. done.
Qed.

(** ** update_blockheight *)

Record IUpdateBlockheightMessage := { ub_channelId : buffer; ub_blockheight : Z }.

Definition UPDATE_BLOCKHEIGHT_LENGTH := 36.

Definition encodeUpdateBlockheightMessage (msg : IUpdateBlockheightMessage) : result buffer :=
  let buf := alloc UPDATE_BLOCKHEIGHT_LENGTH in
  let buf := copy (ub_channelId msg) buf 0 in
  writeUInt32BE buf (ub_blockheight msg) 32.

Definition decodeUpdateBlockheightMessage (payload : buffer) : result IUpdateBlockheightMessage :=
  _ ← throw_if (blen payload <? UPDATE_BLOCKHEIGHT_LENGTH) "update_blockheight too short";
  let channelId := subarray payload 0 32 in
  blockheight ← readUInt32BE payload 32;
  Ok {| ub_channelId := channelId; ub_blockheight := blockheight |}.

Definition update_blockheight_wf (m : IUpdateBlockheightMessage) : Prop :=
  blen (ub_channelId m) = 32 /\ 0 <= ub_blockheight m < 2 ^ 32.

Lemma update_blockheight_roundtrip m : update_blockheight_wf m ->
  exists b, encodeUpdateBlockheightMessage m = Ok b /\ decodeUpdateBlockheightMessage b = Ok m.
Proof.
  destruct m as [cid h]. intros [Hc Hf]. simpl in *. exists (cid ++ be 4 h). split.
  - unfold encodeUpdateBlockheightMessage, UPDATE_BLOCKHEIGHT_LENGTH; simpl. enc. done.
  - unfold decodeUpdateBlockheightMessage, UPDATE_BLOCKHEIGHT_LENGTH. pass_guard. rd. done.
Qed.

Lemma update_add_roundtrip m : update_add_wf m ->
  exists b, encodeUpdateAddHtlcMessage m = Ok b /\ decodeUpdateAddHtlcMessage b = Ok m.
Proof. intros H. eexists. split; [by apply update_add_bytes | by apply update_add_decode]. Qed.
