(* ===== verification/WireCommitment.v ===== *)
(** * commitment_signed and revoke_and_ack
      (src/src/lightning/message/channel-commitment.ts)

    The signatures of a commitment_signed are written and read 64 bytes apart
    by [copy_sigs] and [read_sigs], the two [for] loops of the codec. *)

From S2P Require Import Prelude Buffer Codec Tlv Wire.
From Stdlib Require Import Strings.Byte.

Record ICommitmentSignedMessage := {
  cs_channelId : buffer;
  cs_signature : buffer;
  cs_htlcSignatures : list buffer;
  cs_fundingTxid : option buffer;
  cs_partialSignatureWithNonce : option buffer
}.

Record IRevokeAndAckMessage := {
  ra_channelId : buffer;
  ra_perCommitmentSecret : buffer;
  ra_nextPerCommitmentPoint : buffer;
  ra_nextLocalNonce : option buffer
}.

Definition TLV_SPLICE_INFO := 1.
Definition TLV_PARTIAL_SIG_WITH_NONCE := 2.
Definition TLV_NEXT_LOCAL_NONCE := 4.
Definition COMMITMENT_SIGNED_TLV_TYPES := [TLV_SPLICE_INFO; TLV_PARTIAL_SIG_WITH_NONCE].
Definition REVOKE_AND_ACK_TLV_TYPES := [TLV_NEXT_LOCAL_NONCE].
Definition COMMITMENT_SIGNED_FIXED_LENGTH := 98.
Definition REVOKE_AND_ACK_LENGTH := 97.

(** [records.sort((a, b) => (a.type < b.type ? -1 : 1))]; the types of the
    records are distinct, so the sorted order is unique. *)
Fixpoint insert_record (r : ITlvRecord) (rs : list ITlvRecord) : list ITlvRecord :=
  match rs with
  | [] => [r]
  | x :: xs => if tlv_type r <? tlv_type x then r :: x :: xs else x :: insert_record r xs
  end.

Definition sort_records (rs : list ITlvRecord) : list ITlvRecord :=
  foldr insert_record [] rs.

Fixpoint copy_sigs (buf : buffer) (sigs : list buffer) (offset : Z) : buffer :=
  match sigs with
  | [] => buf
  | sig :: sigs => copy_sigs (copy sig buf offset) sigs (offset + 64)
  end.

Definition encodeCommitmentSignedMessage (msg : ICommitmentSignedMessage) : result buffer :=
  let numHtlcs := Z.of_nat (length (cs_htlcSignatures msg)) in
  let buf := alloc (COMMITMENT_SIGNED_FIXED_LENGTH + numHtlcs * 64) in
  let buf := copy (cs_channelId msg) buf 0 in
  let buf := copy (cs_signature msg) buf 32 in
  buf ← writeUInt16BE buf numHtlcs 96;
  let buf := copy_sigs buf (cs_htlcSignatures msg) 98 in
  splice ← match cs_fundingTxid msg with
           | Some txid =>
               _ ← throw_if (negb (blen txid =? 32))
                     "commitment_signed funding_txid must be 32 bytes";
               Ok [{| tlv_type := TLV_SPLICE_INFO; tlv_value := txid |}]
           | None => Ok []
           end;
  partial ← match cs_partialSignatureWithNonce msg with
            | Some p =>
                _ ← throw_if (negb (blen p =? 98)) "partial_signature_with_nonce must be 98 bytes";
                Ok [{| tlv_type := TLV_PARTIAL_SIG_WITH_NONCE; tlv_value := p |}]
            | None => Ok []
            end;
  let records := splice ++ partial in
  if 0 <? Z.of_nat (length records) then
    tlvs ← encodeTlvStream (sort_records records); Ok (buf ++ tlvs)
  else Ok buf.

Fixpoint read_sigs (payload : buffer) (n : nat) (offset : Z) : list buffer :=
  match n with
  | O => []
  | S n => subarray payload offset (offset + 64) :: read_sigs payload n (offset + 64)
  end.

Definition commitment_signed_tlv (acc : option buffer * option buffer) (record : ITlvRecord)
    : result (option buffer * option buffer) :=
  if (tlv_type record =? TLV_SPLICE_INFO) && (blen (tlv_value record) =? 32) then
    Ok (Some (tlv_value record), acc.2)
  else if (tlv_type record =? TLV_PARTIAL_SIG_WITH_NONCE) && (blen (tlv_value record) =? 98) then
    Ok (acc.1, Some (tlv_value record))
  else Ok acc.

Definition decodeCommitmentSignedMessage (payload : buffer) : result ICommitmentSignedMessage :=
  _ ← throw_if (blen payload <? COMMITMENT_SIGNED_FIXED_LENGTH) "commitment_signed too short";
  let channelId := subarray payload 0 32 in
  let signature := subarray payload 32 96 in
  numHtlcs ← readUInt16BE payload 96;
  let expectedLength := COMMITMENT_SIGNED_FIXED_LENGTH + numHtlcs * 64 in
  _ ← throw_if (blen payload <? expectedLength) "commitment_signed too short for HTLCs";
  let htlcSignatures := read_sigs payload (Z.to_nat numHtlcs) 98 in
  let offset := 98 + numHtlcs * 64 in
  '(fundingTxid, partialSignatureWithNonce) ←
    (if offset <? blen payload then
       res ← decodeTlvStream payload offset (Some COMMITMENT_SIGNED_TLV_TYPES);
       foldM commitment_signed_tlv (None, None) (records res)
     else Ok (None, None));
  Ok {| cs_channelId := channelId; cs_signature := signature;
        cs_htlcSignatures := htlcSignatures; cs_fundingTxid := fundingTxid;
        cs_partialSignatureWithNonce := partialSignatureWithNonce |}.

Definition encodeRevokeAndAckMessage (msg : IRevokeAndAckMessage) : result buffer :=
  let buf := alloc REVOKE_AND_ACK_LENGTH in
  let buf := copy (ra_channelId msg) buf 0 in
  let buf := copy (ra_perCommitmentSecret msg) buf 32 in
  let buf := copy (ra_nextPerCommitmentPoint msg) buf 64 in
  match ra_nextLocalNonce msg with
  | Some nonce =>
      _ ← throw_if (negb (blen nonce =? 66)) "revoke_and_ack next_local_nonce must be 66 bytes";
      tlvs ← encodeTlvStream [{| tlv_type := TLV_NEXT_LOCAL_NONCE; tlv_value := nonce |}];
      Ok (buf ++ tlvs)
  | None => Ok buf
  end.

Definition revoke_and_ack_tlv (acc : option buffer) (record : ITlvRecord)
    : result (option buffer) :=
  if (tlv_type record =? TLV_NEXT_LOCAL_NONCE) && (blen (tlv_value record) =? 66) then
    Ok (Some (tlv_value record))
  else Ok acc.

Definition decodeRevokeAndAckMessage (payload : buffer) : result IRevokeAndAckMessage :=
  _ ← throw_if (blen payload <? REVOKE_AND_ACK_LENGTH) "revoke_and_ack too short";
  let channelId := subarray payload 0 32 in
  let perCommitmentSecret := subarray payload 32 64 in
  let nextPerCommitmentPoint := subarray payload 64 97 in
  nextLocalNonce ←
    (if REVOKE_AND_ACK_LENGTH <? blen payload then
       res ← decodeTlvStream payload REVOKE_AND_ACK_LENGTH (Some REVOKE_AND_ACK_TLV_TYPES);
       foldM revoke_and_ack_tlv None (records res)
     else Ok None);
  Ok {| ra_channelId := channelId; ra_perCommitmentSecret := perCommitmentSecret;
        ra_nextPerCommitmentPoint := nextPerCommitmentPoint;
        ra_nextLocalNonce := nextLocalNonce |}.

(** ** The signature loops *)

Lemma copy_sigs_fill sigs : forall pre off,
  Forall (fun s => blen s = 64) sigs -> off = blen pre ->
  copy_sigs (pre ++ alloc (Z.of_nat (length sigs) * 64)) sigs off = pre ++ concat sigs.
Proof.
  induction sigs as [|s ss IH]; intros pre off Hs ->; simpl.
  - rewrite alloc_0 by lia. done.
  - apply Forall_cons in Hs as [Hs Hss]. rewrite copy_fill by (done || lia).
    match goal with |- context [alloc ?n] =>
      replace n with (Z.of_nat (length ss) * 64) by lia end.
    rewrite IH by (done || blia). by rewrite <- app_assoc.
Qed.

Lemma blen_concat_sigs sigs :
  Forall (fun s => blen s = 64) sigs -> blen (concat sigs) = Z.of_nat (length sigs) * 64.
Proof.
  induction 1 as [|s ss Hs _ IH]; [done|]. simpl concat. rewrite blen_app, Hs, IH.
  simpl length. lia.
Qed.

Lemma read_sigs_fill sigs : forall pre rest off,
  Forall (fun s => blen s = 64) sigs -> off = blen pre ->
  read_sigs (pre ++ concat sigs ++ rest) (length sigs) off = sigs.
Proof.
  induction sigs as [|s ss IH]; intros pre rest off Hs ->; [done|].
  apply Forall_cons in Hs as [Hs Hss]. simpl. f_equal.
  - rewrite <- app_assoc. rd. done.
  - rewrite <- app_assoc, (app_assoc pre). apply IH; [done | blia].
Qed.

(** ** Round trips *)

Definition commitment_signed_wf (m : ICommitmentSignedMessage) : Prop :=
  blen (cs_channelId m) = 32 /\ blen (cs_signature m) = 64 /\
  Forall (fun s => blen s = 64) (cs_htlcSignatures m) /\
  Z.of_nat (length (cs_htlcSignatures m)) < 2 ^ 16 /\
  opt_len (cs_fundingTxid m) 32 /\ opt_len (cs_partialSignatureWithNonce m) 98.

Definition commitment_signed_tlvs (m : ICommitmentSignedMessage) : list ITlvRecord :=
  opt_tlv TLV_SPLICE_INFO (cs_fundingTxid m) ++
  opt_tlv TLV_PARTIAL_SIG_WITH_NONCE (cs_partialSignatureWithNonce m).

Definition commitment_signed_fixed (m : ICommitmentSignedMessage) : buffer :=
  cs_channelId m ++ cs_signature m ++ be 2 (Z.of_nat (length (cs_htlcSignatures m))) ++
  concat (cs_htlcSignatures m).

Lemma commitment_signed_bytes m : commitment_signed_wf m ->
  encodeCommitmentSignedMessage m =
    Ok (commitment_signed_fixed m ++ stream_bytes (commitment_signed_tlvs m)).
Proof.
  intros (H1 & H2 & H3 & H4 & H5 & H6).
  unfold encodeCommitmentSignedMessage, COMMITMENT_SIGNED_FIXED_LENGTH.
  unfold writeUInt16BE. rewrite copy_fill0 by lia. rewrite copy_fill by blia.
  rewrite write_fill, bind_Ok by rng.
  match goal with |- context [alloc ?n] =>
    replace n with (Z.of_nat (length (cs_htlcSignatures m)) * 64) by blia end.
  rewrite copy_sigs_fill by (done || blia).
  unfold commitment_signed_fixed, commitment_signed_tlvs.
  destruct (cs_fundingTxid m) as [t|], (cs_partialSignatureWithNonce m) as [p|];
    simpl in H5, H6; rewrite ?H5, ?H6; simpl;
    rewrite ?(encodeTlvStream_bytes (-1)) by tlv_side; simpl;
    by rewrite ?stream_bytes_nil, ?app_nil_r, <- ?app_assoc.
Qed.

Lemma commitment_signed_tlvs_ok m : commitment_signed_wf m ->
  tlvs_ok COMMITMENT_SIGNED_TLV_TYPES (commitment_signed_tlvs m) /\
  foldM commitment_signed_tlv (None, None) (commitment_signed_tlvs m) =
    Ok (cs_fundingTxid m, cs_partialSignatureWithNonce m).
Proof.
  intros (_ & _ & _ & _ & H5 & H6). unfold commitment_signed_tlvs.
  unfold TLV_SPLICE_INFO, TLV_PARTIAL_SIG_WITH_NONCE.
  destruct (cs_fundingTxid m) as [t|], (cs_partialSignatureWithNonce m) as [p|];
    simpl in *; (split; [tlv_side|]);
    unfold commitment_signed_tlv; simpl; rewrite ?H5; simpl; rewrite ?H6; done.
Qed.

Lemma commitment_signed_decode m : commitment_signed_wf m ->
  decodeCommitmentSignedMessage
    (commitment_signed_fixed m ++ stream_bytes (commitment_signed_tlvs m)) = Ok m.
Proof.
  intros Hw. destruct (commitment_signed_tlvs_ok m Hw) as (Ht & Hf).
  destruct Hw as (H1 & H2 & H3 & H4 & _ & _).
  pose proof (blen_concat_sigs _ H3) as Hc.
  pose proof (blen_nonneg (stream_bytes (commitment_signed_tlvs m))).
  unfold decodeCommitmentSignedMessage, COMMITMENT_SIGNED_FIXED_LENGTH.
  assert (Hr : readUInt16BE
    (commitment_signed_fixed m ++ stream_bytes (commitment_signed_tlvs m)) 96 =
    Ok (Z.of_nat (length (cs_htlcSignatures m)))).
  { unfold commitment_signed_fixed. rewrite <- !app_assoc. rd. done. }
  rewrite Hr, bind_Ok.
  rewrite tlv_tail, Hf by (done || unfold commitment_signed_fixed; blia).
  unfold commitment_signed_fixed. rewrite <- !app_assoc. do 2 pass_guard. rd.
  rewrite Nat2Z.id, bind_Ok.
  rewrite (app_assoc _ (cs_signature m)), (app_assoc _ (be 2 _)).
  rewrite read_sigs_fill by (done || blia). by destruct m.
Qed.

Lemma commitment_signed_rt m : commitment_signed_wf m ->
  exists b, encodeCommitmentSignedMessage m = Ok b /\ decodeCommitmentSignedMessage b = Ok m.
Proof.
  intros H. eexists. split; [by apply commitment_signed_bytes | by apply commitment_signed_decode].
Qed.

Definition revoke_and_ack_wf (m : IRevokeAndAckMessage) : Prop :=
  blen (ra_channelId m) = 32 /\ blen (ra_perCommitmentSecret m) = 32 /\
  blen (ra_nextPerCommitmentPoint m) = 33 /\ opt_len (ra_nextLocalNonce m) 66.

Definition revoke_and_ack_fixed (m : IRevokeAndAckMessage) : buffer :=
  ra_channelId m ++ ra_perCommitmentSecret m ++ ra_nextPerCommitmentPoint m.

Lemma revoke_and_ack_rt m : revoke_and_ack_wf m ->
  exists b, encodeRevokeAndAckMessage m = Ok b /\ decodeRevokeAndAckMessage b = Ok m.
Proof.
  intros (H1 & H2 & H3 & H4).
  set (tlvs := opt_tlv TLV_NEXT_LOCAL_NONCE (ra_nextLocalNonce m)).
  assert (Ht : tlvs_ok REVOKE_AND_ACK_TLV_TYPES tlvs /\
               foldM revoke_and_ack_tlv None tlvs = Ok (ra_nextLocalNonce m)).
  { unfold tlvs. destruct (ra_nextLocalNonce m); simpl in *; (split; [tlv_side|]);
      unfold revoke_and_ack_tlv; simpl; rewrite ?H4; done. }
  destruct Ht as [Ht Hf]. pose proof (blen_nonneg (stream_bytes tlvs)).
  exists (revoke_and_ack_fixed m ++ stream_bytes tlvs).
  unfold encodeRevokeAndAckMessage, decodeRevokeAndAckMessage, REVOKE_AND_ACK_LENGTH. split.
  - enc. unfold revoke_and_ack_fixed, tlvs. destruct (ra_nextLocalNonce m); simpl in *.
    + rewrite H4. simpl. rewrite (encodeTlvStream_bytes (-1)) by tlv_side. simpl.
      by rewrite <- !app_assoc.
    + by rewrite stream_bytes_nil, app_nil_r.
  - rewrite tlv_tail, Hf by (done || unfold revoke_and_ack_fixed; blia).
    unfold revoke_and_ack_fixed. rewrite <- !app_assoc. pass_guard. rd. by destruct m.
Qed.
