(* ===== verification/WireClose.v ===== *)
(** * shutdown, closing_signed, closing_complete and closing_sig
      (src/src/lightning/message/channel-close.ts)

    [readScript] is the closure of the simple-close decoder: it takes the
    cursor and returns the script and the cursor after it. *)

From S2P Require Import Prelude Buffer Codec Tlv Wire.
From Stdlib Require Import Strings.Byte.

Record IShutdownMessage := {
  sd_channelId : buffer; sd_scriptPubkey : buffer; sd_shutdownNonce : option buffer
}.

Record IClosingSignedMessage := {
  cl_channelId : buffer; cl_feeSatoshis : Z; cl_signature : buffer;
  cl_partialSignature : option buffer
}.

Definition SHUTDOWN_FIXED_LENGTH := 34.
Definition CLOSING_SIGNED_LENGTH := 104.
Definition SHUTDOWN_NONCE_TLV := 8.
Definition SHUTDOWN_NONCE_LENGTH := 66.
Definition SHUTDOWN_TLV_TYPES := [SHUTDOWN_NONCE_TLV].
Definition CLOSING_PARTIAL_SIG_TLV := 6.
Definition CLOSING_PARTIAL_SIG_LENGTH := 32.
Definition CLOSING_SIGNED_TLV_TYPES := [CLOSING_PARTIAL_SIG_TLV].

(** ** shutdown *)

Definition encodeShutdownMessage (msg : IShutdownMessage) : result buffer :=
  let buf := alloc (SHUTDOWN_FIXED_LENGTH + blen (sd_scriptPubkey msg)) in
  let buf := copy (sd_channelId msg) buf 0 in
  buf ← writeUInt16BE buf (blen (sd_scriptPubkey msg)) 32;
  let buf := copy (sd_scriptPubkey msg) buf 34 in
  match sd_shutdownNonce msg with
  | None => Ok buf
  | Some nonce =>
      _ ← throw_if (negb (blen nonce =? SHUTDOWN_NONCE_LENGTH)) "shutdown_nonce must be 66 bytes";
      tlvs ← encodeTlvStream [{| tlv_type := SHUTDOWN_NONCE_TLV; tlv_value := nonce |}];
      Ok (buf ++ tlvs)
  end.

Definition shutdown_tlv (acc : option buffer) (r : ITlvRecord) : result (option buffer) :=
  if tlv_type r =? SHUTDOWN_NONCE_TLV then
    _ ← throw_if (negb (blen (tlv_value r) =? SHUTDOWN_NONCE_LENGTH))
          "shutdown_nonce must be 66 bytes";
    Ok (Some (tlv_value r))
  else Ok acc.

Definition decodeShutdownMessage (payload : buffer) : result IShutdownMessage :=
  _ ← throw_if (blen payload <? SHUTDOWN_FIXED_LENGTH) "shutdown too short";
  let channelId := subarray payload 0 32 in
  len ← readUInt16BE payload 32;
  _ ← throw_if (blen payload <? 34 + len) "shutdown scriptpubkey length exceeds payload";
  let scriptPubkey := subarray payload 34 (34 + len) in
  let offset := 34 + len in
  nonce ← (if offset <? blen payload then
             res ← decodeTlvStream payload offset (Some SHUTDOWN_TLV_TYPES);
             foldM shutdown_tlv None (records res)
           else Ok None);
  Ok {| sd_channelId := channelId; sd_scriptPubkey := scriptPubkey; sd_shutdownNonce := nonce |}.

(** ** closing_signed *)

Definition encodeClosingSignedMessage (msg : IClosingSignedMessage) : result buffer :=
  let buf := alloc CLOSING_SIGNED_LENGTH in
  let buf := copy (cl_channelId msg) buf 0 in
  buf ← writeBigUInt64BE buf (cl_feeSatoshis msg) 32;
  match cl_partialSignature msg with
  | None => Ok (copy (cl_signature msg) buf 40)
  | Some partial =>
      _ ← throw_if (negb (blen partial =? CLOSING_PARTIAL_SIG_LENGTH))
            "closing partial signature must be 32 bytes";
      tlvs ← encodeTlvStream [{| tlv_type := CLOSING_PARTIAL_SIG_TLV; tlv_value := partial |}];
      Ok (buf ++ tlvs)
  end.

Definition closing_signed_tlv (acc : option buffer) (r : ITlvRecord) : result (option buffer) :=
  if tlv_type r =? CLOSING_PARTIAL_SIG_TLV then
    _ ← throw_if (negb (blen (tlv_value r) =? CLOSING_PARTIAL_SIG_LENGTH))
          "closing partial signature must be 32 bytes";
    Ok (Some (tlv_value r))
  else Ok acc.

Definition decodeClosingSignedMessage (payload : buffer) : result IClosingSignedMessage :=
  _ ← throw_if (blen payload <? CLOSING_SIGNED_LENGTH) "closing_signed too short";
  let channelId := subarray payload 0 32 in
  feeSatoshis ← readBigUInt64BE payload 32;
  let signature := subarray payload 40 104 in
  partial ← (if CLOSING_SIGNED_LENGTH <? blen payload then
               res ← decodeTlvStream payload CLOSING_SIGNED_LENGTH (Some CLOSING_SIGNED_TLV_TYPES);
               foldM closing_signed_tlv None (records res)
             else Ok None);
  Ok {| cl_channelId := channelId; cl_feeSatoshis := feeSatoshis; cl_signature := signature;
        cl_partialSignature := partial |}.

(** ** closing_complete and closing_sig *)

Record IClosingCompleteMessage := {
  cc_channelId : buffer;
  cc_closerScriptPubkey : buffer;
  cc_closeeScriptPubkey : buffer;
  cc_feeSatoshis : Z;
  cc_locktime : Z;
  cc_closerOutputOnlySig : option buffer;
  cc_closeeOutputOnlySig : option buffer;
  cc_closerAndCloseeSig : option buffer
}.

Definition CLOSING_TLV_TYPES := [1; 2; 3].

Definition pushSig (sigRecords : list ITlvRecord) (type : Z) (sig : option buffer)
    : result (list ITlvRecord) :=
  match sig with
  | None => Ok sigRecords
  | Some s =>
      _ ← throw_if (negb (blen s =? 64)) "closing signature must be 64 bytes";
      Ok (sigRecords ++ [{| tlv_type := type; tlv_value := s |}])
  end.

Definition encodeSimpleCloseMessage (msg : IClosingCompleteMessage) : result buffer :=
  sigRecords ← pushSig [] 1 (cc_closerOutputOnlySig msg);
  sigRecords ← pushSig sigRecords 2 (cc_closeeOutputOnlySig msg);
  sigRecords ← pushSig sigRecords 3 (cc_closerAndCloseeSig msg);
  _ ← throw_if (Z.of_nat (length sigRecords) =? 0)
        "closing message requires at least one signature TLV";
  let closer := cc_closerScriptPubkey msg in
  let closee := cc_closeeScriptPubkey msg in
  let fixed := alloc (32 + 2 + blen closer + 2 + blen closee + 8 + 4) in
  let offset := 0 in
  let fixed := copy (cc_channelId msg) fixed offset in
  let offset := offset + 32 in
  fixed ← writeUInt16BE fixed (blen closer) offset;
  let offset := offset + 2 in
  let fixed := copy closer fixed offset in
  let offset := offset + blen closer in
  fixed ← writeUInt16BE fixed (blen closee) offset;
  let offset := offset + 2 in
  let fixed := copy closee fixed offset in
  let offset := offset + blen closee in
  fixed ← writeBigUInt64BE fixed (cc_feeSatoshis msg) offset;
  let offset := offset + 8 in
  fixed ← writeUInt32BE fixed (cc_locktime msg) offset;
  tlvs ← encodeTlvStream sigRecords;
  Ok (fixed ++ tlvs).

Definition readScript (payload : buffer) (offset : Z) : result (buffer * Z) :=
  _ ← throw_if (blen payload <? offset + 2) "truncated script length";
  len ← readUInt16BE payload offset;
  let offset := offset + 2 in
  _ ← throw_if (blen payload <? offset + len) "script length exceeds payload";
  Ok (subarray payload offset (offset + len), offset + len).

(** The three optional signatures, as the loop over the records fills them. *)
Definition sigs := (option buffer * option buffer * option buffer)%type.

Definition closing_tlv (acc : sigs) (record : ITlvRecord) : result sigs :=
  let '(s1, s2, s3) := acc in
  if negb (has CLOSING_TLV_TYPES (tlv_type record)) then Ok acc
  else
    _ ← throw_if (negb (blen (tlv_value record) =? 64)) "closing signature TLV must be 64 bytes";
    if tlv_type record =? 1 then Ok (Some (tlv_value record), s2, s3)
    else if tlv_type record =? 2 then Ok (s1, Some (tlv_value record), s3)
    else Ok (s1, s2, Some (tlv_value record)).

Definition no_sig (s : sigs) : bool :=
  match s with (None, None, None) => true | _ => false end.

Definition decodeSimpleCloseMessage (payload : buffer) : result IClosingCompleteMessage :=
  _ ← throw_if (blen payload <? 32 + 2 + 2 + 8 + 4) "too short";
  let channelId := subarray payload 0 32 in
  '(closer, offset) ← readScript payload 32;
  '(closee, offset) ← readScript payload offset;
  _ ← throw_if (blen payload <? offset + 12) "truncated fee/locktime";
  feeSatoshis ← readBigUInt64BE payload offset;
  let offset := offset + 8 in
  locktime ← readUInt32BE payload offset;
  let offset := offset + 4 in
  res ← decodeTlvStream payload offset (Some CLOSING_TLV_TYPES);
  s ← foldM closing_tlv (None, None, None) (records res);
  _ ← throw_if (no_sig s) "no closing signature TLV present";
  Ok {| cc_channelId := channelId; cc_closerScriptPubkey := closer;
        cc_closeeScriptPubkey := closee; cc_feeSatoshis := feeSatoshis; cc_locktime := locktime;
        cc_closerOutputOnlySig := s.1.1; cc_closeeOutputOnlySig := s.1.2;
        cc_closerAndCloseeSig := s.2 |}.

(** ** Round trips *)

Definition shutdown_wf (m : IShutdownMessage) : Prop :=
  blen (sd_channelId m) = 32 /\ blen (sd_scriptPubkey m) < 2 ^ 16 /\
  opt_len (sd_shutdownNonce m) 66.

Lemma shutdown_rt m : shutdown_wf m ->
  exists b, encodeShutdownMessage m = Ok b /\ decodeShutdownMessage b = Ok m.
Proof.
  intros (H1 & H2 & H3). set (tlvs := opt_tlv SHUTDOWN_NONCE_TLV (sd_shutdownNonce m)).
  assert (Ht : tlvs_ok SHUTDOWN_TLV_TYPES tlvs /\
               foldM shutdown_tlv None tlvs = Ok (sd_shutdownNonce m)).
  { unfold tlvs. destruct (sd_shutdownNonce m); simpl in *; (split; [tlv_side|]);
      unfold shutdown_tlv, SHUTDOWN_NONCE_LENGTH; simpl; rewrite ?H3; done. }
  destruct Ht as [Ht Hf]. pose proof (blen_nonneg (stream_bytes tlvs)).
  pose proof (blen_nonneg (sd_scriptPubkey m)).
  set (fixed := sd_channelId m ++ be 2 (blen (sd_scriptPubkey m)) ++ sd_scriptPubkey m).
  exists (fixed ++ stream_bytes tlvs).
  unfold encodeShutdownMessage, decodeShutdownMessage, SHUTDOWN_FIXED_LENGTH. split.
  - enc. unfold fixed, tlvs. destruct (sd_shutdownNonce m); simpl in *.
    + unfold SHUTDOWN_NONCE_LENGTH. rewrite H3. simpl.
      rewrite (encodeTlvStream_bytes (-1)) by tlv_side. simpl. by rewrite <- !app_assoc.
    + by rewrite stream_bytes_nil, app_nil_r.
  - assert (Hr : readUInt16BE (fixed ++ stream_bytes tlvs) 32 = Ok (blen (sd_scriptPubkey m))).
    { unfold fixed. rewrite <- !app_assoc. rd. done. }
    rewrite Hr, bind_Ok. rewrite tlv_tail, Hf by (done || unfold fixed; blia).
    unfold fixed. rewrite <- !app_assoc. do 2 pass_guard. rd. by destruct m.
Qed.

(** With a MuSig2 partial signature the fixed field is zero on the wire. *)
Definition closing_signed_wf (m : IClosingSignedMessage) : Prop :=
  blen (cl_channelId m) = 32 /\ 0 <= cl_feeSatoshis m < 2 ^ 64 /\
  blen (cl_signature m) = 64 /\ opt_len (cl_partialSignature m) 32 /\
  (cl_partialSignature m = None \/ cl_signature m = alloc 64).

Lemma closing_signed_rt m : closing_signed_wf m ->
  exists b, encodeClosingSignedMessage m = Ok b /\ decodeClosingSignedMessage b = Ok m.
Proof.
  intros (H1 & H2 & H3 & H4 & H5).
  set (tlvs := opt_tlv CLOSING_PARTIAL_SIG_TLV (cl_partialSignature m)).
  assert (Ht : tlvs_ok CLOSING_SIGNED_TLV_TYPES tlvs /\
               foldM closing_signed_tlv None tlvs = Ok (cl_partialSignature m)).
  { unfold tlvs. destruct (cl_partialSignature m); simpl in *; (split; [tlv_side|]);
      unfold closing_signed_tlv, CLOSING_PARTIAL_SIG_LENGTH; simpl; rewrite ?H4; done. }
  destruct Ht as [Ht Hf]. pose proof (blen_nonneg (stream_bytes tlvs)).
  set (fixed := cl_channelId m ++ be 8 (cl_feeSatoshis m) ++ cl_signature m).
  exists (fixed ++ stream_bytes tlvs).
  unfold encodeClosingSignedMessage, decodeClosingSignedMessage, CLOSING_SIGNED_LENGTH. split.
  - unfold fixed, tlvs, writeBigUInt64BE. rewrite copy_fill0 by blia.
    rewrite write_fill, bind_Ok by rng.
    destruct (cl_partialSignature m) as [p|]; simpl in *.
    + destruct H5 as [H5|H5]; [done|]. unfold CLOSING_PARTIAL_SIG_LENGTH. rewrite H4. simpl.
      rewrite (encodeTlvStream_bytes (-1)) by tlv_side. simpl. rewrite H5.
      replace (104 - blen (cl_channelId m) - 8) with 64 by lia. by rewrite <- !app_assoc.
    + rewrite stream_bytes_nil, app_nil_r. enc. done.
  - rewrite tlv_tail, Hf by (done || unfold fixed; blia).
    unfold fixed. rewrite <- !app_assoc. pass_guard. rd. by destruct m.
Qed.

Definition simple_close_sigs (m : IClosingCompleteMessage) : list ITlvRecord :=
  opt_tlv 1 (cc_closerOutputOnlySig m) ++ opt_tlv 2 (cc_closeeOutputOnlySig m) ++
  opt_tlv 3 (cc_closerAndCloseeSig m).

Definition simple_close_wf (m : IClosingCompleteMessage) : Prop :=
  blen (cc_channelId m) = 32 /\ blen (cc_closerScriptPubkey m) < 2 ^ 16 /\
  blen (cc_closeeScriptPubkey m) < 2 ^ 16 /\ 0 <= cc_feeSatoshis m < 2 ^ 64 /\
  0 <= cc_locktime m < 2 ^ 32 /\ opt_len (cc_closerOutputOnlySig m) 64 /\
  opt_len (cc_closeeOutputOnlySig m) 64 /\ opt_len (cc_closerAndCloseeSig m) 64 /\
  simple_close_sigs m <> [].

Definition simple_close_fixed (m : IClosingCompleteMessage) : buffer :=
  cc_channelId m ++ be 2 (blen (cc_closerScriptPubkey m)) ++ cc_closerScriptPubkey m ++
  be 2 (blen (cc_closeeScriptPubkey m)) ++ cc_closeeScriptPubkey m ++
  be 8 (cc_feeSatoshis m) ++ be 4 (cc_locktime m).

Lemma pushSig_opt rs t s :
  opt_len s 64 -> pushSig rs t s = Ok (rs ++ opt_tlv t s).
Proof.
  destruct s; simpl; intros H; [by rewrite H | by rewrite app_nil_r].
Qed.

Lemma simple_close_sigs_ok m : simple_close_wf m ->
  tlvs_ok CLOSING_TLV_TYPES (simple_close_sigs m) /\
  foldM closing_tlv (None, None, None) (simple_close_sigs m) =
    Ok (cc_closerOutputOnlySig m, cc_closeeOutputOnlySig m, cc_closerAndCloseeSig m).
Proof.
  intros (_ & _ & _ & _ & _ & H6 & H7 & H8 & _). unfold simple_close_sigs.
  destruct (cc_closerOutputOnlySig m), (cc_closeeOutputOnlySig m), (cc_closerAndCloseeSig m);
    simpl in *; (split; [tlv_side|]); unfold closing_tlv; simpl;
    rewrite ?H6; simpl; rewrite ?H7; simpl; rewrite ?H8; done.
Qed.

Lemma simple_close_bytes m : simple_close_wf m ->
  encodeSimpleCloseMessage m =
    Ok (simple_close_fixed m ++ stream_bytes (simple_close_sigs m)).
Proof.
  intros Hw. destruct (simple_close_sigs_ok m Hw) as ((Hr & Hi & _) & _).
  destruct Hw as (H1 & H2 & H3 & H4 & H5 & H6 & H7 & H8 & H9).
  pose proof (blen_nonneg (cc_closerScriptPubkey m)).
  pose proof (blen_nonneg (cc_closeeScriptPubkey m)).
  unfold encodeSimpleCloseMessage.
  rewrite !pushSig_opt, !bind_Ok by done. rewrite !pushSig_opt, !bind_Ok by done.
  rewrite !pushSig_opt, !bind_Ok by done. cbn [app].
  rewrite <- app_assoc. fold (simple_close_sigs m).
  rewrite throw_pass by (destruct (simple_close_sigs m); [done|reflexivity]).
  enc. rewrite (encodeTlvStream_bytes (-1)), bind_Ok by done.
  unfold simple_close_fixed. by rewrite <- !app_assoc.
Qed.

Lemma simple_close_decode m : simple_close_wf m ->
  decodeSimpleCloseMessage (simple_close_fixed m ++ stream_bytes (simple_close_sigs m)) = Ok m.
Proof.
  intros Hw. destruct (simple_close_sigs_ok m Hw) as ((Hr & Hi & Hk) & Hf).
  destruct Hw as (H1 & H2 & H3 & H4 & H5 & _ & _ & _ & H9).
  pose proof (blen_nonneg (cc_closerScriptPubkey m)).
  pose proof (blen_nonneg (cc_closeeScriptPubkey m)).
  pose proof (blen_nonneg (stream_bytes (simple_close_sigs m))).
  set (payload := simple_close_fixed m ++ stream_bytes (simple_close_sigs m)).
  set (o2 := 34 + blen (cc_closerScriptPubkey m)).
  set (o3 := o2 + 2 + blen (cc_closeeScriptPubkey m)).
  assert (Hs1 : readScript payload 32 = Ok (cc_closerScriptPubkey m, o2)).
  { unfold readScript, payload, simple_close_fixed, o2. rewrite <- !app_assoc.
    pass_guard. rd. do 2 f_equal. }
  assert (Hs2 : readScript payload o2 = Ok (cc_closeeScriptPubkey m, o3)).
  { unfold readScript, payload, simple_close_fixed, o3, o2. rewrite <- !app_assoc.
    pass_guard. rd. do 2 f_equal. }
  unfold decodeSimpleCloseMessage. rewrite Hs1, bind_Ok, Hs2, bind_Ok.
  unfold payload, o3, o2.
  erewrite (decodeTlvStream_at (simple_close_fixed m)) by
    (done || unfold simple_close_fixed; blia).
  unfold simple_close_fixed. rewrite <- !app_assoc. pass_guard. rd.
  cbn [records]. rewrite Hf, bind_Ok.
  rewrite throw_pass.
  - by destruct m.
  - revert H9. unfold simple_close_sigs.
    destruct (cc_closerOutputOnlySig m), (cc_closeeOutputOnlySig m), (cc_closerAndCloseeSig m);
      done.
Qed.
