(* ===== verification/WireFunding.v ===== *)
(** * funding_created, funding_signed, channel_ready and channel_reestablish
      (channel-funding.ts and channel-reestablish.ts of src/src/lightning/message) *)

From S2P Require Import Prelude Buffer Codec Tlv Wire WireCommitment.
From Stdlib Require Import Strings.Byte.

Definition TLV_SHORT_CHANNEL_ID := 1.
Definition FUNDING_SIG_TLV_TYPES := [TLV_PARTIAL_SIG_WITH_NONCE].
Definition CHANNEL_READY_TLV_TYPES := [TLV_SHORT_CHANNEL_ID; TLV_NEXT_LOCAL_NONCE].
Definition FUNDING_CREATED_LENGTH := 130.
Definition FUNDING_SIGNED_LENGTH := 96.
Definition CHANNEL_READY_FIXED_LENGTH := 65.

Record IFundingCreatedMessage := {
  fc_temporaryChannelId : buffer;
  fc_fundingTxid : buffer;
  fc_fundingOutputIndex : Z;
  fc_signature : buffer;
  fc_partialSignatureWithNonce : option buffer
}.

Record IFundingSignedMessage := {
  fs_channelId : buffer; fs_signature : buffer; fs_partialSignatureWithNonce : option buffer
}.

Record IChannelReadyMessage := {
  cr_channelId : buffer;
  cr_secondPerCommitmentPoint : buffer;
  cr_shortChannelId : option buffer;
  cr_nextLocalNonce : option buffer
}.

(** The [if (msg.partialSignatureWithNonce)] block of both encoders. *)
Definition append_partial_sig (buf : buffer) (p : option buffer) : result buffer :=
  match p with
  | Some p =>
      _ ← throw_if (negb (blen p =? 98)) "partial_signature_with_nonce must be 98 bytes";
      tlvs ← encodeTlvStream [{| tlv_type := TLV_PARTIAL_SIG_WITH_NONCE; tlv_value := p |}];
      Ok (buf ++ tlvs)
  | None => Ok buf
  end.

(** The body of both decoders' loop over the TLV records. *)
Definition funding_sig_tlv (acc : option buffer) (record : ITlvRecord) : result (option buffer) :=
  if (tlv_type record =? TLV_PARTIAL_SIG_WITH_NONCE) && (blen (tlv_value record) =? 98) then
    Ok (Some (tlv_value record))
  else Ok acc.

Definition encodeFundingCreatedMessage (msg : IFundingCreatedMessage) : result buffer :=
  let buf := alloc FUNDING_CREATED_LENGTH in
  let buf := copy (fc_temporaryChannelId msg) buf 0 in
  let buf := copy (fc_fundingTxid msg) buf 32 in
  buf ← writeUInt16BE buf (fc_fundingOutputIndex msg) 64;
  let buf := copy (fc_signature msg) buf 66 in
  append_partial_sig buf (fc_partialSignatureWithNonce msg).

Definition decodeFundingCreatedMessage (payload : buffer) : result IFundingCreatedMessage :=
  _ ← throw_if (blen payload <? FUNDING_CREATED_LENGTH) "funding_created too short";
  let temporaryChannelId := subarray payload 0 32 in
  let fundingTxid := subarray payload 32 64 in
  fundingOutputIndex ← readUInt16BE payload 64;
  let signature := subarray payload 66 130 in
  partial ← (if 130 <? blen payload then
               res ← decodeTlvStream payload 130 (Some FUNDING_SIG_TLV_TYPES);
               foldM funding_sig_tlv None (records res)
             else Ok None);
  Ok {| fc_temporaryChannelId := temporaryChannelId; fc_fundingTxid := fundingTxid;
        fc_fundingOutputIndex := fundingOutputIndex; fc_signature := signature;
        fc_partialSignatureWithNonce := partial |}.

Definition encodeFundingSignedMessage (msg : IFundingSignedMessage) : result buffer :=
  let buf := alloc FUNDING_SIGNED_LENGTH in
  let buf := copy (fs_channelId msg) buf 0 in
  let buf := copy (fs_signature msg) buf 32 in
  append_partial_sig buf (fs_partialSignatureWithNonce msg).

Definition decodeFundingSignedMessage (payload : buffer) : result IFundingSignedMessage :=
  _ ← throw_if (blen payload <? FUNDING_SIGNED_LENGTH) "funding_signed too short";
  let channelId := subarray payload 0 32 in
  let signature := subarray payload 32 96 in
  partial ← (if FUNDING_SIGNED_LENGTH <? blen payload then
               res ← decodeTlvStream payload FUNDING_SIGNED_LENGTH (Some FUNDING_SIG_TLV_TYPES);
               foldM funding_sig_tlv None (records res)
             else Ok None);
  Ok {| fs_channelId := channelId; fs_signature := signature;
        fs_partialSignatureWithNonce := partial |}.

Definition encodeChannelReadyMessage (msg : IChannelReadyMessage) : result buffer :=
  let buf := alloc CHANNEL_READY_FIXED_LENGTH in
  let buf := copy (cr_channelId msg) buf 0 in
  let buf := copy (cr_secondPerCommitmentPoint msg) buf 32 in
  let tlvRecords := match cr_shortChannelId msg with
                    | Some scid => [{| tlv_type := TLV_SHORT_CHANNEL_ID; tlv_value := scid |}]
                    | None => []
                    end in
  tlvRecords ← match cr_nextLocalNonce msg with
               | Some nonce =>
                   _ ← throw_if (negb (blen nonce =? 66))
                         "channel_ready next_local_nonce must be 66 bytes";
                   Ok (tlvRecords ++ [{| tlv_type := TLV_NEXT_LOCAL_NONCE; tlv_value := nonce |}])
               | None => Ok tlvRecords
               end;
  if 0 <? Z.of_nat (length tlvRecords) then
    tlvs ← encodeTlvStream (sort_records tlvRecords); Ok (buf ++ tlvs)
  else Ok buf.

Definition channel_ready_tlv (acc : option buffer * option buffer) (record : ITlvRecord)
    : result (option buffer * option buffer) :=
  if tlv_type record =? TLV_SHORT_CHANNEL_ID then Ok (Some (tlv_value record), acc.2)
  else if (tlv_type record =? TLV_NEXT_LOCAL_NONCE) && (blen (tlv_value record) =? 66) then
    Ok (acc.1, Some (tlv_value record))
  else Ok acc.

Definition decodeChannelReadyMessage (payload : buffer) : result IChannelReadyMessage :=
  _ ← throw_if (blen payload <? CHANNEL_READY_FIXED_LENGTH) "channel_ready too short";
  let channelId := subarray payload 0 32 in
  let secondPerCommitmentPoint := subarray payload 32 65 in
  '(scid, nonce) ← (if 65 <? blen payload then
                      res ← decodeTlvStream payload 65 (Some CHANNEL_READY_TLV_TYPES);
                      foldM channel_ready_tlv (None, None) (records res)
                    else Ok (None, None));
  Ok {| cr_channelId := channelId; cr_secondPerCommitmentPoint := secondPerCommitmentPoint;
        cr_shortChannelId := scid; cr_nextLocalNonce := nonce |}.

(** ** Round trips *)

Lemma append_partial_sig_bytes buf p :
  opt_len p 98 ->
  append_partial_sig buf p = Ok (buf ++ stream_bytes (opt_tlv TLV_PARTIAL_SIG_WITH_NONCE p)).
Proof.
  destruct p as [p|]; simpl; intros H.
  - rewrite H. simpl. by rewrite (encodeTlvStream_bytes (-1)) by tlv_side.
  - by rewrite stream_bytes_nil, app_nil_r.
Qed.

Lemma funding_sig_tlvs_ok p :
  opt_len p 98 ->
  tlvs_ok FUNDING_SIG_TLV_TYPES (opt_tlv TLV_PARTIAL_SIG_WITH_NONCE p) /\
  foldM funding_sig_tlv None (opt_tlv TLV_PARTIAL_SIG_WITH_NONCE p) = Ok p.
Proof.
  destruct p; simpl; intros H; (split; [tlv_side|]);
    unfold funding_sig_tlv; simpl; rewrite ?H; done.
Qed.

Definition funding_created_wf (m : IFundingCreatedMessage) : Prop :=
  blen (fc_temporaryChannelId m) = 32 /\ blen (fc_fundingTxid m) = 32 /\
  0 <= fc_fundingOutputIndex m < 2 ^ 16 /\ blen (fc_signature m) = 64 /\
  opt_len (fc_partialSignatureWithNonce m) 98.

Lemma funding_created_rt m : funding_created_wf m ->
  exists b, encodeFundingCreatedMessage m = Ok b /\ decodeFundingCreatedMessage b = Ok m.
Proof.
  intros (H1 & H2 & H3 & H4 & H5). destruct (funding_sig_tlvs_ok _ H5) as [Ht Hf].
  set (tlvs := opt_tlv _ _) in *. pose proof (blen_nonneg (stream_bytes tlvs)).
  set (fixed := fc_temporaryChannelId m ++ fc_fundingTxid m ++
                be 2 (fc_fundingOutputIndex m) ++ fc_signature m).
  exists (fixed ++ stream_bytes tlvs).
  unfold encodeFundingCreatedMessage, decodeFundingCreatedMessage, FUNDING_CREATED_LENGTH. split.
  - enc. rewrite append_partial_sig_bytes by done. done.
  - rewrite tlv_tail, Hf by (done || unfold fixed; blia).
    unfold fixed. rewrite <- !app_assoc. pass_guard. rd. by destruct m.
Qed.

Definition funding_signed_wf (m : IFundingSignedMessage) : Prop :=
  blen (fs_channelId m) = 32 /\ blen (fs_signature m) = 64 /\
  opt_len (fs_partialSignatureWithNonce m) 98.

Lemma funding_signed_rt m : funding_signed_wf m ->
  exists b, encodeFundingSignedMessage m = Ok b /\ decodeFundingSignedMessage b = Ok m.
Proof.
  intros (H1 & H2 & H3). destruct (funding_sig_tlvs_ok _ H3) as [Ht Hf].
  set (tlvs := opt_tlv _ _) in *. pose proof (blen_nonneg (stream_bytes tlvs)).
  set (fixed := fs_channelId m ++ fs_signature m). exists (fixed ++ stream_bytes tlvs).
  unfold encodeFundingSignedMessage, decodeFundingSignedMessage, FUNDING_SIGNED_LENGTH. split.
  - enc. rewrite append_partial_sig_bytes by done. done.
  - rewrite tlv_tail, Hf by (done || unfold fixed; blia).
    unfold fixed. rewrite <- !app_assoc. pass_guard. rd. by destruct m.
Qed.

Definition channel_ready_wf (m : IChannelReadyMessage) : Prop :=
  blen (cr_channelId m) = 32 /\ blen (cr_secondPerCommitmentPoint m) = 33 /\
  opt_len (cr_shortChannelId m) 8 /\ opt_len (cr_nextLocalNonce m) 66.

Definition channel_ready_tlvs (m : IChannelReadyMessage) : list ITlvRecord :=
  opt_tlv TLV_SHORT_CHANNEL_ID (cr_shortChannelId m) ++
  opt_tlv TLV_NEXT_LOCAL_NONCE (cr_nextLocalNonce m).

Lemma channel_ready_tlvs_ok m : channel_ready_wf m ->
  tlvs_ok CHANNEL_READY_TLV_TYPES (channel_ready_tlvs m) /\
  foldM channel_ready_tlv (None, None) (channel_ready_tlvs m) =
    Ok (cr_shortChannelId m, cr_nextLocalNonce m).
Proof.
  intros (_ & _ & H3 & H4). unfold channel_ready_tlvs, TLV_SHORT_CHANNEL_ID, TLV_NEXT_LOCAL_NONCE.
  destruct (cr_shortChannelId m), (cr_nextLocalNonce m); simpl in *; (split; [tlv_side|]);
    unfold channel_ready_tlv; simpl; rewrite ?H4; done.
Qed.

Lemma channel_ready_rt m : channel_ready_wf m ->
  exists b, encodeChannelReadyMessage m = Ok b /\ decodeChannelReadyMessage b = Ok m.
Proof.
  intros Hw. destruct (channel_ready_tlvs_ok m Hw) as [Ht Hf]. destruct Hw as (H1 & H2 & H3 & H4).
  set (fixed := cr_channelId m ++ cr_secondPerCommitmentPoint m).
  exists (fixed ++ stream_bytes (channel_ready_tlvs m)).
  unfold encodeChannelReadyMessage, decodeChannelReadyMessage, CHANNEL_READY_FIXED_LENGTH. split.
  - enc. unfold fixed, channel_ready_tlvs, TLV_SHORT_CHANNEL_ID, TLV_NEXT_LOCAL_NONCE in *.
    destruct (cr_shortChannelId m), (cr_nextLocalNonce m); simpl in *; rewrite ?H4; simpl;
      rewrite ?(encodeTlvStream_bytes (-1)) by tlv_side; simpl;
      by rewrite ?stream_bytes_nil, ?app_nil_r.
  - pose proof (blen_nonneg (stream_bytes (channel_ready_tlvs m))).
    rewrite tlv_tail, Hf by (done || unfold fixed; blia).
    unfold fixed. rewrite <- !app_assoc. pass_guard. rd. by destruct m.
Qed.

(** ** channel_reestablish (src/src/lightning/message/channel-reestablish.ts)

    The message two peers exchange after a reconnection, with the record of an FFOR epoch it may
    carry (encodeFforReestablishTlv and decodeFforReestablishTlv of ffor/messages.ts). *)

(** ** The record of an epoch *)

Inductive FforState :=
| NEGOTIATING | VOUCHERS_COMMITTED | ACTIVATING | ACTIVE | DRAINING | EPOCH_CLOSED | EPOCH_ABORTED.

Definition FforState_list : list FforState :=
  [NEGOTIATING; VOUCHERS_COMMITTED; ACTIVATING; ACTIVE; DRAINING; EPOCH_CLOSED; EPOCH_ABORTED].

Definition FforState_number (s : FforState) : Z :=
  match s with
  | NEGOTIATING => 0 | VOUCHERS_COMMITTED => 1 | ACTIVATING => 2 | ACTIVE => 3
  | DRAINING => 4 | EPOCH_CLOSED => 5 | EPOCH_ABORTED => 6
  end.

Record IFforReestablishTlv := {
  fr_epochId : buffer;
  fr_state : FforState;
  fr_lastSeq : Z;
  fr_activationHash : buffer
}.

Definition FF_REESTABLISH_TLV_TYPE := 55001.
Definition FF_REESTABLISH_TLV_LEN := 67.

Definition u8 (v : Z) : buffer := [byte_of_Z (Z.land v 0xff)].
Definition u16 (v : Z) : result buffer := writeUInt16BE (alloc 2) v 0.

Definition encodeFforReestablishTlv (tlv : IFforReestablishTlv) : result ITlvRecord :=
  _ ← throw_if (negb (blen (fr_epochId tlv) =? 32)) "epoch_id must be 32 bytes";
  _ ← throw_if (negb (blen (fr_activationHash tlv) =? 32)) "activation_hash must be 32 bytes";
  lastSeq ← u16 (fr_lastSeq tlv);
  Ok {| tlv_type := FF_REESTABLISH_TLV_TYPE;
        tlv_value := fr_epochId tlv ++ u8 (FforState_number (fr_state tlv)) ++ lastSeq ++
                     fr_activationHash tlv |}.

Definition decodeFforReestablishTlv (value : buffer) : result IFforReestablishTlv :=
  _ ← throw_if (negb (blen value =? FF_REESTABLISH_TLV_LEN)) "reestablish TLV 55001 must be 67 bytes";
  match FforState_list !! Z.to_nat (byte_at value 32) with
  | None => Err "reestablish TLV 55001: unknown state"
  | Some state =>
      lastSeq ← readUInt16BE value 33;
      Ok {| fr_epochId := subarray value 0 32; fr_state := state; fr_lastSeq := lastSeq;
            fr_activationHash := subarray value 35 67 |}
  end.

(** ** The message *)

Record IChannelReestablishMessage := {
  rm_channelId : buffer;
  rm_nextCommitmentNumber : Z;
  rm_nextRevocationNumber : Z;
  rm_yourLastPerCommitmentSecret : buffer;
  rm_myCurrentPerCommitmentPoint : buffer;
  rm_nextFundingTxid : option buffer;
  rm_nextFundingRetransmitFlags : option Z;
  rm_nextLocalNonce : option buffer;
  rm_ffor : option IFforReestablishTlv
}.

Definition CHANNEL_REESTABLISH_LENGTH := 113.
Definition TLV_NEXT_FUNDING := 1.
Definition TLV_NEXT_FUNDING_LEGACY := 0.
Definition TLV_REESTABLISH_NONCE := 4.
Definition CHANNEL_REESTABLISH_TLV_TYPES :=
  [TLV_NEXT_FUNDING_LEGACY; TLV_NEXT_FUNDING; TLV_REESTABLISH_NONCE; FF_REESTABLISH_TLV_TYPE].

Definition next_funding_record (msg : IChannelReestablishMessage) : result (list ITlvRecord) :=
  match rm_nextFundingTxid msg with
  | Some txid =>
      _ ← throw_if (negb (blen txid =? 32)) "next_funding_txid must be 32 bytes";
      Ok [{| tlv_type := TLV_NEXT_FUNDING;
             tlv_value := txid ++ [byte_of_Z (default 0 (rm_nextFundingRetransmitFlags msg))] |}]
  | None => Ok []
  end.

Definition nonce_record (msg : IChannelReestablishMessage) : result (list ITlvRecord) :=
  match rm_nextLocalNonce msg with
  | Some nonce =>
      _ ← throw_if (negb (blen nonce =? 66)) "next_local_nonce must be 66 bytes";
      Ok [{| tlv_type := TLV_REESTABLISH_NONCE; tlv_value := nonce |}]
  | None => Ok []
  end.

Definition ffor_record (msg : IChannelReestablishMessage) : result (list ITlvRecord) :=
  match rm_ffor msg with
  | Some ffor => record ← encodeFforReestablishTlv ffor; Ok [record]
  | None => Ok []
  end.

Definition encodeChannelReestablishMessage (msg : IChannelReestablishMessage) : result buffer :=
  let buf := copy (rm_channelId msg) (alloc CHANNEL_REESTABLISH_LENGTH) 0 in
  buf ← writeBigUInt64BE buf (rm_nextCommitmentNumber msg) 32;
  buf ← writeBigUInt64BE buf (rm_nextRevocationNumber msg) 40;
  let buf := copy (rm_yourLastPerCommitmentSecret msg) buf 48 in
  let buf := copy (rm_myCurrentPerCommitmentPoint msg) buf 80 in
  funding ← next_funding_record msg;
  nonce ← nonce_record msg;
  ffor ← ffor_record msg;
  let tlvRecords := funding ++ nonce ++ ffor in
  if 0 <? Z.of_nat (length tlvRecords) then
    tlvs ← encodeTlvStream tlvRecords; Ok (buf ++ tlvs)
  else Ok buf.

(** The optional fields the loop over the records fills. *)
Record ReestablishTlvs := {
  rt_fundingTxid : option buffer;
  rt_flags : option Z;
  rt_nonce : option buffer;
  rt_ffor : option IFforReestablishTlv
}.

Definition no_tlvs : ReestablishTlvs :=
  {| rt_fundingTxid := None; rt_flags := None; rt_nonce := None; rt_ffor := None |}.

Definition reestablish_tlv (acc : ReestablishTlvs) (record : ITlvRecord) : result ReestablishTlvs :=
  let t := tlv_type record in
  let value := tlv_value record in
  if ((t =? TLV_NEXT_FUNDING) || (t =? TLV_NEXT_FUNDING_LEGACY)) && (32 <=? blen value) then
    Ok {| rt_fundingTxid := Some (subarray value 0 32);
          rt_flags := if 33 <=? blen value then Some (byte_at value 32) else rt_flags acc;
          rt_nonce := rt_nonce acc; rt_ffor := rt_ffor acc |}
  else if (t =? TLV_REESTABLISH_NONCE) && (blen value =? 66) then
    Ok {| rt_fundingTxid := rt_fundingTxid acc; rt_flags := rt_flags acc; rt_nonce := Some value;
          rt_ffor := rt_ffor acc |}
  else if t =? FF_REESTABLISH_TLV_TYPE then
    (* a malformed record is dropped *)
    Ok {| rt_fundingTxid := rt_fundingTxid acc; rt_flags := rt_flags acc; rt_nonce := rt_nonce acc;
          rt_ffor := match decodeFforReestablishTlv value with
                     | Ok ffor => Some ffor | Err _ => rt_ffor acc end |}
  else Ok acc.

Definition decodeChannelReestablishMessage (payload : buffer) : result IChannelReestablishMessage :=
  _ ← throw_if (blen payload <? CHANNEL_REESTABLISH_LENGTH) "channel_reestablish too short";
  let channelId := subarray payload 0 32 in
  nextCommitmentNumber ← readBigUInt64BE payload 32;
  nextRevocationNumber ← readBigUInt64BE payload 40;
  let yourLastPerCommitmentSecret := subarray payload 48 80 in
  let myCurrentPerCommitmentPoint := subarray payload 80 113 in
  tlvs ← (if 113 <? blen payload then
            res ← decodeTlvStream payload 113 (Some CHANNEL_REESTABLISH_TLV_TYPES);
            foldM reestablish_tlv no_tlvs (records res)
          else Ok no_tlvs);
  Ok {| rm_channelId := channelId; rm_nextCommitmentNumber := nextCommitmentNumber;
        rm_nextRevocationNumber := nextRevocationNumber;
        rm_yourLastPerCommitmentSecret := yourLastPerCommitmentSecret;
        rm_myCurrentPerCommitmentPoint := myCurrentPerCommitmentPoint;
        rm_nextFundingTxid := rt_fundingTxid tlvs; rm_nextFundingRetransmitFlags := rt_flags tlvs;
        rm_nextLocalNonce := rt_nonce tlvs; rm_ffor := rt_ffor tlvs |}.

(** ** Round trip *)

Definition ffor_wf (f : IFforReestablishTlv) : Prop :=
  blen (fr_epochId f) = 32 /\ 0 <= fr_lastSeq f < 2 ^ 16 /\ blen (fr_activationHash f) = 32.

Definition ffor_bytes (f : IFforReestablishTlv) : buffer :=
  fr_epochId f ++ [byte_of_Z (FforState_number (fr_state f))] ++ be 2 (fr_lastSeq f) ++
  fr_activationHash f.

Lemma ffor_encode f : ffor_wf f ->
  encodeFforReestablishTlv f =
    Ok {| tlv_type := FF_REESTABLISH_TLV_TYPE; tlv_value := ffor_bytes f |}.
Proof.
  intros (H1 & H2 & H3). unfold encodeFforReestablishTlv, u16, ffor_bytes, u8. rewrite H1, H3.
  cbn [negb Z.eqb Pos.eqb throw_if]. rewrite !bind_Ok. enc. by destruct (fr_state f).
Qed.

Lemma ffor_decode f : ffor_wf f -> decodeFforReestablishTlv (ffor_bytes f) = Ok f.
Proof.
  intros (H1 & H2 & H3). unfold decodeFforReestablishTlv, FF_REESTABLISH_TLV_LEN, ffor_bytes.
  rewrite throw_pass by (apply negb_false_iff, Z.eqb_eq; blia). rd.
  rewrite byte_at_hd by lia. rewrite Z_of_byte_of_Z.
  replace (FforState_list !! Z.to_nat (FforState_number (fr_state f) mod 256)) with
    (Some (fr_state f)) by (by destruct (fr_state f)).
  rewrite ?bind_Ok. by destruct f.
Qed.

Definition reestablish_wf (m : IChannelReestablishMessage) : Prop :=
  blen (rm_channelId m) = 32 /\ 0 <= rm_nextCommitmentNumber m < 2 ^ 64 /\
  0 <= rm_nextRevocationNumber m < 2 ^ 64 /\ blen (rm_yourLastPerCommitmentSecret m) = 32 /\
  blen (rm_myCurrentPerCommitmentPoint m) = 33 /\
  match rm_nextFundingTxid m, rm_nextFundingRetransmitFlags m with
  | Some txid, Some flags => blen txid = 32 /\ 0 <= flags < 256
  | None, None => True
  | _, _ => False
  end /\
  opt_len (rm_nextLocalNonce m) 66 /\
  match rm_ffor m with Some f => ffor_wf f | None => True end.

Definition reestablish_tlvs (m : IChannelReestablishMessage) : list ITlvRecord :=
  opt_tlv TLV_NEXT_FUNDING
    ((fun txid => txid ++ [byte_of_Z (default 0 (rm_nextFundingRetransmitFlags m))]) <$>
       rm_nextFundingTxid m) ++
  opt_tlv TLV_REESTABLISH_NONCE (rm_nextLocalNonce m) ++
  opt_tlv FF_REESTABLISH_TLV_TYPE (ffor_bytes <$> rm_ffor m).

Lemma reestablish_records m : reestablish_wf m ->
  (funding ← next_funding_record m; nonce ← nonce_record m; ffor ← ffor_record m;
   Ok (funding ++ nonce ++ ffor)) = Ok (reestablish_tlvs m).
Proof.
  intros (_ & _ & _ & _ & _ & H1 & H2 & H3).
  unfold next_funding_record, nonce_record, ffor_record, reestablish_tlvs.
  destruct (rm_nextFundingTxid m), (rm_nextFundingRetransmitFlags m), (rm_nextLocalNonce m),
    (rm_ffor m); cbn in *; try done;
    rewrite ?H2; try (destruct H1 as [-> _]); cbn; rewrite ?ffor_encode by done; done.
Qed.

Lemma ffor_len f : ffor_wf f -> blen (ffor_bytes f) = 67.
Proof. intros (H1 & _ & H3). unfold ffor_bytes. blia. Qed.

Lemma reestablish_tlvs_ok m : reestablish_wf m ->
  tlvs_ok CHANNEL_REESTABLISH_TLV_TYPES (reestablish_tlvs m) /\
  foldM reestablish_tlv no_tlvs (reestablish_tlvs m) =
    Ok {| rt_fundingTxid := rm_nextFundingTxid m; rt_flags := rm_nextFundingRetransmitFlags m;
          rt_nonce := rm_nextLocalNonce m; rt_ffor := rm_ffor m |}.
Proof.
  intros (_ & _ & _ & _ & _ & H1 & H2 & H3). unfold reestablish_tlvs, TLV_NEXT_FUNDING,
    TLV_REESTABLISH_NONCE, FF_REESTABLISH_TLV_TYPE.
  assert (forall acc txid flags, blen txid = 32 -> 0 <= flags < 256 ->
    reestablish_tlv acc {| tlv_type := 1; tlv_value := txid ++ [byte_of_Z flags] |} =
    Ok {| rt_fundingTxid := Some txid; rt_flags := Some flags; rt_nonce := rt_nonce acc;
          rt_ffor := rt_ffor acc |}) as Hfund.
  { intros acc txid flags Ht Hf. unfold reestablish_tlv. cbn [tlv_type tlv_value Z.eqb Pos.eqb orb].
    rewrite (proj2 (Z.leb_le 32 _)) by blia. rewrite (proj2 (Z.leb_le 33 _)) by blia. cbn [andb].
    rewrite (subarray_hd txid) by blia. rewrite byte_at_skip by blia.
    rewrite byte_at_hd by blia. rewrite Z_of_byte_of_Z. by rewrite Z.mod_small. }
  destruct (rm_nextFundingTxid m) as [txid|], (rm_nextFundingRetransmitFlags m) as [flags|]; try done;
    destruct (rm_nextLocalNonce m) as [nonce|], (rm_ffor m) as [f|]; cbn in H1, H2, H3;
    try destruct H1 as [H1 H1']; try pose proof (ffor_len _ H3);
    cbn [fmap option_fmap option_map opt_tlv app default];
    (split; [tlv_side|]); cbn [foldM]; rewrite ?Hfund by done; rewrite ?bind_Ok;
    unfold reestablish_tlv; cbn -[decodeFforReestablishTlv]; rewrite ?H2; cbn -[decodeFforReestablishTlv];
    rewrite ?ffor_decode by done; done.
Qed.

Lemma reestablish_rt m : reestablish_wf m ->
  exists b, encodeChannelReestablishMessage m = Ok b /\ decodeChannelReestablishMessage b = Ok m.
Proof.
  intros Hw. pose proof (reestablish_records m Hw) as Hr.
  destruct (reestablish_tlvs_ok m Hw) as [Ht Hf]. destruct Hw as (H1 & H2 & H3 & H4 & H5 & _).
  set (fixed := rm_channelId m ++ be 8 (rm_nextCommitmentNumber m) ++
                be 8 (rm_nextRevocationNumber m) ++ rm_yourLastPerCommitmentSecret m ++
                rm_myCurrentPerCommitmentPoint m).
  exists (fixed ++ stream_bytes (reestablish_tlvs m)).
  unfold encodeChannelReestablishMessage, decodeChannelReestablishMessage, CHANNEL_REESTABLISH_LENGTH.
  split.
  - enc. destruct (next_funding_record m) as [funding|]; [|done]. rewrite bind_Ok in *.
    destruct (nonce_record m) as [nonce|]; [|done]. rewrite bind_Ok in *.
    destruct (ffor_record m) as [ffor|]; [|done]. rewrite bind_Ok in *. cbv zeta.
    injection Hr as ->. unfold fixed. destruct (Z.ltb_spec 0 (Z.of_nat (length (reestablish_tlvs m)))).
    + rewrite (encodeTlvStream_bytes (-1)) by apply Ht. rewrite bind_Ok. by rewrite <- !app_assoc.
    + destruct (reestablish_tlvs m); [|cbn in *; lia]. by rewrite stream_bytes_nil, app_nil_r.
  - pose proof (blen_nonneg (stream_bytes (reestablish_tlvs m))).
    rewrite tlv_tail, Hf by (done || unfold fixed; blia).
    unfold fixed. rewrite <- !app_assoc. pass_guard. rd. by destruct m.
Qed.
