(* ===== verification/WireOpen.v ===== *)
(** * open_channel and accept_channel
      (src/src/lightning/message/channel-open.ts) *)

From S2P Require Import Prelude Buffer Codec Tlv Wire WireBasic WireCommitment.
From Stdlib Require Import Strings.Byte.

Definition TLV_UPFRONT_SHUTDOWN_SCRIPT := 0.
Definition TLV_CHANNEL_TYPE := 1.
Definition OPEN_ACCEPT_TLV_TYPES :=
  [TLV_UPFRONT_SHUTDOWN_SCRIPT; TLV_CHANNEL_TYPE; TLV_NEXT_LOCAL_NONCE].
Definition OPEN_CHANNEL_FIXED_LENGTH := 319.
Definition ACCEPT_CHANNEL_FIXED_LENGTH := 270.

(** The records both encoders push, in the order they push them. *)
Definition open_tlv_records (upfront ctype nonce : option buffer) : list ITlvRecord :=
  match upfront with
  | Some v => [{| tlv_type := TLV_UPFRONT_SHUTDOWN_SCRIPT; tlv_value := v |}]
  | None => []
  end ++
  match ctype with
  | Some v => [{| tlv_type := TLV_CHANNEL_TYPE; tlv_value := v |}]
  | None => []
  end ++
  match nonce with
  | Some v => [{| tlv_type := TLV_NEXT_LOCAL_NONCE; tlv_value := v |}]
  | None => []
  end.

(** The body of both decoders' loop over the TLV records. *)
Definition open_tlv (acc : option buffer * option buffer * option buffer) (record : ITlvRecord)
    : result (option buffer * option buffer * option buffer) :=
  let '(upfront, ctype, nonce) := acc in
  if tlv_type record =? TLV_UPFRONT_SHUTDOWN_SCRIPT then
    Ok (Some (tlv_value record), ctype, nonce)
  else if tlv_type record =? TLV_CHANNEL_TYPE then Ok (upfront, Some (tlv_value record), nonce)
  else if tlv_type record =? TLV_NEXT_LOCAL_NONCE then Ok (upfront, ctype, Some (tlv_value record))
  else Ok acc.

(** Every optional value fits a TLV length. *)
Definition open_tlvs_wf (upfront ctype nonce : option buffer) : Prop :=
  from_option (fun b => blen b < 2 ^ 64) True upfront /\
  from_option (fun b => blen b < 2 ^ 64) True ctype /\
  from_option (fun b => blen b < 2 ^ 64) True nonce.

(** ** open_channel *)

Record IOpenChannelMessage := {
  oc_chainHash : buffer;
  oc_temporaryChannelId : buffer;
  oc_fundingSatoshis : Z;
  oc_pushMsat : Z;
  oc_dustLimitSatoshis : Z;
  oc_maxHtlcValueInFlightMsat : Z;
  oc_channelReserveSatoshis : Z;
  oc_htlcMinimumMsat : Z;
  oc_feeratePerKw : Z;
  oc_toSelfDelay : Z;
  oc_maxAcceptedHtlcs : Z;
  oc_fundingPubkey : buffer;
  oc_revocationBasepoint : buffer;
  oc_paymentBasepoint : buffer;
  oc_delayedPaymentBasepoint : buffer;
  oc_htlcBasepoint : buffer;
  oc_firstPerCommitmentPoint : buffer;
  oc_channelFlags : Z;
  oc_upfrontShutdownScript : option buffer;
  oc_channelType : option buffer;
  oc_nextLocalNonce : option buffer
}.

Definition encodeOpenChannelMessage (msg : IOpenChannelMessage) : result buffer :=
  let buf := alloc OPEN_CHANNEL_FIXED_LENGTH in
  let buf := copy (oc_chainHash msg) buf 0 in
  let buf := copy (oc_temporaryChannelId msg) buf 32 in
  buf ← writeBigUInt64BE buf (oc_fundingSatoshis msg) 64;
  buf ← writeBigUInt64BE buf (oc_pushMsat msg) 72;
  buf ← writeBigUInt64BE buf (oc_dustLimitSatoshis msg) 80;
  buf ← writeBigUInt64BE buf (oc_maxHtlcValueInFlightMsat msg) 88;
  buf ← writeBigUInt64BE buf (oc_channelReserveSatoshis msg) 96;
  buf ← writeBigUInt64BE buf (oc_htlcMinimumMsat msg) 104;
  buf ← writeUInt32BE buf (oc_feeratePerKw msg) 112;
  buf ← writeUInt16BE buf (oc_toSelfDelay msg) 116;
  buf ← writeUInt16BE buf (oc_maxAcceptedHtlcs msg) 118;
  let buf := copy (oc_fundingPubkey msg) buf 120 in
  let buf := copy (oc_revocationBasepoint msg) buf 153 in
  let buf := copy (oc_paymentBasepoint msg) buf 186 in
  let buf := copy (oc_delayedPaymentBasepoint msg) buf 219 in
  let buf := copy (oc_htlcBasepoint msg) buf 252 in
  let buf := copy (oc_firstPerCommitmentPoint msg) buf 285 in
  let buf := set_byte buf 318 (oc_channelFlags msg) in
  let tlvRecords := open_tlv_records (oc_upfrontShutdownScript msg) (oc_channelType msg)
                      (oc_nextLocalNonce msg) in
  if 0 <? Z.of_nat (length tlvRecords) then
    tlvs ← encodeTlvStream tlvRecords; Ok (buf ++ tlvs)
  else Ok buf.

Definition decodeOpenChannelMessage (payload : buffer) : result IOpenChannelMessage :=
  _ ← throw_if (blen payload <? OPEN_CHANNEL_FIXED_LENGTH) "open_channel too short";
  let chainHash := subarray payload 0 32 in
  let temporaryChannelId := subarray payload 32 64 in
  fundingSatoshis ← readBigUInt64BE payload 64;
  pushMsat ← readBigUInt64BE payload 72;
  dustLimitSatoshis ← readBigUInt64BE payload 80;
  maxHtlcValueInFlightMsat ← readBigUInt64BE payload 88;
  channelReserveSatoshis ← readBigUInt64BE payload 96;
  htlcMinimumMsat ← readBigUInt64BE payload 104;
  feeratePerKw ← readUInt32BE payload 112;
  toSelfDelay ← readUInt16BE payload 116;
  maxAcceptedHtlcs ← readUInt16BE payload 118;
  let fundingPubkey := subarray payload 120 153 in
  let revocationBasepoint := subarray payload 153 186 in
  let paymentBasepoint := subarray payload 186 219 in
  let delayedPaymentBasepoint := subarray payload 219 252 in
  let htlcBasepoint := subarray payload 252 285 in
  let firstPerCommitmentPoint := subarray payload 285 318 in
  let channelFlags := byte_at payload 318 in
  '(upfront, ctype, nonce) ←
    (if 319 <? blen payload then
       res ← decodeTlvStream payload 319 (Some OPEN_ACCEPT_TLV_TYPES);
       foldM open_tlv (None, None, None) (records res)
     else Ok (None, None, None));
  Ok {| oc_chainHash := chainHash;
        oc_temporaryChannelId := temporaryChannelId;
        oc_fundingSatoshis := fundingSatoshis;
        oc_pushMsat := pushMsat;
        oc_dustLimitSatoshis := dustLimitSatoshis;
        oc_maxHtlcValueInFlightMsat := maxHtlcValueInFlightMsat;
        oc_channelReserveSatoshis := channelReserveSatoshis;
        oc_htlcMinimumMsat := htlcMinimumMsat;
        oc_feeratePerKw := feeratePerKw;
        oc_toSelfDelay := toSelfDelay;
        oc_maxAcceptedHtlcs := maxAcceptedHtlcs;
        oc_fundingPubkey := fundingPubkey;
        oc_revocationBasepoint := revocationBasepoint;
        oc_paymentBasepoint := paymentBasepoint;
        oc_delayedPaymentBasepoint := delayedPaymentBasepoint;
        oc_htlcBasepoint := htlcBasepoint;
        oc_firstPerCommitmentPoint := firstPerCommitmentPoint;
        oc_channelFlags := channelFlags;
        oc_upfrontShutdownScript := upfront; oc_channelType := ctype;
        oc_nextLocalNonce := nonce |}.

Definition open_channel_wf (m : IOpenChannelMessage) : Prop :=
  blen (oc_chainHash m) = 32 /\
  blen (oc_temporaryChannelId m) = 32 /\
  0 <= oc_fundingSatoshis m < 2 ^ 64 /\
  0 <= oc_pushMsat m < 2 ^ 64 /\
  0 <= oc_dustLimitSatoshis m < 2 ^ 64 /\
  0 <= oc_maxHtlcValueInFlightMsat m < 2 ^ 64 /\
  0 <= oc_channelReserveSatoshis m < 2 ^ 64 /\
  0 <= oc_htlcMinimumMsat m < 2 ^ 64 /\
  0 <= oc_feeratePerKw m < 2 ^ 32 /\
  0 <= oc_toSelfDelay m < 2 ^ 16 /\
  0 <= oc_maxAcceptedHtlcs m < 2 ^ 16 /\
  blen (oc_fundingPubkey m) = 33 /\
  blen (oc_revocationBasepoint m) = 33 /\
  blen (oc_paymentBasepoint m) = 33 /\
  blen (oc_delayedPaymentBasepoint m) = 33 /\
  blen (oc_htlcBasepoint m) = 33 /\
  blen (oc_firstPerCommitmentPoint m) = 33 /\
  0 <= oc_channelFlags m < 256 /\
  open_tlvs_wf (oc_upfrontShutdownScript m) (oc_channelType m) (oc_nextLocalNonce m).

Definition open_channel_fixed (m : IOpenChannelMessage) : buffer :=
  oc_chainHash m ++
  oc_temporaryChannelId m ++
  be 8 (oc_fundingSatoshis m) ++
  be 8 (oc_pushMsat m) ++
  be 8 (oc_dustLimitSatoshis m) ++
  be 8 (oc_maxHtlcValueInFlightMsat m) ++
  be 8 (oc_channelReserveSatoshis m) ++
  be 8 (oc_htlcMinimumMsat m) ++
  be 4 (oc_feeratePerKw m) ++
  be 2 (oc_toSelfDelay m) ++
  be 2 (oc_maxAcceptedHtlcs m) ++
  oc_fundingPubkey m ++
  oc_revocationBasepoint m ++
  oc_paymentBasepoint m ++
  oc_delayedPaymentBasepoint m ++
  oc_htlcBasepoint m ++
  oc_firstPerCommitmentPoint m ++
  [byte_of_Z (oc_channelFlags m)].

Definition open_channel_tlvs (m : IOpenChannelMessage) : list ITlvRecord :=
  open_tlv_records (oc_upfrontShutdownScript m) (oc_channelType m) (oc_nextLocalNonce m).

(** ** accept_channel *)

Record IAcceptChannelMessage := {
  ac_temporaryChannelId : buffer;
  ac_dustLimitSatoshis : Z;
  ac_maxHtlcValueInFlightMsat : Z;
  ac_channelReserveSatoshis : Z;
  ac_htlcMinimumMsat : Z;
  ac_minimumDepth : Z;
  ac_toSelfDelay : Z;
  ac_maxAcceptedHtlcs : Z;
  ac_fundingPubkey : buffer;
  ac_revocationBasepoint : buffer;
  ac_paymentBasepoint : buffer;
  ac_delayedPaymentBasepoint : buffer;
  ac_htlcBasepoint : buffer;
  ac_firstPerCommitmentPoint : buffer;
  ac_upfrontShutdownScript : option buffer;
  ac_channelType : option buffer;
  ac_nextLocalNonce : option buffer
}.

Definition encodeAcceptChannelMessage (msg : IAcceptChannelMessage) : result buffer :=
  let buf := alloc ACCEPT_CHANNEL_FIXED_LENGTH in
  let buf := copy (ac_temporaryChannelId msg) buf 0 in
  buf ← writeBigUInt64BE buf (ac_dustLimitSatoshis msg) 32;
  buf ← writeBigUInt64BE buf (ac_maxHtlcValueInFlightMsat msg) 40;
  buf ← writeBigUInt64BE buf (ac_channelReserveSatoshis msg) 48;
  buf ← writeBigUInt64BE buf (ac_htlcMinimumMsat msg) 56;
  buf ← writeUInt32BE buf (ac_minimumDepth msg) 64;
  buf ← writeUInt16BE buf (ac_toSelfDelay msg) 68;
  buf ← writeUInt16BE buf (ac_maxAcceptedHtlcs msg) 70;
  let buf := copy (ac_fundingPubkey msg) buf 72 in
  let buf := copy (ac_revocationBasepoint msg) buf 105 in
  let buf := copy (ac_paymentBasepoint msg) buf 138 in
  let buf := copy (ac_delayedPaymentBasepoint msg) buf 171 in
  let buf := copy (ac_htlcBasepoint msg) buf 204 in
  let buf := copy (ac_firstPerCommitmentPoint msg) buf 237 in
  let tlvRecords := open_tlv_records (ac_upfrontShutdownScript msg) (ac_channelType msg)
                      (ac_nextLocalNonce msg) in
  if 0 <? Z.of_nat (length tlvRecords) then
    tlvs ← encodeTlvStream tlvRecords; Ok (buf ++ tlvs)
  else Ok buf.

Definition decodeAcceptChannelMessage (payload : buffer) : result IAcceptChannelMessage :=
  _ ← throw_if (blen payload <? ACCEPT_CHANNEL_FIXED_LENGTH) "accept_channel too short";
  let temporaryChannelId := subarray payload 0 32 in
  dustLimitSatoshis ← readBigUInt64BE payload 32;
  maxHtlcValueInFlightMsat ← readBigUInt64BE payload 40;
  channelReserveSatoshis ← readBigUInt64BE payload 48;
  htlcMinimumMsat ← readBigUInt64BE payload 56;
  minimumDepth ← readUInt32BE payload 64;
  toSelfDelay ← readUInt16BE payload 68;
  maxAcceptedHtlcs ← readUInt16BE payload 70;
  let fundingPubkey := subarray payload 72 105 in
  let revocationBasepoint := subarray payload 105 138 in
  let paymentBasepoint := subarray payload 138 171 in
  let delayedPaymentBasepoint := subarray payload 171 204 in
  let htlcBasepoint := subarray payload 204 237 in
  let firstPerCommitmentPoint := subarray payload 237 270 in
  '(upfront, ctype, nonce) ←
    (if 270 <? blen payload then
       res ← decodeTlvStream payload 270 (Some OPEN_ACCEPT_TLV_TYPES);
       foldM open_tlv (None, None, None) (records res)
     else Ok (None, None, None));
  Ok {| ac_temporaryChannelId := temporaryChannelId;
        ac_dustLimitSatoshis := dustLimitSatoshis;
        ac_maxHtlcValueInFlightMsat := maxHtlcValueInFlightMsat;
        ac_channelReserveSatoshis := channelReserveSatoshis;
        ac_htlcMinimumMsat := htlcMinimumMsat;
        ac_minimumDepth := minimumDepth;
        ac_toSelfDelay := toSelfDelay;
        ac_maxAcceptedHtlcs := maxAcceptedHtlcs;
        ac_fundingPubkey := fundingPubkey;
        ac_revocationBasepoint := revocationBasepoint;
        ac_paymentBasepoint := paymentBasepoint;
        ac_delayedPaymentBasepoint := delayedPaymentBasepoint;
        ac_htlcBasepoint := htlcBasepoint;
        ac_firstPerCommitmentPoint := firstPerCommitmentPoint;
        ac_upfrontShutdownScript := upfront; ac_channelType := ctype;
        ac_nextLocalNonce := nonce |}.

Definition accept_channel_wf (m : IAcceptChannelMessage) : Prop :=
  blen (ac_temporaryChannelId m) = 32 /\
  0 <= ac_dustLimitSatoshis m < 2 ^ 64 /\
  0 <= ac_maxHtlcValueInFlightMsat m < 2 ^ 64 /\
  0 <= ac_channelReserveSatoshis m < 2 ^ 64 /\
  0 <= ac_htlcMinimumMsat m < 2 ^ 64 /\
  0 <= ac_minimumDepth m < 2 ^ 32 /\
  0 <= ac_toSelfDelay m < 2 ^ 16 /\
  0 <= ac_maxAcceptedHtlcs m < 2 ^ 16 /\
  blen (ac_fundingPubkey m) = 33 /\
  blen (ac_revocationBasepoint m) = 33 /\
  blen (ac_paymentBasepoint m) = 33 /\
  blen (ac_delayedPaymentBasepoint m) = 33 /\
  blen (ac_htlcBasepoint m) = 33 /\
  blen (ac_firstPerCommitmentPoint m) = 33 /\
  open_tlvs_wf (ac_upfrontShutdownScript m) (ac_channelType m) (ac_nextLocalNonce m).

Definition accept_channel_fixed (m : IAcceptChannelMessage) : buffer :=
  ac_temporaryChannelId m ++
  be 8 (ac_dustLimitSatoshis m) ++
  be 8 (ac_maxHtlcValueInFlightMsat m) ++
  be 8 (ac_channelReserveSatoshis m) ++
  be 8 (ac_htlcMinimumMsat m) ++
  be 4 (ac_minimumDepth m) ++
  be 2 (ac_toSelfDelay m) ++
  be 2 (ac_maxAcceptedHtlcs m) ++
  ac_fundingPubkey m ++
  ac_revocationBasepoint m ++
  ac_paymentBasepoint m ++
  ac_delayedPaymentBasepoint m ++
  ac_htlcBasepoint m ++
  ac_firstPerCommitmentPoint m.

Definition accept_channel_tlvs (m : IAcceptChannelMessage) : list ITlvRecord :=
  open_tlv_records (ac_upfrontShutdownScript m) (ac_channelType m) (ac_nextLocalNonce m).

(** ** Round trips *)

Lemma open_tlvs_ok u c n : open_tlvs_wf u c n ->
  tlvs_ok OPEN_ACCEPT_TLV_TYPES (open_tlv_records u c n) /\
  foldM open_tlv (None, None, None) (open_tlv_records u c n) = Ok (u, c, n).
Proof.
  unfold open_tlvs_wf, open_tlv_records, TLV_UPFRONT_SHUTDOWN_SCRIPT, TLV_CHANNEL_TYPE,
    TLV_NEXT_LOCAL_NONCE.
  intros (H1 & H2 & H3). destruct u, c, n; simpl in *; (split; [tlv_side|done]).
Qed.

Lemma open_tail_bytes (buf : buffer) rs known :
  tlvs_ok known rs ->
  (if 0 <? Z.of_nat (length rs) then tlvs ← encodeTlvStream rs; Ok (buf ++ tlvs) else Ok buf) =
    Ok (buf ++ stream_bytes rs).
Proof.
  intros (Hw & Hi & _). destruct rs as [|r rs].
  - by rewrite stream_bytes_nil, app_nil_r.
  - rewrite (proj2 (Z.ltb_lt _ _)) by (simpl; lia). by rewrite (encodeTlvStream_bytes (-1)).
Qed.

Lemma open_channel_rt m : open_channel_wf m ->
  exists b, encodeOpenChannelMessage m = Ok b /\ decodeOpenChannelMessage b = Ok m.
Proof.
  unfold open_channel_wf. intros Hw. destruct_and? Hw.
  match goal with H : open_tlvs_wf _ _ _ |- _ => destruct (open_tlvs_ok _ _ _ H) as [Ht Hf] end.
  fold (open_channel_tlvs m) in Ht, Hf.
  pose proof (blen_nonneg (stream_bytes (open_channel_tlvs m))).
  exists (open_channel_fixed m ++ stream_bytes (open_channel_tlvs m)).
  unfold encodeOpenChannelMessage, decodeOpenChannelMessage, OPEN_CHANNEL_FIXED_LENGTH. split.
  - unfold writeUInt16BE, writeUInt32BE, writeBigUInt64BE.
    repeat first [rewrite copy_fill0 by blia | rewrite copy_fill by blia
                 | rewrite write_fill by rng | progress rewrite ?bind_Ok].
    match goal with |- context [alloc ?n] => replace n with 1 by blia end.
    rewrite set_byte_end by blia.
    fold (open_channel_tlvs m). rewrite (open_tail_bytes _ _ OPEN_ACCEPT_TLV_TYPES) by done.
    unfold open_channel_fixed. simpl Z.to_nat. by rewrite <- !app_assoc.
  - rewrite tlv_tail, Hf by (done || unfold open_channel_fixed; blia).
    unfold open_channel_fixed. rewrite <- !app_assoc. pass_guard. rd.
    rewrite Z_of_byte_of_Z, Z.mod_small by lia. by destruct m.
Qed.

Lemma accept_channel_rt m : accept_channel_wf m ->
  exists b, encodeAcceptChannelMessage m = Ok b /\ decodeAcceptChannelMessage b = Ok m.
Proof.
  unfold accept_channel_wf. intros Hw. destruct_and? Hw.
  match goal with H : open_tlvs_wf _ _ _ |- _ => destruct (open_tlvs_ok _ _ _ H) as [Ht Hf] end.
  fold (accept_channel_tlvs m) in Ht, Hf.
  pose proof (blen_nonneg (stream_bytes (accept_channel_tlvs m))).
  exists (accept_channel_fixed m ++ stream_bytes (accept_channel_tlvs m)).
  unfold encodeAcceptChannelMessage, decodeAcceptChannelMessage, ACCEPT_CHANNEL_FIXED_LENGTH. split.
  - enc. fold (accept_channel_tlvs m).
    rewrite (open_tail_bytes _ _ OPEN_ACCEPT_TLV_TYPES) by done.
    unfold accept_channel_fixed. by rewrite <- !app_assoc.
  - rewrite tlv_tail, Hf by (done || unfold accept_channel_fixed; blia).
    unfold accept_channel_fixed. rewrite <- !app_assoc. pass_guard. rd. by destruct m.
Qed.
