(* ===== verification/WireTx.v ===== *)
(** * Interactive transaction construction messages
      (src/src/lightning/message/interactive-tx.ts)

    The [for] loops over witnesses and witness elements are structural
    recursions on the number of items left; the cursor is threaded through. *)

From S2P Require Import Prelude Buffer Codec Tlv Wire.
From Stdlib Require Import Strings.Byte.

Definition E_CID : string := "Channel ID must be 32 bytes".

(** ** tx_add_input *)

Record ITxAddInputMessage := {
  ti_channelId : buffer;
  ti_serialId : Z;
  ti_prevTx : buffer;
  ti_prevTxVout : Z;
  ti_sequence : Z;
  ti_sharedInputTxid : option buffer
}.

Definition writeUInt8 := writeUIntBE 1.

Definition encodeTxAddInputMessage (msg : ITxAddInputMessage) : result buffer :=
  _ ← throw_if (negb (blen (ti_channelId msg) =? 32)) E_CID;
  _ ← throw_if (match ti_sharedInputTxid msg with
                | Some t => negb (blen t =? 32) | None => false end)
        "sharedInputTxid must be 32 bytes";
  let tlvLen := match ti_sharedInputTxid msg with Some _ => 2 + 32 | None => 0 end in
  let prevTx := ti_prevTx msg in
  let fixedLen := 32 + 8 + 2 + blen prevTx + 4 + 4 + tlvLen in
  let buf := copy (ti_channelId msg) (alloc fixedLen) 0 in
  buf ← writeBigUInt64BE buf (ti_serialId msg) 32;
  buf ← writeUInt16BE buf (blen prevTx) 40;
  let buf := copy prevTx buf 42 in
  let offset := 42 + blen prevTx in
  buf ← writeUInt32BE buf (ti_prevTxVout msg) offset;
  let offset := offset + 4 in
  buf ← writeUInt32BE buf (ti_sequence msg) offset;
  let offset := offset + 4 in
  match ti_sharedInputTxid msg with
  | Some t =>
      buf ← writeUInt8 buf 0 offset;
      buf ← writeUInt8 buf 32 (offset + 1);
      Ok (copy t buf (offset + 2))
  | None => Ok buf
  end.

Definition TX_ADD_INPUT_TLV_TYPES := [0].

Definition tx_add_input_tlv (acc : option buffer) (record : ITlvRecord) : result (option buffer) :=
  if tlv_type record =? 0 then
    _ ← throw_if (negb (blen (tlv_value record) =? 32))
          "tx_add_input: shared_input_txid must be 32 bytes";
    Ok (Some (tlv_value record))
  else Ok acc.

Definition decodeTxAddInputMessage (payload : buffer) : result ITxAddInputMessage :=
  _ ← throw_if (blen payload <? 50) "tx_add_input too short";
  let channelId := subarray payload 0 32 in
  serialId ← readBigUInt64BE payload 32;
  prevTxLen ← readUInt16BE payload 40;
  _ ← throw_if (blen payload <? 42 + prevTxLen + 8) "tx_add_input: prevTx length exceeds payload";
  let prevTx := subarray payload 42 (42 + prevTxLen) in
  let offset := 42 + prevTxLen in
  prevTxVout ← readUInt32BE payload offset;
  let offset := offset + 4 in
  sequence ← readUInt32BE payload offset;
  let offset := offset + 4 in
  shared ← (if offset <? blen payload then
              res ← decodeTlvStream payload offset (Some TX_ADD_INPUT_TLV_TYPES);
              foldM tx_add_input_tlv None (records res)
            else Ok None);
  Ok {| ti_channelId := channelId; ti_serialId := serialId; ti_prevTx := prevTx;
        ti_prevTxVout := prevTxVout; ti_sequence := sequence; ti_sharedInputTxid := shared |}.

(** ** tx_add_output *)

Record ITxAddOutputMessage := {
  to_channelId : buffer; to_serialId : Z; to_amountSats : Z; to_scriptPubkey : buffer
}.

Definition encodeTxAddOutputMessage (msg : ITxAddOutputMessage) : result buffer :=
  _ ← throw_if (negb (blen (to_channelId msg) =? 32)) E_CID;
  let fixedLen := 32 + 8 + 8 + 2 + blen (to_scriptPubkey msg) in
  let buf := copy (to_channelId msg) (alloc fixedLen) 0 in
  buf ← writeBigUInt64BE buf (to_serialId msg) 32;
  buf ← writeBigUInt64BE buf (to_amountSats msg) 40;
  buf ← writeUInt16BE buf (blen (to_scriptPubkey msg)) 48;
  Ok (copy (to_scriptPubkey msg) buf 50).

Definition decodeTxAddOutputMessage (payload : buffer) : result ITxAddOutputMessage :=
  _ ← throw_if (blen payload <? 50) "tx_add_output too short";
  let channelId := subarray payload 0 32 in
  serialId ← readBigUInt64BE payload 32;
  amountSats ← readBigUInt64BE payload 40;
  scriptLen ← readUInt16BE payload 48;
  _ ← throw_if (blen payload <? 50 + scriptLen)
        "tx_add_output: scriptPubkey length exceeds payload";
  Ok {| to_channelId := channelId; to_serialId := serialId; to_amountSats := amountSats;
        to_scriptPubkey := subarray payload 50 (50 + scriptLen) |}.

(** ** tx_remove_input, tx_remove_output, tx_complete *)

Record ITxRemoveInputMessage := { tr_channelId : buffer; tr_serialId : Z }.

Definition encodeTxRemoveInputMessage (msg : ITxRemoveInputMessage) : result buffer :=
  _ ← throw_if (negb (blen (tr_channelId msg) =? 32)) E_CID;
  let buf := copy (tr_channelId msg) (alloc 40) 0 in
  writeBigUInt64BE buf (tr_serialId msg) 32.

Definition decodeTxRemoveInputMessage (payload : buffer) : result ITxRemoveInputMessage :=
  _ ← throw_if (blen payload <? 40) "tx_remove_input too short";
  let channelId := subarray payload 0 32 in
  serialId ← readBigUInt64BE payload 32;
  Ok {| tr_channelId := channelId; tr_serialId := serialId |}.

Record ITxRemoveOutputMessage := { tq_channelId : buffer; tq_serialId : Z }.

Definition encodeTxRemoveOutputMessage (msg : ITxRemoveOutputMessage) : result buffer :=
  _ ← throw_if (negb (blen (tq_channelId msg) =? 32)) E_CID;
  let buf := copy (tq_channelId msg) (alloc 40) 0 in
  writeBigUInt64BE buf (tq_serialId msg) 32.

Definition decodeTxRemoveOutputMessage (payload : buffer) : result ITxRemoveOutputMessage :=
  _ ← throw_if (blen payload <? 40) "tx_remove_output too short";
  let channelId := subarray payload 0 32 in
  serialId ← readBigUInt64BE payload 32;
  Ok {| tq_channelId := channelId; tq_serialId := serialId |}.

Record ITxCompleteMessage := { tc_channelId : buffer }.

Definition encodeTxCompleteMessage (msg : ITxCompleteMessage) : result buffer :=
  _ ← throw_if (negb (blen (tc_channelId msg) =? 32)) E_CID;
  Ok (tc_channelId msg).

Definition decodeTxCompleteMessage (payload : buffer) : result ITxCompleteMessage :=
  _ ← throw_if (blen payload <? 32) "tx_complete too short";
  Ok {| tc_channelId := subarray payload 0 32 |}.

(** ** tx_signatures *)

Definition encodeCompactSize (n : Z) : result buffer :=
  if n <? 0xfd then Ok [byte_of_Z n]
  else if n <=? 0xffff then writeUIntLE 2 (set_byte (alloc 3) 0 0xfd) n 1
  else writeUIntLE 4 (set_byte (alloc 5) 0 0xfe) n 1.

(** Reading past the end yields [undefined], which fails every comparison. *)
Definition readCompact (data : buffer) (offset : Z) : result (Z * Z) :=
  _ ← throw_if (blen data <=? offset) "tx_signatures: witness element too large";
  let first := byte_at data offset in
  let offset := offset + 1 in
  if first <? 0xfd then Ok (first, offset)
  else if first =? 0xfd then v ← readUIntLE 2 data offset; Ok (v, offset + 2)
  else if first =? 0xfe then v ← readUIntLE 4 data offset; Ok (v, offset + 4)
  else Err "tx_signatures: witness element too large".

Fixpoint serialize_elements (elements : list buffer) : result buffer :=
  match elements with
  | [] => Ok []
  | el :: els =>
      len ← encodeCompactSize (blen el); rest ← serialize_elements els; Ok (len ++ el ++ rest)
  end.

Definition serializeWitnessStack (elements : list buffer) : result buffer :=
  count ← encodeCompactSize (Z.of_nat (length elements));
  rest ← serialize_elements elements;
  Ok (count ++ rest).

Fixpoint parse_elements (data : buffer) (count : nat) (offset : Z) : result (list buffer) :=
  match count with
  | O => Ok []
  | S count =>
      '(len, offset) ← readCompact data offset;
      _ ← throw_if (blen data <? offset + len)
            "tx_signatures: witness stack element exceeds data";
      els ← parse_elements data count (offset + len);
      Ok (subarray data offset (offset + len) :: els)
  end.

Definition parseWitnessStack (data : buffer) : result (list buffer) :=
  '(count, offset) ← readCompact data 0;
  parse_elements data (Z.to_nat count) offset.

Record ITxSignaturesMessage := {
  ts_channelId : buffer;
  ts_txid : buffer;
  ts_witnesses : list (list buffer);
  ts_sharedInputSignature : option buffer
}.

Fixpoint encode_witnesses (ws : list (list buffer)) : result buffer :=
  match ws with
  | [] => Ok []
  | w :: ws =>
      witnessData ← serializeWitnessStack w;
      lenBuf ← writeUInt16BE (alloc 2) (blen witnessData) 0;
      rest ← encode_witnesses ws;
      Ok (lenBuf ++ witnessData ++ rest)
  end.

Definition encodeTxSignaturesMessage (msg : ITxSignaturesMessage) : result buffer :=
  _ ← throw_if (negb (blen (ts_channelId msg) =? 32)) E_CID;
  _ ← throw_if (negb (blen (ts_txid msg) =? 32)) "Txid must be 32 bytes";
  let header := copy (ts_channelId msg) (alloc (32 + 32 + 2)) 0 in
  let header := copy (ts_txid msg) header 32 in
  header ← writeUInt16BE header (Z.of_nat (length (ts_witnesses msg))) 64;
  parts ← encode_witnesses (ts_witnesses msg);
  tlvs ← match ts_sharedInputSignature msg with
         | Some s =>
             _ ← throw_if (negb (blen s =? 64)) "shared_input_signature must be 64 bytes";
             encodeTlvStream [{| tlv_type := 0; tlv_value := s |}]
         | None => Ok []
         end;
  Ok (header ++ parts ++ tlvs).

Definition TX_SIGNATURES_TLV_TYPES := [0].

Fixpoint decode_witnesses (payload : buffer) (n : nat) (offset : Z)
    : result (list (list buffer) * Z) :=
  match n with
  | O => Ok ([], offset)
  | S n =>
      _ ← throw_if (blen payload <? offset + 2) "tx_signatures: unexpected end of witness data";
      witnessLen ← readUInt16BE payload offset;
      let offset := offset + 2 in
      _ ← throw_if (blen payload <? offset + witnessLen)
            "tx_signatures: witness length exceeds payload";
      w ← parseWitnessStack (subarray payload offset (offset + witnessLen));
      '(ws, offset) ← decode_witnesses payload n (offset + witnessLen);
      Ok (w :: ws, offset)
  end.

Definition tx_signatures_tlv (acc : option buffer) (record : ITlvRecord) : result (option buffer) :=
  if (tlv_type record =? 0) && (blen (tlv_value record) =? 64) then Ok (Some (tlv_value record))
  else Ok acc.

Definition decodeTxSignaturesMessage (payload : buffer) : result ITxSignaturesMessage :=
  _ ← throw_if (blen payload <? 66) "tx_signatures too short";
  let channelId := subarray payload 0 32 in
  let txid := subarray payload 32 64 in
  numWitnesses ← readUInt16BE payload 64;
  '(witnesses, offset) ← decode_witnesses payload (Z.to_nat numWitnesses) 66;
  sig ← (if offset <? blen payload then
           res ← decodeTlvStream payload offset (Some TX_SIGNATURES_TLV_TYPES);
           foldM tx_signatures_tlv None (records res)
         else Ok None);
  Ok {| ts_channelId := channelId; ts_txid := txid; ts_witnesses := witnesses;
        ts_sharedInputSignature := sig |}.

(** ** tx_init_rbf, tx_ack_rbf

    [requireConfirmedInputs?: boolean] is only tested for truth, so absent and
    [false] are one value here. *)

Definition encodeRbfTlvs (contribution : option Z) (requireConfirmedInputs : bool)
    : result buffer :=
  r1 ← match contribution with
       | Some c => value ← bigInt64BE c; Ok [{| tlv_type := 0; tlv_value := value |}]
       | None => Ok []
       end;
  let records := r1 ++ (if requireConfirmedInputs then [{| tlv_type := 2; tlv_value := [] |}]
                        else []) in
  if 0 <? Z.of_nat (length records) then encodeTlvStream records else Ok [].

Definition RBF_KNOWN_TLV_TYPES := [0; 2].

Definition rbf_tlv (acc : option Z * bool) (record : ITlvRecord) : result (option Z * bool) :=
  if tlv_type record =? 0 then
    _ ← throw_if (negb (blen (tlv_value record) =? 8))
          "funding_output_contribution must be 8 bytes";
    c ← readBigInt64BE (tlv_value record);
    Ok (Some c, acc.2)
  else if tlv_type record =? 2 then
    _ ← throw_if (negb (blen (tlv_value record) =? 0)) "require_confirmed_inputs must be empty";
    Ok (acc.1, true)
  else Ok acc.

Definition decodeRbfTlvs (payload : buffer) (offset : Z) : result (option Z * bool) :=
  if blen payload <=? offset then Ok (None, false)
  else
    res ← decodeTlvStream payload offset (Some RBF_KNOWN_TLV_TYPES);
    foldM rbf_tlv (None, false) (records res).

Record ITxInitRbfMessage := {
  tb_channelId : buffer;
  tb_locktime : Z;
  tb_feerate : Z;
  tb_fundingOutputContribution : option Z;
  tb_requireConfirmedInputs : bool
}.

Definition encodeTxInitRbfMessage (msg : ITxInitRbfMessage) : result buffer :=
  _ ← throw_if (negb (blen (tb_channelId msg) =? 32)) E_CID;
  let buf := copy (tb_channelId msg) (alloc 40) 0 in
  buf ← writeUInt32BE buf (tb_locktime msg) 32;
  buf ← writeUInt32BE buf (tb_feerate msg) 36;
  tlvs ← encodeRbfTlvs (tb_fundingOutputContribution msg) (tb_requireConfirmedInputs msg);
  Ok (buf ++ tlvs).

Definition decodeTxInitRbfMessage (payload : buffer) : result ITxInitRbfMessage :=
  _ ← throw_if (blen payload <? 40) "tx_init_rbf too short";
  let channelId := subarray payload 0 32 in
  locktime ← readUInt32BE payload 32;
  feerate ← readUInt32BE payload 36;
  '(c, r) ← decodeRbfTlvs payload 40;
  Ok {| tb_channelId := channelId; tb_locktime := locktime; tb_feerate := feerate;
        tb_fundingOutputContribution := c; tb_requireConfirmedInputs := r |}.

Record ITxAckRbfMessage := {
  tk_channelId : buffer;
  tk_fundingOutputContribution : option Z;
  tk_requireConfirmedInputs : bool
}.

Definition encodeTxAckRbfMessage (msg : ITxAckRbfMessage) : result buffer :=
  _ ← throw_if (negb (blen (tk_channelId msg) =? 32)) E_CID;
  tlvs ← encodeRbfTlvs (tk_fundingOutputContribution msg) (tk_requireConfirmedInputs msg);
  Ok (tk_channelId msg ++ tlvs).

Definition decodeTxAckRbfMessage (payload : buffer) : result ITxAckRbfMessage :=
  _ ← throw_if (blen payload <? 32) "tx_ack_rbf too short";
  let channelId := subarray payload 0 32 in
  '(c, r) ← decodeRbfTlvs payload 32;
  Ok {| tk_channelId := channelId; tk_fundingOutputContribution := c;
        tk_requireConfirmedInputs := r |}.

(** ** tx_abort *)

Record ITxAbortMessage := { tx_channelId : buffer; tx_data : buffer }.

Definition encodeTxAbortMessage (msg : ITxAbortMessage) : result buffer :=
  _ ← throw_if (negb (blen (tx_channelId msg) =? 32)) E_CID;
  let buf := copy (tx_channelId msg) (alloc (34 + blen (tx_data msg))) 0 in
  buf ← writeUInt16BE buf (blen (tx_data msg)) 32;
  Ok (copy (tx_data msg) buf 34).

Definition decodeTxAbortMessage (payload : buffer) : result ITxAbortMessage :=
  _ ← throw_if (blen payload <? 34) "tx_abort too short";
  let channelId := subarray payload 0 32 in
  dataLen ← readUInt16BE payload 32;
  _ ← throw_if (blen payload <? 34 + dataLen) "tx_abort: data length exceeds payload";
  Ok {| tx_channelId := channelId; tx_data := subarray payload 34 (34 + dataLen) |}.

(** ** Witness stacks round-trip *)

Definition compact (n : Z) : buffer :=
  if n <? 0xfd then [byte_of_Z n]
  else if n <=? 0xffff then byte_of_Z 0xfd :: reverse (be 2 n)
  else byte_of_Z 0xfe :: reverse (be 4 n).

Lemma encodeCompactSize_bytes n : 0 <= n < 2 ^ 32 -> encodeCompactSize n = Ok (compact n).
Proof.
  intros Hn. unfold encodeCompactSize, compact.
  repeat case_match; bool_props; try done; apply writeLE_after_prefix; lia.
Qed.

Lemma blen_compact n : 1 <= blen (compact n).
Proof.
  unfold compact. repeat case_match; rewrite blen_cons, ?blen_reverse, ?blen_be, ?blen_nil; lia.
Qed.

Lemma readCompact_skip a r off :
  blen a <= off ->
  readCompact (a ++ r) off =
    ('(v, o) ← readCompact r (off - blen a); Ok (v, o + blen a)).
Proof.
  intros H. unfold readCompact. rewrite byte_at_skip by lia.
  rewrite !readUIntLE_skip by lia.
  replace (off + 1 - blen a) with (off - blen a + 1) by lia.
  assert ((blen (a ++ r) <=? off) = (blen r <=? off - blen a)) as ->.
  { rewrite blen_app. destruct (Z.leb_spec (blen a + blen r) off),
      (Z.leb_spec (blen r) (off - blen a)); lia. }
  destruct (blen r <=? off - blen a); [done|]. rewrite !throw_pass by done.
  repeat case_match; simpl;
    try match goal with |- context [readUIntLE ?n r ?o] => destruct (readUIntLE n r o); simpl end;
    try done; do 2 f_equal; lia.
Qed.

Lemma readCompact_hd n r :
  0 <= n < 2 ^ 32 -> readCompact (compact n ++ r) 0 = Ok (n, blen (compact n)).
Proof.
  intros Hn. pose proof (blen_nonneg r). unfold compact.
  repeat case_match; bool_props; unfold readCompact;
    rewrite throw_pass by
      (apply Z.leb_gt; rewrite blen_app, blen_cons, ?blen_reverse, ?blen_be, ?blen_nil; lia);
    rewrite <- app_comm_cons, byte_at_hd, Z_of_byte_of_Z by done.
  - by rewrite Z.mod_small, (proj2 (Z.ltb_lt _ _)) by lia.
  - closed_ifs. rewrite readUIntLE_cons by done.
    change (be 2 n) with (be (Z.to_nat 2) n). rewrite readUIntLE_hd, bind_Ok by (done || lia).
    by rewrite blen_cons, blen_reverse, blen_be.
  - closed_ifs. rewrite readUIntLE_cons by done.
    change (be 4 n) with (be (Z.to_nat 4) n). rewrite readUIntLE_hd, bind_Ok by (done || lia).
    by rewrite blen_cons, blen_reverse, blen_be.
Qed.

Definition stack_bytes (els : list buffer) : buffer :=
  compact (Z.of_nat (length els)) ++ concat (map (fun el => compact (blen el) ++ el) els).

Definition stack_wf (els : list buffer) : Prop :=
  Z.of_nat (length els) < 2 ^ 32 /\ Forall (fun el => blen el < 2 ^ 32) els /\
  blen (stack_bytes els) < 2 ^ 16.

Lemma serialize_elements_bytes els :
  Forall (fun el => blen el < 2 ^ 32) els ->
  serialize_elements els = Ok (concat (map (fun el => compact (blen el) ++ el) els)).
Proof.
  induction 1 as [|el els Hel _ IH]; [done|]. simpl.
  pose proof (blen_nonneg el). rewrite encodeCompactSize_bytes, IH by lia. simpl.
  by rewrite <- app_assoc.
Qed.

Lemma serializeWitnessStack_bytes els :
  stack_wf els -> serializeWitnessStack els = Ok (stack_bytes els).
Proof.
  intros (Hn & He & _). unfold serializeWitnessStack.
  by rewrite encodeCompactSize_bytes, serialize_elements_bytes by (done || lia).
Qed.

Lemma parse_elements_bytes els : forall pre off,
  Forall (fun el => blen el < 2 ^ 32) els -> off = blen pre ->
  parse_elements (pre ++ concat (map (fun el => compact (blen el) ++ el) els)) (length els) off
    = Ok els.
Proof.
  induction els as [|el els IH]; intros pre off Hf ->; [done|].
  apply Forall_cons in Hf as [Hel Hf]. simpl. pose proof (blen_nonneg el).
  rewrite readCompact_skip, Z.sub_diag by lia. rewrite <- app_assoc.
  rewrite readCompact_hd by lia. simpl.
  set (rest := concat _). pose proof (blen_nonneg rest). pose proof (blen_compact (blen el)).
  pose proof (blen_nonneg pre).
  rewrite throw_pass by (apply Z.ltb_ge; blia).
  assert (Hrest : parse_elements (pre ++ compact (blen el) ++ el ++ rest) (length els)
            (blen (compact (blen el)) + blen pre + blen el) = Ok els).
  { rewrite !app_assoc. apply IH; [done | blia]. }
  rewrite Hrest, bind_Ok.
  rewrite !subarray_skip by lia. by rewrite subarray_hd by lia.
Qed.

Lemma parseWitnessStack_bytes els :
  stack_wf els -> parseWitnessStack (stack_bytes els) = Ok els.
Proof.
  intros (Hn & He & _). unfold parseWitnessStack, stack_bytes.
  rewrite readCompact_hd, bind_Ok, Nat2Z.id by lia. by apply parse_elements_bytes.
Qed.

Definition witnesses_bytes (ws : list (list buffer)) : buffer :=
  concat (map (fun w => be 2 (blen (stack_bytes w)) ++ stack_bytes w) ws).

Lemma encode_witnesses_bytes ws :
  Forall stack_wf ws -> encode_witnesses ws = Ok (witnesses_bytes ws).
Proof.
  induction 1 as [|w ws Hw _ IH]; [done|]. simpl.
  rewrite serializeWitnessStack_bytes, bind_Ok by done.
  destruct Hw as (_ & _ & Hl). pose proof (blen_nonneg (stack_bytes w)).
  enc. rewrite IH, bind_Ok. unfold witnesses_bytes. simpl. by rewrite <- app_assoc.
Qed.

Lemma decode_witnesses_bytes ws : forall pre rest off,
  Forall stack_wf ws -> off = blen pre ->
  decode_witnesses (pre ++ witnesses_bytes ws ++ rest) (length ws) off =
    Ok (ws, blen (pre ++ witnesses_bytes ws)).
Proof.
  induction ws as [|w ws IH]; intros pre rest off Hf ->.
  - simpl. by rewrite app_nil_r.
  - apply Forall_cons in Hf as [Hw Hf]. simpl.
    change (witnesses_bytes (w :: ws)) with
      ((be 2 (blen (stack_bytes w)) ++ stack_bytes w) ++ witnesses_bytes ws).
    rewrite <- !app_assoc. destruct (Hw) as (_ & _ & Hl).
    pose proof (blen_nonneg (stack_bytes w)). pose proof (blen_nonneg rest).
    pose proof (blen_nonneg (witnesses_bytes ws)).
    pass_guard. rd. rewrite parseWitnessStack_bytes, bind_Ok by done.
    assert (Hrest : decode_witnesses
      (pre ++ be 2 (blen (stack_bytes w)) ++ stack_bytes w ++ witnesses_bytes ws ++ rest)
      (length ws) (blen pre + 2 + blen (stack_bytes w)) =
      Ok (ws, blen (pre ++ be 2 (blen (stack_bytes w)) ++ stack_bytes w ++ witnesses_bytes ws))).
    { rewrite (app_assoc pre), (app_assoc _ (stack_bytes w)), (app_assoc pre _ (stack_bytes w ++ _)).
      rewrite (app_assoc _ (stack_bytes w)). apply IH; [done | blia]. }
    change (Z.to_nat 2) with 2%nat. by rewrite Hrest.
Qed.

(** ** Round trips *)

Definition tx_add_input_wf (m : ITxAddInputMessage) : Prop :=
  blen (ti_channelId m) = 32 /\ 0 <= ti_serialId m < 2 ^ 64 /\
  blen (ti_prevTx m) < 2 ^ 16 /\ 0 <= ti_prevTxVout m < 2 ^ 32 /\
  0 <= ti_sequence m < 2 ^ 32 /\ opt_len (ti_sharedInputTxid m) 32.

Lemma tx_add_input_rt m : tx_add_input_wf m -> exists b,
  encodeTxAddInputMessage m = Ok b /\ decodeTxAddInputMessage b = Ok m.
Proof.
  destruct m as [cid sid ptx vout sq sh]. intros (Hc & Hs & Hp & Hv & Hq & Ht). cbn in *.
  pose proof (blen_nonneg ptx).
  exists (cid ++ be 8 sid ++ be 2 (blen ptx) ++ ptx ++ be 4 vout ++ be 4 sq ++
          stream_bytes (opt_tlv 0 sh)).
  assert (Hok : tlvs_ok TX_ADD_INPUT_TLV_TYPES (opt_tlv 0 sh) /\
                foldM tx_add_input_tlv None (opt_tlv 0 sh) = Ok sh).
  { destruct sh; simpl in *; (split; [tlv_side|]); unfold tx_add_input_tlv; simpl; by rewrite ?Ht. }
  destruct Hok as [Hok Hf]. split.
  - unfold encodeTxAddInputMessage, writeUInt8. cbn [ti_channelId ti_serialId ti_prevTx
      ti_prevTxVout ti_sequence ti_sharedInputTxid].
    destruct sh as [t|]; cbn in Ht; rewrite Hc, ?Ht; cbn [negb Z.eqb Pos.eqb]; rewrite !throw_pass by done;
      enc; [|done].
    unfold opt_tlv, stream_bytes, record_bytes. cbn [map concat tlv_type tlv_value].
    rewrite Ht, app_nil_r. done.
  - unfold decodeTxAddInputMessage. pose proof (blen_nonneg (stream_bytes (opt_tlv 0 sh))).
    pass_guard. rd.
    rewrite (tlv_tail_at (cid ++ be 8 sid ++ be 2 (blen ptx) ++ ptx ++ be 4 vout ++ be 4 sq)
               _ (opt_tlv 0 sh)) by (first [by rewrite <- !app_assoc | blia | apply Hok]).
    by rewrite Hf.
Qed.

Definition tx_add_output_wf (m : ITxAddOutputMessage) : Prop :=
  blen (to_channelId m) = 32 /\ 0 <= to_serialId m < 2 ^ 64 /\
  0 <= to_amountSats m < 2 ^ 64 /\ blen (to_scriptPubkey m) < 2 ^ 16.

Lemma tx_add_output_rt m : tx_add_output_wf m -> exists b,
  encodeTxAddOutputMessage m = Ok b /\ decodeTxAddOutputMessage b = Ok m.
Proof.
  destruct m as [cid sid amt spk]. intros (Hc & Hs & Ha & Hl). cbn in *.
  pose proof (blen_nonneg spk).
  exists (cid ++ be 8 sid ++ be 8 amt ++ be 2 (blen spk) ++ spk).
  unfold encodeTxAddOutputMessage, decodeTxAddOutputMessage. cbn. rewrite Hc.
  rewrite throw_pass by done. split; [by enc|]. pass_guard. by rd.
Qed.

Definition tx_remove_input_wf (m : ITxRemoveInputMessage) : Prop :=
  blen (tr_channelId m) = 32 /\ 0 <= tr_serialId m < 2 ^ 64.

Lemma tx_remove_input_rt m : tx_remove_input_wf m -> exists b,
  encodeTxRemoveInputMessage m = Ok b /\ decodeTxRemoveInputMessage b = Ok m.
Proof.
  destruct m as [cid sid]. intros (Hc & Hs). cbn in *. exists (cid ++ be 8 sid).
  unfold encodeTxRemoveInputMessage, decodeTxRemoveInputMessage. cbn. rewrite Hc.
  rewrite throw_pass by done. split; [by enc|]. pass_guard. by rd.
Qed.

Definition tx_remove_output_wf (m : ITxRemoveOutputMessage) : Prop :=
  blen (tq_channelId m) = 32 /\ 0 <= tq_serialId m < 2 ^ 64.

Lemma tx_remove_output_rt m : tx_remove_output_wf m -> exists b,
  encodeTxRemoveOutputMessage m = Ok b /\ decodeTxRemoveOutputMessage b = Ok m.
Proof.
  destruct m as [cid sid]. intros (Hc & Hs). cbn in *. exists (cid ++ be 8 sid).
  unfold encodeTxRemoveOutputMessage, decodeTxRemoveOutputMessage. cbn. rewrite Hc.
  rewrite throw_pass by done. split; [by enc|]. pass_guard. by rd.
Qed.

Lemma tx_complete_rt m : blen (tc_channelId m) = 32 -> exists b,
  encodeTxCompleteMessage m = Ok b /\ decodeTxCompleteMessage b = Ok m.
Proof.
  destruct m as [cid]. cbn. intros Hc. exists cid.
  unfold encodeTxCompleteMessage, decodeTxCompleteMessage. cbn. rewrite Hc.
  rewrite !throw_pass by done. split; [done|]. by rd.
Qed.

Definition tx_signatures_wf (m : ITxSignaturesMessage) : Prop :=
  blen (ts_channelId m) = 32 /\ blen (ts_txid m) = 32 /\
  Z.of_nat (length (ts_witnesses m)) < 2 ^ 16 /\ Forall stack_wf (ts_witnesses m) /\
  opt_len (ts_sharedInputSignature m) 64.

Lemma tx_signatures_rt m : tx_signatures_wf m -> exists b,
  encodeTxSignaturesMessage m = Ok b /\ decodeTxSignaturesMessage b = Ok m.
Proof.
  destruct m as [cid txid ws sg]. intros (Hc & Ht & Hn & Hw & Hs). cbn in *.
  assert (Hok : tlvs_ok TX_SIGNATURES_TLV_TYPES (opt_tlv 0 sg) /\
                foldM tx_signatures_tlv None (opt_tlv 0 sg) = Ok sg).
  { destruct sg; simpl in *; (split; [tlv_side|]); unfold tx_signatures_tlv; simpl; by rewrite ?Hs. }
  destruct Hok as [Hok Hf].
  set (hd := cid ++ txid ++ be 2 (Z.of_nat (length ws))).
  exists (hd ++ witnesses_bytes ws ++ stream_bytes (opt_tlv 0 sg)). split.
  - unfold encodeTxSignaturesMessage.
    cbn [ts_channelId ts_txid ts_witnesses ts_sharedInputSignature]. rewrite Hc, Ht, !throw_pass by done.
    enc. rewrite encode_witnesses_bytes, bind_Ok by done. unfold hd.
    destruct sg as [s|]; cbn in Hs; cbn [ts_sharedInputSignature opt_tlv].
    + rewrite Hs, throw_pass by done.
      rewrite (encodeTlvStream_bytes (-1)) by (try done; tlv_side).
      by rewrite bind_Ok, <- !app_assoc.
    + by rewrite bind_Ok, <- !app_assoc.
  - unfold decodeTxSignaturesMessage.
    pose proof (blen_nonneg (witnesses_bytes ws)).
    pose proof (blen_nonneg (stream_bytes (opt_tlv 0 sg))).
    assert (Hhd : 66 = blen hd) by (unfold hd; blia).
    assert (Hd := decode_witnesses_bytes ws hd (stream_bytes (opt_tlv 0 sg)) 66 Hw Hhd).
    unfold hd in *. rewrite <- !app_assoc in Hd |- *. pass_guard. rd.
    change (Z.to_nat 2) with 2%nat. rewrite Nat2Z.id, Hd, bind_Ok.
    rewrite (tlv_tail_at (cid ++ txid ++ be 2 (Z.of_nat (length ws)) ++ witnesses_bytes ws) _
               (opt_tlv 0 sg)); [by rewrite Hf | by rewrite <- !app_assoc | blia | apply Hok].
Qed.

Definition rbf_records (c : option Z) (r : bool) : list ITlvRecord :=
  match c with
  | Some c => [{| tlv_type := 0; tlv_value := be 8 (c mod 2 ^ 64) |}]
  | None => []
  end ++ (if r then [{| tlv_type := 2; tlv_value := [] |}] else []).

Definition opt_int64 (c : option Z) : Prop :=
  match c with Some c => - 2 ^ 63 <= c < 2 ^ 63 | None => True end.

Lemma rbf_records_ok c r : tlvs_ok RBF_KNOWN_TLV_TYPES (rbf_records c r).
Proof. destruct c, r; unfold rbf_records; cbn [app]; tlv_side. Qed.

Lemma encodeRbfTlvs_bytes c r :
  opt_int64 c -> encodeRbfTlvs c r = Ok (stream_bytes (rbf_records c r)).
Proof.
  intros Hc. unfold encodeRbfTlvs, rbf_records.
  destruct c as [c|]; [destruct (bigInt64_bytes c Hc) as (-> & Hl & _)|]; destruct r;
    rewrite ?bind_Ok; cbn [app length]; closed_ifs; try done;
    rewrite (encodeTlvStream_bytes (-1)) by (try done; tlv_side); done.
Qed.

Lemma foldM_rbf c r :
  opt_int64 c -> foldM rbf_tlv (None, false) (rbf_records c r) = Ok (c, r).
Proof.
  intros Hc. unfold rbf_records, rbf_tlv.
  destruct c as [c|]; [destruct (bigInt64_bytes c Hc) as (_ & Hl & Hr)|]; destruct r; cbn;
    rewrite ?Hl; cbn; rewrite ?Hr; done.
Qed.

Lemma decodeRbfTlvs_bytes c r pre off data :
  data = pre ++ stream_bytes (rbf_records c r) -> off = blen pre -> opt_int64 c ->
  decodeRbfTlvs data off = Ok (c, r).
Proof.
  intros -> -> Hc. unfold decodeRbfTlvs. destruct (rbf_records_ok c r) as (Hw & Hi & Hk).
  rewrite decodeTlvStream_run, bind_Ok by done. cbn [records]. rewrite foldM_rbf by done.
  case_match eqn:E; [|done]. apply Z.leb_le in E. rewrite blen_app in E.
  assert (Hn := stream_bytes_empty (rbf_records c r) ltac:(lia)). by destruct c, r.
Qed.

Definition tx_init_rbf_wf (m : ITxInitRbfMessage) : Prop :=
  blen (tb_channelId m) = 32 /\ 0 <= tb_locktime m < 2 ^ 32 /\ 0 <= tb_feerate m < 2 ^ 32 /\
  opt_int64 (tb_fundingOutputContribution m).

Lemma tx_init_rbf_rt m : tx_init_rbf_wf m -> exists b,
  encodeTxInitRbfMessage m = Ok b /\ decodeTxInitRbfMessage b = Ok m.
Proof.
  destruct m as [cid lt fr c r]. intros (Hc & Hl & Hf & Ho). cbn in *.
  set (tlvs := stream_bytes (rbf_records c r)). pose proof (blen_nonneg tlvs).
  exists (cid ++ be 4 lt ++ be 4 fr ++ tlvs).
  unfold encodeTxInitRbfMessage, decodeTxInitRbfMessage.
  cbn [tb_channelId tb_locktime tb_feerate tb_fundingOutputContribution tb_requireConfirmedInputs].
  rewrite Hc, throw_pass, encodeRbfTlvs_bytes by done. split; [enc; done|]. pass_guard. rd.
  rewrite (decodeRbfTlvs_bytes c r (cid ++ be 4 lt ++ be 4 fr));
    [done | by rewrite <- !app_assoc | blia | done].
Qed.

Definition tx_ack_rbf_wf (m : ITxAckRbfMessage) : Prop :=
  blen (tk_channelId m) = 32 /\ opt_int64 (tk_fundingOutputContribution m).

Lemma tx_ack_rbf_rt m : tx_ack_rbf_wf m -> exists b,
  encodeTxAckRbfMessage m = Ok b /\ decodeTxAckRbfMessage b = Ok m.
Proof.
  destruct m as [cid c r]. intros (Hc & Ho). cbn in *.
  set (tlvs := stream_bytes (rbf_records c r)). pose proof (blen_nonneg tlvs).
  exists (cid ++ tlvs). unfold encodeTxAckRbfMessage, decodeTxAckRbfMessage.
  cbn [tk_channelId tk_fundingOutputContribution tk_requireConfirmedInputs].
  rewrite Hc, throw_pass, encodeRbfTlvs_bytes by done. split; [done|]. pass_guard. rd.
  rewrite (decodeRbfTlvs_bytes c r cid); [done | done | blia | done].
Qed.

Definition tx_abort_wf (m : ITxAbortMessage) : Prop :=
  blen (tx_channelId m) = 32 /\ blen (tx_data m) < 2 ^ 16.

Lemma tx_abort_rt m : tx_abort_wf m -> exists b,
  encodeTxAbortMessage m = Ok b /\ decodeTxAbortMessage b = Ok m.
Proof.
  destruct m as [cid d]. intros (Hc & Hd). cbn in *. pose proof (blen_nonneg d).
  exists (cid ++ be 2 (blen d) ++ d). unfold encodeTxAbortMessage, decodeTxAbortMessage.
  cbn [tx_channelId tx_data]. rewrite Hc, throw_pass by done. split; [by enc|]. pass_guard. by rd.
Qed.
