(* ===== verification/Messages.v ===== *)
(** * Message types and the registry of codecs
      (src/src/lightning/message/types.ts)

    The enumeration of the wire's message types with its numbers, and the
    instances of [WireMessage] that tie each type to its codec.  The round trip
    of a framed message is a theorem about the interface, so it holds for every
    message with an instance; the theorems about single messages are stated for
    the ones that carry money or keys. *)

From S2P Require Import Prelude Buffer Codec Tlv Wire.
From S2P Require Import WireBasic WireUpdate WireCommitment WireClose WireFunding WireOpen WireTx.
From Stdlib Require Import Strings.Byte.

(** ** types.ts *)

Inductive MessageType :=
| INIT | ERROR | WARNING | PING | PONG
| PEER_STORAGE | PEER_STORAGE_RETRIEVAL
| OPEN_CHANNEL | ACCEPT_CHANNEL | FUNDING_CREATED | FUNDING_SIGNED | CHANNEL_READY
| SHUTDOWN | CLOSING_SIGNED | CLOSING_COMPLETE | CLOSING_SIG
| UPDATE_ADD_HTLC | UPDATE_FULFILL_HTLC | UPDATE_FAIL_HTLC | UPDATE_FAIL_MALFORMED_HTLC
| COMMITMENT_SIGNED | REVOKE_AND_ACK | UPDATE_FEE | UPDATE_BLOCKHEIGHT | CHANNEL_REESTABLISH
| OPEN_CHANNEL2 | ACCEPT_CHANNEL2
| TX_ADD_INPUT | TX_ADD_OUTPUT | TX_REMOVE_INPUT | TX_REMOVE_OUTPUT | TX_COMPLETE
| TX_SIGNATURES | TX_INIT_RBF | TX_ACK_RBF | TX_ABORT
| SPLICE | SPLICE_ACK | SPLICE_LOCKED | START_BATCH | STFU
| CHANNEL_ANNOUNCEMENT | NODE_ANNOUNCEMENT | CHANNEL_UPDATE | ANNOUNCEMENT_SIGNATURES
| QUERY_SHORT_CHANNEL_IDS | REPLY_SHORT_CHANNEL_IDS_END | QUERY_CHANNEL_RANGE
| REPLY_CHANNEL_RANGE | GOSSIP_TIMESTAMP_FILTER | ONION_MESSAGE
| FF_INIT | FF_ACCEPT | FF_INVOICES | FF_ERROR | FF_ACTIVATE | FF_ACTIVATE_ACK | FF_ABORT
| FF_CLOSE | FF_CLOSE_ACK | FF_SYNC | FF_SYNC_REPLY
| FF_WITNESS_PROVISION | FF_WITNESS_ACK | FF_WITNESS_FETCH | FF_WITNESS_FETCH_RESP
| FF_WITNESS_CLOSE | FF_WITNESS_CLOSE_ACK | FF_ISSUER_PROVISION | FF_ISSUER_ACK
| FF_ISSUER_STATUS | FF_ISSUER_STATUS_RESP.

#[global] Instance MessageType_eq_dec : EqDecision MessageType.
Proof. solve_decision. Defined.

(** The enumeration in the order of the source, with its numbers. *)
Definition MessageType_table : list (MessageType * Z) :=
  [ (INIT, 16); (ERROR, 17); (WARNING, 1); (PING, 18); (PONG, 19);
    (PEER_STORAGE, 7); (PEER_STORAGE_RETRIEVAL, 9);
    (OPEN_CHANNEL, 32); (ACCEPT_CHANNEL, 33); (FUNDING_CREATED, 34); (FUNDING_SIGNED, 35);
    (CHANNEL_READY, 36); (SHUTDOWN, 38); (CLOSING_SIGNED, 39);
    (CLOSING_COMPLETE, 40); (CLOSING_SIG, 41);
    (UPDATE_ADD_HTLC, 128); (UPDATE_FULFILL_HTLC, 130); (UPDATE_FAIL_HTLC, 131);
    (UPDATE_FAIL_MALFORMED_HTLC, 135); (COMMITMENT_SIGNED, 132); (REVOKE_AND_ACK, 133);
    (UPDATE_FEE, 134); (UPDATE_BLOCKHEIGHT, 137); (CHANNEL_REESTABLISH, 136);
    (OPEN_CHANNEL2, 64); (ACCEPT_CHANNEL2, 65); (TX_ADD_INPUT, 66); (TX_ADD_OUTPUT, 67);
    (TX_REMOVE_INPUT, 68); (TX_REMOVE_OUTPUT, 69); (TX_COMPLETE, 70); (TX_SIGNATURES, 71);
    (TX_INIT_RBF, 72); (TX_ACK_RBF, 73); (TX_ABORT, 74);
    (SPLICE, 80); (SPLICE_ACK, 81); (SPLICE_LOCKED, 77); (START_BATCH, 127); (STFU, 2);
    (CHANNEL_ANNOUNCEMENT, 256); (NODE_ANNOUNCEMENT, 257); (CHANNEL_UPDATE, 258);
    (ANNOUNCEMENT_SIGNATURES, 259); (QUERY_SHORT_CHANNEL_IDS, 261);
    (REPLY_SHORT_CHANNEL_IDS_END, 262); (QUERY_CHANNEL_RANGE, 263); (REPLY_CHANNEL_RANGE, 264);
    (GOSSIP_TIMESTAMP_FILTER, 265); (ONION_MESSAGE, 513);
    (FF_INIT, 55001); (FF_ACCEPT, 55003); (FF_INVOICES, 55005); (FF_ERROR, 55023);
    (FF_ACTIVATE, 55045); (FF_ACTIVATE_ACK, 55047); (FF_ABORT, 55049); (FF_CLOSE, 55051);
    (FF_CLOSE_ACK, 55053); (FF_SYNC, 55075); (FF_SYNC_REPLY, 55077);
    (FF_WITNESS_PROVISION, 55055); (FF_WITNESS_ACK, 55057); (FF_WITNESS_FETCH, 55059);
    (FF_WITNESS_FETCH_RESP, 55061); (FF_WITNESS_CLOSE, 55063); (FF_WITNESS_CLOSE_ACK, 55065);
    (FF_ISSUER_PROVISION, 55067); (FF_ISSUER_ACK, 55069); (FF_ISSUER_STATUS, 55071);
    (FF_ISSUER_STATUS_RESP, 55073) ].

Definition MessageType_number (t : MessageType) : Z :=
  match List.find (fun p => bool_decide (p.1 = t)) MessageType_table with
  | Some p => p.2
  | None => 0
  end.

(** The reverse mapping [MessageType[type]] of the enumeration. *)
Definition messageTypeName (type : Z) : option MessageType :=
  fst <$> List.find (fun p => p.2 =? type) MessageType_table.

(** ** Instances *)

Lemma MessageType_range t : 0 <= MessageType_number t <= 0xffff.
Proof. destruct t; vm_compute; split; congruence. Qed.

(** The codec registered for a message type. *)
Definition codec_of {M} (t : MessageType) (enc : M -> result buffer) (dec : buffer -> result M)
    (wf : M -> Prop) (rt : forall m, wf m -> exists b, enc m = Ok b /\ dec b = Ok m)
    : WireMessage M :=
  {| wm_type := MessageType_number t; wm_encode := enc; wm_decode := dec; wm_wf := wf;
     wm_type_range := MessageType_range t; wm_roundtrip := rt |}.

Lemma stfu_rt m : blen (st_channelId m) = 32 ->
  exists b, Ok (encodeStfuMessage m) = Ok b /\ decodeStfuMessage b = Ok m.
Proof. intros H. eexists. split; [done | by apply stfu_roundtrip]. Qed.

Lemma simple_close_rt m : simple_close_wf m ->
  exists b, encodeSimpleCloseMessage m = Ok b /\ decodeSimpleCloseMessage b = Ok m.
Proof. intros H. eexists. split; [by apply simple_close_bytes | by apply simple_close_decode]. Qed.

#[global] Instance ping_message : WireMessage IPingMessage :=
  codec_of PING (fun m => encodePingMessage (pi_numPongBytes m) (pi_byteslen m))
    decodePingMessage ping_wf ping_roundtrip.
#[global] Instance pong_message : WireMessage IPongMessage :=
  codec_of PONG (fun m => encodePongMessage (po_byteslen m))
    decodePongMessage (fun m => 0 <= po_byteslen m <= 65531) pong_roundtrip.
#[global] Instance error_message : WireMessage IErrorMessage :=
  codec_of ERROR encodeErrorMessage
    decodeErrorMessage error_wf error_roundtrip.
#[global] Instance stfu_message : WireMessage IStfuMessage :=
  codec_of STFU (fun m => Ok (encodeStfuMessage m))
    decodeStfuMessage (fun m => blen (st_channelId m) = 32) stfu_rt.
#[global] Instance peer_storage_message : WireMessage IPeerStorageMessage :=
  codec_of PEER_STORAGE encodeBlobMessage
    decodeBlobMessage peer_storage_wf peer_storage_roundtrip.
#[global] Instance update_add_message : WireMessage IUpdateAddHtlcMessage :=
  codec_of UPDATE_ADD_HTLC encodeUpdateAddHtlcMessage
    decodeUpdateAddHtlcMessage update_add_wf update_add_roundtrip.
#[global] Instance update_fulfill_message : WireMessage IUpdateFulfillHtlcMessage :=
  codec_of UPDATE_FULFILL_HTLC encodeUpdateFulfillHtlcMessage
    decodeUpdateFulfillHtlcMessage update_fulfill_wf update_fulfill_roundtrip.
#[global] Instance update_fail_message : WireMessage IUpdateFailHtlcMessage :=
  codec_of UPDATE_FAIL_HTLC encodeUpdateFailHtlcMessage
    decodeUpdateFailHtlcMessage update_fail_wf update_fail_roundtrip.
#[global] Instance update_malformed_message : WireMessage IUpdateFailMalformedHtlcMessage :=
  codec_of UPDATE_FAIL_MALFORMED_HTLC encodeUpdateFailMalformedHtlcMessage
    decodeUpdateFailMalformedHtlcMessage update_malformed_wf update_malformed_roundtrip.
#[global] Instance update_fee_message : WireMessage IUpdateFeeMessage :=
  codec_of UPDATE_FEE encodeUpdateFeeMessage
    decodeUpdateFeeMessage update_fee_wf update_fee_roundtrip.
#[global] Instance update_blockheight_message : WireMessage IUpdateBlockheightMessage :=
  codec_of UPDATE_BLOCKHEIGHT encodeUpdateBlockheightMessage
    decodeUpdateBlockheightMessage update_blockheight_wf update_blockheight_roundtrip.
#[global] Instance commitment_signed_message : WireMessage ICommitmentSignedMessage :=
  codec_of COMMITMENT_SIGNED encodeCommitmentSignedMessage
    decodeCommitmentSignedMessage commitment_signed_wf commitment_signed_rt.
#[global] Instance revoke_and_ack_message : WireMessage IRevokeAndAckMessage :=
  codec_of REVOKE_AND_ACK encodeRevokeAndAckMessage
    decodeRevokeAndAckMessage revoke_and_ack_wf revoke_and_ack_rt.
#[global] Instance shutdown_message : WireMessage IShutdownMessage :=
  codec_of SHUTDOWN encodeShutdownMessage
    decodeShutdownMessage shutdown_wf shutdown_rt.
#[global] Instance closing_signed_message : WireMessage IClosingSignedMessage :=
  codec_of CLOSING_SIGNED encodeClosingSignedMessage
    decodeClosingSignedMessage closing_signed_wf closing_signed_rt.
#[global] Instance closing_complete_message : WireMessage IClosingCompleteMessage :=
  codec_of CLOSING_COMPLETE encodeSimpleCloseMessage
    decodeSimpleCloseMessage simple_close_wf simple_close_rt.
#[global] Instance funding_created_message : WireMessage IFundingCreatedMessage :=
  codec_of FUNDING_CREATED encodeFundingCreatedMessage
    decodeFundingCreatedMessage funding_created_wf funding_created_rt.
#[global] Instance funding_signed_message : WireMessage IFundingSignedMessage :=
  codec_of FUNDING_SIGNED encodeFundingSignedMessage
    decodeFundingSignedMessage funding_signed_wf funding_signed_rt.
#[global] Instance channel_ready_message : WireMessage IChannelReadyMessage :=
  codec_of CHANNEL_READY encodeChannelReadyMessage
    decodeChannelReadyMessage channel_ready_wf channel_ready_rt.
#[global] Instance open_channel_message : WireMessage IOpenChannelMessage :=
  codec_of OPEN_CHANNEL encodeOpenChannelMessage
    decodeOpenChannelMessage open_channel_wf open_channel_rt.
#[global] Instance accept_channel_message : WireMessage IAcceptChannelMessage :=
  codec_of ACCEPT_CHANNEL encodeAcceptChannelMessage
    decodeAcceptChannelMessage accept_channel_wf accept_channel_rt.
#[global] Instance tx_add_input_message : WireMessage ITxAddInputMessage :=
  codec_of TX_ADD_INPUT encodeTxAddInputMessage
    decodeTxAddInputMessage tx_add_input_wf tx_add_input_rt.
#[global] Instance tx_add_output_message : WireMessage ITxAddOutputMessage :=
  codec_of TX_ADD_OUTPUT encodeTxAddOutputMessage
    decodeTxAddOutputMessage tx_add_output_wf tx_add_output_rt.
#[global] Instance tx_remove_input_message : WireMessage ITxRemoveInputMessage :=
  codec_of TX_REMOVE_INPUT encodeTxRemoveInputMessage
    decodeTxRemoveInputMessage tx_remove_input_wf tx_remove_input_rt.
#[global] Instance tx_remove_output_message : WireMessage ITxRemoveOutputMessage :=
  codec_of TX_REMOVE_OUTPUT encodeTxRemoveOutputMessage
    decodeTxRemoveOutputMessage tx_remove_output_wf tx_remove_output_rt.
#[global] Instance tx_complete_message : WireMessage ITxCompleteMessage :=
  codec_of TX_COMPLETE encodeTxCompleteMessage
    decodeTxCompleteMessage (fun m => blen (tc_channelId m) = 32) tx_complete_rt.
#[global] Instance tx_signatures_message : WireMessage ITxSignaturesMessage :=
  codec_of TX_SIGNATURES encodeTxSignaturesMessage
    decodeTxSignaturesMessage tx_signatures_wf tx_signatures_rt.
#[global] Instance tx_init_rbf_message : WireMessage ITxInitRbfMessage :=
  codec_of TX_INIT_RBF encodeTxInitRbfMessage
    decodeTxInitRbfMessage tx_init_rbf_wf tx_init_rbf_rt.
#[global] Instance tx_ack_rbf_message : WireMessage ITxAckRbfMessage :=
  codec_of TX_ACK_RBF encodeTxAckRbfMessage
    decodeTxAckRbfMessage tx_ack_rbf_wf tx_ack_rbf_rt.
#[global] Instance channel_reestablish_message : WireMessage IChannelReestablishMessage :=
  codec_of CHANNEL_REESTABLISH encodeChannelReestablishMessage
    decodeChannelReestablishMessage reestablish_wf reestablish_rt.
#[global] Instance tx_abort_message : WireMessage ITxAbortMessage :=
  codec_of TX_ABORT encodeTxAbortMessage
    decodeTxAbortMessage tx_abort_wf tx_abort_rt.

(** ** Theorems *)

(** Evaluated side conditions of the sample messages. *)
Ltac sample_side := first [done | congruence | repeat constructor; vm_compute; first [done | congruence]].

(** The message numbers are 16-bit, no two
    types share one, and looking a number up gives back its type. *)
Theorem message_types_distinct (t : MessageType) :
  0 < MessageType_number t <= 0xffff /\ messageTypeName (MessageType_number t) = Some t.
Proof. destruct t; vm_compute; repeat split; congruence. Qed.

(** Whatever message with a codec a node sends, the
    peer that splits the frame and decodes the payload reads the type number of
    that message and the same message. *)
Theorem frame_roundtrip {M} `{WireMessage M} (m : M) (Hwf : wm_wf m) :
  exists b, frame_message m = Ok b /\ unframe_message b = Ok (wm_type, m).
Proof. by apply frame_unframe. Qed.

Definition sample_add : IUpdateAddHtlcMessage :=
  {| ua_channelId := alloc 32; ua_id := 7; ua_amountMsat := 100000000; ua_paymentHash := alloc 32;
     ua_cltvExpiry := 800000; ua_onionRoutingPacket := alloc 1366;
     ua_blindingPoint := Some (alloc 33); ua_skimmedFeeMsat := Some 42 |}.

Lemma sample_add_wf : update_add_wf sample_add.
Proof. repeat split; vm_compute; congruence. Qed.

Lemma frame_roundtrip_witness :
  exists b, frame_message sample_add = Ok b /\ unframe_message b = Ok (128, sample_add).
Proof. exact (frame_roundtrip sample_add sample_add_wf). Defined.

(** an update_add_htlc whose fields fit
    their wire widths is encoded without an exception, and the receiver decodes
    the same HTLC, its blinding point and its skimmed fee included. *)
Theorem update_add_htlc_roundtrip m (Hwf : update_add_wf m) :
  exists b, encodeUpdateAddHtlcMessage m = Ok b /\ decodeUpdateAddHtlcMessage b = Ok m.
Proof. by apply update_add_roundtrip. Qed.

Lemma update_add_htlc_roundtrip_witness :
  exists b, encodeUpdateAddHtlcMessage sample_add = Ok b /\
    decodeUpdateAddHtlcMessage b = Ok sample_add.
Proof. apply (update_add_htlc_roundtrip sample_add), sample_add_wf. Defined.

(** A commitment_signed with at most
    65535 HTLC signatures and its optional records decodes to what was encoded. *)
Theorem commitment_signed_roundtrip m (Hwf : commitment_signed_wf m) :
  exists b, encodeCommitmentSignedMessage m = Ok b /\ decodeCommitmentSignedMessage b = Ok m.
Proof. by apply commitment_signed_rt. Qed.

Definition sample_commitment :=
  {| cs_channelId := alloc 32; cs_signature := alloc 64; cs_htlcSignatures := [alloc 64; alloc 64];
     cs_fundingTxid := Some (alloc 32); cs_partialSignatureWithNonce := None |}.

Lemma commitment_signed_roundtrip_witness :
  exists b, encodeCommitmentSignedMessage sample_commitment = Ok b /\ decodeCommitmentSignedMessage b = Ok sample_commitment.
Proof. apply (commitment_signed_roundtrip sample_commitment). repeat split; vm_compute; sample_side. Defined.

(** a revoke_and_ack decodes to the revealed
    secret, the next point and the nonces that were encoded. *)
Theorem revoke_and_ack_roundtrip m (Hwf : revoke_and_ack_wf m) :
  exists b, encodeRevokeAndAckMessage m = Ok b /\ decodeRevokeAndAckMessage b = Ok m.
Proof. by apply revoke_and_ack_rt. Qed.

Definition sample_revoke :=
  {| ra_channelId := alloc 32; ra_perCommitmentSecret := alloc 32;
     ra_nextPerCommitmentPoint := alloc 33; ra_nextLocalNonce := Some (alloc 66) |}.

Lemma revoke_and_ack_roundtrip_witness :
  exists b, encodeRevokeAndAckMessage sample_revoke = Ok b /\ decodeRevokeAndAckMessage b = Ok sample_revoke.
Proof. apply (revoke_and_ack_roundtrip sample_revoke). repeat split; vm_compute; sample_side. Defined.

(** Closing_complete and closing_sig, with any
    non-empty choice of the three signatures, decode to what was encoded. *)
Theorem simple_close_roundtrip m (Hwf : simple_close_wf m) :
  exists b, encodeSimpleCloseMessage m = Ok b /\ decodeSimpleCloseMessage b = Ok m.
Proof. by apply simple_close_rt. Qed.

Definition sample_close :=
  {| cc_channelId := alloc 32; cc_closerScriptPubkey := alloc 22; cc_closeeScriptPubkey := alloc 34;
     cc_feeSatoshis := 300; cc_locktime := 800000; cc_closerOutputOnlySig := Some (alloc 64);
     cc_closeeOutputOnlySig := None; cc_closerAndCloseeSig := Some (alloc 64) |}.

Lemma simple_close_roundtrip_witness :
  exists b, encodeSimpleCloseMessage sample_close = Ok b /\ decodeSimpleCloseMessage b = Ok sample_close.
Proof. apply (simple_close_roundtrip sample_close). repeat split; vm_compute; sample_side. Defined.

(** open_channel, its upfront shutdown script,
    channel type and nonce records included, decodes to what was encoded. *)
Theorem open_channel_roundtrip m (Hwf : open_channel_wf m) :
  exists b, encodeOpenChannelMessage m = Ok b /\ decodeOpenChannelMessage b = Ok m.
Proof. by apply open_channel_rt. Qed.

Definition sample_open :=
  {| oc_chainHash := alloc 32; oc_temporaryChannelId := alloc 32; oc_fundingSatoshis := 1000000;
     oc_pushMsat := 5000; oc_dustLimitSatoshis := 354; oc_maxHtlcValueInFlightMsat := 1000000000;
     oc_channelReserveSatoshis := 10000; oc_htlcMinimumMsat := 1; oc_feeratePerKw := 2500;
     oc_toSelfDelay := 144; oc_maxAcceptedHtlcs := 483; oc_fundingPubkey := alloc 33;
     oc_revocationBasepoint := alloc 33; oc_paymentBasepoint := alloc 33;
     oc_delayedPaymentBasepoint := alloc 33; oc_htlcBasepoint := alloc 33;
     oc_firstPerCommitmentPoint := alloc 33; oc_channelFlags := 1;
     oc_upfrontShutdownScript := Some (alloc 22); oc_channelType := Some (alloc 2);
     oc_nextLocalNonce := None |}.

Lemma open_channel_roundtrip_witness :
  exists b, encodeOpenChannelMessage sample_open = Ok b /\ decodeOpenChannelMessage b = Ok sample_open.
Proof. apply (open_channel_roundtrip sample_open). repeat split; vm_compute; sample_side. Defined.

(** tx_signatures, with any witness stacks
    that fit their 16-bit lengths, decodes to the same stacks and signature. *)
Theorem tx_signatures_roundtrip m (Hwf : tx_signatures_wf m) :
  exists b, encodeTxSignaturesMessage m = Ok b /\ decodeTxSignaturesMessage b = Ok m.
Proof. by apply tx_signatures_rt. Qed.

Definition sample_signatures :=
  {| ts_channelId := alloc 32; ts_txid := alloc 32; ts_witnesses := [[alloc 71; alloc 33]; [alloc 300]];
     ts_sharedInputSignature := Some (alloc 64) |}.

Lemma tx_signatures_roundtrip_witness :
  exists b, encodeTxSignaturesMessage sample_signatures = Ok b /\ decodeTxSignaturesMessage b = Ok sample_signatures.
Proof.
  apply (tx_signatures_roundtrip sample_signatures).
  refine (conj eq_refl (conj eq_refl (conj eq_refl (conj _ eq_refl)))).
  assert (Hs : forall els, forallb (fun el => blen el <? 2 ^ 32) els = true ->
            Z.of_nat (length els) < 2 ^ 32 -> blen (stack_bytes els) < 2 ^ 16 -> stack_wf els).
  { intros els He Hn Hb. split; [done|]. split; [|done]. apply List.Forall_forall. intros el Hel.
    rewrite forallb_forall in He. by apply Z.ltb_lt, He. }
  repeat (apply Forall_cons; split); [apply Hs; reflexivity.. | by apply Forall_nil].
Defined.

(** An error the node may scope to a channel reaches the
    peer scoped to that channel, and is never read as one for every channel. *)
Theorem error_scope cid message
    (Hcan : canScopeWireError cid = true) (Hlen : Z.of_nat (length message) < 2 ^ 16) :
  exists b m, encodeErrorMessage (createError cid message) = Ok b /\
    decodeErrorMessage b = Ok m /\ er_channelId m = cid /\ isConnectionError m = false.
Proof.
  destruct (error_roundtrip (createError cid message)) as (b & He & Hd).
  { unfold canScopeWireError in Hcan. bool_props. split; [done|].
    unfold createError, from_ascii, blen. cbn. by rewrite length_map. }
  exists b, (createError cid message). repeat split; try done. by apply scoped_not_connection.
Qed.

Lemma error_scope_witness :
  exists b m, encodeErrorMessage (createError (replicate 32 (byte_of_Z 7)) [111; 107]) = Ok b /\
    decodeErrorMessage b = Ok m /\ er_channelId m = replicate 32 (byte_of_Z 7) /\
    isConnectionError m = false.
Proof. apply (error_scope (replicate 32 (byte_of_Z 7)) [111; 107]); vm_compute; done. Defined.
