(* ===== verification/Features.v ===== *)
(** * Feature flags (src/src/lightning/features/flags.ts)

    A [FeatureFlags] object is its byte buffer.  Bit 0 is the low bit of the last
    byte.  The specification is a set of bit numbers: two buffers are equivalent
    when they have the same bits, whatever zero bytes they start with, and every
    query respects that equivalence; [toBuffer] picks the canonical buffer. *)

From S2P Require Import Prelude Buffer.
From Stdlib Require Import Strings.Byte Sorting.Mergesort Setoid Morphisms.

Inductive Feature :=
| DATA_LOSS_PROTECT | UPFRONT_SHUTDOWN_SCRIPT | GOSSIP_QUERIES | TLV_ONION
| GOSSIP_QUERIES_EX | STATIC_REMOTE_KEY | PAYMENT_SECRET | BASIC_MPP | LARGE_CHANNELS
| ANCHOR_OUTPUTS | ANCHOR_ZERO_FEE_HTLC | ROUTE_BLINDING | SHUTDOWN_ANY_SEGWIT | DUAL_FUND
| ONION_MESSAGES | PROVIDE_STORAGE | QUIESCE | CHANNEL_TYPE | SCID_ALIAS | ZERO_CONF
| KEYSEND | SIMPLE_CLOSE | SPLICE | OPTION_ZERO_RESERVE | OPTION_TAPROOT | OPTION_WILL_FUND
| ASYNC_RECEIVE_SERVICE | OPTION_FF_RECEIVE | OPTION_FF_CONCURRENT
| OPTION_COMPOSITE_SPLICE_INPUTS.

(** The even bit of each feature. *)
Definition Feature_bit (f : Feature) : Z :=
  match f with
  | DATA_LOSS_PROTECT => 0 | UPFRONT_SHUTDOWN_SCRIPT => 4 | GOSSIP_QUERIES => 6
  | TLV_ONION => 8 | GOSSIP_QUERIES_EX => 10 | STATIC_REMOTE_KEY => 12 | PAYMENT_SECRET => 14
  | BASIC_MPP => 16 | LARGE_CHANNELS => 18 | ANCHOR_OUTPUTS => 20 | ANCHOR_ZERO_FEE_HTLC => 22
  | ROUTE_BLINDING => 24 | SHUTDOWN_ANY_SEGWIT => 26 | DUAL_FUND => 28 | ONION_MESSAGES => 38
  | PROVIDE_STORAGE => 42 | QUIESCE => 34 | CHANNEL_TYPE => 44 | SCID_ALIAS => 46
  | ZERO_CONF => 50 | KEYSEND => 54 | SIMPLE_CLOSE => 60 | SPLICE => 62
  | OPTION_ZERO_RESERVE => 64 | OPTION_TAPROOT => 180 | OPTION_WILL_FUND => 112
  | ASYNC_RECEIVE_SERVICE => 444 | OPTION_FF_RECEIVE => 440 | OPTION_FF_CONCURRENT => 442
  | OPTION_COMPOSITE_SPLICE_INPUTS => 454
  end.

Definition FeatureFlags := buffer.

Definition fromBuffer (b : buffer) : FeatureFlags := b.
Definition empty : FeatureFlags := [].

Definition setBit (flags : FeatureFlags) (bit : Z) : result FeatureFlags :=
  _ ← throw_if (bit <? 0) "Bit position must be non-negative";
  let byteIndex := bit / 8 in
  let bitIndex := bit mod 8 in
  let neededLength := byteIndex + 1 in
  let flags := if blen flags <? neededLength
               then copy flags (alloc neededLength) (neededLength - blen flags) else flags in
  let bufIndex := blen flags - 1 - byteIndex in
  Ok (set_byte flags bufIndex (Z.lor (byte_at flags bufIndex) (Z.shiftl 1 bitIndex))).

Definition clearBit (flags : FeatureFlags) (bit : Z) : FeatureFlags :=
  let byteIndex := bit / 8 in
  let bufIndex := blen flags - 1 - byteIndex in
  if (bufIndex <? 0) || (blen flags <=? bufIndex) then flags
  else
    let bitIndex := bit mod 8 in
    set_byte flags bufIndex (Z.land (byte_at flags bufIndex) (Z.lnot (Z.shiftl 1 bitIndex))).

Definition hasBit (flags : FeatureFlags) (bit : Z) : bool :=
  let byteIndex := bit / 8 in
  let bufIndex := blen flags - 1 - byteIndex in
  if (bufIndex <? 0) || (blen flags <=? bufIndex) then false
  else
    let bitIndex := bit mod 8 in
    negb (Z.land (byte_at flags bufIndex) (Z.shiftl 1 bitIndex) =? 0).

Definition setCompulsory (flags : FeatureFlags) (feature : Z) := setBit flags feature.
Definition setOptional (flags : FeatureFlags) (feature : Z) := setBit flags (feature + 1).
Definition hasFeature (flags : FeatureFlags) (feature : Z) : bool :=
  hasBit flags feature || hasBit flags (feature + 1).
Definition isCompulsory (flags : FeatureFlags) (feature : Z) : bool := hasBit flags feature.
Definition isOptional (flags : FeatureFlags) (feature : Z) : bool := hasBit flags (feature + 1).

(** [for (let bit = 7; bit >= 0; bit--)] in one byte. *)
Definition high_bit (x : Z) : option Z :=
  List.find (fun bit => negb (Z.land x (Z.shiftl 1 bit) =? 0)) [7; 6; 5; 4; 3; 2; 1; 0].

(** The loop over the bytes: [flags] is what is left of the buffer. *)
Fixpoint maxBit (flags : FeatureFlags) : Z :=
  match flags with
  | [] => -1
  | x :: rest =>
      if Z_of_byte x =? 0 then maxBit rest
      else match high_bit (Z_of_byte x) with
           | Some bit => blen rest * 8 + bit
           | None => maxBit rest
           end
  end.

Fixpoint toBuffer (flags : FeatureFlags) : buffer :=
  match flags with
  | [] => []
  | x :: rest => if Z_of_byte x =? 0 then toBuffer rest else x :: rest
  end.

(** [bits.sort((a, b) => a - b)] of a list that is already increasing. *)
Module ZOrder <: Orders.TotalLeBool.
Definition t := Z.
Definition leb := Z.leb.
Lemma leb_total : forall x y, leb x y = true \/ leb y x = true.
Proof. unfold leb. intros. rewrite !Z.leb_le. lia. Qed.
End ZOrder.

Module ZSort := Mergesort.Sort ZOrder.

Definition byte_bits (x : byte) (bytePos : Z) : list Z :=
  map (fun bit => bytePos * 8 + bit)
    (List.filter (fun bit => negb (Z.land (Z_of_byte x) (Z.shiftl 1 bit) =? 0))
       [0; 1; 2; 3; 4; 5; 6; 7]).

Fixpoint set_bits_from (bytes : list byte) (bytePos : Z) : list Z :=
  match bytes with
  | [] => []
  | x :: rest => byte_bits x bytePos ++ set_bits_from rest (bytePos + 1)
  end.

Definition listSetBits (flags : FeatureFlags) : list Z :=
  ZSort.sort (set_bits_from (reverse flags) 0).

(** [for (let bit = 0; bit <= max; bit += 2)] *)
Definition even_bits (max : Z) : list Z :=
  map (fun k => 2 * Z.of_nat k) (seq 0 (Z.to_nat (max / 2 + 1))).

Definition isCompatible (flags remote : FeatureFlags) (localKnown : Z -> bool) : bool :=
  let maxBits := Z.max (maxBit flags) (maxBit remote) in
  forallb (fun bit => negb (hasBit remote bit) || localKnown bit) (even_bits maxBits).

Definition implemented_list : list Feature :=
    [ DATA_LOSS_PROTECT; GOSSIP_QUERIES; TLV_ONION; STATIC_REMOTE_KEY; PAYMENT_SECRET; BASIC_MPP;
      LARGE_CHANNELS; ANCHOR_ZERO_FEE_HTLC; ROUTE_BLINDING; SHUTDOWN_ANY_SEGWIT; DUAL_FUND;
      QUIESCE; ONION_MESSAGES; CHANNEL_TYPE; SCID_ALIAS; ZERO_CONF; KEYSEND; SPLICE;
      OPTION_ZERO_RESERVE; SIMPLE_CLOSE; PROVIDE_STORAGE; OPTION_FF_RECEIVE;
      OPTION_FF_CONCURRENT; OPTION_COMPOSITE_SPLICE_INPUTS ].

Definition implementedFeatures : result FeatureFlags :=
  foldM (fun flags f => setOptional flags (Feature_bit f)) empty implemented_list.

Definition hasUnsupportedRequiredFeatures (localFeatures remoteFeatures : FeatureFlags)
    : result (list Z) :=
  let max := maxBit remoteFeatures in
  implemented ← implementedFeatures;
  Ok (List.filter (fun bit =>
        hasBit remoteFeatures bit &&
        (if (bit =? Feature_bit OPTION_FF_CONCURRENT) && negb (hasFeature localFeatures bit)
         then true
         else negb (hasBit localFeatures bit) && negb (hasBit localFeatures (bit + 1)) &&
              negb (hasBit implemented bit) && negb (hasBit implemented (bit + 1))))
      (even_bits max)).

(** ** Bits of a buffer, counted from its end *)

Lemma land_bit x k : 0 <= k -> negb (Z.land x (Z.shiftl 1 k) =? 0) = Z.testbit x k.
Proof.
  intros Hk. rewrite Z.shiftl_1_l. destruct (Z.testbit x k) eqn:E.
  - apply negb_true_iff, Z.eqb_neq. intros H.
    assert (Hb : Z.testbit (Z.land x (2 ^ k)) k = false) by (by rewrite H, Z.bits_0).
    by rewrite Z.land_spec, E, Z.pow2_bits_true in Hb by lia.
  - apply negb_false_iff, Z.eqb_eq, Z.bits_inj'. intros n Hn. rewrite Z.land_spec, Z.bits_0.
    destruct (Z.eq_dec k n) as [<-|]; [by rewrite E|].
    rewrite Z.pow2_bits_false by lia. apply andb_false_r.
Qed.

Definition bit_at (bytes : list byte) (bit : Z) : bool :=
  match bytes !! Z.to_nat (bit / 8) with
  | Some x => Z.testbit (Z_of_byte x) (bit mod 8)
  | None => false
  end.

Lemma hasBit_at (f : buffer) bit : 0 <= bit -> hasBit f bit = bit_at (reverse f) bit.
Proof.
  intros Hb. unfold hasBit, bit_at, byte_at, blen.
  pose proof (Z.div_pos bit 8 Hb ltac:(lia)). pose proof (Z.mod_pos_bound bit 8 ltac:(lia)).
  destruct (Z.ltb_spec (Z.of_nat (length f) - 1 - bit / 8) 0); simpl.
  - by rewrite (proj2 (lookup_ge_None (reverse f) _)) by (rewrite length_reverse; lia).
  - rewrite (proj2 (Z.leb_gt _ _)) by lia. rewrite land_bit by lia.
    rewrite (reverse_lookup f (Z.to_nat (bit / 8))) by lia.
    replace (length f - S (Z.to_nat (bit / 8)))%nat
      with (Z.to_nat (Z.of_nat (length f) - 1 - bit / 8)) by lia.
    destruct (f !! Z.to_nat (Z.of_nat (length f) - 1 - bit / 8)) eqn:E; [done|].
    apply lookup_ge_None in E. lia.
Qed.

Lemma hasBit_neg (f : buffer) bit : bit < 0 -> hasBit f bit = false.
Proof.
  intros H. unfold hasBit. rewrite (proj2 (Z.leb_le _ _)), orb_true_r; [done|].
  pose proof (Z.div_lt_upper_bound bit 8 0). lia.
Qed.

(** Setting a byte, counted from the end. *)
Lemma lookup_set_byte (f : buffer) j v k :
  0 <= j < blen f ->
  reverse (set_byte f (blen f - 1 - j) v) !! k =
    if decide (k = Z.to_nat j) then Some (byte_of_Z v) else reverse f !! k.
Proof.
  unfold set_byte, blen. intros Hj.
  destruct (decide (k < length f)%nat) as [Hk|Hk].
  - rewrite !reverse_lookup by (rewrite ?length_insert; lia). rewrite length_insert.
    rewrite list_lookup_insert. repeat case_decide; done || lia.
  - rewrite !(proj2 (lookup_ge_None _ _)) by (rewrite length_reverse, ?length_insert; lia).
    case_decide; [lia|done].
Qed.

Lemma byte_at_end (f : buffer) j :
  0 <= j < blen f -> exists x, reverse f !! Z.to_nat j = Some x /\ byte_at f (blen f - 1 - j) = Z_of_byte x.
Proof.
  unfold byte_at, blen. intros Hj. rewrite reverse_lookup by lia.
  replace (length f - S (Z.to_nat j))%nat with (Z.to_nat (Z.of_nat (length f) - 1 - j)) by lia.
  destruct (f !! Z.to_nat (Z.of_nat (length f) - 1 - j)) eqn:E; [by eexists|]. apply lookup_ge_None in E. lia.
Qed.

(** Changing the byte that holds [bit] changes the bits as the bytes differ. *)
Lemma hasBit_set_byte (f : buffer) bit v b :
  0 <= bit -> bit / 8 < blen f -> 0 <= b ->
  hasBit (set_byte f (blen f - 1 - bit / 8) v) b =
    if b / 8 =? bit / 8 then Z.testbit (v mod 256) (b mod 8) else hasBit f b.
Proof.
  intros Hbit Hl Hb. rewrite !hasBit_at by done. unfold bit_at.
  pose proof (Z.div_pos bit 8 Hbit ltac:(lia)). pose proof (Z.div_pos b 8 Hb ltac:(lia)).
  rewrite lookup_set_byte by lia.
  destruct (Z.eqb_spec (b / 8) (bit / 8)) as [->|]; [by rewrite decide_True, Z_of_byte_of_Z|].
  by rewrite decide_False by lia.
Qed.

Lemma same_bit b bit : b / 8 = bit / 8 -> (b mod 8 =? bit mod 8) = (b =? bit).
Proof.
  intros H. pose proof (Z.div_mod b 8 ltac:(lia)). pose proof (Z.div_mod bit 8 ltac:(lia)).
  destruct (Z.eqb_spec (b mod 8) (bit mod 8)), (Z.eqb_spec b bit); congruence || lia.
Qed.

Lemma mod256_bit v k : 0 <= k < 8 -> Z.testbit (v mod 256) k = Z.testbit v k.
Proof. intros H. change 256 with (2 ^ 8). by rewrite Z.mod_pow2_bits_low by lia. Qed.

Lemma shiftl1_bit k n : 0 <= k -> 0 <= n -> Z.testbit (Z.shiftl 1 k) n = (n =? k).
Proof. intros Hk Hn. rewrite Z.shiftl_1_l. by rewrite Z.pow2_bits_eqb, Z.eqb_sym by lia. Qed.

Lemma hasBit_byte (f : buffer) bit b :
  0 <= b -> 0 <= bit -> bit / 8 < blen f -> b / 8 = bit / 8 ->
  hasBit f b = Z.testbit (byte_at f (blen f - 1 - bit / 8)) (b mod 8).
Proof.
  intros Hb Hbit Hl E. pose proof (Z.div_pos bit 8 Hbit ltac:(lia)).
  destruct (byte_at_end f (bit / 8)) as (x & Hx & ->); [lia|].
  rewrite hasBit_at by done. unfold bit_at. by rewrite E, Hx.
Qed.

(** Zero bytes in front do not change the set. *)
Lemma hasBit_pad n (f : buffer) b : hasBit (replicate n x00 ++ f) b = hasBit f b.
Proof.
  destruct (decide (0 <= b)); [|by rewrite !hasBit_neg by lia].
  rewrite !hasBit_at by done. unfold bit_at. rewrite reverse_app, reverse_replicate.
  destruct (decide (Z.to_nat (b / 8) < length f)%nat).
  - by rewrite lookup_app_l by (rewrite length_reverse; lia).
  - rewrite lookup_app_r by (rewrite length_reverse; lia).
    rewrite (proj2 (lookup_ge_None (reverse f) _)) by (rewrite length_reverse; lia).
    destruct (replicate n x00 !! _) as [x|] eqn:E; [|done].
    apply lookup_replicate in E as [-> _]. apply Z.bits_0.
Qed.

Lemma copy_pad (f : buffer) n : blen f <= n -> copy f (alloc n) (n - blen f) = replicate (Z.to_nat (n - blen f)) x00 ++ f.
Proof.
  intros H. pose proof (blen_nonneg f). unfold copy, alloc.
  rewrite drop_ge by (rewrite length_replicate; lia). rewrite app_nil_r.
  rewrite take_replicate. f_equal; [f_equal; lia|]. apply take_ge.
  unfold blen. rewrite length_replicate. unfold blen in *. lia.
Qed.

Lemma setBit_spec (f : buffer) bit : 0 <= bit ->
  exists f', setBit f bit = Ok f' /\ forall b, hasBit f' b = (b =? bit) || hasBit f b.
Proof.
  intros Hbit. pose proof (Z.div_pos bit 8 Hbit ltac:(lia)).
  pose proof (Z.mod_pos_bound bit 8 ltac:(lia)). pose proof (blen_nonneg f).
  unfold setBit. rewrite throw_pass by (apply Z.ltb_ge; lia).
  set (g := if _ <? _ then _ else _). eexists. split; [done|]. intros b.
  assert (Hg : bit / 8 < blen g /\ forall b, hasBit g b = hasBit f b).
  { unfold g. destruct (Z.ltb_spec (blen f) (bit / 8 + 1)).
    - rewrite copy_pad by lia. split; [|intros; apply hasBit_pad].
      rewrite blen_app. unfold blen at 1. rewrite length_replicate. lia.
    - split; [lia|done]. }
  destruct Hg as [Hl Hg]. rewrite <- Hg.
  destruct (decide (0 <= b)) as [Hb|Hb].
  2:{ rewrite !hasBit_neg by lia. rewrite (proj2 (Z.eqb_neq b bit)) by lia. done. }
  pose proof (Z.mod_pos_bound b 8 ltac:(lia)).
  rewrite hasBit_set_byte by done. destruct (Z.eqb_spec (b / 8) (bit / 8)) as [E|E].
  - rewrite mod256_bit, Z.lor_spec, shiftl1_bit, same_bit, (hasBit_byte g bit b) by (done || lia).
    apply orb_comm.
  - rewrite (proj2 (Z.eqb_neq b bit)) by congruence. done.
Qed.

Lemma clearBit_spec (f : buffer) bit b : 0 <= bit ->
  hasBit (clearBit f bit) b = negb (b =? bit) && hasBit f b.
Proof.
  intros Hbit. pose proof (Z.div_pos bit 8 Hbit ltac:(lia)).
  pose proof (Z.mod_pos_bound bit 8 ltac:(lia)).
  destruct (decide (0 <= b)) as [Hb|Hb]; [|by rewrite !hasBit_neg, andb_false_r by lia].
  pose proof (Z.mod_pos_bound b 8 ltac:(lia)). unfold clearBit.
  destruct (Z.ltb_spec (blen f - 1 - bit / 8) 0); simpl.
  - destruct (Z.eqb_spec b bit) as [->|]; [|done]. unfold hasBit.
    by rewrite (proj2 (Z.ltb_lt _ 0)).
  - rewrite (proj2 (Z.leb_gt _ _)) by lia. rewrite hasBit_set_byte by (done || lia).
    destruct (Z.eqb_spec (b / 8) (bit / 8)) as [E|E].
    + rewrite mod256_bit, Z.land_spec, Z.lnot_spec, shiftl1_bit, same_bit, (hasBit_byte f bit b)
        by (done || lia). apply andb_comm.
    + rewrite (proj2 (Z.eqb_neq b bit)) by congruence. done.
Qed.

(** ** Equivalence of buffers as sets of bits *)

Definition same_bits (f g : FeatureFlags) : Prop := forall b, hasBit f b = hasBit g b.

#[global] Instance same_bits_equiv : Equivalence same_bits.
Proof.
  split; [done | by intros f g H b; rewrite H | by intros f g h H1 H2 b; rewrite H1, H2].
Qed.

#[global] Instance hasBit_proper : Proper (same_bits ==> eq ==> eq) hasBit.
Proof. intros f g H b _ <-. apply H. Qed.

#[global] Instance hasFeature_proper : Proper (same_bits ==> eq ==> eq) hasFeature.
Proof. intros f g H b _ <-. unfold hasFeature. by rewrite H. Qed.

(** ** The highest bit *)

Lemma hasBit_cons x (f : buffer) b :
  0 <= b ->
  hasBit (x :: f) b =
    if b / 8 =? blen f then Z.testbit (Z_of_byte x) (b mod 8) else hasBit f b.
Proof.
  intros Hb. pose proof (Z.div_pos b 8 Hb ltac:(lia)). rewrite !hasBit_at by done.
  unfold bit_at, blen. rewrite reverse_cons.
  destruct (Z.eqb_spec (b / 8) (Z.of_nat (length f))) as [E|E].
  - rewrite lookup_app_r by (rewrite length_reverse; lia).
    by replace (Z.to_nat (b / 8) - length (reverse f))%nat with 0%nat by (rewrite length_reverse; lia).
  - destruct (decide (Z.to_nat (b / 8) < length f)%nat).
    + by rewrite lookup_app_l by (rewrite length_reverse; lia).
    + by rewrite !(proj2 (lookup_ge_None _ _)) by
        (rewrite ?length_app, ?length_reverse; simpl; lia).
Qed.

Lemma hasBit_past (f : buffer) b : blen f * 8 <= b -> hasBit f b = false.
Proof.
  intros H. pose proof (blen_nonneg f). pose proof (Z.div_le_lower_bound b 8 (blen f)).
  unfold hasBit. rewrite (proj2 (Z.ltb_lt _ _)) by lia. done.
Qed.

Definition high_bit_ok (x : byte) : bool :=
  match high_bit (Z_of_byte x) with
  | Some k => (0 <=? k) && (k <? 8) && Z.testbit (Z_of_byte x) k &&
      forallb (fun j => (j <=? k) || negb (Z.testbit (Z_of_byte x) j)) [0; 1; 2; 3; 4; 5; 6; 7]
  | None => Z_of_byte x =? 0
  end.

Lemma high_bit_all x : high_bit_ok x = true.
Proof. destruct x; reflexivity. Qed.

Lemma high_bit_spec x :
  Z_of_byte x <> 0 -> exists k, high_bit (Z_of_byte x) = Some k /\ 0 <= k < 8 /\
    Z.testbit (Z_of_byte x) k = true /\
    forall j, k < j < 8 -> Z.testbit (Z_of_byte x) j = false.
Proof.
  intros Hx. pose proof (high_bit_all x) as H. unfold high_bit_ok in H.
  destruct (high_bit (Z_of_byte x)) as [k|]; [|by apply Z.eqb_eq in H].
  rewrite !andb_true_iff, Z.leb_le, Z.ltb_lt, forallb_forall in H.
  destruct H as [[[H1 H2] H3] H4]. exists k. split_and!; [done|lia|lia|done|].
  intros j Hj. assert (Hin : In j [0; 1; 2; 3; 4; 5; 6; 7]).
  { assert (j = 0 \/ j = 1 \/ j = 2 \/ j = 3 \/ j = 4 \/ j = 5 \/ j = 6 \/ j = 7) by lia.
    simpl. intuition. }
  specialize (H4 j Hin). rewrite (proj2 (Z.leb_gt j k)) in H4 by lia.
  by destruct (Z.testbit _ j).
Qed.

Lemma maxBit_spec (f : buffer) :
  -1 <= maxBit f /\ (0 <= maxBit f -> hasBit f (maxBit f) = true) /\
  (forall b, hasBit f b = true -> b <= maxBit f).
Proof.
  induction f as [|x f (H1 & H2 & H3)]; cbn [maxBit].
  - split; [done|]. split; [lia|]. intros b Hb.
    destruct (decide (0 <= b)); [by rewrite hasBit_past in Hb by (rewrite blen_nil; lia)|].
    by rewrite hasBit_neg in Hb by lia.
  - pose proof (blen_nonneg f).
    assert (Hlow : forall b, 0 <= b -> b / 8 <> blen f -> hasBit (x :: f) b = hasBit f b).
    { intros b Hb Hne. rewrite hasBit_cons by done. by rewrite (proj2 (Z.eqb_neq _ _)). }
    assert (Hmax : maxBit f < blen f * 8).
    { destruct (decide (maxBit f < blen f * 8)); [done|].
      rewrite hasBit_past in H2 by lia. specialize (H2 ltac:(lia)). done. }
    destruct (Z.eqb_spec (Z_of_byte x) 0) as [E|E].
    + assert (Hsame : forall b, hasBit (x :: f) b = hasBit f b).
      { intros b. replace (x :: f) with (replicate 1 x00 ++ f); [apply hasBit_pad|].
        simpl. f_equal. by apply Z_of_byte_inj. }
      split; [done|]. split; [intros; rewrite Hsame; auto|]. intros b. rewrite Hsame. apply H3.
    + destruct (high_bit_spec x E) as (k & -> & Hk & Hb & Hj).
      assert (Hdiv : (blen f * 8 + k) / 8 = blen f /\ (blen f * 8 + k) mod 8 = k).
      { split; [symmetry; apply Z.div_unique with k; lia | symmetry; apply Z.mod_unique with (blen f); lia]. }
      destruct Hdiv as [Hd Hm]. split; [lia|]. split.
      * intros _. rewrite hasBit_cons, Hd, Hm, Z.eqb_refl by lia. done.
      * intros b Hbit. destruct (decide (0 <= b)); [|lia].
        pose proof (Z.div_mod b 8 ltac:(lia)). pose proof (Z.mod_pos_bound b 8 ltac:(lia)).
        destruct (decide (b / 8 = blen f)) as [Eb|Eb].
        -- rewrite hasBit_cons, Eb, Z.eqb_refl in Hbit by done.
           destruct (decide (b mod 8 <= k)); [lia|]. by rewrite Hj in Hbit by lia.
        -- rewrite Hlow in Hbit by done. apply H3 in Hbit. lia.
Qed.

#[global] Instance maxBit_proper : Proper (same_bits ==> eq) maxBit.
Proof.
  intros f g H. destruct (maxBit_spec f) as (F1 & F2 & F3), (maxBit_spec g) as (G1 & G2 & G3).
  destruct (Z.lt_trichotomy (maxBit f) (maxBit g)) as [E|[E|E]]; [|done|].
  - specialize (G2 ltac:(lia)). rewrite <- H in G2. apply F3 in G2. lia.
  - specialize (F2 ltac:(lia)). rewrite H in F2. apply G3 in F2. lia.
Qed.

(** ** The canonical buffer *)

Lemma toBuffer_same f : same_bits (toBuffer f) f.
Proof.
  induction f as [|x f IH]; [done|]. cbn [toBuffer].
  destruct (Z.eqb_spec (Z_of_byte x) 0) as [E|E]; [|done]. rewrite IH. intros b.
  replace (x :: f) with (replicate 1 x00 ++ f); [by rewrite hasBit_pad|].
  simpl. f_equal. by apply Z_of_byte_inj.
Qed.

Lemma toBuffer_len f : blen (toBuffer f) = maxBit f / 8 + 1.
Proof.
  induction f as [|x f IH]; [done|]. cbn [toBuffer maxBit].
  destruct (Z.eqb_spec (Z_of_byte x) 0) as [E|E]; [done|].
  destruct (high_bit_spec x E) as (k & -> & Hk & _). rewrite blen_cons.
  replace ((blen f * 8 + k) / 8) with (blen f) by (apply Z.div_unique with k; lia). lia.
Qed.

Lemma byte_ext x y :
  (forall k, 0 <= k < 8 -> Z.testbit (Z_of_byte x) k = Z.testbit (Z_of_byte y) k) -> x = y.
Proof.
  intros H. apply Z_of_byte_inj, Z.bits_inj'. intros k Hk.
  destruct (decide (k < 8)); [by apply H|].
  assert (Hhigh : forall z, Z.testbit (Z_of_byte z) k = false).
  { intros z. rewrite <- (Z.mod_small (Z_of_byte z) (2 ^ 8)) by apply Z_of_byte_range.
    apply Z.mod_pow2_bits_high. lia. }
  by rewrite !Hhigh.
Qed.

Lemma same_bits_eq (f g : buffer) : blen f = blen g -> same_bits f g -> f = g.
Proof.
  intros Hl Hs. apply (inj reverse), list_eq. intros i. unfold blen in Hl.
  destruct (decide (i < length f)%nat) as [Hi|Hi].
  - destruct (lookup_lt_is_Some_2 (reverse f) i) as [x Hx]; [rewrite length_reverse; lia|].
    destruct (lookup_lt_is_Some_2 (reverse g) i) as [y Hy]; [rewrite length_reverse; lia|].
    rewrite Hx, Hy. f_equal. apply byte_ext. intros k Hk.
    specialize (Hs (Z.of_nat i * 8 + k)). rewrite !hasBit_at in Hs by lia. unfold bit_at in Hs.
    replace ((Z.of_nat i * 8 + k) / 8) with (Z.of_nat i) in Hs by (apply Z.div_unique with k; lia).
    replace ((Z.of_nat i * 8 + k) mod 8) with k in Hs by (apply Z.mod_unique with (Z.of_nat i); lia).
    by rewrite Nat2Z.id, Hx, Hy in Hs.
  - by rewrite !(proj2 (lookup_ge_None _ _)) by (rewrite length_reverse; lia).
Qed.

(** ** Listing bits *)

Lemma byte_bits_in x p b :
  In b (byte_bits x p) <-> b / 8 = p /\ Z.testbit (Z_of_byte x) (b mod 8) = true.
Proof.
  unfold byte_bits. rewrite in_map_iff. split.
  - intros (k & <- & Hk). apply filter_In in Hk as [Hin Hk].
    assert (0 <= k < 8) by (simpl in Hin; intuition; lia). rewrite land_bit in Hk by lia.
    replace ((p * 8 + k) / 8) with p by (apply Z.div_unique with k; lia).
    by replace ((p * 8 + k) mod 8) with k by (apply Z.mod_unique with p; lia).
  - intros [<- Hb]. pose proof (Z.mod_pos_bound b 8 ltac:(lia)). exists (b mod 8).
    split; [pose proof (Z.div_mod b 8 ltac:(lia)); lia|].
    apply filter_In. rewrite land_bit by lia. split; [|done].
    assert (b mod 8 = 0 \/ b mod 8 = 1 \/ b mod 8 = 2 \/ b mod 8 = 3 \/ b mod 8 = 4 \/
            b mod 8 = 5 \/ b mod 8 = 6 \/ b mod 8 = 7) by lia. simpl. intuition.
Qed.

Lemma set_bits_from_in bytes : forall p b, 0 <= p ->
  In b (set_bits_from bytes p) <-> p <= b / 8 /\ bit_at bytes (b - 8 * p) = true.
Proof.
  induction bytes as [|x bytes IH]; intros p b Hp; simpl.
  - unfold bit_at. rewrite lookup_nil. intuition discriminate.
  - rewrite in_app_iff, byte_bits_in, IH by lia. unfold bit_at.
    assert (Hd : forall q, (b - 8 * q) / 8 = b / 8 - q).
    { intros q. replace (b - 8 * q) with (b + (- q) * 8) by lia. rewrite Z.div_add by lia. lia. }
    assert (Hm : forall q, (b - 8 * q) mod 8 = b mod 8).
    { intros q. replace (b - 8 * q) with (b + (- q) * 8) by lia. by rewrite Z.mod_add by lia. }
    rewrite !Hd, !Hm. destruct (Z.lt_trichotomy (b / 8) p) as [E|[E|E]].
    + intuition lia.
    + rewrite E, Z.sub_diag. simpl. intuition lia.
    + replace (Z.to_nat (b / 8 - p)) with (S (Z.to_nat (b / 8 - (p + 1)))) by lia. simpl.
      intuition lia.
Qed.

Lemma listSetBits_in f b : In b (listSetBits f) <-> 0 <= b /\ hasBit f b = true.
Proof.
  unfold listSetBits. split.
  - intros H. eapply Permutation.Permutation_in in H; [|symmetry; apply ZSort.Permuted_sort].
    apply set_bits_from_in in H as [H1 H2]; [|lia].
    assert (0 <= b) by (pose proof (Z.div_lt_upper_bound b 8 0); lia).
    rewrite hasBit_at by done. by replace (b - 8 * 0) with b in H2 by lia.
  - intros [Hb H]. eapply Permutation.Permutation_in; [apply ZSort.Permuted_sort|].
    apply set_bits_from_in; [lia|]. split; [by apply Z.div_pos|].
    replace (b - 8 * 0) with b by lia. by rewrite <- hasBit_at.
Qed.

Lemma even_bits_in max b :
  -1 <= max -> In b (even_bits max) <-> Z.Even b /\ 0 <= b <= max.
Proof.
  intros Hm. unfold even_bits. rewrite in_map_iff.
  pose proof (Z.div_mod max 2 ltac:(lia)). pose proof (Z.mod_pos_bound max 2 ltac:(lia)). split.
  - intros (k & <- & Hk). apply in_seq in Hk. split; [by exists (Z.of_nat k) | lia].
  - intros [[k ->] Hb]. exists (Z.to_nat k). split; [lia|]. apply in_seq. lia.
Qed.

(** ** Features the node understands *)

Lemma foldM_setOptional (fs : list Feature) : forall f0 : buffer,
  exists f1, foldM (fun flags f => setOptional flags (Feature_bit f)) f0 fs = Ok f1 /\
    forall b, hasBit f1 b = existsb (fun f => b =? Feature_bit f + 1) fs || hasBit f0 b.
Proof.
  induction fs as [|x fs IH]; intros f0; [by exists f0|].
  destruct (setBit_spec f0 (Feature_bit x + 1)) as (f1 & He & Hb); [by destruct x|].
  destruct (IH f1) as (f2 & H2 & Hb2). exists f2. split.
  - cbn [foldM]. change (setOptional f0 (Feature_bit x)) with (setBit f0 (Feature_bit x + 1)).
    by rewrite He, bind_Ok.
  - intros b. rewrite Hb2, Hb. cbn [existsb]. by rewrite orb_assoc, (orb_comm (existsb _ _)).
Qed.

(** A peer's required feature is understood when this node advertises it, or
    implements it; concurrent receive must be advertised. *)
Definition understands (local : FeatureFlags) (bit : Z) : bool :=
  hasFeature local bit ||
  (negb (bit =? Feature_bit OPTION_FF_CONCURRENT) &&
   existsb (fun f => bit =? Feature_bit f) implemented_list).

Lemma implemented_even b : Z.Even b ->
  existsb (fun f => b =? Feature_bit f + 1) implemented_list = false.
Proof.
  intros [k ->]. unfold implemented_list. cbn [existsb Feature_bit].
  repeat match goal with |- context [2 * k =? ?n] =>
    rewrite (proj2 (Z.eqb_neq (2 * k) n)) by lia end. done.
Qed.

Lemma implemented_odd b :
  existsb (fun f => b + 1 =? Feature_bit f + 1) implemented_list =
  existsb (fun f => b =? Feature_bit f) implemented_list.
Proof.
  generalize implemented_list. intros fs. induction fs as [|f fs IH]; [done|]. cbn [existsb].
  rewrite IH. f_equal. destruct (Z.eqb_spec b (Feature_bit f)), (Z.eqb_spec (b + 1) (Feature_bit f + 1));
    lia || done.
Qed.

Lemma unsupported_bits (local remote : buffer) :
  exists bits, hasUnsupportedRequiredFeatures local remote = Ok bits /\
    forall bit, In bit bits <->
      Z.Even bit /\ 0 <= bit /\ hasBit remote bit = true /\ understands local bit = false.
Proof.
  unfold hasUnsupportedRequiredFeatures, implementedFeatures.
  destruct (foldM_setOptional implemented_list empty) as (imp & -> & Himp). rewrite bind_Ok.
  eexists. split; [done|]. intros bit. rewrite filter_In.
  destruct (maxBit_spec remote) as (M1 & M2 & M3). rewrite even_bits_in by done.
  assert (Hemp : forall b, hasBit empty b = false).
  { intros b. destruct (decide (0 <= b)); [apply hasBit_past; change (blen empty) with 0; lia|].
    apply hasBit_neg. lia. }
  assert (Hu : Z.Even bit ->
    (if (bit =? Feature_bit OPTION_FF_CONCURRENT) && negb (hasFeature local bit) then true
     else negb (hasBit local bit) && negb (hasBit local (bit + 1)) && negb (hasBit imp bit) &&
          negb (hasBit imp (bit + 1))) = negb (understands local bit)).
  { intros He. rewrite !Himp, !Hemp, implemented_even, implemented_odd, !orb_false_r by done.
    unfold understands, hasFeature.
    destruct (bit =? _), (hasBit local bit), (hasBit local (bit + 1)), (existsb _ _); done. }
  rewrite andb_true_iff. split.
  - intros [[He Hb] [Hr Hx]]. rewrite Hu in Hx by done. apply negb_true_iff in Hx. tauto.
  - intros (He & Hb & Hr & Hx). rewrite Hu, Hx by done.
    pose proof (M3 bit Hr). split; [split; [done|lia]|done].
Qed.

(** ** Theorems *)

(** setting a bit adds exactly that bit to the set, and
    clearing one removes exactly that bit, whatever the buffer's length. *)
Theorem feature_bits_set f bit (Hbit : 0 <= bit) :
  exists f', setBit f bit = Ok f' /\
    (forall b, hasBit f' b = (b =? bit) || hasBit f b) /\
    (forall b, hasBit (clearBit f bit) b = negb (b =? bit) && hasBit f b).
Proof.
  destruct (setBit_spec f bit Hbit) as (f' & H1 & H2). exists f'.
  split; [done|]. split; [done|]. intros. by apply clearBit_spec.
Qed.

Lemma feature_bits_set_witness :
  exists f', setBit empty 181 = Ok f' /\
    (forall b, hasBit f' b = (b =? 181) || hasBit empty b) /\
    (forall b, hasBit (clearBit empty 181) b = negb (b =? 181) && hasBit empty b).
Proof. apply (feature_bits_set empty 181). lia. Defined.

(** The serialisation is the canonical form of the set
    of bits: two flag objects serialise to the same bytes exactly when they have
    the same bits, reading the bytes back gives the set again, and no shorter
    buffer holds it. *)
Theorem toBuffer_canonical f g :
  (toBuffer f = toBuffer g <-> same_bits f g) /\
  same_bits (fromBuffer (toBuffer f)) f /\ (same_bits f g -> blen (toBuffer f) <= blen g).
Proof.
  split_and!.
  - split.
    + intros H. rewrite <- (toBuffer_same f), H. apply toBuffer_same.
    + intros H. apply same_bits_eq; [by rewrite !toBuffer_len, H|]. by rewrite !toBuffer_same.
  - apply toBuffer_same.
  - intros H. rewrite toBuffer_len, H. destruct (maxBit_spec g) as (M1 & M2 & _).
    pose proof (blen_nonneg g). destruct (decide (0 <= maxBit g)).
    + destruct (decide (maxBit g < blen g * 8));
        [|by rewrite hasBit_past in M2 by lia; specialize (M2 ltac:(lia))].
      pose proof (Z.div_lt_upper_bound (maxBit g) 8 (blen g)). lia.
    + replace (maxBit g) with (-1) by lia. change (-1 / 8 + 1) with 0. lia.
Qed.

(** The list on which the node disconnects a peer
    names exactly the even bits the peer sets and this node does not understand;
    it is empty exactly when there is none. *)
Theorem unsupported_features_exact local remote :
  exists bits, hasUnsupportedRequiredFeatures local remote = Ok bits /\
    (forall bit, In bit bits <->
      Z.Even bit /\ 0 <= bit /\ hasBit remote bit = true /\ understands local bit = false) /\
    (bits = [] <-> forall bit, Z.Even bit -> 0 <= bit -> hasBit remote bit = true ->
       understands local bit = true).
Proof.
  destruct (unsupported_bits local remote) as (bits & He & Hin). exists bits.
  split; [done|]. split; [done|]. split.
  - intros -> bit H1 H2 H3. destruct (understands local bit) eqn:E; [done|].
    destruct (proj2 (Hin bit) (conj H1 (conj H2 (conj H3 E)))).
  - intros H. destruct bits as [|b bits]; [done|]. exfalso.
    destruct (proj1 (Hin b) (or_introl eq_refl)) as (H1 & H2 & H3 & H4).
    by rewrite (H b H1 H2 H3) in H4.
Qed.

(** the listing is sorted and holds exactly the bits that
    are set; the highest of them is [maxBit]. *)
Theorem listSetBits_exact f :
  (forall b, In b (listSetBits f) <-> 0 <= b /\ hasBit f b = true) /\
  Sorted.LocallySorted (fun x y => Datatypes.is_true (x <=? y)) (listSetBits f) /\
  (forall b, In b (listSetBits f) -> b <= maxBit f) /\
  (maxBit f <> -1 -> In (maxBit f) (listSetBits f)).
Proof.
  destruct (maxBit_spec f) as (M1 & M2 & M3). split_and!.
  - intros b. apply listSetBits_in.
  - apply ZSort.LocallySorted_sort.
  - intros b [_ Hb]%listSetBits_in. by apply M3.
  - intros H. apply listSetBits_in. split; [lia|]. apply M2. lia.
Qed.
