(* ===== verification/WireInit.v ===== *)
(** * The init message (src/src/lightning/message/init.ts)

    The features are those of Features.v.  The legacy global features of an old
    peer are merged into its features, right-aligned. *)

From S2P Require Import Prelude Buffer Codec Tlv Wire Features.
From Stdlib Require Import Strings.Byte.

Definition INIT_TLV_NETWORKS := 1.
Definition INIT_TLV_TYPES := [INIT_TLV_NETWORKS].

Record IInitMessage := { in_features : FeatureFlags; in_networks : option (list buffer) }.

Definition encodeInitMessage (msg : IInitMessage) : result buffer :=
  let featureBuf := toBuffer (in_features msg) in
  gflen ← writeUInt16BE (alloc 2) 0 0;
  flen ← writeUInt16BE (alloc 2) (blen featureBuf) 0;
  let parts := gflen ++ flen ++ featureBuf in
  let tlvRecords :=
    match in_networks msg with
    | Some (n :: ns) => [{| tlv_type := INIT_TLV_NETWORKS; tlv_value := concat (n :: ns) |}]
    | _ => []
    end in
  if 0 <? Z.of_nat (length tlvRecords) then tlvs ← encodeTlvStream tlvRecords; Ok (parts ++ tlvs)
  else Ok parts.

(** [for (i ...) merged[gfOffset + i] |= globalFeatures[i]] *)
Fixpoint or_bytes (merged : buffer) (off : Z) (globals : list byte) : buffer :=
  match globals with
  | [] => merged
  | g :: gs =>
      or_bytes (set_byte merged off (Z.lor (byte_at merged off) (Z_of_byte g))) (off + 1) gs
  end.

(** [for (let i = 0; i < value.length; i += 32)], at most one round per byte. *)
Fixpoint chunks (fuel : nat) (value : buffer) : list buffer :=
  match fuel, value with
  | S fuel, _ :: _ => subarray value 0 32 :: chunks fuel (drop 32 value)
  | _, _ => []
  end.

Definition init_tlv (acc : option (list buffer)) (record : ITlvRecord)
    : result (option (list buffer)) :=
  if tlv_type record =? INIT_TLV_NETWORKS
  then Ok (Some (chunks (length (tlv_value record)) (tlv_value record)))
  else Ok acc.

Definition decodeInitMessage (payload : buffer) : result IInitMessage :=
  _ ← throw_if (blen payload <? 4) "Init message too short: need at least 4 bytes";
  gflen ← readUInt16BE payload 0;
  let offset := 2 in
  _ ← throw_if (blen payload <? offset + gflen) "Init: globalfeatures length exceeds payload";
  let globalFeatures := subarray payload offset (offset + gflen) in
  let offset := offset + gflen in
  _ ← throw_if (blen payload <? offset + 2) "Init: missing features length";
  flen ← readUInt16BE payload offset;
  let offset := offset + 2 in
  _ ← throw_if (blen payload <? offset + flen) "Init: features length exceeds payload";
  let featuresBuf := subarray payload offset (offset + flen) in
  let offset := offset + flen in
  let mergedLen := Z.max (blen globalFeatures) (blen featuresBuf) in
  let merged := copy featuresBuf (alloc mergedLen) (mergedLen - blen featuresBuf) in
  let gfOffset := mergedLen - blen globalFeatures in
  let features := fromBuffer (or_bytes merged gfOffset globalFeatures) in
  networks ← (if offset <? blen payload then
                res ← decodeTlvStream payload offset (Some INIT_TLV_TYPES);
                foldM init_tlv None (records res)
              else Ok None);
  Ok {| in_features := features; in_networks := networks |}.

(** ** Merging *)

Lemma blen_set_byte b i v : blen (set_byte b i v) = blen b.
Proof. unfold set_byte, blen. by rewrite length_insert. Qed.

(** After the loop the bits are those of both buffers. *)
Lemma or_bytes_spec gs : forall (m : buffer) off b,
  0 <= off -> off + blen gs = blen m -> 0 <= b ->
  hasBit (or_bytes m off gs) b = hasBit m b || hasBit gs b.
Proof.
  induction gs as [|g gs IH]; intros m off b Hoff Hlen Hb; cbn [or_bytes].
  - rewrite (hasBit_past []), orb_false_r; [done|]. change (blen []) with 0. lia.
  - rewrite blen_cons in Hlen. pose proof (blen_nonneg gs).
    rewrite IH by (rewrite ?blen_set_byte; lia).
    assert (Hj : off = blen m - 1 - (blen gs * 8) / 8) by (rewrite Z.div_mul; lia).
    rewrite Hj at 1. rewrite hasBit_set_byte by (rewrite ?Z.div_mul; lia).
    rewrite hasBit_cons, Z.div_mul by lia. pose proof (Z.mod_pos_bound b 8 ltac:(lia)).
    destruct (Z.eqb_spec (b / 8) (blen gs)) as [E|E]; [|done].
    rewrite mod256_bit, Z.lor_spec by lia.
    rewrite (hasBit_byte m (blen gs * 8) b) by (rewrite ?Z.div_mul; lia).
    rewrite <- Hj, (hasBit_past gs); [by rewrite orb_false_r|].
    pose proof (Z.div_mod b 8 ltac:(lia)). lia.
Qed.

Definition merge (gf f : buffer) : buffer :=
  let n := Z.max (blen gf) (blen f) in
  or_bytes (copy f (alloc n) (n - blen f)) (n - blen gf) gf.

Lemma merge_spec gf f b : hasBit (merge gf f) b = hasBit gf b || hasBit f b.
Proof.
  unfold merge. pose proof (blen_nonneg gf). pose proof (blen_nonneg f).
  destruct (decide (0 <= b)) as [Hb|Hb]; [|by rewrite !hasBit_neg by lia].
  rewrite copy_pad by lia. rewrite or_bytes_spec; [|lia| |done].
  - by rewrite hasBit_pad, orb_comm.
  - rewrite blen_app. unfold blen in *. rewrite length_replicate. lia.
Qed.

Lemma merge_nil f : merge [] f = f.
Proof.
  unfold merge. pose proof (blen_nonneg f). change (blen []) with 0.
  rewrite Z.max_r, copy_pad, Z.sub_diag by lia. done.
Qed.

(** ** Networks *)

Lemma chunks_concat ns : forall fuel,
  Forall (fun n => blen n = 32) ns -> (length (concat ns) <= fuel)%nat ->
  chunks fuel (concat ns) = ns.
Proof.
  induction ns as [|n ns IH]; intros fuel Hf Hl; [by destruct fuel|].
  apply Forall_cons in Hf as [Hn Hf]. unfold blen in Hn. cbn [concat] in *.
  rewrite length_app in Hl. destruct fuel as [|fuel]; [lia|].
  destruct n as [|x n]; [simpl in Hn; lia|]. cbn [chunks app].
  f_equal.
  - change (x :: n ++ concat ns) with ((x :: n) ++ concat ns). apply subarray_hd; unfold blen; lia.
  - change (x :: n ++ concat ns) with ((x :: n) ++ concat ns).
    rewrite drop_app_length' by lia. apply IH; [done|lia].
Qed.

(** ** Round trip *)

Definition init_wf (m : IInitMessage) : Prop :=
  blen (toBuffer (in_features m)) < 2 ^ 16 /\
  match in_networks m with
  | Some ns => ns <> [] /\ Forall (fun n => blen n = 32) ns /\ blen (concat ns) < 2 ^ 64
  | None => True
  end.

Definition init_tlvs (m : IInitMessage) : list ITlvRecord :=
  opt_tlv INIT_TLV_NETWORKS (@concat byte <$> in_networks m).

Lemma init_tlvs_ok m : init_wf m ->
  tlvs_ok INIT_TLV_TYPES (init_tlvs m) /\ foldM init_tlv None (init_tlvs m) = Ok (in_networks m).
Proof.
  intros [_ H]. unfold init_tlvs. destruct (in_networks m) as [ns|]; simpl in *; [|split; [tlv_side|done]].
  destruct H as (Hne & Hf & Hl). split; [tlv_side|]. unfold init_tlv. simpl.
  by rewrite chunks_concat.
Qed.

(** A payload as a peer sends it, with legacy global features. *)
Definition init_bytes (gf f : buffer) (tlvs : list ITlvRecord) : buffer :=
  be 2 (blen gf) ++ gf ++ be 2 (blen f) ++ f ++ stream_bytes tlvs.

Lemma decode_init gf f tlvs networks :
  blen gf < 2 ^ 16 -> blen f < 2 ^ 16 -> tlvs_ok INIT_TLV_TYPES tlvs ->
  foldM init_tlv None tlvs = Ok networks ->
  decodeInitMessage (init_bytes gf f tlvs) =
    Ok {| in_features := merge gf f; in_networks := networks |}.
Proof.
  intros Hg Hf Ht Hn. unfold decodeInitMessage, init_bytes.
  pose proof (blen_nonneg gf). pose proof (blen_nonneg f). pose proof (blen_nonneg (stream_bytes tlvs)).
  pass_guard. rd.
  rewrite (tlv_tail_at (be 2 (blen gf) ++ gf ++ be 2 (blen f) ++ f) _ tlvs);
    [by rewrite Hn | by rewrite <- !app_assoc | blia | done].
Qed.

(** The init a node sends is read back with the same set of
    features and the same list of networks. *)
Theorem init_roundtrip m (Hwf : init_wf m) :
  exists b m', encodeInitMessage m = Ok b /\ decodeInitMessage b = Ok m' /\
    same_bits (in_features m') (in_features m) /\ in_networks m' = in_networks m.
Proof.
  destruct (init_tlvs_ok m Hwf) as [Ht Hf].
  exists (init_bytes [] (toBuffer (in_features m)) (init_tlvs m)). eexists.
  split; [|split; [apply decode_init; [done|apply Hwf|done|done]|]].
  - unfold encodeInitMessage, init_bytes. destruct Hwf as [Hl Hn].
    pose proof (blen_nonneg (toBuffer (in_features m))). change (blen []) with 0. enc.
    unfold init_tlvs in *. destruct (in_networks m) as [[|n ns]|]; [by destruct Hn| |].
    + closed_ifs. destruct Ht as (H1 & H2 & _).
      rewrite (encodeTlvStream_bytes (-1)), bind_Ok by (exact H1 || exact H2).
      by rewrite <- !app_assoc.
    + closed_ifs. cbn [fmap option_fmap option_map opt_tlv].
      by rewrite stream_bytes_nil, app_nil_r.
  - split; [|done]. cbn [in_features]. rewrite merge_nil. apply toBuffer_same.
Qed.

(** A peer that still splits its features over the two
    fields is taken to have the union of both. *)
Theorem init_merges_global gf f
    (Hg : blen gf < 2 ^ 16) (Hf : blen f < 2 ^ 16) :
  exists m, decodeInitMessage (init_bytes gf f []) = Ok m /\
    forall b, hasBit (in_features m) b = hasBit gf b || hasBit f b.
Proof.
  eexists. split; [apply decode_init; [done|done|tlv_side|done]|].
  intros b. apply merge_spec.
Qed.

Definition sample_init : IInitMessage :=
  {| in_features := [x00; x28; xa2]; in_networks := Some [alloc 32] |}.

Lemma init_roundtrip_witness :
  exists b m', encodeInitMessage sample_init = Ok b /\ decodeInitMessage b = Ok m' /\
    same_bits (in_features m') (in_features sample_init) /\
    in_networks m' = in_networks sample_init.
Proof.
  apply (init_roundtrip sample_init).
  split; [reflexivity|]. split; [done|]. split; [by repeat constructor | reflexivity].
Defined.

Lemma init_merges_global_witness :
  exists m, decodeInitMessage (init_bytes [x22; x00] [x08; xa2; x01] []) = Ok m /\
    forall b, hasBit (in_features m) b = hasBit [x22; x00] b || hasBit [x08; xa2; x01] b.
Proof. apply (init_merges_global [x22; x00] [x08; xa2; x01]); reflexivity. Defined.
