(* ===== verification/ShaChain.v ===== *)
(** * Per-commitment secrets (src/src/lightning/keys/shachain.ts)

    [generateFromSeed] derives a node's own secrets; [ShaChainStore] keeps the
    secrets a peer reveals, in at most 48 entries.  The hash function comes from
    src/src/lightning/crypto/provider.ts, which wraps a library: it is the
    parameter [sha256], with 32-byte digests as the only assumption.

    The store is proved correct against the plain specification "remember every
    revealed secret": after any sequence of accepted secrets it returns exactly
    the secret that was revealed at an index, and nothing for an index not yet
    reached.  The secrets are the peer's, so nothing is assumed about how they
    were made: that an accepted secret agrees with the earlier ones is a
    consequence of the check in [addSecret]. *)

From S2P Require Import Prelude Buffer.
From Stdlib Require Import Strings.Byte Znumtheory.

Definition MAX_INDEX : Z := 0xffffffffffff.
Definition INDEX_BITS : Z := 48.

(** [(index >> BigInt(bit)) & 1n] *)
Definition bit_of (index bit : Z) : Z := Z.land (Z.shiftr index bit) 1.

(** [for (let bit = INDEX_BITS - 1; bit >= 0; bit--)] *)
Definition bits_desc : list Z := map Z.of_nat (rev (seq 0 (Z.to_nat INDEX_BITS))).

(** [secret[byteIndex] ^= 1 << bitIndex] *)
Definition flip_bit (secret : buffer) (bit : Z) : buffer :=
  let byteIndex := bit / 8 in
  let bitIndex := bit mod 8 in
  set_byte secret byteIndex (Z.lxor (byte_at secret byteIndex) (Z.shiftl 1 bitIndex)).

Definition canDerive (fromIndex toIndex : Z) : bool :=
  forallb (fun bit => negb ((bit_of fromIndex bit =? 1) && (bit_of toIndex bit =? 0))) bits_desc.

Record IShaChainEntry := { index : Z; secret : buffer }.

Record ShaChainStore := { entries : list IShaChainEntry; knownCount : Z }.

Definition new_store : ShaChainStore := {| entries := []; knownCount := 0 |}.

Section Hash.

Context (sha256 : buffer -> buffer).

Definition generateFromSeed (seed : buffer) (index : Z) : result buffer :=
  _ ← throw_if (negb (blen seed =? 32)) "Seed must be 32 bytes";
  _ ← throw_if ((index <? 0) || (MAX_INDEX <? index)) "Index out of range";
  Ok (fold_left (fun secret bit =>
        if bit_of index bit =? 0 then secret else sha256 (flip_bit secret bit))
      bits_desc seed).

(** channel-helpers.ts: commitment [n] uses index MAX_INDEX - n. *)
Definition getPerCommitmentSecret (seed : buffer) (commitmentNumber : Z) : result buffer :=
  generateFromSeed seed (MAX_INDEX - commitmentNumber).

Definition deriveChild (parent : buffer) (fromIndex toIndex : Z) : buffer :=
  fold_left (fun secret bit =>
      if (bit_of fromIndex bit =? 0) && (bit_of toIndex bit =? 1)
      then sha256 (flip_bit secret bit) else secret)
    bits_desc parent.

(** The stored entry contradicts the new secret. *)
Definition conflicts (idx : Z) (sec : buffer) (entry : IShaChainEntry) : bool :=
  canDerive idx (index entry) &&
  negb (buf_equals (deriveChild sec idx (index entry)) (secret entry)).

Definition addSecret (st : ShaChainStore) (idx : Z) (sec : buffer)
    : result (ShaChainStore * bool) :=
  _ ← throw_if (negb (blen sec =? 32)) "Secret must be 32 bytes";
  if existsb (conflicts idx sec) (entries st) then Ok (st, false)
  else
    let kept := List.filter (fun entry => negb (canDerive idx (index entry))) (entries st) in
    Ok ({| entries := kept ++ [{| index := idx; secret := sec |}];
           knownCount := knownCount st + 1 |}, true).

Definition getSecret (st : ShaChainStore) (idx : Z) : option buffer :=
  match List.find (fun entry => canDerive (index entry) idx) (entries st) with
  | Some entry => Some (deriveChild (secret entry) (index entry) idx)
  | None => None
  end.

Definition getEntryCount (st : ShaChainStore) : Z := Z.of_nat (length (entries st)).
Definition getKnownCount (st : ShaChainStore) : Z := knownCount st.
Definition getEntries (st : ShaChainStore) : list IShaChainEntry := entries st.
Definition restore (es : list IShaChainEntry) (count : Z) : ShaChainStore :=
  {| entries := es; knownCount := count |}.

(** ** Bits *)

Lemma bit_of_testbit i b : 0 <= b -> bit_of i b = Z.b2z (Z.testbit i b).
Proof.
  intros H. unfold bit_of. apply Z.bits_inj'. intros n Hn.
  rewrite Z.land_spec, Z.shiftr_spec by lia. change 1 with (Z.ones 1) at 1.
  destruct (Z.eq_dec n 0) as [->|].
  - rewrite Z.b2z_bit0, Z.add_0_l, Z.ones_spec_low by lia. apply andb_true_r.
  - rewrite Z.ones_spec_high by lia. rewrite andb_false_r. symmetry.
    destruct (Z.testbit i b); [apply Z.bits_above_log2; simpl; lia | apply Z.bits_0].
Qed.

Lemma bits_desc_in b : In b bits_desc <-> 0 <= b < INDEX_BITS.
Proof.
  unfold bits_desc, INDEX_BITS. rewrite in_map_iff. split.
  - intros (n & <- & Hn). apply in_rev, in_seq in Hn. lia.
  - intros H. exists (Z.to_nat b). split; [lia|]. apply -> in_rev. apply in_seq. lia.
Qed.

Definition bits_from (n : nat) (k : nat) : list Z := map Z.of_nat (rev (seq k n)).

(** The loop over all bits is a loop over the high ones, then over the low ones. *)
Lemma bits_desc_split (k : nat) :
  (k <= 48)%nat -> bits_desc = bits_from (48 - k) k ++ bits_from k 0.
Proof.
  intros H. unfold bits_desc, bits_from, INDEX_BITS. change (Z.to_nat 48) with 48%nat.
  replace 48%nat with (k + (48 - k))%nat at 1 by lia.
  by rewrite seq_app, rev_app_distr, map_app.
Qed.

Lemma bits_from_in b n k : In b (bits_from n k) -> Z.of_nat k <= b < Z.of_nat (k + n).
Proof. unfold bits_from. rewrite in_map_iff. intros (x & <- & Hx). apply in_rev, in_seq in Hx. lia. Qed.

Lemma canDerive_spec i j :
  canDerive i j = true <-> forall b, 0 <= b < 48 -> Z.testbit i b = true -> Z.testbit j b = true.
Proof.
  unfold canDerive. rewrite forallb_forall. split.
  - intros H b Hb Hi. specialize (H b (proj2 (bits_desc_in b) Hb)).
    rewrite !bit_of_testbit, Hi in H by lia. by destruct (Z.testbit j b).
  - intros H b Hb%bits_desc_in. unfold INDEX_BITS in Hb. specialize (H b Hb).
    rewrite !bit_of_testbit by lia. destruct (Z.testbit i b); [by rewrite H|done].
Qed.

Lemma testbit_high i b : 0 <= i < 2 ^ 48 -> 48 <= b -> Z.testbit i b = false.
Proof.
  intros Hi Hb. destruct (Z.eq_dec i 0) as [->|]; [apply Z.bits_0|].
  apply Z.bits_above_log2; [lia|]. apply Z.log2_lt_pow2; [lia|].
  pose proof (Z.pow_le_mono_r 2 48 b). lia.
Qed.

Lemma canDerive_le i j : 0 <= i < 2 ^ 48 -> 0 <= j -> canDerive i j = true -> i <= j.
Proof.
  intros Hi Hj H. rewrite canDerive_spec in H. apply Z.ldiff_le; [done|].
  apply Z.bits_inj'. intros b Hb. rewrite Z.ldiff_spec, Z.bits_0.
  destruct (decide (b < 48)); [|by rewrite (testbit_high i b) by lia].
  specialize (H b). destruct (Z.testbit i b); [by rewrite H|done].
Qed.

(** Above the alignment of a block, its members have the bits of its start. *)
Lemma block_high e k z b :
  0 <= z -> (2 ^ z | e) -> e <= k < e + 2 ^ z -> z <= b -> Z.testbit k b = Z.testbit e b.
Proof.
  intros Hz [q ->] Hk Hb. assert (Hd : k / 2 ^ z = q).
  { symmetry. apply Z.div_unique with (k - q * 2 ^ z); lia. }
  replace b with ((b - z) + z) by lia.
  rewrite <- !Z.div_pow2_bits, Hd, Z.div_mul by lia. done.
Qed.

Lemma block_low e z b : (2 ^ z | e) -> 0 <= b < z -> Z.testbit e b = false.
Proof. intros [q ->] Hb. apply Z.mul_pow2_bits_low. lia. Qed.

Lemma canDerive_block e k z :
  0 <= z -> (2 ^ z | e) -> e <= k < e + 2 ^ z -> canDerive e k = true.
Proof.
  intros Hz He Hk. apply canDerive_spec. intros b Hb Ht.
  destruct (decide (b < z)); [by rewrite (block_low e z b) in Ht by (done || lia)|].
  by rewrite (block_high e k z b) by (done || lia).
Qed.

Lemma odd_bit q z : 0 <= z -> Z.testbit ((2 * q + 1) * 2 ^ z) z = true.
Proof.
  intros Hz. rewrite Z.mul_pow2_bits, Z.sub_diag by lia. apply Z.testbit_odd_0.
Qed.

Lemma canDerive_odd q z e :
  0 <= z < 48 -> (2 ^ (z + 1) | e) -> canDerive ((2 * q + 1) * 2 ^ z) e = false.
Proof.
  intros Hz He. apply not_true_is_false. intros H. rewrite canDerive_spec in H.
  specialize (H z Hz (odd_bit q z ltac:(lia))).
  by rewrite (block_low e (z + 1) z) in H by (done || lia).
Qed.

(** ** Derivation composes along a block *)

Definition derive_step (i j : Z) (s : buffer) (b : Z) : buffer :=
  if (bit_of i b =? 0) && (bit_of j b =? 1) then sha256 (flip_bit s b) else s.

Lemma derive_steps_ext i j i' j' bs s :
  (forall b, In b bs -> 0 <= b /\
     (negb (Z.testbit i b) && Z.testbit j b) = (negb (Z.testbit i' b) && Z.testbit j' b)) ->
  fold_left (derive_step i j) bs s = fold_left (derive_step i' j') bs s.
Proof.
  revert s. induction bs as [|b bs IH]; intros s H; [done|]. simpl.
  rewrite IH by (intros; apply H; by right). f_equal.
  destruct (H b (or_introl eq_refl)) as [Hb He]. unfold derive_step.
  rewrite !bit_of_testbit by done.
  by destruct (Z.testbit i b), (Z.testbit j b), (Z.testbit i' b), (Z.testbit j' b).
Qed.

Lemma derive_steps_id i j bs s :
  (forall b, In b bs -> 0 <= b /\ negb (Z.testbit i b) && Z.testbit j b = false) ->
  fold_left (derive_step i j) bs s = s.
Proof.
  intros H. rewrite (derive_steps_ext i j 0 0).
  - clear H. induction bs as [|b bs IH]; [done|]. simpl.
    replace (derive_step 0 0 s b) with s; [done|]. unfold derive_step, bit_of.
    by rewrite Z.shiftr_0_l.
  - intros b Hb. destruct (H b Hb) as [? ->]. by rewrite Z.bits_0.
Qed.

Lemma deriveChild_same s i : deriveChild s i i = s.
Proof.
  apply derive_steps_id. intros b Hb%bits_desc_in. split; [lia|].
  by destruct (Z.testbit i b).
Qed.

(** [i] and [e] agree below [2 ^ k], [k] and the members of its block above. *)
Lemma deriveChild_comp s i e j (k : nat) :
  (k <= 48)%nat -> (2 ^ Z.of_nat k | i) -> (2 ^ Z.of_nat k | e) ->
  e <= j < e + 2 ^ Z.of_nat k ->
  deriveChild (deriveChild s i e) e j = deriveChild s i j.
Proof.
  intros Hk Hi He Hj. unfold deriveChild. fold (derive_step i e) (derive_step e j) (derive_step i j).
  rewrite (bits_desc_split k Hk), !fold_left_app.
  rewrite (derive_steps_id i e (bits_from k 0)).
  2: { intros b Hb%bits_from_in. rewrite (block_low e (Z.of_nat k) b) by (done || lia).
       rewrite andb_false_r. lia. }
  rewrite (derive_steps_id e j (bits_from (48 - k) k)).
  2: { intros b Hb%bits_from_in. rewrite (block_high e j (Z.of_nat k) b) by (done || lia).
       split; [lia | by destruct (Z.testbit e b)]. }
  rewrite (derive_steps_ext e j i j (bits_from k 0)).
  2: { intros b Hb%bits_from_in. split; [lia|].
       by rewrite (block_low e (Z.of_nat k) b), (block_low i (Z.of_nat k) b) by (done || lia). }
  f_equal. apply derive_steps_ext. intros b Hb%bits_from_in. split; [lia|].
  by rewrite (block_high e j (Z.of_nat k) b) by (done || lia).
Qed.

Lemma generate_steps bs seed i :
  (forall b, In b bs -> 0 <= b) ->
  fold_left (fun secret bit =>
    if bit_of i bit =? 0 then secret else sha256 (flip_bit secret bit)) bs seed =
  fold_left (derive_step 0 i) bs seed.
Proof.
  revert seed. induction bs as [|b bs IH]; intros s Hb; [done|]. cbn [fold_left].
  rewrite IH by (intros; apply Hb; by right). f_equal. specialize (Hb b (or_introl eq_refl)).
  unfold derive_step. rewrite !bit_of_testbit, Z.bits_0 by done. by destruct (Z.testbit i b).
Qed.

Lemma generate_derive seed i :
  blen seed = 32 -> 0 <= i <= MAX_INDEX -> generateFromSeed seed i = Ok (deriveChild seed 0 i).
Proof.
  intros Hs Hi. unfold generateFromSeed. rewrite Hs, throw_pass by done.
  rewrite throw_pass by (apply orb_false_iff; split; apply Z.ltb_ge; lia).
  unfold deriveChild. fold (derive_step 0 i). f_equal. apply generate_steps.
  intros b ?%bits_desc_in. lia.
Qed.

Lemma deriveChild_len s i j :
  (forall b, blen (sha256 b) = 32) -> blen s = 32 -> blen (deriveChild s i j) = 32.
Proof.
  intros Hsha. unfold deriveChild. generalize bits_desc. intros bs. revert s.
  induction bs as [|b bs IH]; intros s Hs; [done|]. cbn [fold_left]. apply IH.
  case_match; [apply Hsha | done].
Qed.

Local Opaque deriveChild canDerive.

(** ** The shape of the store

    Read from the newest entry to the oldest, the indices tile [I, 2^48): each
    entry covers the block its alignment allows, and the next one starts where
    that block ends. *)

Inductive tiling : Z -> list Z -> Prop :=
| tiling_top : tiling (2 ^ 48) []
| tiling_step z q es :
    0 <= z -> 0 <= q -> (2 * q + 1) * 2 ^ z < 2 ^ 48 ->
    tiling ((2 * q + 1) * 2 ^ z + 2 ^ z) es ->
    tiling ((2 * q + 1) * 2 ^ z) ((2 * q + 1) * 2 ^ z :: es)
| tiling_zero : tiling 0 [0].

Lemma odd_align w q z : 0 <= z -> 0 <= w -> (2 ^ w | (2 * q + 1) * 2 ^ z) -> w <= z.
Proof.
  intros Hz Hw H. destruct (decide (w <= z)); [done|]. exfalso.
  pose proof (odd_bit q z Hz) as Hb. by rewrite (block_low _ w z) in Hb by (done || lia).
Qed.

Lemma pow2_divide a b : 0 <= a <= b -> (2 ^ a | 2 ^ b).
Proof.
  intros H. exists (2 ^ (b - a)). rewrite <- Z.pow_add_r by lia. f_equal. lia.
Qed.

Lemma odd_next q z : 0 <= z -> (2 * q + 1) * 2 ^ z + 2 ^ z = (q + 1) * 2 ^ (z + 1).
Proof. intros H. rewrite Z.pow_add_r by lia. lia. Qed.

Lemma pow2_decomp i :
  0 <= i < 2 ^ 48 -> i = 0 \/ exists z q, 0 <= z < 48 /\ 0 <= q /\ i = (2 * q + 1) * 2 ^ z.
Proof.
  intros Hi. destruct (Z.eq_dec i 0) as [->|Hn]; [by left|]. right.
  assert (Hp : 0 < i) by lia. revert Hp Hi. clear Hn.
  intros Hp [_ Hb]. revert Hb.
  assert (forall n, 0 <= n -> 0 < i < 2 ^ n ->
    exists z q, 0 <= z < n /\ 0 <= q /\ i = (2 * q + 1) * 2 ^ z) as Hgen; [|intros; apply Hgen; lia].
  clear. intros n Hn. revert i. pattern n. apply natlike_ind; [|clear n Hn; intros n Hn IH|done].
  - simpl. lia.
  - intros i Hi. rewrite Z.pow_succ_r in Hi by lia. destruct (Z.Even_or_Odd i) as [[h ->]|[h ->]].
    + destruct (IH h) as (z & q & Hz & Hq & ->); [lia|]. exists (Z.succ z), q.
      rewrite Z.pow_succ_r by lia. split; [lia|]. split; [done|]. lia.
    + exists 0, h. rewrite Z.pow_0_r. lia.
Qed.

Lemma tiling_aligned j es w :
  tiling j es -> 0 <= w <= 48 -> 0 < j -> (2 ^ w | j) -> Forall (fun e => (2 ^ w | e)) es.
Proof.
  intros Ht Hw. induction Ht as [|z q es Hz Hq Hlt Ht IH|]; intros Hj Hd; [done| |lia].
  apply Forall_cons. split; [done|]. apply IH; [lia|].
  apply Z.divide_add_r; [done|]. apply pow2_divide. apply odd_align in Hd; lia.
Qed.

Lemma tiling_ge j es : tiling j es -> 0 <= j -> Forall (fun e => j <= e < 2 ^ 48) es.
Proof.
  induction 1 as [|z q es Hz Hq Hlt Ht IH|]; intros Hj; [done| |by repeat constructor].
  pose proof (Z.pow_pos_nonneg 2 z ltac:(lia) Hz).
  apply Forall_cons. split; [lia|]. eapply Forall_impl; [apply IH; lia|]. simpl. lia.
Qed.

Lemma tiling_length j es w :
  tiling j es -> 0 <= w <= 48 -> 0 < j -> (2 ^ w | j) -> Z.of_nat (length es) <= 48 - w.
Proof.
  intros Ht. revert w. induction Ht as [|z q es Hz Hq Hlt Ht IH|]; intros w Hw Hj Hd;
    [simpl; lia| |lia].
  apply odd_align in Hd; [|lia..].
  assert (z < 48).
  { destruct (decide (z < 48)); [done|]. pose proof (Z.pow_le_mono_r 2 48 z ltac:(lia) ltac:(lia)). nia. }
  assert (Hnext : Z.of_nat (length es) <= 48 - (z + 1)).
  { apply IH; [lia|lia|]. rewrite odd_next by lia. by exists (q + 1). }
  cbn [length]. lia.
Qed.

Lemma tiling_bottom i es : tiling i es -> i = 0 -> es = [0].
Proof.
  destruct 1 as [|z q es Hz Hq _ _|]; [lia| |done].
  pose proof (Z.pow_pos_nonneg 2 z ltac:(lia) Hz). nia.
Qed.

(** The entries the block of a new index swallows come first; they are the
    index with one of its low zero bits set. *)
Lemma tiling_split (d : nat) : forall i k es,
  0 <= i -> 0 <= k -> (2 ^ (k + Z.of_nat d) | i) -> i + 2 ^ (k + Z.of_nat d) <= 2 ^ 48 ->
  tiling (i + 2 ^ k) es ->
  exists es1 es2, es = es1 ++ es2 /\ tiling (i + 2 ^ (k + Z.of_nat d)) es2 /\
    (forall e, In e es1 -> exists x, k <= x < k + Z.of_nat d /\ e = i + 2 ^ x) /\
    (forall j, i + 2 ^ k <= j < i + 2 ^ (k + Z.of_nat d) -> exists x,
       k <= x < k + Z.of_nat d /\ In (i + 2 ^ x) es1 /\ i + 2 ^ x <= j < i + 2 ^ x + 2 ^ x).
Proof.
  induction d as [|d IH]; intros i k es Hi Hk Hdiv Htop Ht.
  - exists [], es. rewrite Z.add_0_r in *. split_and!; [done|done|done|lia].
  - pose proof (Z.pow_pos_nonneg 2 k ltac:(lia) Hk).
    assert (Hk1 : k + Z.of_nat (S d) = (k + 1) + Z.of_nat d) by lia. rewrite Hk1 in *.
    assert (Hp : 2 ^ (k + 1) = 2 ^ k + 2 ^ k) by (rewrite Z.pow_add_r by lia; lia).
    assert (Hlt : 2 ^ k < 2 ^ (k + 1 + Z.of_nat d)) by (apply Z.pow_lt_mono_r; lia).
    assert (Hodd : exists m, 0 <= m /\ i + 2 ^ k = (2 * m + 1) * 2 ^ k).
    { assert (Hpd : (2 ^ (k + 1) | 2 ^ (k + 1 + Z.of_nat d))) by (apply pow2_divide; lia).
      destruct (Z.divide_trans _ _ _ Hpd Hdiv) as [m Hm]. exists m. nia. }
    destruct Hodd as (m & Hm0 & Hm). inversion Ht as [Heq|z q es' Hz Hq Hz48 Ht' Heq|Heq];
      [lia| |lia].
    assert (z = k) as ->.
    { apply Z.le_antisymm; eapply odd_align; eauto;
        [rewrite <- Hm, <- Heq | rewrite Heq, Hm]; by eexists. }
    destruct (IH i (k + 1) es') as (es1 & es2 & -> & Ht2 & Hin & Hcov); [done|lia|done|done| |].
    { by rewrite Hp, Z.add_assoc, <- Heq. }
    exists ((2 * q + 1) * 2 ^ k :: es1), es2. split_and!; [done|done| |].
    + intros e [<-|He]; [exists k; lia|]. destruct (Hin e He) as (x & Hx & ->). exists x. lia.
    + intros j Hj. destruct (decide (j < i + 2 ^ k + 2 ^ k)).
      * exists k. split; [lia|]. split; [left; lia|lia].
      * destruct (Hcov j) as (x & Hx & Hxin & Hxj); [lia|]. exists x.
        split; [lia|]. split; [by right|done].
Qed.

(** What adding index [i] below a tiling does. *)
Record absorbs (i : Z) (es1 es2 : list Z) : Prop := {
  ab_tiling : tiling i (i :: es2);
  ab_gone : forall e, In e es1 ->
    exists w, 0 <= w <= 48 /\ (2 ^ w | i) /\ i <= e < i + 2 ^ w;
  ab_kept : forall e, In e es2 -> canDerive i e = false;
  ab_cover : forall j w, 0 <= w -> (2 ^ w | i) -> i < j < i + 2 ^ w -> j < 2 ^ 48 ->
    exists x, 0 <= x < 48 /\ (2 ^ x | i) /\ In (i + 2 ^ x) es1 /\
      i + 2 ^ x <= j < i + 2 ^ x + 2 ^ x
}.

Lemma tiling_absorb i es :
  0 <= i < 2 ^ 48 -> tiling (i + 1) es -> exists es1 es2, es = es1 ++ es2 /\ absorbs i es1 es2.
Proof.
  intros Hi Ht.
  assert (Hz : exists z, 0 <= z <= 48 /\ (2 ^ z | i) /\ i + 2 ^ z <= 2 ^ 48 /\
    (forall w, 0 <= w -> (2 ^ w | i) -> w <= z \/ 2 ^ 48 <= i + 2 ^ z) /\
    (forall es2, tiling (i + 2 ^ z) es2 ->
       tiling i (i :: es2) /\ forall e, In e es2 -> canDerive i e = false)).
  { destruct (pow2_decomp i Hi) as [->|(z & q & Hz & Hq & ->)].
    - exists 48. split_and!; [lia|lia|apply Z.divide_0_r|lia|by right|]. intros es2 Ht2.
      inversion Ht2 as [Heq|z q es' _ _ Hlt _ Heq|]; [|exfalso; lia].
      split; [constructor|done].
    - exists z. pose proof (Z.pow_pos_nonneg 2 z ltac:(lia) ltac:(lia)).
      assert (Hs : 2 ^ 48 = 2 ^ (48 - z - 1) * 2 * 2 ^ z).
      { replace 48 with ((48 - z - 1) + 1 + z) at 1 by lia. by rewrite !Z.pow_add_r by lia. }
      split_and!; [lia|lia|by eexists| nia | |].
      { intros w Hw Hd. left. eapply odd_align; eauto; lia. }
      intros es2 Ht2. split; [by constructor; try lia|]. intros e He.
      apply canDerive_odd; [lia|].
      eapply (List.Forall_forall (fun e => (2 ^ (z + 1) | e))); [|exact He].
      eapply tiling_aligned; [done|lia|lia|]. rewrite odd_next by lia. by eexists. }
  destruct Hz as (z & Hz & Hd & Htop & Hmax & Hnew).
  destruct (tiling_split (Z.to_nat z) i 0 es) as (es1 & es2 & -> & Ht2 & Hin & Hcov);
    rewrite ?Z.add_0_l, ?Z2Nat.id by lia; try done; try lia.
  rewrite Z.add_0_l, Z2Nat.id in * by lia. exists es1, es2. split; [done|].
  destruct (Hnew es2 Ht2) as [Hti Hkept]. constructor; [done| |done|].
  - intros e He. destruct (Hin e He) as (x & Hx & ->). exists z. split; [lia|]. split; [done|].
    pose proof (Z.pow_lt_mono_r 2 x z). pose proof (Z.pow_pos_nonneg 2 x). lia.
  - intros j w Hw Hwd Hj Hj48. assert (j < i + 2 ^ z).
    { destruct (Hmax w Hw Hwd) as [?|?]; [|lia]. pose proof (Z.pow_le_mono_r 2 w z). lia. }
    destruct (Hcov j) as (x & Hx & Hxin & Hxj); [lia|]. exists x. split; [lia|].
    split; [|done]. eapply Z.divide_trans; [apply (pow2_divide x z); lia | done].
Qed.

(** ** Reachable stores *)

(** The stores reached by offering secrets at MAX_INDEX, MAX_INDEX - 1, ...,
    with the secrets accepted so far; a rejected secret leaves the store. *)
Inductive accepted : list buffer -> ShaChainStore -> Prop :=
| accepted_new : accepted [] new_store
| accepted_add hist st sec st' :
    accepted hist st -> Z.of_nat (length hist) <= MAX_INDEX ->
    addSecret st (MAX_INDEX - Z.of_nat (length hist)) sec = Ok (st', true) ->
    accepted (hist ++ [sec]) st'.

Record store_inv (hist : list buffer) (st : ShaChainStore) : Prop := {
  si_tiling : tiling (2 ^ 48 - Z.of_nat (length hist)) (map index (rev (entries st)));
  si_secret : forall e j w, In e (entries st) -> 0 <= w -> (2 ^ w | index e) ->
    index e <= j < index e + 2 ^ w -> j < 2 ^ 48 ->
    hist !! Z.to_nat (MAX_INDEX - j) = Some (deriveChild (secret e) (index e) j);
  si_count : knownCount st = Z.of_nat (length hist)
}.

Lemma filter_all {A} (p : A -> bool) l : (forall x, In x l -> p x = true) -> List.filter p l = l.
Proof.
  induction l as [|x l IH]; intros H; [done|]. simpl. rewrite (H x) by (by left).
  f_equal. apply IH. intros y Hy. apply H. by right.
Qed.

Lemma filter_none {A} (p : A -> bool) l : (forall x, In x l -> p x = false) -> List.filter p l = [].
Proof.
  induction l as [|x l IH]; intros H; [done|]. simpl. rewrite (H x) by (by left).
  apply IH. intros y Hy. apply H. by right.
Qed.

Lemma addSecret_accepts st idx sec st' :
  addSecret st idx sec = Ok (st', true) ->
  (forall e, In e (entries st) -> canDerive idx (index e) = true ->
     deriveChild sec idx (index e) = secret e) /\
  st' = {| entries := List.filter (fun e => negb (canDerive idx (index e))) (entries st) ++
                        [{| index := idx; secret := sec |}];
           knownCount := knownCount st + 1 |}.
Proof.
  unfold addSecret. intros H. apply bind_Ok_inv in H as (? & _ & H).
  destruct (existsb _ _) eqn:E; [done|]. apply Ok_pair_inv in H as [<- _]. split; [|done].
  intros e He Hc. apply not_true_iff_false in E. apply dec_stable. intros Hne. apply E.
  apply existsb_exists. exists e. split; [done|]. unfold conflicts, buf_equals.
  by rewrite Hc, bool_decide_eq_false_2.
Qed.

Lemma addSecret_cases st idx sec :
  blen sec = 32 ->
  addSecret st idx sec = Ok (st, false) \/ exists st', addSecret st idx sec = Ok (st', true).
Proof.
  intros H. unfold addSecret. rewrite H, throw_pass by done.
  destruct (existsb _ _); [by left | right; by eexists].
Qed.

Lemma store_inv_add hist st sec st' :
  store_inv hist st -> Z.of_nat (length hist) <= MAX_INDEX ->
  addSecret st (MAX_INDEX - Z.of_nat (length hist)) sec = Ok (st', true) ->
  store_inv (hist ++ [sec]) st'.
Proof.
  intros [Ht Hs Hc] Hn Hadd. apply addSecret_accepts in Hadd as [Hval ->].
  unfold MAX_INDEX in *. set (i := 0xffffffffffff - Z.of_nat (length hist)) in *.
  replace (2 ^ 48 - Z.of_nat (length hist)) with (i + 1) in Ht by lia.
  destruct (tiling_absorb i _ ltac:(lia) Ht) as (es1 & es2 & Hes & [Hti Hgone Hkept Hcover]).
  apply map_eq_app in Hes as (r1 & r2 & Hr & <- & <-).
  assert (He : entries st = rev r2 ++ rev r1).
  { by rewrite <- rev_app_distr, <- Hr, rev_involutive. }
  assert (Hsub : forall e, In e r1 -> canDerive i (index e) = true).
  { intros e Hin%(in_map index). destruct (Hgone _ Hin) as (w & Hw & Hd & Hb).
    apply canDerive_block with w; [lia|done..]. }
  assert (Hf : List.filter (fun e => negb (canDerive i (index e))) (entries st) = rev r2).
  { rewrite He, List.filter_app, filter_all, filter_none, app_nil_r; [done| |];
      intros e Hin%in_rev; [by rewrite Hsub | by rewrite Hkept by (by apply in_map)]. }
  rewrite Hf. constructor; cbn [entries knownCount].
  - rewrite rev_app_distr, rev_involutive, length_app. cbn [app rev map index length].
    by replace (2 ^ 48 - Z.of_nat (length hist + 1)) with i by lia.
  - intros e j w Hin Hw Hd Hj Hj48. unfold MAX_INDEX.
    apply in_app_iff in Hin as [Hin|[<-|[]]].
    + assert (Hie : i + 1 <= index e).
      { pose proof (tiling_ge _ _ Ht ltac:(lia)) as Hge. rewrite List.Forall_forall in Hge.
        apply (Hge (index e)), in_map. rewrite Hr. apply in_app_iff. right. by apply in_rev. }
      rewrite lookup_app_l by lia. apply (Hs e j w); try done. rewrite He. apply in_app_iff. by left.
    + cbn [index secret] in *. destruct (decide (j = i)) as [->|].
      { rewrite deriveChild_same, lookup_app_r by lia.
        by replace (Z.to_nat _ - length hist)%nat with 0%nat by lia. }
      destruct (Hcover j w) as (x & Hx & Hxd & Hxin & Hxj); [done|done|lia|done|].
      apply in_map_iff in Hxin as (e & Hex & Hin).
      assert (Hine : In e (entries st)) by (rewrite He; apply in_app_iff; right; by apply -> in_rev).
      assert (Hxe : (2 ^ x | index e)) by (rewrite Hex; by apply Z.divide_add_r; [|exists 1; lia]).
      rewrite lookup_app_l by lia. rewrite (Hs e j x Hine); [|lia|done|lia|done].
      f_equal. rewrite <- (Hval e Hine) by (by apply Hsub).
      apply (deriveChild_comp sec i (index e) j (Z.to_nat x)); rewrite ?Z2Nat.id by lia; try done; lia.
  - rewrite Hc, length_app. simpl. lia.
Qed.

Lemma accepted_inv hist st : accepted hist st -> store_inv hist st.
Proof.
  induction 1 as [|hist st sec st' _ IH Hn Hadd]; [|by eapply store_inv_add].
  constructor; [apply tiling_top | done | done].
Qed.

(** Every index in a tiling has an entry whose block holds it, and the entries
    above that one start after the index. *)
Lemma tiling_owner i es j :
  tiling i es -> 0 <= i -> i <= j < 2 ^ 48 ->
  exists l1 e l2 w, es = l1 ++ e :: l2 /\ 0 <= w /\ (2 ^ w | e) /\ e <= j < e + 2 ^ w /\
    Forall (fun e' => j < e' < 2 ^ 48) l2.
Proof.
  induction 1 as [|z q es Hz Hq Hlt Ht IH|]; intros Hi Hj; [lia| |].
  - pose proof (Z.pow_pos_nonneg 2 z ltac:(lia) Hz).
    destruct (decide (j < (2 * q + 1) * 2 ^ z + 2 ^ z)).
    + exists [], ((2 * q + 1) * 2 ^ z), es, z. split_and!; [done|done|by eexists|lia|lia|].
      eapply Forall_impl; [eapply tiling_ge; [done|lia]|]. simpl. lia.
    + destruct IH as (l1 & e & l2 & w & -> & H1); [lia|lia|].
      exists ((2 * q + 1) * 2 ^ z :: l1), e, l2, w. by split.
  - exists [], 0, [], 48. split_and!; [done|lia|apply Z.divide_0_r|lia|lia|done].
Qed.

(** The first entry in the list that derives [j] is the one whose block holds it. *)
Lemma find_owner st (i j : Z) :
  tiling i (map index (rev (entries st))) -> 0 <= i -> i <= j < 2 ^ 48 ->
  exists e w, List.find (fun e => canDerive (index e) j) (entries st) = Some e /\
    In e (entries st) /\ 0 <= w /\ (2 ^ w | index e) /\ index e <= j < index e + 2 ^ w.
Proof.
  intros Ht Hi Hj. destruct (tiling_owner _ _ j Ht) as (l1 & x & l2 & w & Hes & Hw & Hd & Hb & Hgt);
    [done..|].
  apply map_eq_app in Hes as (r1 & r2' & Hr & <- & Hr2).
  destruct r2' as [|e r2]; [done|]. cbn [map] in Hr2. injection Hr2 as <- <-.
  assert (He : entries st = rev r2 ++ e :: rev r1).
  { rewrite <- (rev_involutive (entries st)), Hr, rev_app_distr. simpl. by rewrite <- app_assoc. }
  exists e, w. rewrite He. split; [|split; [apply in_app_iff; right; by left|done]].
  assert (Hgt' : forall x, In x (rev r2) -> j < index x < 2 ^ 48).
  { intros x Hx%in_rev. rewrite List.Forall_forall in Hgt. by apply Hgt, in_map. }
  clear - Hgt' Hw Hd Hb Hi Hj. induction (rev r2) as [|x l IH]; cbn [app List.find].
  - by rewrite (canDerive_block (index e) j w).
  - destruct (canDerive (index x) j) eqn:E.
    + apply canDerive_le in E; specialize (Hgt' x (or_introl eq_refl)); lia.
    + apply IH. intros y Hy. apply Hgt'. by right.
Qed.

Lemma find_none {A} (p : A -> bool) l : (forall x, In x l -> p x = false) -> List.find p l = None.
Proof.
  induction l as [|x l IH]; intros H; [done|]. simpl. rewrite (H x) by (by left).
  apply IH. intros y Hy. apply H. by right.
Qed.

Lemma accepted_bound hist st : accepted hist st -> Z.of_nat (length hist) <= 2 ^ 48.
Proof.
  intros H. destruct H; [simpl; lia|]. rewrite length_app. unfold MAX_INDEX in *. simpl. lia.
Qed.

Lemma getSecret_known hist st (n : nat) :
  accepted hist st -> (n < length hist)%nat ->
  getSecret st (MAX_INDEX - Z.of_nat n) = hist !! n.
Proof.
  intros Hacc Hn. pose proof (accepted_bound _ _ Hacc) as Hl.
  destruct (accepted_inv _ _ Hacc) as [Ht Hs Hc]. unfold getSecret, MAX_INDEX in *.
  destruct (find_owner st _ (0xffffffffffff - Z.of_nat n) Ht) as (e & w & -> & Hin & Hw & Hd & Hb);
    [lia..|].
  rewrite <- (Hs e _ w) by (done || lia). f_equal. lia.
Qed.

(** C37: whatever secrets a peer reveals, the store
    answers as if it kept them all: the secret accepted for commitment [n] is
    found at index MAX_INDEX - n, no secret is produced for an index not yet
    revealed, at most 48 entries are kept, and the count is right. *)
Theorem shachain_store_correct hist st (Hacc : accepted hist st) :
  (forall n, (n < length hist)%nat -> getSecret st (MAX_INDEX - Z.of_nat n) = hist !! n) /\
  (forall j, 0 <= j <= MAX_INDEX - Z.of_nat (length hist) -> getSecret st j = None) /\
  getEntryCount st <= 48 /\ getKnownCount st = Z.of_nat (length hist).
Proof.
  pose proof (accepted_bound _ _ Hacc) as Hl. destruct (accepted_inv _ _ Hacc) as [Ht Hs Hc].
  split_and!; [intros; by apply getSecret_known | | |done].
  - intros j Hj. unfold getSecret. rewrite find_none; [done|]. intros e Hin. apply not_true_is_false. intros E.
    pose proof (tiling_ge _ _ Ht ltac:(lia)) as Hge. rewrite List.Forall_forall in Hge.
    apply in_rev, (in_map index) in Hin. apply Hge in Hin.
    unfold MAX_INDEX in *. apply canDerive_le in E; lia.
  - unfold getEntryCount. rewrite <- length_rev, <- (length_map index).
    destruct (decide (Z.of_nat (length hist) = 2 ^ 48)) as [E|].
    + rewrite (tiling_bottom _ _ Ht); simpl; lia.
    + eapply (tiling_length _ _ 0) in Ht; [lia|lia|lia|]. apply Z.divide_1_l.
Qed.

(** ** Secrets a node derives from its own seed *)

Hypothesis sha256_len : forall b, blen (sha256 b) = 32.

(** The history an honest peer produces. *)
Definition honest (seed : buffer) (n : nat) : list buffer :=
  map (fun k => deriveChild seed 0 (MAX_INDEX - Z.of_nat k)) (seq 0 n).

Lemma honest_length seed n : length (honest seed n) = n.
Proof. unfold honest. by rewrite length_map, length_seq. Qed.

Lemma honest_S seed n :
  honest seed (S n) = honest seed n ++ [deriveChild seed 0 (MAX_INDEX - Z.of_nat n)].
Proof. unfold honest. by rewrite seq_S, map_app. Qed.

Lemma honest_lookup seed n k :
  (k < n)%nat -> honest seed n !! k = Some (deriveChild seed 0 (MAX_INDEX - Z.of_nat k)).
Proof. intros H. unfold honest. rewrite list_lookup_fmap, lookup_seq_lt by lia. done. Qed.

(** None of the stored entries of an honest peer contradicts its next secret. *)
Lemma honest_no_conflict seed n st :
  store_inv (honest seed n) st -> Z.of_nat n <= MAX_INDEX ->
  let i := MAX_INDEX - Z.of_nat n in
  existsb (conflicts i (deriveChild seed 0 i)) (entries st) = false.
Proof.
  intros [Ht Hs _] Hn i. apply not_true_is_false. intros H. apply existsb_exists in H as (e & Hin & Hc).
  unfold conflicts in Hc. apply andb_true_iff in Hc as [Hc He]. apply negb_true_iff in He.
  unfold buf_equals in He. apply bool_decide_eq_false in He. apply He.
  rewrite honest_length in Ht. unfold MAX_INDEX in *.
  replace (2 ^ 48 - Z.of_nat n) with (i + 1) in Ht by (unfold i; lia).
  destruct (tiling_absorb i _ ltac:(lia) Ht) as (es1 & es2 & Hes & [_ Hgone Hkept _]).
  assert (Hin' := Hin). apply in_rev, (in_map index) in Hin'.
  pose proof (tiling_ge _ _ Ht ltac:(lia)) as Hge. rewrite List.Forall_forall in Hge.
  specialize (Hge _ Hin'). rewrite Hes in Hin'. apply in_app_iff in Hin' as [H1|H2];
    [|by rewrite (Hkept _ H2) in Hc].
  destruct (Hgone _ H1) as (w & Hw & Hd & Hb).
  assert (Hse : Some (deriveChild seed 0 (index e)) = Some (secret e)).
  { rewrite <- (deriveChild_same (secret e) (index e)) at 1.
    rewrite <- (Hs e (index e) 0 Hin); [|lia|apply Z.divide_1_l|lia|lia].
    rewrite honest_lookup by (unfold MAX_INDEX; lia).
    rewrite Z2Nat.id by (unfold MAX_INDEX; lia). do 2 f_equal. unfold MAX_INDEX. lia. }
  apply (inj Some) in Hse. rewrite <- Hse. apply (deriveChild_comp seed 0 i (index e) (Z.to_nat w));
    rewrite ?Z2Nat.id by lia; try done; try lia. apply Z.divide_0_r.
Qed.

(** The next secret of an honest peer is accepted. *)
Lemma honest_next seed n st :
  accepted (honest seed n) st -> blen seed = 32 -> Z.of_nat n <= MAX_INDEX ->
  exists st', addSecret st (MAX_INDEX - Z.of_nat n) (deriveChild seed 0 (MAX_INDEX - Z.of_nat n))
                = Ok (st', true) /\ accepted (honest seed (S n)) st'.
Proof.
  intros Hst Hs Hn. pose proof (honest_no_conflict seed n st (accepted_inv _ _ Hst) Hn) as Hc.
  cbv zeta in Hc. assert (exists st', addSecret st (MAX_INDEX - Z.of_nat n)
    (deriveChild seed 0 (MAX_INDEX - Z.of_nat n)) = Ok (st', true)) as [st' Ha].
  { unfold addSecret. rewrite throw_pass by (by rewrite (deriveChild_len _ _ _ sha256_len Hs)).
    rewrite Hc. by eexists. }
  exists st'. split; [done|]. rewrite honest_S.
  eapply accepted_add; rewrite ?honest_length; done.
Qed.

Lemma honest_accepted seed (n : nat) :
  blen seed = 32 -> Z.of_nat n <= 2 ^ 48 -> exists st, accepted (honest seed n) st.
Proof.
  intros Hs. induction n as [|n IH]; intros Hn; [exists new_store; constructor|].
  destruct IH as [st Hst]; [lia|].
  destruct (honest_next seed n st Hst Hs) as (st' & _ & H); [unfold MAX_INDEX; lia|by exists st'].
Qed.

(** A peer that reveals the secrets it generates from
    its seed is never rejected, and the store then regenerates each of them. *)
Theorem shachain_honest seed (n : nat)
    (Hseed : blen seed = 32) (Hn : Z.of_nat n <= 2 ^ 48) :
  exists hist st, accepted hist st /\ length hist = n /\
    forall k, (k < n)%nat -> exists s,
      getPerCommitmentSecret seed (Z.of_nat k) = Ok s /\ hist !! k = Some s /\
      getSecret st (MAX_INDEX - Z.of_nat k) = Some s.
Proof.
  destruct (honest_accepted seed n Hseed Hn) as [st Hst].
  exists (honest seed n), st. split; [done|]. split; [apply honest_length|]. intros k Hk.
  eexists. unfold getPerCommitmentSecret. rewrite generate_derive by (try done; unfold MAX_INDEX; lia).
  split; [done|]. rewrite honest_lookup by done. split; [done|].
  rewrite <- (honest_lookup seed n) by done. by apply getSecret_known; [|rewrite honest_length].
Qed.

(** A secret that does not derive one of the secrets
    revealed earlier in its block is refused and changes nothing. *)
Theorem shachain_rejects hist st sec j w
    (Hacc : accepted hist st) (Hlen : blen sec = 32)
    (Hn : Z.of_nat (length hist) <= MAX_INDEX)
    (Hw : 0 <= w) (Hd : (2 ^ w | MAX_INDEX - Z.of_nat (length hist)))
    (Hj : MAX_INDEX - Z.of_nat (length hist) < j < MAX_INDEX - Z.of_nat (length hist) + 2 ^ w)
    (Hj' : j <= MAX_INDEX)
    (Hne : hist !! Z.to_nat (MAX_INDEX - j) <>
           Some (deriveChild sec (MAX_INDEX - Z.of_nat (length hist)) j)) :
  addSecret st (MAX_INDEX - Z.of_nat (length hist)) sec = Ok (st, false).
Proof.
  destruct (addSecret_cases st (MAX_INDEX - Z.of_nat (length hist)) sec Hlen) as [Hr|[st' Hr]];
    [done|].
  exfalso. apply Hne. destruct (addSecret_accepts _ _ _ _ Hr) as [_ Hst'].
  pose proof (store_inv_add _ _ _ _ (accepted_inv _ _ Hacc) Hn Hr) as [_ Hs _].
  rewrite Hst' in Hs. set (i := MAX_INDEX - Z.of_nat (length hist)) in *.
  assert (Hx := Hs {| index := i; secret := sec |} j w). cbn [index secret] in Hx.
  rewrite <- Hx; [|apply in_app_iff; right; by left|done|done|lia|unfold MAX_INDEX in *; lia].
  unfold i, MAX_INDEX in *. rewrite lookup_app_l by lia. done.
Qed.

End Hash.

(** ** Witnesses, with a toy 32-byte hash *)

Definition toy_hash (b : buffer) : buffer :=
  take 32 (reverse (map (fun x => byte_of_Z (Z_of_byte x + 1)) b) ++ alloc 32).

Lemma toy_hash_len b : blen (toy_hash b) = 32.
Proof.
  unfold toy_hash, blen. rewrite length_take, length_app. unfold alloc.
  rewrite length_replicate. lia.
Qed.

(** The first [n] secrets of a seed, offered in order. *)
Definition offer (seed : buffer) (n : nat) : ShaChainStore :=
  fold_left (fun st k =>
    match addSecret toy_hash st (MAX_INDEX - Z.of_nat k)
            (deriveChild toy_hash seed 0 (MAX_INDEX - Z.of_nat k)) with
    | Ok (st', true) => st' | _ => st end) (seq 0 n) new_store.

Definition toy_hist : list buffer := Eval vm_compute in honest toy_hash (alloc 32) 3.
Definition toy_store : ShaChainStore := Eval vm_compute in offer (alloc 32) 3.

Lemma toy_accepted : accepted toy_hash toy_hist toy_store.
Proof.
  assert (Hstep : forall k, (k < 3)%nat ->
    accepted toy_hash (take k toy_hist) (offer (alloc 32) k) ->
    accepted toy_hash (take (S k) toy_hist) (offer (alloc 32) (S k))).
  { intros k Hk H. destruct (toy_hist !! k) as [s|] eqn:Hs.
    - rewrite (take_S_r _ _ _ Hs). eapply accepted_add; [exact H| |];
        (destruct k as [|[|[|]]]; [..|lia]); injection Hs as <-; vm_compute; done.
    - apply lookup_ge_None in Hs. vm_compute in Hs. lia. }
  apply (Hstep 2%nat ltac:(lia)), (Hstep 1%nat ltac:(lia)), (Hstep 0%nat ltac:(lia)).
  apply accepted_new.
Qed.

Lemma shachain_store_correct_witness :
  getSecret toy_hash toy_store (MAX_INDEX - 1) = toy_hist !! 1%nat /\
  getSecret toy_hash toy_store 5 = None.
Proof.
  destruct (shachain_store_correct toy_hash toy_hist toy_store toy_accepted) as (H1 & H2 & _).
  split; [apply (H1 1%nat) | apply H2]; vm_compute; [lia | split; discriminate].
Defined.

Lemma shachain_honest_witness :
  exists hist st, accepted toy_hash hist st /\ length hist = 1000%nat /\
    forall k, (k < 1000)%nat -> exists s,
      getPerCommitmentSecret toy_hash (alloc 32) (Z.of_nat k) = Ok s /\
      hist !! k = Some s /\ getSecret toy_hash st (MAX_INDEX - Z.of_nat k) = Some s.
Proof. apply (shachain_honest toy_hash toy_hash_len (alloc 32) 1000); [reflexivity | lia]. Defined.

Lemma shachain_rejects_witness :
  addSecret toy_hash toy_store (MAX_INDEX - 3) (alloc 32) = Ok (toy_store, false).
Proof.
  apply (shachain_rejects toy_hash toy_hist toy_store (alloc 32) (MAX_INDEX - 2) 2 toy_accepted);
    [reflexivity | vm_compute; discriminate | lia | exists 0x3fffffffffff; reflexivity
    | vm_compute; split; reflexivity | vm_compute; discriminate | vm_compute; discriminate].
Defined.
