(* ===== verification/CommitmentTx.v ===== *)
(** * Commitment transactions (src/src/lightning/script/commitment.ts and anchor.ts)

    [buildCommitmentTx] from the amounts and keys to the sorted transaction and the
    map of its outputs, the obscured commitment number, and its recovery in
    src/src/lightning/chain/output-resolver.ts.

    The script compiler, the payment templates and the hash are bitcoinjs-lib and
    the crypto provider: parameters of the section.  [Array.prototype.sort] is
    stable, so it is the stable insertion sort of the comparison function. *)

From S2P Require Import Prelude Buffer.
From Stdlib Require Import Strings.Byte Sorting.Sorted Sorting.Permutation.

(** ** Sorting *)

(** [Buffer.compare] *)
Fixpoint buf_compare (a b : buffer) : Z :=
  match a, b with
  | [], [] => 0
  | [], _ :: _ => -1
  | _ :: _, [] => 1
  | x :: a, y :: b =>
      if Z_of_byte x <? Z_of_byte y then -1
      else if Z_of_byte y <? Z_of_byte x then 1 else buf_compare a b
  end.

Section Sort.
Context {A : Type} (cmp : A -> A -> Z).

Fixpoint insert_sorted (x : A) (l : list A) : list A :=
  match l with
  | [] => [x]
  | y :: l' => if cmp x y <=? 0 then x :: l else y :: insert_sorted x l'
  end.

Definition sort (l : list A) : list A := fold_right insert_sorted [] l.

Lemma insert_sorted_perm x l : Permutation (insert_sorted x l) (x :: l).
Proof.
  induction l as [|y l IH]; simpl; [done|]. case_match; [done|].
  rewrite IH. apply Permutation.perm_swap.
Qed.

Lemma sort_perm l : Permutation (sort l) l.
Proof. induction l as [|x l IH]; [done|]. simpl. by rewrite insert_sorted_perm, IH. Qed.

(** Neighbours are in order when the comparison is total. *)
Lemma sort_sorted (le : A -> A -> Prop) l :
  (forall x y, cmp x y <= 0 -> le x y) -> (forall x y, 0 < cmp x y -> le y x) ->
  Sorted le (sort l).
Proof.
  intros H1 H2. induction l as [|x l IH]; [constructor|]. simpl. revert IH.
  generalize (sort l). clear l. intros l. induction l as [|y l IH]; intros Hs; simpl.
  - repeat constructor.
  - destruct (Z.leb_spec (cmp x y) 0); [constructor; [done | constructor; auto]|].
    apply Sorted_inv in Hs as [Hs Hy]. constructor; [by apply IH|].
    destruct l as [|z l]; simpl; [constructor; auto|].
    apply HdRel_inv in Hy. case_match; constructor; auto.
Qed.

End Sort.

(** ** Data *)

Inductive chunk := Op (opcode : Z) | Push (data : buffer).

Definition OP_IF := 0x63.
Definition OP_NOTIF := 0x64.
Definition OP_ELSE := 0x67.
Definition OP_ENDIF := 0x68.
Definition OP_IFDUP := 0x73.
Definition OP_DROP := 0x75.
Definition OP_CHECKSIG := 0xac.
Definition OP_CHECKSIGVERIFY := 0xad.
Definition OP_CHECKSEQUENCEVERIFY := 0xb2.
Definition OP_16 := 0x60.

Definition DUST_LIMIT_P2WSH := 546.
Definition DUST_LIMIT_P2WPKH := 294.
Definition ANCHOR_OUTPUT_VALUE := 330.
Definition ANCHOR_TOTAL_COST := ANCHOR_OUTPUT_VALUE * 2.

Record IHtlcOutput := {
  h_script : buffer;
  h_amount : Z;
  h_cltvExpiry : Z;
  h_paymentHash : buffer;
  h_taprootScript : option buffer
}.

Record ICommitmentTxParams := {
  fundingTxid : buffer;
  fundingOutputIndex : Z;
  obscuredCommitmentNumber : Z;
  localAmount : Z;
  revocationPubkey : buffer;
  localDelayedPubkey : buffer;
  toSelfDelay : Z;
  leaseCsv : option Z;
  remoteAmount : Z;
  remotePaymentPubkey : buffer;
  toRemoteLeaseCsv : option Z;
  htlcOutputs : list IHtlcOutput;
  dustLimitSatoshis : option Z;
  useAnchors : bool;
  localFundingPubkey : option buffer;
  remoteFundingPubkey : option buffer;
  taprootToLocalScript : option buffer;
  taprootToRemoteScript : option buffer;
  taprootAnchorLocalScript : option buffer;
  taprootAnchorRemoteScript : option buffer
}.

Inductive OutputKind := to_local | to_remote | htlc | anchor_local | anchor_remote.

#[global] Instance OutputKind_eq_dec : EqDecision OutputKind.
Proof. solve_decision. Defined.

Record IOutputEntry := {
  o_script : buffer;
  o_value : Z;
  o_type : OutputKind;
  o_htlcIndex : option Z;
  o_cltvExpiry : option Z
}.

Record Transaction := {
  tx_version : Z;
  tx_locktime : Z;
  tx_ins : list (buffer * Z * Z);
  tx_outs : list (buffer * Z)
}.

Record outputMap := {
  om_toLocal : option Z;
  om_toRemote : option Z;
  om_htlcs : list Z;
  om_htlcOriginalIndices : list Z;
  om_anchorLocal : option Z;
  om_anchorRemote : option Z
}.

Record ICommitmentTxResult := {
  r_tx : Transaction;
  r_toLocalScript : option buffer;
  r_toRemoteScript : option buffer;
  r_outputMap : outputMap
}.

(** The comparison of [outputs.sort]; [sortKey] is the output's script. *)
Definition compare_outputs (a b : IOutputEntry) : Z :=
  if negb (o_value a =? o_value b) then if o_value a <? o_value b then -1 else 1
  else
    let byScript := buf_compare (o_script a) (o_script b) in
    if negb (byScript =? 0) then byScript
    else match o_type a, o_type b, o_cltvExpiry a, o_cltvExpiry b with
         | htlc, htlc, Some x, Some y => x - y
         | _, _, _, _ => 0
         end.

Definition sortCommitmentOutputs (outputs : list (buffer * Z)) : list (buffer * Z) :=
  sort (fun a b => if negb (a.2 =? b.2) then if a.2 <? b.2 then -1 else 1
                   else buf_compare a.1 b.1) outputs.

(** ** Order *)

Lemma buf_compare_refl a : buf_compare a a = 0.
Proof. induction a as [|x a IH]; [done|]. simpl. by rewrite Z.ltb_irrefl. Qed.

Lemma buf_compare_antisym a : forall b, buf_compare b a = - buf_compare a b.
Proof.
  induction a as [|x a IH]; intros [|y b]; simpl; try done.
  destruct (Z.ltb_spec (Z_of_byte x) (Z_of_byte y)), (Z.ltb_spec (Z_of_byte y) (Z_of_byte x));
    try lia. apply IH.
Qed.

Lemma buf_compare_eq a : forall b, buf_compare a b = 0 -> a = b.
Proof.
  induction a as [|x a IH]; intros [|y b]; simpl; try done.
  destruct (Z.ltb_spec (Z_of_byte x) (Z_of_byte y)), (Z.ltb_spec (Z_of_byte y) (Z_of_byte x));
    try done. intros Hc. f_equal; [apply Z_of_byte_inj; lia | by apply IH].
Qed.

Lemma buf_compare_trans a : forall b c,
  buf_compare a b <= 0 -> buf_compare b c <= 0 -> buf_compare a c <= 0.
Proof.
  induction a as [|x a IH]; intros [|y b] [|z c]; simpl; try lia.
  destruct (Z.ltb_spec (Z_of_byte x) (Z_of_byte y)), (Z.ltb_spec (Z_of_byte y) (Z_of_byte x)),
    (Z.ltb_spec (Z_of_byte y) (Z_of_byte z)), (Z.ltb_spec (Z_of_byte z) (Z_of_byte y)),
    (Z.ltb_spec (Z_of_byte x) (Z_of_byte z)), (Z.ltb_spec (Z_of_byte z) (Z_of_byte x)); try lia.
  apply IH.
Qed.

(** BIP 69: by value, then by script. *)
Definition bip69_le (a b : buffer * Z) : Prop :=
  a.2 < b.2 \/ (a.2 = b.2 /\ buf_compare a.1 b.1 <= 0).

Lemma bip69_trans : Relations_1.Transitive bip69_le.
Proof.
  intros a b c [H1|[H1 H1']] [H2|[H2 H2']]; unfold bip69_le; try lia.
  right. split; [lia|]. eapply buf_compare_trans; eauto.
Qed.

Lemma bip69_antisym a b : bip69_le a b -> bip69_le b a -> a = b.
Proof.
  destruct a as [sa va], b as [sb vb]. unfold bip69_le. simpl. intros H1 H2.
  pose proof (buf_compare_antisym sa sb). f_equal; [apply buf_compare_eq|]; lia.
Qed.

Definition out (o : IOutputEntry) : buffer * Z := (o_script o, o_value o).

Lemma compare_le a b : compare_outputs a b <= 0 -> bip69_le (out a) (out b).
Proof.
  unfold compare_outputs, bip69_le, out. simpl. intros H.
  destruct (Z.eqb_spec (o_value a) (o_value b)); simpl in H;
    [|destruct (Z.ltb_spec (o_value a) (o_value b)); lia].
  right. split; [done|]. destruct (Z.eqb_spec (buf_compare (o_script a) (o_script b)) 0); simpl in H; lia.
Qed.

Lemma compare_gt a b : 0 < compare_outputs a b -> bip69_le (out b) (out a).
Proof.
  unfold compare_outputs, bip69_le, out. simpl. intros H.
  pose proof (buf_compare_antisym (o_script a) (o_script b)).
  destruct (Z.eqb_spec (o_value a) (o_value b)); simpl in H;
    [|destruct (Z.ltb_spec (o_value a) (o_value b)); lia].
  right. split; [done|]. destruct (Z.eqb_spec (buf_compare (o_script a) (o_script b)) 0); simpl in H; lia.
Qed.

Lemma sorted_map {A B} (f : A -> B) (le : B -> B -> Prop) l :
  Sorted (fun a b => le (f a) (f b)) l -> Sorted le (map f l).
Proof.
  induction 1 as [|x l Hs IH Hd]; simpl; constructor; [done|].
  destruct Hd; simpl; constructor; done.
Qed.

Lemma outs_sorted l : StronglySorted bip69_le (map out (sort compare_outputs l)).
Proof.
  apply Sorted_StronglySorted; [exact bip69_trans|]. apply sorted_map.
  apply (sort_sorted compare_outputs); [apply compare_le | apply compare_gt].
Qed.

(** Two sorted lists of outputs with the same members are the same list. *)
Lemma sorted_unique (l l' : list (buffer * Z)) :
  StronglySorted bip69_le l -> StronglySorted bip69_le l' -> Permutation l l' -> l = l'.
Proof.
  intros Hs. revert l'. induction Hs as [|x l Hs IH Hx]; intros l' Hs' Hp.
  - by apply Permutation_nil in Hp.
  - destruct l' as [|y l']; [by symmetry in Hp; apply Permutation_nil in Hp|].
    apply StronglySorted_inv in Hs' as [Hs' Hy]. assert (x = y) as ->.
    { rewrite List.Forall_forall in Hx, Hy.
      assert (Hxin : In x (y :: l')) by (eapply Permutation_in; [exact Hp | by left]).
      assert (Hyin : In y (x :: l)) by (eapply Permutation_in; [symmetry; exact Hp | by left]).
      destruct Hxin as [->|Hxin]; [done|]. destruct Hyin as [->|Hyin]; [done|].
      apply bip69_antisym; auto. }
    f_equal. apply IH; [done|]. by apply Permutation_cons_inv in Hp.
Qed.

Section Commitment.

Context (sha256 : buffer -> buffer) (compile : list chunk -> buffer)
        (number_encode : Z -> buffer) (p2wsh p2wpkh : buffer -> buffer).

(** [for (let i = 26; i < 32; i++) mask = (mask << 8n) | BigInt(hash[i])] *)
Definition obscure_mask (openPaymentBasepoint acceptPaymentBasepoint : buffer) : Z :=
  let hash := sha256 (openPaymentBasepoint ++ acceptPaymentBasepoint) in
  fold_left (fun mask i => Z.lor (Z.shiftl mask 8) (byte_at hash i)) [26; 27; 28; 29; 30; 31] 0.

Definition calculateObscuredCommitmentNumber
    (openPaymentBasepoint acceptPaymentBasepoint : buffer) (commitmentNumber : Z) : Z :=
  Z.lxor commitmentNumber (obscure_mask openPaymentBasepoint acceptPaymentBasepoint).

Definition buildToLocalScript (revocationPubkey localDelayedPubkey : buffer)
    (toSelfDelay : Z) (leaseCsv : option Z) : buffer :=
  let csv := match leaseCsv with
             | Some l => if toSelfDelay <? l then l else toSelfDelay
             | None => toSelfDelay
             end in
  compile [Op OP_IF; Push revocationPubkey; Op OP_ELSE; Push (number_encode csv);
           Op OP_CHECKSEQUENCEVERIFY; Op OP_DROP; Push localDelayedPubkey; Op OP_ENDIF;
           Op OP_CHECKSIG].

Definition buildAnchorScript (fundingPubkey : buffer) : buffer :=
  compile [Push fundingPubkey; Op OP_CHECKSIG; Op OP_IFDUP; Op OP_NOTIF; Op OP_16;
           Op OP_CHECKSEQUENCEVERIFY; Op OP_ENDIF].

Definition buildToRemoteAnchorScript (remotePubkey : buffer) (leaseCsv : option Z) : buffer :=
  let csv := match leaseCsv with Some l => if 1 <? l then l else 1 | None => 1 end in
  compile [Push remotePubkey; Op OP_CHECKSIGVERIFY; Push (number_encode csv);
           Op OP_CHECKSEQUENCEVERIFY].

(** [{ script, witnessScript }] *)
Definition buildAnchorOutput (fundingPubkey : buffer) : buffer * buffer :=
  let witnessScript := buildAnchorScript fundingPubkey in (p2wsh witnessScript, witnessScript).

Definition buildToRemoteAnchorOutput (remotePubkey : buffer) (leaseCsv : option Z)
    : buffer * buffer :=
  let witnessScript := buildToRemoteAnchorScript remotePubkey leaseCsv in
  (p2wsh witnessScript, witnessScript).

Definition main_output (type : OutputKind) (script : buffer) (value : Z) : IOutputEntry :=
  {| o_script := script; o_value := value; o_type := type; o_htlcIndex := None;
     o_cltvExpiry := None |}.

Definition dustWsh (p : ICommitmentTxParams) : Z := default DUST_LIMIT_P2WSH (dustLimitSatoshis p).
Definition dustWpkh (p : ICommitmentTxParams) : Z := default DUST_LIMIT_P2WPKH (dustLimitSatoshis p).

(** The to_local part: its entries, and the witness script. *)
Definition to_local_part (p : ICommitmentTxParams) : list IOutputEntry * option buffer :=
  if dustWsh p <=? localAmount p then
    match taprootToLocalScript p with
    | Some spk => ([main_output to_local spk (localAmount p)], None)
    | None =>
        let s := buildToLocalScript (revocationPubkey p) (localDelayedPubkey p) (toSelfDelay p)
                   (leaseCsv p) in
        ([main_output to_local (p2wsh s) (localAmount p)], Some s)
    end
  else ([], None).

Definition to_remote_part (p : ICommitmentTxParams) : result (list IOutputEntry * option buffer) :=
  match taprootToRemoteScript p with
  | Some spk =>
      _ ← throw_if (bool_decide (is_Some (toRemoteLeaseCsv p)))
            "toRemoteLeaseCsv is not supported on taproot commitments.";
      if dustWsh p <=? remoteAmount p
      then Ok ([main_output to_remote spk (remoteAmount p)], None) else Ok ([], None)
  | None =>
      if useAnchors p then
        if dustWsh p <=? remoteAmount p then
          let '(script, witnessScript) :=
            buildToRemoteAnchorOutput (remotePaymentPubkey p) (toRemoteLeaseCsv p) in
          Ok ([main_output to_remote script (remoteAmount p)], Some witnessScript)
        else Ok ([], None)
      else
        _ ← throw_if (bool_decide (is_Some (toRemoteLeaseCsv p)))
              "toRemoteLeaseCsv requires an anchor (P2WSH confirmed) to_remote.";
        if dustWpkh p <=? remoteAmount p
        then Ok ([main_output to_remote (p2wpkh (remotePaymentPubkey p)) (remoteAmount p)], None)
        else Ok ([], None)
  end.

Definition htlc_spk (h : IHtlcOutput) : buffer := default (p2wsh (h_script h)) (h_taprootScript h).

(** The loop over the HTLCs; [i] is the index of the first one left. *)
Fixpoint htlc_part (dust : Z) (i : Z) (hs : list IHtlcOutput) : list IOutputEntry :=
  match hs with
  | [] => []
  | h :: hs =>
      (if dust <=? h_amount h
       then [{| o_script := htlc_spk h; o_value := h_amount h; o_type := htlc;
                o_htlcIndex := Some i; o_cltvExpiry := Some (h_cltvExpiry h) |}]
       else []) ++ htlc_part dust (i + 1) hs
  end.

Definition has_type (k : OutputKind) (outputs : list IOutputEntry) : bool :=
  existsb (fun o => bool_decide (o_type o = k)) outputs.

Definition anchor_part (p : ICommitmentTxParams) (outputs : list IOutputEntry)
    : list IOutputEntry :=
  match useAnchors p, localFundingPubkey p, remoteFundingPubkey p with
  | true, Some lk, Some rk =>
      (if has_type to_local outputs || has_type htlc outputs
       then [main_output anchor_local
               (default (buildAnchorOutput lk).1 (taprootAnchorLocalScript p)) ANCHOR_OUTPUT_VALUE]
       else []) ++
      (if has_type to_remote outputs || has_type htlc outputs
       then [main_output anchor_remote
               (default (buildAnchorOutput rk).1 (taprootAnchorRemoteScript p)) ANCHOR_OUTPUT_VALUE]
       else [])
  | _, _, _ => []
  end.

(** One round of the loop that adds the sorted outputs and fills the map. *)
Definition map_output (m : outputMap) (i : Z) (o : IOutputEntry) : outputMap :=
  match o_type o with
  | to_local => {| om_toLocal := Some i; om_toRemote := om_toRemote m; om_htlcs := om_htlcs m;
      om_htlcOriginalIndices := om_htlcOriginalIndices m; om_anchorLocal := om_anchorLocal m;
      om_anchorRemote := om_anchorRemote m |}
  | to_remote => {| om_toLocal := om_toLocal m; om_toRemote := Some i; om_htlcs := om_htlcs m;
      om_htlcOriginalIndices := om_htlcOriginalIndices m; om_anchorLocal := om_anchorLocal m;
      om_anchorRemote := om_anchorRemote m |}
  | htlc => {| om_toLocal := om_toLocal m; om_toRemote := om_toRemote m;
      om_htlcs := om_htlcs m ++ [i];
      om_htlcOriginalIndices := om_htlcOriginalIndices m ++ [default 0 (o_htlcIndex o)];
      om_anchorLocal := om_anchorLocal m; om_anchorRemote := om_anchorRemote m |}
  | anchor_local => {| om_toLocal := om_toLocal m; om_toRemote := om_toRemote m;
      om_htlcs := om_htlcs m; om_htlcOriginalIndices := om_htlcOriginalIndices m;
      om_anchorLocal := Some i; om_anchorRemote := om_anchorRemote m |}
  | anchor_remote => {| om_toLocal := om_toLocal m; om_toRemote := om_toRemote m;
      om_htlcs := om_htlcs m; om_htlcOriginalIndices := om_htlcOriginalIndices m;
      om_anchorLocal := om_anchorLocal m; om_anchorRemote := Some i |}
  end.

Fixpoint map_outputs (m : outputMap) (i : Z) (outputs : list IOutputEntry) : outputMap :=
  match outputs with
  | [] => m
  | o :: outputs => map_outputs (map_output m i o) (i + 1) outputs
  end.

Definition empty_map : outputMap :=
  {| om_toLocal := None; om_toRemote := None; om_htlcs := []; om_htlcOriginalIndices := [];
     om_anchorLocal := None; om_anchorRemote := None |}.

(** The entries before sorting. *)
Definition commitment_outputs (p : ICommitmentTxParams)
    : result (list IOutputEntry * option buffer * option buffer) :=
  let '(locals, toLocalScript) := to_local_part p in
  '(remotes, toRemoteScript) ← to_remote_part p;
  let outputs := locals ++ remotes ++ htlc_part (dustWsh p) 0 (htlcOutputs p) in
  Ok (outputs ++ anchor_part p outputs, toLocalScript, toRemoteScript).

Definition buildCommitmentTx (p : ICommitmentTxParams) : result ICommitmentTxResult :=
  let locktime := Z.lor 0x20000000 (Z.land (obscuredCommitmentNumber p) 0xffffff) in
  let sequence :=
    (Z.lor 0x80000000 (Z.land (Z.shiftr (obscuredCommitmentNumber p) 24) 0xffffff)) mod 2 ^ 32 in
  '(outputs, toLocalScript, toRemoteScript) ← commitment_outputs p;
  let outputs := sort compare_outputs outputs in
  Ok {| r_tx := {| tx_version := 2; tx_locktime := locktime;
                   tx_ins := [(fundingTxid p, fundingOutputIndex p, sequence)];
                   tx_outs := map (fun o => (o_script o, o_value o)) outputs |};
        r_toLocalScript := toLocalScript; r_toRemoteScript := toRemoteScript;
        r_outputMap := map_outputs empty_map 0 outputs |}.

(** chain/output-resolver.ts *)
Definition extractCommitmentNumber (tx : Transaction)
    (openPaymentBasepoint acceptPaymentBasepoint : buffer) : option Z :=
  match tx_ins tx with
  | [] => None
  | (_, _, sequence) :: _ =>
      let lower24 := Z.land (tx_locktime tx) 0xffffff in
      let upper24 := Z.land sequence 0xffffff in
      let obscured := Z.lor (Z.shiftl upper24 24) lower24 in
      Some (Z.lxor obscured (obscure_mask openPaymentBasepoint acceptPaymentBasepoint))
  end.

(** ** Properties of the entries *)

Lemma htlc_part_out dust hs : forall i,
  map out (htlc_part dust i hs) =
  map (fun h => (htlc_spk h, h_amount h)) (List.filter (fun h => dust <=? h_amount h) hs).
Proof.
  induction hs as [|h hs IH]; intros i; [done|]. simpl. rewrite map_app, IH.
  by destruct (dust <=? h_amount h).
Qed.

Lemma has_type_app k a b : has_type k (a ++ b) = has_type k a || has_type k b.
Proof. apply existsb_app. Qed.

Lemma has_type_htlcs k dust hs : forall i,
  has_type k (htlc_part dust i hs) =
  bool_decide (k = htlc) && existsb (fun h => dust <=? h_amount h) hs.
Proof.
  induction hs as [|h hs IH]; intros i; simpl; [by rewrite andb_false_r|].
  rewrite has_type_app, IH. destruct (dust <=? h_amount h); simpl; [|done].
  rewrite orb_false_r. destruct k; simpl; by destruct (existsb _ _).
Qed.

Lemma htlc_part_in dust o hs : forall i,
  In o (htlc_part dust i hs) <->
  exists n h, hs !! n = Some h /\ dust <= h_amount h /\
    o = {| o_script := htlc_spk h; o_value := h_amount h; o_type := htlc;
           o_htlcIndex := Some (i + Z.of_nat n); o_cltvExpiry := Some (h_cltvExpiry h) |}.
Proof.
  induction hs as [|h hs IH]; intros i; simpl.
  - split; [done|]. by intros (n & h & Hn & _).
  - rewrite in_app_iff, IH. split.
    + intros [Hin|(n & h' & Hn & Hd & ->)].
      * destruct (Z.leb_spec dust (h_amount h)); [|done]. destruct Hin as [<-|[]].
        exists 0%nat, h. rewrite Z.add_0_r. done.
      * exists (S n), h'. split; [done|]. split; [done|]. do 2 f_equal. lia.
    + intros ([|n] & h' & Hn & Hd & ->).
      * left. injection Hn as <-. rewrite (proj2 (Z.leb_le _ _)) by done. left.
        by rewrite Z.add_0_r.
      * right. exists n, h'. split; [done|]. split; [done|]. do 2 f_equal. lia.
Qed.

Lemma build_inv p r :
  buildCommitmentTx p = Ok r ->
  exists outputs s1 s2, commitment_outputs p = Ok (outputs, s1, s2) /\
    tx_outs (r_tx r) = map out (sort compare_outputs outputs) /\
    r_outputMap r = map_outputs empty_map 0 (sort compare_outputs outputs).
Proof.
  unfold buildCommitmentTx. intros H. apply bind_Ok_inv in H as ([[outs s1] s2] & Hc & H).
  injection H as <-. by exists outs, s1, s2.
Qed.

(** The result depends on the list of HTLCs only through its members. *)
Definition with_htlcs (p : ICommitmentTxParams) (hs : list IHtlcOutput) : ICommitmentTxParams :=
  {| fundingTxid := fundingTxid p; fundingOutputIndex := fundingOutputIndex p;
     obscuredCommitmentNumber := obscuredCommitmentNumber p; localAmount := localAmount p;
     revocationPubkey := revocationPubkey p; localDelayedPubkey := localDelayedPubkey p;
     toSelfDelay := toSelfDelay p; leaseCsv := leaseCsv p; remoteAmount := remoteAmount p;
     remotePaymentPubkey := remotePaymentPubkey p; toRemoteLeaseCsv := toRemoteLeaseCsv p;
     htlcOutputs := hs; dustLimitSatoshis := dustLimitSatoshis p; useAnchors := useAnchors p;
     localFundingPubkey := localFundingPubkey p; remoteFundingPubkey := remoteFundingPubkey p;
     taprootToLocalScript := taprootToLocalScript p;
     taprootToRemoteScript := taprootToRemoteScript p;
     taprootAnchorLocalScript := taprootAnchorLocalScript p;
     taprootAnchorRemoteScript := taprootAnchorRemoteScript p |}.

Lemma filter_perm {A} (f : A -> bool) l l' :
  Permutation l l' -> Permutation (List.filter f l) (List.filter f l').
Proof.
  induction 1; simpl; try done; repeat case_match; try done;
    [by constructor | by constructor | etransitivity; eassumption].
Qed.

Lemma existsb_perm {A} (f : A -> bool) l l' : Permutation l l' -> existsb f l = existsb f l'.
Proof.
  induction 1; simpl; try congruence. destruct (f x), (f y); done.
Qed.

Lemma outputs_perm p hs hs' outs s1 s2 :
  Permutation hs hs' -> commitment_outputs (with_htlcs p hs) = Ok (outs, s1, s2) ->
  exists outs', commitment_outputs (with_htlcs p hs') = Ok (outs', s1, s2) /\
    Permutation (map out outs) (map out outs').
Proof.
  intros Hp. unfold commitment_outputs.
  change (to_local_part (with_htlcs p hs')) with (to_local_part (with_htlcs p hs)).
  change (to_remote_part (with_htlcs p hs')) with (to_remote_part (with_htlcs p hs)).
  destruct (to_local_part (with_htlcs p hs)) as [ls lscript]. intros H.
  apply bind_Ok_inv in H as ([rs rscript] & -> & H). injection H as <- <- <-.
  rewrite bind_Ok. eexists. split; [done|].
  change (dustWsh (with_htlcs p hs')) with (dustWsh (with_htlcs p hs)).
  set (dust := dustWsh _). cbn [htlcOutputs with_htlcs].
  assert (Ha : anchor_part (with_htlcs p hs') (ls ++ rs ++ htlc_part dust 0 hs') =
               anchor_part (with_htlcs p hs) (ls ++ rs ++ htlc_part dust 0 hs)).
  { unfold anchor_part. cbn [useAnchors localFundingPubkey remoteFundingPubkey with_htlcs
      taprootAnchorLocalScript taprootAnchorRemoteScript].
    by rewrite !has_type_app, !has_type_htlcs, (existsb_perm _ _ _ Hp). }
  rewrite Ha, !map_app. apply Permutation_app; [|done].
  do 2 (apply Permutation_app; [done|]). rewrite !htlc_part_out.
  by apply Permutation_map, filter_perm.
Qed.

(** ** The output map *)

(** The HTLC outputs with their positions. *)
Fixpoint htlc_positions (i : Z) (l : list IOutputEntry) : list (Z * IOutputEntry) :=
  match l with
  | [] => []
  | o :: l => (if bool_decide (o_type o = htlc) then [(i, o)] else []) ++ htlc_positions (i + 1) l
  end.

Lemma map_outputs_htlcs l : forall m i,
  om_htlcs (map_outputs m i l) = om_htlcs m ++ map fst (htlc_positions i l) /\
  om_htlcOriginalIndices (map_outputs m i l) =
    om_htlcOriginalIndices m ++ map (fun x => default 0 (o_htlcIndex x.2)) (htlc_positions i l).
Proof.
  induction l as [|o l IH]; intros m i; simpl; [by rewrite !app_nil_r|].
  destruct (IH (map_output m i o) (i + 1)) as [-> ->]. unfold map_output.
  destruct (o_type o); simpl; by rewrite <- ?app_assoc.
Qed.

Lemma htlc_positions_in l : forall i j o,
  In (j, o) (htlc_positions i l) <->
  i <= j /\ l !! Z.to_nat (j - i) = Some o /\ o_type o = htlc.
Proof.
  induction l as [|o l IH]; intros i j o'; simpl.
  - split; [done|]. intros (_ & H & _). by rewrite lookup_nil in H.
  - rewrite in_app_iff, IH. destruct (Z.lt_trichotomy i j) as [H|[->|H]].
    + replace (Z.to_nat (j - i)) with (S (Z.to_nat (j - (i + 1)))) by lia. simpl. split.
      * intros [Hin|(H1 & H2 & H3)]; [|split; [lia|done]].
        case_bool_decide; [|done]. destruct Hin as [[= -> _]|[]]. lia.
      * intros (H1 & H2 & H3). right. split; [lia|done].
    + rewrite Z.sub_diag. simpl. split.
      * intros [Hin|(H1 & _)]; [|lia]. case_bool_decide; [|done].
        destruct Hin as [[= ->]|[]]. done.
      * intros (_ & [= ->] & H3). left. rewrite bool_decide_true by done. by left.
    + split; [|lia]. intros [Hin|(H1 & _)]; [|lia]. case_bool_decide; [|done].
      destruct Hin as [[= -> _]|[]]. lia.
Qed.

(** The slot a kind of main output is recorded in. *)
Definition slot (k : OutputKind) (m : outputMap) : option Z :=
  match k with
  | to_local => om_toLocal m | to_remote => om_toRemote m
  | anchor_local => om_anchorLocal m | anchor_remote => om_anchorRemote m | htlc => None
  end.

Lemma map_outputs_slot k l : k <> htlc -> forall m i,
  match slot k (map_outputs m i l) with
  | Some j => slot k m = Some j \/
      (i <= j /\ exists o, l !! Z.to_nat (j - i) = Some o /\ o_type o = k)
  | None => slot k m = None /\ has_type k l = false
  end.
Proof.
  intros Hk. induction l as [|o l IH]; intros m i; simpl.
  - destruct (slot k m); [by left | done].
  - specialize (IH (map_output m i o) (i + 1)).
    destruct (slot k (map_outputs _ _ _)) as [j|] eqn:E.
    + destruct IH as [Hs|(Hj & o' & Ho & Hty)].
      * destruct (decide (o_type o = k)) as [Ho|Ho].
        -- right. assert (j = i) as ->.
           { unfold map_output in Hs. rewrite Ho in Hs. destruct k; simpl in Hs; congruence. }
           split; [lia|]. exists o. by rewrite Z.sub_diag.
        -- left. unfold map_output in Hs. by destruct (o_type o), k.
      * right. split; [lia|]. exists o'.
        by replace (Z.to_nat (j - i)) with (S (Z.to_nat (j - (i + 1)))) by lia.
    + destruct IH as [Hs Ht]. unfold map_output in Hs.
      destruct (o_type o) eqn:Eo, k; simpl in *; rewrite ?Eo; try done; split; try done;
        rewrite ?bool_decide_false by congruence; done.
Qed.

(** ** The members of a commitment transaction *)

Definition remote_dust (p : ICommitmentTxParams) : Z :=
  match taprootToRemoteScript p with
  | Some _ => dustWsh p
  | None => if useAnchors p then dustWsh p else dustWpkh p
  end.

Definition to_local_spk (p : ICommitmentTxParams) : buffer :=
  default (p2wsh (buildToLocalScript (revocationPubkey p) (localDelayedPubkey p) (toSelfDelay p)
                    (leaseCsv p))) (taprootToLocalScript p).

Definition to_remote_spk (p : ICommitmentTxParams) : buffer :=
  match taprootToRemoteScript p with
  | Some spk => spk
  | None => if useAnchors p
            then p2wsh (buildToRemoteAnchorScript (remotePaymentPubkey p) (toRemoteLeaseCsv p))
            else p2wpkh (remotePaymentPubkey p)
  end.

Lemma to_local_entries p :
  fst (to_local_part p) =
    if dustWsh p <=? localAmount p then [main_output to_local (to_local_spk p) (localAmount p)]
    else [].
Proof.
  unfold to_local_part, to_local_spk. destruct (dustWsh p <=? localAmount p); [|done].
  by destruct (taprootToLocalScript p).
Qed.

Lemma to_remote_entries p rs script :
  to_remote_part p = Ok (rs, script) ->
  rs = if remote_dust p <=? remoteAmount p
       then [main_output to_remote (to_remote_spk p) (remoteAmount p)] else [].
Proof.
  unfold to_remote_part, remote_dust, to_remote_spk. intros H.
  destruct (taprootToRemoteScript p) as [spk|].
  - apply bind_Ok_inv in H as ([] & _ & H). destruct (dustWsh p <=? remoteAmount p); congruence.
  - destruct (useAnchors p).
    + destruct (dustWsh p <=? remoteAmount p); cbn in H; congruence.
    + apply bind_Ok_inv in H as ([] & _ & H). destruct (dustWpkh p <=? remoteAmount p); congruence.
Qed.

Lemma outputs_shape p outs s1 s2 :
  commitment_outputs p = Ok (outs, s1, s2) ->
  let mains := (if dustWsh p <=? localAmount p
                then [main_output to_local (to_local_spk p) (localAmount p)] else []) ++
               (if remote_dust p <=? remoteAmount p
                then [main_output to_remote (to_remote_spk p) (remoteAmount p)] else []) ++
               htlc_part (dustWsh p) 0 (htlcOutputs p) in
  outs = mains ++ anchor_part p mains.
Proof.
  unfold commitment_outputs. pose proof (to_local_entries p) as Hl.
  destruct (to_local_part p) as [ls l1]. simpl in Hl. rewrite <- Hl. intros H.
  apply bind_Ok_inv in H as ([rs r1] & Hr & H). apply to_remote_entries in Hr. rewrite <- Hr.
  by injection H as <- _ _.
Qed.

Lemma anchor_part_kind p l o :
  In o (anchor_part p l) -> o_type o = anchor_local \/ o_type o = anchor_remote.
Proof.
  unfold anchor_part. destruct (useAnchors p), (localFundingPubkey p), (remoteFundingPubkey p);
    try done. rewrite in_app_iff.
  intros [H|H]; case_match; try done; destruct H as [<-|[]]; auto.
Qed.

Lemma outputs_in p outs s1 s2 o :
  commitment_outputs p = Ok (outs, s1, s2) -> In o outs ->
  match o_type o with
  | to_local => out o = (to_local_spk p, localAmount p) /\ dustWsh p <= localAmount p
  | to_remote => out o = (to_remote_spk p, remoteAmount p) /\ remote_dust p <= remoteAmount p
  | htlc => exists n h, htlcOutputs p !! n = Some h /\ dustWsh p <= h_amount h /\
      out o = (htlc_spk h, h_amount h) /\ o_htlcIndex o = Some (Z.of_nat n)
  | _ => True
  end.
Proof.
  intros H%outputs_shape Hin. simpl in H. subst outs. rewrite !in_app_iff in Hin.
  destruct Hin as [[Hin|[Hin|Hin]]|Hin].
  - destruct (Z.leb_spec (dustWsh p) (localAmount p)); [|done]. by destruct Hin as [<-|[]].
  - destruct (Z.leb_spec (remote_dust p) (remoteAmount p)); [|done]. by destruct Hin as [<-|[]].
  - apply htlc_part_in in Hin as (n & h & Hn & Hd & ->). simpl. by exists n, h.
  - by apply anchor_part_kind in Hin as [-> | ->].
Qed.

(** What a slot of the map says of a main output. *)
Lemma slot_correct p r outs s1 s2 k spk amount dust :
  commitment_outputs p = Ok (outs, s1, s2) ->
  tx_outs (r_tx r) = map out (sort compare_outputs outs) ->
  r_outputMap r = map_outputs empty_map 0 (sort compare_outputs outs) ->
  (k = to_local /\ spk = to_local_spk p /\ amount = localAmount p /\ dust = dustWsh p) \/
  (k = to_remote /\ spk = to_remote_spk p /\ amount = remoteAmount p /\ dust = remote_dust p) ->
  match slot k (r_outputMap r) with
  | Some j => dust <= amount /\ tx_outs (r_tx r) !! Z.to_nat j = Some (spk, amount)
  | None => amount < dust
  end.
Proof.
  intros Hc Ho -> Hk. assert (Hne : k <> htlc) by (by destruct Hk as [[-> _]|[-> _]]).
  pose proof (map_outputs_slot k (sort compare_outputs outs) Hne empty_map 0) as Hs.
  assert (He : slot k empty_map = None) by (by destruct Hk as [[-> _]|[-> _]]).
  destruct (slot k (map_outputs _ _ _)) as [j|].
  - destruct Hs as [Hs|(Hj & o & Hlo & Hty)]; [congruence|]. rewrite Z.sub_0_r in Hlo.
    assert (Hin : In o outs).
    { eapply Permutation_in; [apply sort_perm|]. apply list_elem_of_In.
      by eapply list_elem_of_lookup_2. }
    pose proof (outputs_in p outs s1 s2 o Hc Hin) as Hx. rewrite Hty in Hx.
    rewrite Ho. unfold out in *.
    destruct Hk as [(-> & -> & -> & ->)|(-> & -> & -> & ->)]; destruct Hx as [Hx Hd];
      (split; [done|]); rewrite list_lookup_fmap, Hlo; simpl; by rewrite Hx.
  - destruct Hs as [_ Ht]. unfold has_type in Ht. rewrite (existsb_perm _ _ _ (sort_perm _ outs)) in Ht.
    apply outputs_shape in Hc. simpl in Hc. rewrite Hc, !existsb_app in Ht.
    destruct (Z.lt_ge_cases amount dust) as [|Hge]; [done|]. exfalso.
    destruct Hk as [(-> & -> & -> & ->)|(-> & -> & -> & ->)];
      rewrite (proj2 (Z.leb_le _ _) Hge) in Ht; simpl in Ht;
      by rewrite ?orb_true_r in Ht.
Qed.

(** The HTLC at a position is one of the untrimmed HTLCs of the parameters. *)
Lemma htlc_members p outs s1 s2 :
  commitment_outputs p = Ok (outs, s1, s2) ->
  forall x, In x (htlc_positions 0 (sort compare_outputs outs)) -> exists n h,
    sort compare_outputs outs !! Z.to_nat x.1 = Some x.2 /\ htlcOutputs p !! n = Some h /\
    dustWsh p <= h_amount h /\ out x.2 = (htlc_spk h, h_amount h) /\
    o_htlcIndex x.2 = Some (Z.of_nat n).
Proof.
  intros Hc [j o] Hx. apply htlc_positions_in in Hx as (Hj & Hl & Hty). rewrite Z.sub_0_r in Hl.
  assert (Hin : In o outs).
  { eapply Permutation_in; [apply sort_perm|]. apply list_elem_of_In.
    by eapply list_elem_of_lookup_2. }
  pose proof (outputs_in p outs s1 s2 o Hc Hin) as Hx. rewrite Hty in Hx.
  destruct Hx as (n & h & Hx). by exists n, h.
Qed.

(** ** Amounts *)

Definition total (l : list (buffer * Z)) : Z := fold_right (fun o acc => o.2 + acc) 0 l.

Lemma total_app a b : total (a ++ b) = total a + total b.
Proof. induction a as [|x a IH]; [done|]. simpl. lia. Qed.

Lemma total_perm a b : Permutation a b -> total a = total b.
Proof. induction 1; simpl; lia. Qed.

Definition kept (amount dust : Z) : Z := if dust <=? amount then amount else 0.

Definition htlc_total (dust : Z) (hs : list IHtlcOutput) : Z :=
  fold_right (fun h acc => kept (h_amount h) dust + acc) 0 hs.

Lemma total_htlcs dust hs i : total (map out (htlc_part dust i hs)) = htlc_total dust hs.
Proof.
  revert i. induction hs as [|h hs IH]; intros i; [done|]. simpl.
  rewrite map_app, total_app, IH. unfold kept. destruct (dust <=? h_amount h); simpl; lia.
Qed.

(** BOLT 3: a side has an anchor when it has a main output or an HTLC is left. *)
Definition anchor_count (p : ICommitmentTxParams) : Z :=
  let htlcs := existsb (fun h => dustWsh p <=? h_amount h) (htlcOutputs p) in
  match useAnchors p, localFundingPubkey p, remoteFundingPubkey p with
  | true, Some _, Some _ =>
      Z.b2z ((dustWsh p <=? localAmount p) || htlcs) +
      Z.b2z ((remote_dust p <=? remoteAmount p) || htlcs)
  | _, _, _ => 0
  end.

(** ** Theorems *)

Lemma build_total p r : buildCommitmentTx p = Ok r ->
  total (tx_outs (r_tx r)) =
    kept (localAmount p) (dustWsh p) + kept (remoteAmount p) (remote_dust p) +
    htlc_total (dustWsh p) (htlcOutputs p) + ANCHOR_OUTPUT_VALUE * anchor_count p.
Proof.
  intros Hb. destruct (build_inv p r Hb) as (outs & s1 & s2 & Hc & Ho & _).
  rewrite Ho, (total_perm _ (map out outs)) by (apply Permutation_map, sort_perm).
  rewrite (outputs_shape _ _ _ _ Hc), !map_app, !total_app, total_htlcs. unfold anchor_part.
  rewrite !has_type_app, !has_type_htlcs. unfold anchor_count, kept.
  destruct (useAnchors p), (localFundingPubkey p), (remoteFundingPubkey p);
    destruct (dustWsh p <=? localAmount p), (remote_dust p <=? remoteAmount p);
    try (destruct (existsb (fun h => dustWsh p <=? h_amount h) (htlcOutputs p))); simpl; lia.
Qed.

(** The outputs pay exactly the amounts that reach
    their dust limit, plus 330 satoshi per anchor: nothing else is added, and
    only dust is left to the fee. *)
Theorem commitment_conserves_value p r (Hb : buildCommitmentTx p = Ok r) :
  total (tx_outs (r_tx r)) =
    kept (localAmount p) (dustWsh p) + kept (remoteAmount p) (remote_dust p) +
    htlc_total (dustWsh p) (htlcOutputs p) + ANCHOR_OUTPUT_VALUE * anchor_count p.
Proof. by apply build_total. Qed.

Lemma kept_le x d : 0 <= x -> 0 <= kept x d <= x.
Proof. unfold kept. intros. destruct (d <=? x); lia. Qed.

Definition htlc_sum (hs : list IHtlcOutput) : Z := fold_right (fun h acc => h_amount h + acc) 0 hs.

Lemma htlc_total_le d hs :
  Forall (fun h => 0 <= h_amount h) hs -> htlc_total d hs <= htlc_sum hs.
Proof.
  induction 1 as [|h hs Hh _ IH]; simpl; [done|]. pose proof (kept_le _ d Hh). lia.
Qed.

Lemma anchor_count_le p : 0 <= anchor_count p <= (if useAnchors p then 2 else 0).
Proof.
  unfold anchor_count. destruct (useAnchors p); [|done].
  destruct (localFundingPubkey p), (remoteFundingPubkey p); try lia.
  destruct (_ || _), (_ || _); simpl; lia.
Qed.

(** The outputs never exceed what the parameters assign. *)
Lemma build_total_le p r : buildCommitmentTx p = Ok r ->
  0 <= localAmount p -> 0 <= remoteAmount p ->
  Forall (fun h => 0 <= h_amount h) (htlcOutputs p) ->
  total (tx_outs (r_tx r)) <=
    localAmount p + remoteAmount p + htlc_sum (htlcOutputs p) +
    (if useAnchors p then ANCHOR_TOTAL_COST else 0).
Proof.
  intros Hb Hl Hr Hh. rewrite (build_total _ _ Hb).
  pose proof (kept_le _ (dustWsh p) Hl). pose proof (kept_le _ (remote_dust p) Hr).
  pose proof (htlc_total_le (dustWsh p) _ Hh). pose proof (anchor_count_le p).
  unfold ANCHOR_TOTAL_COST, ANCHOR_OUTPUT_VALUE in *. destruct (useAnchors p); lia.
Qed.

Lemma build_perm p hs hs' r :
  Permutation hs hs' -> buildCommitmentTx (with_htlcs p hs) = Ok r ->
  exists r', buildCommitmentTx (with_htlcs p hs') = Ok r' /\ r_tx r' = r_tx r.
Proof.
  intros Hperm Hb.
  unfold buildCommitmentTx in *. apply bind_Ok_inv in Hb as ([[outs s1] s2] & Hc & Hb).
  destruct (outputs_perm _ _ _ _ _ _ Hperm Hc) as (outs' & Hc' & Hp). rewrite Hc', bind_Ok.
  eexists. split; [done|]. injection Hb as <-. cbn [r_tx]. f_equal.
  apply sorted_unique; [apply outs_sorted | apply outs_sorted|].
  fold out. rewrite !sort_perm. by symmetry.
Qed.

(** Both peers sign the same transaction: it
    does not depend on the order in which a side lists the HTLCs. *)
Theorem commitment_order_independent p hs hs' r
    (Hperm : Permutation hs hs') (Hb : buildCommitmentTx (with_htlcs p hs) = Ok r) :
  exists r', buildCommitmentTx (with_htlcs p hs') = Ok r' /\ r_tx r' = r_tx r.
Proof. by apply (build_perm p hs). Qed.

(** The outputs are in BIP 69 order, and
    neighbouring HTLC outputs with the same value and script are in the order of
    their expiry. *)
Theorem commitment_outputs_sorted p r (Hb : buildCommitmentTx p = Ok r) :
  StronglySorted bip69_le (tx_outs (r_tx r)) /\
  exists outs s1 s2, commitment_outputs p = Ok (outs, s1, s2) /\
    tx_outs (r_tx r) = map out (sort compare_outputs outs) /\
    Sorted (fun a b => o_value a = o_value b -> o_script a = o_script b ->
              o_type a = htlc -> o_type b = htlc ->
              forall x y, o_cltvExpiry a = Some x -> o_cltvExpiry b = Some y -> x <= y)
      (sort compare_outputs outs).
Proof.
  destruct (build_inv p r Hb) as (outs & s1 & s2 & Hc & Ho & _).
  split; [rewrite Ho; apply outs_sorted|]. exists outs, s1, s2. split; [done|]. split; [done|].
  assert (Hkey : forall a b, o_value a = o_value b -> o_script a = o_script b ->
    o_type a = htlc -> o_type b = htlc -> forall x y, o_cltvExpiry a = Some x ->
    o_cltvExpiry b = Some y -> compare_outputs a b = x - y).
  { intros a b H1 H2 H3 H4 x y H5 H6. unfold compare_outputs.
    by rewrite H1, H2, H3, H4, H5, H6, Z.eqb_refl, buf_compare_refl. }
  apply (sort_sorted compare_outputs); intros a b Hab H1 H2 H3 H4 x y H5 H6.
  - rewrite (Hkey a b H1 H2 H3 H4 x y H5 H6) in Hab. lia.
  - rewrite (Hkey a b (eq_sym H1) (eq_sym H2) H4 H3 y x H6 H5) in Hab. lia.
Qed.

(** The output map names the outputs it says. A
    main output is present exactly when its amount reaches the dust limit, and is
    then where the map says; the k-th HTLC position holds the HTLC that the k-th
    original index names; and an HTLC is listed exactly when it is not dust. *)
Theorem commitment_map_correct p r (Hb : buildCommitmentTx p = Ok r) :
  let m := r_outputMap r in
  (match om_toLocal m with
   | Some j => dustWsh p <= localAmount p /\
       tx_outs (r_tx r) !! Z.to_nat j = Some (to_local_spk p, localAmount p)
   | None => localAmount p < dustWsh p end) /\
  (match om_toRemote m with
   | Some j => remote_dust p <= remoteAmount p /\
       tx_outs (r_tx r) !! Z.to_nat j = Some (to_remote_spk p, remoteAmount p)
   | None => remoteAmount p < remote_dust p end) /\
  (forall k i j, om_htlcs m !! k = Some i -> om_htlcOriginalIndices m !! k = Some j ->
     exists h, htlcOutputs p !! Z.to_nat j = Some h /\
       tx_outs (r_tx r) !! Z.to_nat i = Some (htlc_spk h, h_amount h)) /\
  (forall n h, htlcOutputs p !! n = Some h ->
     (dustWsh p <= h_amount h <-> In (Z.of_nat n) (om_htlcOriginalIndices m))).
Proof.
  destruct (build_inv p r Hb) as (outs & s1 & s2 & Hc & Ho & Hm). cbv zeta.
  split; [|split].
  - apply (slot_correct p r outs s1 s2 to_local (to_local_spk p) (localAmount p) (dustWsh p)); auto.
  - apply (slot_correct p r outs s1 s2 to_remote (to_remote_spk p) (remoteAmount p) (remote_dust p)); auto.
  - set (l := sort compare_outputs outs) in *.
    destruct (map_outputs_htlcs l empty_map 0) as [Hh Hi]. rewrite Hm, Hh, Hi. cbn [om_htlcs om_htlcOriginalIndices empty_map app].
    pose proof (htlc_members p outs s1 s2 Hc) as Hin. fold l in Hin.
    split.
    + intros k i j Hk Hk'. rewrite list_lookup_fmap in Hk. rewrite list_lookup_fmap in Hk'.
      destruct (htlc_positions 0 l !! k) as [x|] eqn:Ex; [|done].
      injection Hk as <-. injection Hk' as <-.
      destruct (Hin x) as (n & h & Hl & Hn & Hd & Hout & Hidx);
        [apply list_elem_of_In; by eapply list_elem_of_lookup_2|].
      exists h. rewrite Hidx. simpl. rewrite Nat2Z.id. split; [done|].
      rewrite Ho, list_lookup_fmap, Hl. simpl. by rewrite Hout.
    + intros n h Hn. rewrite in_map_iff. split.
      * intros Hd. assert (Hino : In {| o_script := htlc_spk h; o_value := h_amount h; o_type := htlc;
            o_htlcIndex := Some (Z.of_nat n); o_cltvExpiry := Some (h_cltvExpiry h) |} l).
        { eapply Permutation_in; [symmetry; apply sort_perm|]. rewrite (outputs_shape _ _ _ _ Hc).
          rewrite !in_app_iff. left. right. right. apply htlc_part_in. exists n, h. done. }
        apply list_elem_of_In, list_elem_of_lookup in Hino as [j Hj].
        eexists (Z.of_nat j, _). split; [|apply htlc_positions_in; split; [lia|];
          rewrite Z.sub_0_r, Nat2Z.id; split; [exact Hj|done]]. done.
      * intros (x & Hx & Hinx). destruct (Hin x Hinx) as (n' & h' & Hl & Hn' & Hd & Hout & Hidx).
        rewrite Hidx in Hx. simpl in Hx. assert (n' = n) by lia. subst. congruence.
Qed.

(** ** The obscured commitment number *)

Lemma obscure_mask_bound a b : 0 <= obscure_mask a b < 2 ^ 48.
Proof.
  unfold obscure_mask. set (h := sha256 _). cbn [fold_left].
  pose proof (byte_at_range h 26). pose proof (byte_at_range h 27). pose proof (byte_at_range h 28).
  pose proof (byte_at_range h 29). pose proof (byte_at_range h 30). pose proof (byte_at_range h 31).
  rewrite Z.shiftl_0_l, Z.lor_0_l.
  repeat rewrite lor_shiftl_add by lia. lia.
Qed.

Lemma testbit_ones24 i : 0 <= i -> Z.testbit 0xffffff i = (i <? 24).
Proof. intros Hi. change 0xffffff with (Z.ones 24). by rewrite Z.testbit_ones_nonneg by lia. Qed.

Lemma testbit_pow2 k i : 0 <= k -> 0 <= i -> Z.testbit (2 ^ k) i = (i =? k).
Proof. intros. rewrite Z.pow2_bits_eqb by lia. apply Z.eqb_sym. Qed.

(** Reassembling the two 24-bit halves. *)
Lemma halves_roundtrip n : 0 <= n < 2 ^ 48 ->
  Z.lor (Z.shiftl (Z.land ((Z.lor 0x80000000 (Z.land (Z.shiftr n 24) 0xffffff)) mod 2 ^ 32)
                     0xffffff) 24)
        (Z.land (Z.lor 0x20000000 (Z.land n 0xffffff)) 0xffffff) = n.
Proof.
  intros Hn. apply Z.bits_inj'. intros i Hi. change 0x80000000 with (2 ^ 31).
  change 0x20000000 with (2 ^ 29). rewrite Z.lor_spec, Z.shiftl_spec, !Z.land_spec by lia.
  rewrite (testbit_ones24 i) by lia. destruct (Z.ltb_spec i 24).
  - rewrite !(Z.testbit_neg_r _ (i - 24)) by lia. cbn [orb andb].
    rewrite Z.lor_spec, Z.land_spec, testbit_pow2, (testbit_ones24 i) by lia.
    rewrite (proj2 (Z.eqb_neq i 29)), (proj2 (Z.ltb_lt i 24)) by lia. simpl. by rewrite !andb_true_r.
  - rewrite andb_false_r, orb_false_r, (testbit_ones24 (i - 24)) by lia.
    destruct (decide (i < 48)).
    + rewrite (proj2 (Z.ltb_lt (i - 24) 24)), Z.mod_pow2_bits_low by lia.
      rewrite Z.lor_spec, Z.land_spec, Z.shiftr_spec, testbit_pow2, (testbit_ones24 (i - 24)) by lia.
      rewrite (proj2 (Z.eqb_neq (i - 24) 31)), (proj2 (Z.ltb_lt (i - 24) 24)) by lia. simpl.
      rewrite !andb_true_r. f_equal. lia.
    + rewrite (proj2 (Z.ltb_ge (i - 24) 24)), andb_false_r by lia. symmetry.
      destruct (Z.eq_dec n 0) as [->|]; [apply Z.bits_0|].
      apply Z.bits_above_log2; [lia|]. apply Z.log2_lt_pow2; [lia|].
      pose proof (Z.pow_le_mono_r 2 48 i). lia.
Qed.

Lemma lxor_bound a b n : 0 <= n -> 0 <= a < 2 ^ n -> 0 <= b < 2 ^ n -> 0 <= Z.lxor a b < 2 ^ n.
Proof.
  intros Hn Ha Hb. assert (Hx : 0 <= Z.lxor a b) by (apply Z.lxor_nonneg; lia). split; [done|].
  destruct (Z.eq_dec (Z.lxor a b) 0) as [->|]; [lia|]. apply Z.log2_lt_pow2; [lia|].
  pose proof (Z.log2_lxor a b ltac:(lia) ltac:(lia)).
  assert (Hlog : forall x, 0 <= x < 2 ^ n -> 0 < n -> Z.log2 x < n).
  { intros x Hx' Hn'. destruct (Z.eq_dec x 0) as [->|]; [simpl; lia|]. apply Z.log2_lt_pow2; lia. }
  destruct (Z.eq_dec n 0) as [->|]; [rewrite Z.pow_0_r in *; assert (a = 0) by lia; assert (b = 0) by lia; by subst|].
  pose proof (Hlog a Ha). pose proof (Hlog b Hb). lia.
Qed.

(** The commitment number a transaction was built
    for is read back from its locktime and sequence, whatever the keys. *)
Theorem commitment_number_roundtrip p r a b n
    (Hn : 0 <= n < 2 ^ 48)
    (Hp : obscuredCommitmentNumber p = calculateObscuredCommitmentNumber a b n)
    (Hb : buildCommitmentTx p = Ok r) :
  extractCommitmentNumber (r_tx r) a b = Some n.
Proof.
  unfold buildCommitmentTx in Hb. apply bind_Ok_inv in Hb as ([[outs s1] s2] & _ & Hb).
  injection Hb as <-. unfold extractCommitmentNumber. cbn [r_tx tx_ins tx_locktime].
  rewrite Hp. unfold calculateObscuredCommitmentNumber.
  rewrite halves_roundtrip by (apply lxor_bound; [lia|done|apply obscure_mask_bound]).
  by rewrite Z.lxor_assoc, Z.lxor_nilpotent, Z.lxor_0_r.
Qed.

End Commitment.

(** ** Witnesses, with toy scripts *)

Definition toy_compile (cs : list chunk) : buffer :=
  concat (map (fun c => match c with Op o => [byte_of_Z o] | Push d => d end) cs).
Definition toy_number (n : Z) : buffer := be 2 n.
Definition toy_wsh (s : buffer) : buffer := x00 :: x20 :: s.
Definition toy_wpkh (s : buffer) : buffer := x00 :: x14 :: s.
Definition toy_sha (b : buffer) : buffer := take 32 (reverse b ++ alloc 32).

Definition toy_htlc (amount expiry : Z) : IHtlcOutput :=
  {| h_script := [x51]; h_amount := amount; h_cltvExpiry := expiry; h_paymentHash := [];
     h_taprootScript := None |}.

Definition toy_params : ICommitmentTxParams :=
  {| fundingTxid := alloc 32; fundingOutputIndex := 0;
     obscuredCommitmentNumber := calculateObscuredCommitmentNumber toy_sha [x02] [x03] 42;
     localAmount := 40000; revocationPubkey := [x01]; localDelayedPubkey := [x02];
     toSelfDelay := 144; leaseCsv := None; remoteAmount := 200; remotePaymentPubkey := [x03];
     toRemoteLeaseCsv := None;
     htlcOutputs := [toy_htlc 1000 900; toy_htlc 1000 800; toy_htlc 10 700];
     dustLimitSatoshis := Some 354; useAnchors := true; localFundingPubkey := Some [x04];
     remoteFundingPubkey := Some [x05]; taprootToLocalScript := None;
     taprootToRemoteScript := None; taprootAnchorLocalScript := None;
     taprootAnchorRemoteScript := None |}.

Definition toy_build := buildCommitmentTx toy_compile toy_number toy_wsh toy_wpkh.

Definition empty_result : ICommitmentTxResult :=
  {| r_tx := {| tx_version := 0; tx_locktime := 0; tx_ins := []; tx_outs := [] |};
     r_toLocalScript := None; r_toRemoteScript := None; r_outputMap := empty_map |}.

Definition toy_result : ICommitmentTxResult :=
  match toy_build toy_params with Ok r => r | Err _ => empty_result end.

Lemma commitment_order_independent_witness :
  exists r', toy_build (with_htlcs toy_params
      [toy_htlc 1000 800; toy_htlc 1000 900; toy_htlc 10 700]) = Ok r' /\
    r_tx r' = r_tx toy_result.
Proof.
  apply (commitment_order_independent toy_compile toy_number toy_wsh toy_wpkh toy_params
           (htlcOutputs toy_params)); [apply perm_swap | reflexivity].
Defined.

Lemma commitment_outputs_sorted_witness : StronglySorted bip69_le (tx_outs (r_tx toy_result)).
Proof.
  apply (commitment_outputs_sorted toy_compile toy_number toy_wsh toy_wpkh toy_params toy_result).
  reflexivity.
Defined.

Lemma commitment_map_correct_witness :
  r_outputMap toy_result =
    {| om_toLocal := Some 4; om_toRemote := None; om_htlcs := [2; 3];
       om_htlcOriginalIndices := [1; 0]; om_anchorLocal := Some 0; om_anchorRemote := Some 1 |} /\
  exists h, htlcOutputs toy_params !! 1%nat = Some h /\
    tx_outs (r_tx toy_result) !! 2%nat = Some (htlc_spk toy_wsh h, h_amount h).
Proof.
  split; [reflexivity|].
  destruct (commitment_map_correct toy_compile toy_number toy_wsh toy_wpkh toy_params toy_result
              eq_refl) as (_ & _ & H & _).
  exact (H 0%nat 2 1 eq_refl eq_refl).
Defined.

Lemma commitment_conserves_value_witness :
  total (tx_outs (r_tx toy_result)) = 40000 + 0 + 2000 + 330 * 2.
Proof.
  exact (commitment_conserves_value toy_compile toy_number toy_wsh toy_wpkh toy_params toy_result
           eq_refl).
Defined.

Lemma commitment_number_roundtrip_witness :
  extractCommitmentNumber toy_sha (r_tx toy_result) [x02] [x03] = Some 42.
Proof.
  apply (commitment_number_roundtrip toy_sha toy_compile toy_number toy_wsh toy_wpkh toy_params
           toy_result [x02] [x03] 42); [lia | reflexivity | reflexivity].
Defined.
