(* ===== verification/Quiescence.v ===== *)
(** * Quiescence (stfu)
      (src/src/lightning/channel/quiescence.ts and the stfu handlers of channel.ts)

    [Manager] is the class QuiescenceManager.  [Handlers] are the channel methods
    that drive it: initiateQuiescence, handleStfuMessage, _maybeAnswerOwedStfu and
    exitQuiescence ([channel_exitQuiescence]), up to the point where handleStfuMessage hands over to a pending
    splice, conflict request or FFOR activation.  [Link] composes two channels over
    two ordered streams, the way the peers run the handshake, and shows that it
    ends with both sides quiescent and agreeing on one session initiator.

    What the handlers read from the rest of the channel is their argument [env]:
    whether the channel state admits the handshake, whether HTLCs are pending, and
    the refusal of the FFOR module. *)

From S2P Require Import Prelude.

Module Manager.

Inductive QuiescenceState := NORMAL | SENT_STFU | RECEIVED_STFU | QUIESCENT.

#[global] Instance QuiescenceState_eq_dec : EqDecision QuiescenceState.
Proof. solve_decision. Defined.

Record QuiescenceManager := { state : QuiescenceState; _initiator : bool }.

Definition new_manager : QuiescenceManager := {| state := NORMAL; _initiator := false |}.

Definition isQuiescent (q : QuiescenceManager) : bool := bool_decide (state q = QUIESCENT).

Definition isQuiescing (q : QuiescenceManager) : bool := negb (bool_decide (state q = NORMAL)).

Definition peerHasSentStfu (q : QuiescenceManager) : bool :=
  bool_decide (state q = RECEIVED_STFU) || bool_decide (state q = QUIESCENT).

Definition isInitiator (q : QuiescenceManager) : bool := _initiator q.

Definition initiate (q : QuiescenceManager) : QuiescenceManager * bool :=
  if negb (bool_decide (state q = NORMAL)) then (q, false)
  else ({| state := SENT_STFU; _initiator := true |}, true).

Record PeerStfuResult := { shouldRespond : bool; error : option string }.

Definition handlePeerStfu (q : QuiescenceManager) (peerInitiator localIsOpener : bool)
    : QuiescenceManager * PeerStfuResult :=
  match state q with
  | NORMAL =>
      ({| state := RECEIVED_STFU; _initiator := false |},
       {| shouldRespond := true; error := None |})
  | SENT_STFU =>
      ({| state := QUIESCENT;
          _initiator := if peerInitiator then localIsOpener else _initiator q |},
       {| shouldRespond := false; error := None |})
  | RECEIVED_STFU | QUIESCENT =>
      (q, {| shouldRespond := false; error := Some "Unexpected STFU in current state" |})
  end.

Definition completeHandshake (q : QuiescenceManager) : QuiescenceManager :=
  match state q with
  | RECEIVED_STFU => {| state := QUIESCENT; _initiator := _initiator q |}
  | _ => q
  end.

Definition exitQuiescence (q : QuiescenceManager) : QuiescenceManager * bool :=
  if negb (bool_decide (state q = QUIESCENT)) then (q, false)
  else ({| state := NORMAL; _initiator := false |}, true).

Definition reset (q : QuiescenceManager) : QuiescenceManager := new_manager.

End Manager.

Module Handlers.
Import Manager.

(** The part of a channel the stfu handlers read and write: the manager, its
    copy in the persisted state, the owed reply, the FFOR stale-reply flag and
    the role. *)
Record qchannel := {
  _quiescence : QuiescenceManager;
  quiescenceState : QuiescenceState;
  quiescenceInitiator : bool;
  _stfuReplyOwed : bool;
  _fforStfuReplyStale : bool;
  is_opener : bool
}.

Record env := {
  state_normal : bool;
  admits_state : bool;
  pending_htlcs : bool;
  ffor_refusal : option string
}.

Inductive action :=
| SEND_STFU (initiator : bool)
| PERSIST_STATE
| ERROR (message : string)
| FAIL_CHANNEL (message : string).

Definition set_manager (c : qchannel) (q : QuiescenceManager) : qchannel :=
  {| _quiescence := q; quiescenceState := quiescenceState c;
     quiescenceInitiator := quiescenceInitiator c; _stfuReplyOwed := _stfuReplyOwed c;
     _fforStfuReplyStale := _fforStfuReplyStale c; is_opener := is_opener c |}.

(** [this._state.quiescenceState = ...; this._state.quiescenceInitiator = ...] *)
Definition set_persisted (c : qchannel) (s : QuiescenceState) (i : bool) : qchannel :=
  {| _quiescence := _quiescence c; quiescenceState := s; quiescenceInitiator := i;
     _stfuReplyOwed := _stfuReplyOwed c; _fforStfuReplyStale := _fforStfuReplyStale c;
     is_opener := is_opener c |}.

Definition set_owed (c : qchannel) (owed : bool) : qchannel :=
  {| _quiescence := _quiescence c; quiescenceState := quiescenceState c;
     quiescenceInitiator := quiescenceInitiator c; _stfuReplyOwed := owed;
     _fforStfuReplyStale := _fforStfuReplyStale c; is_opener := is_opener c |}.

Definition clear_stale (c : qchannel) : qchannel :=
  {| _quiescence := _quiescence c; quiescenceState := quiescenceState c;
     quiescenceInitiator := quiescenceInitiator c; _stfuReplyOwed := _stfuReplyOwed c;
     _fforStfuReplyStale := false; is_opener := is_opener c |}.

Definition mirror (c : qchannel) : qchannel :=
  set_persisted c (state (_quiescence c)) (isInitiator (_quiescence c)).

Definition initiateQuiescence (e : env) (c : qchannel) : qchannel * list action :=
  if negb (state_normal e) then (c, [ERROR "Cannot quiesce: channel not in NORMAL state"])
  else match ffor_refusal e with
  | Some r => (c, [ERROR (String.append "Cannot quiesce: " r)])
  | None =>
      if pending_htlcs e then (c, [ERROR "Cannot quiesce: pending HTLCs exist"])
      else
        let '(q, started) := initiate (_quiescence c) in
        if negb started then (c, [ERROR "Cannot quiesce: already quiescing"])
        else (set_persisted (set_manager c q) SENT_STFU true, [SEND_STFU true])
  end.

Definition _maybeAnswerOwedStfu (e : env) (c : qchannel) : qchannel * list action :=
  if negb (_stfuReplyOwed c) then (c, [])
  else if negb (admits_state e) then (c, [])
  else if pending_htlcs e then (c, [])
  else
    let c := set_owed c false in
    let c := set_manager c (completeHandshake (_quiescence c)) in
    (mirror c, [PERSIST_STATE; SEND_STFU false]).

Definition handleStfuMessage (e : env) (msg_initiator : bool) (c : qchannel)
    : qchannel * list action :=
  if _fforStfuReplyStale c && negb msg_initiator then (clear_stale c, [])
  else if negb (admits_state e) then (c, [ERROR "Unexpected STFU: channel not in NORMAL state"])
  else match ffor_refusal e with
  | Some r => (c, [FAIL_CHANNEL r])
  | None =>
      if pending_htlcs e then
        if negb (bool_decide (state (_quiescence c) = NORMAL)) then
          (c, [ERROR "Cannot accept STFU: pending HTLCs exist"])
        else
          let '(q, latch) := handlePeerStfu (_quiescence c) msg_initiator (is_opener c) in
          match error latch with
          | Some m => (set_manager c q, [ERROR m])
          | None => (mirror (set_owed (set_manager c q) true), [PERSIST_STATE])
          end
      else
        let '(q, result) := handlePeerStfu (_quiescence c) msg_initiator (is_opener c) in
        match error result with
        | Some m => (set_manager c q, [ERROR m])
        | None =>
            let c := set_manager c q in
            if shouldRespond result then
              (mirror (set_manager c (completeHandshake (_quiescence c))), [SEND_STFU false])
            else (mirror c, [])
        end
  end.

Definition channel_exitQuiescence (c : qchannel) : qchannel * list action :=
  let '(q, done) := Manager.exitQuiescence (_quiescence c) in
  if negb done then (c, [ERROR "Cannot exit quiescence: not quiescent"])
  else (set_persisted (set_manager c q) NORMAL false, []).

(** The quiescence part of markForReestablish: quiescence does not survive a
    disconnect. *)
Definition on_disconnect (c : qchannel) : qchannel :=
  {| _quiescence := reset (_quiescence c); quiescenceState := NORMAL;
     quiescenceInitiator := false; _stfuReplyOwed := false; _fforStfuReplyStale := false;
     is_opener := is_opener c |}.

Definition new_channel (opener : bool) : qchannel :=
  {| _quiescence := new_manager; quiescenceState := NORMAL; quiescenceInitiator := false;
     _stfuReplyOwed := false; _fforStfuReplyStale := false; is_opener := opener |}.

End Handlers.

(** ** Two channels over a connection *)

Module Link.
Import Manager Handlers.

Inductive side := A | B.

(** Both ends, the stfu messages in flight in each direction (oldest first),
    and which sides initiated in this session. *)
Record link := {
  chA : qchannel; chB : qchannel;
  toB : list bool; toA : list bool;
  askedA : bool; askedB : bool
}.

Definition stfus (acts : list action) : list bool :=
  flat_map (fun a => match a with SEND_STFU i => [i] | _ => [] end) acts.

Definition failed (acts : list action) : bool :=
  existsb (fun a => match a with ERROR _ | FAIL_CHANNEL _ => true | _ => false end) acts.

Definition flip (l : link) : link :=
  {| chA := chB l; chB := chA l; toB := toA l; toA := toB l;
     askedA := askedB l; askedB := askedA l |}.

(** A channel in its NORMAL state outside an FFOR epoch. *)
Definition quiet_env (pending : bool) : env :=
  {| state_normal := true; admits_state := true; pending_htlcs := pending; ffor_refusal := None |}.

(** The moves of side A; those of side B are the same on the flipped link. *)
Inductive event := Initiate | Deliver (pending : bool) | Answer (pending : bool).

Definition fire (ev : event) (l : link) : link * list action :=
  match ev with
  | Initiate =>
      let '(c, acts) := initiateQuiescence (quiet_env false) (chA l) in
      ({| chA := c; chB := chB l; toB := toB l ++ stfus acts; toA := toA l;
          askedA := askedA l || negb (failed acts); askedB := askedB l |}, acts)
  | Deliver pending =>
      match toA l with
      | [] => (l, [])
      | i :: rest =>
          let '(c, acts) := handleStfuMessage (quiet_env pending) i (chA l) in
          ({| chA := c; chB := chB l; toB := toB l ++ stfus acts; toA := rest;
              askedA := askedA l; askedB := askedB l |}, acts)
      end
  | Answer pending =>
      let '(c, acts) := _maybeAnswerOwedStfu (quiet_env pending) (chA l) in
      ({| chA := c; chB := chB l; toB := toB l ++ stfus acts; toA := toA l;
          askedA := askedA l; askedB := askedB l |}, acts)
  end.

(** [hasPendingHtlcs] when a message is delivered: a side that has sent its own
    stfu has no pending updates left when the peer's stfu arrives, because the
    peer may not send stfu while its updates are pending (BOLT 2). *)
Definition allowed (ev : event) (l : link) : bool :=
  match ev with
  | Deliver true => bool_decide (state (_quiescence (chA l)) = NORMAL)
  | _ => true
  end.

Definition disconnect (l : link) : link :=
  {| chA := on_disconnect (chA l); chB := on_disconnect (chB l); toB := []; toA := [];
     askedA := false; askedB := false |}.

(** Both sides end the session once the dependent protocol is over. *)
Definition leave (l : link) : link :=
  {| chA := fst (channel_exitQuiescence (chA l)); chB := fst (channel_exitQuiescence (chB l));
     toB := toB l; toA := toA l; askedA := false; askedB := false |}.

Inductive step : link -> link -> Prop :=
| step_A ev l : allowed ev l = true -> step l (fst (fire ev l))
| step_B ev l : allowed ev (flip l) = true -> step l (flip (fst (fire ev (flip l))))
| step_disconnect l : step l (disconnect l)
| step_leave l :
    isQuiescent (_quiescence (chA l)) = true -> isQuiescent (_quiescence (chB l)) = true ->
    step l (leave l).

Definition start (openerA : bool) : link :=
  {| chA := new_channel openerA; chB := new_channel (negb openerA); toB := []; toA := [];
     askedA := false; askedB := false |}.

Inductive reachable (openerA : bool) : link -> Prop :=
| reach_start : reachable openerA (start openerA)
| reach_step l l' : reachable openerA l -> step l l' -> reachable openerA l'.

(** ** The invariant: the phases of a handshake *)

Definition chan (s : QuiescenceState) (i owed opener : bool) : qchannel :=
  {| _quiescence := {| state := s; _initiator := i |}; quiescenceState := s;
     quiescenceInitiator := i; _stfuReplyOwed := owed; _fforStfuReplyStale := false;
     is_opener := opener |}.

(** The phases seen from the side [A]; [o] says whether it is the opener. *)
Inductive phase (o : bool) : link -> Prop :=
| ph_idle : phase o {| chA := chan NORMAL false false o; chB := chan NORMAL false false (negb o);
                       toB := []; toA := []; askedA := false; askedB := false |}
| ph_asked : phase o {| chA := chan SENT_STFU true false o;
                        chB := chan NORMAL false false (negb o);
                        toB := [true]; toA := []; askedA := true; askedB := false |}
| ph_crossed : phase o {| chA := chan SENT_STFU true false o;
                          chB := chan SENT_STFU true false (negb o);
                          toB := [true]; toA := [true]; askedA := true; askedB := true |}
| ph_latched : phase o {| chA := chan SENT_STFU true false o;
                          chB := chan RECEIVED_STFU false true (negb o);
                          toB := []; toA := []; askedA := true; askedB := false |}
| ph_replied : phase o {| chA := chan SENT_STFU true false o;
                          chB := chan QUIESCENT false false (negb o);
                          toB := []; toA := [false]; askedA := true; askedB := false |}
| ph_half : phase o {| chA := chan SENT_STFU true false o;
                       chB := chan QUIESCENT (negb o) false (negb o);
                       toB := []; toA := [true]; askedA := true; askedB := true |}
| ph_quiet : phase o {| chA := chan QUIESCENT true false o;
                        chB := chan QUIESCENT false false (negb o);
                        toB := []; toA := []; askedA := true; askedB := false |}
| ph_tied : phase o {| chA := chan QUIESCENT o false o;
                       chB := chan QUIESCENT (negb o) false (negb o);
                       toB := []; toA := []; askedA := true; askedB := true |}.

Definition inv (o : bool) (l : link) : Prop := phase o l \/ phase (negb o) (flip l).

Create HintDb phases.
#[export] Hint Constructors phase : phases.

Lemma flip_flip l : flip (flip l) = l.
Proof. by destruct l. Qed.

Lemma inv_flip o l : inv o l -> inv (negb o) (flip l).
Proof. intros [H|H]; [right | left]; [|done]. by rewrite flip_flip, negb_involutive. Qed.

(** Solve a goal about a concrete phase by evaluation. *)
Ltac phases := cbn; first [left; solve [eauto with phases] | right; solve [eauto with phases]].

Lemma phase_fire o l ev : phase o l -> allowed ev l = true -> inv o (fst (fire ev l)).
Proof.
  intros H Ha. destruct ev as [|p|p]; destruct H, o; try destruct p;
    first [discriminate Ha | phases].
Qed.

Lemma phase_fire_flip o l ev :
  phase o (flip l) -> allowed ev l = true -> inv (negb o) (fst (fire ev l)).
Proof.
  rewrite <- (flip_flip l) at 2 3. generalize (flip l). clear l. intros l H Ha.
  destruct ev as [|p|p]; destruct H, o; try destruct p; first [discriminate Ha | phases].
Qed.

Lemma inv_fire o l ev : inv o l -> allowed ev l = true -> inv o (fst (fire ev l)).
Proof.
  intros [H|H] Ha; [by apply phase_fire|]. rewrite <- (negb_involutive o).
  by apply phase_fire_flip.
Qed.

Lemma inv_cases o l (P : link -> Prop) :
  inv o l -> (forall m, phase o m -> P m) -> (forall m, phase (negb o) m -> P (flip m)) -> P l.
Proof. intros [H|H] H1 H2; [by apply H1|]. rewrite <- (flip_flip l). by apply H2. Qed.

Lemma inv_step o l l' : inv o l -> step l l' -> inv o l'.
Proof.
  intros Hi Hs. destruct Hs as [ev l Ha|ev l Ha|l|l H1 H2].
  - by apply inv_fire.
  - rewrite <- (negb_involutive o). apply inv_flip, inv_fire; [by apply inv_flip|done].
  - left. pattern l; apply (inv_cases o l _ Hi); intros m []; destruct o; exact (ph_idle _).
  - left. revert H1 H2. pattern l; apply (inv_cases o l _ Hi); intros m []; try discriminate; intros _ _;
      destruct o; exact (ph_idle _).
Qed.

Lemma reachable_inv o l : reachable o l -> inv o l.
Proof. induction 1; [left; apply ph_idle | by eapply inv_step]. Qed.

(** ** Theorems *)

(** C39: whenever both sides of a channel
    are quiescent, however their messages crossed, exactly one of them takes the
    session for its own, both persisted copies agree with it, and when both had
    asked it is the channel opener. *)
Theorem quiescence_one_initiator o l
    (Hr : reachable o l)
    (HA : isQuiescent (_quiescence (chA l)) = true)
    (HB : isQuiescent (_quiescence (chB l)) = true) :
  isInitiator (_quiescence (chA l)) = negb (isInitiator (_quiescence (chB l))) /\
  isInitiator (_quiescence (chA l)) = askedA l && (negb (askedB l) || o) /\
  quiescenceInitiator (chA l) = isInitiator (_quiescence (chA l)) /\
  quiescenceInitiator (chB l) = isInitiator (_quiescence (chB l)).
Proof.
  revert HA HB. pattern l; apply (inv_cases o l _ (reachable_inv o l Hr)); intros m []; try discriminate;
    by destruct o.
Qed.

(** A stfu that arrives, and an owed reply
    that is sent, never raise an error and never fail the channel. *)
Theorem quiescence_no_error o l ev
    (Hr : reachable o l) (Ha : allowed ev l = true) (Hev : ev <> Initiate) :
  failed (snd (fire ev l)) = false.
Proof.
  revert Ha. pattern l; apply (inv_cases o l _ (reachable_inv o l Hr)); intros m [];
    destruct ev as [|[]|[]]; done.
Qed.

(** Deliver and answer on both sides, with no HTLC pending any more. *)
Definition settle (l : link) : link :=
  let both ev l := flip (fst (fire ev (flip (fst (fire ev l))))) in
  both (Deliver false) (both (Answer false) (both (Deliver false) l)).

Lemma settle_reachable o l : reachable o l -> reachable o (settle l).
Proof.
  intros H. unfold settle. repeat (eapply reach_step; [|first
    [ apply (step_B (Deliver false)); reflexivity | apply (step_A (Deliver false)); reflexivity
    | apply (step_B (Answer false)); reflexivity | apply (step_A (Answer false)); reflexivity ]]).
  done.
Qed.

(** Once a side has asked, delivering what
    is in flight and sending what is owed leaves both sides quiescent. *)
Theorem quiescence_completes o l
    (Hr : reachable o l) (Hasked : askedA l || askedB l = true) :
  reachable o (settle l) /\
  isQuiescent (_quiescence (chA (settle l))) = true /\
  isQuiescent (_quiescence (chB (settle l))) = true.
Proof.
  split; [by apply settle_reachable|]. revert Hasked.
  pattern l; apply (inv_cases o l _ (reachable_inv o l Hr)); intros m []; try discriminate; done.
Qed.

(** ** Witnesses: both sides ask at once *)

Definition crossing : link :=
  flip (fst (fire Initiate (flip (fst (fire Initiate (start false)))))).

Lemma crossing_reachable : reachable false crossing.
Proof.
  apply (reach_step _ (fst (fire Initiate (start false)))).
  - apply (reach_step _ (start false)); [constructor | by apply step_A].
  - by apply step_B.
Qed.

Lemma quiescence_one_initiator_witness :
  isInitiator (_quiescence (chA (settle crossing))) = false /\
  isInitiator (_quiescence (chB (settle crossing))) = true.
Proof.
  destruct (quiescence_one_initiator false (settle crossing)) as (H1 & H2 & _);
    [apply settle_reachable, crossing_reachable | reflexivity | reflexivity | done].
Defined.

Lemma quiescence_no_error_witness : failed (snd (fire (Deliver false) crossing)) = false.
Proof. by apply (quiescence_no_error false crossing (Deliver false) crossing_reachable). Defined.

Lemma quiescence_completes_witness :
  reachable false (settle crossing) /\
  isQuiescent (_quiescence (chA (settle crossing))) = true /\
  isQuiescent (_quiescence (chB (settle crossing))) = true.
Proof. apply (quiescence_completes false crossing crossing_reachable). reflexivity. Defined.

End Link.
