(* ===== verification/JsMap.v ===== *)
(** * The JavaScript Map with string keys

    An insertion-ordered association list: [set] on a present key keeps its place,
    on an absent one appends; [delete] drops the entry.  [to_map] forgets the
    order, for specifications. *)

From S2P Require Import Prelude.
From stdpp Require Import gmap.

Section Map.
Context {V : Type}.

Definition jsmap := list (string * V).

Fixpoint get (k : string) (m : jsmap) : option V :=
  match m with
  | [] => None
  | (k', v) :: m => if decide (k = k') then Some v else get k m
  end.

Fixpoint set (k : string) (v : V) (m : jsmap) : jsmap :=
  match m with
  | [] => [(k, v)]
  | (k', v') :: m => if decide (k = k') then (k, v) :: m else (k', v') :: set k v m
  end.

Definition del (k : string) (m : jsmap) : jsmap :=
  List.filter (fun p => negb (bool_decide (p.1 = k))) m.

Definition has (k : string) (m : jsmap) : bool :=
  match get k m with Some _ => true | None => false end.

Definition values (m : jsmap) : list V := map snd m.

Definition to_map (m : jsmap) : gmap string V := list_to_map m.

Lemma lookup_to_map k m : to_map m !! k = get k m.
Proof.
  induction m as [|[k' v] m IH]; [done|]. simpl. unfold to_map in *. cbn.
  destruct (decide (k = k')) as [->|]; [by rewrite lookup_insert_eq|].
  by rewrite lookup_insert_ne.
Qed.

Lemma get_set k k' v m : get k (set k' v m) = if decide (k = k') then Some v else get k m.
Proof.
  induction m as [|[k2 v2] m IH]; simpl; [done|].
  destruct (decide (k' = k2)) as [->|]; simpl; [by case_decide|].
  rewrite IH. repeat case_decide; congruence.
Qed.

Lemma get_del k k' m : get k (del k' m) = if decide (k = k') then None else get k m.
Proof.
  induction m as [|[k2 v2] m IH]; simpl; [by case_decide|].
  case_bool_decide; simpl; [subst; rewrite IH; by repeat case_decide|].
  rewrite IH. repeat case_decide; congruence.
Qed.

Lemma to_map_set k v m : to_map (set k v m) = <[k := v]> (to_map m).
Proof.
  apply map_eq. intros i. rewrite lookup_insert, !lookup_to_map, get_set.
  repeat case_decide; congruence.
Qed.

Lemma to_map_del k m : to_map (del k m) = base.delete k (to_map m).
Proof.
  apply map_eq. intros i. rewrite lookup_delete, !lookup_to_map, get_del.
  repeat case_decide; congruence.
Qed.

(** The keys of a map built by [set] and [del] are distinct. *)
Lemma keys_set k v m : NoDup (map fst m) -> NoDup (map fst (set k v m)).
Proof.
  intros H. induction m as [|[k' v'] m IH]; simpl in *; [by repeat constructor; set_solver|].
  apply NoDup_cons in H as [Hn Hd]. case_decide; simpl; subst; [by constructor|].
  constructor; [|by apply IH]. intros Hin. apply Hn. clear IH Hd Hn.
  induction m as [|[k2 v2] m IH]; simpl in *; [set_solver|].
  case_decide; simpl in *; set_solver.
Qed.

Lemma keys_del k m : NoDup (map fst m) -> NoDup (map fst (del k m)).
Proof.
  induction m as [|[k' v'] m IH]; simpl; [done|]. rewrite NoDup_cons. intros [Hn Hd].
  case_bool_decide; simpl; [by apply IH|]. constructor; [|by apply IH].
  intros Hin. apply Hn. clear -Hin. induction m as [|[k2 v2] m IH]; simpl in *; [done|].
  case_bool_decide; simpl in *; set_solver.
Qed.

Lemma get_None k m : k ∉ map fst m -> get k m = None.
Proof.
  induction m as [|[k' v] m IH]; simpl; [done|]. rewrite not_elem_of_cons. intros [Hn Hm].
  rewrite decide_False by done. by apply IH.
Qed.

Lemma get_key k m v : get k m = Some v -> k ∈ map fst m.
Proof.
  destruct (decide (k ∈ map fst m)) as [|Hn]; [done|]. by rewrite (get_None _ _ Hn).
Qed.

Lemma values_set_fresh k v m : get k m = None -> values (set k v m) = values m ++ [v].
Proof.
  induction m as [|[k' v'] m IH]; simpl; [done|].
  destruct (decide (k = k')); [done|]. intros H. unfold values in *. simpl. by rewrite IH.
Qed.

Lemma elem_of_keys_set i k v m : i ∈ map fst (set k v m) -> i = k \/ i ∈ map fst m.
Proof.
  induction m as [|[k' v'] m IH]; simpl; [set_solver|]. case_decide; simpl; set_solver.
Qed.

Lemma elem_of_keys_del i k m : i ∈ map fst (del k m) -> i ∈ map fst m.
Proof.
  induction m as [|[k' v'] m IH]; simpl; [done|]. case_bool_decide; simpl; set_solver.
Qed.

Lemma get_map_values (f : V -> V) k (m : jsmap) : get k (map (fun kv => (kv.1, f kv.2)) m) = f <$> get k m.
Proof. induction m as [|[k' v] m IH]; simpl; [done|]. by case_decide. Qed.

Lemma keys_map_values (f : V -> V) (m : jsmap) :
  map fst (map (fun kv => (kv.1, f kv.2)) m) = map fst m.
Proof. induction m as [|[k' v] m IH]; simpl; [done|]. by rewrite IH. Qed.

(** The values, listed by keys: the order of insertion is forgotten. *)
Lemma values_by_key {K} (key : K -> string) (m : jsmap) (ks : list K) :
  Inj (=) (=) key -> NoDup (map fst m) -> NoDup ks ->
  (forall k, k ∈ map fst m -> exists i, i ∈ ks /\ key i = k) ->
  Permutation (values m) (omap (fun i => get (key i) m) ks).
Proof.
  intros Hinj. revert ks. induction m as [|[k v] m IH]; intros ks Hm Hks Hin.
  - clear. simpl. induction ks; by simpl.
  - simpl in Hm. apply NoDup_cons in Hm as [Hk Hm].
    destruct (Hin k) as (i & Hi & <-); [simpl; set_solver|].
    apply elem_of_Permutation in Hi as [ks' Hp]. rewrite Hp in Hks |- *.
    apply NoDup_cons in Hks as [Hi Hks]. simpl. rewrite decide_True by done. f_equiv.
    rewrite (IH ks' Hm Hks).
    + match goal with |- Permutation ?x ?y => assert (x = y) as -> end; [|done].
      apply list_omap_ext, Forall2_same_length_lookup. split; [done|]. intros n j j' E1 E2.
      simplify_eq. rewrite decide_False; [done|]. intros E%Hinj. subst.
      by apply Hi, list_elem_of_lookup_2 with n.
    + intros k' Hk'. destruct (Hin k') as (j & Hj & <-); [simpl; set_solver|].
      exists j. split; [|done]. rewrite Hp in Hj. apply elem_of_cons in Hj as [->|]; done.
Qed.

End Map.

Arguments jsmap : clear implicits.
