(* ===== verification/Ledger.v ===== *)
(** * The durable record ledger (src/src/lightning/storage/durable-ledger.ts)

    [LedgerStore] is the interface IDurableLedgerStore with what its
    implementations promise; [MemoryLedgerStore] implements it.  [DurableLedger] is
    the in-memory cache with compare-and-swap transitions, proved against the
    interface: over any store, and whatever writes fail, the cache equals the
    store, so a restart loses nothing and a caller that acts on [applied] acts on
    what is on disk.

    A throwing write of the store is an operation that returns [false], a throwing
    loadAll one that returns [None]. *)

From S2P Require Import Prelude JsMap.
From stdpp Require Import gmap.

(** ** Records *)

(** What a ledger asks of a record, and the spread [{ ...r, state: to }]. *)
Class LedgerRecord (R : Type) := {
  rid : R -> string;
  rstate : R -> string;
  with_state : R -> string -> R;
  rid_with_state : forall r s, rid (with_state r s) = rid r;
  rstate_with_state : forall r s, rstate (with_state r s) = s
}.

(** ** The store interface *)

Section Interface.
Context {R : Type} `{LedgerRecord R}.

Inductive write := Put (record : R) | Delete (id : string).

Definition apply_write (m : gmap string R) (w : write) : gmap string R :=
  match w with Put r => <[rid r := r]> m | Delete id => base.delete id m end.

Definition apply_writes (m : gmap string R) (ws : list write) : gmap string R :=
  fold_left apply_write ws m.

Class LedgerStore (S : Type) := {
  st_load : string -> S -> option R;
  st_loadAll : S -> S * option (list R);
  st_put : R -> S -> S * bool;
  st_delete : string -> S -> S * bool;
  st_transaction : list write -> S -> S * bool;
  st_wf : S -> Prop;
  st_view : S -> gmap string R;
  st_load_law : forall id s, st_wf s -> st_load id s = st_view s !! id;
  st_view_law : forall s id r, st_wf s -> st_view s !! id = Some r -> rid r = id;
  st_loadAll_law : forall s s' loaded, st_wf s -> st_loadAll s = (s', loaded) ->
    st_wf s' /\ st_view s' = st_view s /\
    match loaded with
    | Some rows => NoDup (map rid rows) /\ forall id r, st_view s !! id = Some r <-> r ∈ rows /\ rid r = id
    | None => True
    end;
  st_put_law : forall r s s' ok, st_wf s -> st_put r s = (s', ok) ->
    st_wf s' /\ st_view s' = if ok then apply_write (st_view s) (Put r) else st_view s;
  st_delete_law : forall id s s' ok, st_wf s -> st_delete id s = (s', ok) ->
    st_wf s' /\ st_view s' = if ok then apply_write (st_view s) (Delete id) else st_view s;
  st_transaction_law : forall ws s s' ok, st_wf s -> st_transaction ws s = (s', ok) ->
    st_wf s' /\ st_view s' = if ok then apply_writes (st_view s) ws else st_view s
}.

End Interface.

Arguments write : clear implicits.
Arguments LedgerStore R {_} S.

(** ** The in-memory store *)

Module MemoryLedgerStore.
Section Memory.
Context {R : Type} `{LedgerRecord R}.

Definition load (id : string) (rows : jsmap R) : option R := get id rows.
Definition loadAll (rows : jsmap R) : jsmap R * option (list R) := (rows, Some (values rows)).
Definition put (record : R) (rows : jsmap R) : jsmap R * bool :=
  (set (rid record) record rows, true).
Definition delete (id : string) (rows : jsmap R) : jsmap R * bool := (del id rows, true).

(** [transaction(fn)] runs the group inline. *)
Fixpoint transaction (ws : list (write R)) (rows : jsmap R) : jsmap R * bool :=
  match ws with
  | [] => (rows, true)
  | w :: ws =>
      let '(rows, ok) := match w with Put r => put r rows | Delete id => delete id rows end in
      if ok then transaction ws rows else (rows, false)
  end.

Definition wf (rows : jsmap R) : Prop :=
  NoDup (map fst rows) /\ Forall (fun p => rid p.2 = p.1) rows.

Lemma wf_set r rows : wf rows -> wf (set (rid r) r rows).
Proof.
  intros [Hd Hf]. split; [by apply keys_set|]. clear Hd.
  induction Hf as [|[k v] rows Hk Hf IH]; simpl; [by repeat constructor|].
  case_decide; constructor; auto.
Qed.

Lemma wf_del id rows : wf rows -> wf (del id rows).
Proof.
  intros [Hd Hf]. split; [by apply keys_del|]. clear Hd.
  induction Hf as [|[k v] rows Hk Hf IH]; simpl; [constructor|].
  case_bool_decide; simpl; [done|by constructor].
Qed.

Lemma rids_keys rows : Forall (fun p => rid p.2 = p.1) rows -> map rid (values rows) = map fst rows.
Proof.
  intros Hf. unfold values. rewrite map_map. induction Hf as [|p rows Hp Hf IH]; [done|].
  simpl. by rewrite Hp, IH.
Qed.

Lemma get_values rows id r :
  wf rows -> get id rows = Some r <-> r ∈ values rows /\ rid r = id.
Proof.
  intros [Hd Hf]. induction Hf as [|[k v] rows Hk Hf IH]; simpl in *; [set_solver|].
  apply NoDup_cons in Hd as [Hn Hd]. specialize (IH Hd). rewrite elem_of_cons.
  case_decide as E.
  - subst. split; [intros [= <-]; auto|]. intros [[->|Hin] Hr]; [done|].
    exfalso. apply Hn. rewrite <- rids_keys by done. rewrite <- Hr. by apply list_elem_of_fmap_2.
  - rewrite IH. split; [intros [??]; auto|]. intros [[->|?] ?]; [congruence|done].
Qed.

Lemma transaction_spec ws : forall rows s' ok,
  wf rows -> transaction ws rows = (s', ok) ->
  ok = true /\ wf s' /\ to_map s' = apply_writes (to_map rows) ws.
Proof.
  induction ws as [|w ws IH]; intros rows s' ok Hw; cbn [transaction].
  - intros [= <- <-]. done.
  - destruct w as [r|id]; unfold put, delete; intros Ht.
    + destruct (IH _ _ _ (wf_set r rows Hw) Ht) as (-> & H1 & ->). by rewrite to_map_set.
    + destruct (IH _ _ _ (wf_del id rows Hw) Ht) as (-> & H1 & ->). by rewrite to_map_del.
Qed.

#[global] Instance memory_store : LedgerStore R (jsmap R).
Proof.
  refine {| st_load := load; st_loadAll := loadAll; st_put := put; st_delete := delete;
            st_transaction := transaction; st_wf := wf; st_view := to_map |}.
  - intros id rows _. by rewrite lookup_to_map.
  - intros rows id r Hw. rewrite lookup_to_map. by intros [_ ?]%get_values.
  - intros rows s' loaded Hw [= <- <-]. split; [done|]. split; [done|]. split; [rewrite rids_keys; apply Hw|].
    intros id r. rewrite lookup_to_map. by apply get_values.
  - intros r rows s' ok Hw [= <- <-]. split; [by apply wf_set | apply to_map_set].
  - intros id rows s' ok Hw [= <- <-]. split; [by apply wf_del | apply to_map_del].
  - intros ws rows s' ok Hw Ht. by destruct (transaction_spec ws rows s' ok Hw Ht) as (-> & ? & ?).
Defined.

End Memory.
End MemoryLedgerStore.

(** ** The ledger *)

Inductive LedgerTransitionOutcome := applied | stale | missing | storage_failed | not_rehydrated.

#[global] Instance outcome_eq_dec : EqDecision LedgerTransitionOutcome.
Proof. solve_decision. Defined.

Module DurableLedger.
Section Ledger.
Context {R S : Type} `{LedgerRecord R} `{!LedgerStore R S}.

Record ILedgerTransitionResult := {
  outcome : LedgerTransitionOutcome;
  record : option R;
  actualState : option string
}.

Definition outcome_only (o : LedgerTransitionOutcome) : ILedgerTransitionResult :=
  {| outcome := o; record := None; actualState := None |}.

Record ledger := { records : jsmap R; rehydrated : bool; store : S }.

(** [new DurableLedger(store)], also after a restart of the process. *)
Definition new_ledger (s : S) : ledger := {| records := []; rehydrated := false; store := s |}.

Definition set_all (rs : list R) (m : jsmap R) : jsmap R :=
  fold_left (fun m r => set (rid r) r m) rs m.

(** [this.records.clear()] comes first: a loadAll that throws leaves no record in the cache and
    [rehydrated] as it was. *)
Definition rehydrate (l : ledger) : ledger * option Z :=
  let '(s, loaded) := st_loadAll (store l) in
  match loaded with
  | None => ({| records := []; rehydrated := rehydrated l; store := s |}, None)
  | Some rows =>
      let m := set_all rows [] in
      ({| records := m; rehydrated := true; store := s |}, Some (Z.of_nat (length m)))
  end.

Definition lookup (id : string) (l : ledger) : option R := get id (records l).
Definition list_records (l : ledger) : list R := values (records l).
Definition find (p : R -> bool) (l : ledger) : list R := List.filter p (list_records l).

Definition insert (r : R) (l : ledger) : ledger * ILedgerTransitionResult :=
  if negb (rehydrated l) then (l, outcome_only not_rehydrated)
  else match get (rid r) (records l) with
  | Some existing =>
      (l, {| outcome := stale; record := Some existing; actualState := Some (rstate existing) |})
  | None =>
      let '(s, ok) := st_put r (store l) in
      if negb ok then ({| records := records l; rehydrated := rehydrated l; store := s |},
                       outcome_only storage_failed)
      else ({| records := set (rid r) r (records l); rehydrated := rehydrated l; store := s |},
            {| outcome := applied; record := Some r; actualState := None |})
  end.

(** [[...new Set(ids)]]: the first occurrences, in order. *)
Fixpoint unique (seen ids : list string) : list string :=
  match ids with
  | [] => []
  | id :: ids => if decide (id ∈ seen) then unique seen ids else id :: unique (id :: seen) ids
  end.

(** The loop that checks every member before anything is written. *)
Fixpoint check_members (m : jsmap R) (from : list string) (ids : list string)
    : ILedgerTransitionResult + list R :=
  match ids with
  | [] => inr []
  | id :: ids =>
      match get id m with
      | None => inl (outcome_only missing)
      | Some r =>
          if negb (bool_decide (rstate r ∈ from)) then
            inl {| outcome := stale; record := Some r; actualState := Some (rstate r) |}
          else match check_members m from ids with
               | inl e => inl e
               | inr current => inr (r :: current)
               end
      end
  end.

(** [patch] is the [Partial<R>] that is spread over the record. *)
Definition transitionSet (ids from : list string) (to : string) (patch : R -> R) (l : ledger)
    : ledger * ILedgerTransitionResult :=
  if negb (rehydrated l) then (l, outcome_only not_rehydrated)
  else match check_members (records l) from (unique [] ids) with
  | inl refused => (l, refused)
  | inr current =>
      let next := map (fun r => with_state (patch r) to) current in
      let '(s, ok) := st_transaction (map Put next) (store l) in
      if negb ok then ({| records := records l; rehydrated := rehydrated l; store := s |},
                       outcome_only storage_failed)
      else ({| records := set_all next (records l); rehydrated := rehydrated l; store := s |},
            {| outcome := applied; record := head next; actualState := None |})
  end.

Definition transition (id : string) (from : list string) (to : string) (patch : R -> R)
    (l : ledger) : ledger * ILedgerTransitionResult := transitionSet [id] from to patch l.

Definition remove (id : string) (l : ledger) : ledger * bool :=
  if negb (has id (records l)) then (l, false)
  else
    let '(s, ok) := st_delete id (store l) in
    if negb ok then ({| records := records l; rehydrated := rehydrated l; store := s |}, false)
    else ({| records := del id (records l); rehydrated := rehydrated l; store := s |}, true).

Definition del_all (ids : list string) (m : jsmap R) : jsmap R :=
  fold_left (fun m id => del id m) ids m.

Definition removeSet (ids : list string) (l : ledger) : ledger * bool :=
  let present := List.filter (fun id => has id (records l)) (unique [] ids) in
  let '(s, ok) := st_transaction (map Delete present) (store l) in
  if negb ok then ({| records := records l; rehydrated := rehydrated l; store := s |}, false)
  else ({| records := del_all present (records l); rehydrated := rehydrated l; store := s |}, true).

(** ** Lemmas *)

Lemma to_map_set_all rs : forall m,
  to_map (set_all rs m) = apply_writes (to_map m) (map Put rs).
Proof.
  induction rs as [|r rs IH]; intros m; [done|].
  change (set_all (r :: rs) m) with (set_all rs (set (rid r) r m)). by rewrite IH, to_map_set.
Qed.

Lemma to_map_del_all ids : forall m,
  to_map (del_all ids m) = apply_writes (to_map m) (map Delete ids).
Proof.
  induction ids as [|id ids IH]; intros m; [done|].
  change (del_all (id :: ids) m) with (del_all ids (del id m)). by rewrite IH, to_map_del.
Qed.

Lemma del_all_nil ids : del_all ids [] = [].
Proof. by induction ids. Qed.

(** Loading a list of records with distinct ids. *)
Lemma get_set_all rs : forall m id,
  NoDup (map rid rs) ->
  get id (set_all rs m) =
    match List.find (fun r => bool_decide (rid r = id)) rs with
    | Some r => Some r | None => get id m end.
Proof.
  induction rs as [|r rs IH]; intros m id Hd; [done|]. cbn [map] in Hd.
  apply NoDup_cons in Hd as [Hn Hd]. cbn [set_all fold_left List.find].
  fold (set_all rs (set (rid r) r m)). rewrite IH, get_set by done.
  case_bool_decide as E.
  - subst. rewrite decide_True by done. destruct (List.find _ rs) as [r'|] eqn:Ef; [|done].
    apply List.find_some in Ef as [Hin Hr]. apply bool_decide_eq_true in Hr.
    exfalso. apply Hn. rewrite <- Hr. apply list_elem_of_fmap_2. by apply list_elem_of_In.
  - rewrite decide_False by congruence. done.
Qed.

(** The cache equals the store once it is loaded, and is empty before. *)
Definition coherent (l : ledger) : Prop :=
  st_wf (store l) /\
  (if rehydrated l then to_map (records l) = st_view (store l) else records l = []).

Lemma loaded_view s s' rows : st_wf s -> st_loadAll s = (s', Some rows) -> to_map (set_all rows []) = st_view s'.
Proof.
  intros Hw El. destruct (st_loadAll_law _ _ _ Hw El) as (_ & -> & Hd & Hv).
  apply map_eq. intros id. rewrite lookup_to_map, get_set_all by done. cbn [get].
  destruct (List.find _ _) as [r|] eqn:Ef.
  - apply List.find_some in Ef as [Hin Hr]. apply bool_decide_eq_true in Hr. symmetry.
    apply Hv. split; [by apply list_elem_of_In | done].
  - symmetry. apply eq_None_not_Some. intros [r [Hin Hr]%Hv].
    eapply List.find_none in Ef; [|by apply list_elem_of_In]. by apply bool_decide_eq_false in Ef.
Qed.

Lemma rehydrate_coherent l : st_wf (store l) -> (rehydrated l = true -> is_Some (snd (rehydrate l))) ->
  coherent (fst (rehydrate l)).
Proof.
  intros Hw. unfold rehydrate. destruct (st_loadAll (store l)) as [s [rows|]] eqn:El; intros Hs.
  - split; [by destruct (st_loadAll_law _ _ _ Hw El)|]. by apply (loaded_view (store l)).
  - split; [by destruct (st_loadAll_law _ _ _ Hw El)|]. cbn [fst rehydrated records].
    destruct (rehydrated l); [by destruct Hs|done].
Qed.

Lemma rehydrate_view l : st_wf (store l) -> st_view (store (fst (rehydrate l))) = st_view (store l).
Proof.
  intros Hw. unfold rehydrate. destruct (st_loadAll (store l)) as [s loaded] eqn:El.
  destruct (st_loadAll_law _ _ _ Hw El) as (_ & Hv & _). by destruct loaded.
Qed.

Lemma coherent_rid l id r :
  coherent l -> lookup id l = Some r -> rid r = id.
Proof.
  intros [Hw Hc] Hl. unfold lookup in Hl. destruct (rehydrated l).
  - rewrite <- lookup_to_map, Hc in Hl. by apply st_view_law in Hl.
  - by rewrite Hc in Hl.
Qed.

Lemma insert_coherent r l : coherent l -> coherent (fst (insert r l)).
Proof.
  intros [Hw Hc]. unfold insert. destruct (rehydrated l) eqn:E; [|by split; cbn [fst negb]; rewrite ?E].
  cbn [negb]. destruct (get _ _); [by split; cbn [fst]; rewrite ?E|].
  destruct (st_put r (store l)) as [s ok] eqn:Ep.
  destruct (st_put_law _ _ _ _ Hw Ep) as [Hw' Hv]. destruct ok; split; cbn [fst store rehydrated records negb]; rewrite ?Hv; try done.
  by rewrite to_map_set, Hc.
Qed.

Lemma transitionSet_coherent ids from to patch l :
  coherent l -> coherent (fst (transitionSet ids from to patch l)).
Proof.
  intros [Hw Hc]. unfold transitionSet. destruct (rehydrated l) eqn:E; [|by split; cbn [fst negb]; rewrite ?E].
  cbn [negb]. destruct (check_members _ _ _) as [e|cur]; [by split; cbn [fst]; rewrite ?E|].
  destruct (st_transaction _ _) as [s ok] eqn:Ep.
  destruct (st_transaction_law _ _ _ _ Hw Ep) as [Hw' Hv].
  destruct ok; split; cbn [fst store rehydrated records negb]; rewrite ?Hv; try done. by rewrite to_map_set_all, Hc.
Qed.

Lemma remove_coherent id l : coherent l -> coherent (fst (remove id l)).
Proof.
  intros [Hw Hc]. unfold remove. destruct (has id (records l)) eqn:Eh; [|done]. cbn [negb].
  destruct (st_delete id (store l)) as [s ok] eqn:Ep.
  destruct (st_delete_law _ _ _ _ Hw Ep) as [Hw' Hv].
  destruct (rehydrated l); [|by rewrite Hc in Eh].
  destruct ok; split; cbn [fst store rehydrated records negb]; rewrite ?Hv; try done. by rewrite to_map_del, Hc.
Qed.

Lemma removeSet_coherent ids l : coherent l -> coherent (fst (removeSet ids l)).
Proof.
  intros [Hw Hc]. unfold removeSet. destruct (st_transaction _ _) as [s ok] eqn:Ep.
  destruct (st_transaction_law _ _ _ _ Hw Ep) as [Hw' Hv].
  destruct (rehydrated l); destruct ok; split; cbn [fst store rehydrated records negb]; rewrite ?Hv, ?to_map_del_all, ?Hc; try done.
  apply del_all_nil.
Qed.

(** ** The check before a transition *)

Lemma check_members_ok m from ids cur :
  check_members m from ids = inr cur ->
  Forall2 (fun id r => get id m = Some r /\ rstate r ∈ from) ids cur.
Proof.
  revert cur. induction ids as [|id ids IH]; intros cur; simpl.
  - intros [= <-]. constructor.
  - destruct (get id m) as [r|] eqn:E; [|done]. case_bool_decide; [|done]. cbn.
    destruct (check_members m from ids) as [e|c]; [done|]. intros [= <-].
    constructor; [done | by apply IH].
Qed.

Lemma check_members_refused m from ids res :
  check_members m from ids = inl res ->
  exists id, id ∈ ids /\
    ((get id m = None /\ res = outcome_only missing) \/
     (exists r, get id m = Some r /\ (rstate r ∉ from) /\
        res = {| outcome := stale; record := Some r; actualState := Some (rstate r) |})).
Proof.
  induction ids as [|id ids IH]; simpl; [done|].
  destruct (get id m) as [r|] eqn:E.
  - case_bool_decide; cbn.
    + destruct (check_members m from ids) as [e|c]; [|done]. intros [= <-].
      destruct IH as (id' & Hin & Hx); [done|]. exists id'. split; [by right|done].
    + intros [= <-]. exists id. split; [by left|]. right. by exists r.
  - intros [= <-]. exists id. split; [by left|]. by left.
Qed.

Lemma unique_spec ids : forall seen,
  NoDup (unique seen ids) /\ forall id, id ∈ unique seen ids <-> id ∈ ids /\ id ∉ seen.
Proof.
  induction ids as [|x ids IH]; intros seen; simpl; [split; [constructor|set_solver]|].
  case_decide as E.
  - destruct (IH seen) as [H1 H2]. split; [done|]. intros id. rewrite H2, elem_of_cons.
    destruct (decide (id = x)) as [->|]; tauto.
  - destruct (IH (x :: seen)) as [H1 H2]. split.
    + constructor; [|done]. rewrite H2, elem_of_cons. tauto.
    + intros id. rewrite !elem_of_cons, H2, not_elem_of_cons.
      destruct (decide (id = x)) as [->|]; tauto.
Qed.

(** Writing the next versions of distinct records. *)
Lemma get_set_next (f : R -> R) m ids cur :
  (forall r, rid (f r) = rid r) -> NoDup ids ->
  Forall2 (fun id r => get id m = Some r /\ rid r = id) ids cur ->
  forall id, get id (set_all (map f cur) m) =
    if decide (id ∈ ids) then f <$> get id m else get id m.
Proof.
  intros Hf Hd H2 id. rewrite get_set_all.
  - revert Hd. induction H2 as [|i r ids cur [Hg Hr] H2 IH]; intros Hd; [done|].
    apply NoDup_cons in Hd as [Hn Hd]. cbn [map List.find]. rewrite Hf, Hr.
    case_bool_decide as E.
    + subst. rewrite decide_True by (by left). by rewrite Hg.
    + rewrite IH by done.
      assert (Hiff : id ∈ i :: ids <-> id ∈ ids) by (rewrite elem_of_cons; intuition congruence).
      by rewrite (decide_ext _ _ _ _ Hiff).
  - rewrite map_map. replace (map _ cur) with ids; [done|].
    clear Hd id. induction H2 as [|i r ids cur [Hg Hr] H2 IH]; [done|]. cbn. by rewrite Hf, Hr, <- IH.
Qed.

(** A transition that is refused, or whose write fails, changes nothing. *)
Definition untouched (l l' : ledger) : Prop :=
  records l' = records l /\ st_view (store l') = st_view (store l).

Lemma transitionSet_cases ids from to patch l l' res :
  coherent l -> rehydrated l = true -> (forall r, rid (patch r) = rid r) ->
  transitionSet ids from to patch l = (l', res) ->
  match outcome res with
  | applied =>
      (forall id, id ∈ ids -> exists r, lookup id l = Some r /\ rstate r ∈ from) /\
      (forall id, lookup id l' =
         if decide (id ∈ ids) then (fun r => with_state (patch r) to) <$> lookup id l
         else lookup id l)
  | stale => untouched l l' /\ exists id r, id ∈ ids /\ lookup id l = Some r /\
      (rstate r ∉ from) /\ record res = Some r /\ actualState res = Some (rstate r)
  | missing => untouched l l' /\ exists id, id ∈ ids /\ lookup id l = None
  | storage_failed => untouched l l'
  | not_rehydrated => False
  end.
Proof.
  intros Hco Hre Hpatch. unfold transitionSet. rewrite Hre. cbn [negb].
  destruct (unique_spec ids []) as [Hnd Huniq].
  destruct (check_members _ _ _) as [e|cur] eqn:Hc.
  - intros [= <- <-]. apply check_members_refused in Hc as (id & Hin & Hx).
    apply Huniq in Hin as [Hin _].
    destruct Hx as [[Hg ->]|(r & Hg & Hr & ->)]; cbn; (split; [done|]); eauto 10.
  - apply check_members_ok in Hc. destruct (st_transaction _ _) as [s ok] eqn:Ep.
    destruct (st_transaction_law _ _ _ _ (proj1 Hco) Ep) as [_ Hv].
    destruct ok; cbn [negb]; intros [= <- <-]; cbn [outcome]; [|done].
    assert (H2 : Forall2 (fun id r => get id (records l) = Some r /\ rid r = id) (unique [] ids) cur).
    { eapply Forall2_impl; [exact Hc|]. intros id r [Hg _]. split; [done|].
      by apply (coherent_rid l). }
    split.
    + intros id Hin. assert (Hin' : id ∈ unique [] ids) by (apply Huniq; rewrite elem_of_nil; tauto).
      apply list_elem_of_lookup in Hin' as [i Hi].
      destruct (Forall2_lookup_l _ _ _ _ _ Hc Hi) as (r & _ & Hg & Hr). by exists r.
    + intros id. unfold lookup. cbn [records].
      rewrite (get_set_next (fun r => with_state (patch r) to) _ (unique [] ids) cur); [|..|done|done].
      * assert (Hiff : id ∈ unique [] ids <-> id ∈ ids) by (rewrite Huniq, elem_of_nil; tauto).
        by rewrite (decide_ext _ _ _ _ Hiff).
      * intros r. by rewrite rid_with_state.
Qed.

(** ** Reachable ledgers *)

(** The owners of a ledger load it once, when they are made: a load that throws is one of a
    ledger that is not loaded yet. *)
Inductive lstep : ledger -> ledger -> Prop :=
| step_rehydrate l : (rehydrated l = true -> is_Some (snd (rehydrate l))) -> lstep l (fst (rehydrate l))
| step_insert r l : lstep l (fst (insert r l))
| step_transition ids from to patch l : lstep l (fst (transitionSet ids from to patch l))
| step_remove id l : lstep l (fst (remove id l))
| step_removeSet ids l : lstep l (fst (removeSet ids l))
| step_restart l : lstep l (new_ledger (store l)).

Inductive reachable (s : S) : ledger -> Prop :=
| reach_new : reachable s (new_ledger s)
| reach_step l l' : reachable s l -> lstep l l' -> reachable s l'.

Lemma reachable_coherent s l : st_wf s -> reachable s l -> coherent l.
Proof.
  intros Hw. induction 1 as [|l l' _ IH Hs]; [done|].
  destruct Hs; [by apply rehydrate_coherent; [apply IH|] | by apply insert_coherent
    | by apply transitionSet_coherent | by apply remove_coherent | by apply removeSet_coherent |].
  split; [apply IH | done].
Qed.

(** C38: over any store that keeps its interface, after
    any sequence of operations, failed writes, failed loads of a ledger not yet loaded
    and restarts, a loaded ledger holds exactly the records of the store; so a restart
    whose load does not throw finds every record it held, and no other. *)
Theorem ledger_refines_store s l
    (Hwf : st_wf s) (Hr : reachable s l) (Hl : rehydrated l = true) :
  (forall id, lookup id l = st_load id (store l)) /\
  (is_Some (snd (rehydrate (new_ledger (store l)))) ->
   forall id, lookup id (fst (rehydrate (new_ledger (store l)))) = lookup id l).
Proof.
  destruct (reachable_coherent s l Hwf Hr) as [Hw Hc]. rewrite Hl in Hc. unfold lookup. split.
  - intros id. by rewrite st_load_law, <- Hc, lookup_to_map by done.
  - intros Hs id. destruct (rehydrate_coherent (new_ledger (store l)) Hw ltac:(done)) as [_ Hc'].
    rewrite rehydrate_view in Hc' by done. revert Hs Hc'. unfold rehydrate.
    destruct (st_loadAll _) as [s' [rows|]]; cbn; intros Hs Hc'; [|by destruct Hs].
    fold (to_map (set_all rows [])) in Hc'. by rewrite <- !lookup_to_map, Hc, Hc'.
Qed.

(** A loaded ledger that is loaded again from a store that throws stays loaded and has lost
    its cache: every transition of a record that is still stored then reports [missing]. *)
Lemma failed_reload_forgets l s id from to patch : rehydrated l = true -> st_loadAll (store l) = (s, None) ->
  snd (transition id from to patch (fst (rehydrate l))) = outcome_only missing.
Proof. intros Hl El. unfold rehydrate, transition, transitionSet. rewrite El. cbn. by rewrite Hl. Qed.

(** A transition is compare-and-swap and all or nothing.
    When it is applied every member was in one of the states it may start from,
    every member moves and no other record changes; when it is refused or its
    write fails, neither the cache nor the store changes, and a [stale] result
    shows a member that was in another state. *)
Theorem transition_cas s l ids from to patch l' res
    (Hwf : st_wf s) (Hr : reachable s l) (Hl : rehydrated l = true)
    (Hpatch : forall r, rid (patch r) = rid r)
    (Ht : transitionSet ids from to patch l = (l', res)) :
  match outcome res with
  | applied =>
      (forall id, id ∈ ids -> exists r, lookup id l = Some r /\ rstate r ∈ from) /\
      (forall id, lookup id l' =
         if decide (id ∈ ids) then (fun r => with_state (patch r) to) <$> lookup id l
         else lookup id l)
  | stale => untouched l l' /\ exists id r, id ∈ ids /\ lookup id l = Some r /\
      (rstate r ∉ from) /\ record res = Some r /\ actualState res = Some (rstate r)
  | missing => untouched l l' /\ exists id, id ∈ ids /\ lookup id l = None
  | storage_failed => untouched l l'
  | not_rehydrated => False
  end.
Proof.
  eapply transitionSet_cases; [by eapply reachable_coherent | done..].
Qed.

(** Driving an applied transition again (a replayed
    message, or recovery after a crash) reports [stale] and changes nothing. *)
Theorem transition_redrive s l id from to patch l' res
    (Hwf : st_wf s) (Hr : reachable s l) (Hpatch : forall r, rid (patch r) = rid r)
    (Ht : transition id from to patch l = (l', res)) (Ha : outcome res = applied)
    (Hto : to ∉ from) :
  exists res', transition id from to patch l' = (l', res') /\ outcome res' = stale.
Proof.
  assert (Hl : rehydrated l = true).
  { revert Ht. unfold transition, transitionSet. destruct (rehydrated l); [done|].
    by intros [= <- <-]. }
  pose proof (transitionSet_cases _ _ _ _ _ _ _ (reachable_coherent s l Hwf Hr) Hl Hpatch Ht) as Hx.
  rewrite Ha in Hx. destruct Hx as [Hall Hnew]. destruct (Hall id) as (r & Hg & _); [by left|].
  specialize (Hnew id). rewrite decide_True, Hg in Hnew by (by left).
  assert (Hl' : rehydrated l' = true).
  { revert Ht. unfold transition, transitionSet. rewrite Hl. cbn [negb].
    destruct (check_members _ _ _); [by intros [= <- <-]|].
    destruct (st_transaction _ _) as [? []]; by intros [= <- <-]. }
  eexists. unfold transition, transitionSet. rewrite Hl'. cbn [negb unique].
  rewrite decide_False by set_solver. cbn [check_members]. unfold lookup in Hnew. rewrite Hnew.
  cbn [fmap option_fmap option_map]. rewrite rstate_with_state, bool_decide_eq_false_2 by done.
  split; [done|reflexivity].
Qed.

(** before the store is loaded nothing is judged
    against the empty cache: an insert or a transition reports [not_rehydrated]
    and changes nothing. *)
Theorem not_rehydrated_refuses l r ids from to patch (Hl : rehydrated l = false) :
  insert r l = (l, outcome_only not_rehydrated) /\
  transitionSet ids from to patch l = (l, outcome_only not_rehydrated).
Proof. unfold insert, transitionSet. by rewrite Hl. Qed.

End Ledger.

(** ** Witnesses, over the in-memory store *)

Record row := { row_id : string; row_state : string }.

#[global] Instance row_record : LedgerRecord row :=
  {| rid := row_id; rstate := row_state;
     with_state := fun r s => {| row_id := row_id r; row_state := s |};
     rid_with_state := fun r s => eq_refl; rstate_with_state := fun r s => eq_refl |}.

Definition held : row := {| row_id := "a1"; row_state := "held" |}.
Definition demo0 : @ledger row (jsmap row) := fst (rehydrate (new_ledger [])).
Definition demo1 : @ledger row (jsmap row) := fst (insert held demo0).
Definition demo2 : @ledger row (jsmap row) * ILedgerTransitionResult :=
  transition "a1" ["held"] "released" (fun r => r) demo1.

Lemma empty_wf : st_wf ([] : jsmap row).
Proof. split; constructor. Qed.

Lemma demo1_reachable : reachable ([] : jsmap row) demo1.
Proof.
  apply (reach_step _ demo0); [apply (reach_step _ (new_ledger [])); [constructor|by apply step_rehydrate] | constructor].
Qed.

Lemma ledger_refines_store_witness :
  lookup "a1" demo1 = Some held /\
  lookup "a1" (fst (rehydrate (new_ledger (store demo1)))) = Some held.
Proof.
  destruct (ledger_refines_store [] demo1 empty_wf demo1_reachable eq_refl) as [H1 H2].
  split; [rewrite H1; reflexivity | rewrite H2; [reflexivity|by exists 1%Z]].
Defined.

Lemma transition_cas_witness :
  lookup "a1" (fst demo2) = Some {| row_id := "a1"; row_state := "released" |}.
Proof.
  destruct (transition_cas [] demo1 ["a1"] ["held"] "released" (fun r => r) (fst demo2) (snd demo2)
    empty_wf demo1_reachable eq_refl (fun r => eq_refl) eq_refl) as [_ H]. exact (H "a1").
Defined.

Lemma transition_redrive_witness :
  exists res', transition "a1" ["held"] "released" (fun r => r) (fst demo2) = (fst demo2, res') /\
    outcome res' = stale.
Proof.
  apply (transition_redrive [] demo1 "a1" ["held"] "released" (fun r => r) (fst demo2) (snd demo2));
    [exact empty_wf | exact demo1_reachable | reflexivity | reflexivity | reflexivity |].
  intros Hin. apply list_elem_of_singleton in Hin. discriminate.
Defined.

Lemma not_rehydrated_refuses_witness :
  insert held (new_ledger []) = (new_ledger [], outcome_only not_rehydrated) /\
  transitionSet ["a1"] ["held"] "released" (fun r => r) (new_ledger []) =
    (new_ledger [], outcome_only not_rehydrated).
Proof. by apply not_rehydrated_refuses. Defined.

End DurableLedger.
