(* ===== verification/Scripts.v ===== *)
(** * Key derivation and output scripts of a channel
      (src/src/lightning/keys/derivation.ts, script/funding.ts, script/htlc.ts and
      script/commitment-taproot.ts)

    The script compiler, the payment templates, the hashes and the curve are
    bitcoinjs-lib and the ecc library: the class [BitcoinLib], an argument of every
    definition.  Nothing is assumed about its operations.  Of a taproot output only
    its scriptPubKey is modelled, not the control blocks of its spends. *)

From S2P Require Import Prelude Buffer CommitmentTx.
From Stdlib Require Import Strings.Byte.

Inductive Taptree := Leaf (output : buffer) | Branch (l r : Taptree).

Class BitcoinLib := {
  sha256 : buffer -> buffer;
  ripemd160 : buffer -> buffer;
  script_compile : list chunk -> buffer;
  number_encode : Z -> buffer;
  p2wsh : buffer -> buffer;
  p2wpkh : buffer -> buffer;
  p2tr : buffer -> Taptree -> buffer;
  ecc_pointFromScalar : buffer -> option buffer;
  ecc_pointMultiply : buffer -> buffer -> option buffer;
  ecc_pointAdd : buffer -> buffer -> option buffer
}.

Definition OP_DUP := 0x76.
Definition OP_HASH160 := 0xa9.
Definition OP_EQUAL := 0x87.
Definition OP_EQUALVERIFY := 0x88.
Definition OP_SWAP := 0x7c.
Definition OP_SIZE := 0x82.
Definition OP_1 := 0x51.
Definition OP_2 := 0x52.
Definition OP_CHECKMULTISIG := 0xae.
Definition OP_CHECKLOCKTIMEVERIFY := 0xb1.

Section Scripts.
Context `{L : BitcoinLib}.

(** ** Curve operations (crypto/ecdh.ts) *)

Definition or_throw {A} (o : option A) (e : string) : result A :=
  match o with Some a => Ok a | None => Err e end.

Definition getPublicKey (privateKey : buffer) : result buffer :=
  _ ← throw_if (negb (blen privateKey =? 32)) "Private key must be 32 bytes";
  or_throw (ecc_pointFromScalar privateKey) "Failed to derive public key from private key".

Definition pointMultiply (publicKey scalar : buffer) : result buffer :=
  or_throw (ecc_pointMultiply publicKey scalar) "Point multiplication failed".

Definition pointAdd (point1 point2 : buffer) : result buffer :=
  or_throw (ecc_pointAdd point1 point2) "Point addition failed".

(** ** keys/derivation.ts *)

Definition derivePublicKey (basepoint perCommitmentPoint : buffer) : result buffer :=
  let tweak := sha256 (perCommitmentPoint ++ basepoint) in
  tweakPoint ← getPublicKey tweak;
  pointAdd basepoint tweakPoint.

Definition deriveRevocationPubkey (revocationBasepoint perCommitmentPoint : buffer)
    : result buffer :=
  let tweakA := sha256 (revocationBasepoint ++ perCommitmentPoint) in
  let tweakB := sha256 (perCommitmentPoint ++ revocationBasepoint) in
  termA ← pointMultiply revocationBasepoint tweakA;
  termB ← pointMultiply perCommitmentPoint tweakB;
  pointAdd termA termB.

Definition perCommitmentPointFromSecret (perCommitmentSecret : buffer) : result buffer :=
  getPublicKey perCommitmentSecret.

(** ** script/funding.ts *)

(** The witness script; the address is not modelled. *)
Definition createFundingScript (localFundingPubkey remoteFundingPubkey : buffer)
    : result buffer :=
  _ ← throw_if (negb (blen localFundingPubkey =? 33) || negb (blen remoteFundingPubkey =? 33))
        "Funding pubkeys must be 33 bytes compressed";
  match sort buf_compare [localFundingPubkey; remoteFundingPubkey] with
  | [pk1; pk2] =>
      Ok (script_compile [Op OP_2; Push pk1; Push pk2; Op OP_2; Op OP_CHECKMULTISIG])
  | _ => Err "unreachable"
  end.

(** ** script/htlc.ts *)

Definition anchor_csv (useAnchors : bool) : list chunk :=
  if useAnchors
  then [Push (number_encode 1); Op OP_CHECKSEQUENCEVERIFY; Op OP_DROP] else [].

Definition buildOfferedHtlcScript (revocationPubkey localHtlcPubkey remoteHtlcPubkey
    paymentHash : buffer) (useAnchors : bool) : result buffer :=
  _ ← throw_if (negb (blen paymentHash =? 32)) "Payment hash must be 32 bytes";
  let revocationHash := ripemd160 (sha256 revocationPubkey) in
  let ripemdPaymentHash := ripemd160 paymentHash in
  Ok (script_compile (
    [Op OP_DUP; Op OP_HASH160; Push revocationHash; Op OP_EQUAL; Op OP_IF; Op OP_CHECKSIG;
     Op OP_ELSE; Push remoteHtlcPubkey; Op OP_SWAP; Op OP_SIZE; Push (number_encode 32);
     Op OP_EQUAL; Op OP_NOTIF; Op OP_DROP; Op OP_2; Op OP_SWAP; Push localHtlcPubkey; Op OP_2;
     Op OP_CHECKMULTISIG; Op OP_ELSE; Op OP_HASH160; Push ripemdPaymentHash; Op OP_EQUALVERIFY;
     Op OP_CHECKSIG; Op OP_ENDIF] ++ anchor_csv useAnchors ++ [Op OP_ENDIF])).

Definition buildReceivedHtlcScript (revocationPubkey localHtlcPubkey remoteHtlcPubkey
    paymentHash : buffer) (cltvExpiry : Z) (useAnchors : bool) : result buffer :=
  _ ← throw_if (negb (blen paymentHash =? 32)) "Payment hash must be 32 bytes";
  let revocationHash := ripemd160 (sha256 revocationPubkey) in
  let ripemdPaymentHash := ripemd160 paymentHash in
  Ok (script_compile (
    [Op OP_DUP; Op OP_HASH160; Push revocationHash; Op OP_EQUAL; Op OP_IF; Op OP_CHECKSIG;
     Op OP_ELSE; Push remoteHtlcPubkey; Op OP_SWAP; Op OP_SIZE; Push (number_encode 32);
     Op OP_EQUAL; Op OP_IF; Op OP_HASH160; Push ripemdPaymentHash; Op OP_EQUALVERIFY; Op OP_2;
     Op OP_SWAP; Push localHtlcPubkey; Op OP_2; Op OP_CHECKMULTISIG; Op OP_ELSE; Op OP_DROP;
     Push (number_encode cltvExpiry); Op OP_CHECKLOCKTIMEVERIFY; Op OP_DROP; Op OP_CHECKSIG;
     Op OP_ENDIF] ++ anchor_csv useAnchors ++ [Op OP_ENDIF])).

(** ** script/commitment-taproot.ts *)

Definition TAPROOT_NUMS_KEY : buffer :=
  map byte_of_Z [0xdc; 0xa0; 0x94; 0x75; 0x11; 0x09; 0xd0; 0xbd; 0x05; 0x5d; 0x03; 0x56; 0x58;
    0x74; 0xe8; 0x27; 0x6d; 0xd5; 0x3e; 0x92; 0x6b; 0x44; 0xe3; 0xbd; 0x1b; 0xb6; 0xbf; 0x4b;
    0xc1; 0x30; 0xa2; 0x79].

Definition toXOnly (pubkey : buffer) : result buffer :=
  if blen pubkey =? 32 then Ok pubkey
  else _ ← throw_if (negb (blen pubkey =? 33)) "Expected 33-byte compressed or 32-byte x-only key";
       Ok (subarray pubkey 1 (blen pubkey)).

Definition buildTaprootToLocalDelayScript (localDelayedPubkey : buffer) (toSelfDelay : Z)
    : result buffer :=
  key ← toXOnly localDelayedPubkey;
  Ok (script_compile [Push key; Op OP_CHECKSIG; Push (number_encode toSelfDelay);
        Op OP_CHECKSEQUENCEVERIFY; Op OP_DROP]).

Definition buildTaprootToLocalRevokeScript (revocationPubkey localDelayedPubkey : buffer)
    : result buffer :=
  delayed ← toXOnly localDelayedPubkey;
  revocation ← toXOnly revocationPubkey;
  Ok (script_compile [Push delayed; Op OP_DROP; Push revocation; Op OP_CHECKSIG]).

Definition buildTaprootToRemoteScript (remotePubkey : buffer) : result buffer :=
  key ← toXOnly remotePubkey;
  Ok (script_compile [Push key; Op OP_CHECKSIG; Push (number_encode 1);
        Op OP_CHECKSEQUENCEVERIFY; Op OP_DROP]).

Definition buildTaprootToLocalOutput (revocationPubkey localDelayedPubkey : buffer)
    (toSelfDelay : Z) : result buffer :=
  delayScript ← buildTaprootToLocalDelayScript localDelayedPubkey toSelfDelay;
  revokeScript ← buildTaprootToLocalRevokeScript revocationPubkey localDelayedPubkey;
  Ok (p2tr TAPROOT_NUMS_KEY (Branch (Leaf delayScript) (Leaf revokeScript))).

Definition buildTaprootToRemoteOutput (remotePubkey : buffer) : result buffer :=
  leaf ← buildTaprootToRemoteScript remotePubkey;
  Ok (p2tr TAPROOT_NUMS_KEY (Leaf leaf)).

Definition buildTaprootOfferedHtlcSuccessLeaf (remoteHtlcPubkey paymentHash : buffer)
    : result buffer :=
  key ← toXOnly remoteHtlcPubkey;
  Ok (script_compile [Op OP_SIZE; Push (number_encode 32); Op OP_EQUALVERIFY; Op OP_HASH160;
        Push (ripemd160 paymentHash); Op OP_EQUALVERIFY; Push key; Op OP_CHECKSIG; Op OP_1;
        Op OP_CHECKSEQUENCEVERIFY; Op OP_DROP]).

Definition buildTaprootOfferedHtlcTimeoutLeaf (localHtlcPubkey remoteHtlcPubkey : buffer)
    : result buffer :=
  lk ← toXOnly localHtlcPubkey;
  rk ← toXOnly remoteHtlcPubkey;
  Ok (script_compile [Push lk; Op OP_CHECKSIGVERIFY; Push rk; Op OP_CHECKSIG]).

Definition buildTaprootReceivedHtlcSuccessLeaf (localHtlcPubkey remoteHtlcPubkey
    paymentHash : buffer) : result buffer :=
  lk ← toXOnly localHtlcPubkey;
  rk ← toXOnly remoteHtlcPubkey;
  Ok (script_compile [Op OP_SIZE; Push (number_encode 32); Op OP_EQUALVERIFY; Op OP_HASH160;
        Push (ripemd160 paymentHash); Op OP_EQUALVERIFY; Push lk; Op OP_CHECKSIGVERIFY; Push rk;
        Op OP_CHECKSIG]).

Definition buildTaprootReceivedHtlcTimeoutLeaf (remoteHtlcPubkey : buffer) (cltvExpiry : Z)
    : result buffer :=
  key ← toXOnly remoteHtlcPubkey;
  Ok (script_compile [Push key; Op OP_CHECKSIG; Op OP_1; Op OP_CHECKSEQUENCEVERIFY; Op OP_DROP;
        Push (number_encode cltvExpiry); Op OP_CHECKLOCKTIMEVERIFY; Op OP_DROP]).

Definition assembleHtlcOutput (revocationPubkey successScript timeoutScript : buffer)
    : result buffer :=
  internalPubkey ← toXOnly revocationPubkey;
  Ok (p2tr internalPubkey (Branch (Leaf successScript) (Leaf timeoutScript))).

Definition buildTaprootOfferedHtlcOutput (revocationPubkey localHtlcPubkey remoteHtlcPubkey
    paymentHash : buffer) : result buffer :=
  success ← buildTaprootOfferedHtlcSuccessLeaf remoteHtlcPubkey paymentHash;
  timeout ← buildTaprootOfferedHtlcTimeoutLeaf localHtlcPubkey remoteHtlcPubkey;
  assembleHtlcOutput revocationPubkey success timeout.

Definition buildTaprootReceivedHtlcOutput (revocationPubkey localHtlcPubkey remoteHtlcPubkey
    paymentHash : buffer) (cltvExpiry : Z) : result buffer :=
  success ← buildTaprootReceivedHtlcSuccessLeaf localHtlcPubkey remoteHtlcPubkey paymentHash;
  timeout ← buildTaprootReceivedHtlcTimeoutLeaf remoteHtlcPubkey cltvExpiry;
  assembleHtlcOutput revocationPubkey success timeout.

Definition buildTaprootAnchorLeaf : buffer :=
  script_compile [Op OP_16; Op OP_CHECKSEQUENCEVERIFY].

Definition buildTaprootAnchorOutput (fundingPubkey : buffer) : result buffer :=
  internalPubkey ← toXOnly fundingPubkey;
  Ok (p2tr internalPubkey (Leaf buildTaprootAnchorLeaf)).

(** The funding script does not depend on which side lists its key first. *)
Lemma funding_script_sym a b : createFundingScript a b = createFundingScript b a.
Proof.
  unfold createFundingScript. rewrite (orb_comm (negb (blen b =? 33))).
  destruct (throw_if _ _); [|done]. rewrite !bind_Ok. cbn.
  pose proof (buf_compare_antisym a b) as H.
  destruct (Z.leb_spec (buf_compare a b) 0), (Z.leb_spec (buf_compare b a) 0); try done.
  - assert (buf_compare a b = 0) as E%buf_compare_eq by lia. by subst.
  - exfalso. lia.
Qed.

End Scripts.
