(* ===== verification/ChannelTypes.v ===== *)
(** * Channel data (src/src/lightning/channel/types.ts, channel-state.ts, liquidity-ads.ts)

    The enumerations, an HTLC entry, the channel configuration and the channel
    state.  [IChannelState] has the fields that the commitment builder and the
    update handlers of channel.ts read or write; the fields of closing
    are in ClosingTypes; those of opening, splicing, gossip and recovery are left out.  A field that may be absent is an
    [option].  A field assignment is a [set_] function. *)

From S2P Require Import Prelude Buffer WireUpdate WireCommitment Features JsMap Scripts ShaChain.
From stdpp Require Import pretty.
From Stdlib Require Import Strings.Byte.
Local Open Scope Z_scope.

Inductive ChannelState :=
| NONE | SENT_OPEN | SENT_ACCEPT | SENT_FUNDING_CREATED | SENT_FUNDING_SIGNED
| AWAITING_FUNDING_CONFIRMED | AWAITING_CHANNEL_READY | CHANNEL_NORMAL | SHUTTING_DOWN
| NEGOTIATING_CLOSING | AWAITING_REESTABLISH | DUAL_FUNDING_V2 | AWAITING_TX_SIGNATURES
| SPLICING | CLOSED | FORCE_CLOSED | ERRORED.
Inductive ChannelRole := OPENER | ACCEPTOR.
Inductive HtlcDirection := OFFERED | RECEIVED.
Inductive HtlcState := PENDING | COMMITTED | FULFILLED | FAILED.

#[global] Instance ChannelState_eq_dec : EqDecision ChannelState.
Proof. solve_decision. Defined.
#[global] Instance ChannelRole_eq_dec : EqDecision ChannelRole.
Proof. solve_decision. Defined.
#[global] Instance HtlcDirection_eq_dec : EqDecision HtlcDirection.
Proof. solve_decision. Defined.
#[global] Instance HtlcState_eq_dec : EqDecision HtlcState.
Proof. solve_decision. Defined.

(** [x === false] and [x === true] of an optional flag. *)
Definition flag_false (x : option bool) : bool := match x with Some false => true | _ => false end.
Definition flag_true (x : option bool) : bool := match x with Some true => true | _ => false end.

(** Replace the field [f] in the record [e], written field by field. *)
Ltac update_field fn e f v :=
  let e := eval cbv beta delta [fn] in e in
  let e := eval pattern f in e in
  match e with ?g _ => let r := eval cbv beta in (g v) in exact r end.

Record IHtlcEntry := {
  e_id : Z;
  e_amountMsat : Z;
  e_paymentHash : buffer;
  e_cltvExpiry : Z;
  e_onionRoutingPacket : buffer;
  e_direction : HtlcDirection;
  e_state : HtlcState;
  e_blindingPoint : option buffer;
  e_addRemoteCommitted : option bool;
  e_removalRemoteCommitted : option bool;
  e_commitCoverPending : option bool;
  e_addLocallyRevoked : option bool;
  e_removalLocallyRevoked : option bool;
  e_addRemotelyRevoked : option bool;
  e_addCoverPending : option bool;
  e_addRemoteSigned : option bool;
  e_forwardEmitted : option bool;
  e_fforVoucher : option bool;
  e_fforMismatch : option bool;
  e_dustExposureFailback : option bool;
  e_expiredOnArrival : option bool;
  e_funderFeeFailback : option bool;
  e_addedWhileRestoreUnproven : option bool;
  e_addedWhileFundingUnaccounted : option bool
}.

Definition eta_entry (e : IHtlcEntry) : IHtlcEntry :=
  {| e_id := e_id e; e_amountMsat := e_amountMsat e; e_paymentHash := e_paymentHash e;
     e_cltvExpiry := e_cltvExpiry e; e_onionRoutingPacket := e_onionRoutingPacket e;
     e_direction := e_direction e; e_state := e_state e; e_blindingPoint := e_blindingPoint e;
     e_addRemoteCommitted := e_addRemoteCommitted e;
     e_removalRemoteCommitted := e_removalRemoteCommitted e;
     e_commitCoverPending := e_commitCoverPending e;
     e_addLocallyRevoked := e_addLocallyRevoked e;
     e_removalLocallyRevoked := e_removalLocallyRevoked e;
     e_addRemotelyRevoked := e_addRemotelyRevoked e; e_addCoverPending := e_addCoverPending e;
     e_addRemoteSigned := e_addRemoteSigned e; e_forwardEmitted := e_forwardEmitted e;
     e_fforVoucher := e_fforVoucher e; e_fforMismatch := e_fforMismatch e;
     e_dustExposureFailback := e_dustExposureFailback e;
     e_expiredOnArrival := e_expiredOnArrival e; e_funderFeeFailback := e_funderFeeFailback e;
     e_addedWhileRestoreUnproven := e_addedWhileRestoreUnproven e;
     e_addedWhileFundingUnaccounted := e_addedWhileFundingUnaccounted e |}.

Definition with_state (v : HtlcState) (e : IHtlcEntry) : IHtlcEntry :=
  ltac:(update_field eta_entry (eta_entry e) (e_state e) v).
Definition with_addRemoteCommitted (v : option bool) (e : IHtlcEntry) : IHtlcEntry :=
  ltac:(update_field eta_entry (eta_entry e) (e_addRemoteCommitted e) v).
Definition with_removalRemoteCommitted (v : option bool) (e : IHtlcEntry) : IHtlcEntry :=
  ltac:(update_field eta_entry (eta_entry e) (e_removalRemoteCommitted e) v).
Definition with_commitCoverPending (v : option bool) (e : IHtlcEntry) : IHtlcEntry :=
  ltac:(update_field eta_entry (eta_entry e) (e_commitCoverPending e) v).
Definition with_addLocallyRevoked (v : option bool) (e : IHtlcEntry) : IHtlcEntry :=
  ltac:(update_field eta_entry (eta_entry e) (e_addLocallyRevoked e) v).
Definition with_removalLocallyRevoked (v : option bool) (e : IHtlcEntry) : IHtlcEntry :=
  ltac:(update_field eta_entry (eta_entry e) (e_removalLocallyRevoked e) v).
Definition with_addRemotelyRevoked (v : option bool) (e : IHtlcEntry) : IHtlcEntry :=
  ltac:(update_field eta_entry (eta_entry e) (e_addRemotelyRevoked e) v).
Definition with_addCoverPending (v : option bool) (e : IHtlcEntry) : IHtlcEntry :=
  ltac:(update_field eta_entry (eta_entry e) (e_addCoverPending e) v).
Definition with_addRemoteSigned (v : option bool) (e : IHtlcEntry) : IHtlcEntry :=
  ltac:(update_field eta_entry (eta_entry e) (e_addRemoteSigned e) v).
Definition with_forwardEmitted (v : option bool) (e : IHtlcEntry) : IHtlcEntry :=
  ltac:(update_field eta_entry (eta_entry e) (e_forwardEmitted e) v).

Definition receivedAddIrrevocablyCommitted (entry : IHtlcEntry) : bool :=
  bool_decide (e_state entry = COMMITTED) && negb (flag_false (e_addLocallyRevoked entry)) &&
  negb (flag_false (e_addRemotelyRevoked entry)).

Record IChannelConfig := {
  c_dustLimitSatoshis : Z;
  c_maxHtlcValueInFlightMsat : Z;
  c_channelReserveSatoshis : Z;
  c_htlcMinimumMsat : Z;
  c_toSelfDelay : Z;
  c_maxAcceptedHtlcs : Z;
  c_feeratePerKw : Z
}.

Definition with_feeratePerKw (v : Z) (c : IChannelConfig) : IChannelConfig :=
  {| c_dustLimitSatoshis := c_dustLimitSatoshis c;
     c_maxHtlcValueInFlightMsat := c_maxHtlcValueInFlightMsat c;
     c_channelReserveSatoshis := c_channelReserveSatoshis c;
     c_htlcMinimumMsat := c_htlcMinimumMsat c; c_toSelfDelay := c_toSelfDelay c;
     c_maxAcceptedHtlcs := c_maxAcceptedHtlcs c; c_feeratePerKw := v |}.

Record IChannelBasepoints := {
  bp_fundingPubkey : buffer;
  bp_revocationBasepoint : buffer;
  bp_paymentBasepoint : buffer;
  bp_delayedPaymentBasepoint : buffer;
  bp_htlcBasepoint : buffer;
  bp_firstPerCommitmentPoint : buffer
}.

Record IHtlcSnapshotEntry := {
  sn_paymentHash : buffer;
  sn_amountMsat : Z;
  sn_cltvExpiry : Z;
  sn_direction : HtlcDirection
}.

(** The messages of the update protocol.  An action or a retransmission queue holds
    the message where the code holds its encoding; Messages.v proves the codecs
    inverse to each other. *)
Inductive ChannelMessage :=
| UPDATE_ADD (m : IUpdateAddHtlcMessage)
| UPDATE_FULFILL (m : IUpdateFulfillHtlcMessage)
| UPDATE_FAIL (m : IUpdateFailHtlcMessage)
| UPDATE_MALFORMED (m : IUpdateFailMalformedHtlcMessage)
| UPDATE_FEERATE (m : IUpdateFeeMessage)
| COMMIT (m : ICommitmentSignedMessage)
| REVOKE (m : IRevokeAndAckMessage)
| WIRE_ERROR (channelId : buffer) (data : string).

(** The fields of a splice past its point of no return that the policy reads. *)
Record ISpliceInFlight := {
  if_newFundingSatoshis : Z;
  if_localRelativeSatoshis : Z
}.

Record IChannelState := {
  s_state : ChannelState;
  s_role : ChannelRole;
  s_channelId : option buffer;
  s_temporaryChannelId : buffer;
  s_fundingSatoshis : Z;
  s_fundingTxid : option buffer;
  s_fundingOutputIndex : Z;
  s_localConfig : IChannelConfig;
  s_localBasepoints : IChannelBasepoints;
  s_localPerCommitmentSeed : buffer;
  s_remoteConfig : IChannelConfig;
  s_remoteBasepoints : option IChannelBasepoints;
  s_localCommitmentNumber : Z;
  s_remoteCommitmentNumber : Z;
  s_remoteRevocationNumber : option Z;
  s_needsCommitment : option bool;
  s_pendingFeeratePerKw : option Z;
  s_pendingFeerateSignable : option bool;
  s_pendingFeerateCommitted : option bool;
  s_awaitingLocalFeeCommitment : option bool;
  s_lastSignedCommitFeeratePerKw : option Z;
  s_localBalanceMsat : Z;
  s_remoteBalanceMsat : Z;
  s_shaChainStore : ShaChainStore;
  s_remoteCurrentPerCommitmentPoint : option buffer;
  s_remoteNextPerCommitmentPoint : option buffer;
  s_localHtlcCounter : Z;
  s_htlcs : jsmap IHtlcEntry;
  s_signedLocalRemovals : option (list IHtlcEntry);
  s_revokedHtlcSnapshots : option (jsmap (list IHtlcSnapshotEntry));
  s_remoteCommitmentSignature : option buffer;
  s_remoteHtlcSignatures : list buffer;
  s_channelType : option buffer;
  s_remoteShutdownScript : option buffer;
  s_lastSentCommitmentSigned : option buffer;
  s_lastSentPartialSignatureWithNonce : option buffer;
  s_lastSentHtlcSignatures : list buffer;
  s_lastSentRevokeSecret : option buffer;
  s_lastSentRevokeNextPoint : option buffer;
  s_lastSentWasRevoke : option bool;
  s_pendingLocalUpdates : list ChannelMessage;
  s_pendingLocalUpdatesSignedCount : Z;
  s_leaseExpiry : option Z;
  s_isLessor : option bool;
  s_leaseCommitBlockheight : option Z;
  s_pendingLeaseBlockheight : option Z;
  s_pendingLeaseBlockheightSignable : option bool;
  s_pendingLeaseBlockheightCommitted : option bool;
  s_lastSignedCommitLeaseBlockheight : option Z;
  s_leaseHeightHistory : option (list Z);
  s_hasBeenSpliced : option bool;
  s_fundingUnaccounted : option bool;
  s_restoreRecencyUnproven : option bool;
  s_reestablishRecencyUnproven : option bool;
  s_reestablishSecretMissing : option bool;
  s_restoreRevokedRisk : option bool;
  s_localReserveWaived : option bool;
  s_remoteReserveWaived : option bool;
  s_fundingVersion : Z;
  s_spliceFundingTxid : option buffer;
  s_spliceInFlight : option ISpliceInFlight
}.

Definition eta_state (s : IChannelState) : IChannelState :=
  {| s_state := s_state s; s_role := s_role s; s_channelId := s_channelId s;
     s_temporaryChannelId := s_temporaryChannelId s; s_fundingSatoshis := s_fundingSatoshis s;
     s_fundingTxid := s_fundingTxid s; s_fundingOutputIndex := s_fundingOutputIndex s;
     s_localConfig := s_localConfig s; s_localBasepoints := s_localBasepoints s;
     s_localPerCommitmentSeed := s_localPerCommitmentSeed s;
     s_remoteConfig := s_remoteConfig s; s_remoteBasepoints := s_remoteBasepoints s;
     s_localCommitmentNumber := s_localCommitmentNumber s;
     s_remoteCommitmentNumber := s_remoteCommitmentNumber s;
     s_remoteRevocationNumber := s_remoteRevocationNumber s;
     s_needsCommitment := s_needsCommitment s;
     s_pendingFeeratePerKw := s_pendingFeeratePerKw s;
     s_pendingFeerateSignable := s_pendingFeerateSignable s;
     s_pendingFeerateCommitted := s_pendingFeerateCommitted s;
     s_awaitingLocalFeeCommitment := s_awaitingLocalFeeCommitment s;
     s_lastSignedCommitFeeratePerKw := s_lastSignedCommitFeeratePerKw s;
     s_localBalanceMsat := s_localBalanceMsat s; s_remoteBalanceMsat := s_remoteBalanceMsat s;
     s_shaChainStore := s_shaChainStore s;
     s_remoteCurrentPerCommitmentPoint := s_remoteCurrentPerCommitmentPoint s;
     s_remoteNextPerCommitmentPoint := s_remoteNextPerCommitmentPoint s;
     s_localHtlcCounter := s_localHtlcCounter s; s_htlcs := s_htlcs s;
     s_signedLocalRemovals := s_signedLocalRemovals s;
     s_revokedHtlcSnapshots := s_revokedHtlcSnapshots s;
     s_remoteCommitmentSignature := s_remoteCommitmentSignature s;
     s_remoteHtlcSignatures := s_remoteHtlcSignatures s; s_channelType := s_channelType s;
     s_remoteShutdownScript := s_remoteShutdownScript s;
     s_lastSentCommitmentSigned := s_lastSentCommitmentSigned s;
     s_lastSentPartialSignatureWithNonce := s_lastSentPartialSignatureWithNonce s;
     s_lastSentHtlcSignatures := s_lastSentHtlcSignatures s;
     s_lastSentRevokeSecret := s_lastSentRevokeSecret s;
     s_lastSentRevokeNextPoint := s_lastSentRevokeNextPoint s;
     s_lastSentWasRevoke := s_lastSentWasRevoke s;
     s_pendingLocalUpdates := s_pendingLocalUpdates s;
     s_pendingLocalUpdatesSignedCount := s_pendingLocalUpdatesSignedCount s;
     s_leaseExpiry := s_leaseExpiry s; s_isLessor := s_isLessor s;
     s_leaseCommitBlockheight := s_leaseCommitBlockheight s;
     s_pendingLeaseBlockheight := s_pendingLeaseBlockheight s;
     s_pendingLeaseBlockheightSignable := s_pendingLeaseBlockheightSignable s;
     s_pendingLeaseBlockheightCommitted := s_pendingLeaseBlockheightCommitted s;
     s_lastSignedCommitLeaseBlockheight := s_lastSignedCommitLeaseBlockheight s;
     s_leaseHeightHistory := s_leaseHeightHistory s; s_hasBeenSpliced := s_hasBeenSpliced s;
     s_fundingUnaccounted := s_fundingUnaccounted s;
     s_restoreRecencyUnproven := s_restoreRecencyUnproven s;
     s_reestablishRecencyUnproven := s_reestablishRecencyUnproven s;
     s_reestablishSecretMissing := s_reestablishSecretMissing s;
     s_restoreRevokedRisk := s_restoreRevokedRisk s;
     s_localReserveWaived := s_localReserveWaived s;
     s_remoteReserveWaived := s_remoteReserveWaived s; s_fundingVersion := s_fundingVersion s;
     s_spliceFundingTxid := s_spliceFundingTxid s; s_spliceInFlight := s_spliceInFlight s |}.

Definition set_state (v : ChannelState) (s : IChannelState) : IChannelState :=
  ltac:(update_field eta_state (eta_state s) (s_state s) v).
Definition set_localConfig (v : IChannelConfig) (s : IChannelState) : IChannelState :=
  ltac:(update_field eta_state (eta_state s) (s_localConfig s) v).
Definition set_remoteConfig (v : IChannelConfig) (s : IChannelState) : IChannelState :=
  ltac:(update_field eta_state (eta_state s) (s_remoteConfig s) v).
Definition set_localCommitmentNumber (v : Z) (s : IChannelState) : IChannelState :=
  ltac:(update_field eta_state (eta_state s) (s_localCommitmentNumber s) v).
Definition set_remoteCommitmentNumber (v : Z) (s : IChannelState) : IChannelState :=
  ltac:(update_field eta_state (eta_state s) (s_remoteCommitmentNumber s) v).
Definition set_remoteRevocationNumber (v : option Z) (s : IChannelState) : IChannelState :=
  ltac:(update_field eta_state (eta_state s) (s_remoteRevocationNumber s) v).
Definition set_needsCommitment (v : option bool) (s : IChannelState) : IChannelState :=
  ltac:(update_field eta_state (eta_state s) (s_needsCommitment s) v).
Definition set_pendingFeeratePerKw (v : option Z) (s : IChannelState) : IChannelState :=
  ltac:(update_field eta_state (eta_state s) (s_pendingFeeratePerKw s) v).
Definition set_pendingFeerateSignable (v : option bool) (s : IChannelState) : IChannelState :=
  ltac:(update_field eta_state (eta_state s) (s_pendingFeerateSignable s) v).
Definition set_pendingFeerateCommitted (v : option bool) (s : IChannelState) : IChannelState :=
  ltac:(update_field eta_state (eta_state s) (s_pendingFeerateCommitted s) v).
Definition set_awaitingLocalFeeCommitment (v : option bool) (s : IChannelState) : IChannelState :=
  ltac:(update_field eta_state (eta_state s) (s_awaitingLocalFeeCommitment s) v).
Definition set_lastSignedCommitFeeratePerKw (v : option Z) (s : IChannelState) : IChannelState :=
  ltac:(update_field eta_state (eta_state s) (s_lastSignedCommitFeeratePerKw s) v).
Definition set_localBalanceMsat (v : Z) (s : IChannelState) : IChannelState :=
  ltac:(update_field eta_state (eta_state s) (s_localBalanceMsat s) v).
Definition set_remoteBalanceMsat (v : Z) (s : IChannelState) : IChannelState :=
  ltac:(update_field eta_state (eta_state s) (s_remoteBalanceMsat s) v).
Definition set_shaChainStore (v : ShaChainStore) (s : IChannelState) : IChannelState :=
  ltac:(update_field eta_state (eta_state s) (s_shaChainStore s) v).
Definition set_remoteCurrentPerCommitmentPoint (v : option buffer) (s : IChannelState) : IChannelState :=
  ltac:(update_field eta_state (eta_state s) (s_remoteCurrentPerCommitmentPoint s) v).
Definition set_remoteNextPerCommitmentPoint (v : option buffer) (s : IChannelState) : IChannelState :=
  ltac:(update_field eta_state (eta_state s) (s_remoteNextPerCommitmentPoint s) v).
Definition set_localHtlcCounter (v : Z) (s : IChannelState) : IChannelState :=
  ltac:(update_field eta_state (eta_state s) (s_localHtlcCounter s) v).
Definition set_htlcs (v : jsmap IHtlcEntry) (s : IChannelState) : IChannelState :=
  ltac:(update_field eta_state (eta_state s) (s_htlcs s) v).
Definition set_signedLocalRemovals (v : option (list IHtlcEntry)) (s : IChannelState) : IChannelState :=
  ltac:(update_field eta_state (eta_state s) (s_signedLocalRemovals s) v).
Definition set_remoteCommitmentSignature (v : option buffer) (s : IChannelState) : IChannelState :=
  ltac:(update_field eta_state (eta_state s) (s_remoteCommitmentSignature s) v).
Definition set_remoteHtlcSignatures (v : list buffer) (s : IChannelState) : IChannelState :=
  ltac:(update_field eta_state (eta_state s) (s_remoteHtlcSignatures s) v).
Definition set_lastSentCommitmentSigned (v : option buffer) (s : IChannelState) : IChannelState :=
  ltac:(update_field eta_state (eta_state s) (s_lastSentCommitmentSigned s) v).
Definition set_lastSentPartialSignatureWithNonce (v : option buffer) (s : IChannelState) : IChannelState :=
  ltac:(update_field eta_state (eta_state s) (s_lastSentPartialSignatureWithNonce s) v).
Definition set_lastSentHtlcSignatures (v : list buffer) (s : IChannelState) : IChannelState :=
  ltac:(update_field eta_state (eta_state s) (s_lastSentHtlcSignatures s) v).
Definition set_lastSentRevokeSecret (v : option buffer) (s : IChannelState) : IChannelState :=
  ltac:(update_field eta_state (eta_state s) (s_lastSentRevokeSecret s) v).
Definition set_lastSentRevokeNextPoint (v : option buffer) (s : IChannelState) : IChannelState :=
  ltac:(update_field eta_state (eta_state s) (s_lastSentRevokeNextPoint s) v).
Definition set_lastSentWasRevoke (v : option bool) (s : IChannelState) : IChannelState :=
  ltac:(update_field eta_state (eta_state s) (s_lastSentWasRevoke s) v).
Definition set_pendingLocalUpdates (v : list ChannelMessage) (s : IChannelState) : IChannelState :=
  ltac:(update_field eta_state (eta_state s) (s_pendingLocalUpdates s) v).
Definition set_pendingLocalUpdatesSignedCount (v : Z) (s : IChannelState) : IChannelState :=
  ltac:(update_field eta_state (eta_state s) (s_pendingLocalUpdatesSignedCount s) v).
Definition set_leaseCommitBlockheight (v : option Z) (s : IChannelState) : IChannelState :=
  ltac:(update_field eta_state (eta_state s) (s_leaseCommitBlockheight s) v).
Definition set_pendingLeaseBlockheight (v : option Z) (s : IChannelState) : IChannelState :=
  ltac:(update_field eta_state (eta_state s) (s_pendingLeaseBlockheight s) v).
Definition set_pendingLeaseBlockheightSignable (v : option bool) (s : IChannelState) : IChannelState :=
  ltac:(update_field eta_state (eta_state s) (s_pendingLeaseBlockheightSignable s) v).
Definition set_pendingLeaseBlockheightCommitted (v : option bool) (s : IChannelState) : IChannelState :=
  ltac:(update_field eta_state (eta_state s) (s_pendingLeaseBlockheightCommitted s) v).
Definition set_lastSignedCommitLeaseBlockheight (v : option Z) (s : IChannelState) : IChannelState :=
  ltac:(update_field eta_state (eta_state s) (s_lastSignedCommitLeaseBlockheight s) v).
Definition set_leaseHeightHistory (v : option (list Z)) (s : IChannelState) : IChannelState :=
  ltac:(update_field eta_state (eta_state s) (s_leaseHeightHistory s) v).
Definition set_restoreRevokedRisk (v : option bool) (s : IChannelState) : IChannelState :=
  ltac:(update_field eta_state (eta_state s) (s_restoreRevokedRisk s) v).
Definition set_revokedHtlcSnapshots (v : option (jsmap (list IHtlcSnapshotEntry))) (s : IChannelState) : IChannelState :=
  ltac:(update_field eta_state (eta_state s) (s_revokedHtlcSnapshots s) v).

(** ** types.ts *)

Definition isAnchorChannel (channelType : option buffer) : bool :=
  match channelType with
  | None => false
  | Some ct =>
      if blen ct =? 0 then false
      else hasFeature (fromBuffer ct) (Feature_bit ANCHOR_ZERO_FEE_HTLC)
           || hasFeature (fromBuffer ct) (Feature_bit OPTION_TAPROOT)
  end.

Definition isTaprootChannel (channelType : option buffer) : bool :=
  match channelType with
  | None => false
  | Some ct => if blen ct =? 0 then false else hasFeature (fromBuffer ct) (Feature_bit OPTION_TAPROOT)
  end.

(** ** liquidity-ads.ts *)

Definition LEASE_DURATION_BLOCKS := 4032.

Definition leaseCsvBlocks (leaseExpiry leaseCommitBlockheight : option Z) : option Z :=
  match leaseExpiry with
  | None => None
  | Some expiry =>
      if expiry <=? 0 then None
      else match leaseCommitBlockheight with
           | None => Some LEASE_DURATION_BLOCKS
           | Some height =>
               if height <=? 0 then Some LEASE_DURATION_BLOCKS
               else if expiry <=? height then None
               else Some (expiry - height)
           end
  end.

(** The keys of the HTLC map: [`offered-${id}`] and [`received-${id}`]. *)
Definition htlc_key (d : HtlcDirection) (id : Z) : string :=
  ((match d with OFFERED => "offered-" | RECEIVED => "received-" end) +:+ pretty id)%string.

Lemma htlc_key_inj d d' id id' : htlc_key d id = htlc_key d' id' -> d = d' /\ id = id'.
Proof.
  unfold htlc_key. destruct d, d'; cbn; intros H; try discriminate H;
    (split; [done|]); repeat (injection H as H); by apply (inj pretty).
Qed.

(** A taproot channel is an anchor channel. *)
Lemma taproot_is_anchor ct : isTaprootChannel ct = true -> isAnchorChannel ct = true.
Proof.
  destruct ct as [ct|]; [|done]. simpl. destruct (blen ct =? 0); [done|].
  intros ->. by rewrite orb_true_r.
Qed.
