(* ===== verification/CommitmentBuilder.v ===== *)
(** * The commitments of a channel state (src/src/lightning/channel/commitment-builder.ts)

    From the state of a channel to the two commitment transactions: the one this
    side holds ([buildLocalCommitment]) and the one it signs for the peer
    ([buildRemoteCommitment]).  A bigint division truncates ([Z.quot]); a fee is
    Math.floor of a product of two numbers below 2^53 divided by 1000, which is
    [Z.div].  The funding txid is its bytes where the code takes their hex text. *)

From S2P Require Import Prelude Buffer CommitmentTx Scripts JsMap ShaChain ChannelTypes.
From Stdlib Require Import Strings.Byte Sorting.Permutation.

(** ** Weights and fees *)

Definition HTLC_SUCCESS_WEIGHT := 703.
Definition HTLC_TIMEOUT_WEIGHT := 663.
Definition COMMITMENT_TX_BASE_WEIGHT := 724.
Definition COMMITMENT_TX_BASE_WEIGHT_ANCHORS := 1124.
Definition COMMITMENT_TX_BASE_WEIGHT_TAPROOT := 968.
Definition COMMITMENT_TX_HTLC_WEIGHT := 172.

Definition calculateCommitmentFee (feeratePerKw numUntrimmedHtlcs : Z) (isAnchor isTaproot : bool)
    : Z :=
  let baseWeight := if isTaproot then COMMITMENT_TX_BASE_WEIGHT_TAPROOT
                    else if isAnchor then COMMITMENT_TX_BASE_WEIGHT_ANCHORS
                    else COMMITMENT_TX_BASE_WEIGHT in
  let weight := baseWeight + COMMITMENT_TX_HTLC_WEIGHT * numUntrimmedHtlcs in
  (weight * feeratePerKw) / 1000.

Definition funderCommitmentCostSats (feeratePerKw numUntrimmedHtlcs : Z)
    (channelType : option buffer) : Z :=
  let anchor := isAnchorChannel channelType in
  calculateCommitmentFee feeratePerKw numUntrimmedHtlcs anchor (isTaprootChannel channelType) +
  (if anchor then ANCHOR_TOTAL_COST else 0).

Definition second_level_fee (isAnchor : bool) (direction : HtlcDirection) (feeratePerKw : Z) : Z :=
  if isAnchor then 0
  else let weight := match direction with
                     | OFFERED => HTLC_TIMEOUT_WEIGHT
                     | RECEIVED => HTLC_SUCCESS_WEIGHT
                     end in
       (weight * feeratePerKw) / 1000.

(** Generic in the row type, as in the code. *)
Definition filterUntrimmedHtlcs {T} (amount : T -> Z) (direction : T -> HtlcDirection)
    (htlcOutputs : list T) (dustLimitSat feeratePerKw : Z) (isAnchor : bool) : list T :=
  List.filter (fun h =>
    dustLimitSat + second_level_fee isAnchor (direction h) feeratePerKw <=? amount h) htlcOutputs.

(** ** Fee rate and lease height of a commitment *)

Definition committedFeeRate (st : IChannelState) : Z :=
  match s_role st with
  | OPENER => c_feeratePerKw (s_localConfig st)
  | ACCEPTOR => c_feeratePerKw (s_remoteConfig st)
  end.

Definition getCommitmentFeeRate (st : IChannelState) (signedLocal : bool) : Z :=
  match signedLocal, s_lastSignedCommitFeeratePerKw st with
  | true, Some rate => rate
  | _, _ => match s_pendingFeeratePerKw st with
            | Some rate => rate
            | None => committedFeeRate st
            end
  end.

Definition getLocalCommitmentFeeRate (st : IChannelState) (signedLocal : bool) : Z :=
  match signedLocal, s_lastSignedCommitFeeratePerKw st with
  | true, Some rate => rate
  | _, _ => match s_pendingFeeratePerKw st, s_role st with
            | Some rate, ACCEPTOR => rate
            | _, _ => committedFeeRate st
            end
  end.

Definition getRemoteCommitmentFeeRate (st : IChannelState) : Z :=
  match s_pendingFeeratePerKw st with
  | Some rate =>
      if bool_decide (s_role st = OPENER) || flag_true (s_pendingFeerateSignable st) then rate
      else committedFeeRate st
  | None => committedFeeRate st
  end.

Definition getLocalCommitmentLeaseBlockheight (st : IChannelState) (signedLocal : bool)
    : option Z :=
  match signedLocal, s_lastSignedCommitLeaseBlockheight st with
  | true, Some h => Some h
  | _, _ => match s_pendingLeaseBlockheight st, s_role st with
            | Some h, ACCEPTOR => Some h
            | _, _ => s_leaseCommitBlockheight st
            end
  end.

Definition getRemoteCommitmentLeaseBlockheight (st : IChannelState) : option Z :=
  match s_pendingLeaseBlockheight st with
  | Some h =>
      if bool_decide (s_role st = OPENER) || flag_true (s_pendingLeaseBlockheightSignable st)
      then Some h else s_leaseCommitBlockheight st
  | None => s_leaseCommitBlockheight st
  end.

(** ** Which HTLCs a commitment carries *)

Definition removed (entry : IHtlcEntry) : bool :=
  bool_decide (e_state entry = FULFILLED) || bool_decide (e_state entry = FAILED).

Definition signedLocalCarriesRemoval (entry : IHtlcEntry) (signedLocal : bool) : bool :=
  signedLocal && bool_decide (e_direction entry = OFFERED) && removed entry &&
  flag_false (e_removalLocallyRevoked entry) && negb (flag_false (e_addRemoteSigned entry)).

Definition signedLocalRetainedRemovals (st : IChannelState) (signedLocal : bool)
    : list IHtlcEntry :=
  if signedLocal then default [] (s_signedLocalRemovals st) else [].

Definition localCommitmentCarriesAdd (entry : IHtlcEntry) (signedLocal : bool) : bool :=
  if flag_false (e_addRemoteCommitted entry) then false
  else negb signedLocal || negb (flag_false (e_addRemoteSigned entry)).

Definition signedLocalLacksReceivedAdd (entry : IHtlcEntry) (signedLocal : bool) : bool :=
  signedLocal && bool_decide (e_direction entry = RECEIVED) &&
  flag_false (e_addLocallyRevoked entry).

(** The [continue]s of buildHtlcOutputsForLocal. *)
Definition local_carries (signedLocal : bool) (entry : IHtlcEntry) : bool :=
  if signedLocalLacksReceivedAdd entry signedLocal then false
  else if removed entry then
    (bool_decide (e_direction entry = RECEIVED) && flag_false (e_removalRemoteCommitted entry)) ||
    signedLocalCarriesRemoval entry signedLocal
  else negb (bool_decide (e_direction entry = OFFERED) &&
             negb (localCommitmentCarriesAdd entry signedLocal)).

(** The [continue]s of buildHtlcOutputsForRemote. *)
Definition remote_carries (entry : IHtlcEntry) : bool :=
  if removed entry then
    bool_decide (e_direction entry = OFFERED) && flag_false (e_removalLocallyRevoked entry)
  else negb (bool_decide (e_direction entry = RECEIVED) && flag_false (e_addLocallyRevoked entry)).

(** ** Balances of a commitment *)

(** One round of the loop of buildLocalCommitment: what an entry adds to
    [localMsat] and to [remoteMsat]. *)
Definition local_adjust (signedLocal : bool) (entry : IHtlcEntry) : Z * Z :=
  let amount := e_amountMsat entry in
  if signedLocalCarriesRemoval entry signedLocal then (0, 0)
  else if signedLocalLacksReceivedAdd entry signedLocal then (0, amount)
  else match e_state entry, e_direction entry with
  | FULFILLED, RECEIVED =>
      if negb (flag_false (e_removalRemoteCommitted entry)) then (amount, 0) else (0, 0)
  | FULFILLED, OFFERED =>
      if localCommitmentCarriesAdd entry signedLocal then (0, amount) else (amount, 0)
  | FAILED, RECEIVED =>
      if negb (flag_false (e_removalRemoteCommitted entry)) then (0, amount) else (0, 0)
  | FAILED, OFFERED => (amount, 0)
  | _, OFFERED => if negb (localCommitmentCarriesAdd entry signedLocal) then (amount, 0) else (0, 0)
  | _, RECEIVED => (0, 0)
  end.

(** A retained removal: the amount the revoke_and_ack moved is taken back. *)
Definition retained_adjust (entry : IHtlcEntry) : Z * Z :=
  match e_state entry with
  | FULFILLED => (- e_amountMsat entry, 0)
  | _ => (0, - e_amountMsat entry)
  end.

(** The loop of buildRemoteCommitment; [localMsat] is the peer's balance. *)
Definition remote_adjust (entry : IHtlcEntry) : Z * Z :=
  let amount := e_amountMsat entry in
  match e_state entry, e_direction entry with
  | FULFILLED, RECEIVED => (0, amount)
  | FULFILLED, OFFERED =>
      if negb (flag_false (e_removalLocallyRevoked entry)) then (amount, 0) else (0, 0)
  | FAILED, RECEIVED => (amount, 0)
  | FAILED, OFFERED =>
      if negb (flag_false (e_removalLocallyRevoked entry)) then (0, amount) else (0, 0)
  | _, RECEIVED => if flag_false (e_addLocallyRevoked entry) then (amount, 0) else (0, 0)
  | _, OFFERED => (0, 0)
  end.

Definition add2 (a b : Z * Z) : Z * Z := (a.1 + b.1, a.2 + b.2).

Lemma fold_add2 {A} (f : A -> Z * Z) l b :
  fold_left (fun acc x => add2 acc (f x)) l b =
  (b.1 + zsum (fun x => (f x).1) l, b.2 + zsum (fun x => (f x).2) l).
Proof.
  revert b. induction l as [|x l IH]; intros [b1 b2]; simpl; [f_equal; lia|].
  rewrite IH. simpl. f_equal; lia.
Qed.

Definition local_balances (st : IChannelState) (signedLocal : bool) : Z * Z :=
  let b := fold_left (fun acc entry => add2 acc (local_adjust signedLocal entry))
             (values (s_htlcs st)) (s_localBalanceMsat st, s_remoteBalanceMsat st) in
  fold_left (fun acc entry => add2 acc (retained_adjust entry))
    (signedLocalRetainedRemovals st signedLocal) b.

Definition remote_balances (st : IChannelState) : Z * Z :=
  fold_left (fun acc entry => add2 acc (remote_adjust entry))
    (values (s_htlcs st)) (s_remoteBalanceMsat st, s_localBalanceMsat st).

(** From millisatoshi balances to output amounts: floor, the opener's costs, and
    the saturation at zero. *)
Definition main_amounts (localIsOpener useAnchors : bool) (fee : Z) (balances : Z * Z) : Z * Z :=
  let cost := fee + (if useAnchors then ANCHOR_TOTAL_COST else 0) in
  let localAmount := Z.quot balances.1 1000 - (if localIsOpener then cost else 0) in
  let remoteAmount := Z.quot balances.2 1000 - (if localIsOpener then 0 else cost) in
  (if localAmount <? 0 then 0 else localAmount, if remoteAmount <? 0 then 0 else remoteAmount).

Record ICommitmentKeys := {
  k_revocationPubkey : buffer;
  k_localDelayedPubkey : buffer;
  k_remotePaymentPubkey : buffer;
  k_localHtlcPubkey : buffer;
  k_remoteHtlcPubkey : buffer
}.

(** An HTLC output with what signing its second-level transaction needs; the
    local list carries no [htlcId]. *)
Record IHtlcOutputWithMeta := {
  ho_output : IHtlcOutput;
  ho_htlcId : option Z;
  ho_direction : HtlcDirection;
  ho_amountMsat : Z
}.

Definition ho_amount (h : IHtlcOutputWithMeta) : Z := h_amount (ho_output h).

Record IBuiltCommitment := {
  b_funderBalanceMsat : Z;
  b_result : ICommitmentTxResult;
  b_fundingWitnessScript : buffer;
  b_fundingAmount : Z;
  b_htlcOutputs : list IHtlcOutputWithMeta
}.

Definition E_NOT_READY : string := "Channel state not ready for commitment building".

Section Builder.
Context `{L : BitcoinLib}.

Definition deriveCommitmentKeys (localBasepoints remoteBasepoints : IChannelBasepoints)
    (perCommitmentPoint : buffer) (isLocal : bool) : result ICommitmentKeys :=
  let '(holder, other) := if isLocal then (localBasepoints, remoteBasepoints)
                          else (remoteBasepoints, localBasepoints) in
  revocation ← deriveRevocationPubkey (bp_revocationBasepoint other) perCommitmentPoint;
  delayed ← derivePublicKey (bp_delayedPaymentBasepoint holder) perCommitmentPoint;
  localHtlc ← derivePublicKey (bp_htlcBasepoint holder) perCommitmentPoint;
  remoteHtlc ← derivePublicKey (bp_htlcBasepoint other) perCommitmentPoint;
  Ok {| k_revocationPubkey := revocation; k_localDelayedPubkey := delayed;
        k_remotePaymentPubkey := bp_paymentBasepoint other;
        k_localHtlcPubkey := localHtlc; k_remoteHtlcPubkey := remoteHtlc |}.

(** [kind] is the script class on the commitment being built. *)
Definition taprootHtlcScript (isTaproot : bool) (kind : HtlcDirection) (keys : ICommitmentKeys)
    (paymentHash : buffer) (cltvExpiry : Z) : result (option buffer) :=
  if negb isTaproot then Ok None
  else match kind with
  | OFFERED => Some <$> buildTaprootOfferedHtlcOutput (k_revocationPubkey keys)
                          (k_localHtlcPubkey keys) (k_remoteHtlcPubkey keys) paymentHash
  | RECEIVED => Some <$> buildTaprootReceivedHtlcOutput (k_revocationPubkey keys)
                          (k_localHtlcPubkey keys) (k_remoteHtlcPubkey keys) paymentHash cltvExpiry
  end.

Definition htlc_script (kind : HtlcDirection) (keys : ICommitmentKeys) (paymentHash : buffer)
    (cltvExpiry : Z) (useAnchors : bool) : result buffer :=
  match kind with
  | OFFERED => buildOfferedHtlcScript (k_revocationPubkey keys) (k_localHtlcPubkey keys)
                 (k_remoteHtlcPubkey keys) paymentHash useAnchors
  | RECEIVED => buildReceivedHtlcScript (k_revocationPubkey keys) (k_localHtlcPubkey keys)
                  (k_remoteHtlcPubkey keys) paymentHash cltvExpiry useAnchors
  end.

(** An entry's output where the commitment sees it as [kind]. *)
Definition htlc_output (st : IChannelState) (keys : ICommitmentKeys) (kind : HtlcDirection)
    (entry : IHtlcEntry) : result IHtlcOutput :=
  script ← htlc_script kind keys (e_paymentHash entry) (e_cltvExpiry entry)
             (isAnchorChannel (s_channelType st));
  taproot ← taprootHtlcScript (isTaprootChannel (s_channelType st)) kind keys
              (e_paymentHash entry) (e_cltvExpiry entry);
  Ok {| h_script := script; h_amount := Z.quot (e_amountMsat entry) 1000;
        h_cltvExpiry := e_cltvExpiry entry; h_paymentHash := e_paymentHash entry;
        h_taprootScript := taproot |}.

Definition buildLocalHtlcOutput (st : IChannelState) (keys : ICommitmentKeys)
    (entry : IHtlcEntry) : result IHtlcOutputWithMeta :=
  output ← htlc_output st keys (e_direction entry) entry;
  Ok {| ho_output := output; ho_htlcId := None; ho_direction := e_direction entry;
        ho_amountMsat := e_amountMsat entry |}.

Definition buildHtlcOutputsForLocal (st : IChannelState) (keys : ICommitmentKeys)
    (signedLocal : bool) : result (list IHtlcOutputWithMeta) :=
  mapM (buildLocalHtlcOutput st keys)
    (List.filter (local_carries signedLocal) (values (s_htlcs st)) ++
     signedLocalRetainedRemovals st signedLocal).

Definition flip_direction (d : HtlcDirection) : HtlcDirection :=
  match d with OFFERED => RECEIVED | RECEIVED => OFFERED end.

(** What we offered is received on the peer's commitment, and the reverse. *)
Definition remote_htlc_output (st : IChannelState) (keys : ICommitmentKeys)
    (entry : IHtlcEntry) : result IHtlcOutputWithMeta :=
  output ← htlc_output st keys (flip_direction (e_direction entry)) entry;
  Ok {| ho_output := output; ho_htlcId := Some (e_id entry); ho_direction := e_direction entry;
        ho_amountMsat := e_amountMsat entry |}.

Definition buildHtlcOutputsForRemote (st : IChannelState) (keys : ICommitmentKeys)
    : result (list IHtlcOutputWithMeta) :=
  mapM (remote_htlc_output st keys) (List.filter remote_carries (values (s_htlcs st))).

(** The four scripts applyTaprootCommitOverrides assigns, or none. *)
Definition applyTaprootCommitOverrides (revocationPubkey localDelayedPubkey remotePaymentPubkey :
    buffer) (toSelfDelay : Z) (channelType : option buffer)
    : result (option (buffer * buffer * buffer * buffer)) :=
  if negb (isTaprootChannel channelType) then Ok None
  else
    toLocal ← buildTaprootToLocalOutput revocationPubkey localDelayedPubkey toSelfDelay;
    toRemote ← buildTaprootToRemoteOutput remotePaymentPubkey;
    anchorLocal ← buildTaprootAnchorOutput localDelayedPubkey;
    anchorRemote ← buildTaprootAnchorOutput remotePaymentPubkey;
    Ok (Some (toLocal, toRemote, anchorLocal, anchorRemote)).

(** The part the two builders share, once each has read its own side: [holder] and
    [other] are the basepoints of the commitment's holder and of its peer. *)
Definition build_commitment (fundingTxid : buffer) (fundingOutputIndex fundingSatoshis : Z)
    (channelType : option buffer) (holderIsOpener : bool) (holder other : IChannelBasepoints)
    (commitNum : Z) (keys : ICommitmentKeys) (feeratePerKw dustLimitSat toSelfDelay : Z)
    (leaseCsv toRemoteLeaseCsv : option Z) (balances : Z * Z)
    (htlcOutputs : list IHtlcOutputWithMeta) (localFirst : buffer) (remoteFirst : buffer)
    : result IBuiltCommitment :=
  let '(openPaymentBasepoint, acceptPaymentBasepoint) :=
    if holderIsOpener then (bp_paymentBasepoint holder, bp_paymentBasepoint other)
    else (bp_paymentBasepoint other, bp_paymentBasepoint holder) in
  let obscured := calculateObscuredCommitmentNumber sha256 openPaymentBasepoint
                    acceptPaymentBasepoint commitNum in
  let useAnchors := isAnchorChannel channelType in
  let fee := calculateCommitmentFee feeratePerKw (Z.of_nat (length htlcOutputs)) useAnchors
               (isTaprootChannel channelType) in
  let '(localAmount, remoteAmount) := main_amounts holderIsOpener useAnchors fee balances in
  funding ← createFundingScript localFirst remoteFirst;
  taproot ← applyTaprootCommitOverrides (k_revocationPubkey keys) (k_localDelayedPubkey keys)
              (k_remotePaymentPubkey keys) toSelfDelay channelType;
  let params :=
    {| fundingTxid := fundingTxid; fundingOutputIndex := fundingOutputIndex;
       obscuredCommitmentNumber := obscured; localAmount := localAmount;
       revocationPubkey := k_revocationPubkey keys;
       localDelayedPubkey := k_localDelayedPubkey keys; toSelfDelay := toSelfDelay;
       leaseCsv := leaseCsv; remoteAmount := remoteAmount;
       remotePaymentPubkey := k_remotePaymentPubkey keys; toRemoteLeaseCsv := toRemoteLeaseCsv;
       htlcOutputs := map ho_output htlcOutputs; dustLimitSatoshis := Some dustLimitSat;
       useAnchors := useAnchors;
       localFundingPubkey := if useAnchors then Some (bp_fundingPubkey holder) else None;
       remoteFundingPubkey := if useAnchors then Some (bp_fundingPubkey other) else None;
       taprootToLocalScript := option_map (fun t => t.1.1.1) taproot;
       taprootToRemoteScript := option_map (fun t => t.1.1.2) taproot;
       taprootAnchorLocalScript := option_map (fun t => t.1.2) taproot;
       taprootAnchorRemoteScript := option_map (fun t => t.2) taproot |} in
  tx ← buildCommitmentTx script_compile number_encode p2wsh p2wpkh params;
  Ok {| b_funderBalanceMsat := if holderIsOpener then balances.1 else balances.2;
        b_result := tx; b_fundingWitnessScript := funding; b_fundingAmount := fundingSatoshis;
        b_htlcOutputs := htlcOutputs |}.

Definition buildLocalCommitment (st : IChannelState) (perCommitmentPoint : buffer)
    (commitmentNumber : option Z) (signedLocal : bool) : result IBuiltCommitment :=
  match s_remoteBasepoints st, s_fundingTxid st with
  | Some remoteBasepoints, Some txid =>
      keys ← deriveCommitmentKeys (s_localBasepoints st) remoteBasepoints perCommitmentPoint true;
      let isOpener := bool_decide (s_role st = OPENER) in
      let commitNum := default (s_localCommitmentNumber st) commitmentNumber in
      let useAnchors := isAnchorChannel (s_channelType st) in
      let feeratePerKw := getLocalCommitmentFeeRate st signedLocal in
      let dust := c_dustLimitSatoshis (s_localConfig st) in
      outputs ← buildHtlcOutputsForLocal st keys signedLocal;
      let htlcOutputs := filterUntrimmedHtlcs ho_amount ho_direction outputs dust feeratePerKw
                           useAnchors in
      let lease := leaseCsvBlocks (s_leaseExpiry st)
                     (getLocalCommitmentLeaseBlockheight st signedLocal) in
      let isLessor := flag_true (s_isLessor st) in
      build_commitment txid (s_fundingOutputIndex st) (s_fundingSatoshis st) (s_channelType st)
        isOpener (s_localBasepoints st) remoteBasepoints commitNum keys feeratePerKw dust
        (c_toSelfDelay (s_remoteConfig st)) (if isLessor then lease else None)
        (if isLessor then None else lease) (local_balances st signedLocal) htlcOutputs
        (bp_fundingPubkey (s_localBasepoints st)) (bp_fundingPubkey remoteBasepoints)
  | _, _ => Err E_NOT_READY
  end.

Definition buildRemoteCommitment (st : IChannelState) (remotePerCommitmentPoint : buffer)
    (commitmentNumber : option Z) : result IBuiltCommitment :=
  match s_remoteBasepoints st, s_fundingTxid st with
  | Some remoteBasepoints, Some txid =>
      keys ← deriveCommitmentKeys (s_localBasepoints st) remoteBasepoints
               remotePerCommitmentPoint false;
      let isOpener := bool_decide (s_role st = OPENER) in
      let commitNum := default (s_remoteCommitmentNumber st) commitmentNumber in
      let useAnchors := isAnchorChannel (s_channelType st) in
      let feeratePerKw := getRemoteCommitmentFeeRate st in
      let dust := c_dustLimitSatoshis (s_remoteConfig st) in
      outputs ← buildHtlcOutputsForRemote st keys;
      let htlcOutputs := filterUntrimmedHtlcs ho_amount ho_direction outputs dust feeratePerKw
                           useAnchors in
      let lease := leaseCsvBlocks (s_leaseExpiry st) (getRemoteCommitmentLeaseBlockheight st) in
      let isLessor := flag_true (s_isLessor st) in
      build_commitment txid (s_fundingOutputIndex st) (s_fundingSatoshis st) (s_channelType st)
        (negb isOpener) remoteBasepoints (s_localBasepoints st) commitNum keys feeratePerKw dust
        (c_toSelfDelay (s_localConfig st)) (if isLessor then None else lease)
        (if isLessor then lease else None) (remote_balances st) htlcOutputs
        (bp_fundingPubkey (s_localBasepoints st)) (bp_fundingPubkey remoteBasepoints)
  | _, _ => Err E_NOT_READY
  end.

(** ** Two sides of one channel

    [a] signs the commitment that [b] holds.  [mirrored] is what the two states agree
    on from the opening; [same_view] is what the update protocol has to keep equal:
    the fee rate, the lease height, the balances and the set of HTLCs. *)

Definition HtlcTerms : Type := HtlcDirection * Z * buffer * Z.

Definition local_terms (e : IHtlcEntry) : HtlcTerms :=
  (e_direction e, e_amountMsat e, e_paymentHash e, e_cltvExpiry e).

Definition remote_terms (e : IHtlcEntry) : HtlcTerms :=
  (flip_direction (e_direction e), e_amountMsat e, e_paymentHash e, e_cltvExpiry e).

Definition local_set (st : IChannelState) (signedLocal : bool) : list HtlcTerms :=
  map local_terms (List.filter (local_carries signedLocal) (values (s_htlcs st)) ++
                   signedLocalRetainedRemovals st signedLocal).

Definition remote_set (st : IChannelState) : list HtlcTerms :=
  map remote_terms (List.filter remote_carries (values (s_htlcs st))).

Record mirrored (a b : IChannelState) : Prop := {
  m_role : s_role a <> s_role b;
  m_txid : s_fundingTxid a = s_fundingTxid b;
  m_index : s_fundingOutputIndex a = s_fundingOutputIndex b;
  m_sats : s_fundingSatoshis a = s_fundingSatoshis b;
  m_type : s_channelType a = s_channelType b;
  m_dust : c_dustLimitSatoshis (s_remoteConfig a) = c_dustLimitSatoshis (s_localConfig b);
  m_delay : c_toSelfDelay (s_localConfig a) = c_toSelfDelay (s_remoteConfig b);
  m_points_a : s_remoteBasepoints a = Some (s_localBasepoints b);
  m_points_b : s_remoteBasepoints b = Some (s_localBasepoints a);
  m_expiry : s_leaseExpiry a = s_leaseExpiry b;
  m_lessor : s_leaseExpiry a = None \/
             flag_true (s_isLessor b) = negb (flag_true (s_isLessor a))
}.

Record same_view (a b : IChannelState) (signedLocal : bool) : Prop := {
  v_feerate : getRemoteCommitmentFeeRate a = getLocalCommitmentFeeRate b signedLocal;
  v_lease : getRemoteCommitmentLeaseBlockheight a =
            getLocalCommitmentLeaseBlockheight b signedLocal;
  v_balances : remote_balances a = local_balances b signedLocal;
  v_htlcs : Permutation (remote_set a) (local_set b signedLocal)
}.

Definition terms_output (channelType : option buffer) (keys : ICommitmentKeys) (t : HtlcTerms)
    : result IHtlcOutput :=
  let '(kind, amount, hash, cltv) := t in
  script ← htlc_script kind keys hash cltv (isAnchorChannel channelType);
  taproot ← taprootHtlcScript (isTaprootChannel channelType) kind keys hash cltv;
  Ok {| h_script := script; h_amount := Z.quot amount 1000; h_cltvExpiry := cltv;
        h_paymentHash := hash; h_taprootScript := taproot |}.

Lemma mapM_perm {A B} (f : A -> result B) l l' ys :
  Permutation l l' -> mapM f l = Ok ys -> exists ys', mapM f l' = Ok ys' /\ Permutation ys ys'.
Proof.
  intros Hp. revert ys. induction Hp as [|x l l' Hp IH|x y l|l1 l2 l3 _ IH1 _ IH2]; intros ys.
  - intros [= <-]. by exists [].
  - rewrite !mapM_cons. intros H. inv_result. destruct (IH _ ltac:(eassumption)) as (ys' & -> & ?).
    eexists. rewrite H0. split; [reflexivity | by constructor].
  - rewrite !mapM_cons. intros H. inv_result.
    match goal with H : f y = Ok _ |- _ => rewrite H end.
    match goal with H : f x = Ok _ |- _ => rewrite H end.
    match goal with H : mapM f l = Ok _ |- _ => rewrite H end.
    eexists. split; [reflexivity | apply Permutation.perm_swap].
  - intros H. destruct (IH1 _ H) as (y2 & H2 & P2). destruct (IH2 _ H2) as (y3 & H3 & P3).
    exists y3. split; [done | by rewrite P2].
Qed.

(** A list of outputs with their metadata is the list of outputs of the terms. *)
Lemma mapM_terms {T} (terms : T -> HtlcTerms) (f : T -> result IHtlcOutputWithMeta)
    (meta : T -> IHtlcOutput -> IHtlcOutputWithMeta) ct keys :
  (forall e, f e = (o ← terms_output ct keys (terms e); Ok (meta e o))) ->
  (forall e o, ho_output (meta e o) = o) ->
  forall l, (ho ← mapM f l; Ok (map ho_output ho)) = mapM (terms_output ct keys) (map terms l).
Proof.
  intros Hf Hm. induction l as [|e l IH]; [done|].
  rewrite mapM_cons. cbn [map]. rewrite mapM_cons, Hf, <- IH.
  destruct (terms_output ct keys (terms e)) as [o|]; [|done].
  rewrite !bind_Ok. destruct (mapM f l) as [os|]; [|done].
  rewrite !bind_Ok. cbn [map]. by rewrite Hm.
Qed.

Lemma local_outputs_terms st keys sl :
  (ho ← buildHtlcOutputsForLocal st keys sl; Ok (map ho_output ho)) =
  mapM (terms_output (s_channelType st) keys) (local_set st sl).
Proof.
  apply (mapM_terms local_terms (buildLocalHtlcOutput st keys)
    (fun e o => {| ho_output := o; ho_htlcId := None; ho_direction := e_direction e;
                   ho_amountMsat := e_amountMsat e |})); done.
Qed.

Lemma remote_outputs_terms st keys :
  (ho ← buildHtlcOutputsForRemote st keys; Ok (map ho_output ho)) =
  mapM (terms_output (s_channelType st) keys) (remote_set st).
Proof.
  apply (mapM_terms remote_terms (remote_htlc_output st keys)
    (fun e o => {| ho_output := o; ho_htlcId := Some (e_id e); ho_direction := e_direction e;
                   ho_amountMsat := e_amountMsat e |})); done.
Qed.

(** On an anchor channel trimming does not look at the direction. *)
Lemma anchor_untrimmed l dust rate :
  map ho_output (filterUntrimmedHtlcs ho_amount ho_direction l dust rate true) =
  List.filter (fun h => dust <=? h_amount h) (map ho_output l).
Proof.
  unfold filterUntrimmedHtlcs, second_level_fee. rewrite Z.add_0_r.
  induction l as [|h l IH]; [done|]. simpl. unfold ho_amount in *.
  destruct (dust <=? _); simpl; by rewrite IH.
Qed.

Definition same_commitment (r r' : IBuiltCommitment) : Prop :=
  r_tx (b_result r) = r_tx (b_result r') /\
  b_fundingWitnessScript r = b_fundingWitnessScript r' /\
  b_fundingAmount r = b_fundingAmount r' /\
  b_funderBalanceMsat r = b_funderBalanceMsat r' /\
  Permutation (map ho_output (b_htlcOutputs r)) (map ho_output (b_htlcOutputs r')).

Lemma build_commitment_perm txid idx sats ct opener holder other n keys rate dust delay l1 l2 bal
    hs hs' k1 k2 r :
  Permutation (map ho_output hs) (map ho_output hs') ->
  build_commitment txid idx sats ct opener holder other n keys rate dust delay l1 l2 bal hs k1 k2
    = Ok r ->
  exists r', build_commitment txid idx sats ct opener holder other n keys rate dust delay l1 l2
               bal hs' k2 k1 = Ok r' /\ same_commitment r r'.
Proof.
  intros Hp. unfold build_commitment.
  assert (length hs' = length hs) as ->
    by (rewrite <- (length_map ho_output hs), <- (length_map ho_output hs'); by rewrite Hp).
  destruct (if opener then _ else _) as [open accept].
  destruct (main_amounts _ _ _ _) as [la ra]. rewrite (funding_script_sym k2 k1).
  intros H. apply bind_Ok_inv in H as (funding & -> & H).
  apply bind_Ok_inv in H as (taproot & -> & H). apply bind_Ok_inv in H as (tx & Htx & [= <-]).
  rewrite !bind_Ok.
  match type of Htx with buildCommitmentTx _ _ _ _ ?p = _ =>
    destruct (build_perm script_compile number_encode p2wsh p2wpkh p _ _ _ Hp Htx)
      as (tx' & Htx' & E) end.
  unfold with_htlcs in Htx'. cbn in Htx'. cbn. rewrite Htx', bind_Ok.
  eexists. split; [reflexivity|]. by repeat split.
Qed.

Lemma mirrored_keys a b point :
  mirrored a b ->
  deriveCommitmentKeys (s_localBasepoints a) (s_localBasepoints b) point false =
  deriveCommitmentKeys (s_localBasepoints b) (s_localBasepoints a) point true.
Proof. reflexivity. Qed.

Lemma mirrored_opener a b : mirrored a b ->
  negb (bool_decide (s_role a = OPENER)) = bool_decide (s_role b = OPENER).
Proof. intros [Hr _ _ _ _ _ _ _ _ _]. by destruct (s_role a), (s_role b). Qed.

Lemma mirrored_lease a b (csv : option Z) : mirrored a b -> csv = None \/ s_leaseExpiry a <> None ->
  (if flag_true (s_isLessor a) then None else csv) = (if flag_true (s_isLessor b) then csv else None)
  /\ (if flag_true (s_isLessor a) then csv else None) = (if flag_true (s_isLessor b) then None else csv).
Proof.
  intros Hm Hc. destruct (m_lessor _ _ Hm) as [He|E].
  - destruct Hc as [->|]; [|done]. by destruct (flag_true (s_isLessor a)), (flag_true (s_isLessor b)).
  - rewrite E. by destruct (flag_true (s_isLessor a)).
Qed.

Lemma lease_none e h : leaseCsvBlocks e h = None \/ e <> None.
Proof. destruct e; [by right | by left]. Qed.

(** What one side signs is what the other side holds, on an anchor channel. *)
Lemma remote_is_local a b sl point n r :
  mirrored a b -> same_view a b sl -> isAnchorChannel (s_channelType a) = true ->
  buildRemoteCommitment a point (Some n) = Ok r ->
  exists r', buildLocalCommitment b point (Some n) sl = Ok r' /\ same_commitment r r'.
Proof.
  intros Hm Hv Ha. unfold buildRemoteCommitment, buildLocalCommitment.
  rewrite (m_points_a _ _ Hm), (m_points_b _ _ Hm), <- (m_txid _ _ Hm).
  destruct (s_fundingTxid a) as [txid|]; [|done]. rewrite (mirrored_keys _ _ point Hm).
  intros H. apply bind_Ok_inv in H as (keys & -> & H). apply bind_Ok_inv in H as (outs & Ho & H).
  rewrite bind_Ok. cbn [default].
  pose proof (remote_outputs_terms a keys) as Ht. rewrite Ho, bind_Ok in Ht. symmetry in Ht.
  destruct (mapM_perm _ _ _ _ (v_htlcs _ _ _ Hv) Ht) as (outs' & Ht' & Hp).
  rewrite (m_type _ _ Hm), <- local_outputs_terms in Ht'.
  apply bind_Ok_inv in Ht' as (ho & Hl & [= <-]). rewrite Hl, bind_Ok.
  destruct (mirrored_lease a b _ Hm (lease_none _ (getRemoteCommitmentLeaseBlockheight a)))
    as [E1 E2].
  rewrite E1, E2, (mirrored_opener _ _ Hm), (v_balances _ _ _ Hv), (v_feerate _ _ _ Hv),
    (m_type _ _ Hm), (m_index _ _ Hm), (m_sats _ _ Hm), (m_dust _ _ Hm), (m_delay _ _ Hm),
    (m_expiry _ _ Hm), (v_lease _ _ _ Hv) in H.
  rewrite (m_type _ _ Hm) in Ha. rewrite Ha in *.
  refine (build_commitment_perm _ _ _ _ _ _ _ _ _ _ _ _ _ _ _ _ _ _ _ _ _ H).
  rewrite !anchor_untrimmed. by apply filter_perm.
Qed.

(** ** Value *)

Definition terms_sum (ts : list HtlcTerms) : Z := fold_right (fun t acc => t.1.1.2 + acc) 0 ts.

Lemma quot_1000 a : 0 <= a -> 0 <= Z.quot a 1000 /\ 1000 * Z.quot a 1000 <= a.
Proof.
  intros Ha. rewrite Z.quot_div_nonneg by lia.
  pose proof (Z.div_pos a 1000 Ha ltac:(lia)). pose proof (Z.mul_div_le a 1000 ltac:(lia)). lia.
Qed.

(** The outputs of the terms are worth no more than the terms, in satoshi. *)
Lemma terms_output_sum ct keys ts outs :
  mapM (terms_output ct keys) ts = Ok outs -> Forall (fun t => 0 <= t.1.1.2) ts ->
  Forall (fun h => 0 <= h_amount h) outs /\ 1000 * htlc_sum outs <= terms_sum ts.
Proof.
  revert outs. induction ts as [|t ts IH]; intros outs H Hp.
  - injection H as <-. done.
  - rewrite mapM_cons in H. apply bind_Ok_inv in H as (o & Ho & H).
    apply bind_Ok_inv in H as (os & Hos & [= <-]). apply Forall_cons in Hp as [Ht Hp].
    destruct (IH _ Hos Hp) as [Hf Hs]. destruct t as [[[d a] h] c]. cbn [fst snd] in Ht.
    unfold terms_output in Ho. inv_result. destruct (quot_1000 a Ht).
    split; [by constructor|]. unfold htlc_sum, terms_sum in *.
    cbn [fold_right h_amount fst snd]. lia.
Qed.

Lemma htlc_sum_filter (l : list IHtlcOutputWithMeta) dust rate anchor :
  Forall (fun h => 0 <= h_amount h) (map ho_output l) ->
  Forall (fun h => 0 <= h_amount h)
    (map ho_output (filterUntrimmedHtlcs ho_amount ho_direction l dust rate anchor)) /\
  htlc_sum (map ho_output (filterUntrimmedHtlcs ho_amount ho_direction l dust rate anchor)) <=
  htlc_sum (map ho_output l).
Proof.
  unfold filterUntrimmedHtlcs. induction l as [|h l IH]; [done|]. cbn [map]. intros H.
  apply Forall_cons in H as [Hh H]. destruct (IH H) as [Hf Hs]. cbn [List.filter].
  unfold htlc_sum in *. case_match; cbn [map fold_right] in *;
    (split; [first [by constructor | done] | lia]).
Qed.

Lemma main_amounts_nonneg o a f b :
  0 <= (main_amounts o a f b).1 /\ 0 <= (main_amounts o a f b).2.
Proof.
  unfold main_amounts. cbn. split; case_match; bool_props; lia.
Qed.

(** The opener's costs come off its own output when it can afford them. *)
Lemma main_amounts_sum (o a : bool) (f : Z) (b : Z * Z) :
  0 <= b.1 -> 0 <= b.2 ->
  1000 * (f + (if a then ANCHOR_TOTAL_COST else 0)) <= (if o then b.1 else b.2) ->
  1000 * ((main_amounts o a f b).1 + (main_amounts o a f b).2 +
          (f + (if a then ANCHOR_TOTAL_COST else 0))) <= b.1 + b.2.
Proof.
  intros H1 H2 Hc. destruct (quot_1000 _ H1), (quot_1000 _ H2). unfold main_amounts. cbn [fst snd].
  set (cost := f + (if a then ANCHOR_TOTAL_COST else 0)) in *.
  assert (Hq : forall x, 0 <= x -> 1000 * cost <= x -> cost <= Z.quot x 1000).
  { intros x Hx Hl. rewrite Z.quot_div_nonneg by lia. apply Z.div_le_lower_bound; lia. }
  destruct o.
  - pose proof (Hq _ H1 Hc). destruct (Z.ltb_spec (Z.quot b.1 1000 - cost) 0),
      (Z.ltb_spec (Z.quot b.2 1000 - 0) 0); try lia.
  - pose proof (Hq _ H2 Hc). destruct (Z.ltb_spec (Z.quot b.1 1000 - 0) 0),
      (Z.ltb_spec (Z.quot b.2 1000 - cost) 0); try lia.
Qed.

Lemma build_commitment_total txid idx sats ct opener holder other n keys rate dust delay l1 l2 bal
    hs k1 k2 r :
  build_commitment txid idx sats ct opener holder other n keys rate dust delay l1 l2 bal hs k1 k2
    = Ok r ->
  Forall (fun h => 0 <= h_amount h) (map ho_output hs) ->
  let fee := calculateCommitmentFee rate (Z.of_nat (length hs)) (isAnchorChannel ct)
               (isTaprootChannel ct) in
  let amounts := main_amounts opener (isAnchorChannel ct) fee bal in
  b_htlcOutputs r = hs /\ b_funderBalanceMsat r = (if opener then bal.1 else bal.2) /\
  total (tx_outs (r_tx (b_result r))) <=
    amounts.1 + amounts.2 + htlc_sum (map ho_output hs) +
    (if isAnchorChannel ct then ANCHOR_TOTAL_COST else 0).
Proof.
  intros H Hp fee amounts. unfold build_commitment in H. fold fee in H. fold amounts in H.
  destruct (if opener then _ else _) as [open accept] in H.
  pose proof (main_amounts_nonneg opener (isAnchorChannel ct) fee bal) as [Hl Hr].
  fold amounts in Hl, Hr. destruct amounts as [la ra]. cbn [fst snd] in *.
  apply bind_Ok_inv in H as (funding & _ & H). apply bind_Ok_inv in H as (taproot & _ & H).
  apply bind_Ok_inv in H as (tx & Htx & [= <-]). cbn [b_htlcOutputs b_funderBalanceMsat b_result].
  repeat split. exact (build_total_le _ _ _ _ _ _ Htx Hl Hr Hp).
Qed.

(** Which main outputs a commitment has: those whose amount reaches the dust limit. *)
Lemma build_commitment_mains txid idx sats ct opener holder other n keys rate dust delay l1 l2 bal
    hs k1 k2 r :
  build_commitment txid idx sats ct opener holder other n keys rate dust delay l1 l2 bal hs k1 k2
    = Ok r ->
  let fee := calculateCommitmentFee rate (Z.of_nat (length hs)) (isAnchorChannel ct)
               (isTaprootChannel ct) in
  let amounts := main_amounts opener (isAnchorChannel ct) fee bal in
  (dust <= amounts.1 -> is_Some (om_toLocal (r_outputMap (b_result r)))) /\
  (dust <= amounts.2 -> is_Some (om_toRemote (r_outputMap (b_result r)))).
Proof.
  intros H fee amounts. unfold build_commitment in H. fold fee in H. fold amounts in H.
  destruct (if opener then _ else _) as [open accept] in H.
  destruct amounts as [la ra]. cbn [fst snd].
  apply bind_Ok_inv in H as (funding & _ & H). apply bind_Ok_inv in H as (taproot & _ & H).
  apply bind_Ok_inv in H as (tx & Htx & [= <-]). cbn [b_result].
  destruct (build_inv _ _ _ _ _ _ Htx) as (outs & s1 & s2 & Hc & Ho & Hm). split; intros Hd.
  - pose proof (slot_correct _ _ _ _ _ tx outs s1 s2 to_local _ _ _ Hc Ho Hm
      (or_introl (conj eq_refl (conj eq_refl (conj eq_refl eq_refl))))) as Hs.
    change (slot to_local (r_outputMap tx)) with (om_toLocal (r_outputMap tx)) in Hs.
    destruct (om_toLocal (r_outputMap tx)); [done|]. cbn in Hs. lia.
  - pose proof (slot_correct _ _ _ _ _ tx outs s1 s2 to_remote _ _ _ Hc Ho Hm
      (or_intror (conj eq_refl (conj eq_refl (conj eq_refl eq_refl))))) as Hs.
    change (slot to_remote (r_outputMap tx)) with (om_toRemote (r_outputMap tx)) in Hs.
    destruct (om_toRemote (r_outputMap tx)); [done|]. unfold remote_dust, dustWsh, dustWpkh in Hs.
    cbn in Hs. repeat case_match; lia.
Qed.

(** The funder's amount, once it covers the cost and the dust limit. *)
Lemma funder_amount (o a : bool) fee b dust :
  0 <= dust -> 0 <= fee ->
  1000 * (dust + fee + (if a then ANCHOR_TOTAL_COST else 0)) <= (if o then b.1 else b.2) ->
  dust <= (if o then (main_amounts o a fee b).1 else (main_amounts o a fee b).2).
Proof.
  intros Hd Hf H. unfold main_amounts. set (anchors := if a then ANCHOR_TOTAL_COST else 0) in *.
  assert (0 <= anchors) by (by destruct a).
  assert (forall x, 1000 * (dust + fee + anchors) <= x -> dust + fee + anchors <= Z.quot x 1000) as Hq.
  { intros x Hx. rewrite Z.quot_div_nonneg by lia. apply Z.div_le_lower_bound; lia. }
  destruct o; cbn [fst snd]; specialize (Hq _ H).
  - destruct (Z.ltb_spec (Z.quot b.1 1000 - (fee + anchors)) 0); lia.
  - destruct (Z.ltb_spec (Z.quot b.2 1000 - (fee + anchors)) 0); lia.
Qed.

(** ** Theorems *)

(** C7: on an anchor channel, when the two sides agree on the fee
    rate, the lease height, the balances and the set of HTLCs of a commitment,
    the transaction one side signs for its peer is the transaction the peer
    builds for itself, with the same funding script and amount. *)
Theorem peers_build_same_commitment a b signedLocal point n r
    (Hmirror : mirrored a b) (Hview : same_view a b signedLocal)
    (Hanchor : isAnchorChannel (s_channelType a) = true)
    (Hbuilt : buildRemoteCommitment a point (Some n) = Ok r) :
  exists r', buildLocalCommitment b point (Some n) signedLocal = Ok r' /\ same_commitment r r'.
Proof. by apply (remote_is_local a). Qed.

(** A commitment whose funder can afford its cost never spends more
    than the funding output, and leaves at least the commitment fee: the main
    outputs, the HTLCs and the anchors come out of the balances. *)
Theorem commitment_within_funding st point n signedLocal r
    (Hbuilt : buildLocalCommitment st point n signedLocal = Ok r)
    (Hpos : Forall (fun t => 0 <= t.1.1.2) (local_set st signedLocal))
    (Hlocal : 0 <= (local_balances st signedLocal).1)
    (Hremote : 0 <= (local_balances st signedLocal).2)
    (Hsum : (local_balances st signedLocal).1 + (local_balances st signedLocal).2 +
            terms_sum (local_set st signedLocal) = 1000 * s_fundingSatoshis st)
    (Hcost : 1000 * funderCommitmentCostSats (getLocalCommitmentFeeRate st signedLocal)
               (Z.of_nat (length (b_htlcOutputs r))) (s_channelType st) <= b_funderBalanceMsat r) :
  total (tx_outs (r_tx (b_result r))) +
    calculateCommitmentFee (getLocalCommitmentFeeRate st signedLocal)
      (Z.of_nat (length (b_htlcOutputs r))) (isAnchorChannel (s_channelType st))
      (isTaprootChannel (s_channelType st)) <= s_fundingSatoshis st.
Proof.
  unfold buildLocalCommitment in Hbuilt.
  destruct (s_remoteBasepoints st) as [rb|]; [|done]. destruct (s_fundingTxid st) as [txid|]; [|done].
  apply bind_Ok_inv in Hbuilt as (keys & _ & Hbuilt).
  apply bind_Ok_inv in Hbuilt as (outs & Ho & Hbuilt).
  pose proof (local_outputs_terms st keys signedLocal) as Ht.
  rewrite Ho, bind_Ok in Ht. symmetry in Ht.
  destruct (terms_output_sum _ _ _ _ Ht Hpos) as [Hp Hs].
  destruct (htlc_sum_filter outs (c_dustLimitSatoshis (s_localConfig st))
    (getLocalCommitmentFeeRate st signedLocal) (isAnchorChannel (s_channelType st)) Hp) as [Hp' Hs'].
  destruct (build_commitment_total _ _ _ _ _ _ _ _ _ _ _ _ _ _ _ _ _ _ _ Hbuilt Hp')
    as (E1 & E2 & Ht'). rewrite E1, E2 in *. unfold funderCommitmentCostSats in Hcost.
  pose proof (main_amounts_sum _ _ _ _ Hlocal Hremote Hcost). lia.
Qed.

End Builder.

(** ** A channel to evaluate on

    The library is instantiated by functions that keep their arguments apart. *)

Definition demo_lib : BitcoinLib := {|
  sha256 := toy_sha; ripemd160 := fun b => x14 :: b; script_compile := toy_compile;
  number_encode := toy_number; p2wsh := toy_wsh; p2wpkh := toy_wpkh;
  p2tr := fun k _ => k; ecc_pointFromScalar := fun k => Some (x02 :: k);
  ecc_pointMultiply := fun p _ => Some p; ecc_pointAdd := fun p _ => Some p |}.

Definition demo_points (n : Z) : IChannelBasepoints :=
  let key k := byte_of_Z k :: replicate 31 (byte_of_Z 7) ++ [byte_of_Z n] in
  {| bp_fundingPubkey := key 2; bp_revocationBasepoint := key 3; bp_paymentBasepoint := key 4;
     bp_delayedPaymentBasepoint := key 5; bp_htlcBasepoint := key 6;
     bp_firstPerCommitmentPoint := key 8 |}.

Definition demo_config (dust : Z) : IChannelConfig :=
  {| c_dustLimitSatoshis := dust; c_maxHtlcValueInFlightMsat := 2 ^ 64 - 1;
     c_channelReserveSatoshis := 10000; c_htlcMinimumMsat := 1000; c_toSelfDelay := 144;
     c_maxAcceptedHtlcs := 483; c_feeratePerKw := 2500 |}.

Definition demo_entry (d : HtlcDirection) (id amount : Z) : IHtlcEntry :=
  {| e_id := id; e_amountMsat := amount; e_paymentHash := replicate 32 (byte_of_Z id);
     e_cltvExpiry := 800000; e_onionRoutingPacket := []; e_direction := d; e_state := COMMITTED;
     e_blindingPoint := None; e_addRemoteCommitted := None; e_removalRemoteCommitted := None;
     e_commitCoverPending := None; e_addLocallyRevoked := None; e_removalLocallyRevoked := None;
     e_addRemotelyRevoked := None; e_addCoverPending := None; e_addRemoteSigned := None;
     e_forwardEmitted := None; e_fforVoucher := None; e_fforMismatch := None;
     e_dustExposureFailback := None; e_expiredOnArrival := None; e_funderFeeFailback := None;
     e_addedWhileRestoreUnproven := None; e_addedWhileFundingUnaccounted := None |}.

Definition demo_state (role : ChannelRole) (ct : option buffer) (local remote : Z)
    (htlcs : list IHtlcEntry) : IChannelState :=
  let side n := demo_points n in
  {| s_state := CHANNEL_NORMAL; s_role := role; s_channelId := Some (replicate 32 x01); s_temporaryChannelId := alloc 32;
     s_fundingSatoshis := 1000000; s_fundingTxid := Some (alloc 32); s_fundingOutputIndex := 0;
     s_localConfig := demo_config 354;
     s_localBasepoints := side (match role with OPENER => 1 | ACCEPTOR => 2 end);
     s_localPerCommitmentSeed := alloc 32; s_remoteConfig := demo_config 354;
     s_remoteBasepoints := Some (side (match role with OPENER => 2 | ACCEPTOR => 1 end));
     s_localCommitmentNumber := 0; s_remoteCommitmentNumber := 0; s_remoteRevocationNumber := Some 0;
     s_needsCommitment := None; s_pendingFeeratePerKw := None; s_pendingFeerateSignable := None;
     s_pendingFeerateCommitted := None; s_awaitingLocalFeeCommitment := None;
     s_lastSignedCommitFeeratePerKw := None; s_localBalanceMsat := local;
     s_remoteBalanceMsat := remote; s_shaChainStore := new_store;
     s_remoteCurrentPerCommitmentPoint := None; s_remoteNextPerCommitmentPoint := None;
     s_localHtlcCounter := 0;
     s_htlcs := map (fun e => (htlc_key (e_direction e) (e_id e), e)) htlcs;
     s_signedLocalRemovals := None; s_revokedHtlcSnapshots := None; s_remoteCommitmentSignature := None;
     s_remoteHtlcSignatures := []; s_channelType := ct; s_remoteShutdownScript := None;
     s_lastSentCommitmentSigned := None; s_lastSentPartialSignatureWithNonce := None;
     s_lastSentHtlcSignatures := []; s_lastSentRevokeSecret := None;
     s_lastSentRevokeNextPoint := None; s_lastSentWasRevoke := None; s_pendingLocalUpdates := [];
     s_pendingLocalUpdatesSignedCount := 0; s_leaseExpiry := None; s_isLessor := None;
     s_leaseCommitBlockheight := None; s_pendingLeaseBlockheight := None;
     s_pendingLeaseBlockheightSignable := None; s_pendingLeaseBlockheightCommitted := None;
     s_lastSignedCommitLeaseBlockheight := None; s_leaseHeightHistory := None;
     s_hasBeenSpliced := None; s_fundingUnaccounted := None; s_restoreRecencyUnproven := None;
     s_reestablishRecencyUnproven := None; s_reestablishSecretMissing := None;
     s_restoreRevokedRisk := None;
     s_localReserveWaived := None; s_remoteReserveWaived := None; s_fundingVersion := 1;
     s_spliceFundingTxid := None; s_spliceInFlight := None |}.

Definition anchors_type : option buffer := Some [x40; x10; x00].
Definition demo_opener ct amount :=
  demo_state OPENER ct 600000000 (400000000 - amount) [demo_entry RECEIVED 3 amount].
Definition demo_acceptor ct amount :=
  demo_state ACCEPTOR ct (400000000 - amount) 600000000 [demo_entry OFFERED 3 amount].

Definition demo_point : buffer := replicate 33 (byte_of_Z 9).

Lemma demo_mirrored ct amount : mirrored (demo_opener ct amount) (demo_acceptor ct amount).
Proof. constructor; try reflexivity; [done | by left]. Qed.

Lemma demo_view ct amount : same_view (demo_opener ct amount) (demo_acceptor ct amount) false.
Proof. constructor; reflexivity. Qed.

Definition built (r : result IBuiltCommitment) : option Transaction :=
  match r with Ok b => Some (r_tx (b_result b)) | Err _ => None end.

Lemma peers_build_same_commitment_witness :
  exists r r', buildRemoteCommitment (L := demo_lib) (demo_opener anchors_type 50000000) demo_point (Some 7) = Ok r /\
    buildLocalCommitment (L := demo_lib) (demo_acceptor anchors_type 50000000) demo_point (Some 7) false = Ok r' /\
    same_commitment r r'.
Proof.
  destruct (buildRemoteCommitment (L := demo_lib) (demo_opener anchors_type 50000000) demo_point (Some 7))
    as [r|e] eqn:E; [|vm_compute in E; discriminate E].
  destruct (peers_build_same_commitment (L := demo_lib) (demo_opener anchors_type 50000000)
    (demo_acceptor anchors_type 50000000) false demo_point 7 r (demo_mirrored _ _) (demo_view _ _)
    eq_refl E) as (r' & H & Hs).
  by exists r, r'.
Defined.

Lemma commitment_within_funding_witness :
  exists r, buildLocalCommitment (L := demo_lib) (demo_acceptor anchors_type 50000000) demo_point
              (Some 7) false = Ok r /\
    total (tx_outs (r_tx (b_result r))) + calculateCommitmentFee 2500 1 true false <= 1000000.
Proof.
  destruct (buildLocalCommitment (L := demo_lib) (demo_acceptor anchors_type 50000000) demo_point
    (Some 7) false) as [r|e] eqn:E; [|vm_compute in E; discriminate E].
  exists r. split; [done|].
  pose proof (commitment_within_funding (L := demo_lib) (demo_acceptor anchors_type 50000000)
    demo_point (Some 7) false r E) as H.
  vm_compute in E. injection E as <-.
  apply H; first [repeat constructor; vm_compute; congruence | vm_compute; congruence | done].
Defined.

(** C8: without anchors the two sides can build different commitments
    from the same view.  buildRemoteCommitment hands filterUntrimmedHtlcs the
    direction of its own entry, so on the peer's commitment an HTLC the peer
    offered is priced at the HTLC-success weight; the peer prices it at the
    HTLC-timeout weight and keeps an output the signer has trimmed. *)
Theorem legacy_trim_differs :
  exists a b r r', mirrored a b /\ same_view a b false /\
    isAnchorChannel (s_channelType a) = false /\
    buildRemoteCommitment (L := demo_lib) a demo_point (Some 7) = Ok r /\
    buildLocalCommitment (L := demo_lib) b demo_point (Some 7) false = Ok r' /\
    length (b_htlcOutputs r) = 0%nat /\ length (b_htlcOutputs r') = 1%nat /\
    length (tx_outs (r_tx (b_result r))) = 2%nat /\
    length (tx_outs (r_tx (b_result r'))) = 3%nat.
Proof.
  exists (demo_opener None 2050000), (demo_acceptor None 2050000).
  destruct (buildRemoteCommitment (L := demo_lib) (demo_opener None 2050000) demo_point (Some 7))
    as [r|] eqn:E; [|vm_compute in E; discriminate E].
  destruct (buildLocalCommitment (L := demo_lib) (demo_acceptor None 2050000) demo_point (Some 7)
    false) as [r'|] eqn:E'; [|vm_compute in E'; discriminate E'].
  exists r, r'. vm_compute in E, E'. injection E as <-. injection E' as <-.
  split; [apply demo_mirrored|]. split; [apply demo_view|]. repeat split; reflexivity.
Qed.
