(* ===== verification/HtlcPolicy.v ===== *)
(** * HTLC policy (src/src/lightning/channel/htlc-policy.ts)

    The channel reserves, dust classification and exposure, what the funder pays on
    each commitment, and the refusals made of them.  The functions read a state and
    change nothing.  A pending splice is the record [IPendingSpliceView], as in the
    code.  The parts of an error text that depend on the call are left out. *)

From S2P Require Import Prelude Buffer CommitmentTx Scripts JsMap ShaChain.
From S2P Require Import ChannelTypes CommitmentBuilder.
From Stdlib Require Import Strings.Byte.
Local Open Scope Z_scope.

(** ** Helpers (channel-helpers.ts) *)

Definition bigIntMax (a b : Z) : Z := if b <? a then a else b.
Definition bigIntMin (a b : Z) : Z := if a <? b then a else b.

Lemma bigIntMax_max a b : bigIntMax a b = Z.max a b.
Proof. unfold bigIntMax. destruct (b <? a) eqn:E; lia. Qed.

Lemma bigIntMin_min a b : bigIntMin a b = Z.min a b.
Proof. unfold bigIntMin. destruct (a <? b) eqn:E; lia. Qed.

(** ** Reserves *)

Definition MIN_CHANNEL_RESERVE_SATOSHIS : Z := 546.

Definition computeChannelReserve (fundingSatoshis dustLimitSatoshis : Z) : Z :=
  let onePercent := Z.quot fundingSatoshis 100 in
  let maxReserve := Z.quot fundingSatoshis 5 in
  let minReserve := if MIN_CHANNEL_RESERVE_SATOSHIS <? dustLimitSatoshis then dustLimitSatoshis
                    else MIN_CHANNEL_RESERVE_SATOSHIS in
  let reserve := if onePercent <? minReserve then minReserve else onePercent in
  if maxReserve <? reserve then maxReserve else reserve.

Definition v2ReserveWeKeep (fundingSatoshis ourDustLimitSatoshis peerDustLimitSatoshis : Z) : Z :=
  bigIntMax (bigIntMax (Z.quot fundingSatoshis 100) MIN_CHANNEL_RESERVE_SATOSHIS)
            (bigIntMax ourDustLimitSatoshis peerDustLimitSatoshis).

Definition v2ReserveWeEnforce (fundingSatoshis ourDustLimitSatoshis peerDustLimitSatoshis : Z)
    : Z :=
  bigIntMax (Z.quot fundingSatoshis 100) (bigIntMin ourDustLimitSatoshis peerDustLimitSatoshis).

Definition reserveWeEnforceAt (state : IChannelState) (capacitySatoshis : Z) : Z :=
  if flag_true (s_remoteReserveWaived state) then 0
  else
    let ourDust := c_dustLimitSatoshis (s_localConfig state) in
    if (s_fundingVersion state =? 2) || bool_decide (is_Some (s_spliceFundingTxid state))
    then v2ReserveWeEnforce capacitySatoshis ourDust (c_dustLimitSatoshis (s_remoteConfig state))
    else computeChannelReserve capacitySatoshis ourDust.

(** [splicedState] takes the state to re-anchor. *)
Record IPendingSpliceView := {
  isSplicePendingLock : bool;
  splicedState : IChannelState -> option IChannelState;
  getPendingSpliceLocalBalanceMsat : option Z;
  pendingSpliceKeptReserveSats : option Z
}.

(** ** Entries in flight *)

(** PENDING or COMMITTED. *)
Definition open_htlc (e : IHtlcEntry) : bool :=
  bool_decide (e_state e = PENDING) || bool_decide (e_state e = COMMITTED).

(** One round of the loop of hasPendingHtlcs. *)
Definition update_pending (e : IHtlcEntry) : bool :=
  bool_decide (e_state e = PENDING) || removed e ||
  flag_false (e_addRemoteCommitted e) || flag_false (e_addLocallyRevoked e) ||
  flag_false (e_removalRemoteCommitted e) || flag_false (e_removalLocallyRevoked e) ||
  flag_true (e_commitCoverPending e).

Definition hasPendingHtlcs (state : IChannelState) : bool :=
  flag_true (s_needsCommitment state) || existsb update_pending (values (s_htlcs state)).

Definition isDustHtlcAtRate (state : IChannelState) (amountMsat feeratePerKw : Z) : bool :=
  let local := c_dustLimitSatoshis (s_localConfig state) in
  let remote := c_dustLimitSatoshis (s_remoteConfig state) in
  let dustLimitSats := if remote <? local then local else remote in
  let secondLevelFeeSats := if isAnchorChannel (s_channelType state) then 0
                            else (HTLC_SUCCESS_WEIGHT * feeratePerKw) / 1000 in
  amountMsat <? (dustLimitSats + secondLevelFeeSats) * 1000.

Definition isDustHtlc (state : IChannelState) (amountMsat : Z) : bool :=
  isDustHtlcAtRate state amountMsat (getCommitmentFeeRate state false).

(** The loops that add up, over the entries of the map. *)
Definition total_msat (p : IHtlcEntry -> bool) (state : IChannelState) : Z :=
  fold_left (fun total e => if p e then total + e_amountMsat e else total)
    (values (s_htlcs state)) 0.

Definition count_htlcs (p : IHtlcEntry -> bool) (state : IChannelState) : Z :=
  fold_left (fun count e => if p e then count + 1 else count) (values (s_htlcs state)) 0.

Definition dustExposureAtRateMsat (state : IChannelState) (feeratePerKw : Z) : Z :=
  total_msat (fun e => open_htlc e && isDustHtlcAtRate state (e_amountMsat e) feeratePerKw) state.

Definition dustExposureMsat (state : IChannelState) : Z :=
  dustExposureAtRateMsat state (getCommitmentFeeRate state false).

Definition countActiveHtlcs (state : IChannelState) : Z := count_htlcs open_htlc state.

Definition pending_in (direction : HtlcDirection) (e : IHtlcEntry) : bool :=
  bool_decide (e_direction e = direction) && open_htlc e.

Definition countPendingHtlcs (state : IChannelState) (direction : HtlcDirection) : Z :=
  count_htlcs (pending_in direction) state.

Definition totalInFlightMsat (state : IChannelState) (direction : HtlcDirection) : Z :=
  total_msat (pending_in direction) state.

(** ** What the funder pays *)

Definition initialWaivedCommitmentRefusal (s : IChannelState) : option string :=
  if negb (flag_true (s_localReserveWaived s)) && negb (flag_true (s_remoteReserveWaived s))
  then None
  else
    let opener := bool_decide (s_role s = OPENER) in
    let cost := funderCommitmentCostSats
                  (if opener then c_feeratePerKw (s_localConfig s)
                   else c_feeratePerKw (s_remoteConfig s)) 0 (s_channelType s) * 1000 in
    let ours := s_localBalanceMsat s - (if opener then cost else 0) in
    let theirs := s_remoteBalanceMsat s - (if opener then 0 else cost) in
    let dust := bigIntMax (c_dustLimitSatoshis (s_localConfig s))
                  (c_dustLimitSatoshis (s_remoteConfig s)) * 1000 in
    if (ours <? 0) || (theirs <? 0) || (bigIntMax ours theirs <? dust)
    then Some "Initial commitment would have no outputs or insufficient commitment funding"
    else None.

(** A row to price: an amount in whole satoshis and a direction. *)
Definition row : Type := Z * HtlcDirection.

(** An HTLC that is not in the map yet: [amountMsat] and [direction]. *)
Definition candidate : Type := Z * HtlcDirection.

Definition candidate_row (c : candidate) : row := (Z.quot c.1 1000, c.2).
Definition entry_row (e : IHtlcEntry) : row := (Z.quot (e_amountMsat e) 1000, e_direction e).

Definition countUntrimmedRows (state : IChannelState) (rows : list row)
    (dustLimitSats feeratePerKw : Z) : Z :=
  Z.of_nat (length (filterUntrimmedHtlcs fst snd rows dustLimitSats feeratePerKw
                      (isAnchorChannel (s_channelType state)))).

Definition funderCostMsat (state : IChannelState) (feeratePerKw untrimmed : Z) : Z :=
  funderCommitmentCostSats feeratePerKw untrimmed (s_channelType state) * 1000.

Definition remoteFunderLocalCostMsat (state : IChannelState) (feeratePerKw : Z)
    (candidates : list candidate) : Z :=
  let rows := map entry_row (List.filter open_htlc (values (s_htlcs state))) ++
              map candidate_row candidates in
  let untrimmed := countUntrimmedRows state rows (c_dustLimitSatoshis (s_localConfig state))
                     feeratePerKw in
  funderCostMsat state feeratePerKw untrimmed.

(** A reading of the funder: the balance to set against the reserve, the untrimmed
    HTLCs, the rate and the cost. *)
Record FunderView := {
  fv_balanceMsat : Z;
  fv_untrimmed : Z;
  fv_feeratePerKw : Z;
  fv_costMsat : Z
}.

(** What an entry is to the loop of funderSenderView: a credit to the balance, a row,
    or neither. *)
Definition sender_credit (e : IHtlcEntry) : Z :=
  if bool_decide (e_direction e = OFFERED) &&
     ((open_htlc e && flag_false (e_addRemoteCommitted e)) || bool_decide (e_state e = FAILED))
  then e_amountMsat e else 0.

Definition sender_row (e : IHtlcEntry) : bool :=
  match e_direction e with
  | OFFERED => open_htlc e && negb (flag_false (e_addRemoteCommitted e))
  | RECEIVED => open_htlc e || flag_false (e_removalRemoteCommitted e)
  end.

Definition funderSenderView (state : IChannelState) (candidates : list candidate) : FunderView :=
  let entries := values (s_htlcs state) in
  let balanceMsat := fold_left (fun b e => b + sender_credit e) entries
                       (s_localBalanceMsat state) in
  let rows := map entry_row (List.filter sender_row entries) ++ map candidate_row candidates in
  let feeratePerKw := getLocalCommitmentFeeRate state false in
  let untrimmed := countUntrimmedRows state rows (c_dustLimitSatoshis (s_localConfig state))
                     feeratePerKw in
  {| fv_balanceMsat := balanceMsat; fv_untrimmed := untrimmed; fv_feeratePerKw := feeratePerKw;
     fv_costMsat := funderCostMsat state feeratePerKw untrimmed |}.

(** [fv_balanceMsat] is [creditMsat] here. *)
Definition conservative_row (e : IHtlcEntry) : bool :=
  open_htlc e ||
  match e_direction e with
  | RECEIVED => flag_false (e_removalRemoteCommitted e)
  | OFFERED => flag_false (e_removalLocallyRevoked e)
  end.

Definition conservative_credit (e : IHtlcEntry) : Z :=
  if negb (conservative_row e) && bool_decide (e_direction e = OFFERED) &&
     bool_decide (e_state e = FAILED)
  then e_amountMsat e else 0.

Definition funderConservativeView (state : IChannelState) (candidates : list candidate)
    : FunderView :=
  let entries := values (s_htlcs state) in
  let rows := map entry_row (List.filter conservative_row entries) ++
              map candidate_row candidates in
  let creditMsat := fold_left (fun c e => c + conservative_credit e) entries 0 in
  let dustLimitSats := bigIntMin (c_dustLimitSatoshis (s_localConfig state))
                         (c_dustLimitSatoshis (s_remoteConfig state)) in
  let priceAt feeratePerKw :=
    let untrimmed := countUntrimmedRows state rows dustLimitSats feeratePerKw in
    {| fv_balanceMsat := creditMsat; fv_untrimmed := untrimmed; fv_feeratePerKw := feeratePerKw;
       fv_costMsat := funderCostMsat state feeratePerKw untrimmed |} in
  let local := priceAt (getLocalCommitmentFeeRate state false) in
  let remoteRate := getRemoteCommitmentFeeRate state in
  if remoteRate =? fv_feeratePerKw local then local
  else
    let remote := priceAt remoteRate in
    if fv_costMsat local <? fv_costMsat remote then remote else local.

(** The same from the other chair: the peer funds and we offer. *)
Definition funder_credit (e : IHtlcEntry) : Z :=
  let amount := e_amountMsat e in
  match e_direction e with
  | RECEIVED => if (open_htlc e && flag_false (e_addLocallyRevoked e)) ||
                   bool_decide (e_state e = FAILED) then amount else 0
  | OFFERED => if negb (open_htlc e) && negb (flag_false (e_removalLocallyRevoked e)) &&
                  bool_decide (e_state e = FULFILLED) then amount else 0
  end.

Definition funder_row (e : IHtlcEntry) : bool :=
  match e_direction e with
  | RECEIVED => open_htlc e && negb (flag_false (e_addLocallyRevoked e))
  | OFFERED => open_htlc e || flag_false (e_removalLocallyRevoked e)
  end.

Definition onFunder (r : row) : row := (r.1, flip_direction r.2).

Definition remoteFunderSenderView (state : IChannelState) (candidates : list candidate)
    (extraSlots : Z) : FunderView :=
  let entries := values (s_htlcs state) in
  let balanceMsat := fold_left (fun b e => b + funder_credit e) entries
                       (s_remoteBalanceMsat state) in
  let rows := map (fun e => onFunder (entry_row e)) (List.filter funder_row entries) in
  let candidateRows := map (fun c => onFunder (candidate_row c)) candidates in
  let feeratePerKw := getRemoteCommitmentFeeRate state in
  let dustLimitSats := c_dustLimitSatoshis (s_remoteConfig state) in
  let untrimmedCandidates := countUntrimmedRows state candidateRows dustLimitSats feeratePerKw in
  let untrimmed := countUntrimmedRows state rows dustLimitSats feeratePerKw +
                   untrimmedCandidates + (if 0 <? untrimmedCandidates then extraSlots else 0) in
  {| fv_balanceMsat := balanceMsat; fv_untrimmed := untrimmed; fv_feeratePerKw := feeratePerKw;
     fv_costMsat := funderCostMsat state feeratePerKw untrimmed |}.

Definition funderHeadroomMsat (state : IChannelState) (splice : IPendingSpliceView)
    (balanceMsat : Z) : Z :=
  let adjustMsat := balanceMsat - s_localBalanceMsat state in
  let headroomMsat := balanceMsat - c_channelReserveSatoshis (s_remoteConfig state) * 1000 in
  match getPendingSpliceLocalBalanceMsat splice, pendingSpliceKeptReserveSats splice with
  | Some pendingMsat, Some pendingReserveSats =>
      let pendingHeadroomMsat := pendingMsat + adjustMsat - pendingReserveSats * 1000 in
      if pendingHeadroomMsat <? headroomMsat then pendingHeadroomMsat else headroomMsat
  | _, _ => headroomMsat
  end.

Definition funderLiveBalanceFloorMsat (state : IChannelState) (splice : IPendingSpliceView) : Z :=
  match getPendingSpliceLocalBalanceMsat splice with
  | Some pendingMsat => if pendingMsat <? s_localBalanceMsat state then pendingMsat
                        else s_localBalanceMsat state
  | None => s_localBalanceMsat state
  end.

Definition remoteFunderHeadroomMsat (state : IChannelState) (splice : IPendingSpliceView)
    (balanceMsat : Z) : Z :=
  let reserveSats := c_channelReserveSatoshis (s_localConfig state) in
  let adjustMsat := balanceMsat - s_remoteBalanceMsat state in
  let headroomMsat := balanceMsat - reserveSats * 1000 in
  match s_spliceInFlight state with
  | None => headroomMsat
  | Some inFlight =>
      let '(pendingMsat, pendingCapacity) :=
        match splicedState splice state with
        | Some spliced => (Some (s_remoteBalanceMsat spliced), s_fundingSatoshis spliced)
        | None =>
            let pendingCapacity := if_newFundingSatoshis inFlight in
            (match getPendingSpliceLocalBalanceMsat splice with
             | Some pendingLocalMsat =>
                 let htlcMsat := total_msat (fun _ => true) state in
                 Some (pendingCapacity * 1000 - pendingLocalMsat - htlcMsat)
             | None => None
             end, pendingCapacity)
        end in
      match pendingMsat with
      | None => headroomMsat
      | Some pendingMsat =>
          let pendingReserveSats :=
            if flag_true (s_remoteReserveWaived state) then 0
            else bigIntMax reserveSats
                   (v2ReserveWeKeep pendingCapacity (c_dustLimitSatoshis (s_remoteConfig state))
                      (c_dustLimitSatoshis (s_localConfig state))) in
          let pendingHeadroomMsat := pendingMsat + adjustMsat - pendingReserveSats * 1000 in
          if pendingHeadroomMsat <? headroomMsat then pendingHeadroomMsat else headroomMsat
      end
  end.

Definition remoteFunderFeeRefusal (state : IChannelState) (splice : IPendingSpliceView)
    (amounts : list Z) : option string :=
  if negb (bool_decide (s_role state = ACCEPTOR)) then None
  else
    let view := remoteFunderSenderView state (map (fun a => (a, OFFERED)) amounts) 1 in
    if fv_costMsat view <=? remoteFunderHeadroomMsat state splice (fv_balanceMsat view) then None
    else Some "Remote funder cannot afford commitment fee for HTLC".

Definition remoteFunderCeilingMsat (state : IChannelState) (splice : IPendingSpliceView)
    (spendableMsat : Z) : Z :=
  if negb (bool_decide (s_role state = ACCEPTOR)) then spendableMsat
  else
    let current := remoteFunderSenderView state [] 0 in
    let headroomMsat := remoteFunderHeadroomMsat state splice (fv_balanceMsat current) in
    if funderCostMsat state (fv_feeratePerKw current) (fv_untrimmed current + 2) <=? headroomMsat
    then spendableMsat
    else if headroomMsat <? fv_costMsat current then 0
    else
      let secondLevelFeeSats := if isAnchorChannel (s_channelType state) then 0
                                else (HTLC_SUCCESS_WEIGHT * fv_feeratePerKw current) / 1000 in
      let trimmedCapMsat :=
        (c_dustLimitSatoshis (s_remoteConfig state) + secondLevelFeeSats) * 1000 - 1 in
      if trimmedCapMsat <? spendableMsat then trimmedCapMsat else spendableMsat.

(** ** The refusals that ask the commitment builder *)

Section Refusals.
Context `{L : BitcoinLib}.

Definition getPerCommitmentPoint (seed : buffer) (commitmentNumber : Z) : result buffer :=
  secret ← generateFromSeed sha256 seed (MAX_INDEX - commitmentNumber);
  perCommitmentPointFromSecret secret.

(** [remoteNextPerCommitmentPoint ?? remoteCurrentPerCommitmentPoint] *)
Definition signing_point (st : IChannelState) : option buffer :=
  match s_remoteNextPerCommitmentPoint st with
  | Some p => Some p
  | None => s_remoteCurrentPerCommitmentPoint st
  end.

Definition inSplicedClimbOut (view : IChannelState) : bool :=
  flag_true (s_hasBeenSpliced view) && (Z.of_nat (length (s_htlcs view)) <? 5).

Inductive side := LocalSide | RemoteSide.

Definition waivedCommitmentFundingRefusal (view : IChannelState) (built : IBuiltCommitment)
    (sd : side) : option string :=
  let rate := match sd with
              | LocalSide => getLocalCommitmentFeeRate view false
              | RemoteSide => getRemoteCommitmentFeeRate view
              end in
  let cost := funderCommitmentCostSats rate (Z.of_nat (length (b_htlcOutputs built)))
                (s_channelType view) in
  if b_funderBalanceMsat built <? cost * 1000
  then Some "Operation would leave the opener unable to pay its commitment cost"
  else
    let outputSats := fold_left (fun sum output => sum + output.2)
                        (tx_outs (r_tx (b_result built))) 0 in
    if s_fundingSatoshis view <? outputSats
    then Some "Commitment outputs exceed the funding amount" else None.

(** The commitment the peer would hold next; no point of its is an exception inside
    the builder. *)
Definition build_next_remote (view : IChannelState) : result IBuiltCommitment :=
  match signing_point view with
  | Some point => buildRemoteCommitment view point (Some (s_remoteCommitmentNumber view + 1))
  | None => Err "no per-commitment point"
  end.

Definition first_refusal (a b : option string) : option string :=
  match a with Some r => Some r | None => b end.

Definition waivedCommitmentRefusal (view : IChannelState) : option string :=
  if negb (flag_true (s_localReserveWaived view)) && negb (flag_true (s_remoteReserveWaived view))
  then None
  else if (s_localBalanceMsat view <? 0) || (s_remoteBalanceMsat view <? 0)
  then Some "Splice would leave a negative channel balance"
  else
    let n := s_localCommitmentNumber view + 1 in
    let both :=
      point ← getPerCommitmentPoint (s_localPerCommitmentSeed view) n;
      local ← buildLocalCommitment view point (Some n) false;
      remote ← build_next_remote view;
      Ok (local, remote) in
    match both with
    | Err _ => Some "Cannot build both commitments for the proposed operation"
    | Ok (local, remote) =>
        first_refusal (waivedCommitmentFundingRefusal view local LocalSide)
          (first_refusal (waivedCommitmentFundingRefusal view remote RemoteSide)
             (match tx_outs (r_tx (b_result local)), tx_outs (r_tx (b_result remote)) with
              | _ :: _, _ :: _ => None
              | _, _ => Some "Operation would leave a commitment with no outputs"
              end))
    end.

(** The update whose effect localCommitmentEmptyRefusal is asked about. *)
Record UpdateOverrides := {
  ov_localBalanceMsat : option Z;
  ov_remoteBalanceMsat : option Z;
  ov_pendingFeeratePerKw : option Z;
  ov_addedHtlc : option (string * IHtlcEntry)
}.

Definition opt_set {A} (f : A -> IChannelState -> IChannelState) (v : option A)
    (st : IChannelState) : IChannelState :=
  match v with Some v => f v st | None => st end.

Definition apply_overrides (o : UpdateOverrides) (st : IChannelState) : IChannelState :=
  opt_set (fun kv st => set_htlcs (set kv.1 kv.2 (s_htlcs st)) st) (ov_addedHtlc o)
    (opt_set (fun v => set_pendingFeeratePerKw (Some v)) (ov_pendingFeeratePerKw o)
       (opt_set set_remoteBalanceMsat (ov_remoteBalanceMsat o)
          (opt_set set_localBalanceMsat (ov_localBalanceMsat o) st))).

(** [emptyRefusal]; the second [try] of the waived arm is part of the first. *)
Definition emptyRefusal (waived : bool) (point : buffer) (next : Z) (view : IChannelState)
    : option string :=
  let builds :=
    local ← buildLocalCommitment view point (Some next) false;
    if waived then
      remote ← build_next_remote view;
      Ok (local,
          first_refusal (waivedCommitmentFundingRefusal view local LocalSide)
            (first_refusal (waivedCommitmentFundingRefusal view remote RemoteSide)
               (match tx_outs (r_tx (b_result remote)) with
                | [] => Some "Update would trim every output of the remote commitment"
                | _ => None
                end)))
    else Ok (local, None) in
  match builds with
  | Err _ => Some "Cannot build the commitment this update would leave us holding"
  | Ok (_, Some refusal) => Some refusal
  | Ok (local, None) =>
      match tx_outs (r_tx (b_result local)) with
      | _ :: _ => None
      | [] => Some "Update would trim every output of the commitment we hold"
      end
  end.

(** The view once the fee update has committed. *)
Definition at_committed_rate (rate : Z) (view : IChannelState) : IChannelState :=
  set_pendingFeeratePerKw None
    (set_remoteConfig (with_feeratePerKw rate (s_remoteConfig view))
       (set_localConfig (with_feeratePerKw rate (s_localConfig view)) view)).

Definition checkRates (waived : bool) (o : UpdateOverrides) (point : buffer) (next : Z)
    (view : IChannelState) : option string :=
  first_refusal (emptyRefusal waived point next view)
    (match ov_pendingFeeratePerKw o with
     | Some rate => if waived then emptyRefusal waived point next (at_committed_rate rate view)
                    else None
     | None => None
     end).

Definition localCommitmentEmptyRefusal (state : IChannelState) (splice : IPendingSpliceView)
    (overrides : UpdateOverrides) : result (option string) :=
  let ourDust := c_dustLimitSatoshis (s_localConfig state) in
  let waived := flag_true (s_localReserveWaived state) || flag_true (s_remoteReserveWaived state) in
  let liveHalf := waived || (c_channelReserveSatoshis (s_localConfig state) <? ourDust) in
  let spliceHalf := isSplicePendingLock splice in
  if negb liveHalf && negb spliceHalf then Ok None
  else
    let candidate := apply_overrides overrides state in
    let next := s_localCommitmentNumber state + 1 in
    point ← getPerCommitmentPoint (s_localPerCommitmentSeed state) next;
    Ok (first_refusal
      (if liveHalf then checkRates waived overrides point next candidate else None)
      (if spliceHalf then
         match splicedState splice candidate with
         | Some spliced =>
             if (s_localBalanceMsat spliced <? 0) || (s_remoteBalanceMsat spliced <? 0)
             then Some "Update would overdraw the pending-splice capacity"
             else checkRates waived overrides point next spliced
         | None =>
             if waived
             then Some "Cannot verify the pending-splice commitments until restoration completes"
             else None
         end
       else None)).

Definition funderOutputTrimmedRefusal (view : IChannelState) (sd : side)
    (perCommitmentPoint : buffer) (commitmentNumber : Z) : option string :=
  if negb (bool_decide (s_role view = OPENER)) then None
  else match s_remoteBasepoints view, s_fundingTxid view with
  | Some _, Some _ =>
      let dustSats := match sd with
                      | LocalSide => c_dustLimitSatoshis (s_localConfig view)
                      | RemoteSide => c_dustLimitSatoshis (s_remoteConfig view)
                      end in
      let balanceSats := Z.quot (s_localBalanceMsat view) 1000 in
      let waived := flag_true (s_localReserveWaived view) in
      if negb waived && (balanceSats <? dustSats) then None
      else
        let built := match sd with
                     | LocalSide => buildLocalCommitment view perCommitmentPoint
                                      (Some commitmentNumber) false
                     | RemoteSide => buildRemoteCommitment view perCommitmentPoint
                                       (Some commitmentNumber)
                     end in
        match built with
        | Err _ => None
        | Ok built =>
            let ours := match sd with
                        | LocalSide => om_toLocal (r_outputMap (b_result built))
                        | RemoteSide => om_toRemote (r_outputMap (b_result built))
                        end in
            let feeratePerKw := match sd with
                                | LocalSide => getLocalCommitmentFeeRate view false
                                | RemoteSide => getRemoteCommitmentFeeRate view
                                end in
            let feeSats := funderCommitmentCostSats feeratePerKw
                             (Z.of_nat (length (b_htlcOutputs built))) (s_channelType view) in
            let funderSats := if waived then Z.quot (b_funderBalanceMsat built) 1000
                              else balanceSats in
            if bool_decide (is_Some ours) then None
            else if (waived || inSplicedClimbOut view) && (feeSats <=? funderSats) &&
                    negb (bool_decide (tx_outs (r_tx (b_result built)) = [])) then None
            else Some "Commitment would trim our output to fees"
        end
  | _, _ => None
  end.

End Refusals.
