(* ===== verification/HtlcAdmission.v ===== *)
(** * Admission of HTLCs (src/src/lightning/channel/channel.ts)

    What a channel lets in: the outbound ceiling, validateOutgoingHtlc and
    canOfferHtlcSet on the way out, and the checks of handleUpdateAddHtlc on the way
    in.  The parts of an error text that depend on the call are left out.  The
    refusals of an FFOR epoch are not modelled: without one they are null. *)

From S2P Require Import Prelude Buffer CommitmentTx Scripts JsMap ShaChain WireUpdate.
From S2P Require Import ChannelTypes CommitmentBuilder HtlcPolicy.
From stdpp Require Import pretty.
From Stdlib Require Import Strings.Byte.
Local Open Scope Z_scope.

Definition MAX_DUST_HTLC_EXPOSURE_MSAT : Z := 5000000.

(** ** The recency holds (channel-state.ts) *)

Definition isRecencyUnproven (st : IChannelState) : bool :=
  flag_true (s_restoreRecencyUnproven st) || flag_true (s_reestablishRecencyUnproven st) ||
  flag_true (s_reestablishSecretMissing st).

Inductive RecencyHoldOrigin := HOLD_SECRET_MISSING | HOLD_RESTORE | HOLD_REESTABLISH.

Definition recencyHoldOrigin (st : IChannelState) : option RecencyHoldOrigin :=
  if flag_true (s_reestablishSecretMissing st) then Some HOLD_SECRET_MISSING
  else if flag_true (s_restoreRecencyUnproven st) then Some HOLD_RESTORE
  else if flag_true (s_reestablishRecencyUnproven st) then Some HOLD_REESTABLISH
  else None.

(** ** The splice in flight *)

(** A channel without one. *)
Definition no_splice : IPendingSpliceView :=
  {| isSplicePendingLock := false; splicedState := fun _ => None;
     getPendingSpliceLocalBalanceMsat := None; pendingSpliceKeptReserveSats := None |}.

Definition canUpdateHtlcsDuringSplice (splice : IPendingSpliceView) (st : IChannelState) : bool :=
  isSplicePendingLock splice && negb (isTaprootChannel (s_channelType st)).

(** ** Outbound *)

Definition spendableFor (st : IChannelState) (localMsat keptReserveSats : Z) : Z :=
  let reserveMsat :=
    if flag_true (s_localReserveWaived st) then 0
    else bigIntMax keptReserveSats (c_dustLimitSatoshis (s_localConfig st)) * 1000 in
  let requiredMsat :=
    reserveMsat +
    match s_role st with
    | OPENER =>
        let feeratePerKw := Z.max (getLocalCommitmentFeeRate st false)
                              (getRemoteCommitmentFeeRate st) in
        funderCommitmentCostSats (feeratePerKw * 2) (countActiveHtlcs st + 2)
          (s_channelType st) * 1000
    | ACCEPTOR => 0
    end in
  let spendable := localMsat - requiredMsat in
  if 0 <? spendable then spendable else 0.

Definition getSpendableOutboundMsat (splice : IPendingSpliceView) (st : IChannelState) : Z :=
  let live := spendableFor st (s_localBalanceMsat st)
                (c_channelReserveSatoshis (s_remoteConfig st)) in
  let own :=
    match getPendingSpliceLocalBalanceMsat splice, pendingSpliceKeptReserveSats splice with
    | Some pendingSplice, Some pendingReserve =>
        let spliced := spendableFor st pendingSplice pendingReserve in
        if spliced <? live then spliced else live
    | _, _ => live
    end in
  remoteFunderCeilingMsat st splice own.

(** A dust HTLC that would take the exposure over its limit. *)
Definition over_dust_exposure (st : IChannelState) (amountMsat : Z) : bool :=
  isDustHtlc st amountMsat && (MAX_DUST_HTLC_EXPOSURE_MSAT <? dustExposureMsat st + amountMsat).

(** An entry with the fields an add sets. *)
Definition new_entry (id amountMsat : Z) (paymentHash : buffer) (cltvExpiry : Z)
    (onionRoutingPacket : buffer) (direction : HtlcDirection) (blindingPoint : option buffer)
    : IHtlcEntry :=
  {| e_id := id; e_amountMsat := amountMsat; e_paymentHash := paymentHash;
     e_cltvExpiry := cltvExpiry; e_onionRoutingPacket := onionRoutingPacket;
     e_direction := direction; e_state := PENDING; e_blindingPoint := blindingPoint;
     e_addRemoteCommitted := None; e_removalRemoteCommitted := None;
     e_commitCoverPending := None; e_addLocallyRevoked := None; e_removalLocallyRevoked := None;
     e_addRemotelyRevoked := None; e_addCoverPending := None; e_addRemoteSigned := None;
     e_forwardEmitted := None; e_fforVoucher := None; e_fforMismatch := None;
     e_dustExposureFailback := None; e_expiredOnArrival := None; e_funderFeeFailback := None;
     e_addedWhileRestoreUnproven := None; e_addedWhileFundingUnaccounted := None |}.

Section Admission.
Context `{L : BitcoinLib}.
Context (splice : IPendingSpliceView).

Definition outgoing_overrides (amountMsat cltvExpiry : Z) (st : IChannelState)
    : UpdateOverrides :=
  let id := s_localHtlcCounter st in
  {| ov_localBalanceMsat := Some (s_localBalanceMsat st - amountMsat);
     ov_remoteBalanceMsat := None; ov_pendingFeeratePerKw := None;
     ov_addedHtlc := Some (htlc_key OFFERED id,
       new_entry id amountMsat (alloc 32) cltvExpiry [] OFFERED None) |}.

(** The refusal, if any: an array of one ERROR, or the empty array. *)
Definition validateOutgoingHtlc (quiescing : bool) (currentBlockHeight amountMsat cltvExpiry : Z)
    (st : IChannelState) : result (option string) :=
  if flag_true (s_restoreRevokedRisk st)
  then Ok (Some "Cannot add HTLC: the peer holds the revocation for this commitment, so its on-chain HTLC backstops are disabled")
  else if isRecencyUnproven st
  then Ok (Some (match recencyHoldOrigin st with
    | Some HOLD_SECRET_MISSING => "Cannot add HTLC: this node could not produce the per-commitment secret its own channel_reestablish owes the peer, so its state cannot be proven current and its on-chain HTLC backstops are disabled"
    | Some HOLD_RESTORE => "Cannot add HTLC: channel was restored from a Recovery Capsule and its state cannot be proven current, so its on-chain HTLC backstops are disabled"
    | _ => "Cannot add HTLC: the peer claimed at channel_reestablish that this channel state is behind and showed no proof, so its state cannot be proven current and its on-chain HTLC backstops are disabled"
    end))
  else if negb (bool_decide (s_state st = CHANNEL_NORMAL)) &&
          negb (canUpdateHtlcsDuringSplice splice st)
  then Ok (Some "Cannot add HTLC: wrong state")
  else if flag_true (s_fundingUnaccounted st)
  then Ok (Some "Cannot add HTLC: the funding transaction is in neither the mempool nor the chain, so the channel is quarantined")
  else if quiescing then Ok (Some "Cannot add HTLC: channel is quiescing")
  else if 500000000 <=? cltvExpiry then Ok (Some "HTLC cltv_expiry is not a block height")
  else if (0 <? currentBlockHeight) && (cltvExpiry <=? currentBlockHeight)
  then Ok (Some "HTLC cltv_expiry has already expired")
  else if amountMsat <=? 0 then Ok (Some "HTLC amount must be positive")
  else if amountMsat <? c_htlcMinimumMsat (s_remoteConfig st)
  then Ok (Some "HTLC amount below remote minimum")
  else if c_maxAcceptedHtlcs (s_remoteConfig st) <=? countPendingHtlcs st OFFERED
  then Ok (Some "Max pending HTLCs exceeded")
  else if c_maxHtlcValueInFlightMsat (s_remoteConfig st) <? totalInFlightMsat st OFFERED + amountMsat
  then Ok (Some "Max HTLC value in flight exceeded")
  else if getSpendableOutboundMsat splice st <? amountMsat
  then Ok (Some "Insufficient balance for HTLC")
  else match remoteFunderFeeRefusal st splice [amountMsat] with
  | Some refusal => Ok (Some refusal)
  | None =>
      if over_dust_exposure st amountMsat then Ok (Some "Dust HTLC exposure limit exceeded")
      else if flag_true (s_localReserveWaived st) || flag_true (s_remoteReserveWaived st)
      then localCommitmentEmptyRefusal st splice (outgoing_overrides amountMsat cltvExpiry st)
      else Ok None
  end.

Definition canOfferHtlcSet (quiescing : bool) (amounts : list Z) (st : IChannelState) : bool :=
  match amounts with
  | [] => true
  | _ =>
      if flag_true (s_restoreRevokedRisk st) then false
      else if negb (bool_decide (s_state st = CHANNEL_NORMAL)) &&
              negb (canUpdateHtlcsDuringSplice splice st) then false
      else if flag_true (s_fundingUnaccounted st) then false
      else if quiescing then false
      else
        let remote := s_remoteConfig st in
        if existsb (fun amountMsat => amountMsat <? c_htlcMinimumMsat remote) amounts then false
        else
          let sum := fold_left Z.add amounts 0 in
          let dust := fold_left (fun d amountMsat =>
                        if isDustHtlc st amountMsat then d + amountMsat else d) amounts 0 in
          if c_maxAcceptedHtlcs remote <?
             countPendingHtlcs st OFFERED + Z.of_nat (length amounts) then false
          else if c_maxHtlcValueInFlightMsat remote <? totalInFlightMsat st OFFERED + sum
          then false
          else if getSpendableOutboundMsat splice st <? sum then false
          else match remoteFunderFeeRefusal st splice amounts with
          | Some _ => false
          | None => negb ((0 <? dust) && (MAX_DUST_HTLC_EXPOSURE_MSAT <? dustExposureMsat st + dust))
          end
  end.

(** ** Inbound *)

(** What the checks of handleUpdateAddHtlc decide about an add: the wire refusal, or
    the stamps of the fail-backs. *)
Record Admission := {
  ad_refusal : option string;
  ad_dustExposureFailback : bool;
  ad_expiredOnArrival : bool;
  ad_funderFeeFailback : bool
}.

Definition refused (reason : string) : Admission :=
  {| ad_refusal := Some reason; ad_dustExposureFailback := false; ad_expiredOnArrival := false;
     ad_funderFeeFailback := false |}.

Definition stamp (b : bool) : option bool := if b then Some true else None.

(** The entry as it is built, before its two-phase flags are set. *)
Definition arriving_entry (adm : Admission) (msg : IUpdateAddHtlcMessage) (st : IChannelState)
    : IHtlcEntry :=
  {| e_id := ua_id msg; e_amountMsat := ua_amountMsat msg; e_paymentHash := ua_paymentHash msg;
     e_cltvExpiry := ua_cltvExpiry msg; e_onionRoutingPacket := ua_onionRoutingPacket msg;
     e_direction := RECEIVED; e_state := PENDING; e_blindingPoint := ua_blindingPoint msg;
     e_addRemoteCommitted := None; e_removalRemoteCommitted := None;
     e_commitCoverPending := None; e_addLocallyRevoked := None;
     e_removalLocallyRevoked := None; e_addRemotelyRevoked := None;
     e_addCoverPending := None; e_addRemoteSigned := None; e_forwardEmitted := None;
     e_fforVoucher := None; e_fforMismatch := None;
     e_dustExposureFailback := stamp (ad_dustExposureFailback adm);
     e_expiredOnArrival := stamp (ad_expiredOnArrival adm);
     e_funderFeeFailback := stamp (ad_funderFeeFailback adm);
     e_addedWhileRestoreUnproven :=
       stamp (isRecencyUnproven st || flag_true (s_restoreRevokedRisk st));
     e_addedWhileFundingUnaccounted := stamp (flag_true (s_fundingUnaccounted st)) |}.

(** What the sender must keep: its reserve and, when it funds, the commitment's cost. *)
Definition remote_required (msg : IUpdateAddHtlcMessage) (st : IChannelState) : Z :=
  let remoteReserveMsat := c_channelReserveSatoshis (s_localConfig st) * 1000 in
  match s_role st with
  | OPENER => remoteReserveMsat
  | ACCEPTOR =>
      let candidate := [(ua_amountMsat msg, RECEIVED)] in
      let localCostMsat := remoteFunderLocalCostMsat st (getLocalCommitmentFeeRate st false)
                             candidate in
      let remoteCostMsat := remoteFunderLocalCostMsat st (getRemoteCommitmentFeeRate st)
                              candidate in
      remoteReserveMsat + bigIntMax localCostMsat remoteCostMsat
  end.

Inductive FunderVerdict := FunderAdmits | FunderFailsBack | FunderRefuses.

(** The three thresholds of a receiver that funds. *)
Definition funder_verdict (msg : IUpdateAddHtlcMessage) (st : IChannelState) : FunderVerdict :=
  match s_role st with
  | ACCEPTOR => FunderAdmits
  | OPENER =>
      let candidate := [(ua_amountMsat msg, RECEIVED)] in
      let sender := funderSenderView st candidate in
      let senderHeadroomMsat := funderHeadroomMsat st splice (fv_balanceMsat sender) in
      let climbOut := inSplicedClimbOut st && (0 <? fv_balanceMsat sender - fv_costMsat sender) in
      if (senderHeadroomMsat <? fv_costMsat sender) && negb climbOut then
        let floor := funderConservativeView st candidate in
        let outputFloorMsat := bigIntMax (c_dustLimitSatoshis (s_localConfig st))
                                 (c_dustLimitSatoshis (s_remoteConfig st)) * 1000 in
        let outputMsat := funderLiveBalanceFloorMsat st splice + fv_balanceMsat floor -
                          fv_costMsat floor in
        if outputMsat <? outputFloorMsat then FunderRefuses else FunderFailsBack
      else FunderAdmits
  end.

Definition admitInbound (currentBlockHeight : Z) (msg : IUpdateAddHtlcMessage)
    (st : IChannelState) : result Admission :=
  let amountMsat := ua_amountMsat msg in
  if amountMsat <=? 0 then Ok (refused "HTLC amount must be greater than 0")
  else if amountMsat <? c_htlcMinimumMsat (s_localConfig st)
  then Ok (refused "HTLC amount below our minimum")
  else if c_maxAcceptedHtlcs (s_localConfig st) <=? countPendingHtlcs st RECEIVED
  then Ok (refused "Max inbound pending HTLCs exceeded")
  else if c_maxHtlcValueInFlightMsat (s_localConfig st) <?
          totalInFlightMsat st RECEIVED + amountMsat
  then Ok (refused "Max inbound HTLC value in flight exceeded")
  else if s_remoteBalanceMsat st - amountMsat <? remote_required msg st
  then Ok (refused "Remote cannot afford HTLC above channel reserve")
  else match funder_verdict msg st with
  | FunderRefuses =>
      Ok (refused "Cannot afford commitment fee for inbound HTLC above channel reserve")
  | verdict =>
      if 500000000 <=? ua_cltvExpiry msg then Ok (refused "HTLC cltv_expiry is not a block height")
      else
        let adm :=
          {| ad_refusal := None; ad_dustExposureFailback := over_dust_exposure st amountMsat;
             ad_expiredOnArrival := (0 <? currentBlockHeight) &&
                                    (ua_cltvExpiry msg <=? currentBlockHeight);
             ad_funderFeeFailback := match verdict with FunderFailsBack => true | _ => false end |} in
        wouldEmpty ← localCommitmentEmptyRefusal st splice
          {| ov_localBalanceMsat := None;
             ov_remoteBalanceMsat := Some (s_remoteBalanceMsat st - amountMsat);
             ov_pendingFeeratePerKw := None;
             ov_addedHtlc := Some (htlc_key RECEIVED (ua_id msg), arriving_entry adm msg st) |};
        Ok (match wouldEmpty with Some reason => refused reason | None => adm end)
  end.

End Admission.
