(* ===== verification/Channel.v ===== *)
(** * The update and commitment handlers of a channel
      (src/src/lightning/channel/channel.ts)

    addHtlc, the settle methods, the handlers of the update messages,
    signCommitment, handleCommitmentSigned and handleRevokeAndAck.  A handler takes
    the state and returns the state and the actions; an exception is [Err], with the
    assignments made before it kept.

    The model is a channel without a splice session, without an FFOR epoch and whose
    type is not option_taproot: the branches of those three do nothing then.  What
    comes from elsewhere is an argument: whether a stfu is pending (Quiescence.v), the
    block height, the verdict of the signer on signatures.  The watchtower cache and the
    recovery disposition, which nothing here reads, are left out, as are the parts of an
    error text that depend on the call. *)

From S2P Require Import Prelude Buffer CommitmentTx Scripts JsMap ShaChain.
From S2P Require Import WireBasic WireUpdate WireCommitment ChannelTypes CommitmentBuilder HtlcPolicy HtlcAdmission.
From stdpp Require Import pretty.
From Stdlib Require Import Strings.Byte.
Local Open Scope Z_scope.

Inductive ChannelAction :=
| PERSIST_STATE
| SEND_MESSAGE (m : ChannelMessage)
| ERROR (message : string)
| HTLC_FULFILLED (htlcId : Z) (paymentPreimage : buffer)
| HTLC_FAILED (htlcId : Z) (reason : buffer) (malformedCode : option Z)
| HTLC_FORWARDED (htlcId amountMsat : Z) (paymentHash : buffer).

Definition outcome : Type := IChannelState * result (list ChannelAction).

(** ** Entries *)

(** [for (const entry of this._state.htlcs.values())] with an update of the entry. *)
Definition map_entries (f : IHtlcEntry -> IHtlcEntry) (st : IChannelState) : IChannelState :=
  set_htlcs (map (fun kv => (kv.1, f kv.2)) (s_htlcs st)) st.

Definition commit_pending (e : IHtlcEntry) : IHtlcEntry :=
  if bool_decide (e_state e = PENDING) then with_state COMMITTED e else e.

Definition _addNotYetCommitted (e : IHtlcEntry) : bool :=
  bool_decide (e_state e = PENDING) || flag_false (e_addRemoteCommitted e).

(** ** Failing the channel *)

Definition wireErrorFor (channelId : buffer) (reason : string) : list ChannelAction :=
  if canScopeWireError channelId then [SEND_MESSAGE (WIRE_ERROR channelId reason)] else [].

Definition _failChannelWithWireError (message : string) (st : IChannelState) : outcome :=
  let st := set_state ERRORED st in
  (st, Ok (PERSIST_STATE ::
           wireErrorFor (default (s_temporaryChannelId st) (s_channelId st)) message ++
           [ERROR message])).

Definition refuse (message : string) (st : IChannelState) : outcome := (st, Ok [ERROR message]).

Definition updatable (st : IChannelState) : bool :=
  bool_decide (s_state st = CHANNEL_NORMAL) || bool_decide (s_state st = SHUTTING_DOWN).

Definition _queuePendingLocalUpdate (m : ChannelMessage) (st : IChannelState) : IChannelState :=
  set_pendingLocalUpdates (s_pendingLocalUpdates st ++ [m]) st.

(** The tail of every method that sends an update. *)
Definition send_update (m : ChannelMessage) (st : IChannelState) : outcome :=
  (_queuePendingLocalUpdate m (set_needsCommitment (Some true) st),
   Ok [PERSIST_STATE; SEND_MESSAGE m]).

Definition channel_id (st : IChannelState) : buffer := default [] (s_channelId st).

(** ** update_add_htlc *)

(** Take the next id, record the entry, take its amount from our balance. *)
Definition add_offered_htlc (entry : IHtlcEntry) (st : IChannelState) : IChannelState :=
  let htlcId := s_localHtlcCounter st in
  let st := set_localHtlcCounter (htlcId + 1) st in
  let st := set_htlcs (set (htlc_key OFFERED htlcId) entry (s_htlcs st)) st in
  set_localBalanceMsat (s_localBalanceMsat st - e_amountMsat entry) st.

Definition offered_entry (htlcId amountMsat : Z) (paymentHash : buffer) (cltvExpiry : Z)
    (onionRoutingPacket : buffer) (blindingPoint : option buffer) : IHtlcEntry :=
  with_addRemoteSigned (Some false) (with_addRemoteCommitted (Some false)
    (new_entry htlcId amountMsat paymentHash cltvExpiry onionRoutingPacket OFFERED
       blindingPoint)).

Definition received_entry (adm : Admission) (msg : IUpdateAddHtlcMessage) (st : IChannelState)
    : IHtlcEntry :=
  with_addRemotelyRevoked (Some false)
    (with_addLocallyRevoked (Some false) (arriving_entry adm msg st)).

Definition same_add (e : IHtlcEntry) (msg : IUpdateAddHtlcMessage) : bool :=
  (e_amountMsat e =? ua_amountMsat msg) && bool_decide (e_paymentHash e = ua_paymentHash msg) &&
  (e_cltvExpiry e =? ua_cltvExpiry msg) &&
  bool_decide (e_onionRoutingPacket e = ua_onionRoutingPacket msg).

(** ** Settling a received HTLC *)

Definition _guardRepeatSettle (e : IHtlcEntry) (intent : HtlcState)
    : option (list ChannelAction) :=
  if bool_decide (e_state e = intent) then Some []
  else if removed e then Some [ERROR "HTLC already settled"]
  else None.

Definition settle_entry (intent : HtlcState) (e : IHtlcEntry) : IHtlcEntry :=
  with_removalRemoteCommitted (Some false) (with_state intent e).

Section Handlers.
Context `{L : BitcoinLib}.

Definition addHtlc (quiescing : bool) (currentBlockHeight amountMsat : Z) (paymentHash : buffer)
    (cltvExpiry : Z) (onionRoutingPacket : buffer) (blindingPoint : option buffer)
    (skimmedFeeMsat : option Z) (st : IChannelState) : outcome :=
  if match skimmedFeeMsat with
     | Some f => (f <? 0) || (0xffffffffffffffff <? f) | None => false end
  then (st, Err "skimmedFeeMsat must fit in u64")
  else match validateOutgoingHtlc no_splice quiescing currentBlockHeight amountMsat cltvExpiry st with
  | Err e => (st, Err e)
  | Ok (Some reason) => refuse reason st
  | Ok None =>
      let htlcId := s_localHtlcCounter st in
      let entry := offered_entry htlcId amountMsat paymentHash cltvExpiry onionRoutingPacket
                     blindingPoint in
      send_update (UPDATE_ADD {| ua_channelId := channel_id st; ua_id := htlcId;
        ua_amountMsat := amountMsat; ua_paymentHash := paymentHash; ua_cltvExpiry := cltvExpiry;
        ua_onionRoutingPacket := onionRoutingPacket; ua_blindingPoint := blindingPoint;
        ua_skimmedFeeMsat := skimmedFeeMsat |}) (add_offered_htlc entry st)
  end.

Definition add_received_htlc (adm : Admission) (msg : IUpdateAddHtlcMessage) (st : IChannelState)
    : IChannelState :=
  let entry := received_entry adm msg st in
  let st := set_htlcs (set (htlc_key RECEIVED (ua_id msg)) entry (s_htlcs st)) st in
  set_remoteBalanceMsat (s_remoteBalanceMsat st - ua_amountMsat msg) st.

Definition handleUpdateAddHtlc (peerHasSentStfu : bool) (currentBlockHeight : Z)
    (msg : IUpdateAddHtlcMessage) (st : IChannelState) : outcome :=
  let crossedOurShutdown := bool_decide (s_state st = SHUTTING_DOWN) &&
                            bool_decide (s_remoteShutdownScript st = None) in
  if negb (bool_decide (s_state st = CHANNEL_NORMAL)) && negb crossedOurShutdown
  then refuse "Unexpected update_add_htlc" st
  else match get (htlc_key RECEIVED (ua_id msg)) (s_htlcs st) with
  | Some existing =>
      if same_add existing msg then (st, Ok [])
      else _failChannelWithWireError "update_add_htlc reuses id with different contents" st
  | None =>
      if peerHasSentStfu then _failChannelWithWireError "update_add_htlc after your stfu" st
      else match admitInbound no_splice currentBlockHeight msg st with
      | Err e => (st, Err e)
      | Ok adm =>
          match ad_refusal adm with
          | Some reason => _failChannelWithWireError reason st
          | None => (add_received_htlc adm msg st, Ok [])
          end
      end
  end.

Definition fulfillHtlc (quiescing : bool) (htlcId : Z) (paymentPreimage : buffer)
    (st : IChannelState) : outcome :=
  if negb (updatable st) then refuse "Cannot fulfill HTLC: wrong state" st
  else if quiescing then refuse "Cannot fulfill HTLC: channel is quiescing" st
  else match get (htlc_key RECEIVED htlcId) (s_htlcs st) with
  | None => refuse "HTLC not found" st
  | Some entry =>
      if negb (bool_decide (sha256 paymentPreimage = e_paymentHash entry))
      then refuse "Invalid preimage for HTLC" st
      else match _guardRepeatSettle entry FULFILLED with
      | Some repeat => (st, Ok repeat)
      | None =>
          let st := set_htlcs (set (htlc_key RECEIVED htlcId) (settle_entry FULFILLED entry)
                                 (s_htlcs st)) st in
          send_update (UPDATE_FULFILL {| ff_channelId := channel_id st; ff_id := htlcId;
                                         ff_paymentPreimage := paymentPreimage |}) st
      end
  end.

Definition failHtlc (quiescing : bool) (htlcId : Z) (reason : buffer) (direction : HtlcDirection)
    (st : IChannelState) : outcome :=
  if negb (updatable st) then refuse "Cannot fail HTLC: wrong state" st
  else if quiescing then refuse "Cannot fail HTLC: channel is quiescing" st
  else if negb (bool_decide (direction = RECEIVED))
  then refuse "Cannot fail offered HTLC off-chain" st
  else match get (htlc_key RECEIVED htlcId) (s_htlcs st) with
  | None => refuse "HTLC not found" st
  | Some entry =>
      match _guardRepeatSettle entry FAILED with
      | Some repeat => (st, Ok repeat)
      | None =>
          let st := set_htlcs (set (htlc_key RECEIVED htlcId) (settle_entry FAILED entry)
                                 (s_htlcs st)) st in
          send_update (UPDATE_FAIL {| uh_channelId := channel_id st; uh_id := htlcId;
                                      uh_reason := reason |}) st
      end
  end.

Definition failMalformedHtlc (quiescing : bool) (htlcId : Z) (sha256OfOnion : buffer)
    (failureCode : Z) (st : IChannelState) : outcome :=
  if negb (updatable st) then refuse "Cannot fail HTLC: wrong state" st
  else if quiescing then refuse "Cannot fail HTLC: channel is quiescing" st
  else if Z.land failureCode 0x8000 =? 0
  then refuse "update_fail_malformed_htlc failure_code lacks BADONION" st
  else match get (htlc_key RECEIVED htlcId) (s_htlcs st) with
  | None => refuse "HTLC not found" st
  | Some entry =>
      match _guardRepeatSettle entry FAILED with
      | Some repeat => (st, Ok repeat)
      | None =>
          let st := set_htlcs (set (htlc_key RECEIVED htlcId) (settle_entry FAILED entry)
                                 (s_htlcs st)) st in
          send_update (UPDATE_MALFORMED {| um_channelId := channel_id st; um_id := htlcId;
            um_sha256OfOnion := sha256OfOnion; um_failureCode := failureCode |}) st
      end
  end.

(** ** The peer settles an HTLC we offered *)

Definition peer_settle_entry (intent : HtlcState) (e : IHtlcEntry) : IHtlcEntry :=
  with_removalLocallyRevoked (Some false) (settle_entry intent e).

Definition handleUpdateFulfillHtlc (msg : IUpdateFulfillHtlcMessage) (st : IChannelState)
    : outcome :=
  if negb (updatable st) then refuse "Unexpected update_fulfill_htlc" st
  else match get (htlc_key OFFERED (ff_id msg)) (s_htlcs st) with
  | None => refuse "HTLC not found" st
  | Some entry =>
      if negb (bool_decide (sha256 (ff_paymentPreimage msg) = e_paymentHash entry))
      then _failChannelWithWireError "Invalid preimage for offered HTLC" st
      else
        let fulfilled := [HTLC_FULFILLED (ff_id msg) (ff_paymentPreimage msg)] in
        if bool_decide (e_state entry = FULFILLED) then (st, Ok fulfilled)
        else if _addNotYetCommitted entry
        then _failChannelWithWireError "update_fulfill_htlc for an HTLC not yet committed" st
        else (set_htlcs (set (htlc_key OFFERED (ff_id msg)) (peer_settle_entry FULFILLED entry)
                           (s_htlcs st)) st, Ok fulfilled)
  end.

Definition peer_fail (id : Z) (reason : buffer) (malformedCode : option Z) (early : string)
    (st : IChannelState) : outcome :=
  match get (htlc_key OFFERED id) (s_htlcs st) with
  | None => refuse "HTLC not found" st
  | Some entry =>
      let failed := [HTLC_FAILED id reason malformedCode] in
      if bool_decide (e_state entry = FAILED) then (st, Ok failed)
      else if _addNotYetCommitted entry then _failChannelWithWireError early st
      else (set_htlcs (set (htlc_key OFFERED id) (peer_settle_entry FAILED entry)
                         (s_htlcs st)) st, Ok failed)
  end.

Definition handleUpdateFailHtlc (msg : IUpdateFailHtlcMessage) (st : IChannelState) : outcome :=
  if negb (updatable st) then refuse "Unexpected update_fail_htlc" st
  else peer_fail (uh_id msg) (uh_reason msg) None
         "update_fail_htlc for an HTLC not yet committed" st.

Definition handleUpdateFailMalformedHtlc (msg : IUpdateFailMalformedHtlcMessage)
    (st : IChannelState) : outcome :=
  if negb (updatable st) then refuse "Unexpected update_fail_malformed_htlc" st
  else if Z.land (um_failureCode msg) 0x8000 =? 0
  then _failChannelWithWireError
         "update_fail_malformed_htlc: failure_code missing BADONION bit" st
  else peer_fail (um_id msg) (be 2 (um_failureCode msg) ++ be 2 0) (Some (um_failureCode msg))
         "update_fail_malformed_htlc for an HTLC not yet committed" st.

(** ** commitment_signed, sending *)

Definition _remoteRevocationCount (st : IChannelState) : Z :=
  default (s_remoteCommitmentNumber st) (s_remoteRevocationNumber st).

Definition _remoteRevocationCountForRaa (st : IChannelState) : Z :=
  match s_remoteRevocationNumber st with
  | Some n => n
  | None => if 0 <? s_remoteCommitmentNumber st then s_remoteCommitmentNumber st - 1 else 0
  end.

Definition isAwaitingRemoteRevocation (st : IChannelState) : bool :=
  _remoteRevocationCount st <? s_remoteCommitmentNumber st.

Definition snapshot_entry (e : IHtlcEntry) : IHtlcSnapshotEntry :=
  {| sn_paymentHash := e_paymentHash e; sn_amountMsat := e_amountMsat e;
     sn_cltvExpiry := e_cltvExpiry e; sn_direction := e_direction e |}.

(** Every state of an entry is one of the four the code lists. *)
Definition _snapshotRemoteCommitmentHtlcs (commitmentNumber : Z) (st : IChannelState)
    : IChannelState :=
  let entries := map snapshot_entry (values (s_htlcs st)) in
  match entries with
  | [] => st
  | _ => set_revokedHtlcSnapshots
           (Some (set (pretty commitmentNumber) entries (default [] (s_revokedHtlcSnapshots st))))
           st
  end.

(** The stamps signCommitment leaves on an entry. *)
Definition sign_stamp (e : IHtlcEntry) : IHtlcEntry :=
  let e := if flag_false (e_addRemoteCommitted e) && open_htlc e
           then with_commitCoverPending (Some true) e else e in
  let e := if flag_false (e_removalRemoteCommitted e) &&
              negb (flag_false (e_removalLocallyRevoked e)) && removed e
           then with_commitCoverPending (Some true) e else e in
  if flag_false (e_addRemotelyRevoked e) && negb (flag_false (e_addLocallyRevoked e)) &&
     open_htlc e
  then with_addCoverPending (Some true) e else e.

(** The commitment being signed carries a pending fee rate or lease height. *)
Definition sign_fee (st : IChannelState) : IChannelState :=
  if bool_decide (is_Some (s_pendingFeeratePerKw st)) &&
     (bool_decide (s_role st = OPENER) || flag_true (s_pendingFeerateSignable st))
  then set_pendingFeerateCommitted (Some true) st else st.

Definition sign_lease (st : IChannelState) : IChannelState :=
  if bool_decide (is_Some (s_pendingLeaseBlockheight st)) &&
     flag_true (s_pendingLeaseBlockheightSignable st)
  then set_pendingLeaseBlockheightCommitted (Some true) st else st.

Definition record_sent (signature : buffer) (htlcSignatures : list buffer)
    (partialSignatureWithNonce : option buffer) (st : IChannelState) : IChannelState :=
  let st := set_lastSentCommitmentSigned (Some signature) st in
  let st := set_lastSentPartialSignatureWithNonce
              (if isTaprootChannel (s_channelType st) then partialSignatureWithNonce else None)
              st in
  let st := set_lastSentHtlcSignatures htlcSignatures st in
  let st := set_lastSentWasRevoke (Some false) st in
  _snapshotRemoteCommitmentHtlcs (s_remoteCommitmentNumber st) st.

Definition advance_remote (st : IChannelState) : IChannelState :=
  let st := set_remoteRevocationNumber (Some (_remoteRevocationCount st)) st in
  let st := set_remoteCommitmentNumber (s_remoteCommitmentNumber st + 1) st in
  let st := set_needsCommitment (Some false) st in
  set_pendingLocalUpdatesSignedCount (Z.of_nat (length (s_pendingLocalUpdates st))) st.

(** The writes of signCommitment once it has not refused. *)
Definition sign_writes (signature : buffer) (htlcSignatures : list buffer)
    (partialSignatureWithNonce : option buffer) (st : IChannelState) : IChannelState :=
  map_entries commit_pending (advance_remote (map_entries sign_stamp (sign_lease (sign_fee
    (record_sent signature htlcSignatures partialSignatureWithNonce st))))).

Definition signCommitment (signature : buffer) (htlcSignatures : list buffer)
    (partialSignatureWithNonce : option buffer) (st : IChannelState) : outcome :=
  let taproot := isTaprootChannel (s_channelType st) in
  if negb (updatable st) then refuse "Cannot sign commitment: wrong state" st
  else if taproot && negb (match partialSignatureWithNonce with
                           | Some p => blen p =? 98 | None => false end)
  then refuse "Taproot commitment_signed requires a partial_signature_with_nonce" st
  else
    let refusal := match signing_point st with
                   | Some point => funderOutputTrimmedRefusal st RemoteSide point
                                     (s_remoteCommitmentNumber st + 1)
                   | None => None
                   end in
    match refusal with
    | Some trimmed => _failChannelWithWireError trimmed st
    | None =>
        (sign_writes signature htlcSignatures partialSignatureWithNonce st,
         Ok [PERSIST_STATE; SEND_MESSAGE (COMMIT
           {| cs_channelId := channel_id st;
              cs_signature := if taproot then alloc 64 else signature;
              cs_htlcSignatures := htlcSignatures; cs_fundingTxid := None;
              cs_partialSignatureWithNonce :=
                if taproot then partialSignatureWithNonce else None |})])
    end.

(** ** commitment_signed, receiving *)

Definition mark_remote_signed (e : IHtlcEntry) : IHtlcEntry :=
  if bool_decide (e_direction e = OFFERED) && negb (flag_false (e_addRemoteCommitted e)) &&
     negb (bool_decide (e_state e = FAILED))
  then with_addRemoteSigned (Some true) e else e.

Definition _markOfferedAddsRemoteSigned (st : IChannelState) : IChannelState :=
  map_entries mark_remote_signed st.

(** An entry owes the peer a commitment_signed once we revoke for it. *)
Definition revoke_owes (e : IHtlcEntry) : bool :=
  (flag_false (e_addLocallyRevoked e) && open_htlc e) ||
  (flag_false (e_removalLocallyRevoked e) && removed e).

Definition revoke_entry (e : IHtlcEntry) : IHtlcEntry :=
  let e := if flag_false (e_addLocallyRevoked e) then with_addLocallyRevoked (Some true) e else e in
  if flag_false (e_removalLocallyRevoked e) && removed e
  then with_removalLocallyRevoked (Some true) e else e.

(** The signer: [verifyCommitmentSig] of ISigner, and the check of the signatures
    over the second-level transactions. *)
Context (verifyCommitmentSig : Transaction -> buffer -> buffer -> buffer -> Z -> bool)
        (verifyRemoteHtlcSignatures : IChannelState -> buffer -> list buffer -> bool).

Definition verifyRemoteCommitmentSig (st : IChannelState) (perCommitmentPoint remoteSig : buffer)
    (commitmentNumber : Z) : result bool :=
  match s_remoteBasepoints st with
  | None => Err "No remote basepoints"
  | Some remote =>
      built ← buildLocalCommitment st perCommitmentPoint (Some commitmentNumber) false;
      Ok (verifyCommitmentSig (r_tx (b_result built)) remoteSig (bp_fundingPubkey remote)
            (b_fundingWitnessScript built) (b_fundingAmount built))
  end.

(** The acceptor may sign at the opener's rate and height from now on, and owes the
    peer a commitment_signed for them and for the updates it revokes for. *)
Definition accept_fee (st : IChannelState) : IChannelState :=
  if bool_decide (is_Some (s_pendingFeeratePerKw st)) && bool_decide (s_role st = ACCEPTOR) &&
     negb (flag_true (s_pendingFeerateSignable st))
  then set_needsCommitment (Some true) (set_pendingFeerateSignable (Some true) st) else st.

Definition accept_lease (st : IChannelState) : IChannelState :=
  if bool_decide (is_Some (s_pendingLeaseBlockheight st)) && bool_decide (s_role st = ACCEPTOR) &&
     negb (flag_true (s_pendingLeaseBlockheightSignable st))
  then set_needsCommitment (Some true) (set_pendingLeaseBlockheightSignable (Some true) st)
  else st.

Definition accept_removals (st : IChannelState) : IChannelState :=
  if existsb revoke_owes (values (s_htlcs st)) then set_needsCommitment (Some true) st else st.

Definition record_signature (msg : ICommitmentSignedMessage) (st : IChannelState)
    : IChannelState :=
  let st := set_remoteCommitmentSignature (Some (cs_signature msg)) st in
  let st := set_remoteHtlcSignatures (cs_htlcSignatures msg) st in
  let st := set_lastSignedCommitFeeratePerKw (Some (getLocalCommitmentFeeRate st false)) st in
  let st := set_lastSignedCommitLeaseBlockheight (getLocalCommitmentLeaseBlockheight st false) st in
  set_awaitingLocalFeeCommitment (Some false) st.

(** The writes between the verified signature and the revocation. *)
Definition accept_signature (msg : ICommitmentSignedMessage) (st : IChannelState)
    : IChannelState :=
  map_entries revoke_entry (accept_removals (accept_lease (accept_fee (set_signedLocalRemovals None
    (_markOfferedAddsRemoteSigned (record_signature msg st)))))).

Definition advance_local (st : IChannelState) : IChannelState :=
  set_restoreRevokedRisk None (set_localCommitmentNumber (s_localCommitmentNumber st + 1) st).

Definition record_revocation (secret nextPoint : buffer) (st : IChannelState) : IChannelState :=
  let st := set_lastSentRevokeSecret (Some secret) st in
  let st := set_lastSentRevokeNextPoint (Some nextPoint) st in
  let st := set_lastSentWasRevoke (Some true) st in
  map_entries commit_pending st.

(** Reveal the secret of the commitment just replaced. *)
Definition revoke_and_ack (st : IChannelState) : outcome :=
  match getPerCommitmentSecret sha256 (s_localPerCommitmentSeed st)
          (s_localCommitmentNumber st) with
  | Err e => (st, Err e)
  | Ok currentSecret =>
      let st := advance_local st in
      match getPerCommitmentPoint (s_localPerCommitmentSeed st)
              (s_localCommitmentNumber st + 1) with
      | Err e => (st, Err e)
      | Ok nextPoint =>
          (record_revocation currentSecret nextPoint st,
           Ok [PERSIST_STATE; SEND_MESSAGE (REVOKE
             {| ra_channelId := channel_id st; ra_perCommitmentSecret := currentSecret;
                ra_nextPerCommitmentPoint := nextPoint; ra_nextLocalNonce := None |})])
      end
  end.

Definition handleCommitmentSigned (msg : ICommitmentSignedMessage) (st : IChannelState)
    : outcome :=
  if negb (updatable st) then refuse "Unexpected commitment_signed" st
  else
    let next := s_localCommitmentNumber st + 1 in
    match getPerCommitmentPoint (s_localPerCommitmentSeed st) next with
    | Err e => (st, Err e)
    | Ok point =>
        match funderOutputTrimmedRefusal st LocalSide point next with
        | Some trimmed => _failChannelWithWireError trimmed st
        | None =>
            if negb (bool_decide (is_Some (s_remoteBasepoints st)))
            then refuse "Cannot verify commitment signature: no signer or remote basepoints" st
            else match verifyRemoteCommitmentSig st point (cs_signature msg) next with
            | Err e => (st, Err e)
            | Ok false => _failChannelWithWireError "Invalid commitment signature" st
            | Ok true =>
                if negb (verifyRemoteHtlcSignatures st point (cs_htlcSignatures msg))
                then _failChannelWithWireError "Invalid HTLC signature" st
                else
                  revoke_and_ack (accept_signature msg st)
            end
        end
    end.

(** ** revoke_and_ack *)

(** What the peer's revocation promotes on an entry. *)
Definition promote_entry (e : IHtlcEntry) : IHtlcEntry :=
  let e := if flag_true (e_commitCoverPending e) then
             let e := with_commitCoverPending (Some false) e in
             if open_htlc e then with_addRemoteCommitted (Some true) e
             else with_removalRemoteCommitted (Some true) e
           else e in
  if flag_true (e_addCoverPending e)
  then with_addRemotelyRevoked (Some true) (with_addCoverPending (Some false) e) else e.

(** A removal the peer has committed is finished. *)
Definition finished (e : IHtlcEntry) : bool :=
  negb (flag_false (e_removalRemoteCommitted e)) && removed e.

Definition _retainSignedLocalRemoval (e : IHtlcEntry) (st : IChannelState) : IChannelState :=
  if flag_false (e_addLocallyRevoked e) then st
  else set_signedLocalRemovals (Some (default [] (s_signedLocalRemovals st) ++ [e])) st.

(** One round of the clean-up loop. *)
Definition finish_entry (st : IChannelState) (kv : string * IHtlcEntry) : IChannelState :=
  let '(key, e) := kv in
  if flag_false (e_removalRemoteCommitted e) then st
  else match e_state e, e_direction e with
  | FULFILLED, RECEIVED =>
      let st := set_localBalanceMsat (s_localBalanceMsat st + e_amountMsat e) st in
      let st := _retainSignedLocalRemoval e st in
      set_htlcs (del key (s_htlcs st)) st
  | FULFILLED, OFFERED =>
      let st := set_remoteBalanceMsat (s_remoteBalanceMsat st + e_amountMsat e) st in
      set_htlcs (del key (s_htlcs st)) st
  | FAILED, RECEIVED =>
      let st := set_remoteBalanceMsat (s_remoteBalanceMsat st + e_amountMsat e) st in
      let st := _retainSignedLocalRemoval e st in
      set_htlcs (del key (s_htlcs st)) st
  | FAILED, OFFERED =>
      let st := set_localBalanceMsat (s_localBalanceMsat st + e_amountMsat e) st in
      set_htlcs (del key (s_htlcs st)) st
  | _, _ => st
  end.

Definition finish_removals (st : IChannelState) : IChannelState :=
  fold_left finish_entry (s_htlcs st) st.

Definition _promoteLeaseBlockheight (height : Z) (st : IChannelState) : IChannelState :=
  let st :=
    if bool_decide (s_leaseCommitBlockheight st = Some height) then st
    else
      let history := default [] (s_leaseHeightHistory st) in
      let history := match s_leaseCommitBlockheight st with
                     | Some h => if bool_decide (last history = Some h) then history
                                 else history ++ [h]
                     | None => history
                     end in
      set_leaseHeightHistory (Some (history ++ [height])) st in
  set_leaseCommitBlockheight (Some height) st.

Definition promote_fee (st : IChannelState) : IChannelState :=
  match s_pendingFeeratePerKw st with
  | Some rate =>
      if flag_true (s_pendingFeerateCommitted st) then
        let st := match s_role st with
                  | OPENER => set_awaitingLocalFeeCommitment (Some true)
                                (set_localConfig (with_feeratePerKw rate (s_localConfig st)) st)
                  | ACCEPTOR => set_remoteConfig (with_feeratePerKw rate (s_remoteConfig st)) st
                  end in
        set_pendingFeerateCommitted (Some false) (set_pendingFeerateSignable (Some false)
          (set_pendingFeeratePerKw None st))
      else st
  | None => st
  end.

Definition promote_lease (st : IChannelState) : IChannelState :=
  match s_pendingLeaseBlockheight st with
  | Some height =>
      if flag_true (s_pendingLeaseBlockheightCommitted st) then
        set_pendingLeaseBlockheightCommitted (Some false)
          (set_pendingLeaseBlockheightSignable (Some false)
            (set_pendingLeaseBlockheight None (_promoteLeaseBlockheight height st)))
      else st
  | None => st
  end.

Definition to_forward (e : IHtlcEntry) : bool :=
  bool_decide (e_direction e = RECEIVED) && receivedAddIrrevocablyCommitted e &&
  negb (flag_true (e_forwardEmitted e)) && negb (flag_true (e_fforVoucher e)) &&
  negb (flag_true (e_fforMismatch e)).

Definition mark_forwarded (e : IHtlcEntry) : IHtlcEntry :=
  if to_forward e then with_forwardEmitted (Some true) e else e.

Definition forward_actions (st : IChannelState) : list ChannelAction :=
  map (fun e => HTLC_FORWARDED (e_id e) (e_amountMsat e) (e_paymentHash e))
    (List.filter to_forward (values (s_htlcs st))).

(** The updates the revoked-to commitment carries need no replay. *)
Definition drop_signed (st : IChannelState) : IChannelState :=
  if 0 <? s_pendingLocalUpdatesSignedCount st
  then set_pendingLocalUpdatesSignedCount 0 (set_pendingLocalUpdates
         (drop (Z.to_nat (s_pendingLocalUpdatesSignedCount st)) (s_pendingLocalUpdates st)) st)
  else st.

(** The writes once the revocation is stored and the next point is valid. *)
Definition revoke_writes (st : IChannelState) : IChannelState :=
  promote_lease (promote_fee (finish_removals (map_entries promote_entry (drop_signed st)))).

Context (ecc_isPoint : buffer -> bool).

Definition isValidPublicKey (pubkey : buffer) : bool := (blen pubkey =? 33) && ecc_isPoint pubkey.

(** The check of the revealed secret against the committed point. *)
Definition secret_matches_point (secret : buffer) (st : IChannelState) : result bool :=
  match s_remoteCurrentPerCommitmentPoint st with
  | Some point =>
      revealedPoint ← perCommitmentPointFromSecret secret;
      Ok (bool_decide (revealedPoint = point))
  | None => Ok true
  end.

Definition store_secret (store : ShaChainStore) (revocationCount : Z) (st : IChannelState)
    : IChannelState :=
  let st := set_shaChainStore store st in
  let st := set_remoteRevocationNumber (Some (revocationCount + 1)) st in
  set_remoteCurrentPerCommitmentPoint (s_remoteNextPerCommitmentPoint st) st.

Definition apply_revocation (msg : IRevokeAndAckMessage) (st : IChannelState) : outcome :=
  let st := set_remoteNextPerCommitmentPoint (Some (ra_nextPerCommitmentPoint msg)) st in
  let st := revoke_writes st in
  (map_entries mark_forwarded st, Ok (PERSIST_STATE :: forward_actions st)).

Definition handleRevokeAndAck (msg : IRevokeAndAckMessage) (st : IChannelState) : outcome :=
  if negb (updatable st) then refuse "Unexpected revoke_and_ack" st
  else match secret_matches_point (ra_perCommitmentSecret msg) st with
  | Err e => (st, Err e)
  | Ok false => _failChannelWithWireError
                  "revoke_and_ack secret does not match committed per-commitment point" st
  | Ok true =>
      let revocationCount := _remoteRevocationCountForRaa st in
      if s_remoteCommitmentNumber st <=? revocationCount
      then refuse "Unexpected revoke_and_ack: no outstanding commitment" st
      else match addSecret sha256 (s_shaChainStore st) (MAX_INDEX - revocationCount)
                   (ra_perCommitmentSecret msg) with
      | Err e => (st, Err e)
      | Ok (_, false) => _failChannelWithWireError "Invalid per-commitment secret" st
      | Ok (store, true) =>
          let st := store_secret store revocationCount st in
          if negb (isValidPublicKey (ra_nextPerCommitmentPoint msg))
          then _failChannelWithWireError
                 "revoke_and_ack has an invalid next_per_commitment_point" st
          else apply_revocation msg st
      end
  end.

End Handlers.
