(* ===== verification/HtlcBounds.v ===== *)
(** * What admission guarantees

    The limits that hold once addHtlc or handleUpdateAddHtlc has let an HTLC in, the
    relation between the two sides' policies, and what the policy means for the
    commitments built afterwards. *)

From S2P Require Import Prelude Buffer JsMap ShaChain CommitmentTx Scripts WireUpdate.
From S2P Require Import ChannelTypes CommitmentBuilder HtlcPolicy HtlcAdmission Channel.
From Stdlib Require Import Strings.Byte Sorting.Permutation.
Local Open Scope Z_scope.

(** ** Counting *)

Lemma total_msat_sum p st :
  total_msat p st = zsum (fun e => if p e then e_amountMsat e else 0) (values (s_htlcs st)).
Proof.
  unfold total_msat. generalize (values (s_htlcs st)). intros l.
  enough (forall b, fold_left (fun total e => if p e then total + e_amountMsat e else total) l b =
            b + zsum (fun e => if p e then e_amountMsat e else 0) l) as H by (by rewrite H).
  induction l as [|e l IH]; intros b; simpl; [lia|]. rewrite IH. destruct (p e); lia.
Qed.

Lemma count_htlcs_sum p st :
  count_htlcs p st = zsum (fun e => if p e then 1 else 0) (values (s_htlcs st)).
Proof.
  unfold count_htlcs. generalize (values (s_htlcs st)). intros l.
  enough (forall b, fold_left (fun count e => if p e then count + 1 else count) l b =
            b + zsum (fun e => if p e then 1 else 0) l) as H by (by rewrite H).
  induction l as [|e l IH]; intros b; simpl; [lia|]. rewrite IH. destruct (p e); lia.
Qed.

Section Fresh.
Context (st st' : IChannelState) (k : string) (e : IHtlcEntry).
Context (Hfresh : get k (s_htlcs st) = None) (Hset : s_htlcs st' = set k e (s_htlcs st)).

Lemma total_fresh p : total_msat p st' = total_msat p st + (if p e then e_amountMsat e else 0).
Proof. rewrite !total_msat_sum, Hset, values_set_fresh, zsum_app by done. simpl. lia. Qed.

Lemma count_fresh p : count_htlcs p st' = count_htlcs p st + (if p e then 1 else 0).
Proof. rewrite !count_htlcs_sum, Hset, values_set_fresh, zsum_app by done. simpl. lia. Qed.

End Fresh.

Lemma total_ext p q st : (forall e, p e = q e) -> total_msat p st = total_msat q st.
Proof. intros H. rewrite !total_msat_sum. apply zsum_ext. intros e _. by rewrite H. Qed.

(** ** The cost of a commitment grows with the rate and the number of outputs *)

Lemma fee_mono r r' n n' a t :
  0 <= r <= r' -> 0 <= n <= n' -> calculateCommitmentFee r n a t <= calculateCommitmentFee r' n' a t.
Proof.
  intros Hr Hn. unfold calculateCommitmentFee, COMMITMENT_TX_HTLC_WEIGHT,
    COMMITMENT_TX_BASE_WEIGHT_TAPROOT, COMMITMENT_TX_BASE_WEIGHT_ANCHORS, COMMITMENT_TX_BASE_WEIGHT.
  apply Z.div_le_mono; [lia|]. apply Z.mul_le_mono_nonneg; destruct t, a; lia.
Qed.

Lemma cost_mono r r' n n' ct :
  0 <= r <= r' -> 0 <= n <= n' ->
  funderCommitmentCostSats r n ct <= funderCommitmentCostSats r' n' ct.
Proof.
  intros Hr Hn. unfold funderCommitmentCostSats.
  pose proof (fee_mono r r' n n' (isAnchorChannel ct) (isTaprootChannel ct) Hr Hn). lia.
Qed.

Lemma fee_nonneg r n a t : 0 <= r -> 0 <= n -> 0 <= calculateCommitmentFee r n a t.
Proof.
  intros Hr Hn. unfold calculateCommitmentFee, COMMITMENT_TX_HTLC_WEIGHT,
    COMMITMENT_TX_BASE_WEIGHT_TAPROOT, COMMITMENT_TX_BASE_WEIGHT_ANCHORS, COMMITMENT_TX_BASE_WEIGHT.
  apply Z.div_pos; [|lia]. apply Z.mul_nonneg_nonneg; destruct t, a; lia.
Qed.

(** ** Outbound limits *)

Lemma over_dust_false st amount :
  over_dust_exposure st amount = false ->
  isDustHtlc st amount = true -> dustExposureMsat st + amount <= MAX_DUST_HTLC_EXPOSURE_MSAT.
Proof. unfold over_dust_exposure. intros H E. rewrite E in H. cbn in H. by apply Z.ltb_ge. Qed.

(** The exposure after an HTLC was let in: only a dust one adds to it. *)
Lemma exposure_fresh st st' k e :
  get k (s_htlcs st) = None -> s_htlcs st' = set k e (s_htlcs st) -> open_htlc e = true ->
  s_localConfig st' = s_localConfig st -> s_remoteConfig st' = s_remoteConfig st ->
  s_channelType st' = s_channelType st ->
  getCommitmentFeeRate st' false = getCommitmentFeeRate st false ->
  dustExposureMsat st' = dustExposureMsat st + (if isDustHtlc st (e_amountMsat e) then e_amountMsat e else 0).
Proof.
  intros Hf Hs Ho Hl Hr Ht Hrate. unfold dustExposureMsat, dustExposureAtRateMsat.
  rewrite (total_fresh st st' k e Hf Hs), Hrate, Ho.
  assert (forall a r, isDustHtlcAtRate st' a r = isDustHtlcAtRate st a r) as E
    by (intros; unfold isDustHtlcAtRate; by rewrite Hl, Hr, Ht).
  rewrite E. f_equal. apply total_ext. intros e'. by rewrite E.
Qed.

(** What the ceiling leaves. *)
Lemma ceiling_le st splice spendable :
  0 <= spendable -> remoteFunderCeilingMsat st splice spendable <= spendable.
Proof.
  unfold remoteFunderCeilingMsat. intros H.
  destruct (negb _); [lia|]. cbv zeta. destruct (_ <=? _); [lia|]. destruct (_ <? _); [lia|].
  destruct (_ <? spendable) eqn:E; lia.
Qed.

Lemma spendable_kept st local kept amount :
  0 < amount -> amount <= spendableFor st local kept ->
  (if flag_true (s_localReserveWaived st) then 0
   else Z.max kept (c_dustLimitSatoshis (s_localConfig st)) * 1000) +
  match s_role st with
  | OPENER => funderCommitmentCostSats
                (Z.max (getLocalCommitmentFeeRate st false) (getRemoteCommitmentFeeRate st) * 2)
                (countActiveHtlcs st + 2) (s_channelType st) * 1000
  | ACCEPTOR => 0
  end <= local - amount.
Proof.
  unfold spendableFor. rewrite bigIntMax_max. cbv zeta. intros H.
  destruct (0 <? _) eqn:E; [|lia]. destruct (s_role st); lia.
Qed.

Lemma spendableFor_nonneg st l k : 0 <= spendableFor st l k.
Proof. unfold spendableFor. cbv zeta. destruct (0 <? _) eqn:E; lia. Qed.

Lemma own_le_live splice st amount :
  0 < amount -> amount <= getSpendableOutboundMsat splice st ->
  amount <= spendableFor st (s_localBalanceMsat st) (c_channelReserveSatoshis (s_remoteConfig st)).
Proof.
  unfold getSpendableOutboundMsat. intros Hp H. etransitivity; [exact H|].
  etransitivity; [apply ceiling_le|];
    repeat case_match; try apply spendableFor_nonneg; lia.
Qed.

Section Limits.
Context `{L : BitcoinLib}.

(** What a null answer of validateOutgoingHtlc means. *)
Record outgoing_ok (splice : IPendingSpliceView) (height amount cltv : Z) (st : IChannelState)
    : Prop := {
  og_positive : 0 < amount;
  og_minimum : c_htlcMinimumMsat (s_remoteConfig st) <= amount;
  og_count : countPendingHtlcs st OFFERED < c_maxAcceptedHtlcs (s_remoteConfig st);
  og_value : totalInFlightMsat st OFFERED + amount <= c_maxHtlcValueInFlightMsat (s_remoteConfig st);
  og_spendable : amount <= getSpendableOutboundMsat splice st;
  og_funder : remoteFunderFeeRefusal st splice [amount] = None;
  og_dust : over_dust_exposure st amount = false;
  og_cltv : cltv < 500000000;
  og_fresh : 0 < height -> height < cltv
}.

Lemma validate_ok splice quiescing height amount cltv st :
  validateOutgoingHtlc splice quiescing height amount cltv st = Ok None ->
  outgoing_ok splice height amount cltv st.
Proof.
  unfold validateOutgoingHtlc.
  repeat match goal with
  | |- context [if ?c then Ok (Some _) else _] => destruct c eqn:?; [discriminate|]
  end.
  destruct (remoteFunderFeeRefusal st splice [amount]) eqn:Ef; [discriminate|].
  destruct (over_dust_exposure st amount) eqn:Ed; [discriminate|]. intros _.
  repeat match goal with
  | H : (_ <? _) = false |- _ => apply Z.ltb_ge in H
  | H : (_ <=? _) = false |- _ => apply Z.leb_gt in H
  end.
  constructor; try done; try lia.
Qed.

(** The state in which addHtlc sends an HTLC. *)
Lemma addHtlc_sent q height amount hash cltv onion bp skimmed st st' actions m :
  addHtlc q height amount hash cltv onion bp skimmed st = (st', Ok actions) ->
  In (SEND_MESSAGE m) actions ->
  validateOutgoingHtlc no_splice q height amount cltv st = Ok None /\
  s_htlcs st' = set (htlc_key OFFERED (s_localHtlcCounter st))
    (offered_entry (s_localHtlcCounter st) amount hash cltv onion bp) (s_htlcs st) /\
  s_localBalanceMsat st' = s_localBalanceMsat st - amount /\
  s_localConfig st' = s_localConfig st /\ s_remoteConfig st' = s_remoteConfig st /\
  s_channelType st' = s_channelType st /\ s_role st' = s_role st /\
  getCommitmentFeeRate st' false = getCommitmentFeeRate st false.
Proof.
  unfold addHtlc. destruct (match skimmed with Some f => _ | None => _ end); [discriminate|].
  destruct (validateOutgoingHtlc _ _ _ _ _ _) as [[reason|]|] eqn:Ev; [| |discriminate].
  - intros [= <- <-] [H|[]]. discriminate.
  - intros [= <- <-] _. by split_and!.
Qed.

(** An HTLC that addHtlc sends respects every limit the peer set and
    our own: afterwards the number and the value of our HTLCs in flight are within
    what the peer accepts, the amount is at least its minimum, the expiry is a block
    height, our balance still covers the reserve and, if we fund, the commitment's
    cost at twice the fee rate with one HTLC more, and the dust exposure has not
    grown past its limit. *)
Theorem offered_add_within_limits q height amount hash cltv onion bp skimmed st st' actions m
    (Hadd : addHtlc q height amount hash cltv onion bp skimmed st = (st', Ok actions))
    (Hsent : In (SEND_MESSAGE m) actions)
    (Hfresh : get (htlc_key OFFERED (s_localHtlcCounter st)) (s_htlcs st) = None)
    (Hwaived : flag_true (s_localReserveWaived st) = false) :
  countPendingHtlcs st' OFFERED <= c_maxAcceptedHtlcs (s_remoteConfig st') /\
  totalInFlightMsat st' OFFERED <= c_maxHtlcValueInFlightMsat (s_remoteConfig st') /\
  c_htlcMinimumMsat (s_remoteConfig st') <= amount /\ 0 < amount /\ cltv < 500000000 /\
  Z.max (c_channelReserveSatoshis (s_remoteConfig st')) (c_dustLimitSatoshis (s_localConfig st')) * 1000 +
    match s_role st' with
    | OPENER => funderCommitmentCostSats
        (Z.max (getLocalCommitmentFeeRate st false) (getRemoteCommitmentFeeRate st) * 2)
        (countActiveHtlcs st' + 1) (s_channelType st') * 1000
    | ACCEPTOR => 0
    end <= s_localBalanceMsat st' /\
  dustExposureMsat st' <= Z.max MAX_DUST_HTLC_EXPOSURE_MSAT (dustExposureMsat st).
Proof.
  destruct (addHtlc_sent _ _ _ _ _ _ _ _ _ _ _ _ Hadd Hsent)
    as (Hv%validate_ok & Hh & Hb & Hl & Hr & Ht & Hro & Hrate).
  destruct Hv. pose proof (own_le_live _ _ _ og_positive0 og_spendable0) as Hs.
  apply spendable_kept in Hs; [|done]. rewrite Hwaived in Hs. cbv iota in Hs. rewrite Hl, Hr, Ht, Hro, Hb.
  unfold countPendingHtlcs, totalInFlightMsat, countActiveHtlcs in *.
  rewrite !(count_fresh _ _ _ _ Hfresh Hh), (total_fresh _ _ _ _ Hfresh Hh),
    (exposure_fresh _ _ _ _ Hfresh Hh) by done.
  change (pending_in OFFERED (offered_entry _ _ _ _ _ _)) with true.
  change (open_htlc (offered_entry _ _ _ _ _ _)) with true.
  change (e_amountMsat (offered_entry _ amount _ _ _ _)) with amount.
  pose proof (over_dust_false _ _ og_dust0). split_and!; try lia.
  - destruct (s_role st); [|lia].
    by replace (count_htlcs open_htlc st + 1 + 1) with (count_htlcs open_htlc st + 2) by lia.
  - destruct (isDustHtlc st amount); [|lia]. pose proof (H eq_refl). lia.
Qed.

(** ** Inbound limits *)

Record inbound_ok (splice : IPendingSpliceView) (height : Z) (msg : IUpdateAddHtlcMessage)
    (st : IChannelState) (adm : Admission) : Prop := {
  ib_positive : 0 < ua_amountMsat msg;
  ib_minimum : c_htlcMinimumMsat (s_localConfig st) <= ua_amountMsat msg;
  ib_count : countPendingHtlcs st RECEIVED < c_maxAcceptedHtlcs (s_localConfig st);
  ib_value : totalInFlightMsat st RECEIVED + ua_amountMsat msg <=
             c_maxHtlcValueInFlightMsat (s_localConfig st);
  ib_balance : remote_required msg st <= s_remoteBalanceMsat st - ua_amountMsat msg;
  ib_funder : funder_verdict splice msg st <> FunderRefuses;
  ib_cltv : ua_cltvExpiry msg < 500000000;
  ib_dust : ad_dustExposureFailback adm = over_dust_exposure st (ua_amountMsat msg);
  ib_expired : ad_expiredOnArrival adm = (0 <? height) && (ua_cltvExpiry msg <=? height);
  ib_failback : ad_funderFeeFailback adm =
                match funder_verdict splice msg st with FunderFailsBack => true | _ => false end
}.

Lemma admit_ok splice height msg st adm :
  admitInbound splice height msg st = Ok adm -> ad_refusal adm = None ->
  inbound_ok splice height msg st adm.
Proof.
  unfold admitInbound.
  repeat match goal with
  | |- context [if ?c then Ok (refused _) else _] =>
      destruct c eqn:?; [by intros [= <-]|]
  end.
  destruct (funder_verdict splice msg st) eqn:Ev;
    (destruct (500000000 <=? ua_cltvExpiry msg) eqn:Ec || idtac);
    try (by intros [= <-]);
    (intros H Ha; apply bind_Ok_inv in H as (w & _ & H); destruct w; injection H as <-; [done|]);
    constructor; rewrite ?Ev; try done; lia.
Qed.

(** A new add that handleUpdateAddHtlc takes. *)
Lemma add_taken stfu height msg st st' :
  handleUpdateAddHtlc stfu height msg st = (st', Ok []) ->
  get (htlc_key RECEIVED (ua_id msg)) (s_htlcs st) = None ->
  exists adm, inbound_ok no_splice height msg st adm /\ st' = add_received_htlc adm msg st.
Proof.
  unfold handleUpdateAddHtlc. intros H Hf. rewrite Hf in H.
  destruct (negb _ && _); [discriminate|]. destruct stfu; [discriminate|].
  destruct (admitInbound _ _ _ _) as [adm|] eqn:Ea; [|discriminate].
  destruct (ad_refusal adm) eqn:Er; [discriminate|]. injection H as <-.
  exists adm. split; [|done]. by apply (admit_ok _ _ _ _ _ Ea).
Qed.

(** The three thresholds of a receiver that funds, for an HTLC that was not refused: our
    headroom covers the cost the sender sees, or a splice left us below the reserve and the
    cost is still covered, or the HTLC is marked for failing back and our output stays above
    both dust limits at the conservative cost. *)
Definition funder_covers (msg : IUpdateAddHtlcMessage) (st : IChannelState) (e : IHtlcEntry) : Prop :=
  let sender := funderSenderView st [(ua_amountMsat msg, RECEIVED)] in
  let floor := funderConservativeView st [(ua_amountMsat msg, RECEIVED)] in
  fv_costMsat sender <= funderHeadroomMsat st no_splice (fv_balanceMsat sender) \/
  (inSplicedClimbOut st = true /\ fv_costMsat sender < fv_balanceMsat sender) \/
  (e_funderFeeFailback e = Some true /\
   Z.max (c_dustLimitSatoshis (s_localConfig st)) (c_dustLimitSatoshis (s_remoteConfig st)) * 1000 <=
     funderLiveBalanceFloorMsat st no_splice + fv_balanceMsat floor - fv_costMsat floor).

Lemma not_refused_covers msg st e : s_role st = OPENER -> funder_verdict no_splice msg st <> FunderRefuses ->
  e_funderFeeFailback e =
    stamp (match funder_verdict no_splice msg st with FunderFailsBack => true | _ => false end) ->
  funder_covers msg st e.
Proof.
  unfold funder_verdict, funder_covers. intros ->. cbv zeta. set (sender := funderSenderView _ _).
  destruct (Z.ltb_spec (funderHeadroomMsat st no_splice (fv_balanceMsat sender)) (fv_costMsat sender)); [|by left].
  destruct (inSplicedClimbOut st && _) eqn:Ec; cbn [andb negb].
  { apply andb_prop in Ec as [? ?%Z.ltb_lt]. right; left. split; [done|lia]. }
  rewrite bigIntMax_max. intros Hv He. right; right. destruct (Z.ltb_spec (funderLiveBalanceFloorMsat st no_splice +
    fv_balanceMsat (funderConservativeView st [(ua_amountMsat msg, RECEIVED)]) -
    fv_costMsat (funderConservativeView st [(ua_amountMsat msg, RECEIVED)]))
    (Z.max (c_dustLimitSatoshis (s_localConfig st)) (c_dustLimitSatoshis (s_remoteConfig st)) * 1000)); [done|].
  by rewrite He.
Qed.

(** C34: an HTLC that handleUpdateAddHtlc records respects every limit our own
    config sets: its amount is positive and not below our minimum, its expiry is a block
    height, afterwards the number and the value of the peer's HTLCs in flight are within
    what we accept, and the peer's balance covers its reserve and, if the peer funds, the
    cost of our commitment with this HTLC at either fee rate; if we fund, our side covers
    that cost (funder_covers).  The entry has the terms of the message.  It is marked for
    failing back when it takes the dust exposure past its limit, or when its expiry has
    passed. *)
Theorem received_add_within_limits stfu height msg st st'
    (Htaken : handleUpdateAddHtlc stfu height msg st = (st', Ok []))
    (Hfresh : get (htlc_key RECEIVED (ua_id msg)) (s_htlcs st) = None) :
  countPendingHtlcs st' RECEIVED <= c_maxAcceptedHtlcs (s_localConfig st') /\
  totalInFlightMsat st' RECEIVED <= c_maxHtlcValueInFlightMsat (s_localConfig st') /\
  0 < ua_amountMsat msg /\ c_htlcMinimumMsat (s_localConfig st') <= ua_amountMsat msg /\
  ua_cltvExpiry msg < 500000000 /\
  c_channelReserveSatoshis (s_localConfig st') * 1000 +
    match s_role st' with
    | OPENER => 0
    | ACCEPTOR =>
        Z.max (remoteFunderLocalCostMsat st (getLocalCommitmentFeeRate st false)
                 [(ua_amountMsat msg, RECEIVED)])
              (remoteFunderLocalCostMsat st (getRemoteCommitmentFeeRate st)
                 [(ua_amountMsat msg, RECEIVED)])
    end <= s_remoteBalanceMsat st' /\
  s_remoteBalanceMsat st' = s_remoteBalanceMsat st - ua_amountMsat msg /\
  exists e, get (htlc_key RECEIVED (ua_id msg)) (s_htlcs st') = Some e /\
    e_amountMsat e = ua_amountMsat msg /\ e_paymentHash e = ua_paymentHash msg /\
    e_cltvExpiry e = ua_cltvExpiry msg /\ e_onionRoutingPacket e = ua_onionRoutingPacket msg /\
    (s_role st' = OPENER -> funder_covers msg st e) /\
    (dustExposureMsat st' <= Z.max MAX_DUST_HTLC_EXPOSURE_MSAT (dustExposureMsat st) \/
     e_dustExposureFailback e = Some true) /\
    (0 < height -> ua_cltvExpiry msg <= height -> e_expiredOnArrival e = Some true).
Proof.
  destruct (add_taken _ _ _ _ _ Htaken Hfresh) as (adm & Hok & ->). destruct Hok.
  set (st' := add_received_htlc adm msg st).
  assert (s_htlcs st' = set (htlc_key RECEIVED (ua_id msg)) (received_entry adm msg st) (s_htlcs st))
    as Hh by done.
  unfold countPendingHtlcs, totalInFlightMsat in *.
  rewrite (count_fresh _ _ _ _ Hfresh Hh), (total_fresh _ _ _ _ Hfresh Hh),
    (exposure_fresh _ _ _ _ Hfresh Hh) by done.
  change (pending_in RECEIVED (received_entry adm msg st)) with true. cbv iota.
  change (e_amountMsat (received_entry adm msg st)) with (ua_amountMsat msg).
  change (s_localConfig st') with (s_localConfig st). change (s_role st') with (s_role st).
  change (s_remoteBalanceMsat st') with (s_remoteBalanceMsat st - ua_amountMsat msg).
  split_and!; try lia.
  - unfold remote_required in *. rewrite <- bigIntMax_max in *. destruct (s_role st); lia.
  - exists (received_entry adm msg st). split_and!.
    + by rewrite Hh, get_set, decide_True.
    + done.
    + done.
    + done.
    + done.
    + intros Hr. apply not_refused_covers; [done|done|]. by rewrite <- ib_failback0.
    + cbn [e_dustExposureFailback received_entry with_addRemotelyRevoked with_addLocallyRevoked
        arriving_entry]. rewrite ib_dust0.
      destruct (over_dust_exposure st (ua_amountMsat msg)) eqn:Eo; [by right|left].
      pose proof (over_dust_false _ _ Eo). destruct (isDustHtlc _ _); [|lia].
      pose proof (H eq_refl). lia.
    + intros H1 H2. cbn [e_expiredOnArrival received_entry with_addRemotelyRevoked
        with_addLocallyRevoked arriving_entry]. rewrite ib_expired0.
      apply Z.ltb_lt in H1 as ->. by apply Z.leb_le in H2 as ->.
Qed.

End Limits.

(** ** The rows the policy prices are the outputs the builder makes *)

Lemma mapM_proj {A B C} (f : A -> result B) (g : B -> C) (h : A -> C) l ys :
  (forall x y, f x = Ok y -> g y = h x) -> mapM f l = Ok ys -> map g ys = map h l.
Proof.
  intros Hf. revert ys. induction l as [|x l IH]; intros ys; [by intros [= <-]|].
  rewrite mapM_cons. intros H. inv_result. simpl. f_equal; eauto.
Qed.

Definition output_row (o : IHtlcOutputWithMeta) : row := (ho_amount o, ho_direction o).

(** Untrimmed rows, as a sum over the rows. *)
Definition untrimmed (dust rate : Z) (anchor : bool) (r : row) : Z :=
  if dust + second_level_fee anchor r.2 rate <=? r.1 then 1 else 0.

Lemma untrimmed_count {T} (amount : T -> Z) (direction : T -> HtlcDirection) l dust rate anchor :
  Z.of_nat (length (filterUntrimmedHtlcs amount direction l dust rate anchor)) =
  zsum (fun x => untrimmed dust rate anchor (amount x, direction x)) l.
Proof.
  unfold filterUntrimmedHtlcs, untrimmed. cbn [fst snd].
  induction l as [|x l IH]; [done|]. simpl. destruct (_ <=? _); simpl; lia.
Qed.

Lemma untrimmed_rows (st : IChannelState) rows dust rate :
  countUntrimmedRows st rows dust rate =
  zsum (untrimmed dust rate (isAnchorChannel (s_channelType st))) rows.
Proof.
  unfold countUntrimmedRows. rewrite untrimmed_count. apply zsum_ext. by intros [] _.
Qed.

Lemma untrimmed_bounds d r a x : 0 <= untrimmed d r a x <= 1.
Proof. unfold untrimmed. case_match; lia. Qed.

Lemma untrimmed_dust d d' r a x : d' <= d -> untrimmed d r a x <= untrimmed d' r a x.
Proof.
  intros H. unfold untrimmed.
  destruct (Z.leb_spec (d + second_level_fee a x.2 r) x.1),
    (Z.leb_spec (d' + second_level_fee a x.2 r) x.1); lia.
Qed.

Lemma zsum_filter_row {A} (p : A -> bool) (f : A -> Z) l :
  zsum f (List.filter p l) = zsum (fun x => if p x then f x else 0) l.
Proof. induction l as [|x l IH]; [done|]. simpl. destruct (p x); simpl; lia. Qed.

Section Output.
Context `{L : BitcoinLib}.

Lemma htlc_output_amount st keys kind e o :
  htlc_output st keys kind e = Ok o -> h_amount o = Z.quot (e_amountMsat e) 1000.
Proof. unfold htlc_output. intros H. inv_result. done. Qed.

Lemma local_output_rows st keys sl outs :
  buildHtlcOutputsForLocal st keys sl = Ok outs ->
  map output_row outs = map entry_row (List.filter (local_carries sl) (values (s_htlcs st)) ++
                                       signedLocalRetainedRemovals st sl).
Proof.
  apply mapM_proj. intros e o. unfold buildLocalHtlcOutput. intros H.
  apply bind_Ok_inv in H as (x & Hx & [= <-]). unfold output_row, ho_amount, entry_row. cbn.
  by rewrite (htlc_output_amount _ _ _ _ _ Hx).
Qed.

Lemma remote_output_rows st keys outs :
  buildHtlcOutputsForRemote st keys = Ok outs ->
  map output_row outs = map entry_row (List.filter remote_carries (values (s_htlcs st))).
Proof.
  apply mapM_proj. intros e o. unfold remote_htlc_output. intros H.
  apply bind_Ok_inv in H as (x & Hx & [= <-]). unfold output_row, ho_amount, entry_row. cbn.
  by rewrite (htlc_output_amount _ _ _ _ _ Hx).
Qed.

(** The untrimmed HTLCs of our next commitment. *)
Definition local_untrimmed (st : IChannelState) : Z :=
  zsum (fun e => if local_carries false e
                 then untrimmed (c_dustLimitSatoshis (s_localConfig st))
                        (getLocalCommitmentFeeRate st false)
                        (isAnchorChannel (s_channelType st)) (entry_row e) else 0)
    (values (s_htlcs st)).

Definition remote_untrimmed (st : IChannelState) : Z :=
  zsum (fun e => if remote_carries e
                 then untrimmed (c_dustLimitSatoshis (s_remoteConfig st))
                        (getRemoteCommitmentFeeRate st)
                        (isAnchorChannel (s_channelType st)) (entry_row e) else 0)
    (values (s_htlcs st)).

Lemma local_untrimmed_nonneg st : 0 <= local_untrimmed st.
Proof. apply zsum_nonneg. intros e. destruct (local_carries false e); [apply untrimmed_bounds|done]. Qed.

Lemma remote_untrimmed_nonneg st : 0 <= remote_untrimmed st.
Proof. apply zsum_nonneg. intros e. destruct (remote_carries e); [apply untrimmed_bounds|done]. Qed.

Lemma zsum_output_rows {T} (f : row -> Z) (row_of : T -> row) l (outs : list IHtlcOutputWithMeta) :
  map output_row outs = map row_of l -> zsum (fun o => f (output_row o)) outs =
  zsum (fun x => f (row_of x)) l.
Proof. intros H. by rewrite <- (zsum_map f output_row), <- (zsum_map f row_of), H. Qed.

(** Our output is in the commitment when our balance in it covers the dust limit and
    the cost. *)
Lemma local_output_present st point n r :
  buildLocalCommitment st point n false = Ok r -> s_role st = OPENER ->
  0 <= c_dustLimitSatoshis (s_localConfig st) -> 0 <= getLocalCommitmentFeeRate st false ->
  1000 * (c_dustLimitSatoshis (s_localConfig st) +
          funderCommitmentCostSats (getLocalCommitmentFeeRate st false) (local_untrimmed st)
            (s_channelType st)) <= (local_balances st false).1 ->
  is_Some (om_toLocal (r_outputMap (b_result r))).
Proof.
  unfold buildLocalCommitment. intros H Hrole Hd Hrate Hb.
  destruct (s_remoteBasepoints st) as [remote|], (s_fundingTxid st) as [txid|]; try discriminate.
  apply bind_Ok_inv in H as (keys & _ & H). apply bind_Ok_inv in H as (outs & Ho & H).
  rewrite Hrole, bool_decide_true in H by done.
  apply build_commitment_mains in H as [H _]. apply H. clear H.
  rewrite untrimmed_count. fold output_row. apply local_output_rows in Ho.
  rewrite (zsum_output_rows _ _ _ _ Ho). cbn [signedLocalRetainedRemovals].
  rewrite app_nil_r, zsum_filter_row. fold (local_untrimmed st).
  apply (funder_amount true); [done| |].
  - apply fee_nonneg; [done|apply local_untrimmed_nonneg].
  - unfold funderCommitmentCostSats in Hb. lia.
Qed.

Lemma remote_output_present st point n r :
  buildRemoteCommitment st point n = Ok r -> s_role st = OPENER ->
  0 <= c_dustLimitSatoshis (s_remoteConfig st) -> 0 <= getRemoteCommitmentFeeRate st ->
  1000 * (c_dustLimitSatoshis (s_remoteConfig st) +
          funderCommitmentCostSats (getRemoteCommitmentFeeRate st) (remote_untrimmed st)
            (s_channelType st)) <= (remote_balances st).2 ->
  is_Some (om_toRemote (r_outputMap (b_result r))).
Proof.
  unfold buildRemoteCommitment. intros H Hrole Hd Hrate Hb.
  destruct (s_remoteBasepoints st) as [remote|], (s_fundingTxid st) as [txid|]; try discriminate.
  apply bind_Ok_inv in H as (keys & _ & H). apply bind_Ok_inv in H as (outs & Ho & H).
  rewrite Hrole, bool_decide_true in H by done.
  apply build_commitment_mains in H as [_ H]. apply H. clear H.
  rewrite untrimmed_count. fold output_row. apply remote_output_rows in Ho.
  rewrite (zsum_output_rows _ _ _ _ Ho), zsum_filter_row. fold (remote_untrimmed st).
  apply (funder_amount false); [done| |].
  - apply fee_nonneg; [done|apply remote_untrimmed_nonneg].
  - unfold funderCommitmentCostSats in Hb. lia.
Qed.

(** The policy's views against the builder's, entry by entry. *)
Ltac by_entry e :=
  unfold conservative_credit, sender_row, local_carries, sender_credit, conservative_row,
    local_adjust, remote_carries, remote_adjust, localCommitmentCarriesAdd,
    signedLocalCarriesRemoval, signedLocalLacksReceivedAdd, removed, open_htlc;
  destruct (e_direction e), (e_state e); cbn;
  repeat match goal with |- context [flag_false ?x] => destruct (flag_false x); cbn end;
  try done; try lia.

Lemma sender_row_local e : sender_row e = local_carries false e.
Proof. by_entry e. Qed.

Lemma sender_credit_le e : 0 <= e_amountMsat e -> sender_credit e <= (local_adjust false e).1.
Proof. intros H. by_entry e. Qed.

Lemma local_carries_conservative e : local_carries false e = true -> conservative_row e = true.
Proof. by_entry e. Qed.

Lemma remote_carries_conservative e : remote_carries e = true -> conservative_row e = true.
Proof. by_entry e. Qed.

Lemma conservative_credit_local e :
  0 <= e_amountMsat e -> conservative_credit e <= (local_adjust false e).1.
Proof. intros H. by_entry e. Qed.

Lemma conservative_credit_remote e :
  0 <= e_amountMsat e -> conservative_credit e <= (remote_adjust e).2.
Proof. intros H. by_entry e. Qed.

(** A state with one more received HTLC. *)
Section Added.
Context (adm : Admission) (msg : IUpdateAddHtlcMessage) (st : IChannelState).
Context (Hfresh : get (htlc_key RECEIVED (ua_id msg)) (s_htlcs st) = None).
Let st' := add_received_htlc adm msg st.
Let cand : list candidate := [(ua_amountMsat msg, RECEIVED)].

Lemma added_values : values (s_htlcs st') = values (s_htlcs st) ++ [received_entry adm msg st].
Proof. exact (values_set_fresh _ _ _ Hfresh). Qed.

Lemma sender_untrimmed : fv_untrimmed (funderSenderView st cand) = local_untrimmed st'.
Proof.
  unfold funderSenderView, local_untrimmed. cbn [fv_untrimmed].
  rewrite untrimmed_rows, zsum_app, !zsum_map, zsum_filter_row, added_values, zsum_app.
  f_equal. apply zsum_ext. intros e _. by rewrite sender_row_local.
Qed.

Lemma conservative_untrimmed (carries : IHtlcEntry -> bool) dust rate :
  (forall e, carries e = true -> conservative_row e = true) ->
  bigIntMin (c_dustLimitSatoshis (s_localConfig st)) (c_dustLimitSatoshis (s_remoteConfig st)) <= dust ->
  zsum (fun e => if carries e then untrimmed dust rate (isAnchorChannel (s_channelType st))
                                     (entry_row e) else 0) (values (s_htlcs st')) <=
  countUntrimmedRows st (map entry_row (List.filter conservative_row (values (s_htlcs st))) ++
                         map candidate_row cand)
    (bigIntMin (c_dustLimitSatoshis (s_localConfig st)) (c_dustLimitSatoshis (s_remoteConfig st))) rate.
Proof.
  intros Hc Hd. rewrite untrimmed_rows, zsum_app, !zsum_map, zsum_filter_row, added_values, zsum_app.
  apply Z.add_le_mono; [apply zsum_le|simpl].
  - intros e _. specialize (Hc e). destruct (carries e).
    + rewrite (Hc eq_refl). by apply untrimmed_dust.
    + destruct (conservative_row e); [apply untrimmed_bounds|done].
  - unfold candidate_row, entry_row. cbn. pose proof (untrimmed_dust _ _ rate
      (isAnchorChannel (s_channelType st)) (Z.quot (ua_amountMsat msg) 1000, RECEIVED) Hd).
    pose proof (untrimmed_bounds (bigIntMin (c_dustLimitSatoshis (s_localConfig st))
      (c_dustLimitSatoshis (s_remoteConfig st))) rate (isAnchorChannel (s_channelType st))
      (Z.quot (ua_amountMsat msg) 1000, RECEIVED)).
    destruct (carries _); lia.
Qed.

(** The floor's cost is at least the cost at either rate. *)
Lemma floor_cost rate :
  rate = getLocalCommitmentFeeRate st false \/ rate = getRemoteCommitmentFeeRate st ->
  funderCostMsat st rate (countUntrimmedRows st
    (map entry_row (List.filter conservative_row (values (s_htlcs st))) ++ map candidate_row cand)
    (bigIntMin (c_dustLimitSatoshis (s_localConfig st)) (c_dustLimitSatoshis (s_remoteConfig st))) rate)
  <= fv_costMsat (funderConservativeView st cand).
Proof.
  unfold funderConservativeView. cbv zeta. cbn [fv_feeratePerKw fv_costMsat].
  intros H. destruct (_ =? _) eqn:E; [|destruct (_ <? _) eqn:F]; cbn [fv_costMsat];
    [apply Z.eqb_eq in E; rewrite ?E in H|..]; destruct H as [-> | ->]; rewrite ?E; lia.
Qed.

Lemma floor_credit :
  fv_balanceMsat (funderConservativeView st cand) =
  zsum conservative_credit (values (s_htlcs st)).
Proof.
  unfold funderConservativeView. cbv zeta.
  destruct (_ =? _); [|destruct (_ <? _)]; cbn [fv_balanceMsat]; by rewrite fold_sum.
Qed.

Context (Hpos : Forall (fun e => 0 <= e_amountMsat e) (values (s_htlcs st))).

Lemma local_balance_ge (credit : IHtlcEntry -> Z) :
  (forall e, 0 <= e_amountMsat e -> credit e <= (local_adjust false e).1) ->
  s_localBalanceMsat st + zsum credit (values (s_htlcs st)) <= (local_balances st' false).1.
Proof.
  intros H. unfold local_balances. cbn [signedLocalRetainedRemovals fold_left].
  rewrite fold_add2. cbn [fst]. rewrite added_values, zsum_app.
  change (s_localBalanceMsat st') with (s_localBalanceMsat st).
  pose proof (zsum_le credit (fun e => (local_adjust false e).1) (values (s_htlcs st))) as Hs.
  assert ((local_adjust false (received_entry adm msg st)).1 = 0) as E by done.
  cbn [zsum]. rewrite E. assert (zsum credit (values (s_htlcs st)) <=
    zsum (fun e => (local_adjust false e).1) (values (s_htlcs st))); [|lia].
  apply Hs. intros e He. apply H. by apply (proj1 (Forall_forall _ _) Hpos).
Qed.

Lemma remote_balance_ge (credit : IHtlcEntry -> Z) :
  (forall e, 0 <= e_amountMsat e -> credit e <= (remote_adjust e).2) ->
  s_localBalanceMsat st + zsum credit (values (s_htlcs st)) <= (remote_balances st').2.
Proof.
  intros H. unfold remote_balances. rewrite fold_add2. cbn [snd]. rewrite added_values, zsum_app.
  change (s_localBalanceMsat st') with (s_localBalanceMsat st).
  pose proof (zsum_le credit (fun e => (remote_adjust e).2) (values (s_htlcs st))) as Hs.
  assert ((remote_adjust (received_entry adm msg st)).2 = 0) as E by done.
  cbn [zsum]. rewrite E. assert (zsum credit (values (s_htlcs st)) <=
    zsum (fun e => (remote_adjust e).2) (values (s_htlcs st))); [|lia].
  apply Hs. intros e He. apply H. by apply (proj1 (Forall_forall _ _) Hpos).
Qed.

End Added.

(** The three thresholds, without a splice and outside the climb-out regime. *)
Lemma verdict_cases msg st :
  s_role st = OPENER -> flag_true (s_hasBeenSpliced st) = false ->
  let cand := [(ua_amountMsat msg, RECEIVED)] in
  match funder_verdict no_splice msg st with
  | FunderAdmits => fv_costMsat (funderSenderView st cand) <=
      fv_balanceMsat (funderSenderView st cand) - c_channelReserveSatoshis (s_remoteConfig st) * 1000
  | FunderFailsBack =>
      Z.max (c_dustLimitSatoshis (s_localConfig st)) (c_dustLimitSatoshis (s_remoteConfig st)) * 1000 <=
      s_localBalanceMsat st + fv_balanceMsat (funderConservativeView st cand) -
      fv_costMsat (funderConservativeView st cand)
  | FunderRefuses => True
  end.
Proof.
  intros Hr Hs cand. unfold funder_verdict, inSplicedClimbOut. rewrite Hr, Hs. cbn [andb negb].
  rewrite andb_true_r, bigIntMax_max. fold cand.
  unfold funderHeadroomMsat, funderLiveBalanceFloorMsat. cbn [getPendingSpliceLocalBalanceMsat no_splice].
  repeat match goal with |- context [?a <? ?b] => destruct (Z.ltb_spec a b) end; try done; try lia.
Qed.

(** When we fund the channel, an inbound HTLC that handleUpdateAddHtlc
    takes leaves our output in the commitment we hold next: the fee the HTLC adds
    never eats it.  One that is only taken to be failed back leaves it in the peer's
    next commitment as well. *)
Theorem funder_output_survives stfu height msg st st'
    (Htaken : handleUpdateAddHtlc stfu height msg st = (st', Ok []))
    (Hfresh : get (htlc_key RECEIVED (ua_id msg)) (s_htlcs st) = None)
    (Hrole : s_role st = OPENER) (Hspliced : flag_true (s_hasBeenSpliced st) = false)
    (Hpos : Forall (fun e => 0 <= e_amountMsat e) (values (s_htlcs st)))
    (Hlocal : 0 <= c_dustLimitSatoshis (s_localConfig st) <= c_channelReserveSatoshis (s_remoteConfig st))
    (Hremote : 0 <= c_dustLimitSatoshis (s_remoteConfig st))
    (Hrate : 0 <= getLocalCommitmentFeeRate st false) (Hrate' : 0 <= getRemoteCommitmentFeeRate st) :
  (forall point n r, buildLocalCommitment st' point n false = Ok r ->
     is_Some (om_toLocal (r_outputMap (b_result r)))) /\
  (forall e, get (htlc_key RECEIVED (ua_id msg)) (s_htlcs st') = Some e ->
     e_funderFeeFailback e = Some true ->
     forall point n r, buildRemoteCommitment st' point n = Ok r ->
       is_Some (om_toRemote (r_outputMap (b_result r)))).
Proof.
  destruct (add_taken _ _ _ _ _ Htaken Hfresh) as (adm & Hok & ->).
  pose proof (verdict_cases msg st Hrole Hspliced) as Hv. cbv zeta in Hv.
  pose proof (ib_failback _ _ _ _ _ Hok) as Hfb. pose proof (ib_funder _ _ _ _ _ Hok) as Hnr.
  clear Hok Htaken. set (st' := add_received_htlc adm msg st).
  pose proof (local_balance_ge adm msg st Hfresh Hpos sender_credit sender_credit_le) as Hb1.
  pose proof (local_balance_ge adm msg st Hfresh Hpos conservative_credit conservative_credit_local) as Hb2.
  pose proof (remote_balance_ge adm msg st Hfresh Hpos conservative_credit conservative_credit_remote) as Hb3.
  pose proof (floor_cost msg st _ (or_introl eq_refl)) as Hf1.
  pose proof (floor_cost msg st _ (or_intror eq_refl)) as Hf2.
  rewrite floor_credit in Hv. fold st' in Hb1, Hb2, Hb3. split.
  - intros point n r Hbuilt. apply (local_output_present st' point n r Hbuilt); try done; [exact (proj1 Hlocal)|].
    change (s_localConfig st') with (s_localConfig st).
    change (s_channelType st') with (s_channelType st).
    change (getLocalCommitmentFeeRate st' false) with (getLocalCommitmentFeeRate st false).
    destruct (funder_verdict no_splice msg st); [..|done].
    + unfold funderSenderView in Hv at 1 2. cbn [fv_costMsat fv_balanceMsat] in Hv.
      rewrite fold_sum in Hv. pose proof (sender_untrimmed adm msg st Hfresh) as Hu.
      unfold funderSenderView in Hu. cbn [fv_untrimmed] in Hu. rewrite Hu in Hv.
      fold st' in Hv. unfold funderCostMsat in Hv. lia.
    + pose proof (conservative_untrimmed adm msg st Hfresh (local_carries false)
        (c_dustLimitSatoshis (s_localConfig st)) (getLocalCommitmentFeeRate st false)
        local_carries_conservative) as Hu. fold st' in Hu. rewrite bigIntMin_min in *.
      pose proof (cost_mono (getLocalCommitmentFeeRate st false) (getLocalCommitmentFeeRate st false)
        (local_untrimmed st') _ (s_channelType st) ltac:(lia)
        (conj (local_untrimmed_nonneg st') (Hu ltac:(lia)))) as Hc.
      unfold funderCostMsat in Hf1. lia.
  - intros e He Hstamp point n r Hbuilt.
    assert (e = received_entry adm msg st) as ->.
    { change (s_htlcs st') with (set (htlc_key RECEIVED (ua_id msg)) (received_entry adm msg st)
        (s_htlcs st)) in He. rewrite get_set, decide_True in He by done. congruence. }
    cbn in Hstamp. rewrite Hfb in Hstamp.
    destruct (funder_verdict no_splice msg st) eqn:Ev; try discriminate.
    apply (remote_output_present st' point n r Hbuilt); try done.
    change (s_remoteConfig st') with (s_remoteConfig st).
    change (s_channelType st') with (s_channelType st).
    change (getRemoteCommitmentFeeRate st') with (getRemoteCommitmentFeeRate st).
    pose proof (conservative_untrimmed adm msg st Hfresh remote_carries
      (c_dustLimitSatoshis (s_remoteConfig st)) (getRemoteCommitmentFeeRate st)
      remote_carries_conservative) as Hu. fold st' in Hu. rewrite bigIntMin_min in *.
    pose proof (cost_mono (getRemoteCommitmentFeeRate st) (getRemoteCommitmentFeeRate st)
      (remote_untrimmed st') _ (s_channelType st) ltac:(lia)
      (conj (remote_untrimmed_nonneg st') (Hu ltac:(lia)))) as Hc.
    unfold funderCostMsat in Hf2. lia.
Qed.

End Output.

(** ** Concrete inputs *)

Definition bounds_state (role : ChannelRole) : IChannelState :=
  demo_state role anchors_type 600000000 400000000 [demo_entry RECEIVED 3 50000000].

Definition bounds_msg : IUpdateAddHtlcMessage :=
  {| ua_channelId := replicate 32 x01; ua_id := 4; ua_amountMsat := 20000000;
     ua_paymentHash := alloc 32; ua_cltvExpiry := 800000; ua_onionRoutingPacket := [];
     ua_blindingPoint := None; ua_skimmedFeeMsat := None |}.

Definition bounds_offer : outcome :=
  addHtlc (L := demo_lib) false 700000 20000000 (alloc 32) 800000 [] None None (bounds_state OPENER).

Definition bounds_take : outcome :=
  handleUpdateAddHtlc (L := demo_lib) false 700000 bounds_msg (bounds_state OPENER).

Lemma offered_add_within_limits_witness :
  countPendingHtlcs bounds_offer.1 OFFERED <= 483 /\ s_localBalanceMsat bounds_offer.1 = 580000000.
Proof.
  split; [|vm_compute; reflexivity].
  refine (proj1 (offered_add_within_limits (L := demo_lib) false 700000 20000000 (alloc 32) 800000
    [] None None (bounds_state OPENER) bounds_offer.1
    [PERSIST_STATE; SEND_MESSAGE (UPDATE_ADD {| ua_channelId := replicate 32 x01; ua_id := 0;
       ua_amountMsat := 20000000; ua_paymentHash := alloc 32; ua_cltvExpiry := 800000;
       ua_onionRoutingPacket := []; ua_blindingPoint := None; ua_skimmedFeeMsat := None |})]
    _ _ (or_intror (or_introl eq_refl)) _ _)); vm_compute; reflexivity.
Defined.

Lemma received_add_within_limits_witness :
  countPendingHtlcs bounds_take.1 RECEIVED <= 483 /\ s_remoteBalanceMsat bounds_take.1 = 380000000.
Proof.
  split; [|vm_compute; reflexivity].
  refine (proj1 (received_add_within_limits (L := demo_lib) false 700000 bounds_msg
    (bounds_state OPENER) bounds_take.1 _ _)); vm_compute; reflexivity.
Defined.

Definition bounds_built : result IBuiltCommitment :=
  buildLocalCommitment (L := demo_lib) bounds_take.1 demo_point (Some 1) false.

Lemma funder_output_survives_witness :
  match bounds_built with
  | Ok r => is_Some (om_toLocal (r_outputMap (b_result r)))
  | Err _ => False
  end.
Proof.
  destruct bounds_built as [r|] eqn:E; [|vm_compute in E; discriminate E]. revert r E.
  refine (proj1 (funder_output_survives (L := demo_lib) false 700000 bounds_msg
    (bounds_state OPENER) bounds_take.1 _ _ _ _ _ _ _ _ _) demo_point (Some 1)).
  1-4: vm_compute; reflexivity.
  - repeat constructor; vm_compute; discriminate.
  - split; vm_compute; discriminate.
  - vm_compute; discriminate.
  - vm_compute; discriminate.
  - vm_compute; discriminate.
Defined.
