(* ===== verification/HtlcMirror.v ===== *)
(** * The two sides' policies against each other

    The ceiling and the refusal it folds in agree; on a settled channel what one
    side may send the other takes; the reserve enforced on a peer is one it keeps;
    a channel without pending updates has two commitments that say what the state
    says.  And where the code does not do what it says: a set of HTLCs judged
    together may be placed in part. *)

From S2P Require Import Prelude Buffer JsMap ShaChain CommitmentTx Scripts WireUpdate.
From S2P Require Import ChannelTypes CommitmentBuilder HtlcPolicy HtlcAdmission Channel HtlcBounds.
From Stdlib Require Import Strings.Byte Sorting.Permutation.
Local Open Scope Z_scope.

(** ** Reserves *)

(** The reserve we enforce on a peer of a dual-funded channel never exceeds
    what that peer keeps by its own rule, whichever side's dust limit is larger, and is
    never above the reserve either published rule gives; what we keep is above both
    dust limits and above what the peer enforces on us. *)
Theorem reserves_ordered funding ours theirs (Hf : 0 <= funding) :
  v2ReserveWeEnforce funding ours theirs <= v2ReserveWeKeep funding theirs ours /\
  v2ReserveWeEnforce funding ours theirs <= Z.max (Z.quot funding 100) ours /\
  v2ReserveWeEnforce funding ours theirs <= Z.max (Z.quot funding 100) theirs /\
  Z.max ours theirs <= v2ReserveWeKeep funding ours theirs /\
  Z.max (Z.quot funding 100) theirs <= v2ReserveWeKeep funding ours theirs /\
  0 <= computeChannelReserve funding ours <= Z.quot funding 5.
Proof.
  unfold v2ReserveWeEnforce, v2ReserveWeKeep, computeChannelReserve, MIN_CHANNEL_RESERVE_SATOSHIS.
  rewrite !bigIntMax_max, bigIntMin_min. pose proof (Z.quot_pos funding 5 ltac:(lia) ltac:(lia)).
  assert (forall x y, (if x <? y then y else x) = Z.max x y) as E1
    by (intros; destruct (Z.ltb_spec x y); lia).
  assert (forall x y, (if x <? y then x else y) = Z.min x y) as E2
    by (intros; destruct (Z.ltb_spec x y); lia).
  cbv zeta. rewrite !E1, E2. split_and!; lia.
Qed.

(** ** The ceiling *)

Lemma remote_view_cost st cands slots :
  fv_costMsat (remoteFunderSenderView st cands slots) =
  funderCostMsat st (getRemoteCommitmentFeeRate st) (fv_untrimmed (remoteFunderSenderView st cands slots)).
Proof. done. Qed.

(** The funder's untrimmed HTLCs as they stand. *)
Definition funder_rows (st : IChannelState) : Z :=
  fv_untrimmed (remoteFunderSenderView st [] 0).

Lemma funder_rows_nonneg st : 0 <= funder_rows st.
Proof.
  unfold funder_rows, remoteFunderSenderView. cbn [fv_untrimmed map].
  rewrite !untrimmed_rows. cbn [zsum]. rewrite Z.ltb_irrefl, !Z.add_0_r.
  apply zsum_nonneg. intros x. apply untrimmed_bounds.
Qed.

(** One more offered HTLC, with its spare slot. *)
Lemma remote_view_one st amount :
  let u := untrimmed (c_dustLimitSatoshis (s_remoteConfig st)) (getRemoteCommitmentFeeRate st)
             (isAnchorChannel (s_channelType st)) (Z.quot amount 1000, RECEIVED) in
  fv_untrimmed (remoteFunderSenderView st [(amount, OFFERED)] 1) = funder_rows st + u * 2.
Proof.
  unfold funder_rows, remoteFunderSenderView. cbn [fv_untrimmed map].
  rewrite !untrimmed_rows. cbn. rewrite !Z.add_0_r.
  unfold untrimmed. cbn [fst snd]. destruct (_ <=? _); simpl; lia.
Qed.

(** An amount within the outbound ceiling is one the refusal admits, so
    the router is never shown room for an HTLC that the channel then refuses for the
    funder's fee. *)
Theorem ceiling_never_refused st splice spendable amount
    (Hpos : 0 < amount) (Hrate : 0 <= getRemoteCommitmentFeeRate st)
    (Hceiling : amount <= remoteFunderCeilingMsat st splice spendable) :
  remoteFunderFeeRefusal st splice [amount] = None.
Proof.
  unfold remoteFunderFeeRefusal. unfold remoteFunderCeilingMsat in Hceiling.
  destruct (bool_decide (s_role st = ACCEPTOR)); [|done]. cbn [negb map] in *. cbv zeta in *.
  change (fv_balanceMsat (remoteFunderSenderView st [] 0)) with
    (fv_balanceMsat (remoteFunderSenderView st [(amount, OFFERED)] 1)) in Hceiling.
  set (headroom := remoteFunderHeadroomMsat st splice _) in *.
  rewrite remote_view_cost, remote_view_one in *. fold (funder_rows st) in Hceiling.
  change (fv_feeratePerKw (remoteFunderSenderView st [] 0)) with (getRemoteCommitmentFeeRate st) in Hceiling.
  set (rate := getRemoteCommitmentFeeRate st) in *.
  set (u := untrimmed _ _ _ _). pose proof (untrimmed_bounds (c_dustLimitSatoshis (s_remoteConfig st)) rate
    (isAnchorChannel (s_channelType st)) (Z.quot amount 1000, RECEIVED)) as Hu. fold u in Hu.
  pose proof (funder_rows_nonneg st) as Hr.
  destruct (Z.leb_spec (funderCostMsat st rate (funder_rows st + u * 2)) headroom) as [|Hover]; [done|].
  exfalso. unfold funderCostMsat in *.
  pose proof (cost_mono rate rate (funder_rows st + u * 2) (funder_rows st + 2) (s_channelType st)
    ltac:(lia) ltac:(lia)).
  destruct (Z.leb_spec (funderCommitmentCostSats rate (funder_rows st + 2) (s_channelType st) * 1000)
    headroom); [lia|].
  destruct (Z.ltb_spec headroom (funderCommitmentCostSats rate (funder_rows st) (s_channelType st) * 1000));
    [lia|].
  assert (u = 0) as E; [|rewrite E, Z.add_0_r in *; lia].
  unfold u, untrimmed, second_level_fee. cbn [fst snd].
  set (fee := if isAnchorChannel _ then 0 else _) in *.
  destruct (Z.leb_spec (c_dustLimitSatoshis (s_remoteConfig st) + fee) (Z.quot amount 1000)); [|done].
  rewrite Z.quot_div_nonneg in * by lia. pose proof (Z.mul_div_le amount 1000 ltac:(lia)).
  destruct (_ <? spendable) eqn:Es; lia.
Qed.

(** ** A settled channel *)

(** An HTLC both sides have committed and neither has settled. *)
Definition settled_entry (e : IHtlcEntry) : Prop :=
  e_state e = COMMITTED /\ flag_false (e_addRemoteCommitted e) = false /\
  flag_false (e_addLocallyRevoked e) = false /\
  flag_false (e_removalRemoteCommitted e) = false /\
  flag_false (e_removalLocallyRevoked e) = false.

(** One side's limits as the other holds them.  The reserve is apart: what a side keeps and
    what its peer enforces on it are derived apart on a dual-funded channel. *)
Definition same_limits (c c' : IChannelConfig) : Prop :=
  c_dustLimitSatoshis c = c_dustLimitSatoshis c' /\
  c_maxHtlcValueInFlightMsat c = c_maxHtlcValueInFlightMsat c' /\
  c_htlcMinimumMsat c = c_htlcMinimumMsat c' /\ c_maxAcceptedHtlcs c = c_maxAcceptedHtlcs c'.

(** Two settled states of one channel, seen from its two ends: the same terms, balances,
    fee rates and HTLCs, every HTLC committed on both sides. *)
Record settled_pair (a b : IChannelState) : Prop := {
  sp_role : s_role a <> s_role b;
  sp_type : s_channelType a = s_channelType b;
  sp_config : same_limits (s_remoteConfig a) (s_localConfig b);
  sp_config' : same_limits (s_localConfig a) (s_remoteConfig b);
  sp_balance : s_localBalanceMsat a = s_remoteBalanceMsat b;
  sp_balance' : s_remoteBalanceMsat a = s_localBalanceMsat b;
  sp_rate : getRemoteCommitmentFeeRate a = getLocalCommitmentFeeRate b false;
  sp_rate' : getLocalCommitmentFeeRate a false = getRemoteCommitmentFeeRate b;
  sp_rate'' : getCommitmentFeeRate a false = getCommitmentFeeRate b false;
  sp_positive : 0 <= getRemoteCommitmentFeeRate a /\ 0 <= getLocalCommitmentFeeRate a false;
  sp_settled_a : Forall settled_entry (values (s_htlcs a));
  sp_settled_b : Forall settled_entry (values (s_htlcs b));
  sp_htlcs : Permutation (map local_terms (values (s_htlcs a)))
                         (map remote_terms (values (s_htlcs b)))
}.

(** The channel was never spliced and no reserve of it is waived. *)
Definition plain_channel (a b : IChannelState) : Prop :=
  s_spliceInFlight a = None /\ flag_true (s_hasBeenSpliced b) = false /\
  flag_true (s_localReserveWaived a) = false /\ flag_true (s_remoteReserveWaived a) = false /\
  flag_true (s_localReserveWaived b) = false /\ flag_true (s_remoteReserveWaived b) = false.

(** The reserves of the two books when [a] sends: [b] enforces on [a] no more than [a] keeps,
    and at least its own dust limit; when [b] funds, [a] reckons with all that [b] keeps. *)
Definition reserves_agree (a b : IChannelState) : Prop :=
  c_dustLimitSatoshis (s_localConfig b) <= c_channelReserveSatoshis (s_localConfig b)
    <= c_channelReserveSatoshis (s_remoteConfig a) /\
  (s_role b = OPENER -> c_channelReserveSatoshis (s_remoteConfig b) <= c_channelReserveSatoshis (s_localConfig a)).

(** A sum over one side's entries is the mirrored sum over the other's. *)
Lemma settled_sum a b (f g : IHtlcEntry -> Z) (h : HtlcTerms -> Z) :
  settled_pair a b ->
  (forall e, settled_entry e -> f e = h (local_terms e)) ->
  (forall e, settled_entry e -> g e = h (remote_terms e)) ->
  zsum f (values (s_htlcs a)) = zsum g (values (s_htlcs b)).
Proof.
  intros S Hf Hg. rewrite (zsum_ext f (fun e => h (local_terms e))).
  - rewrite <- (zsum_map h local_terms), (zsum_perm _ _ _ (sp_htlcs _ _ S)), zsum_map.
    apply zsum_ext. intros e He. symmetry. apply Hg.
    by apply (proj1 (Forall_forall _ _) (sp_settled_b _ _ S)).
  - intros e He. apply Hf. by apply (proj1 (Forall_forall _ _) (sp_settled_a _ _ S)).
Qed.

Ltac by_settled :=
  intros e (E1 & E2 & E3 & E4 & E5);
  unfold pending_in, sender_row, funder_row, sender_credit, funder_credit, entry_row, onFunder,
    local_terms, remote_terms, open_htlc;
  rewrite ?E1, ?E2, ?E3, ?E4, ?E5; cbn [fst snd]; destruct (e_direction e); cbn;
  repeat case_bool_decide; try done; try congruence.

Lemma settled_count a b : settled_pair a b -> countPendingHtlcs a OFFERED = countPendingHtlcs b RECEIVED.
Proof.
  intros S. unfold countPendingHtlcs. rewrite !count_htlcs_sum.
  apply (settled_sum a b _ _ (fun t => if bool_decide (t.1.1.1 = OFFERED) then 1 else 0) S); by_settled.
Qed.

Lemma settled_value a b : settled_pair a b -> totalInFlightMsat a OFFERED = totalInFlightMsat b RECEIVED.
Proof.
  intros S. unfold totalInFlightMsat. rewrite !total_msat_sum.
  apply (settled_sum a b _ _ (fun t => if bool_decide (t.1.1.1 = OFFERED) then t.1.1.2 else 0) S);
    by_settled.
Qed.

Lemma settled_dust a b amount : settled_pair a b -> isDustHtlc a amount = isDustHtlc b amount.
Proof.
  intros S. unfold isDustHtlc, isDustHtlcAtRate.
  rewrite (proj1 (sp_config _ _ S)), (proj1 (sp_config' _ _ S)), (sp_type _ _ S), (sp_rate'' _ _ S).
  assert (forall x y : Z, (if x <? y then y else x) = (if y <? x then x else y)) as E
    by (intros; destruct (x <? y) eqn:?, (y <? x) eqn:?; lia).
  by rewrite E.
Qed.

Lemma settled_exposure a b : settled_pair a b -> dustExposureMsat a = dustExposureMsat b.
Proof.
  intros S. unfold dustExposureMsat, dustExposureAtRateMsat. rewrite !total_msat_sum.
  apply (settled_sum a b _ _ (fun t => if isDustHtlc b t.1.1.2 then t.1.1.2 else 0) S);
    intros e He; assert (open_htlc e = true) as Ho by (unfold open_htlc; rewrite (proj1 He); done);
    rewrite Ho; cbn [andb fst snd local_terms remote_terms]; [|done].
  fold (isDustHtlc a (e_amountMsat e)). by rewrite (settled_dust a b).
Qed.

Lemma settled_over_dust a b amount : settled_pair a b -> over_dust_exposure a amount = over_dust_exposure b amount.
Proof.
  intros S. unfold over_dust_exposure. by rewrite (settled_dust a b), (settled_exposure a b).
Qed.

(** The funder's view of its commitment, read from either end. *)
Lemma settled_views a b amount :
  settled_pair a b ->
  fv_balanceMsat (funderSenderView b [(amount, RECEIVED)]) =
    fv_balanceMsat (remoteFunderSenderView a [(amount, OFFERED)] 1) /\
  fv_costMsat (funderSenderView b [(amount, RECEIVED)]) <=
    fv_costMsat (remoteFunderSenderView a [(amount, OFFERED)] 1).
Proof.
  intros S. split.
  - unfold funderSenderView, remoteFunderSenderView. cbn [fv_balanceMsat].
    rewrite !fold_sum, (sp_balance' _ _ S). f_equal. symmetry.
    apply (settled_sum a b _ _ (fun _ => 0) S); by_settled.
  - rewrite remote_view_cost, remote_view_one. unfold funderSenderView. cbn [fv_costMsat].
    unfold funderCostMsat. rewrite (sp_rate _ _ S), (sp_type _ _ S), (proj1 (sp_config _ _ S)).
    apply Z.mul_le_mono_nonneg_r; [lia|]. pose proof (sp_positive _ _ S) as [Hr _].
    rewrite (sp_rate _ _ S) in Hr. apply cost_mono; [lia|]. rewrite untrimmed_rows. split.
    { apply zsum_nonneg. intros. apply untrimmed_bounds. }
    rewrite zsum_app. cbn [map zsum candidate_row fst snd].
    change (candidate_row (amount, RECEIVED)) with (Z.quot amount 1000, RECEIVED).
    pose proof (untrimmed_bounds (c_dustLimitSatoshis (s_localConfig b))
      (getLocalCommitmentFeeRate b false) (isAnchorChannel (s_channelType b))
      (Z.quot amount 1000, RECEIVED)).
    enough (zsum (untrimmed (c_dustLimitSatoshis (s_localConfig b)) (getLocalCommitmentFeeRate b false)
      (isAnchorChannel (s_channelType b))) (map entry_row (List.filter sender_row (values (s_htlcs b)))) =
      funder_rows a) by lia.
    unfold funder_rows, remoteFunderSenderView. cbn [fv_untrimmed map].
    rewrite !untrimmed_rows. cbn [zsum]. rewrite Z.ltb_irrefl, !Z.add_0_r.
    rewrite !zsum_map, !zsum_filter_row, (sp_rate _ _ S), (sp_type _ _ S), (proj1 (sp_config _ _ S)).
    symmetry. apply (settled_sum a b _ _ (fun t => untrimmed (c_dustLimitSatoshis (s_localConfig b))
      (getLocalCommitmentFeeRate b false) (isAnchorChannel (s_channelType b))
      (Z.quot t.1.1.2 1000, flip_direction t.1.1.1)) S); by_settled.
Qed.

(** What a funder keeps back covers what the peer asks of it. *)
Lemma settled_required a b msg :
  settled_pair a b -> flag_true (s_localReserveWaived a) = false ->
  c_channelReserveSatoshis (s_localConfig b) <= c_channelReserveSatoshis (s_remoteConfig a) -> 0 < ua_amountMsat msg ->
  ua_amountMsat msg <= getSpendableOutboundMsat no_splice a ->
  remote_required msg b <= s_remoteBalanceMsat b - ua_amountMsat msg.
Proof.
  intros S Hw Hres Hp Hs. apply own_le_live, spendable_kept in Hs; [|done|done]. rewrite Hw in Hs.
  rewrite <- (sp_balance _ _ S). unfold remote_required. rewrite bigIntMax_max.
  pose proof (sp_role _ _ S). destruct (s_role a), (s_role b); try done; [|lia].
  destruct (sp_positive _ _ S) as [Hr Hl]. unfold remoteFunderLocalCostMsat, funderCostMsat.
  rewrite <- (sp_rate _ _ S), <- (sp_rate' _ _ S), <- (sp_type _ _ S).
  set (cost := funderCommitmentCostSats (_ * 2) _ _) in Hs.
  assert (forall rate, 0 <= rate <= Z.max (getLocalCommitmentFeeRate a false) (getRemoteCommitmentFeeRate a) ->
    funderCommitmentCostSats rate (countUntrimmedRows b
      (map entry_row (List.filter open_htlc (values (s_htlcs b))) ++
       map candidate_row [(ua_amountMsat msg, RECEIVED)]) (c_dustLimitSatoshis (s_localConfig b)) rate)
      (s_channelType a) <= cost) as Hc.
  { intros rate Hrate. apply cost_mono; [lia|]. rewrite untrimmed_rows. split.
    { apply zsum_nonneg. intros. apply untrimmed_bounds. }
    rewrite zsum_app, zsum_map, zsum_filter_row. cbn [map zsum].
    pose proof (untrimmed_bounds (c_dustLimitSatoshis (s_localConfig b)) rate
      (isAnchorChannel (s_channelType b)) (candidate_row (ua_amountMsat msg, RECEIVED))).
    assert (zsum (fun e => if open_htlc e then untrimmed (c_dustLimitSatoshis (s_localConfig b)) rate
      (isAnchorChannel (s_channelType b)) (entry_row e) else 0) (values (s_htlcs b)) <= countActiveHtlcs a);
      [|lia].
    unfold countActiveHtlcs. rewrite count_htlcs_sum.
    rewrite (settled_sum a b _ (fun e => if open_htlc e then 1 else 0) (fun _ => 1) S); [|by_settled..].
    apply zsum_le. intros e _. destruct (open_htlc e); [apply untrimmed_bounds|done]. }
  pose proof (Hc (getLocalCommitmentFeeRate a false) ltac:(lia)).
  pose proof (Hc (getRemoteCommitmentFeeRate a) ltac:(lia)). lia.
Qed.

Lemma settled_verdict a b msg :
  settled_pair a b -> s_spliceInFlight a = None -> flag_true (s_hasBeenSpliced b) = false ->
  (s_role b = OPENER -> c_channelReserveSatoshis (s_remoteConfig b) <= c_channelReserveSatoshis (s_localConfig a)) ->
  remoteFunderFeeRefusal a no_splice [ua_amountMsat msg] = None ->
  funder_verdict no_splice msg b = FunderAdmits.
Proof.
  intros S Hsp Hbeen Hkeep Hf. pose proof (settled_views a b (ua_amountMsat msg) S) as [Hb Hc].
  unfold funder_verdict. destruct (s_role b) eqn:Eb; [|done].
  unfold remoteFunderFeeRefusal in Hf.
  assert (s_role a = ACCEPTOR) as Ea by (pose proof (sp_role _ _ S); destruct (s_role a); congruence).
  rewrite bool_decide_true in Hf by done. cbn [negb map] in Hf. cbv zeta.
  specialize (Hkeep eq_refl). unfold inSplicedClimbOut. rewrite Hbeen. cbn [andb negb]. rewrite andb_true_r.
  unfold funderHeadroomMsat. cbn [getPendingSpliceLocalBalanceMsat no_splice].
  unfold remoteFunderHeadroomMsat in Hf. rewrite Hsp in Hf.
  destruct (Z.leb_spec (fv_costMsat (remoteFunderSenderView a [(ua_amountMsat msg, OFFERED)] 1))
    (fv_balanceMsat (remoteFunderSenderView a [(ua_amountMsat msg, OFFERED)] 1) -
     c_channelReserveSatoshis (s_localConfig a) * 1000)); [|discriminate].
  rewrite (proj2 (Z.ltb_ge _ _)); [done|]. lia.
Qed.

Section Settled.
Context `{L : BitcoinLib}.


End Settled.

(** ** A channel with nothing pending *)

(** When hasPendingHtlcs finds nothing, which is when a stfu may be sent, every
    HTLC of the state is committed at both ends and is in both next commitments, and
    the balances of both are the ones the state holds. *)
Theorem quiet_commitments st (Hquiet : hasPendingHtlcs st = false) :
  Forall settled_entry (values (s_htlcs st)) /\
  Forall (fun e => local_carries false e = true /\ remote_carries e = true) (values (s_htlcs st)) /\
  local_balances st false = (s_localBalanceMsat st, s_remoteBalanceMsat st) /\
  remote_balances st = (s_remoteBalanceMsat st, s_localBalanceMsat st).
Proof.
  apply orb_false_iff in Hquiet as [_ Hq].
  assert (Forall settled_entry (values (s_htlcs st))) as Hs.
  { apply Forall_forall. intros e He. assert (update_pending e = false) as Hp.
    { apply not_true_is_false. intros Ht. rewrite <- not_true_iff_false in Hq. apply Hq.
      apply existsb_exists. exists e. by rewrite <- list_elem_of_In. }
    unfold update_pending, removed in Hp. rewrite !orb_false_iff in Hp.
    destruct Hp as ((((((H1 & H2 & H3) & H4) & H5) & H6) & H7) & H8).
    split_and!; try done. destruct (e_state e); done. }
  assert (forall e, settled_entry e -> local_carries false e = true /\ remote_carries e = true /\
            local_adjust false e = (0, 0) /\ remote_adjust e = (0, 0)) as He.
  { intros e (E1 & E2 & E3 & E4 & E5).
    unfold local_carries, remote_carries, local_adjust, remote_adjust, removed,
      signedLocalLacksReceivedAdd, signedLocalCarriesRemoval, localCommitmentCarriesAdd.
    rewrite E1, E2, E3. by destruct (e_direction e). }
  rewrite Forall_forall in Hs. split; [by apply Forall_forall|]. split.
  { apply Forall_forall. intros e Hin. split; apply He; auto. }
  unfold local_balances, remote_balances. cbn [signedLocalRetainedRemovals fold_left].
  rewrite !fold_add2. cbn [fst snd].
  assert (forall f : IHtlcEntry -> Z, (forall e, settled_entry e -> f e = 0) ->
    zsum f (values (s_htlcs st)) = 0) as Hz.
  { intros f Hf. rewrite (zsum_ext _ (fun _ => 0)); [clear; by induction (values (s_htlcs st))|].
    intros e Hin. auto. }
  rewrite !Hz by (intros e Hse; destruct (He e Hse) as (_ & _ & H1 & H2); by rewrite ?H1, ?H2).
  by rewrite !Z.add_0_r.
Qed.

(** ** The set of HTLCs that does not fit *)

Definition set_state_demo : IChannelState := demo_state OPENER anchors_type 600000000 400000000 [].

Definition set_first (amount : Z) : outcome :=
  addHtlc (L := demo_lib) false 0 amount (alloc 32) 800000 [] None None set_state_demo.

(** CanOfferHtlcSet, which promises that a set of HTLCs is placed whole or
    not at all, answers yes to a set whose second HTLC addHtlc then refuses: the
    opener's ceiling prices one HTLC beyond those in the map, not one per member. *)
Theorem offer_set_not_atomic :
  exists st first second st' m,
    canOfferHtlcSet no_splice false [first; second] st = true /\
    addHtlc (L := demo_lib) false 0 first (alloc 32) 800000 [] None None st =
      (st', Ok [PERSIST_STATE; SEND_MESSAGE m]) /\
    addHtlc (L := demo_lib) false 0 second (alloc 32) 800000 [] None None st' =
      (st', Ok [ERROR "Insufficient balance for HTLC"]).
Proof.
  exists set_state_demo, 382000000, 200000000, (set_first 382000000).1,
    (UPDATE_ADD {| ua_channelId := replicate 32 x01; ua_id := 0; ua_amountMsat := 382000000;
       ua_paymentHash := alloc 32; ua_cltvExpiry := 800000; ua_onionRoutingPacket := [];
       ua_blindingPoint := None; ua_skimmedFeeMsat := None |}).
  split_and!; vm_compute; reflexivity.
Qed.

(** ** Concrete inputs *)

Lemma reserves_ordered_witness : v2ReserveWeEnforce 1000000 354 546 <= v2ReserveWeKeep 1000000 546 354.
Proof. exact (proj1 (reserves_ordered 1000000 354 546 ltac:(lia))). Defined.

Definition settled_acceptor : IChannelState :=
  demo_state ACCEPTOR anchors_type 400000000 550000000 [demo_entry RECEIVED 3 50000000].
Definition settled_opener : IChannelState :=
  demo_state OPENER anchors_type 550000000 400000000 [demo_entry OFFERED 3 50000000].

Lemma ceiling_never_refused_witness :
  remoteFunderFeeRefusal settled_acceptor no_splice [20000000] = None.
Proof.
  apply (ceiling_never_refused settled_acceptor no_splice 390000000 20000000); vm_compute;
    solve [reflexivity | discriminate].
Defined.

Lemma demo_settled_pair : settled_pair settled_acceptor settled_opener.
Proof.
  constructor; try reflexivity; try (split_and!; vm_compute; done); try (vm_compute; discriminate);
    repeat constructor.
Qed.

Definition mirror_msg : IUpdateAddHtlcMessage :=
  {| ua_channelId := replicate 32 x01; ua_id := 0; ua_amountMsat := 20000000;
     ua_paymentHash := alloc 32; ua_cltvExpiry := 800000; ua_onionRoutingPacket := [];
     ua_blindingPoint := None; ua_skimmedFeeMsat := None |}.


(** A dual-funded channel of 30,000 sat whose dust limits are 546 and 354 sat: each side keeps
    546 sat and enforces 354. *)
Definition v2_config (dust reserve : Z) : IChannelConfig :=
  {| c_dustLimitSatoshis := dust; c_maxHtlcValueInFlightMsat := 100000000; c_channelReserveSatoshis := reserve;
     c_htlcMinimumMsat := 1; c_toSelfDelay := 144; c_maxAcceptedHtlcs := 483; c_feeratePerKw := 253 |}.

Definition v2_acceptor : IChannelState :=
  set_remoteConfig (v2_config 354 (v2ReserveWeKeep 30000 546 354))
    (set_localConfig (v2_config 546 (v2ReserveWeEnforce 30000 546 354))
      (demo_state ACCEPTOR anchors_type 28550000 1450000 [])).

Definition v2_opener : IChannelState :=
  set_remoteConfig (v2_config 546 (v2ReserveWeKeep 30000 354 546))
    (set_localConfig (v2_config 354 (v2ReserveWeEnforce 30000 354 546))
      (demo_state OPENER anchors_type 1450000 28550000 [])).

Definition v2_msg : IUpdateAddHtlcMessage :=
  {| ua_channelId := replicate 32 x01; ua_id := 0; ua_amountMsat := 2000000;
     ua_paymentHash := alloc 32; ua_cltvExpiry := 800000; ua_onionRoutingPacket := [];
     ua_blindingPoint := None; ua_skimmedFeeMsat := None |}.

(** There the sender's check is not the mirror of the funder's: remoteFunderHeadroomMsat reckons
    with the reserve the sender enforces, 354 sat, where the funder keeps 546, so an HTLC is let
    out that the funder answers by failing the channel. *)
Lemma v2_reserves_refused : settled_pair v2_acceptor v2_opener /\ plain_channel v2_acceptor v2_opener /\
  validateOutgoingHtlc (L := demo_lib) no_splice false 700000 (ua_amountMsat v2_msg) (ua_cltvExpiry v2_msg) v2_acceptor = Ok None /\
  admitInbound (L := demo_lib) no_splice 700000 v2_msg v2_opener =
    Ok (refused "Cannot afford commitment fee for inbound HTLC above channel reserve").
Proof.
  split; [|split; [unfold plain_channel|]; split_and!; vm_compute; reflexivity].
  constructor; try reflexivity; try (split_and!; vm_compute; done); try (vm_compute; discriminate); repeat constructor.
Qed.

Lemma quiet_commitments_witness : remote_balances settled_opener = (400000000, 550000000).
Proof. exact (proj2 (proj2 (proj2 (quiet_commitments settled_opener eq_refl)))). Defined.
