(* ===== verification/ChannelFee.v ===== *)
(** * Fee and lease height updates (src/src/lightning/channel/channel.ts)

    updateFee, handleUpdateFee and handleUpdateBlockheight, for a channel without a
    splice in flight and without an FFOR epoch.  The new value is staged; signing,
    the peer's commitment_signed and the peer's revoke_and_ack move it on
    ([sign_fee], [accept_fee] and [promote_fee] of Channel.v). *)

From S2P Require Import Prelude Buffer CommitmentTx Scripts JsMap ShaChain.
From S2P Require Import WireBasic WireUpdate ChannelTypes CommitmentBuilder.
From S2P Require Import HtlcPolicy HtlcAdmission Channel HtlcBounds.
From Stdlib Require Import Strings.Byte.
Local Open Scope Z_scope.

(** The three fields of a staged rate, as both sides write them. *)
Definition stage_fee (feeratePerKw : Z) (st : IChannelState) : IChannelState :=
  set_pendingFeerateCommitted (Some false)
    (set_pendingFeerateSignable (Some false) (set_pendingFeeratePerKw (Some feeratePerKw) st)).

Section Fee.
Context `{L : BitcoinLib}.

Definition fee_overrides (feeratePerKw : Z) : UpdateOverrides :=
  {| ov_localBalanceMsat := None; ov_remoteBalanceMsat := None;
     ov_pendingFeeratePerKw := Some feeratePerKw; ov_addedHtlc := None |}.

Definition updateFee (quiescing : bool) (feeratePerKw : Z) (st : IChannelState) : outcome :=
  if negb (bool_decide (s_state st = CHANNEL_NORMAL)) then refuse "Cannot update fee: wrong state" st
  else if negb (bool_decide (s_role st = OPENER)) then refuse "Only opener can update fee" st
  else if quiescing then refuse "Cannot update fee: channel is quiescing" st
  else if feeratePerKw <? 253 then refuse "Fee rate below minimum relay fee (253 sat/kw)" st
  else if 100000 <? feeratePerKw
  then refuse "Fee rate above absolute maximum (100000 sat/kw)" st
  else
    let newCost := funderCommitmentCostSats feeratePerKw (countActiveHtlcs st) (s_channelType st) in
    let reserveMsat := c_channelReserveSatoshis (s_remoteConfig st) * 1000 in
    let headroomMsat := s_localBalanceMsat st - reserveMsat in
    if headroomMsat <? newCost * 1000
    then refuse "Fee rate would drain opener below channel reserve" st
    else if MAX_DUST_HTLC_EXPOSURE_MSAT <? dustExposureAtRateMsat st feeratePerKw
    then refuse "update_fee would raise dust HTLC exposure above limit (in-flight HTLCs would be trimmed)" st
    else if bool_decide (is_Some (s_pendingFeeratePerKw st)) && flag_true (s_pendingFeerateCommitted st)
    then refuse "Previous fee update still committing" st
    else match localCommitmentEmptyRefusal st no_splice (fee_overrides feeratePerKw) with
    | Err e => (st, Err e)
    | Ok (Some refusal) => refuse refusal st
    | Ok None =>
        send_update (UPDATE_FEERATE {| uf_channelId := channel_id st; uf_feeratePerKw := feeratePerKw |})
          (stage_fee feeratePerKw st)
    end.

(** A rate that already reached the signable phase is promoted before it is replaced. *)
Definition replace_fee (feeratePerKw : Z) (st : IChannelState) : IChannelState :=
  let st := match s_pendingFeeratePerKw st with
            | Some rate =>
                if flag_true (s_pendingFeerateSignable st)
                then set_remoteConfig (with_feeratePerKw rate (s_remoteConfig st)) st else st
            | None => st
            end in
  stage_fee feeratePerKw st.

Definition handleUpdateFee (msg : IUpdateFeeMessage) (st : IChannelState) : outcome :=
  let feeratePerKw := uf_feeratePerKw msg in
  if negb (updatable st) then refuse "Unexpected update_fee" st
  else if negb (bool_decide (s_role st = ACCEPTOR))
  then _failChannelWithWireError "Only opener can send update_fee" st
  else if feeratePerKw <? 253
  then _failChannelWithWireError "Fee rate below minimum relay fee (253 sat/kw)" st
  else if 100000 <? feeratePerKw
  then _failChannelWithWireError "Fee rate above absolute maximum (100000 sat/kw)" st
  else
    let committed := c_feeratePerKw (s_remoteConfig st) in
    let currentRate := Z.max (default 0 (s_pendingFeeratePerKw st))
                         (if committed =? 0 then 253 else committed) in
    if currentRate * 10 <? feeratePerKw
    then _failChannelWithWireError "Fee rate unreasonably high (>10x current rate)" st
    else
      let newCostMsat := remoteFunderLocalCostMsat st feeratePerKw [] in
      let reserveMsat := c_channelReserveSatoshis (s_localConfig st) * 1000 in
      if s_remoteBalanceMsat st - reserveMsat <? newCostMsat
      then _failChannelWithWireError "Fee rate would drain opener below channel reserve" st
      else if MAX_DUST_HTLC_EXPOSURE_MSAT <? dustExposureAtRateMsat st feeratePerKw
      then _failChannelWithWireError "update_fee would raise dust HTLC exposure above limit (in-flight HTLCs would be trimmed)" st
      else match localCommitmentEmptyRefusal st no_splice (fee_overrides feeratePerKw) with
      | Err e => (st, Err e)
      | Ok (Some wouldEmpty) => _failChannelWithWireError wouldEmpty st
      | Ok None => (replace_fee feeratePerKw st, Ok [])
      end.

Definition stage_lease (blockheight : Z) (st : IChannelState) : IChannelState :=
  set_pendingLeaseBlockheightCommitted (Some false)
    (set_pendingLeaseBlockheightSignable (Some false)
       (set_pendingLeaseBlockheight (Some blockheight) st)).

Definition replace_lease (blockheight : Z) (st : IChannelState) : IChannelState :=
  let st := match s_pendingLeaseBlockheight st with
            | Some height =>
                if flag_true (s_pendingLeaseBlockheightSignable st)
                then _promoteLeaseBlockheight height st else st
            | None => st
            end in
  stage_lease blockheight st.

(** [pendingLeaseBlockheight ?? leaseCommitBlockheight ?? 0] *)
Definition agreed_height (st : IChannelState) : Z :=
  match s_pendingLeaseBlockheight st with
  | Some h => h
  | None => default 0 (s_leaseCommitBlockheight st)
  end.

Definition handleUpdateBlockheight (currentBlockHeight : Z) (msg : IUpdateBlockheightMessage)
    (st : IChannelState) : outcome :=
  if negb (updatable st) then refuse "Unexpected update_blockheight" st
  else if negb (bool_decide (s_role st = ACCEPTOR))
  then _failChannelWithWireError "Only the opener can send update_blockheight" st
  else if bool_decide (s_leaseExpiry st = None) || negb (flag_true (s_isLessor st))
  then _failChannelWithWireError "update_blockheight on a non-leased channel" st
  else
    let current := agreed_height st in
    if ub_blockheight msg <? current
    then _failChannelWithWireError "update_blockheight decreased" st
    else if ub_blockheight msg =? current then (st, Ok [])
    else if (0 <? currentBlockHeight) && (ub_blockheight msg + 1008 <? currentBlockHeight)
    then _failChannelWithWireError "update_blockheight too old" st
    else (replace_lease (ub_blockheight msg) st, Ok []).

End Fee.
