(* ===== verification/HtlcProtocol.v ===== *)
(** * One HTLC between its two channels

    What the handlers of Channel.v do to the entry of one HTLC on the offering side and
    on the receiving side, with the messages between them, is a finite system once
    the terms of the HTLC are erased ([shape]).  Its reachable states are computed
    ([reachable]), checked to be closed under every step, and checked for what the
    update protocol has to guarantee: whenever a commitment_signed arrives, the
    commitment it signs treats the HTLC as the receiver's own commitment does. *)

From S2P Require Import Prelude Buffer JsMap ChannelTypes CommitmentBuilder HtlcPolicy HtlcAdmission Channel.
From stdpp Require Import sets.
From Stdlib Require Import Strings.Byte.
Local Open Scope Z_scope.

(** The entry without its terms and without the stamps no handler here reads. *)
Definition shape (e : IHtlcEntry) : IHtlcEntry :=
  {| e_id := 0; e_amountMsat := 1; e_paymentHash := []; e_cltvExpiry := 0;
     e_onionRoutingPacket := []; e_direction := e_direction e; e_state := e_state e;
     e_blindingPoint := None; e_addRemoteCommitted := e_addRemoteCommitted e;
     e_removalRemoteCommitted := e_removalRemoteCommitted e;
     e_commitCoverPending := e_commitCoverPending e; e_addLocallyRevoked := e_addLocallyRevoked e;
     e_removalLocallyRevoked := e_removalLocallyRevoked e;
     e_addRemotelyRevoked := e_addRemotelyRevoked e; e_addCoverPending := e_addCoverPending e;
     e_addRemoteSigned := e_addRemoteSigned e; e_forwardEmitted := None; e_fforVoucher := None;
     e_fforMismatch := None; e_dustExposureFailback := None; e_expiredOnArrival := None;
     e_funderFeeFailback := None; e_addedWhileRestoreUnproven := None;
     e_addedWhileFundingUnaccounted := None |}.

(** ** The handlers, on one entry *)

Definition sign_entry (e : IHtlcEntry) : IHtlcEntry := commit_pending (sign_stamp e).

Definition commit_entry (e : IHtlcEntry) : IHtlcEntry :=
  commit_pending (revoke_entry (mark_remote_signed e)).

Definition revoked_entry (e : IHtlcEntry) : option IHtlcEntry :=
  let e := promote_entry e in if finished e then None else Some e.

(** What a finished entry moves, to the local and to the remote balance. *)
Definition removal_credit (e : IHtlcEntry) : Z * Z :=
  if finished e then
    match e_state e, e_direction e with
    | FULFILLED, RECEIVED | FAILED, OFFERED => (e_amountMsat e, 0)
    | FULFILLED, OFFERED | FAILED, RECEIVED => (0, e_amountMsat e)
    | _, _ => (0, 0)
    end
  else (0, 0).

Definition finish_credit (e : IHtlcEntry) : Z * Z := removal_credit (promote_entry e).

(** What a commitment says of one HTLC: whether it carries the output, and what is in
    the holder's and in the other side's balance. *)
Record HtlcView := { v_carried : bool; v_holder : Z; v_other : Z }.

(** The state of one HTLC at one side: its entry, and what it has moved in the
    local and in the remote balance so far. *)
Record Half := { h_entry : option IHtlcEntry; h_local : Z; h_remote : Z }.

Definition local_view (h : Half) : HtlcView :=
  match h_entry h with
  | Some e => {| v_carried := local_carries false e; v_holder := h_local h + (local_adjust false e).1;
                 v_other := h_remote h + (local_adjust false e).2 |}
  | None => {| v_carried := false; v_holder := h_local h; v_other := h_remote h |}
  end.

Definition remote_view (h : Half) : HtlcView :=
  match h_entry h with
  | Some e => {| v_carried := remote_carries e; v_holder := h_remote h + (remote_adjust e).1;
                 v_other := h_local h + (remote_adjust e).2 |}
  | None => {| v_carried := false; v_holder := h_remote h; v_other := h_local h |}
  end.

Inductive Token := TAdd | TSettle (intent : HtlcState) | TCommit (v : HtlcView) | TRevoke.

Record Pair := {
  p_added : bool;
  p_offerer : Half;
  p_receiver : Half;
  p_forth : list Token;
  p_back : list Token;
  p_failed : bool
}.

#[global] Instance IHtlcEntry_eq_dec : EqDecision IHtlcEntry.
Proof. solve_decision. Defined.
#[global] Instance HtlcView_eq_dec : EqDecision HtlcView.
Proof. solve_decision. Defined.
#[global] Instance Half_eq_dec : EqDecision Half.
Proof. solve_decision. Defined.
#[global] Instance Token_eq_dec : EqDecision Token.
Proof. solve_decision. Defined.
#[global] Instance Pair_eq_dec : EqDecision Pair.
Proof. solve_decision. Defined.

Definition offered_shape : IHtlcEntry :=
  with_addRemoteSigned (Some false) (with_addRemoteCommitted (Some false)
    (shape (new_entry 0 1 [] 0 [] OFFERED None))).

Definition received_shape : IHtlcEntry :=
  with_addRemotelyRevoked (Some false) (with_addLocallyRevoked (Some false)
    (shape (new_entry 0 1 [] 0 [] RECEIVED None))).

Definition is_commit (t : Token) : bool := match t with TCommit _ => true | _ => false end.
Definition is_revoke (t : Token) : bool := match t with TRevoke => true | _ => false end.

(** A side waits for a revocation while its commitment_signed or the answer is under
    way; the other direction is [sent] and [answers]. *)
Definition awaiting (sent answers : list Token) : bool :=
  existsb is_commit sent || existsb is_revoke answers.

Definition sign_half (h : Half) : Half :=
  {| h_entry := sign_entry <$> h_entry h; h_local := h_local h; h_remote := h_remote h |}.

(** Receive a commitment_signed or a revoke_and_ack. *)
Definition commit_half (h : Half) : Half :=
  {| h_entry := commit_entry <$> h_entry h; h_local := h_local h; h_remote := h_remote h |}.

Definition revoke_half (h : Half) : Half :=
  match h_entry h with
  | None => h
  | Some e => {| h_entry := revoked_entry e; h_local := h_local h + (finish_credit e).1;
                 h_remote := h_remote h + (finish_credit e).2 |}
  end.

Definition add_offered (h : Half) : Half :=
  {| h_entry := Some offered_shape; h_local := h_local h - 1; h_remote := h_remote h |}.
Definition add_received (h : Half) : Half :=
  {| h_entry := Some received_shape; h_local := h_local h; h_remote := h_remote h - 1 |}.
Definition settle_received (intent : HtlcState) (h : Half) : Half :=
  {| h_entry := settle_entry intent <$> h_entry h; h_local := h_local h; h_remote := h_remote h |}.

(** handleUpdateFulfillHtlc and handleUpdateFailHtlc; [None] fails the channel. *)
Definition peer_settle_half (intent : HtlcState) (h : Half) : option Half :=
  match h_entry h with
  | None => None
  | Some e =>
      if bool_decide (e_state e = intent) || _addNotYetCommitted e then None
      else Some {| h_entry := Some (peer_settle_entry intent e); h_local := h_local h;
                   h_remote := h_remote h |}
  end.

Inductive Event :=
| EAdd | ESettle (fulfill : bool) | ESignOfferer | ESignReceiver | EForth | EBack.

Definition fail_pair (p : Pair) : Pair :=
  {| p_added := p_added p; p_offerer := p_offerer p; p_receiver := p_receiver p;
     p_forth := p_forth p; p_back := p_back p; p_failed := true |}.

Definition intent_of (fulfill : bool) : HtlcState := if fulfill then FULFILLED else FAILED.

Definition may_settle (h : Half) : bool :=
  match h_entry h with Some e => receivedAddIrrevocablyCommitted e | None => false end.

(** The receiver takes the next message of the offerer. *)
Definition deliver_forth (p : Pair) : Pair :=
  match p_forth p with
  | [] => p
  | t :: forth =>
      let upd r back := {| p_added := p_added p; p_offerer := p_offerer p; p_receiver := r;
        p_forth := forth; p_back := back; p_failed := p_failed p |} in
      match t with
      | TAdd => upd (add_received (p_receiver p)) (p_back p)
      | TCommit _ => upd (commit_half (p_receiver p)) (p_back p ++ [TRevoke])
      | TRevoke => upd (revoke_half (p_receiver p)) (p_back p)
      | TSettle _ => fail_pair p
      end
  end.

(** The offerer takes the next message of the receiver. *)
Definition deliver_back (p : Pair) : Pair :=
  match p_back p with
  | [] => p
  | t :: back =>
      let upd o forth := {| p_added := p_added p; p_offerer := o; p_receiver := p_receiver p;
        p_forth := forth; p_back := back; p_failed := p_failed p |} in
      match t with
      | TSettle intent => match peer_settle_half intent (p_offerer p) with
                          | Some o => upd o (p_forth p)
                          | None => fail_pair p
                          end
      | TCommit _ => upd (commit_half (p_offerer p)) (p_forth p ++ [TRevoke])
      | TRevoke => upd (revoke_half (p_offerer p)) (p_forth p)
      | TAdd => fail_pair p
      end
  end.

Definition fire (ev : Event) (p : Pair) : Pair :=
  match ev with
  | EAdd =>
      if p_added p then p
      else {| p_added := true; p_offerer := add_offered (p_offerer p);
              p_receiver := p_receiver p; p_forth := p_forth p ++ [TAdd]; p_back := p_back p;
              p_failed := p_failed p |}
  | ESettle fulfill =>
      if may_settle (p_receiver p)
      then {| p_added := p_added p; p_offerer := p_offerer p;
              p_receiver := settle_received (intent_of fulfill) (p_receiver p);
              p_forth := p_forth p; p_back := p_back p ++ [TSettle (intent_of fulfill)];
              p_failed := p_failed p |}
      else p
  | ESignOfferer =>
      if awaiting (p_forth p) (p_back p) then p
      else {| p_added := p_added p; p_offerer := sign_half (p_offerer p);
              p_receiver := p_receiver p;
              p_forth := p_forth p ++ [TCommit (remote_view (p_offerer p))]; p_back := p_back p;
              p_failed := p_failed p |}
  | ESignReceiver =>
      if awaiting (p_back p) (p_forth p) then p
      else {| p_added := p_added p; p_offerer := p_offerer p;
              p_receiver := sign_half (p_receiver p); p_forth := p_forth p;
              p_back := p_back p ++ [TCommit (remote_view (p_receiver p))];
              p_failed := p_failed p |}
  | EForth => deliver_forth p
  | EBack => deliver_back p
  end.

Definition events : list Event :=
  [EAdd; ESettle true; ESettle false; ESignOfferer; ESignReceiver; EForth; EBack].

Definition no_half : Half := {| h_entry := None; h_local := 0; h_remote := 0 |}.

Definition start : Pair :=
  {| p_added := false; p_offerer := no_half; p_receiver := no_half; p_forth := []; p_back := [];
     p_failed := false |}.

Definition seen (p : Pair) (l : list Pair) : bool := existsb (fun q => bool_decide (p = q)) l.

(** Breadth-first search: [todo] is the frontier, [done] what has been expanded. *)
Fixpoint explore (fuel : nat) (todo done : list Pair) : list Pair :=
  match fuel, todo with
  | S fuel, p :: todo =>
      if seen p done then explore fuel todo done
      else explore fuel (todo ++ map (fun ev => fire ev p) events) (p :: done)
  | _, _ => done
  end.


(** The bound is above what the search needs: [reachable_closed] says nothing is
    left unexpanded. *)
Definition reachable : list Pair := explore (N.to_nat 3000) [start] [].

(** ** What holds of every reachable state *)

Definition agrees (msgs : list Token) (receiver : Half) : bool :=
  match msgs with
  | TCommit v :: _ => bool_decide (v = local_view receiver)
  | _ => true
  end.

(** Both sides agree on the next commitment and no settle was refused. *)
Definition sound (p : Pair) : bool :=
  negb (p_failed p) && agrees (p_forth p) (p_receiver p) && agrees (p_back p) (p_offerer p).

Definition no_view : HtlcView := {| v_carried := false; v_holder := 0; v_other := 0 |}.

Definition idle_token (t : Token) : bool :=
  bool_decide (t = TCommit no_view) || bool_decide (t = TRevoke).

(** Before the add is sent, the HTLC is nowhere; an add arrives at a side that does
    not have it. *)
Definition untouched (p : Pair) : bool :=
  (p_added p ||
   (bool_decide (p_offerer p = no_half) && bool_decide (p_receiver p = no_half) &&
    forallb idle_token (p_forth p) && forallb idle_token (p_back p))) &&
  negb (bool_decide (head (p_forth p) = Some TAdd) &&
        bool_decide (is_Some (h_entry (p_receiver p)))).

Definition held (h : Half) : Z := match h_entry h with Some _ => 1 | None => 0 end.

(** What an entry holds has left a balance, and nothing else has. *)
Definition conserved (h : Half) : bool := h_local h + h_remote h + held h =? 0.

(** The add is in the commitment each side holds, in the one each side signed last, and
    what these replaced is revoked. *)
Definition irrevocable (p : Pair) : bool :=
  match h_entry (p_offerer p), h_entry (p_receiver p) with
  | Some o, Some r => flag_true (e_addRemoteCommitted o) && flag_true (e_addRemoteSigned o) &&
                      local_carries true o && remote_carries o &&
                      local_carries true r && remote_carries r
  | _, _ => false
  end.

Definition irrevocable_before_settle (p : Pair) : bool :=
  negb (may_settle (p_receiver p)) || irrevocable p.

(** Once both sides have dropped the HTLC they have booked it the same way. *)
Definition settled_alike (p : Pair) : bool :=
  negb (bool_decide (h_entry (p_offerer p) = None) && bool_decide (h_entry (p_receiver p) = None) &&
        bool_decide (p_forth p = []) && bool_decide (p_back p = [])) ||
  ((h_local (p_offerer p) =? h_remote (p_receiver p)) &&
   (h_remote (p_offerer p) =? h_local (p_receiver p))).

Definition good (p : Pair) : bool :=
  sound p && untouched p && conserved (p_offerer p) && conserved (p_receiver p) &&
  irrevocable_before_settle p && settled_alike p.

Lemma reachable_checked :
  forallb (fun p => good p && forallb (fun ev => seen (fire ev p) reachable) events) reachable
  && seen start reachable = true.
Proof. vm_compute. reflexivity. Qed.

Lemma seen_spec p l : seen p l = true <-> p ∈ l.
Proof.
  unfold seen. rewrite existsb_exists. split.
  - intros (q & Hq & H). case_bool_decide; [|done]. subst. by apply list_elem_of_In.
  - intros H. exists p. split; [by apply list_elem_of_In | by case_bool_decide].
Qed.

Lemma events_complete ev : ev ∈ events.
Proof. unfold events. destruct ev as [|[]| | | |]; set_solver. Qed.

Lemma start_reachable : start ∈ reachable.
Proof. pose proof reachable_checked as H. apply andb_prop in H as [_ H]. by apply seen_spec. Qed.

Lemma checked p : p ∈ reachable ->
  good p = true /\ forall ev, fire ev p ∈ reachable.
Proof.
  intros Hp. pose proof reachable_checked as H. apply andb_prop in H as [H _].
  rewrite forallb_forall in H. apply list_elem_of_In, H, andb_prop in Hp as [Hg Hc].
  split; [done|]. intros ev. rewrite forallb_forall in Hc.
  apply seen_spec, Hc, list_elem_of_In, events_complete.
Qed.

Lemma fire_reachable ev p : p ∈ reachable -> fire ev p ∈ reachable.
Proof. intros H. by apply checked. Qed.

(** What the check says, in the form the channel proofs use. *)
Record facts (p : Pair) : Prop := {
  f_ok : p_failed p = false;
  f_forth v rest : p_forth p = TCommit v :: rest -> v = local_view (p_receiver p);
  f_back v rest : p_back p = TCommit v :: rest -> v = local_view (p_offerer p);
  f_fresh : p_added p = false -> p_offerer p = no_half /\ p_receiver p = no_half /\
            (forall t, t ∈ p_forth p ++ p_back p -> t = TCommit no_view \/ t = TRevoke);
  f_add rest : p_forth p = TAdd :: rest -> h_entry (p_receiver p) = None;
  f_value_offerer : h_local (p_offerer p) + h_remote (p_offerer p) + held (p_offerer p) = 0;
  f_value_receiver : h_local (p_receiver p) + h_remote (p_receiver p) + held (p_receiver p) = 0;
  f_irrevocable : may_settle (p_receiver p) = true -> irrevocable p = true;
  f_settled : h_entry (p_offerer p) = None -> h_entry (p_receiver p) = None ->
              p_forth p = [] -> p_back p = [] ->
              h_local (p_offerer p) = h_remote (p_receiver p) /\
              h_remote (p_offerer p) = h_local (p_receiver p)
}.

Lemma agrees_spec v rest h : agrees (TCommit v :: rest) h = true -> v = local_view h.
Proof. simpl. by case_bool_decide. Qed.

Lemma idle_spec l : forallb idle_token l = true ->
  forall t, t ∈ l -> t = TCommit no_view \/ t = TRevoke.
Proof.
  rewrite forallb_forall. intros H t Ht. apply list_elem_of_In, H in Ht. unfold idle_token in Ht.
  apply orb_prop in Ht as [Ht|Ht]; apply bool_decide_eq_true in Ht; auto.
Qed.

Lemma reachable_facts p : p ∈ reachable -> facts p.
Proof.
  intros Hp. apply checked in Hp as [Hg _]. unfold good in Hg. repeat rewrite andb_true_iff in Hg.
  destruct Hg as [[[[[Hs Hu] Ho] Hr] Hi] Ha]. unfold sound in Hs. rewrite !andb_true_iff in Hs.
  destruct Hs as [[Hf H1] H2]. unfold untouched in Hu. apply andb_prop in Hu as [Hu1 Hu2].
  unfold conserved in *. rewrite Z.eqb_eq in Ho, Hr.
  constructor; [..| |exact Ho|exact Hr| |].
  - by destruct (p_failed p).
  - intros v rest E. rewrite E in H1. by apply agrees_spec in H1.
  - intros v rest E. rewrite E in H2. by apply agrees_spec in H2.
  - intros E. rewrite E in Hu1. simpl in Hu1. rewrite !andb_true_iff, !bool_decide_eq_true in Hu1.
    destruct Hu1 as [[[E1 E2] E3] E4]. repeat split; [done..|]. intros t Ht.
    apply elem_of_app in Ht as [Ht|Ht]; [by apply (idle_spec _ E3)|by apply (idle_spec _ E4)].
  - intros rest E. rewrite E in Hu2. cbn [head] in Hu2.
    destruct (h_entry (p_receiver p)) as [e|]; [exfalso|done].
    apply negb_true_iff, andb_false_iff in Hu2 as [H|H]; apply bool_decide_eq_false in H; eauto.
  - intros E. unfold irrevocable_before_settle in Hi. by rewrite E in Hi.
  - intros E1 E2 E3 E4. unfold settled_alike in Ha. rewrite E1, E2, E3, E4 in Ha.
    simpl in Ha. apply andb_prop in Ha as [Ha1 Ha2]. rewrite Z.eqb_eq in Ha1, Ha2. done.
Qed.

(** A settle arrives at an entry that is committed and not settled yet. *)
Definition settle_lands (p : Pair) : bool :=
  match p_back p with
  | TSettle _ :: _ => match h_entry (p_offerer p) with
                      | Some e => bool_decide (e_state e = COMMITTED)
                      | None => false
                      end
  | _ => true
  end.

Lemma settle_lands_checked : forallb settle_lands reachable = true.
Proof. vm_compute. reflexivity. Qed.

Lemma reachable_settle_lands p intent rest e : p ∈ reachable -> p_back p = TSettle intent :: rest ->
  h_entry (p_offerer p) = Some e -> e_state e = COMMITTED.
Proof.
  intros Hp Hb He. pose proof settle_lands_checked as H. rewrite forallb_forall in H.
  apply list_elem_of_In, H in Hp. unfold settle_lands in Hp. rewrite Hb, He in Hp. by apply bool_decide_eq_true in Hp.
Qed.
