(* ===== verification/ChannelEntries.v ===== *)
(** * What the handlers of a channel do to its HTLCs and balances

    For each state-changing part of Channel.v: the entry of every HTLC afterwards,
    the balances, and the fields that stay ([frame]).  The handlers look at an entry
    only through its [shape]; its terms come in linearly. *)

From S2P Require Import Prelude Buffer JsMap ShaChain Scripts ChannelTypes CommitmentBuilder.
From S2P Require Import HtlcPolicy HtlcAdmission Channel HtlcProtocol.
From stdpp Require Import sets.
From Stdlib Require Import Strings.Byte.
Local Open Scope Z_scope.

(** ** Entries and shapes *)

(** The handlers branch on the flags and on the state, which the shape keeps. *)
Ltac by_shape :=
  intros; unfold sign_entry, commit_entry, commit_pending, sign_stamp, mark_remote_signed,
    revoke_entry, promote_entry, mark_forwarded, settle_entry, peer_settle_entry, open_htlc, removed;
  repeat match goal with
  | |- context [if ?c then _ else _] =>
      lazymatch c with
      | context [if _ then _ else _] => fail
      | _ => let E := fresh "E" in destruct c eqn:E; cbn -[bool_decide] in *; rewrite ?E in *
      end
  end; reflexivity.

Lemma shape_sign e : shape (sign_entry e) = sign_entry (shape e).
Proof. by_shape. Qed.
Lemma shape_commit e : shape (commit_entry e) = commit_entry (shape e).
Proof. by_shape. Qed.
Lemma shape_promote e : shape (promote_entry e) = promote_entry (shape e).
Proof. by_shape. Qed.
Lemma shape_settle intent e : shape (settle_entry intent e) = settle_entry intent (shape e).
Proof. reflexivity. Qed.
Lemma shape_peer_settle intent e :
  shape (peer_settle_entry intent e) = peer_settle_entry intent (shape e).
Proof. reflexivity. Qed.
Lemma shape_forwarded e : shape (mark_forwarded e) = shape e.
Proof. unfold mark_forwarded. by destruct (to_forward e). Qed.

Lemma terms_sign e : local_terms (sign_entry e) = local_terms e.
Proof. by_shape. Qed.
Lemma terms_commit e : local_terms (commit_entry e) = local_terms e.
Proof. by_shape. Qed.
Lemma terms_promote e : local_terms (promote_entry e) = local_terms e.
Proof. by_shape. Qed.
Lemma terms_forwarded e : local_terms (mark_forwarded e) = local_terms e.
Proof. by_shape. Qed.

(** ** Commitments look at the shape *)

Lemma local_carries_shape sl e : local_carries sl (shape e) = local_carries sl e.
Proof. reflexivity. Qed.
Lemma remote_carries_shape e : remote_carries (shape e) = remote_carries e.
Proof. reflexivity. Qed.

Definition scale (a : Z) (b : Z * Z) : Z * Z := (a * b.1, a * b.2).

Ltac by_scale :=
  unfold local_adjust, remote_adjust, scale, signedLocalCarriesRemoval,
    signedLocalLacksReceivedAdd, localCommitmentCarriesAdd, removed, shape;
  cbn -[bool_decide Z.mul]; repeat case_match; cbn -[Z.mul] in *; simplify_eq; f_equal; lia.

Lemma local_adjust_shape sl e :
  local_adjust sl e = scale (e_amountMsat e) (local_adjust sl (shape e)).
Proof. by_scale. Qed.

Lemma remote_adjust_shape e : remote_adjust e = scale (e_amountMsat e) (remote_adjust (shape e)).
Proof. by_scale. Qed.

Lemma finish_credit_shape e : finish_credit e = scale (e_amountMsat e) (finish_credit (shape e)).
Proof.
  unfold finish_credit, removal_credit. rewrite <- shape_promote.
  assert (e_amountMsat (promote_entry e) = e_amountMsat e) as -> by by_shape.
  generalize (promote_entry e). intros e'. change (finished (shape e')) with (finished e').
  by_scale.
Qed.

(** ** The state after each handler *)

(** A configuration but for its fee rate. *)
Definition config_frame (c : IChannelConfig) : IChannelConfig := with_feeratePerKw 0 c.

(** The fields the update handlers leave alone, while no lease height is pending. *)
Definition frame (st : IChannelState) :=
  (s_state st, s_role st, s_channelId st, s_fundingSatoshis st, s_fundingTxid st,
   s_fundingOutputIndex st, config_frame (s_localConfig st), s_localBasepoints st,
   s_localPerCommitmentSeed st, config_frame (s_remoteConfig st), s_remoteBasepoints st,
   s_channelType st, s_leaseExpiry st, s_isLessor st, s_leaseCommitBlockheight st,
   s_pendingLeaseBlockheight st).

Lemma config_frame_inv c c' : config_frame c = config_frame c' ->
  c_dustLimitSatoshis c = c_dustLimitSatoshis c' /\ c_toSelfDelay c = c_toSelfDelay c'.
Proof. unfold config_frame, with_feeratePerKw. intros [=]. done. Qed.

Definition balances (st : IChannelState) : Z * Z := (s_localBalanceMsat st, s_remoteBalanceMsat st).

Definition numbers (st : IChannelState) :=
  (s_localCommitmentNumber st, s_remoteCommitmentNumber st, s_remoteRevocationNumber st,
   s_localHtlcCounter st).

Lemma numbers_inv st l r v c : numbers st = (l, r, v, c) ->
  s_localCommitmentNumber st = l /\ s_remoteCommitmentNumber st = r /\
  s_remoteRevocationNumber st = v /\ s_localHtlcCounter st = c.
Proof. intros [= <- <- <- <-]. done. Qed.

Lemma finish_entry_spec st k e :
  s_htlcs (finish_entry st (k, e)) = (if finished e then del k (s_htlcs st) else s_htlcs st) /\
  balances (finish_entry st (k, e)) = add2 (balances st) (removal_credit e) /\
  frame (finish_entry st (k, e)) = frame st /\ numbers (finish_entry st (k, e)) = numbers st.
Proof.
  unfold finish_entry, removal_credit, finished, removed, balances, add2,
    _retainSignedLocalRemoval. destruct (flag_false _); simpl; [by rewrite !Z.add_0_r|].
  destruct (e_state e), (e_direction e); simpl; try destruct (flag_false _);
    rewrite ?Z.add_0_r; done.
Qed.

(** The clean-up loop runs over the entries while it deletes from the map. *)
Lemma finish_fold l st :
  NoDup (map fst l) ->
  let st' := fold_left finish_entry l st in
  (forall k, get k (s_htlcs st') =
     match get k l with
     | Some e => if finished e then None else get k (s_htlcs st)
     | None => get k (s_htlcs st)
     end) /\
  (NoDup (map fst (s_htlcs st)) -> NoDup (map fst (s_htlcs st'))) /\
  (forall k, k ∈ map fst (s_htlcs st') -> k ∈ map fst (s_htlcs st)) /\
  balances st' = (s_localBalanceMsat st + zsum (fun e => (removal_credit e).1) (values l),
                  s_remoteBalanceMsat st + zsum (fun e => (removal_credit e).2) (values l)) /\
  frame st' = frame st /\ numbers st' = numbers st.
Proof.
  revert st. induction l as [|[k0 e] l IH]; intros st Hn; cbn [fold_left].
  - cbn. unfold balances. rewrite !Z.add_0_r. done.
  - cbn [map fst] in Hn. apply NoDup_cons in Hn as [Hk0 Hn].
    destruct (finish_entry_spec st k0 e) as (Hh & Hb & Hf & Hm).
    generalize dependent (finish_entry st (k0, e)). intros st1 Hh Hb Hf Hm.
    destruct (IH st1 Hn) as (Hg & Hd & Hs & Hb' & Hf' & Hm'). split_and!.
    + intros k. rewrite Hg, Hh. cbn [get]. destruct (decide (k = k0)) as [->|Hne].
      * rewrite (get_None _ _ Hk0). destruct (finished e); [|done].
        by rewrite get_del, decide_True.
      * destruct (finished e); [|done]. by rewrite get_del, decide_False.
    + intros H. apply Hd. rewrite Hh. destruct (finished e); [by apply keys_del | done].
    + intros k H. apply Hs in H. rewrite Hh in H. destruct (finished e); [|done].
      by apply elem_of_keys_del in H.
    + rewrite Hb'. unfold balances, add2 in Hb. injection Hb as -> ->.
      change (values ((k0, e) :: l)) with (e :: values l). cbn [zsum fst snd]. f_equal; lia.
    + by rewrite Hf'.
    + by rewrite Hm'.
Qed.

Definition revoked (e : IHtlcEntry) : option IHtlcEntry :=
  if finished e then None else Some e.

Lemma finish_removals_spec st :
  NoDup (map fst (s_htlcs st)) ->
  let st' := finish_removals st in
  (forall k, get k (s_htlcs st') = get k (s_htlcs st) ≫= revoked) /\
  NoDup (map fst (s_htlcs st')) /\
  (forall k, k ∈ map fst (s_htlcs st') -> k ∈ map fst (s_htlcs st)) /\
  balances st' =
    add2 (balances st) (zsum (fun e => (removal_credit e).1) (values (s_htlcs st)),
                        zsum (fun e => (removal_credit e).2) (values (s_htlcs st))) /\
  frame st' = frame st /\ numbers st' = numbers st.
Proof.
  intros Hn. destruct (finish_fold (s_htlcs st) st Hn) as (Hg & Hd & Hs & Hb & Hf & Hm).
  split_and!; auto. intros k. etrans; [apply Hg|]. unfold revoked.
  destruct (get k (s_htlcs st)); [|done]. cbn. by destruct (finished _).
Qed.

(** The four together; most writes of a handler keep them. *)
Definition view (st : IChannelState) := (s_htlcs st, balances st, frame st, numbers st).

Definition with_htlcs (f : IHtlcEntry -> IHtlcEntry) (htlcs : jsmap IHtlcEntry) :=
  map (fun kv => (kv.1, f kv.2)) htlcs.

Lemma with_htlcs_comp f g htlcs :
  with_htlcs f (with_htlcs g htlcs) = with_htlcs (fun e => f (g e)) htlcs.
Proof. unfold with_htlcs. rewrite map_map. done. Qed.

(** Read the four components off an equation between views. *)
Lemma view_inv st h b f n : view st = (h, b, f, n) ->
  s_htlcs st = h /\ balances st = b /\ frame st = f /\ numbers st = n.
Proof. unfold view. intros [= <- <- <- <-]. done. Qed.

Lemma view_map g st h b f n :
  view st = (h, b, f, n) -> view (map_entries g st) = (with_htlcs g h, b, f, n).
Proof. intros (<- & <- & <- & <-)%view_inv. reflexivity. Qed.

Lemma view_sign_fee st : view (sign_fee st) = view st.
Proof. unfold sign_fee. by destruct (_ && _). Qed.
Lemma view_sign_lease st : view (sign_lease st) = view st.
Proof. unfold sign_lease. by destruct (_ && _). Qed.
Lemma view_snapshot n st : view (_snapshotRemoteCommitmentHtlcs n st) = view st.
Proof. unfold _snapshotRemoteCommitmentHtlcs. by destruct (map _ _). Qed.
Lemma view_record_sent sig hs part st : view (record_sent sig hs part st) = view st.
Proof. unfold record_sent. by rewrite view_snapshot. Qed.
Lemma view_advance_remote st h b f l r v c :
  view st = (h, b, f, (l, r, v, c)) ->
  view (advance_remote st) = (h, b, f, (l, r + 1, Some (default r v), c)).
Proof. intros (<- & <- & <- & [= <- <- <- <-])%view_inv. reflexivity. Qed.
Lemma view_advance_local st h b f l r v c :
  view st = (h, b, f, (l, r, v, c)) -> view (advance_local st) = (h, b, f, (l + 1, r, v, c)).
Proof. intros (<- & <- & <- & [= <- <- <- <-])%view_inv. reflexivity. Qed.
Lemma view_store_secret store n st h b f l r v c :
  view st = (h, b, f, (l, r, v, c)) ->
  view (store_secret store n st) = (h, b, f, (l, r, Some (n + 1), c)).
Proof. intros (<- & <- & <- & [= <- <- <- <-])%view_inv. reflexivity. Qed.
Lemma view_record_signature msg st : view (record_signature msg st) = view st.
Proof. reflexivity. Qed.
Lemma view_clear_removals st : view (set_signedLocalRemovals None st) = view st.
Proof. reflexivity. Qed.
Lemma view_next_point p st : view (set_remoteNextPerCommitmentPoint p st) = view st.
Proof. reflexivity. Qed.
Lemma view_sent_revocation secret point st :
  view (set_lastSentWasRevoke (Some true) (set_lastSentRevokeNextPoint (Some point)
    (set_lastSentRevokeSecret (Some secret) st))) = view st.
Proof. reflexivity. Qed.
Lemma view_accept_fee st : view (accept_fee st) = view st.
Proof. unfold accept_fee. by destruct (_ && _). Qed.
Lemma view_accept_lease st : view (accept_lease st) = view st.
Proof. unfold accept_lease. by destruct (_ && _). Qed.
Lemma view_accept_removals st : view (accept_removals st) = view st.
Proof. unfold accept_removals. by destruct (existsb _ _). Qed.
Lemma view_drop_signed st : view (drop_signed st) = view st.
Proof. unfold drop_signed. by destruct (_ <? _). Qed.

(** signCommitment *)
Lemma view_sign sig hs part st :
  view (sign_writes sig hs part st) =
  (with_htlcs sign_entry (s_htlcs st), balances st, frame st,
   (s_localCommitmentNumber st, s_remoteCommitmentNumber st + 1,
    Some (_remoteRevocationCount st), s_localHtlcCounter st)).
Proof.
  unfold sign_writes, sign_entry. rewrite <- with_htlcs_comp.
  apply view_map, view_advance_remote, view_map.
  by rewrite view_sign_lease, view_sign_fee, view_record_sent.
Qed.

Lemma view_accept msg st :
  view (accept_signature msg st) =
  (with_htlcs revoke_entry (with_htlcs mark_remote_signed (s_htlcs st)), balances st, frame st,
   numbers st).
Proof.
  apply view_map. rewrite view_accept_removals, view_accept_lease, view_accept_fee.
  rewrite view_clear_removals. apply view_map. by rewrite view_record_signature.
Qed.

(** handleCommitmentSigned, from the verified signature to the end *)
Lemma view_commit msg secret point st :
  view (record_revocation secret point (advance_local (accept_signature msg st))) =
  (with_htlcs commit_entry (s_htlcs st), balances st, frame st,
   (s_localCommitmentNumber st + 1, s_remoteCommitmentNumber st, s_remoteRevocationNumber st,
    s_localHtlcCounter st)).
Proof.
  pose proof (view_accept msg st) as H.
  change commit_entry with (fun e => commit_pending (revoke_entry (mark_remote_signed e))).
  rewrite <- (with_htlcs_comp commit_pending (fun e => revoke_entry (mark_remote_signed e))).
  rewrite <- (with_htlcs_comp revoke_entry mark_remote_signed).
  unfold record_revocation. apply view_map. rewrite view_sent_revocation.
  by apply view_advance_local in H.
Qed.

Lemma view_promote_fee st : view (promote_fee st) = view st.
Proof.
  unfold promote_fee. destruct (s_pendingFeeratePerKw st); [|done].
  by destruct (flag_true _), (s_role st).
Qed.

Lemma promote_lease_none st : s_pendingLeaseBlockheight st = None -> promote_lease st = st.
Proof. intros H. unfold promote_lease. by rewrite H. Qed.

(** handleRevokeAndAck, from the stored secret to the end, while no lease height is
    pending *)
Lemma view_revoke store n point st :
  NoDup (map fst (s_htlcs st)) -> s_pendingLeaseBlockheight st = None ->
  let st' := map_entries mark_forwarded (revoke_writes
    (set_remoteNextPerCommitmentPoint point (store_secret store n st))) in
  (forall k, get k (s_htlcs st') =
             get k (s_htlcs st) ≫= fun e => mark_forwarded <$> revoked_entry e) /\
  NoDup (map fst (s_htlcs st')) /\
  (forall k, k ∈ map fst (s_htlcs st') -> k ∈ map fst (s_htlcs st)) /\
  balances st' = add2 (balances st)
    (zsum (fun e => (finish_credit e).1) (values (s_htlcs st)),
     zsum (fun e => (finish_credit e).2) (values (s_htlcs st))) /\
  frame st' = frame st /\
  numbers st' = (s_localCommitmentNumber st, s_remoteCommitmentNumber st, Some (n + 1),
                 s_localHtlcCounter st).
Proof.
  intros Hn Hlease. unfold revoke_writes.
  set (st1 := drop_signed _).
  assert (view st1 = (s_htlcs st, balances st, frame st, (s_localCommitmentNumber st,
    s_remoteCommitmentNumber st, Some (n + 1), s_localHtlcCounter st))) as V1
    by (unfold st1; rewrite view_drop_signed, view_next_point;
        by apply (view_store_secret _ _ _ _ _ _ _ _ (s_remoteRevocationNumber st))).
  clearbody st1. apply (view_map promote_entry) in V1. revert V1.
  generalize (map_entries promote_entry st1). intros st2 (Hh & Hb & Hf & Hm)%view_inv.
  assert (NoDup (map fst (s_htlcs st2))) as Hn2 by (rewrite Hh; unfold with_htlcs; by rewrite keys_map_values).
  destruct (finish_removals_spec st2 Hn2) as (Hg & Hd & Hs & Hb' & Hf' & Hm').
  revert Hg Hd Hs Hb' Hf' Hm'.
  destruct (view_inv _ _ _ _ _ (view_promote_fee (finish_removals st2))) as (<- & <- & <- & <-).
  generalize (promote_fee (finish_removals st2)). intros st3 Hg Hd Hs Hb' Hf' Hm'.
  assert (promote_lease st3 = st3) as ->.
  { apply promote_lease_none. rewrite <- Hlease. rewrite Hf in Hf'. unfold frame in Hf'. congruence. }
  assert (V : view (map_entries mark_forwarded st3) =
    (with_htlcs mark_forwarded (s_htlcs st3), balances st3, frame st3, numbers st3))
    by (by apply view_map).
  apply view_inv in V as (-> & -> & -> & ->). rewrite Hf', Hm', Hf, Hm, Hb', Hb, Hh.
  unfold with_htlcs. rewrite !keys_map_values. split_and!.
  - intros k. rewrite get_map_values, Hg, Hh. unfold with_htlcs. rewrite get_map_values.
    destruct (get k (s_htlcs st)); [|done]. cbn. unfold revoked, revoked_entry.
    by destruct (finished _).
  - done.
  - intros k Hk. apply Hs in Hk. rewrite Hh in Hk. unfold with_htlcs in Hk.
    by rewrite keys_map_values in Hk.
  - unfold values. rewrite map_map. cbn [snd]. rewrite <- (map_map snd promote_entry), !zsum_map.
    done.
  - done.
  - done.
Qed.
