(* ===== verification/ChannelTrack.v ===== *)
(** * A channel as a family of HTLCs

    [tracks] relates one side's channel state to one [Half] per HTLC: the map of
    entries holds exactly the entries of the halves, and the balances are the opening
    balances plus what each HTLC has moved.  Every handler of Channel.v keeps the
    relation with the halves moved as HtlcProtocol.v moves them, and the two
    commitments of the state are sums of the views of the halves. *)

From stdpp Require Import sets.
From Stdlib Require Import Strings.Byte Sorting.Permutation.
From S2P Require Import Prelude Buffer JsMap ShaChain CommitmentTx Scripts ChannelTypes.
From S2P Require Import CommitmentBuilder HtlcPolicy HtlcAdmission Channel HtlcProtocol ChannelEntries.
Local Open Scope Z_scope.

Inductive Peer := Alice | Bob.

#[global] Instance Peer_eq_dec : EqDecision Peer.
Proof. solve_decision. Defined.

Definition other (s : Peer) : Peer := match s with Alice => Bob | Bob => Alice end.

Lemma other_other s : other (other s) = s.
Proof. by destruct s. Qed.

Lemma other_ne s : other s <> s.
Proof. by destruct s. Qed.

(** An HTLC: who offered it, and its id. *)
Definition Key : Type := Peer * Z.

Definition dir (s : Peer) (k : Key) : HtlcDirection := if decide (k.1 = s) then OFFERED else RECEIVED.

(** Its key in the map of one side. *)
Definition lkey (s : Peer) (k : Key) : string := htlc_key (dir s k) k.2.

#[global] Instance lkey_inj s : Inj (=) (=) (lkey s).
Proof.
  intros [o i] [o' i'] [Hd Hi]%htlc_key_inj. cbn in *. subst. f_equal. unfold dir in Hd. cbn in Hd.
  destruct s, o, o'; repeat case_decide; congruence.
Qed.

Lemma dir_other s k : dir (other s) k = flip_direction (dir s k).
Proof. unfold dir. by destruct s, k as [[] ?]. Qed.

Definition ids (N : nat) : list Z := map Z.of_nat (seq 0 N).
Definition keys (N : nat) : list Key := map (pair Alice) (ids N) ++ map (pair Bob) (ids N).

Lemma elem_of_keys N s i : (s, i) ∈ keys N <-> 0 <= i < Z.of_nat N.
Proof.
  unfold keys, ids. rewrite elem_of_app, !list_elem_of_In, !in_map_iff.
  setoid_rewrite in_map_iff. setoid_rewrite in_seq. split.
  - intros [(x & [= ? ?] & n & <- & ?)|(x & [= ? ?] & n & <- & ?)]; lia.
  - intros Hi. destruct s; [left|right]; exists i; (split; [done|]); exists (Z.to_nat i); lia.
Qed.

Lemma NoDup_keys N : NoDup (keys N).
Proof.
  assert (NoDup (ids N)) as H by (apply NoDup_fmap; [intros ? ? ?; lia | apply NoDup_seq]).
  apply NoDup_app. split_and!; [by apply NoDup_fmap; [intros ? ? [=]|]| |
    by apply NoDup_fmap; [intros ? ? [=]|]].
  intros [[] i] H1%list_elem_of_In H2%list_elem_of_In; rewrite in_map_iff in H1, H2;
    [destruct H2 as (? & [=] & _) | destruct H1 as (? & [=] & _)].
Qed.

(** The terms of an HTLC: amount, payment hash, expiry. *)
Definition Terms : Type := Z * buffer * Z.
Definition terms_at (d : HtlcDirection) (t : Terms) : HtlcTerms := (d, t.1.1, t.1.2, t.2).
Definition amount_of (t : Terms) : Z := t.1.1.

Section Track.
Context (N : nat) (base : Peer -> Z) (T : Key -> Terms).

Abbreviation amt k := (amount_of (T k)).

Record tracks (s : Peer) (H : Key -> Half) (st : IChannelState) : Prop := {
  t_entry k : h_entry (H k) = shape <$> get (lkey s k) (s_htlcs st);
  t_terms k e : get (lkey s k) (s_htlcs st) = Some e ->
                local_terms e = terms_at (dir s k) (T k);
  t_nodup : NoDup (map fst (s_htlcs st));
  t_keys x : x ∈ map fst (s_htlcs st) -> exists k, k ∈ keys N /\ lkey s k = x;
  t_balances : balances st =
    (base s + zsum (fun k => amt k * h_local (H k)) (keys N),
     base (other s) + zsum (fun k => amt k * h_remote (H k)) (keys N))
}.

Lemma tracks_ext s H H' st : (forall k, H k = H' k) -> tracks s H st -> tracks s H' st.
Proof.
  intros E [He Ht Hn Hk Hb]. constructor; [|done..|].
  - intros k. by rewrite <- E.
  - rewrite Hb. f_equal; (f_equal; apply zsum_ext; intros; by rewrite E).
Qed.

(** Only the entries and the balances matter. *)
Lemma tracks_same s H st st' :
  s_htlcs st' = s_htlcs st -> balances st' = balances st -> tracks s H st -> tracks s H st'.
Proof. intros E1 E2 [He Ht Hn Hk Hb]. constructor; rewrite ?E1, ?E2; done. Qed.

(** ** The two commitments, as sums *)

Lemma values_by_keys s H st : tracks s H st ->
  Permutation (values (s_htlcs st)) (omap (fun k => get (lkey s k) (s_htlcs st)) (keys N)).
Proof.
  intros Ht. apply values_by_key;
    [apply _ | apply (t_nodup _ _ _ Ht) | apply NoDup_keys | apply (t_keys _ _ _ Ht)].
Qed.

Lemma entry_amount s H st k e : tracks s H st -> get (lkey s k) (s_htlcs st) = Some e ->
  e_amountMsat e = amt k.
Proof. intros Ht E. apply (t_terms _ _ _ Ht) in E. by injection E. Qed.

Lemma entry_sum s H st (F : IHtlcEntry -> Z) : tracks s H st ->
  (forall e, F e = e_amountMsat e * F (shape e)) ->
  zsum F (values (s_htlcs st)) =
  zsum (fun k => amt k * match h_entry (H k) with Some e => F e | None => 0 end) (keys N).
Proof.
  intros Ht HF. rewrite (zsum_perm _ _ _ (values_by_keys _ _ _ Ht)), zsum_omap.
  apply zsum_ext. intros k _. rewrite (t_entry _ _ _ Ht).
  destruct (get (lkey s k) (s_htlcs st)) as [e|] eqn:E; cbn; [|lia].
  by rewrite (HF e), (entry_amount _ _ _ _ _ Ht E).
Qed.

Lemma entry_set {A} s H st (P : IHtlcEntry -> bool) (g : IHtlcEntry -> A) (G : Key -> A) :
  tracks s H st -> (forall e, P (shape e) = P e) ->
  (forall k e, get (lkey s k) (s_htlcs st) = Some e -> g e = G k) ->
  Permutation (map g (List.filter P (values (s_htlcs st))))
    (map G (List.filter (fun k => match h_entry (H k) with Some e => P e | None => false end)
              (keys N))).
Proof.
  intros Ht HP Hg. rewrite (filter_perm _ _ _ (values_by_keys _ _ _ Ht)).
  match goal with |- Permutation ?x ?y => assert (x = y) as ->; [|done] end.
  generalize (keys N). intros l. induction l as [|k l IH]; [done|]. cbn.
  rewrite (t_entry _ _ _ Ht k). destruct (get (lkey s k) (s_htlcs st)) as [e|] eqn:E; cbn; [|done].
  rewrite HP. destruct (P e); cbn; [|done]. by rewrite (Hg _ _ E), <- IH.
Qed.

Lemma remote_balances_sum s H st : tracks s H st ->
  remote_balances st =
  (base (other s) + zsum (fun k => amt k * v_holder (remote_view (H k))) (keys N),
   base s + zsum (fun k => amt k * v_other (remote_view (H k))) (keys N)).
Proof.
  intros Ht. pose proof (t_balances _ _ _ Ht) as [= Hl Hr]. unfold remote_balances.
  rewrite fold_add2. cbn [fst snd]. rewrite Hl, Hr.
  rewrite (entry_sum _ _ _ (fun e => (remote_adjust e).1) Ht) by (intros; by rewrite remote_adjust_shape at 1).
  rewrite (entry_sum _ _ _ (fun e => (remote_adjust e).2) Ht) by (intros; by rewrite remote_adjust_shape at 1).
  f_equal; rewrite <- Z.add_assoc, <- zsum_add; (f_equal; apply zsum_ext; intros k _);
    unfold remote_view; destruct (h_entry (H k)); cbn; lia.
Qed.

Lemma local_balances_sum s H st : tracks s H st ->
  local_balances st false =
  (base s + zsum (fun k => amt k * v_holder (local_view (H k))) (keys N),
   base (other s) + zsum (fun k => amt k * v_other (local_view (H k))) (keys N)).
Proof.
  intros Ht. pose proof (t_balances _ _ _ Ht) as [= Hl Hr].
  unfold local_balances, signedLocalRetainedRemovals. cbn [fold_left].
  rewrite fold_add2. cbn [fst snd]. rewrite Hl, Hr.
  rewrite (entry_sum _ _ _ (fun e => (local_adjust false e).1) Ht) by (intros; by rewrite local_adjust_shape at 1).
  rewrite (entry_sum _ _ _ (fun e => (local_adjust false e).2) Ht) by (intros; by rewrite local_adjust_shape at 1).
  f_equal; rewrite <- Z.add_assoc, <- zsum_add; (f_equal; apply zsum_ext; intros k _);
    unfold local_view; destruct (h_entry (H k)); cbn -[local_adjust]; lia.
Qed.

(** The HTLCs a family of views carries, as the side [s] sees them. *)
Definition carried (s : Peer) (v : Key -> HtlcView) : list HtlcTerms :=
  map (fun k => terms_at (dir s k) (T k)) (List.filter (fun k => v_carried (v k)) (keys N)).

Lemma filter_ext_bool {A} (p q : A -> bool) l :
  (forall x, p x = q x) -> List.filter p l = List.filter q l.
Proof. intros E. induction l as [|x l IH]; [done|]. cbn. by rewrite E, IH. Qed.

Lemma remote_set_carried s H st : tracks s H st ->
  Permutation (remote_set st) (carried (other s) (fun k => remote_view (H k))).
Proof.
  intros Ht. unfold remote_set, carried.
  rewrite (entry_set s H st remote_carries remote_terms
             (fun k => terms_at (dir (other s) k) (T k)) Ht); [|done|].
  - erewrite filter_ext_bool; [done|]. intros k. unfold remote_view.
    by destruct (h_entry (H k)).
  - intros k e E. apply (t_terms _ _ _ Ht) in E. rewrite dir_other. unfold remote_terms.
    by injection E as -> -> -> ->.
Qed.

Lemma local_set_carried s H st : tracks s H st ->
  Permutation (local_set st false) (carried s (fun k => local_view (H k))).
Proof.
  intros Ht. unfold local_set, carried, signedLocalRetainedRemovals. rewrite app_nil_r.
  rewrite (entry_set s H st (local_carries false) local_terms
             (fun k => terms_at (dir s k) (T k)) Ht); [|done|].
  - erewrite filter_ext_bool; [done|]. intros k. unfold local_view.
    by destruct (h_entry (H k)).
  - intros k e E. by apply (t_terms _ _ _ Ht).
Qed.

(** ** The handlers *)

Definition map_half (f : IHtlcEntry -> IHtlcEntry) (h : Half) : Half :=
  {| h_entry := f <$> h_entry h; h_local := h_local h; h_remote := h_remote h |}.

Lemma tracks_map s H st st' f :
  (forall e, shape (f e) = f (shape e)) -> (forall e, local_terms (f e) = local_terms e) ->
  s_htlcs st' = with_htlcs f (s_htlcs st) -> balances st' = balances st ->
  tracks s H st -> tracks s (fun k => map_half f (H k)) st'.
Proof.
  intros Hf Ht Eh Eb [H1 H2 H3 H4 H5]. unfold with_htlcs in Eh.
  constructor; rewrite ?Eh, ?Eb, ?keys_map_values; try done; intros k.
  - rewrite get_map_values. cbn. rewrite H1. destruct (get (lkey s k) (s_htlcs st)); cbn; [|done].
    by rewrite Hf.
  - intros e. rewrite get_map_values. destruct (get (lkey s k) (s_htlcs st)) eqn:E; [|done].
    intros [= <-]. rewrite Ht. by apply H2.
Qed.

Lemma tracks_sign s H st sig hs part : tracks s H st ->
  tracks s (fun k => sign_half (H k)) (sign_writes sig hs part st).
Proof.
  pose proof (view_sign sig hs part st) as (E1 & E2 & _)%view_inv.
  apply (tracks_map s H st); auto using shape_sign, terms_sign.
Qed.

Lemma tracks_commit s H st msg secret point : tracks s H st ->
  tracks s (fun k => commit_half (H k))
    (record_revocation secret point (advance_local (accept_signature msg st))).
Proof.
  pose proof (view_commit msg secret point st) as (E1 & E2 & _)%view_inv.
  apply (tracks_map s H st); auto using shape_commit, terms_commit.
Qed.

Lemma tracks_revoke s H st store n point :
  tracks s H st -> s_pendingLeaseBlockheight st = None ->
  tracks s (fun k => revoke_half (H k))
    (map_entries mark_forwarded (revoke_writes
      (set_remoteNextPerCommitmentPoint point (store_secret store n st)))).
Proof.
  intros Ht Hlease.
  destruct (view_revoke store n point st (t_nodup _ _ _ Ht) Hlease)
    as (Hg & Hd & Hs & Hb & _ & _).
  revert Hg Hd Hs Hb. generalize (map_entries mark_forwarded (revoke_writes
      (set_remoteNextPerCommitmentPoint point (store_secret store n st)))).
  intros st' Hg Hd Hs Hb. constructor; [| |done| |].
  - intros k. rewrite Hg. unfold revoke_half. pose proof (t_entry _ _ _ Ht k) as He.
    destruct (get (lkey s k) (s_htlcs st)) as [e|]; cbn in He; rewrite He; [|done].
    cbn. unfold revoked_entry. rewrite <- shape_promote.
    change (finished (shape (promote_entry e))) with (finished (promote_entry e)).
    destruct (finished (promote_entry e)); cbn; [done|]. by rewrite shape_forwarded.
  - intros k e. rewrite Hg. destruct (get (lkey s k) (s_htlcs st)) as [e0|] eqn:E; [|done].
    cbn. unfold revoked_entry. destruct (finished _); [done|]. cbn. intros [= <-].
    rewrite terms_forwarded, terms_promote. by apply (t_terms _ _ _ Ht).
  - intros x Hx. by apply (t_keys _ _ _ Ht), Hs.
  - rewrite Hb, (t_balances _ _ _ Ht). unfold add2. cbn [fst snd].
    rewrite (entry_sum _ _ _ (fun e => (finish_credit e).1) Ht) by (intros; by rewrite finish_credit_shape at 1).
    rewrite (entry_sum _ _ _ (fun e => (finish_credit e).2) Ht) by (intros; by rewrite finish_credit_shape at 1).
    f_equal; rewrite <- Z.add_assoc, <- zsum_add; (f_equal; apply zsum_ext; intros k _);
      unfold revoke_half; destruct (h_entry (H k)); cbn -[finish_credit]; lia.
Qed.

(** An add or a settle writes one entry. *)
Definition put_half (e : IHtlcEntry) (dl dr : Z) (h : Half) : Half :=
  {| h_entry := Some (shape e); h_local := h_local h + dl; h_remote := h_remote h + dr |}.

Lemma tracks_set s H st st' k0 e dl dr :
  k0 ∈ keys N -> local_terms e = terms_at (dir s k0) (T k0) ->
  s_htlcs st' = set (lkey s k0) e (s_htlcs st) ->
  balances st' = add2 (balances st) (amt k0 * dl, amt k0 * dr) ->
  tracks s H st -> tracks s (fun k => if decide (k = k0) then put_half e dl dr (H k) else H k) st'.
Proof.
  intros Hk0 He Eh Eb [H1 H2 H3 H4 H5]. constructor; rewrite ?Eh.
  - intros k. rewrite get_set. case_decide as Hd; subst.
    + by rewrite decide_True.
    + rewrite decide_False; [done|]. by intros ->%(inj (lkey s)).
  - intros k e'. rewrite get_set. case_decide as Hd; [|apply H2].
    apply (inj (lkey s)) in Hd as ->. by intros [= <-].
  - by apply keys_set.
  - intros x [->|Hx]%elem_of_keys_set; eauto.
  - assert (forall (f : Half -> Z) d, f (put_half e dl dr (H k0)) = f (H k0) + d ->
      zsum (fun k => amt k * f (H k)) (keys N) + amt k0 * d =
      zsum (fun k => amt k * f (if decide (k = k0) then put_half e dl dr (H k) else H k)) (keys N))
      as Hsum.
    { intros f d Hf. rewrite (zsum_update (fun k => amt k * f (if decide (k = k0) then _ else _))
        (fun k => amt k * f (H k)) _ k0 (NoDup_keys N) Hk0).
      - rewrite decide_True by done. rewrite Hf. lia.
      - intros k Hk. by rewrite decide_False. }
    rewrite Eb, H5. unfold add2. cbn [fst snd]. rewrite <- !Z.add_assoc.
    by rewrite (Hsum h_local dl), (Hsum h_remote dr).
Qed.

End Track.

(** The terms of an HTLC nobody has yet can be chosen. *)
Lemma tracks_retag N base T T' s H st k0 :
  (forall k, k <> k0 -> T k = T' k) -> H k0 = no_half ->
  tracks N base T s H st -> tracks N base T' s H st.
Proof.
  intros E H0 [H1 H2 H3 H4 H5].
  assert (forall (f : Half -> Z) k, f no_half = 0 ->
    amount_of (T k) * f (H k) = amount_of (T' k) * f (H k)) as Ef.
  { intros f k Hf. destruct (decide (k = k0)) as [->|Hne]; [rewrite H0, Hf; lia|by rewrite E]. }
  constructor; [done| |done..|].
  - intros k e Hk. destruct (decide (k = k0)) as [->|Hne]; [|rewrite <- E; eauto].
    pose proof (H1 k0) as Hn. rewrite H0, Hk in Hn. done.
  - rewrite H5. f_equal; (f_equal; apply zsum_ext; intros; by apply Ef).
Qed.
