(* ===== verification/ChannelPair.v ===== *)
(** * Two channels and the messages between them

    Two nodes run the handlers of Channel.v; what one sends the other receives in
    order.  A command adds an HTLC, settles one, changes the fee rate, signs, or delivers the next message
    ([exec], [run]); a command is refused when the code would not issue it, and a run
    ends when a handler throws or leaves the NORMAL state.  Each HTLC follows
    HtlcProtocol.v ([Inv]) and the commitment numbers, the per-commitment points and
    the revealed secrets stay in step ([in_step]). *)

From stdpp Require Import sets.
From Stdlib Require Import Strings.Byte Sorting.Permutation.
From S2P Require Import Prelude Buffer JsMap ShaChain CommitmentTx Scripts.
From S2P Require Import WireBasic WireUpdate WireCommitment.
From S2P Require Import ChannelTypes CommitmentBuilder HtlcPolicy HtlcAdmission Channel ChannelFee HtlcProtocol ChannelEntries.
From S2P Require Import ChannelTrack.
Local Open Scope Z_scope.

(** A message on its way, with the state its sender had. *)
Record Flight := { f_msg : ChannelMessage; f_from : IChannelState }.

Record World := { chan : Peer -> IChannelState; out : Peer -> list Flight }.

Definition upd {A} (s : Peer) (x : A) (f : Peer -> A) : Peer -> A :=
  fun s' => if decide (s' = s) then x else f s'.

Lemma upd_same {A} s (x : A) f : upd s x f s = x.
Proof. unfold upd. by rewrite decide_True. Qed.

Lemma upd_other {A} s (x : A) f : upd s x f (other s) = f (other s).
Proof. unfold upd. by rewrite decide_False by apply other_ne. Qed.

Lemma upd_other' {A} s (x : A) f : upd (other s) x f s = f s.
Proof. unfold upd. rewrite decide_False; [done|]. intros E. by apply (other_ne s). Qed.

Definition sent (from : IChannelState) (actions : list ChannelAction) : list Flight :=
  omap (fun a => match a with
                 | SEND_MESSAGE m => Some {| f_msg := m; f_from := from |}
                 | _ => None
                 end) actions.

Inductive Command :=
| CAdd (s : Peer) (quiescing : bool) (currentBlockHeight amountMsat : Z) (paymentHash : buffer)
    (cltvExpiry : Z) (onion : buffer) (blindingPoint : option buffer) (skimmed : option Z)
| CFulfill (s : Peer) (quiescing : bool) (id : Z) (preimage : buffer)
| CFail (s : Peer) (quiescing : bool) (id : Z) (reason : buffer)
| CMalformed (s : Peer) (quiescing : bool) (id : Z) (sha256OfOnion : buffer) (code : Z)
| CFee (s : Peer) (quiescing : bool) (feeratePerKw : Z)
| CSign (s : Peer) (htlcSignatures : list buffer)
| CDeliver (s : Peer) (peerHasSentStfu : bool) (currentBlockHeight : Z).

(** A node settles what it has been handed: HTLC_FORWARDED comes once the add is
    irrevocable. *)
Definition settle_ready (id : Z) (st : IChannelState) : bool :=
  match get (htlc_key RECEIVED id) (s_htlcs st) with
  | Some e => receivedAddIrrevocablyCommitted e || removed e
  | None => true
  end.

Section World.
Context `{L : BitcoinLib}.
Context (signCommitmentTx : Peer -> Transaction -> buffer -> Z -> buffer)
        (verifyCommitmentSig : Transaction -> buffer -> buffer -> buffer -> Z -> bool)
        (verifyRemoteHtlcSignatures : IChannelState -> buffer -> list buffer -> bool)
        (ecc_isPoint : buffer -> bool).

(** ** The sender's side of a commitment_signed (channel-manager.ts)

    The second-level signatures are an argument. *)

Definition signRemoteCommitment (sign : Transaction -> buffer -> Z -> buffer)
    (htlcSignatures : list buffer) (st : IChannelState) (point : buffer) (n : Z)
    : result (buffer * list buffer) :=
  built ← buildRemoteCommitment st point (Some n);
  Ok (sign (r_tx (b_result built)) (b_fundingWitnessScript built) (b_fundingAmount built),
      htlcSignatures).

Definition autoSignAndSendCommitment (sign : Transaction -> buffer -> Z -> buffer)
    (htlcSignatures : list buffer) (st : IChannelState) : outcome :=
  if negb (flag_true (s_needsCommitment st)) then (st, Ok [])
  else if isAwaitingRemoteRevocation st then (st, Ok [])
  else match signing_point st with
  | None => (st, Ok [])
  | Some perCommitPoint =>
      let nextCommitNum := s_remoteCommitmentNumber st + 1 in
      match signRemoteCommitment sign htlcSignatures st perCommitPoint nextCommitNum with
      | Err e => (st, Err e)
      | Ok (signature, htlcSignatures) => signCommitment signature htlcSignatures None st
      end
  end.

Definition receive (peerHasSentStfu : bool) (currentBlockHeight : Z) (m : ChannelMessage)
    (st : IChannelState) : outcome :=
  match m with
  | UPDATE_ADD m => handleUpdateAddHtlc peerHasSentStfu currentBlockHeight m st
  | UPDATE_FULFILL m => handleUpdateFulfillHtlc m st
  | UPDATE_FAIL m => handleUpdateFailHtlc m st
  | UPDATE_MALFORMED m => handleUpdateFailMalformedHtlc m st
  | COMMIT m => handleCommitmentSigned verifyCommitmentSig verifyRemoteHtlcSignatures m st
  | REVOKE m => handleRevokeAndAck ecc_isPoint m st
  | UPDATE_FEERATE m => handleUpdateFee m st
  | WIRE_ERROR _ _ => (st, Err "not part of a run")
  end.

(** The handler returned and the channel is still in its NORMAL state. *)
Definition alive (o : outcome) : option (IChannelState * list ChannelAction) :=
  match o with
  | (st, Ok actions) => if bool_decide (s_state st = CHANNEL_NORMAL) then Some (st, actions)
                        else None
  | (_, Err _) => None
  end.

Definition call (s : Peer) (o : outcome) (w : World) : option World :=
  '(st, actions) ← alive o;
  Some {| chan := upd s st (chan w);
          out := upd s (out w s ++ sent (chan w s) actions) (out w) |}.

Definition deliver (s : Peer) (stfu : bool) (height : Z) (w : World) : option World :=
  match out w s with
  | [] => None
  | f :: rest =>
      let r := other s in
      '(st, actions) ← alive (receive stfu height (f_msg f) (chan w r));
      Some {| chan := upd r st (chan w);
              out := upd s rest (upd r (out w r ++ sent (chan w r) actions) (out w)) |}
  end.

Definition exec (c : Command) (w : World) : option World :=
  match c with
  | CAdd s q height amount hash cltv onion bp skimmed =>
      call s (addHtlc q height amount hash cltv onion bp skimmed (chan w s)) w
  | CFulfill s q id preimage =>
      if settle_ready id (chan w s) then call s (fulfillHtlc q id preimage (chan w s)) w else None
  | CFail s q id reason =>
      if settle_ready id (chan w s) then call s (failHtlc q id reason RECEIVED (chan w s)) w
      else None
  | CMalformed s q id sha code =>
      if settle_ready id (chan w s) then call s (failMalformedHtlc q id sha code (chan w s)) w
      else None
  | CFee s q feeratePerKw => call s (updateFee q feeratePerKw (chan w s)) w
  | CSign s hs => call s (autoSignAndSendCommitment (signCommitmentTx s) hs (chan w s)) w
  | CDeliver s stfu height => deliver s stfu height w
  end.

Fixpoint run (cs : list Command) (w : World) : option World :=
  match cs with
  | [] => Some w
  | c :: cs => w ← exec c w; run cs w
  end.

End World.

(** ** The start of a run *)

Section Protocol.
Context `{L : BitcoinLib}.

(** Two channels just after channel_ready: no HTLC, no pending fee or lease height,
    commitment number zero on both sides, and the same opening terms. *)
Record opened (init : Peer -> IChannelState) : Prop := {
  o_state s : s_state (init s) = CHANNEL_NORMAL;
  o_htlcs s : s_htlcs (init s) = [];
  o_fee s : s_pendingFeeratePerKw (init s) = None;
  o_lease s : s_pendingLeaseBlockheight (init s) = None;
  o_anchor s : isAnchorChannel (s_channelType (init s)) = true;
  o_plain s : isTaprootChannel (s_channelType (init s)) = false;
  o_mirror s : mirrored (init s) (init (other s));
  o_feerate s : committedFeeRate (init s) = committedFeeRate (init (other s));
  o_height s : s_leaseCommitBlockheight (init s) = s_leaseCommitBlockheight (init (other s));
  o_balance s : s_remoteBalanceMsat (init s) = s_localBalanceMsat (init (other s));
  o_numbers s : numbers (init s) = (0, 0, Some 0, 0);
  o_secrets s : s_shaChainStore (init s) = new_store;
  o_seed s : blen (s_localPerCommitmentSeed (init s)) = 32;
  o_point s : exists p, s_remoteCurrentPerCommitmentPoint (init s) = Some p /\
    getPerCommitmentPoint (s_localPerCommitmentSeed (init (other s))) 0 = Ok p;
  o_next s : exists p, s_remoteNextPerCommitmentPoint (init s) = Some p /\
    getPerCommitmentPoint (s_localPerCommitmentSeed (init (other s))) 1 = Ok p
}.

Definition begin (init : Peer -> IChannelState) : World :=
  {| chan := init; out := fun _ => [] |}.

(** ** Each HTLC follows its protocol *)

Definition half (s : Peer) (k : Key) (p : Pair) : Half :=
  if decide (k.1 = s) then p_offerer p else p_receiver p.

(** The messages of [s] that concern the HTLC. *)
Definition stream (s : Peer) (k : Key) (p : Pair) : list Token :=
  if decide (k.1 = s) then p_forth p else p_back p.

(** [p'] is [p] where side [s] has the half [h], has [mine] under way, and [theirs] is
    under way to it. *)
Record moved (s : Peer) (k : Key) (p p' : Pair) (h : Half) (mine theirs : list Token) (added : bool)
    : Prop := {
  mv_reach : p' ∈ reachable;
  mv_half : half s k p' = h;
  mv_other : half (other s) k p' = half (other s) k p;
  mv_mine : stream s k p' = mine;
  mv_theirs : stream (other s) k p' = theirs;
  mv_added : p_added p' = added
}.

Definition sign_event (s : Peer) (k : Key) : Event :=
  if decide (k.1 = s) then ESignOfferer else ESignReceiver.

(** [s] takes the next message of its peer. *)
Definition take_event (s : Peer) (k : Key) : Event :=
  if decide (k.1 = s) then EBack else EForth.

Ltac by_sides s k :=
  destruct s, k as [[] ?]; unfold half, stream, sign_event, take_event in *; cbn in *;
  repeat match goal with
         | H : context [decide ?P] |- _ =>
             first [rewrite (decide_True (P := P)) in H by done | rewrite (decide_False (P := P)) in H by done]
         | |- context [decide ?P] =>
             first [rewrite (decide_True (P := P)) by done | rewrite (decide_False (P := P)) by done]
         end; cbn in *.

Lemma moved_sign s k p :
  p ∈ reachable -> awaiting (stream s k p) (stream (other s) k p) = false ->
  moved s k p (fire (sign_event s k) p) (sign_half (half s k p))
    (stream s k p ++ [TCommit (remote_view (half s k p))]) (stream (other s) k p) (p_added p).
Proof.
  intros Hp Ha. pose proof (fire_reachable (sign_event s k) p Hp) as Hr.
  by_sides s k; rewrite Ha in *; by constructor.
Qed.

Lemma moved_add s i p :
  p ∈ reachable -> p_added p = false ->
  moved s (s, i) p (fire EAdd p) (add_offered (half s (s, i) p))
    (stream s (s, i) p ++ [TAdd]) (stream (other s) (s, i) p) true.
Proof.
  intros Hp Ha. pose proof (fire_reachable EAdd p Hp) as Hr.
  cbn in Hr. cbn. rewrite Ha in *. destruct s; by constructor.
Qed.

Lemma moved_settle s i p fulfill :
  p ∈ reachable -> may_settle (half s (other s, i) p) = true ->
  moved s (other s, i) p (fire (ESettle fulfill) p)
    (settle_received (intent_of fulfill) (half s (other s, i) p))
    (stream s (other s, i) p ++ [TSettle (intent_of fulfill)]) (stream (other s) (other s, i) p)
    (p_added p).
Proof.
  intros Hp Ha. pose proof (fire_reachable (ESettle fulfill) p Hp) as Hr.
  assert (half s (other s, i) p = p_receiver p) as E by (by destruct s).
  rewrite E in *. cbn in Hr. cbn. rewrite Ha in *. destruct s; by constructor.
Qed.

Lemma moved_take_commit s k p v rest :
  p ∈ reachable -> stream (other s) k p = TCommit v :: rest ->
  moved s k p (fire (take_event s k) p) (commit_half (half s k p))
    (stream s k p ++ [TRevoke]) rest (p_added p).
Proof.
  intros Hp Hs. pose proof (fire_reachable (take_event s k) p Hp) as Hr.
  by_sides s k; unfold deliver_forth, deliver_back in *; rewrite Hs in *; by constructor.
Qed.

Lemma moved_take_revoke s k p rest :
  p ∈ reachable -> stream (other s) k p = TRevoke :: rest ->
  moved s k p (fire (take_event s k) p) (revoke_half (half s k p))
    (stream s k p) rest (p_added p).
Proof.
  intros Hp Hs. pose proof (fire_reachable (take_event s k) p Hp) as Hr.
  by_sides s k; unfold deliver_forth, deliver_back in *; rewrite Hs in *; by constructor.
Qed.

Lemma moved_take_add s i p rest :
  let k := (other s, i) in
  p ∈ reachable -> stream (other s) k p = TAdd :: rest ->
  moved s k p (fire (take_event s k) p) (add_received (half s k p)) (stream s k p) rest (p_added p)
  /\ h_entry (half s k p) = None.
Proof.
  intros k Hp Hs. pose proof (fire_reachable (take_event s k) p Hp) as Hr. subst k.
  assert (half s (other s, i) p = p_receiver p) as E by (by destruct s). rewrite E.
  assert (stream (other s) (other s, i) p = p_forth p) as E' by (by destruct s). rewrite E' in Hs.
  assert (take_event s (other s, i) = EForth) as Ee by (by destruct s). rewrite Ee in *.
  split; [|apply reachable_facts in Hp; by eapply (f_add _ Hp)].
  cbn in *. unfold deliver_forth in *. rewrite Hs in *. destruct s; by constructor.
Qed.

(** The offerer never refuses a settle. *)
Lemma moved_take_settle s i p intent rest :
  let k := (s, i) in
  p ∈ reachable -> stream (other s) k p = TSettle intent :: rest ->
  exists e, h_entry (half s k p) = Some e /\ (e_state e = COMMITTED /\ e_state e <> intent) /\ _addNotYetCommitted e = false /\
  moved s k p (fire (take_event s k) p)
    {| h_entry := Some (peer_settle_entry intent e); h_local := h_local (half s k p);
       h_remote := h_remote (half s k p) |}
    (stream s k p) rest (p_added p).
Proof.
  intros k Hp Hs. pose proof (fire_reachable (take_event s k) p Hp) as Hr.
  pose proof (f_ok _ (reachable_facts _ Hr)) as Hf. subst k.
  assert (half s (s, i) p = p_offerer p) as E by (by destruct s). rewrite E.
  assert (stream (other s) (s, i) p = p_back p) as E' by (by destruct s). rewrite E' in Hs.
  assert (take_event s (s, i) = EBack) as Ee by (by destruct s). rewrite Ee in *.
  cbn in *. unfold deliver_back in *. rewrite Hs in *. unfold peer_settle_half in *.
  destruct (h_entry (p_offerer p)) as [e|] eqn:Ho; [|done]. exists e.
  pose proof (reachable_settle_lands _ _ _ _ Hp Hs Ho) as Hcom.
  destruct (bool_decide (e_state e = intent)) eqn:E1; [done|]. apply bool_decide_eq_false in E1.
  destruct (_addNotYetCommitted e); [done|]. cbn in *.
  split_and!; try done. destruct s; by constructor.
Qed.

Section Invariant.
Context (N : nat) (init : Peer -> IChannelState).

Definition base (s : Peer) : Z := s_localBalanceMsat (init s).

(** The state [from] of [s] signs, for its peer, a commitment with the views [v]. *)
Definition signed (T : Key -> Terms) (s : Peer) (from : IChannelState) (v : Key -> HtlcView)
    : Prop :=
  frame from = frame (init s) /\
  remote_balances from =
    (base (other s) + zsum (fun k => amount_of (T k) * v_holder (v k)) (keys N),
     base s + zsum (fun k => amount_of (T k) * v_other (v k)) (keys N)) /\
  Permutation (remote_set from) (carried N T (other s) v).

Definition only (k0 : Key) (t : Token) (k : Key) : list Token :=
  if decide (k = k0) then [t] else [].

(** What a message of [s] is for each HTLC. *)
Definition flight_ok (T : Key -> Terms) (s : Peer) (f : Flight) (g : Key -> list Token) : Prop :=
  match f_msg f with
  | UPDATE_ADD m =>
      (s, ua_id m) ∈ keys N /\
      T (s, ua_id m) = (ua_amountMsat m, ua_paymentHash m, ua_cltvExpiry m) /\
      forall k, g k = only (s, ua_id m) TAdd k
  | UPDATE_FULFILL m =>
      sha256 (ff_paymentPreimage m) = (T (other s, ff_id m)).1.2 /\
      forall k, g k = only (other s, ff_id m) (TSettle FULFILLED) k
  | UPDATE_FAIL m => forall k, g k = only (other s, uh_id m) (TSettle FAILED) k
  | UPDATE_MALFORMED m =>
      Z.land (um_failureCode m) 0x8000 <> 0 /\
      forall k, g k = only (other s, um_id m) (TSettle FAILED) k
  | COMMIT _ => exists v, (forall k, g k = [TCommit (v k)]) /\ signed T s (f_from f) v
  | REVOKE _ => forall k, g k = [TRevoke]
  | UPDATE_FEERATE _ => forall k, g k = []
  | WIRE_ERROR _ _ => False
  end.

Definition tokens (gs : list (Key -> list Token)) (k : Key) : list Token :=
  concat (map (fun g => g k) gs).

Record Inv (T : Key -> Terms) (G : Key -> Pair) (gs : Peer -> list (Key -> list Token))
    (w : World) : Prop := {
  i_reach k : G k ∈ reachable;
  i_chan s : tracks N base T s (fun k => half s k (G k)) (chan w s);
  i_flight s : Forall2 (flight_ok T s) (out w s) (gs s);
  i_stream s k : stream s k (G k) = tokens (gs s) k;
  i_added s i : p_added (G (s, i)) = (0 <=? i) && (i <? s_localHtlcCounter (chan w s));
  i_counter s : 0 <= s_localHtlcCounter (chan w s);
  i_frame s : frame (chan w s) = frame (init s)
}.

Lemma tracks_nothing T s st :
  s_htlcs st = [] -> balances st = (base s, base (other s)) ->
  tracks N base T s (fun k => half s k start) st.
Proof.
  intros Hh Hb.
  assert (forall k, half s k start = no_half) as E by (intros k; unfold half; by destruct (decide _)).
  constructor; rewrite ?Hh; try done; try (intros x Hx; by apply elem_of_nil in Hx).
  - intros k. by rewrite E.
  - constructor.
  - rewrite Hb. f_equal; (rewrite (zsum_ext _ (fun _ => 0));
      [induction (keys N); cbn in *; lia | intros; rewrite E; cbn; lia]).
Qed.

Lemma inv_begin T : opened init -> Inv T (fun _ => start) (fun _ => []) (begin init).
Proof.
  intros Ho. constructor; cbn.
  - intros _. apply start_reachable.
  - intros s. apply tracks_nothing; [apply (o_htlcs _ Ho)|]. unfold balances.
    by rewrite (o_balance _ Ho).
  - constructor.
  - intros s k. unfold stream. by destruct (decide _).
  - intros s i. pose proof (o_numbers _ Ho s) as E. injection E as _ _ _ ->.
    destruct (Z.leb_spec 0 i), (Z.ltb_spec i 0); try done; lia.
  - intros s. pose proof (o_numbers _ Ho s) as E. injection E as _ _ _ ->. lia.
  - done.
Qed.

(** ** One step *)

Lemma tokens_app gs g k : tokens (gs ++ [g]) k = tokens gs k ++ g k.
Proof. unfold tokens. rewrite map_app, concat_app. cbn. by rewrite app_nil_r. Qed.

Lemma tokens_cons g gs k : tokens (g :: gs) k = g k ++ tokens gs k.
Proof. reflexivity. Qed.

Lemma side_cases s s' : s' = s \/ s' = other s.
Proof. destruct s, s'; auto. Qed.

(** Side [s] acts: its channel becomes [st'], each HTLC moves. *)
Lemma inv_move T G gs w s st' mine theirs G' H' gm gt added :
  Inv T G gs w ->
  (forall k, moved s k (G k) (G' k) (H' k) (tokens gm k) (tokens gt k) (added k)) ->
  tracks N base T s H' st' -> frame st' = frame (init s) ->
  Forall2 (flight_ok T s) mine gm -> Forall2 (flight_ok T (other s)) theirs gt ->
  (forall i, added (s, i) = (0 <=? i) && (i <? s_localHtlcCounter st')) ->
  (forall i, added (other s, i) = p_added (G (other s, i))) ->
  0 <= s_localHtlcCounter st' ->
  Inv T G' (upd s gm (upd (other s) gt gs))
    {| chan := upd s st' (chan w); out := upd s mine (upd (other s) theirs (out w)) |}.
Proof.
  intros I Hm Ht Hf Fm Ft Ha Ha' Hc.
  constructor; cbn [chan out].
  - intros k. apply (mv_reach _ _ _ _ _ _ _ _ (Hm k)).
  - intros s'. destruct (side_cases s s') as [->| ->].
    + rewrite upd_same. eapply tracks_ext; [|exact Ht]. intros k.
      by rewrite (mv_half _ _ _ _ _ _ _ _ (Hm k)).
    + rewrite upd_other. eapply tracks_ext; [|apply (i_chan _ _ _ _ I)]. intros k. cbn.
      by rewrite (mv_other _ _ _ _ _ _ _ _ (Hm k)).
  - intros s'. destruct (side_cases s s') as [->| ->]; rewrite ?upd_same, ?upd_other, ?upd_same; done.
  - intros s' k. destruct (side_cases s s') as [->| ->]; rewrite ?upd_same, ?upd_other, ?upd_same.
    + by rewrite (mv_mine _ _ _ _ _ _ _ _ (Hm k)).
    + by rewrite (mv_theirs _ _ _ _ _ _ _ _ (Hm k)).
  - intros s' i. rewrite (mv_added _ _ _ _ _ _ _ _ (Hm _)).
    destruct (side_cases s s') as [->| ->]; rewrite ?upd_same, ?upd_other; [done|].
    rewrite Ha'. apply (i_added _ _ _ _ I).
  - intros s'. destruct (side_cases s s') as [->| ->]; rewrite ?upd_same, ?upd_other; [done|].
    apply (i_counter _ _ _ _ I).
  - intros s'. destruct (side_cases s s') as [->| ->]; rewrite ?upd_same, ?upd_other; [done|].
    apply (i_frame _ _ _ _ I).
Qed.

Lemma moved_refl s k p : p ∈ reachable ->
  moved s k p p (half s k p) (stream s k p) (stream (other s) k p) (p_added p).
Proof. by constructor. Qed.

Definition Holds (w : World) : Prop := exists T G gs, Inv T G gs w.

(** [s] acts on its own: nothing is taken from its peer. *)
Definition acted (s : Peer) (st' : IChannelState) (m : list Flight) (w : World) : World :=
  {| chan := upd s st' (chan w); out := upd s (out w s ++ m) (out w) |}.

(** [s] takes the first message of its peer, of which [rest] remain. *)
Definition took (s : Peer) (st' : IChannelState) (m rest : list Flight) (w : World) : World :=
  {| chan := upd s st' (chan w); out := upd (other s) rest (upd s (out w s ++ m) (out w)) |}.

Lemma inv_ext T G gs gs' w w' :
  (forall s, chan w s = chan w' s) -> (forall s, out w s = out w' s) -> (forall s, gs s = gs' s) ->
  Inv T G gs w -> Inv T G gs' w'.
Proof.
  intros E1 E2 E3 [I1 I2 I3 I4 I5 I6 I7].
  constructor; intros; rewrite <- ?E1, <- ?E2, <- ?E3; auto.
Qed.

Lemma holds_acted T G gs w s st' m G' H' gm added :
  Inv T G gs w ->
  (forall k, moved s k (G k) (G' k) (H' k) (tokens (gs s ++ gm) k) (stream (other s) k (G k))
               (added k)) ->
  tracks N base T s H' st' -> frame st' = frame (init s) ->
  Forall2 (flight_ok T s) m gm ->
  (forall i, added (s, i) = (0 <=? i) && (i <? s_localHtlcCounter st')) ->
  (forall i, added (other s, i) = p_added (G (other s, i))) ->
  0 <= s_localHtlcCounter st' ->
  Holds (acted s st' m w).
Proof.
  intros I Hm Ht Hf Fm Ha Ha' Hc. exists T, G', (upd s (gs s ++ gm) (upd (other s) (gs (other s)) gs)).
  eapply inv_ext; [..|eapply (inv_move T G gs w s st' (out w s ++ m) (out w (other s)))].
  - done.
  - intros s'. cbn. destruct (side_cases s s') as [->| ->]; rewrite ?upd_same, ?upd_other, ?upd_same; done.
  - done.
  - done.
  - intros k. rewrite <- (i_stream _ _ _ _ I). apply Hm.
  - done.
  - done.
  - apply Forall2_app; [apply (i_flight _ _ _ _ I) | done].
  - apply (i_flight _ _ _ _ I).
  - done.
  - done.
  - done.
Qed.

Lemma holds_took T G gs w s st' m f rest g gt G' H' gm :
  Inv T G gs w -> gs (other s) = g :: gt -> out w (other s) = f :: rest ->
  (forall k, moved s k (G k) (G' k) (H' k) (tokens (gs s ++ gm) k) (tokens gt k) (p_added (G k))) ->
  tracks N base T s H' st' -> frame st' = frame (init s) ->
  s_localHtlcCounter st' = s_localHtlcCounter (chan w s) ->
  Forall2 (flight_ok T s) m gm ->
  Holds (took s st' m rest w).
Proof.
  intros I Eg Eo Hm Ht Hf Hc Fm. exists T, G', (upd s (gs s ++ gm) (upd (other s) gt gs)).
  pose proof (i_flight _ _ _ _ I (other s)) as Ff. rewrite Eg, Eo in Ff.
  apply Forall2_cons_1 in Ff as [_ Ff].
  eapply inv_ext; [..|eapply (inv_move T G gs w s st' (out w s ++ m) rest)].
  - done.
  - intros s'. cbn. destruct (side_cases s s') as [->| ->];
      rewrite ?upd_same, ?upd_other, ?upd_other', ?upd_same; done.
  - done.
  - done.
  - exact Hm.
  - done.
  - done.
  - apply Forall2_app; [apply (i_flight _ _ _ _ I) | done].
  - done.
  - intros i. rewrite Hc. apply (i_added _ _ _ _ I).
  - done.
  - rewrite Hc. apply (i_counter _ _ _ _ I).
Qed.

(** *** Signing *)

Definition is_COMMIT (f : Flight) : bool := match f_msg f with COMMIT _ => true | _ => false end.
Definition is_REVOKE (f : Flight) : bool := match f_msg f with REVOKE _ => true | _ => false end.

Lemma flight_kind T s f g k : flight_ok T s f g ->
  existsb is_commit (g k) = is_COMMIT f /\ existsb is_revoke (g k) = is_REVOKE f.
Proof.
  unfold flight_ok, is_COMMIT, is_REVOKE, only. intros H. destruct (f_msg f);
    repeat match goal with
           | H : exists _, _ |- _ => destruct H
           | H : _ /\ _ |- _ => destruct H
           | H : forall k, g k = _ |- _ => rewrite H
           end; try case_decide; done.
Qed.

Lemma awaiting_tokens T s l gs s' l' gs' k :
  Forall2 (flight_ok T s) l gs -> Forall2 (flight_ok T s') l' gs' ->
  awaiting (tokens gs k) (tokens gs' k) = existsb is_COMMIT l || existsb is_REVOKE l'.
Proof.
  intros H1 H2. unfold awaiting. f_equal.
  - clear H2. induction H1 as [|f g l1 gs1 Hf _ IH]; [done|]. rewrite tokens_cons, existsb_app, IH.
    cbn [existsb]. by destruct (flight_kind _ _ _ _ k Hf) as [-> _].
  - clear H1. induction H2 as [|f g l1 gs1 Hf _ IH]; [done|]. rewrite tokens_cons, existsb_app, IH.
    cbn [existsb]. by destruct (flight_kind _ _ _ _ k Hf) as [_ ->].
Qed.

Lemma holds_sign T G gs w s sig hs part m :
  Inv T G gs w -> existsb is_COMMIT (out w s) || existsb is_REVOKE (out w (other s)) = false ->
  Holds (acted s (sign_writes sig hs part (chan w s)) [{| f_msg := COMMIT m; f_from := chan w s |}] w).
Proof.
  intros I Ha. pose proof (view_sign sig hs part (chan w s)) as (_ & _ & Ef & En)%view_inv.
  apply numbers_inv in En as (_ & _ & _ & Ec).
  eapply (holds_acted T G gs w s _ _ (fun k => fire (sign_event s k) (G k))
    (fun k => sign_half (half s k (G k))) [fun k => [TCommit (remote_view (half s k (G k)))]]
    (fun k => p_added (G k)) I).
  - intros k. rewrite tokens_app, <- (i_stream _ _ _ _ I).
    apply moved_sign; [apply (i_reach _ _ _ _ I)|].
    rewrite !(i_stream _ _ _ _ I), (awaiting_tokens T s (out w s) _ (other s) (out w (other s)));
      [done|apply (i_flight _ _ _ _ I)..].
  - apply tracks_sign, (i_chan _ _ _ _ I).
  - rewrite Ef. apply (i_frame _ _ _ _ I).
  - constructor; [|constructor]. exists (fun k => remote_view (half s k (G k))). split; [done|].
    pose proof (i_chan _ _ _ _ I s) as Ht. split_and!.
    + apply (i_frame _ _ _ _ I).
    + apply (remote_balances_sum N base T s _ _ Ht).
    + apply (remote_set_carried N base T s _ _ Ht).
  - intros i. rewrite Ec. apply (i_added _ _ _ _ I).
  - done.
  - rewrite Ec. apply (i_counter _ _ _ _ I).
Qed.

(** *** Taking a message *)

Lemma head_tokens T G gs w s f rest :
  Inv T G gs w -> out w s = f :: rest ->
  exists g gt, gs s = g :: gt /\ flight_ok T s f g /\
    forall k, stream s k (G k) = g k ++ tokens gt k.
Proof.
  intros I E. pose proof (i_flight _ _ _ _ I s) as F. rewrite E in F.
  apply Forall2_cons_inv_l in F as (g & gt & Hf & _ & Eg). exists g, gt. split_and!; [done..|].
  intros k. rewrite (i_stream _ _ _ _ I), Eg. apply tokens_cons.
Qed.

Lemma frame_pending a b : frame a = frame b ->
  s_pendingLeaseBlockheight a = s_pendingLeaseBlockheight b.
Proof. unfold frame. congruence. Qed.

Lemma holds_take_commit T G gs w s f rest m msg secret point :
  Inv T G gs w -> out w (other s) = f :: rest -> f_msg f = COMMIT m ->
  Holds (took s (record_revocation secret point (advance_local (accept_signature m (chan w s))))
           [{| f_msg := REVOKE msg; f_from := chan w s |}] rest w).
Proof.
  intros I Eo Em. destruct (head_tokens _ _ _ _ _ _ _ I Eo) as (g & gt & Eg & Hf & Hs).
  unfold flight_ok in Hf. rewrite Em in Hf. destruct Hf as (v & Hv & _).
  pose proof (view_commit m secret point (chan w s)) as (_ & _ & Ef & En)%view_inv.
  apply numbers_inv in En as (_ & _ & _ & Ec).
  eapply (holds_took T G gs w s _ _ f rest g gt (fun k => fire (take_event s k) (G k))
    (fun k => commit_half (half s k (G k))) [fun _ => [TRevoke]] I Eg Eo).
  - intros k. rewrite tokens_app, <- (i_stream _ _ _ _ I).
    apply (moved_take_commit s k _ (v k)); [apply (i_reach _ _ _ _ I)|]. by rewrite Hs, Hv.
  - apply tracks_commit, (i_chan _ _ _ _ I).
  - rewrite Ef. apply (i_frame _ _ _ _ I).
  - done.
  - by repeat constructor.
Qed.

Lemma holds_take_revoke T G gs w s f rest m store n point :
  opened init ->
  Inv T G gs w -> out w (other s) = f :: rest -> f_msg f = REVOKE m ->
  Holds (took s (map_entries mark_forwarded (revoke_writes
      (set_remoteNextPerCommitmentPoint point (store_secret store n (chan w s))))) [] rest w).
Proof.
  intros Ho I Eo Em. destruct (head_tokens _ _ _ _ _ _ _ I Eo) as (g & gt & Eg & Hf & Hs).
  unfold flight_ok in Hf. rewrite Em in Hf.
  pose proof (i_chan _ _ _ _ I s) as Ht.
  pose proof (frame_pending _ _ (i_frame _ _ _ _ I s)) as Hlease. rewrite (o_lease _ Ho) in Hlease.
  destruct (view_revoke store n point (chan w s) (t_nodup _ _ _ _ _ _ Ht) Hlease)
    as (_ & _ & _ & _ & Ef & En).
  apply numbers_inv in En as (_ & _ & _ & Ec).
  eapply (holds_took T G gs w s _ _ f rest g gt (fun k => fire (take_event s k) (G k))
    (fun k => revoke_half (half s k (G k))) [] I Eg Eo).
  - intros k. rewrite app_nil_r, <- (i_stream _ _ _ _ I).
    apply moved_take_revoke; [apply (i_reach _ _ _ _ I)|]. by rewrite Hs, Hf.
  - by apply tracks_revoke.
  - rewrite Ef. apply (i_frame _ _ _ _ I).
  - done.
  - constructor.
Qed.

Lemma view_put h st r dl dr :
  dl = 0 -> r = s_remoteBalanceMsat st + dr ->
  view (set_remoteBalanceMsat r (set_htlcs h st)) =
  (h, add2 (balances st) (dl, dr), frame st, numbers st).
Proof. intros -> ->. unfold add2, balances. cbn [fst snd]. by rewrite Z.add_0_r. Qed.

Lemma view_put_same h st a :
  view (set_htlcs h st) = (h, add2 (balances st) (a * 0, a * 0), frame st, numbers st).
Proof. unfold add2, balances. cbn [fst snd]. by rewrite Z.mul_0_r, !Z.add_0_r. Qed.

(** A message about one HTLC. *)
Lemma holds_take_one T G gs w s st' f rest g gt k0 ev e dl dr :
  Inv T G gs w -> gs (other s) = g :: gt -> out w (other s) = f :: rest ->
  (forall k, k <> k0 -> g k = []) -> k0 ∈ keys N ->
  moved s k0 (G k0) (fire ev (G k0)) (put_half e dl dr (half s k0 (G k0))) (stream s k0 (G k0))
    (tokens gt k0) (p_added (G k0)) ->
  local_terms e = terms_at (dir s k0) (T k0) ->
  view st' = (set (lkey s k0) e (s_htlcs (chan w s)),
              add2 (balances (chan w s)) (amount_of (T k0) * dl, amount_of (T k0) * dr),
              frame (chan w s), numbers (chan w s)) ->
  Holds (took s st' [] rest w).
Proof.
  intros I Eg Eo Hg Hk0 Hm He (E1 & E2 & E3 & E4)%view_inv.
  eapply (holds_took T G gs w s _ _ f rest g gt
    (fun k => if decide (k = k0) then fire ev (G k) else G k)
    (fun k => if decide (k = k0) then put_half e dl dr (half s k (G k)) else half s k (G k))
    [] I Eg Eo).
  - intros k. rewrite app_nil_r, <- (i_stream _ _ _ _ I). case_decide as Hk; [by subst|].
    pose proof (moved_refl s k _ (i_reach _ _ _ _ I k)) as Hr.
    rewrite (i_stream _ _ _ _ I (other s)), Eg, tokens_cons, (Hg k Hk) in Hr. exact Hr.
  - eapply tracks_set; [done..|apply (i_chan _ _ _ _ I)].
  - rewrite E3. apply (i_frame _ _ _ _ I).
  - unfold numbers in E4. by injection E4.
  - constructor.
Qed.

Lemma only_ne k0 t k : k <> k0 -> only k0 t k = [].
Proof. intros H. unfold only. by rewrite decide_False. Qed.

Lemma only_eq k t : only k t k = [t].
Proof. unfold only. by rewrite decide_True. Qed.

Lemma lkey_received s i : lkey s (other s, i) = htlc_key RECEIVED i.
Proof. unfold lkey, dir. cbn. by rewrite decide_False by apply other_ne. Qed.

Lemma lkey_offered s i : lkey s (s, i) = htlc_key OFFERED i.
Proof. unfold lkey, dir. cbn. by rewrite decide_True. Qed.

Lemma dir_received s i : dir s (other s, i) = RECEIVED.
Proof. unfold dir. cbn. by rewrite decide_False by apply other_ne. Qed.

Lemma dir_offered s i : dir s (s, i) = OFFERED.
Proof. unfold dir. cbn. by rewrite decide_True. Qed.

Lemma holds_take_add T G gs w s f rest m adm :
  Inv T G gs w -> out w (other s) = f :: rest -> f_msg f = UPDATE_ADD m ->
  get (htlc_key RECEIVED (ua_id m)) (s_htlcs (chan w s)) = None /\
  Holds (took s (set_remoteBalanceMsat (s_remoteBalanceMsat (chan w s) - ua_amountMsat m)
    (set_htlcs (set (htlc_key RECEIVED (ua_id m)) (received_entry adm m (chan w s))
                  (s_htlcs (chan w s))) (chan w s))) [] rest w).
Proof.
  intros I Eo Em. destruct (head_tokens _ _ _ _ _ _ _ I Eo) as (g & gt & Eg & Hf & Hs).
  unfold flight_ok in Hf. rewrite Em in Hf. destruct Hf as (Hk & HT & Hg).
  specialize (Hs (other s, ua_id m)) as Hs0. rewrite Hg, only_eq in Hs0.
  destruct (moved_take_add s (ua_id m) _ (tokens gt _) (i_reach _ _ _ _ I _) Hs0) as [Hm Hn].
  pose proof (i_chan _ _ _ _ I s) as Ht.
  pose proof (t_entry _ _ _ _ _ _ Ht (other s, ua_id m)) as He. cbn beta in He.
  rewrite Hn, lkey_received in He. split.
  { by destruct (get _ _). }
  eapply (holds_take_one T G gs w s _ f rest g gt (other s, ua_id m) (take_event s (other s, ua_id m))
    (received_entry adm m (chan w s)) 0 (-1) I Eg Eo).
  - intros k Hne. by rewrite Hg, only_ne.
  - done.
  - destruct Hm as [M1 M2 M3 M4 M5 M6]. constructor; try done. rewrite M2.
    unfold add_received, put_half. f_equal; lia.
  - rewrite HT, dir_received. reflexivity.
  - rewrite lkey_received, HT. apply view_put; unfold amount_of; cbn [fst snd]; lia.
Qed.

Lemma holds_take_settle T G gs w s f rest i intent g gt :
  Inv T G gs w -> out w (other s) = f :: rest -> gs (other s) = g :: gt ->
  (forall k, g k = only (s, i) (TSettle intent) k) ->
  exists e, get (htlc_key OFFERED i) (s_htlcs (chan w s)) = Some e /\
    (e_state e = COMMITTED /\ e_state e <> intent) /\ _addNotYetCommitted e = false /\ e_paymentHash e = (T (s, i)).1.2 /\
    Holds (took s (set_htlcs (set (htlc_key OFFERED i) (peer_settle_entry intent e)
                                 (s_htlcs (chan w s))) (chan w s)) [] rest w).
Proof.
  intros I Eo Eg Hg. pose proof (i_stream _ _ _ _ I (other s) (s, i)) as Hs.
  rewrite Eg, tokens_cons, Hg, only_eq in Hs.
  destruct (moved_take_settle s i _ intent (tokens gt _) (i_reach _ _ _ _ I _) Hs)
    as (e0 & He & Hi & Hc & Hm).
  pose proof (i_chan _ _ _ _ I s) as Ht.
  pose proof (t_entry _ _ _ _ _ _ Ht (s, i)) as Hq. cbn beta in Hq. rewrite He, lkey_offered in Hq.
  destruct (get (htlc_key OFFERED i) (s_htlcs (chan w s))) as [e|] eqn:E; [|done].
  cbn in Hq. injection Hq as ->. exists e.
  assert (local_terms e = terms_at OFFERED (T (s, i))) as HT.
  { rewrite <- (dir_offered s i). apply (t_terms _ _ _ _ _ _ Ht). by rewrite lkey_offered. }
  split_and!; [done|apply Hi|apply Hi|done| |].
  { by injection HT. }
  assert ((s, i) ∈ keys N) as Hk.
  { destruct (t_keys _ _ _ _ _ _ Ht (htlc_key OFFERED i)) as (k & Hk & Ek).
    { by eapply get_key. }
    rewrite <- (lkey_offered s i) in Ek. by apply (inj (lkey s)) in Ek as ->. }
  eapply (holds_take_one T G gs w s _ f rest g gt (s, i) (take_event s (s, i))
    (peer_settle_entry intent e) 0 0 I Eg Eo).
  - intros k Hne. by rewrite Hg, only_ne.
  - done.
  - destruct Hm as [M1 M2 M3 M4 M5 M6]. constructor; try done. rewrite M2.
    unfold put_half. f_equal; lia.
  - rewrite dir_offered. exact HT.
  - rewrite lkey_offered. apply (view_put_same _ _ (amount_of (T (s, i)))).
Qed.

(** *** Adding and settling *)

Lemma carried_retag T T' s v k0 :
  (forall k, k <> k0 -> T k = T' k) -> v k0 = no_view -> carried N T s v = carried N T' s v.
Proof.
  intros E Hv. unfold carried. apply map_ext_in. intros k Hk. apply filter_In in Hk as [_ Hk].
  rewrite E; [done|]. intros ->. by rewrite Hv in Hk.
Qed.

Lemma signed_retag T T' s from v k0 :
  (forall k, k <> k0 -> T k = T' k) -> v k0 = no_view -> signed T s from v -> signed T' s from v.
Proof.
  intros E Hv (H1 & H2 & H3). split_and!; [done| |by rewrite <- (carried_retag T T' _ _ k0)].
  rewrite H2. f_equal; (f_equal; apply zsum_ext; intros k _;
    destruct (decide (k = k0)) as [->|]; [rewrite Hv; cbn; lia | by rewrite E]).
Qed.

Lemma flight_retag T T' s f g k0 :
  (forall k, k <> k0 -> T k = T' k) ->
  (forall t, t ∈ g k0 -> t = TCommit no_view \/ t = TRevoke) ->
  flight_ok T s f g -> flight_ok T' s f g.
Proof.
  intros E Hg. unfold flight_ok.
  assert (forall k1 t, (forall k, g k = only k1 t k) -> t <> TRevoke -> (forall v, t <> TCommit v) ->
    k1 <> k0) as Hne.
  { intros k1 t Ho Hr Hc ->. assert (t ∈ g k0) as Ht by (rewrite Ho, only_eq; set_solver).
    destruct (Hg t Ht) as [->| ->]; [by eapply Hc | done]. }
  destruct (f_msg f).
  - intros (H1 & H2 & H3). split_and!; [done| |done]. rewrite <- E; [done|]. by eapply Hne.
  - intros (H1 & H2). split; [|done]. rewrite <- E; [done|]. by eapply Hne.
  - done.
  - done.
  - done.
  - intros (v & Hv & Hs). exists v. split; [done|]. apply (signed_retag T _ _ _ _ k0); [done| |done].
    assert (TCommit (v k0) ∈ g k0) as Ht by (rewrite Hv; set_solver).
    by destruct (Hg _ Ht) as [[= ->]|].
  - done.
  - done.
Qed.

Lemma inv_retag T T' G gs w k0 :
  (forall k, k <> k0 -> T k = T' k) -> p_added (G k0) = false ->
  Inv T G gs w -> Inv T' G gs w.
Proof.
  intros E Ha I. pose proof (f_fresh _ (reachable_facts _ (i_reach _ _ _ _ I k0)) Ha) as (F1 & F2 & F3).
  destruct I as [I1 I2 I3 I4 I5 I6 I7]. constructor; try done.
  - intros s. apply (tracks_retag N base T T' s _ _ k0); [done| |done].
    unfold half. by destruct (decide _).
  - intros s. specialize (I3 s). specialize (I4 s k0).
    assert (forall t, t ∈ tokens (gs s) k0 -> t = TCommit no_view \/ t = TRevoke) as Hidle.
    { intros t Ht. apply F3. rewrite <- I4 in Ht. unfold stream in Ht. apply elem_of_app.
      destruct (decide _); auto. }
    clear I4. induction I3 as [|f g l gs1 Hf _ IH]; constructor.
    + apply (flight_retag T T' _ _ _ k0); [done| |done]. intros t Ht. apply Hidle.
      rewrite tokens_cons. apply elem_of_app. by left.
    + apply IH. intros t Ht. apply Hidle. rewrite tokens_cons. apply elem_of_app. by right.
Qed.

(** An act of [s] about one HTLC. *)
Lemma holds_act_one T G gs w s st' m t k0 ev e dl dr added :
  Inv T G gs w -> k0 ∈ keys N ->
  moved s k0 (G k0) (fire ev (G k0)) (put_half e dl dr (half s k0 (G k0)))
    (stream s k0 (G k0) ++ [t]) (stream (other s) k0 (G k0)) added ->
  flight_ok T s m (only k0 t) ->
  local_terms e = terms_at (dir s k0) (T k0) ->
  view st' = (set (lkey s k0) e (s_htlcs (chan w s)),
              add2 (balances (chan w s)) (amount_of (T k0) * dl, amount_of (T k0) * dr),
              frame (chan w s), numbers st') ->
  (forall i, (if decide ((s, i) = k0) then added else p_added (G (s, i))) =
             (0 <=? i) && (i <? s_localHtlcCounter st')) ->
  (forall i, (other s, i) = k0 -> added = p_added (G k0)) ->
  0 <= s_localHtlcCounter st' ->
  Holds (acted s st' [m] w).
Proof.
  intros I Hk0 Hm Hf He (E1 & E2 & E3 & _)%view_inv Ha Ha' Hc.
  eapply (holds_acted T G gs w s _ _ (fun k => if decide (k = k0) then fire ev (G k) else G k)
    (fun k => if decide (k = k0) then put_half e dl dr (half s k (G k)) else half s k (G k))
    [only k0 t] (fun k => if decide (k = k0) then added else p_added (G k)) I).
  - intros k. rewrite tokens_app, <- (i_stream _ _ _ _ I). unfold only.
    case_decide as Hk; [by subst|]. rewrite app_nil_r.
    apply moved_refl, (i_reach _ _ _ _ I).
  - eapply tracks_set; [done..|apply (i_chan _ _ _ _ I)].
  - rewrite E3. apply (i_frame _ _ _ _ I).
  - by repeat constructor.
  - exact Ha.
  - intros i. case_decide as Hk; [|done]. rewrite (Ha' _ Hk). by rewrite Hk.
  - done.
Qed.

Lemma holds_settle T G gs w s i e fulfill msg st' :
  Inv T G gs w -> get (htlc_key RECEIVED i) (s_htlcs (chan w s)) = Some e ->
  receivedAddIrrevocablyCommitted e = true ->
  flight_ok T s {| f_msg := msg; f_from := chan w s |}
    (only (other s, i) (TSettle (intent_of fulfill))) ->
  view st' = (set (htlc_key RECEIVED i) (settle_entry (intent_of fulfill) e) (s_htlcs (chan w s)),
              balances (chan w s), frame (chan w s), numbers (chan w s)) ->
  Holds (acted s st' [{| f_msg := msg; f_from := chan w s |}] w).
Proof.
  intros I E Hr Hf V. pose proof (i_chan _ _ _ _ I s) as Ht.
  assert ((other s, i) ∈ keys N) as Hk.
  { destruct (t_keys _ _ _ _ _ _ Ht (htlc_key RECEIVED i)) as (k & Hk & Ek).
    { by eapply get_key. }
    rewrite <- (lkey_received s i) in Ek. by apply (inj (lkey s)) in Ek as ->. }
  pose proof (t_entry _ _ _ _ _ _ Ht (other s, i)) as He. cbn beta in He.
  rewrite lkey_received, E in He. cbn in He.
  assert (numbers st' = numbers (chan w s)) as En by (by apply view_inv in V as (_ & _ & _ & ?)).
  assert (s_localHtlcCounter st' = s_localHtlcCounter (chan w s)) as Ec
    by (unfold numbers in En; congruence).
  eapply (holds_act_one T G gs w s st' _ (TSettle (intent_of fulfill)) (other s, i)
    (ESettle fulfill) (settle_entry (intent_of fulfill) e) 0 0 _ I Hk).
  - assert (may_settle (half s (other s, i) (G (other s, i))) = true) as Hms
      by (unfold may_settle; by rewrite He).
    destruct (moved_settle s i _ fulfill (i_reach _ _ _ _ I _) Hms) as [M1 M2 M3 M4 M5 M6].
    constructor; try done. rewrite M2. unfold settle_received, put_half. rewrite He.
    rewrite !Z.add_0_r. done.
  - done.
  - rewrite <- (t_terms _ _ _ _ _ _ Ht (other s, i) e); [done|]. by rewrite lkey_received.
  - rewrite lkey_received, V, En. unfold add2, balances. cbn [fst snd].
    by rewrite Z.mul_0_r, !Z.add_0_r.
  - intros j. rewrite decide_False; [rewrite Ec; apply (i_added _ _ _ _ I)|].
    intros [= E' _]. by destruct (other_ne s).
  - done.
  - rewrite Ec. apply (i_counter _ _ _ _ I).
Qed.

Lemma holds_add T G gs w s amount hash cltv onion bp skimmed st' msg :
  Inv T G gs w -> s_localHtlcCounter (chan w s) < Z.of_nat N ->
  let i := s_localHtlcCounter (chan w s) in
  let e := with_addRemoteSigned (Some false) (with_addRemoteCommitted (Some false)
             (new_entry i amount hash cltv onion OFFERED bp)) in
  ua_id msg = i -> ua_amountMsat msg = amount -> ua_paymentHash msg = hash ->
  ua_cltvExpiry msg = cltv -> ua_skimmedFeeMsat msg = skimmed ->
  view st' = (set (htlc_key OFFERED i) e (s_htlcs (chan w s)),
              (s_localBalanceMsat (chan w s) - amount, s_remoteBalanceMsat (chan w s)),
              frame (chan w s),
              (s_localCommitmentNumber (chan w s), s_remoteCommitmentNumber (chan w s),
               s_remoteRevocationNumber (chan w s), i + 1)) ->
  Holds (acted s st' [{| f_msg := UPDATE_ADD msg; f_from := chan w s |}] w).
Proof.
  intros I Hi i e E1 E2 E3 E4 _ V. pose proof (i_counter _ _ _ _ I s) as Hc. fold i in Hi, Hc.
  set (k0 := (s, i)). assert (k0 ∈ keys N) as Hk by (apply elem_of_keys; lia).
  assert (p_added (G k0) = false) as Hn.
  { unfold k0. rewrite (i_added _ _ _ _ I). fold i. rewrite Z.ltb_irrefl. by rewrite andb_false_r. }
  set (T' := fun k => if decide (k = k0) then (amount, hash, cltv) else T k).
  assert (T' k0 = (amount, hash, cltv)) as HT by (unfold T'; by rewrite decide_True).
  assert (Inv T' G gs w) as I'.
  { apply (inv_retag T _ _ _ _ k0); [|done..]. intros k Hne. unfold T'. by rewrite decide_False. }
  assert (numbers st' = (s_localCommitmentNumber (chan w s), s_remoteCommitmentNumber (chan w s),
    s_remoteRevocationNumber (chan w s), i + 1)) as En by (by apply view_inv in V as (_ & _ & _ & ?)).
  apply numbers_inv in En as En'. destruct En' as (_ & _ & _ & Ec).
  eapply (holds_act_one T' G gs w s st' _ TAdd k0 EAdd e (-1) 0 true I' Hk).
  - destruct (moved_add s i _ (i_reach _ _ _ _ I k0) Hn) as [M1 M2 M3 M4 M5 M6].
    constructor; try done. fold k0 in M2. rewrite M2. unfold add_offered, put_half.
    rewrite Z.add_0_r. done.
  - unfold flight_ok. cbn. rewrite E1, E2, E3, E4. fold k0. done.
  - rewrite HT. unfold k0. by rewrite dir_offered.
  - unfold k0 at 1. rewrite lkey_offered, V, HT, En. unfold add2, balances, amount_of. cbn [fst snd].
    replace (amount * -1) with (- amount) by lia. by rewrite Z.mul_0_r, Z.add_0_r.
  - intros j. rewrite Ec. destruct (decide ((s, j) = k0)) as [[= ->]|Hne].
    + symmetry. apply andb_true_iff. split; [apply Z.leb_le | apply Z.ltb_lt]; lia.
    + rewrite (i_added _ _ _ _ I). f_equal. fold i.
      assert (j <> i) by (intros ->; by apply Hne).
      destruct (Z.ltb_spec j i), (Z.ltb_spec j (i + 1)); lia.
  - intros j [= E' _]. by destruct (other_ne s).
  - rewrite Ec. lia.
Qed.

(** *** Messages that concern no HTLC *)

Lemma holds_act_none T G gs w s st' f :
  Inv T G gs w -> flight_ok T s f (fun _ => []) -> view st' = view (chan w s) ->
  Holds (acted s st' [f] w).
Proof.
  intros I Hf (E1 & E2 & E3 & E4)%view_inv.
  assert (s_localHtlcCounter st' = s_localHtlcCounter (chan w s)) as Ec
    by (unfold numbers in E4; congruence).
  eapply (holds_acted T G gs w s st' _ G (fun k => half s k (G k)) [fun _ => []]
    (fun k => p_added (G k)) I).
  - intros k. rewrite tokens_app, <- (i_stream _ _ _ _ I), app_nil_r.
    apply moved_refl, (i_reach _ _ _ _ I).
  - eapply tracks_same; [done..|apply (i_chan _ _ _ _ I)].
  - rewrite E3. apply (i_frame _ _ _ _ I).
  - by repeat constructor.
  - intros i. rewrite Ec. apply (i_added _ _ _ _ I).
  - done.
  - rewrite Ec. apply (i_counter _ _ _ _ I).
Qed.

Lemma holds_take_none T G gs w s st' f rest :
  Inv T G gs w -> out w (other s) = f :: rest ->
  (forall g, flight_ok T (other s) f g -> forall k, g k = []) -> view st' = view (chan w s) ->
  Holds (took s st' [] rest w).
Proof.
  intros I Eo Hn (E1 & E2 & E3 & E4)%view_inv.
  destruct (head_tokens _ _ _ _ _ _ _ I Eo) as (g & gt & Eg & Hf & Hs).
  eapply (holds_took T G gs w s st' _ f rest g gt G (fun k => half s k (G k)) [] I Eg Eo).
  - intros k. rewrite app_nil_r, <- (i_stream _ _ _ _ I).
    pose proof (moved_refl s k _ (i_reach _ _ _ _ I k)) as Hr.
    rewrite Hs, (Hn _ Hf k) in Hr. exact Hr.
  - eapply tracks_same; [done..|apply (i_chan _ _ _ _ I)].
  - rewrite E3. apply (i_frame _ _ _ _ I).
  - unfold numbers in E4. congruence.
  - constructor.
Qed.

End Invariant.

End Protocol.
