(* ===== verification/ChannelRates.v ===== *)
(** * The fee rate between two channels

    The opener proposes a rate, signs at it once it is staged and verifies at it once
    the peer has revoked; the acceptor verifies at it from the message on and signs at
    it once it has revoked.  [Fees] follows the rate through both streams of messages,
    so that each commitment is verified at the rate it was signed at. *)

From stdpp Require Import sets.
From Stdlib Require Import Strings.Byte.
From S2P Require Import Prelude Buffer JsMap ShaChain CommitmentTx Scripts.
From S2P Require Import WireBasic WireUpdate WireCommitment.
From S2P Require Import ChannelTypes CommitmentBuilder HtlcPolicy HtlcAdmission Channel ChannelFee HtlcProtocol ChannelEntries.
From S2P Require Import ChannelTrack ChannelPair.
Local Open Scope Z_scope.

(** ** The fields of the fee machine *)

Definition fees (st : IChannelState) :=
  (s_role st, c_feeratePerKw (s_localConfig st), c_feeratePerKw (s_remoteConfig st),
   s_pendingFeeratePerKw st, s_pendingFeerateSignable st, s_pendingFeerateCommitted st).

(** The committed rate once the peer has revoked. *)
Definition promoted (st : IChannelState) : Z :=
  match s_pendingFeeratePerKw st with
  | Some rate => if flag_true (s_pendingFeerateCommitted st) then rate else committedFeeRate st
  | None => committedFeeRate st
  end.

(** A staged rate that is signed was signable. *)
Definition signed_signable (st : IChannelState) : Prop :=
  is_Some (s_pendingFeeratePerKw st) -> flag_true (s_pendingFeerateCommitted st) = true ->
  flag_true (s_pendingFeerateSignable st) = true.

Lemma fees_inv a b : fees a = fees b ->
  s_role a = s_role b /\ committedFeeRate a = committedFeeRate b /\ promoted a = promoted b /\
  getLocalCommitmentFeeRate a false = getLocalCommitmentFeeRate b false /\
  getRemoteCommitmentFeeRate a = getRemoteCommitmentFeeRate b /\
  (signed_signable a <-> signed_signable b).
Proof.
  unfold fees. intros [= E1 E2 E3 E4 E5 E6].
  unfold promoted, getLocalCommitmentFeeRate, getRemoteCommitmentFeeRate, committedFeeRate,
    signed_signable. by rewrite E1, E2, E3, E4, E5, E6.
Qed.

Lemma sign_rates st :
  s_role (sign_fee st) = s_role st /\ committedFeeRate (sign_fee st) = committedFeeRate st /\
  getLocalCommitmentFeeRate (sign_fee st) false = getLocalCommitmentFeeRate st false /\
  getRemoteCommitmentFeeRate (sign_fee st) = getRemoteCommitmentFeeRate st /\
  (s_role st = OPENER -> promoted (sign_fee st) = getRemoteCommitmentFeeRate st) /\
  (s_role st = ACCEPTOR -> signed_signable st -> signed_signable (sign_fee st)).
Proof.
  split_and!; unfold sign_fee; try (by destruct (_ && _)).
  - intros Hr. rewrite (bool_decide_true (s_role st = OPENER)) by done. cbn [orb].
    rewrite andb_true_r. case_bool_decide as Hp.
    + destruct Hp as [r Hp]. unfold promoted, getRemoteCommitmentFeeRate. cbn. rewrite Hp, Hr.
      by rewrite bool_decide_true.
    + unfold promoted, getRemoteCommitmentFeeRate.
      destruct (s_pendingFeeratePerKw st); [by destruct Hp|done].
  - intros Hr Hs. destruct (_ && _) eqn:E; [|done]. intros _ _.
    apply andb_true_iff in E as [_ E]. rewrite Hr in E. by rewrite (bool_decide_false (ACCEPTOR = OPENER)) in E by done.
Qed.

Lemma accept_rates st :
  s_role (accept_fee st) = s_role st /\ committedFeeRate (accept_fee st) = committedFeeRate st /\
  promoted (accept_fee st) = promoted st /\
  getLocalCommitmentFeeRate (accept_fee st) false = getLocalCommitmentFeeRate st false /\
  (s_role st = OPENER -> getRemoteCommitmentFeeRate (accept_fee st) = getRemoteCommitmentFeeRate st) /\
  (s_role st = ACCEPTOR ->
     getRemoteCommitmentFeeRate (accept_fee st) = getLocalCommitmentFeeRate st false) /\
  (signed_signable st -> signed_signable (accept_fee st)).
Proof.
  split_and!; unfold accept_fee; try (by destruct (_ && _)).
  - intros Hr. rewrite (bool_decide_false (s_role st = ACCEPTOR)) by by rewrite Hr.
    by rewrite andb_false_r.
  - intros Hr. rewrite (bool_decide_true (s_role st = ACCEPTOR)) by done. rewrite andb_true_r.
    unfold getRemoteCommitmentFeeRate, getLocalCommitmentFeeRate.
    destruct (s_pendingFeeratePerKw st) as [r|] eqn:Hp; cbn.
    + destruct (flag_true (s_pendingFeerateSignable st)) eqn:Hs; cbn; rewrite Hp, ?Hs, Hr.
      * by rewrite orb_true_r.
      * by rewrite orb_true_r.
    + by rewrite Hp.
Qed.

Lemma promote_rates st : 
  s_role (promote_fee st) = s_role st /\ promoted (promote_fee st) = promoted st /\
  (s_role st = OPENER -> committedFeeRate (promote_fee st) = promoted st /\
     getRemoteCommitmentFeeRate (promote_fee st) = getRemoteCommitmentFeeRate st) /\
  (s_role st = ACCEPTOR -> signed_signable st ->
     getLocalCommitmentFeeRate (promote_fee st) false = getLocalCommitmentFeeRate st false /\
     getRemoteCommitmentFeeRate (promote_fee st) = getRemoteCommitmentFeeRate st /\
     signed_signable (promote_fee st)).
Proof.
  unfold promote_fee, promoted, getLocalCommitmentFeeRate, getRemoteCommitmentFeeRate,
    committedFeeRate, signed_signable.
  destruct (s_pendingFeeratePerKw st) as [r|] eqn:Hp; [|rewrite Hp; done].
  destruct (flag_true (s_pendingFeerateCommitted st)) eqn:Hc.
  - destruct (s_role st) eqn:Hr; cbn; rewrite Hr; cbn; split_and!; try done.
    intros _ Hs. rewrite (Hs (ltac:(by eexists)) eq_refl). split_and!; try done.
  - rewrite Hp, Hc. done.
Qed.

Lemma stage_rates st rate :
  s_role st = OPENER ->
  bool_decide (is_Some (s_pendingFeeratePerKw st)) && flag_true (s_pendingFeerateCommitted st) = false ->
  s_role (stage_fee rate st) = s_role st /\
  committedFeeRate (stage_fee rate st) = committedFeeRate st /\
  promoted (stage_fee rate st) = promoted st /\
  getRemoteCommitmentFeeRate (stage_fee rate st) = rate.
Proof.
  intros Hr Hg. unfold stage_fee. split_and!; try done.
  - unfold promoted. cbn. destruct (s_pendingFeeratePerKw st) as [r|]; [|done]. cbn in Hg.
    by rewrite Hg.
  - unfold getRemoteCommitmentFeeRate. cbn. by rewrite Hr.
Qed.

Lemma replace_rates st rate :
  s_role st = ACCEPTOR ->
  s_role (replace_fee rate st) = s_role st /\
  getLocalCommitmentFeeRate (replace_fee rate st) false = rate /\
  getRemoteCommitmentFeeRate (replace_fee rate st) = getRemoteCommitmentFeeRate st /\
  signed_signable (replace_fee rate st).
Proof.
  intros Hr. unfold replace_fee, stage_fee, getLocalCommitmentFeeRate, getRemoteCommitmentFeeRate,
    committedFeeRate, signed_signable.
  destruct (s_pendingFeeratePerKw st) as [r|] eqn:Hp;
    [destruct (flag_true (s_pendingFeerateSignable st)) eqn:Hs|]; cbn; rewrite Hr; done.
Qed.

(** ** The rate along a stream *)

(** From the rate [x] the acceptor verifies at, to the rate [e] the opener signs at. *)
Fixpoint forth (x : Z) (l : list Flight) (e : Z) : Prop :=
  match l with
  | [] => x = e
  | f :: l =>
      match f_msg f with
      | UPDATE_FEERATE m => forth (uf_feeratePerKw m) l e
      | COMMIT _ => getRemoteCommitmentFeeRate (f_from f) = x /\ forth x l e
      | _ => forth x l e
      end
  end.

(** From the rate [y] the opener verifies at, to the rate [e] the acceptor signs at; a
    revocation makes [p] the opener's rate. *)
Fixpoint back (p y : Z) (l : list Flight) (e : Z) : Prop :=
  match l with
  | [] => y = e
  | f :: l =>
      match f_msg f with
      | REVOKE _ => back p p l e
      | COMMIT _ => getRemoteCommitmentFeeRate (f_from f) = y /\ back p y l e
      | _ => back p y l e
      end
  end.

Lemma forth_app x l l' m e : forth x l m -> forth m l' e -> forth x (l ++ l') e.
Proof.
  revert x. induction l as [|f l IH]; cbn; intros x; [by intros ->|].
  destruct (f_msg f); auto. intros [? ?]; auto.
Qed.

Lemma back_app p y l l' m e : back p y l m -> back p m l' e -> back p y (l ++ l') e.
Proof.
  revert y. induction l as [|f l IH]; cbn; intros y; [by intros ->|].
  destruct (f_msg f); auto. intros [? ?]; auto.
Qed.

Lemma forth_end x l e e' : e = e' -> forth x l e -> forth x l e'.
Proof. by intros ->. Qed.

(** Without a revocation in the stream the opener's next rate does not matter. *)
Lemma back_irrelevant p p' y l e : existsb is_REVOKE l = false -> back p y l e -> back p' y l e.
Proof.
  revert y. induction l as [|f l IH]; cbn; intros y; [done|]. unfold is_REVOKE at 1.
  destruct (f_msg f); cbn; auto; try done. intros H [? ?]; auto.
Qed.

(** A message that is no part of a commitment round and no fee. *)
Definition quiet (f : Flight) : bool :=
  match f_msg f with UPDATE_FEERATE _ | COMMIT _ | REVOKE _ => false | _ => true end.

Lemma forth_quiet x l l' e : forallb quiet l' = true -> forth x l e -> forth x (l ++ l') e.
Proof.
  intros Hq H. eapply forth_app; [exact H|]. clear H. induction l' as [|f l' IH]; [done|].
  cbn in *. apply andb_true_iff in Hq as [Hf Hq]. unfold quiet in Hf. destruct (f_msg f); auto; done.
Qed.

Lemma back_quiet p y l l' e : forallb quiet l' = true -> back p y l e -> back p y (l ++ l') e.
Proof.
  intros Hq H. eapply back_app; [exact H|]. clear H. induction l' as [|f l' IH]; [done|].
  cbn in *. apply andb_true_iff in Hq as [Hf Hq]. unfold quiet in Hf. destruct (f_msg f); auto; done.
Qed.

(** ** The invariant *)

(** [o] is the opener. *)
Record Fees (o : Peer) (w : World) : Prop := {
  fe_opener : s_role (chan w o) = OPENER;
  fe_acceptor : s_role (chan w (other o)) = ACCEPTOR;
  fe_forth : forth (getLocalCommitmentFeeRate (chan w (other o)) false) (out w o)
               (getRemoteCommitmentFeeRate (chan w o));
  fe_back : back (promoted (chan w o)) (committedFeeRate (chan w o)) (out w (other o))
              (getRemoteCommitmentFeeRate (chan w (other o)));
  fe_commit f : f ∈ out w o -> is_COMMIT f = true ->
                getRemoteCommitmentFeeRate (f_from f) = promoted (chan w o);
  fe_signable : signed_signable (chan w (other o))
}.

Lemma local_opener st : s_role st = OPENER -> getLocalCommitmentFeeRate st false = committedFeeRate st.
Proof. intros Hr. unfold getLocalCommitmentFeeRate. rewrite Hr. by destruct (s_pendingFeeratePerKw st). Qed.

Lemma commit_app f (l m : list Flight) :
  f ∈ l ++ m -> is_COMMIT f = true -> existsb is_COMMIT m = false -> f ∈ l.
Proof.
  intros Hf Hc Hm. apply elem_of_app in Hf as [Hf|Hf]; [done|].
  assert (existsb is_COMMIT m = true); [|congruence].
  apply existsb_exists. exists f. by rewrite <- list_elem_of_In.
Qed.

Lemma quiet_commit m : forallb quiet m = true -> existsb is_COMMIT m = false.
Proof.
  induction m as [|f m IH]; [done|]. cbn. intros [Hf Hm]%andb_true_iff. rewrite (IH Hm).
  unfold quiet, is_COMMIT in *. by destruct (f_msg f).
Qed.

(** A side that leaves the rates alone and sends nothing about them. *)
Lemma fees_act o w s st' m :
  Fees o w -> fees st' = fees (chan w s) -> forallb quiet m = true -> Fees o (acted s st' m w).
Proof.
  intros [F1 F2 F3 F4 F5 F6] (E1 & E2 & E3 & E4 & E5 & E6)%fees_inv Hq.
  destruct (side_cases s o) as [->| ->]; constructor; cbn [acted chan out];
    rewrite ?other_other, ?upd_same, ?upd_other, ?upd_other', ?E1, ?E2, ?E3, ?E4, ?E5, ?E6; try done.
  all: rewrite ?other_other in *; try done.
  - by apply forth_quiet.
  - intros f Hf Hc. apply F5; [|done]. by apply (commit_app f _ m); auto using quiet_commit.
  - by apply back_quiet.
Qed.

(** Each field of the invariant, on either side of the step of [s]. *)
Ltac fee_fields :=
  constructor; cbn [acted took chan out];
  rewrite ?other_other, ?upd_same, ?upd_other, ?upd_other', ?upd_same, ?upd_other, ?app_nil_r.

Lemma fees_take o w s st' f rest :
  Fees o w -> out w (other s) = f :: rest -> fees st' = fees (chan w s) -> quiet f = true ->
  Fees o (took s st' [] rest w).
Proof.
  intros [F1 F2 F3 F4 F5 F6] Eo (E1 & E2 & E3 & E4 & E5 & E6)%fees_inv Hq.
  destruct (side_cases s o) as [->| ->]; rewrite ?other_other in *; rewrite Eo in *; fee_fields;
    rewrite ?E1, ?E2, ?E3, ?E4, ?E5, ?E6; try done; cbn [forth back] in *; unfold quiet in Hq.
  - by destruct (f_msg f).
  - by destruct (f_msg f).
  - intros f' Hf. apply F5. by right.
Qed.

(** updateFee *)
Lemma fees_update o w s st' m from rate :
  Fees o w -> s_role (chan w s) = OPENER ->
  bool_decide (is_Some (s_pendingFeeratePerKw (chan w s))) &&
    flag_true (s_pendingFeerateCommitted (chan w s)) = false ->
  fees st' = fees (stage_fee rate (chan w s)) -> uf_feeratePerKw m = rate ->
  Fees o (acted s st' [{| f_msg := UPDATE_FEERATE m; f_from := from |}] w).
Proof.
  intros [F1 F2 F3 F4 F5 F6] Hr Hg (E1 & E2 & E3 & E4 & E5 & E6)%fees_inv Em.
  destruct (side_cases s o) as [->| ->]; [|rewrite other_other in *; congruence].
  destruct (stage_rates _ rate Hr Hg) as (R1 & R2 & R3 & R4).
  fee_fields; rewrite ?E1, ?E2, ?E3, ?E5, ?R1, ?R2, ?R3, ?R4; try done.
  - eapply forth_app; [exact F3|]. done.
  - intros f Hf Hc. apply F5; [|done]. by apply (commit_app f _ _ Hf).
Qed.

(** handleUpdateFee *)
Lemma fees_take_update o w s st' f rest m :
  Fees o w -> out w (other s) = f :: rest -> f_msg f = UPDATE_FEERATE m ->
  s_role (chan w s) = ACCEPTOR ->
  fees st' = fees (replace_fee (uf_feeratePerKw m) (chan w s)) ->
  Fees o (took s st' [] rest w).
Proof.
  intros [F1 F2 F3 F4 F5 F6] Eo Em Hr (E1 & E2 & E3 & E4 & E5 & E6)%fees_inv.
  destruct (side_cases s o) as [->| ->]; [congruence|]. rewrite other_other in *.
  destruct (replace_rates _ (uf_feeratePerKw m) Hr) as (R1 & R2 & R3 & R4).
  rewrite Eo in *. fee_fields; rewrite ?E1, ?E4, ?E5, ?R1, ?R2, ?R3; try done.
  - cbn [forth] in F3. by rewrite Em in F3.
  - intros f' Hf. apply F5. by right.
  - by apply E6.
Qed.

(** signCommitment *)
Lemma fees_sign o w s st' m :
  Fees o w -> existsb is_COMMIT (out w s) || existsb is_REVOKE (out w (other s)) = false ->
  fees st' = fees (sign_fee (chan w s)) ->
  Fees o (acted s st' [{| f_msg := COMMIT m; f_from := chan w s |}] w).
Proof.
  intros [F1 F2 F3 F4 F5 F6] Ha (E1 & E2 & E3 & E4 & E5 & E6)%fees_inv.
  destruct (sign_rates (chan w s)) as (R1 & R2 & R3 & R4 & R5 & R6).
  apply orb_false_iff in Ha as [Hc Hv].
  destruct (side_cases s o) as [->| ->]; rewrite ?other_other in *; fee_fields;
    rewrite ?E1, ?E2, ?E3, ?E4, ?E5, ?R1, ?R2, ?R3, ?R4, ?R5 by done; try done.
  - eapply forth_app; [exact F3|]. done.
  - by eapply back_irrelevant.
  - intros f Hf Hf'. apply elem_of_app in Hf as [Hf|Hf].
    + assert (existsb is_COMMIT (out w s) = true); [|congruence].
      apply existsb_exists. exists f. by rewrite <- list_elem_of_In.
    + by apply list_elem_of_singleton in Hf as ->.
  - eapply back_app; [exact F4|]. done.
  - apply E6. auto.
Qed.

(** handleCommitmentSigned: the rates of signer and verifier are the same. *)
Lemma fees_agree o w s f rest :
  Fees o w -> out w (other s) = f :: rest -> is_COMMIT f = true ->
  getRemoteCommitmentFeeRate (f_from f) = getLocalCommitmentFeeRate (chan w s) false.
Proof.
  intros [F1 F2 F3 F4 F5 F6] Eo Hf. unfold is_COMMIT in Hf.
  destruct (side_cases s o) as [->| ->]; rewrite ?other_other in *; rewrite Eo in *;
    cbn [forth back] in *; destruct (f_msg f); try done.
  - rewrite local_opener by done. by destruct F4.
  - by destruct F3.
Qed.

Lemma fees_take_commit o w s st' f rest m from :
  Fees o w -> out w (other s) = f :: rest -> is_COMMIT f = true ->
  fees st' = fees (accept_fee (chan w s)) ->
  Fees o (took s st' [{| f_msg := REVOKE m; f_from := from |}] rest w).
Proof.
  intros F Eo Hf (E1 & E2 & E3 & E4 & E5 & E6)%fees_inv. pose proof (fees_agree _ _ _ _ _ F Eo Hf) as Hag.
  destruct F as [F1 F2 F3 F4 F5 F6].
  destruct (accept_rates (chan w s)) as (R1 & R2 & R3 & R4 & R5 & R6 & R7).
  destruct (side_cases s o) as [->| ->]; rewrite ?other_other in *; rewrite Eo in *; fee_fields;
    rewrite ?E1, ?E2, ?E3, ?E4, ?E5, ?R1, ?R2, ?R3, ?R4, ?R5, ?R6 by done; try done.
  - eapply forth_app; [exact F3|]. done.
  - cbn [back] in F4. unfold is_COMMIT in Hf. destruct (f_msg f); try done. by destruct F4.
  - intros f' Hf' Hc. apply F5; [|done]. by apply (commit_app f' _ _ Hf').
  - cbn [forth] in F3. unfold is_COMMIT in Hf. destruct (f_msg f); try done. by destruct F3.
  - eapply back_app; [exact F4|]. cbn [back f_msg]. rewrite <- Hag. symmetry. apply F5; [by left|done].
  - intros f' Hf'. apply F5. by right.
  - apply E6. auto.
Qed.

(** handleRevokeAndAck *)
Lemma fees_take_revoke o w s st' f rest :
  Fees o w -> out w (other s) = f :: rest -> is_REVOKE f = true ->
  fees st' = fees (promote_fee (chan w s)) ->
  Fees o (took s st' [] rest w).
Proof.
  intros [F1 F2 F3 F4 F5 F6] Eo Hf (E1 & E2 & E3 & E4 & E5 & E6)%fees_inv.
  destruct (promote_rates (chan w s)) as (R1 & R2 & R3 & R4). unfold is_REVOKE in Hf.
  destruct (side_cases s o) as [->| ->]; rewrite ?other_other in *; rewrite Eo in *.
  - destruct (R3 F1) as [R5 R6].
    fee_fields; rewrite ?E1, ?E2, ?E3, ?E4, ?E5, ?R1, ?R2, ?R5, ?R6; try done.
    cbn [back] in F4. by destruct (f_msg f).
  - destruct (R4 F2 F6) as (R5 & R6 & R7).
    fee_fields; rewrite ?E1, ?E4, ?E5, ?R1, ?R5, ?R6; try done.
    + cbn [forth] in F3. by destruct (f_msg f).
    + intros f' Hf'. apply F5. by right.
    + by apply E6.
Qed.
