(* ===== verification/ChannelRun.v ===== *)
(** * Runs of a channel

    The commitment numbers, per-commitment points and revealed secrets of the two
    sides stay in step ([in_step]); with the HTLC invariant of ChannelPair.v this is
    kept by every command of a run.  The theorems say what follows for the messages
    the two nodes exchange: none is refused. *)

From stdpp Require Import sets.
From Stdlib Require Import Strings.Byte Sorting.Permutation.
From S2P Require Import Prelude Buffer JsMap ShaChain CommitmentTx Scripts.
From S2P Require Import WireBasic WireUpdate WireCommitment.
From S2P Require Import ChannelTypes CommitmentBuilder HtlcPolicy HtlcAdmission Channel ChannelFee HtlcProtocol ChannelEntries.
From S2P Require Import ChannelTrack ChannelPair ChannelRates.
Local Open Scope Z_scope.

(** ** The fields the revocations move *)

Definition points (st : IChannelState) :=
  (s_remoteCurrentPerCommitmentPoint st, s_remoteNextPerCommitmentPoint st, s_shaChainStore st).

Lemma points_sign `{L : BitcoinLib} sig hs part st : points (sign_writes sig hs part st) = points st.
Proof.
  unfold sign_writes.
  assert (forall f x, points (map_entries f x) = points x) as E1 by done.
  assert (forall x, points (advance_remote x) = points x) as E2 by done.
  rewrite E1, E2, E1. unfold sign_lease, sign_fee, record_sent, _snapshotRemoteCommitmentHtlcs.
  by destruct (map _ _), (_ && _), (_ && _).
Qed.

Lemma points_commit `{L : BitcoinLib} msg secret point st :
  points (record_revocation secret point (advance_local (accept_signature msg st))) = points st.
Proof.
  assert (forall f x, points (map_entries f x) = points x) as E1 by done.
  assert (forall x, points (record_revocation secret point x) = points x) as E2 by done.
  assert (forall x, points (advance_local x) = points x) as E3 by done.
  assert (forall x, points (set_signedLocalRemovals None x) = points x) as E4 by done.
  assert (forall x, points (record_signature msg x) = points x) as E5 by done.
  assert (forall x, points (accept_removals x) = points x) as E6
    by (intros; unfold accept_removals; by destruct (existsb _ _)).
  assert (forall x, points (accept_lease x) = points x) as E7
    by (intros; unfold accept_lease; by destruct (_ && _)).
  assert (forall x, points (accept_fee x) = points x) as E8
    by (intros; unfold accept_fee; by destruct (_ && _)).
  unfold accept_signature, _markOfferedAddsRemoteSigned. by rewrite E2, E3, E1, E6, E7, E8, E4, E1, E5.
Qed.

Lemma points_finish l st : points (fold_left finish_entry l st) = points st.
Proof.
  revert st. induction l as [|[k e] l IH]; intros st; [done|]. cbn [fold_left]. rewrite IH.
  unfold finish_entry, _retainSignedLocalRemoval. destruct (flag_false (e_removalRemoteCommitted e)); [done|].
  by destruct (e_state e), (e_direction e), (flag_false (e_addLocallyRevoked e)).
Qed.

Lemma points_revoke st : points (map_entries mark_forwarded (revoke_writes st)) = points st.
Proof.
  assert (forall f x, points (map_entries f x) = points x) as E1 by done.
  assert (forall x, points (drop_signed x) = points x) as E2
    by (intros; unfold drop_signed; by destruct (_ <? _)).
  assert (forall x, points (promote_fee x) = points x) as E3
    by (intros; unfold promote_fee; destruct (s_pendingFeeratePerKw x); [|done];
        destruct (flag_true (s_pendingFeerateCommitted x)), (s_role x); done).
  assert (forall h x, points (_promoteLeaseBlockheight h x) = points x) as E4
    by (intros; unfold _promoteLeaseBlockheight; by destruct (bool_decide _)).
  assert (forall x, points (promote_lease x) = points x) as E5.
  { intros x. unfold promote_lease. destruct (s_pendingLeaseBlockheight x); [|done].
    destruct (flag_true (s_pendingLeaseBlockheightCommitted x)); [|done].
    etrans; [|apply E4]. done. }
  unfold revoke_writes, finish_removals. by rewrite E1, E5, E3, points_finish, E1, E2.
Qed.

(** ** The fields of the fee machine *)

Lemma fees_sign_fee a b : fees a = fees b -> fees (sign_fee a) = fees (sign_fee b).
Proof.
  unfold fees. intros [= E1 E2 E3 E4 E5 E6]. unfold sign_fee. rewrite E1, E4, E5.
  destruct (_ && _); cbn; congruence.
Qed.

Lemma fees_accept_fee a b : fees a = fees b -> fees (accept_fee a) = fees (accept_fee b).
Proof.
  unfold fees. intros [= E1 E2 E3 E4 E5 E6]. unfold accept_fee. rewrite E1, E4, E5.
  destruct (_ && _); cbn; congruence.
Qed.

Lemma fees_promote_fee a b : fees a = fees b -> fees (promote_fee a) = fees (promote_fee b).
Proof.
  unfold fees. intros [= E1 E2 E3 E4 E5 E6]. unfold promote_fee. rewrite E1, E4, E6.
  destruct (s_pendingFeeratePerKw b) eqn:?; [|congruence].
  destruct (flag_true _) eqn:?; [|congruence]. destruct (s_role b) eqn:?; cbn; congruence.
Qed.

Lemma fees_map f st : fees (map_entries f st) = fees st.
Proof. reflexivity. Qed.

Lemma fees_sign_writes `{L : BitcoinLib} sig hs part st :
  fees (sign_writes sig hs part st) = fees (sign_fee st).
Proof.
  unfold sign_writes. rewrite fees_map.
  assert (forall x, fees (advance_remote x) = fees x) as -> by done. rewrite fees_map.
  assert (forall x, fees (sign_lease x) = fees x) as ->
    by (intros; unfold sign_lease; by destruct (_ && _)).
  apply fees_sign_fee. unfold record_sent, _snapshotRemoteCommitmentHtlcs. by destruct (map _ _).
Qed.

Lemma fees_commit `{L : BitcoinLib} msg secret point st :
  fees (record_revocation secret point (advance_local (accept_signature msg st))) =
  fees (accept_fee st).
Proof.
  unfold record_revocation. rewrite fees_map.
  assert (forall x, fees (set_lastSentWasRevoke (Some true) (set_lastSentRevokeNextPoint (Some point)
    (set_lastSentRevokeSecret (Some secret) x))) = fees x) as -> by done.
  assert (forall x, fees (advance_local x) = fees x) as -> by done.
  unfold accept_signature, _markOfferedAddsRemoteSigned. rewrite fees_map.
  assert (forall x, fees (accept_removals x) = fees x) as ->
    by (intros; unfold accept_removals; by destruct (existsb _ _)).
  assert (forall x, fees (accept_lease x) = fees x) as ->
    by (intros; unfold accept_lease; by destruct (_ && _)).
  by apply fees_accept_fee.
Qed.

Lemma fees_finish l st : fees (fold_left finish_entry l st) = fees st.
Proof.
  revert st. induction l as [|[k e] l IH]; intros st; [done|]. cbn [fold_left]. rewrite IH.
  unfold finish_entry, _retainSignedLocalRemoval. destruct (flag_false (e_removalRemoteCommitted e)); [done|].
  by destruct (e_state e), (e_direction e), (flag_false (e_addLocallyRevoked e)).
Qed.

Lemma fees_revoke point store n st :
  fees (map_entries mark_forwarded (revoke_writes
    (set_remoteNextPerCommitmentPoint point (store_secret store n st)))) = fees (promote_fee st).
Proof.
  rewrite fees_map. unfold revoke_writes.
  assert (forall x, fees (promote_lease x) = fees x) as ->.
  { intros x. unfold promote_lease, _promoteLeaseBlockheight.
    destruct (s_pendingLeaseBlockheight x); [|done]. destruct (flag_true _); [|done].
    by destruct (bool_decide _). }
  apply fees_promote_fee. unfold finish_removals. rewrite fees_finish, fees_map.
  unfold drop_signed. by destruct (_ <? _).
Qed.

(** ** The two sides in step *)

Definition count (p : Flight -> bool) (l : list Flight) : Z := Z.of_nat (length (List.filter p l)).

Lemma count_app p l l' : count p (l ++ l') = count p l + count p l'.
Proof. unfold count. rewrite List.filter_app, length_app. lia. Qed.

Lemma count_cons p f l : count p (f :: l) = (if p f then 1 else 0) + count p l.
Proof. unfold count. cbn. destruct (p f); cbn [length]; lia. Qed.

Lemma count_nonneg p l : 0 <= count p l.
Proof. unfold count. lia. Qed.

Lemma count_existsb p l : existsb p l = (0 <? count p l).
Proof.
  induction l as [|f l IH]; [done|]. cbn [existsb]. rewrite count_cons, IH.
  pose proof (count_nonneg p l). destruct (p f); cbn [orb].
  - symmetry. apply Z.ltb_lt. lia.
  - done.
Qed.

Lemma count_zero p l f : f ∈ l -> p f = true -> 0 < count p l.
Proof.
  intros Hf Hp. apply Z.ltb_lt. rewrite <- count_existsb. apply existsb_exists.
  exists f. split; [by apply list_elem_of_In | done].
Qed.

Section Run.
Context `{L : BitcoinLib}.
Context (signCommitmentTx : Peer -> Transaction -> buffer -> Z -> buffer)
        (verifyCommitmentSig : Transaction -> buffer -> buffer -> buffer -> Z -> bool)
        (verifyRemoteHtlcSignatures : IChannelState -> buffer -> list buffer -> bool)
        (ecc_isPoint : buffer -> bool).
Context (init : Peer -> IChannelState).

Definition seed (s : Peer) : buffer := s_localPerCommitmentSeed (init s).

(** [f] carries [s]'s signature on commitment [r + 1] of its peer. *)
Definition commit_made (s : Peer) (r : Z) (f : Flight) (m : ICommitmentSignedMessage) : Prop :=
  exists point built, getPerCommitmentPoint (seed (other s)) (r + 1) = Ok point /\
    buildRemoteCommitment (f_from f) point (Some (r + 1)) = Ok built /\
    cs_signature m = signCommitmentTx s (r_tx (b_result built)) (b_fundingWitnessScript built)
                       (b_fundingAmount built).

(** [m] revokes commitment [r] of [s]. *)
Definition revoke_made (s : Peer) (r : Z) (m : IRevokeAndAckMessage) : Prop :=
  getPerCommitmentSecret sha256 (seed s) r = Ok (ra_perCommitmentSecret m) /\
  getPerCommitmentPoint (seed s) (r + 2) = Ok (ra_nextPerCommitmentPoint m).

(** What [s] knows of its peer's commitments, of which [r] are revoked. *)
Record in_step (w : World) (s : Peer) (r : Z) : Prop := {
  st_pos : 0 <= r;
  st_rev : s_remoteRevocationNumber (chan w s) = Some r;
  st_remote : s_remoteCommitmentNumber (chan w s) =
              r + count is_COMMIT (out w s) + count is_REVOKE (out w (other s));
  st_local : s_localCommitmentNumber (chan w (other s)) = r + count is_REVOKE (out w (other s));
  st_one : count is_COMMIT (out w s) + count is_REVOKE (out w (other s)) <= 1;
  st_points : exists p q, points (chan w s) = (Some p, Some q, s_shaChainStore (chan w s)) /\
    getPerCommitmentPoint (seed (other s)) r = Ok p /\
    getPerCommitmentPoint (seed (other s)) (r + 1) = Ok q;
  st_store : accepted sha256 (honest sha256 (seed (other s)) (Z.to_nat r))
               (s_shaChainStore (chan w s));
  st_commit f m : f ∈ out w s -> f_msg f = COMMIT m -> commit_made s r f m;
  st_revoke f m : f ∈ out w (other s) -> f_msg f = REVOKE m -> revoke_made (other s) r m
}.

Lemma in_step_begin s : opened init -> in_step (begin init) s 0.
Proof.
  intros Ho. destruct (numbers_inv _ _ _ _ _ (o_numbers _ Ho s)) as (_ & N2 & N3 & _).
  destruct (numbers_inv _ _ _ _ _ (o_numbers _ Ho (other s))) as (M1 & _ & _ & _).
  constructor; cbn; try done.
  - destruct (o_point _ Ho s) as (p & E1 & E2), (o_next _ Ho s) as (q & E3 & E4).
    exists p, q. unfold points. by rewrite E1, E3.
  - rewrite (o_secrets _ Ho). constructor.
  - intros f m H. by apply elem_of_nil in H.
  - intros f m H. by apply elem_of_nil in H.
Qed.

Lemma in_filter (p : Flight -> bool) l f : f ∈ l -> p f = true -> f ∈ List.filter p l.
Proof. rewrite !list_elem_of_In, filter_In. done. Qed.

Lemma filter_in (p : Flight -> bool) l f : f ∈ List.filter p l -> f ∈ l.
Proof. rewrite !list_elem_of_In, filter_In. by intros []. Qed.

Lemma commit_kind f m : f_msg f = COMMIT m -> is_COMMIT f = true.
Proof. unfold is_COMMIT. by intros ->. Qed.
Lemma revoke_kind f m : f_msg f = REVOKE m -> is_REVOKE f = true.
Proof. unfold is_REVOKE. by intros ->. Qed.

(** Whatever leaves the counters, the points and the commitment messages alone. *)
Lemma in_step_quiet w w' s r :
  in_step w s r ->
  s_remoteRevocationNumber (chan w' s) = s_remoteRevocationNumber (chan w s) ->
  s_remoteCommitmentNumber (chan w' s) = s_remoteCommitmentNumber (chan w s) ->
  s_localCommitmentNumber (chan w' (other s)) = s_localCommitmentNumber (chan w (other s)) ->
  points (chan w' s) = points (chan w s) ->
  List.filter is_COMMIT (out w' s) = List.filter is_COMMIT (out w s) ->
  List.filter is_REVOKE (out w' (other s)) = List.filter is_REVOKE (out w (other s)) ->
  in_step w' s r.
Proof.
  intros [S1 S2 S3 S4 S5 S6 S7 S8 S9] E1 E2 E3 E4 E5 E6.
  assert (s_shaChainStore (chan w' s) = s_shaChainStore (chan w s)) as E7
    by (unfold points in E4; congruence).
  constructor; rewrite ?E1, ?E2, ?E3, ?E4, ?E7; unfold count in *; rewrite ?E5, ?E6; try done.
  - intros f m Hf Hm. apply S8; [|done]. apply (filter_in is_COMMIT). rewrite <- E5.
    eapply in_filter; [done | by eapply commit_kind].
  - intros f m Hf Hm. eapply S9; [|done]. apply (filter_in is_REVOKE). rewrite <- E6.
    eapply in_filter; [done | by eapply revoke_kind].
Qed.

(** *** Signing *)

Lemma not_awaiting w s r : in_step w s r -> isAwaitingRemoteRevocation (chan w s) = false ->
  count is_COMMIT (out w s) = 0 /\ count is_REVOKE (out w (other s)) = 0 /\
  s_remoteCommitmentNumber (chan w s) = r.
Proof.
  intros S. unfold isAwaitingRemoteRevocation, _remoteRevocationCount. rewrite (st_rev _ _ _ S).
  cbn. intros H%Z.ltb_ge. pose proof (st_remote _ _ _ S).
  pose proof (count_nonneg is_COMMIT (out w s)).
  pose proof (count_nonneg is_REVOKE (out w (other s))). lia.
Qed.

Lemma in_step_sign w s r hs part sig m :
  in_step w s r -> isAwaitingRemoteRevocation (chan w s) = false ->
  commit_made s r {| f_msg := COMMIT m; f_from := chan w s |} m ->
  in_step (acted s (sign_writes sig hs part (chan w s))
             [{| f_msg := COMMIT m; f_from := chan w s |}] w) s r.
Proof.
  intros S Ha Hm. destruct (not_awaiting _ _ _ S Ha) as (C1 & C2 & C3).
  pose proof (view_sign sig hs part (chan w s)) as (_ & _ & _ & En)%view_inv.
  apply numbers_inv in En as (N1 & N2 & N3 & _).
  pose proof (points_sign sig hs part (chan w s)) as Ep.
  assert (s_shaChainStore (sign_writes sig hs part (chan w s)) = s_shaChainStore (chan w s)) as E7.
  { revert Ep. generalize (sign_writes sig hs part (chan w s)). unfold points. congruence. }
  revert N1 N2 N3 Ep E7. generalize (sign_writes sig hs part (chan w s)). intros st' N1 N2 N3 Ep E7.
  constructor; cbn [acted chan out];
    rewrite ?upd_same, ?upd_other, ?Ep, ?E7, ?count_app, ?C1, ?C2; try by apply S.
  - rewrite N3. unfold _remoteRevocationCount. by rewrite (st_rev _ _ _ S).
  - rewrite N2, C3. unfold count. cbn. lia.
  - rewrite (st_local _ _ _ S), C2. done.
  - unfold count. cbn. lia.
  - intros f m' Hf Hm'. apply elem_of_app in Hf as [Hf|Hf]; [by apply (st_commit _ _ _ S)|].
    apply list_elem_of_singleton in Hf as ->. cbn in Hm'. by injection Hm' as <-.
Qed.

(** *** Answering a commitment_signed *)

Lemma in_step_take_commit w s r st' f rest m secret point msg :
  in_step w (other s) r -> out w (other s) = f :: rest -> f_msg f = COMMIT m ->
  s_localCommitmentNumber st' = s_localCommitmentNumber (chan w s) + 1 ->
  getPerCommitmentSecret sha256 (seed s) (s_localCommitmentNumber (chan w s)) = Ok secret ->
  getPerCommitmentPoint (seed s) (s_localCommitmentNumber (chan w s) + 2) = Ok point ->
  ra_perCommitmentSecret msg = secret -> ra_nextPerCommitmentPoint msg = point ->
  in_step (took s st' [{| f_msg := REVOKE msg; f_from := chan w s |}] rest w) (other s) r.
Proof.
  intros S Eo Em En Hs Hp E1 E2. pose proof (commit_kind _ _ Em) as Hk.
  assert (is_REVOKE f = false) as Hk' by (unfold is_REVOKE; by rewrite Em).
  pose proof (count_nonneg is_COMMIT rest). pose proof (count_nonneg is_REVOKE (out w s)).
  destruct S as [S1 S2 S3 S4 S5 S6 S7 S8 S9]. rewrite other_other in *.
  rewrite Eo, count_cons, Hk in S3, S5. rewrite Eo in S8.
  constructor; cbn [took chan out];
    rewrite ?other_other, ?upd_same, ?upd_other, ?upd_other', ?upd_same, ?count_app; try done.
  - rewrite S3. unfold count in *. cbn. lia.
  - rewrite En, S4. unfold count in *. cbn. lia.
  - unfold count in *. cbn. lia.
  - intros f' m' Hf. apply S8. by right.
  - intros f' m' Hf Hm'. apply elem_of_app in Hf as [Hf|Hf].
    + pose proof (count_zero _ _ _ Hf (revoke_kind _ _ Hm')). lia.
    + apply list_elem_of_singleton in Hf as ->. cbn in Hm'. injection Hm' as <-.
      assert (s_localCommitmentNumber (chan w s) = r) as En' by lia.
      rewrite En' in *. split; congruence.
Qed.

(** *** Taking a revoke_and_ack *)

Lemma Ok_inj {A} (x y : A) : Ok x = Ok y -> x = y.
Proof. by intros [= ->]. Qed.

Lemma secret_honest seed r sec :
  blen seed = 32 -> 0 <= r -> getPerCommitmentSecret sha256 seed r = Ok sec ->
  r <= MAX_INDEX /\ sec = deriveChild sha256 seed 0 (MAX_INDEX - r).
Proof.
  intros Hs Hr H. unfold getPerCommitmentSecret in H.
  assert (r <= MAX_INDEX) as Hm.
  { unfold generateFromSeed in H. apply bind_Ok_inv in H as (u & _ & H).
    apply bind_Ok_inv in H as (u' & H & _). apply throw_if_Ok in H. bool_props. lia. }
  split; [done|]. rewrite generate_derive in H by (try done; unfold MAX_INDEX in *; lia).
  by apply Ok_inj in H.
Qed.

Lemma in_step_take_revoke w s r st' f rest m store :
  opened init ->
  in_step w s r -> out w (other s) = f :: rest -> f_msg f = REVOKE m ->
  addSecret sha256 (s_shaChainStore (chan w s)) (MAX_INDEX - r) (ra_perCommitmentSecret m) =
    Ok (store, true) ->
  numbers st' = (s_localCommitmentNumber (chan w s), s_remoteCommitmentNumber (chan w s),
                 Some (r + 1), s_localHtlcCounter (chan w s)) ->
  points st' = (s_remoteNextPerCommitmentPoint (chan w s), Some (ra_nextPerCommitmentPoint m), store) ->
  in_step (took s st' [] rest w) s (r + 1).
Proof.
  intros Ho S Eo Em Ha (_ & N2 & N3 & _)%numbers_inv Ep.
  pose proof (revoke_kind _ _ Em) as Hk.
  pose proof (count_nonneg is_REVOKE rest). pose proof (count_nonneg is_COMMIT (out w s)).
  destruct S as [S1 S2 S3 S4 S5 S6 S7 S8 S9]. rewrite Eo, count_cons, Hk in S3, S4, S5.
  destruct (S9 f m) as [Hsec Hpt]; [rewrite Eo; by left|done|].
  assert (s_shaChainStore st' = store) as Es by (unfold points in Ep; congruence).
  constructor; cbn [took chan out]; rewrite ?upd_same, ?upd_other, ?upd_other', ?upd_same, ?app_nil_r.
  - lia.
  - done.
  - rewrite N2, S3. lia.
  - rewrite S4. lia.
  - lia.
  - destruct S6 as (p & q & E1 & E2 & E3). exists q, (ra_nextPerCommitmentPoint m).
    rewrite Ep, Es. split_and!; [|done|].
    + unfold points in E1. injection E1 as _ -> . done.
    + replace (r + 1 + 1) with (r + 2) by lia. done.
  - rewrite Es. replace (Z.to_nat (r + 1)) with (S (Z.to_nat r)) by lia.
    destruct (secret_honest (seed (other s)) _ _ (o_seed _ Ho (other s)) S1 Hsec) as [Hr Esec].
    rewrite honest_S, Z2Nat.id by lia. rewrite <- Esec.
    eapply accepted_add; rewrite ?honest_length, ?Z2Nat.id by lia; done.
  - intros f' m' Hf Hm'. pose proof (count_zero _ _ _ Hf (commit_kind _ _ Hm')). lia.
  - intros f' m' Hf Hm'. pose proof (count_zero _ _ _ Hf (revoke_kind _ _ Hm')). lia.
Qed.

(** ** The invariant of a run *)

Section Bounded.
Context (N : nat) (Hopened : opened init).

Record Good (w : World) : Prop := {
  g_holds : Holds N init w;
  g_step s : exists r, in_step w s r;
  g_fees : exists o, Fees o w
}.

Lemma fees_begin : exists o, Fees o (begin init).
Proof.
  pose proof (m_role _ _ (o_mirror _ Hopened Alice)) as Hr.
  assert (exists o, s_role (init o) = OPENER /\ s_role (init (other o)) = ACCEPTOR) as (o & Ho & Ha).
  { destruct (s_role (init Alice)) eqn:E1, (s_role (init (other Alice))) eqn:E2; try done.
    - by exists Alice.
    - by exists Bob. }
  exists o. pose proof (o_fee _ Hopened o) as P1. pose proof (o_fee _ Hopened (other o)) as P2.
  pose proof (o_feerate _ Hopened o) as E.
  constructor; cbn; try done.
  - unfold getLocalCommitmentFeeRate, getRemoteCommitmentFeeRate. by rewrite P1, P2.
  - unfold getRemoteCommitmentFeeRate. by rewrite P2.
  - intros f Hf. by apply elem_of_nil in Hf.
  - unfold signed_signable. rewrite P2. by intros [? [=]].
Qed.

Lemma good_begin : Good (begin init).
Proof.
  constructor.
  - exists (fun _ => (0, [], 0)), (fun _ => start), (fun _ => []). by apply inv_begin.
  - intros s. exists 0. by apply in_step_begin.
  - apply fees_begin.
Qed.

Lemma good_ext w w' :
  (forall s, chan w s = chan w' s) -> (forall s, out w s = out w' s) -> Good w -> Good w'.
Proof.
  intros E1 E2 [(T & G & gs & I) S (o & F)]. constructor.
  - exists T, G, gs. by eapply inv_ext.
  - intros s. destruct (S s) as [r Hr]. exists r. eapply in_step_quiet; [exact Hr|..];
      rewrite <- ?E1, <- ?E2; done.
  - exists o. destruct F as [F1 F2 F3 F4 F5 F6].
    constructor; intros; rewrite <- ?E1; rewrite <- ?E2 in *; auto.
Qed.

Lemma quiet_filter m : forallb quiet m = true ->
  List.filter is_COMMIT m = [] /\ List.filter is_REVOKE m = [].
Proof.
  induction m as [|f m IH]; [done|]. cbn. intros [Hf Hm]%andb_true_iff. destruct (IH Hm) as [-> ->].
  unfold quiet, is_COMMIT, is_REVOKE in *. by destruct (f_msg f).
Qed.

(** A side that did nothing. *)
Lemma good_idle w s : Good w -> Good (acted s (chan w s) [] w).
Proof.
  apply good_ext; intros s'; cbn; destruct (side_cases s s') as [->| ->];
    rewrite ?upd_same, ?upd_other, ?app_nil_r; done.
Qed.

(** The two kinds of step that only concern HTLC updates. *)
Lemma good_act w s st' m :
  Good w -> Holds N init (acted s st' m w) ->
  (exists c, numbers st' = (s_localCommitmentNumber (chan w s), s_remoteCommitmentNumber (chan w s),
                            s_remoteRevocationNumber (chan w s), c)) ->
  points st' = points (chan w s) -> (forall o, Fees o w -> Fees o (acted s st' m w)) ->
  List.filter is_COMMIT m = [] -> List.filter is_REVOKE m = [] -> Good (acted s st' m w).
Proof.
  intros [_ S (o & F)] H (c & (N1 & N2 & N3 & _)%numbers_inv) Ep Hfee F1 F2.
  constructor; [done| |exists o; auto]. intros s'.
  destruct (S s') as [r Hr]. exists r. eapply in_step_quiet; [exact Hr|..]; cbn [acted chan out];
    destruct (side_cases s s') as [->| ->];
    rewrite ?other_other, ?upd_same, ?upd_other, ?List.filter_app, ?F1, ?F2, ?app_nil_r; done.
Qed.

Lemma good_take w s st' f rest :
  Good w -> Holds N init (took s st' [] rest w) -> out w (other s) = f :: rest ->
  numbers st' = numbers (chan w s) -> points st' = points (chan w s) ->
  (forall o, Fees o w -> Fees o (took s st' [] rest w)) ->
  is_COMMIT f = false -> is_REVOKE f = false -> Good (took s st' [] rest w).
Proof.
  intros [_ S (o & F)] H Eo (N1 & N2 & N3 & _)%numbers_inv Ep Hfee F1 F2.
  constructor; [done| |exists o; auto]. intros s'.
  assert (List.filter is_COMMIT rest = List.filter is_COMMIT (out w (other s))) as E1
    by (rewrite Eo; cbn; by rewrite F1).
  assert (List.filter is_REVOKE rest = List.filter is_REVOKE (out w (other s))) as E2
    by (rewrite Eo; cbn; by rewrite F2).
  destruct (S s') as [r Hr]. exists r. eapply in_step_quiet; [exact Hr|..]; cbn [took chan out];
    destruct (side_cases s s') as [->| ->];
    rewrite ?other_other, ?upd_same, ?upd_other, ?upd_other', ?upd_same, ?app_nil_r; done.
Qed.

Lemma good_sign w s sig hs part m :
  Good w -> isAwaitingRemoteRevocation (chan w s) = false ->
  (forall r, in_step w s r -> commit_made s r {| f_msg := COMMIT m; f_from := chan w s |} m) ->
  Good (acted s (sign_writes sig hs part (chan w s)) [{| f_msg := COMMIT m; f_from := chan w s |}] w).
Proof.
  intros [(T & G & gs & I) S (o & F)] Ha Hm. destruct (S s) as [r Hr].
  destruct (not_awaiting _ _ _ Hr Ha) as (C1 & C2 & _).
  assert (existsb is_COMMIT (out w s) || existsb is_REVOKE (out w (other s)) = false) as Hc
    by by rewrite !count_existsb, C1, C2.
  constructor; [by apply (holds_sign N init T G gs)| |
    exists o; apply fees_sign; [done..|apply fees_sign_writes]].
  intros s'. destruct (side_cases s s') as [->| ->].
    + exists r. apply in_step_sign; auto.
    + destruct (S (other s)) as [q Hq]. exists q.
      pose proof (view_sign sig hs part (chan w s)) as (_ & _ & _ & En)%view_inv.
      apply numbers_inv in En as (N1 & _ & _ & _).
      eapply in_step_quiet; [exact Hq|..]; cbn [acted chan out];
        rewrite ?other_other, ?upd_same, ?upd_other, ?List.filter_app, ?app_nil_r; done.
Qed.

Lemma good_take_commit w s f rest m secret point msg :
  Good w -> out w (other s) = f :: rest -> f_msg f = COMMIT m ->
  getPerCommitmentSecret sha256 (seed s) (s_localCommitmentNumber (chan w s)) = Ok secret ->
  getPerCommitmentPoint (seed s) (s_localCommitmentNumber (chan w s) + 2) = Ok point ->
  ra_perCommitmentSecret msg = secret -> ra_nextPerCommitmentPoint msg = point ->
  Good (took s (record_revocation secret point (advance_local (accept_signature m (chan w s))))
          [{| f_msg := REVOKE msg; f_from := chan w s |}] rest w).
Proof.
  intros [(T & G & gs & I) S (o & F)] Eo Em Hs Hp E1 E2. constructor.
  - by apply (holds_take_commit N init T G gs w s f).
  - pose proof (view_commit m secret point (chan w s)) as (_ & _ & _ & En)%view_inv.
    apply numbers_inv in En as (N1 & N2 & N3 & _).
    pose proof (points_commit m secret point (chan w s)) as Ep. intros s'.
    assert (is_REVOKE f = false) as Hk by (unfold is_REVOKE; by rewrite Em).
    destruct (S s') as [r Hr]. exists r. destruct (side_cases s s') as [->| ->].
    + eapply in_step_quiet; [exact Hr|..]; cbn [took chan out];
        rewrite ?upd_same, ?upd_other, ?upd_other', ?upd_same, ?List.filter_app, ?app_nil_r; try done.
      rewrite Eo. cbn. by rewrite Hk.
    + by eapply in_step_take_commit.
  - exists o. eapply fees_take_commit; [done..|by eapply commit_kind|apply fees_commit].
Qed.

Lemma good_take_revoke w s r f rest m store :
  Good w -> in_step w s r -> out w (other s) = f :: rest -> f_msg f = REVOKE m ->
  addSecret sha256 (s_shaChainStore (chan w s)) (MAX_INDEX - r) (ra_perCommitmentSecret m) =
    Ok (store, true) ->
  Good (took s (map_entries mark_forwarded (revoke_writes
      (set_remoteNextPerCommitmentPoint (Some (ra_nextPerCommitmentPoint m))
        (store_secret store r (chan w s))))) [] rest w).
Proof.
  intros [(T & G & gs & I) S (o & F)] Hr Eo Em Ha. constructor;
    [by apply (holds_take_revoke N init T G gs w s f rest m)| |
     exists o; eapply fees_take_revoke; [done..|by eapply revoke_kind|apply fees_revoke]].
  - pose proof (frame_pending _ _ (i_frame _ _ _ _ _ _ I s)) as Hlease.
    rewrite (o_lease _ Hopened) in Hlease.
    destruct (view_revoke store r (Some (ra_nextPerCommitmentPoint m)) (chan w s)
      (t_nodup _ _ _ _ _ _ (i_chan _ _ _ _ _ _ I s)) Hlease) as (_ & _ & _ & _ & _ & En).
    pose proof (points_revoke (set_remoteNextPerCommitmentPoint (Some (ra_nextPerCommitmentPoint m))
        (store_secret store r (chan w s)))) as Ep.
    change (points (set_remoteNextPerCommitmentPoint (Some (ra_nextPerCommitmentPoint m))
        (store_secret store r (chan w s)))) with
      (s_remoteNextPerCommitmentPoint (chan w s), Some (ra_nextPerCommitmentPoint m), store) in Ep.
    revert En Ep. generalize (map_entries mark_forwarded (revoke_writes
      (set_remoteNextPerCommitmentPoint (Some (ra_nextPerCommitmentPoint m))
        (store_secret store r (chan w s))))). intros st' En Ep s'.
    destruct (side_cases s s') as [->| ->].
    + exists (r + 1). by eapply in_step_take_revoke.
    + destruct (S (other s)) as [q Hq]. exists q. apply numbers_inv in En as (N1 & _ & _ & _).
      assert (is_COMMIT f = false) as Hk by (unfold is_COMMIT; by rewrite Em).
      eapply in_step_quiet; [exact Hq|..]; cbn [took chan out];
        rewrite ?other_other, ?upd_same, ?upd_other, ?upd_other', ?upd_same, ?app_nil_r; try done.
      rewrite Eo. cbn. by rewrite Hk.
Qed.

(** ** The handlers, inverted *)

Lemma alive_fail msg st : alive (_failChannelWithWireError msg st) = None.
Proof. unfold alive, _failChannelWithWireError. cbn. by rewrite bool_decide_false. Qed.

Lemma alive_Some st acts r : alive (st, Ok acts) = Some r -> r = (st, acts).
Proof. unfold alive. case_bool_decide; [by intros [= <-] | done]. Qed.

Lemma updatable_normal st : s_state st = CHANNEL_NORMAL -> updatable st = true.
Proof. unfold updatable. intros ->. done. Qed.

Lemma revoke_cases st r :
  alive (revoke_and_ack st) = Some r ->
  exists secret point msg,
    getPerCommitmentSecret sha256 (s_localPerCommitmentSeed st) (s_localCommitmentNumber st)
      = Ok secret /\
    getPerCommitmentPoint (s_localPerCommitmentSeed st) (s_localCommitmentNumber st + 2) = Ok point /\
    ra_perCommitmentSecret msg = secret /\ ra_nextPerCommitmentPoint msg = point /\
    r = (record_revocation secret point (advance_local st),
         [PERSIST_STATE; SEND_MESSAGE (REVOKE msg)]).
Proof.
  unfold revoke_and_ack.
  change (s_localPerCommitmentSeed (advance_local st)) with (s_localPerCommitmentSeed st).
  change (s_localCommitmentNumber (advance_local st)) with (s_localCommitmentNumber st + 1).
  replace (s_localCommitmentNumber st + 1 + 1) with (s_localCommitmentNumber st + 2) by lia.
  destruct (getPerCommitmentSecret _ _ _) as [secret|]; [|discriminate].
  destruct (getPerCommitmentPoint _ _) as [point|]; [|discriminate].
  intros ->%alive_Some. eexists secret, point, _. split_and!; [..|reflexivity]; reflexivity.
Qed.

Lemma accept_same m st :
  s_localPerCommitmentSeed (accept_signature m st) = s_localPerCommitmentSeed st /\
  s_localCommitmentNumber (accept_signature m st) = s_localCommitmentNumber st.
Proof.
  pose proof (view_accept m st) as (_ & _ & Ef & En)%view_inv.
  revert Ef En. generalize (accept_signature m st). intros st1 Ef En.
  unfold frame, numbers in *. split; congruence.
Qed.

Lemma commit_answered m st r :
  s_state st = CHANNEL_NORMAL -> is_Some (s_remoteBasepoints st) ->
  alive (handleCommitmentSigned verifyCommitmentSig verifyRemoteHtlcSignatures m st) = Some r ->
  alive (revoke_and_ack (accept_signature m st)) = Some r.
Proof.
  intros Hn Hb. unfold handleCommitmentSigned. rewrite (updatable_normal _ Hn).
  generalize (revoke_and_ack (accept_signature m st)). intros o. cbn [negb].
  destruct (getPerCommitmentPoint (s_localPerCommitmentSeed st) (s_localCommitmentNumber st + 1))
    as [p|e]; [|discriminate].
  destruct (funderOutputTrimmedRefusal _ _ _ _); [by rewrite alive_fail|].
  rewrite bool_decide_true by done. cbn [negb].
  destruct (verifyRemoteCommitmentSig _ _ _ _ _) as [[]|]; [|by rewrite alive_fail|discriminate].
  destruct (verifyRemoteHtlcSignatures _ _ _); cbn [negb]; [done|by rewrite alive_fail].
Qed.

Lemma revocation_applied m st r :
  s_state st = CHANNEL_NORMAL -> _remoteRevocationCountForRaa st < s_remoteCommitmentNumber st ->
  alive (handleRevokeAndAck ecc_isPoint m st) = Some r ->
  exists store,
    addSecret sha256 (s_shaChainStore st) (MAX_INDEX - _remoteRevocationCountForRaa st)
      (ra_perCommitmentSecret m) = Ok (store, true) /\
    alive (apply_revocation m (store_secret store (_remoteRevocationCountForRaa st) st)) = Some r.
Proof.
  intros Hn Hlt. unfold handleRevokeAndAck. rewrite (updatable_normal _ Hn). cbn [negb].
  destruct (secret_matches_point _ _) as [[]|]; [|by rewrite alive_fail|discriminate].
  cbv zeta. rewrite (proj2 (Z.leb_gt _ _) Hlt).
  destruct (addSecret _ _ _ _) as [[store []]|]; [|by rewrite alive_fail|discriminate].
  destruct (isValidPublicKey _ _); cbn [negb]; [|by rewrite alive_fail].
  intros H. by exists store.
Qed.

Lemma sent_forward from st : sent from (PERSIST_STATE :: forward_actions st) = [].
Proof.
  unfold forward_actions. cbn. generalize (List.filter to_forward (values (s_htlcs st))).
  intros l. by induction l.
Qed.

Lemma add_applied stfu height m st r :
  s_state st = CHANNEL_NORMAL -> get (htlc_key RECEIVED (ua_id m)) (s_htlcs st) = None ->
  alive (handleUpdateAddHtlc stfu height m st) = Some r ->
  exists adm, r = (add_received_htlc adm m st, []).
Proof.
  intros Hn Hg. unfold handleUpdateAddHtlc. rewrite Hn, Hg. cbn [negb andb bool_decide].
  rewrite bool_decide_true by done. cbn [negb andb].
  destruct stfu; [by rewrite alive_fail|]. destruct (admitInbound _ _ _ _) as [adm|]; [|discriminate].
  destruct (ad_refusal adm); [by rewrite alive_fail|]. intros ->%alive_Some. by exists adm.
Qed.

Lemma fee_applied m st r :
  s_state st = CHANNEL_NORMAL -> alive (handleUpdateFee m st) = Some r ->
  s_role st = ACCEPTOR /\ r = (replace_fee (uf_feeratePerKw m) st, []).
Proof.
  intros Hn. unfold handleUpdateFee. rewrite (updatable_normal _ Hn). cbn [negb]. cbv zeta.
  case_bool_decide as Hr; cbn [negb]; [|by rewrite alive_fail].
  destruct (_ <? 253); [by rewrite alive_fail|]. destruct (100000 <? _); [by rewrite alive_fail|].
  destruct (_ <? uf_feeratePerKw m); [by rewrite alive_fail|].
  destruct (_ <? remoteFunderLocalCostMsat _ _ _); [by rewrite alive_fail|].
  destruct (MAX_DUST_HTLC_EXPOSURE_MSAT <? _); [by rewrite alive_fail|].
  destruct (localCommitmentEmptyRefusal _ _ _) as [[]|]; [by rewrite alive_fail| |discriminate].
  by intros ->%alive_Some.
Qed.

(** ** Every command keeps the invariant *)

Lemma good_normal w s : Good w -> s_state (chan w s) = CHANNEL_NORMAL.
Proof.
  intros [(T & G & gs & I) _ _]. pose proof (i_frame _ _ _ _ _ _ I s) as E.
  rewrite <- (o_state _ Hopened s). unfold frame in E. congruence.
Qed.

Lemma good_seed w s : Good w -> s_localPerCommitmentSeed (chan w s) = seed s.
Proof.
  intros [(T & G & gs & I) _ _]. pose proof (i_frame _ _ _ _ _ _ I s) as E.
  unfold seed. unfold frame in E. congruence.
Qed.

Lemma good_basepoints w s : Good w -> is_Some (s_remoteBasepoints (chan w s)).
Proof.
  intros [(T & G & gs & I) _ _]. pose proof (i_frame _ _ _ _ _ _ I s) as E.
  assert (s_remoteBasepoints (chan w s) = s_remoteBasepoints (init s)) as ->
    by (unfold frame in E; congruence).
  rewrite (m_points_a _ _ (o_mirror _ Hopened s)). by eexists.
Qed.

Lemma revocation_result w s m store r :
  Good w ->
  let st' := map_entries mark_forwarded (revoke_writes (set_remoteNextPerCommitmentPoint
    (Some (ra_nextPerCommitmentPoint m)) (store_secret store r (chan w s)))) in
  s_state st' = CHANNEL_NORMAL /\ s_shaChainStore st' = store.
Proof.
  intros Hw. pose proof (good_normal _ s Hw) as Hn. pose proof Hw as [(T & G & gs & I) _ _].
  pose proof (frame_pending _ _ (i_frame _ _ _ _ _ _ I s)) as Hlease.
  rewrite (o_lease _ Hopened) in Hlease.
  destruct (view_revoke store r (Some (ra_nextPerCommitmentPoint m)) (chan w s)
    (t_nodup _ _ _ _ _ _ (i_chan _ _ _ _ _ _ I s)) Hlease) as (_ & _ & _ & _ & Ef & _).
  pose proof (points_revoke (set_remoteNextPerCommitmentPoint (Some (ra_nextPerCommitmentPoint m))
    (store_secret store r (chan w s)))) as Ep.
  change (points (set_remoteNextPerCommitmentPoint (Some (ra_nextPerCommitmentPoint m))
    (store_secret store r (chan w s)))) with
    (s_remoteNextPerCommitmentPoint (chan w s), Some (ra_nextPerCommitmentPoint m), store) in Ep.
  cbv zeta. revert Ef Ep. generalize (map_entries mark_forwarded (revoke_writes
    (set_remoteNextPerCommitmentPoint (Some (ra_nextPerCommitmentPoint m))
      (store_secret store r (chan w s))))). intros st' Ef Ep.
  unfold frame in Ef. unfold points in Ep. split; congruence.
Qed.

Lemma quiet_head f : quiet f = true -> is_COMMIT f = false /\ is_REVOKE f = false.
Proof. unfold quiet, is_COMMIT, is_REVOKE. by destruct (f_msg f). Qed.

(** The peer's settle is always applied. *)
Lemma good_take_settle w s f rest i intent :
  Good w -> out w (other s) = f :: rest -> quiet f = true ->
  (forall T g, flight_ok N init T (other s) f g ->
     forall k, g k = only (s, i) (TSettle intent) k) ->
  exists e, get (htlc_key OFFERED i) (s_htlcs (chan w s)) = Some e /\ (e_state e = COMMITTED /\ e_state e <> intent) /\
    _addNotYetCommitted e = false /\
    (exists T g, flight_ok N init T (other s) f g /\ e_paymentHash e = (T (s, i)).1.2) /\
    Good (took s (set_htlcs (set (htlc_key OFFERED i) (peer_settle_entry intent e)
                               (s_htlcs (chan w s))) (chan w s)) [] rest w).
Proof.
  intros Hw Eo Hq Hg. destruct (quiet_head f Hq) as [F1 F2]. pose proof Hw as [(T & G & gs & I) _ _].
  destruct (head_tokens _ _ _ _ _ _ _ _ _ I Eo) as (g & gt & Eg & Hf & _).
  destruct (holds_take_settle _ _ _ _ _ _ _ _ _ i intent _ _ I Eo Eg (Hg _ _ Hf))
    as (e & He & Hs & Hc & Hp & H).
  exists e. split; [done|]. split; [done|]. split; [done|]. split; [by exists T, g|]. eapply good_take; try done.
  intros o F. by apply (fees_take o w s _ f).
Qed.

(** What a settle does to the channel: the HTLC we offered is there, both sides have committed to
    it and it is not settled; its entry takes the new state, with the removal still to be committed
    and revoked on both sides, and nothing else changes. *)
Definition settles_entry (intent : HtlcState) (i : Z) (e : IHtlcEntry) (st st' : IChannelState) : Prop :=
  get (htlc_key OFFERED i) (s_htlcs st) = Some e /\ e_state e = COMMITTED /\ flag_false (e_addRemoteCommitted e) = false /\
  st' = set_htlcs (set (htlc_key OFFERED i)
          (with_removalLocallyRevoked (Some false) (with_removalRemoteCommitted (Some false) (with_state intent e)))
          (s_htlcs st)) st.

Lemma settles_intro intent i e st : get (htlc_key OFFERED i) (s_htlcs st) = Some e ->
  e_state e = COMMITTED -> _addNotYetCommitted e = false ->
  settles_entry intent i e st (set_htlcs (set (htlc_key OFFERED i) (peer_settle_entry intent e) (s_htlcs st)) st).
Proof. intros He Hs Hc. unfold _addNotYetCommitted in Hc. apply orb_false_iff in Hc as [_ Hc]. by split_and!. Qed.

Lemma fulfill_applied w s f rest m :
  Good w -> out w (other s) = f :: rest -> f_msg f = UPDATE_FULFILL m ->
  exists e st', handleUpdateFulfillHtlc m (chan w s) =
      (st', Ok [HTLC_FULFILLED (ff_id m) (ff_paymentPreimage m)]) /\
    settles_entry FULFILLED (ff_id m) e (chan w s) st' /\ sha256 (ff_paymentPreimage m) = e_paymentHash e /\
    Good (took s st' [] rest w).
Proof.
  intros Hw Eo Em.
  destruct (good_take_settle w s f rest (ff_id m) FULFILLED Hw Eo) as (e & He & [Hcom Hs] & Hc & Hp & H);
    [unfold quiet; by rewrite Em| |].
  { intros T g Hf. unfold flight_ok in Hf. rewrite Em, other_other in Hf. apply Hf. }
  destruct Hp as (T & g & Hf & Hp). unfold flight_ok in Hf. rewrite Em, other_other in Hf.
  destruct Hf as [Hh _]. unfold handleUpdateFulfillHtlc.
  rewrite (updatable_normal _ (good_normal _ s Hw)), He. cbn [negb].
  assert (sha256 (ff_paymentPreimage m) = e_paymentHash e) as Hpre by congruence.
  rewrite bool_decide_true by done. cbn [negb]. rewrite bool_decide_false by done.
  rewrite Hc. eexists e, _. split; [reflexivity|]. split; [by apply settles_intro|]. split; [done|exact H].
Qed.

Lemma peer_fail_applied w s f rest i reason code early :
  Good w -> out w (other s) = f :: rest -> quiet f = true ->
  (forall T g, flight_ok N init T (other s) f g -> forall k, g k = only (s, i) (TSettle FAILED) k) ->
  exists e st', peer_fail i reason code early (chan w s) = (st', Ok [HTLC_FAILED i reason code]) /\
    settles_entry FAILED i e (chan w s) st' /\ Good (took s st' [] rest w).
Proof.
  intros Hw Eo Hq Hg.
  destruct (good_take_settle w s f rest i FAILED Hw Eo Hq Hg) as (e & He & [Hcom Hs] & Hc & _ & H).
  unfold peer_fail. rewrite He. rewrite bool_decide_false by done. rewrite Hc.
  eexists e, _. split; [reflexivity|]. split; [by apply settles_intro|exact H].
Qed.

Lemma fail_applied w s f rest m :
  Good w -> out w (other s) = f :: rest -> f_msg f = UPDATE_FAIL m ->
  exists e st', handleUpdateFailHtlc m (chan w s) =
      (st', Ok [HTLC_FAILED (uh_id m) (uh_reason m) None]) /\
    settles_entry FAILED (uh_id m) e (chan w s) st' /\ Good (took s st' [] rest w).
Proof.
  intros Hw Eo Em. unfold handleUpdateFailHtlc.
  rewrite (updatable_normal _ (good_normal _ s Hw)). cbn [negb].
  eapply peer_fail_applied; [done..| |].
  - unfold quiet; by rewrite Em.
  - intros T g Hf. unfold flight_ok in Hf. rewrite Em, other_other in Hf. apply Hf.
Qed.

Lemma malformed_applied w s f rest m :
  Good w -> out w (other s) = f :: rest -> f_msg f = UPDATE_MALFORMED m ->
  exists e st', handleUpdateFailMalformedHtlc m (chan w s) =
      (st', Ok [HTLC_FAILED (um_id m) (be 2 (um_failureCode m) ++ be 2 0) (Some (um_failureCode m))]) /\
    settles_entry FAILED (um_id m) e (chan w s) st' /\ Good (took s st' [] rest w).
Proof.
  intros Hw Eo Em. unfold handleUpdateFailMalformedHtlc.
  rewrite (updatable_normal _ (good_normal _ s Hw)). cbn [negb].
  pose proof Hw as [(T & G & gs & I) _ _].
  destruct (head_tokens _ _ _ _ _ _ _ _ _ I Eo) as (g & gt & _ & Hf & _).
  unfold flight_ok in Hf. rewrite Em in Hf. destruct Hf as [Hb _].
  rewrite (proj2 (Z.eqb_neq _ _) Hb).
  eapply peer_fail_applied; [done..| |].
  - unfold quiet; by rewrite Em.
  - intros T' g' Hf. unfold flight_ok in Hf. rewrite Em, other_other in Hf. apply Hf.
Qed.

Lemma view_replace_fee rate st : view (replace_fee rate st) = view st.
Proof.
  unfold replace_fee. destruct (s_pendingFeeratePerKw st); [|done]. by destruct (flag_true _).
Qed.

Lemma points_replace_fee rate st : points (replace_fee rate st) = points st.
Proof.
  unfold replace_fee. destruct (s_pendingFeeratePerKw st); [|done]. by destruct (flag_true _).
Qed.

(** What a receiver does with the next message of its peer. *)
Lemma receive_good w s f rest stfu height r :
  Good w -> out w (other s) = f :: rest ->
  alive (receive verifyCommitmentSig verifyRemoteHtlcSignatures ecc_isPoint stfu height (f_msg f)
           (chan w s)) = Some r ->
  Good (took s r.1 (sent (chan w s) r.2) rest w).
Proof.
  intros Hw Eo. pose proof (good_normal _ s Hw) as Hn. unfold receive.
  destruct (f_msg f) as [m|m|m|m|m|m|m|] eqn:Em; [..|discriminate].
  - intros H. pose proof Hw as [(T & G & gs & I) _ _].
    assert (get (htlc_key RECEIVED (ua_id m)) (s_htlcs (chan w s)) = None) as Hg
      by apply (holds_take_add _ _ _ _ _ _ s _ _ m (refused "") I Eo Em).
    apply (add_applied _ _ _ _ _ Hn Hg) in H as [adm ->]. cbn [fst snd].
    destruct (holds_take_add _ _ _ _ _ _ s _ _ m adm I Eo Em) as [_ Hh].
    apply (good_take w s _ f); try done; [|unfold is_COMMIT, is_REVOKE; by rewrite Em..].
    intros o F. apply (fees_take o w s _ f); try done. unfold quiet. by rewrite Em.
  - destruct (fulfill_applied w s f rest m Hw Eo Em) as (e & st' & -> & _ & _ & H).
    by intros ->%alive_Some.
  - destruct (fail_applied w s f rest m Hw Eo Em) as (e & st' & -> & _ & H). by intros ->%alive_Some.
  - destruct (malformed_applied w s f rest m Hw Eo Em) as (e & st' & -> & _ & H).
    by intros ->%alive_Some.
  - intros [Hr ->]%(fee_applied _ _ _ Hn). cbn [fst snd]. pose proof Hw as [(T & G & gs & I) _ _].
    apply (good_take w s _ f); try done; [..|unfold is_COMMIT; by rewrite Em|unfold is_REVOKE; by rewrite Em].
    + eapply (holds_take_none _ _ T G gs w s _ f); [done..| |apply view_replace_fee].
      intros g Hg. unfold flight_ok in Hg. by rewrite Em in Hg.
    + by pose proof (view_replace_fee (uf_feeratePerKw m) (chan w s)) as (_ & _ & _ & ?)%view_inv.
    + apply points_replace_fee.
    + intros o F. by eapply fees_take_update.
  - intros H%(commit_answered _ _ _ Hn (good_basepoints _ s Hw)).
    apply revoke_cases in H as (secret & point & msg & E1 & E2 & E3 & E4 & ->). cbn [fst snd].
    destruct (accept_same m (chan w s)) as [Ea Eb]. rewrite Ea, Eb, (good_seed _ s Hw) in *.
    by apply (good_take_commit w s f rest m).
  - pose proof Hw as [_ S _]. destruct (S s) as [q Hq]. intros H.
    assert (_remoteRevocationCountForRaa (chan w s) = q) as Eq
      by (unfold _remoteRevocationCountForRaa; by rewrite (st_rev _ _ _ Hq)).
    apply revocation_applied in H as (store & Ha & H); [|done|].
    + rewrite Eq in *. unfold apply_revocation in H. apply alive_Some in H as ->. cbn [fst snd].
      rewrite sent_forward. by apply (good_take_revoke w s q f rest m).
    + rewrite Eq, (st_remote _ _ _ Hq), Eo, count_cons, (revoke_kind _ _ Em).
      pose proof (count_nonneg is_COMMIT (out w s)). pose proof (count_nonneg is_REVOKE rest). lia.
Qed.

Lemma deliver_good w s stfu height w' :
  Good w ->
  deliver verifyCommitmentSig verifyRemoteHtlcSignatures ecc_isPoint (other s) stfu height w = Some w' ->
  Good w'.
Proof.
  intros Hw. unfold deliver. destruct (out w (other s)) as [|f rest] eqn:Eo; [discriminate|].
  rewrite other_other. cbv zeta.
  destruct (alive _) as [[st acts]|] eqn:Ha; [|discriminate]. cbn. intros [= <-].
  by apply (receive_good _ _ _ _ _ _ _ Hw Eo) in Ha.
Qed.

(** A call that sends an update: the state is [st'] up to the queue of updates. *)
Lemma view_send m st : view (send_update m st).1 = view st.
Proof. reflexivity. Qed.

Lemma points_send m st : points (send_update m st).1 = points st.
Proof. reflexivity. Qed.

Lemma settle_quiet T s f k intent :
  flight_ok N init T s f (only k (TSettle intent)) -> quiet f = true.
Proof.
  intros Hf. destruct (flight_kind _ _ _ _ _ _ k Hf) as [F1 F2]. rewrite only_eq in F1, F2.
  unfold flight_ok, quiet, is_COMMIT, is_REVOKE in *. destruct (f_msg f); try done.
  specialize (Hf k). by rewrite only_eq in Hf.
Qed.

Lemma good_settle w s i e fulfill msg :
  Good w -> get (htlc_key RECEIVED i) (s_htlcs (chan w s)) = Some e ->
  _guardRepeatSettle e (intent_of fulfill) = None -> settle_ready i (chan w s) = true ->
  (forall T, e_paymentHash e = (T (other s, i)).1.2 ->
     flight_ok N init T s {| f_msg := msg; f_from := chan w s |}
       (only (other s, i) (TSettle (intent_of fulfill)))) ->
  Good (acted s (send_update msg (set_htlcs (set (htlc_key RECEIVED i)
                   (settle_entry (intent_of fulfill) e) (s_htlcs (chan w s))) (chan w s))).1
          [{| f_msg := msg; f_from := chan w s |}] w).
Proof.
  intros Hw He Hr Hs Hf. pose proof Hw as [(T & G & gs & I) _ _].
  assert (receivedAddIrrevocablyCommitted e = true) as Hc.
  { unfold settle_ready in Hs. rewrite He in Hs. unfold _guardRepeatSettle in Hr.
    destruct (bool_decide _); [discriminate|]. destruct (removed e); [discriminate|].
    by rewrite orb_false_r in Hs. }
  assert (e_paymentHash e = (T (other s, i)).1.2) as Hp.
  { pose proof (t_terms _ _ _ _ _ _ (i_chan _ _ _ _ _ _ I s) (other s, i) e) as Ht.
    rewrite lkey_received in Ht. specialize (Ht He). by injection Ht. }
  specialize (Hf T Hp).
  assert (quiet {| f_msg := msg; f_from := chan w s |} = true) as Hq by (by eapply settle_quiet).
  destruct (quiet_head _ Hq) as [F1 F2].
  apply good_act; cbn [List.filter]; rewrite ?F1, ?F2; try done.
  - apply (holds_settle _ _ T G gs w s i e fulfill); [done..|]. by rewrite view_send.
  - by eexists.
  - intros o F. apply fees_act; try done. cbn [forallb]. by rewrite Hq.
Qed.

Lemma call_inv s o w w' :
  call s o w = Some w' ->
  exists r, alive o = Some r /\ w' = acted s r.1 (sent (chan w s) r.2) w.
Proof.
  unfold call. destruct (alive o) as [[st acts]|]; [|discriminate].
  cbn. intros [= <-]. by eexists.
Qed.

Lemma alive_send m st r : alive (send_update m st) = Some r ->
  r = ((send_update m st).1, [PERSIST_STATE; SEND_MESSAGE m]).
Proof. by intros ->%alive_Some. Qed.

Lemma alive_refuse msg st r : alive (refuse msg st) = Some r -> r = (st, [ERROR msg]).
Proof. by intros ->%alive_Some. Qed.

Lemma view_add_offered e st :
  view (add_offered_htlc e st) =
  (set (htlc_key OFFERED (s_localHtlcCounter st)) e (s_htlcs st),
   (s_localBalanceMsat st - e_amountMsat e, s_remoteBalanceMsat st), frame st,
   (s_localCommitmentNumber st, s_remoteCommitmentNumber st, s_remoteRevocationNumber st,
    s_localHtlcCounter st + 1)).
Proof. reflexivity. Qed.

Lemma points_add_offered e st : points (add_offered_htlc e st) = points st.
Proof. reflexivity. Qed.

Lemma good_add w s e msg :
  let i := s_localHtlcCounter (chan w s) in
  let st' := (send_update (UPDATE_ADD msg) (add_offered_htlc e (chan w s))).1 in
  Good w -> s_localHtlcCounter st' <= Z.of_nat N ->
  e = with_addRemoteSigned (Some false) (with_addRemoteCommitted (Some false)
        (new_entry i (ua_amountMsat msg) (ua_paymentHash msg) (ua_cltvExpiry msg)
           (e_onionRoutingPacket e) OFFERED (e_blindingPoint e))) -> ua_id msg = i ->
  Good (acted s st' [{| f_msg := UPDATE_ADD msg; f_from := chan w s |}] w).
Proof.
  intros i st' Hw HN He Hi. pose proof Hw as [(T & G & gs & I) _ _].
  assert (view st' = view (add_offered_htlc e (chan w s))) as V by apply view_send.
  rewrite view_add_offered in V. pose proof (view_inv _ _ _ _ _ V) as (_ & _ & _ & En).
  assert (points st' = points (chan w s)) as Ep by (etrans; [apply points_send|apply points_add_offered]).
  assert (fees st' = fees (chan w s)) as Ef by done.
  clearbody st'. apply numbers_inv in En as En'. destruct En' as (_ & _ & _ & Ec).
  apply good_act; try done; [|by eexists|intros o F; by apply fees_act].
  eapply (holds_add _ _ T G gs w s (ua_amountMsat msg) (ua_paymentHash msg) (ua_cltvExpiry msg)
    (e_onionRoutingPacket e) (e_blindingPoint e)); try done; [lia|].
  fold i. rewrite <- He, V. by rewrite He at 2.
Qed.

Lemma add_good w s q height amount hash cltv onion bp skimmed w' :
  Good w -> call s (addHtlc q height amount hash cltv onion bp skimmed (chan w s)) w = Some w' ->
  s_localHtlcCounter (chan w' s) <= Z.of_nat N -> Good w'.
Proof.
  intros Hw (r & Ha & ->)%call_inv. cbn [chan acted]. rewrite upd_same. revert Ha. unfold addHtlc.
  destruct (match skimmed with Some f => _ | None => _ end); [discriminate|].
  destruct (validateOutgoingHtlc _ _ _ _ _ _) as [[reason|]|]; [| |discriminate].
  { intros ->%alive_refuse _. by apply good_idle. }
  intros ->%alive_send HN. by apply good_add.
Qed.

(** A repeated settle sends nothing. *)
Lemma repeat_silent e intent l from : _guardRepeatSettle e intent = Some l -> sent from l = [].
Proof.
  unfold _guardRepeatSettle. destruct (bool_decide _); [by intros [= <-]|].
  destruct (removed e); [by intros [= <-]|discriminate].
Qed.

(** The three ways to settle. *)
Lemma fulfill_good w s q i preimage w' :
  Good w -> settle_ready i (chan w s) = true ->
  call s (fulfillHtlc q i preimage (chan w s)) w = Some w' -> Good w'.
Proof.
  intros Hw Hs (r & Ha & ->)%call_inv. revert Ha. unfold fulfillHtlc.
  rewrite (updatable_normal _ (good_normal _ s Hw)). cbn [negb].
  destruct q. { intros ->%alive_refuse. by apply good_idle. }
  destruct (get _ _) as [e|] eqn:He; [|intros ->%alive_refuse; by apply good_idle].
  case_bool_decide as Hh; cbn [negb]; [|intros ->%alive_refuse; by apply good_idle].
  destruct (_guardRepeatSettle e FULFILLED) as [l|] eqn:Hg.
  { intros ->%alive_Some. cbn [fst snd]. rewrite (repeat_silent _ _ _ _ Hg). by apply good_idle. }
  intros ->%alive_send. apply (good_settle w s i e true); try done.
  intros T HT. unfold flight_ok. cbn. split; [congruence|done].
Qed.

Lemma fail_good w s q i reason w' :
  Good w -> settle_ready i (chan w s) = true ->
  call s (failHtlc q i reason RECEIVED (chan w s)) w = Some w' -> Good w'.
Proof.
  intros Hw Hs (r & Ha & ->)%call_inv. revert Ha. unfold failHtlc.
  rewrite (updatable_normal _ (good_normal _ s Hw)). cbn [negb].
  destruct q. { intros ->%alive_refuse. by apply good_idle. }
  rewrite bool_decide_true by done. cbn [negb].
  destruct (get _ _) as [e|] eqn:He; [|intros ->%alive_refuse; by apply good_idle].
  destruct (_guardRepeatSettle e FAILED) as [l|] eqn:Hg.
  { intros ->%alive_Some. cbn [fst snd]. rewrite (repeat_silent _ _ _ _ Hg). by apply good_idle. }
  intros ->%alive_send. by apply (good_settle w s i e false).
Qed.

Lemma malformed_good w s q i sha code w' :
  Good w -> settle_ready i (chan w s) = true ->
  call s (failMalformedHtlc q i sha code (chan w s)) w = Some w' -> Good w'.
Proof.
  intros Hw Hs (r & Ha & ->)%call_inv. revert Ha. unfold failMalformedHtlc.
  rewrite (updatable_normal _ (good_normal _ s Hw)). cbn [negb].
  destruct q. { intros ->%alive_refuse. by apply good_idle. }
  destruct (Z.eqb_spec (Z.land code 32768) 0) as [|Hcode].
  { intros ->%alive_refuse. by apply good_idle. }
  destruct (get _ _) as [e|] eqn:He; [|intros ->%alive_refuse; by apply good_idle].
  destruct (_guardRepeatSettle e FAILED) as [l|] eqn:Hg.
  { intros ->%alive_Some. cbn [fst snd]. rewrite (repeat_silent _ _ _ _ Hg). by apply good_idle. }
  intros ->%alive_send. by apply (good_settle w s i e false).
Qed.

(** updateFee refuses, or stages the rate and sends it. *)
Lemma fee_sent q rate st r :
  alive (updateFee q rate st) = Some r ->
  (exists msg, r = (st, [ERROR msg])) \/
  s_role st = OPENER /\
  bool_decide (is_Some (s_pendingFeeratePerKw st)) && flag_true (s_pendingFeerateCommitted st) = false /\
  exists m, uf_feeratePerKw m = rate /\
    r = ((send_update (UPDATE_FEERATE m) (stage_fee rate st)).1,
         [PERSIST_STATE; SEND_MESSAGE (UPDATE_FEERATE m)]).
Proof.
  unfold updateFee. cbv zeta.
  assert (forall msg, alive (refuse msg st) = Some r -> exists msg, r = (st, [ERROR msg])) as Hno
    by (intros msg ->%alive_refuse; by eexists).
  destruct (bool_decide (s_state st = CHANNEL_NORMAL)); cbn [negb]; [|eauto].
  case_bool_decide as Hr; cbn [negb]; [|eauto].
  destruct q; [eauto|]. destruct (rate <? 253); [eauto|]. destruct (100000 <? rate); [eauto|].
  destruct (_ <? _ * 1000); [eauto|]. destruct (MAX_DUST_HTLC_EXPOSURE_MSAT <? _); [eauto|].
  destruct (_ && _) eqn:Hg; [eauto|].
  destruct (localCommitmentEmptyRefusal _ _ _) as [[]|]; [eauto| |discriminate].
  intros ->%alive_send. right. split_and!; [done..|]. by exists {| uf_channelId := channel_id st; uf_feeratePerKw := rate |}.
Qed.

Lemma fee_good w s q rate w' :
  Good w -> call s (updateFee q rate (chan w s)) w = Some w' -> Good w'.
Proof.
  intros Hw (r & Ha & ->)%call_inv.
  apply fee_sent in Ha as [[msg ->]|(Hr & Hg & m & Em & ->)]; [by apply good_idle|].
  cbn [fst snd]. pose proof Hw as [(T & G & gs & I) _ _].
  apply good_act; try done.
  - by apply (holds_act_none _ _ T G gs).
  - by eexists.
  - intros o F. by apply (fees_update o w s _ m (chan w s) rate).
Qed.

Lemma good_plain w s : Good w -> isTaprootChannel (s_channelType (chan w s)) = false.
Proof.
  intros [(T & G & gs & I) _ _]. pose proof (i_frame _ _ _ _ _ _ I s) as E.
  rewrite <- (o_plain _ Hopened s). unfold frame in E. f_equal. congruence.
Qed.

Lemma sign_sent sig hs part st r :
  s_state st = CHANNEL_NORMAL -> isTaprootChannel (s_channelType st) = false ->
  alive (signCommitment sig hs part st) = Some r ->
  exists m, r = (sign_writes sig hs part st, [PERSIST_STATE; SEND_MESSAGE (COMMIT m)]) /\
    cs_signature m = sig.
Proof.
  intros Hn Ht. unfold signCommitment. rewrite (updatable_normal _ Hn), Ht. cbn [negb andb].
  destruct (match signing_point st with Some p => _ | None => _ end); [by rewrite alive_fail|].
  generalize (sign_writes sig hs part st). intros st' ->%alive_Some. by eexists.
Qed.

Lemma sign_good w s hs w' :
  Good w -> call s (autoSignAndSendCommitment (signCommitmentTx s) hs (chan w s)) w = Some w' ->
  Good w'.
Proof.
  intros Hw (r & Ha & ->)%call_inv. revert Ha. unfold autoSignAndSendCommitment.
  destruct (flag_true _); cbn [negb]; [|intros ->%alive_Some; by apply good_idle].
  destruct (isAwaitingRemoteRevocation _) eqn:Hq; [intros ->%alive_Some; by apply good_idle|].
  destruct (signing_point (chan w s)) as [p|] eqn:Hp; [|intros ->%alive_Some; by apply good_idle].
  unfold signRemoteCommitment.
  destruct (buildRemoteCommitment _ _ _) as [built|] eqn:Hb; [|discriminate]. rewrite bind_Ok.
  intros H. destruct (sign_sent _ _ _ _ _ (good_normal _ s Hw) (good_plain _ s Hw) H)
    as (m & -> & Em). cbn [fst snd].
  apply good_sign; [done..|]. intros q S.
  destruct (st_points _ _ _ S) as (p0 & p1 & E0 & _ & E1).
  assert (p = p1) as -> by (unfold signing_point in Hp; unfold points in E0; injection E0 as _ E2;
    rewrite E2 in Hp; congruence).
  destruct (not_awaiting _ _ _ S Hq) as (_ & _ & E). rewrite E in Hb.
  exists p1, built. split_and!; done.
Qed.

Lemma exec_good c w w' :
  Good w ->
  exec signCommitmentTx verifyCommitmentSig verifyRemoteHtlcSignatures ecc_isPoint c w = Some w' ->
  (forall s, s_localHtlcCounter (chan w' s) <= Z.of_nat N) -> Good w'.
Proof.
  intros Hw He HN. destruct c; cbn [exec] in He.
  - by eapply add_good.
  - destruct (settle_ready _ _) eqn:Hs; [|discriminate]. by eapply fulfill_good.
  - destruct (settle_ready _ _) eqn:Hs; [|discriminate]. by eapply fail_good.
  - destruct (settle_ready _ _) eqn:Hs; [|discriminate]. by eapply malformed_good.
  - by eapply fee_good.
  - by eapply sign_good.
  - rewrite <- (other_other s) in He. by eapply deliver_good.
Qed.

End Bounded.

(** The bound on the ids is chosen after the run. *)
Lemma run_good cs w :
  opened init ->
  run signCommitmentTx verifyCommitmentSig verifyRemoteHtlcSignatures ecc_isPoint cs (begin init)
    = Some w ->
  exists N, Good N w.
Proof.
  intros Ho Hr.
  assert (forall cs w0 w1,
    run signCommitmentTx verifyCommitmentSig verifyRemoteHtlcSignatures ecc_isPoint cs w0 = Some w1 ->
    exists n, forall N, (n <= N)%nat -> Good N w0 -> Good N w1) as H.
  { clear cs Hr. intros cs. induction cs as [|c cs IH]; intros w0 w1 Hr; cbn in Hr.
    - injection Hr as <-. by exists 0%nat.
    - destruct (exec _ _ _ _ c w0) as [w2|] eqn:He; [|discriminate]. cbn in Hr.
      destruct (IH _ _ Hr) as [n Hn].
      exists (n + Z.to_nat (s_localHtlcCounter (chan w2 Alice)) +
              Z.to_nat (s_localHtlcCounter (chan w2 Bob)))%nat.
      intros N HN HG. apply Hn; [lia|]. eapply exec_good; [done..|]. intros []; lia. }
  destruct (H _ _ _ Hr) as [n Hn]. exists n. apply Hn; [done|]. by apply good_begin.
Qed.

(** ** Agreement *)

Lemma mirrored_frame a a' b b' :
  frame a' = frame a -> frame b' = frame b -> mirrored a b -> mirrored a' b'.
Proof.
  intros Ha Hb [M1 M2 M3 M4 M5 M6 M7 M8 M9 M10 M11].
  assert (forall a b, frame a = frame b -> config_frame (s_localConfig a) = config_frame (s_localConfig b) /\
    config_frame (s_remoteConfig a) = config_frame (s_remoteConfig b)) as Hc
    by (unfold frame; intros ? ? H; split; congruence).
  destruct (Hc _ _ Ha) as [[? ?]%config_frame_inv [? ?]%config_frame_inv].
  destruct (Hc _ _ Hb) as [[? ?]%config_frame_inv [? ?]%config_frame_inv].
  unfold frame in *. injection Ha as. injection Hb as. constructor; congruence.
Qed.

Lemma frame_heights a b : frame a = frame b -> s_pendingLeaseBlockheight b = None ->
  getRemoteCommitmentLeaseBlockheight a = s_leaseCommitBlockheight b /\
  getLocalCommitmentLeaseBlockheight a false = s_leaseCommitBlockheight b.
Proof.
  intros E Hl.
  assert (s_pendingLeaseBlockheight a = None) as Hl' by (unfold frame in E; congruence).
  assert (s_leaseCommitBlockheight a = s_leaseCommitBlockheight b) as Hh by (unfold frame in E; congruence).
  unfold getRemoteCommitmentLeaseBlockheight, getLocalCommitmentLeaseBlockheight.
  by rewrite Hl', Hh.
Qed.

Lemma commit_agrees N w s f rest m :
  opened init -> Good N w -> out w (other s) = f :: rest -> f_msg f = COMMIT m ->
  mirrored (f_from f) (chan w s) /\ same_view (f_from f) (chan w s) false /\
  isAnchorChannel (s_channelType (f_from f)) = true /\
  frame (f_from f) = frame (init (other s)).
Proof.
  intros Ho [(T & G & gs & I) _ (o & Hfees)] Eo Em.
  destruct (head_tokens _ _ _ _ _ _ _ _ _ I Eo) as (g & gt & Eg & Hf & Hs).
  unfold flight_ok in Hf. rewrite Em in Hf. destruct Hf as (v & Hv & Hfr & Hb & Hset).
  rewrite other_other in *. pose proof (i_frame _ _ _ _ _ _ I s) as Efr.
  pose proof (o_mirror _ Ho (other s)) as Hm. rewrite other_other in Hm.
  assert (forall k, v k = local_view (half s k (G k))) as Ev.
  { intros k. specialize (Hs k). rewrite Hv in Hs.
    pose proof (reachable_facts _ (i_reach _ _ _ _ _ _ I k)) as F. unfold stream, half in *.
    destruct (decide (k.1 = other s)) as [E|E], (decide (k.1 = s)) as [E'|E'];
      [by destruct (other_ne s); congruence|by apply (f_forth _ F) in Hs|
       by apply (f_back _ F) in Hs|by destruct (side_cases s k.1)]. }
  split_and!; [by eapply mirrored_frame| | |done].
  - destruct (frame_heights _ _ Hfr (o_lease _ Ho _)) as [R3 _].
    destruct (frame_heights _ _ Efr (o_lease _ Ho _)) as [_ R4].
    pose proof (i_chan _ _ _ _ _ _ I s) as Ht. constructor.
    + eapply fees_agree; [done..|by eapply commit_kind].
    + rewrite R3, R4. pose proof (o_height _ Ho s). congruence.
    + rewrite Hb, (local_balances_sum _ _ _ _ _ _ Ht).
      f_equal; (f_equal; apply zsum_ext; intros k _; by rewrite Ev).
    + rewrite Hset, (local_set_carried _ _ _ _ _ _ Ht). unfold carried.
      rewrite (filter_ext_bool _ (fun k => v_carried (local_view (half s k (G k)))));
        [done|]. intros k. by rewrite Ev.
  - rewrite <- (o_anchor _ Ho (other s)). f_equal. unfold frame in Hfr. congruence.
Qed.

(** ** Secrets *)

Hypothesis sha256_len : forall b, blen (sha256 b) = 32.

Lemma point_of_secret sd r secret point :
  getPerCommitmentSecret sha256 sd r = Ok secret -> getPerCommitmentPoint sd r = Ok point ->
  perCommitmentPointFromSecret secret = Ok point.
Proof.
  unfold getPerCommitmentSecret, getPerCommitmentPoint. intros Hs. rewrite Hs, bind_Ok. done.
Qed.

Lemma secret_of_point sd r point :
  getPerCommitmentPoint sd r = Ok point ->
  exists secret, blen secret = 32 /\ perCommitmentPointFromSecret secret = Ok point.
Proof.
  unfold getPerCommitmentPoint. intros H. apply bind_Ok_inv in H as (secret & _ & H).
  exists secret. split; [|done]. unfold perCommitmentPointFromSecret, getPublicKey in H.
  apply bind_Ok_inv in H as (u & H & _). apply throw_if_Ok in H.
  apply negb_false_iff, Z.eqb_eq in H. done.
Qed.

Lemma secret_stored N w s r f rest m :
  opened init -> Good N w -> in_step w s r -> out w (other s) = f :: rest -> f_msg f = REVOKE m ->
  exists store, addSecret sha256 (s_shaChainStore (chan w s)) (MAX_INDEX - r)
                  (ra_perCommitmentSecret m) = Ok (store, true) /\
    getSecret sha256 store (MAX_INDEX - r) = Some (ra_perCommitmentSecret m).
Proof.
  intros Ho Hw S Eo Em. pose proof (st_pos _ _ _ S) as Hr.
  destruct (st_revoke _ _ _ S f m) as [Hsec _]; [rewrite Eo; by left|done|].
  destruct (secret_honest (seed (other s)) _ _ (o_seed _ Ho (other s)) Hr Hsec) as [Hm Es].
  destruct (honest_next sha256 sha256_len (seed (other s)) (Z.to_nat r) _ (st_store _ _ _ S)
    (o_seed _ Ho (other s))) as (store & Ha & Hacc); rewrite ?Z2Nat.id by lia; [done|].
  rewrite Z2Nat.id, <- Es in Ha by lia. exists store. split; [done|].
  pose proof (getSecret_known sha256 _ _ (Z.to_nat r) Hacc) as Hk.
  rewrite honest_length, Z2Nat.id in Hk by lia. rewrite Hk by lia.
  rewrite honest_lookup by lia. by rewrite Z2Nat.id, <- Es by lia.
Qed.

Lemma secret_matches w s r f rest m :
  in_step w s r -> out w (other s) = f :: rest -> f_msg f = REVOKE m ->
  secret_matches_point (ra_perCommitmentSecret m) (chan w s) = Ok true.
Proof.
  intros S Eo Em. destruct (st_revoke _ _ _ S f m) as [Hsec _]; [rewrite Eo; by left|done|].
  destruct (st_points _ _ _ S) as (p & q & E & Ep & _). unfold points in E.
  assert (s_remoteCurrentPerCommitmentPoint (chan w s) = Some p) as Ec by congruence.
  unfold secret_matches_point. rewrite Ec, (point_of_secret _ _ _ _ Hsec Ep), bind_Ok.
  by rewrite bool_decide_true.
Qed.

End Run.
