(* ===== verification/ChannelSafety.v ===== *)
(** * What two channels guarantee each other

    The theorems of the update protocol, for every run of two nodes from a fresh
    anchor channel ([opened]): commitments agree, secrets are accepted, settles are
    applied, value is kept, and an HTLC is handed on only once it is irrevocable. *)

From stdpp Require Import sets.
From Stdlib Require Import Strings.Byte Sorting.Permutation.
From S2P Require Import Prelude Buffer JsMap ShaChain CommitmentTx Scripts.
From S2P Require Import WireBasic WireUpdate WireCommitment.
From S2P Require Import ChannelTypes CommitmentBuilder HtlcPolicy HtlcAdmission Channel HtlcProtocol ChannelEntries.
From S2P Require Import ChannelTrack ChannelPair ChannelRun.
Local Open Scope Z_scope.

Section Safety.
Context `{L : BitcoinLib}.
Context (signCommitmentTx : Peer -> Transaction -> buffer -> Z -> buffer)
        (verifyCommitmentSig : Transaction -> buffer -> buffer -> buffer -> Z -> bool)
        (verifyRemoteHtlcSignatures : IChannelState -> buffer -> list buffer -> bool)
        (ecc_isPoint : buffer -> bool).

(** Reached by a run from [init]. *)
Definition reached (init : Peer -> IChannelState) (w : World) : Prop :=
  exists cs, run signCommitmentTx verifyCommitmentSig verifyRemoteHtlcSignatures ecc_isPoint cs
               (begin init) = Some w.

Context (init : Peer -> IChannelState) (w : World).

Lemma reached_good : opened init -> reached init w -> exists N, Good signCommitmentTx init N w.
Proof. intros Ho [cs Hr]. by eapply run_good. Qed.

(** C1: whenever a commitment_signed arrives, the signature check of
    handleCommitmentSigned succeeds: both nodes have built the same transaction, for
    the same commitment number and per-commitment point and at the same fee rate,
    however their HTLC and fee updates crossed.  The signer is assumed to verify its own signatures. *)
Theorem commitment_signed_verifies s f rest m
    (Hopened : opened init) (Hreached : reached init w)
    (Hsigner : forall p tx script amount,
       verifyCommitmentSig tx (signCommitmentTx p tx script amount)
         (bp_fundingPubkey (s_localBasepoints (init p))) script amount = true)
    (Hnext : out w (other s) = f :: rest) (Hcommit : f_msg f = COMMIT m) :
  exists point,
    getPerCommitmentPoint (s_localPerCommitmentSeed (chan w s))
      (s_localCommitmentNumber (chan w s) + 1) = Ok point /\
    verifyRemoteCommitmentSig verifyCommitmentSig (chan w s) point (cs_signature m)
      (s_localCommitmentNumber (chan w s) + 1) = Ok true.
Proof.
  destruct (reached_good Hopened Hreached) as [N Hw].
  destruct (commit_agrees _ _ _ _ _ _ _ _ Hopened Hw Hnext Hcommit) as (Hm & Hv & Ha & Hf).
  destruct (g_step _ _ _ _ Hw (other s)) as [r S].
  destruct (st_commit _ _ _ _ _ S f m) as (point & built & Ep & Eb & Es);
    [rewrite Hnext; by left|done|].
  pose proof (st_local _ _ _ _ _ S) as El. rewrite other_other in *.
  pose proof (st_one _ _ _ _ _ S) as Ho. rewrite Hnext, count_cons, (commit_kind _ _ Hcommit) in Ho.
  rewrite other_other in Ho. pose proof (count_nonneg is_COMMIT rest).
  pose proof (count_nonneg is_REVOKE (out w s)).
  replace (count is_REVOKE (out w s)) with 0 in El by lia. rewrite Z.add_0_r in El.
  exists point. rewrite (good_seed _ _ _ _ s Hw), El. split; [done|].
  destruct (remote_is_local _ _ _ _ _ _ Hm Hv Ha Eb) as (built' & Eb' & E1 & E2 & E3 & _).
  unfold verifyRemoteCommitmentSig. rewrite (m_points_b _ _ Hm), Eb', bind_Ok, <- E1, <- E2, <- E3, Es.
  assert (s_localBasepoints (f_from f) = s_localBasepoints (init (other s))) as ->
    by (unfold frame in Hf; congruence).
  by rewrite Hsigner.
Qed.

(** C3: whenever a revoke_and_ack arrives, handleRevokeAndAck accepts it:
    the secret matches the committed point and the secrets already stored, a
    commitment is outstanding, and the store can then produce the revealed
    secret. *)
Theorem revoke_and_ack_accepted s f rest m
    (Hopened : opened init) (Hreached : reached init w)
    (Hlen : forall b, blen (sha256 b) = 32)
    (Hpoint : forall secret p, blen secret = 32 -> perCommitmentPointFromSecret secret = Ok p ->
                isValidPublicKey ecc_isPoint p = true)
    (Hnext : out w (other s) = f :: rest) (Hrevoke : f_msg f = REVOKE m) :
  exists st' forwards,
    handleRevokeAndAck ecc_isPoint m (chan w s) = (st', Ok (PERSIST_STATE :: forwards)) /\
    s_state st' = CHANNEL_NORMAL /\
    getSecret sha256 (s_shaChainStore st') (MAX_INDEX - _remoteRevocationCount (chan w s)) =
      Some (ra_perCommitmentSecret m).
Proof.
  destruct (reached_good Hopened Hreached) as [N Hw].
  destruct (g_step _ _ _ _ Hw s) as [r S].
  destruct (secret_stored _ _ Hlen _ _ _ _ _ _ _ Hopened Hw S Hnext Hrevoke) as (store & Ha & Hg).
  pose proof (secret_matches _ _ _ _ _ _ _ _ S Hnext Hrevoke) as Hmatch.
  destruct (st_revoke _ _ _ _ _ S f m) as [_ Hp]; [rewrite Hnext; by left|done|].
  destruct (secret_of_point _ _ _ Hp) as (secret & Hl & Hs).
  assert (_remoteRevocationCountForRaa (chan w s) = r /\ _remoteRevocationCount (chan w s) = r)
    as [E1 E2] by (unfold _remoteRevocationCountForRaa, _remoteRevocationCount;
                   by rewrite (st_rev _ _ _ _ _ S)).
  assert (r < s_remoteCommitmentNumber (chan w s)) as Hlt.
  { rewrite (st_remote _ _ _ _ _ S), Hnext, count_cons, (revoke_kind _ _ Hrevoke).
    pose proof (count_nonneg is_COMMIT (out w s)). pose proof (count_nonneg is_REVOKE rest). lia. }
  unfold handleRevokeAndAck. rewrite (updatable_normal _ (good_normal _ _ _ Hopened _ s Hw)), Hmatch.
  cbn [negb]. rewrite E1, E2, (proj2 (Z.leb_gt _ _) Hlt), Ha, (Hpoint _ _ Hl Hs). cbn [negb].
  destruct (revocation_result _ _ N Hopened w s m store r Hw) as [Hst Hstore].
  unfold apply_revocation. eexists _, _. split; [reflexivity|]. split; [exact Hst|].
  rewrite Hstore. exact Hg.
Qed.

(** C5: whenever an update_fulfill_htlc, update_fail_htlc or
    update_fail_malformed_htlc arrives, the HTLC it names is there, committed on both sides
    and not settled, a preimage it carries hashes to the HTLC's payment hash, and the handler
    applies it and reports it: the entry takes the state FULFILLED or FAILED, its removal is
    still to be committed and revoked, and nothing else of the channel changes. *)
Theorem settle_applied s f rest
    (Hopened : opened init) (Hreached : reached init w)
    (Hnext : out w (other s) = f :: rest) :
  match f_msg f with
  | UPDATE_FULFILL m => exists e st', handleUpdateFulfillHtlc m (chan w s) =
      (st', Ok [HTLC_FULFILLED (ff_id m) (ff_paymentPreimage m)]) /\
      settles_entry FULFILLED (ff_id m) e (chan w s) st' /\
      sha256 (ff_paymentPreimage m) = e_paymentHash e
  | UPDATE_FAIL m => exists e st', handleUpdateFailHtlc m (chan w s) =
      (st', Ok [HTLC_FAILED (uh_id m) (uh_reason m) None]) /\
      settles_entry FAILED (uh_id m) e (chan w s) st'
  | UPDATE_MALFORMED m => exists e st', handleUpdateFailMalformedHtlc m (chan w s) =
      (st', Ok [HTLC_FAILED (um_id m) (be 2 (um_failureCode m) ++ be 2 0)
                  (Some (um_failureCode m))]) /\
      settles_entry FAILED (um_id m) e (chan w s) st'
  | _ => True
  end.
Proof.
  destruct (reached_good Hopened Hreached) as [N Hw].
  destruct (f_msg f) as [m|m|m|m|m|m|m|] eqn:Em; try done.
  - destruct (fulfill_applied _ _ _ Hopened w s f rest m Hw Hnext Em) as (e & st' & E & Hs & Hp & _). by exists e, st'.
  - destruct (fail_applied _ _ _ Hopened w s f rest m Hw Hnext Em) as (e & st' & E & Hs & _). by exists e, st'.
  - destruct (malformed_applied _ _ _ Hopened w s f rest m Hw Hnext Em) as (e & st' & E & Hs & _). by exists e, st'.
Qed.

(** C2: at every moment each side accounts for the whole channel: its balance,
    its peer's balance and the HTLCs it holds add up to the opening balances. *)
Theorem value_conserved s (Hopened : opened init) (Hreached : reached init w) :
  s_localBalanceMsat (chan w s) + s_remoteBalanceMsat (chan w s) +
    zsum e_amountMsat (values (s_htlcs (chan w s))) =
  s_localBalanceMsat (init s) + s_remoteBalanceMsat (init s).
Proof.
  destruct (reached_good Hopened Hreached) as [N [(T & G & gs & I) _]].
  pose proof (i_chan _ _ _ _ _ _ I s) as Ht.
  rewrite (entry_sum _ _ _ _ _ _ e_amountMsat Ht) by (intros; cbn; lia).
  pose proof (t_balances _ _ _ _ _ _ Ht) as [= -> ->]. unfold base. rewrite (o_balance _ Hopened).
  match goal with |- ?a + ?x + (?b + ?y) + ?z = _ => assert (x + y + z = 0); [|lia] end.
  rewrite <- !zsum_add. rewrite (zsum_ext _ (fun _ => 0)); [by induction (keys N)|].
  intros k _. pose proof (reachable_facts _ (i_reach _ _ _ _ _ _ I k)) as F.
  assert (h_local (half s k (G k)) + h_remote (half s k (G k)) +
          match h_entry (half s k (G k)) with Some e => e_amountMsat e | None => 0 end = 0) as E.
  { rewrite (t_entry _ _ _ _ _ _ Ht k). pose proof (t_entry _ _ _ _ _ _ Ht k) as He.
    pose proof (f_value_offerer _ F) as F1. pose proof (f_value_receiver _ F) as F2.
    unfold half, held in *. destruct (decide (k.1 = s)); rewrite He in *;
      destruct (get _ _); cbn in *; lia. }
  rewrite <- !Z.mul_add_distr_l, E. lia.
Qed.

(** C6: when no message is under way and no HTLC is pending, each side's balance
    is what its peer believes it to be. *)
Theorem balances_agree (Hopened : opened init) (Hreached : reached init w)
    (Hquiet : forall s, out w s = []) (Hnone : forall s, s_htlcs (chan w s) = []) :
  s_localBalanceMsat (chan w Alice) = s_remoteBalanceMsat (chan w Bob) /\
  s_remoteBalanceMsat (chan w Alice) = s_localBalanceMsat (chan w Bob).
Proof.
  destruct (reached_good Hopened Hreached) as [N [(T & G & gs & I) _]].
  pose proof (t_balances _ _ _ _ _ _ (i_chan _ _ _ _ _ _ I Alice)) as [= A1 A2].
  pose proof (t_balances _ _ _ _ _ _ (i_chan _ _ _ _ _ _ I Bob)) as [= B1 B2].
  assert (forall k, h_local (half Alice k (G k)) = h_remote (half Bob k (G k)) /\
                    h_remote (half Alice k (G k)) = h_local (half Bob k (G k))) as E.
  { intros k. assert (forall s, gs s = []) as Hg.
    { intros s. pose proof (i_flight _ _ _ _ _ _ I s) as F. rewrite (Hquiet s) in F.
      by apply Forall2_nil_inv_l in F. }
    assert (forall s, stream s k (G k) = []) as Hst
      by (intros s; by rewrite (i_stream _ _ _ _ _ _ I), Hg).
    assert (forall s, h_entry (half s k (G k)) = None) as Hen
      by (intros s; by rewrite (t_entry _ _ _ _ _ _ (i_chan _ _ _ _ _ _ I s)), Hnone).
    pose proof (reachable_facts _ (i_reach _ _ _ _ _ _ I k)) as F.
    pose proof (Hst Alice) as S1. pose proof (Hst Bob) as S2.
    pose proof (Hen Alice) as E1. pose proof (Hen Bob) as E2. unfold stream, half in *.
    destruct k as [[] i]; cbn in *.
    - by apply (f_settled _ F).
    - destruct (f_settled _ F E2 E1 S2 S1). done. }
  rewrite A1, A2, B1, B2. cbn.
  split; (f_equal; apply zsum_ext; intros k _; by rewrite (proj1 (E k)) || by rewrite (proj2 (E k))).
Qed.

(** C4: an HTLC that a node treats as irrevocably committed, which is when it
    is forwarded or settled, is committed at the peer that offered it, on the same
    terms: both last signed commitments and both next commitments carry it, and
    the peer's signature and revocation for it are in. *)
Theorem forward_irrevocable s i e (Hopened : opened init) (Hreached : reached init w)
    (Hentry : get (htlc_key RECEIVED i) (s_htlcs (chan w s)) = Some e)
    (Hready : receivedAddIrrevocablyCommitted e = true) :
  exists o, get (htlc_key OFFERED i) (s_htlcs (chan w (other s))) = Some o /\
    remote_terms o = local_terms e /\
    flag_true (e_addRemoteCommitted o) = true /\ flag_true (e_addRemoteSigned o) = true /\
    local_carries true o = true /\ remote_carries o = true /\
    local_carries true e = true /\ remote_carries e = true.
Proof.
  destruct (reached_good Hopened Hreached) as [N [(T & G & gs & I) _]].
  pose proof (i_chan _ _ _ _ _ _ I s) as Ht. pose proof (i_chan _ _ _ _ _ _ I (other s)) as Ht'.
  set (k := (other s, i)). pose proof (reachable_facts _ (i_reach _ _ _ _ _ _ I k)) as F.
  pose proof (t_entry _ _ _ _ _ _ Ht k) as E. pose proof (t_entry _ _ _ _ _ _ Ht' k) as E'.
  cbn beta in E, E'. assert (lkey s k = htlc_key RECEIVED i) as K by apply lkey_received.
  assert (lkey (other s) k = htlc_key OFFERED i) as K' by apply lkey_offered.
  assert (half s k (G k) = p_receiver (G k)) as Hh by (by destruct s).
  assert (half (other s) k (G k) = p_offerer (G k)) as Hh' by (by destruct s).
  rewrite Hh, K, Hentry in E. rewrite Hh', K' in E'. cbn in E.
  assert (may_settle (p_receiver (G k)) = true) as Hm by (unfold may_settle; by rewrite E).
  pose proof (f_irrevocable _ F Hm) as Hi. unfold irrevocable in Hi. rewrite E, E' in Hi.
  destruct (get (htlc_key OFFERED i) (s_htlcs (chan w (other s)))) as [o|] eqn:Eo; [|done].
  cbn in Hi. exists o. rewrite !andb_true_iff in Hi.
  assert (local_terms o = terms_at OFFERED (T k)) as To.
  { rewrite <- (dir_offered (other s) i). apply (t_terms _ _ _ _ _ _ Ht' k). by rewrite K'. }
  assert (local_terms e = terms_at RECEIVED (T k)) as Te.
  { rewrite <- (dir_received s i). apply (t_terms _ _ _ _ _ _ Ht k). by rewrite K. }
  destruct Hi as [[[[[H1 H2] H3] H4] H5] H6]. split_and!; try done.
  rewrite Te. unfold remote_terms. by injection To as -> -> -> ->.
Qed.

End Safety.

(** ** A run to evaluate

    Alice and Bob each add an HTLC, both sign before either has heard from the other,
    and everything is settled. *)

Definition demo_pt (n : Z) : option buffer :=
  match getPerCommitmentPoint (L := demo_lib) (alloc 32) n with Ok p => Some p | Err _ => None end.

Definition demo_init (s : Peer) : IChannelState :=
  let st := match s with
            | Alice => demo_state OPENER anchors_type 600000000 400000000 []
            | Bob => demo_state ACCEPTOR anchors_type 400000000 600000000 []
            end in
  set_remoteCurrentPerCommitmentPoint (demo_pt 0) (set_remoteNextPerCommitmentPoint (demo_pt 1) st).

Definition toy_signature (tx : Transaction) (script pubkey : buffer) : buffer :=
  concat (map fst (tx_outs tx)) ++ script ++ pubkey.

Definition toy_sign (s : Peer) (tx : Transaction) (script : buffer) (amount : Z) : buffer :=
  toy_signature tx script (bp_fundingPubkey (s_localBasepoints (demo_init s))).

Definition toy_verify (tx : Transaction) (sig pubkey script : buffer) (amount : Z) : bool :=
  bool_decide (sig = toy_signature tx script pubkey).

Definition demo_run (cs : list Command) : option World :=
  run (L := demo_lib) toy_sign toy_verify (fun _ _ _ => true) (fun _ => true) cs (begin demo_init).

Definition demo_world (cs : list Command) : World := default (begin demo_init) (demo_run cs).

Definition from (s : Peer) : Command := CDeliver s false 700000.

Definition demo_preimage : buffer := replicate 32 x07.
Definition demo_hash : buffer := toy_sha demo_preimage.

(** Adds, a new fee rate and signatures cross. *)
Definition demo_cross : list Command :=
  [CAdd Alice false 700000 50000000 demo_hash 800000 [] None None;
   CFee Alice false 1000;
   CAdd Bob false 700000 30000000 demo_hash 800010 [] None None;
   CSign Alice []; CSign Bob []; from Alice; from Alice; from Bob].

(** Both commitments and both revocations arrive; the second round follows. *)
Definition demo_commit : list Command := demo_cross ++ [from Alice; from Bob].
Definition demo_locked : list Command :=
  demo_commit ++ [from Alice; from Bob; CSign Alice []; CSign Bob []; from Alice; from Bob;
                  from Alice; from Bob].
Definition demo_settle : list Command :=
  demo_locked ++ [CFulfill Bob false 0 demo_preimage; CFail Alice false 0 []].
Definition demo_done : list Command :=
  demo_settle ++ [CSign Alice []; CSign Bob []; from Alice; from Bob; from Alice; from Bob;
                  from Alice; from Bob; CSign Alice []; CSign Bob []; from Alice; from Bob;
                  from Alice; from Bob].

Definition demo_reached (w : World) : Prop :=
  reached (L := demo_lib) toy_sign toy_verify (fun _ _ _ => true) (fun _ => true) demo_init w.

Lemma demo_ran cs :
  match demo_run cs with Some _ => true | None => false end = true -> demo_reached (demo_world cs).
Proof. intros H. exists cs. unfold demo_world. unfold demo_run in *. by destruct (run _ _ _ _ cs _). Qed.

Lemma demo_opened : opened (L := demo_lib) demo_init.
Proof.
  constructor; intros s.
  7: { destruct s; (constructor; [done|vm_compute; reflexivity..|by left]). }
  13, 14: destruct s; vm_compute; eexists; split; reflexivity.
  all: destruct s; vm_compute; reflexivity.
Qed.

Lemma toy_signer p tx script amount :
  toy_verify tx (toy_sign p tx script amount)
    (bp_fundingPubkey (s_localBasepoints (demo_init p))) script amount = true.
Proof. unfold toy_verify, toy_sign. by rewrite bool_decide_true. Qed.

Definition no_flight : Flight := {| f_msg := WIRE_ERROR [] ""; f_from := demo_init Alice |}.
Definition next_of (s : Peer) (w : World) : Flight := List.hd no_flight (out w s).

Lemma demo_next s w : match out w s with [] => false | _ => true end = true ->
  out w s = next_of s w :: List.tl (out w s).
Proof. unfold next_of. by destruct (out w s). Qed.

Lemma toy_sha_len b : blen (toy_sha b) = 32.
Proof. unfold toy_sha, blen, alloc. rewrite length_take, length_app, length_replicate. lia. Qed.

Definition commit_of (f : Flight) : ICommitmentSignedMessage :=
  match f_msg f with
  | COMMIT m => m
  | _ => {| cs_channelId := []; cs_signature := []; cs_htlcSignatures := []; cs_fundingTxid := None;
            cs_partialSignatureWithNonce := None |}
  end.
Definition revoke_of (f : Flight) : IRevokeAndAckMessage :=
  match f_msg f with
  | REVOKE m => m
  | _ => {| ra_channelId := []; ra_perCommitmentSecret := []; ra_nextPerCommitmentPoint := [];
            ra_nextLocalNonce := None |}
  end.

Lemma commitment_signed_verifies_witness :
  getLocalCommitmentFeeRate (chan (demo_world demo_cross) Bob) false = 1000 /\ exists point,
    verifyRemoteCommitmentSig (L := demo_lib) toy_verify (chan (demo_world demo_cross) Bob) point
      (cs_signature (commit_of (next_of Alice (demo_world demo_cross)))) 1 = Ok true.
Proof.
  destruct (commitment_signed_verifies (L := demo_lib) toy_sign toy_verify (fun _ _ _ => true)
    (fun _ => true) demo_init (demo_world demo_cross) Bob (next_of Alice (demo_world demo_cross))
    (List.tl (out (demo_world demo_cross) Alice))
    (commit_of (next_of Alice (demo_world demo_cross))) demo_opened
    (demo_ran demo_cross ltac:(vm_compute; reflexivity)) toy_signer
    (demo_next Alice (demo_world demo_cross) ltac:(vm_compute; reflexivity))
    ltac:(vm_compute; reflexivity)) as (point & _ & H).
  split; [vm_compute; reflexivity|]. exists point. exact H.
Defined.

Lemma revoke_and_ack_accepted_witness :
  exists st' forwards,
    handleRevokeAndAck (L := demo_lib) (fun _ => true)
      (revoke_of (next_of Alice (demo_world demo_commit))) (chan (demo_world demo_commit) Bob) =
      (st', Ok (PERSIST_STATE :: forwards)).
Proof.
  destruct (revoke_and_ack_accepted (L := demo_lib) toy_sign toy_verify (fun _ _ _ => true)
    (fun _ => true) demo_init (demo_world demo_commit) Bob (next_of Alice (demo_world demo_commit))
    (List.tl (out (demo_world demo_commit) Alice))
    (revoke_of (next_of Alice (demo_world demo_commit))) demo_opened
    (demo_ran demo_commit ltac:(vm_compute; reflexivity)) toy_sha_len)
    as (st' & forwards & H & _).
  - intros secret p Hl H. unfold perCommitmentPointFromSecret, getPublicKey in H. rewrite Hl in H.
    injection H as <-. unfold isValidPublicKey, blen in *. cbn [length].
    rewrite Nat2Z.inj_succ, Hl. done.
  - apply demo_next. vm_compute. reflexivity.
  - vm_compute. reflexivity.
  - exists st', forwards. exact H.
Defined.

Lemma settle_applied_witness :
  match f_msg (next_of Bob (demo_world demo_settle)) with
  | UPDATE_FULFILL m => exists e st', handleUpdateFulfillHtlc (L := demo_lib) m
      (chan (demo_world demo_settle) Alice) =
      (st', Ok [HTLC_FULFILLED (ff_id m) (ff_paymentPreimage m)]) /\
      settles_entry FULFILLED (ff_id m) e (chan (demo_world demo_settle) Alice) st' /\
      sha256 (BitcoinLib := demo_lib) (ff_paymentPreimage m) = e_paymentHash e
  | _ => False
  end.
Proof.
  pose proof (settle_applied (L := demo_lib) toy_sign toy_verify (fun _ _ _ => true)
    (fun _ => true) demo_init (demo_world demo_settle) Alice (next_of Bob (demo_world demo_settle))
    (List.tl (out (demo_world demo_settle) Bob)) demo_opened
    (demo_ran demo_settle ltac:(vm_compute; reflexivity))
    (demo_next Bob (demo_world demo_settle) ltac:(vm_compute; reflexivity))) as H.
  destruct (f_msg (next_of Bob (demo_world demo_settle))) eqn:E; try exact H;
    vm_compute in E; discriminate E.
Defined.

Lemma value_conserved_witness :
  s_localBalanceMsat (chan (demo_world demo_locked) Alice) +
    s_remoteBalanceMsat (chan (demo_world demo_locked) Alice) +
    zsum e_amountMsat (values (s_htlcs (chan (demo_world demo_locked) Alice))) =
  s_localBalanceMsat (demo_init Alice) + s_remoteBalanceMsat (demo_init Alice).
Proof.
  exact (value_conserved (L := demo_lib) toy_sign toy_verify (fun _ _ _ => true)
    (fun _ => true) demo_init (demo_world demo_locked) Alice demo_opened
    (demo_ran demo_locked ltac:(vm_compute; reflexivity))).
Defined.

Lemma balances_agree_witness :
  s_localBalanceMsat (chan (demo_world demo_done) Alice) = 550000000 /\
  s_remoteBalanceMsat (chan (demo_world demo_done) Bob) = 550000000.
Proof.
  destruct (balances_agree (L := demo_lib) toy_sign toy_verify (fun _ _ _ => true)
    (fun _ => true) demo_init (demo_world demo_done) demo_opened
    (demo_ran demo_done ltac:(vm_compute; reflexivity))) as [H _].
  - intros []; vm_compute; reflexivity.
  - intros []; vm_compute; reflexivity.
  - rewrite <- H. split; vm_compute; reflexivity.
Defined.

Lemma forward_irrevocable_witness :
  exists o, get (htlc_key OFFERED 0) (s_htlcs (chan (demo_world demo_locked) Alice)) = Some o /\
    local_carries true o = true.
Proof.
  destruct (get (htlc_key RECEIVED 0) (s_htlcs (chan (demo_world demo_locked) Bob))) as [e|] eqn:E;
    [|vm_compute in E; discriminate E].
  destruct (forward_irrevocable (L := demo_lib) toy_sign toy_verify (fun _ _ _ => true)
    (fun _ => true) demo_init (demo_world demo_locked) Bob 0 e demo_opened
    (demo_ran demo_locked ltac:(vm_compute; reflexivity)) E) as (o & Ho & _ & _ & _ & H & _).
  - vm_compute in E. injection E as <-. reflexivity.
  - cbn [other] in Ho. exists o. split; [exact Ho | exact H].
Defined.

(** ** An add that is refused too early

    Alice pays Bob, Bob fulfills, and Bob offers an HTLC out of what he has just been
    paid before Alice has his revoke_and_ack. *)

Definition demo_credited : list Command :=
  [CAdd Alice false 700000 500000000 demo_hash 800000 [] None None; CSign Alice [];
   from Alice; from Alice; from Bob; CSign Bob []; from Bob; from Alice;
   CFulfill Bob false 0 demo_preimage; CSign Bob []; from Bob; from Bob; from Alice;
   CAdd Bob false 700000 800000000 demo_hash 800000 [] None None].

Definition demo_add : IUpdateAddHtlcMessage :=
  match f_msg (next_of Bob (demo_world demo_credited)) with
  | UPDATE_ADD m => m
  | _ => {| ua_channelId := []; ua_id := 0; ua_amountMsat := 0; ua_paymentHash := [];
            ua_cltvExpiry := 0; ua_onionRoutingPacket := []; ua_blindingPoint := None;
            ua_skimmedFeeMsat := None |}
  end.

(** C35: two nodes that follow the code can lose their channel to a
    payment spent at once.  A node credits a fulfilled HTLC when the peer revokes for
    it; the peer credits it a round later, and handleUpdateAddHtlc measures an add
    against the balance without that credit, so the add that the sender's own checks
    let out fails the channel. *)
Theorem credited_add_fails_channel :
  exists w rest m f, demo_reached w /\ out w Bob = f :: rest /\ f_msg f = UPDATE_ADD m /\
    s_state (handleUpdateAddHtlc (L := demo_lib) false 700000 m (chan w Alice)).1 = ERRORED /\
    In (ERROR "Remote cannot afford HTLC above channel reserve")
      (match (handleUpdateAddHtlc (L := demo_lib) false 700000 m (chan w Alice)).2 with
       | Ok actions => actions | Err _ => [] end).
Proof.
  exists (demo_world demo_credited), (List.tl (out (demo_world demo_credited) Bob)), demo_add,
    (next_of Bob (demo_world demo_credited)).
  split_and!.
  - apply demo_ran. vm_compute. reflexivity.
  - apply demo_next. vm_compute. reflexivity.
  - vm_compute. reflexivity.
  - vm_compute. reflexivity.
  - vm_compute. auto.
Qed.
