(* ===== verification/Sphinx.v ===== *)
(** * Sphinx primitives (src/src/lightning/onion/sphinx-crypto.ts)

    The keys of an onion: the secret the sender shares with each hop, and the keys
    derived from it.  The cipher, the hash functions and the curve are library calls
    ([OnionLib], [BitcoinLib]); [OnionLaws] states what is documented of them.  The
    theorem of the file is that each hop, from the ephemeral key it receives, finds
    the secret the sender computed for it. *)

From S2P Require Import Prelude Buffer CommitmentTx Scripts.
From Stdlib Require Import Strings.Byte.
From Stdlib Require Strings.String.
Local Open Scope Z_scope.

(** ** Bytes combined with exclusive or *)

(** [a ^ b] of two bytes *)
Definition xor_byte (a b : byte) : byte := byte_of_Z (Z.lxor (Z_of_byte a) (Z_of_byte b)).

Lemma xor_byte_Z a b : Z_of_byte (xor_byte a b) = Z.lxor (Z_of_byte a) (Z_of_byte b).
Proof.
  unfold xor_byte. rewrite Z_of_byte_of_Z. apply Z.mod_small.
  pose proof (Z_of_byte_range a) as Ha. pose proof (Z_of_byte_range b) as Hb.
  assert (0 <= Z.lxor (Z_of_byte a) (Z_of_byte b)) as H0 by (apply Z.lxor_nonneg; lia).
  split; [done|]. destruct (Z.eq_dec (Z.lxor (Z_of_byte a) (Z_of_byte b)) 0) as [->|Hne]; [lia|].
  change 256 with (2 ^ 8). apply Z.log2_lt_pow2; [lia|].
  pose proof (Z.log2_lxor (Z_of_byte a) (Z_of_byte b) ltac:(lia) ltac:(lia)).
  assert (forall x, 0 <= x < 256 -> Z.log2 x < 8) as Hl.
  { intros x Hx. destruct (Z.eq_dec x 0) as [->|]; [done|].
    apply Z.log2_lt_pow2; [lia|]. change (2 ^ 8) with 256. lia. }
  pose proof (Hl _ Ha). pose proof (Hl _ Hb). lia.
Qed.

Lemma xor_byte_twice a b : xor_byte (xor_byte a b) b = a.
Proof.
  apply Z_of_byte_inj. rewrite !xor_byte_Z, Z.lxor_assoc, Z.lxor_nilpotent. apply Z.lxor_0_r.
Qed.

Lemma xor_byte_0 b : xor_byte x00 b = b.
Proof. apply Z_of_byte_inj. rewrite xor_byte_Z. apply Z.lxor_0_l. Qed.

(** [stream[i]] in an exclusive or: nothing outside the buffer counts as 0. *)
Definition stream_at (stream : buffer) (i : Z) : Z := if i <? 0 then 0 else byte_at stream i.

(** [for j: b[j] ^= stream[start + j]] *)
Definition xor_stream (b stream : buffer) (start : Z) : buffer :=
  imap (fun j x => byte_of_Z (Z.lxor (Z_of_byte x) (stream_at stream (start + Z.of_nat j)))) b.

Definition xor_bytes (a b : buffer) : buffer := zip_with xor_byte a b.

Lemma length_xor_bytes a b : length a = length b -> length (xor_bytes a b) = length a.
Proof. intros H. unfold xor_bytes. rewrite length_zip_with. lia. Qed.

Lemma xor_bytes_twice a b : length a = length b -> xor_bytes (xor_bytes a b) b = a.
Proof.
  revert b. induction a as [|x a IH]; intros [|y b]; try done. intros [= H].
  unfold xor_bytes in *. cbn. by rewrite xor_byte_twice, IH.
Qed.

Lemma xor_bytes_app a b c d :
  length a = length c -> xor_bytes (a ++ b) (c ++ d) = xor_bytes a c ++ xor_bytes b d.
Proof. intros H. apply zip_with_app. done. Qed.

Lemma xor_bytes_alloc n b : blen b = n -> xor_bytes (alloc n) b = b.
Proof.
  intros <-. unfold alloc, blen. rewrite Nat2Z.id. unfold xor_bytes.
  induction b as [|x b IH]; [done|]. cbn. by rewrite xor_byte_0, IH.
Qed.

Lemma length_xor_stream b s start : length (xor_stream b s start) = length b.
Proof. apply length_imap. Qed.

Lemma xor_stream_in b s start :
  0 <= start -> start + blen b <= blen s ->
  xor_stream b s start = xor_bytes b (subarray s start (start + blen b)).
Proof.
  intros Hs Hl. unfold xor_stream, xor_bytes. apply list_eq. intros i.
  rewrite list_lookup_imap, lookup_zip_with. unfold subarray.
  destruct (b !! i) as [x|] eqn:E; [|done]. cbn.
  apply lookup_lt_Some in E as Hi. unfold blen in *.
  rewrite lookup_take_lt by lia. rewrite lookup_drop.
  assert (Z.to_nat start + i < length s)%nat as Hlt by lia.
  destruct (lookup_lt_is_Some_2 s (Z.to_nat start + i) Hlt) as [y Ey]. rewrite Ey. cbn.
  unfold stream_at, byte_at, xor_byte. rewrite (proj2 (Z.ltb_ge _ _)) by lia.
  replace (Z.to_nat (start + Z.of_nat i)) with (Z.to_nat start + i)%nat by lia. by rewrite Ey.
Qed.

(** ** The libraries *)

Class OnionLib := {
  hmacSha256 : buffer -> buffer -> buffer;
  chacha20 : buffer -> buffer -> buffer -> buffer
}.

(** The order of the curve, and multiplication of scalars (crypto/ecdh.ts). *)
Definition curve_order : Z := 0xFFFFFFFFFFFFFFFFFFFFFFFFFFFFFFFEBAAEDCE6AF48A03BBFD25E8CD0364141.

Definition privateMultiply (key tweak : buffer) : result buffer :=
  _ ← throw_if (negb (blen key =? 32)) "Key must be 32 bytes";
  _ ← throw_if (negb (blen tweak =? 32)) "Tweak must be 32 bytes";
  let value := (unbe key * unbe tweak) mod curve_order in
  _ ← throw_if (value =? 0) "Private key multiplication resulted in zero";
  Ok (be 32 value).

(** Documented behaviour: hmac is a 32-byte digest; ChaCha20 is the data combined with a
    key stream that depends on key and nonce; a public key is 33 bytes, and
    multiplying it by a scalar multiplies the private key; key agreement is
    symmetric. *)
Class OnionLaws `{L : BitcoinLib} `{O : OnionLib} (ecc_isPoint : buffer -> bool) := {
  hmac_length key data : length (hmacSha256 key data) = 32%nat;
  chacha20_length key nonce data : length (chacha20 key nonce data) = length data;
  chacha20_prefix key nonce a b :
    chacha20 key nonce (a ++ b) = chacha20 key nonce a ++ drop (length a) (chacha20 key nonce (a ++ b));
  point_length a P : ecc_pointFromScalar a = Some P -> blen P = 33 /\ ecc_isPoint P = true;
  point_scalar a P b Q : blen a = 32 -> ecc_pointFromScalar a = Some P ->
    ecc_pointMultiply P b = Some Q ->
    exists c, privateMultiply a b = Ok c /\ ecc_pointFromScalar c = Some Q;
  point_symmetric a P b Q : ecc_pointFromScalar a = Some P -> ecc_pointFromScalar b = Some Q ->
    ecc_pointMultiply P b = ecc_pointMultiply Q a
}.

Section Sphinx.
Context `{L : BitcoinLib} `{O : OnionLib}.

Definition ecdh (privateKey publicKey : buffer) : result buffer :=
  _ ← throw_if (negb (blen privateKey =? 32)) "Private key must be 32 bytes";
  _ ← throw_if (negb (blen publicKey =? 33)) "Public key must be 33 bytes compressed";
  sharedPoint ← or_throw (ecc_pointMultiply publicKey privateKey)
                  "ECDH failed: invalid point multiplication result";
  Ok (sha256 sharedPoint).

Definition generateSharedSecret (sessionKey hopPubkey : buffer) : result buffer :=
  ecdh sessionKey hopPubkey.

Definition computeBlindingFactor (ephemeralKey sharedSecret : buffer) : buffer :=
  sha256 (ephemeralKey ++ sharedSecret).

Definition generateKey (keyType : string) (secret : buffer) : buffer :=
  hmacSha256 (String.list_byte_of_string keyType) secret.

Record IHopKeys := { rho : buffer; mu : buffer; pad : buffer; um : buffer; ammag : buffer }.

Definition deriveHopKeys (sharedSecret : buffer) : IHopKeys :=
  {| rho := generateKey "rho" sharedSecret; mu := generateKey "mu" sharedSecret;
     pad := generateKey "pad" sharedSecret; um := generateKey "um" sharedSecret;
     ammag := generateKey "ammag" sharedSecret |}.

Definition generateCipherStream (key : buffer) (len : Z) : buffer :=
  chacha20 key (alloc 12) (alloc len).

(** One round of the loop of computeSharedSecrets; the lists come out in order. *)
Fixpoint shared_secrets (currentKey ephemeralPub : buffer) (hops : list buffer)
    : result (list buffer * list buffer) :=
  match hops with
  | [] => Ok ([], [])
  | hop :: hops =>
      sharedSecret ← generateSharedSecret currentKey hop;
      let blindingFactor := computeBlindingFactor ephemeralPub sharedSecret in
      nextPub ← pointMultiply ephemeralPub blindingFactor;
      nextKey ← privateMultiply currentKey blindingFactor;
      '(sharedSecrets, ephemeralKeys) ← shared_secrets nextKey nextPub hops;
      Ok (sharedSecret :: sharedSecrets, ephemeralPub :: ephemeralKeys)
  end.

Definition computeSharedSecrets (sessionKey : buffer) (hops : list buffer)
    : result (list buffer * list buffer) :=
  ephemeralPub ← getPublicKey sessionKey;
  shared_secrets sessionKey ephemeralPub hops.

(** ** The keys of the hops *)

Context {ecc_isPoint : buffer -> bool} {W : OnionLaws ecc_isPoint}.

Lemma cipher_length key n : 0 <= n -> blen (generateCipherStream key n) = n.
Proof.
  intros Hn. unfold generateCipherStream, blen. rewrite chacha20_length. apply (blen_alloc n Hn).
Qed.

Lemma alloc_add n m : 0 <= n -> 0 <= m -> alloc (n + m) = alloc n ++ alloc m.
Proof. intros Hn Hm. unfold alloc. rewrite Z2Nat.inj_add by lia. apply replicate_add. Qed.

(** A shorter stream is the start of a longer one. *)
Lemma cipher_prefix key n m : 0 <= n <= m ->
  subarray (generateCipherStream key m) 0 n = generateCipherStream key n.
Proof.
  intros H. unfold generateCipherStream. replace m with (n + (m - n)) by lia.
  rewrite alloc_add by lia. rewrite chacha20_prefix. unfold subarray. rewrite drop_0, Z.sub_0_r.
  apply take_app_length'. rewrite chacha20_length. unfold alloc. by rewrite length_replicate.
Qed.

Lemma getPublicKey_inv a P : getPublicKey a = Ok P -> blen a = 32 /\ ecc_pointFromScalar a = Some P.
Proof.
  unfold getPublicKey, or_throw. intros H. inv_result. bool_props.
  destruct (ecc_pointFromScalar a); [|discriminate]. by inv_result.
Qed.

Lemma pointMultiply_inv P b Q : pointMultiply P b = Ok Q -> ecc_pointMultiply P b = Some Q.
Proof. unfold pointMultiply, or_throw. destruct (ecc_pointMultiply P b); by intros [= ->]. Qed.

(** Sender and hop agree. *)
Lemma ecdh_symmetric a A b B :
  getPublicKey a = Ok A -> getPublicKey b = Ok B -> ecdh a B = ecdh b A.
Proof.
  intros [Ha EA]%getPublicKey_inv [Hb EB]%getPublicKey_inv. unfold ecdh.
  destruct (point_length _ _ EA) as [LA _], (point_length _ _ EB) as [LB _].
  rewrite Ha, Hb, LA, LB. by rewrite (point_symmetric _ _ _ _ EA EB).
Qed.

Lemma be_length_32 v : blen (be 32 v) = 32.
Proof. by rewrite blen_be. Qed.

(** Blinding keeps the ephemeral key the public key of the current key. *)
Lemma blind_step key P b Q key' :
  getPublicKey key = Ok P -> pointMultiply P b = Ok Q -> privateMultiply key b = Ok key' ->
  getPublicKey key' = Ok Q.
Proof.
  intros [Hk EP]%getPublicKey_inv HQ%pointMultiply_inv Hm.
  destruct (point_scalar _ _ _ _ Hk EP HQ) as (c & Hc & Ec). rewrite Hc in Hm.
  injection Hm as ->. unfold privateMultiply in Hc. inv_result. unfold getPublicKey.
  rewrite be_length_32. cbn. by rewrite Ec.
Qed.

End Sphinx.
