(* ===== verification/HopPayload.v ===== *)
(** * Hop payloads (src/src/lightning/onion/hop-payload.ts)

    What a hop is told, as a stream of TLV records behind its length.  The decoder's
    [while] loop runs on fuel, one unit per byte and one more; each iteration consumes at
    least two bytes.  [Number(x)] of a bigint is rounded to 53 significant bits. *)

From S2P Require Import Prelude Buffer Codec Tlv CommitmentTx.
From Stdlib Require Import Strings.Byte Sorting.Sorted Sorting.Permutation.
From stdpp Require Import sorting.
Local Open Scope Z_scope.

(** ** Numbers *)

(** A non-negative integer rounded to the nearest double, ties to even. *)
Definition round53 (z : Z) : Z :=
  if z <? 2 ^ 53 then z
  else
    let e := Z.log2 z - 52 in
    let q := z / 2 ^ e in
    let r := z mod 2 ^ e in
    let half := 2 ^ (e - 1) in
    (if r <? half then q else if half <? r then q + 1 else if Z.even q then q else q + 1) * 2 ^ e.

Lemma round53_small z : z < 2 ^ 53 -> round53 z = z.
Proof. intros H. unfold round53. by rewrite (proj2 (Z.ltb_lt _ _)). Qed.

(** A number that came from an integer. *)
Inductive number := Fin (z : Z) | Infinity.

(** [Number(z)] *)
Definition to_number (z : Z) : number :=
  if 2 ^ 1024 <=? round53 z then Infinity else Fin (round53 z).

(** [BigInt(n)] *)
Definition to_bigint (n : number) : result Z :=
  match n with Fin z => Ok z | Infinity => Err "The number Infinity cannot be converted to a BigInt" end.

Definition encodeTruncatedUint (value : Z) : buffer :=
  if value <=? 0 then [] else be (Z.to_nat (Z.log2 value / 8 + 1)) value.

Definition decodeTruncatedUint (buf : buffer) : Z :=
  fold_left (fun result x => Z.lor (Z.shiftl result 8) (Z_of_byte x)) buf 0.

(** ** The payload *)

(** [customRecords] is a Map in insertion order. *)
Record IHopPayload := {
  hp_shortChannelId : option buffer;
  hp_amountToForwardMsat : Z;
  hp_outgoingCltvValue : number;
  hp_paymentSecret : option buffer;
  hp_totalMsat : option Z;
  hp_encryptedRecipientData : option buffer;
  hp_blindingPoint : option buffer;
  hp_totalAmountMsat : option Z;
  hp_customRecords : option (list (Z * buffer));
  hp_omitForwardAmounts : option bool
}.

Definition KEYSEND_TLV_TYPE : Z := 5482373484.

Definition hop_record (type : Z) (value : buffer) : ITlvRecord :=
  {| tlv_type := type; tlv_value := value |}.

Definition opt_record (type : Z) (value : option buffer) : list ITlvRecord :=
  match value with Some v => [hop_record type v] | None => [] end.

(** The records in the order they are pushed. *)
Definition hop_records (payload : IHopPayload) : result (list ITlvRecord) :=
  amounts ←
    match hp_omitForwardAmounts payload with
    | Some true => Ok []
    | _ =>
        cltv ← to_bigint (hp_outgoingCltvValue payload);
        Ok [hop_record 2 (encodeTruncatedUint (hp_amountToForwardMsat payload));
            hop_record 4 (encodeTruncatedUint cltv)]
    end;
  Ok (amounts ++ opt_record 6 (hp_shortChannelId payload) ++
      opt_record 8 ((fun secret => secret ++ encodeTruncatedUint
        (default (hp_amountToForwardMsat payload) (hp_totalMsat payload))) <$> hp_paymentSecret payload) ++
      opt_record 10 (hp_encryptedRecipientData payload) ++
      opt_record 12 (hp_blindingPoint payload) ++
      opt_record 18 (encodeTruncatedUint <$> hp_totalAmountMsat payload) ++
      map (fun tv => hop_record tv.1 tv.2) (default [] (hp_customRecords payload))).

Definition compare_type (a b : ITlvRecord) : Z := tlv_type a - tlv_type b.

Definition encodeHopPayload (payload : IHopPayload) : result buffer :=
  records ← hop_records payload;
  tlvData ← encode_all (CommitmentTx.sort compare_type records);
  lengthPrefix ← encodeBigSize (blen tlvData);
  Ok (lengthPrefix ++ tlvData).

(** ** Decoding *)

Inductive hop_error :=
| PlainError (message : string)
| InvalidOnionPayloadError (message : string) (tlvType offset : Z).

(** The variables of the decoder; an amount is there when its flag is set. *)
Record hop_acc := {
  a_amount : option Z;
  a_cltv : option number;
  a_scid : option buffer;
  a_payment : option (buffer * Z);
  a_data : option buffer;
  a_blinding : option buffer;
  a_total : option Z;
  a_custom : option (list (Z * buffer))
}.

Definition no_acc : hop_acc :=
  {| a_amount := None; a_cltv := None; a_scid := None; a_payment := None; a_data := None;
     a_blinding := None; a_total := None; a_custom := None |}.

(** [if (!customRecords) customRecords = new Map(); customRecords.set(...)], where the
    type is new because types increase *)
Definition add_custom (tlvType : Z) (tlvValue : buffer) (acc : hop_acc) : hop_acc :=
  {| a_amount := a_amount acc; a_cltv := a_cltv acc; a_scid := a_scid acc;
     a_payment := a_payment acc; a_data := a_data acc; a_blinding := a_blinding acc;
     a_total := a_total acc;
     a_custom := Some (default [] (a_custom acc) ++ [(tlvType, tlvValue)]) |}.

(** The [switch] on the type of a record; an error names the record. *)
Definition take_record (tlvType : Z) (tlvValue : buffer) (acc : hop_acc) : string + hop_acc :=
  let tlvLength := blen tlvValue in
  if tlvType =? 2 then
    inr {| a_amount := Some (decodeTruncatedUint tlvValue); a_cltv := a_cltv acc;
           a_scid := a_scid acc; a_payment := a_payment acc; a_data := a_data acc;
           a_blinding := a_blinding acc; a_total := a_total acc; a_custom := a_custom acc |}
  else if tlvType =? 4 then
    inr {| a_amount := a_amount acc; a_cltv := Some (to_number (decodeTruncatedUint tlvValue));
           a_scid := a_scid acc; a_payment := a_payment acc; a_data := a_data acc;
           a_blinding := a_blinding acc; a_total := a_total acc; a_custom := a_custom acc |}
  else if tlvType =? 6 then
    if negb (tlvLength =? 8) then inl "short_channel_id must be 8 bytes"
    else inr {| a_amount := a_amount acc; a_cltv := a_cltv acc; a_scid := Some tlvValue;
                a_payment := a_payment acc; a_data := a_data acc; a_blinding := a_blinding acc;
                a_total := a_total acc; a_custom := a_custom acc |}
  else if tlvType =? 8 then
    if tlvLength <? 32 then inl "payment_data must be at least 32 bytes"
    else inr {| a_amount := a_amount acc; a_cltv := a_cltv acc; a_scid := a_scid acc;
                a_payment := Some (subarray tlvValue 0 32,
                                   decodeTruncatedUint (subarray_from tlvValue 32));
                a_data := a_data acc; a_blinding := a_blinding acc; a_total := a_total acc;
                a_custom := a_custom acc |}
  else if tlvType =? 10 then
    inr {| a_amount := a_amount acc; a_cltv := a_cltv acc; a_scid := a_scid acc;
           a_payment := a_payment acc; a_data := Some tlvValue; a_blinding := a_blinding acc;
           a_total := a_total acc; a_custom := a_custom acc |}
  else if tlvType =? 12 then
    if negb (tlvLength =? 33) then inl "blinding_point must be 33 bytes"
    else inr {| a_amount := a_amount acc; a_cltv := a_cltv acc; a_scid := a_scid acc;
                a_payment := a_payment acc; a_data := a_data acc; a_blinding := Some tlvValue;
                a_total := a_total acc; a_custom := a_custom acc |}
  else if tlvType =? 18 then
    inr {| a_amount := a_amount acc; a_cltv := a_cltv acc; a_scid := a_scid acc;
           a_payment := a_payment acc; a_data := a_data acc; a_blinding := a_blinding acc;
           a_total := Some (decodeTruncatedUint tlvValue); a_custom := a_custom acc |}
  else if tlvType =? KEYSEND_TLV_TYPE then inr (add_custom tlvType tlvValue acc)
  else if tlvType mod 2 =? 0 then inl "Unknown required TLV type in hop payload"
  else inr (add_custom tlvType tlvValue acc).

(** [prevTlvType !== undefined && tlvType <= prevTlvType] *)
Definition out_of_order (prev : option Z) (tlvType : Z) : bool :=
  match prev with Some p => tlvType <=? p | None => false end.

Fixpoint hop_loop (fuel : nat) (buf : buffer) (offset payloadEnd streamStart : Z)
    (prev : option Z) (acc : hop_acc) : hop_error + hop_acc * Z :=
  if offset <? payloadEnd then
    match fuel with
    | O => inl (PlainError "out of fuel")
    | S fuel =>
        let recordOffset := offset - streamStart in
        match decodeBigSize buf offset with
        | Err e => inl (PlainError e)
        | Ok typeResult =>
            let offset := offset + bytesRead typeResult in
            let tlvType := round53 (bs_value typeResult) in
            if out_of_order prev tlvType
            then inl (InvalidOnionPayloadError "Hop payload TLV type out of order" tlvType recordOffset)
            else match decodeBigSize buf offset with
            | Err e => inl (PlainError e)
            | Ok lengthResult =>
                let offset := offset + bytesRead lengthResult in
                let tlvLength := round53 (bs_value lengthResult) in
                if payloadEnd <? offset + tlvLength
                then inl (InvalidOnionPayloadError "Hop payload TLV extends beyond the payload"
                            tlvType recordOffset)
                else
                  let tlvValue := subarray buf offset (offset + tlvLength) in
                  match take_record tlvType tlvValue acc with
                  | inl message => inl (InvalidOnionPayloadError message tlvType recordOffset)
                  | inr acc => hop_loop fuel buf (offset + tlvLength) payloadEnd streamStart
                                 (Some tlvType) acc
                  end
            end
        end
    end
  else inr (acc, offset).

(** The amounts a payload must or must not carry, and the object that is returned. *)
Definition finish_payload (acc : hop_acc) : hop_error + IHopPayload :=
  let has_amount := bool_decide (is_Some (a_amount acc)) in
  let has_cltv := bool_decide (is_Some (a_cltv acc)) in
  let checked := negb (Bool.eqb has_amount has_cltv) || negb (bool_decide (is_Some (a_data acc))) in
  if checked && negb has_amount
  then inl (InvalidOnionPayloadError "Hop payload lacks amt_to_forward" 2 0)
  else if checked && negb has_cltv
  then inl (InvalidOnionPayloadError "Hop payload lacks outgoing_cltv_value" 4 0)
  else inr {|
    hp_shortChannelId := a_scid acc;
    hp_amountToForwardMsat := default 0 (a_amount acc);
    hp_outgoingCltvValue := default (Fin 0) (a_cltv acc);
    hp_paymentSecret := fst <$> a_payment acc;
    hp_totalMsat := snd <$> a_payment acc;
    hp_encryptedRecipientData := a_data acc;
    hp_blindingPoint := a_blinding acc;
    hp_totalAmountMsat := a_total acc;
    hp_customRecords := a_custom acc;
    hp_omitForwardAmounts := if negb has_amount && negb has_cltv then Some true else None |}.

Definition decodeHopPayload (buf : buffer) (offset : Z) : hop_error + IHopPayload * Z :=
  let startOffset := offset in
  match decodeBigSize buf offset with
  | Err e => inl (PlainError e)
  | Ok lengthResult =>
      let offset := offset + bytesRead lengthResult in
      let payloadEnd := offset + round53 (bs_value lengthResult) in
      if blen buf <? payloadEnd
      then inl (InvalidOnionPayloadError "Hop payload extends beyond buffer" 0 0)
      else if bs_value lengthResult <? 2
      then inl (InvalidOnionPayloadError "Invalid hop payload length" 0 0)
      else match hop_loop (S (length buf)) buf offset payloadEnd offset None no_acc with
      | inl e => inl e
      | inr (acc, offset) =>
          match finish_payload acc with
          | inl e => inl e
          | inr payload => inr (payload, offset - startOffset)
          end
      end
  end.

(** ** Truncated integers *)

Lemma decodeTruncatedUint_unbe b : decodeTruncatedUint b = unbe b.
Proof.
  unfold decodeTruncatedUint, unbe. generalize 0. induction b as [|x b IH]; [done|].
  intros acc. cbn [fold_left]. rewrite IH. f_equal. pose proof (Z_of_byte_range x).
  rewrite lor_shiftl_add; lia.
Qed.

Lemma truncated_roundtrip v : 0 <= v -> decodeTruncatedUint (encodeTruncatedUint v) = v.
Proof.
  intros Hv. rewrite decodeTruncatedUint_unbe. unfold encodeTruncatedUint.
  destruct (Z.leb_spec v 0); [cbn; lia|]. apply unbe_be. split; [done|].
  pose proof (Z.log2_nonneg v) as Hn. pose proof (Z.div_pos (Z.log2 v) 8 Hn eq_refl).
  rewrite Z2Nat.id by lia.
  destruct (Z.log2_spec v ltac:(lia)) as [_ Hl]. change 256 with (2 ^ 8). rewrite <- Z.pow_mul_r by lia.
  eapply Z.lt_le_trans; [exact Hl|]. apply Z.pow_le_mono_r; [lia|].
  pose proof (Z.mul_succ_div_gt (Z.log2 v) 8 ltac:(lia)). lia.
Qed.

(** ** Decoding what was encoded *)

(** A record the loop can read back. *)
Definition readable (r : ITlvRecord) : Prop :=
  0 <= tlv_type r < 2 ^ 53 /\ blen (tlv_value r) < 2 ^ 53.

Lemma hop_loop_end fuel buf offset payloadEnd start prev acc :
  payloadEnd <= offset -> hop_loop fuel buf offset payloadEnd start prev acc = inr (acc, offset).
Proof. intros H. destruct fuel; cbn; by rewrite (proj2 (Z.ltb_ge _ _)). Qed.

Lemma hop_loop_step fuel pre r mid rest start prev acc :
  readable r -> out_of_order prev (tlv_type r) = false ->
  hop_loop (S fuel) (pre ++ record_bytes r ++ mid ++ rest) (blen pre)
    (blen (pre ++ record_bytes r ++ mid)) start prev acc =
  match take_record (tlv_type r) (tlv_value r) acc with
  | inl message => inl (InvalidOnionPayloadError message (tlv_type r) (blen pre - start))
  | inr acc =>
      hop_loop fuel (pre ++ record_bytes r ++ mid ++ rest) (blen (pre ++ record_bytes r))
        (blen (pre ++ record_bytes r ++ mid)) start (Some (tlv_type r)) acc
  end.
Proof.
  intros [Ht Hv] Ho. cbn [hop_loop].
  pose proof (record_bytes_len r). pose proof (blen_nonneg rest). pose proof (blen_nonneg mid).
  pose proof (blen_nonneg (tlv_value r)) as Hvn.
  rewrite (proj2 (Z.ltb_lt _ _)) by (autorewrite with blen; lia).
  unfold record_bytes. rewrite <- !app_assoc.
  rewrite decodeBigSize_skip, Z.sub_diag, decodeBigSize_hd by lia.
  cbn [bs_value bytesRead]. rewrite round53_small, Ho by lia.
  pose proof (blen_bigsize (tlv_type r)). pose proof (blen_bigsize (blen (tlv_value r))).
  rewrite decodeBigSize_skip by lia.
  replace (blen pre + blen (bigsize (tlv_type r)) - blen pre)
    with (blen (bigsize (tlv_type r))) by lia.
  rewrite decodeBigSize_skip, Z.sub_diag, decodeBigSize_hd by lia.
  cbn [bs_value bytesRead]. rewrite round53_small by lia.
  rewrite (proj2 (Z.ltb_ge _ _)) by (autorewrite with blen; lia).
  rewrite !subarray_skip by lia. rewrite subarray_hd by lia.
  destruct (take_record _ _ _); [done|]. f_equal. autorewrite with blen. lia.
Qed.

(** The records in order, each taken in turn. *)
Fixpoint take_all (rs : list ITlvRecord) (acc : hop_acc) : option hop_acc :=
  match rs with
  | [] => Some acc
  | r :: rs => match take_record (tlv_type r) (tlv_value r) acc with
               | inr acc => take_all rs acc
               | inl _ => None
               end
  end.

Lemma hop_loop_run rs : forall fuel pre rest start prev acc acc',
  (length rs <= fuel)%nat -> Forall readable rs ->
  increasing_from (default (-1) prev) rs -> take_all rs acc = Some acc' ->
  hop_loop fuel (pre ++ stream_bytes rs ++ rest) (blen pre) (blen (pre ++ stream_bytes rs)) start
    prev acc = inr (acc', blen (pre ++ stream_bytes rs)).
Proof.
  induction rs as [|r rs IH]; intros fuel pre rest start prev acc acc' Hf Hw Hi Ht.
  - change (stream_bytes []) with (@nil byte). rewrite app_nil_r. injection Ht as <-.
    by rewrite hop_loop_end.
  - inversion Hw; subst. destruct Hi as [Hi Hi']. destruct fuel as [|fuel]; [cbn in Hf; lia|].
    cbn [take_all] in Ht.
    change (stream_bytes (r :: rs)) with (record_bytes r ++ stream_bytes rs).
    rewrite <- (app_assoc (record_bytes r)). rewrite hop_loop_step; [|done|].
    + destruct (take_record _ _ _) as [|acc1]; [discriminate|].
      rewrite !(app_assoc pre (record_bytes r)).
      by rewrite (IH fuel (pre ++ record_bytes r) rest start (Some (tlv_type r)) acc1 acc')
        by (done || cbn in Hf; lia).
    + destruct prev; cbn in *; [apply Z.leb_gt; lia|done].
Qed.

(** *** What the loop has read, as a function of the records *)

Definition known_type (t : Z) : bool := existsb (Z.eqb t) [2; 4; 6; 8; 10; 12; 18].

Definition custom_of (rs : list ITlvRecord) : list (Z * buffer) :=
  map (fun r => (tlv_type r, tlv_value r)) (List.filter (fun r => negb (known_type (tlv_type r))) rs).

Definition some_list {A} (l : list A) : option (list A) := match l with [] => None | _ => Some l end.

Definition acc_of (rs : list ITlvRecord) : hop_acc :=
  {| a_amount := decodeTruncatedUint <$> findTlvRecord rs 2;
     a_cltv := (fun b => to_number (decodeTruncatedUint b)) <$> findTlvRecord rs 4;
     a_scid := findTlvRecord rs 6;
     a_payment := (fun b => (subarray b 0 32, decodeTruncatedUint (subarray_from b 32))) <$>
                    findTlvRecord rs 8;
     a_data := findTlvRecord rs 10;
     a_blinding := findTlvRecord rs 12;
     a_total := decodeTruncatedUint <$> findTlvRecord rs 18;
     a_custom := some_list (custom_of rs) |}.

(** A record the [switch] accepts. *)
Definition acceptable (r : ITlvRecord) : Prop :=
  (tlv_type r = 6 -> blen (tlv_value r) = 8) /\ (tlv_type r = 8 -> 32 <= blen (tlv_value r)) /\
  (tlv_type r = 12 -> blen (tlv_value r) = 33) /\
  (known_type (tlv_type r) = true \/ tlv_type r = KEYSEND_TLV_TYPE \/ tlv_type r mod 2 = 1).

Lemma find_snoc rs r t : tlv_type r ∉ map tlv_type rs ->
  findTlvRecord (rs ++ [r]) t = if tlv_type r =? t then Some (tlv_value r) else findTlvRecord rs t.
Proof.
  intros Hn. unfold findTlvRecord. induction rs as [|r0 rs IH].
  - cbn. by destruct (tlv_type r =? t).
  - cbn [map] in Hn. apply not_elem_of_cons in Hn as [H0 Hn]. specialize (IH Hn).
    cbn [app List.find]. destruct (Z.eqb_spec (tlv_type r0) t) as [E|E]; [|done].
    destruct (Z.eqb_spec (tlv_type r) t); [congruence|done].
Qed.

Lemma custom_snoc rs r :
  custom_of (rs ++ [r]) =
  custom_of rs ++ (if known_type (tlv_type r) then [] else [(tlv_type r, tlv_value r)]).
Proof.
  unfold custom_of. rewrite List.filter_app, map_app. f_equal. cbn [List.filter].
  by destruct (known_type (tlv_type r)).
Qed.

Lemma some_list_snoc {A} (l : list A) x : some_list (l ++ [x]) = Some (default [] (some_list l) ++ [x]).
Proof. by destruct l. Qed.

Lemma take_record_acc rs r :
  tlv_type r ∉ map tlv_type rs -> acceptable r ->
  take_record (tlv_type r) (tlv_value r) (acc_of rs) = inr (acc_of (rs ++ [r])).
Proof.
  intros Hn Ha. unfold acc_of at 2. rewrite custom_snoc, !find_snoc by done.
  destruct Ha as (A6 & A8 & A12 & Ha). unfold take_record.
  clear Hn. revert A6 A8 A12 Ha. generalize (tlv_type r), (tlv_value r).
  intros t v A6 A8 A12 Ha.
  destruct (Z.eqb_spec t 2) as [->|N2]; [cbn; by rewrite app_nil_r|].
  destruct (Z.eqb_spec t 4) as [->|N4]; [cbn; by rewrite app_nil_r|].
  destruct (Z.eqb_spec t 6) as [->|N6]; [rewrite A6 by done; cbn; by rewrite app_nil_r|].
  destruct (Z.eqb_spec t 8) as [->|N8];
    [rewrite (proj2 (Z.ltb_ge _ _)) by auto; cbn; by rewrite app_nil_r|].
  destruct (Z.eqb_spec t 10) as [->|N10]; [cbn; by rewrite app_nil_r|].
  destruct (Z.eqb_spec t 12) as [->|N12]; [rewrite A12 by done; cbn; by rewrite app_nil_r|].
  destruct (Z.eqb_spec t 18) as [->|N18]; [cbn; by rewrite app_nil_r|].
  assert (known_type t = false) as Hk.
  { unfold known_type. cbn. rewrite !(proj2 (Z.eqb_neq _ _)) by done. done. }
  rewrite Hk, some_list_snoc.
  assert (t = KEYSEND_TLV_TYPE \/ t mod 2 = 1) as Hc by (destruct Ha as [Ha|]; congruence).
  destruct (Z.eqb_spec t KEYSEND_TLV_TYPE); [done|].
  destruct (Z.eqb_spec (t mod 2) 0); [lia|done].
Qed.

Lemma take_all_acc rs : forall done,
  NoDup (map tlv_type (done ++ rs)) -> Forall acceptable rs ->
  take_all rs (acc_of done) = Some (acc_of (done ++ rs)).
Proof.
  induction rs as [|r rs IH]; intros done Hn Ha; [by rewrite app_nil_r|].
  inversion Ha; subst. cbn [take_all]. rewrite map_app in Hn. cbn in Hn.
  apply NoDup_app in Hn as Hn'. destruct Hn' as (_ & Hd & _).
  rewrite take_record_acc; [|intros Hin; apply (Hd _ Hin); by left|done].
  rewrite IH; [by rewrite <- app_assoc|by rewrite <- app_assoc, map_app|done].
Qed.

(** *** Sorting *)

Lemma find_perm l l' t : Permutation l l' -> NoDup (map tlv_type l) ->
  findTlvRecord l t = findTlvRecord l' t.
Proof.
  unfold findTlvRecord. intros Hp. induction Hp as [|r l l' Hp IH|r1 r2 l|l1 l2 l3 Hp1 IH1 Hp2 IH2];
    intros Hn; [done|..].
  - cbn in *. apply NoDup_cons in Hn as [_ Hn]. destruct (tlv_type r =? t); auto.
  - cbn in *. apply NoDup_cons in Hn as [Hn _]. rewrite not_elem_of_cons in Hn.
    destruct (Z.eqb_spec (tlv_type r2) t), (Z.eqb_spec (tlv_type r1) t); try done. lia.
  - rewrite IH1 by done. apply IH2. by rewrite <- Hp1.
Qed.

Lemma increasing_sorted rs : forall last,
  (forall r, r ∈ rs -> last < tlv_type r) ->
  Sorted (fun a b => tlv_type a <= tlv_type b) rs -> NoDup (map tlv_type rs) ->
  increasing_from last rs.
Proof.
  induction rs as [|r rs IH]; intros last Hl Hs Hn; [done|]. cbn in *.
  apply NoDup_cons in Hn as [Hr Hn]. split; [apply Hl; by left|].
  apply Sorted_StronglySorted in Hs; [|intros ? ? ?; lia]. apply StronglySorted_inv in Hs as [Hs Hf].
  apply IH; [|by apply StronglySorted_Sorted|done].
  intros r' Hr'. rewrite List.Forall_forall in Hf.
  pose proof (Hf r' (proj1 (list_elem_of_In _ _) Hr')).
  assert (tlv_type r <> tlv_type r'); [|lia]. intros E. apply Hr. rewrite E.
  apply list_elem_of_In, in_map, list_elem_of_In, Hr'.
Qed.

Lemma sort_increasing rs :
  NoDup (map tlv_type rs) -> Forall (fun r => 0 <= tlv_type r) rs ->
  increasing_from (-1) (CommitmentTx.sort compare_type rs).
Proof.
  intros Hn Hp. apply increasing_sorted.
  - intros r Hr. rewrite (sort_perm compare_type rs) in Hr. rewrite Forall_forall in Hp.
    specialize (Hp r Hr). cbn in Hp. lia.
  - apply sort_sorted; unfold compare_type; intros; lia.
  - by rewrite (sort_perm compare_type rs).
Qed.

Lemma increasing_strong rs : forall last, increasing_from last rs ->
  StronglySorted (fun a b => tlv_type a < tlv_type b) rs.
Proof.
  induction rs as [|r rs IH]; intros last H; [constructor|]. destruct H as [_ H].
  constructor; [by eapply IH|]. clear IH. revert H. generalize (tlv_type r). induction rs as [|r' rs IH];
    intros t H; [constructor|]. destruct H as [H1 H2]. constructor; [done|].
  eapply List.Forall_impl; [|apply (IH _ H2)]. cbn. lia.
Qed.

Lemma strong_filter {A} (R : A -> A -> Prop) (p : A -> bool) l :
  StronglySorted R l -> StronglySorted R (List.filter p l).
Proof.
  induction 1 as [|x l Hs IH Hf]; [constructor|]. cbn. destruct (p x); [|done].
  constructor; [done|]. rewrite List.Forall_forall in *. intros y Hy.
  apply filter_In in Hy as [Hy _]. auto.
Qed.

(** Sorting leaves the custom records as they are when they are in order. *)
Lemma custom_sort rs :
  NoDup (map tlv_type rs) -> Forall (fun r => 0 <= tlv_type r) rs ->
  StronglySorted (fun a b => tlv_type a < tlv_type b)
    (List.filter (fun r => negb (known_type (tlv_type r))) rs) ->
  custom_of (CommitmentTx.sort compare_type rs) = custom_of rs.
Proof.
  intros Hn Hp Hs. unfold custom_of. f_equal.
  pose proof (sort_increasing rs Hn Hp) as Hi%increasing_strong.
  apply (StronglySorted_unique_strong (fun a b => tlv_type a < tlv_type b)).
  - intros; lia.
  - by apply strong_filter.
  - done.
  - apply filter_perm, sort_perm.
Qed.

(** *** Payloads *)

(** A payload the sender builds: amounts are not negative, the fixed fields have their
    length, custom types are in order and none that the decoder would refuse. *)
Record hop_wf (p : IHopPayload) : Prop := {
  w_amount : 0 <= hp_amountToForwardMsat p;
  w_cltv : exists z, hp_outgoingCltvValue p = Fin z /\ 0 <= z < 2 ^ 53;
  w_omit : hp_omitForwardAmounts p = None \/
    hp_omitForwardAmounts p = Some true /\ hp_amountToForwardMsat p = 0 /\
    hp_outgoingCltvValue p = Fin 0 /\ is_Some (hp_encryptedRecipientData p);
  w_scid b : hp_shortChannelId p = Some b -> blen b = 8;
  w_secret b : hp_paymentSecret p = Some b -> blen b = 32;
  w_total : match hp_paymentSecret p, hp_totalMsat p with
            | Some _, Some t => 0 <= t | None, None => True | _, _ => False end;
  w_blinding b : hp_blindingPoint p = Some b -> blen b = 33;
  w_total_amount t : hp_totalAmountMsat p = Some t -> 0 <= t;
  w_custom : match hp_customRecords p with
    | Some l => l <> [] /\ StronglySorted (fun a b => a.1 < b.1) l /\
        Forall (fun tv => 0 <= tv.1 < 2 ^ 53 /\ known_type tv.1 = false /\
                         (tv.1 = KEYSEND_TLV_TYPE \/ tv.1 mod 2 = 1)) l
    | None => True end;
  w_size rs : hop_records p = Ok rs -> blen (stream_bytes rs) < 2 ^ 53
}.

Definition fixed_records (p : IHopPayload) (z : Z) : list ITlvRecord :=
  (match hp_omitForwardAmounts p with
   | Some true => []
   | _ => [hop_record 2 (encodeTruncatedUint (hp_amountToForwardMsat p));
           hop_record 4 (encodeTruncatedUint z)]
   end) ++ opt_record 6 (hp_shortChannelId p) ++
  opt_record 8 ((fun secret => secret ++ encodeTruncatedUint
    (default (hp_amountToForwardMsat p) (hp_totalMsat p))) <$> hp_paymentSecret p) ++
  opt_record 10 (hp_encryptedRecipientData p) ++ opt_record 12 (hp_blindingPoint p) ++
  opt_record 18 (encodeTruncatedUint <$> hp_totalAmountMsat p).

Definition custom_records (p : IHopPayload) : list ITlvRecord :=
  map (fun tv => hop_record tv.1 tv.2) (default [] (hp_customRecords p)).

Lemma hop_records_split p z : hp_outgoingCltvValue p = Fin z ->
  hop_records p = Ok (fixed_records p z ++ custom_records p).
Proof.
  intros E. unfold hop_records, fixed_records, custom_records. rewrite E.
  destruct (hp_omitForwardAmounts p) as [[]|]; cbn [to_bigint]; rewrite ?bind_Ok;
    cbn [mbind result_bind]; by rewrite <- !app_assoc.
Qed.

Lemma fixed_types p z :
  StronglySorted Z.lt (map tlv_type (fixed_records p z)) /\
  Forall (fun t => known_type t = true) (map tlv_type (fixed_records p z)).
Proof.
  unfold fixed_records. destruct (hp_omitForwardAmounts p) as [[]|], (hp_shortChannelId p),
    (hp_paymentSecret p), (hp_encryptedRecipientData p), (hp_blindingPoint p), (hp_totalAmountMsat p);
    cbn; split; repeat constructor.
Qed.

Lemma find_known fixed custom t : known_type t = true ->
  Forall (fun r => known_type (tlv_type r) = false) custom ->
  findTlvRecord (fixed ++ custom) t = findTlvRecord fixed t.
Proof.
  intros Ht Hc. unfold findTlvRecord. induction fixed as [|r fixed IH].
  - induction Hc as [|r custom Hr _ IH]; [done|]. cbn in *.
    destruct (Z.eqb_spec (tlv_type r) t); [congruence|done].
  - cbn. by destruct (tlv_type r =? t).
Qed.

Lemma custom_known fixed custom :
  Forall (fun t => known_type t = true) (map tlv_type fixed) ->
  Forall (fun r => known_type (tlv_type r) = false) custom ->
  List.filter (fun r => negb (known_type (tlv_type r))) (fixed ++ custom) = custom.
Proof.
  intros Hf Hc. rewrite List.filter_app.
  rewrite (List.filter_ext_in _ (fun _ => false) fixed), List.filter_false.
  - rewrite app_nil_l, (List.filter_ext_in _ (fun _ => true)), List.filter_true; [done|].
    intros r Hr. cbv beta. rewrite Forall_forall in Hc. rewrite (Hc r); [done|]. by apply list_elem_of_In.
  - intros r Hr. cbv beta. rewrite Forall_forall in Hf. rewrite (Hf (tlv_type r)); [done|].
    apply list_elem_of_In. by apply in_map.
Qed.

Lemma opt_acceptable t v : known_type t = true ->
  (forall b, v = Some b -> (t = 6 -> blen b = 8) /\ (t = 8 -> 32 <= blen b) /\ (t = 12 -> blen b = 33)) ->
  Forall acceptable (opt_record t v).
Proof.
  intros Hk H. destruct v as [b|]; [|constructor]. constructor; [|constructor].
  destruct (H b eq_refl) as (H6 & H8 & H12). unfold acceptable, hop_record. cbn [tlv_type tlv_value].
  auto.
Qed.

Section Payload.
Context (p : IHopPayload) (z : Z) (Hwf : hop_wf p) (Hz : hp_outgoingCltvValue p = Fin z).

Let rs : list ITlvRecord := fixed_records p z ++ custom_records p.

Lemma cltv_range : 0 <= z < 2 ^ 53.
Proof. destruct (w_cltv _ Hwf) as (z' & E & H). congruence. Qed.

Lemma custom_facts :
  Forall (fun r => 0 <= tlv_type r < 2 ^ 53 /\ known_type (tlv_type r) = false /\
                  (tlv_type r = KEYSEND_TLV_TYPE \/ tlv_type r mod 2 = 1)) (custom_records p) /\
  StronglySorted (fun a b => tlv_type a < tlv_type b) (custom_records p).
Proof.
  pose proof (w_custom _ Hwf) as Hc. unfold custom_records.
  destruct (hp_customRecords p) as [l|]; [|split; constructor]. destruct Hc as (_ & Hs & Hf). cbn.
  split.
  - apply Forall_map. exact Hf.
  - clear Hf. induction Hs as [|x l _ IH Hx]; [constructor|]. cbn. constructor; [done|].
    by apply Forall_map.
Qed.

Lemma custom_unknown : Forall (fun r => known_type (tlv_type r) = false) (custom_records p).
Proof. eapply Forall_impl; [apply custom_facts|]. cbn. tauto. Qed.

Lemma types_nodup : NoDup (map tlv_type rs).
Proof.
  assert (forall l : list Z, StronglySorted Z.lt l -> NoDup l) as Hlt.
  { induction 1 as [|x l _ IH Hx]; constructor; [|done]. intros Hin.
    rewrite Forall_forall in Hx. specialize (Hx x Hin). lia. }
  destruct (fixed_types p z) as [F1 F2]. destruct custom_facts as [_ C2].
  unfold rs. rewrite map_app. apply NoDup_app. split_and!.
  - auto.
  - intros t Hf Hc. rewrite Forall_forall in F2. specialize (F2 t Hf). cbv beta in F2.
    apply list_elem_of_In, in_map_iff in Hc as (r & <- & Hr).
    pose proof custom_unknown as Hu. rewrite Forall_forall in Hu.
    rewrite (Hu r) in F2; [done|]. by apply list_elem_of_In.
  - apply Hlt. clear -C2. induction C2 as [|r l _ IH Hr]; [constructor|]. cbn. constructor; [done|].
    by apply Forall_map.
Qed.

Lemma types_range : Forall (fun r => 0 <= tlv_type r < 2 ^ 53) rs.
Proof.
  unfold rs. apply Forall_app. split; [|eapply Forall_impl; [apply custom_facts|]; cbn; tauto].
  destruct (fixed_types p z) as [_ F]. rewrite Forall_map in F. eapply Forall_impl; [exact F|].
  cbn beta. intros r Hk. unfold known_type in Hk. apply existsb_exists in Hk as (t & Ht & Hk).
  apply Z.eqb_eq in Hk. rewrite Hk. cbn in Ht. lia.
Qed.

Lemma all_acceptable : Forall acceptable rs.
Proof.
  unfold rs. apply Forall_app. split.
  - unfold fixed_records. rewrite !Forall_app. split_and!.
    + destruct (hp_omitForwardAmounts p) as [[]|]; repeat constructor; done || (left; reflexivity).
    + apply opt_acceptable; [done|]. intros b Hb. split_and!; intros; try discriminate.
      by apply (w_scid _ Hwf).
    + apply opt_acceptable; [done|]. intros b (secret & Hs & ->)%fmap_Some.
      split_and!; intros; try discriminate. rewrite blen_app, (w_secret _ Hwf _ Hs).
      pose proof (blen_nonneg (encodeTruncatedUint
        (default (hp_amountToForwardMsat p) (hp_totalMsat p)))). lia.
    + apply opt_acceptable; [done|]. intros b Hb. split_and!; intros; discriminate.
    + apply opt_acceptable; [done|]. intros b Hb. split_and!; intros; try discriminate.
      by apply (w_blinding _ Hwf).
    + apply opt_acceptable; [done|]. intros b Hb. split_and!; intros; discriminate.
  - eapply Forall_impl; [apply custom_facts|]. cbn beta. intros r (_ & Hk & Hc).
    unfold acceptable. split_and!; [intros E; rewrite E in Hk; discriminate Hk..|]. tauto.
Qed.

Lemma acc_payload : finish_payload (acc_of rs) = inr p.
Proof.
  unfold acc_of, rs, custom_of.
  rewrite !find_known by (done || apply custom_unknown).
  rewrite custom_known by (apply fixed_types || apply custom_unknown).
  assert (map (fun r => (tlv_type r, tlv_value r)) (custom_records p) = default [] (hp_customRecords p)) as ->.
  { unfold custom_records. rewrite map_map. cbn. rewrite <- (map_id (default _ _)) at 2.
    apply map_ext. by intros []. }
  assert (some_list (default [] (hp_customRecords p)) = hp_customRecords p) as ->.
  { pose proof (w_custom _ Hwf) as Hc. destruct (hp_customRecords p) as [l|]; [|done]. cbn.
    destruct Hc as [Hc _]. by destruct l. }
  pose proof cltv_range as Hzr.
  assert (to_number (decodeTruncatedUint (encodeTruncatedUint z)) = Fin z) as En.
  { rewrite truncated_roundtrip by lia. unfold to_number. rewrite round53_small by lia.
    rewrite (proj2 (Z.leb_gt _ _)); [done|]. eapply Z.lt_trans; [apply Hzr|]. by vm_compute. }
  pose proof (truncated_roundtrip _ (w_amount _ Hwf)) as Ea.
  pose proof (w_total _ Hwf) as Ht. pose proof (w_total_amount _ Hwf) as Hta.
  pose proof (w_secret _ Hwf) as Hs. pose proof (w_omit _ Hwf) as Ho.
  unfold fixed_records. destruct p as [scid amount cltv secret total data blinding tamount custom omit].
  cbn [hp_shortChannelId hp_amountToForwardMsat hp_outgoingCltvValue hp_paymentSecret hp_totalMsat
    hp_encryptedRecipientData hp_blindingPoint hp_totalAmountMsat hp_customRecords
    hp_omitForwardAmounts] in *. subst cltv.
  assert (forall s t, secret = Some s -> total = Some t ->
    (subarray (s ++ encodeTruncatedUint t) 0 32,
     decodeTruncatedUint (subarray_from (s ++ encodeTruncatedUint t) 32)) = (s, t)) as Ep.
  { intros s t -> ->. rewrite subarray_hd, subarray_from_hd by (rewrite ?(Hs _ eq_refl); done).
    by rewrite truncated_roundtrip. }
  assert (forall t, tamount = Some t -> decodeTruncatedUint (encodeTruncatedUint t) = t) as Et
    by (intros t H; apply truncated_roundtrip; auto).
  destruct secret as [s|], total as [t|]; try done;
    [specialize (Ep s t eq_refl eq_refl); injection Ep as Ep1 Ep2|clear Ep];
  (destruct tamount as [ta|]; [specialize (Et ta eq_refl)|clear Et]);
  (destruct Ho as [->|(-> & -> & [= ->] & [d ->])]);
  destruct scid, blinding; try destruct data; cbn -[to_number encodeTruncatedUint decodeTruncatedUint subarray subarray_from];
  rewrite ?Ep1, ?Ep2, ?Et, ?Ea, ?En; reflexivity.
Qed.

End Payload.

Lemma stream_member r rs : r ∈ rs -> blen (tlv_value r) <= blen (stream_bytes rs).
Proof.
  induction 1 as [r rs|r r' rs _ IH];
    change (stream_bytes (?x :: rs)) with (record_bytes x ++ stream_bytes rs); rewrite blen_app.
  - unfold record_bytes. rewrite !blen_app. pose proof (blen_nonneg (stream_bytes rs)).
    pose proof (blen_nonneg (bigsize (tlv_type r))).
    pose proof (blen_nonneg (bigsize (blen (tlv_value r)))). lia.
  - pose proof (blen_nonneg (record_bytes r')). lia.
Qed.

Lemma stream_perm rs rs' : Permutation rs rs' -> blen (stream_bytes rs) = blen (stream_bytes rs').
Proof.
  intros Hp. unfold stream_bytes. induction Hp; cbn; rewrite ?blen_app; lia.
Qed.

(** The bytes of a payload and their reading. *)
Lemma hop_payload_bytes p : hop_wf p ->
  exists rs, rs <> [] /\ encodeHopPayload p = Ok (bigsize (blen (stream_bytes rs)) ++ stream_bytes rs) /\
    blen (stream_bytes rs) < 2 ^ 53 /\ Forall readable rs /\ increasing_from (-1) rs /\
    exists acc, take_all rs no_acc = Some acc /\ finish_payload acc = inr p.
Proof.
  intros Hwf. destruct (w_cltv _ Hwf) as (z & Hz & _).
  pose proof (hop_records_split p z Hz) as Hr. pose proof (w_size _ Hwf _ Hr) as Hsize.
  pose proof (types_nodup p z Hwf) as Hn. pose proof (types_range p z Hwf) as Ht.
  pose proof (all_acceptable p z Hwf) as Ha. pose proof (acc_payload p z Hwf Hz) as Hf.
  pose proof (custom_facts p Hwf) as [_ Hc].
  assert (List.filter (fun r => negb (known_type (tlv_type r))) (fixed_records p z ++ custom_records p)
          = custom_records p) as Hcf by (apply custom_known; [apply fixed_types|by apply custom_unknown]).
  assert (fixed_records p z ++ custom_records p <> []) as Hne.
  { unfold fixed_records. destruct (w_omit _ Hwf) as [E|(E & _ & _ & [d Hd])]; rewrite E; [done|].
    rewrite Hd. cbn. by destruct (hp_shortChannelId p), (hp_paymentSecret p). }
  revert Hsize Hn Ht Ha Hf Hne Hcf Hr. generalize (fixed_records p z ++ custom_records p) as rs.
  intros rs Hsize Hn Ht Ha Hf Hne Hcf Hr. set (srs := CommitmentTx.sort compare_type rs).
  assert (Permutation srs rs) as Hp by apply sort_perm.
  assert (Forall readable srs) as Hw.
  { rewrite Hp. rewrite Forall_forall in *. intros r Hin. split; [by apply Ht|].
    pose proof (stream_member r rs Hin). lia. }
  assert (Forall (fun r => 0 <= tlv_type r) rs) as Hpos by (eapply Forall_impl; [exact Ht|]; cbn; lia).
  pose proof (stream_perm _ _ Hp) as Hl. exists srs. split_and!.
  - intros E. rewrite E in Hp. by apply Permutation_nil in Hp.
  - unfold encodeHopPayload. rewrite Hr, bind_Ok. fold srs.
    rewrite encode_all_bytes, bind_Ok, encodeBigSize_bytes; [done| |].
    + pose proof (blen_nonneg (stream_bytes srs)). lia.
    + eapply Forall_impl; [exact Hw|]. intros r [H1 H2]. split; lia.
  - lia.
  - done.
  - by apply sort_increasing.
  - exists (acc_of srs). split.
    + change no_acc with (acc_of []). apply (take_all_acc srs []); [by rewrite Hp|by rewrite Hp].
    + rewrite <- Hf. f_equal. unfold acc_of.
      rewrite !(find_perm srs rs) by (done || by rewrite Hp).
      unfold srs. rewrite custom_sort; [done..|]. by rewrite Hcf.
Qed.

Lemma hop_payload_decode (p : IHopPayload) (pre rest : buffer) (Hwf : hop_wf p) :
  exists b, encodeHopPayload p = Ok b /\
    decodeHopPayload (pre ++ b ++ rest) (blen pre) = inr (p, blen b).
Proof.
  destruct (hop_payload_bytes p Hwf) as (rs & Hne & He & Hl & Hw & Hi & acc & Ht & Hf).
  eexists. split; [exact He|]. unfold decodeHopPayload.
  pose proof (blen_nonneg (stream_bytes rs)) as Hn.
  rewrite <- app_assoc, decodeBigSize_skip, Z.sub_diag, decodeBigSize_hd by lia.
  cbn [bs_value bytesRead]. rewrite round53_small by lia.
  pose proof (blen_nonneg rest).
  rewrite (proj2 (Z.ltb_ge _ _)) by (autorewrite with blen; lia).
  rewrite (proj2 (Z.ltb_ge _ _)).
  2: { destruct rs as [|r rs]; [done|]. change (stream_bytes (r :: rs)) with (record_bytes r ++ stream_bytes rs).
       rewrite blen_app. pose proof (record_bytes_len r). pose proof (blen_nonneg (stream_bytes rs)). lia. }
  rewrite (app_assoc pre), <- blen_app.
  replace (blen (pre ++ bigsize (blen (stream_bytes rs))) + blen (stream_bytes rs))
    with (blen ((pre ++ bigsize (blen (stream_bytes rs))) ++ stream_bytes rs)) by (rewrite !blen_app; lia).
  rewrite (hop_loop_run rs _ _ _ _ None no_acc acc); [|..|done|done].
  - rewrite Hf. do 2 f_equal. rewrite !blen_app. lia.
  - rewrite !length_app. pose proof (stream_bytes_count rs). lia.
  - done.
Qed.

(** *** Every payload a sender builds *)

Definition omits (p : IHopPayload) : bool := default false (hp_omitForwardAmounts p).

Definition compare_custom (a b : Z * buffer) : Z := a.1 - b.1.

(** What the hop reads: amounts that were left out are zero, the total of payment_data is
    the amount when none was given and is not sent without a secret, and the custom records
    come in the order of their types. *)
Definition read_back (p : IHopPayload) : IHopPayload :=
  {| hp_shortChannelId := hp_shortChannelId p;
     hp_amountToForwardMsat := if omits p then 0 else hp_amountToForwardMsat p;
     hp_outgoingCltvValue := if omits p then Fin 0 else hp_outgoingCltvValue p;
     hp_paymentSecret := hp_paymentSecret p;
     hp_totalMsat := (fun _ => default (hp_amountToForwardMsat p) (hp_totalMsat p)) <$> hp_paymentSecret p;
     hp_encryptedRecipientData := hp_encryptedRecipientData p;
     hp_blindingPoint := hp_blindingPoint p;
     hp_totalAmountMsat := hp_totalAmountMsat p;
     hp_customRecords := some_list (CommitmentTx.sort compare_custom (default [] (hp_customRecords p)));
     hp_omitForwardAmounts := if omits p then Some true else None |}.

(** A payload that may be sent: what is sent is not negative, the fixed fields have their
    length, amounts are left out only beside encrypted data, and the custom types are
    distinct and none the decoder refuses. *)
Record hop_sent (p : IHopPayload) : Prop := {
  sn_amount : 0 <= hp_amountToForwardMsat p;
  sn_cltv : omits p = false -> exists z, hp_outgoingCltvValue p = Fin z /\ 0 <= z < 2 ^ 53;
  sn_omit : omits p = true -> is_Some (hp_encryptedRecipientData p);
  sn_scid b : hp_shortChannelId p = Some b -> blen b = 8;
  sn_secret b : hp_paymentSecret p = Some b -> blen b = 32;
  sn_total t : hp_totalMsat p = Some t -> 0 <= t;
  sn_blinding b : hp_blindingPoint p = Some b -> blen b = 33;
  sn_total_amount t : hp_totalAmountMsat p = Some t -> 0 <= t;
  sn_distinct : NoDup (map fst (default [] (hp_customRecords p)));
  sn_custom : Forall (fun tv => 0 <= tv.1 < 2 ^ 53 /\ known_type tv.1 = false /\
                               (tv.1 = KEYSEND_TLV_TYPE \/ tv.1 mod 2 = 1)) (default [] (hp_customRecords p));
  sn_size rs : hop_records p = Ok rs -> blen (stream_bytes rs) < 2 ^ 53
}.

Definition opt_fixed (p : IHopPayload) : list ITlvRecord :=
  opt_record 6 (hp_shortChannelId p) ++
  opt_record 8 ((fun secret => secret ++ encodeTruncatedUint
    (default (hp_amountToForwardMsat p) (hp_totalMsat p))) <$> hp_paymentSecret p) ++
  opt_record 10 (hp_encryptedRecipientData p) ++ opt_record 12 (hp_blindingPoint p) ++
  opt_record 18 (encodeTruncatedUint <$> hp_totalAmountMsat p).

Lemma default_some_list {A} (l : list A) : default [] (some_list l) = l.
Proof. by destruct l. Qed.

Lemma hop_records_read p : hop_sent p -> exists amounts, Forall (fun r => known_type (tlv_type r) = true) (amounts ++ opt_fixed p) /\
  hop_records p = Ok ((amounts ++ opt_fixed p) ++ custom_records p) /\
  hop_records (read_back p) = Ok ((amounts ++ opt_fixed p) ++ custom_records (read_back p)).
Proof.
  intros Hs. assert (Hk : Forall (fun r => known_type (tlv_type r) = true) (opt_fixed p)).
  { unfold opt_fixed. destruct (hp_shortChannelId p), (hp_paymentSecret p), (hp_encryptedRecipientData p), (hp_blindingPoint p),
      (hp_totalAmountMsat p); cbn; repeat constructor. }
  assert (Hf : forall p', hp_shortChannelId p' = hp_shortChannelId p -> opt_fixed p' = opt_fixed p ->
    opt_record 6 (hp_shortChannelId p') ++ opt_record 8 ((fun secret => secret ++ encodeTruncatedUint
      (default (hp_amountToForwardMsat p') (hp_totalMsat p'))) <$> hp_paymentSecret p') ++
    opt_record 10 (hp_encryptedRecipientData p') ++ opt_record 12 (hp_blindingPoint p') ++
    opt_record 18 (encodeTruncatedUint <$> hp_totalAmountMsat p') ++ custom_records p' = opt_fixed p ++ custom_records p')
    by (intros p' _ <-; unfold opt_fixed; by rewrite <- !app_assoc).
  assert (Hr : opt_fixed (read_back p) = opt_fixed p) by (unfold opt_fixed; cbn; by destruct (hp_paymentSecret p)).
  unfold hop_records. fold (custom_records p) (custom_records (read_back p)). rewrite (Hf (read_back p)), (Hf p) by done.
  cbn [read_back hp_omitForwardAmounts hp_amountToForwardMsat hp_outgoingCltvValue]. pose proof (sn_cltv _ Hs) as Hz. unfold omits in *.
  destruct (hp_omitForwardAmounts p) as [[]|]; cbn [default] in *; unfold default in *;
    [exists []; by split_and!| |]; destruct (Hz eq_refl) as (z & -> & _); cbn [to_bigint]; rewrite !bind_Ok;
    (eexists [_; _]; split_and!; [|reflexivity|reflexivity]); by repeat constructor.
Qed.

Lemma custom_perm p : Permutation (custom_records (read_back p)) (custom_records p).
Proof.
  unfold custom_records. cbn [read_back hp_customRecords]. rewrite default_some_list. apply Permutation_map, sort_perm.
Qed.

Lemma sort_customs l : NoDup (map fst l) -> StronglySorted (fun a b : Z * buffer => a.1 < b.1) (CommitmentTx.sort compare_custom l).
Proof.
  intros Hn. pose proof (sort_sorted compare_custom (fun a b : Z * buffer => a.1 <= b.1) l) as Hs. unfold compare_custom in Hs at 1 2.
  specialize (Hs ltac:(intros; lia) ltac:(intros; lia)). rewrite <- (sort_perm compare_custom l) in Hn.
  apply Sorted_StronglySorted in Hs; [|intros ? ? ?; lia]. induction Hs as [|x r Hr IH Hx]; [constructor|]. cbn in Hn.
  apply NoDup_cons in Hn as [Hx' Hn]. constructor; [by apply IH|]. rewrite List.Forall_forall in *. intros y Hy. specialize (Hx y Hy).
  assert (x.1 <> y.1); [|lia]. intros E. apply Hx'. rewrite E. by apply list_elem_of_In, in_map.
Qed.

Lemma read_back_wf p : hop_sent p -> hop_wf (read_back p).
Proof.
  intros Hs. destruct (hop_records_read p Hs) as (am & _ & Hr & Hr'). constructor.
  - cbn. pose proof (sn_amount _ Hs). destruct (omits p); lia.
  - cbn. pose proof (sn_cltv _ Hs) as Hz. destruct (omits p); [by exists 0|by apply Hz].
  - cbn. pose proof (sn_omit _ Hs) as Ho. destruct (omits p); [right; by split_and!; [..|apply Ho]|by left].
  - apply Hs.
  - apply Hs.
  - cbn. pose proof (sn_total _ Hs) as Ht. pose proof (sn_amount _ Hs). destruct (hp_paymentSecret p); [|done]. cbn.
    destruct (hp_totalMsat p); cbn; [by apply Ht|done].
  - apply Hs.
  - apply Hs.
  - cbn [read_back hp_customRecords]. destruct (some_list _) as [l|] eqn:El; [|done].
    assert (CommitmentTx.sort compare_custom (default [] (hp_customRecords p)) = l /\ l <> []) as [<- Hne]
      by (unfold some_list in El; case_match; simplify_eq; done).
    split_and!; [done|apply sort_customs, Hs|]. rewrite (sort_perm compare_custom). apply Hs.
  - intros rs. rewrite Hr'. intros [= <-]. pose proof (sn_size _ Hs _ Hr) as Hz.
    rewrite (stream_perm _ ((am ++ opt_fixed p) ++ custom_records p)); [done|]. by rewrite custom_perm.
Qed.

(** Records with distinct types are sorted to one list. *)
Lemma sort_same rs rs' : Permutation rs rs' -> NoDup (map tlv_type rs) -> Forall (fun r => 0 <= tlv_type r) rs ->
  CommitmentTx.sort compare_type rs = CommitmentTx.sort compare_type rs'.
Proof.
  intros Hp Hn Hpos. apply (StronglySorted_unique_strong (fun a b => tlv_type a < tlv_type b)).
  - intros; lia.
  - by eapply increasing_strong, sort_increasing.
  - eapply increasing_strong, sort_increasing; by rewrite <- Hp.
  - by rewrite !sort_perm.
Qed.

Lemma encode_read_back p : hop_sent p -> encodeHopPayload p = encodeHopPayload (read_back p).
Proof.
  intros Hs. destruct (hop_records_read p Hs) as (am & Hk & Hr & Hr'). unfold encodeHopPayload. rewrite Hr, Hr', !bind_Ok.
  pose proof (read_back_wf p Hs) as Hw. destruct (w_cltv _ Hw) as (z & Hz & _). pose proof (hop_records_split _ z Hz) as Hs'.
  rewrite Hr' in Hs'. injection Hs' as Hs'. rewrite <- (sort_same ((am ++ opt_fixed p) ++ custom_records (read_back p))); [done|..].
  - by rewrite custom_perm.
  - rewrite Hs'. by apply types_nodup.
  - rewrite Hs'. eapply Forall_impl; [by apply types_range|]. cbn. lia.
Qed.


(** ** Concrete inputs *)

(** A payload for a forwarding hop, and one for the recipient with a keysend record. *)
Definition forward_hop : IHopPayload :=
  {| hp_shortChannelId := Some (be 8 700000); hp_amountToForwardMsat := 1000;
     hp_outgoingCltvValue := Fin 144; hp_paymentSecret := None; hp_totalMsat := None;
     hp_encryptedRecipientData := None; hp_blindingPoint := None; hp_totalAmountMsat := None;
     hp_customRecords := None; hp_omitForwardAmounts := None |}.

Definition final_hop : IHopPayload :=
  {| hp_shortChannelId := None; hp_amountToForwardMsat := 1000;
     hp_outgoingCltvValue := Fin 144; hp_paymentSecret := Some (be 32 9); hp_totalMsat := Some 5000;
     hp_encryptedRecipientData := None; hp_blindingPoint := None; hp_totalAmountMsat := None;
     hp_customRecords := Some [(KEYSEND_TLV_TYPE, be 32 4)]; hp_omitForwardAmounts := None |}.

Lemma forward_hop_wf : hop_wf forward_hop.
Proof.
  constructor; cbn -[be blen]; try done; try lia; eauto with lia.
  - intros b [= <-]. done.
  - intros rs Hrs. vm_compute in Hrs. injection Hrs as <-. done.
Qed.

Lemma final_hop_wf : hop_wf final_hop.
Proof.
  constructor; cbn -[be blen]; try done; try lia; eauto with lia.
  - intros b [= <-]. done.
  - split_and!; [done|by repeat constructor|]. constructor; [|done]. split_and!; [done..|]. by left.
  - intros rs Hrs. vm_compute in Hrs. injection Hrs as <-. done.
Qed.

(** The payload of a blinded intermediate hop as the node builds it: real amounts that are
    left out. *)
Definition blinded_forward : IHopPayload :=
  {| hp_shortChannelId := None; hp_amountToForwardMsat := 1000;
     hp_outgoingCltvValue := Fin 144; hp_paymentSecret := None; hp_totalMsat := None;
     hp_encryptedRecipientData := Some (be 50 7); hp_blindingPoint := Some (be 33 3); hp_totalAmountMsat := None;
     hp_customRecords := Some [(65539, be 2 1); (65537, be 2 2)]; hp_omitForwardAmounts := Some true |}.

Lemma blinded_forward_sent : hop_sent blinded_forward.
Proof.
  constructor; cbn -[be blen]; try done; try lia.
  - intros b [= <-]. done.
  - apply NoDup_cons. split; [by intros [?|?%elem_of_nil]%elem_of_cons|apply NoDup_singleton].
  - apply Forall_cons. split; [split_and!; [done..|by right]|]. apply Forall_cons. split; [split_and!; [done..|by right]|done].
  - intros rs Hrs. vm_compute in Hrs. injection Hrs as <-. done.
Qed.

