(* ===== verification/Onion.v ===== *)
(** * Onion packets (src/src/lightning/onion/construct.ts and process.ts)

    The sender wraps the payloads of a route from the last hop to the first; each hop
    peels one layer.  [onion_peels] follows a packet along the whole route. *)

From S2P Require Import Prelude Buffer Codec Tlv CommitmentTx Scripts Sphinx HopPayload.
From Stdlib Require Import Strings.Byte.
Local Open Scope Z_scope.

Definition ROUTING_INFO_LENGTH : Z := 1300.
Definition ONION_VERSION : Z := 0.

Definition INVALID_ONION_VERSION : Z := Z.lor (Z.lor 0x8000 0x4000) 4.
Definition INVALID_ONION_HMAC : Z := Z.lor (Z.lor 0x8000 0x4000) 5.
Definition INVALID_ONION_KEY : Z := Z.lor (Z.lor 0x8000 0x4000) 6.
Definition INVALID_ONION_PAYLOAD : Z := Z.lor 0x4000 22.

Record IOnionPacket := {
  op_version : Z;
  op_ephemeralKey : buffer;
  op_routingInfo : buffer;
  op_hmac : buffer
}.

Record IProcessedOnion := {
  po_hopPayload : IHopPayload;
  po_nextPacket : IOnionPacket;
  po_sharedSecret : buffer
}.

(** [src.copy(dst, off)] where the offset or the end of the source may be negative *)
Definition checked_copy (src dst : buffer) (off srcEnd : Z) : result buffer :=
  _ ← throw_if ((off <? 0) || (srcEnd <? 0)) ERR_RANGE;
  Ok (copy (subarray src 0 srcEnd) dst off).

(** ** Serialisation *)

Definition encodeOnionPacket (packet : IOnionPacket) : buffer :=
  let riLen := blen (op_routingInfo packet) in
  let buf := alloc (66 + riLen) in
  let buf := set_byte buf 0 (op_version packet) in
  let buf := copy (op_ephemeralKey packet) buf 1 in
  let buf := copy (op_routingInfo packet) buf 34 in
  copy (op_hmac packet) buf (34 + riLen).

Definition decodeOnionPacket (buf : buffer) : result IOnionPacket :=
  _ ← throw_if (blen buf <? 67) "Onion packet too short";
  let riLen := blen buf - 66 in
  Ok {| op_version := byte_at buf 0;
        op_ephemeralKey := subarray buf 1 34;
        op_routingInfo := subarray buf 34 (34 + riLen);
        op_hmac := subarray buf (34 + riLen) (66 + riLen) |}.

Section Onion.
Context `{L : BitcoinLib} `{O : OnionLib} (ecc_isPoint : buffer -> bool).

(** ** Construction *)

(** One round of the loop of generateFiller. *)
Definition extend_filler (filler : buffer) (hop : buffer * Z) : buffer :=
  let hopSize := hop.2 + 32 in
  let fillerStart := ROUTING_INFO_LENGTH - blen filler in
  let keys := deriveHopKeys hop.1 in
  let stream := generateCipherStream (rho keys) (ROUTING_INFO_LENGTH + hopSize) in
  xor_stream (filler ++ alloc hopSize) stream fillerStart.

(** The two lists have the length of the route; the last hop adds nothing. *)
Definition generateFiller (sharedSecrets : list buffer) (payloadSizes : list Z) : buffer :=
  fold_left extend_filler (combine (removelast sharedSecrets) payloadSizes) [].

(** One round of the loop of constructOnionPacket: [inner] is the routing info and the
    hmac of the hops after this one. *)
Definition wrap_hop (filler : buffer) (associatedData : option buffer) (last : bool)
    (hop : buffer * buffer) (inner : buffer * buffer) : result (buffer * buffer) :=
  let '(sharedSecret, payloadBytes) := hop in
  let '(routingInfo, currentHmac) := inner in
  let keys := deriveHopKeys sharedSecret in
  let shiftSize := blen payloadBytes + 32 in
  let newRoutingInfo := alloc ROUTING_INFO_LENGTH in
  let newRoutingInfo := copy payloadBytes newRoutingInfo 0 in
  let newRoutingInfo := copy currentHmac newRoutingInfo (blen payloadBytes) in
  routingInfo ← checked_copy routingInfo newRoutingInfo shiftSize (ROUTING_INFO_LENGTH - shiftSize);
  let stream := generateCipherStream (rho keys) ROUTING_INFO_LENGTH in
  let routingInfo := xor_stream routingInfo stream 0 in
  routingInfo ←
    (if last && (0 <? blen filler)
     then checked_copy filler routingInfo (ROUTING_INFO_LENGTH - blen filler) (blen filler)
     else Ok routingInfo);
  Ok (routingInfo, hmacSha256 (mu keys) (routingInfo ++ default [] associatedData)).

(** The loop itself, from the last hop to the first. *)
Fixpoint wrap_hops (filler : buffer) (associatedData : option buffer)
    (hops : list (buffer * buffer)) (start : buffer * buffer) : result (buffer * buffer) :=
  match hops with
  | [] => Ok start
  | hop :: rest =>
      inner ← wrap_hops filler associatedData rest start;
      wrap_hop filler associatedData (match rest with [] => true | _ => false end) hop inner
  end.

(** [hops.map(h => encodeHopPayload(h.payload))] *)
Fixpoint encode_payloads (payloads : list IHopPayload) : result (list buffer) :=
  match payloads with
  | [] => Ok []
  | p :: ps => b ← encodeHopPayload p; bs ← encode_payloads ps; Ok (b :: bs)
  end.

Definition constructOnionPacket (sessionKey : buffer) (hops : list (buffer * IHopPayload))
    (associatedData : option buffer) : result IOnionPacket :=
  _ ← throw_if (Z.of_nat (length hops) =? 0) "At least one hop is required";
  _ ← throw_if (20 <? Z.of_nat (length hops)) "Too many hops (max 20)";
  '(sharedSecrets, ephemeralKeys) ← computeSharedSecrets sessionKey (map fst hops);
  encodedPayloads ← encode_payloads (map snd hops);
  let payloadSizes := map blen encodedPayloads in
  let filler := generateFiller sharedSecrets payloadSizes in
  let routingInfo := generateCipherStream (generateKey "pad" sessionKey) ROUTING_INFO_LENGTH in
  '(routingInfo, currentHmac) ←
    wrap_hops filler associatedData (combine sharedSecrets encodedPayloads) (routingInfo, alloc 32);
  Ok {| op_version := ONION_VERSION; op_ephemeralKey := List.hd [] ephemeralKeys;
        op_routingInfo := routingInfo; op_hmac := currentHmac |}.

(** ** Processing *)

(** An OnionProcessingError, an error thrown by a primitive, or the processed onion. *)
Inductive onion_result :=
| Processed (onion : IProcessedOnion)
| OnionProcessingError (message : string) (failureCode : Z) (failureData : buffer)
    (sharedSecret : option buffer)
| Thrown (message : string).

(** The failure data of invalid_onion_payload. *)
Definition invalid_payload_data (e : hop_error) : result buffer :=
  let '(tlvType, offset) := match e with
                            | PlainError _ => (0, 0)
                            | InvalidOnionPayloadError _ tlvType offset => (tlvType, offset)
                            end in
  off ← writeUInt16BE (alloc 2) (Z.min offset 0xffff) 0;
  type ← encodeBigSize tlvType;
  Ok (type ++ off).

Definition hop_error_message (e : hop_error) : string :=
  match e with PlainError m => m | InvalidOnionPayloadError m _ _ => m end.

Definition isValidPublicKey (pubkey : buffer) : bool :=
  if negb (blen pubkey =? 33) then false else ecc_isPoint pubkey.

(** What is done with a payload that was decoded: the packet for the next hop. *)
Definition next_packet (packet : IOnionPacket) (sharedSecret extended : buffer) (bytesRead : Z)
    (hopPayload : IHopPayload) : onion_result :=
  let nextHmac := subarray extended bytesRead (bytesRead + 32) in
  let shiftStart := bytesRead + 32 in
  let nextRoutingInfo := subarray extended shiftStart (shiftStart + ROUTING_INFO_LENGTH) in
  let blindingFactor := computeBlindingFactor (op_ephemeralKey packet) sharedSecret in
  match pointMultiply (op_ephemeralKey packet) blindingFactor with
  | Err e => Thrown e
  | Ok nextEphemeralKey =>
      Processed {| po_hopPayload := hopPayload;
                   po_nextPacket := {| op_version := ONION_VERSION;
                                       op_ephemeralKey := nextEphemeralKey;
                                       op_routingInfo := nextRoutingInfo;
                                       op_hmac := nextHmac |};
                   po_sharedSecret := sharedSecret |}
  end.

Definition processOnionPacket (packet : IOnionPacket) (nodePrivkey : buffer)
    (associatedData : option buffer) : onion_result :=
  if negb (op_version packet =? ONION_VERSION)
  then OnionProcessingError "Invalid onion version" INVALID_ONION_VERSION [] None
  else if negb (blen (op_routingInfo packet) =? ROUTING_INFO_LENGTH)
  then OnionProcessingError "Payment onion routing info must be 1300 bytes" INVALID_ONION_HMAC [] None
  else if negb (isValidPublicKey (op_ephemeralKey packet))
  then OnionProcessingError "Onion ephemeral key is not a valid point" INVALID_ONION_KEY [] None
  else match ecdh nodePrivkey (op_ephemeralKey packet) with
  | Err e => Thrown e
  | Ok sharedSecret =>
      let keys := deriveHopKeys sharedSecret in
      let expectedHmac := hmacSha256 (mu keys)
                            (op_routingInfo packet ++ default [] associatedData) in
      if negb (buf_equals (op_hmac packet) expectedHmac)
      then OnionProcessingError "HMAC verification failed" INVALID_ONION_HMAC [] None
      else
        let extendedLen := 2 * ROUTING_INFO_LENGTH in
        let stream := generateCipherStream (rho keys) extendedLen in
        let extended := xor_stream (copy (op_routingInfo packet) (alloc extendedLen) 0) stream 0 in
        match decodeHopPayload extended 0 with
        | inl e =>
            match invalid_payload_data e with
            | Err e' => Thrown e'
            | Ok failureData =>
                OnionProcessingError (hop_error_message e) INVALID_ONION_PAYLOAD failureData
                  (Some sharedSecret)
            end
        | inr (hopPayload, bytesRead) => next_packet packet sharedSecret extended bytesRead hopPayload
        end
  end.

Definition isFinalHop (packet : IOnionPacket) : bool := buf_equals (op_hmac packet) (alloc 32).

End Onion.

(** ** The filler *)

Section Peeling.
Context `{L : BitcoinLib} `{O : OnionLib} {ecc_isPoint : buffer -> bool} {W : OnionLaws ecc_isPoint}.
Context (associatedData : option buffer).

(** Bytes [s] to [e] of a hop's key stream. *)
Definition key_stream (secret : buffer) (s e : Z) : buffer :=
  subarray (generateCipherStream (rho (deriveHopKeys secret)) e) s e.

Lemma key_stream_length secret s e : 0 <= s <= e -> blen (key_stream secret s e) = e - s.
Proof.
  intros H. unfold key_stream. rewrite blen_subarray; rewrite ?cipher_length; lia.
Qed.

Lemma subarray_prefix (b : buffer) m s e : 0 <= s <= e -> e <= m ->
  subarray (subarray b 0 m) s e = subarray b s e.
Proof.
  intros H1 H2. unfold subarray. rewrite drop_0, Z.sub_0_r, skipn_firstn_comm, take_take. f_equal. lia.
Qed.

(** A longer stream starts with the shorter one. *)
Lemma stream_part secret s e m : 0 <= s <= e -> e <= m ->
  subarray (generateCipherStream (rho (deriveHopKeys secret)) m) s e = key_stream secret s e.
Proof.
  intros H1 H2. unfold key_stream. rewrite <- (cipher_prefix _ e m) by lia.
  by rewrite subarray_prefix by lia.
Qed.

Lemma stream_split secret s m e : 0 <= s <= m -> m <= e ->
  key_stream secret s e = key_stream secret s m ++ key_stream secret m e.
Proof.
  intros H1 H2. unfold key_stream at 1. rewrite (subarray_split _ s m e) by (rewrite ?cipher_length; lia).
  by rewrite !stream_part by lia.
Qed.

Lemma xor_key_stream b secret m s : 0 <= s -> s + blen b <= m ->
  xor_stream b (generateCipherStream (rho (deriveHopKeys secret)) m) s =
  xor_bytes b (key_stream secret s (s + blen b)).
Proof.
  intros Hs Hm. pose proof (blen_nonneg b). rewrite xor_stream_in by (rewrite ?cipher_length; lia).
  by rewrite stream_part by lia.
Qed.

(** The filler after the hops [l] of a route. *)
Definition sized (hops : list (buffer * buffer)) : list (buffer * Z) :=
  map (fun h => (h.1, blen h.2)) hops.

Definition filler_of (hops : list (buffer * buffer)) : buffer :=
  fold_left extend_filler (sized hops) [].

Definition hop_size (h : buffer * buffer) : Z := blen h.2 + 32.

Lemma hop_size_pos h : 32 <= hop_size h.
Proof. unfold hop_size. pose proof (blen_nonneg h.2). lia. Qed.

Lemma zsum_hop_pos l : 0 <= zsum hop_size l.
Proof. induction l as [|h l IH]; cbn; [lia|]. pose proof (hop_size_pos h). lia. Qed.

Lemma blen_xor b s k : blen (xor_stream b s k) = blen b.
Proof. unfold blen. by rewrite length_xor_stream. Qed.

Lemma filler_snoc hops h : filler_of (hops ++ [h]) = extend_filler (filler_of hops) (h.1, blen h.2).
Proof. unfold filler_of, sized. by rewrite map_app, fold_left_app. Qed.

Lemma filler_length hops : blen (filler_of hops) = zsum hop_size hops.
Proof.
  induction hops as [|h hops IH] using rev_ind; [done|].
  rewrite filler_snoc, zsum_app. unfold extend_filler. rewrite blen_xor, blen_app, IH.
  pose proof (hop_size_pos h). unfold hop_size in *. cbn [fst snd zsum].
  rewrite blen_alloc by lia. lia.
Qed.

Lemma blen_xor_bytes a b : blen a = blen b -> blen (xor_bytes a b) = blen a.
Proof. unfold blen. intros H. rewrite length_xor_bytes; lia. Qed.

Lemma length_of_blen (a b : buffer) : blen a = blen b -> length a = length b.
Proof. unfold blen. lia. Qed.

(** One more hop: the old bytes under its stream, and the stream past the end. *)
Lemma filler_step hops h : zsum hop_size hops <= ROUTING_INFO_LENGTH ->
  let f := filler_of hops in
  filler_of (hops ++ [h]) =
    xor_bytes f (key_stream h.1 (ROUTING_INFO_LENGTH - blen f) ROUTING_INFO_LENGTH) ++
    key_stream h.1 ROUTING_INFO_LENGTH (ROUTING_INFO_LENGTH + hop_size h).
Proof.
  intros Hs f. rewrite filler_snoc. fold f. pose proof (filler_length hops) as Hf. fold f in Hf.
  pose proof (zsum_hop_pos hops). pose proof (hop_size_pos h) as Hh. unfold extend_filler. cbn [fst snd].
  fold (hop_size h). rewrite xor_key_stream by (rewrite ?blen_app, ?blen_alloc by lia; lia).
  rewrite blen_app, blen_alloc by lia.
  replace (ROUTING_INFO_LENGTH - blen f + (blen f + hop_size h)) with (ROUTING_INFO_LENGTH + hop_size h) by lia.
  rewrite (stream_split _ _ ROUTING_INFO_LENGTH) by lia.
  rewrite xor_bytes_app by (apply length_of_blen; rewrite key_stream_length; lia).
  f_equal. apply xor_bytes_alloc. rewrite key_stream_length by (unfold ROUTING_INFO_LENGTH; lia). lia.
Qed.

(** ** One layer *)

(** The decrypted routing info, as processOnionPacket computes it. *)
Definition decrypted (secret routingInfo : buffer) : buffer :=
  xor_stream (copy routingInfo (alloc (2 * ROUTING_INFO_LENGTH)) 0)
    (generateCipherStream (rho (deriveHopKeys secret)) (2 * ROUTING_INFO_LENGTH)) 0.

(** Plain bytes [M] and the filler [f] encrypt to a routing info that ends in [f] and
    decrypts to [M], the filler under the stream, and the stream. *)
Lemma decrypt_layer secret M f :
  blen M + blen f = ROUTING_INFO_LENGTH ->
  decrypted secret (xor_bytes M (key_stream secret 0 (blen M)) ++ f) =
  M ++ xor_bytes f (key_stream secret (blen M) ROUTING_INFO_LENGTH) ++
  key_stream secret ROUTING_INFO_LENGTH (2 * ROUTING_INFO_LENGTH).
Proof.
  intros Hl. pose proof (blen_nonneg M). pose proof (blen_nonneg f).
  assert (blen (xor_bytes M (key_stream secret 0 (blen M))) = blen M) as HM
    by (apply blen_xor_bytes; rewrite key_stream_length; lia).
  unfold decrypted. rewrite copy_fill0 by (rewrite blen_app, HM; unfold ROUTING_INFO_LENGTH in *; lia).
  rewrite xor_key_stream; rewrite ?blen_app, ?HM, ?blen_alloc; unfold ROUTING_INFO_LENGTH in *; try lia.
  replace (0 + (blen M + blen f + (2 * 1300 - (blen M + blen f)))) with (2 * 1300) by lia.
  replace (2 * 1300 - (blen M + blen f)) with 1300 by lia.
  rewrite (stream_split secret 0 (blen M) (2 * 1300)), (stream_split secret (blen M) 1300 (2 * 1300)) by lia.
  rewrite <- app_assoc.
  rewrite xor_bytes_app by (apply length_of_blen; rewrite HM, key_stream_length; lia).
  rewrite xor_bytes_app by (apply length_of_blen; rewrite key_stream_length; lia).
  rewrite xor_bytes_twice by (apply length_of_blen; rewrite key_stream_length; lia).
  f_equal. f_equal. apply xor_bytes_alloc. rewrite key_stream_length by lia. lia.
Qed.

Lemma place_hop b H R :
  blen b + 32 <= ROUTING_INFO_LENGTH -> blen H = 32 -> blen R = ROUTING_INFO_LENGTH ->
  checked_copy R (copy H (copy b (alloc ROUTING_INFO_LENGTH) 0) (blen b)) (blen b + 32)
    (ROUTING_INFO_LENGTH - (blen b + 32)) =
  Ok (b ++ H ++ subarray R 0 (ROUTING_INFO_LENGTH - (blen b + 32))).
Proof.
  intros Hb HH HR. pose proof (blen_nonneg b). unfold checked_copy.
  rewrite throw_pass by (apply orb_false_iff; split; apply Z.ltb_ge; lia).
  rewrite copy_fill0 by lia. rewrite (copy_fill b H) by lia. rewrite HH.
  assert (blen (subarray R 0 (ROUTING_INFO_LENGTH - (blen b + 32))) = ROUTING_INFO_LENGTH - (blen b + 32)) as Hl
    by (rewrite blen_subarray; lia).
  rewrite (copy_fill (b ++ H)) by (rewrite ?blen_app, ?HH, ?Hl; lia).
  rewrite Hl, (alloc_0 (_ - _)) by lia. rewrite app_nil_r. by rewrite <- app_assoc.
Qed.

(** A hop before the last. *)
Lemma wrap_inner filler hop R H f A :
  hop_size hop <= ROUTING_INFO_LENGTH -> blen H = 32 ->
  blen f + hop_size hop <= ROUTING_INFO_LENGTH ->
  R = A ++ xor_bytes f (key_stream hop.1 (ROUTING_INFO_LENGTH - blen f) ROUTING_INFO_LENGTH) ++
      key_stream hop.1 ROUTING_INFO_LENGTH (ROUTING_INFO_LENGTH + hop_size hop) ->
  blen R = ROUTING_INFO_LENGTH ->
  exists A' junk,
    let R' := A' ++ f in
    wrap_hop filler associatedData false hop (R, H) =
      Ok (R', hmacSha256 (mu (deriveHopKeys hop.1)) (R' ++ default [] associatedData)) /\
    blen R' = ROUTING_INFO_LENGTH /\ decrypted hop.1 R' = hop.2 ++ H ++ R ++ junk.
Proof.
  intros Hh HH Hf ER HR. destruct hop as [ss b]. unfold hop_size in *. cbn [fst snd] in *.
  pose proof (blen_nonneg f). pose proof (blen_nonneg b). pose proof (blen_nonneg A).
  set (x := xor_bytes f (key_stream ss (ROUTING_INFO_LENGTH - blen f) ROUTING_INFO_LENGTH)) in *.
  assert (blen x = blen f) as Hx by (apply blen_xor_bytes; rewrite key_stream_length; lia).
  assert (blen A = ROUTING_INFO_LENGTH - blen f - (blen b + 32)) as HA.
  { rewrite ER, !blen_app, Hx, key_stream_length in HR by (unfold ROUTING_INFO_LENGTH in *; lia). lia. }
  set (M := b ++ H ++ A). assert (blen M = ROUTING_INFO_LENGTH - blen f) as HM
    by (unfold M; rewrite !blen_app, HH, HA; lia).
  exists (xor_bytes M (key_stream ss 0 (blen M))),
    (key_stream ss (ROUTING_INFO_LENGTH + (blen b + 32)) (2 * ROUTING_INFO_LENGTH)).
  cbv zeta. split_and!.
  - unfold wrap_hop. rewrite place_hop, bind_Ok by done.
    assert (subarray R 0 (ROUTING_INFO_LENGTH - (blen b + 32)) = A ++ x) as ->.
    { rewrite ER, app_assoc. apply subarray_hd; [done|]. rewrite blen_app. lia. }
    replace (b ++ H ++ A ++ x) with (M ++ x) by (unfold M; by rewrite <- !app_assoc).
    rewrite xor_key_stream by (rewrite ?blen_app; lia). rewrite blen_app, Hx, HM.
    replace (0 + (ROUTING_INFO_LENGTH - blen f + blen f)) with ROUTING_INFO_LENGTH by lia.
    rewrite (stream_split _ 0 (ROUTING_INFO_LENGTH - blen f)) by lia.
    rewrite xor_bytes_app by (apply length_of_blen; rewrite key_stream_length; lia).
    assert (xor_bytes x (key_stream ss (ROUTING_INFO_LENGTH - blen f) ROUTING_INFO_LENGTH) = f) as ->
      by (apply xor_bytes_twice, length_of_blen; rewrite key_stream_length; lia).
    cbn [andb]. by rewrite bind_Ok.
  - rewrite blen_app, blen_xor_bytes by (rewrite key_stream_length; lia). lia.
  - rewrite decrypt_layer, HM by lia. fold x. rewrite ER. unfold M.
    rewrite (stream_split ss ROUTING_INFO_LENGTH (ROUTING_INFO_LENGTH + (blen b + 32))
      (2 * ROUTING_INFO_LENGTH)) by (unfold ROUTING_INFO_LENGTH in *; lia).
    by rewrite <- !app_assoc.
Qed.

(** The last hop: the filler overwrites the end. *)
Lemma wrap_last filler hop R H :
  blen H = 32 -> blen filler + hop_size hop <= ROUTING_INFO_LENGTH -> blen R = ROUTING_INFO_LENGTH ->
  exists A' junk,
    let R' := A' ++ filler in
    wrap_hop filler associatedData true hop (R, H) =
      Ok (R', hmacSha256 (mu (deriveHopKeys hop.1)) (R' ++ default [] associatedData)) /\
    blen R' = ROUTING_INFO_LENGTH /\ decrypted hop.1 R' = hop.2 ++ H ++ junk.
Proof.
  intros HH Hf HR. destruct hop as [ss b]. unfold hop_size in *. cbn [fst snd] in *.
  pose proof (blen_nonneg filler) as Hf0. pose proof (blen_nonneg b).
  set (n := ROUTING_INFO_LENGTH - blen filler - (blen b + 32)).
  set (M := b ++ H ++ subarray R 0 n). set (tl := subarray R n (ROUTING_INFO_LENGTH - (blen b + 32))).
  assert (blen M = ROUTING_INFO_LENGTH - blen filler) as HM
    by (unfold M; rewrite !blen_app, HH, blen_subarray; lia).
  assert (blen tl = blen filler) as Ht by (unfold tl; rewrite blen_subarray; lia).
  exists (xor_bytes M (key_stream ss 0 (blen M))),
    (subarray R 0 n ++ xor_bytes filler (key_stream ss (blen M) ROUTING_INFO_LENGTH) ++
     key_stream ss ROUTING_INFO_LENGTH (2 * ROUTING_INFO_LENGTH)).
  cbv zeta. split_and!.
  - unfold wrap_hop. rewrite place_hop, bind_Ok by (done || lia).
    rewrite (subarray_split R 0 n) by lia. fold tl.
    replace (b ++ H ++ subarray R 0 n ++ tl) with (M ++ tl) by (unfold M; by rewrite <- !app_assoc).
    rewrite xor_key_stream by (rewrite ?blen_app; lia). rewrite blen_app, Ht, HM.
    replace (0 + (ROUTING_INFO_LENGTH - blen filler + blen filler)) with ROUTING_INFO_LENGTH by lia.
    rewrite (stream_split _ 0 (ROUTING_INFO_LENGTH - blen filler)) by lia.
    rewrite xor_bytes_app by (apply length_of_blen; rewrite key_stream_length; lia).
    cbn [andb]. set (pre := xor_bytes M _). set (post := xor_bytes tl _).
    assert (blen pre = ROUTING_INFO_LENGTH - blen filler) as Hp
      by (unfold pre; rewrite blen_xor_bytes; [done|]; rewrite key_stream_length; lia).
    assert (blen post = blen filler) as Hq
      by (unfold post; rewrite blen_xor_bytes; [done|]; rewrite key_stream_length; lia).
    assert ((if 0 <? blen filler
             then checked_copy filler (pre ++ post) (ROUTING_INFO_LENGTH - blen filler) (blen filler)
             else Ok (pre ++ post)) = Ok (pre ++ filler)) as ->; [|by rewrite bind_Ok].
    destruct (Z.ltb_spec 0 (blen filler)).
    + unfold checked_copy. rewrite throw_pass by (apply orb_false_iff; split; apply Z.ltb_ge; lia).
      rewrite subarray_all by done. unfold copy. rewrite blen_app, Hp, Hq.
      rewrite <- Hp at 1. unfold blen at 1. rewrite Nat2Z.id, take_app_length.
      rewrite take_ge by (unfold blen in *; lia). rewrite drop_ge; [by rewrite app_nil_r|].
      rewrite length_app. unfold blen in *. lia.
    + assert (blen filler = 0) as E by lia. rewrite E in Hq.
      by rewrite (blen_0_nil _ E), (blen_0_nil _ Hq).
  - rewrite blen_app, blen_xor_bytes by (rewrite key_stream_length; lia). lia.
  - rewrite decrypt_layer by lia. unfold M at 1. by rewrite <- !app_assoc.
Qed.

(** ** A whole route *)

(** [R] and [H] are the routing info and hmac for the hops of a route, each with its
    shared secret and its encoded payload. *)
Fixpoint layers (hops : list (buffer * buffer)) (R H : buffer) : Prop :=
  match hops with
  | [] => False
  | hop :: rest =>
      H = hmacSha256 (mu (deriveHopKeys hop.1)) (R ++ default [] associatedData) /\
      blen R = ROUTING_INFO_LENGTH /\
      match rest with
      | [] => exists junk, decrypted hop.1 R = hop.2 ++ alloc 32 ++ junk
      | _ => exists R' H' junk, decrypted hop.1 R = hop.2 ++ H' ++ R' ++ junk /\ layers rest R' H'
      end
  end.

Lemma layers_hmac hops R H : layers hops R H -> blen H = 32.
Proof.
  destruct hops; [done|]. cbn [layers]. intros [-> _]. unfold blen. by rewrite hmac_length.
Qed.

Lemma layers_size hops R H : layers hops R H -> blen R = ROUTING_INFO_LENGTH.
Proof. destruct hops; [done|]. cbn [layers]. tauto. Qed.

Lemma wrap_layers padding (Hpad : blen padding = ROUTING_INFO_LENGTH) rest : forall hops,
  rest <> [] -> zsum hop_size (hops ++ rest) <= ROUTING_INFO_LENGTH ->
  exists A H, wrap_hops (filler_of (removelast (hops ++ rest))) associatedData rest (padding, alloc 32)
      = Ok (A ++ filler_of hops, H) /\ layers rest (A ++ filler_of hops) H.
Proof.
  induction rest as [|hop rest IH]; intros hops Hne Hs; [done|].
  destruct rest as [|hop' rest].
  - rewrite removelast_last. cbn [wrap_hops]. rewrite bind_Ok.
    rewrite zsum_app in Hs. cbn [zsum] in Hs.
    destruct (wrap_last (filler_of hops) hop padding (alloc 32)) as (A & junk & Hw & Hl & Hd);
      [done|rewrite filler_length; lia|done|].
    eexists A, _. split; [exact Hw|]. cbn [layers]. split_and!; [done..|]. by exists junk.
  - replace (hops ++ hop :: hop' :: rest) with ((hops ++ [hop]) ++ hop' :: rest) in *
      by (by rewrite <- app_assoc).
    destruct (IH (hops ++ [hop])) as (A & H & Hw & Hlay); [done..|].
    set (filler := filler_of (removelast ((hops ++ [hop]) ++ hop' :: rest))) in *.
    change (wrap_hops filler associatedData (hop :: hop' :: rest) (padding, alloc 32)) with
      (inner ← wrap_hops filler associatedData (hop' :: rest) (padding, alloc 32);
       wrap_hop filler associatedData false hop inner).
    rewrite Hw, bind_Ok. rewrite !zsum_app in Hs. cbn [zsum] in Hs.
    pose proof (zsum_hop_pos rest). pose proof (zsum_hop_pos hops). pose proof (hop_size_pos hop').
    pose proof (hop_size_pos hop).
    destruct (wrap_inner filler hop (A ++ filler_of (hops ++ [hop])) H (filler_of hops) A)
      as (A' & junk & Hw' & Hl' & Hd').
    + lia.
    + by eapply layers_hmac.
    + rewrite filler_length. lia.
    + rewrite filler_step by lia. done.
    + by eapply layers_size.
    + eexists A', _. split; [exact Hw'|].
      change (layers (hop :: hop' :: rest) ?R ?H) with
        (H = hmacSha256 (mu (deriveHopKeys hop.1)) (R ++ default [] associatedData) /\
         blen R = ROUTING_INFO_LENGTH /\
         exists R' H' junk, decrypted hop.1 R = hop.2 ++ H' ++ R' ++ junk /\ layers (hop' :: rest) R' H').
      split_and!; [done..|]. eexists _, _, junk. split; [exact Hd'|done].
Qed.

Lemma filler_generated secrets payloads : length secrets = length payloads ->
  generateFiller secrets (map blen payloads) = filler_of (removelast (combine secrets payloads)).
Proof.
  intros Hl. unfold generateFiller, filler_of. f_equal. unfold sized. revert payloads Hl.
  induction secrets as [|s secrets IH]; intros [|b payloads] Hl; try done.
  cbn in Hl. injection Hl as Hl. destruct secrets as [|s' secrets], payloads as [|b' payloads]; try done.
  specialize (IH (b' :: payloads) Hl). cbn [removelast map combine] in *. by rewrite IH.
Qed.

(** ** Along the route *)

Lemma packet_roundtrip packet :
  0 <= op_version packet < 256 -> blen (op_ephemeralKey packet) = 33 -> blen (op_hmac packet) = 32 ->
  1 <= blen (op_routingInfo packet) ->
  decodeOnionPacket (encodeOnionPacket packet) = Ok packet.
Proof.
  destruct packet as [v k r h]. cbn. intros Hv Hk Hh Hr. pose proof (blen_nonneg r).
  unfold encodeOnionPacket. cbn.
  assert (set_byte (alloc (66 + blen r)) 0 v = [byte_of_Z v] ++ alloc (65 + blen r)) as ->.
  { unfold set_byte, alloc. replace (Z.to_nat (66 + blen r)) with (S (Z.to_nat (65 + blen r))) by lia. done. }
  assert (blen [byte_of_Z v] = 1) as H1 by done.
  rewrite copy_fill by lia. rewrite copy_fill by (rewrite ?blen_app; lia).
  rewrite copy_fill by (rewrite ?blen_app; lia).
  rewrite alloc_0, app_nil_r by lia. unfold decodeOnionPacket. rewrite <- !app_assoc.
  rewrite throw_pass by (apply Z.ltb_ge; rewrite !blen_app; lia). rewrite !blen_app, Hk, Hh, H1.
  do 2 f_equal.
  - rewrite byte_at_one, Z_of_byte_of_Z by done. apply Z.mod_small; lia.
  - rewrite subarray_skip, subarray_hd by lia. done.
  - rewrite !subarray_skip by lia. apply subarray_hd; lia.
  - rewrite !subarray_skip by lia. apply subarray_all; lia.
Qed.

Lemma combine_fst {A B} (l : list A) : forall (l' : list B), length l' = length l ->
  map fst (combine l l') = l.
Proof. induction l as [|x l IH]; intros [|y l']; try done. intros [= H]. cbn. by rewrite IH. Qed.

Lemma combine_snd {A B} (l : list A) : forall (l' : list B), length l' = length l ->
  map snd (combine l l') = l'.
Proof. induction l as [|x l IH]; intros [|y l']; try done. intros [= H]. cbn. by rewrite IH. Qed.

(** Each node decodes the onion it received, peels its layer and sends on what is left,
    as the handler of an HTLC does; the last packet is the one the last node is left
    with. *)
Fixpoint travel (onion : buffer) (nodes : list buffer)
    : option (list (IHopPayload * buffer) * IOnionPacket) :=
  match nodes with
  | [] => None
  | node :: rest =>
      match decodeOnionPacket onion with
      | Err _ => None
      | Ok packet =>
          match processOnionPacket ecc_isPoint packet node associatedData with
          | Processed o =>
              let seen := (po_hopPayload o, po_sharedSecret o) in
              match rest with
              | [] => Some ([seen], po_nextPacket o)
              | _ =>
                  '(others, final) ← travel (encodeOnionPacket (po_nextPacket o)) rest;
                  Some (seen :: others, final)
              end
          | _ => None
          end
      end
  end.

Definition packet_of (ephemeralKey R H : buffer) : IOnionPacket :=
  {| op_version := ONION_VERSION; op_ephemeralKey := ephemeralKey; op_routingInfo := R; op_hmac := H |}.

Lemma process_layer key node pub eph next ss R H p b rest :
  getPublicKey key = Ok eph -> getPublicKey node = Ok pub -> ecdh key pub = Ok ss ->
  pointMultiply eph (computeBlindingFactor eph ss) = Ok next ->
  hop_wf p -> encodeHopPayload p = Ok b -> layers ((ss, b) :: rest) R H ->
  exists R' H', processOnionPacket ecc_isPoint (packet_of eph R H) node associatedData =
    Processed {| po_hopPayload := p; po_nextPacket := packet_of next R' H'; po_sharedSecret := ss |} /\
    match rest with [] => H' = alloc 32 | _ => layers rest R' H' end.
Proof.
  intros Hk Hn He Hm Hwf Hb Hlay.
  assert (forall T, decrypted ss R = b ++ T ->
    processOnionPacket ecc_isPoint (packet_of eph R H) node associatedData =
    next_packet (packet_of eph R H) ss (b ++ T) (blen b) p) as Hproc.
  { intros T Hd. destruct Hlay as (HH & HR & _). unfold processOnionPacket. cbn [packet_of op_version
      op_routingInfo op_ephemeralKey op_hmac]. rewrite Z.eqb_refl, HR, Z.eqb_refl. cbn [negb].
    apply getPublicKey_inv in Hk as Hk'. destruct Hk' as [_ Hpt]. apply point_length in Hpt as [Hl Hpt].
    unfold isValidPublicKey. rewrite Hl, Hpt, Z.eqb_refl. cbn [negb].
    rewrite <- (ecdh_symmetric _ _ _ _ Hk Hn), He. cbn [fst] in HH. unfold buf_equals.
    rewrite bool_decide_true by done. cbn [negb]. cbv zeta.
    fold (decrypted ss R). rewrite Hd.
    destruct (hop_payload_decode p [] T Hwf) as (b' & Hb' & Hdec). rewrite Hb in Hb'.
    injection Hb' as <-. cbn [app] in Hdec. change (blen []) with 0 in Hdec. by rewrite Hdec. }
  assert (forall T, next_packet (packet_of eph R H) ss (b ++ T) (blen b) p =
    Processed {| po_hopPayload := p;
      po_nextPacket := packet_of next (subarray T 32 (32 + ROUTING_INFO_LENGTH)) (subarray T 0 32);
      po_sharedSecret := ss |}) as Hnext.
  { intros T. unfold next_packet. cbn [packet_of op_ephemeralKey]. rewrite Hm. pose proof (blen_nonneg b).
    rewrite !subarray_skip by lia. unfold packet_of. do 3 f_equal; f_equal; lia. }
  destruct Hlay as (_ & _ & Hd). destruct rest as [|hop rest].
  - destruct Hd as [junk Hd]. rewrite (Hproc _ Hd), Hnext. eexists _, _. split; [reflexivity|].
    by apply subarray_hd.
  - destruct Hd as (R' & H' & junk & Hd & Hl). rewrite (Hproc _ Hd), Hnext.
    pose proof (layers_hmac _ _ _ Hl) as HH'. pose proof (layers_size _ _ _ Hl) as HR'.
    exists R', H'. split; [|done]. do 3 f_equal.
    + rewrite subarray_skip by lia. rewrite subarray_hd; [done|lia|lia].
    + by rewrite subarray_hd.
Qed.

Lemma shared_secrets_length pubkeys : forall key eph secrets ephs,
  shared_secrets key eph pubkeys = Ok (secrets, ephs) ->
  length secrets = length pubkeys /\ length ephs = length pubkeys.
Proof.
  induction pubkeys as [|pub pubkeys IH]; intros key eph secrets ephs H; cbn [shared_secrets] in H.
  - by injection H as <- <-.
  - apply bind_Ok_inv in H as (ss & _ & H). apply bind_Ok_inv in H as (next & _ & H).
    apply bind_Ok_inv in H as (key' & _ & H). apply bind_Ok_inv in H as ([secrets' ephs'] & Hr & H).
    injection H as <- <-. apply IH in Hr as [H1 H2]. cbn. by rewrite H1, H2.
Qed.

Lemma encode_payloads_length payloads : forall encoded,
  encode_payloads payloads = Ok encoded -> length encoded = length payloads.
Proof.
  induction payloads as [|p payloads IH]; intros encoded H; cbn [encode_payloads] in H.
  - by injection H as <-.
  - apply bind_Ok_inv in H as (b & _ & H). apply bind_Ok_inv in H as (bs & Hb & H).
    injection H as <-. cbn. by rewrite (IH _ Hb).
Qed.

Lemma travel_layers pubkeys : forall key eph nodes payloads secrets ephs encoded R H,
  getPublicKey key = Ok eph -> Forall2 (fun node pub => getPublicKey node = Ok pub) nodes pubkeys ->
  shared_secrets key eph pubkeys = Ok (secrets, ephs) ->
  encode_payloads payloads = Ok encoded -> Forall hop_wf payloads ->
  length payloads = length pubkeys -> layers (combine secrets encoded) R H ->
  exists final, travel (encodeOnionPacket (packet_of eph R H)) nodes =
    Some (combine payloads secrets, final) /\ isFinalHop final = true.
Proof.
  induction pubkeys as [|pub pubkeys IH];
    intros key eph nodes payloads secrets ephs encoded R H Hk Hn Hs Hp Hwf Hl Hlay.
  { cbn in Hs. inv_result. done. }
  apply Forall2_cons_inv_r in Hn as (node & nodes' & Hnode & Hn & ->).
  destruct payloads as [|p payloads]; [done|]. injection Hl as Hl.
  inversion Hwf as [|? ? Hwp Hwf']; subst. cbn [shared_secrets encode_payloads] in Hs, Hp.
  apply bind_Ok_inv in Hs as (ss & Hss & Hs). apply bind_Ok_inv in Hs as (next & Hnext & Hs).
  apply bind_Ok_inv in Hs as (key' & Hkey & Hs). apply bind_Ok_inv in Hs as ([secrets' ephs'] & Hrest & Hs).
  injection Hs as <- <-. apply bind_Ok_inv in Hp as (b & Hb & Hp).
  apply bind_Ok_inv in Hp as (bs & Hbs & Hp). injection Hp as <-. cbn [combine] in Hlay |- *.
  pose proof (layers_hmac _ _ _ Hlay) as HH. pose proof (layers_size _ _ _ Hlay) as HR.
  cbn [travel]. rewrite packet_roundtrip; [|done| |done|cbn; rewrite HR; done].
  2: { apply getPublicKey_inv in Hk as [_ Hpt]. by apply point_length in Hpt as [Hpt _]. }
  destruct (process_layer key node pub eph next ss R H p b (combine secrets' bs) Hk Hnode Hss Hnext Hwp Hb Hlay)
    as (R' & H' & -> & Hcase). cbn [po_hopPayload po_sharedSecret po_nextPacket].
  inversion Hn as [|node' pub' nodes'' pubkeys' Hnode' Hn']; subst.
  - cbn in Hrest. injection Hrest as <- <-. destruct payloads; [|done]. cbn in *.
    eexists. split; [reflexivity|]. unfold isFinalHop, buf_equals. cbn. by rewrite bool_decide_true.
  - assert (layers (combine secrets' bs) R' H') as Hlay'.
    { apply shared_secrets_length in Hrest as [Hls _]. apply encode_payloads_length in Hbs as Hlb.
      destruct secrets', bs; cbn [length combine] in *; (lia || exact Hcase). }
    destruct (IH key' next (node' :: nodes'') payloads secrets' ephs' bs R' H') as (final & Ht & Hf);
      [exact (blind_step _ _ _ _ _ Hk Hnext Hkey)|by constructor|done|done|done|cbn in *; lia|done|].
    exists final. rewrite Ht. done.
Qed.

(** A route a sender can build an onion for: up to 20 nodes that hold the keys they are
    addressed by, a well-formed payload for each, payloads that fit together, and the
    secrets that the session key shares with the nodes. *)
Record sendable (sessionKey : buffer) (nodes pubkeys : list buffer) (payloads : list IHopPayload)
    (secrets : list buffer) : Prop := {
  sd_count : (1 <= length nodes <= 20)%nat;
  sd_keys : Forall2 (fun node pub => getPublicKey node = Ok pub) nodes pubkeys;
  sd_length : length payloads = length nodes;
  sd_wf : Forall hop_wf payloads;
  sd_fits : exists encoded, encode_payloads payloads = Ok encoded /\
    zsum (fun b => blen b + 32) encoded <= ROUTING_INFO_LENGTH;
  sd_secrets : exists ephemeralKeys, computeSharedSecrets sessionKey pubkeys = Ok (secrets, ephemeralKeys)
}.

Lemma onion_delivered sessionKey nodes pubkeys payloads secrets :
  sendable sessionKey nodes pubkeys payloads secrets ->
  exists packet final,
    constructOnionPacket sessionKey (combine pubkeys payloads) associatedData = Ok packet /\
    travel (encodeOnionPacket packet) nodes = Some (combine payloads secrets, final) /\
    isFinalHop final = true.
Proof.
  intros [Hcount Hkeys Hlength Hwf (encoded & Hencoded & Hfits) (ephemeralKeys & Hsecrets)].
  pose proof (Forall2_length _ _ _ Hkeys) as Hpl.
  assert (length (combine pubkeys payloads) = length nodes) as Hc by (rewrite length_combine; lia).
  unfold constructOnionPacket. rewrite Hc.
  rewrite throw_pass by (apply Z.eqb_neq; lia). rewrite throw_pass by (apply Z.ltb_ge; lia).
  rewrite combine_fst by lia. rewrite Hsecrets, bind_Ok. rewrite combine_snd by lia.
  rewrite Hencoded, bind_Ok. unfold computeSharedSecrets in Hsecrets.
  apply bind_Ok_inv in Hsecrets as (eph & Hpub & Hsecrets).
  pose proof (shared_secrets_length _ _ _ _ _ Hsecrets) as [Hsl _].
  pose proof (encode_payloads_length _ _ Hencoded) as Hel.
  rewrite filler_generated by lia.
  destruct (wrap_layers (generateCipherStream (generateKey "pad" sessionKey) ROUTING_INFO_LENGTH)
    (cipher_length _ ROUTING_INFO_LENGTH ltac:(by vm_compute)) (combine secrets encoded) []) as (A & H & Hw & Hlay).
  - destruct secrets, encoded; cbn in *; try done; lia.
  - cbn [app]. etrans; [|exact Hfits]. apply Z.eq_le_incl.
    clear -Hsl Hel Hpl Hlength. assert (length secrets = length encoded) as Hse by lia. clear -Hse.
    revert encoded Hse. induction secrets as [|s secrets IH]; intros [|b encoded]; try done.
    intros [= Hse]. cbn. unfold hop_size at 1. cbn. by rewrite (IH _ Hse).
  - cbn [app] in Hw. rewrite Hw, bind_Ok.
    assert (List.hd [] ephemeralKeys = eph) as ->.
    { destruct pubkeys as [|pub pubkeys]; [cbn in *; lia|]. cbn [shared_secrets] in Hsecrets.
      apply bind_Ok_inv in Hsecrets as (? & _ & Hr). apply bind_Ok_inv in Hr as (? & _ & Hr).
      apply bind_Ok_inv in Hr as (? & _ & Hr). apply bind_Ok_inv in Hr as ([? ?] & _ & Hr).
      by injection Hr as _ <-. }
    destruct (travel_layers pubkeys sessionKey eph nodes payloads secrets ephemeralKeys encoded
      (A ++ filler_of []) H) as (final & Ht & Hf); try done; [lia|].
    eexists _, final. split; [reflexivity|]. split; [exact Ht|done].
Qed.

(** C31: an onion built for a route whose payloads fit is delivered: every node of
    the route, one after the other, decodes the bytes it is sent, accepts the packet,
    reads the payload meant for it, shares with the sender the secret that the sender
    computed for it, and the last one sees that it is the last. *)
Theorem onion_peels sessionKey nodes pubkeys payloads secrets
    (Hroute : sendable sessionKey nodes pubkeys payloads secrets) :
  exists packet final,
    constructOnionPacket sessionKey (combine pubkeys payloads) associatedData = Ok packet /\
    travel (encodeOnionPacket packet) nodes = Some (combine payloads secrets, final) /\
    isFinalHop final = true.
Proof. by apply onion_delivered. Qed.

End Peeling.

(** ** Concrete inputs

    A toy library: a point is its scalar behind a prefix, the cipher repeats its key. *)

Definition toy_cipher (key nonce data : buffer) : buffer :=
  imap (fun i x => xor_byte x (default x00 (key !! (i mod 32)%nat))) data.

Definition toy_hmac (key data : buffer) : buffer := toy_sha (key ++ data).

#[local] Instance toy_curve : BitcoinLib :=
  {| sha256 := toy_sha; ripemd160 := toy_sha; script_compile := fun _ => []; number_encode := fun _ => [];
     p2wsh := fun b => b; p2wpkh := fun b => b; p2tr := fun b _ => b;
     ecc_pointFromScalar := fun a => if blen a =? 32 then Some (x02 :: a) else None;
     ecc_pointMultiply := fun P b =>
       match P with
       | _ :: a => match privateMultiply a b with Ok c => Some (x02 :: c) | Err _ => None end
       | [] => None
       end;
     ecc_pointAdd := fun _ _ => None |}.

#[local] Instance toy_onion : OnionLib := {| hmacSha256 := toy_hmac; chacha20 := toy_cipher |}.

Lemma toy_sha_length b : length (toy_sha b) = 32%nat.
Proof. unfold toy_sha, alloc. rewrite length_take, length_app, length_replicate. lia. Qed.

#[local] Instance toy_laws : OnionLaws (fun _ => true).
Proof.
  constructor.
  - intros key data. apply toy_sha_length.
  - intros key nonce data. apply length_imap.
  - intros key nonce a b. change (@chacha20 toy_onion) with toy_cipher. unfold toy_cipher.
    rewrite imap_app. f_equal. rewrite drop_app_length'; [done|]. by rewrite length_imap.
  - cbn. intros a P. destruct (Z.eqb_spec (blen a) 32); intros [= <-]. rewrite blen_cons. split; [lia|done].
  - cbn. intros a P b Q Ha. rewrite Ha. intros [= <-].
    destruct (privateMultiply a b) as [c|] eqn:E; intros [= <-]. exists c. split; [done|].
    unfold privateMultiply in E. inv_result. by rewrite be_length_32.
  - cbn. intros a P b Q. destruct (Z.eqb_spec (blen a) 32) as [Ha|]; intros [= <-].
    destruct (Z.eqb_spec (blen b) 32) as [Hb|]; intros [= <-].
    assert (privateMultiply a b = privateMultiply b a) as ->; [|done].
    unfold privateMultiply. rewrite Ha, Hb. cbn. by rewrite Z.mul_comm.
Qed.

Lemma toy_route : exists secrets,
  sendable (be 32 11) [be 32 5; be 32 7] [x02 :: be 32 5; x02 :: be 32 7] [forward_hop; final_hop] secrets.
Proof.
  destruct (computeSharedSecrets (be 32 11) [x02 :: be 32 5; x02 :: be 32 7]) as [[secrets ephs]|] eqn:E;
    [|vm_compute in E; discriminate E].
  exists secrets. constructor.
  - cbn. lia.
  - repeat constructor.
  - done.
  - constructor; [apply forward_hop_wf|]. constructor; [apply final_hop_wf|done].
  - eexists. split; [vm_compute; reflexivity|by vm_compute].
  - by exists ephs.
Qed.

Lemma onion_peels_witness :
  exists secrets packet final,
    constructOnionPacket (be 32 11) [(x02 :: be 32 5, forward_hop); (x02 :: be 32 7, final_hop)]
      (Some (be 32 1)) = Ok packet /\
    travel (ecc_isPoint := fun _ => true) (Some (be 32 1)) (encodeOnionPacket packet) [be 32 5; be 32 7] =
      Some (combine [forward_hop; final_hop] secrets, final) /\
    isFinalHop final = true.
Proof.
  destruct toy_route as [secrets Hroute]. exists secrets.
  exact (onion_peels (ecc_isPoint := fun _ => true) (Some (be 32 1)) _ _ _ _ _ Hroute).
Defined.

(** Two payloads that each fit but together do not: the packet is built all the same, but
    the filler overwrites the end of what is meant for the last hop, which reads another
    payload and takes itself for a forwarding hop. *)
Definition large_hop : IHopPayload :=
  {| hp_shortChannelId := None; hp_amountToForwardMsat := 1000;
     hp_outgoingCltvValue := Fin 144; hp_paymentSecret := None; hp_totalMsat := None;
     hp_encryptedRecipientData := None; hp_blindingPoint := None; hp_totalAmountMsat := None;
     hp_customRecords := Some [(KEYSEND_TLV_TYPE, alloc 1000)]; hp_omitForwardAmounts := None |}.

Definition large_route : list (buffer * IHopPayload) :=
  [(x02 :: be 32 5, large_hop); (x02 :: be 32 7, large_hop)].

Lemma oversized_onion_built :
  match constructOnionPacket (be 32 11) large_route None with
  | Err _ => False
  | Ok packet =>
      match travel (ecc_isPoint := fun _ => true) None (encodeOnionPacket packet) [be 32 5; be 32 7] with
      | None => False
      | Some (seen, final) => map fst seen <> [large_hop; large_hop] /\ isFinalHop final = false
      end
  end.
Proof. vm_compute. split; [discriminate|reflexivity]. Qed.
