(* ===== verification/OnionFailures.v ===== *)
(** * Failure messages (src/src/lightning/onion/failures.ts)

    The hop that fails an HTLC encrypts a failure for the sender; each hop on the way
    back wraps it once more.  [failure_attributed] is that the sender, peeling the
    layers, finds who failed the payment and why. *)

From S2P Require Import Prelude Buffer Codec CommitmentTx Scripts Sphinx Onion.
From Stdlib Require Import Strings.Byte.
Local Open Scope Z_scope.

(** ** Codes *)

Definition INVALID_ONION_BLINDING : Z := Z.lor (Z.lor 0x8000 0x4000) 24.
Definition AMOUNT_BELOW_MINIMUM : Z := Z.lor 0x1000 11.
Definition FEE_INSUFFICIENT : Z := Z.lor 0x1000 12.
Definition INCORRECT_CLTV_EXPIRY : Z := Z.lor 0x1000 13.
Definition EXPIRY_TOO_SOON : Z := Z.lor 0x1000 14.
Definition UNKNOWN_NEXT_PEER : Z := Z.lor 0x4000 10.
Definition TEMPORARY_CHANNEL_FAILURE : Z := Z.lor 0x1000 7.
Definition INCORRECT_OR_UNKNOWN_PAYMENT_DETAILS : Z := Z.lor 0x4000 15.
Definition FINAL_INCORRECT_CLTV_EXPIRY : Z := 17.
Definition FINAL_INCORRECT_HTLC_AMOUNT : Z := 18.
Definition MPP_TIMEOUT : Z := Z.lor 0x4000 23.
Definition TEMPORARY_NODE_FAILURE : Z := Z.lor 0x2000 2.
Definition EXPIRY_TOO_FAR : Z := 21.
Definition CHANNEL_DISABLED : Z := Z.lor 0x1000 20.
Definition PERMANENT_NODE_FAILURE : Z := Z.lor (Z.lor 0x4000 0x2000) 2.
Definition PERMANENT_CHANNEL_FAILURE : Z := Z.lor (Z.lor 0x4000 0x1000) 8.
Definition REQUIRED_CHANNEL_FEATURE_MISSING : Z := Z.lor 0x4000 9.
Definition REQUIRED_NODE_FEATURE_MISSING : Z := Z.lor (Z.lor 0x4000 0x2000) 3.

Record failure_kind := { fk_name : string; fk_hasChannelUpdate : bool }.

Definition kind (name : string) (update : bool) : failure_kind :=
  {| fk_name := name; fk_hasChannelUpdate := update |}.

(** The table of decodeFailureCode. *)
Definition failure_codes : list (Z * failure_kind) :=
  [(INVALID_ONION_VERSION, kind "invalid_onion_version" false);
   (INVALID_ONION_HMAC, kind "invalid_onion_hmac" false);
   (INVALID_ONION_KEY, kind "invalid_onion_key" false);
   (INVALID_ONION_PAYLOAD, kind "invalid_onion_payload" false);
   (AMOUNT_BELOW_MINIMUM, kind "amount_below_minimum" true);
   (FEE_INSUFFICIENT, kind "fee_insufficient" true);
   (INCORRECT_CLTV_EXPIRY, kind "incorrect_cltv_expiry" true);
   (EXPIRY_TOO_SOON, kind "expiry_too_soon" true);
   (UNKNOWN_NEXT_PEER, kind "unknown_next_peer" false);
   (REQUIRED_CHANNEL_FEATURE_MISSING, kind "required_channel_feature_missing" false);
   (TEMPORARY_CHANNEL_FAILURE, kind "temporary_channel_failure" true);
   (INCORRECT_OR_UNKNOWN_PAYMENT_DETAILS, kind "incorrect_or_unknown_payment_details" false);
   (FINAL_INCORRECT_CLTV_EXPIRY, kind "final_incorrect_cltv_expiry" false);
   (FINAL_INCORRECT_HTLC_AMOUNT, kind "final_incorrect_htlc_amount" false);
   (MPP_TIMEOUT, kind "mpp_timeout" false);
   (TEMPORARY_NODE_FAILURE, kind "temporary_node_failure" false);
   (EXPIRY_TOO_FAR, kind "expiry_too_far" false);
   (CHANNEL_DISABLED, kind "channel_disabled" true);
   (PERMANENT_NODE_FAILURE, kind "permanent_node_failure" false);
   (PERMANENT_CHANNEL_FAILURE, kind "permanent_channel_failure" false);
   (REQUIRED_NODE_FEATURE_MISSING, kind "required_node_feature_missing" false)].

(** An unknown code has a name made of its number, written here without it. *)
Definition decodeFailureCode (code : Z) : failure_kind :=
  match List.find (fun e => e.1 =? code) failure_codes with
  | Some e => e.2
  | None => kind "unknown" false
  end.

(** ** The failure packet *)

Record IOnionFailure := { of_failureCode : Z; of_failureData : buffer }.

Definition FAILURE_PAYLOAD_LENGTH : Z := 256.
Definition FAILURE_MESSAGE_LENGTH : Z := 292.

Definition encodeFailurePayload (failureCode : Z) (failureData : buffer) : result buffer :=
  let failureLen := 2 + blen failureData in
  _ ← throw_if (FAILURE_PAYLOAD_LENGTH <? failureLen) "Failure data too large";
  let padLen := FAILURE_PAYLOAD_LENGTH - failureLen in
  let payload := alloc (2 + FAILURE_PAYLOAD_LENGTH + 2) in
  payload ← writeUInt16BE payload failureLen 0;
  payload ← writeUInt16BE payload failureCode 2;
  let payload := copy failureData payload 4 in
  writeUInt16BE payload padLen (2 + failureLen).

(** [for i < n: out[i] = a[i] ^ b[i]] into a new buffer *)
Definition xor_to (n : Z) (a b : buffer) : buffer :=
  imap (fun i _ => byte_of_Z (Z.lxor (stream_at a (Z.of_nat i)) (stream_at b (Z.of_nat i)))) (alloc n).

Section Failures.
Context `{L : BitcoinLib} `{O : OnionLib}.

Definition createFailureMessage (sharedSecret : buffer) (failureCode : Z) (failureData : buffer)
    : result buffer :=
  let keys := deriveHopKeys sharedSecret in
  plaintext ← encodeFailurePayload failureCode failureData;
  let inner := hmacSha256 (um keys) plaintext ++ plaintext in
  let stream := generateCipherStream (ammag keys) FAILURE_MESSAGE_LENGTH in
  Ok (xor_to FAILURE_MESSAGE_LENGTH inner stream).

Definition wrapFailureMessage (sharedSecret message : buffer) : buffer :=
  let keys := deriveHopKeys sharedSecret in
  let stream := generateCipherStream (ammag keys) (blen message) in
  xor_to (blen message) message stream.

(** The failure read from the part after a valid hmac. *)
Definition read_failure (lenAndPad : buffer) : result IOnionFailure :=
  len ← (if 2 <=? blen lenAndPad then readUInt16BE lenAndPad 0 else Ok 0);
  if (len <? 2) || (blen lenAndPad <? 2 + len)
  then Ok {| of_failureCode := 0; of_failureData := [] |}
  else
    let payload := subarray lenAndPad 2 (2 + len) in
    failureCode ← readUInt16BE payload 0;
    Ok {| of_failureCode := failureCode; of_failureData := subarray_from payload 2 |}.

(** The loop, from hop [i] on. *)
Fixpoint decrypt_loop (i : Z) (sharedSecrets : list buffer) (current : buffer)
    : result (option (Z * IOnionFailure)) :=
  match sharedSecrets with
  | [] => Ok None
  | secret :: rest =>
      let keys := deriveHopKeys secret in
      let stream := generateCipherStream (ammag keys) (blen current) in
      let decrypted := xor_to (blen current) current stream in
      let hmac := subarray decrypted 0 32 in
      let lenAndPad := subarray_from decrypted 32 in
      if buf_equals hmac (hmacSha256 (um keys) lenAndPad)
      then failure ← read_failure lenAndPad; Ok (Some (i, failure))
      else decrypt_loop (i + 1) rest decrypted
  end.

Definition decryptFailureMessage (sharedSecrets : list buffer) (message : buffer)
    : result (option (Z * IOnionFailure)) :=
  decrypt_loop 0 sharedSecrets message.

(** ** The channel_update of a failure *)

(** The bytes before the length of the update. *)
Definition update_offset (failureCode : Z) : Z :=
  if (failureCode =? FEE_INSUFFICIENT) || (failureCode =? AMOUNT_BELOW_MINIMUM) then 8
  else if failureCode =? INCORRECT_CLTV_EXPIRY then 4
  else if failureCode =? CHANNEL_DISABLED then 2
  else 0.

Definition extractChannelUpdate (failureCode : Z) (failureData : buffer) : result (option buffer) :=
  if negb (fk_hasChannelUpdate (decodeFailureCode failureCode)) then Ok None
  else if blen failureData <? 4 then Ok None
  else
    let offset := update_offset failureCode in
    if blen failureData <? offset + 2 then Ok None
    else
      updateLen ← readUInt16BE failureData offset;
      let updateStart := offset + 2 in
      if (blen failureData <? updateStart + updateLen) || (updateLen <? 2) then Ok None
      else
        let updatePayload := subarray failureData updateStart (updateStart + updateLen) in
        prefixed ← (if 2 <=? blen updatePayload
                    then type ← readUInt16BE updatePayload 0; Ok (type =? 258)
                    else Ok false);
        Ok (Some (if prefixed : bool then subarray_from updatePayload 2 else updatePayload)).

(** ** Layers of a failure *)

Context {ecc_isPoint : buffer -> bool} {W : OnionLaws ecc_isPoint}.

Lemma xor_to_bytes n a b : blen a = n -> blen b = n -> xor_to n a b = xor_bytes a b.
Proof.
  intros <- Hb. unfold xor_to, xor_bytes, alloc, blen in *. rewrite Nat2Z.id. apply list_eq. intros i.
  rewrite list_lookup_imap, lookup_zip_with.
  destruct (decide (i < length a)%nat) as [Hi|Hi].
  - rewrite lookup_replicate_2 by done.
    destruct (lookup_lt_is_Some_2 a i Hi) as [x Ex].
    destruct (lookup_lt_is_Some_2 b i) as [y Ey]; [lia|]. rewrite Ex, Ey. cbn.
    unfold stream_at, byte_at, xor_byte. rewrite (proj2 (Z.ltb_ge _ _)) by lia. by rewrite Nat2Z.id, Ex, Ey.
  - rewrite (lookup_ge_None_2 (replicate _ _)) by (rewrite length_replicate; lia).
    by rewrite (lookup_ge_None_2 a) by lia.
Qed.

(** The stream that a hop combines a failure with. *)
Definition failure_stream (secret : buffer) (n : Z) : buffer :=
  generateCipherStream (ammag (deriveHopKeys secret)) n.

Lemma wrap_bytes secret m :
  wrapFailureMessage secret m = xor_bytes m (failure_stream secret (blen m)).
Proof. apply xor_to_bytes; [done|]. apply cipher_length, blen_nonneg. Qed.

Lemma wrap_blen secret m : blen (wrapFailureMessage secret m) = blen m.
Proof.
  rewrite wrap_bytes. apply blen_xor_bytes. unfold failure_stream.
  by rewrite cipher_length by apply blen_nonneg.
Qed.

(** Wrapping and unwrapping are the same operation. *)
Lemma wrap_twice secret m : wrapFailureMessage secret (wrapFailureMessage secret m) = m.
Proof.
  rewrite wrap_bytes, wrap_blen, wrap_bytes. apply xor_bytes_twice, length_of_blen.
  unfold failure_stream. by rewrite cipher_length by apply blen_nonneg.
Qed.

(** The plaintext of a failure. *)
Definition failure_bytes (code : Z) (data : buffer) : buffer :=
  let len := 2 + blen data in
  be 2 len ++ be 2 code ++ data ++ be 2 (FAILURE_PAYLOAD_LENGTH - len) ++ alloc (FAILURE_PAYLOAD_LENGTH - len).

Lemma encode_failure_bytes code data :
  0 <= code < 2 ^ 16 -> blen data <= 254 ->
  encodeFailurePayload code data = Ok (failure_bytes code data).
Proof.
  intros Hc Hd. pose proof (blen_nonneg data). unfold encodeFailurePayload, FAILURE_PAYLOAD_LENGTH.
  rewrite throw_pass by (apply Z.ltb_ge; lia). unfold writeUInt16BE.
  rewrite write_fill0 by lia. rewrite bind_Ok.
  rewrite write_fill, bind_Ok by (rewrite ?blen_be; lia).
  rewrite copy_fill by (rewrite ?blen_app, ?blen_be; lia).
  rewrite write_fill by (rewrite ?blen_app, ?blen_be; lia).
  f_equal. unfold failure_bytes, FAILURE_PAYLOAD_LENGTH. rewrite <- !app_assoc. do 5 f_equal. lia.
Qed.

Lemma failure_bytes_blen code data : blen data <= 254 -> blen (failure_bytes code data) = 260.
Proof.
  intros H. pose proof (blen_nonneg data). unfold failure_bytes, FAILURE_PAYLOAD_LENGTH.
  rewrite !blen_app, !blen_be, blen_alloc by lia. lia.
Qed.

Lemma read_failure_bytes code data :
  0 <= code < 2 ^ 16 -> blen data <= 254 ->
  read_failure (failure_bytes code data) = Ok {| of_failureCode := code; of_failureData := data |}.
Proof.
  intros Hc Hd. pose proof (blen_nonneg data). unfold read_failure.
  rewrite failure_bytes_blen by done. cbn [Z.leb Z.compare Pos.compare Pos.compare_cont].
  unfold readUInt16BE.
  assert (readUIntBE 2 (failure_bytes code data) 0 = Ok (2 + blen data)) as ->
    by (apply (readUIntBE_hd 2); lia).
  rewrite bind_Ok.
  rewrite (proj2 (orb_false_iff _ _)) by (split; apply Z.ltb_ge; lia).
  assert (subarray (failure_bytes code data) 2 (2 + (2 + blen data)) = be 2 code ++ data) as ->.
  { unfold failure_bytes. rewrite subarray_skip by (rewrite blen_be; lia). rewrite (app_assoc (be 2 code)).
    apply subarray_hd; rewrite ?blen_app, !blen_be; lia. }
  rewrite (readUIntBE_hd 2), bind_Ok by lia. by rewrite subarray_from_hd.
Qed.

(** The packet before encryption. *)
Definition failure_inner (secret : buffer) (code : Z) (data : buffer) : buffer :=
  hmacSha256 (um (deriveHopKeys secret)) (failure_bytes code data) ++ failure_bytes code data.

Lemma create_wraps secret code data :
  0 <= code < 2 ^ 16 -> blen data <= 254 ->
  createFailureMessage secret code data = Ok (wrapFailureMessage secret (failure_inner secret code data)) /\
  blen (failure_inner secret code data) = FAILURE_MESSAGE_LENGTH.
Proof.
  intros Hc Hd. unfold createFailureMessage. rewrite encode_failure_bytes, bind_Ok by done.
  fold (failure_inner secret code data).
  assert (blen (failure_inner secret code data) = FAILURE_MESSAGE_LENGTH) as Hl.
  { unfold failure_inner. rewrite blen_app, failure_bytes_blen by done. unfold blen. by rewrite hmac_length. }
  split; [|done]. unfold wrapFailureMessage. by rewrite Hl.
Qed.

(** The failure on its way back through the hops nearer to the sender. *)
Definition relay_back (hops : list buffer) (message : buffer) : buffer :=
  fold_right wrapFailureMessage message hops.

Lemma relay_blen hops m : blen (relay_back hops m) = blen m.
Proof. induction hops as [|h hops IH]; [done|]. cbn. by rewrite wrap_blen. Qed.

(** A message that a hop passes on carries, unencrypted, a hmac under that hop's own key. *)
Definition accidental_hmac (secret message : buffer) : Prop :=
  subarray message 0 32 = hmacSha256 (um (deriveHopKeys secret)) (subarray_from message 32).

#[local] Instance accidental_dec secret message : Decision (accidental_hmac secret message).
Proof. unfold accidental_hmac. apply _. Defined.

Lemma read_failure_total m : exists f, read_failure m = Ok f.
Proof.
  unfold read_failure, readUInt16BE. destruct (Z.leb_spec 2 (blen m)) as [Hm|Hm].
  - rewrite readUIntBE_ok, bind_Ok by lia.
    set (len := unbe _). destruct ((len <? 2) || (blen m <? 2 + len)) eqn:E; [eauto|].
    apply orb_false_iff in E as [E1 E2]. apply Z.ltb_ge in E1, E2.
    rewrite readUIntBE_ok, bind_Ok; [eauto|]. rewrite blen_subarray; lia.
  - rewrite bind_Ok. cbn. eauto.
Qed.

Lemma decrypt_step i secret rest m :
  decrypt_loop i (secret :: rest) (wrapFailureMessage secret m) =
  if bool_decide (accidental_hmac secret m)
  then failure ← read_failure (subarray_from m 32); Ok (Some (i, failure))
  else decrypt_loop (i + 1) rest m.
Proof.
  cbn [decrypt_loop].
  change (xor_to (blen ?w) ?w (generateCipherStream (ammag (deriveHopKeys secret)) (blen ?w)))
    with (wrapFailureMessage secret w).
  by rewrite wrap_twice.
Qed.

(** Whatever the hops before do, the search ends at the origin or before it. *)
Lemma decrypt_route i hops secret rest code data :
  0 <= code < 2 ^ 16 -> blen data <= 254 ->
  exists j failure,
    decrypt_loop i (hops ++ secret :: rest)
      (relay_back hops (wrapFailureMessage secret (failure_inner secret code data))) =
      Ok (Some (i + Z.of_nat j, failure)) /\
    (j <= length hops)%nat /\
    (j = length hops -> failure = {| of_failureCode := code; of_failureData := data |}) /\
    (forall h, hops !! j = Some h ->
       accidental_hmac h (relay_back (drop (S j) hops)
         (wrapFailureMessage secret (failure_inner secret code data)))).
Proof.
  intros Hc Hd. revert i. induction hops as [|h hops IH]; intros i.
  - exists 0%nat, {| of_failureCode := code; of_failureData := data |}. cbn [app relay_back fold_right].
    rewrite decrypt_step, bool_decide_true.
    + unfold failure_inner. rewrite subarray_from_hd by (unfold blen; by rewrite hmac_length).
      rewrite read_failure_bytes, bind_Ok by done. split_and!; [do 3 f_equal; lia|done..].
    + unfold accidental_hmac, failure_inner.
      rewrite subarray_hd, subarray_from_hd by (unfold blen; by rewrite ?hmac_length). done.
  - cbn [app relay_back fold_right]. fold (relay_back hops (wrapFailureMessage secret (failure_inner secret code data))).
    rewrite decrypt_step. case_bool_decide as Ha.
    + destruct (read_failure_total (subarray_from (relay_back hops
        (wrapFailureMessage secret (failure_inner secret code data))) 32)) as [f Hf].
      exists 0%nat, f. rewrite Hf, bind_Ok. split_and!; [do 3 f_equal; lia|cbn; lia|done|].
      intros h' [= <-]. cbn [drop]. by rewrite drop_0.
    + destruct (IH (i + 1)) as (j & f & Hl & Hj & Ho & Hh). exists (S j), f.
      rewrite Hl. split_and!; [do 3 f_equal; lia|cbn; lia|cbn; intros [= ->]; auto|done].
Qed.

End Failures.

Section Attribution.
Context `{L : BitcoinLib} `{O : OnionLib} {ecc_isPoint : buffer -> bool} {W : OnionLaws ecc_isPoint}.

(** C33: a failure that the hop after [hops] creates, with a 16-bit code
    and at most 254 bytes of data, and that [hops] wrap on the way back, is always
    attributed to a hop of the route no further than its origin; it is attributed to the
    origin, with its code and data, unless what some earlier hop passed on happens to
    carry a valid hmac under that hop's own key. *)
Theorem failure_attributed (hops rest : list buffer) (origin : buffer) (code : Z) (data : buffer)
    (Hcode : 0 <= code < 2 ^ 16) (Hdata : blen data <= 254) :
  exists created j failure,
    createFailureMessage origin code data = Ok created /\
    blen created = FAILURE_MESSAGE_LENGTH /\
    decryptFailureMessage (hops ++ origin :: rest) (relay_back hops created) = Ok (Some (Z.of_nat j, failure)) /\
    (j <= length hops)%nat /\
    (j = length hops /\ failure = {| of_failureCode := code; of_failureData := data |} \/
     exists h, hops !! j = Some h /\ accidental_hmac h (relay_back (drop (S j) hops) created)).
Proof.
  destruct (create_wraps origin code data Hcode Hdata) as [Hcr Hl].
  destruct (decrypt_route 0 hops origin rest code data Hcode Hdata) as (j & f & Hd & Hj & Ho & Hh).
  eexists _, j, f. split; [exact Hcr|]. split; [by rewrite wrap_blen|]. split; [exact Hd|]. split; [done|].
  destruct (decide (j = length hops)) as [E|E]; [left; by auto|right].
  destruct (lookup_lt_is_Some_2 hops j) as [h Eh]; [lia|]. exists h. by auto.
Qed.

(** A failure that carries a channel_update yields exactly the
    update, whether or not the sender put the message type in front of it. *)
Theorem channel_update_extracted (code : Z) (fields update rest : buffer) (typed : bool)
    (Hcode : fk_hasChannelUpdate (decodeFailureCode code) = true)
    (Hfields : blen fields = update_offset code)
    (Hupdate : 2 <= blen update < 2 ^ 16 - 2) (Htype : unbe (subarray update 0 2) <> 258) :
  let body := (if typed then be 2 258 else []) ++ update in
  extractChannelUpdate code (fields ++ be 2 (blen body) ++ body ++ rest) = Ok (Some update).
Proof.
  intros body. assert (blen body = (if typed then 2 else 0) + blen update) as Hb.
  { unfold body. rewrite blen_app. destruct typed; [by rewrite blen_be|done]. }
  assert (2 <= blen body < 2 ^ 16) as Hr by (destruct typed; lia).
  pose proof (blen_nonneg rest). unfold extractChannelUpdate. rewrite Hcode. cbn [negb].
  assert (0 <= update_offset code) as Ho by (rewrite <- Hfields; apply blen_nonneg).
  rewrite !blen_app, blen_be, Hfields.
  rewrite !(proj2 (Z.ltb_ge _ _)) by lia. unfold readUInt16BE.
  rewrite readUIntBE_skip, (readUIntBE_hd 2), bind_Ok by lia.
  rewrite (proj2 (orb_false_iff _ _)) by (split; apply Z.ltb_ge; lia).
  rewrite subarray_skip, subarray_skip by (rewrite ?blen_be; lia). rewrite Hfields, blen_be.
  rewrite subarray_hd by lia. rewrite (proj2 (Z.leb_le _ _)) by lia.
  unfold body. destruct typed.
  - rewrite (readUIntBE_hd 2), bind_Ok by lia. rewrite bind_Ok. cbn [Z.eqb]. by rewrite subarray_from_hd.
  - cbn [app]. rewrite readUIntBE_ok, bind_Ok by lia. rewrite bind_Ok.
    rewrite (proj2 (Z.eqb_neq _ _)) by done. done.
Qed.

End Attribution.

(** ** Concrete inputs *)

#[local] Existing Instances toy_curve toy_onion toy_laws.

Lemma failure_attributed_witness :
  exists created, createFailureMessage (be 32 7) TEMPORARY_CHANNEL_FAILURE [x01; x02] = Ok created /\
    decryptFailureMessage [be 32 5; be 32 6; be 32 7; be 32 8] (relay_back [be 32 5; be 32 6] created) =
      Ok (Some (2, {| of_failureCode := TEMPORARY_CHANNEL_FAILURE; of_failureData := [x01; x02] |})).
Proof.
  destruct (failure_attributed [be 32 5; be 32 6] [be 32 8] (be 32 7) TEMPORARY_CHANNEL_FAILURE [x01; x02])
    as (created & j & f & Hc & _ & Hd & Hj & [[-> ->]|(h & Hh & Ha)]); [by vm_compute|done|by exists created|].
  exfalso. vm_compute in Hc. injection Hc as <-. destruct j as [|[|j]]; [| |done].
  - injection Hh as <-. vm_compute in Ha. discriminate Ha.
  - injection Hh as <-. vm_compute in Ha. discriminate Ha.
Defined.

Lemma channel_update_extracted_witness :
  extractChannelUpdate FEE_INSUFFICIENT (be 8 1000 ++ be 2 6 ++ (be 2 258 ++ be 4 9) ++ [x07]) =
    Ok (Some (be 4 9)) /\
  extractChannelUpdate FEE_INSUFFICIENT (be 8 1000 ++ be 2 4 ++ be 4 9) = Ok (Some (be 4 9)).
Proof.
  split.
  - apply (channel_update_extracted FEE_INSUFFICIENT (be 8 1000) (be 4 9) [x07] true);
      [done|done|by vm_compute|by vm_compute].
  - rewrite <- (app_nil_r (be 4 9)) at 1.
    apply (channel_update_extracted FEE_INSUFFICIENT (be 8 1000) (be 4 9) [] false);
      [done|done|by vm_compute|by vm_compute].
Defined.
