(* ===== verification/Blinding.v ===== *)
(** * Route blinding: keys and encryption (src/src/lightning/onion/blinding.ts and
    src/src/lightning/crypto/chacha20poly1305.ts)

    The creator of a blinded path derives a chain of keys; each node of the path finds
    its own link from the key it is given.  The authenticated cipher is a library
    function ([AeadLib]) that decrypts what it encrypted ([AeadLaws]). *)

From S2P Require Import Prelude Buffer CommitmentTx Scripts Sphinx.
From Stdlib Require Import Strings.Byte.
From Stdlib Require Strings.String.
Local Open Scope Z_scope.

Class AeadLib := {
  chacha20Poly1305Encrypt : buffer -> buffer -> buffer -> buffer -> buffer;
  chacha20Poly1305Decrypt : buffer -> buffer -> buffer -> buffer -> result buffer
}.

Class AeadLaws `{A : AeadLib} := {
  aead_opens key nonce plaintext aad :
    chacha20Poly1305Decrypt key nonce (chacha20Poly1305Encrypt key nonce plaintext aad) aad = Ok plaintext;
  aead_tag key nonce plaintext aad :
    blen (chacha20Poly1305Encrypt key nonce plaintext aad) = blen plaintext + 16
}.

Section Blinding.
Context `{L : BitcoinLib} `{O : OnionLib} `{A : AeadLib}.

Definition encrypt (key nonce plaintext aad : buffer) : result buffer :=
  _ ← throw_if (negb (blen key =? 32)) "Key must be 32 bytes";
  _ ← throw_if (negb (blen nonce =? 12)) "Nonce must be 12 bytes";
  Ok (chacha20Poly1305Encrypt key nonce plaintext aad).

Definition decrypt (key nonce ciphertextWithTag aad : buffer) : result buffer :=
  _ ← throw_if (negb (blen key =? 32)) "Key must be 32 bytes";
  _ ← throw_if (negb (blen nonce =? 12)) "Nonce must be 12 bytes";
  _ ← throw_if (blen ciphertextWithTag <? 16) "Ciphertext too short to contain authentication tag";
  chacha20Poly1305Decrypt key nonce ciphertextWithTag aad.

Definition deriveBlindingSharedSecret (blindingKey nodePrivkey : buffer) : result buffer :=
  ecdh nodePrivkey blindingKey.

Definition deriveBlindingFactor (blindingKey sharedSecret : buffer) : buffer :=
  sha256 (blindingKey ++ sharedSecret).

Definition deriveNextBlindingKey (blindingKey sharedSecret : buffer) : result buffer :=
  let factor := deriveBlindingFactor blindingKey sharedSecret in
  pointMultiply blindingKey factor.

Definition deriveBlindedNodeIdTweak (sharedSecret : buffer) : buffer :=
  hmacSha256 (String.list_byte_of_string "blinded_node_id") sharedSecret.

Definition computeBlindedNodeId (nodePubkey sharedSecret : buffer) : result buffer :=
  pointMultiply nodePubkey (deriveBlindedNodeIdTweak sharedSecret).

Definition deriveBlindingEncryptionKey (sharedSecret : buffer) : buffer :=
  hmacSha256 (String.list_byte_of_string "rho") sharedSecret.

Definition encryptBlindedData (encryptionKey plaintext : buffer) : result buffer :=
  encrypt encryptionKey (alloc 12) plaintext [].

Definition decryptBlindedData (encryptionKey ciphertext : buffer) : result buffer :=
  decrypt encryptionKey (alloc 12) ciphertext [].

(** The loop of deriveBlindingKeyChain; the lists come out in order. *)
Fixpoint blinding_chain (currentBlindingKey currentBlindingPrivkey : buffer) (nodePubkeys : list buffer)
    : result (list buffer * list buffer) :=
  match nodePubkeys with
  | [] => Ok ([], [])
  | pubkey :: rest =>
      ss ← ecdh currentBlindingPrivkey pubkey;
      let factor := deriveBlindingFactor currentBlindingKey ss in
      nextKey ← pointMultiply currentBlindingKey factor;
      nextPrivkey ← privateMultiply currentBlindingPrivkey factor;
      '(blindingKeys, sharedSecrets) ← blinding_chain nextKey nextPrivkey rest;
      Ok (currentBlindingKey :: blindingKeys, ss :: sharedSecrets)
  end.

Definition deriveBlindingKeyChain (blindingSecret : buffer) (nodePubkeys : list buffer)
    : result (list buffer * list buffer) :=
  currentBlindingKey ← getPublicKey blindingSecret;
  blinding_chain currentBlindingKey blindingSecret nodePubkeys.

(** ** What the nodes find *)

Context {ecc_isPoint : buffer -> bool} {W : OnionLaws ecc_isPoint} {AW : AeadLaws}.

(** The secret a node derives from the key it is given is the creator's. *)
Fixpoint chain_found (nodes blindingKeys sharedSecrets : list buffer) : Prop :=
  match nodes, blindingKeys, sharedSecrets with
  | [], [], [] => True
  | node :: nodes, key :: keys, ss :: secrets =>
      deriveBlindingSharedSecret key node = Ok ss /\
      match keys with
      | [] => exists next, deriveNextBlindingKey key ss = Ok next
      | next :: _ => deriveNextBlindingKey key ss = Ok next
      end /\ chain_found nodes keys secrets
  | _, _, _ => False
  end.

Lemma chain_found_by_nodes nodes : forall pubkeys key priv keys secrets,
  Forall2 (fun node pub => getPublicKey node = Ok pub) nodes pubkeys ->
  getPublicKey priv = Ok key -> blinding_chain key priv pubkeys = Ok (keys, secrets) ->
  chain_found nodes keys secrets /\ match keys with [] => nodes = [] | k :: _ => k = key end.
Proof.
  induction nodes as [|node nodes IH]; intros pubkeys key priv keys secrets Hn Hk Hc;
    inversion Hn as [|? pub ? pubs Hnode Hrest]; subst; cbn [blinding_chain] in Hc.
  { injection Hc as <- <-. done. }
  apply bind_Ok_inv in Hc as (ss & Hss & Hc). apply bind_Ok_inv in Hc as (next & Hnext & Hc).
  apply bind_Ok_inv in Hc as (priv' & Hpriv & Hc). apply bind_Ok_inv in Hc as ([keys' secrets'] & Hr & Hc).
  injection Hc as <- <-.
  destruct (IH _ _ _ _ _ Hrest (blind_step _ _ _ _ _ Hk Hnext Hpriv) Hr) as [Hf Hhd].
  split; [|done]. cbn [chain_found]. split_and!.
  - unfold deriveBlindingSharedSecret. by rewrite (ecdh_symmetric _ _ _ _ Hnode Hk).
  - destruct keys' as [|k ks]; [by exists next|by subst].
  - done.
Qed.

Lemma hmac_blen key data : blen (hmacSha256 key data) = 32.
Proof. unfold blen. by rewrite hmac_length. Qed.

(** What is encrypted for a node is read by it. *)
Lemma blinded_data_opens ss plaintext :
  exists b, encryptBlindedData (deriveBlindingEncryptionKey ss) plaintext = Ok b /\
    decryptBlindedData (deriveBlindingEncryptionKey ss) b = Ok plaintext /\ blen b = blen plaintext + 16.
Proof.
  unfold encryptBlindedData, decryptBlindedData, encrypt, decrypt, deriveBlindingEncryptionKey.
  rewrite hmac_blen. cbn [Z.eqb Pos.eqb negb]. eexists. split; [reflexivity|].
  pose proof (blen_nonneg plaintext). rewrite aead_tag. split; [|done].
  rewrite !throw_pass by (done || apply Z.ltb_ge; lia). apply aead_opens.
Qed.

End Blinding.
