(* ===== verification/BlindedPath.v ===== *)
(** * Blinded paths (src/src/lightning/onion/blinded-path.ts)

    A recipient hides the end of a route behind a chain of blinded nodes, each with data
    only it can read.  The file holds the data of a hop, the construction and the
    processing of a path, and its serialisation in offers and invoices. *)

From S2P Require Import Prelude Buffer Codec Tlv Wire CommitmentTx Scripts Sphinx HopPayload Onion Blinding.
From Stdlib Require Import Strings.Byte.
Local Open Scope Z_scope.

Record IBlindedHop := { blindedNodeId : buffer; encryptedData : buffer }.

Record IBlindedPath := {
  introductionNodeId : buffer;
  blindingPoint : buffer;
  blindedHops : list IBlindedHop
}.

Record payment_relay := {
  pr_cltvExpiryDelta : Z;
  pr_feeProportionalMillionths : Z;
  pr_feeBaseMsat : number
}.

Record payment_constraints := { pc_maxCltvExpiry : Z; pc_htlcMinimumMsat : Z }.

Record IBlindedHopData := {
  bd_padding : option buffer;
  bd_shortChannelId : option buffer;
  bd_nextNodeId : option buffer;
  bd_pathId : option buffer;
  bd_nextPathKeyOverride : option buffer;
  bd_paymentRelay : option payment_relay;
  bd_paymentConstraints : option payment_constraints;
  bd_holdHtlc : option bool;
  bd_holdRegistrationId : option buffer
}.

Definition ERD_PADDING : Z := 1.
Definition ERD_SHORT_CHANNEL_ID : Z := 2.
Definition ERD_NEXT_NODE_ID : Z := 4.
Definition ERD_PATH_ID : Z := 6.
Definition ERD_NEXT_PATH_KEY_OVERRIDE : Z := 8.
Definition ERD_PAYMENT_RELAY : Z := 10.
Definition ERD_PAYMENT_CONSTRAINTS : Z := 12.
Definition ERD_HOLD_HTLC : Z := 65537.

(** ** The data of a hop *)

(** encodeTruncatedUint of this file, which refuses what that of hop-payload.ts
    encodes as nothing. *)
Definition encode_tu (value : Z) : result buffer :=
  _ ← throw_if (value <? 0) "truncated uint must be non-negative";
  if value =? 0 then Ok [] else Ok (be (Z.to_nat (Z.log2 value / 8 + 1)) value).

Definition relay_value (relay : payment_relay) : result buffer :=
  let head := alloc 6 in
  head ← writeUInt16BE head (pr_cltvExpiryDelta relay) 0;
  head ← writeUInt32BE head (pr_feeProportionalMillionths relay) 2;
  base ← to_bigint (pr_feeBaseMsat relay);
  fee ← encode_tu base;
  Ok (head ++ fee).

Definition constraints_value (c : payment_constraints) : result buffer :=
  let head := alloc 4 in
  head ← writeUInt32BE head (pc_maxCltvExpiry c) 0;
  minimum ← encode_tu (pc_htlcMinimumMsat c);
  Ok (head ++ minimum).

Definition hold_value (data : IBlindedHopData) : result (option buffer) :=
  if default false (bd_holdHtlc data) then
    match bd_holdRegistrationId data with
    | Some id =>
        _ ← throw_if (negb (blen id =? 32)) "hold registration id must be 32 bytes";
        Ok (Some id)
    | None => Ok (Some [])
    end
  else Ok None.

(** [if (field) records.push(...)] where the value has to be computed *)
Definition opt_value {X} (f : X -> result buffer) (x : option X) : result (option buffer) :=
  match x with Some x => b ← f x; Ok (Some b) | None => Ok None end.

Definition erd_records (data : IBlindedHopData) : result (list ITlvRecord) :=
  relay ← opt_value relay_value (bd_paymentRelay data);
  constraints ← opt_value constraints_value (bd_paymentConstraints data);
  hold ← hold_value data;
  Ok (opt_record ERD_PADDING (bd_padding data) ++
      opt_record ERD_SHORT_CHANNEL_ID (bd_shortChannelId data) ++
      opt_record ERD_NEXT_NODE_ID (bd_nextNodeId data) ++
      opt_record ERD_PATH_ID (bd_pathId data) ++
      opt_record ERD_NEXT_PATH_KEY_OVERRIDE (bd_nextPathKeyOverride data) ++
      opt_record ERD_PAYMENT_RELAY relay ++
      opt_record ERD_PAYMENT_CONSTRAINTS constraints ++
      opt_record ERD_HOLD_HTLC hold).

Definition encodeBlindedHopData (data : IBlindedHopData) : result buffer :=
  records ← erd_records data; encodeTlvStream records.

Definition no_hop_data : IBlindedHopData :=
  {| bd_padding := None; bd_shortChannelId := None; bd_nextNodeId := None; bd_pathId := None;
     bd_nextPathKeyOverride := None; bd_paymentRelay := None; bd_paymentConstraints := None;
     bd_holdHtlc := None; bd_holdRegistrationId := None |}.

Definition read_relay (value : buffer) : result payment_relay :=
  delta ← readUInt16BE value 0;
  proportional ← readUInt32BE value 2;
  Ok {| pr_cltvExpiryDelta := delta; pr_feeProportionalMillionths := proportional;
        pr_feeBaseMsat := to_number (decodeTruncatedUint (subarray_from value 6)) |}.

Definition read_constraints (value : buffer) : result payment_constraints :=
  maxCltv ← readUInt32BE value 0;
  Ok {| pc_maxCltvExpiry := maxCltv; pc_htlcMinimumMsat := decodeTruncatedUint (subarray_from value 4) |}.

(** One record of the stream. *)
Definition take_erd (d : IBlindedHopData) (r : ITlvRecord) : result IBlindedHopData :=
  let 'Build_IBlindedHopData padding scid next path override relay constraints hold registration := d in
  let v := tlv_value r in
  let t := tlv_type r in
  if t =? ERD_PADDING then
    Ok (Build_IBlindedHopData (Some v) scid next path override relay constraints hold registration)
  else if t =? ERD_SHORT_CHANNEL_ID then
    Ok (Build_IBlindedHopData padding (Some v) next path override relay constraints hold registration)
  else if t =? ERD_NEXT_NODE_ID then
    Ok (Build_IBlindedHopData padding scid (Some v) path override relay constraints hold registration)
  else if t =? ERD_PATH_ID then
    Ok (Build_IBlindedHopData padding scid next (Some v) override relay constraints hold registration)
  else if t =? ERD_NEXT_PATH_KEY_OVERRIDE then
    Ok (Build_IBlindedHopData padding scid next path (Some v) relay constraints hold registration)
  else if t =? ERD_PAYMENT_RELAY then
    relay ← read_relay v;
    Ok (Build_IBlindedHopData padding scid next path override (Some relay) constraints hold registration)
  else if t =? ERD_PAYMENT_CONSTRAINTS then
    constraints ← read_constraints v;
    Ok (Build_IBlindedHopData padding scid next path override relay (Some constraints) hold registration)
  else if t =? ERD_HOLD_HTLC then
    Ok (Build_IBlindedHopData padding scid next path override relay constraints (Some true)
          (if blen v =? 32 then Some v else registration))
  else Ok d.

Definition decodeBlindedHopData (buf : buffer) : result IBlindedHopData :=
  if blen buf =? 0 then Ok no_hop_data
  else
    stream ← decodeTlvStream buf 0 None;
    foldM take_erd no_hop_data (records stream).

(** ** Construction and processing *)

Section Paths.
Context `{L : BitcoinLib} `{O : OnionLib} `{A : AeadLib} (ecc_isPoint : buffer -> bool).

Definition with_padding (d : IBlindedHopData) (n : Z) : IBlindedHopData :=
  let 'Build_IBlindedHopData _ scid next path override relay constraints hold registration := d in
  Build_IBlindedHopData (Some (alloc n)) scid next path override relay constraints hold registration.

Definition max_len (plaintexts : list buffer) : Z := fold_right Z.max 0 (map blen plaintexts).

(** One round of the loop of constructBlindedPath. *)
Definition blind_hop (hop : buffer * buffer * buffer) : result IBlindedHop :=
  let '(pubkey, ss, plaintext) := hop in
  nodeId ← computeBlindedNodeId pubkey ss;
  let encKey := deriveBlindingEncryptionKey ss in
  encrypted ← encryptBlindedData encKey plaintext;
  Ok {| blindedNodeId := nodeId; encryptedData := encrypted |}.

Definition constructBlindedPath (blindingSecret : buffer) (nodePubkeys : list buffer)
    (hopDataList : list IBlindedHopData) : result IBlindedPath :=
  _ ← throw_if (Z.of_nat (length nodePubkeys) =? 0) "Path must have at least one node";
  _ ← throw_if (negb (Z.of_nat (length nodePubkeys) =? Z.of_nat (length hopDataList)))
        "Must have same number of nodes and hop data";
  '(blindingKeys, sharedSecrets) ← deriveBlindingKeyChain blindingSecret nodePubkeys;
  basePlaintexts ← mapM encodeBlindedHopData hopDataList;
  let maxLen := max_len basePlaintexts in
  paddedPlaintexts ←
    mapM (fun d => encodeBlindedHopData (with_padding d.1 (maxLen - blen d.2)))
      (combine hopDataList basePlaintexts);
  hops ← mapM blind_hop (combine (combine nodePubkeys sharedSecrets) paddedPlaintexts);
  Ok {| introductionNodeId := List.hd [] nodePubkeys; blindingPoint := List.hd [] blindingKeys;
        blindedHops := hops |}.

Definition processBlindedHop (blindingKey nodePrivkey encrypted : buffer)
    : result (IBlindedHopData * buffer) :=
  sharedSecret ← deriveBlindingSharedSecret blindingKey nodePrivkey;
  let encKey := deriveBlindingEncryptionKey sharedSecret in
  plaintext ← decryptBlindedData encKey encrypted;
  hopData ← decodeBlindedHopData plaintext;
  nextBlindingKey ←
    match bd_nextPathKeyOverride hopData with
    | Some key => Ok key
    | None => deriveNextBlindingKey blindingKey sharedSecret
    end;
  Ok (hopData, nextBlindingKey).

Definition deriveBlindedPrivkey (blindingKey nodePrivkey : buffer) : result buffer :=
  sharedSecret ← deriveBlindingSharedSecret blindingKey nodePrivkey;
  let tweak := deriveBlindedNodeIdTweak sharedSecret in
  privateMultiply nodePrivkey tweak.

(** ** Serialisation *)

Record IBlindedPayInfo := {
  bp_feeBaseMsat : Z;
  bp_feeProportionalMillionths : Z;
  bp_cltvExpiryDelta : Z;
  bp_htlcMinimumMsat : Z;
  bp_htlcMaximumMsat : Z;
  bp_features : option buffer
}.

(** A sciddir_or_pubkey. *)
Definition valid_first (first : buffer) : bool :=
  (blen first =? 33) && ((byte_at first 0 =? 2) || (byte_at first 0 =? 3)) ||
  (blen first =? 9) && ((byte_at first 0 =? 0) || (byte_at first 0 =? 1)).

Definition hop_part (hop : IBlindedHop) : result buffer :=
  lenBuf ← writeUInt16BE (alloc 2) (blen (encryptedData hop)) 0;
  Ok (blindedNodeId hop ++ lenBuf ++ encryptedData hop).

Definition encodeBlindedPath (path : IBlindedPath) : result buffer :=
  _ ← throw_if (negb (valid_first (introductionNodeId path)))
        "blinded_path first_node_id is not a valid sciddir_or_pubkey";
  let numHops := set_byte (alloc 1) 0 (Z.of_nat (length (blindedHops path))) in
  hops ← mapM hop_part (blindedHops path);
  Ok (introductionNodeId path ++ blindingPoint path ++ numHops ++ concat hops).

(** The loop over the hops. *)
Fixpoint decode_hops (n : nat) (buf : buffer) (offset : Z) : result (list IBlindedHop * Z) :=
  match n with
  | 0%nat => Ok ([], offset)
  | S n =>
      _ ← throw_if (blen buf <? offset + 33 + 2) "blinded_path truncated at hop";
      let nodeId := subarray buf offset (offset + 33) in
      _ ← throw_if (negb (isValidPublicKey ecc_isPoint nodeId))
            "blinded_path blinded_node_id is not a valid point";
      encLen ← readUInt16BE buf (offset + 33);
      let offset := offset + 35 in
      _ ← throw_if (blen buf <? offset + encLen) "blinded_path truncated at hop encrypted data";
      let data := subarray buf offset (offset + encLen) in
      '(hops, offset) ← decode_hops n buf (offset + encLen);
      Ok ({| blindedNodeId := nodeId; encryptedData := data |} :: hops, offset)
  end.

Definition first_length (disc : option byte) : result Z :=
  match Z_of_byte <$> disc with
  | Some 2 | Some 3 => Ok 33
  | Some 0 | Some 1 => Ok 9
  | _ => Err "blinded_path first_node_id has invalid sciddir_or_pubkey discriminator"
  end.

Definition decodeBlindedPath (buf : buffer) (offset : Z) : result (IBlindedPath * Z) :=
  firstLen ← first_length (buf !! Z.to_nat offset);
  _ ← throw_if (blen buf <? offset + firstLen + 33 + 1) "blinded_path truncated";
  let first := subarray buf offset (offset + firstLen) in
  _ ← throw_if ((firstLen =? 33) && negb (isValidPublicKey ecc_isPoint first))
        "blinded_path first_node_id is not a valid point";
  let offset := offset + firstLen in
  let point := subarray buf offset (offset + 33) in
  _ ← throw_if (negb (isValidPublicKey ecc_isPoint point)) "blinded_path path_key is not a valid point";
  let offset := offset + 33 in
  let numHops := byte_at buf offset in
  let offset := offset + 1 in
  _ ← throw_if (numHops =? 0) "blinded_path has zero hops";
  '(hops, offset) ← decode_hops (Z.to_nat numHops) buf offset;
  Ok ({| introductionNodeId := first; blindingPoint := point; blindedHops := hops |}, offset).

Definition encodeBlindedPaths (paths : list IBlindedPath) : result buffer :=
  parts ← mapM encodeBlindedPath paths; Ok (concat parts).

(** [while (offset < buf.length)]; a round consumes at least 43 bytes. *)
Fixpoint decode_until {X} (decode : Z -> result (X * Z)) (fuel : nat) (size offset : Z) : result (list X) :=
  if offset <? size then
    match fuel with
    | 0%nat => Err "out of fuel"
    | S fuel =>
        '(x, offset) ← decode offset;
        xs ← decode_until decode fuel size offset;
        Ok (x :: xs)
    end
  else Ok [].

Definition decodeBlindedPaths (buf : buffer) : result (list IBlindedPath) :=
  decode_until (decodeBlindedPath buf) (length buf) (blen buf) 0.

Definition encodeBlindedPayInfo (info : IBlindedPayInfo) : result buffer :=
  let features := default [] (bp_features info) in
  let buf := alloc (28 + blen features) in
  buf ← writeUInt32BE buf (bp_feeBaseMsat info) 0;
  buf ← writeUInt32BE buf (bp_feeProportionalMillionths info) 4;
  buf ← writeUInt16BE buf (bp_cltvExpiryDelta info) 8;
  buf ← writeBigUInt64BE buf (bp_htlcMinimumMsat info) 10;
  buf ← writeBigUInt64BE buf (bp_htlcMaximumMsat info) 18;
  buf ← writeUInt16BE buf (blen features) 26;
  Ok (copy features buf 28).

Definition decodeBlindedPayInfo (buf : buffer) (offset : Z) : result (IBlindedPayInfo * Z) :=
  _ ← throw_if (blen buf <? offset + 28) "blinded_payinfo truncated";
  feeBase ← readUInt32BE buf offset;
  feeProportional ← readUInt32BE buf (offset + 4);
  delta ← readUInt16BE buf (offset + 8);
  minimum ← readBigUInt64BE buf (offset + 10);
  maximum ← readBigUInt64BE buf (offset + 18);
  flen ← readUInt16BE buf (offset + 26);
  _ ← throw_if (blen buf <? offset + 28 + flen) "blinded_payinfo truncated at features";
  let features := subarray buf (offset + 28) (offset + 28 + flen) in
  Ok ({| bp_feeBaseMsat := feeBase; bp_feeProportionalMillionths := feeProportional;
         bp_cltvExpiryDelta := delta; bp_htlcMinimumMsat := minimum; bp_htlcMaximumMsat := maximum;
         bp_features := if 0 <? flen then Some features else None |}, offset + 28 + flen).

Definition encodeBlindedPayInfos (infos : list IBlindedPayInfo) : result buffer :=
  parts ← mapM encodeBlindedPayInfo infos; Ok (concat parts).

Definition decodeBlindedPayInfos (buf : buffer) : result (list IBlindedPayInfo) :=
  decode_until (decodeBlindedPayInfo buf) (length buf) (blen buf) 0.

Record IBlindedPaymentPath := { bpp_path : IBlindedPath; bpp_payInfo : IBlindedPayInfo }.

Definition entry_part (entry : IBlindedPaymentPath) : result buffer :=
  path ← encodeBlindedPath (bpp_path entry);
  info ← encodeBlindedPayInfo (bpp_payInfo entry);
  Ok (path ++ info).

Definition encodeInvoiceBlindedPaymentPaths (entries : list IBlindedPaymentPath) : result buffer :=
  let num := set_byte (alloc 1) 0 (Z.of_nat (length entries)) in
  parts ← mapM entry_part entries;
  Ok (num ++ concat parts).

Fixpoint decode_entries (n : nat) (buf : buffer) (offset : Z) : result (list IBlindedPaymentPath) :=
  match n with
  | 0%nat => Ok []
  | S n =>
      '(path, offset) ← decodeBlindedPath buf offset;
      '(info, offset) ← decodeBlindedPayInfo buf offset;
      rest ← decode_entries n buf offset;
      Ok ({| bpp_path := path; bpp_payInfo := info |} :: rest)
  end.

Definition decodeInvoiceBlindedPaymentPaths (buf : buffer) : result (list IBlindedPaymentPath) :=
  decode_entries (Z.to_nat (byte_at buf 0)) buf 1.

End Paths.

(** ** The data of a hop is read back *)

Definition opt_all {X} (P : X -> Prop) (x : option X) : Prop :=
  match x with Some x => P x | None => True end.

Definition short (b : buffer) : Prop := blen b < 2 ^ 64.

Definition relay_wf (r : payment_relay) : Prop :=
  0 <= pr_cltvExpiryDelta r < 2 ^ 16 /\ 0 <= pr_feeProportionalMillionths r < 2 ^ 32 /\
  exists z, pr_feeBaseMsat r = Fin z /\ 0 <= z < 2 ^ 53.

Definition constraints_wf (c : payment_constraints) : Prop :=
  0 <= pc_maxCltvExpiry c < 2 ^ 32 /\ 0 <= pc_htlcMinimumMsat c < 2 ^ 64.

(** Data the creator of a path writes: the fields fit their width, and a hold has no
    registration or one of 32 bytes. *)
Record hop_data_wf (d : IBlindedHopData) : Prop := {
  dw_padding : opt_all short (bd_padding d);
  dw_scid : opt_all short (bd_shortChannelId d);
  dw_next : opt_all short (bd_nextNodeId d);
  dw_path : opt_all short (bd_pathId d);
  dw_override : opt_all short (bd_nextPathKeyOverride d);
  dw_relay : opt_all relay_wf (bd_paymentRelay d);
  dw_constraints : opt_all constraints_wf (bd_paymentConstraints d);
  dw_hold : match bd_holdHtlc d, bd_holdRegistrationId d with
            | None, None | Some true, None => True
            | Some true, Some id => blen id = 32
            | _, _ => False
            end
}.

Lemma encode_tu_bytes v : 0 <= v -> encode_tu v = Ok (encodeTruncatedUint v).
Proof.
  intros Hv. unfold encode_tu, encodeTruncatedUint. rewrite throw_pass by (apply Z.ltb_ge; lia).
  destruct (Z.eqb_spec v 0), (Z.leb_spec v 0); try lia; done.
Qed.

Lemma truncated_short v : 0 <= v < 2 ^ 64 -> blen (encodeTruncatedUint v) <= 8.
Proof.
  intros Hv. unfold encodeTruncatedUint. destruct (Z.leb_spec v 0); [done|].
  assert (Z.log2 v < 64) as Hl by (apply Z.log2_lt_pow2; lia).
  pose proof (Z.div_pos (Z.log2 v) 8 (Z.log2_nonneg v) eq_refl).
  pose proof (Z.div_lt_upper_bound (Z.log2 v) 8 8). rewrite blen_be. lia.
Qed.

(** The head of a relay record and its fee. *)
Definition relay_bytes (r : payment_relay) (z : Z) : buffer :=
  be 2 (pr_cltvExpiryDelta r) ++ be 4 (pr_feeProportionalMillionths r) ++ encodeTruncatedUint z.

Lemma relay_written r z : relay_wf r -> pr_feeBaseMsat r = Fin z ->
  relay_value r = Ok (relay_bytes r z) /\ read_relay (relay_bytes r z) = Ok r /\ short (relay_bytes r z).
Proof.
  intros (H1 & H2 & z' & Hz' & Hz) E. rewrite E in Hz'. injection Hz' as <-.
  pose proof (truncated_short z ltac:(lia)) as Hl. pose proof (blen_nonneg (encodeTruncatedUint z)).
  split_and!.
  - unfold relay_value. enc. rewrite E. cbn [to_bigint]. rewrite bind_Ok, encode_tu_bytes, bind_Ok by lia.
    unfold relay_bytes. by rewrite <- app_assoc.
  - unfold read_relay, relay_bytes. rd. rewrite app_assoc, subarray_from_hd by blia.
    rewrite truncated_roundtrip by lia. unfold to_number. rewrite round53_small by lia.
    rewrite (proj2 (Z.leb_gt _ _)) by (eapply Z.lt_trans; [apply Hz|by vm_compute]).
    destruct r; cbn in *. by rewrite E.
  - unfold short, relay_bytes. rewrite !blen_app, !blen_be. lia.
Qed.

Definition constraints_bytes (c : payment_constraints) : buffer :=
  be 4 (pc_maxCltvExpiry c) ++ encodeTruncatedUint (pc_htlcMinimumMsat c).

Lemma constraints_written c : constraints_wf c ->
  constraints_value c = Ok (constraints_bytes c) /\ read_constraints (constraints_bytes c) = Ok c /\
  short (constraints_bytes c).
Proof.
  intros (H1 & H2). pose proof (truncated_short _ H2) as Hl.
  pose proof (blen_nonneg (encodeTruncatedUint (pc_htlcMinimumMsat c))).
  split_and!.
  - unfold constraints_value. enc. rewrite encode_tu_bytes, bind_Ok by lia. done.
  - unfold read_constraints, constraints_bytes. rd. rewrite subarray_from_hd by blia.
    rewrite truncated_roundtrip by lia. by destruct c.
  - unfold short, constraints_bytes. rewrite !blen_app, !blen_be. lia.
Qed.

Lemma inc_weaken last last' rs : last <= last' -> increasing_from last' rs -> increasing_from last rs.
Proof. destruct rs as [|r rs]; [done|]. cbn. intros ? []. split; [lia|done]. Qed.

Lemma inc_opt last t v rs :
  last < t -> increasing_from t rs -> increasing_from last (opt_record t v ++ rs).
Proof.
  intros Ht Hr. destruct v; cbn; [done|]. eapply inc_weaken; [|exact Hr]. lia.
Qed.

Lemma wf_opt t v rs : 0 <= t < 2 ^ 64 -> opt_all short v -> Forall record_wf rs ->
  Forall record_wf (opt_record t v ++ rs).
Proof. intros Ht Hv Hr. destruct v; cbn; [constructor; [split; [exact Ht|exact Hv]|done]|done]. Qed.

(** The records of well-formed data. *)
Lemma erd_written d : hop_data_wf d ->
  exists rs, erd_records d = Ok rs /\ increasing_from (-1) rs /\ Forall record_wf rs /\
    foldM take_erd no_hop_data rs = Ok d.
Proof.
  intros [Hpad Hscid Hnext Hpath Hover Hrelay Hcons Hhold].
  assert (exists rv, opt_value relay_value (bd_paymentRelay d) = Ok rv /\ opt_all short rv /\
    match rv, bd_paymentRelay d with
    | Some v, Some r => read_relay v = Ok r | None, None => True | _, _ => False end) as (rv & Erv & Srv & Rrv).
  { destruct (bd_paymentRelay d) as [r|]; [|by exists None]. destruct (Hrelay) as (? & ? & z & Ez & ?).
    destruct (relay_written r z Hrelay Ez) as (E & Er & Es). eexists. cbn. rewrite E. by split_and!. }
  assert (exists cv, opt_value constraints_value (bd_paymentConstraints d) = Ok cv /\ opt_all short cv /\
    match cv, bd_paymentConstraints d with
    | Some v, Some r => read_constraints v = Ok r | None, None => True | _, _ => False end) as (cv & Ecv & Scv & Rcv).
  { destruct (bd_paymentConstraints d) as [c|]; [|by exists None].
    destruct (constraints_written c Hcons) as (E & Er & Es). eexists. cbn. rewrite E. by split_and!. }
  assert (exists hv, hold_value d = Ok hv /\ opt_all short hv /\
    match hv, bd_holdHtlc d with
    | Some v, Some true => (if blen v =? 32 then Some v else None) = bd_holdRegistrationId d
    | None, None => bd_holdRegistrationId d = None | _, _ => False end) as (hv & Ehv & Shv & Rhv).
  { unfold hold_value. destruct (bd_holdHtlc d) as [[]|], (bd_holdRegistrationId d) as [id|]; try done; cbn.
    - rewrite Hhold. cbn. eexists. split_and!; [done|cbn; unfold short; lia|]. cbn. by rewrite Hhold.
    - by exists (Some []).
    - by exists None. }
  unfold erd_records. rewrite Erv, bind_Ok, Ecv, bind_Ok, Ehv, bind_Ok. eexists. split; [reflexivity|].
  split; [by repeat apply inc_opt; try done; destruct hv|].
  split; [by repeat apply wf_opt; try done; rewrite <- (app_nil_r (opt_record ERD_HOLD_HTLC hv)); apply wf_opt|].
  destruct d as [pad scid next path over relay cons hold reg]; cbn in *.
  destruct pad, scid, next, path, over; cbn;
    (destruct rv, relay; try done; cbn in *; try rewrite Rrv; cbn;
     destruct cv, cons; try done; cbn in *; try rewrite Rcv; cbn;
     destruct hv, hold as [[]|]; try done; cbn; by subst reg).
Qed.

Lemma hop_data_bytes d : hop_data_wf d ->
  exists b, encodeBlindedHopData d = Ok b /\ decodeBlindedHopData b = Ok d /\
    exists rs, erd_records d = Ok rs /\ b = stream_bytes rs.
Proof.
  intros Hd. destruct (erd_written d Hd) as (rs & Hr & Hi & Hw & Hf).
  unfold encodeBlindedHopData. rewrite Hr, bind_Ok, (encodeTlvStream_bytes (-1)) by done.
  eexists. split_and!; [reflexivity| |by exists rs]. unfold decodeBlindedHopData.
  destruct (Z.eqb_spec (blen (stream_bytes rs)) 0) as [E|E].
  - rewrite (stream_bytes_empty rs) in Hf by lia. by injection Hf as <-.
  - assert (decodeTlvStream (stream_bytes rs) 0 None = Ok {| records := rs; stream_bytesRead := blen (stream_bytes rs) |})
      as -> by (apply (decodeTlvStream_run [] rs None Hw Hi); by apply Forall_true).
    by rewrite bind_Ok.
Qed.

(** ** Paths on the wire *)

Section PathCodec.
Context `{L : BitcoinLib} (ecc_isPoint : buffer -> bool).

Definition point (b : buffer) : Prop := blen b = 33 /\ ecc_isPoint b = true.

Lemma point_valid b : point b -> isValidPublicKey ecc_isPoint b = true.
Proof. intros [Hl Hp]. unfold isValidPublicKey. by rewrite Hl, Hp. Qed.

Definition hop_wire (h : IBlindedHop) : Prop :=
  point (blindedNodeId h) /\ blen (encryptedData h) < 2 ^ 16.

(** A path a decoder accepts: points are points and there are 1 to 255 hops. *)
Record path_wf (p : IBlindedPath) : Prop := {
  pw_first : valid_first (introductionNodeId p) = true;
  pw_intro : blen (introductionNodeId p) = 33 -> ecc_isPoint (introductionNodeId p) = true;
  pw_point : point (blindingPoint p);
  pw_count : (1 <= length (blindedHops p) <= 255)%nat;
  pw_hops : Forall hop_wire (blindedHops p)
}.

Definition hop_bytes (h : IBlindedHop) : buffer :=
  blindedNodeId h ++ be 2 (blen (encryptedData h)) ++ encryptedData h.

Lemma hop_part_bytes h : hop_wire h -> hop_part h = Ok (hop_bytes h).
Proof.
  intros [_ Hl]. pose proof (blen_nonneg (encryptedData h)). unfold hop_part. by enc.
Qed.

Lemma mapM_Forall {X Y} (f : X -> result Y) (g : X -> Y) l :
  Forall (fun x => f x = Ok (g x)) l -> mapM f l = Ok (map g l).
Proof. induction 1 as [|x l Hx _ IH]; [done|]. by rewrite mapM_cons, Hx, bind_Ok, IH, bind_Ok. Qed.

Lemma decode_hops_run hops : forall pre rest, Forall hop_wire hops ->
  let body := concat (map hop_bytes hops) in
  decode_hops ecc_isPoint (length hops) (pre ++ body ++ rest) (blen pre) =
    Ok (hops, blen (pre ++ body)).
Proof.
  induction hops as [|h hops IH]; intros pre rest Hw; cbn zeta.
  { cbn. by rewrite app_nil_r. }
  apply Forall_cons in Hw as [[[Hp Hpt] Hl] Hw]. cbn [map concat length].
  pose proof (blen_nonneg (encryptedData h)). pose proof (blen_nonneg rest).
  set (tl := concat (map hop_bytes hops) ++ rest). pose proof (blen_nonneg tl).
  replace ((hop_bytes h ++ concat (map hop_bytes hops)) ++ rest)
    with (blindedNodeId h ++ be 2 (blen (encryptedData h)) ++ encryptedData h ++ tl)
    by (unfold tl, hop_bytes; by rewrite <- !app_assoc).
  cbn [decode_hops].
  rewrite throw_pass by (apply Z.ltb_ge; rewrite !blen_app, blen_be; lia).
  assert (subarray (pre ++ blindedNodeId h ++ be 2 (blen (encryptedData h)) ++ encryptedData h ++ tl)
    (blen pre) (blen pre + 33) = blindedNodeId h) as ->.
  { rewrite subarray_skip by lia. apply subarray_hd; lia. }
  rewrite throw_pass by (by rewrite (point_valid _ (conj Hp Hpt))).
  unfold readUInt16BE. rewrite readUIntBE_skip, readUIntBE_skip, (readUIntBE_hd 2), bind_Ok by lia.
  rewrite throw_pass by (apply Z.ltb_ge; rewrite !blen_app, blen_be; lia).
  assert (subarray (pre ++ blindedNodeId h ++ be 2 (blen (encryptedData h)) ++ encryptedData h ++ tl)
    (blen pre + 35) (blen pre + 35 + blen (encryptedData h)) = encryptedData h) as ->.
  { do 3 (rewrite subarray_skip by (rewrite ?blen_be; lia)). apply subarray_hd; rewrite blen_be; lia. }
  replace (blen pre + 35 + blen (encryptedData h)) with (blen (pre ++ hop_bytes h))
    by (unfold hop_bytes; rewrite !blen_app, blen_be; lia).
  replace (pre ++ blindedNodeId h ++ be 2 (blen (encryptedData h)) ++ encryptedData h ++ tl)
    with ((pre ++ hop_bytes h) ++ tl) by (unfold hop_bytes; by rewrite <- !app_assoc).
  unfold tl. rewrite (IH (pre ++ hop_bytes h) rest Hw), bind_Ok. destruct h. cbn.
  do 2 f_equal. f_equal. by rewrite <- !app_assoc.
Qed.

Definition path_bytes (p : IBlindedPath) : buffer :=
  introductionNodeId p ++ blindingPoint p ++ [byte_of_Z (Z.of_nat (length (blindedHops p)))] ++
  concat (map hop_bytes (blindedHops p)).

Lemma path_encoded p : path_wf p -> encodeBlindedPath p = Ok (path_bytes p).
Proof.
  intros [Hf _ _ _ Hh]. unfold encodeBlindedPath. rewrite Hf, throw_pass by done.
  rewrite (mapM_Forall _ hop_bytes), bind_Ok; [done|].
  eapply Forall_impl; [exact Hh|]. apply hop_part_bytes.
Qed.

Lemma first_length_ok p first rest : valid_first first = true -> p = blen first ->
  first_length ((first ++ rest) !! 0%nat) = Ok p /\ (p = 33 \/ p = 9).
Proof.
  intros Hv ->. unfold valid_first in Hv. destruct first as [|x first]; [done|].
  cbn [app]. unfold lookup, list_lookup. unfold first_length. cbn [fmap option_fmap option_map].
  rewrite byte_at_hd in Hv by done.
  apply orb_true_iff in Hv as [[Hl Hb]%andb_true_iff|[Hl Hb]%andb_true_iff]; apply Z.eqb_eq in Hl; rewrite Hl;
    apply orb_true_iff in Hb as [Hb|Hb]; apply Z.eqb_eq in Hb; rewrite Hb; auto.
Qed.

Lemma path_decoded p pre rest : path_wf p ->
  decodeBlindedPath ecc_isPoint (pre ++ path_bytes p ++ rest) (blen pre) = Ok (p, blen (pre ++ path_bytes p)).
Proof.
  intros [Hf Hi [Hp Hpt] Hc Hh]. unfold decodeBlindedPath.
  pose proof (blen_nonneg rest). pose proof (blen_nonneg (concat (map hop_bytes (blindedHops p)))).
  set (first := introductionNodeId p) in *. set (pt := blindingPoint p) in *.
  set (n := [byte_of_Z (Z.of_nat (length (blindedHops p)))]).
  set (body := concat (map hop_bytes (blindedHops p))) in *.
  assert (path_bytes p = first ++ pt ++ n ++ body) as Eb by done. rewrite Eb, <- !app_assoc.
  assert (blen n = 1) as Hn by done.
  destruct (first_length_ok (blen first) first (pt ++ n ++ body ++ rest) Hf eq_refl) as [Hfl Hcase].
  rewrite lookup_app_r by (unfold blen; lia).
  replace (Z.to_nat (blen pre) - length pre)%nat with 0%nat by (unfold blen; lia).
  rewrite Hfl, bind_Ok. rewrite throw_pass by (apply Z.ltb_ge; rewrite !blen_app; lia).
  assert (subarray (pre ++ first ++ pt ++ n ++ body ++ rest) (blen pre) (blen pre + blen first) = first) as ->
    by (rewrite subarray_skip by lia; apply subarray_hd; lia).
  rewrite throw_pass.
  2: { destruct (Z.eqb_spec (blen first) 33) as [E|E]; [|done]. by rewrite (point_valid first (conj E (Hi E))). }
  assert (subarray (pre ++ first ++ pt ++ n ++ body ++ rest) (blen pre + blen first)
    (blen pre + blen first + 33) = pt) as ->
    by (do 2 (rewrite subarray_skip by lia); apply subarray_hd; lia).
  rewrite throw_pass by (by rewrite (point_valid pt (conj Hp Hpt))).
  assert (byte_at (pre ++ first ++ pt ++ n ++ body ++ rest) (blen pre + blen first + 33) =
    Z.of_nat (length (blindedHops p))) as ->.
  { do 3 (rewrite byte_at_skip by lia). unfold n. rewrite byte_at_one by lia.
    rewrite Z_of_byte_of_Z. apply Z.mod_small. lia. }
  rewrite throw_pass by (apply Z.eqb_neq; lia). rewrite Nat2Z.id.
  replace (pre ++ first ++ pt ++ n ++ body ++ rest) with ((pre ++ first ++ pt ++ n) ++ body ++ rest)
    by (by rewrite <- !app_assoc).
  replace (blen pre + blen first + 33 + 1) with (blen (pre ++ first ++ pt ++ n)) by (rewrite !blen_app; lia).
  unfold body. rewrite decode_hops_run, bind_Ok by done. fold body. do 2 f_equal.
  - unfold first, pt. by destruct p.
  - by rewrite <- !app_assoc.
Qed.

Record pay_info_wf (i : IBlindedPayInfo) : Prop := {
  iw_base : 0 <= bp_feeBaseMsat i < 2 ^ 32;
  iw_prop : 0 <= bp_feeProportionalMillionths i < 2 ^ 32;
  iw_delta : 0 <= bp_cltvExpiryDelta i < 2 ^ 16;
  iw_min : 0 <= bp_htlcMinimumMsat i < 2 ^ 64;
  iw_max : 0 <= bp_htlcMaximumMsat i < 2 ^ 64;
  iw_features : opt_all (fun f => 0 < blen f < 2 ^ 16) (bp_features i)
}.

Definition info_bytes (i : IBlindedPayInfo) : buffer :=
  let features := default [] (bp_features i) in
  be 4 (bp_feeBaseMsat i) ++ be 4 (bp_feeProportionalMillionths i) ++ be 2 (bp_cltvExpiryDelta i) ++
  be 8 (bp_htlcMinimumMsat i) ++ be 8 (bp_htlcMaximumMsat i) ++ be 2 (blen features) ++ features.

Lemma features_bound i : pay_info_wf i -> 0 <= blen (default [] (bp_features i)) < 2 ^ 16.
Proof. intros []. destruct (bp_features i); cbn in *; [lia|done]. Qed.

Lemma info_encoded i : pay_info_wf i -> encodeBlindedPayInfo i = Ok (info_bytes i).
Proof.
  intros Hi. pose proof (features_bound i Hi). destruct Hi. unfold encodeBlindedPayInfo. by enc.
Qed.

Lemma info_decoded i pre rest : pay_info_wf i ->
  decodeBlindedPayInfo (pre ++ info_bytes i ++ rest) (blen pre) = Ok (i, blen (pre ++ info_bytes i)).
Proof.
  intros Hi. pose proof (features_bound i Hi) as Hf. destruct Hi.
  pose proof (blen_nonneg rest). unfold decodeBlindedPayInfo, info_bytes. cbv zeta.
  set (features := default [] (bp_features i)) in *. rewrite <- !app_assoc. rd. f_equal. f_equal.
  - unfold features. destruct i as [? ? ? ? ? [f|]]; cbn in *; [|done].
    by rewrite (proj2 (Z.ltb_lt _ _)) by lia.
  - blia.
Qed.

(** A list without a count is read until its bytes end. *)
Lemma decode_until_run {X} (wf : X -> Prop) (bytes : X -> buffer) (decode : buffer -> Z -> result (X * Z)) :
  (forall x pre rest, wf x -> decode (pre ++ bytes x ++ rest) (blen pre) = Ok (x, blen (pre ++ bytes x))) ->
  (forall x, 1 <= blen (bytes x)) ->
  forall xs pre fuel, Forall wf xs -> (length xs <= fuel)%nat ->
  let data := pre ++ concat (map bytes xs) in
  decode_until (decode data) fuel (blen data) (blen pre) = Ok xs.
Proof.
  intros Hdec Hpos xs. induction xs as [|x xs IH]; intros pre fuel Hw Hl; cbn zeta.
  { cbn [map concat]. rewrite app_nil_r. destruct fuel; cbn; by rewrite Z.ltb_irrefl. }
  apply Forall_cons in Hw as [Hx Hw]. destruct fuel as [|fuel]; [cbn in Hl; lia|]. cbn [map concat decode_until].
  pose proof (Hpos x). pose proof (blen_nonneg (concat (map bytes xs))).
  rewrite (proj2 (Z.ltb_lt _ _)) by (rewrite !blen_app; lia). rewrite Hdec, bind_Ok by done.
  rewrite app_assoc, IH; [done|done|cbn in Hl; lia].
Qed.

Lemma concat_length {X} (bytes : X -> buffer) xs : (forall x, 1 <= blen (bytes x)) ->
  (length xs <= length (concat (map bytes xs)))%nat.
Proof.
  intros Hpos. induction xs as [|x xs IH]; [done|]. cbn. rewrite length_app.
  specialize (Hpos x). unfold blen in Hpos. lia.
Qed.

Lemma path_bytes_pos p : 1 <= blen (path_bytes p).
Proof.
  unfold path_bytes. rewrite !blen_app. pose proof (blen_nonneg (introductionNodeId p)).
  pose proof (blen_nonneg (blindingPoint p)). pose proof (blen_nonneg (concat (map hop_bytes (blindedHops p)))).
  change (blen [_]) with 1. lia.
Qed.

Lemma info_bytes_pos i : 1 <= blen (info_bytes i).
Proof.
  unfold info_bytes. cbv zeta. rewrite !blen_app, !blen_be. pose proof (blen_nonneg (default [] (bp_features i))). lia.
Qed.

(** The blinded paths and the pay parameters of an offer or a BOLT 12
    invoice, written one after the other without a count, are read back. *)
Theorem path_list_roundtrip (paths : list IBlindedPath) (infos : list IBlindedPayInfo)
    (Hpaths : Forall path_wf paths) (Hinfos : Forall pay_info_wf infos) :
  (exists b, encodeBlindedPaths paths = Ok b /\ decodeBlindedPaths ecc_isPoint b = Ok paths) /\
  (exists b, encodeBlindedPayInfos infos = Ok b /\ decodeBlindedPayInfos b = Ok infos).
Proof.
  split; eexists.
  - unfold encodeBlindedPaths. rewrite (mapM_Forall _ path_bytes), bind_Ok
      by (eapply Forall_impl; [exact Hpaths|]; apply path_encoded).
    split; [reflexivity|]. apply (decode_until_run path_wf path_bytes (decodeBlindedPath ecc_isPoint)) with (pre := []);
      [intros; by apply path_decoded|apply path_bytes_pos|done|apply concat_length, path_bytes_pos].
  - unfold encodeBlindedPayInfos. rewrite (mapM_Forall _ info_bytes), bind_Ok
      by (eapply Forall_impl; [exact Hinfos|]; apply info_encoded).
    split; [reflexivity|]. apply (decode_until_run pay_info_wf info_bytes decodeBlindedPayInfo) with (pre := []);
      [intros; by apply info_decoded|apply info_bytes_pos|done|apply concat_length, info_bytes_pos].
Qed.

(** The blinded payment paths of an invoice, up to 255 of them,
    are read back with every hop and all pay parameters. *)
Theorem invoice_paths_roundtrip (entries : list IBlindedPaymentPath)
    (Hcount : (length entries <= 255)%nat)
    (Hwf : Forall (fun e => path_wf (bpp_path e) /\ pay_info_wf (bpp_payInfo e)) entries) :
  exists b, encodeInvoiceBlindedPaymentPaths entries = Ok b /\
    decodeInvoiceBlindedPaymentPaths ecc_isPoint b = Ok entries.
Proof.
  set (part e := path_bytes (bpp_path e) ++ info_bytes (bpp_payInfo e)).
  exists ([byte_of_Z (Z.of_nat (length entries))] ++ concat (map part entries)). split.
  - unfold encodeInvoiceBlindedPaymentPaths. rewrite (mapM_Forall _ part); [done|].
    eapply Forall_impl; [exact Hwf|]. intros e [Hp Hi]. unfold entry_part.
    by rewrite path_encoded, bind_Ok, info_encoded, bind_Ok.
  - unfold decodeInvoiceBlindedPaymentPaths. rewrite byte_at_one by done. rewrite Z_of_byte_of_Z, Z.mod_small by lia.
    rewrite Nat2Z.id. change 1 with (blen [byte_of_Z (Z.of_nat (length entries))]).
    generalize [byte_of_Z (Z.of_nat (length entries))]. clear Hcount.
    induction Hwf as [|e entries [Hp Hi] _ IH]; intros pre; [done|]. cbn [length decode_entries map concat].
    set (tl := concat (map part entries)) in *.
    replace (pre ++ part e ++ tl) with (pre ++ path_bytes (bpp_path e) ++ info_bytes (bpp_payInfo e) ++ tl)
      by (unfold part; by rewrite <- app_assoc).
    rewrite path_decoded, bind_Ok by done. rewrite (app_assoc pre), info_decoded, bind_Ok by done.
    rewrite (app_assoc _ (info_bytes _)), IH, bind_Ok. by destruct e.
Qed.

End PathCodec.

(** ** Concrete inputs *)

Definition sample_path : IBlindedPath :=
  {| introductionNodeId := x01 :: be 8 700000; blindingPoint := x02 :: be 32 5;
     blindedHops := [{| blindedNodeId := x03 :: be 32 6; encryptedData := [x0a; x0b] |};
                     {| blindedNodeId := x02 :: be 32 7; encryptedData := [] |}] |}.

Definition sample_info : IBlindedPayInfo :=
  {| bp_feeBaseMsat := 1000; bp_feeProportionalMillionths := 100; bp_cltvExpiryDelta := 40;
     bp_htlcMinimumMsat := 1; bp_htlcMaximumMsat := 2 ^ 40; bp_features := Some [x01] |}.

Lemma sample_wf : path_wf (fun _ => true) sample_path /\ pay_info_wf sample_info.
Proof. split; constructor; try done; cbn; try lia. by repeat constructor. Qed.

Lemma path_list_roundtrip_witness :
  (exists b, encodeBlindedPaths [sample_path; sample_path] = Ok b /\
     decodeBlindedPaths (fun _ => true) b = Ok [sample_path; sample_path]) /\
  (exists b, encodeBlindedPayInfos [sample_info] = Ok b /\ decodeBlindedPayInfos b = Ok [sample_info]).
Proof.
  destruct sample_wf as [Hp Hi]. apply (path_list_roundtrip (fun _ => true)); repeat (constructor; [done|]);
    constructor.
Defined.

Lemma invoice_paths_roundtrip_witness :
  exists b, encodeInvoiceBlindedPaymentPaths [{| bpp_path := sample_path; bpp_payInfo := sample_info |}] = Ok b /\
    decodeInvoiceBlindedPaymentPaths (fun _ => true) b = Ok [{| bpp_path := sample_path; bpp_payInfo := sample_info |}].
Proof.
  apply (invoice_paths_roundtrip (fun _ => true)); [cbn; lia|]. constructor; [exact sample_wf|constructor].
Defined.
