(* ===== verification/BlindedRoute.v ===== *)
(** * Payments through a blinded path (src/src/lightning/onion/blinded-path.ts,
    gossip/pathfinding.ts, node/lightning-node.ts)

    The creator of a path, the sender of the onion and the nodes of the path put
    together: [blinded_route_delivers] follows an onion from the introduction node to
    the recipient.  [relay_forwards_net] is about the amounts. *)

From S2P Require Import Prelude Buffer Codec Tlv Wire CommitmentTx Scripts Sphinx HopPayload Onion Blinding BlindedPath.
From Stdlib Require Import Strings.Byte.
Local Open Scope Z_scope.

(** ** Amounts *)

(** What findRouteToBlindedPath adds for the blinded part of a route. *)
Definition blindedFeeMsat (feeBaseMsat feeProportionalMillionths amountMsat : Z) : Z :=
  feeBaseMsat + Z.quot (amountMsat * feeProportionalMillionths) 1000000.

(** What a blinded node forwards of what it received. *)
Definition blindedOutAmount (feeBaseMsat feeProportionalMillionths incomingAmountMsat : Z) : Z :=
  let propPlusOne := 1000000 + feeProportionalMillionths in
  Z.quot ((incomingAmountMsat - feeBaseMsat) * 1000000 + propPlusOne - 1) propPlusOne.

(** A blinded node forwards exactly the amount for which the sender
    computed its fee: neither the node nor the one after it is short by a rounding. *)
Theorem relay_forwards_net (base proportional amount : Z)
    (Hbase : 0 <= base) (Hprop : 0 <= proportional) (Hamount : 0 <= amount) :
  blindedOutAmount base proportional (amount + blindedFeeMsat base proportional amount) = amount.
Proof.
  unfold blindedOutAmount, blindedFeeMsat.
  rewrite (Z.quot_div_nonneg (amount * proportional)) by nia.
  pose proof (Z.div_mod (amount * proportional) 1000000 ltac:(lia)) as Hd.
  pose proof (Z.mod_pos_bound (amount * proportional) 1000000 ltac:(lia)) as Hm.
  set (q := amount * proportional / 1000000) in *. set (r := (amount * proportional) mod 1000000) in *.
  assert (0 <= q) by (apply Z.div_pos; nia). rewrite Z.quot_div_nonneg by nia.
  symmetry. apply (Z.div_unique _ _ _ (proportional + 999999 - r)); [left; lia|]. lia.
Qed.

Lemma relay_forwards_net_witness :
  blindedOutAmount 1000 100 (100000001 + blindedFeeMsat 1000 100 100000001) = 100000001.
Proof. apply (relay_forwards_net 1000 100 100000001); lia. Defined.

Section Route.
Context `{L : BitcoinLib} `{O : OnionLib} `{A : AeadLib} (ecc_isPoint : buffer -> bool).

(** ** The nodes of a path *)

(** The key a node peels the onion with. *)
Definition onion_privkey (incomingBlindingPoint : option buffer) (nodePrivkey : buffer) : result buffer :=
  match incomingBlindingPoint with
  | Some key => deriveBlindedPrivkey key nodePrivkey
  | None => Ok nodePrivkey
  end.

(** A node takes an HTLC with its onion and perhaps a blinding point: its payload, the data
    of its blinded hop, and the onion and blinding point it sends on. *)
Definition blinded_hop (incomingBlindingPoint : option buffer) (onion nodePrivkey : buffer)
    (paymentHash : option buffer) : option (IHopPayload * IBlindedHopData * IOnionPacket * buffer) :=
  match onion_privkey incomingBlindingPoint nodePrivkey, decodeOnionPacket onion with
  | Ok key, Ok packet =>
      match processOnionPacket ecc_isPoint packet key paymentHash with
      | Processed o =>
          let hopPayload := po_hopPayload o in
          let effectiveBlindingPoint :=
            match hp_blindingPoint hopPayload with Some p => Some p | None => incomingBlindingPoint end in
          match effectiveBlindingPoint, hp_encryptedRecipientData hopPayload with
          | Some p, Some data =>
              match processBlindedHop p nodePrivkey data with
              | Ok (hopData, nextBlindingKey) => Some (hopPayload, hopData, po_nextPacket o, nextBlindingKey)
              | Err _ => None
              end
          | _, _ => None
          end
      | _ => None
      end
  | _, _ => None
  end.

(** The nodes one after the other. *)
Fixpoint blinded_travel (incomingBlindingPoint : option buffer) (onion : buffer) (nodes : list buffer)
    (paymentHash : option buffer) : option (list (IHopPayload * IBlindedHopData)) :=
  match nodes with
  | [] => Some []
  | node :: rest =>
      '(payload, data, packet, next) ← blinded_hop incomingBlindingPoint onion node paymentHash;
      others ← blinded_travel (Some next) (encodeOnionPacket packet) rest paymentHash;
      Some ((payload, data) :: others)
  end.

(** What the sender addresses: the introduction node by its own key, the others by
    their blinded ids; each hop's data, and the first blinding point, in the payloads. *)
Definition path_pubkeys (path : IBlindedPath) : list buffer :=
  introductionNodeId path :: map blindedNodeId (tail (blindedHops path)).

Definition carries (point : option buffer) (payload : IHopPayload) (hop : IBlindedHop) : Prop :=
  hp_encryptedRecipientData payload = Some (encryptedData hop) /\ hp_blindingPoint payload = point.

Definition path_payloads (path : IBlindedPath) (payloads : list IHopPayload) : Prop :=
  match payloads, blindedHops path with
  | p :: ps, h :: hs => carries (Some (blindingPoint path)) p h /\ Forall2 (carries None) ps hs
  | _, _ => False
  end.

(** ** What the path gives each node *)

Context {W : OnionLaws ecc_isPoint} {AW : AeadLaws}.

Fixpoint unblinds (key : buffer) (nodes : list buffer) (hops : list IBlindedHop)
    (datas : list IBlindedHopData) (privs : list buffer) : Prop :=
  match nodes, hops, datas, privs with
  | [], [], [], [] => True
  | node :: nodes, hop :: hops, d :: datas, priv :: privs =>
      deriveBlindedPrivkey key node = Ok priv /\ getPublicKey priv = Ok (blindedNodeId hop) /\
      exists next, processBlindedHop key node (encryptedData hop) = Ok (d, next) /\
        unblinds next nodes hops datas privs
  | _, _, _, _ => False
  end.

Lemma mapM_Forall2 {X Y} (f : X -> result Y) l : forall ys,
  mapM f l = Ok ys -> Forall2 (fun x y => f x = Ok y) l ys.
Proof.
  induction l as [|x l IH]; intros ys; [by intros [= <-]|]. rewrite mapM_cons.
  intros (y & Hy & (ys' & Hys & [= <-])%bind_Ok_inv)%bind_Ok_inv. constructor; [done|]. by apply IH.
Qed.

(** The private key of a multiple of a public key. *)
Lemma multiply_private key P b Q :
  getPublicKey key = Ok P -> pointMultiply P b = Ok Q ->
  exists key', privateMultiply key b = Ok key' /\ getPublicKey key' = Ok Q.
Proof.
  intros Hk HQ. pose proof (getPublicKey_inv _ _ Hk) as [Hl HP].
  destruct (point_scalar _ _ _ _ Hl HP (pointMultiply_inv _ _ _ HQ)) as (c & Hc & _).
  exists c. split; [done|]. by eapply blind_step.
Qed.

Lemma path_unblinds nodes : forall pubkeys keys secrets plaintexts hops datas key,
  Forall2 (fun node pub => getPublicKey node = Ok pub) nodes pubkeys ->
  chain_found nodes keys secrets -> match keys with [] => nodes = [] | k :: _ => k = key end ->
  mapM blind_hop (combine (combine pubkeys secrets) plaintexts) = Ok hops ->
  Forall2 (fun b d => decodeBlindedHopData b = Ok d /\ bd_nextPathKeyOverride d = None) plaintexts datas ->
  length datas = length nodes ->
  exists privs, unblinds key nodes hops datas privs.
Proof.
  induction nodes as [|node nodes IH];
    intros pubkeys keys secrets plaintexts hops datas key Hn Hc Hk Hm Hd Hl.
  { inversion Hn; subst. destruct datas; [|done]. inversion Hd; subst. injection Hm as <-. by exists []. }
  inversion Hn as [|? pub ? pubs Hnode Hrest]; subst. destruct keys as [|k keys]; [done|]. subst k.
  destruct secrets as [|ss secrets]; [done|]. destruct datas as [|d datas]; [done|]. injection Hl as Hl.
  inversion Hd as [|b ? plaintexts' ? [Hb Ho] Hd']; subst. destruct Hc as (Hss & Hnext & Hc).
  cbn [combine] in Hm. rewrite mapM_cons in Hm. apply bind_Ok_inv in Hm as (hop & Hhop & Hm).
  apply bind_Ok_inv in Hm as (hops' & Hhops & [= <-]).
  unfold blind_hop in Hhop. apply bind_Ok_inv in Hhop as (id & Hid & Hhop).
  destruct (blinded_data_opens ss b) as (enc & He & Hdec & _). rewrite He in Hhop. injection Hhop as <-.
  destruct (multiply_private _ _ _ _ Hnode Hid) as (priv & Hpriv & Hpub).
  assert (exists next, deriveNextBlindingKey key ss = Ok next /\
    match keys with [] => nodes = [] | k :: _ => k = next end) as (next & Hnk & Hhd).
  { destruct keys as [|k' keys]; [|by exists k']. destruct Hnext as [next Hnext]. exists next. split; [done|].
    by destruct nodes. }
  destruct (IH _ _ _ _ _ _ next Hrest Hc Hhd Hhops Hd' Hl) as [privs Hp].
  exists (priv :: privs). cbn [unblinds blindedNodeId encryptedData].
  unfold deriveBlindedPrivkey, processBlindedHop. rewrite Hss, !bind_Ok. split_and!; [done..|].
  exists next. split; [|done]. by rewrite Hdec, bind_Ok, Hb, bind_Ok, Ho, Hnk, bind_Ok.
Qed.

(** Data for a hop of a path made in one piece: no padding of its own, no override. *)
Record plain (d : IBlindedHopData) : Prop := {
  pl_wf : hop_data_wf d;
  pl_padding : bd_padding d = None;
  pl_override : bd_nextPathKeyOverride d = None;
  pl_size b : encodeBlindedHopData d = Ok b -> blen b < 2 ^ 53
}.

Definition pad_record (n : Z) : ITlvRecord := {| tlv_type := ERD_PADDING; tlv_value := alloc n |}.

Lemma with_padding_wf d n : hop_data_wf d -> 0 <= n < 2 ^ 64 -> hop_data_wf (with_padding d n).
Proof.
  intros [] Hn. destruct d; cbn in *. constructor; cbn; try done. unfold short. rewrite blen_alloc; lia.
Qed.

Lemma with_padding_records d n rs : bd_padding d = None ->
  erd_records d = Ok rs -> erd_records (with_padding d n) = Ok (pad_record n :: rs).
Proof.
  destruct d; cbn -[opt_record]. intros -> H. unfold erd_records in *. cbn -[opt_record] in *.
  apply bind_Ok_inv in H as (r & Hr & H). apply bind_Ok_inv in H as (c & Hc & H).
  apply bind_Ok_inv in H as (h & Hh & [= <-]). rewrite Hr, bind_Ok, Hc, bind_Ok.
  unfold hold_value in *. cbn in *. rewrite Hh, bind_Ok. done.
Qed.

(** A padded hop: its bytes, and what is read from them. *)
Lemma padded_bytes d base n : plain d -> encodeBlindedHopData d = Ok base -> 0 <= n < 2 ^ 64 ->
  exists b, encodeBlindedHopData (with_padding d n) = Ok b /\
    decodeBlindedHopData b = Ok (with_padding d n) /\ b = record_bytes (pad_record n) ++ base.
Proof.
  intros [Hwf Hpad _ _] Hb Hn.
  destruct (hop_data_bytes d Hwf) as (b & Eb & _ & rs & Hrs & ->). rewrite Hb in Eb. injection Eb as ->.
  destruct (hop_data_bytes _ (with_padding_wf d n Hwf Hn)) as (b & Eb & Hd & rs' & Hrs' & ->).
  rewrite (with_padding_records d n rs Hpad Hrs) in Hrs'. injection Hrs' as <-.
  eexists. split_and!; [exact Eb|exact Hd|done].
Qed.

Lemma max_len_bound bases B : Forall (fun b => blen b < B) bases -> 0 < B ->
  0 <= max_len bases < B /\ Forall (fun b => blen b <= max_len bases) bases.
Proof.
  intros Hb HB. unfold max_len. induction Hb as [|b bases Hlt _ [IH1 IH2]]; [cbn; split; [lia|done]|].
  cbn [map fold_right]. split; [lia|]. constructor; [lia|].
  eapply Forall_impl; [exact IH2|]. cbn. intros x Hx. lia.
Qed.

(** The plaintexts of a path, from the data it was made of. *)
Definition padding_of (bases : list buffer) (b : buffer) : Z := max_len bases - blen b.

Lemma construct_inv secret pubkeys datas path :
  Forall plain datas -> constructBlindedPath secret pubkeys datas = Ok path ->
  exists bases keys secrets plaintexts,
    Forall2 (fun d b => encodeBlindedHopData d = Ok b) datas bases /\
    deriveBlindingKeyChain secret pubkeys = Ok (keys, secrets) /\
    length datas = length pubkeys /\ pubkeys <> [] /\
    plaintexts = map (fun b => record_bytes (pad_record (padding_of bases b)) ++ b) bases /\
    Forall2 (fun b d => decodeBlindedHopData b = Ok d /\ bd_nextPathKeyOverride d = None) plaintexts
      (zip_with (fun d b => with_padding d (padding_of bases b)) datas bases) /\
    Forall (fun b => 0 <= padding_of bases b) bases /\
    mapM blind_hop (combine (combine pubkeys secrets) plaintexts) = Ok (blindedHops path) /\
    introductionNodeId path = List.hd [] pubkeys /\ blindingPoint path = List.hd [] keys.
Proof.
  intros Hp H. unfold constructBlindedPath in H. apply bind_Ok_inv in H as ([] & H1%throw_if_Ok & H).
  apply bind_Ok_inv in H as ([] & H2%throw_if_Ok & H). apply bind_Ok_inv in H as ([keys secrets] & Hc & H).
  apply bind_Ok_inv in H as (bases & Hb & H). apply bind_Ok_inv in H as (plaintexts & Hpt & H).
  apply bind_Ok_inv in H as (hops & Hh & [= <-]). bool_props.
  apply mapM_Forall2 in Hb. exists bases, keys, secrets, plaintexts.
  assert (Forall (fun b => blen b < 2 ^ 53) bases) as Hs.
  { clear -Hp Hb. induction Hb as [|d b datas bases Hdb _ IH]; [done|]. inversion Hp; subst.
    constructor; [by eapply pl_size|auto]. }
  destruct (max_len_bound bases (2 ^ 53) Hs eq_refl) as [Hm Hle].
  assert (Forall2 (fun d b => plain d /\ encodeBlindedHopData d = Ok b /\ 0 <= padding_of bases b < 2 ^ 64)
    datas bases) as Hall.
  { unfold padding_of. clear -Hp Hb Hm Hle. revert Hm Hle. generalize (max_len bases). intros m Hm Hle.
    induction Hb as [|d b datas bases Hdb _ IH]; [done|].
    apply Forall_cons in Hp as [Hd Hp]. apply Forall_cons in Hle as [Hbm Hle].
    pose proof (blen_nonneg b). constructor; [split_and!; try done; lia|auto]. }
  assert (plaintexts = map (fun b => record_bytes (pad_record (padding_of bases b)) ++ b) bases /\
    Forall2 (fun b d => decodeBlindedHopData b = Ok d /\ bd_nextPathKeyOverride d = None) plaintexts
      (zip_with (fun d b => with_padding d (padding_of bases b)) datas bases)) as [Hpt1 Hpt2].
  { apply mapM_Forall2 in Hpt. unfold padding_of in *. revert plaintexts Hpt Hh Hall.
    generalize (max_len bases). clear. intros m plaintexts Hpt _ Hall. revert plaintexts Hpt.
    induction Hall as [|d b datas bases (Hpl & Hdb & Hn) _ IH]; intros plaintexts Hpt;
      inversion Hpt as [|? pt ? pts Hx Hr]; subst; [split; constructor|].
    destruct (padded_bytes d b (m - blen b) Hpl Hdb Hn) as (b' & Eb & Hd & Hby).
    cbn in Hx. rewrite Eb in Hx. injection Hx as <-. destruct (IH _ Hr) as [-> Hf].
    cbn [map]. rewrite Hby. split; [done|]. cbn [zip_with]. constructor; [|done]. rewrite <- Hby. split; [done|].
    destruct Hpl as [_ _ Ho _]. by destruct d. }
  split_and!; try done.
  - lia.
  - intros ->. by cbn in H1.
  - eapply Forall_impl; [exact Hle|]. unfold padding_of. cbn. intros b ?. lia.
Qed.

Lemma Forall2_In {X Y} (P : X -> Y -> Prop) l l' y : Forall2 P l l' -> In y l' -> exists x, In x l /\ P x y.
Proof.
  induction 1 as [|x y' l l' Hxy _ IH]; [done|]. intros [->|Hin]; [exists x; split; [by left|done]|].
  destruct (IH Hin) as (x' & ? & ?). exists x'. split; [by right|done].
Qed.

Lemma max_len_close l m k : (forall x, In x l -> blen x - m < k) -> - m < k -> max_len l - m < k.
Proof.
  unfold max_len. induction l as [|x l IH]; intros Hx H0; [cbn; lia|].
  cbn [map fold_right]. pose proof (Hx x (or_introl eq_refl)).
  assert (fold_right Z.max 0 (map blen l) - m < k) by (apply IH; [intros; apply Hx; by right|done]). lia.
Qed.

Lemma padded_length n b : 0 <= n < 253 -> blen (record_bytes (pad_record n) ++ b) = n + 2 + blen b.
Proof.
  intros Hn. unfold record_bytes, pad_record. cbn [tlv_type tlv_value]. rewrite !blen_app, blen_alloc by lia.
  assert (blen (bigsize n) = 1) as ->; [|change (blen (bigsize ERD_PADDING)) with 1; lia].
  unfold bigsize. rewrite (proj2 (Z.ltb_lt _ _)) by lia. done.
Qed.

Lemma blind_hops_length n l : forall plaintexts hops,
  Forall (fun pt => blen pt = n) plaintexts -> mapM blind_hop (combine l plaintexts) = Ok hops ->
  Forall (fun hop => blen (encryptedData hop) = n + 16) hops.
Proof.
  induction l as [|[pub ss] l IH]; intros plaintexts hops Hpl Hh; [by injection Hh as <-|].
  destruct Hpl as [|pt plaintexts Hpt Hpl]; [by injection Hh as <-|]. cbn [combine] in Hh.
  rewrite mapM_cons in Hh. apply bind_Ok_inv in Hh as (hop & Hx & Hh).
  apply bind_Ok_inv in Hh as (hops' & Hh & [= <-]). constructor; [|by eapply IH].
  unfold blind_hop in Hx. apply bind_Ok_inv in Hx as (id & _ & Hx).
  destruct (blinded_data_opens ss pt) as (enc & He & _ & Hl). rewrite He in Hx. injection Hx as <-. cbn. lia.
Qed.

(** Unless the data of two hops differ by 253 bytes or more, the
    encrypted data of all hops of a path have the same length, so that the length tells
    nothing about a hop's role. *)
Theorem blinded_hops_uniform (secret : buffer) (pubkeys : list buffer) (datas : list IBlindedHopData)
    (path : IBlindedPath) (Hplain : Forall plain datas)
    (Hclose : forall d d' b b', In d datas -> In d' datas -> encodeBlindedHopData d = Ok b ->
       encodeBlindedHopData d' = Ok b' -> blen b - blen b' < 253)
    (Hpath : constructBlindedPath secret pubkeys datas = Ok path) :
  exists n, Forall (fun hop => blen (encryptedData hop) = n) (blindedHops path).
Proof.
  destruct (construct_inv _ _ _ _ Hplain Hpath)
    as (bases & keys & secrets & plaintexts & Hb & _ & _ & _ & Hpt & _ & Hpos & Hh & _).
  exists (max_len bases + 2 + 16). eapply blind_hops_length; [|exact Hh]. subst plaintexts.
  apply List.Forall_map, List.Forall_forall. intros b Hin. unfold compose.
  rewrite List.Forall_forall in Hpos. specialize (Hpos b Hin). unfold padding_of in *.
  assert (max_len bases - blen b < 253) as Hlt.
  { apply max_len_close; [|pose proof (blen_nonneg b); lia]. intros x Hx.
    destruct (Forall2_In _ _ _ _ Hb Hin) as (d & Hd & Ed). destruct (Forall2_In _ _ _ _ Hb Hx) as (d' & Hd' & Ed').
    by apply (Hclose d' d). }
  rewrite padded_length by lia. lia.
Qed.

(** ** The onion along the path *)

Lemma unblinds_keys nodes : forall key hops datas privs,
  unblinds key nodes hops datas privs ->
  Forall2 (fun priv id => getPublicKey priv = Ok id) privs (map blindedNodeId hops).
Proof.
  induction nodes as [|node nodes IH]; intros key [|hop hops] [|d datas] [|priv privs]; try done.
  intros (_ & Hk & next & _ & Hr). constructor; [done|]. by eapply IH.
Qed.

Lemma blinded_travel_cons incoming onion node rest paymentHash :
  blinded_travel incoming onion (node :: rest) paymentHash =
    ('(payload, data, packet, next) ← blinded_hop incoming onion node paymentHash;
     others ← blinded_travel (Some next) (encodeOnionPacket packet) rest paymentHash;
     Some ((payload, data) :: others)).
Proof. done. Qed.

(** A node whose onion key is [priv] and whose blinding point is [key] takes part in the
    journey of the onion and reads its data. *)
Lemma travel_blinded paymentHash nodes : forall priv privs incoming onion payloads secrets final key node d datas p hop hops,
  onion_privkey incoming node = Ok priv ->
  match hp_blindingPoint p with Some q => Some q | None => incoming end = Some key ->
  hp_encryptedRecipientData p = Some (encryptedData hop) ->
  (exists next, processBlindedHop key node (encryptedData hop) = Ok (d, next) /\
     unblinds next nodes hops datas privs) ->
  Forall2 (carries None) payloads hops ->
  travel (ecc_isPoint := ecc_isPoint) paymentHash onion (priv :: privs) = Some (combine (p :: payloads) secrets, final) ->
  blinded_travel incoming onion (node :: nodes) paymentHash = Some (combine (p :: payloads) (d :: datas)).
Proof.
  induction nodes as [|node' nodes IH];
    intros priv privs incoming onion payloads secrets final key node d datas p hop hops
      Hpriv Hkey Henc (next & Hproc & Hun) Hpay Ht; cbn [travel] in Ht.
  all: destruct (decodeOnionPacket onion) as [packet|] eqn:Ed; [|done].
  all: destruct (processOnionPacket ecc_isPoint packet priv paymentHash) as [o| |] eqn:Ep; [|done..].
  all: rewrite blinded_travel_cons; unfold blinded_hop; rewrite Hpriv, Ed, Ep.
  - destruct hops, datas, privs; try done. inversion Hpay; subst. cbn in Ht.
    destruct secrets; [done|]. injection Ht as -> _ _. by rewrite Hkey, Henc, Hproc.
  - destruct hops as [|hop' hops], datas as [|d' datas], privs as [|priv' privs]; try done.
    destruct Hun as (Hpriv' & _ & Hun'). inversion Hpay as [|p' ? payloads' ? [Henc' Hbp'] Hpay']; subst.
    destruct (travel paymentHash (encodeOnionPacket (po_nextPacket o)) (priv' :: privs))
      as [[others final']|] eqn:Et; [|done].
    destruct secrets as [|ss secrets]; [done|]. cbn [combine] in Ht. injection Ht as -> _ -> ->.
    rewrite Hkey, Henc, Hproc. cbn [mbind option_bind].
    assert (blinded_travel (Some next) (encodeOnionPacket (po_nextPacket o)) (node' :: nodes) paymentHash =
      Some (combine (p' :: payloads') (d' :: datas))) as ->; [|done].
    eapply (IH priv' privs); [exact Hpriv'| |exact Henc'|exact Hun'|exact Hpay'|exact Et].
    by rewrite Hbp'.
Qed.

Lemma chain_hd secret pubkeys keys secrets nodes :
  Forall2 (fun node pub => getPublicKey node = Ok pub) nodes pubkeys -> pubkeys <> [] ->
  deriveBlindingKeyChain secret pubkeys = Ok (keys, secrets) ->
  chain_found nodes keys secrets /\ match keys with [] => nodes = [] | k :: _ => k = List.hd [] keys end.
Proof.
  intros Hn Hne (key & Hk & Hc)%bind_Ok_inv. destruct (chain_found_by_nodes _ _ _ _ _ _ Hn Hk Hc) as [Hf Hhd].
  split; [done|]. by destruct keys.
Qed.

(** C32: the nodes of a blinded path hold keys for the ids the sender
    addresses, and whatever onion can be sent to those ids, with the data of the path in
    its payloads, is delivered: each node, from the blinding point the one before it
    derived, peels its layer, reads the payload meant for it and decrypts the data that
    the creator of the path wrote for it, up to the padding. *)
Theorem blinded_route_delivers (secret : buffer) (nodes pubkeys : list buffer)
    (datas : list IBlindedHopData) (path : IBlindedPath)
    (Hkeys : Forall2 (fun node pub => getPublicKey node = Ok pub) nodes pubkeys)
    (Hplain : Forall plain datas) (Hpath : constructBlindedPath secret pubkeys datas = Ok path) :
  exists privs seen,
    Forall2 (fun priv id => getPublicKey priv = Ok id) privs (path_pubkeys path) /\
    Forall2 (fun d d' => exists n, d' = with_padding d n) datas seen /\
    forall sessionKey payloads secrets paymentHash,
      sendable sessionKey privs (path_pubkeys path) payloads secrets -> path_payloads path payloads ->
      exists packet,
        constructOnionPacket sessionKey (combine (path_pubkeys path) payloads) paymentHash = Ok packet /\
        blinded_travel None (encodeOnionPacket packet) nodes paymentHash = Some (combine payloads seen).
Proof.
  destruct (construct_inv _ _ _ _ Hplain Hpath)
    as (bases & keys & secrets & plaintexts & Hb & Hc & Hl & Hne & _ & Hdec & _ & Hh & Hintro & Hpoint).
  destruct (chain_hd _ _ _ _ _ Hkeys Hne Hc) as [Hf Hhd]. pose proof (Forall2_length _ _ _ Hkeys) as Hnl.
  assert (Forall2 (fun d d' => exists n, d' = with_padding d n) datas
    (zip_with (fun d b => with_padding d (padding_of bases b)) datas bases)) as Hpad.
  { generalize (padding_of bases). clear -Hb. intros f.
    induction Hb as [|d b datas bases _ _ IH]; [constructor|]. cbn. constructor; [by exists (f b)|done]. }
  revert Hdec Hpad. generalize (zip_with (fun d b => with_padding d (padding_of bases b)) datas bases).
  intros seen Hdec Hpad. pose proof (Forall2_length _ _ _ Hpad) as Hsl.
  destruct (path_unblinds _ _ _ _ _ _ _ _ Hkeys Hf Hhd Hh Hdec ltac:(lia)) as [privs Hu].
  destruct nodes as [|node nodes]; [by inversion Hkeys; subst|].
  inversion Hkeys as [|? pub ? pubs Hnode Hrest]; subst. cbn [List.hd] in Hintro.
  destruct (blindedHops path) as [|hop hops] eqn:Ehops; [done|].
  destruct seen as [|d seen]; [done|]. destruct privs as [|priv privs]; [done|].
  destruct Hu as (_ & _ & Hu). exists (node :: privs), (d :: seen). split_and!.
  - unfold path_pubkeys. rewrite Ehops, Hintro. constructor; [done|]. destruct Hu as (next & _ & Hu).
    by eapply unblinds_keys.
  - done.
  - intros sessionKey payloads ss paymentHash Hs Hp.
    destruct (onion_delivered paymentHash _ _ _ _ _ Hs) as (packet & final & Hcon & Ht & _).
    exists packet. split; [exact Hcon|]. unfold path_payloads in Hp. rewrite Ehops in Hp.
    destruct payloads as [|p payloads]; [done|]. destruct Hp as [[Henc Hbp] Hpay].
    eapply (travel_blinded paymentHash nodes node privs); [done| |exact Henc|exact Hu|exact Hpay|exact Ht].
    by rewrite Hbp, Hpoint.
Qed.

End Route.

(** ** Concrete inputs *)

#[local] Existing Instances toy_curve toy_onion toy_laws.

#[local] Instance toy_aead : AeadLib :=
  {| chacha20Poly1305Encrypt := fun _ _ plaintext _ => plaintext ++ alloc 16;
     chacha20Poly1305Decrypt := fun _ _ c _ => Ok (subarray c 0 (blen c - 16)) |}.

#[local] Instance toy_aead_laws : AeadLaws.
Proof.
  constructor; cbn; intros.
  - f_equal. rewrite blen_app. apply subarray_hd; [done|]. change (blen (alloc 16)) with 16. lia.
  - by rewrite blen_app.
Qed.

(** Two hops: the introduction node relays, the recipient knows its path id. *)
Definition relay_data : IBlindedHopData :=
  {| bd_padding := None; bd_shortChannelId := Some (be 8 700000); bd_nextNodeId := None; bd_pathId := None;
     bd_nextPathKeyOverride := None;
     bd_paymentRelay := Some {| pr_cltvExpiryDelta := 40; pr_feeProportionalMillionths := 100; pr_feeBaseMsat := Fin 1000 |};
     bd_paymentConstraints := Some {| pc_maxCltvExpiry := 800000; pc_htlcMinimumMsat := 1 |};
     bd_holdHtlc := None; bd_holdRegistrationId := None |}.

Definition recipient_data : IBlindedHopData :=
  {| bd_padding := None; bd_shortChannelId := None; bd_nextNodeId := None; bd_pathId := Some (be 32 99);
     bd_nextPathKeyOverride := None; bd_paymentRelay := None; bd_paymentConstraints := None;
     bd_holdHtlc := None; bd_holdRegistrationId := None |}.

Lemma toy_plain : Forall plain [relay_data; recipient_data].
Proof.
  repeat constructor; try done; cbn; try lia; eauto with lia;
    intros b Hb; vm_compute in Hb; injection Hb as <-; done.
Qed.

Definition toy_pubkeys : list buffer := [x02 :: be 32 5; x02 :: be 32 7].

Lemma toy_path_keys : Forall2 (fun node pub => getPublicKey node = Ok pub) [be 32 5; be 32 7] toy_pubkeys.
Proof. by repeat constructor. Qed.

Lemma blinded_hops_uniform_witness :
  exists path, constructBlindedPath (be 32 3) toy_pubkeys [relay_data; recipient_data] = Ok path /\
    exists n, Forall (fun hop => blen (encryptedData hop) = n) (blindedHops path).
Proof.
  eexists. split; [vm_compute; reflexivity|].
  refine (blinded_hops_uniform (fun _ => true) (be 32 3) toy_pubkeys [relay_data; recipient_data] _ toy_plain _ _).
  - intros d d' b b' [<-|[<-|[]]] [<-|[<-|[]]] Hb Hb'; vm_compute in Hb, Hb'; injection Hb as <-; injection Hb' as <-;
      by vm_compute.
  - vm_compute. reflexivity.
Defined.

(** The payload of a blinded hop: only its data and, for the first, the blinding point. *)
Definition blinded_payload (point : option buffer) (hop : IBlindedHop) : IHopPayload :=
  {| hp_shortChannelId := None; hp_amountToForwardMsat := 0; hp_outgoingCltvValue := Fin 0;
     hp_paymentSecret := None; hp_totalMsat := None; hp_encryptedRecipientData := Some (encryptedData hop);
     hp_blindingPoint := point; hp_totalAmountMsat := None; hp_customRecords := None;
     hp_omitForwardAmounts := Some true |}.

Lemma blinded_payload_wf point hop :
  blen (encryptedData hop) < 2 ^ 16 -> opt_all (fun p => blen p = 33) point -> hop_wf (blinded_payload point hop).
Proof.
  intros He Hp. pose proof (blen_nonneg (encryptedData hop)).
  constructor; cbn -[hop_records stream_bytes blen Z.pow]; try done; try lia.
  - exists 0. split; [done|lia].
  - right. split_and!; [done..|]. by eexists.
  - intros b ->. exact Hp.
  - intros rs. unfold hop_records. cbn -[stream_bytes blen Z.pow]. intros [= <-].
    destruct point as [p|]; cbn -[stream_bytes record_bytes blen Z.pow] in Hp |- *;
      rewrite ?stream_bytes_cons, stream_bytes_nil, app_nil_r, ?blen_app; unfold record_bytes, hop_record;
      cbn [tlv_type tlv_value]; rewrite !blen_app; change (blen (bigsize 10)) with 1;
      change (blen (bigsize 12)) with 1; pose proof (blen_bigsize (blen (encryptedData hop)));
      [pose proof (blen_bigsize (blen p))|]; lia.
Qed.

Definition toy_blinded : IBlindedPath :=
  Eval vm_compute in
    match constructBlindedPath (be 32 3) toy_pubkeys [relay_data; recipient_data] with
    | Ok path => path
    | Err _ => {| introductionNodeId := []; blindingPoint := []; blindedHops := [] |}
    end.

Definition toy_payloads : list IHopPayload :=
  match blindedHops toy_blinded with
  | hop :: hops => blinded_payload (Some (blindingPoint toy_blinded)) hop :: map (blinded_payload None) hops
  | [] => []
  end.

Lemma toy_payloads_wf : Forall hop_wf toy_payloads.
Proof. constructor; [by apply blinded_payload_wf|]. constructor; [by apply blinded_payload_wf|done]. Qed.

Lemma blinded_route_delivers_witness :
  constructBlindedPath (be 32 3) toy_pubkeys [relay_data; recipient_data] = Ok toy_blinded /\
  exists packet seen, length seen = 2%nat /\
    constructOnionPacket (be 32 11) (combine (path_pubkeys toy_blinded) toy_payloads) None = Ok packet /\
    blinded_travel (fun _ => true) None (encodeOnionPacket packet) [be 32 5; be 32 7] None =
      Some (combine toy_payloads seen).
Proof.
  assert (constructBlindedPath (be 32 3) toy_pubkeys [relay_data; recipient_data] = Ok toy_blinded) as E
    by (vm_compute; reflexivity).
  split; [exact E|].
  destruct (blinded_route_delivers (fun _ => true) (be 32 3) [be 32 5; be 32 7] toy_pubkeys
    [relay_data; recipient_data] toy_blinded toy_path_keys toy_plain E) as (privs & seen & Hk & Hs & Hd).
  destruct (computeSharedSecrets (be 32 11) (path_pubkeys toy_blinded)) as [[secrets ephs]|] eqn:Ec;
    [|vm_compute in Ec; discriminate Ec].
  destruct (Hd (be 32 11) toy_payloads secrets None) as (packet & Hc & Ht).
  - assert (length privs = 2%nat) as Hl by exact (Forall2_length _ _ _ Hk). constructor.
    + lia.
    + exact Hk.
    + by rewrite Hl.
    + apply toy_payloads_wf.
    + eexists. split; [vm_compute; reflexivity|by vm_compute].
    + exists ephs. exact Ec.
  - split; [split; reflexivity|]. constructor; [split; reflexivity|constructor].
  - exists packet, seen. split; [by rewrite <- (Forall2_length _ _ _ Hs)|]. split; [exact Hc|exact Ht].
Defined.
