(* ===== verification/InteractiveTx.v ===== *)
(** * Interactive transaction construction (src/src/lightning/interactive-tx)

    validation.ts and builder.ts: both peers add inputs and outputs to a session and then
    signal that they are done.  An operation that returns an error text or null returns
    [option string] here.  The parser of transactions is a library function ([TxLib]). *)

From S2P Require Import Prelude Buffer CommitmentTx JsMap.
From stdpp Require Import pretty.
From Stdlib Require Import Strings.Byte.
Local Open Scope Z_scope.

(** ** types.ts *)

Inductive InteractiveTxState :=
| COLLECTING | SENT_COMPLETE | RECEIVED_COMPLETE | COMPLETE | ABORTED.

#[global] Instance itx_state_dec : EqDecision InteractiveTxState.
Proof. solve_decision. Defined.

Record IInteractiveTxInput := {
  in_serialId : Z;
  in_prevTxid : buffer;
  in_prevOutputIndex : Z;
  in_sequence : Z;
  in_prevTx : option buffer;
  in_prevTxVout : option Z;
  in_isShared : option bool
}.

Record IInteractiveTxOutput := {
  out_serialId : Z;
  out_amountSats : Z;
  out_scriptPubkey : buffer
}.

Record IInteractiveTxSession := {
  it_isInitiator : bool;
  it_state : InteractiveTxState;
  it_inputs : @jsmap IInteractiveTxInput;
  it_outputs : @jsmap IInteractiveTxOutput;
  it_locktime : Z;
  it_nextSerialId : Z;
  it_peerAddInputMsgs : option Z;
  it_peerAddOutputMsgs : option Z
}.

(** ** validation.ts *)

Definition DUST_LIMIT_SATS : Z := 546.
Definition MAX_INTERACTIVE_TX_INPUTS : Z := 252.
Definition MAX_INTERACTIVE_TX_OUTPUTS : Z := 252.
Definition MAX_INTERACTIVE_TX_MSGS : Z := 4096.
Definition MAX_INTERACTIVE_TX_SEQUENCE : Z := 0xfffffffd.
Definition MAX_PEER_PREVTX_BYTES_PER_SESSION : Z := 1024 * 1024.
Definition MAX_MONEY_SATS : Z := 2100000000000000.
Definition MAX_STANDARD_TX_WEIGHT : Z := 400000.

(** A parsed previous transaction: its outputs and its hash. *)
Record prev_output := { po_value : Z; po_script : buffer }.
Record prev_transaction := { pt_outs : list prev_output; pt_hash : buffer }.

Class TxLib := { Transaction_fromBuffer : buffer -> option prev_transaction }.

(** [arr[i]] *)
Definition out_at (outs : list prev_output) (i : Z) : option prev_output :=
  if i <? 0 then None else outs !! Z.to_nat i.

Section Validation.
Context `{T : TxLib}.

Definition isVersionOp (version : Z) : bool := (version =? 0) || ((0x51 <=? version) && (version <=? 0x60)).

Definition validatePeerInputPrevTx (prevTx : option buffer) (prevTxVout : Z) : option string :=
  match prevTx with
  | None | Some [] => Some "tx_add_input is missing prev_tx"
  | Some bytes =>
      match Transaction_fromBuffer bytes with
      | None => Some "tx_add_input prev_tx does not parse as a valid transaction"
      | Some tx =>
          if prevTxVout <? 0 then Some "tx_add_input prev_tx_vout is invalid"
          else match out_at (pt_outs tx) prevTxVout with
          | None => Some "tx_add_input prev_tx_vout is out of range"
          | Some out =>
              let script := po_script out in
              let version := byte_at script 0 in
              let pushLen := if 2 <=? blen script then byte_at script 1 else 0 in
              if negb (isVersionOp version) || (pushLen <? 2) || (40 <? pushLen) ||
                 negb (blen script =? pushLen + 2)
              then Some "tx_add_input spends a non-native-segwit output"
              else None
          end
      end
  end.

Definition is_even (serialId : Z) : bool := Z.rem serialId 2 =? 0.

Definition validateSerialIdParity (serialId : Z) (isInitiator : bool) : option string :=
  if isInitiator && negb (is_even serialId) then Some "Initiator must use even serial IDs"
  else if negb isInitiator && is_even serialId then Some "Acceptor must use odd serial IDs"
  else None.

Definition validatePeerSerialIdParity (serialId : Z) (weAreInitiator : bool) : option string :=
  validateSerialIdParity serialId (negb weAreInitiator).

(** [seen] holds the outpoints of the inputs before. *)
Fixpoint duplicate_prevouts (seen : list (buffer * Z)) (inputs : list IInteractiveTxInput) : option string :=
  match inputs with
  | [] => None
  | input :: inputs =>
      let key := (in_prevTxid input, in_prevOutputIndex input) in
      if bool_decide (key ∈ seen) then Some "Duplicate prevout" else duplicate_prevouts (key :: seen) inputs
  end.

Definition checkDuplicatePrevouts (inputs : list IInteractiveTxInput) : option string :=
  duplicate_prevouts [] inputs.

Fixpoint dust_outputs (dust : Z) (outputs : list IInteractiveTxOutput) : option string :=
  match outputs with
  | [] => None
  | output :: outputs =>
      if out_amountSats output <? dust then Some "Output amount below dust limit"
      else if MAX_MONEY_SATS <? out_amountSats output then Some "Output amount exceeds MAX_MONEY"
      else dust_outputs dust outputs
  end.

Definition checkDustOutputs (outputs : list IInteractiveTxOutput) (dustLimitSats : Z) : option string :=
  let dust := if DUST_LIMIT_SATS <? dustLimitSats then dustLimitSats else DUST_LIMIT_SATS in
  dust_outputs dust outputs.

Definition validateInteractiveTx (inputs : list IInteractiveTxInput) (outputs : list IInteractiveTxOutput)
    (dustLimitSats : Z) : option string :=
  if Z.of_nat (length inputs) =? 0 then Some "Transaction must have at least one input"
  else if Z.of_nat (length outputs) =? 0 then Some "Transaction must have at least one output"
  else if MAX_INTERACTIVE_TX_INPUTS * 2 <? Z.of_nat (length inputs) then Some "inputs above the interactive-tx cap"
  else if MAX_INTERACTIVE_TX_OUTPUTS * 2 <? Z.of_nat (length outputs) then Some "outputs above the interactive-tx cap"
  else match checkDuplicatePrevouts inputs with
  | Some e => Some e
  | None => checkDustOutputs outputs dustLimitSats
  end.

(** [Math.floor((weight * rate) / 1000)], exact for the weights and rates in use *)
Definition checkFeeSufficiency (fee weight minFeeratePerKw : Z) : option string :=
  let minFee := (weight * minFeeratePerKw) / 1000 in
  if fee <? minFee then Some "Fee is below minimum" else None.

Definition validateCompletedInteractiveTx (remoteInputSats remoteOutputSats remoteContributionSats feeSats
    weight feeratePerKw : Z) : option string :=
  if MAX_STANDARD_TX_WEIGHT <? weight then Some "Transaction weight exceeds the standard limit"
  else
    let owed := remoteOutputSats + remoteContributionSats in
    let remoteOwes := if 0 <? owed then owed else 0 in
    if remoteInputSats <? remoteOwes then Some "Peer inputs do not cover its outputs and contribution"
    else if feeSats <? 0 then Some "Negotiated transaction outputs exceed its inputs"
    else checkFeeSufficiency feeSats weight feeratePerKw.

Definition calculateTxFee (inputValues : list Z) (outputs : list IInteractiveTxOutput) : Z :=
  fold_left Z.add inputValues 0 - fold_left (fun s o => s + out_amountSats o) outputs 0.

(** ** builder.ts *)

Record InteractiveTxBuilder := {
  b_session : IInteractiveTxSession;
  b_dustLimitSats : Z;
  b_peerPrevTxBytes : Z
}.

Definition new_InteractiveTxBuilder (isInitiator : bool) (locktime : Z) : InteractiveTxBuilder :=
  {| b_session := {| it_isInitiator := isInitiator; it_state := COLLECTING; it_inputs := []; it_outputs := [];
                     it_locktime := locktime; it_nextSerialId := if isInitiator then 0 else 1;
                     it_peerAddInputMsgs := None; it_peerAddOutputMsgs := None |};
     b_dustLimitSats := 546; b_peerPrevTxBytes := 0 |}.

Definition setDustLimit (sats : Z) (b : InteractiveTxBuilder) : InteractiveTxBuilder :=
  if b_dustLimitSats b <? sats
  then {| b_session := b_session b; b_dustLimitSats := sats; b_peerPrevTxBytes := b_peerPrevTxBytes b |}
  else b.

(** The side a serial id belongs to. *)
Definition countBySide (serials : list Z) (initiatorSide : bool) : Z :=
  Z.of_nat (length (List.filter (fun s => Bool.eqb (is_even s) initiatorSide) serials)).

Definition getState (b : InteractiveTxBuilder) : InteractiveTxState := it_state (b_session b).

Definition isComplete (b : InteractiveTxBuilder) : bool := bool_decide (getState b = COMPLETE).

Definition isAborted (b : InteractiveTxBuilder) : bool := bool_decide (getState b = ABORTED).

(** A session with some fields changed. *)
Definition with_session (f : IInteractiveTxSession -> IInteractiveTxSession) (b : InteractiveTxBuilder)
    : InteractiveTxBuilder :=
  {| b_session := f (b_session b); b_dustLimitSats := b_dustLimitSats b;
     b_peerPrevTxBytes := b_peerPrevTxBytes b |}.

Definition set_state (st : InteractiveTxState) (s : IInteractiveTxSession) : IInteractiveTxSession :=
  {| it_isInitiator := it_isInitiator s; it_state := st; it_inputs := it_inputs s; it_outputs := it_outputs s;
     it_locktime := it_locktime s; it_nextSerialId := it_nextSerialId s;
     it_peerAddInputMsgs := it_peerAddInputMsgs s; it_peerAddOutputMsgs := it_peerAddOutputMsgs s |}.

Definition set_inputs (m : @jsmap IInteractiveTxInput) (s : IInteractiveTxSession) : IInteractiveTxSession :=
  {| it_isInitiator := it_isInitiator s; it_state := it_state s; it_inputs := m; it_outputs := it_outputs s;
     it_locktime := it_locktime s; it_nextSerialId := it_nextSerialId s;
     it_peerAddInputMsgs := it_peerAddInputMsgs s; it_peerAddOutputMsgs := it_peerAddOutputMsgs s |}.

Definition set_outputs (m : @jsmap IInteractiveTxOutput) (s : IInteractiveTxSession) : IInteractiveTxSession :=
  {| it_isInitiator := it_isInitiator s; it_state := it_state s; it_inputs := it_inputs s; it_outputs := m;
     it_locktime := it_locktime s; it_nextSerialId := it_nextSerialId s;
     it_peerAddInputMsgs := it_peerAddInputMsgs s; it_peerAddOutputMsgs := it_peerAddOutputMsgs s |}.

Definition nextSerialIdForUs (b : InteractiveTxBuilder) : InteractiveTxBuilder * Z :=
  let s := b_session b in
  (with_session (fun s =>
     {| it_isInitiator := it_isInitiator s; it_state := it_state s; it_inputs := it_inputs s;
        it_outputs := it_outputs s; it_locktime := it_locktime s; it_nextSerialId := it_nextSerialId s + 2;
        it_peerAddInputMsgs := it_peerAddInputMsgs s; it_peerAddOutputMsgs := it_peerAddOutputMsgs s |}) b,
   it_nextSerialId s).

(** [if (state === SENT_COMPLETE) state = COLLECTING] *)
Definition reopen (s : IInteractiveTxSession) : IInteractiveTxSession :=
  if bool_decide (it_state s = SENT_COMPLETE) then set_state COLLECTING s else s.

(** The tests at the head of every add: a session that is over takes nothing. *)
Definition closed_session (b : InteractiveTxBuilder) : option string :=
  match getState b with
  | ABORTED => Some "Session is aborted"
  | COMPLETE => Some "Session is already complete"
  | _ => None
  end.

Definition addInput (input : IInteractiveTxInput) (b : InteractiveTxBuilder)
    : InteractiveTxBuilder * option string :=
  let s := b_session b in
  match closed_session b with
  | Some e => (b, Some e)
  | None =>
      match validateSerialIdParity (in_serialId input) (it_isInitiator s) with
      | Some e => (b, Some e)
      | None =>
          let key := pretty (in_serialId input) in
          if has key (it_inputs s) then (b, Some "Input with this serial ID already exists")
          else (with_session (fun s => reopen (set_inputs (set key input (it_inputs s)) s)) b, None)
      end
  end.

(** The message counters. *)
Definition count_input_msg (s : IInteractiveTxSession) : IInteractiveTxSession :=
  {| it_isInitiator := it_isInitiator s; it_state := it_state s; it_inputs := it_inputs s;
     it_outputs := it_outputs s; it_locktime := it_locktime s; it_nextSerialId := it_nextSerialId s;
     it_peerAddInputMsgs := Some (default 0 (it_peerAddInputMsgs s) + 1);
     it_peerAddOutputMsgs := it_peerAddOutputMsgs s |}.

Definition count_output_msg (s : IInteractiveTxSession) : IInteractiveTxSession :=
  {| it_isInitiator := it_isInitiator s; it_state := it_state s; it_inputs := it_inputs s;
     it_outputs := it_outputs s; it_locktime := it_locktime s; it_nextSerialId := it_nextSerialId s;
     it_peerAddInputMsgs := it_peerAddInputMsgs s;
     it_peerAddOutputMsgs := Some (default 0 (it_peerAddOutputMsgs s) + 1) |}.

Definition prev_bytes (input : IInteractiveTxInput) : Z := default 0 (blen <$> in_prevTx input).

Definition input_serials (s : IInteractiveTxSession) : list Z := map in_serialId (values (it_inputs s)).
Definition output_serials (s : IInteractiveTxSession) : list Z := map out_serialId (values (it_outputs s)).

(** The first of a list of refusals. *)
Fixpoint first_error (checks : list (option string)) : option string :=
  match checks with
  | [] => None
  | Some e :: _ => Some e
  | None :: checks => first_error checks
  end.

Definition check (refused : bool) (e : string) : option string := if refused then Some e else None.

(** What addPeerInput checks, in order, once the message is counted. *)
Definition peer_input_error (input : IInteractiveTxInput) (prevTxBytesFree : option Z)
    (b : InteractiveTxBuilder) : option string :=
  let s := b_session b in
  let bytes := prev_bytes input in
  first_error
    [check (MAX_INTERACTIVE_TX_MSGS <? default 0 (it_peerAddInputMsgs s)) "Peer exceeded tx_add_input messages";
     validatePeerSerialIdParity (in_serialId input) (it_isInitiator s);
     check (MAX_INTERACTIVE_TX_SEQUENCE <? in_sequence input) "tx_add_input sequence must be <= 0xfffffffd";
     if default false (in_isShared input) then None
     else validatePeerInputPrevTx (in_prevTx input) (default (in_prevOutputIndex input) (in_prevTxVout input));
     check (MAX_INTERACTIVE_TX_INPUTS <=? countBySide (input_serials s) (negb (it_isInitiator s)))
       "Peer exceeded inputs";
     check (MAX_PEER_PREVTX_BYTES_PER_SESSION <? b_peerPrevTxBytes b + bytes) "Peer prev_tx bytes would exceed the session";
     check (match prevTxBytesFree with Some free => free <? bytes | None => false end)
       "Peer prev_tx bytes would exceed the node-wide budget";
     check (has (pretty (in_serialId input)) (it_inputs s)) "Input with this serial ID already exists"].

Definition addPeerInput (input : IInteractiveTxInput) (prevTxBytesFree : option Z) (b : InteractiveTxBuilder)
    : InteractiveTxBuilder * option string :=
  match closed_session b with
  | Some e => (b, Some e)
  | None =>
      let b := with_session count_input_msg b in
      match peer_input_error input prevTxBytesFree b with
      | Some e => (b, Some e)
      | None =>
          let key := pretty (in_serialId input) in
          let b := {| b_session := set_inputs (set key input (it_inputs (b_session b))) (b_session b);
                      b_dustLimitSats := b_dustLimitSats b;
                      b_peerPrevTxBytes := b_peerPrevTxBytes b + prev_bytes input |} in
          (with_session reopen b, None)
      end
  end.

Definition addOutput (output : IInteractiveTxOutput) (b : InteractiveTxBuilder)
    : InteractiveTxBuilder * option string :=
  let s := b_session b in
  match closed_session b with
  | Some e => (b, Some e)
  | None =>
      match validateSerialIdParity (out_serialId output) (it_isInitiator s) with
      | Some e => (b, Some e)
      | None =>
          let key := pretty (out_serialId output) in
          if has key (it_outputs s) then (b, Some "Output with this serial ID already exists")
          else (with_session (fun s => reopen (set_outputs (set key output (it_outputs s)) s)) b, None)
      end
  end.

(** What addPeerOutput checks, in order, once the message is counted. *)
Definition peer_output_error (output : IInteractiveTxOutput) (b : InteractiveTxBuilder) : option string :=
  let s := b_session b in
  first_error
    [check (MAX_INTERACTIVE_TX_MSGS <? default 0 (it_peerAddOutputMsgs s)) "Peer exceeded tx_add_output messages";
     validatePeerSerialIdParity (out_serialId output) (it_isInitiator s);
     check (MAX_INTERACTIVE_TX_OUTPUTS <=? countBySide (output_serials s) (negb (it_isInitiator s)))
       "Peer exceeded outputs";
     check (MAX_MONEY_SATS <? out_amountSats output) "Output amount exceeds MAX_MONEY";
     check (out_amountSats output <? b_dustLimitSats b) "Output amount below dust limit";
     check (has (pretty (out_serialId output)) (it_outputs s)) "Output with this serial ID already exists"].

Definition addPeerOutput (output : IInteractiveTxOutput) (b : InteractiveTxBuilder)
    : InteractiveTxBuilder * option string :=
  match closed_session b with
  | Some e => (b, Some e)
  | None =>
      let b := with_session count_output_msg b in
      match peer_output_error output b with
      | Some e => (b, Some e)
      | None =>
          let key := pretty (out_serialId output) in
          (with_session (fun s => reopen (set_outputs (set key output (it_outputs s)) s)) b, None)
      end
  end.

Definition removeInput (serialId : Z) (b : InteractiveTxBuilder) : InteractiveTxBuilder * option string :=
  let key := pretty serialId in
  if negb (has key (it_inputs (b_session b))) then (b, Some "Input with this serial ID not found")
  else (with_session (fun s => reopen (set_inputs (del key (it_inputs s)) s)) b, None).

Definition removePeerInput (serialId : Z) (b : InteractiveTxBuilder) : InteractiveTxBuilder * option string :=
  let key := pretty serialId in
  match get key (it_inputs (b_session b)) with
  | None => (b, Some "Input with this serial ID not found")
  | Some input =>
      let bytes := match validatePeerSerialIdParity serialId (it_isInitiator (b_session b)) with
                   | None => b_peerPrevTxBytes b - prev_bytes input
                   | Some _ => b_peerPrevTxBytes b
                   end in
      ({| b_session := reopen (set_inputs (del key (it_inputs (b_session b))) (b_session b));
          b_dustLimitSats := b_dustLimitSats b; b_peerPrevTxBytes := bytes |}, None)
  end.

Definition removeOutput (serialId : Z) (b : InteractiveTxBuilder) : InteractiveTxBuilder * option string :=
  let key := pretty serialId in
  if negb (has key (it_outputs (b_session b))) then (b, Some "Output with this serial ID not found")
  else (with_session (fun s => reopen (set_outputs (del key (it_outputs s)) s)) b, None).

Definition removePeerOutput (serialId : Z) (b : InteractiveTxBuilder) : InteractiveTxBuilder * option string :=
  removeOutput serialId b.

Definition markComplete (b : InteractiveTxBuilder) : InteractiveTxBuilder * option string :=
  match getState b with
  | ABORTED => (b, Some "Session is aborted")
  | COMPLETE => (b, Some "Session is already complete")
  | SENT_COMPLETE => (b, Some "Already sent tx_complete")
  | RECEIVED_COMPLETE => (with_session (set_state COMPLETE) b, None)
  | COLLECTING => (with_session (set_state SENT_COMPLETE) b, None)
  end.

Definition handlePeerComplete (b : InteractiveTxBuilder) : InteractiveTxBuilder * option string :=
  match getState b with
  | ABORTED => (b, Some "Session is aborted")
  | COMPLETE => (b, Some "Session is already complete")
  | SENT_COMPLETE => (with_session (set_state COMPLETE) b, None)
  | _ => (with_session (set_state RECEIVED_COMPLETE) b, None)
  end.

Definition abort (b : InteractiveTxBuilder) : InteractiveTxBuilder := with_session (set_state ABORTED) b.

(** [(a, b) => a.serialId < b.serialId ? -1 : a.serialId > b.serialId ? 1 : 0] *)
Definition by_serial (a b : Z) : Z := if a <? b then -1 else if b <? a then 1 else 0.

Record built_tx := { bt_inputs : list IInteractiveTxInput; bt_outputs : list IInteractiveTxOutput; bt_locktime : Z }.

Definition buildTransaction (b : InteractiveTxBuilder) : option built_tx :=
  let s := b_session b in
  if negb (bool_decide (it_state s = COMPLETE)) then None
  else
    let inputs := sort (fun a b => by_serial (in_serialId a) (in_serialId b)) (values (it_inputs s)) in
    let outputs := sort (fun a b => by_serial (out_serialId a) (out_serialId b)) (values (it_outputs s)) in
    match validateInteractiveTx inputs outputs (b_dustLimitSats b) with
    | Some _ => None
    | None => Some {| bt_inputs := inputs; bt_outputs := outputs; bt_locktime := it_locktime s |}
    end.

Definition getInputs (b : InteractiveTxBuilder) : list IInteractiveTxInput := values (it_inputs (b_session b)).

Definition getOutputs (b : InteractiveTxBuilder) : list IInteractiveTxOutput := values (it_outputs (b_session b)).

End Validation.

(** ** What a session holds *)

Section Invariant.
Context `{T : TxLib}.

Lemma parity_ok serialId initiator :
  validateSerialIdParity serialId initiator = None <-> is_even serialId = initiator.
Proof. unfold validateSerialIdParity. destruct initiator, (is_even serialId); done. Qed.

Lemma first_error_cons e checks : first_error (e :: checks) = None <-> e = None /\ first_error checks = None.
Proof. destruct e; cbn; [split; [done|by intros [? _]]|tauto]. Qed.

Lemma check_none c e : check c e = None <-> c = false.
Proof. destruct c; done. Qed.

Lemma has_get {V} k (m : @jsmap V) : has k m = false <-> get k m = None.
Proof. unfold has. destruct (get k m); cbn; split; done. Qed.

(** Removing a key removes its value. *)
Lemma values_del {V} k (v : V) m :
  NoDup (map fst m) -> get k m = Some v -> Permutation (values m) (v :: values (del k m)).
Proof.
  induction m as [|[k' v'] m IH]; [done|]. cbn. intros [Hk Hm]%NoDup_cons Hg. unfold values, del in *.
  cbn. destruct (decide (k = k')) as [<-|Hne].
  - injection Hg as ->. rewrite bool_decide_true by done. cbn. f_equiv.
    clear -Hk. induction m as [|[k' v'] m IH]; [done|]. cbn in *. rewrite not_elem_of_cons in Hk.
    rewrite bool_decide_false by (intros ->; tauto). cbn. f_equiv. apply IH. tauto.
  - rewrite bool_decide_false by done. cbn. rewrite (IH Hm Hg). apply Permutation.perm_swap.
Qed.

(** The key of an item is its serial id. *)
Definition keyed {V} (serial : V -> Z) (m : @jsmap V) : Prop :=
  NoDup (map fst m) /\ forall k v, (k, v) ∈ m -> k = pretty (serial v).

Lemma keyed_get {V} (serial : V -> Z) m k v : keyed serial m -> get k m = Some v -> k = pretty (serial v).
Proof.
  intros [_ Hk] Hg. apply Hk. clear Hk. induction m as [|[k' v'] m IH]; [done|]. cbn in Hg.
  destruct (decide (k = k')) as [->|]; [injection Hg as ->; by left|right; auto].
Qed.

Lemma keyed_set {V} (serial : V -> Z) m v : keyed serial m -> get (pretty (serial v)) m = None ->
  keyed serial (set (pretty (serial v)) v m).
Proof.
  intros [Hn Hk] Hg. split; [by apply keys_set|]. intros k w. clear Hn. revert Hg Hk.
  induction m as [|[k' v'] m IH]; cbn; intros Hg Hk.
  - intros [=]%list_elem_of_singleton. by subst.
  - destruct (decide (pretty (serial v) = k')); [done|]. intros [[= -> ->]|H]%elem_of_cons.
    + apply Hk. by left.
    + apply IH; [done| |done]. intros k1 v1 H1. apply Hk. by right.
Qed.

Lemma keyed_del {V} (serial : V -> Z) m k : keyed serial m -> keyed serial (del k m).
Proof.
  intros [Hn Hk]. split; [by apply keys_del|]. intros k' v H. apply Hk.
  unfold del in H. apply list_elem_of_In, filter_In in H as [H _]. by apply list_elem_of_In.
Qed.

Lemma Forall_set {V} (P : V -> Prop) k v m : get k m = None -> P v ->
  Forall P (values m) -> Forall P (values (set k v m)).
Proof. intros Hg Hv Hm. rewrite values_set_fresh by done. apply Forall_app. split; [done|]. by constructor. Qed.

Lemma Forall_del {V} (P : V -> Prop) k m : Forall P (values m) -> Forall P (values (del k m)).
Proof.
  unfold values, del. induction m as [|[k' v] m IH]; [done|]. cbn. intros [Hv Hm]%Forall_cons.
  destruct (negb (bool_decide (k' = k))); cbn; [constructor; auto|auto].
Qed.

Lemma zsum_set {V} (w : V -> Z) k v m : get k m = None ->
  zsum w (values (set k v m)) = zsum w (values m) + w v.
Proof. intros Hg. rewrite values_set_fresh, zsum_app by done. cbn. lia. Qed.

Lemma zsum_del {V} (w : V -> Z) k v m : NoDup (map fst m) -> get k m = Some v ->
  zsum w (values (del k m)) = zsum w (values m) - w v.
Proof. intros Hn Hg. rewrite (zsum_perm w _ _ (values_del k v m Hn Hg)). cbn. lia. Qed.

Lemma has_true {V} k (m : @jsmap V) : has k m = true -> exists v, get k m = Some v.
Proof. unfold has. destruct (get k m); [eauto|done]. Qed.

(** The items of the peer. *)
Definition of_peer (initiator : bool) (serialId : Z) : bool := Bool.eqb (is_even serialId) (negb initiator).

Lemma peer_parity_ok serialId initiator :
  validatePeerSerialIdParity serialId initiator = None <-> of_peer initiator serialId = true.
Proof. unfold validatePeerSerialIdParity, of_peer. rewrite parity_ok. by rewrite Bool.eqb_true_iff. Qed.

Lemma own_not_peer serialId initiator :
  validateSerialIdParity serialId initiator = None -> of_peer initiator serialId = false.
Proof. rewrite parity_ok. unfold of_peer. intros ->. by destruct initiator. Qed.

Definition one_if (c : bool) : Z := if c then 1 else 0.

Lemma countBySide_sum {V} (serial : V -> Z) (l : list V) side :
  countBySide (map serial l) side = zsum (fun v => one_if (Bool.eqb (is_even (serial v)) side)) l.
Proof.
  unfold countBySide. induction l as [|v l IH]; [done|]. cbn [map List.filter zsum]. rewrite <- IH.
  destruct (Bool.eqb (is_even (serial v)) side); cbn [length one_if]; lia.
Qed.

(** A native segwit script: a version opcode, OP_0 or OP_1 to OP_16, and one push of a
    program of 2 to 40 bytes. *)
Definition native_segwit (script : buffer) : Prop := exists version push program,
  script = version :: push :: program /\
  (Z_of_byte version = 0 \/ 0x51 <= Z_of_byte version <= 0x60) /\
  Z_of_byte push = blen program /\ 2 <= blen program <= 40.

(** The input carries the transaction it spends from, and the output it names is one of that
    transaction's and is native segwit. *)
Definition spends_native_segwit (i : IInteractiveTxInput) : Prop := exists bytes tx out,
  in_prevTx i = Some bytes /\ Transaction_fromBuffer bytes = Some tx /\
  let vout := default (in_prevOutputIndex i) (in_prevTxVout i) in
  0 <= vout /\ pt_outs tx !! Z.to_nat vout = Some out /\ native_segwit (po_script out).

(** An input a peer may contribute: the shared input of a splice names no previous
    transaction. *)
Definition input_ok (i : IInteractiveTxInput) : Prop :=
  in_sequence i <= 0xfffffffd /\ (in_isShared i = Some true \/ spends_native_segwit i).

Definition output_ok (o : IInteractiveTxOutput) : Prop := DUST_LIMIT_SATS <= out_amountSats o <= MAX_MONEY_SATS.

Lemma valid_prev_native i :
  validatePeerInputPrevTx (in_prevTx i) (default (in_prevOutputIndex i) (in_prevTxVout i)) = None -> spends_native_segwit i.
Proof.
  unfold validatePeerInputPrevTx, spends_native_segwit. set (vout := default _ _).
  destruct (in_prevTx i) as [[|b0 bytes]|]; [done| |done]. destruct (Transaction_fromBuffer (b0 :: bytes)) as [tx|] eqn:Htx; [|done].
  destruct (Z.ltb_spec vout 0) as [|Hv]; [done|]. unfold out_at. rewrite (proj2 (Z.ltb_ge vout 0)) by done.
  destruct (pt_outs tx !! Z.to_nat vout) as [out|] eqn:Ho; [|done]. cbv zeta. destruct (_ || _) eqn:Eb; [done|]. intros _.
  apply orb_false_iff in Eb as [[[Hver Hlo]%orb_false_iff Hhi]%orb_false_iff Hlen]. apply negb_false_iff in Hver, Hlen.
  exists (b0 :: bytes), tx, out. split_and!; [done|done|done|done|]. unfold native_segwit.
  destruct (po_script out) as [|version [|push program]]; [done|done|].
  rewrite !blen_cons in *. rewrite (proj2 (Z.leb_le 2 _)) in * by (pose proof (blen_nonneg program); lia).
  change (byte_at (version :: push :: program) 1) with (Z_of_byte push) in *.
  change (byte_at (version :: push :: program) 0) with (Z_of_byte version) in *.
  apply Z.ltb_ge in Hlo, Hhi. apply Z.eqb_eq in Hlen. exists version, push, program. split_and!; try done; try lia.
  unfold isVersionOp in Hver. apply orb_true_iff in Hver as [->%Z.eqb_eq|[? ?]%andb_prop]; [by left|right; lia].
Qed.

Definition peer_inputs (s : IInteractiveTxSession) : Z :=
  zsum (fun i => one_if (of_peer (it_isInitiator s) (in_serialId i))) (values (it_inputs s)).
Definition peer_outputs (s : IInteractiveTxSession) : Z :=
  zsum (fun o => one_if (of_peer (it_isInitiator s) (out_serialId o))) (values (it_outputs s)).
Definition peer_bytes (s : IInteractiveTxSession) : Z :=
  zsum (fun i => if of_peer (it_isInitiator s) (in_serialId i) then prev_bytes i else 0) (values (it_inputs s)).

Record peer_bounded (b : InteractiveTxBuilder) : Prop := {
  pb_ikeyed : keyed in_serialId (it_inputs (b_session b));
  pb_okeyed : keyed out_serialId (it_outputs (b_session b));
  pb_icount : peer_inputs (b_session b) <= MAX_INTERACTIVE_TX_INPUTS;
  pb_ocount : peer_outputs (b_session b) <= MAX_INTERACTIVE_TX_OUTPUTS;
  pb_bytes : peer_bytes (b_session b) <= b_peerPrevTxBytes b <= MAX_PEER_PREVTX_BYTES_PER_SESSION;
  pb_inputs : Forall (fun i => of_peer (it_isInitiator (b_session b)) (in_serialId i) = true -> input_ok i)
                (values (it_inputs (b_session b)));
  pb_outputs : Forall (fun o => of_peer (it_isInitiator (b_session b)) (out_serialId o) = true -> output_ok o)
                 (values (it_outputs (b_session b)));
  pb_dust : DUST_LIMIT_SATS <= b_dustLimitSats b
}.

(** Two builders that hold the same items. *)
Definition same_items (b b' : InteractiveTxBuilder) : Prop :=
  it_isInitiator (b_session b') = it_isInitiator (b_session b) /\
  it_inputs (b_session b') = it_inputs (b_session b) /\ it_outputs (b_session b') = it_outputs (b_session b) /\
  b_dustLimitSats b' = b_dustLimitSats b /\ b_peerPrevTxBytes b' = b_peerPrevTxBytes b.

Lemma bounded_same b b' : same_items b b' -> peer_bounded b -> peer_bounded b'.
Proof.
  intros (Hi & Hin & Hout & Hd & Hb) []. unfold peer_inputs, peer_outputs, peer_bytes in *.
  constructor; unfold peer_inputs, peer_outputs, peer_bytes; by rewrite ?Hi, ?Hin, ?Hout, ?Hd, ?Hb.
Qed.

Lemma reopen_isInitiator s : it_isInitiator (reopen s) = it_isInitiator s.
Proof. unfold reopen. by case_bool_decide. Qed.

Lemma reopen_inputs s : it_inputs (reopen s) = it_inputs s.
Proof. unfold reopen. by case_bool_decide. Qed.

Lemma reopen_outputs s : it_outputs (reopen s) = it_outputs s.
Proof. unfold reopen. by case_bool_decide. Qed.

Lemma prev_bytes_nonneg i : 0 <= prev_bytes i.
Proof. unfold prev_bytes. destruct (in_prevTx i); cbn; [apply blen_nonneg|done]. Qed.
Lemma keyed_nil {V} (serial : V -> Z) : keyed serial [].
Proof. split; [constructor|]. intros k v H. by apply elem_of_nil in H. Qed.

(** Everything that can happen to a session: our calls and what the peer sends. *)
Inductive session_op :=
| OAddInput (i : IInteractiveTxInput) | OPeerInput (i : IInteractiveTxInput) (free : option Z)
| OAddOutput (o : IInteractiveTxOutput) | OPeerOutput (o : IInteractiveTxOutput)
| ORemoveInput (serialId : Z) | OPeerRemoveInput (serialId : Z)
| ORemoveOutput (serialId : Z) | OPeerRemoveOutput (serialId : Z)
| OComplete | OPeerComplete | OAbort | ODust (sats : Z) | OSerial.

Definition apply_op (op : session_op) (b : InteractiveTxBuilder) : InteractiveTxBuilder :=
  match op with
  | OAddInput i => fst (addInput i b)
  | OPeerInput i free => fst (addPeerInput i free b)
  | OAddOutput o => fst (addOutput o b)
  | OPeerOutput o => fst (addPeerOutput o b)
  | ORemoveInput n => fst (removeInput n b)
  | OPeerRemoveInput n => fst (removePeerInput n b)
  | ORemoveOutput n => fst (removeOutput n b)
  | OPeerRemoveOutput n => fst (removePeerOutput n b)
  | OComplete => fst (markComplete b)
  | OPeerComplete => fst (handlePeerComplete b)
  | OAbort => abort b
  | ODust sats => setDustLimit sats b
  | OSerial => fst (nextSerialIdForUs b)
  end.

(** A builder with other inputs or outputs, and other bytes. *)
Definition holding (ins : @jsmap IInteractiveTxInput) (outs : @jsmap IInteractiveTxOutput) (bytes : Z)
    (b : InteractiveTxBuilder) : InteractiveTxBuilder :=
  {| b_session := set_outputs outs (set_inputs ins (b_session b)); b_dustLimitSats := b_dustLimitSats b;
     b_peerPrevTxBytes := bytes |}.

Ltac sums := unfold peer_inputs, peer_outputs, peer_bytes in *; cbn [holding b_session set_inputs set_outputs
  it_inputs it_outputs it_isInitiator b_dustLimitSats b_peerPrevTxBytes] in *.

Lemma bounded_own_input b i :
  peer_bounded b -> of_peer (it_isInitiator (b_session b)) (in_serialId i) = false ->
  get (pretty (in_serialId i)) (it_inputs (b_session b)) = None ->
  peer_bounded (holding (set (pretty (in_serialId i)) i (it_inputs (b_session b))) (it_outputs (b_session b))
    (b_peerPrevTxBytes b) b).
Proof.
  intros [] Hp Hg. constructor; sums; rewrite ?zsum_set, ?Hp by done; cbn [one_if]; try done; try lia.
  - by apply keyed_set.
  - apply Forall_set; [done| |done]. by rewrite Hp.
Qed.

Lemma bounded_peer_input b i :
  peer_bounded b -> of_peer (it_isInitiator (b_session b)) (in_serialId i) = true -> input_ok i ->
  get (pretty (in_serialId i)) (it_inputs (b_session b)) = None ->
  peer_inputs (b_session b) < MAX_INTERACTIVE_TX_INPUTS ->
  b_peerPrevTxBytes b + prev_bytes i <= MAX_PEER_PREVTX_BYTES_PER_SESSION ->
  peer_bounded (holding (set (pretty (in_serialId i)) i (it_inputs (b_session b))) (it_outputs (b_session b))
    (b_peerPrevTxBytes b + prev_bytes i) b).
Proof.
  intros [] Hp Hok Hg Hc Hb. constructor; sums; rewrite ?zsum_set, ?Hp by done; cbn [one_if]; try done; try lia.
  - by apply keyed_set.
  - by apply Forall_set.
Qed.

Lemma bounded_output b o :
  peer_bounded b -> get (pretty (out_serialId o)) (it_outputs (b_session b)) = None ->
  (of_peer (it_isInitiator (b_session b)) (out_serialId o) = true ->
     output_ok o /\ peer_outputs (b_session b) < MAX_INTERACTIVE_TX_OUTPUTS) ->
  peer_bounded (holding (it_inputs (b_session b)) (set (pretty (out_serialId o)) o (it_outputs (b_session b)))
    (b_peerPrevTxBytes b) b).
Proof.
  intros [] Hg Hp. constructor; sums; rewrite ?zsum_set by done; try done.
  - by apply keyed_set.
  - destruct (of_peer _ (out_serialId o)); cbn [one_if]; [destruct (Hp eq_refl)|]; lia.
  - apply Forall_set; [done| |done]. intros H. by apply Hp.
Qed.

Lemma bounded_del_input b k i bytes :
  peer_bounded b -> get k (it_inputs (b_session b)) = Some i ->
  (bytes = b_peerPrevTxBytes b \/
   of_peer (it_isInitiator (b_session b)) (in_serialId i) = true /\ bytes = b_peerPrevTxBytes b - prev_bytes i) ->
  peer_bounded (holding (del k (it_inputs (b_session b))) (it_outputs (b_session b)) bytes b).
Proof.
  intros [] Hg Hb. pose proof (prev_bytes_nonneg i). destruct pb_ikeyed0 as [Hn Hk].
  constructor; sums; rewrite ?(zsum_del _ k i) by done; try done.
  - by apply keyed_del.
  - destruct (of_peer _ (in_serialId i)); cbn [one_if]; lia.
  - destruct Hb as [->|[-> ->]]; [|lia]. destruct (of_peer _ (in_serialId i)); lia.
  - by apply Forall_del.
Qed.

Lemma bounded_del_output b k :
  peer_bounded b -> has k (it_outputs (b_session b)) = true ->
  peer_bounded (holding (it_inputs (b_session b)) (del k (it_outputs (b_session b))) (b_peerPrevTxBytes b) b).
Proof.
  intros [] [o Hg]%has_true. destruct pb_okeyed0 as [Hn Hk].
  constructor; sums; rewrite ?(zsum_del _ k o) by done; try done.
  - by apply keyed_del.
  - destruct (of_peer _ (out_serialId o)); cbn [one_if]; lia.
  - by apply Forall_del.
Qed.

Lemma peer_input_accepted i free b : peer_input_error i free b = None ->
  of_peer (it_isInitiator (b_session b)) (in_serialId i) = true /\ input_ok i /\
  get (pretty (in_serialId i)) (it_inputs (b_session b)) = None /\
  peer_inputs (b_session b) < MAX_INTERACTIVE_TX_INPUTS /\
  b_peerPrevTxBytes b + prev_bytes i <= MAX_PEER_PREVTX_BYTES_PER_SESSION.
Proof.
  unfold peer_input_error. rewrite !first_error_cons, !check_none, peer_parity_ok, has_get.
  intros (_ & Hp & Hs & Hv & Hc & Hb & _ & Hg & _). apply Z.ltb_ge in Hs, Hb. apply Z.leb_gt in Hc.
  unfold input_serials in Hc. rewrite countBySide_sum in Hc. split_and!; try done.
  split; [done|]. destruct (in_isShared i) as [[]|]; [by left|right|right]; by apply valid_prev_native.
Qed.

Lemma peer_output_accepted o b : peer_output_error o b = None ->
  of_peer (it_isInitiator (b_session b)) (out_serialId o) = true /\
  b_dustLimitSats b <= out_amountSats o <= MAX_MONEY_SATS /\
  get (pretty (out_serialId o)) (it_outputs (b_session b)) = None /\
  peer_outputs (b_session b) < MAX_INTERACTIVE_TX_OUTPUTS.
Proof.
  unfold peer_output_error. rewrite !first_error_cons, !check_none, peer_parity_ok, has_get.
  intros (_ & Hp & Hc & Hm & Hd & Hg & _). apply Z.ltb_ge in Hm, Hd. apply Z.leb_gt in Hc.
  unfold output_serials in Hc. rewrite countBySide_sum in Hc. by split_and!.
Qed.

Ltac same := unfold same_items; cbn; rewrite ?reopen_isInitiator, ?reopen_inputs, ?reopen_outputs; split_and!; done.

Lemma op_bounded op b : peer_bounded b -> peer_bounded (apply_op op b).
Proof.
  intros Hb. destruct op as [i|i free|o|o|n|n|n|n| | | |sats|]; cbn [apply_op].
  - unfold addInput. destruct (closed_session b); [done|]. destruct (validateSerialIdParity _ _) eqn:Ep; [done|].
    destruct (has _ _) eqn:Eh; [done|]. apply own_not_peer in Ep. apply has_get in Eh.
    eapply bounded_same; [|apply (bounded_own_input b i Hb Ep Eh)]. same.
  - unfold addPeerInput. destruct (closed_session b); [done|].
    assert (peer_bounded (with_session count_input_msg b)) as Hb' by (eapply bounded_same; [|exact Hb]; same).
    destruct (peer_input_error i free _) eqn:Ee; [done|]. apply peer_input_accepted in Ee as (Hp & Hok & Hg & Hc & Hby).
    eapply bounded_same; [|apply (bounded_peer_input _ i Hb' Hp Hok Hg Hc Hby)]. same.
  - unfold addOutput. destruct (closed_session b); [done|]. destruct (validateSerialIdParity _ _) eqn:Ep; [done|].
    destruct (has _ _) eqn:Eh; [done|]. apply own_not_peer in Ep. apply has_get in Eh.
    eapply bounded_same; [|apply (bounded_output b o Hb Eh); by rewrite Ep]. same.
  - unfold addPeerOutput. destruct (closed_session b); [done|].
    assert (peer_bounded (with_session count_output_msg b)) as Hb' by (eapply bounded_same; [|exact Hb]; same).
    destruct (peer_output_error o _) eqn:Ee; [done|]. apply peer_output_accepted in Ee as (Hp & Hok & Hg & Hc).
    eapply bounded_same; [|apply (bounded_output _ o Hb' Hg)]; [same|]. intros _. split; [|done].
    pose proof (pb_dust _ Hb'). unfold output_ok. lia.
  - unfold removeInput. destruct (has _ _) eqn:Eh; [|done]. apply has_true in Eh as [i Hi].
    eapply bounded_same; [|apply (bounded_del_input b _ i (b_peerPrevTxBytes b) Hb Hi); by left]. same.
  - unfold removePeerInput. destruct (get _ _) as [i|] eqn:Ei; [|done].
    pose proof (keyed_get _ _ _ _ (pb_ikeyed b Hb) Ei) as Hk. apply (inj pretty) in Hk. subst n.
    set (bytes := match validatePeerSerialIdParity _ _ with None => _ | Some _ => _ end).
    eapply bounded_same; [|apply (bounded_del_input b _ i bytes Hb Ei)]; [same|]. unfold bytes.
    destruct (validatePeerSerialIdParity _ _) eqn:Ep; [by left|right]. split; [by apply peer_parity_ok|done].
  - unfold removeOutput. destruct (has _ _) eqn:Eh; [|done].
    eapply bounded_same; [|apply (bounded_del_output b _ Hb Eh)]. same.
  - unfold removePeerOutput, removeOutput. destruct (has _ _) eqn:Eh; [|done].
    eapply bounded_same; [|apply (bounded_del_output b _ Hb Eh)]. same.
  - unfold markComplete. destruct (getState b); try done; (eapply bounded_same; [|exact Hb]; same).
  - unfold handlePeerComplete. destruct (getState b); try done; (eapply bounded_same; [|exact Hb]; same).
  - eapply bounded_same; [|exact Hb]; same.
  - unfold setDustLimit. destruct (Z.ltb_spec (b_dustLimitSats b) sats); [|done].
    destruct Hb. constructor; cbn; try done. lia.
  - eapply bounded_same; [|exact Hb]; same.
Qed.

(** C36: whatever the peer sends and however our own calls mix with
    it, a session never holds more than 252 inputs and 252 outputs of the peer and 1 MiB
    of its previous transactions; each of its inputs has a sequence of at most 0xfffffffd
    and, unless it is the shared input of a splice, carries a transaction that parses and
    whose output it names is native segwit (a version opcode and one push of 2 to 40 bytes);
    each of its outputs is worth between the dust limit and the money supply. *)
Theorem peer_contributions_bounded (isInitiator : bool) (locktime : Z) (ops : list session_op) :
  let b := fold_left (fun b op => apply_op op b) ops (new_InteractiveTxBuilder isInitiator locktime) in
  peer_inputs (b_session b) <= 252 /\ peer_outputs (b_session b) <= 252 /\
  peer_bytes (b_session b) <= 1048576 /\
  Forall (fun i => of_peer (it_isInitiator (b_session b)) (in_serialId i) = true -> input_ok i) (getInputs b) /\
  Forall (fun o => of_peer (it_isInitiator (b_session b)) (out_serialId o) = true -> output_ok o) (getOutputs b).
Proof.
  intros b. assert (peer_bounded b) as [].
  { unfold b. assert (peer_bounded (new_InteractiveTxBuilder isInitiator locktime)) as H0
      by (constructor; try done; apply keyed_nil).
    revert H0. generalize (new_InteractiveTxBuilder isInitiator locktime).
    clear. induction ops as [|op ops IH]; intros b Hb; [done|]. apply IH, op_bounded, Hb. }
  unfold MAX_INTERACTIVE_TX_INPUTS, MAX_INTERACTIVE_TX_OUTPUTS, MAX_PEER_PREVTX_BYTES_PER_SESSION in *.
  split_and!; done || lia.
Qed.

(** tx_remove_input is not checked against the side that added the input: the peer's message
    takes away one of ours. *)
Lemma peer_can_remove_ours input b :
  snd (addInput input b) = None ->
  let b' := removePeerInput (in_serialId input) (fst (addInput input b)) in
  snd b' = None /\ get (pretty (in_serialId input)) (it_inputs (b_session (fst b'))) = None.
Proof.
  unfold addInput. destruct (closed_session b); [done|]. destruct (validateSerialIdParity _ _); [done|].
  destruct (has _ _) eqn:Eh; [done|]. intros _. unfold removePeerInput.
  cbn [fst with_session b_session]. rewrite reopen_inputs. cbn [set_inputs it_inputs].
  rewrite get_set, decide_True by done. cbn [fst snd b_session]. split; [done|].
  rewrite reopen_inputs. cbn [set_inputs it_inputs]. by rewrite get_del, decide_True.
Qed.

(** An add of the peer after its tx_complete does not take the tx_complete back: our own
    tx_complete then ends the session although the peer has not said that it is done
    since. *)
Lemma add_after_complete_closes output b :
  getState b = RECEIVED_COMPLETE -> snd (addPeerOutput output b) = None ->
  let b' := markComplete (fst (addPeerOutput output b)) in snd b' = None /\ isComplete (fst b') = true.
Proof.
  intros Hst. unfold addPeerOutput, closed_session. rewrite Hst.
  destruct (peer_output_error _ _); [done|]. intros _. cbn [fst].
  assert (getState (with_session (fun s => reopen (set_outputs (set (pretty (out_serialId output)) output (it_outputs s)) s))
    (with_session count_output_msg b)) = RECEIVED_COMPLETE) as E.
  { unfold getState in *. cbn [with_session b_session]. unfold reopen. cbn [set_outputs it_state count_output_msg].
    rewrite Hst. by rewrite bool_decide_false. }
  unfold markComplete. rewrite E. split; [done|]. by apply bool_decide_eq_true.
Qed.

End Invariant.
