(* ===== verification/DualFunding.v ===== *)
(** * Funding a channel together (src/src/lightning/channel)

    The interactive part of a v2 open: splice-weight.ts, the session wrapper of
    dual-funding.ts, and of channel.ts the contribution of each side
    (_computeDualFundingContributions), the turn-taking drive (_driveDualFunding,
    sendTxComplete and the handlers of tx_add_input, tx_add_output and tx_complete) and
    the audit of what was negotiated (_validateNegotiatedInteractiveTx for a v2 open).
    Channels of the taproot type and replacement attempts are left out, and so is the
    commitment round that starts when both sides are complete. *)

From S2P Require Import Prelude Buffer CommitmentTx Scripts JsMap WireTx InteractiveTx.
From stdpp Require Import pretty.
From Stdlib Require Import Strings.Byte.
Local Open Scope Z_scope.

(** ** splice-weight.ts *)

Definition SPLICE_TX_BASE_WEIGHT : Z := 42.
Definition SHARED_FUNDING_INPUT_WEIGHT : Z := 386.
Definition P2WPKH_INPUT_WEIGHT : Z := 272.
Definition P2WPKH_DUST_LIMIT : Z := 294.

Definition outputWeight (scriptLen : Z) : Z := (8 + 1 + scriptLen) * 4.

Definition estimateSpliceTxWeight (walletInputCount : Z)
    (fundingInputCount fundingOutputCount fundingScriptLen changeScriptLen destinationScriptLen : option Z) : Z :=
  SPLICE_TX_BASE_WEIGHT + SHARED_FUNDING_INPUT_WEIGHT + walletInputCount * P2WPKH_INPUT_WEIGHT +
  default 0 fundingInputCount * SHARED_FUNDING_INPUT_WEIGHT +
  default 0 fundingOutputCount * outputWeight 34 + outputWeight (default 34 fundingScriptLen) +
  match changeScriptLen with Some n => outputWeight n | None => 0 end +
  match destinationScriptLen with Some n => outputWeight n | None => 0 end.

(** [Math.ceil((weight * rate) / 1000)], exact for the weights and rates in use *)
Definition spliceFeeSats (weight feeratePerKw : Z) : Z := (weight * feeratePerKw + 999) / 1000.

Definition DUAL_FUNDING_INPUT_WEIGHT : Z := 320.

Definition dualFundingContributionWeight (inputCount : Z) (initiator : bool) : Z :=
  let weight := DUAL_FUNDING_INPUT_WEIGHT * inputCount + 140 in
  if initiator then weight + 240 else weight.

Definition dualFundingTopUpWeight (inputCount : Z) : Z := DUAL_FUNDING_INPUT_WEIGHT * inputCount.

(** ** dual-funding.ts *)

Inductive DualFundingState :=
| DF_NONE | DF_AWAITING_ACCEPT | DF_TX_NEGOTIATION | DF_AWAITING_TX_SIGNATURES
| DF_AWAITING_CHANNEL_READY | DF_COMPLETE | DF_ABORTED.

#[global] Instance df_state_dec : EqDecision DualFundingState.
Proof. solve_decision. Defined.

(** What is agreed before the negotiation, as one side sees it. *)
Record v2_params := {
  v_isInitiator : bool;
  v_channelId : buffer;
  v_localFundingPubkey : buffer;
  v_remoteFundingPubkey : buffer;
  v_fundingSatoshis : Z;
  v_remoteFundingSatoshis : Z;
  v_localDust : Z;
  v_remoteDust : Z;
  v_fundingFeeratePerkw : Z
}.

Record ISpliceWalletInput := { w_prevTx : buffer; w_prevOutputIndex : Z; w_sequence : Z; w_value : Z }.

Record dual_contribution := {
  dc_inputs : list ISpliceWalletInput;
  dc_changeScript : buffer;
  dc_contributionSats : Z;
  dc_feeratePerKw : Z
}.

Inductive contrib := CInput (i : IInteractiveTxInput) | COutput (o : IInteractiveTxOutput).

Record v2_node := {
  n_params : v2_params;
  n_session : DualFundingState;
  n_builder : InteractiveTxBuilder;
  n_contribution : option dual_contribution;
  n_contribs : option (list contrib);
  n_index : nat
}.

Inductive v2_message :=
| MAddInput (m : ITxAddInputMessage) | MAddOutput (m : ITxAddOutputMessage) | MComplete (m : ITxCompleteMessage).

(** What a handler does: send messages, report an error, or give the negotiation up
    with tx_abort. *)
Inductive v2_outcome := Replies (msgs : list v2_message) | Refused (e : string) | Abandoned (e : string).

Definition set_builder (b : InteractiveTxBuilder) (n : v2_node) : v2_node :=
  {| n_params := n_params n; n_session := n_session n; n_builder := b; n_contribution := n_contribution n;
     n_contribs := n_contribs n; n_index := n_index n |}.

(** A call of the session on its builder: only while negotiating, and a builder that is
    complete ends the negotiation. *)
Definition on_builder (f : InteractiveTxBuilder -> InteractiveTxBuilder * option string) (n : v2_node)
    : v2_node * option string :=
  if negb (bool_decide (n_session n = DF_TX_NEGOTIATION)) then (n, Some "not in TX_NEGOTIATION state")
  else let '(b, err) := f (n_builder n) in (set_builder b n, err).

Definition settle_complete (r : v2_node * option string) : v2_node * option string :=
  let '(n, err) := r in
  match err with
  | Some e => (n, Some e)
  | None =>
      if isComplete (n_builder n)
      then ({| n_params := n_params n; n_session := DF_AWAITING_TX_SIGNATURES; n_builder := n_builder n;
               n_contribution := n_contribution n; n_contribs := n_contribs n; n_index := n_index n |}, None)
      else (n, None)
  end.

Definition session_markComplete (n : v2_node) : v2_node * option string :=
  settle_complete (on_builder markComplete n).

Definition session_handlePeerComplete (n : v2_node) : v2_node * option string :=
  settle_complete (on_builder handlePeerComplete n).

(** ** channel.ts *)

Section Node.
Context `{L : BitcoinLib} `{T : TxLib}.

Definition extractTxidFromPrevTx (prevTx : buffer) : option buffer := pt_hash <$> Transaction_fromBuffer prevTx.

(** The output an input spends. *)
Definition spent_output (input : IInteractiveTxInput) : option prev_output :=
  match in_prevTx input with
  | None => None
  | Some bytes =>
      match Transaction_fromBuffer bytes with
      | None => None
      | Some prev => out_at (pt_outs prev) (default (in_prevOutputIndex input) (in_prevTxVout input))
      end
  end.

Definition interactiveInputValueSats (input : IInteractiveTxInput) : option Z :=
  match in_prevTx input with
  | None | Some [] => None
  | _ => po_value <$> spent_output input
  end.

Definition starts_with (script : buffer) (a b len : Z) : bool :=
  (blen script =? len) && (byte_at script 0 =? a) && (byte_at script 1 =? b).

Definition has_prevTx (input : IInteractiveTxInput) : bool :=
  match in_prevTx input with Some bytes => 32 <=? blen bytes | None => false end.

Definition auditMinInputWeightWu (input : IInteractiveTxInput) : Z :=
  match (if has_prevTx input then spent_output input else None) with
  | Some out =>
      if starts_with (po_script out) 0x51 0x20 34 then 164 + 66
      else if starts_with (po_script out) 0 0x20 34 then SHARED_FUNDING_INPUT_WEIGHT
      else 164 + 107
  | None => 164 + 107
  end.

Definition _v2CheckInputSpendable (input : IInteractiveTxInput) : option string :=
  if negb (has_prevTx input) then Some "funding input carries no previous transaction"
  else match spent_output input with
  | None => Some "funding input previous transaction is unreadable or has no such prevout"
  | Some out =>
      if starts_with (po_script out) 0 0x14 22 || starts_with (po_script out) 0x51 0x20 34 then None
      else Some "funding input pays an unsupported output type"
  end.

(** The output that both sides share. *)
Definition funding_spk (p : v2_params) : option buffer :=
  match createFundingScript (v_localFundingPubkey p) (v_remoteFundingPubkey p) with
  | Ok script => Some (p2wsh script)
  | Err _ => None
  end.

Definition remote_owned (weAreInitiator : bool) (serialId : Z) : bool :=
  negb (Bool.eqb (is_even serialId) weAreInitiator).

(** The sums of the audit. *)
Record audit_sums := {
  au_weight : Z; au_remoteIn : Z; au_totalIn : Z; au_valuesKnown : bool
}.

(** The loop over the inputs; an input that cannot be verified ends it. *)
Fixpoint audit_inputs (weAreInitiator : bool) (inputs : list IInteractiveTxInput) (a : audit_sums)
    : string + audit_sums :=
  match inputs with
  | [] => inr a
  | input :: inputs =>
      match _v2CheckInputSpendable input with
      | Some e => inl e
      | None =>
          let weight := au_weight a + auditMinInputWeightWu input in
          audit_inputs weAreInitiator inputs
            match interactiveInputValueSats input with
            | None => {| au_weight := weight; au_remoteIn := au_remoteIn a; au_totalIn := au_totalIn a;
                         au_valuesKnown := false |}
            | Some value =>
                {| au_weight := weight;
                   au_remoteIn := au_remoteIn a +
                     (if remote_owned weAreInitiator (in_serialId input) then value else 0);
                   au_totalIn := au_totalIn a + value; au_valuesKnown := au_valuesKnown a |}
            end
      end
  end.

Definition _validateNegotiatedInteractiveTx (n : v2_node) : option string :=
  let p := n_params n in
  match audit_inputs (v_isInitiator p) (getInputs (n_builder n))
          {| au_weight := SPLICE_TX_BASE_WEIGHT; au_remoteIn := 0; au_totalIn := 0; au_valuesKnown := true |} with
  | inl e => Some e
  | inr a =>
      let outputs := getOutputs (n_builder n) in
      let isShared o := match funding_spk p with
                        | Some spk => buf_equals (out_scriptPubkey o) spk
                        | None => false
                        end in
      let weight := au_weight a + zsum (fun o => outputWeight (blen (out_scriptPubkey o))) outputs in
      let totalOut := zsum out_amountSats outputs in
      let remoteOut := zsum (fun o => if remote_owned (v_isInitiator p) (out_serialId o) && negb (isShared o)
                                      then out_amountSats o else 0) outputs in
      if negb (au_valuesKnown a)
      then if 400000 <? weight then Some "Transaction weight exceeds 400000 WU" else None
      else validateCompletedInteractiveTx (au_remoteIn a) remoteOut (v_remoteFundingSatoshis p)
             (au_totalIn a - totalOut) weight (v_fundingFeeratePerkw p)
  end.

(** _v2InteractiveTxDustFloor *)
Definition dust_floor (p : v2_params) : Z :=
  let floor := DUST_LIMIT_SATS in
  let floor := if floor <? v_localDust p then v_localDust p else floor in
  if floor <? v_remoteDust p then v_remoteDust p else floor.

(** The wallet inputs as contributions, with their serial ids from [serial] on. *)
Fixpoint wallet_contribs (serial : Z) (inputs : list ISpliceWalletInput) : string + (list contrib * Z) :=
  match inputs with
  | [] => inr ([], serial)
  | w :: inputs =>
      match extractTxidFromPrevTx (w_prevTx w) with
      | None => inl "unreadable previous transaction"
      | Some txid =>
          match wallet_contribs (serial + 2) inputs with
          | inl e => inl e
          | inr (contribs, serial') =>
              inr (CInput {| in_serialId := serial; in_prevTxid := txid;
                             in_prevOutputIndex := w_prevOutputIndex w; in_sequence := w_sequence w;
                             in_prevTx := Some (w_prevTx w); in_prevTxVout := Some (w_prevOutputIndex w);
                             in_isShared := None |} :: contribs, serial')
          end
      end
  end.

(** The contributions in the order they are sent, and the next serial id. *)
Definition _computeDualFundingContributions (p : v2_params) (c : dual_contribution) (serial : Z)
    : string + (list contrib * Z) :=
  let initiator := v_isInitiator p in
  if negb initiator && (Z.of_nat (length (dc_inputs c)) =? 0) && (dc_contributionSats c =? 0)
  then inr ([], serial)
  else
    let feeSats := spliceFeeSats (dualFundingContributionWeight (Z.of_nat (length (dc_inputs c))) initiator)
                     (dc_feeratePerKw c) in
    let walletTotal := zsum w_value (dc_inputs c) in
    match wallet_contribs serial (dc_inputs c) with
    | inl e => inl e
    | inr (inputs, serial) =>
        match (if initiator then funding_spk p else Some []) with
        | None => inl "Cannot build funding output before accept_channel2"
        | Some spk =>
            let '(funding, serial) :=
              if initiator
              then ([COutput {| out_serialId := serial; out_amountSats := v_fundingSatoshis p;
                                out_scriptPubkey := spk |}], serial + 2)
              else ([], serial) in
            let changeSats := walletTotal - dc_contributionSats c - feeSats in
            if changeSats <? 0 then inl "Dual-funding contribution underfunded"
            else if dust_floor p <=? changeSats
            then inr (inputs ++ funding ++
                      [COutput {| out_serialId := serial; out_amountSats := changeSats;
                                  out_scriptPubkey := dc_changeScript c |}], serial + 2)
            else inr (inputs ++ funding, serial)
        end
    end.

(** _abortV2Negotiation *)
Definition abandon (e : string) (n : v2_node) : v2_node * v2_outcome :=
  ({| n_params := n_params n; n_session := DF_ABORTED; n_builder := abort (n_builder n);
      n_contribution := None; n_contribs := None; n_index := 0 |}, Abandoned e).

Definition sendTxComplete (n : v2_node) : v2_node * v2_outcome :=
  let '(n, err) := session_markComplete n in
  match err with
  | Some e => (n, Refused e)
  | None =>
      let complete := Replies [MComplete {| tc_channelId := v_channelId (n_params n) |}] in
      if bool_decide (n_session n = DF_AWAITING_TX_SIGNATURES)
      then match _validateNegotiatedInteractiveTx n with
           | Some e => abandon e n
           | None => (n, complete)
           end
      else (n, complete)
  end.

(** The message that announces a contribution. *)
Definition contrib_message (p : v2_params) (c : contrib) : v2_message :=
  match c with
  | CInput i => MAddInput {| ti_channelId := v_channelId p; ti_serialId := in_serialId i;
                             ti_prevTx := default [] (in_prevTx i); ti_prevTxVout := in_prevOutputIndex i;
                             ti_sequence := in_sequence i; ti_sharedInputTxid := None |}
  | COutput o => MAddOutput {| to_channelId := v_channelId p; to_serialId := out_serialId o;
                               to_amountSats := out_amountSats o; to_scriptPubkey := out_scriptPubkey o |}
  end.

(** The contributions are computed on our first turn. *)
Definition with_contribs (n : v2_node) : string + v2_node :=
  match n_contribs n, n_contribution n with
  | Some _, _ | _, None => inr n
  | None, Some c =>
      match _computeDualFundingContributions (n_params n) c (it_nextSerialId (b_session (n_builder n))) with
      | inl e => inl e
      | inr (contribs, serial) =>
          inr {| n_params := n_params n; n_session := n_session n;
                 n_builder := with_session (fun s =>
                   {| it_isInitiator := it_isInitiator s; it_state := it_state s; it_inputs := it_inputs s;
                      it_outputs := it_outputs s; it_locktime := it_locktime s; it_nextSerialId := serial;
                      it_peerAddInputMsgs := it_peerAddInputMsgs s;
                      it_peerAddOutputMsgs := it_peerAddOutputMsgs s |}) (n_builder n);
                 n_contribution := n_contribution n; n_contribs := Some contribs; n_index := 0 |}
      end
  end.

Definition add_contrib (c : contrib) : InteractiveTxBuilder -> InteractiveTxBuilder * option string :=
  match c with CInput i => addInput i | COutput o => addOutput o end.

Definition _driveDualFunding (n : v2_node) : v2_node * v2_outcome :=
  if negb (bool_decide (is_Some (n_contribution n)) && bool_decide (n_session n = DF_TX_NEGOTIATION))
  then (n, Replies [])
  else match with_contribs n with
  | inl e => abandon e n
  | inr n =>
      match default [] (n_contribs n) !! n_index n with
      | Some c =>
          let n := {| n_params := n_params n; n_session := n_session n; n_builder := n_builder n;
                      n_contribution := n_contribution n; n_contribs := n_contribs n; n_index := S (n_index n) |} in
          let '(n, err) := on_builder (add_contrib c) n in
          match err with
          | Some e => abandon e n
          | None => (n, Replies [contrib_message (n_params n) c])
          end
      | None =>
          match getState (n_builder n) with
          | COLLECTING | RECEIVED_COMPLETE => sendTxComplete n
          | _ => (n, Replies [])
          end
      end
  end.

Definition negotiating (n : v2_node) : bool := bool_decide (n_session n = DF_TX_NEGOTIATION).

(** The txid named by a peer's previous transaction, zeros when it cannot be read. *)
Definition peer_txid (prevTx : buffer) : buffer :=
  if 32 <=? blen prevTx then default (alloc 32) (extractTxidFromPrevTx prevTx) else alloc 32.

Definition handleTxAddInput (msg : ITxAddInputMessage) (prevTxBytesFree : option Z) (n : v2_node)
    : v2_node * v2_outcome :=
  if negb (negotiating n) then (n, Refused "Unexpected tx_add_input")
  else
    let input := {| in_serialId := ti_serialId msg; in_prevTxid := peer_txid (ti_prevTx msg);
                    in_prevOutputIndex := ti_prevTxVout msg; in_sequence := ti_sequence msg;
                    in_prevTx := Some (ti_prevTx msg); in_prevTxVout := Some (ti_prevTxVout msg);
                    in_isShared := None |} in
    let '(n, err) := on_builder (addPeerInput input prevTxBytesFree) n in
    match err with Some e => (n, Refused e) | None => _driveDualFunding n end.

Definition handleTxAddOutput (msg : ITxAddOutputMessage) (n : v2_node) : v2_node * v2_outcome :=
  if negb (negotiating n) then (n, Refused "Unexpected tx_add_output")
  else
    let p := n_params n in
    let dust := if v_remoteDust p <? v_localDust p then v_localDust p else v_remoteDust p in
    let n := set_builder (setDustLimit dust (n_builder n)) n in
    let output := {| out_serialId := to_serialId msg; out_amountSats := to_amountSats msg;
                     out_scriptPubkey := to_scriptPubkey msg |} in
    let '(n, err) := on_builder (addPeerOutput output) n in
    match err with Some e => (n, Refused e) | None => _driveDualFunding n end.

Definition handleTxComplete (n : v2_node) : v2_node * v2_outcome :=
  if negb (negotiating n) then (n, Refused "Unexpected tx_complete")
  else
    let '(n, err) := session_handlePeerComplete n in
    match err with
    | Some e => (n, Refused e)
    | None =>
        if bool_decide (n_session n = DF_AWAITING_TX_SIGNATURES)
        then match _validateNegotiatedInteractiveTx n with
             | Some e => abandon e n
             | None => (n, Replies [])
             end
        else _driveDualFunding n
    end.

Definition handleTxRemoveInput (msg : ITxRemoveInputMessage) (n : v2_node) : v2_node * v2_outcome :=
  if negb (negotiating n) then (n, Refused "Unexpected tx_remove_input")
  else
    let '(n, err) := on_builder (removePeerInput (tr_serialId msg)) n in
    match err with Some e => (n, Refused e) | None => (n, Replies []) end.

Definition handleTxRemoveOutput (msg : ITxRemoveOutputMessage) (n : v2_node) : v2_node * v2_outcome :=
  if negb (negotiating n) then (n, Refused "Unexpected tx_remove_output")
  else
    let '(n, err) := on_builder (removePeerOutput (tq_serialId msg)) n in
    match err with Some e => (n, Refused e) | None => (n, Replies []) end.

Definition beginDualFundingContribution (n : v2_node) : v2_node * v2_outcome := _driveDualFunding n.

(** A node at the start of the negotiation. *)
Definition v2_start (p : v2_params) (c : dual_contribution) (locktime : Z) : v2_node :=
  {| n_params := p; n_session := DF_TX_NEGOTIATION;
     n_builder := new_InteractiveTxBuilder (v_isInitiator p) locktime;
     n_contribution := Some c; n_contribs := None; n_index := 0 |}.

Definition deliver (prevTxBytesFree : option Z) (m : v2_message) (n : v2_node) : v2_node * v2_outcome :=
  match m with
  | MAddInput msg => handleTxAddInput msg prevTxBytesFree n
  | MAddOutput msg => handleTxAddOutput msg n
  | MComplete _ => handleTxComplete n
  end.

(** The exchange, one message at a time, until a node has nothing to answer; an error on
    either side ends it with nothing. *)
Fixpoint negotiate (fuel : nat) (free : option Z) (m : v2_message) (receiver sender : v2_node)
    : option (v2_node * v2_node) :=
  match fuel with
  | 0%nat => None
  | S fuel =>
      match deliver free m receiver with
      | (receiver, Replies []) => Some (receiver, sender)
      | (receiver, Replies [m']) => '(s, r) ← negotiate fuel free m' sender receiver; Some (r, s)
      | _ => None
      end
  end.

(** An open: the initiator moves first. *)
Definition v2_negotiation (fuel : nat) (free : option Z) (initiator acceptor : v2_node)
    : option (v2_node * v2_node) :=
  match beginDualFundingContribution initiator with
  | (initiator, Replies [m]) => '(a, i) ← negotiate fuel free m acceptor initiator; Some (i, a)
  | _ => None
  end.

End Node.
