(* ===== verification/DualFundingRun.v ===== *)
(** * Two nodes fund a channel together

    The exchange of DualFunding.v between two nodes that follow the code.  [log] is the
    list of contributions so far, in the order they were sent; both sessions hold
    exactly the log, and each side's part of it is the start of its plan. *)

From S2P Require Import Prelude Buffer CommitmentTx Scripts JsMap WireTx InteractiveTx DualFunding.
From stdpp Require Import pretty.
From Stdlib Require Import Strings.Byte.
Local Open Scope Z_scope.

(** ** Contributions *)

Definition serial (c : contrib) : Z :=
  match c with CInput i => in_serialId i | COutput o => out_serialId o end.

Definition as_input (c : contrib) : option IInteractiveTxInput :=
  match c with CInput i => Some i | COutput _ => None end.
Definition as_output (c : contrib) : option IInteractiveTxOutput :=
  match c with CInput _ => None | COutput o => Some o end.

Definition ins (log : list contrib) : list IInteractiveTxInput := omap as_input log.
Definition outs (log : list contrib) : list IInteractiveTxOutput := omap as_output log.

(** The contributions of one side. *)
Definition side (initiator : bool) (log : list contrib) : list contrib :=
  List.filter (fun c => Bool.eqb (is_even (serial c)) initiator) log.

Lemma ins_app a b : ins (a ++ b) = ins a ++ ins b.
Proof. apply omap_app. Qed.

Lemma outs_app a b : outs (a ++ b) = outs a ++ outs b.
Proof. apply omap_app. Qed.

Lemma side_app i a b : side i (a ++ b) = side i a ++ side i b.
Proof. apply List.filter_app. Qed.

Lemma side_one i c : is_even (serial c) = i -> side i [c] = [c].
Proof. intros <-. unfold side. cbn. by rewrite Bool.eqb_reflx. Qed.

Lemma side_other i c : is_even (serial c) = negb i -> side i [c] = [].
Proof. unfold side. cbn. intros ->. by destruct i. Qed.

(** The two sides together are the log. *)
Lemma sides_perm i log : Permutation log (side i log ++ side (negb i) log).
Proof.
  induction log as [|c log IH]; [done|]. unfold side in *. cbn.
  destruct (is_even (serial c)), i; cbn in *; rewrite <- ?Permutation_middle; by f_equiv.
Qed.

Lemma side_in i c log : c ∈ side i log <-> c ∈ log /\ is_even (serial c) = i.
Proof.
  unfold side. rewrite !list_elem_of_In, filter_In, Bool.eqb_true_iff. done.
Qed.

Lemma ins_in i log : i ∈ ins log <-> CInput i ∈ log.
Proof.
  unfold ins. rewrite list_elem_of_omap. split.
  - intros ([i'|o] & H & E); [injection E as ->; done|done].
  - intros H. by exists (CInput i).
Qed.

Lemma outs_in o log : o ∈ outs log <-> COutput o ∈ log.
Proof.
  unfold outs. rewrite list_elem_of_omap. split.
  - intros ([i|o'] & H & E); [done|injection E as ->; done].
  - intros H. by exists (COutput o).
Qed.

Lemma ins_cons c log : ins (c :: log) = match c with CInput i => i :: ins log | COutput _ => ins log end.
Proof. by destruct c. Qed.

Lemma outs_cons c log : outs (c :: log) = match c with CInput _ => outs log | COutput o => o :: outs log end.
Proof. by destruct c. Qed.

Lemma side_cons i c log :
  side i (c :: log) = if Bool.eqb (is_even (serial c)) i then c :: side i log else side i log.
Proof. done. Qed.

Lemma count_ins s log : countBySide (map in_serialId (ins log)) s = Z.of_nat (length (ins (side s log))).
Proof.
  unfold countBySide. f_equal. induction log as [|[i|o] log IH]; [done|..]; rewrite ins_cons, side_cons; cbn [serial].
  - cbn [map List.filter]. destruct (Bool.eqb (is_even (in_serialId i)) s); rewrite ?ins_cons; cbn [length]; by rewrite IH.
  - rewrite IH. destruct (Bool.eqb (is_even (out_serialId o)) s); by rewrite ?ins_cons.
Qed.

Lemma count_outs s log : countBySide (map out_serialId (outs log)) s = Z.of_nat (length (outs (side s log))).
Proof.
  unfold countBySide. f_equal. induction log as [|[i|o] log IH]; [done|..]; rewrite outs_cons, side_cons; cbn [serial].
  - rewrite IH. destruct (Bool.eqb (is_even (in_serialId i)) s); by rewrite ?outs_cons.
  - cbn [map List.filter]. destruct (Bool.eqb (is_even (out_serialId o)) s); rewrite ?outs_cons; cbn [length]; by rewrite IH.
Qed.

(** ** A map by serial id *)

Definition keyed_list {V} (key : V -> Z) (l : list V) : @jsmap V := map (fun v => (pretty (key v), v)) l.

Lemma values_keyed {V} (key : V -> Z) l : values (keyed_list key l) = l.
Proof. unfold values, keyed_list. rewrite map_map. cbn. apply map_id. Qed.

Lemma get_keyed {V} (key : V -> Z) l n : Forall (fun v => key v <> n) l -> get (pretty n) (keyed_list key l) = None.
Proof.
  induction 1 as [|v l Hv _ IH]; [done|]. cbn. rewrite decide_False; [done|].
  intros E%(inj pretty). by symmetry in E.
Qed.

Lemma set_keyed {V} (key : V -> Z) l v : Forall (fun w => key w <> key v) l ->
  set (pretty (key v)) v (keyed_list key l) = keyed_list key (l ++ [v]).
Proof.
  induction 1 as [|w l Hw _ IH]; [done|]. cbn. rewrite decide_False; [|intros E%(inj pretty); by symmetry in E].
  unfold keyed_list in *. by rewrite IH.
Qed.

(** ** Plans *)

Section Run.
Context `{L : BitcoinLib} `{T : TxLib}.

(** An input whose message lets the peer rebuild it, and which the peer takes. *)
Definition sendable_input (free : option Z) (i : IInteractiveTxInput) : Prop :=
  (exists bytes tx, in_prevTx i = Some bytes /\ 32 <= blen bytes /\ Transaction_fromBuffer bytes = Some tx /\
     in_prevTxid i = pt_hash tx) /\
  in_prevTxVout i = Some (in_prevOutputIndex i) /\ in_isShared i = None /\
  in_sequence i <= MAX_INTERACTIVE_TX_SEQUENCE /\
  validatePeerInputPrevTx (in_prevTx i) (in_prevOutputIndex i) = None /\
  match free with Some f => prev_bytes i <= f | None => True end.

Definition sendable_output (floor : Z) (o : IInteractiveTxOutput) : Prop :=
  floor <= out_amountSats o <= MAX_MONEY_SATS.

(** What one side means to contribute. *)
Record plan_ok (initiator : bool) (floor : Z) (free : option Z) (all : list contrib) : Prop := {
  pl_parity : Forall (fun c => is_even (serial c) = initiator) all;
  pl_distinct : NoDup (map serial all);
  pl_inputs : Forall (sendable_input free) (ins all);
  pl_outputs : Forall (sendable_output floor) (outs all);
  pl_icount : Z.of_nat (length (ins all)) <= MAX_INTERACTIVE_TX_INPUTS;
  pl_ocount : Z.of_nat (length (outs all)) <= MAX_INTERACTIVE_TX_OUTPUTS;
  pl_bytes : zsum prev_bytes (ins all) <= MAX_PEER_PREVTX_BYTES_PER_SESSION
}.

(** A builder that has seen [log] and is in [st]. *)
Record builder_ok (b : InteractiveTxBuilder) (p : v2_params) (locktime : Z) (log : list contrib)
    (st : InteractiveTxState) : Prop := {
  bo_state : it_state (b_session b) = st;
  bo_initiator : it_isInitiator (b_session b) = v_isInitiator p;
  bo_locktime : it_locktime (b_session b) = locktime;
  bo_inputs : it_inputs (b_session b) = keyed_list in_serialId (ins log);
  bo_outputs : it_outputs (b_session b) = keyed_list out_serialId (outs log);
  bo_imsgs : default 0 (it_peerAddInputMsgs (b_session b)) =
    Z.of_nat (length (ins (side (negb (v_isInitiator p)) log)));
  bo_omsgs : default 0 (it_peerAddOutputMsgs (b_session b)) =
    Z.of_nat (length (outs (side (negb (v_isInitiator p)) log)));
  bo_bytes : b_peerPrevTxBytes b = zsum prev_bytes (ins (side (negb (v_isInitiator p)) log));
  bo_dust : DUST_LIMIT_SATS <= b_dustLimitSats b <= dust_floor p
}.

(** What a node has still to send. *)
Definition to_send (n : v2_node) (rest : list contrib) : Prop :=
  exists c, n_contribution n = Some c /\
    match n_contribs n with
    | Some l => drop (n_index n) l = rest
    | None => exists serial', _computeDualFundingContributions (n_params n) c
        (it_nextSerialId (b_session (n_builder n))) = inr (rest, serial')
    end.

(** A negotiating node that has seen [log] and has [rest] to send. *)
Record node_ok (n : v2_node) (p : v2_params) (locktime : Z) (log rest : list contrib)
    (st : InteractiveTxState) : Prop := {
  no_params : n_params n = p;
  no_session : n_session n = DF_TX_NEGOTIATION;
  no_builder : builder_ok (n_builder n) p locktime log st;
  no_rest : to_send n rest
}.

Lemma fresh_in_plan i floor free (log : list contrib) c rest all j other :
  plan_ok i floor free all -> side i log ++ c :: rest = all ->
  plan_ok (negb i) floor free other -> side (negb i) log ++ j = other ->
  Forall (fun c' => serial c' <> serial c) log.
Proof.
  intros Hp <- Ho <-. apply List.Forall_forall. intros c' Hin E. apply list_elem_of_In in Hin.
  destruct (decide (is_even (serial c') = i)) as [Hs|Hs].
  - pose proof (pl_distinct _ _ _ _ Hp) as Hd. rewrite map_app in Hd. cbn in Hd.
    apply NoDup_app in Hd as (_ & Hd & _). apply (Hd (serial c')).
    + apply list_elem_of_In, in_map, list_elem_of_In. by apply side_in.
    + rewrite E. by left.
  - pose proof (pl_parity _ _ _ _ Hp) as Hpar. apply Forall_app in Hpar as [_ Hpar].
    apply Forall_cons in Hpar as [Hc _]. congruence.
Qed.

Lemma fresh_ins log n : Forall (fun c => serial c <> n) log -> Forall (fun i => in_serialId i <> n) (ins log).
Proof.
  intros H. apply Forall_forall. intros i Hi%ins_in. rewrite Forall_forall in H. exact (H _ Hi).
Qed.

Lemma fresh_outs log n : Forall (fun c => serial c <> n) log -> Forall (fun o => out_serialId o <> n) (outs log).
Proof.
  intros H. apply Forall_forall. intros o Ho%outs_in. rewrite Forall_forall in H. exact (H _ Ho).
Qed.

(** ** One node's moves *)

Definition reopened (st : InteractiveTxState) : InteractiveTxState :=
  match st with SENT_COMPLETE => COLLECTING | st => st end.

Definition open_state (st : InteractiveTxState) : Prop :=
  st = COLLECTING \/ st = SENT_COMPLETE \/ st = RECEIVED_COMPLETE.

Lemma closed_open b st : it_state (b_session b) = st -> open_state st -> closed_session b = None.
Proof. unfold closed_session, getState. intros -> [->|[->| ->]]; done. Qed.

Lemma reopen_state s st : it_state s = st -> it_state (reopen s) = reopened st.
Proof. intros <-. unfold reopen. case_bool_decide as E; [by rewrite E|]. by destruct (it_state s). Qed.

Lemma reopen_locktime s : it_locktime (reopen s) = it_locktime s.
Proof. unfold reopen. by case_bool_decide. Qed.

Lemma reopen_next s : it_nextSerialId (reopen s) = it_nextSerialId s.
Proof. unfold reopen. by case_bool_decide. Qed.

Lemma reopen_imsgs s : it_peerAddInputMsgs (reopen s) = it_peerAddInputMsgs s.
Proof. unfold reopen. by case_bool_decide. Qed.

Lemma reopen_omsgs s : it_peerAddOutputMsgs (reopen s) = it_peerAddOutputMsgs s.
Proof. unfold reopen. by case_bool_decide. Qed.

(** The items of a builder after one more contribution. *)
Record took (b b' : InteractiveTxBuilder) (c : contrib) (own : bool) : Prop := {
  tk_state : it_state (b_session b') = reopened (it_state (b_session b));
  tk_init : it_isInitiator (b_session b') = it_isInitiator (b_session b);
  tk_locktime : it_locktime (b_session b') = it_locktime (b_session b);
  tk_next : it_nextSerialId (b_session b') = it_nextSerialId (b_session b);
  tk_inputs : it_inputs (b_session b') =
    match c with CInput i => set (pretty (in_serialId i)) i (it_inputs (b_session b)) | _ => it_inputs (b_session b) end;
  tk_outputs : it_outputs (b_session b') =
    match c with COutput o => set (pretty (out_serialId o)) o (it_outputs (b_session b)) | _ => it_outputs (b_session b) end;
  tk_imsgs : default 0 (it_peerAddInputMsgs (b_session b')) = default 0 (it_peerAddInputMsgs (b_session b)) +
    match c with CInput _ => if own then 0 else 1 | _ => 0 end;
  tk_omsgs : default 0 (it_peerAddOutputMsgs (b_session b')) = default 0 (it_peerAddOutputMsgs (b_session b)) +
    match c with COutput _ => if own then 0 else 1 | _ => 0 end;
  tk_bytes : b_peerPrevTxBytes b' = b_peerPrevTxBytes b +
    match c with CInput i => if own then 0 else prev_bytes i | _ => 0 end;
  tk_dust : b_dustLimitSats b' = b_dustLimitSats b
}.

Ltac took_solve :=
  constructor; cbn [with_session b_session b_dustLimitSats b_peerPrevTxBytes];
  rewrite ?reopen_isInitiator, ?reopen_inputs, ?reopen_outputs, ?reopen_locktime, ?reopen_next, ?reopen_imsgs,
    ?reopen_omsgs; first [by apply reopen_state | done | cbn; lia].

Lemma add_own b c :
  open_state (it_state (b_session b)) -> is_even (serial c) = it_isInitiator (b_session b) ->
  match c with
  | CInput i => get (pretty (in_serialId i)) (it_inputs (b_session b)) = None
  | COutput o => get (pretty (out_serialId o)) (it_outputs (b_session b)) = None
  end ->
  exists b', add_contrib c b = (b', None) /\ took b b' c true.
Proof.
  intros Hst Hpar Hg. destruct c as [i|o]; cbn [add_contrib serial] in *; [unfold addInput|unfold addOutput];
    rewrite (closed_open b _ eq_refl Hst), (proj2 (parity_ok _ _) Hpar), (proj2 (has_get _ _) Hg);
    (eexists; split; [reflexivity|]); took_solve.
Qed.

Lemma add_peer_input b i free :
  open_state (it_state (b_session b)) -> peer_input_error i free (with_session count_input_msg b) = None ->
  exists b', addPeerInput i free b = (b', None) /\ took b b' (CInput i) false.
Proof.
  intros Hst He. unfold addPeerInput. rewrite (closed_open b _ eq_refl Hst), He. eexists. split; [reflexivity|].
  took_solve.
Qed.

Lemma add_peer_output b o :
  open_state (it_state (b_session b)) -> peer_output_error o (with_session count_output_msg b) = None ->
  exists b', addPeerOutput o b = (b', None) /\ took b b' (COutput o) false.
Proof.
  intros Hst He. unfold addPeerOutput. rewrite (closed_open b _ eq_refl Hst), He. eexists. split; [reflexivity|].
  took_solve.
Qed.

Lemma took_builder b b' p lt log st c own :
  builder_ok b p lt log st -> took b b' c own ->
  is_even (serial c) = (if own then v_isInitiator p else negb (v_isInitiator p)) ->
  Forall (fun c' => serial c' <> serial c) log ->
  builder_ok b' p lt (log ++ [c]) (reopened st).
Proof.
  intros [] [] Hpar Hf. assert (side (negb (v_isInitiator p)) [c] = if own then [] else [c]) as Hside.
  { destruct own; [apply side_other; by rewrite negb_involutive|by apply side_one]. }
  constructor; rewrite ?ins_app, ?outs_app, ?side_app, ?Hside, ?ins_app, ?outs_app, ?length_app, ?zsum_app.
  - congruence.
  - congruence.
  - congruence.
  - rewrite tk_inputs0, bo_inputs0. destruct c as [i|o]; [|by rewrite app_nil_r].
    apply set_keyed. by apply fresh_ins.
  - rewrite tk_outputs0, bo_outputs0. destruct c as [i|o]; [by rewrite app_nil_r|].
    apply set_keyed. by apply fresh_outs.
  - rewrite tk_imsgs0, bo_imsgs0. destruct own, c; cbn; lia.
  - rewrite tk_omsgs0, bo_omsgs0. destruct own, c; cbn; lia.
  - rewrite tk_bytes0, bo_bytes0. destruct own, c; cbn; lia.
  - by rewrite tk_dust0.
Qed.

Lemma fresh_get b p lt log st c : builder_ok b p lt log st -> Forall (fun c' => serial c' <> serial c) log ->
  match c with
  | CInput i => get (pretty (in_serialId i)) (it_inputs (b_session b)) = None
  | COutput o => get (pretty (out_serialId o)) (it_outputs (b_session b)) = None
  end.
Proof.
  intros [] Hf. destruct c as [i|o]; [rewrite bo_inputs0|rewrite bo_outputs0]; apply get_keyed;
    [by apply fresh_ins|by apply fresh_outs].
Qed.

(** The first turn computes the plan and changes nothing else. *)
Lemma with_contribs_ok n p lt log rest st : node_ok n p lt log rest st ->
  exists n' l, with_contribs n = inr n' /\ node_ok n' p lt log rest st /\ n_contribs n' = Some l /\
    drop (n_index n') l = rest /\ n_contribution n' = n_contribution n.
Proof.
  intros [Hp Hs Hb (c & Hc & Hr)]. unfold with_contribs. destruct (n_contribs n) as [l|] eqn:El.
  - exists n, l. split_and!; try done. constructor; try done. exists c. by rewrite El.
  - destruct Hr as [serial' Hr]. rewrite Hc, Hr. eexists _, rest. split_and!; [reflexivity| |done..].
    constructor; cbn; [done|done| |exists c; done]. destruct Hb. by constructor.
Qed.

(** A turn with something to send. *)
Lemma drive_sends n p lt log c rest st :
  node_ok n p lt log (c :: rest) st -> st = COLLECTING \/ st = RECEIVED_COMPLETE ->
  is_even (serial c) = v_isInitiator p -> Forall (fun c' => serial c' <> serial c) log ->
  exists n', _driveDualFunding n = (n', Replies [contrib_message p c]) /\ node_ok n' p lt (log ++ [c]) rest st.
Proof.
  intros Hn Hst Hpar Hf. pose proof Hn as [_ Hs0 _ (k & Hk & _)]. unfold _driveDualFunding.
  rewrite !bool_decide_true by (done || rewrite Hk; by eexists). cbn [andb negb].
  destruct (with_contribs_ok _ _ _ _ _ _ Hn) as (n' & l & -> & [Hp Hs Hb _] & Hl & Hd & Hkc). rewrite Hl.
  pose proof (drop_S l c (n_index n')) as Hdrop.
  assert (l !! n_index n' = Some c) as Hlook.
  { rewrite <- (Nat.add_0_r (n_index n')), <- lookup_drop, Hd. done. }
  change (default [] (Some l)) with l. rewrite Hlook. specialize (Hdrop Hlook). rewrite Hd in Hdrop. injection Hdrop as Hrest.
  assert (open_state (it_state (b_session (n_builder n')))) as Hopen
    by (rewrite (bo_state _ _ _ _ _ Hb); destruct Hst as [->| ->]; [by left|by right; right]).
  destruct (add_own (n_builder n') c Hopen) as (b' & Hadd & Htook).
  { by rewrite (bo_initiator _ _ _ _ _ Hb). }
  { exact (fresh_get _ _ _ _ _ _ Hb Hf). }
  unfold on_builder. cbn [n_session n_builder]. rewrite bool_decide_true by done. cbn [negb]. rewrite Hadd.
  cbn. rewrite Hp. eexists. split; [reflexivity|]. constructor; cbn; [done|done| |].
  - pose proof (took_builder _ _ _ _ _ _ c true Hb Htook Hpar Hf) as H.
    by destruct Hst as [->| ->].
  - exists k. cbn. by rewrite Hkc, Hrest.
Qed.

Lemma first_error_none checks : Forall (fun e => e = None) checks -> first_error checks = None.
Proof. induction 1 as [|e checks -> _ IH]; done. Qed.

Lemma check_ok refused e : refused = false -> check refused e = None.
Proof. by intros ->. Qed.

(** The peer's plan leaves room for its next contribution. *)
Lemma room_for i floor free log c rest all :
  plan_ok i floor free all -> side i log ++ c :: rest = all ->
  match c with
  | CInput x => sendable_input free x /\ Z.of_nat (length (ins (side i log))) + 1 <= MAX_INTERACTIVE_TX_INPUTS /\
      zsum prev_bytes (ins (side i log)) + prev_bytes x <= MAX_PEER_PREVTX_BYTES_PER_SESSION
  | COutput x => sendable_output floor x /\
      Z.of_nat (length (outs (side i log))) + 1 <= MAX_INTERACTIVE_TX_OUTPUTS
  end.
Proof.
  intros [] <-. rewrite ins_app, ins_cons in *. rewrite outs_app, outs_cons in *. rewrite zsum_app in *.
  destruct c as [x|x].
  - apply Forall_app in pl_inputs0 as [_ [? _]%Forall_cons]. rewrite length_app in pl_icount0.
    cbn [length zsum] in *. assert (0 <= zsum prev_bytes (ins rest)).
    { apply zsum_nonneg, prev_bytes_nonneg. }
    split_and!; [done|lia|lia].
  - apply Forall_app in pl_outputs0 as [_ [? _]%Forall_cons]. rewrite length_app in pl_ocount0.
    cbn [length] in *. split; [done|lia].
Qed.

Lemma to_send_builder n b' rest : it_nextSerialId (b_session b') = it_nextSerialId (b_session (n_builder n)) ->
  to_send n rest -> to_send (set_builder b' n) rest.
Proof. intros E (c & Hc & Hr). exists c. split; [done|]. cbn. by rewrite E. Qed.

Lemma took_node n b' p lt log rest st c :
  node_ok n p lt log rest st -> took (n_builder n) b' c false -> is_even (serial c) = negb (v_isInitiator p) ->
  Forall (fun c' => serial c' <> serial c) log -> node_ok (set_builder b' n) p lt (log ++ [c]) rest (reopened st).
Proof.
  intros [] Ht Hpar Hf. constructor; [done|done| |].
  - exact (took_builder _ _ _ _ _ _ c false no_builder0 Ht Hpar Hf).
  - apply to_send_builder; [exact (tk_next _ _ _ _ Ht)|done].
Qed.

(** A node takes the input its peer announces. *)
Lemma deliver_input free q p lt log rest st n i rest' all :
  node_ok n p lt log rest st -> open_state st -> plan_ok (negb (v_isInitiator p)) (dust_floor p) free all ->
  side (negb (v_isInitiator p)) log ++ CInput i :: rest' = all ->
  Forall (fun c' => serial c' <> in_serialId i) log -> is_even (in_serialId i) = negb (v_isInitiator p) ->
  exists n', deliver free (contrib_message q (CInput i)) n = _driveDualFunding n' /\
    node_ok n' p lt (log ++ [CInput i]) rest (reopened st).
Proof.
  intros Hn Hst Hp Hall Hf Hpar. destruct (room_for _ _ _ _ _ _ _ Hp Hall) as (Hi & Hcount & Hbytes).
  destruct Hi as ((bytes & tx & Hb & H32 & Htx & Hid) & Hv & Hsh & Hseq & Hval & Hfree).
  pose proof (no_builder _ _ _ _ _ _ Hn) as Hbo. pose proof (bo_state _ _ _ _ _ Hbo) as Hstate.
  cbn [deliver contrib_message]. unfold handleTxAddInput, negotiating. rewrite (no_session _ _ _ _ _ _ Hn).
  rewrite bool_decide_true by done. cbn [negb ti_serialId ti_prevTx ti_prevTxVout ti_sequence]. rewrite Hb.
  change (default [] (Some bytes)) with bytes.
  match goal with |- context [addPeerInput ?i' _] => assert (i' = i) as -> end.
  { unfold peer_txid, extractTxidFromPrevTx.
    rewrite (proj2 (Z.leb_le _ _) H32), Htx. cbn. destruct i; cbn in *; congruence. }
  destruct (add_peer_input (n_builder n) i free) as (b' & Hadd & Ht); [by rewrite Hstate| |].
  { unfold peer_input_error. apply first_error_none. cbn [with_session b_session b_peerPrevTxBytes].
    rewrite Hsh, Hv. cbn [default count_input_msg it_peerAddInputMsgs it_isInitiator it_inputs].
    unfold input_serials. cbn [count_input_msg it_inputs]. rewrite (bo_inputs _ _ _ _ _ Hbo), values_keyed, count_ins.
    rewrite (bo_initiator _ _ _ _ _ Hbo).
    pose proof (bo_imsgs _ _ _ _ _ Hbo). pose proof (bo_bytes _ _ _ _ _ Hbo).
    unfold MAX_INTERACTIVE_TX_INPUTS, MAX_INTERACTIVE_TX_MSGS, MAX_PEER_PREVTX_BYTES_PER_SESSION in *.
    repeat (apply Forall_cons; split); try apply Forall_nil; try done; try apply check_ok.
    - apply Z.ltb_ge. cbn. lia.
    - unfold validatePeerSerialIdParity. by apply parity_ok.
    - apply Z.ltb_ge. lia.
    - apply Z.leb_gt. lia.
    - apply Z.ltb_ge. lia.
    - destruct free; [apply Z.ltb_ge; lia|done].
    - apply has_get. apply get_keyed. by apply fresh_ins. }
  unfold on_builder. rewrite bool_decide_true by exact (no_session _ _ _ _ _ _ Hn). cbn [negb]. rewrite Hadd.
  eexists. split; [reflexivity|]. exact (took_node _ _ _ _ _ _ _ (CInput i) Hn Ht Hpar Hf).
Qed.

Lemma set_dust_ok n p lt log rest st sats : node_ok n p lt log rest st -> sats <= dust_floor p ->
  node_ok (set_builder (setDustLimit sats (n_builder n)) n) p lt log rest st.
Proof.
  intros [] Hs. unfold setDustLimit. constructor; cbn [set_builder n_params n_session n_builder]; [done|done| |].
  - destruct (Z.ltb_spec (b_dustLimitSats (n_builder n)) sats); [|done]. destruct no_builder0.
    constructor; try done. cbn. lia.
  - apply to_send_builder; [by destruct (_ <? _)|done].
Qed.

(** A node takes the output its peer announces. *)
Lemma deliver_output free q p lt log rest st n o rest' all :
  node_ok n p lt log rest st -> open_state st -> plan_ok (negb (v_isInitiator p)) (dust_floor p) free all ->
  side (negb (v_isInitiator p)) log ++ COutput o :: rest' = all ->
  Forall (fun c' => serial c' <> out_serialId o) log -> is_even (out_serialId o) = negb (v_isInitiator p) ->
  exists n', deliver free (contrib_message q (COutput o)) n = _driveDualFunding n' /\
    node_ok n' p lt (log ++ [COutput o]) rest (reopened st).
Proof.
  intros Hn Hst Hp Hall Hf Hpar. destruct (room_for _ _ _ _ _ _ _ Hp Hall) as ([Hlow Hhigh] & Hcount).
  cbn [deliver contrib_message]. unfold handleTxAddOutput, negotiating. rewrite (no_session _ _ _ _ _ _ Hn).
  rewrite bool_decide_true by done. cbn [negb to_serialId to_amountSats to_scriptPubkey].
  rewrite (no_params _ _ _ _ _ _ Hn). set (dust := if _ <? _ then _ else _).
  assert (node_ok (set_builder (setDustLimit dust (n_builder n)) n) p lt log rest st) as Hn'.
  { apply set_dust_ok; [done|]. unfold dust, dust_floor. repeat case_match; lia. }
  revert Hn'. generalize (set_builder (setDustLimit dust (n_builder n)) n). clear n Hn dust. intros n Hn.
  pose proof (no_builder _ _ _ _ _ _ Hn) as Hbo. pose proof (bo_state _ _ _ _ _ Hbo) as Hstate.
  match goal with |- context [addPeerOutput ?o'] => assert (o' = o) as -> by (by destruct o) end.
  destruct (add_peer_output (n_builder n) o) as (b' & Hadd & Ht); [by rewrite Hstate| |].
  { unfold peer_output_error. apply first_error_none. cbn [with_session b_session b_dustLimitSats].
    cbn [count_output_msg it_peerAddOutputMsgs it_isInitiator it_outputs].
    unfold output_serials. cbn [count_output_msg it_outputs]. rewrite (bo_outputs _ _ _ _ _ Hbo), values_keyed, count_outs.
    rewrite (bo_initiator _ _ _ _ _ Hbo).
    pose proof (bo_omsgs _ _ _ _ _ Hbo). pose proof (bo_dust _ _ _ _ _ Hbo).
    unfold MAX_INTERACTIVE_TX_OUTPUTS, MAX_INTERACTIVE_TX_MSGS in *.
    repeat (apply Forall_cons; split); try apply Forall_nil; try done; try apply check_ok.
    - apply Z.ltb_ge. cbn. lia.
    - unfold validatePeerSerialIdParity. by apply parity_ok.
    - apply Z.leb_gt. lia.
    - apply Z.ltb_ge. lia.
    - apply Z.ltb_ge. lia.
    - apply has_get. apply get_keyed. by apply fresh_outs. }
  unfold on_builder. rewrite bool_decide_true by exact (no_session _ _ _ _ _ _ Hn). cbn [negb]. rewrite Hadd.
  eexists. split; [reflexivity|]. exact (took_node _ _ _ _ _ _ _ (COutput o) Hn Ht Hpar Hf).
Qed.

Lemma deliver_contrib free q p lt log rest st n c rest' all :
  node_ok n p lt log rest st -> open_state st -> plan_ok (negb (v_isInitiator p)) (dust_floor p) free all ->
  side (negb (v_isInitiator p)) log ++ c :: rest' = all ->
  Forall (fun c' => serial c' <> serial c) log -> is_even (serial c) = negb (v_isInitiator p) ->
  exists n', deliver free (contrib_message q c) n = _driveDualFunding n' /\
    node_ok n' p lt (log ++ [c]) rest (reopened st).
Proof. destruct c; [apply deliver_input|apply deliver_output]. Qed.

(** ** The end of the exchange *)

(** The audit of [log] as [p] sees it. *)
Definition passes (p : v2_params) (log : list contrib) : Prop :=
  forall n, n_params n = p -> getInputs (n_builder n) = ins log -> getOutputs (n_builder n) = outs log ->
    _validateNegotiatedInteractiveTx n = None.

(** A node whose negotiation is over. *)
Record node_done (n : v2_node) (p : v2_params) (locktime : Z) (log : list contrib) : Prop := {
  nd_params : n_params n = p;
  nd_session : n_session n = DF_AWAITING_TX_SIGNATURES;
  nd_builder : builder_ok (n_builder n) p locktime log COMPLETE
}.

Lemma set_state_ok b p lt log st st' : builder_ok b p lt log st -> builder_ok (with_session (set_state st') b) p lt log st'.
Proof. by intros []. Qed.

Lemma done_passes n p lt log : node_done n p lt log -> passes p log -> _validateNegotiatedInteractiveTx n = None.
Proof.
  intros [Hp _ Hb] H. apply H; [done|..]; unfold getInputs, getOutputs;
    rewrite ?(bo_inputs _ _ _ _ _ Hb), ?(bo_outputs _ _ _ _ _ Hb); apply values_keyed.
Qed.

Lemma on_builder_ok n p lt log rest st f b' : node_ok n p lt log rest st -> f (n_builder n) = (b', None) ->
  on_builder f n = (set_builder b' n, None).
Proof. intros [] Hf. unfold on_builder. rewrite bool_decide_true by done. cbn [negb]. by rewrite Hf. Qed.

(** Decides the tests on states that are known. *)
Ltac settled :=
  unfold settle_complete, isComplete, getState;
  cbn [set_builder n_builder n_session n_params with_session b_session set_state it_state];
  rewrite ?(bool_decide_true (COLLECTING = COLLECTING)), ?(bool_decide_true (COMPLETE = COMPLETE)),
    ?(bool_decide_true (DF_AWAITING_TX_SIGNATURES = DF_AWAITING_TX_SIGNATURES)),
    ?(bool_decide_false (RECEIVED_COMPLETE = COLLECTING)), ?(bool_decide_false (SENT_COMPLETE = COMPLETE)),
    ?(bool_decide_false (RECEIVED_COMPLETE = COMPLETE)),
    ?(bool_decide_false (DF_TX_NEGOTIATION = DF_AWAITING_TX_SIGNATURES)) by done;
  cbn [set_builder n_builder n_session n_params with_session b_session set_state it_state].

(** A node that has nothing left to send says so, and is done if its peer had said so. *)
Lemma drive_completes n p lt log st :
  node_ok n p lt log [] st -> st = COLLECTING \/ st = RECEIVED_COMPLETE /\ passes p log ->
  exists n' m, _driveDualFunding n = (n', Replies [MComplete m]) /\
    if bool_decide (st = COLLECTING) then node_ok n' p lt log [] SENT_COMPLETE else node_done n' p lt log.
Proof.
  intros Hn Hst. pose proof Hn as [_ Hs0 _ (k & Hk & _)]. unfold _driveDualFunding.
  rewrite !bool_decide_true by (done || rewrite Hk; by eexists). cbn [andb negb].
  destruct (with_contribs_ok _ _ _ _ _ _ Hn) as (n' & l & -> & Hn' & Hl & Hd & Hkc). rewrite Hl.
  change (default [] (Some l)) with l. assert (l !! n_index n' = None) as ->.
  { rewrite <- (Nat.add_0_r (n_index n')), <- lookup_drop, Hd. done. }
  pose proof Hn' as [Hp Hs Hb Hr]. pose proof (bo_state _ _ _ _ _ Hb) as Hstate. unfold getState. rewrite Hstate.
  assert (forall A (x y : A), match st with COLLECTING | RECEIVED_COMPLETE => x | _ => y end = x) as -> 
    by (intros; by destruct Hst as [->|[-> _]]).
  unfold sendTxComplete, session_markComplete.
  rewrite (on_builder_ok n' p lt log [] st markComplete
    (with_session (set_state (if bool_decide (st = COLLECTING) then SENT_COMPLETE else COMPLETE)) (n_builder n')) Hn');
    [|unfold markComplete, getState; rewrite Hstate; by destruct Hst as [->|[-> _]]].
  destruct Hst as [->|[-> Hpass]]; settled.
  - rewrite Hs. settled. eexists _, _. split; [reflexivity|]. constructor; [done|done|by eapply set_state_ok|].
    by apply to_send_builder.
  - match goal with |- context [_validateNegotiatedInteractiveTx ?n] => assert (node_done n p lt log) as Hd' end.
    { constructor; [done|done|by eapply set_state_ok]. }
    rewrite (done_passes _ _ _ _ Hd' Hpass). eauto.
Qed.

(** A tx_complete that does not end the exchange gives the turn back. *)
Lemma complete_reopens n p lt log rest st : node_ok n p lt log rest st -> st = COLLECTING \/ st = RECEIVED_COMPLETE ->
  exists n', handleTxComplete n = _driveDualFunding n' /\ node_ok n' p lt log rest RECEIVED_COMPLETE.
Proof.
  intros Hn Hst. pose proof Hn as [Hp Hs Hb Hr]. pose proof (bo_state _ _ _ _ _ Hb) as Hstate.
  unfold handleTxComplete, negotiating. rewrite bool_decide_true by done. cbn [negb].
  unfold session_handlePeerComplete. rewrite (on_builder_ok n p lt log rest st handlePeerComplete
    (with_session (set_state RECEIVED_COMPLETE) (n_builder n)) Hn);
    [|unfold handlePeerComplete, getState; rewrite Hstate; by destruct Hst as [->| ->]].
  settled. rewrite Hs. settled. eexists. split; [reflexivity|]. constructor; [done|done|by eapply set_state_ok|].
  by apply to_send_builder.
Qed.

(** A tx_complete that answers ours ends it. *)
Lemma complete_finishes n p lt log rest : node_ok n p lt log rest SENT_COMPLETE -> passes p log ->
  exists n', handleTxComplete n = (n', Replies []) /\ node_done n' p lt log.
Proof.
  intros Hn Hpass. pose proof Hn as [Hp Hs Hb Hr]. pose proof (bo_state _ _ _ _ _ Hb) as Hstate.
  unfold handleTxComplete, negotiating. rewrite bool_decide_true by done. cbn [negb].
  unfold session_handlePeerComplete. rewrite (on_builder_ok n p lt log rest SENT_COMPLETE handlePeerComplete
    (with_session (set_state COMPLETE) (n_builder n)) Hn);
    [|unfold handlePeerComplete, getState; by rewrite Hstate].
  settled. match goal with |- context [_validateNegotiatedInteractiveTx ?n] => assert (node_done n p lt log) as Hd' end.
  { constructor; [done|done|by eapply set_state_ok]. }
  rewrite (done_passes _ _ _ _ Hd' Hpass). eauto.
Qed.

(** ** The exchange *)

(** Two sides with plans each can take from the other, and whose plans together pass
    both audits. *)
Record parties (free : option Z) (p q : v2_params) (all_p all_q : list contrib) : Prop := {
  pa_roles : v_isInitiator q = negb (v_isInitiator p);
  pa_floor : dust_floor p = dust_floor q;
  pa_plan_p : plan_ok (v_isInitiator p) (dust_floor p) free all_p;
  pa_plan_q : plan_ok (v_isInitiator q) (dust_floor q) free all_q;
  pa_audit : forall log, side (v_isInitiator p) log = all_p -> side (v_isInitiator q) log = all_q ->
    passes p log /\ passes q log
}.

Lemma parties_sym free p q all_p all_q : parties free p q all_p all_q -> parties free q p all_q all_p.
Proof.
  intros []. constructor; try done; [by rewrite pa_roles0, negb_involutive|].
  intros log Hq Hp. by destruct (pa_audit0 log Hp Hq).
Qed.

(** The outcome: both done, on one log that is the two plans. *)
Definition both_done (lt : Z) (p q : v2_params) (all_p all_q : list contrib) (n_p n_q : v2_node) : Prop :=
  exists log, node_done n_p p lt log /\ node_done n_q q lt log /\
    side (v_isInitiator p) log = all_p /\ side (v_isInitiator q) log = all_q.

(** A contribution of [p] on its way to [q]: the sender counts it already. *)
Definition add_in_flight (lt : Z) (p q : v2_params) (all_p all_q : list contrib) (n : nat) (c : contrib)
    (n_p n_q : v2_node) : Prop :=
  exists log rest_p rest_q st_p st_q, node_ok n_p p lt (log ++ [c]) rest_p st_p /\ node_ok n_q q lt log rest_q st_q /\
    side (v_isInitiator p) log ++ c :: rest_p = all_p /\ side (v_isInitiator q) log ++ rest_q = all_q /\
    (length rest_p + length rest_q <= n)%nat /\
    (st_p = COLLECTING /\ st_q = COLLECTING \/ st_p = RECEIVED_COMPLETE /\ st_q = SENT_COMPLETE /\ rest_q = []).

(** A tx_complete of [p] on its way to [q]. *)
Definition complete_in_flight (lt : Z) (p q : v2_params) (all_p all_q : list contrib) (n : nat)
    (n_p n_q : v2_node) : Prop :=
  exists log rest_q st_q, node_ok n_p p lt log [] SENT_COMPLETE /\ node_ok n_q q lt log rest_q st_q /\
    side (v_isInitiator p) log = all_p /\ side (v_isInitiator q) log ++ rest_q = all_q /\
    (length rest_q <= n)%nat /\ (st_q = COLLECTING \/ st_q = RECEIVED_COMPLETE).

(** A node with the turn and something to send puts a contribution in flight. *)
Lemma turn_sends free lt p q all_p all_q n_p n_q log c rest_p rest_q st_p st_q n :
  parties free p q all_p all_q -> node_ok n_p p lt log (c :: rest_p) st_p -> node_ok n_q q lt log rest_q st_q ->
  side (v_isInitiator p) log ++ c :: rest_p = all_p -> side (v_isInitiator q) log ++ rest_q = all_q ->
  (length rest_p + length rest_q <= n)%nat ->
  st_p = COLLECTING /\ st_q = COLLECTING \/ st_p = RECEIVED_COMPLETE /\ st_q = SENT_COMPLETE /\ rest_q = [] ->
  exists n_p', _driveDualFunding n_p = (n_p', Replies [contrib_message p c]) /\
    add_in_flight lt p q all_p all_q n c n_p' n_q.
Proof.
  intros Hpa Hp Hq Ap Aq Hlen Hst. destruct (drive_sends _ _ _ _ _ _ _ Hp) as (n_p' & Hd & Hn').
  - destruct Hst as [[-> _]|[-> _]]; auto.
  - pose proof (pl_parity _ _ _ _ (pa_plan_p _ _ _ _ _ Hpa)) as Hpar. rewrite <- Ap in Hpar.
    by apply Forall_app in Hpar as [_ [? _]%Forall_cons].
  - rewrite (pa_roles _ _ _ _ _ Hpa) in Aq.
    refine (fresh_in_plan _ _ _ _ _ _ _ _ _ (pa_plan_p _ _ _ _ _ Hpa) Ap _ Aq).
    pose proof (pa_plan_q _ _ _ _ _ Hpa) as H. by rewrite <- (pa_floor _ _ _ _ _ Hpa), (pa_roles _ _ _ _ _ Hpa) in H.
  - exists n_p'. split; [done|]. exists log, rest_p, rest_q, st_p, st_q. done.
Qed.

Lemma negotiate_reply fuel free m r s r' m' :
  deliver free m r = (r', Replies [m']) ->
  negotiate (S fuel) free m r s = '(s', r'') ← negotiate fuel free m' s r'; Some (r'', s').
Proof. intros H. cbn. by rewrite H. Qed.

(** A contribution received: the log of both grows by it. *)
Lemma add_received free lt p q all_p all_q n c n_p n_q :
  parties free p q all_p all_q -> add_in_flight lt p q all_p all_q n c n_p n_q ->
  exists log n_q' rest_p rest_q st_p, deliver free (contrib_message p c) n_q = _driveDualFunding n_q' /\
    node_ok n_p p lt log rest_p st_p /\ node_ok n_q' q lt log rest_q COLLECTING /\
    side (v_isInitiator p) log ++ rest_p = all_p /\ side (v_isInitiator q) log ++ rest_q = all_q /\
    (length rest_p + length rest_q <= n)%nat /\
    (st_p = COLLECTING \/ st_p = RECEIVED_COMPLETE /\ rest_q = []).
Proof.
  intros Hpa (log & rp & rq & stp & stq & Hp & Hq & Ap & Aq & Hlen & Hst).
  pose proof (parties_sym _ _ _ _ _ Hpa) as Hpa'.
  assert (is_even (serial c) = v_isInitiator p) as Hpar.
  { pose proof (pl_parity _ _ _ _ (pa_plan_p _ _ _ _ _ Hpa)) as H. rewrite <- Ap in H.
    by apply Forall_app in H as [_ [? _]%Forall_cons]. }
  pose proof (pa_roles _ _ _ _ _ Hpa') as Hroles. pose proof (pa_plan_p _ _ _ _ _ Hpa) as Hplan.
  assert (Forall (fun c' => serial c' <> serial c) log) as Hf.
  { refine (fresh_in_plan (v_isInitiator p) (dust_floor p) free log c rp all_p rq all_q Hplan Ap _ _).
    - pose proof (pa_plan_q _ _ _ _ _ Hpa) as H. by rewrite <- (pa_floor _ _ _ _ _ Hpa), (pa_roles _ _ _ _ _ Hpa) in H.
    - by rewrite <- (pa_roles _ _ _ _ _ Hpa). }
  rewrite Hroles in Hpar, Hplan. rewrite (pa_floor _ _ _ _ _ Hpa) in Hplan.
  destruct (deliver_contrib free p q lt log rq stq n_q c rp all_p Hq) as (n_q' & Hd & Hn'); try done.
  { destruct Hst as [[_ ->]|(_ & -> & _)]; unfold open_state; auto. }
  { by rewrite <- Hroles. }
  exists (log ++ [c]), n_q', rp, rq, stp. split_and!; try done.
  - by destruct Hst as [[_ ->]|(_ & -> & _)].
  - rewrite side_app, side_one, <- app_assoc; [done|]. by rewrite Hroles.
  - rewrite side_app, side_other, app_nil_r; [done|]. done.
  - destruct Hst as [[-> _]|(-> & _ & ->)]; auto.
Qed.

(** With [n] contributions to go, a message in flight leads to the outcome. *)
Definition complete_finishes_in (free : option Z) (lt : Z) (n : nat) : Prop :=
  forall p q all_p all_q n_p n_q fuel m, parties free p q all_p all_q ->
    complete_in_flight lt p q all_p all_q n n_p n_q -> (2 * n + 2 <= fuel)%nat ->
    exists n_q' n_p', negotiate fuel free (MComplete m) n_q n_p = Some (n_q', n_p') /\
      both_done lt p q all_p all_q n_p' n_q'.

Definition add_finishes_in (free : option Z) (lt : Z) (n : nat) : Prop :=
  forall p q all_p all_q c n_p n_q fuel, parties free p q all_p all_q ->
    add_in_flight lt p q all_p all_q n c n_p n_q -> (2 * n + 3 <= fuel)%nat ->
    exists n_q' n_p', negotiate fuel free (contrib_message p c) n_q n_p = Some (n_q', n_p') /\
      both_done lt p q all_p all_q n_p' n_q'.

Lemma both_done_sym lt p q all_p all_q n_p n_q :
  both_done lt p q all_p all_q n_p n_q -> both_done lt q p all_q all_p n_q n_p.
Proof. intros (log & ? & ? & ? & ?). by exists log. Qed.

Lemma complete_step free lt n :
  match n with 0%nat => True | S n => add_finishes_in free lt n end -> complete_finishes_in free lt n.
Proof.
  intros IH p q all_p all_q n_p n_q fuel m Hpa (log & rq & stq & Hp & Hq & Ap & Aq & Hlen & Hst) Hfuel.
  destruct fuel as [|fuel]; [lia|]. pose proof (parties_sym _ _ _ _ _ Hpa) as Hpa'.
  destruct (complete_reopens _ _ _ _ _ _ Hq Hst) as (n_q' & Hd & Hq').
  destruct rq as [|c rq].
  - rewrite app_nil_r in Aq. destruct (pa_audit _ _ _ _ _ Hpa log Ap Aq) as [Pp Pq].
    destruct (drive_completes _ _ _ _ _ Hq') as (n_q2 & m' & Hdr & Hdone); [by right|].
    rewrite bool_decide_false in Hdone by done.
    rewrite (negotiate_reply _ _ _ _ _ n_q2 (MComplete m')) by (cbn; by rewrite Hd).
    destruct (complete_finishes _ _ _ _ _ Hp Pp) as (n_p' & Hf & Hdone').
    destruct fuel as [|fuel]; [lia|]. cbn. rewrite Hf. cbn. eexists _, _. split; [done|]. by exists log.
  - destruct n as [|n]; [cbn in Hlen; lia|]. rewrite <- (app_nil_r (side _ log)) in Ap.
    destruct (turn_sends _ _ _ _ _ _ _ _ _ _ _ _ _ _ n Hpa' Hq' Hp Aq Ap) as (n_q2 & Hdr & Hfl);
      [cbn in *; lia|by right|].
    rewrite (negotiate_reply _ _ _ _ _ n_q2 (contrib_message q c)) by (cbn; by rewrite Hd).
    destruct (IH _ _ _ _ _ _ _ fuel Hpa' Hfl) as (n_p' & n_q3 & Hrun & Hdone); [lia|].
    rewrite Hrun. cbn. eexists _, _. split; [done|]. by apply both_done_sym.
Qed.

Lemma add_step free lt n :
  match n with 0%nat => True | S n => add_finishes_in free lt n end -> complete_finishes_in free lt n ->
  add_finishes_in free lt n.
Proof.
  intros IH IHc p q all_p all_q c n_p n_q fuel Hpa Hfl Hfuel. destruct fuel as [|fuel]; [lia|].
  pose proof (parties_sym _ _ _ _ _ Hpa) as Hpa'.
  destruct (add_received _ _ _ _ _ _ _ _ _ _ Hpa Hfl)
    as (log & n_q' & rp & rq & stp & Hd & Hp & Hq & Ap & Aq & Hlen & Hst).
  destruct rq as [|c' rq].
  - rewrite app_nil_r in Aq.
    destruct (drive_completes _ _ _ _ _ Hq) as (n_q2 & m' & Hdr & Hq2); [by left|].
    rewrite bool_decide_true in Hq2 by done.
    rewrite (negotiate_reply _ _ _ _ _ n_q2 (MComplete m')) by by rewrite Hd.
    destruct (IHc q p all_q all_p n_q2 n_p fuel m' Hpa') as (n_p' & n_q3 & Hrun & Hdone); [|lia|].
    + exists log, rp, stp. split_and!; try done; [cbn in Hlen; lia|]. destruct Hst as [->|[-> _]]; auto.
    + rewrite Hrun. cbn. eexists _, _. split; [done|]. by apply both_done_sym.
  - destruct Hst as [->|[_ ?]]; [|done]. destruct n as [|n]; [cbn in Hlen; lia|].
    destruct (turn_sends _ _ _ _ _ _ _ _ _ _ _ _ _ _ n Hpa' Hq Hp Aq Ap) as (n_q2 & Hdr & Hfl');
      [cbn in *; lia|by left|].
    rewrite (negotiate_reply _ _ _ _ _ n_q2 (contrib_message q c')) by by rewrite Hd.
    destruct (IH _ _ _ _ _ _ _ fuel Hpa' Hfl') as (n_p' & n_q3 & Hrun & Hdone); [lia|].
    rewrite Hrun. cbn. eexists _, _. split; [done|]. by apply both_done_sym.
Qed.

Lemma exchange free lt n : complete_finishes_in free lt n /\ add_finishes_in free lt n.
Proof.
  induction n as [|n [_ IH]].
  - assert (complete_finishes_in free lt 0) by by apply complete_step. split; [done|by apply add_step].
  - assert (complete_finishes_in free lt (S n)) by by apply complete_step. split; [done|by apply add_step].
Qed.
End Run.
