(* ===== verification/DualFundingOpen.v ===== *)
(** * A v2 open from the two wallets to the funding transaction

    The contributions that _computeDualFundingContributions derives from a wallet
    ([side_ok]) are a plan the peer takes, the two plans together pass both audits, and
    so the exchange of DualFundingRun.v ends with both nodes building one transaction. *)

From S2P Require Import Prelude Buffer CommitmentTx Scripts JsMap WireTx InteractiveTx DualFunding DualFundingRun.
From stdpp Require Import pretty.
From Stdlib Require Import Strings.Byte.
Local Open Scope Z_scope.

Section Open.
Context `{L : BitcoinLib} `{T : TxLib}.

(** ** Wallet inputs *)

(** A previous output that the channel can spend: native segwit, version 0 key hash or
    version 1. *)
Definition spendable_script (script : buffer) : bool :=
  starts_with script 0 0x14 22 || starts_with script 0x51 0x20 34.

(** A wallet input whose previous transaction holds the output it names. *)
Definition wallet_ok (free : option Z) (w : ISpliceWalletInput) : Prop :=
  (exists tx out, 32 <= blen (w_prevTx w) /\ Transaction_fromBuffer (w_prevTx w) = Some tx /\
     0 <= w_prevOutputIndex w /\ out_at (pt_outs tx) (w_prevOutputIndex w) = Some out /\
     po_value out = w_value w /\ spendable_script (po_script out) = true) /\
  w_sequence w <= MAX_INTERACTIVE_TX_SEQUENCE /\ 0 <= w_value w /\
  match free with Some f => blen (w_prevTx w) <= f | None => True end.

Definition outpoint (i : IInteractiveTxInput) : buffer * Z := (in_prevTxid i, in_prevOutputIndex i).

Definition wallet_outpoint (w : ISpliceWalletInput) : option buffer * Z :=
  (extractTxidFromPrevTx (w_prevTx w), w_prevOutputIndex w).

Definition value_of (i : IInteractiveTxInput) : Z := default 0 (interactiveInputValueSats i).

(** An input that the audit can read. *)
Definition auditable (i : IInteractiveTxInput) : Prop :=
  _v2CheckInputSpendable i = None /\ is_Some (interactiveInputValueSats i) /\ 0 <= value_of i /\
  auditMinInputWeightWu i <= 271.

(** What an input of the transaction has of the wallet input it stands for. *)
Definition input_for (free : option Z) (w : ISpliceWalletInput) (i : IInteractiveTxInput) : Prop :=
  sendable_input free i /\ auditable i /\ value_of i = w_value w /\ prev_bytes i = blen (w_prevTx w) /\
  (Some (in_prevTxid i), in_prevOutputIndex i) = wallet_outpoint w.

Lemma starts_with_spec script a b len : starts_with script a b len = true ->
  blen script = len /\ byte_at script 0 = a /\ byte_at script 1 = b.
Proof.
  unfold starts_with. intros [[?%Z.eqb_eq ?%Z.eqb_eq]%andb_prop ?%Z.eqb_eq]%andb_prop. done.
Qed.

Lemma spendable_shape script : spendable_script script = true ->
  negb (isVersionOp (byte_at script 0)) ||
    ((if 2 <=? blen script then byte_at script 1 else 0) <? 2) ||
    (40 <? (if 2 <=? blen script then byte_at script 1 else 0)) ||
    negb (blen script =? (if 2 <=? blen script then byte_at script 1 else 0) + 2) = false.
Proof.
  unfold spendable_script. intros [H|H]%orb_prop; apply starts_with_spec in H as (-> & -> & ->); reflexivity.
Qed.

Definition wallet_input (s : Z) (txid : buffer) (w : ISpliceWalletInput) : IInteractiveTxInput :=
  {| in_serialId := s; in_prevTxid := txid; in_prevOutputIndex := w_prevOutputIndex w;
     in_sequence := w_sequence w; in_prevTx := Some (w_prevTx w); in_prevTxVout := Some (w_prevOutputIndex w);
     in_isShared := None |}.

Lemma wallet_input_ok free s w : wallet_ok free w ->
  exists txid, extractTxidFromPrevTx (w_prevTx w) = Some txid /\ input_for free w (wallet_input s txid w).
Proof.
  intros ((tx & out & H32 & Htx & Hidx & Hout & Hv & Hs) & Hseq & Hval & Hfree).
  exists (pt_hash tx). unfold extractTxidFromPrevTx. rewrite Htx. split; [done|].
  pose proof (spendable_shape _ Hs) as Hshape.
  assert (spent_output (wallet_input s (pt_hash tx) w) = Some out) as Hspent by (cbn; by rewrite Htx).
  assert (has_prevTx (wallet_input s (pt_hash tx) w) = true) as Hhas by (cbn; by apply Z.leb_le).
  assert (w_prevTx w <> []) as Hne by (intros E; rewrite E in H32; by vm_compute in H32).
  assert (interactiveInputValueSats (wallet_input s (pt_hash tx) w) = Some (w_value w)) as Hvalue.
  { unfold interactiveInputValueSats. rewrite Hspent. cbn. destruct (w_prevTx w); [done|]. by rewrite Hv. }
  split_and!; [|split_and!| |done|unfold wallet_outpoint, extractTxidFromPrevTx; by rewrite Htx].
  - split_and!; try done; [by exists (w_prevTx w), tx|]. cbn [in_prevTx in_prevOutputIndex wallet_input].
    unfold validatePeerInputPrevTx. destruct (w_prevTx w) eqn:E; [done|]. rewrite Htx.
    rewrite (proj2 (Z.ltb_ge _ _) Hidx), Hout. cbn zeta. by rewrite Hshape.
  - unfold _v2CheckInputSpendable. rewrite Hhas, Hspent. cbn. unfold spendable_script in Hs. by rewrite Hs.
  - rewrite Hvalue. by eexists.
  - unfold value_of. by rewrite Hvalue.
  - unfold auditMinInputWeightWu. rewrite Hhas, Hspent. unfold spendable_script in Hs.
    destruct (starts_with (po_script out) 0x51 0x20 34) eqn:E1; [lia|].
    destruct (starts_with (po_script out) 0 0x20 34) eqn:E2; [|lia].
    apply orb_prop in Hs as [Hs|Hs]; [|congruence].
    apply starts_with_spec in Hs as (? & _), E2 as (? & _). lia.
  - unfold value_of. by rewrite Hvalue.
Qed.

(** The serial ids of [n] items from [s] on. *)
Fixpoint serials (s : Z) (n : nat) : list Z :=
  match n with 0%nat => [] | S n => s :: serials (s + 2) n end.

Lemma wallet_contribs_ok free ws : Forall (wallet_ok free) ws -> forall s,
  exists l, wallet_contribs s ws = inr (map CInput l, s + 2 * Z.of_nat (length ws)) /\
    Forall2 (input_for free) ws l /\ map in_serialId l = serials s (length ws).
Proof.
  induction 1 as [|w ws Hw _ IH]; intros s.
  - exists []. split_and!; [cbn; do 2 f_equal; lia|constructor|done].
  - destruct (wallet_input_ok free s w Hw) as (txid & Htx & Hi). destruct (IH (s + 2)) as (l & Hl & Hf & Hs).
    exists (wallet_input s txid w :: l). cbn [wallet_contribs]. rewrite Htx, Hl. split_and!.
    + cbn [map length]. do 2 f_equal. lia.
    + by constructor.
    + cbn. by f_equal.
Qed.

(** ** One side's plan *)

Lemma even_step s : 0 <= s -> is_even (s + 2) = is_even s.
Proof.
  intros H. unfold is_even. rewrite !Z.rem_mod_nonneg by lia. f_equal.
  replace (s + 2) with (s + 1 * 2) by lia. apply Z.mod_add. lia.
Qed.

Lemma serials_parity n : forall s, 0 <= s -> Forall (fun k => is_even k = is_even s) (serials s n).
Proof.
  induction n as [|n IH]; intros s Hs; [constructor|]. constructor; [done|].
  rewrite <- (even_step s Hs). apply IH. lia.
Qed.

Lemma serials_range n : forall s, Forall (fun k => s <= k < s + 2 * Z.of_nat n) (serials s n).
Proof.
  induction n as [|n IH]; intros s; [constructor|]. constructor; [lia|].
  eapply Forall_impl; [apply IH|]. cbn beta. lia.
Qed.

Lemma serials_app s n m : serials s (n + m) = serials s n ++ serials (s + 2 * Z.of_nat n) m.
Proof.
  revert s. induction n as [|n IH]; intros s; [cbn; f_equal; lia|]. cbn. rewrite IH. do 3 f_equal. lia.
Qed.

Lemma serials_nodup n : forall s, NoDup (serials s n).
Proof.
  induction n as [|n IH]; intros s; [constructor|]. constructor; [|apply IH].
  intros Hin. pose proof (serials_range n (s + 2)) as H. rewrite Forall_forall in H. specialize (H _ Hin). lia.
Qed.

(** A side that adds nothing. *)
Definition idle (p : v2_params) (c : dual_contribution) : bool :=
  negb (v_isInitiator p) && (Z.of_nat (length (dc_inputs c)) =? 0) && (dc_contributionSats c =? 0).

Definition own_fee (p : v2_params) (c : dual_contribution) : Z :=
  spliceFeeSats (dualFundingContributionWeight (Z.of_nat (length (dc_inputs c))) (v_isInitiator p))
    (dc_feeratePerKw c).

(** A side with a wallet that covers its share. *)
Record side_ok (free : option Z) (p : v2_params) (c : dual_contribution) : Prop := {
  so_wallet : Forall (wallet_ok free) (dc_inputs c);
  so_count : Z.of_nat (length (dc_inputs c)) <= MAX_INTERACTIVE_TX_INPUTS;
  so_bytes : zsum (fun w => blen (w_prevTx w)) (dc_inputs c) <= MAX_PEER_PREVTX_BYTES_PER_SESSION;
  so_money : zsum w_value (dc_inputs c) <= MAX_MONEY_SATS;
  so_share : 0 <= dc_contributionSats c;
  so_initiator : v_isInitiator p = true ->
    0 < dc_contributionSats c /\ dust_floor p <= v_fundingSatoshis p <= MAX_MONEY_SATS /\ is_Some (funding_spk p);
  so_rate : dc_feeratePerKw c = v_fundingFeeratePerkw p /\ 0 <= v_fundingFeeratePerkw p;
  so_change : blen (dc_changeScript c) <= 34;
  so_funded : idle p c = true \/ dc_contributionSats c + own_fee p c <= zsum w_value (dc_inputs c)
}.

(** The shared output, with the serial id the initiator gave it. *)
Definition funding_outputs (p : v2_params) (s : Z) : list IInteractiveTxOutput :=
  if v_isInitiator p
  then [{| out_serialId := s; out_amountSats := v_fundingSatoshis p; out_scriptPubkey := default [] (funding_spk p) |}]
  else [].

Definition audit_weight (all : list contrib) : Z :=
  zsum auditMinInputWeightWu (ins all) + zsum (fun o => outputWeight (blen (out_scriptPubkey o))) (outs all).

(** What the plan of a side is worth. *)
Record planned (free : option Z) (p : v2_params) (c : dual_contribution) (all : list contrib) : Prop := {
  pn_plan : plan_ok (v_isInitiator p) (dust_floor p) free all;
  pn_inputs : Forall2 (input_for free) (dc_inputs c) (ins all);
  pn_outputs : exists s change, outs all = funding_outputs p s ++ change /\
    Forall (fun o => 0 <= out_amountSats o) change /\
    exists paid, zsum value_of (ins all) = dc_contributionSats c + zsum out_amountSats change + paid /\ 0 <= paid /\
      ((if v_isInitiator p then SPLICE_TX_BASE_WEIGHT else 0) + audit_weight all) * v_fundingFeeratePerkw p
        <= 1000 * paid;
  pn_length : (length all <= length (dc_inputs c) + if v_isInitiator p then 2 else 1)%nat;
  pn_first : v_isInitiator p = true -> all <> [];
  pn_weight : audit_weight all <= 271 * MAX_INTERACTIVE_TX_INPUTS + 344
}.

Lemma Forall2_zsum {A B} (R : A -> B -> Prop) (f : A -> Z) (g : B -> Z) l k :
  (forall a b, R a b -> g b = f a) -> Forall2 R l k -> zsum g k = zsum f l.
Proof. intros H. induction 1 as [|a b l k Hab _ IH]; [done|]. cbn. by rewrite (H _ _ Hab), IH. Qed.

Lemma zsum_bound {A} (f : A -> Z) l b : Forall (fun x => f x <= b) l -> zsum f l <= b * Z.of_nat (length l).
Proof. induction 1 as [|x l Hx _ IH]; cbn [zsum length]; lia. Qed.

Lemma fee_covers w w' r : 0 <= r -> w' <= w -> w' * r <= 1000 * spliceFeeSats w r.
Proof.
  intros Hr Hw. unfold spliceFeeSats.
  assert (w' * r <= w * r) by (apply Z.mul_le_mono_nonneg_r; lia).
  pose proof (Z.div_mod (w * r + 999) 1000 ltac:(lia)) as H1.
  pose proof (Z.mod_pos_bound (w * r + 999) 1000 ltac:(lia)). lia.
Qed.

Definition plan_of (l : list IInteractiveTxInput) (os : list IInteractiveTxOutput) : list contrib :=
  map CInput l ++ map COutput os.

Lemma ins_plan l os : ins (plan_of l os) = l.
Proof.
  unfold plan_of. rewrite ins_app. unfold ins.
  assert (omap as_input (map CInput l) = l) as -> by (induction l as [|i l IH]; [done|]; cbn; by f_equal).
  assert (omap as_input (map COutput os) = []) as -> by (induction os as [|o os IH]; done). apply app_nil_r.
Qed.

Lemma outs_plan l os : outs (plan_of l os) = os.
Proof.
  unfold plan_of. rewrite outs_app. unfold outs.
  assert (omap as_output (map CInput l) = []) as -> by (induction l as [|i l IH]; done).
  assert (omap as_output (map COutput os) = os) as -> by (induction os as [|o os IH]; [done|]; cbn; by f_equal). done.
Qed.

Lemma serial_plan l os : map serial (plan_of l os) = map in_serialId l ++ map out_serialId os.
Proof. unfold plan_of. by rewrite map_app, !map_map. Qed.

(** The change left over after the share and the fee. *)
Definition change_of (p : v2_params) (c : dual_contribution) : Z :=
  zsum w_value (dc_inputs c) - dc_contributionSats c - own_fee p c.

(** What _computeDualFundingContributions returns for a side that adds something. *)
Lemma compute_ok free p c s : side_ok free p c -> idle p c = false ->
  exists l fs change n s', _computeDualFundingContributions p c s =
      inr (plan_of l (funding_outputs p fs ++ change), s') /\
    Forall2 (input_for free) (dc_inputs c) l /\
    map in_serialId l ++ map out_serialId (funding_outputs p fs ++ change) = serials s n /\
    (change = [] \/ exists o, change = [o] /\ out_amountSats o = change_of p c /\
       dust_floor p <= out_amountSats o /\ out_scriptPubkey o = dc_changeScript c).
Proof.
  intros Hs Hidle. unfold _computeDualFundingContributions. unfold idle in Hidle. rewrite Hidle.
  destruct (wallet_contribs_ok free _ (so_wallet _ _ _ Hs) s) as (l & -> & Hl & Hser).
  assert (idle p c = false) as Hi by done. destruct (so_funded _ _ _ Hs) as [?|Hf]; [congruence|].
  set (s1 := s + 2 * Z.of_nat (length (dc_inputs c))) in *. fold (own_fee p c). fold (change_of p c).
  assert ((change_of p c <? 0) = false) as Hch by (apply Z.ltb_ge; unfold change_of; lia).
  assert ((if v_isInitiator p then funding_spk p else Some []) =
    Some (if v_isInitiator p then default [] (funding_spk p) else [])) as ->.
  { destruct (v_isInitiator p) eqn:E; [|done]. by destruct (so_initiator _ _ _ Hs E) as (_ & _ & [spk ->]). }
  unfold funding_outputs, plan_of. destruct (v_isInitiator p) eqn:E; rewrite Hch; destruct (Z.leb_spec (dust_floor p) (change_of p c));
    [exists l, s1, [{| out_serialId := s1 + 2; out_amountSats := change_of p c; out_scriptPubkey := dc_changeScript c |}],
       (length (dc_inputs c) + 2)%nat
    |exists l, s1, [], (length (dc_inputs c) + 1)%nat
    |exists l, s1, [{| out_serialId := s1; out_amountSats := change_of p c; out_scriptPubkey := dc_changeScript c |}],
       (length (dc_inputs c) + 1)%nat
    |exists l, s1, [], (length (dc_inputs c) + 0)%nat];
    (eexists; split_and!; [reflexivity|done|rewrite serials_app, Hser; done|]);
    (by left) || (right; eexists; split_and!; reflexivity || done).
Qed.

Lemma input_for_all free ws l : Forall2 (input_for free) ws l ->
  Forall (sendable_input free) l /\ Forall auditable l /\ zsum value_of l = zsum w_value ws /\
  zsum prev_bytes l = zsum (fun w => blen (w_prevTx w)) ws /\ length l = length ws.
Proof.
  intros H. split_and!.
  - eapply Forall2_Forall_r; [exact H|]. apply Forall_forall. by intros w _ i [? _].
  - eapply Forall2_Forall_r; [exact H|]. apply Forall_forall. by intros w _ i (_ & ? & _).
  - eapply Forall2_zsum; [|exact H]. by intros w i (_ & _ & ? & _).
  - eapply Forall2_zsum; [|exact H]. by intros w i (_ & _ & _ & ? & _).
  - symmetry. by apply Forall2_length in H.
Qed.

Lemma own_fee_nonneg free p c : side_ok free p c -> 0 <= own_fee p c.
Proof.
  intros Hs. destruct (so_rate _ _ _ Hs) as [Hr Hr']. unfold own_fee. rewrite Hr.
  assert (0 * v_fundingFeeratePerkw p <= 1000 * spliceFeeSats
    (dualFundingContributionWeight (Z.of_nat (length (dc_inputs c))) (v_isInitiator p)) (v_fundingFeeratePerkw p)).
  { apply fee_covers; [done|]. unfold dualFundingContributionWeight, DUAL_FUNDING_INPUT_WEIGHT.
    destruct (v_isInitiator p); lia. }
  lia.
Qed.

(** Outputs the peer takes. *)
Lemma planned_outputs free p c fs change : side_ok free p c ->
  change = [] \/ (exists o, change = [o] /\ out_amountSats o = change_of p c /\
       dust_floor p <= out_amountSats o /\ out_scriptPubkey o = dc_changeScript c) ->
  Forall (sendable_output (dust_floor p)) (funding_outputs p fs ++ change).
Proof.
  intros Hs Hc. apply Forall_app. split.
  - unfold funding_outputs. destruct (v_isInitiator p) eqn:E; [|constructor]. repeat constructor; cbn;
      apply (so_initiator _ _ _ Hs E).
  - destruct Hc as [->|(o & -> & Ho & Hd & _)]; [constructor|]. repeat constructor; [done|].
    rewrite Ho. unfold change_of. pose proof (own_fee_nonneg _ _ _ Hs). pose proof (so_share _ _ _ Hs).
    pose proof (so_money _ _ _ Hs). lia.
Qed.

Lemma planned_plan free p c s n l fs change : side_ok free p c -> 0 <= s -> is_even s = v_isInitiator p ->
  Forall2 (input_for free) (dc_inputs c) l ->
  map in_serialId l ++ map out_serialId (funding_outputs p fs ++ change) = serials s n ->
  change = [] \/ (exists o, change = [o] /\ out_amountSats o = change_of p c /\
       dust_floor p <= out_amountSats o /\ out_scriptPubkey o = dc_changeScript c) ->
  plan_ok (v_isInitiator p) (dust_floor p) free (plan_of l (funding_outputs p fs ++ change)).
Proof.
  intros Hs H0 Heven Hl Hser Hc. destruct (input_for_all _ _ _ Hl) as (Hsend & _ & _ & Hbytes & Hlen).
  constructor; rewrite ?ins_plan, ?outs_plan.
  - apply (proj1 (List.Forall_map serial (fun k => is_even k = v_isInitiator p) _)).
    rewrite serial_plan, Hser, <- Heven. by apply serials_parity.
  - rewrite serial_plan, Hser. apply serials_nodup.
  - done.
  - by eapply planned_outputs.
  - rewrite Hlen. apply (so_count _ _ _ Hs).
  - rewrite length_app. unfold funding_outputs, MAX_INTERACTIVE_TX_OUTPUTS.
    destruct Hc as [->|(o & -> & _)], (v_isInitiator p); cbn; lia.
  - rewrite Hbytes. apply (so_bytes _ _ _ Hs).
Qed.

Context (p2wsh_length : forall script, blen (p2wsh script) = 34).

Lemma funding_weight p fs :
  zsum (fun o => outputWeight (blen (out_scriptPubkey o))) (funding_outputs p fs) <=
  if v_isInitiator p then 172 else 0.
Proof.
  unfold funding_outputs. destruct (v_isInitiator p); [|done]. cbn [zsum out_scriptPubkey].
  unfold funding_spk. destruct (createFundingScript _ _); unfold outputWeight; [|by vm_compute].
  unfold default, from_option, id. rewrite p2wsh_length. lia.
Qed.

(** The fee a side reserved covers the weight of what it adds. *)
Lemma planned_fee free p c l fs change : side_ok free p c -> idle p c = false ->
  Forall2 (input_for free) (dc_inputs c) l ->
  change = [] \/ (exists o, change = [o] /\ out_amountSats o = change_of p c /\
       dust_floor p <= out_amountSats o /\ out_scriptPubkey o = dc_changeScript c) ->
  let all := plan_of l (funding_outputs p fs ++ change) in
  audit_weight all <= 271 * Z.of_nat (length (dc_inputs c)) + (if v_isInitiator p then 344 else 172) /\
  ((if v_isInitiator p then SPLICE_TX_BASE_WEIGHT else 0) + audit_weight all) * v_fundingFeeratePerkw p
    <= 1000 * own_fee p c.
Proof.
  intros Hs Hidle Hl Hc all. destruct (input_for_all _ _ _ Hl) as (_ & Haud & Hval & _ & Hlen).
  destruct (so_funded _ _ _ Hs) as [?|Hf]; [congruence|]. pose proof (own_fee_nonneg _ _ _ Hs) as Hfee.
  assert (1 <= Z.of_nat (length (dc_inputs c))) as Hn.
  { destruct (dc_inputs c) as [|w ws] eqn:E; [|cbn; lia]. exfalso. cbn [zsum] in Hf. pose proof (so_share _ _ _ Hs).
    unfold idle in Hidle. rewrite E in Hidle. destruct (v_isInitiator p) eqn:Ei.
    - destruct (so_initiator _ _ _ Hs Ei). lia.
    - cbn in Hidle. apply Z.eqb_neq in Hidle. lia. }
  assert (audit_weight all <= 271 * Z.of_nat (length (dc_inputs c)) + (if v_isInitiator p then 344 else 172)) as Hw.
  { unfold audit_weight, all. rewrite ins_plan, outs_plan, zsum_app.
    pose proof (funding_weight p fs). pose proof (so_change _ _ _ Hs).
    assert (zsum (fun o => outputWeight (blen (out_scriptPubkey o))) change <= 172).
    { destruct Hc as [->|(o & -> & _ & _ & Ho)]; [done|]. cbn [zsum]. rewrite Ho. unfold outputWeight. lia. }
    pose proof (zsum_bound auditMinInputWeightWu l 271) as Hb. rewrite Hlen in Hb.
    destruct (v_isInitiator p); enough (Forall (fun i => auditMinInputWeightWu i <= 271) l) by (specialize (Hb ltac:(done)); lia);
      (eapply Forall_impl; [exact Haud|]; by intros i (_ & _ & _ & ?)). }
  split; [done|]. destruct (so_rate _ _ _ Hs) as [Hr Hr']. unfold own_fee. rewrite Hr. apply fee_covers; [done|].
  unfold dualFundingContributionWeight, DUAL_FUNDING_INPUT_WEIGHT, SPLICE_TX_BASE_WEIGHT.
  destruct (v_isInitiator p); lia.
Qed.

Lemma idle_planned free p c : side_ok free p c -> idle p c = true -> planned free p c [].
Proof.
  intros Hs Hi. unfold idle in Hi. apply andb_prop in Hi as [[Hp Hn%Z.eqb_eq]%andb_prop Hc%Z.eqb_eq].
  apply negb_true_iff in Hp. assert (dc_inputs c = []) as Hw by (destruct (dc_inputs c); [done|cbn in Hn; lia]).
  constructor; rewrite ?Hp, ?Hw; try done.
  - constructor; cbn; constructor || done.
  - exists 0, []. unfold funding_outputs. rewrite Hp. split_and!; [done|constructor|].
    exists 0. rewrite Hc. unfold audit_weight. cbn. lia.
  - cbn. lia.
Qed.

(** A side that can pay computes a plan that its peer takes. *)
Lemma side_planned free p c s : side_ok free p c -> 0 <= s -> is_even s = v_isInitiator p ->
  exists all s', _computeDualFundingContributions p c s = inr (all, s') /\ planned free p c all.
Proof.
  intros Hs H0 Heven. destruct (idle p c) eqn:Hidle.
  { exists [], s. split; [|by apply idle_planned]. unfold _computeDualFundingContributions. unfold idle in Hidle.
    by rewrite Hidle. }
  destruct (compute_ok free p c s Hs Hidle) as (l & fs & change & n & s' & Hcomp & Hl & Hser & Hc).
  eexists _, _. split; [exact Hcomp|].
  destruct (planned_fee free p c l fs change Hs Hidle Hl Hc) as [Hw Hfee].
  destruct (input_for_all _ _ _ Hl) as (_ & _ & Hval & _ & Hlen).
  destruct (so_funded _ _ _ Hs) as [?|Hf]; [congruence|].
  constructor.
  - by eapply planned_plan.
  - by rewrite ins_plan.
  - exists fs, change. rewrite outs_plan, ins_plan, Hval. split_and!; [done| |].
    + destruct Hc as [->|(o & -> & Ho & _)]; [constructor|]. repeat constructor. rewrite Ho. unfold change_of. lia.
    + exists (zsum w_value (dc_inputs c) - dc_contributionSats c - zsum out_amountSats change).
      assert (zsum out_amountSats change <= change_of p c) as Hle.
      { destruct Hc as [->|(o & -> & Ho & _)]; cbn [zsum]; [unfold change_of|]; lia. }
      unfold change_of in Hle. pose proof (own_fee_nonneg _ _ _ Hs). split_and!; lia.
  - unfold plan_of, funding_outputs. rewrite length_app, !length_map, Hlen, length_app.
    destruct Hc as [->|(o & -> & _)], (v_isInitiator p); cbn; lia.
  - intros Hp. unfold plan_of, funding_outputs. rewrite Hp. by destruct l.
  - pose proof (so_count _ _ _ Hs). destruct (v_isInitiator p); lia.
Qed.

(** ** The audit *)

Lemma audit_inputs_sum i inputs : Forall auditable inputs -> forall a,
  audit_inputs i inputs a = inr
    {| au_weight := au_weight a + zsum auditMinInputWeightWu inputs;
       au_remoteIn := au_remoteIn a + zsum (fun x => if remote_owned i (in_serialId x) then value_of x else 0) inputs;
       au_totalIn := au_totalIn a + zsum value_of inputs; au_valuesKnown := au_valuesKnown a |}.
Proof.
  induction 1 as [|x inputs (Hs & [v Hv] & _) _ IH]; intros a; cbn [audit_inputs zsum].
  - rewrite !Z.add_0_r. by destruct a.
  - assert (value_of x = v) as Hval by (unfold value_of; by rewrite Hv).
    rewrite Hs, Hv, IH, Hval. cbn. destruct (remote_owned _ _); do 2 f_equal; lia.
Qed.

Lemma ins_remote i log : zsum (fun x => if remote_owned i (in_serialId x) then value_of x else 0) (ins log) =
  zsum value_of (ins (side (negb i) log)).
Proof.
  induction log as [|[x|o] log IH]; [done|..]; rewrite ins_cons, side_cons; cbn [serial].
  - cbn [zsum]. rewrite IH. unfold remote_owned.
    destruct (is_even (in_serialId x)), i; cbn [negb Bool.eqb]; rewrite ?ins_cons; cbn [zsum]; lia.
  - destruct (Bool.eqb _ _); by rewrite ?ins_cons.
Qed.

Lemma outs_remote i (shared : IInteractiveTxOutput -> bool) log :
  zsum (fun x => if remote_owned i (out_serialId x) && negb (shared x) then out_amountSats x else 0) (outs log) =
  zsum (fun x => if negb (shared x) then out_amountSats x else 0) (outs (side (negb i) log)).
Proof.
  induction log as [|[x|o] log IH]; [done|..]; rewrite outs_cons, side_cons; cbn [serial].
  - destruct (Bool.eqb _ _); by rewrite ?outs_cons.
  - cbn [zsum]. rewrite IH. unfold remote_owned.
    destruct (is_even (out_serialId o)), i; cbn [negb Bool.eqb]; rewrite ?outs_cons; cbn [andb zsum]; lia.
Qed.

Lemma ins_perm a b : Permutation a b -> Permutation (ins a) (ins b).
Proof. apply omap_Permutation. Qed.

Lemma outs_perm a b : Permutation a b -> Permutation (outs a) (outs b).
Proof. apply omap_Permutation. Qed.

(** The parameters of the two sides of one open. *)
Record mirrored (p q : v2_params) (cp cq : dual_contribution) : Prop := {
  mi_roles : v_isInitiator q = negb (v_isInitiator p);
  mi_local : v_localFundingPubkey q = v_remoteFundingPubkey p;
  mi_remote : v_remoteFundingPubkey q = v_localFundingPubkey p;
  mi_funding_p : v_fundingSatoshis p = dc_contributionSats cp + dc_contributionSats cq;
  mi_funding_q : v_fundingSatoshis q = dc_contributionSats cp + dc_contributionSats cq;
  mi_share_p : v_remoteFundingSatoshis p = dc_contributionSats cq;
  mi_share_q : v_remoteFundingSatoshis q = dc_contributionSats cp;
  mi_dust_local : v_localDust q = v_remoteDust p;
  mi_dust_remote : v_remoteDust q = v_localDust p;
  mi_rate : v_fundingFeeratePerkw q = v_fundingFeeratePerkw p
}.

Lemma mirrored_sym p q cp cq : mirrored p q cp cq -> mirrored q p cq cp.
Proof. intros []. constructor; try congruence; try lia. by rewrite mi_roles0, negb_involutive. Qed.

Lemma mirrored_spk p q cp cq : mirrored p q cp cq -> funding_spk q = funding_spk p.
Proof. intros []. unfold funding_spk. by rewrite mi_local0, mi_remote0, funding_script_sym. Qed.

Lemma mirrored_floor p q cp cq : mirrored p q cp cq -> dust_floor p = dust_floor q.
Proof.
  intros []. unfold dust_floor, DUST_LIMIT_SATS. rewrite mi_dust_local0, mi_dust_remote0. repeat case_match; lia.
Qed.

Definition shared_output (p : v2_params) (o : IInteractiveTxOutput) : bool :=
  match funding_spk p with Some spk => buf_equals (out_scriptPubkey o) spk | None => false end.

(** The shared output is not counted against the peer. *)
Lemma remote_owes free p q cp cq all : mirrored p q cp cq -> side_ok free q cq -> planned free q cq all ->
  zsum (fun o => if negb (shared_output p o) then out_amountSats o else 0) (outs all) + dc_contributionSats cq
    <= zsum value_of (ins all).
Proof.
  intros Hm Hs Hp. destruct (pn_outputs _ _ _ _ Hp) as (s & change & Ho & Hpos & paid & Hval & Hpaid & _).
  rewrite Ho, zsum_app, Hval.
  assert (zsum (fun o => if negb (shared_output p o) then out_amountSats o else 0) (funding_outputs q s) = 0) as ->.
  { unfold funding_outputs. destruct (v_isInitiator q) eqn:E; [|done].
    destruct (so_initiator _ _ _ Hs E) as (_ & _ & [spk Hspk]). cbn [zsum]. unfold shared_output.
    rewrite <- (mirrored_spk _ _ _ _ Hm), Hspk. cbn [out_scriptPubkey]. unfold default, from_option, id.
    unfold buf_equals. by rewrite bool_decide_true. }
  assert (zsum (fun o => if negb (shared_output p o) then out_amountSats o else 0) change <=
          zsum out_amountSats change); [|lia].
  apply zsum_le. intros o Hin. rewrite Forall_forall in Hpos. specialize (Hpos o Hin). destruct (negb _); lia.
Qed.

Lemma planned_audited free p c all : planned free p c all -> Forall auditable (ins all).
Proof. intros Hp. apply (input_for_all _ _ _ (pn_inputs _ _ _ _ Hp)). Qed.

(** The amount the shared output carries counts once. *)
Lemma funding_once p q s s' cp cq : mirrored p q cp cq ->
  zsum out_amountSats (funding_outputs p s) + zsum out_amountSats (funding_outputs q s') =
  dc_contributionSats cp + dc_contributionSats cq.
Proof.
  intros []. unfold funding_outputs. rewrite mi_roles0. destruct (v_isInitiator p); cbn [negb zsum out_amountSats]; lia.
Qed.

Lemma sides_log p q cp cq log all_p all_q : mirrored p q cp cq ->
  side (v_isInitiator p) log = all_p -> side (v_isInitiator q) log = all_q -> Permutation log (all_p ++ all_q).
Proof. intros Hm <- <-. rewrite (mi_roles _ _ _ _ Hm). apply sides_perm. Qed.

Lemma input_value_sum free p c all : planned free p c all -> zsum value_of (ins all) = zsum w_value (dc_inputs c).
Proof. intros Hp. apply (input_for_all _ _ _ (pn_inputs _ _ _ _ Hp)). Qed.

Lemma wallet_total free p c : side_ok free p c -> 0 <= zsum w_value (dc_inputs c).
Proof.
  intros Hs. pose proof (so_wallet _ _ _ Hs) as H. induction H as [|w ws (_ & _ & Hw & _) _ IH]; cbn [zsum]; lia.
Qed.

Lemma completed_ok remoteIn remoteOut share fee weight rate :
  weight <= MAX_STANDARD_TX_WEIGHT -> remoteOut + share <= remoteIn -> 0 <= remoteIn ->
  0 <= fee -> weight * rate <= 1000 * fee ->
  validateCompletedInteractiveTx remoteIn remoteOut share fee weight rate = None.
Proof.
  intros Hw Howes Hin Hfee Hmin. unfold validateCompletedInteractiveTx. rewrite (proj2 (Z.ltb_ge _ _) Hw).
  assert ((remoteIn <? (if 0 <? remoteOut + share then remoteOut + share else 0)) = false) as ->.
  { apply Z.ltb_ge. destruct (0 <? _); lia. }
  rewrite (proj2 (Z.ltb_ge _ _) Hfee). unfold checkFeeSufficiency.
  assert ((fee <? weight * rate / 1000) = false) as ->; [|done].
  apply Z.ltb_ge. apply Z.div_le_upper_bound; lia.
Qed.

Lemma audit_passes free p q cp cq all_p all_q log : mirrored p q cp cq ->
  side_ok free p cp -> side_ok free q cq -> planned free p cp all_p -> planned free q cq all_q ->
  side (v_isInitiator p) log = all_p -> side (v_isInitiator q) log = all_q -> passes p log.
Proof.
  intros Hm Hsp Hsq Hp Hq Ep Eq n Hn Hins Houts. pose proof (sides_log _ _ _ _ _ _ _ Hm Ep Eq) as Hperm.
  pose proof (remote_owes _ _ _ _ _ _ Hm Hsq Hq) as Howes.
  unfold _validateNegotiatedInteractiveTx. rewrite Hn, Hins, Houts.
  rewrite audit_inputs_sum.
  2:{ rewrite (ins_perm _ _ Hperm), ins_app. apply Forall_app. split; by eapply planned_audited. }
  cbn [au_weight au_remoteIn au_totalIn au_valuesKnown negb].
  pose proof (outs_remote (v_isInitiator p) (shared_output p) log) as Hro. unfold shared_output at 1 in Hro.
  rewrite Hro, ins_remote, <- (mi_roles _ _ _ _ Hm), Eq. clear Hro.
  destruct (pn_outputs _ _ _ _ Hp) as (s & change & Ho & _ & paid & Hval & Hpaid & Hfee).
  destruct (pn_outputs _ _ _ _ Hq) as (s' & change' & Ho' & _ & paid' & Hval' & Hpaid' & Hfee').
  pose proof (funding_once p q s s' cp cq Hm) as Honce.
  rewrite !(zsum_perm _ _ _ (ins_perm _ _ Hperm)), !(zsum_perm _ _ _ (outs_perm _ _ Hperm)), ins_app, outs_app, !zsum_app.
  pose proof (pn_weight _ _ _ _ Hp) as Hw. pose proof (pn_weight _ _ _ _ Hq) as Hw'. unfold audit_weight in *.
  rewrite (mi_share_p _ _ _ _ Hm). rewrite (mi_rate _ _ _ _ Hm) in Hfee'. rewrite Ho, Ho', !zsum_app in *.
  apply completed_ok; [unfold SPLICE_TX_BASE_WEIGHT, MAX_INTERACTIVE_TX_INPUTS, MAX_STANDARD_TX_WEIGHT in *; lia|..].
  - lia.
  - rewrite (input_value_sum _ _ _ _ Hq). pose proof (wallet_total _ _ _ Hsq). lia.
  - lia.
  - rewrite (mi_roles _ _ _ _ Hm) in *. destruct (v_isInitiator p); cbn [negb] in *; lia.
Qed.

(** ** The transaction *)

Lemma duplicate_none l : forall seen, NoDup (map outpoint l) -> (forall i, i ∈ l -> outpoint i ∉ seen) ->
  duplicate_prevouts seen l = None.
Proof.
  induction l as [|i l IH]; intros seen Hnd Hseen; [done|]. cbn [duplicate_prevouts]. apply NoDup_cons in Hnd as [Hi Hnd].
  rewrite bool_decide_false by (apply (Hseen i); by left). apply IH; [done|].
  intros j Hj [E|Hin]%elem_of_cons; [|by eapply Hseen; [right|]]. apply Hi. rewrite <- (E : outpoint j = outpoint i).
  by apply list_elem_of_In, in_map, list_elem_of_In.
Qed.

Lemma dust_none dust floor l : dust <= floor -> Forall (sendable_output floor) l -> dust_outputs dust l = None.
Proof.
  intros Hd. induction 1 as [|o l [Hlow Hhigh] _ IH]; [done|]. cbn [dust_outputs].
  rewrite (proj2 (Z.ltb_ge _ _)) by lia. by rewrite (proj2 (Z.ltb_ge _ _) Hhigh).
Qed.

(** A finished node builds the transaction of its log. *)
Lemma done_builds n p lt log floor : node_done n p lt log -> dust_floor p = floor ->
  ins log <> [] -> outs log <> [] -> Z.of_nat (length (ins log)) <= 504 -> Z.of_nat (length (outs log)) <= 504 ->
  NoDup (map outpoint (ins log)) -> Forall (sendable_output floor) (outs log) ->
  buildTransaction (n_builder n) = Some
    {| bt_inputs := sort (fun a b => by_serial (in_serialId a) (in_serialId b)) (ins log);
       bt_outputs := sort (fun a b => by_serial (out_serialId a) (out_serialId b)) (outs log);
       bt_locktime := lt |}.
Proof.
  intros [_ _ Hb] Hfl Hi Ho Hil Hol Hnd Hout. unfold buildTransaction.
  rewrite (bo_state _ _ _ _ _ Hb), (bo_inputs _ _ _ _ _ Hb), (bo_outputs _ _ _ _ _ Hb), (bo_locktime _ _ _ _ _ Hb), !values_keyed.
  rewrite bool_decide_true by done. cbn [negb]. set (si := sort _ (ins log)). set (so := sort _ (outs log)).
  assert (Permutation si (ins log)) as Hpi by apply sort_perm. assert (Permutation so (outs log)) as Hpo by apply sort_perm.
  unfold validateInteractiveTx. rewrite (Permutation_length Hpi), (Permutation_length Hpo).
  unfold MAX_INTERACTIVE_TX_INPUTS, MAX_INTERACTIVE_TX_OUTPUTS.
  rewrite !(proj2 (Z.eqb_neq _ _)) by (destruct (ins log), (outs log); done || (cbn; lia)).
  rewrite !(proj2 (Z.ltb_ge _ _)) by lia. unfold checkDuplicatePrevouts, checkDustOutputs.
  rewrite duplicate_none; [|by rewrite Hpi|by intros ? _ ?%elem_of_nil].
  rewrite (dust_none _ floor); [done| |by rewrite Hpo].
  pose proof (bo_dust _ _ _ _ _ Hb). unfold DUST_LIMIT_SATS in *. destruct (546 <? _); lia.
Qed.

Lemma start_node free p c lt : side_ok free p c ->
  exists all, planned free p c all /\ node_ok (v2_start p c lt) p lt [] all COLLECTING.
Proof.
  intros Hs. destruct (side_planned free p c (if v_isInitiator p then 0 else 1) Hs) as (all & s' & Hc & Hp);
    [by destruct (v_isInitiator p)..|].
  exists all. split; [done|]. constructor; [done|done| |exists c; split; [done|]; by exists s'].
  constructor; try done. cbn. unfold dust_floor, DUST_LIMIT_SATS. repeat case_match; lia.
Qed.

Lemma mirrored_parties free p q cp cq all_p all_q : mirrored p q cp cq ->
  side_ok free p cp -> side_ok free q cq -> planned free p cp all_p -> planned free q cq all_q ->
  parties free p q all_p all_q.
Proof.
  intros Hm Hsp Hsq Hp Hq. constructor.
  - exact (mi_roles _ _ _ _ Hm).
  - exact (mirrored_floor _ _ _ _ Hm).
  - exact (pn_plan _ _ _ _ Hp).
  - exact (pn_plan _ _ _ _ Hq).
  - intros log Ep Eq. pose proof (mirrored_sym _ _ _ _ Hm).
    split; [exact (audit_passes free p q cp cq all_p all_q log Hm Hsp Hsq Hp Hq Ep Eq)|].
    by apply (audit_passes free q p cq cp all_q all_p log).
Qed.

(** The exchange from the two starts. *)
Lemma open_runs free lt fuel p q cp cq : mirrored p q cp cq -> v_isInitiator p = true ->
  side_ok free p cp -> side_ok free q cq -> (2 * (length (dc_inputs cp) + length (dc_inputs cq)) + 7 <= fuel)%nat ->
  exists all_p all_q i a, planned free p cp all_p /\ planned free q cq all_q /\
    v2_negotiation fuel free (v2_start p cp lt) (v2_start q cq lt) = Some (i, a) /\
    both_done lt p q all_p all_q i a.
Proof.
  intros Hm Hi Hsp Hsq Hfuel. destruct (start_node free p cp lt Hsp) as (all_p & Hp & Hnp).
  destruct (start_node free q cq lt Hsq) as (all_q & Hq & Hnq). exists all_p, all_q.
  pose proof (mirrored_parties _ _ _ _ _ _ _ Hm Hsp Hsq Hp Hq) as Hpa.
  pose proof (pn_length _ _ _ _ Hp) as Hlp. pose proof (pn_length _ _ _ _ Hq) as Hlq.
  rewrite (mi_roles _ _ _ _ Hm), Hi in Hlq. rewrite Hi in Hlp. cbn [negb] in Hlq.
  destruct all_p as [|c rest]; [by destruct (pn_first _ _ _ _ Hp Hi)|]. cbn [length] in Hlp.
  destruct (turn_sends free lt p q _ _ _ _ [] c rest all_q COLLECTING COLLECTING
    (length (dc_inputs cp) + length (dc_inputs cq) + 2) Hpa Hnp Hnq eq_refl eq_refl) as (i & Hdrive & Hfl); [lia|by left|].
  destruct (exchange free lt (length (dc_inputs cp) + length (dc_inputs cq) + 2)) as [_ Hadd].
  destruct (Hadd _ _ _ _ _ _ _ fuel Hpa Hfl) as (a & i' & Hrun & Hdone); [lia|].
  exists i', a. split_and!; try done. unfold v2_negotiation, beginDualFundingContribution. rewrite Hdrive, Hrun. done.
Qed.

Definition named_outpoint (i : IInteractiveTxInput) : option buffer * Z := (Some (in_prevTxid i), in_prevOutputIndex i).

Lemma planned_outpoints free p c all : planned free p c all ->
  map named_outpoint (ins all) = map wallet_outpoint (dc_inputs c).
Proof.
  intros Hp. induction (pn_inputs _ _ _ _ Hp) as [|w i ws js (_ & _ & _ & _ & Hi) _ IH]; [done|]. cbn. by rewrite IH, <- Hi.
Qed.

Lemma outpoints_nodup l : NoDup (map named_outpoint l) -> NoDup (map outpoint l).
Proof.
  intros H. assert (map named_outpoint l = map (fun o => (Some o.1, o.2)) (map outpoint l)) as E by by rewrite map_map.
  rewrite E in H. apply NoDup_ListNoDup, NoDup_map_inv in H. by apply NoDup_ListNoDup.
Qed.

(** What the transaction of an open is: the wallets' inputs, the shared output, the
    agreed feerate over the audited weight. *)
Definition opens (p q : v2_params) (cp cq : dual_contribution) (tx : built_tx) : Prop :=
  Permutation (map named_outpoint (bt_inputs tx)) (map wallet_outpoint (dc_inputs cp ++ dc_inputs cq)) /\
  (exists o, o ∈ bt_outputs tx /\ out_amountSats o = dc_contributionSats cp + dc_contributionSats cq /\
     Some (out_scriptPubkey o) = funding_spk p) /\
  (SPLICE_TX_BASE_WEIGHT + zsum auditMinInputWeightWu (bt_inputs tx) +
     zsum (fun o => outputWeight (blen (out_scriptPubkey o))) (bt_outputs tx)) * v_fundingFeeratePerkw p
    <= 1000 * (zsum w_value (dc_inputs cp ++ dc_inputs cq) - zsum out_amountSats (bt_outputs tx)).

Lemma log_opens free p q cp cq all_p all_q log tx lt : mirrored p q cp cq -> v_isInitiator p = true ->
  side_ok free p cp -> planned free p cp all_p -> planned free q cq all_q -> Permutation log (all_p ++ all_q) ->
  tx = {| bt_inputs := sort (fun a b => by_serial (in_serialId a) (in_serialId b)) (ins log);
          bt_outputs := sort (fun a b => by_serial (out_serialId a) (out_serialId b)) (outs log);
          bt_locktime := lt |} -> opens p q cp cq tx.
Proof.
  intros Hm Hi Hsp Hp Hq Hperm ->.
  pose proof (sort_perm (fun a b => by_serial (in_serialId a) (in_serialId b)) (ins log)) as Pi.
  pose proof (sort_perm (fun a b => by_serial (out_serialId a) (out_serialId b)) (outs log)) as Po.
  unfold opens. cbn [bt_inputs bt_outputs]. revert Pi Po. generalize (sort (fun a b => by_serial (in_serialId a) (in_serialId b)) (ins log)).
  generalize (sort (fun a b => by_serial (out_serialId a) (out_serialId b)) (outs log)). intros so si Pi Po.
  rewrite (ins_perm _ _ Hperm), ins_app in Pi. rewrite (outs_perm _ _ Hperm), outs_app in Po.
  destruct (pn_outputs _ _ _ _ Hp) as (s & change & Ho & _ & paid & Hval & Hpaid & Hfee).
  destruct (pn_outputs _ _ _ _ Hq) as (s' & change' & Ho' & _ & paid' & Hval' & Hpaid' & Hfee').
  split_and!.
  - rewrite Pi, !map_app. by rewrite (planned_outpoints _ _ _ _ Hp), (planned_outpoints _ _ _ _ Hq).
  - destruct (so_initiator _ _ _ Hsp Hi) as (_ & _ & [spk Hspk]). eexists. split_and!.
    + rewrite Po, Ho. unfold funding_outputs. rewrite Hi. by left.
    + exact (mi_funding_p _ _ _ _ Hm).
    + cbn. by rewrite Hspk.
  - pose proof (funding_once p q s s' cp cq Hm) as Honce.
    rewrite !(zsum_perm _ _ _ Pi), !(zsum_perm _ _ _ Po), !zsum_app.
    rewrite <- (input_value_sum _ _ _ _ Hp), <- (input_value_sum _ _ _ _ Hq).
    rewrite (mi_rate _ _ _ _ Hm), (mi_roles _ _ _ _ Hm), Hi in *. cbn [negb] in *. unfold audit_weight in *.
    rewrite Ho, Ho', !zsum_app in *. lia.
Qed.

Lemma log_builds free p q cp cq all_p all_q log n r lt : mirrored p q cp cq -> v_isInitiator p = true ->
  planned free p cp all_p -> planned free q cq all_q -> Permutation log (all_p ++ all_q) ->
  NoDup (map wallet_outpoint (dc_inputs cp ++ dc_inputs cq)) -> dust_floor r = dust_floor p ->
  ins all_p <> [] -> node_done n r lt log ->
  buildTransaction (n_builder n) = Some
    {| bt_inputs := sort (fun a b => by_serial (in_serialId a) (in_serialId b)) (ins log);
       bt_outputs := sort (fun a b => by_serial (out_serialId a) (out_serialId b)) (outs log);
       bt_locktime := lt |}.
Proof.
  intros Hm Hi Hp Hq Hperm Hnd Hfl Hne Hd. pose proof (ins_perm _ _ Hperm) as Pi. pose proof (outs_perm _ _ Hperm) as Po.
  rewrite ins_app in Pi. rewrite outs_app in Po. destruct (pn_plan _ _ _ _ Hp), (pn_plan _ _ _ _ Hq).
  unfold MAX_INTERACTIVE_TX_INPUTS, MAX_INTERACTIVE_TX_OUTPUTS in *.
  apply (done_builds n r lt log (dust_floor p)); try done.
  - intros E. rewrite E in Pi. apply Permutation_nil in Pi. by apply app_eq_nil in Pi as [? _].
  - intros E. rewrite E in Po. apply Permutation_nil in Po. apply app_eq_nil in Po as [Po _].
    destruct (pn_outputs _ _ _ _ Hp) as (s & change & Ho & _). rewrite Ho in Po. unfold funding_outputs in Po. by rewrite Hi in Po.
  - rewrite (Permutation_length Pi), length_app. lia.
  - rewrite (Permutation_length Po), length_app. lia.
  - apply outpoints_nodup. rewrite Pi, map_app, (planned_outpoints _ _ _ _ Hp), (planned_outpoints _ _ _ _ Hq).
    by rewrite <- map_app.
  - rewrite Po. apply Forall_app. split; [done|]. by rewrite (mirrored_floor _ _ _ _ Hm).
Qed.

(** The initiator adds at least one input. *)
Lemma initiator_inputs free p c all : v_isInitiator p = true -> side_ok free p c -> planned free p c all -> ins all <> [].
Proof.
  intros Hi Hs Hp E. pose proof (input_value_sum _ _ _ _ Hp) as Hv. rewrite E in Hv. cbn in Hv.
  destruct (so_initiator _ _ _ Hs Hi) as [Hc _]. destruct (so_funded _ _ _ Hs) as [Hf|Hf].
  - unfold idle in Hf. by rewrite Hi in Hf.
  - pose proof (own_fee_nonneg _ _ _ Hs). lia.
Qed.

(** C21: two nodes whose wallets cover their shares of a v2 open end the
    interactive exchange, whatever number of inputs each adds and whether or not the
    acceptor adds anything: no message is refused, neither side gives up, both wait for
    signatures and both build the same transaction, which spends exactly the inputs of
    the two wallets, has the shared output with the sum of the shares, and pays the
    agreed feerate over the weight the audit counts. *)
Theorem v2_open_agrees free lt fuel p q cp cq :
  mirrored p q cp cq -> v_isInitiator p = true -> side_ok free p cp -> side_ok free q cq ->
  NoDup (map wallet_outpoint (dc_inputs cp ++ dc_inputs cq)) ->
  (2 * (length (dc_inputs cp) + length (dc_inputs cq)) + 7 <= fuel)%nat ->
  exists i a tx, v2_negotiation fuel free (v2_start p cp lt) (v2_start q cq lt) = Some (i, a) /\
    n_session i = DF_AWAITING_TX_SIGNATURES /\ n_session a = DF_AWAITING_TX_SIGNATURES /\
    buildTransaction (n_builder i) = Some tx /\ buildTransaction (n_builder a) = Some tx /\
    opens p q cp cq tx.
Proof.
  intros Hm Hi Hsp Hsq Hnd Hfuel.
  destruct (open_runs free lt fuel p q cp cq Hm Hi Hsp Hsq Hfuel)
    as (all_p & all_q & i & a & Hp & Hq & Hrun & log & Hdi & Hda & Ep & Eq).
  pose proof (sides_log _ _ _ _ _ _ _ Hm Ep Eq) as Hperm. pose proof (initiator_inputs _ _ _ _ Hi Hsp Hp).
  exists i, a. eexists. split_and!; [exact Hrun|by destruct Hdi|by destruct Hda| | |].
  - by apply (log_builds free p q cp cq all_p all_q log i p).
  - apply (log_builds free p q cp cq all_p all_q log a q); try done. symmetry. by eapply mirrored_floor.
  - by eapply log_opens.
Qed.

End Open.

(** ** An open to evaluate on *)

Definition toy_bitcoin : BitcoinLib := {|
  sha256 := fun b => b; ripemd160 := fun b => b; script_compile := fun _ => []; number_encode := fun _ => [];
  p2wsh := fun b => take 34 (b ++ replicate 34 x00); p2wpkh := fun b => b; p2tr := fun k _ => k;
  ecc_pointFromScalar := Some; ecc_pointMultiply := fun p _ => Some p; ecc_pointAdd := fun p _ => Some p |}.

(** A transaction with one key-hash output, whose value is its first byte in thousands. *)
Definition toy_txs : TxLib := {|
  Transaction_fromBuffer := fun b => Some
    {| pt_outs := [{| po_value := 1000 * byte_at b 0; po_script := x00 :: x14 :: replicate 20 x07 |}];
       pt_hash := take 32 b |} |}.

Definition toy_coin (value : Z) : ISpliceWalletInput :=
  {| w_prevTx := byte_of_Z value :: replicate 40 x01; w_prevOutputIndex := 0; w_sequence := 0xfffffffd;
     w_value := 1000 * value |}.

Definition toy_contribution (values : list Z) (share : Z) : dual_contribution :=
  {| dc_inputs := map toy_coin values; dc_changeScript := x00 :: x14 :: replicate 20 x09;
     dc_contributionSats := share; dc_feeratePerKw := 1000 |}.

Definition toy_params (initiator : bool) (local remote : byte) (share : Z) : v2_params :=
  {| v_isInitiator := initiator; v_channelId := replicate 32 x05; v_localFundingPubkey := replicate 33 local;
     v_remoteFundingPubkey := replicate 33 remote; v_fundingSatoshis := 160000; v_remoteFundingSatoshis := share;
     v_localDust := 354; v_remoteDust := 354; v_fundingFeeratePerkw := 1000 |}.

Lemma toy_coin_ok n : 0 <= n < 256 -> @wallet_ok toy_txs None (toy_coin n).
Proof.
  intros Hn. unfold wallet_ok. split_and!; try done; [|cbn; lia]. eexists _, _. split_and!; try reflexivity.
  - by vm_compute.
  - cbn [po_value w_value toy_coin]. f_equal. change (Z_of_byte (byte_of_Z n) = n).
    rewrite Z_of_byte_of_Z. apply Z.mod_small. lia.
Qed.

Lemma v2_open_agrees_witness :
  exists i a tx, @v2_negotiation toy_bitcoin toy_txs 13 None
      (v2_start (toy_params true x02 x03 40000) (toy_contribution [100; 80] 120000) 0)
      (v2_start (toy_params false x03 x02 120000) (toy_contribution [50] 40000) 0) = Some (i, a) /\
    n_session i = DF_AWAITING_TX_SIGNATURES /\ n_session a = DF_AWAITING_TX_SIGNATURES /\
    buildTransaction (n_builder i) = Some tx /\ buildTransaction (n_builder a) = Some tx /\
    @opens toy_bitcoin toy_txs (toy_params true x02 x03 40000) (toy_params false x03 x02 120000)
      (toy_contribution [100; 80] 120000) (toy_contribution [50] 40000) tx.
Proof.
  apply v2_open_agrees.
  - intros script. unfold blen. cbn [p2wsh toy_bitcoin]. rewrite length_take, length_app, length_replicate. lia.
  - constructor; reflexivity.
  - reflexivity.
  - constructor; [repeat constructor; apply toy_coin_ok; lia|by vm_compute..| |split; by vm_compute|by vm_compute|].
    + intros _. split_and!; [done|by vm_compute|by vm_compute|by eexists].
    + right. by vm_compute.
  - constructor; [repeat constructor; apply toy_coin_ok; lia|by vm_compute..|done|split; by vm_compute|by vm_compute|].
    right. by vm_compute.
  - apply (bool_decide_unpack _). by vm_compute.
  - cbn. lia.
Defined.
