(* ===== verification/Transport.v ===== *)
(** * The encrypted transport (src/src/lightning/crypto/hkdf.ts, transport/cipher.ts,
    transport/noise.ts and the frames of transport/peer.ts)

    Key derivation, the three acts of the Noise_XK handshake, the cipher of each
    direction with its key rotation, and how a peer cuts the bytes of a socket into
    messages.  The random ephemeral key is an argument.  A handshake that throws is
    over, so its state is not returned. *)

From S2P Require Import Prelude Buffer Codec CommitmentTx Scripts Channel Sphinx Blinding.
From Stdlib Require Import Strings.Byte.
From Stdlib Require Strings.String.
Local Open Scope Z_scope.

Section Transport.
Context `{L : BitcoinLib} `{O : OnionLib} `{A : AeadLib}.

(** ** crypto/hkdf.ts *)

Definition HASH_LENGTH : Z := 32.

Definition hkdfExtract (salt ikm : buffer) : buffer :=
  let salt := if blen salt =? 0 then alloc HASH_LENGTH else salt in
  hmacSha256 salt ikm.

(** The rounds from [i] on, [n] of them. *)
Fixpoint expand_rounds (n : nat) (i : Z) (prk info prev okm : buffer) : buffer :=
  match n with
  | 0%nat => okm
  | S n =>
      let prev := hmacSha256 prk (prev ++ info ++ [byte_of_Z i]) in
      expand_rounds n (i + 1) prk info prev (copy prev okm ((i - 1) * HASH_LENGTH))
  end.

Definition hkdfExpand (prk info : buffer) (len : Z) : result buffer :=
  let maxLength := 255 * HASH_LENGTH in
  _ ← throw_if (maxLength <? len) "Output length exceeds maximum";
  let n := (len + HASH_LENGTH - 1) / HASH_LENGTH in
  let okm := expand_rounds (Z.to_nat n) 1 prk info [] (alloc (n * HASH_LENGTH)) in
  Ok (subarray okm 0 len).

Definition hkdf (salt ikm info : buffer) (len : Z) : result buffer :=
  let prk := hkdfExtract salt ikm in
  hkdfExpand prk info len.

Definition hkdf2 (salt ikm : buffer) : result (buffer * buffer) :=
  output ← hkdf salt ikm [] 64;
  Ok (subarray output 0 32, subarray output 32 64).

Definition hkdf3 (salt ikm : buffer) : result (buffer * buffer * buffer) :=
  output ← hkdf salt ikm [] 96;
  Ok (subarray output 0 32, subarray output 32 64, subarray output 64 96).

(** ** crypto/chacha20poly1305.ts *)

Definition nonceFromCounter (counter : Z) : result buffer := writeUIntLE 8 (alloc 12) counter 4.

(** ** transport/cipher.ts *)

Definition KEY_ROTATION_INTERVAL : Z := 1000.

Record CipherState := { cs_key : buffer; cs_nonce : Z; cs_chainingKey : buffer }.

Definition new_CipherState (key chainingKey : buffer) : result CipherState :=
  _ ← throw_if (negb (blen key =? 32)) "Key must be 32 bytes";
  _ ← throw_if (negb (blen chainingKey =? 32)) "Chaining key must be 32 bytes";
  Ok {| cs_key := key; cs_nonce := 0; cs_chainingKey := chainingKey |}.

Definition maybeRotateKey (c : CipherState) : result CipherState :=
  if cs_nonce c =? KEY_ROTATION_INTERVAL
  then '(newChainingKey, newKey) ← hkdf2 (cs_chainingKey c) (cs_key c);
       Ok {| cs_key := newKey; cs_nonce := 0; cs_chainingKey := newChainingKey |}
  else Ok c.

(** [this.nonce++] *)
Definition next_nonce (c : CipherState) : CipherState :=
  {| cs_key := cs_key c; cs_nonce := cs_nonce c + 1; cs_chainingKey := cs_chainingKey c |}.

Definition encryptMessage (plaintext : buffer) (c : CipherState) : result (CipherState * buffer) :=
  nonce ← nonceFromCounter (cs_nonce c);
  ciphertext ← encrypt (cs_key c) nonce plaintext [];
  c ← maybeRotateKey (next_nonce c);
  Ok (c, ciphertext).

Definition decryptMessage (ciphertext : buffer) (c : CipherState) : result (CipherState * buffer) :=
  nonce ← nonceFromCounter (cs_nonce c);
  plaintext ← decrypt (cs_key c) nonce ciphertext [];
  c ← maybeRotateKey (next_nonce c);
  Ok (c, plaintext).

Definition encryptWithAd (plaintext aad : buffer) (c : CipherState) : result (CipherState * buffer) :=
  nonce ← nonceFromCounter (cs_nonce c);
  ciphertext ← encrypt (cs_key c) nonce plaintext aad;
  Ok (next_nonce c, ciphertext).

Definition decryptWithAd (ciphertext aad : buffer) (c : CipherState) : result (CipherState * buffer) :=
  nonce ← nonceFromCounter (cs_nonce c);
  plaintext ← decrypt (cs_key c) nonce ciphertext aad;
  Ok (next_nonce c, plaintext).

Record TransportCipher := { sendCipher : CipherState; recvCipher : CipherState }.

Definition new_TransportCipher (sendKey recvKey chainingKey : buffer) : result TransportCipher :=
  s ← new_CipherState sendKey chainingKey;
  r ← new_CipherState recvKey chainingKey;
  Ok {| sendCipher := s; recvCipher := r |}.

Definition encryptPacket (payload : buffer) (t : TransportCipher) : result (TransportCipher * buffer) :=
  _ ← throw_if (65535 <? blen payload) "Payload too large";
  lengthBuf ← writeUInt16BE (alloc 2) (blen payload) 0;
  '(s, encryptedLength) ← encryptMessage lengthBuf (sendCipher t);
  '(s, encryptedBody) ← encryptMessage payload s;
  Ok ({| sendCipher := s; recvCipher := recvCipher t |}, encryptedLength ++ encryptedBody).

Definition decryptLength (encryptedLength : buffer) (t : TransportCipher) : result (TransportCipher * Z) :=
  _ ← throw_if (negb (blen encryptedLength =? 18)) "Encrypted length must be 18 bytes";
  '(r, lengthBuf) ← decryptMessage encryptedLength (recvCipher t);
  n ← readUInt16BE lengthBuf 0;
  Ok ({| sendCipher := sendCipher t; recvCipher := r |}, n).

Definition decryptBody (encryptedBody : buffer) (t : TransportCipher) : result (TransportCipher * buffer) :=
  '(r, body) ← decryptMessage encryptedBody (recvCipher t);
  Ok ({| sendCipher := sendCipher t; recvCipher := r |}, body).

(** ** transport/noise.ts *)

Definition PROTOCOL_NAME : string := "Noise_XK_secp256k1_ChaChaPoly_SHA256".
Definition PROLOGUE : string := "lightning".
Definition ACT_ONE_LENGTH : Z := 50.
Definition ACT_TWO_LENGTH : Z := 50.
Definition ACT_THREE_LENGTH : Z := 66.
Definition VERSION : Z := 0x00.

Record keypair := { kp_priv : buffer; kp_pub : buffer }.

Record IHandshakeState := {
  hs_h : buffer;
  hs_ck : buffer;
  hs_tempK : buffer;
  hs_e : option keypair;
  hs_re : option buffer;
  hs_s : keypair;
  hs_rs : option buffer
}.

Definition initializeHandshakeState (localStatic : keypair) (remoteStaticPub : option buffer) : IHandshakeState :=
  let ck := sha256 (String.list_byte_of_string PROTOCOL_NAME) in
  let h := sha256 (ck ++ String.list_byte_of_string PROLOGUE) in
  {| hs_h := h; hs_ck := ck; hs_tempK := alloc 32; hs_e := None; hs_re := None; hs_s := localStatic;
     hs_rs := remoteStaticPub |}.

Definition generateEphemeral (priv : buffer) : result keypair :=
  pub ← getPublicKey priv; Ok {| kp_priv := priv; kp_pub := pub |}.

Definition handshakeNonce (counter : Z) : result buffer := writeUIntLE 4 (alloc 12) counter 4.

(** [state.h = sha256(Buffer.concat([state.h, data]))] *)
Definition mix_hash (data : buffer) (st : IHandshakeState) : IHandshakeState :=
  {| hs_h := sha256 (hs_h st ++ data); hs_ck := hs_ck st; hs_tempK := hs_tempK st; hs_e := hs_e st;
     hs_re := hs_re st; hs_s := hs_s st; hs_rs := hs_rs st |}.

(** [[ck, tempK] = hkdf2(state.ck, ss)] *)
Definition mix_key (ss : buffer) (st : IHandshakeState) : result IHandshakeState :=
  '(ck, tempK) ← hkdf2 (hs_ck st) ss;
  Ok {| hs_h := hs_h st; hs_ck := ck; hs_tempK := tempK; hs_e := hs_e st; hs_re := hs_re st;
        hs_s := hs_s st; hs_rs := hs_rs st |}.

Definition set_e (e : keypair) (st : IHandshakeState) : IHandshakeState :=
  {| hs_h := hs_h st; hs_ck := hs_ck st; hs_tempK := hs_tempK st; hs_e := Some e; hs_re := hs_re st;
     hs_s := hs_s st; hs_rs := hs_rs st |}.

Definition set_re (re : buffer) (st : IHandshakeState) : IHandshakeState :=
  {| hs_h := hs_h st; hs_ck := hs_ck st; hs_tempK := hs_tempK st; hs_e := hs_e st; hs_re := Some re;
     hs_s := hs_s st; hs_rs := hs_rs st |}.

Definition set_rs (rs : buffer) (st : IHandshakeState) : IHandshakeState :=
  {| hs_h := hs_h st; hs_ck := hs_ck st; hs_tempK := hs_tempK st; hs_e := hs_e st; hs_re := hs_re st;
     hs_s := hs_s st; hs_rs := Some rs |}.

(** An encryption or decryption under the temporary key, with the hash as the associated
    data. *)
Definition seal (counter : Z) (plaintext : buffer) (st : IHandshakeState) : result buffer :=
  nonce ← handshakeNonce counter; encrypt (hs_tempK st) nonce plaintext (hs_h st).

Definition unseal (counter : Z) (c : buffer) (st : IHandshakeState) : result buffer :=
  nonce ← handshakeNonce counter; decrypt (hs_tempK st) nonce c (hs_h st).

Context (ecc_isPoint : buffer -> bool).

Definition initiatorAct1 (ephemeralPriv : buffer) (st : IHandshakeState) : result (IHandshakeState * buffer) :=
  rs ← or_throw (hs_rs st) "Initiator must know responder static pubkey";
  let st := mix_hash rs st in
  e ← generateEphemeral ephemeralPriv;
  let st := mix_hash (kp_pub e) (set_e e st) in
  ss ← ecdh (kp_priv e) rs;
  st ← mix_key ss st;
  c ← seal 0 [] st;
  Ok (mix_hash c st, [byte_of_Z VERSION] ++ kp_pub e ++ c).

Definition initiatorProcessAct2 (act2 : buffer) (st : IHandshakeState) : result IHandshakeState :=
  _ ← throw_if (negb (blen act2 =? ACT_TWO_LENGTH)) "Act 2 must be 50 bytes";
  _ ← throw_if (negb (byte_at act2 0 =? VERSION)) "Unsupported handshake version";
  let re := subarray act2 1 34 in
  _ ← throw_if (negb (isValidPublicKey ecc_isPoint re)) "Act 2 ephemeral key is not a valid curve point";
  let c := subarray act2 34 50 in
  let st := mix_hash re (set_re re st) in
  e ← or_throw (hs_e st) "TypeError";
  ss ← ecdh (kp_priv e) re;
  st ← mix_key ss st;
  _ ← unseal 0 c st;
  Ok (mix_hash c st).

Definition initiatorAct3 (st : IHandshakeState) : result (IHandshakeState * buffer) :=
  c ← seal 1 (kp_pub (hs_s st)) st;
  let st := mix_hash c st in
  re ← or_throw (hs_re st) "TypeError";
  ss ← ecdh (kp_priv (hs_s st)) re;
  st ← mix_key ss st;
  t ← seal 0 [] st;
  Ok (st, [byte_of_Z VERSION] ++ c ++ t).

Definition responderProcessAct1 (act1 : buffer) (st : IHandshakeState) : result IHandshakeState :=
  _ ← throw_if (negb (blen act1 =? ACT_ONE_LENGTH)) "Act 1 must be 50 bytes";
  _ ← throw_if (negb (byte_at act1 0 =? VERSION)) "Unsupported handshake version";
  let st := mix_hash (kp_pub (hs_s st)) st in
  let re := subarray act1 1 34 in
  _ ← throw_if (negb (isValidPublicKey ecc_isPoint re)) "Act 1 ephemeral key is not a valid curve point";
  let c := subarray act1 34 50 in
  let st := mix_hash re (set_re re st) in
  ss ← ecdh (kp_priv (hs_s st)) re;
  st ← mix_key ss st;
  _ ← unseal 0 c st;
  Ok (mix_hash c st).

Definition responderAct2 (ephemeralPriv : buffer) (st : IHandshakeState) : result (IHandshakeState * buffer) :=
  e ← generateEphemeral ephemeralPriv;
  let st := mix_hash (kp_pub e) (set_e e st) in
  re ← or_throw (hs_re st) "TypeError";
  ss ← ecdh (kp_priv e) re;
  st ← mix_key ss st;
  c ← seal 0 [] st;
  Ok (mix_hash c st, [byte_of_Z VERSION] ++ kp_pub e ++ c).

Definition responderProcessAct3 (act3 : buffer) (st : IHandshakeState) : result (IHandshakeState * buffer) :=
  _ ← throw_if (negb (blen act3 =? ACT_THREE_LENGTH)) "Act 3 must be 66 bytes";
  _ ← throw_if (negb (byte_at act3 0 =? VERSION)) "Unsupported handshake version";
  let c := subarray act3 1 50 in
  let t := subarray act3 50 66 in
  rs ← unseal 1 c st;
  let st := mix_hash c (set_rs rs st) in
  e ← or_throw (hs_e st) "TypeError";
  ss ← ecdh (kp_priv e) rs;
  st ← mix_key ss st;
  _ ← unseal 0 t st;
  Ok (st, rs).

Definition deriveTransportCipher (ck : buffer) (initiator : bool) : result TransportCipher :=
  '(sk, rk) ← hkdf2 ck [];
  if initiator then new_TransportCipher sk rk ck else new_TransportCipher rk sk ck.

Definition createInitiatorHandshake (localStaticPriv remoteStaticPub ephemeralPriv : buffer)
    : result (IHandshakeState * buffer) :=
  localPub ← getPublicKey localStaticPriv;
  let state := initializeHandshakeState {| kp_priv := localStaticPriv; kp_pub := localPub |} (Some remoteStaticPub) in
  initiatorAct1 ephemeralPriv state.

Definition createResponderHandshake (localStaticPriv : buffer) : result IHandshakeState :=
  localPub ← getPublicKey localStaticPriv;
  Ok (initializeHandshakeState {| kp_priv := localStaticPriv; kp_pub := localPub |} None).

(** ** transport/peer.ts *)

(** performResponderHandshake on the key it learnt: an inbound connection, whose key is a
    placeholder of zeros, takes it; any other must find the key it expects. *)
Definition learn_remote (remotePublicKey remotePub : buffer) : result buffer :=
  if forallb (fun b => Z_of_byte b =? 0) remotePublicKey then Ok remotePub
  else if buf_equals remotePublicKey remotePub then Ok remotePublicKey
  else Err "Remote public key mismatch after handshake".

Definition ENCRYPTED_LENGTH_SIZE : Z := 18.
Definition MAX_READ_BUFFER : Z := 2 * 1024 * 1024.

Definition GOSSIP_MESSAGE_TYPES : list Z := [256; 257; 258; 265].
Definition SYNC_REPLY_TYPES : list Z := [262; 264].
Definition MAX_GOSSIP_WRITE_BUFFER : Z := 4 * 1024 * 1024.
Definition MAX_SYNC_REPLY_WRITE_BUFFER : Z := MAX_GOSSIP_WRITE_BUFFER + 1024 * 1024.
Definition MAX_WRITE_BUFFER : Z := 72 * 1024 * 1024.

(** What sendMessage does with a message: write bytes, drop it, or disconnect. *)
Inductive send_outcome := Sent (t : TransportCipher) (bytes : buffer) | Dropped | Overflowed.

(** On a connection that is ready, with [buffered] bytes waiting in the socket. *)
Definition sendMessage (type : Z) (payload : buffer) (buffered : Z) (t : TransportCipher) : result send_outcome :=
  _ ← throw_if (65535 <? blen payload) "Message payload exceeds maximum 65535";
  if MAX_WRITE_BUFFER <? buffered then Ok Overflowed
  else if bool_decide (type ∈ GOSSIP_MESSAGE_TYPES) && (MAX_GOSSIP_WRITE_BUFFER <? buffered) then Ok Dropped
  else if bool_decide (type ∈ SYNC_REPLY_TYPES) && (MAX_SYNC_REPLY_WRITE_BUFFER <? buffered) then Ok Dropped
  else
    let payload := if (type =? 262) && (MAX_GOSSIP_WRITE_BUFFER <? buffered) then set_byte payload 32 0 else payload in
    message ← encodeMessage type payload;
    '(t, encrypted) ← encryptPacket message t;
    Ok (Sent t encrypted).

Record reader := { rd_transport : TransportCipher; rd_readBuffer : buffer; rd_pendingBodyLength : Z }.

(** A connection, or the error that closed it. *)
Inductive connection := Reading (r : reader) | Closed (e : string).

(** The first half of a round of processReadBuffer: the length, when it is not known.
    [None] waits for more data. *)
Definition take_length (r : reader) : result (option reader) :=
  if rd_pendingBodyLength r =? -1
  then if blen (rd_readBuffer r) <? ENCRYPTED_LENGTH_SIZE then Ok None
       else
         let encryptedLength := subarray (rd_readBuffer r) 0 ENCRYPTED_LENGTH_SIZE in
         '(t, n) ← decryptLength encryptedLength (rd_transport r);
         _ ← throw_if (65535 <? n) "Decrypted message length exceeds maximum 65535";
         Ok (Some {| rd_transport := t;
                     rd_readBuffer := subarray_from (rd_readBuffer r) ENCRYPTED_LENGTH_SIZE;
                     rd_pendingBodyLength := n |})
  else Ok (Some r).

(** The second half: the body. *)
Definition take_body (r : reader) : result (reader * IDecodedMessage) :=
  let needed := rd_pendingBodyLength r + 16 in
  let encryptedBody := subarray (rd_readBuffer r) 0 needed in
  '(t, body) ← decryptBody encryptedBody (rd_transport r);
  decoded ← decodeMessage body;
  Ok ({| rd_transport := t; rd_readBuffer := subarray_from (rd_readBuffer r) needed;
         rd_pendingBodyLength := -1 |}, decoded).

(** What the loop hands to handleMessage, as long as that does not close the connection. *)
Fixpoint processReadBuffer (fuel : nat) (r : reader) : list IDecodedMessage * connection :=
  match fuel with
  | 0%nat => ([], Closed "out of fuel")
  | S fuel =>
      match take_length r with
      | Err e => ([], Closed e)
      | Ok None => ([], Reading r)
      | Ok (Some r) =>
          if blen (rd_readBuffer r) <? rd_pendingBodyLength r + 16 then ([], Reading r)
          else match take_body r with
          | Err e => ([], Closed e)
          | Ok (r, decoded) => let '(ds, c) := processReadBuffer fuel r in (decoded :: ds, c)
          end
      end
  end.

(** The listener on the socket: one chunk of data. *)
Definition on_data (data : buffer) (c : connection) : list IDecodedMessage * connection :=
  match c with
  | Closed e => ([], Closed e)
  | Reading r =>
      let r := {| rd_transport := rd_transport r; rd_readBuffer := rd_readBuffer r ++ data;
                  rd_pendingBodyLength := rd_pendingBodyLength r |} in
      if MAX_READ_BUFFER <? blen (rd_readBuffer r) then ([], Closed "Read buffer overflow")
      else processReadBuffer (S (length (rd_readBuffer r))) r
  end.

Definition new_reader (t : TransportCipher) : reader :=
  {| rd_transport := t; rd_readBuffer := []; rd_pendingBodyLength := -1 |}.

End Transport.

(** ** What the pieces do *)

Lemma blen_copy src dst off : 0 <= off -> off + blen src <= blen dst -> blen (copy src dst off) = blen dst.
Proof.
  intros Ho Hl. unfold copy. rewrite !blen_app. unfold blen in *. rewrite !length_take, length_drop. lia.
Qed.

#[local] Transparent writeUIntLE.

Lemma nonce_written n v : 0 <= n <= 8 -> 0 <= v < 256 ^ n ->
  exists b, writeUIntLE n (alloc 12) v 4 = Ok b /\ blen b = 12.
Proof.
  intros Hn Hv. unfold writeUIntLE. rewrite throw_pass.
  2:{ apply orb_false_iff. split; [apply Z.ltb_ge|apply Z.leb_gt]; lia. }
  rewrite throw_pass by (apply Z.ltb_ge; rewrite blen_alloc; lia).
  eexists. split; [reflexivity|]. rewrite blen_copy; rewrite ?blen_reverse, ?blen_be, ?blen_alloc; lia.
Qed.

Section Facts.
Context `{L : BitcoinLib} `{O : OnionLib} `{A : AeadLib}.
Context {ecc_isPoint : buffer -> bool} {W : OnionLaws ecc_isPoint} {AW : AeadLaws}.

Lemma expand_length n : forall i prk info prev okm, 1 <= i -> (i - 1 + Z.of_nat n) * 32 <= blen okm ->
  blen (expand_rounds n i prk info prev okm) = blen okm.
Proof.
  induction n as [|n IH]; intros i prk info prev okm Hi Hl; [done|]. cbn [expand_rounds]. unfold HASH_LENGTH.
  set (prev' := hmacSha256 _ _). assert (blen prev' = 32) as Hp by apply hmac_blen.
  assert (blen (copy prev' okm ((i - 1) * 32)) = blen okm) as Hc by (apply blen_copy; lia).
  rewrite IH; lia.
Qed.

Lemma hkdf2_ok salt ikm : exists a b, hkdf2 salt ikm = Ok (a, b) /\ blen a = 32 /\ blen b = 32.
Proof.
  unfold hkdf2, hkdf, hkdfExpand. change ((64 + HASH_LENGTH - 1) / HASH_LENGTH) with 2.
  rewrite throw_pass by done. rewrite bind_Ok. set (okm := expand_rounds _ _ _ _ _ _).
  assert (blen okm = 64) as Hl.
  { unfold okm. rewrite expand_length; [done|lia|done]. }
  eexists _, _. split; [reflexivity|].
  assert (blen (subarray okm 0 64) = 64) as Hs by (rewrite blen_subarray; lia).
  split; rewrite blen_subarray; lia.
Qed.

(** What is encrypted is decrypted, 16 bytes longer. *)
Lemma sealed key nonce plaintext aad : blen key = 32 -> blen nonce = 12 ->
  exists c, encrypt key nonce plaintext aad = Ok c /\ decrypt key nonce c aad = Ok plaintext /\
    blen c = blen plaintext + 16.
Proof.
  intros Hk Hn. unfold encrypt, decrypt. rewrite Hk, Hn. cbn [Z.eqb Pos.eqb negb].
  eexists. split; [reflexivity|]. rewrite aead_tag. split; [|done]. pose proof (blen_nonneg plaintext).
  rewrite !throw_pass by (done || apply Z.ltb_ge; lia). apply aead_opens.
Qed.

(** ** One direction *)

Definition cipher_ok (c : CipherState) : Prop :=
  blen (cs_key c) = 32 /\ blen (cs_chainingKey c) = 32 /\ 0 <= cs_nonce c < KEY_ROTATION_INTERVAL.

Lemma rotated c : cipher_ok c -> exists c', maybeRotateKey (next_nonce c) = Ok c' /\ cipher_ok c'.
Proof.
  intros (Hk & Hc & Hn). unfold maybeRotateKey. cbn [next_nonce cs_nonce cs_chainingKey cs_key].
  destruct (Z.eqb_spec (cs_nonce c + 1) KEY_ROTATION_INTERVAL).
  - destruct (hkdf2_ok (cs_chainingKey c) (cs_key c)) as (a & b & -> & Ha & Hb).
    eexists. split; [reflexivity|]. unfold cipher_ok, KEY_ROTATION_INTERVAL. cbn. lia.
  - eexists. split; [reflexivity|]. unfold cipher_ok. cbn [next_nonce cs_nonce cs_chainingKey cs_key].
    unfold KEY_ROTATION_INTERVAL in *. lia.
Qed.

(** Two ciphers in the same state stay in step. *)
Lemma message_carried c plaintext : cipher_ok c ->
  exists c' b, encryptMessage plaintext c = Ok (c', b) /\ decryptMessage b c = Ok (c', plaintext) /\
    cipher_ok c' /\ blen b = blen plaintext + 16.
Proof.
  intros Hc. pose proof Hc as (Hk & _ & Hn). unfold encryptMessage, decryptMessage, nonceFromCounter.
  destruct (nonce_written 8 (cs_nonce c)) as (nonce & -> & Hl); [lia|unfold KEY_ROTATION_INTERVAL in *; lia|].
  destruct (sealed (cs_key c) nonce plaintext [] Hk Hl) as (b & He & Hd & Hb).
  destruct (rotated c Hc) as (c' & Hr & Hc'). exists c', b.
  rewrite !bind_Ok, He, Hd, !bind_Ok, Hr. done.
Qed.

End Facts.
