(* ===== verification/TransportRun.v ===== *)
(** * Two peers over an encrypted connection

    The handshake of transport/peer.ts between an initiator and a responder, and then
    messages that arrive in arbitrary pieces. *)

From S2P Require Import Prelude Buffer Codec CommitmentTx Scripts Channel Sphinx Blinding Transport.
From Stdlib Require Import Strings.Byte.
Local Open Scope Z_scope.

Section Handshake.
Context `{L : BitcoinLib} `{O : OnionLib} `{A : AeadLib} (ecc_isPoint : buffer -> bool).

(** performHandshake and performResponderHandshake, message by message; [expected] is the
    key the responder expects, zeros for an inbound connection. *)
Definition handshake (initiatorPriv responderPriv remotePublicKey expected ei er : buffer)
    : result (TransportCipher * TransportCipher * buffer) :=
  '(i, act1) ← createInitiatorHandshake initiatorPriv remotePublicKey ei;
  r ← createResponderHandshake responderPriv;
  r ← responderProcessAct1 ecc_isPoint act1 r;
  '(r, act2) ← responderAct2 er r;
  i ← initiatorProcessAct2 ecc_isPoint act2 i;
  '(i, act3) ← initiatorAct3 i;
  transport_i ← deriveTransportCipher (hs_ck i) true;
  '(r, remotePub) ← responderProcessAct3 act3 r;
  remotePub ← learn_remote expected remotePub;
  transport_r ← deriveTransportCipher (hs_ck r) false;
  Ok (transport_i, transport_r, remotePub).

Context {W : OnionLaws ecc_isPoint} {AW : AeadLaws}.

(** Both sides have hashed the same bytes and derived the same keys. *)
Record synced (i r : IHandshakeState) : Prop := {
  sy_h : hs_h i = hs_h r;
  sy_ck : hs_ck i = hs_ck r;
  sy_tempK : hs_tempK i = hs_tempK r
}.

Definition frame (st st' : IHandshakeState) : Prop :=
  hs_e st' = hs_e st /\ hs_re st' = hs_re st /\ hs_s st' = hs_s st /\ hs_rs st' = hs_rs st.

Lemma mixed_keys i r ss : hs_h i = hs_h r -> hs_ck i = hs_ck r ->
  exists i' r', mix_key ss i = Ok i' /\ mix_key ss r = Ok r' /\ synced i' r' /\ frame i i' /\ frame r r' /\
    blen (hs_tempK i') = 32 /\ blen (hs_ck i') = 32.
Proof.
  intros Hh Hck. unfold mix_key. rewrite Hck. destruct (hkdf2_ok (hs_ck r) ss) as (a & b & -> & Ha & Hb).
  rewrite !bind_Ok. eexists _, _. split_and!; done.
Qed.

Lemma handshake_nonce n : 0 <= n <= 1 -> exists b, handshakeNonce n = Ok b /\ blen b = 12.
Proof. intros Hn. apply (nonce_written 4 n); lia. Qed.

Lemma sealed_across i r n plaintext : synced i r -> blen (hs_tempK i) = 32 -> 0 <= n <= 1 ->
  exists c, seal n plaintext i = Ok c /\ unseal n c r = Ok plaintext /\ blen c = blen plaintext + 16.
Proof.
  intros [Hh _ Hk] Hl Hn. unfold seal, unseal. destruct (handshake_nonce n Hn) as (nonce & -> & Hnl).
  destruct (sealed (hs_tempK i) nonce plaintext (hs_h i) Hl Hnl) as (c & He & Hd & Hc).
  exists c. rewrite !bind_Ok, <- Hh, <- Hk. done.
Qed.

Lemma synced_hash i r d : synced i r -> synced (mix_hash d i) (mix_hash d r).
Proof. intros []. constructor; cbn; congruence. Qed.

(** A point on its way is read back. *)
Lemma act_parts v pub c : blen pub = 33 -> blen c = 16 ->
  let act := [byte_of_Z v] ++ pub ++ c in
  blen act = 50 /\ subarray act 1 34 = pub /\ subarray act 34 50 = c.
Proof.
  intros Hp Hc. cbn zeta. split_and!.
  - rewrite !blen_app, Hp, Hc. done.
  - rewrite subarray_skip by done. rewrite subarray_hd; [done|done|]. rewrite Hp. done.
  - rewrite subarray_skip by (by vm_compute). rewrite subarray_skip by (rewrite Hp; by vm_compute).
    rewrite subarray_all; [done|rewrite Hp; done|rewrite Hp, Hc; done].
Qed.

Lemma version_byte rest : byte_at ([byte_of_Z VERSION] ++ rest) 0 = VERSION.
Proof. done. Qed.

Lemma pub_valid priv pub : getPublicKey priv = Ok pub -> blen pub = 33 /\ isValidPublicKey ecc_isPoint pub = true.
Proof.
  intros [_ H]%getPublicKey_inv. destruct (point_length _ _ H) as [Hl Hp]. split; [done|].
  unfold isValidPublicKey. by rewrite Hl, Hp.
Qed.

Lemma act1_ok si Si sr Sr ei Ei ss :
  getPublicKey si = Ok Si -> getPublicKey sr = Ok Sr -> getPublicKey ei = Ok Ei -> ecdh ei Sr = Ok ss ->
  exists i act1 r0 r, createInitiatorHandshake si Sr ei = Ok (i, act1) /\
    createResponderHandshake sr = Ok r0 /\ responderProcessAct1 ecc_isPoint act1 r0 = Ok r /\ synced i r /\
    hs_s i = {| kp_priv := si; kp_pub := Si |} /\ hs_e i = Some {| kp_priv := ei; kp_pub := Ei |} /\
    hs_re r = Some Ei.
Proof.
  intros Hsi Hsr Hei Hss. destruct (pub_valid _ _ Hei) as [Hl Hv].
  unfold createInitiatorHandshake, createResponderHandshake. rewrite Hsi, Hsr, !bind_Ok.
  unfold initiatorAct1, generateEphemeral. cbn [or_throw hs_rs initializeHandshakeState]. rewrite !bind_Ok, Hei, !bind_Ok.
  cbn [kp_priv kp_pub]. rewrite Hss, bind_Ok.
  set (i0 := mix_hash Ei _). set (r0 := initializeHandshakeState {| kp_priv := sr; kp_pub := Sr |} None).
  destruct (mixed_keys i0 (mix_hash Ei (set_re Ei (mix_hash Sr r0))) ss eq_refl eq_refl)
    as (i & r & Hi & Hr & Hsync & (Fe & Fre & Fs & Frs) & (Ge & Gre & Gs & Grs) & Hk & _).
  rewrite Hi, bind_Ok. destruct (sealed_across i r 0 [] Hsync Hk) as (c & Hc & Hu & Hcl); [lia|].
  rewrite Hc, bind_Ok. destruct (act_parts VERSION Ei c Hl Hcl) as (Ha & Hpub & Hct).
  eexists _, _, r0, (mix_hash c r). split_and!; [reflexivity|reflexivity| |by apply synced_hash|done|done|done].
  unfold responderProcessAct1, ACT_ONE_LENGTH. rewrite Ha, version_byte, Hpub, Hct, Hv. rewrite !throw_pass by done.
  change (kp_priv (hs_s (mix_hash Ei (set_re Ei (mix_hash (kp_pub (hs_s r0)) r0))))) with sr.
  rewrite <- (ecdh_symmetric _ _ _ _ Hei Hsr), Hss, bind_Ok.
  change (kp_pub (hs_s r0)) with Sr. rewrite Hr, bind_Ok, Hu. done.
Qed.

Lemma act2_ok i r ei Ei er Er ss :
  synced i r -> hs_e i = Some {| kp_priv := ei; kp_pub := Ei |} -> hs_re r = Some Ei ->
  getPublicKey ei = Ok Ei -> getPublicKey er = Ok Er -> ecdh er Ei = Ok ss ->
  exists r' act2 i', responderAct2 er r = Ok (r', act2) /\ initiatorProcessAct2 ecc_isPoint act2 i = Ok i' /\
    synced i' r' /\ blen (hs_tempK i') = 32 /\ hs_s i' = hs_s i /\ hs_re i' = Some Er /\
    hs_e r' = Some {| kp_priv := er; kp_pub := Er |}.
Proof.
  intros Hsync He Hre Hei Her Hss. destruct (pub_valid _ _ Her) as [Hl Hv].
  unfold responderAct2, generateEphemeral. rewrite Her, !bind_Ok. cbn [kp_priv kp_pub].
  set (r0 := mix_hash Er (set_e _ r)). change (hs_re r0) with (hs_re r). rewrite Hre. cbn [or_throw].
  rewrite bind_Ok, Hss, bind_Ok. set (i0 := mix_hash Er (set_re Er i)).
  destruct (mixed_keys i0 r0 ss) as (i' & r' & Hi & Hr & Hsync' & (Fe & Fre & Fs & Frs) & (Ge & Gre & Gs & Grs) & Hk & _);
    [cbn; by rewrite (sy_h _ _ Hsync)|exact (sy_ck _ _ Hsync)|].
  rewrite Hr, bind_Ok. assert (synced r' i') as Hsync2 by (destruct Hsync'; constructor; congruence).
  destruct (sealed_across r' i' 0 [] Hsync2) as (c & Hc & Hu & Hcl); [by rewrite <- (sy_tempK _ _ Hsync')|lia|].
  rewrite Hc, bind_Ok. destruct (act_parts VERSION Er c Hl Hcl) as (Ha & Hpub & Hct).
  eexists _, _, (mix_hash c i'). split_and!; [reflexivity| |by apply synced_hash|done|done|done|done].
  unfold initiatorProcessAct2, ACT_TWO_LENGTH. rewrite Ha, version_byte, Hpub, Hct, Hv. rewrite !throw_pass by done.
  fold i0. change (hs_e i0) with (hs_e i). rewrite He. cbn [or_throw]. rewrite bind_Ok. cbn [kp_priv].
  rewrite (ecdh_symmetric _ _ _ _ Hei Her), Hss, bind_Ok, Hi, bind_Ok, Hu. done.
Qed.

Lemma act3_parts v c t : blen c = 49 -> blen t = 16 ->
  let act := [byte_of_Z v] ++ c ++ t in blen act = 66 /\ subarray act 1 50 = c /\ subarray act 50 66 = t.
Proof.
  intros Hp Hc. cbn zeta. split_and!.
  - rewrite !blen_app, Hp, Hc. done.
  - rewrite subarray_skip by done. rewrite subarray_hd; [done|done|]. rewrite Hp. done.
  - rewrite subarray_skip by (by vm_compute). rewrite subarray_skip by (rewrite Hp; by vm_compute).
    rewrite subarray_all; [done|rewrite Hp; done|rewrite Hp, Hc; done].
Qed.

Lemma act3_ok i r si Si er Er ss :
  synced i r -> blen (hs_tempK i) = 32 -> hs_s i = {| kp_priv := si; kp_pub := Si |} -> hs_re i = Some Er ->
  hs_e r = Some {| kp_priv := er; kp_pub := Er |} ->
  getPublicKey si = Ok Si -> getPublicKey er = Ok Er -> ecdh si Er = Ok ss ->
  exists i' act3 r', initiatorAct3 i = Ok (i', act3) /\ responderProcessAct3 act3 r = Ok (r', Si) /\
    hs_ck i' = hs_ck r' /\ blen (hs_ck i') = 32.
Proof.
  intros Hsync Hk0 Hs Hre He Hsi Her Hss. destruct (pub_valid _ _ Hsi) as [Hl Hv].
  unfold initiatorAct3. rewrite Hs. cbn [kp_priv kp_pub].
  destruct (sealed_across i r 1 Si Hsync Hk0) as (c & Hc & Hu & Hcl); [lia|]. rewrite Hc, bind_Ok.
  change (hs_re (mix_hash c i)) with (hs_re i). change (hs_s (mix_hash c i)) with (hs_s i). rewrite Hre, Hs.
  cbn [or_throw kp_priv]. rewrite bind_Ok, Hss, bind_Ok.
  destruct (mixed_keys (mix_hash c i) (mix_hash c (set_rs Si r)) ss)
    as (i' & r' & Hi & Hr & Hsync' & _ & _ & Hk & Hck);
    [cbn; by rewrite (sy_h _ _ Hsync)|exact (sy_ck _ _ Hsync)|].
  rewrite Hi, bind_Ok. destruct (sealed_across i' r' 0 [] Hsync' Hk) as (t & Ht & Hut & Htl); [lia|].
  rewrite Ht, bind_Ok. destruct (act3_parts VERSION c t) as (Ha & Hpc & Hpt); [by rewrite Hcl, Hl|done|].
  eexists _, _, r'. split_and!; [reflexivity| |exact (sy_ck _ _ Hsync')|done].
  unfold responderProcessAct3, ACT_THREE_LENGTH. rewrite Ha, version_byte, Hpc, Hpt. rewrite !throw_pass by done.
  rewrite Hu, bind_Ok. change (hs_e (mix_hash c (set_rs Si r))) with (hs_e r). rewrite He. cbn [or_throw].
  rewrite bind_Ok. cbn [kp_priv]. rewrite <- (ecdh_symmetric _ _ _ _ Hsi Her), Hss, bind_Ok, Hr, bind_Ok, Hut. done.
Qed.

(** Two ends of one connection. *)
Definition ends (t t' : TransportCipher) : Prop :=
  sendCipher t = recvCipher t' /\ recvCipher t = sendCipher t' /\ cipher_ok (sendCipher t) /\ cipher_ok (recvCipher t).

Lemma transport_ends ck : blen ck = 32 ->
  exists t t', deriveTransportCipher ck true = Ok t /\ deriveTransportCipher ck false = Ok t' /\ ends t t'.
Proof.
  intros Hck. unfold deriveTransportCipher, new_TransportCipher, new_CipherState.
  destruct (hkdf2_ok ck []) as (a & b & -> & Ha & Hb). rewrite !bind_Ok, Ha, Hb, Hck. cbn [Z.eqb Pos.eqb negb].
  rewrite !throw_pass by done. eexists _, _. split; [reflexivity|]. split; [reflexivity|].
  unfold ends, cipher_ok, KEY_ROTATION_INTERVAL. cbn [sendCipher recvCipher cs_key cs_nonce cs_chainingKey].
  split_and!; done || lia.
Qed.

(** The keys of a connection can be agreed on. *)
Record agreement (si Si sr Sr ei Ei er Er : buffer) : Prop := {
  ag_si : getPublicKey si = Ok Si;
  ag_sr : getPublicKey sr = Ok Sr;
  ag_ei : getPublicKey ei = Ok Ei;
  ag_er : getPublicKey er = Ok Er;
  ag_es : exists ss, ecdh ei Sr = Ok ss;
  ag_ee : exists ss, ecdh er Ei = Ok ss;
  ag_se : exists ss, ecdh si Er = Ok ss
}.

Lemma learns expected pub : expected = alloc 33 \/ expected = pub -> learn_remote expected pub = Ok pub.
Proof.
  unfold learn_remote. intros [->| ->]; [done|]. destruct (forallb _ _); [done|].
  unfold buf_equals. by rewrite bool_decide_true.
Qed.

Lemma handshake_ends si Si sr Sr ei Ei er Er expected : agreement si Si sr Sr ei Ei er Er ->
  expected = alloc 33 \/ expected = Si ->
  exists t t', handshake si sr Sr expected ei er = Ok (t, t', Si) /\ ends t t'.
Proof.
  intros [Hsi Hsr Hei Her [s1 H1] [s2 H2] [s3 H3]] Hexp. unfold handshake.
  destruct (act1_ok si Si sr Sr ei Ei s1 Hsi Hsr Hei H1) as (i1 & act1 & r0 & r1 & -> & -> & Hp1 & Hsync1 & Hs & He & Hre).
  rewrite !bind_Ok, Hp1, bind_Ok.
  destruct (act2_ok i1 r1 ei Ei er Er s2 Hsync1 He Hre Hei Her H2)
    as (r2 & act2 & i2 & -> & Hp2 & Hsync2 & Hk & Hs2 & Hre2 & He2). rewrite bind_Ok, Hp2, bind_Ok. rewrite Hs in Hs2.
  destruct (act3_ok i2 r2 si Si er Er s3 Hsync2 Hk Hs2 Hre2 He2 Hsi Her H3)
    as (i3 & act3 & r3 & -> & Hp3 & Hck & Hckl). rewrite bind_Ok.
  destruct (transport_ends (hs_ck i3) Hckl) as (t & t' & Ht & Ht' & Hends).
  rewrite Ht, bind_Ok, Hp3, bind_Ok, (learns _ _ Hexp), bind_Ok, <- Hck, Ht', bind_Ok. eauto.
Qed.

End Handshake.

(** ** Messages in pieces *)

Section Stream.
Context `{L : BitcoinLib} `{O : OnionLib} `{A : AeadLib}.

(** A message that fits a packet. *)
Definition fits (m : IDecodedMessage) : Prop := 0 <= dm_type m <= 0xffff /\ blen (dm_payload m) <= 65533.

Definition body_of (m : IDecodedMessage) : buffer := be 2 (dm_type m) ++ dm_payload m.

(** Everything one side sends, as one stream of bytes; no message is lost in a full
    socket, which never has more than [buffered] bytes. *)
Context (buffered : Z).
Fixpoint send_all (ms : list IDecodedMessage) (t : TransportCipher) : result (TransportCipher * buffer) :=
  match ms with
  | [] => Ok (t, [])
  | m :: ms =>
      outcome ← sendMessage (dm_type m) (dm_payload m) buffered t;
      match outcome with
      | Sent t packet => '(t, rest) ← send_all ms t; Ok (t, packet ++ rest)
      | _ => Err "not sent"
      end
  end.

(** A socket that delivers the chunks one by one. *)
Fixpoint receive_all (chunks : list buffer) (c : connection) : list IDecodedMessage * connection :=
  match chunks with
  | [] => ([], c)
  | data :: chunks =>
      let '(ds, c) := on_data data c in
      let '(ds', c) := receive_all chunks c in
      (ds ++ ds', c)
  end.

(** The packet of [m], as a receiver in state [c] reads it. *)
Definition packet_for (c : CipherState) (m : IDecodedMessage) (el eb : buffer) (c' : CipherState) : Prop :=
  blen el = 18 /\ blen eb = blen (body_of m) + 16 /\
  exists c1, decryptMessage el c = Ok (c1, be 2 (blen (body_of m))) /\ decryptMessage eb c1 = Ok (c', body_of m).

(** [bytes] are the packets of [ms]. *)
Inductive carries : CipherState -> list IDecodedMessage -> buffer -> CipherState -> Prop :=
| carries_nil c : carries c [] [] c
| carries_cons c m el eb c' ms rest c_end :
    fits m -> packet_for c m el eb c' -> carries c' ms rest c_end ->
    carries c (m :: ms) (el ++ eb ++ rest) c_end.

(** A reader between two packets, or with the length of one known; [rest] is what has
    not arrived, [ms] what is not delivered. *)
Definition between (r : reader) (ms : list IDecodedMessage) (rest : buffer) (c_end : CipherState) : Prop :=
  rd_pendingBodyLength r = -1 /\ carries (recvCipher (rd_transport r)) ms (rd_readBuffer r ++ rest) c_end.

Definition inside (r : reader) (ms : list IDecodedMessage) (rest : buffer) (c_end : CipherState) : Prop :=
  exists m ms' eb c' rest', ms = m :: ms' /\ fits m /\ rd_pendingBodyLength r = blen (body_of m) /\
    blen eb = blen (body_of m) + 16 /\ decryptMessage eb (recvCipher (rd_transport r)) = Ok (c', body_of m) /\
    rd_readBuffer r ++ rest = eb ++ rest' /\ carries c' ms' rest' c_end.

Definition reader_at r ms rest c_end : Prop := between r ms rest c_end \/ inside r ms rest c_end.

(** Nothing more can be read from the buffer. *)
Definition waiting (r : reader) : Prop :=
  blen (rd_readBuffer r) < if rd_pendingBodyLength r =? -1 then 18 else rd_pendingBodyLength r + 16.

Lemma body_length m : blen (body_of m) = blen (dm_payload m) + 2.
Proof. unfold body_of. rewrite blen_app, blen_be. lia. Qed.

Lemma app_split (a b c d : buffer) : a ++ b = c ++ d -> blen c <= blen a ->
  subarray a 0 (blen c) = c /\ subarray_from a (blen c) ++ b = d.
Proof.
  intros E Hl. unfold blen in Hl. assert (a = c ++ drop (length c) a) as Ha.
  { rewrite <- (take_drop (length c) a) at 1. f_equal. rewrite <- (take_app_le a b) by lia. by rewrite E, take_app_length. }
  split.
  - rewrite Ha. by apply subarray_hd.
  - unfold subarray_from, blen. rewrite Nat2Z.id. rewrite Ha, <- app_assoc in E. by apply app_inv_head in E.
Qed.

(** The length of the next packet is read. *)
Lemma length_read r ms rest c_end : between r ms rest c_end -> 18 <= blen (rd_readBuffer r) ->
  exists r', take_length r = Ok (Some r') /\ inside r' ms rest c_end /\
    blen (rd_readBuffer r') = blen (rd_readBuffer r) - 18 /\ rd_pendingBodyLength r' <> -1.
Proof.
  intros [Hp Hc] Hl. inversion Hc as [|? m el eb c' ms' rest' ? Hfit Hpk Hrest]; subst.
  { symmetry in H1. apply app_eq_nil in H1 as [E _]. rewrite E in Hl. by vm_compute in Hl. }
  destruct Hpk as (Hel & Heb & c1 & Hd & Hd').
  match goal with H : _ ++ _ = _ ++ rest |- _ => rename H into E end. symmetry in E.
  destruct (app_split _ _ _ _ E) as [Es Ef]; [by rewrite Hel|]. rewrite Hel in Es, Ef.
  unfold take_length, ENCRYPTED_LENGTH_SIZE. rewrite Hp. cbn [Z.eqb Pos.eqb].
  rewrite (proj2 (Z.ltb_ge _ _) Hl), Es. unfold decryptLength. rewrite Hel. rewrite throw_pass by done.
  rewrite Hd, !bind_Ok. pose proof Hfit as [_ Hfit']. pose proof (body_length m) as Hb. pose proof (blen_nonneg (dm_payload m)).
  unfold readUInt16BE. change 2%nat with (Z.to_nat 2). rewrite readUIntBE_all by (done || lia).
  rewrite !bind_Ok, throw_pass by (apply Z.ltb_ge; lia).
  eexists. split; [reflexivity|]. split_and!.
  - exists m, ms', eb, c', rest'. split_and!; try done.
  - cbn [rd_readBuffer]. unfold subarray_from, blen in *. rewrite length_drop. lia.
  - cbn [rd_pendingBodyLength]. lia.
Qed.

(** The body of the packet is read and decoded. *)
Lemma body_read r ms rest c_end : inside r ms rest c_end -> rd_pendingBodyLength r + 16 <= blen (rd_readBuffer r) ->
  exists m ms' r', ms = m :: ms' /\ take_body r = Ok (r', m) /\ between r' ms' rest c_end /\
    (length (rd_readBuffer r') < length (rd_readBuffer r))%nat.
Proof.
  intros (m & ms' & eb & c' & rest' & -> & Hfit & Hp & Heb & Hd & E & Hc) Hl. exists m, ms'.
  rewrite Hp, <- Heb in Hl. destruct (app_split _ _ _ _ E Hl) as [Es Ef].
  unfold take_body. rewrite Hp, <- Heb, Es. unfold decryptBody. rewrite Hd, !bind_Ok.
  unfold body_of at 1. destruct Hfit as [Ht _]. rewrite decodeMessage_frame, bind_Ok by done.
  eexists. split_and!; [done|destruct m; reflexivity| |].
  - split; [done|]. cbn. by rewrite Ef.
  - cbn [rd_readBuffer]. unfold subarray_from. rewrite length_drop. unfold blen in *. pose proof (blen_nonneg (body_of m)). unfold blen in *. lia.
Qed.

(** The loop delivers what has arrived whole and waits for the rest. *)
Lemma loop_delivers fuel : forall r ms rest c_end, reader_at r ms rest c_end ->
  (length (rd_readBuffer r) < fuel)%nat ->
  exists ds r' ms', processReadBuffer fuel r = (ds, Reading r') /\ ms = ds ++ ms' /\
    reader_at r' ms' rest c_end /\ waiting r'.
Proof.
  induction fuel as [|fuel IH]; intros r ms rest c_end Hat Hf; [lia|]. cbn [processReadBuffer].
  assert (exists r1, (take_length r = Ok None /\ r1 = r /\ waiting r) \/
    (take_length r = Ok (Some r1) /\ inside r1 ms rest c_end /\ (length (rd_readBuffer r1) <= length (rd_readBuffer r))%nat /\
     rd_pendingBodyLength r1 <> -1)) as (r1 & [(Hn & -> & Hw)|(Hs & Hin & Hlen & Hne)]).
  { destruct Hat as [Hb|Hi].
    - destruct (Z.ltb_spec (blen (rd_readBuffer r)) 18) as [Hlt|Hge].
      + exists r. left. unfold take_length, ENCRYPTED_LENGTH_SIZE, waiting. destruct Hb as [-> _]. cbn [Z.eqb Pos.eqb].
        by rewrite (proj2 (Z.ltb_lt _ _) Hlt).
      + destruct (length_read r ms rest c_end Hb Hge) as (r1 & Ht & Hi & Hl & Hne). exists r1. right.
        split_and!; try done. unfold blen in Hl. lia.
    - exists r. right. unfold take_length. destruct Hi as (m & ? & ? & ? & ? & ? & ? & Hp & Hi).
      pose proof (blen_nonneg (body_of m)). rewrite (proj2 (Z.eqb_neq _ _)) by lia.
      split_and!; [done| |lia|lia]. by exists m; eauto 10. }
  - rewrite Hn. exists [], r, ms. done.
  - rewrite Hs. destruct (Z.ltb_spec (blen (rd_readBuffer r1)) (rd_pendingBodyLength r1 + 16)) as [Hlt|Hge].
    + exists [], r1, ms. split_and!; [done|done|by right|]. unfold waiting. by rewrite (proj2 (Z.eqb_neq _ _) Hne).
    + destruct (body_read r1 ms rest c_end Hin Hge) as (m & ms' & r2 & -> & -> & Hb & Hlt).
      destruct (IH r2 ms' rest c_end) as (ds & r' & ms'' & -> & -> & Hat' & Hw); [by left|lia|].
      exists (m :: ds), r', ms''. done.
Qed.

(** A waiting reader holds less than one packet. *)
Lemma waiting_small r ms rest c_end : reader_at r ms rest c_end -> waiting r -> blen (rd_readBuffer r) <= 65551.
Proof.
  unfold waiting. intros [[-> _]|(m & ms' & eb & c' & rest' & -> & [_ Hfit] & Hp & _)] Hw; [cbn in Hw; lia|].
  pose proof (body_length m). rewrite Hp in Hw. pose proof (blen_nonneg (dm_payload m)).
  rewrite (proj2 (Z.eqb_neq _ _)) in Hw by lia. lia.
Qed.

(** Once everything has arrived, a waiting reader has delivered everything. *)
Lemma waiting_done r ms c_end : reader_at r ms [] c_end -> waiting r ->
  ms = [] /\ rd_readBuffer r = [] /\ rd_pendingBodyLength r = -1 /\ recvCipher (rd_transport r) = c_end.
Proof.
  unfold waiting. intros [[Hp Hc]|(m & ms' & eb & c' & rest' & -> & _ & Hp & Heb & _ & E & _)] Hw; rewrite ?app_nil_r in *.
  - rewrite Hp in Hw. cbn [Z.eqb Pos.eqb] in Hw. inversion Hc as [|? m el eb c' ms' rest' ? ? (Hel & _) ?]; subst; [done|].
    match goal with H : _ = rd_readBuffer r |- _ => rewrite <- H in Hw end. rewrite blen_app, Hel in Hw.
    pose proof (blen_nonneg (eb ++ rest')). lia.
  - rewrite E, blen_app, Heb in Hw. rewrite Hp in Hw. pose proof (blen_nonneg (body_of m)). pose proof (blen_nonneg rest').
    rewrite (proj2 (Z.eqb_neq _ _)) in Hw by lia. lia.
Qed.

Lemma reader_gets r ms data rest c_end : reader_at r ms (data ++ rest) c_end ->
  reader_at {| rd_transport := rd_transport r; rd_readBuffer := rd_readBuffer r ++ data;
               rd_pendingBodyLength := rd_pendingBodyLength r |} ms rest c_end.
Proof.
  unfold reader_at, between, inside. cbn. rewrite <- app_assoc. done.
Qed.

Lemma chunks_received chunks : forall r ms rest c_end,
  Forall (fun data => blen data <= MAX_READ_BUFFER - 65551) chunks ->
  reader_at r ms (concat chunks ++ rest) c_end -> waiting r ->
  exists ds r' ms', receive_all chunks (Reading r) = (ds, Reading r') /\ ms = ds ++ ms' /\
    reader_at r' ms' rest c_end /\ waiting r'.
Proof.
  induction chunks as [|data chunks IH]; intros r ms rest c_end Hs Hat Hw.
  { exists [], r, ms. done. }
  apply Forall_cons in Hs as [Hd Hs]. cbn [receive_all on_data concat] in *. rewrite <- app_assoc in Hat.
  pose proof (waiting_small _ _ _ _ Hat Hw) as Hsmall. apply reader_gets in Hat.
  rewrite (proj2 (Z.ltb_ge _ _)) by (cbn [rd_readBuffer]; rewrite blen_app; lia).
  edestruct loop_delivers as (ds & r1 & ms1 & -> & -> & Hat1 & Hw1); [exact Hat|apply Nat.lt_succ_diag_r|].
  destruct (IH r1 ms1 rest c_end Hs Hat1 Hw1) as (ds' & r' & ms' & -> & -> & Hat' & Hw').
  exists (ds ++ ds'), r', ms'. by rewrite app_assoc.
Qed.

Context {ecc_isPoint : buffer -> bool} {W : OnionLaws ecc_isPoint} {AW : AeadLaws}.
Context (Hbuffered : buffered <= MAX_GOSSIP_WRITE_BUFFER).

Lemma packet_sent m t : fits m -> cipher_ok (sendCipher t) ->
  exists t' el eb, sendMessage (dm_type m) (dm_payload m) buffered t = Ok (Sent t' (el ++ eb)) /\
    packet_for (sendCipher t) m el eb (sendCipher t') /\ cipher_ok (sendCipher t') /\ recvCipher t' = recvCipher t.
Proof.
  intros [Ht Hl] Hc. pose proof (body_length m) as Hb. pose proof (blen_nonneg (dm_payload m)).
  unfold sendMessage. rewrite throw_pass by (apply Z.ltb_ge; lia).
  unfold MAX_WRITE_BUFFER, MAX_SYNC_REPLY_WRITE_BUFFER. rewrite !(proj2 (Z.ltb_ge _ buffered)) by (unfold MAX_GOSSIP_WRITE_BUFFER in *; lia).
  rewrite !andb_false_r. rewrite encodeMessage_bytes by done. rewrite bind_Ok.
  fold (body_of m). unfold encryptPacket. rewrite throw_pass by (apply Z.ltb_ge; lia).
  unfold writeUInt16BE. rewrite write_fill0 by lia. rewrite bind_Ok, alloc_0, app_nil_r by lia.
  destruct (message_carried (sendCipher t) (be 2 (blen (body_of m))) Hc) as (c1 & el & He & Hd & Hc1 & Hel).
  change (Z.to_nat 2) with 2%nat. rewrite He, bind_Ok.
  destruct (message_carried c1 (body_of m) Hc1) as (c2 & eb & He2 & Hd2 & Hc2 & Heb). rewrite He2, !bind_Ok.
  eexists _, el, eb. split; [reflexivity|]. split_and!; try done. split_and!; [by rewrite Hel, blen_be|done|]. eauto.
Qed.

Lemma stream_sent ms : forall t, Forall fits ms -> cipher_ok (sendCipher t) ->
  exists t' bytes, send_all ms t = Ok (t', bytes) /\ carries (sendCipher t) ms bytes (sendCipher t') /\
    recvCipher t' = recvCipher t.
Proof.
  induction ms as [|m ms IH]; intros t Hf Hc.
  { exists t, []. split_and!; [done|constructor|done]. }
  apply Forall_cons in Hf as [Hm Hf]. destruct (packet_sent m t Hm Hc) as (t1 & el & eb & Hs & Hpk & Hc1 & Hr).
  destruct (IH t1 Hf Hc1) as (t' & bytes & Hsend & Hcar & Hr').
  exists t', (el ++ eb ++ bytes). cbn [send_all]. rewrite Hs, bind_Ok, Hsend, bind_Ok, <- app_assoc.
  split_and!; [done|by econstructor|congruence].
Qed.

(** What arrives of a stream so far, in whatever pieces, is delivered in order. *)
Lemma stream_delivered t t' ms chunks rest t1 bytes :
  sendCipher t = recvCipher t' -> Forall fits ms -> cipher_ok (sendCipher t) ->
  send_all ms t = Ok (t1, bytes) -> concat chunks ++ rest = bytes ->
  Forall (fun data => blen data <= MAX_READ_BUFFER - 65551) chunks ->
  exists ds ms' r, receive_all chunks (Reading (new_reader t')) = (ds, Reading r) /\ ms = ds ++ ms' /\
    (rest = [] -> ms' = [] /\ recvCipher (rd_transport r) = sendCipher t1).
Proof.
  intros Hends Hf Hc Hsend <- Hchunks. destruct (stream_sent ms t Hf Hc) as (t2 & bytes & Hs & Hcar & _).
  rewrite Hs in Hsend. injection Hsend as -> ->.
  destruct (chunks_received chunks (new_reader t') ms rest (sendCipher t1) Hchunks) as (ds & r & ms' & Hrun & -> & Hat & Hw).
  { left. split; [done|]. cbn. by rewrite <- Hends. }
  { done. }
  exists ds, ms', r. split_and!; [done|done|]. intros ->. by destruct (waiting_done _ _ _ Hat Hw) as (-> & _ & _ & ?).
Qed.

(** ** The key schedule *)

Fixpoint encrypt_all (plaintexts : list buffer) (c : CipherState) : result (CipherState * list buffer) :=
  match plaintexts with
  | [] => Ok (c, [])
  | p :: plaintexts =>
      '(c, b) ← encryptMessage p c;
      '(c, bs) ← encrypt_all plaintexts c;
      Ok (c, b :: bs)
  end.

(** The keys after a number of rotations. *)
Fixpoint rotations (n : nat) (chainingKey key : buffer) : result (buffer * buffer) :=
  match n with
  | 0%nat => Ok (chainingKey, key)
  | S n => '(ck, k) ← rotations n chainingKey key; hkdf2 ck k
  end.

(** The state of a cipher that has handled [n] messages. *)
Definition scheduled (ck0 k0 : buffer) (n : nat) (c : CipherState) : Prop :=
  rotations (n / 1000) ck0 k0 = Ok (cs_chainingKey c, cs_key c) /\ cs_nonce c = Z.of_nat (n mod 1000).

Lemma schedule_step ck0 k0 n c c' : scheduled ck0 k0 n c -> maybeRotateKey (next_nonce c) = Ok c' ->
  scheduled ck0 k0 (S n) c'.
Proof.
  intros [Hr Hn]. unfold maybeRotateKey. cbn [next_nonce cs_nonce cs_chainingKey cs_key].
  pose proof (Nat.div_mod n 1000 ltac:(lia)) as Hdm. pose proof (Nat.mod_upper_bound n 1000 ltac:(lia)) as Hub.
  destruct (Z.eqb_spec (cs_nonce c + 1) KEY_ROTATION_INTERVAL) as [E|E]; unfold KEY_ROTATION_INTERVAL in E.
  - assert ((S n / 1000)%nat = S (n / 1000) /\ (S n mod 1000)%nat = 0%nat) as [Ed Em].
    { apply Nat.div_mod_unique with (b := 1000%nat); [apply Nat.mod_upper_bound; lia|lia|].
      rewrite <- Nat.div_mod by lia. lia. }
    destruct (hkdf2 (cs_chainingKey c) (cs_key c)) as [[ck k]|] eqn:Eh; [|done]. intros [= <-].
    unfold scheduled. rewrite Ed, Em. cbn [rotations cs_chainingKey cs_key cs_nonce]. by rewrite Hr, bind_Ok, Eh.
  - intros [= <-].
    assert ((S n / 1000)%nat = (n / 1000)%nat /\ (S n mod 1000)%nat = S (n mod 1000)) as [Ed Em].
    { apply Nat.div_mod_unique with (b := 1000%nat); [apply Nat.mod_upper_bound; lia|lia|].
      rewrite <- Nat.div_mod by lia. lia. }
    unfold scheduled. rewrite Ed, Em. cbn [cs_chainingKey cs_key cs_nonce next_nonce]. split; [done|lia].
Qed.

(** The ciphertext of message [i]. *)
Definition under_schedule (ck0 k0 : buffer) (i : nat) (p b : buffer) : Prop :=
  exists ck k nonce, rotations (i / 1000) ck0 k0 = Ok (ck, k) /\
    nonceFromCounter (Z.of_nat (i mod 1000)) = Ok nonce /\ encrypt k nonce p [] = Ok b.

Lemma all_under_schedule ck0 k0 ps : forall n c, scheduled ck0 k0 n c -> cipher_ok c ->
  exists c' bs, encrypt_all ps c = Ok (c', bs) /\ length bs = length ps /\
    forall i p b, ps !! i = Some p -> bs !! i = Some b -> under_schedule ck0 k0 (n + i) p b.
Proof.
  induction ps as [|p ps IH]; intros n c Hs Hc.
  { exists c, []. split_and!; [done|done|]. intros i q b H. done. }
  destruct (message_carried c p Hc) as (c1 & b & He & _ & Hc1 & _). cbn [encrypt_all]. rewrite He, bind_Ok.
  unfold encryptMessage in He. destruct (nonceFromCounter (cs_nonce c)) as [nonce|] eqn:En; [|done].
  rewrite bind_Ok in He. destruct (encrypt (cs_key c) nonce p []) as [b'|] eqn:Ee; [|done]. rewrite bind_Ok in He.
  destruct (maybeRotateKey (next_nonce c)) as [c1'|] eqn:Er; [|done]. rewrite bind_Ok in He. injection He as -> ->.
  destruct (IH (S n) c1 (schedule_step _ _ _ _ _ Hs Er) Hc1) as (c' & bs & -> & Hl & Hall). rewrite bind_Ok.
  exists c', (b :: bs). split_and!; [done|cbn; by rewrite Hl|].
  intros [|i] q d Hq Hd.
  - injection Hq as <-. injection Hd as <-. rewrite Nat.add_0_r. destruct Hs as [Hr Hn]. rewrite Hn in En.
    by exists (cs_chainingKey c), (cs_key c), nonce.
  - rewrite <- Nat.add_succ_comm. by apply (Hall i).
Qed.

(** A direction of a connection never fails to encrypt, and message
    number i goes out under the key after i / 1000 rotations with the nonce i mod 1000, so
    no two messages share a key generation and a nonce. *)
Theorem cipher_key_schedule (c0 : CipherState) (plaintexts : list buffer) :
  cipher_ok c0 -> cs_nonce c0 = 0 ->
  exists c bs, encrypt_all plaintexts c0 = Ok (c, bs) /\ length bs = length plaintexts /\
    forall i p b, plaintexts !! i = Some p -> bs !! i = Some b ->
      under_schedule (cs_chainingKey c0) (cs_key c0) i p b.
Proof.
  intros Hc H0. apply (all_under_schedule _ _ plaintexts 0%nat c0); [|done]. by split; [|rewrite H0].
Qed.

(** C20: two peers with keys that agree complete the three acts, the
    responder learns the initiator's key (or finds the one it expects), and from then on, in both directions, as long as the
    socket keeps up, whatever
    one side sends and however the socket cuts it into pieces, the other side has at any
    moment handed on a prefix of the messages, in order and without an error, and all of
    them once all bytes are there. *)
Theorem connection_delivers (si Si sr Sr ei Ei er Er expected : buffer) :
  agreement si Si sr Sr ei Ei er Er -> expected = alloc 33 \/ expected = Si ->
  exists t t', handshake ecc_isPoint si sr Sr expected ei er = Ok (t, t', Si) /\
    forall sender receiver ms, (sender, receiver) ∈ [(t, t'); (t', t)] -> Forall fits ms ->
      exists sent bytes, send_all ms sender = Ok (sent, bytes) /\
        forall chunks rest, concat chunks ++ rest = bytes ->
          Forall (fun data => blen data <= MAX_READ_BUFFER - 65551) chunks ->
          exists ds ms' r, receive_all chunks (Reading (new_reader receiver)) = (ds, Reading r) /\
            ms = ds ++ ms' /\ (rest = [] -> ms' = []).
Proof.
  intros Hag Hexp. destruct (handshake_ends ecc_isPoint _ _ _ _ _ _ _ _ _ Hag Hexp) as (t & t' & Hhs & Hst & Htr & Hcs & Hcr).
  exists t, t'. split; [done|]. intros sender receiver ms Hin Hf.
  assert (sendCipher sender = recvCipher receiver /\ cipher_ok (sendCipher sender)) as [Hends Hok].
  { rewrite !elem_of_cons in Hin. destruct Hin as [[= -> ->]|[[= -> ->]|Hin]]; [done| |by apply elem_of_nil in Hin].
    by rewrite <- Htr. }
  destruct (stream_sent ms sender Hf Hok) as (sent & bytes & Hsend & _).
  exists sent, bytes. split; [done|]. intros chunks rest E Hch.
  destruct (stream_delivered sender receiver ms chunks rest sent bytes Hends Hf Hok Hsend E Hch)
    as (ds & ms' & r & Hrun & -> & Hdone).
  exists ds, ms', r. split_and!; [done|done|]. intros ->. by destruct Hdone.
Qed.

End Stream.

(** ** A connection to evaluate on *)

From S2P Require Import Onion BlindedRoute.

#[local] Existing Instances toy_curve toy_onion toy_laws toy_aead toy_aead_laws.

Definition toy_pub (n : Z) : buffer := x02 :: be 32 n.

Lemma toy_agreement : agreement (be 32 5) (toy_pub 5) (be 32 7) (toy_pub 7) (be 32 11) (toy_pub 11)
  (be 32 13) (toy_pub 13).
Proof. constructor; try (by vm_compute); by eexists; vm_compute. Qed.

Definition toy_messages : list IDecodedMessage :=
  [{| dm_type := 18; dm_payload := [x00; x01] |}; {| dm_type := 19; dm_payload := [] |}].

Lemma toy_messages_fit : Forall fits toy_messages.
Proof. repeat constructor; by vm_compute. Qed.

Lemma connection_delivers_witness :
  exists t t', handshake (fun _ => true) (be 32 5) (be 32 7) (toy_pub 7) (alloc 33) (be 32 11) (be 32 13) = Ok (t, t', toy_pub 5) /\
    exists sent bytes, send_all 0 toy_messages t' = Ok (sent, bytes) /\
      exists r, receive_all [take 30 bytes; drop 30 bytes] (Reading (new_reader t)) = (toy_messages, Reading r).
Proof.
  destruct (connection_delivers 0 ltac:(by vm_compute) _ _ _ _ _ _ _ _ (alloc 33) toy_agreement (or_introl eq_refl)) as (t & t' & Hhs & Hrun).
  exists t, t'. split; [exact Hhs|].
  destruct (Hrun t' t toy_messages) as (sent & bytes & Hsend & Hrecv); [by right; left|apply toy_messages_fit|].
  exists sent, bytes. split; [exact Hsend|].
  assert (blen bytes <= 76) as Hl.
  { revert Hhs Hsend. vm_compute (handshake _ _ _ _ _ _ _). intros [= <- <-]. vm_compute (send_all _ _ _).
    intros [= _ <-]. by vm_compute. }
  destruct (Hrecv [take 30 bytes; drop 30 bytes] []) as (ds & ms' & r & Hr & Hms & Hdone).
  - cbn. by rewrite !app_nil_r, take_drop.
  - unfold blen, MAX_READ_BUFFER in *. repeat constructor; rewrite ?length_take, ?length_drop; lia.
  - exists r. rewrite Hr, Hms, (Hdone eq_refl), app_nil_r. done.
Defined.

Lemma cipher_key_schedule_witness :
  exists c bs, encrypt_all (replicate 1001 [x2a]) {| cs_key := alloc 32; cs_nonce := 0; cs_chainingKey := alloc 32 |} = Ok (c, bs) /\
    length bs = 1001%nat /\
    forall i p b, replicate 1001 [x2a] !! i = Some p -> bs !! i = Some b -> under_schedule (alloc 32) (alloc 32) i p b.
Proof.
  exact (cipher_key_schedule {| cs_key := alloc 32; cs_nonce := 0; cs_chainingKey := alloc 32 |} (replicate 1001 [x2a])
    ltac:(split_and!; by vm_compute) eq_refl).
Defined.
