(* ===== verification/InvoiceAmount.v ===== *)
(** * The human-readable part of an invoice (src/src/lightning/invoice/amount.ts)

    A string is the list of its characters.  BigInt and its toString are decimal
    notation; [pretty] of stdpp is the latter. *)

From S2P Require Import Prelude CommitmentTx.
From stdpp Require Import pretty.
From Stdlib Require Import Strings.Ascii.
From Stdlib Require Strings.String.
Local Open Scope Z_scope.

Abbreviation chars := (list ascii).

(** A literal. *)
Definition str (s : string) : chars := String.list_ascii_of_string s.

(** [(n).toString()] of a bigint *)
Definition toString (n : Z) : chars := str (pretty n).

(** [\d] *)
Definition is_digit (c : ascii) : bool :=
  let n := Z.of_N (N_of_ascii c) in (48 <=? n) && (n <=? 57).

Definition digit_value (c : ascii) : Z := Z.of_N (N_of_ascii c) - 48.

(** [/^\d+$/.test(s)] *)
Definition is_number (s : chars) : bool := negb (Z.of_nat (length s) =? 0) && forallb is_digit s.

(** [BigInt(s)] of digits *)
Definition BigInt (s : chars) : Z := fold_left (fun acc c => acc * 10 + digit_value c) s 0.

(** ** amount.ts *)

Definition BTC_TO_MSAT : Z := 100000000000.

(** [MULTIPLIER_MSAT[c]] *)
Definition MULTIPLIER_MSAT (c : ascii) : option Z :=
  if decide (c = "m"%char) then Some 100000000
  else if decide (c = "u"%char) then Some 100000
  else if decide (c = "n"%char) then Some 100
  else if decide (c = "p"%char) then Some 1
  else None.

Definition MULTIPLIER_ORDER : list (ascii * Z) :=
  [("m"%char, 100000000); ("u"%char, 100000); ("n"%char, 100); ("p"%char, 1)].

Fixpoint msat_with (order : list (ascii * Z)) (amountMsat : Z) : result chars :=
  match order with
  | [] => Err "Cannot encode amount"
  | (suffix, msatPerUnit) :: order =>
      if decide (suffix = "p"%char) then Ok (toString (amountMsat * 10) ++ [suffix])
      else if Z.rem amountMsat msatPerUnit =? 0 then Ok (toString (Z.quot amountMsat msatPerUnit) ++ [suffix])
      else msat_with order amountMsat
  end.

Definition msatToHrpAmount (amountMsat : Z) : result chars :=
  _ ← throw_if (amountMsat <=? 0) "Amount must be positive";
  if Z.rem amountMsat BTC_TO_MSAT =? 0 then Ok (toString (Z.quot amountMsat BTC_TO_MSAT))
  else msat_with MULTIPLIER_ORDER amountMsat.

Definition leading_zero (s : chars) : bool :=
  (1 <? Z.of_nat (length s)) && match s with c :: _ => bool_decide (c = "0"%char) | [] => false end.

Definition parseHrpAmount (amountStr : chars) : result Z :=
  match last amountStr with
  | None => Err "Empty amount string"
  | Some lastChar =>
      match MULTIPLIER_MSAT lastChar with
      | Some multiplierMsat =>
          let digits := removelast amountStr in
          _ ← throw_if (negb (is_number digits)) "Invalid amount digits";
          _ ← throw_if (leading_zero digits) "Leading zeros in amount";
          let coefficient := BigInt digits in
          if decide (lastChar = "p"%char)
          then _ ← throw_if (negb (Z.rem coefficient 10 =? 0)) "Pico amount not divisible by 10 (sub-millisatoshi)";
               Ok (Z.quot coefficient 10)
          else Ok (coefficient * multiplierMsat)
      | None =>
          _ ← throw_if (negb (is_number amountStr)) "Invalid amount";
          _ ← throw_if (leading_zero amountStr) "Leading zeros in amount";
          Ok (BigInt amountStr * BTC_TO_MSAT)
      end
  end.

Definition hrpAmountToMsat (amountStr : chars) : result Z :=
  amountMsat ← parseHrpAmount amountStr;
  _ ← throw_if (amountMsat =? 0) "Amount must be positive";
  Ok amountMsat.

Inductive Network := MAINNET | TESTNET | REGTEST | SIGNET.

#[global] Instance network_dec : EqDecision Network.
Proof. solve_decision. Defined.

(** The value of the enumeration. *)
Definition network_prefix (n : Network) : chars :=
  match n with MAINNET => str "bc" | TESTNET => str "tb" | REGTEST => str "bcrt" | SIGNET => str "tbs" end.

Definition NETWORK_PREFIXES : list (chars * Network) :=
  [(str "bc", MAINNET); (str "tb", TESTNET); (str "bcrt", REGTEST); (str "tbs", SIGNET)].

(** [s.startsWith(prefix)], with what follows *)
Fixpoint after (prefix s : chars) : option chars :=
  match prefix, s with
  | [], s => Some s
  | c :: prefix, d :: s => if decide (c = d) then after prefix s else None
  | _ :: _, [] => None
  end.

Fixpoint try_prefixes (prefixes : list (chars * Network)) (afterLn : chars) : result (Network * option Z) :=
  match prefixes with
  | [] => Err "Unknown network prefix in HRP"
  | (prefix, network) :: prefixes =>
      match after prefix afterLn with
      | Some [] => Ok (network, None)
      | Some amountPart => msat ← hrpAmountToMsat amountPart; Ok (network, Some msat)
      | None => try_prefixes prefixes afterLn
      end
  end.

Definition parseHrp (hrp : chars) : result (Network * option Z) :=
  match after (str "ln") hrp with
  | None => Err "Invalid HRP: must start with ln"
  | Some afterLn =>
      let prefixes := sort (fun a b => Z.of_nat (length b.1) - Z.of_nat (length a.1)) NETWORK_PREFIXES in
      try_prefixes prefixes afterLn
  end.

Definition buildHrp (network : Network) (amountMsat : option Z) : result chars :=
  let base := str "ln" ++ network_prefix network in
  match amountMsat with
  | None => Ok base
  | Some msat => amount ← msatToHrpAmount msat; Ok (base ++ amount)
  end.

(** ** Decimal notation *)

Lemma str_cons c s : str (String c s) = c :: str s.
Proof. done. Qed.

Lemma digit_char d : (d < 10)%N ->
  is_digit (pretty_N_char d) = true /\ digit_value (pretty_N_char d) = Z.of_N d /\
  (pretty_N_char d = "0"%char -> d = 0%N).
Proof.
  intros H. assert (d = 0 \/ d = 1 \/ d = 2 \/ d = 3 \/ d = 4 \/ d = 5 \/ d = 6 \/ d = 7 \/ d = 8 \/ d = 9)%N as Hd by lia.
  destruct_or! Hd; subst; vm_compute; done.
Qed.

Lemma BigInt_snoc s c : BigInt (s ++ [c]) = BigInt s * 10 + digit_value c.
Proof. unfold BigInt. by rewrite fold_left_app. Qed.

(** What the digits of a positive number are. *)
Record decimal (ds : chars) (n : Z) : Prop := {
  de_digits : forallb is_digit ds = true;
  de_value : BigInt ds = n;
  de_head : exists c ds', ds = c :: ds' /\ c <> "0"%char
}.

Lemma pretty_go_decimal x : (0 < x)%N -> forall s, exists ds, str (pretty_N_go x s) = ds ++ str s /\ decimal ds (Z.of_N x).
Proof.
  induction (N.lt_wf_0 x) as [x _ IH]. intros Hx s. rewrite pretty_N_go_step by done.
  pose proof (N.mod_lt x 10 ltac:(lia)) as Hm. destruct (digit_char _ Hm) as (Hd & Hv & H0).
  pose proof (N.div_mod x 10 ltac:(lia)) as Hdm.
  destruct (N.eq_dec (x / 10)%N 0%N) as [E|E].
  - rewrite E. exists [pretty_N_char (x mod 10)%N]. rewrite pretty_N_go_0. split; [done|]. constructor.
    + cbn. by rewrite Hd.
    + unfold BigInt. cbn. lia.
    + eexists _, _. split; [done|]. intros Hc%H0. lia.
  - destruct (IH (x / 10)%N) with (s := String (pretty_N_char (x mod 10)%N) s) as (ds & Hs & [Hdig Hval (c & ds' & -> & Hc)]);
      [apply N.div_lt; lia|lia|].
    exists ((c :: ds') ++ [pretty_N_char (x mod 10)%N]). rewrite Hs, str_cons. split; [by rewrite <- app_assoc|]. constructor.
    + rewrite forallb_app, Hdig. cbn. by rewrite Hd.
    + rewrite BigInt_snoc, Hval. lia.
    + by eexists _, _.
Qed.

Lemma toString_decimal n : 0 < n -> decimal (toString n) n.
Proof.
  intros Hn. destruct n as [|p|p]; try lia. unfold toString. change (pretty (Z.pos p)) with (pretty (N.pos p)).
  change (pretty (N.pos p)) with (pretty_N_go (N.pos p) EmptyString). destruct (pretty_go_decimal (N.pos p) ltac:(lia) EmptyString) as (ds & -> & Hd).
  cbn. by rewrite app_nil_r.
Qed.

Lemma decimal_number ds n : decimal ds n -> is_number ds = true /\ leading_zero ds = false /\
  exists l, last ds = Some l /\ MULTIPLIER_MSAT l = None.
Proof.
  intros [Hdig _ (c & ds' & -> & Hc)]. split_and!.
  - unfold is_number. by rewrite Hdig.
  - unfold leading_zero. rewrite bool_decide_false by done. apply andb_false_r.
  - destruct (last (c :: ds')) as [l|] eqn:E; [|by apply last_None in E]. exists l. split; [done|].
    apply last_Some in E as [pre E]. rewrite E, forallb_app in Hdig. cbn in Hdig. rewrite andb_true_r in Hdig.
    apply andb_prop in Hdig as [_ Hl]. unfold MULTIPLIER_MSAT.
    repeat (case_decide; [subst; by vm_compute in Hl|]). done.
Qed.

Lemma parse_whole ds n : decimal ds n -> parseHrpAmount ds = Ok (n * BTC_TO_MSAT).
Proof.
  intros Hd. destruct (decimal_number _ _ Hd) as (Hn & Hz & l & Hl & Hm). unfold parseHrpAmount. rewrite Hl, Hm, Hn, Hz.
  by rewrite !throw_pass, (de_value _ _ Hd).
Qed.

Lemma parse_suffix ds n c k : decimal ds n -> MULTIPLIER_MSAT c = Some k -> c <> "p"%char ->
  parseHrpAmount (ds ++ [c]) = Ok (n * k).
Proof.
  intros Hd Hk Hc. destruct (decimal_number _ _ Hd) as (Hn & Hz & _). unfold parseHrpAmount.
  rewrite last_snoc, Hk, removelast_last, Hn, Hz, !throw_pass, decide_False by done. by rewrite (de_value _ _ Hd).
Qed.

Lemma parse_pico ds n : decimal ds (n * 10) -> parseHrpAmount (ds ++ ["p"%char]) = Ok n.
Proof.
  intros Hd. destruct (decimal_number _ _ Hd) as (Hn & Hz & _). unfold parseHrpAmount.
  rewrite last_snoc, removelast_last, Hn, Hz. cbn [MULTIPLIER_MSAT]. rewrite (de_value _ _ Hd).
  assert (Z.rem (n * 10) 10 = 0) as E by (apply Z.rem_mul; lia).
  change (MULTIPLIER_MSAT "p"%char) with (Some 1). rewrite E, !throw_pass, decide_True by done.
  by rewrite Z.quot_mul.
Qed.

Lemma whole_units n k : 0 < n -> 0 < k -> Z.rem n k = 0 -> 0 < Z.quot n k /\ Z.quot n k * k = n.
Proof.
  intros Hn Hk Hr. pose proof (Z.quot_rem n k ltac:(lia)) as E. rewrite Hr in E.
  assert (Z.quot n k * k = n) by lia. split; [|done]. nia.
Qed.

(** A text that is read as [n], and looks like an amount. *)
Record reads_as (s : chars) (n : Z) : Prop := {
  ra_value : hrpAmountToMsat s = Ok n;
  ra_head : match s with c :: _ => is_digit c = true | [] => False end;
  ra_chars : Forall (fun c => is_digit c = true \/ c ∈ str "munp") s
}.

Lemma reads_with ds m suffix n : 0 < n -> decimal ds m -> Forall (fun c => c ∈ str "munp") suffix ->
  parseHrpAmount (ds ++ suffix) = Ok n -> reads_as (ds ++ suffix) n.
Proof.
  intros Hn Hd Hs Hp. destruct (de_head _ _ Hd) as (c & ds' & -> & _). pose proof (de_digits _ _ Hd) as Hdig. constructor.
  - unfold hrpAmountToMsat. rewrite Hp, bind_Ok, throw_pass; [done|]. apply Z.eqb_neq. lia.
  - cbn in *. by apply andb_prop in Hdig as [? _].
  - apply Forall_app. split.
    + apply Forall_forall. intros x Hx. left. rewrite forallb_forall in Hdig. by apply Hdig, list_elem_of_In.
    + eapply Forall_impl; [exact Hs|]. auto.
Qed.

Lemma reads_unit n k c : 0 < n -> 0 < k -> MULTIPLIER_MSAT c = Some k -> c <> "p"%char -> c ∈ str "munp" -> Z.rem n k = 0 ->
  reads_as (toString (Z.quot n k) ++ [c]) n.
Proof.
  intros Hn Hk Hm Hp Hin Hr. destruct (whole_units n k Hn Hk Hr) as [Hq E]. pose proof (toString_decimal _ Hq) as Hd.
  apply (reads_with _ (Z.quot n k)); [done|done|by apply Forall_singleton|]. by rewrite (parse_suffix _ _ _ _ Hd Hm Hp), E.
Qed.

(** Every amount that is written is read back. *)
Lemma amount_read n : 0 < n -> exists s, msatToHrpAmount n = Ok s /\ reads_as s n.
Proof.
  intros Hn. unfold msatToHrpAmount. rewrite throw_pass by (apply Z.leb_gt; lia).
  destruct (Z.eqb_spec (Z.rem n BTC_TO_MSAT) 0) as [E|_].
  { destruct (whole_units n BTC_TO_MSAT Hn ltac:(done) E) as [Hq Hm]. pose proof (toString_decimal _ Hq) as Hd.
    eexists. split; [reflexivity|]. rewrite <- (app_nil_r (toString _)). eapply reads_with; [done|done|constructor|].
    by rewrite app_nil_r, (parse_whole _ _ Hd), Hm. }
  cbn [msat_with MULTIPLIER_ORDER]. rewrite !decide_False by done. rewrite decide_True by done.
  destruct (Z.eqb_spec (Z.rem n 100000000) 0) as [E|_]; [eexists; split; [reflexivity|]; apply reads_unit; try done; by apply (bool_decide_unpack _); vm_compute|].
  destruct (Z.eqb_spec (Z.rem n 100000) 0) as [E|_]; [eexists; split; [reflexivity|]; apply reads_unit; try done; by apply (bool_decide_unpack _); vm_compute|].
  destruct (Z.eqb_spec (Z.rem n 100) 0) as [E|_]; [eexists; split; [reflexivity|]; apply reads_unit; try done; by apply (bool_decide_unpack _); vm_compute|].
  pose proof (toString_decimal (n * 10) ltac:(lia)) as Hd. eexists. split; [reflexivity|].
  apply (reads_with _ (n * 10)); [done|done|apply Forall_singleton; by apply (bool_decide_unpack _); vm_compute|by apply parse_pico].
Qed.

(** ** The whole prefix *)

Lemma after_app p s : after p (p ++ s) = Some s.
Proof. induction p as [|c p IH]; [done|]. cbn. by rewrite decide_True. Qed.

#[local] Opaque hrpAmountToMsat.

(** The human-readable part of an invoice is read back. *)
Lemma hrp_read network amount : match amount with Some n => 0 < n | None => True end ->
  exists hrp, buildHrp network amount = Ok hrp /\ parseHrp hrp = Ok (network, amount).
Proof.
  intros Ha. unfold buildHrp. destruct amount as [n|].
  - destruct (amount_read n Ha) as (s & -> & [Hv Hhead _]). rewrite bind_Ok. eexists. split; [reflexivity|].
    destruct s as [|c s]; [done|]. unfold parseHrp. rewrite <- app_assoc, after_app.
    assert (forall d, is_digit d = false -> d <> c) as Hne by (intros d Hd ->; congruence).
    change (sort _ NETWORK_PREFIXES) with [(str "bcrt", REGTEST); (str "tbs", SIGNET); (str "bc", MAINNET); (str "tb", TESTNET)].
    pose proof (Hne "r"%char eq_refl). pose proof (Hne "s"%char eq_refl).
    destruct network; cbn; repeat first [rewrite decide_True by done | rewrite decide_False by done]; by rewrite Hv.
  - eexists. split; [reflexivity|]. by destruct network.
Qed.
