(* ===== verification/Text.v ===== *)
(** * Text

    JavaScript strings with their UTF-8 bytes, and hexadecimal text. *)

From S2P Require Import Prelude Buffer.
Local Open Scope Z_scope.

(** ** Strings and UTF-8 (what the sources use of JavaScript strings)

    A string is the list of its UTF-16 code units.  [Buffer.from(s, 'utf8')] and
    [buf.toString('utf8')] follow the WHATWG encoding standard: a lone surrogate
    is written as U+FFFD, and every maximal ill-formed sequence is read as it. *)

Abbreviation jsstring := (list Z).

Definition REPLACEMENT : Z := 0xFFFD.

Definition high_surrogate (u : Z) : bool := (0xD800 <=? u) && (u <=? 0xDBFF).
Definition low_surrogate (u : Z) : bool := (0xDC00 <=? u) && (u <=? 0xDFFF).

(** The scalar values of a string. *)
Fixpoint code_points (s : jsstring) : list Z :=
  match s with
  | [] => []
  | u :: s1 =>
      if high_surrogate u then
        match s1 with
        | v :: s2 =>
            if low_surrogate v then (0x10000 + (u - 0xD800) * 0x400 + (v - 0xDC00)) :: code_points s2
            else REPLACEMENT :: code_points s1
        | [] => [REPLACEMENT]
        end
      else if low_surrogate u then REPLACEMENT :: code_points s1
      else u :: code_points s1
  end.

Definition utf16 (cp : Z) : list Z :=
  if cp <? 0x10000 then [cp] else [0xD800 + (cp - 0x10000) / 0x400; 0xDC00 + (cp - 0x10000) mod 0x400].

Definition utf8 (cp : Z) : list Z :=
  if cp <? 0x80 then [cp]
  else if cp <? 0x800 then [0xC0 + cp / 64; 0x80 + cp mod 64]
  else if cp <? 0x10000 then [0xE0 + cp / 4096; 0x80 + cp / 64 mod 64; 0x80 + cp mod 64]
  else [0xF0 + cp / 262144; 0x80 + cp / 4096 mod 64; 0x80 + cp / 64 mod 64; 0x80 + cp mod 64].

(** [Buffer.from(s, 'utf8')] *)
Definition from_utf8 (s : jsstring) : buffer := map byte_of_Z (concat (map utf8 (code_points s))).

(** The decoder between two bytes of a sequence: the bytes still needed, the
    value so far, and the bounds of the next byte. *)
Record pending := { u_needed : nat; u_value : Z; u_lower : Z; u_upper : Z }.

Definition u_next (n : nat) (v lo hi : Z) : list Z * option pending :=
  ([], Some {| u_needed := n; u_value := v; u_lower := lo; u_upper := hi |}).

Definition first_byte (x : Z) : list Z * option pending :=
  if x <? 0x80 then ([x], None)
  else if x <? 0xC2 then ([REPLACEMENT], None)
  else if x <? 0xE0 then u_next 1 (x - 0xC0) 0x80 0xBF
  else if x <? 0xF0 then
    u_next 2 (x - 0xE0) (if x =? 0xE0 then 0xA0 else 0x80) (if x =? 0xED then 0x9F else 0xBF)
  else if x <? 0xF5 then
    u_next 3 (x - 0xF0) (if x =? 0xF0 then 0x90 else 0x80) (if x =? 0xF4 then 0x8F else 0xBF)
  else ([REPLACEMENT], None).

Fixpoint utf8_decode (st : option pending) (bytes : list Z) : list Z :=
  match bytes with
  | [] => match st with Some _ => [REPLACEMENT] | None => [] end
  | x :: bytes =>
      match st with
      | None => let '(out, st) := first_byte x in out ++ utf8_decode st bytes
      | Some p =>
          if (u_lower p <=? x) && (x <=? u_upper p) then
            let v := u_value p * 64 + (x - 0x80) in
            match u_needed p with
            | S (S n) => utf8_decode (Some {| u_needed := S n; u_value := v; u_lower := 0x80; u_upper := 0xBF |}) bytes
            | _ => v :: utf8_decode None bytes
            end
          else
            let '(out, st) := first_byte x in REPLACEMENT :: out ++ utf8_decode st bytes
      end
  end.

(** [buf.toString('utf8')] *)
Definition to_utf8 (b : buffer) : jsstring := concat (map utf16 (utf8_decode None (map Z_of_byte b))).

(** ** Well-formed strings are read back *)

(** Every surrogate is half of a pair ([s.isWellFormed()]). *)
Fixpoint isWellFormed (s : jsstring) : bool :=
  match s with
  | [] => true
  | u :: s1 =>
      (0 <=? u) && (u <? 0x10000) &&
      (if high_surrogate u then match s1 with v :: s2 => low_surrogate v && isWellFormed s2 | [] => false end
       else negb (low_surrogate u) && isWellFormed s1)
  end.

Definition scalar (cp : Z) : Prop := 0 <= cp < 0xD800 \/ 0xE000 <= cp < 0x110000.

Lemma scalar_utf8 cp : scalar cp -> Forall (fun x => 0 <= x < 256) (utf8 cp) /\
  forall rest, utf8_decode None (utf8 cp ++ rest) = cp :: utf8_decode None rest.
Proof.
  intros Hs. unfold scalar in Hs. unfold utf8.
  destruct (Z.ltb_spec cp 0x80); [|destruct (Z.ltb_spec cp 0x800); [|destruct (Z.ltb_spec cp 0x10000)]];
    (split; [repeat constructor; try lia; Z.to_euclidean_division_equations; lia|]);
    intros rest; cbn [app utf8_decode]; unfold first_byte;
    repeat match goal with
    | |- context [?a <? ?b] => first
        [rewrite (proj2 (Z.ltb_lt a b)) by (Z.to_euclidean_division_equations; lia)
        |rewrite (proj2 (Z.ltb_ge a b)) by (Z.to_euclidean_division_equations; lia)]
    end; try done; cbn [u_next u_needed u_value u_lower u_upper app];
    repeat match goal with
    | |- context [(?a <=? ?x) && (?x <=? ?b)] =>
        replace ((a <=? x) && (x <=? b)) with true
          by (symmetry; apply andb_true_intro; split; apply Z.leb_le; repeat case_match; bool_props;
              Z.to_euclidean_division_equations; lia)
    end; f_equal; Z.to_euclidean_division_equations; lia.
Qed.

Lemma utf8_read cps : Forall scalar cps -> utf8_decode None (concat (map utf8 cps)) = cps.
Proof.
  induction 1 as [|cp cps Hc _ IH]; [done|]. cbn [map concat]. by rewrite (proj2 (scalar_utf8 cp Hc)), IH.
Qed.

Lemma utf8_bytes cps : Forall scalar cps -> Forall (fun x => 0 <= x < 256) (concat (map utf8 cps)).
Proof.
  induction 1 as [|cp cps Hc _ IH]; [constructor|]. cbn [map concat]. apply Forall_app. split; [by apply scalar_utf8|done].
Qed.

Lemma bytes_of_values l : Forall (fun x => 0 <= x < 256) l -> map Z_of_byte (map byte_of_Z l) = l.
Proof.
  induction 1 as [|x l Hx _ IH]; [done|]. cbn [map]. by rewrite Z_of_byte_of_Z, Z.mod_small, IH.
Qed.

Lemma pair_read u v : high_surrogate u = true -> low_surrogate v = true ->
  let cp := 0x10000 + (u - 0xD800) * 0x400 + (v - 0xDC00) in scalar cp /\ utf16 cp = [u; v].
Proof.
  unfold high_surrogate, low_surrogate. intros. bool_props. cbn zeta. split; [unfold scalar; lia|]. unfold utf16.
  rewrite (proj2 (Z.ltb_ge _ _)) by lia. repeat f_equal; Z.to_euclidean_division_equations; lia.
Qed.

Lemma well_formed_points s : isWellFormed s = true ->
  Forall scalar (code_points s) /\ concat (map utf16 (code_points s)) = s.
Proof.
  remember (length s) as n eqn:Hn. revert s Hn. induction (lt_wf n) as [n _ IH]. intros [|u s] Hn; [by repeat constructor|].
  cbn [isWellFormed code_points]. intros [Hu Hs]%andb_prop. bool_props.
  destruct (high_surrogate u) eqn:Hh.
  - destruct s as [|v s]; [done|]. apply andb_prop in Hs as [Hv Hs]. rewrite Hv.
    destruct (pair_read u v Hh Hv) as [Hsc H16]. cbn [length] in Hn.
    destruct (IH (length s) ltac:(lia) s eq_refl Hs) as [Hf He]. split; [by constructor|].
    cbn [map concat]. by rewrite H16, He.
  - apply andb_prop in Hs as [Hl%negb_true_iff Hs]. rewrite Hl. cbn [length] in Hn.
    destruct (IH (length s) ltac:(lia) s eq_refl Hs) as [Hf He]. unfold high_surrogate, low_surrogate in *. split.
    + constructor; [|done]. unfold scalar. repeat match goal with H : _ && _ = false |- _ => apply andb_false_iff in H end.
      destruct_or! Hh; destruct_or! Hl; bool_props; lia.
    + cbn [map concat]. rewrite He. unfold utf16. by rewrite (proj2 (Z.ltb_lt _ _)).
Qed.

(** A string without lone surrogates is read back from its bytes. *)
Lemma utf8_roundtrip s : isWellFormed s = true -> to_utf8 (from_utf8 s) = s.
Proof.
  intros [Hf He]%well_formed_points. unfold to_utf8, from_utf8.
  by rewrite bytes_of_values, utf8_read by (by try apply utf8_bytes).
Qed.

(** ** Hexadecimal text ([buf.toString('hex')] and [Buffer.from(s, 'hex')]) *)

From Stdlib Require Import Strings.Byte Strings.Ascii Strings.String.
Local Open Scope Z_scope.

Definition hex_digits : string := "0123456789abcdef".

Definition hex_digit (v : Z) : ascii := default "0"%char (String.get (Z.to_nat v) hex_digits).

(** [buf.toString('hex')] *)
Fixpoint hex (b : buffer) : string :=
  match b with
  | [] => EmptyString
  | x :: b => String (hex_digit (Z_of_byte x / 16)) (String (hex_digit (Z_of_byte x mod 16)) (hex b))
  end.

Definition hex_value (c : ascii) : option Z :=
  let n := Z.of_N (N_of_ascii c) in
  if (48 <=? n) && (n <=? 57) then Some (n - 48)
  else if (97 <=? n) && (n <=? 102) then Some (n - 87)
  else if (65 <=? n) && (n <=? 70) then Some (n - 55)
  else None.

(** [Buffer.from(s, 'hex')]: the text is read up to the first pair that is not hexadecimal *)
Fixpoint unhex (s : string) : buffer :=
  match s with
  | String c (String d s) =>
      match hex_value c, hex_value d with
      | Some h, Some l => byte_of_Z (h * 16 + l) :: unhex s
      | _, _ => []
      end
  | _ => []
  end.

Lemma hex_digit_value v : 0 <= v < 16 -> hex_value (hex_digit v) = Some v.
Proof.
  intros Hv. rewrite <- (Z2Nat.id v) by lia. assert (Z.to_nat v < 16)%nat as Hn by lia. revert Hn. generalize (Z.to_nat v).
  intros n Hn. do 16 (destruct n as [|n]; [done|]). lia.
Qed.

Lemma unhex_hex b : unhex (hex b) = b.
Proof.
  induction b as [|x b IH]; [done|]. cbn [hex unhex]. pose proof (Z_of_byte_range x).
  rewrite !hex_digit_value by (Z.to_euclidean_division_equations; lia). rewrite IH. f_equal.
  replace (Z_of_byte x / 16 * 16 + Z_of_byte x mod 16) with (Z_of_byte x) by (Z.to_euclidean_division_equations; lia).
  apply byte_of_Z_of_byte.
Qed.

#[global] Instance hex_inj : Inj (=) (=) hex.
Proof. intros a b E. by rewrite <- (unhex_hex a), E, unhex_hex. Qed.
