(* ===== verification/InvoiceWords.v ===== *)
(** * Invoices: five-bit words and signatures
    (src/src/lightning/invoice/words.ts, signing.ts)

    The bech32 and secp256k1 libraries are parameters ([Bech32], [Noble]); the
    laws of their classes are what their documentation promises. *)

From S2P Require Import Prelude Buffer InvoiceAmount.
From Stdlib Require Import Strings.Ascii.
Local Open Scope Z_scope.

(** ** The libraries *)

Class Bech32 := {
  bech32_encode : chars -> list Z -> Z -> result chars;
  bech32_decode : chars -> Z -> result (chars * list Z);
  bech32_toWords : buffer -> list Z;
  bech32_fromWords : list Z -> result buffer
}.

(** A prefix bech32 carries unchanged: printable and without capitals. *)
Definition hrp_char (c : ascii) : bool :=
  let n := Z.of_N (N_of_ascii c) in (33 <=? n) && (n <=? 126) && negb ((65 <=? n) && (n <=? 90)).

Definition word5 (w : Z) : Prop := 0 <= w < 32.

Class Bech32Laws `{Bech32} : Prop := {
  bech32_read hrp words limit s : hrp <> [] -> forallb hrp_char hrp = true ->
    bech32_encode hrp words limit = Ok s -> bech32_decode s limit = Ok (hrp, words);
  bech32_words s limit hrp words : bech32_decode s limit = Ok (hrp, words) -> Forall word5 words;
  toWords_length b : Z.of_nat (length (bech32_toWords b)) = (8 * blen b + 4) / 5;
  fromWords_toWords b : bech32_fromWords (bech32_toWords b) = Ok b;
  fromWords_length words b : bech32_fromWords words = Ok b -> blen b = 5 * Z.of_nat (length words) / 8
}.

(** @noble/secp256k1 with [hmacSha256Sync] configured *)
Class Noble := {
  secp_signSync : buffer -> buffer -> result (buffer * Z);
  secp_getPublicKey : buffer -> result buffer;
  secp_recoverPublicKey : buffer -> buffer -> Z -> result buffer
}.

Class NobleLaws `{Noble} : Prop := {
  signed hash key sig recId : secp_signSync hash key = Ok (sig, recId) ->
    blen sig = 64 /\ 0 <= recId <= 3 /\
    exists pub, secp_getPublicKey key = Ok pub /\ secp_recoverPublicKey hash sig recId = Ok pub;
  recovered_length hash sig recId pub : secp_recoverPublicKey hash sig recId = Ok pub -> blen pub = 33
}.

(** ** words.ts *)

Section Words.
Context `{Bech32}.

Definition wordsToBuffer (words : list Z) : result buffer := bech32_fromWords words.

Definition bufferToWords (data : buffer) : list Z := bech32_toWords data.

End Words.

(** The loop from the last word to the first. *)
Fixpoint encodeUintToWords (value : Z) (wordCount : nat) : list Z :=
  match wordCount with
  | 0%nat => []
  | S n => encodeUintToWords (value / 32) n ++ [Z.land value 0x1f]
  end.

Definition decodeUintFromWords (words : list Z) : Z := fold_left (fun value w => value * 32 + w) words 0.

Definition encodeTaggedField (type : Z) (dataWords : list Z) : result (list Z) :=
  let len := Z.of_nat (length dataWords) in
  _ ← throw_if (1023 <? len) "Tagged field data length exceeds the BOLT 11 maximum of 1023 words";
  Ok ([type; Z.land (Z.shiftr len 5) 0x1f; Z.land len 0x1f] ++ dataWords).

(** [words[i]] inside the array *)
Definition word_at (words : list Z) (i : Z) : Z := default 0 (words !! Z.to_nat i).

(** [words.slice(s, e)] *)
Definition slice (words : list Z) (s e : Z) : list Z := take (Z.to_nat (e - s)) (drop (Z.to_nat s) words).

Definition decodeTaggedField (words : list Z) (offset : Z) : result (Z * list Z * Z) :=
  let size := Z.of_nat (length words) in
  _ ← throw_if (size <? offset + 3) "Tagged field truncated: not enough words for header";
  let type := word_at words offset in
  let len := word_at words (offset + 1) * 32 + word_at words (offset + 2) in
  let dataStart := offset + 3 in
  let dataEnd := dataStart + len in
  _ ← throw_if (size <? dataEnd) "Tagged field truncated";
  Ok (type, slice words dataStart dataEnd, dataEnd).

(** ** signing.ts *)

(** What a bitwise operator leaves of its result. *)
Definition int32 (z : Z) : Z := (z + 2 ^ 31) mod 2 ^ 32 - 2 ^ 31.

(** The variables of the loop of [wordsToSigningBytes]. *)
Record packing := { pk_value : Z; pk_bits : Z; pk_result : buffer }.

(** [while (bits >= 8)], which takes eight bits off at every turn *)
Fixpoint drain (fuel : nat) (p : packing) : packing :=
  match fuel with
  | 0%nat => p
  | S fuel =>
      if 8 <=? pk_bits p then
        let bits := pk_bits p - 8 in
        drain fuel {| pk_value := pk_value p; pk_bits := bits;
                      pk_result := pk_result p ++ [byte_of_Z (Z.land (Z.shiftr (pk_value p) bits) 0xff)] |}
      else p
  end.

Definition pack_word (p : packing) (w : Z) : packing :=
  let bits := pk_bits p + 5 in
  drain (Z.to_nat bits)
    {| pk_value := int32 (Z.lor (int32 (Z.shiftl (pk_value p) 5)) w); pk_bits := bits; pk_result := pk_result p |}.

Definition wordsToSigningBytes (words : list Z) : buffer :=
  let p := fold_left pack_word words {| pk_value := 0; pk_bits := 0; pk_result := [] |} in
  if 0 <? pk_bits p
  then pk_result p ++ [byte_of_Z (Z.land (int32 (Z.shiftl (pk_value p) (8 - pk_bits p))) 0xff)]
  else pk_result p.

(** [Buffer.from(hrp, 'utf8')] of ASCII text *)
Definition ascii_bytes (s : chars) : buffer := map (fun c => byte_of_Z (Z.of_N (N_of_ascii c))) s.

Section Signing.
Context `{Noble} (sha256 : buffer -> buffer).

Definition computeSigningHash (hrp : chars) (dataWords : list Z) : buffer :=
  let hrpBytes := ascii_bytes hrp in
  let dataBytes := wordsToSigningBytes dataWords in
  sha256 (hrpBytes ++ dataBytes).

Definition signInvoice (hrp : chars) (dataWords : list Z) (privateKey : buffer) : result buffer :=
  let hash := computeSigningHash hrp dataWords in
  '(sig, recId) ← secp_signSync hash privateKey;
  Ok (set_byte (copy sig (alloc 65) 0) 64 recId).

Definition getInvoiceSignerPubkey (privateKey : buffer) : result buffer := secp_getPublicKey privateKey.

Definition verifyInvoice (hrp : chars) (dataWords : list Z) (signature : buffer) : option buffer :=
  if negb (blen signature =? 65) then None
  else
    let hash := computeSigningHash hrp dataWords in
    let sig := subarray signature 0 64 in
    let recId := byte_at signature 64 in
    if 3 <? recId then None
    else match secp_recoverPublicKey hash sig recId with Ok pubkey => Some pubkey | Err _ => None end.

End Signing.

(** ** Numbers and fields are read back *)

Lemma decodeUint_snoc ws w : decodeUintFromWords (ws ++ [w]) = decodeUintFromWords ws * 32 + w.
Proof. unfold decodeUintFromWords. by rewrite fold_left_app. Qed.

Lemma land31 v : Z.land v 0x1f = v mod 32.
Proof. change 0x1f with (Z.ones 5). by rewrite Z.land_ones. Qed.

Lemma uint_words n : forall v, 0 <= v < 32 ^ Z.of_nat n ->
  decodeUintFromWords (encodeUintToWords v n) = v /\ length (encodeUintToWords v n) = n.
Proof.
  induction n as [|n IH]; intros v Hv; [unfold decodeUintFromWords; cbn in *; lia|].
  rewrite Nat2Z.inj_succ, Z.pow_succ_r in Hv by lia. cbn [encodeUintToWords].
  destruct (IH (v / 32)) as [Hd Hl]; [Z.to_euclidean_division_equations; lia|].
  rewrite decodeUint_snoc, Hd, length_app, Hl, land31. cbn. split; [|lia]. Z.to_euclidean_division_equations; lia.
Qed.

Lemma decodeUint_bound ws : Forall word5 ws -> 0 <= decodeUintFromWords ws < 32 ^ Z.of_nat (length ws).
Proof.
  induction ws as [|w ws IH] using rev_ind; [intros _; unfold decodeUintFromWords; cbn; lia|]. intros [Hs Hw]%Forall_app.
  rewrite Forall_singleton in Hw. specialize (IH Hs). unfold word5 in Hw.
  rewrite decodeUint_snoc, length_app, Nat2Z.inj_add. cbn [length]. change (Z.of_nat 1) with 1.
  rewrite Z.pow_add_r by lia. change (32 ^ 1) with 32. lia.
Qed.

Lemma slice_mid (pre ws rest : list Z) s e : s = Z.of_nat (length pre) -> e = s + Z.of_nat (length ws) ->
  slice (pre ++ ws ++ rest) s e = ws.
Proof.
  intros -> ->. unfold slice. rewrite Nat2Z.id, drop_app_length.
  replace (Z.to_nat _) with (length ws) by lia. apply take_app_length.
Qed.

Lemma word_at_mid (pre rest : list Z) w i : i = Z.of_nat (length pre) -> word_at (pre ++ w :: rest) i = w.
Proof. intros ->. unfold word_at. by rewrite Nat2Z.id, list_lookup_middle. Qed.

Lemma tagged_field_read type ws b pre rest : encodeTaggedField type ws = Ok b ->
  decodeTaggedField (pre ++ b ++ rest) (Z.of_nat (length pre)) = Ok (type, ws, Z.of_nat (length (pre ++ b))).
Proof.
  intros Hb. unfold encodeTaggedField in Hb. inv_result. bool_props. set (len := Z.of_nat (length ws)) in *.
  set (h := Z.land (Z.shiftr len 5) 0x1f). set (l := Z.land len 0x1f).
  assert (h * 32 + l = len) as Hlen.
  { unfold h, l. rewrite !land31, Z.shiftr_div_pow2 by lia. change (2 ^ 5) with 32.
    assert (0 <= len) by (unfold len; lia). Z.to_euclidean_division_equations; lia. }
  clearbody h l. unfold decodeTaggedField. set (k := Z.of_nat (length pre)).
  assert (Z.of_nat (length (pre ++ (type :: h :: l :: ws) ++ rest)) = k + 3 + len + Z.of_nat (length rest)) as Hsz
    by (unfold k, len; rewrite !length_app; cbn [length]; lia).
  rewrite Hsz, throw_pass by (apply Z.ltb_ge; unfold len; lia).
  assert (word_at (pre ++ (type :: h :: l :: ws) ++ rest) k = type) as -> by (by apply word_at_mid).
  assert (word_at (pre ++ (type :: h :: l :: ws) ++ rest) (k + 1) = h) as ->
    by (change (pre ++ (type :: h :: l :: ws) ++ rest) with (pre ++ [type] ++ h :: (l :: ws) ++ rest); rewrite app_assoc;
        apply word_at_mid; rewrite length_app; unfold k; cbn; lia).
  assert (word_at (pre ++ (type :: h :: l :: ws) ++ rest) (k + 2) = l) as ->
    by (change (pre ++ (type :: h :: l :: ws) ++ rest) with (pre ++ [type; h] ++ l :: ws ++ rest); rewrite app_assoc;
        apply word_at_mid; rewrite length_app; unfold k; cbn; lia).
  rewrite Hlen, throw_pass by (apply Z.ltb_ge; lia). do 2 f_equal.
  - f_equal. change (type :: h :: l :: ws) with ([type; h; l] ++ ws). rewrite <- (app_assoc [type; h; l]), app_assoc. apply slice_mid; rewrite ?length_app; unfold k; cbn; lia.
  - rewrite !length_app. cbn [length]. unfold k, len. lia.
Qed.

(** ** The bytes that are signed *)

Lemma int32_mod z k : 0 <= k <= 32 -> int32 z mod 2 ^ k = z mod 2 ^ k.
Proof.
  intros Hk. unfold int32. rewrite Zminus_mod, (Z.mod_mod_divide _ (2 ^ 32)), <- Zminus_mod; [f_equal; lia|].
  exists (2 ^ (32 - k)). rewrite <- Z.pow_add_r by lia. f_equal. lia.
Qed.

Lemma shifted_in v w k : 0 <= k <= 12 -> word5 w ->
  int32 (Z.lor (int32 (Z.shiftl v 5)) w) mod 2 ^ k = (v * 32 + w) mod 2 ^ k.
Proof.
  intros Hk Hw. rewrite int32_mod by lia. set (m := int32 (Z.shiftl v 5)).
  assert (exists a, m = Z.shiftl a 5) as [a Ha].
  { exists (m / 32). rewrite Z.shiftl_mul_pow2 by lia. change (2 ^ 5) with 32.
    assert (m mod 2 ^ 5 = 0) as Hm; [|change (2 ^ 5) with 32 in Hm; Z.to_euclidean_division_equations; lia].
    unfold m. rewrite int32_mod by lia. by rewrite Z.shiftl_mul_pow2, Z.mod_mul by lia. }
  rewrite Ha, lor_shiftl_add by (unfold word5 in Hw; lia). rewrite <- Z.shiftl_mul_pow2, <- Ha by lia. unfold m.
  rewrite Zplus_mod, int32_mod, <- Zplus_mod by lia. by rewrite Z.shiftl_mul_pow2 by lia.
Qed.

(** The state of the loop after the words [ws]. *)
Record packed (ws : list Z) (p : packing) : Prop := {
  pk_range : 0 <= pk_bits p < 8;
  pk_count : 8 * blen (pk_result p) + pk_bits p = 5 * Z.of_nat (length ws);
  pk_number : unbe (pk_result p) * 2 ^ pk_bits p + pk_value p mod 2 ^ pk_bits p = decodeUintFromWords ws
}.

Lemma land255 v : Z.land v 0xff = v mod 256.
Proof. change 0xff with (Z.ones 8). by rewrite Z.land_ones. Qed.

(** Cutting [v mod 2^(k+8)] into a byte and the [k] bits below it. *)
Lemma cut_byte v k : 0 <= k -> v mod 2 ^ (k + 8) = v / 2 ^ k mod 256 * 2 ^ k + v mod 2 ^ k.
Proof.
  intros Hk. rewrite Z.pow_add_r by lia. change (2 ^ 8) with 256.
  assert (0 < 2 ^ k) by lia. rewrite Z.rem_mul_r by lia. lia.
Qed.

Lemma packed_word ws p w : word5 w -> packed ws p -> packed (ws ++ [w]) (pack_word p w).
Proof.
  intros Hw [Hr Hc Hn]. unfold pack_word. set (v := int32 _). set (bits := pk_bits p + 5).
  assert (v mod 2 ^ bits = pk_value p mod 2 ^ pk_bits p * 32 + w) as Hv.
  { unfold v. rewrite shifted_in by (done || (unfold bits; lia)). unfold bits. rewrite Z.pow_add_r by lia. change (2 ^ 5) with 32.
    assert (0 < 2 ^ pk_bits p) by lia. unfold word5 in Hw. symmetry. apply Zmod_unique with (pk_value p / 2 ^ pk_bits p); [|Z.to_euclidean_division_equations; nia].
    pose proof (Z.mod_pos_bound (pk_value p) (2 ^ pk_bits p)). nia. }
  assert (decodeUintFromWords (ws ++ [w]) = unbe (pk_result p) * 2 ^ bits + v mod 2 ^ bits) as Hd.
  { rewrite decodeUint_snoc, <- Hn, Hv. unfold bits. rewrite Z.pow_add_r by lia. lia. }
  assert (5 * Z.of_nat (length (ws ++ [w])) = 8 * blen (pk_result p) + bits) as Hcnt
    by (rewrite length_app; cbn [length]; unfold bits; lia).
  destruct (Z.to_nat bits) as [|[|n]] eqn:E; [unfold bits in *; lia|unfold bits in *; lia|]. clear E. cbn [drain pk_bits pk_value pk_result].
  destruct (Z.leb_spec 8 bits) as [Hb|Hb].
  - rewrite (proj2 (Z.leb_gt 8 (bits - 8))) by (unfold bits; lia).
    constructor; cbn [pk_bits pk_value pk_result].
    + unfold bits in *. lia.
    + rewrite blen_app, Hcnt. change (blen [_]) with 1. lia.
    + rewrite Hd, unbe_snoc, Z_of_byte_of_Z, land255, Z.mod_mod, Z.shiftr_div_pow2 by lia.
      pose proof (cut_byte v (bits - 8) ltac:(lia)) as Hcut. replace (bits - 8 + 8) with bits in Hcut by lia. rewrite Hcut.
      replace (2 ^ bits) with (256 * 2 ^ (bits - 8)) by (change 256 with (2 ^ 8); rewrite <- Z.pow_add_r by lia; f_equal; lia). lia.
  - constructor; cbn [pk_bits pk_value pk_result]; unfold bits in *; lia.
Qed.

Lemma packed_all ws : Forall word5 ws ->
  packed ws (fold_left pack_word ws {| pk_value := 0; pk_bits := 0; pk_result := [] |}).
Proof.
  induction ws as [|w ws IH] using rev_ind; [intros _; by constructor|]. intros [Hs Hw]%Forall_app.
  rewrite fold_left_app. apply packed_word; [by rewrite Forall_singleton in Hw|by apply IH].
Qed.

(** The bytes of an invoice that are hashed for its
    signature are its words as one binary number, padded with zero bits on the
    right up to a whole byte and no further: the int32 accumulator of the loop
    overflows without touching a bit that is still to be written. *)
Theorem signing_bytes_exact (ws : list Z) (Hws : Forall word5 ws) :
  let bits := 5 * Z.of_nat (length ws) in
  let b := wordsToSigningBytes ws in
  blen b = (bits + 7) / 8 /\ unbe b = decodeUintFromWords ws * 2 ^ (8 * blen b - bits).
Proof.
  destruct (packed_all ws Hws) as [Hr Hc Hn]. cbn zeta. unfold wordsToSigningBytes.
  set (p := fold_left _ _ _) in *. destruct (Z.ltb_spec 0 (pk_bits p)) as [Hb|Hb].
  - rewrite blen_app, unbe_snoc. change (blen [_]) with 1.
    assert (blen (pk_result p) + 1 = (5 * Z.of_nat (length ws) + 7) / 8) as E by (Z.to_euclidean_division_equations; lia).
    split; [done|]. replace (8 * (blen (pk_result p) + 1) - 5 * Z.of_nat (length ws)) with (8 - pk_bits p) by lia.
    rewrite <- Hn, Z_of_byte_of_Z, land255, Z.mod_mod by lia. change 256 with (2 ^ 8). rewrite int32_mod, Z.shiftl_mul_pow2 by lia.
    replace (2 ^ 8) with (2 ^ pk_bits p * 2 ^ (8 - pk_bits p)) by (rewrite <- Z.pow_add_r by lia; f_equal; lia).
    assert (0 < 2 ^ pk_bits p) by lia. assert (0 < 2 ^ (8 - pk_bits p)) by lia.
    rewrite Z.mul_mod_distr_r by lia. lia.
  - assert (pk_bits p = 0) as E by lia. rewrite E in *. split; [Z.to_euclidean_division_equations; lia|].
    replace (8 * blen (pk_result p) - 5 * Z.of_nat (length ws)) with 0 by lia. rewrite Z.mod_1_r in Hn. lia.
Qed.

Lemma signing_bytes_exact_witness :
  let ws := [1; 31; 0; 16] in
  blen (wordsToSigningBytes ws) = 3 /\ unbe (wordsToSigningBytes ws) = decodeUintFromWords ws * 16.
Proof.
  apply (signing_bytes_exact [1; 31; 0; 16]). repeat (constructor; [unfold word5; lia|]). constructor.
Defined.
