(* ===== verification/Invoice.v ===== *)
(** * BOLT 11 invoices (src/src/lightning/invoice/types.ts, encode.ts, decode.ts)

    [encode] builds and signs an invoice, [decode] reads one.  The clock is an
    argument of [encode]; hashes, curve points, bech32 and secp256k1 are
    parameters. *)

From S2P Require Import Prelude Buffer Codec Wire Features BlindedPath InvoiceAmount InvoiceWords Text.
Local Open Scope Z_scope.

(** ** types.ts *)

Definition PAYMENT_HASH : Z := 1.
Definition ROUTING_INFO : Z := 3.
Definition FEATURE_BITS : Z := 5.
Definition EXPIRY : Z := 6.
Definition FALLBACK_ADDRESS : Z := 9.
Definition DESCRIPTION : Z := 13.
Definition PAYMENT_SECRET : Z := 16.
Definition PAYEE_PUBKEY : Z := 19.
Definition DESCRIPTION_HASH : Z := 23.
Definition MIN_FINAL_CLTV_EXPIRY : Z := 24.
Definition BLINDED_PATHS : Z := 25.
Definition METADATA : Z := 27.

Record IRoutingHintHop := {
  rh_pubkey : buffer;
  rh_shortChannelId : buffer;
  rh_feeBaseMsat : Z;
  rh_feeProportionalMillionths : Z;
  rh_cltvExpiryDelta : Z
}.

Record IFallbackAddress := { fa_version : Z; fa_hash : buffer }.

Record IInvoice := {
  i_network : Network;
  i_amountMsat : option Z;
  i_timestamp : Z;
  i_paymentHash : buffer;
  i_paymentSecret : option buffer;
  i_description : option jsstring;
  i_descriptionHash : option buffer;
  i_payeeNodeKey : option buffer;
  i_expiry : option Z;
  i_minFinalCltvExpiry : option Z;
  i_fallbackAddress : option IFallbackAddress;
  i_routingHints : option (list (list IRoutingHintHop));
  i_blindedPaths : option (list IBlindedPaymentPath);
  i_featureBits : option FeatureFlags;
  i_metadata : option buffer;
  i_signature : buffer;
  i_recoveredPubkey : option buffer;
  i_unknownTags : option (list (Z * list Z))
}.

Record IInvoiceCreationOptions := {
  o_network : Network;
  o_amountMsat : option Z;
  o_timestamp : option Z;
  o_paymentHash : buffer;
  o_paymentSecret : option buffer;
  o_description : option jsstring;
  o_descriptionHash : option buffer;
  o_expiry : option Z;
  o_minFinalCltvExpiry : option Z;
  o_fallbackAddress : option IFallbackAddress;
  o_routingHints : option (list (list IRoutingHintHop));
  o_blindedPaths : option (list IBlindedPaymentPath);
  o_featureBits : option FeatureFlags;
  o_metadata : option buffer;
  o_payeeNodeKey : option buffer;
  o_privateKey : buffer
}.

Definition BECH32_MAX_LIMIT : Z := 65535.
Definition TIMESTAMP_WORDS : Z := 7.
Definition SIGNATURE_WORDS : Z := 104.
Definition ROUTING_HOP_BYTES : Z := 51.

Section Invoice.
Context `{Bech32} `{Noble} (sha256 : buffer -> buffer) (ecc_isPoint : buffer -> bool).

(** ** encode.ts *)

(** [while (v > 0) words.unshift(...)]; every turn takes five bits *)
Fixpoint var_int (fuel : nat) (v : Z) (words : list Z) : list Z :=
  match fuel with
  | 0%nat => words
  | S fuel => if 0 <? v then var_int fuel (v / 32) (Z.land v 0x1f :: words) else words
  end.

Definition encodeVarInt (value : Z) : list Z :=
  if value =? 0 then [0] else var_int (S (Z.to_nat (Z.log2 value))) value [].

Definition write_hop (st : buffer * Z) (hop : IRoutingHintHop) : result (buffer * Z) :=
  let '(buf, offset) := st in
  let buf := copy (rh_pubkey hop) buf offset in
  let buf := copy (rh_shortChannelId hop) buf (offset + 33) in
  buf ← writeUInt32BE buf (rh_feeBaseMsat hop) (offset + 41);
  buf ← writeUInt32BE buf (rh_feeProportionalMillionths hop) (offset + 45);
  buf ← writeUInt16BE buf (rh_cltvExpiryDelta hop) (offset + 49);
  Ok (buf, offset + ROUTING_HOP_BYTES).

Definition encodeRoutingInfo (hops : list IRoutingHintHop) : result (list Z) :=
  '(buf, _) ← foldM write_hop (alloc (Z.of_nat (length hops) * ROUTING_HOP_BYTES), 0) hops;
  Ok (bufferToWords buf).

Definition encodeFallbackAddress (addr : IFallbackAddress) : list Z := fa_version addr :: bufferToWords (fa_hash addr).

Definition set_word_bit (wordCount : Z) (words : list Z) (bit : Z) : list Z :=
  let wordIdx := wordCount - 1 - bit / 5 in
  let bitIdx := bit mod 5 in
  <[Z.to_nat wordIdx := Z.lor (word_at words wordIdx) (Z.shiftl 1 bitIdx)]> words.

Definition encodeFeatureBits (features : FeatureFlags) : list Z :=
  let setBits := listSetBits features in
  match last setBits with
  | None => [0]
  | Some maxBit =>
      let wordCount := (maxBit + 1 + 4) / 5 in
      fold_left (set_word_bit wordCount) setBits (replicate (Z.to_nat wordCount) 0)
  end.

(** [if (options.x) dataWords.push(...)]: what is pushed *)
Definition when {X} (x : option X) (f : X -> result (list Z)) : result (list Z) :=
  match x with Some x => f x | None => Ok [] end.

Definition encode (now : Z) (options : IInvoiceCreationOptions) : result chars :=
  _ ← throw_if (negb (blen (o_paymentHash options) =? 32)) "paymentHash must be 32 bytes";
  _ ← throw_if (bool_decide (is_Some (o_description options)) && bool_decide (is_Some (o_descriptionHash options)))
        "Cannot specify both description and descriptionHash";
  _ ← throw_if (bool_decide (o_description options = None) && bool_decide (o_descriptionHash options = None))
        "Must specify either description or descriptionHash";
  hrp ← buildHrp (o_network options) (o_amountMsat options);
  let timestamp := default now (o_timestamp options) in
  let ts := encodeUintToWords timestamp (Z.to_nat TIMESTAMP_WORDS) in
  p ← encodeTaggedField PAYMENT_HASH (bufferToWords (o_paymentHash options));
  s ← when (o_paymentSecret options) (fun secret =>
        _ ← throw_if (negb (blen secret =? 32)) "paymentSecret must be 32 bytes";
        encodeTaggedField PAYMENT_SECRET (bufferToWords secret));
  d ← match o_description options with
      | Some description => encodeTaggedField DESCRIPTION (bufferToWords (from_utf8 description))
      | None => when (o_descriptionHash options) (fun hash =>
          _ ← throw_if (negb (blen hash =? 32)) "descriptionHash must be 32 bytes";
          encodeTaggedField DESCRIPTION_HASH (bufferToWords hash))
      end;
  n ← when (o_payeeNodeKey options) (fun key =>
        _ ← throw_if (negb (blen key =? 33)) "payeeNodeKey must be 33 bytes";
        encodeTaggedField PAYEE_PUBKEY (bufferToWords key));
  x ← when (o_expiry options) (fun expiry => encodeTaggedField EXPIRY (encodeVarInt expiry));
  c ← when (o_minFinalCltvExpiry options) (fun delta => encodeTaggedField MIN_FINAL_CLTV_EXPIRY (encodeVarInt delta));
  f ← when (o_featureBits options) (fun features => encodeTaggedField FEATURE_BITS (encodeFeatureBits features));
  a ← when (o_fallbackAddress options) (fun addr => encodeTaggedField FALLBACK_ADDRESS (encodeFallbackAddress addr));
  r ← when (o_routingHints options) (fun routes =>
        routes ← mapM (fun route => info ← encodeRoutingInfo route; encodeTaggedField ROUTING_INFO info) routes;
        Ok (concat routes));
  b ← when (o_blindedPaths options) (fun paths =>
        if 0 <? Z.of_nat (length paths)
        then bytes ← encodeInvoiceBlindedPaymentPaths paths; encodeTaggedField BLINDED_PATHS (bufferToWords bytes)
        else Ok []);
  m ← when (o_metadata options) (fun metadata => encodeTaggedField METADATA (bufferToWords metadata));
  let dataWords := ts ++ (p ++ s ++ d ++ n ++ x ++ c ++ f ++ a ++ r ++ b ++ m) in
  sigBytes ← signInvoice sha256 hrp dataWords (o_privateKey options);
  let sigWords := bufferToWords sigBytes in
  let allWords := dataWords ++ sigWords in
  bech32_encode hrp allWords BECH32_MAX_LIMIT.

(** ** decode.ts *)

(** [FIXED_LENGTH_TAG_WORDS[type]] *)
Definition FIXED_LENGTH_TAG_WORDS (type : Z) : option Z :=
  if type =? PAYMENT_HASH then Some 52
  else if type =? PAYMENT_SECRET then Some 52
  else if type =? DESCRIPTION_HASH then Some 52
  else if type =? PAYEE_PUBKEY then Some 53
  else None.

Definition decodeFixedLengthHash (words : list Z) (expectedBytes : Z) : result buffer :=
  buf ← wordsToBuffer words;
  _ ← throw_if (blen buf <? expectedBytes) "Fixed-length field too short";
  Ok (subarray buf 0 expectedBytes).

Definition decodeDescription (words : list Z) : result jsstring :=
  buf ← wordsToBuffer words;
  Ok (to_utf8 buf).

Definition decodePayeeNodeKey (words : list Z) : result buffer :=
  buf ← wordsToBuffer words;
  _ ← throw_if (blen buf <? 33) "Expected 33-byte pubkey";
  Ok (subarray buf 0 33).

Definition decodeFallbackAddress (words : list Z) : result IFallbackAddress :=
  match words with
  | [] => Err "Fallback address field is empty"
  | version :: words => hash ← wordsToBuffer words; Ok {| fa_version := version; fa_hash := hash |}
  end.

(** [while (offset + ROUTING_HOP_BYTES <= data.length)] *)
Fixpoint read_hops (fuel : nat) (data : buffer) (offset : Z) : result (list IRoutingHintHop) :=
  match fuel with
  | 0%nat => Ok []
  | S fuel =>
      if offset + ROUTING_HOP_BYTES <=? blen data then
        feeBaseMsat ← readUInt32BE data (offset + 41);
        feeProportionalMillionths ← readUInt32BE data (offset + 45);
        cltvExpiryDelta ← readUInt16BE data (offset + 49);
        hops ← read_hops fuel data (offset + ROUTING_HOP_BYTES);
        Ok ({| rh_pubkey := subarray data offset (offset + 33);
               rh_shortChannelId := subarray data (offset + 33) (offset + 41);
               rh_feeBaseMsat := feeBaseMsat; rh_feeProportionalMillionths := feeProportionalMillionths;
               rh_cltvExpiryDelta := cltvExpiryDelta |} :: hops)
      else Ok []
  end.

Definition decodeRoutingInfo (words : list Z) : result (list IRoutingHintHop) :=
  data ← wordsToBuffer words;
  read_hops (length data) data 0.

Definition read_word_bit (w wordBitBase : Z) (ff : FeatureFlags) (b : Z) : result FeatureFlags :=
  if negb (Z.land w (Z.shiftl 1 b) =? 0) then setBit ff (wordBitBase + b) else Ok ff.

(** From the last word to the first. *)
Fixpoint read_feature_words (words : list Z) (wordBitBase : Z) (ff : FeatureFlags) : result FeatureFlags :=
  match words with
  | [] => Ok ff
  | w :: words =>
      ff ← foldM (read_word_bit w wordBitBase) ff [0; 1; 2; 3; 4];
      read_feature_words words (wordBitBase + 5) ff
  end.

Definition decodeFeatureBits (words : list Z) : result FeatureFlags := read_feature_words (reverse words) 0 Features.empty.

(** The variables of the loop of [decode]: the fields of [result], [routingHints],
    [blindedPaths] and [unknownTags]. *)
Record partial := {
  r_paymentHash : option buffer;
  r_paymentSecret : option buffer;
  r_description : option jsstring;
  r_descriptionHash : option buffer;
  r_payeeNodeKey : option buffer;
  r_expiry : option Z;
  r_minFinalCltvExpiry : option Z;
  r_fallbackAddress : option IFallbackAddress;
  r_featureBits : option FeatureFlags;
  r_metadata : option buffer;
  r_routingHints : list (list IRoutingHintHop);
  r_blindedPaths : option (list IBlindedPaymentPath);
  r_unknownTags : list (Z * list Z)
}.

Definition no_fields : partial :=
  {| r_paymentHash := None; r_paymentSecret := None; r_description := None; r_descriptionHash := None;
     r_payeeNodeKey := None; r_expiry := None; r_minFinalCltvExpiry := None; r_fallbackAddress := None;
     r_featureBits := None; r_metadata := None; r_routingHints := []; r_blindedPaths := None;
     r_unknownTags := [] |}.

Definition set_paymentHash (v : option buffer) (r : partial) : partial :=
  {| r_paymentHash := v; r_paymentSecret := r_paymentSecret r; r_description := r_description r;
     r_descriptionHash := r_descriptionHash r; r_payeeNodeKey := r_payeeNodeKey r; r_expiry := r_expiry r;
     r_minFinalCltvExpiry := r_minFinalCltvExpiry r; r_fallbackAddress := r_fallbackAddress r;
     r_featureBits := r_featureBits r; r_metadata := r_metadata r; r_routingHints := r_routingHints r;
     r_blindedPaths := r_blindedPaths r; r_unknownTags := r_unknownTags r |}.

Definition set_paymentSecret (v : option buffer) (r : partial) : partial :=
  {| r_paymentHash := r_paymentHash r; r_paymentSecret := v; r_description := r_description r;
     r_descriptionHash := r_descriptionHash r; r_payeeNodeKey := r_payeeNodeKey r; r_expiry := r_expiry r;
     r_minFinalCltvExpiry := r_minFinalCltvExpiry r; r_fallbackAddress := r_fallbackAddress r;
     r_featureBits := r_featureBits r; r_metadata := r_metadata r; r_routingHints := r_routingHints r;
     r_blindedPaths := r_blindedPaths r; r_unknownTags := r_unknownTags r |}.

Definition set_description (v : option jsstring) (r : partial) : partial :=
  {| r_paymentHash := r_paymentHash r; r_paymentSecret := r_paymentSecret r; r_description := v;
     r_descriptionHash := r_descriptionHash r; r_payeeNodeKey := r_payeeNodeKey r; r_expiry := r_expiry r;
     r_minFinalCltvExpiry := r_minFinalCltvExpiry r; r_fallbackAddress := r_fallbackAddress r;
     r_featureBits := r_featureBits r; r_metadata := r_metadata r; r_routingHints := r_routingHints r;
     r_blindedPaths := r_blindedPaths r; r_unknownTags := r_unknownTags r |}.

Definition set_descriptionHash (v : option buffer) (r : partial) : partial :=
  {| r_paymentHash := r_paymentHash r; r_paymentSecret := r_paymentSecret r;
     r_description := r_description r; r_descriptionHash := v; r_payeeNodeKey := r_payeeNodeKey r;
     r_expiry := r_expiry r; r_minFinalCltvExpiry := r_minFinalCltvExpiry r;
     r_fallbackAddress := r_fallbackAddress r; r_featureBits := r_featureBits r; r_metadata := r_metadata r;
     r_routingHints := r_routingHints r; r_blindedPaths := r_blindedPaths r;
     r_unknownTags := r_unknownTags r |}.

Definition set_payeeNodeKey (v : option buffer) (r : partial) : partial :=
  {| r_paymentHash := r_paymentHash r; r_paymentSecret := r_paymentSecret r;
     r_description := r_description r; r_descriptionHash := r_descriptionHash r; r_payeeNodeKey := v;
     r_expiry := r_expiry r; r_minFinalCltvExpiry := r_minFinalCltvExpiry r;
     r_fallbackAddress := r_fallbackAddress r; r_featureBits := r_featureBits r; r_metadata := r_metadata r;
     r_routingHints := r_routingHints r; r_blindedPaths := r_blindedPaths r;
     r_unknownTags := r_unknownTags r |}.

Definition set_expiry (v : option Z) (r : partial) : partial :=
  {| r_paymentHash := r_paymentHash r; r_paymentSecret := r_paymentSecret r;
     r_description := r_description r; r_descriptionHash := r_descriptionHash r;
     r_payeeNodeKey := r_payeeNodeKey r; r_expiry := v; r_minFinalCltvExpiry := r_minFinalCltvExpiry r;
     r_fallbackAddress := r_fallbackAddress r; r_featureBits := r_featureBits r; r_metadata := r_metadata r;
     r_routingHints := r_routingHints r; r_blindedPaths := r_blindedPaths r;
     r_unknownTags := r_unknownTags r |}.

Definition set_minFinalCltvExpiry (v : option Z) (r : partial) : partial :=
  {| r_paymentHash := r_paymentHash r; r_paymentSecret := r_paymentSecret r;
     r_description := r_description r; r_descriptionHash := r_descriptionHash r;
     r_payeeNodeKey := r_payeeNodeKey r; r_expiry := r_expiry r; r_minFinalCltvExpiry := v;
     r_fallbackAddress := r_fallbackAddress r; r_featureBits := r_featureBits r; r_metadata := r_metadata r;
     r_routingHints := r_routingHints r; r_blindedPaths := r_blindedPaths r;
     r_unknownTags := r_unknownTags r |}.

Definition set_fallbackAddress (v : option IFallbackAddress) (r : partial) : partial :=
  {| r_paymentHash := r_paymentHash r; r_paymentSecret := r_paymentSecret r;
     r_description := r_description r; r_descriptionHash := r_descriptionHash r;
     r_payeeNodeKey := r_payeeNodeKey r; r_expiry := r_expiry r;
     r_minFinalCltvExpiry := r_minFinalCltvExpiry r; r_fallbackAddress := v;
     r_featureBits := r_featureBits r; r_metadata := r_metadata r; r_routingHints := r_routingHints r;
     r_blindedPaths := r_blindedPaths r; r_unknownTags := r_unknownTags r |}.

Definition set_featureBits (v : option FeatureFlags) (r : partial) : partial :=
  {| r_paymentHash := r_paymentHash r; r_paymentSecret := r_paymentSecret r;
     r_description := r_description r; r_descriptionHash := r_descriptionHash r;
     r_payeeNodeKey := r_payeeNodeKey r; r_expiry := r_expiry r;
     r_minFinalCltvExpiry := r_minFinalCltvExpiry r; r_fallbackAddress := r_fallbackAddress r;
     r_featureBits := v; r_metadata := r_metadata r; r_routingHints := r_routingHints r;
     r_blindedPaths := r_blindedPaths r; r_unknownTags := r_unknownTags r |}.

Definition set_metadata (v : option buffer) (r : partial) : partial :=
  {| r_paymentHash := r_paymentHash r; r_paymentSecret := r_paymentSecret r;
     r_description := r_description r; r_descriptionHash := r_descriptionHash r;
     r_payeeNodeKey := r_payeeNodeKey r; r_expiry := r_expiry r;
     r_minFinalCltvExpiry := r_minFinalCltvExpiry r; r_fallbackAddress := r_fallbackAddress r;
     r_featureBits := r_featureBits r; r_metadata := v; r_routingHints := r_routingHints r;
     r_blindedPaths := r_blindedPaths r; r_unknownTags := r_unknownTags r |}.

Definition set_routingHints (v : list (list IRoutingHintHop)) (r : partial) : partial :=
  {| r_paymentHash := r_paymentHash r; r_paymentSecret := r_paymentSecret r;
     r_description := r_description r; r_descriptionHash := r_descriptionHash r;
     r_payeeNodeKey := r_payeeNodeKey r; r_expiry := r_expiry r;
     r_minFinalCltvExpiry := r_minFinalCltvExpiry r; r_fallbackAddress := r_fallbackAddress r;
     r_featureBits := r_featureBits r; r_metadata := r_metadata r; r_routingHints := v;
     r_blindedPaths := r_blindedPaths r; r_unknownTags := r_unknownTags r |}.

Definition set_blindedPaths (v : option (list IBlindedPaymentPath)) (r : partial) : partial :=
  {| r_paymentHash := r_paymentHash r; r_paymentSecret := r_paymentSecret r;
     r_description := r_description r; r_descriptionHash := r_descriptionHash r;
     r_payeeNodeKey := r_payeeNodeKey r; r_expiry := r_expiry r;
     r_minFinalCltvExpiry := r_minFinalCltvExpiry r; r_fallbackAddress := r_fallbackAddress r;
     r_featureBits := r_featureBits r; r_metadata := r_metadata r; r_routingHints := r_routingHints r;
     r_blindedPaths := v; r_unknownTags := r_unknownTags r |}.

Definition set_unknownTags (v : list (Z * list Z)) (r : partial) : partial :=
  {| r_paymentHash := r_paymentHash r; r_paymentSecret := r_paymentSecret r;
     r_description := r_description r; r_descriptionHash := r_descriptionHash r;
     r_payeeNodeKey := r_payeeNodeKey r; r_expiry := r_expiry r;
     r_minFinalCltvExpiry := r_minFinalCltvExpiry r; r_fallbackAddress := r_fallbackAddress r;
     r_featureBits := r_featureBits r; r_metadata := r_metadata r; r_routingHints := r_routingHints r;
     r_blindedPaths := r_blindedPaths r; r_unknownTags := v |}.

(** The body of the loop after the field is framed. *)
Definition take_field (r : partial) (field : Z * list Z) : result partial :=
  let '(type, dataWords) := field in
  let unknown := Ok (set_unknownTags (r_unknownTags r ++ [(type, dataWords)]) r) in
  match FIXED_LENGTH_TAG_WORDS type with
  | Some expectedWords =>
      if negb (Z.of_nat (length dataWords) =? expectedWords) then unknown
      else if type =? PAYMENT_HASH then h ← decodeFixedLengthHash dataWords 32; Ok (set_paymentHash (Some h) r)
      else if type =? PAYMENT_SECRET then h ← decodeFixedLengthHash dataWords 32; Ok (set_paymentSecret (Some h) r)
      else if type =? DESCRIPTION_HASH then h ← decodeFixedLengthHash dataWords 32; Ok (set_descriptionHash (Some h) r)
      else k ← decodePayeeNodeKey dataWords; Ok (set_payeeNodeKey (Some k) r)
  | None =>
      if type =? DESCRIPTION then d ← decodeDescription dataWords; Ok (set_description (Some d) r)
      else if type =? EXPIRY then Ok (set_expiry (Some (decodeUintFromWords dataWords)) r)
      else if type =? MIN_FINAL_CLTV_EXPIRY then Ok (set_minFinalCltvExpiry (Some (decodeUintFromWords dataWords)) r)
      else if type =? FALLBACK_ADDRESS then a ← decodeFallbackAddress dataWords; Ok (set_fallbackAddress (Some a) r)
      else if type =? ROUTING_INFO
      then hops ← decodeRoutingInfo dataWords; Ok (set_routingHints (r_routingHints r ++ [hops]) r)
      else if type =? FEATURE_BITS then f ← decodeFeatureBits dataWords; Ok (set_featureBits (Some f) r)
      else if type =? METADATA then m ← wordsToBuffer dataWords; Ok (set_metadata (Some m) r)
      else if type =? BLINDED_PATHS
      then bytes ← wordsToBuffer dataWords;
           paths ← decodeInvoiceBlindedPaymentPaths ecc_isPoint bytes;
           Ok (set_blindedPaths (Some paths) r)
      else unknown
  end.

(** [while (offset < taggedWords.length)]; every field has at least three words *)
Fixpoint take_fields (fuel : nat) (taggedWords : list Z) (offset : Z) (r : partial) : result partial :=
  if offset <? Z.of_nat (length taggedWords) then
    match fuel with
    | 0%nat => Ok r
    | S fuel =>
        '(type, dataWords, nextOffset) ← decodeTaggedField taggedWords offset;
        r ← take_field r (type, dataWords);
        take_fields fuel taggedWords nextOffset r
    end
  else Ok r.

Definition nonempty {X} (l : list X) : option (list X) := match l with [] => None | _ => Some l end.

Definition decode (invoiceString : chars) (recoverSigner : option bool) : result IInvoice :=
  '(prefix, words) ← bech32_decode invoiceString BECH32_MAX_LIMIT;
  '(network, amountMsat) ← parseHrp prefix;
  let size := Z.of_nat (length words) in
  _ ← throw_if (size <? TIMESTAMP_WORDS + SIGNATURE_WORDS) "Invoice too short";
  let timestamp := decodeUintFromWords (slice words 0 TIMESTAMP_WORDS) in
  let sigStart := size - SIGNATURE_WORDS in
  sigBytes ← wordsToBuffer (slice words sigStart size);
  let signature := subarray sigBytes 0 65 in
  let taggedWords := slice words TIMESTAMP_WORDS sigStart in
  recoveredPubkey ←
    (if bool_decide (recoverSigner = Some false) then Ok None
     else match verifyInvoice sha256 prefix (slice words 0 sigStart) signature with
          | None => Err "Invoice signature is not recoverable"
          | Some key => Ok (Some key)
          end);
  r ← take_fields (length taggedWords) taggedWords 0 no_fields;
  match r_paymentHash r with
  | None => Err "Invoice missing required payment_hash (tag 1)"
  | Some paymentHash =>
      _ ← throw_if (match recoveredPubkey, r_payeeNodeKey r with
                    | Some recovered, Some key => negb (buf_equals key recovered)
                    | _, _ => false
                    end) "Invoice signature does not match the payee node id (n field)";
      _ ← throw_if (bool_decide (is_Some (r_description r)) && bool_decide (is_Some (r_descriptionHash r)))
            "Invoice has both description and description_hash";
      _ ← throw_if (bool_decide (r_description r = None) && bool_decide (r_descriptionHash r = None))
            "Invoice missing description or description_hash";
      Ok {| i_network := network; i_amountMsat := amountMsat; i_timestamp := timestamp; i_paymentHash := paymentHash;
            i_paymentSecret := r_paymentSecret r; i_description := r_description r;
            i_descriptionHash := r_descriptionHash r; i_payeeNodeKey := r_payeeNodeKey r; i_expiry := r_expiry r;
            i_minFinalCltvExpiry := r_minFinalCltvExpiry r; i_fallbackAddress := r_fallbackAddress r;
            i_routingHints := nonempty (r_routingHints r); i_blindedPaths := r_blindedPaths r ≫= nonempty;
            i_featureBits := r_featureBits r; i_metadata := r_metadata r; i_signature := signature;
            i_recoveredPubkey := recoveredPubkey; i_unknownTags := nonempty (r_unknownTags r) |}
  end.

End Invoice.
