(* ===== verification/InvoiceRun.v ===== *)
(** * What is written into an invoice is what is read from it

    The round trip of [encode] and [decode] (Invoice.v), and what every decoded
    invoice satisfies. *)

From S2P Require Import Prelude Buffer Codec Wire Features BlindedPath InvoiceAmount InvoiceWords Invoice Text.
Local Open Scope Z_scope.

(** ** Numbers *)

Lemma decodeUint_cons w ws : decodeUintFromWords (w :: ws) = w * 32 ^ Z.of_nat (length ws) + decodeUintFromWords ws.
Proof.
  induction ws as [|x ws IH] using rev_ind; [unfold decodeUintFromWords; cbn; lia|].
  rewrite app_comm_cons, !decodeUint_snoc, IH, length_app, Nat2Z.inj_add, Z.pow_add_r by lia.
  change (32 ^ Z.of_nat (length [x])) with 32. lia.
Qed.

Lemma var_int_run fuel : forall v ws, 0 <= v < 2 ^ Z.of_nat fuel ->
  decodeUintFromWords (var_int fuel v ws) = v * 32 ^ Z.of_nat (length ws) + decodeUintFromWords ws.
Proof.
  induction fuel as [|fuel IH]; intros v ws Hv; [change (2 ^ Z.of_nat 0) with 1 in Hv; by replace v with 0 by lia|].
  cbn [var_int]. destruct (Z.ltb_spec 0 v); [|by replace v with 0 by lia].
  rewrite Nat2Z.inj_succ, Z.pow_succ_r in Hv by lia.
  rewrite IH by (Z.to_euclidean_division_equations; lia). rewrite decodeUint_cons, land31. cbn [length].
  rewrite Nat2Z.inj_succ, Z.pow_succ_r by lia. pose proof (Z.div_mod v 32 ltac:(lia)). nia.
Qed.

Lemma var_int_read v : 0 <= v -> decodeUintFromWords (encodeVarInt v) = v.
Proof.
  intros Hv. unfold encodeVarInt. destruct (Z.eqb_spec v 0) as [->|Hne]; [done|].
  rewrite var_int_run; [unfold decodeUintFromWords; cbn; lia|].
  rewrite Nat2Z.inj_succ, Z2Nat.id by apply Z.log2_nonneg. pose proof (Z.log2_spec v). lia.
Qed.

(** ** Routing hints *)

Record hint_wf (h : IRoutingHintHop) : Prop := {
  hw_pubkey : blen (rh_pubkey h) = 33;
  hw_scid : blen (rh_shortChannelId h) = 8;
  hw_base : 0 <= rh_feeBaseMsat h < 2 ^ 32;
  hw_prop : 0 <= rh_feeProportionalMillionths h < 2 ^ 32;
  hw_delta : 0 <= rh_cltvExpiryDelta h < 2 ^ 16
}.

Definition hint_bytes (h : IRoutingHintHop) : buffer :=
  rh_pubkey h ++ rh_shortChannelId h ++ be 4 (rh_feeBaseMsat h) ++ be 4 (rh_feeProportionalMillionths h) ++
  be 2 (rh_cltvExpiryDelta h).

Lemma hint_length h : hint_wf h -> blen (hint_bytes h) = 51.
Proof. intros []. unfold hint_bytes. rewrite !blen_app, !blen_be. lia. Qed.

Lemma hint_written h pre k : hint_wf h -> 51 <= k ->
  write_hop (pre ++ alloc k, blen pre) h = Ok ((pre ++ hint_bytes h) ++ alloc (k - 51), blen (pre ++ hint_bytes h)).
Proof.
  intros Hw Hk. pose proof (hint_length h Hw) as Hl. destruct Hw. unfold write_hop, hint_bytes in *.
  rewrite !blen_app in *. rewrite (copy_fill pre) by lia.
  rewrite copy_fill by (rewrite ?blen_app; lia).
  unfold writeUInt32BE, writeUInt16BE.
  rewrite write_fill by (rewrite ?blen_app; lia). rewrite bind_Ok.
  rewrite write_fill by (rewrite ?blen_app, ?blen_be; lia). rewrite bind_Ok.
  rewrite write_fill by (rewrite ?blen_app, ?blen_be; lia). rewrite bind_Ok.
  unfold ROUTING_HOP_BYTES. do 2 f_equal; [|lia]. rewrite <- !app_assoc. do 6 f_equal. f_equal. lia.
Qed.

Lemma hints_written hops : forall pre, Forall hint_wf hops ->
  exists off, foldM write_hop (pre ++ alloc (Z.of_nat (length hops) * 51), blen pre) hops =
    Ok (pre ++ concat (map hint_bytes hops), off).
Proof.
  induction hops as [|h hops IH]; intros pre Hw; [exists (blen pre); cbn [length map concat foldM]; by rewrite Z.mul_0_l|].
  apply Forall_cons in Hw as [Hh Hw]. cbn [foldM length map concat].
  rewrite hint_written, bind_Ok by (done || lia).
  replace (Z.of_nat (S (length hops)) * 51 - 51) with (Z.of_nat (length hops) * 51) by lia.
  destruct (IH (pre ++ hint_bytes h) Hw) as [off E]. exists off. by rewrite E, <- app_assoc.
Qed.

Lemma hint_read h pre rest : hint_wf h ->
  let data := pre ++ hint_bytes h ++ rest in let offset := blen pre in
  readUInt32BE data (offset + 41) = Ok (rh_feeBaseMsat h) /\
  readUInt32BE data (offset + 45) = Ok (rh_feeProportionalMillionths h) /\
  readUInt16BE data (offset + 49) = Ok (rh_cltvExpiryDelta h) /\
  subarray data offset (offset + 33) = rh_pubkey h /\
  subarray data (offset + 33) (offset + 41) = rh_shortChannelId h.
Proof.
  intros []. cbn zeta. unfold hint_bytes, readUInt32BE, readUInt16BE. rewrite <- !app_assoc. split_and!.
  all: by rd.
Qed.

Lemma hints_read hops : forall pre fuel, Forall hint_wf hops -> (length hops <= fuel)%nat ->
  read_hops fuel (pre ++ concat (map hint_bytes hops)) (blen pre) = Ok hops.
Proof.
  induction hops as [|h hops IH]; intros pre fuel Hw Hf.
  { cbn [map concat]. rewrite app_nil_r. destruct fuel; [done|]. cbn [read_hops].
    by rewrite (proj2 (Z.leb_gt _ _)) by (unfold ROUTING_HOP_BYTES; lia). }
  apply Forall_cons in Hw as [Hh Hw]. destruct fuel as [|fuel]; [cbn in Hf; lia|]. cbn [map concat read_hops].
  set (rest := concat _). pose proof (blen_nonneg rest). pose proof (hint_length h Hh) as Hl.
  rewrite (proj2 (Z.leb_le _ _)) by (rewrite !blen_app; unfold ROUTING_HOP_BYTES; lia).
  destruct (hint_read h pre rest Hh) as (-> & -> & -> & -> & ->). rewrite !bind_Ok.
  replace (blen pre + ROUTING_HOP_BYTES) with (blen (pre ++ hint_bytes h)) by (rewrite blen_app; unfold ROUTING_HOP_BYTES; lia).
  rewrite app_assoc. unfold rest. rewrite IH by (done || (cbn in Hf; lia)). by destruct h.
Qed.

Lemma routing_read `{Bech32Laws} hops ws : Forall hint_wf hops -> encodeRoutingInfo hops = Ok ws ->
  decodeRoutingInfo ws = Ok hops.
Proof.
  intros Hw He. destruct (hints_written hops [] Hw) as [off Ho]. cbn in Ho.
  change (blen []) with 0 in Ho. unfold encodeRoutingInfo, ROUTING_HOP_BYTES in He. rewrite Ho, bind_Ok in He. injection He as <-.
  unfold decodeRoutingInfo, wordsToBuffer, bufferToWords. rewrite fromWords_toWords, bind_Ok.
  apply (hints_read hops []); [done|]. clear -Hw. induction Hw as [|h hops Hh _ IH]; [done|]. cbn [map concat length].
  rewrite length_app. pose proof (hint_length h Hh) as Hl. unfold blen in Hl. lia.
Qed.

(** ** Feature bits *)

Lemma word_bits_read w base bits : 0 <= base -> Forall (fun k => 0 <= k) bits -> forall ff,
  exists ff', foldM (read_word_bit w base) ff bits = Ok ff' /\
    forall b, hasBit ff' b = true <-> hasBit ff b = true \/ exists k, In k bits /\ Z.testbit w k = true /\ b = base + k.
Proof.
  intros Hb. induction 1 as [|k bits Hk _ IH]; intros ff.
  { exists ff. split; [done|]. intros b. split; [auto|]. by intros [?|(? & [] & _)]. }
  cbn [foldM]. assert (read_word_bit w base ff k = if Z.testbit w k then setBit ff (base + k) else Ok ff) as ->
    by (unfold read_word_bit; by rewrite land_bit). destruct (Z.testbit w k) eqn:Ek.
  - destruct (setBit_spec ff (base + k) ltac:(lia)) as (f1 & -> & H1). rewrite bind_Ok.
    destruct (IH f1) as (f2 & E & H2). exists f2. split; [done|]. intros b. rewrite H2, H1, orb_true_iff, Z.eqb_eq. cbn [In].
    naive_solver.
  - rewrite bind_Ok. destruct (IH ff) as (f2 & E & H2). exists f2. split; [done|]. intros b. rewrite H2. cbn [In].
    split; [naive_solver|]. intros [?|(j & [->|?] & Hj & ?)]; [auto|congruence|]. right. by exists j.
Qed.

Lemma words_read ws : forall base ff, 0 <= base ->
  exists ff', read_feature_words ws base ff = Ok ff' /\
    forall b, hasBit ff' b = true <-> hasBit ff b = true \/
      exists i k w, ws !! i = Some w /\ 0 <= k < 5 /\ Z.testbit w k = true /\ b = base + 5 * Z.of_nat i + k.
Proof.
  induction ws as [|w ws IH]; intros base ff Hb; cbn [read_feature_words].
  { exists ff. split; [done|]. intros b. split; [auto|]. by intros [?|(? & ? & ? & ? & _)]. }
  destruct (word_bits_read w base [0; 1; 2; 3; 4] Hb ltac:(repeat constructor; lia) ff) as (f1 & -> & H1). rewrite bind_Ok.
  destruct (IH (base + 5) f1 ltac:(lia)) as (f2 & -> & H2). exists f2. split; [done|]. intros b. rewrite H2, H1. split.
  - intros [[?|(k & Hk & Ht & ->)]|(i & k & x & Hi & Hk & Ht & ->)]; [auto| |].
    + right. exists 0%nat, k, w. split_and!; [done| | |done|lia]; cbn in Hk; lia.
    + right. exists (S i), k, x. split_and!; [done| | |done|]; lia.
  - intros [?|([|i] & k & x & Hi & Hk & Ht & ->)]; [auto| |].
    + cbn in Hi. injection Hi as <-. left. right. exists k. split_and!; [|done|lia].
      assert (k = 0 \/ k = 1 \/ k = 2 \/ k = 3 \/ k = 4) by lia. cbn. naive_solver.
    + right. exists i, k, x. split_and!; [done| | |done|]; lia.
Qed.

(** The words of the feature field [ws] hold the bits [P]. *)
Definition holds (count : Z) (ws : list Z) (P : Z -> Prop) : Prop :=
  Z.of_nat (length ws) = count /\
  forall i k w, 0 <= i < count -> 0 <= k < 5 -> ws !! Z.to_nat (count - 1 - i) = Some w ->
    Z.testbit w k = true <-> P (5 * i + k).

Lemma holds_set count ws P bit : 0 <= bit < 5 * count -> holds count ws P ->
  holds count (set_word_bit count ws bit) (fun b => b = bit \/ P b).
Proof.
  intros Hbit [Hl Hh]. unfold set_word_bit. split; [by rewrite length_insert|]. intros i k w Hi Hk Hw.
  assert (0 <= bit / 5 < count) as Hq by (Z.to_euclidean_division_equations; lia).
  destruct (decide (i = bit / 5)) as [->|Hne].
  - rewrite list_lookup_insert_eq in Hw by lia. injection Hw as <-.
    rewrite Z.lor_spec, shiftl1_bit, orb_true_iff, Z.eqb_eq by (Z.to_euclidean_division_equations; lia).
    unfold word_at. destruct (ws !! _) as [x|] eqn:Ex; [|apply lookup_ge_None in Ex; lia]. cbn [default].
    rewrite (Hh _ k _ Hq Hk Ex). pose proof (Z.div_mod bit 5 ltac:(lia)).
    split; (intros [?|?]; [|]); auto; [left|right]; Z.to_euclidean_division_equations; lia.
  - rewrite list_lookup_insert_ne in Hw by lia. rewrite (Hh i k w Hi Hk Hw).
    split; [auto|]. intros [E|?]; [|done]. exfalso. apply Hne. rewrite <- E. Z.to_euclidean_division_equations; lia.
Qed.

Lemma holds_all count bits : Forall (fun b => 0 <= b < 5 * count) bits -> forall ws P, holds count ws P ->
  holds count (fold_left (set_word_bit count) bits ws) (fun b => In b bits \/ P b).
Proof.
  induction 1 as [|bit bits Hb _ IH]; intros ws P Hh; cbn [fold_left].
  { destruct Hh as [Hl Hh]. split; [done|]. intros i k w Hi Hk Hw. rewrite (Hh i k w Hi Hk Hw). cbn. tauto. }
  destruct (IH _ _ (holds_set _ _ _ bit Hb Hh)) as [Hl Hf]. split; [done|]. intros i k w Hi Hk Hw.
  rewrite (Hf i k w Hi Hk Hw). cbn [In]. naive_solver.
Qed.

Lemma holds_blank n : holds (Z.of_nat n) (replicate n 0) (fun _ => False).
Proof.
  split; [by rewrite length_replicate|]. intros i k w _ _ [-> _]%lookup_replicate. by rewrite Z.bits_0.
Qed.

(** The bits of the feature field of an invoice. *)
Lemma holds_read ws P : holds (Z.of_nat (length ws)) ws P ->
  exists f, decodeFeatureBits ws = Ok f /\ forall b, hasBit f b = true <-> 0 <= b < 5 * Z.of_nat (length ws) /\ P b.
Proof.
  intros [_ Hh]. unfold decodeFeatureBits. destruct (words_read (reverse ws) 0 Features.empty ltac:(lia)) as (f & -> & Hf).
  exists f. split; [done|]. intros b. rewrite Hf. split.
  - intros [Hb|(i & k & w & Hi & Hk & Ht & ->)].
    { rewrite hasBit_past in Hb; [done|]. change (blen Features.empty * 8) with 0.
      destruct (Z.ltb_spec b 0); [by rewrite hasBit_neg in Hb|done]. }
    assert (i < length ws)%nat as Hlt by (rewrite <- length_reverse; by eapply lookup_lt_Some).
    rewrite reverse_lookup in Hi by done. split; [lia|]. rewrite Z.add_0_l.
    apply (Hh (Z.of_nat i) k w); [lia|done| |done].
    by replace (Z.to_nat _) with (length ws - S i)%nat by lia.
  - intros [Hb HS]. right. set (i := Z.to_nat (b / 5)).
    assert (i < length ws)%nat as Hlt by (unfold i; Z.to_euclidean_division_equations; lia).
    destruct (lookup_lt_is_Some_2 ws (length ws - S i) ltac:(lia)) as [w Hw]. exists i, (b mod 5), w.
    assert (b = 5 * (b / 5) + b mod 5) as E by (apply Z.div_mod; lia).
    assert (0 <= b / 5) by (apply Z.div_pos; lia). split_and!; try (pose proof (Z.mod_pos_bound b 5); lia).
    + by rewrite reverse_lookup.
    + apply (Hh (b / 5) (b mod 5) w); [unfold i in *; lia|apply Z.mod_pos_bound; lia| |by rewrite <- E].
      by replace (Z.to_nat _) with (length ws - S i)%nat by (unfold i; lia).
Qed.

Lemma listSetBits_last f m : last (listSetBits f) = Some m -> forall b, In b (listSetBits f) -> b <= m.
Proof.
  intros Hm b Hb. pose proof (ZSort.LocallySorted_sort (set_bits_from (reverse f) 0)) as Hs.
  apply Sorted.Sorted_LocallySorted_iff, Sorted.Sorted_StronglySorted in Hs.
  2:{ intros x y z. unfold is_true, ZOrder.leb. rewrite !Z.leb_le. lia. }
  fold (listSetBits f) in Hs. apply last_Some in Hm as [l El]. rewrite El in *. clear El.
  apply in_app_or in Hb as [Hb|[->|[]]]; [|lia]. induction l as [|x l IH]; [done|].
  cbn in Hs. apply Sorted.StronglySorted_inv in Hs as [Hs Hx]. destruct Hb as [->|Hb]; [|by apply IH].
  rewrite List.Forall_forall in Hx. specialize (Hx m ltac:(apply in_or_app; right; by left)).
  unfold is_true, ZOrder.leb in Hx. by apply Z.leb_le.
Qed.

(** Feature bits are read back, as a set of bits. *)
Lemma features_read f : exists g, decodeFeatureBits (encodeFeatureBits f) = Ok g /\ same_bits g f.
Proof.
  unfold encodeFeatureBits. destruct (last (listSetBits f)) as [m|] eqn:Em.
  - set (count := (m + 1 + 4) / 5).
    assert (In m (listSetBits f)) as Hm by (apply last_Some in Em as [l ->]; apply in_or_app; right; by left).
    apply listSetBits_in in Hm as [Hm _]. assert (0 <= count /\ m < 5 * count) as [Hc Hcm]
      by (unfold count; Z.to_euclidean_division_equations; lia).
    assert (Forall (fun b => 0 <= b < 5 * count) (listSetBits f)) as Hall.
    { apply List.Forall_forall. intros b Hb. pose proof (listSetBits_last f m Em b Hb). apply listSetBits_in in Hb. lia. }
    pose proof (holds_all count _ Hall (replicate (Z.to_nat count) 0) (fun _ => False)) as Hh.
    specialize (Hh ltac:(pose proof (holds_blank (Z.to_nat count)) as Hb; by rewrite Z2Nat.id in Hb)).
    destruct (Hh) as [Hl _]. rewrite <- Hl in Hh at 1. destruct (holds_read _ _ Hh) as (g & -> & Hg).
    exists g. split; [done|]. intros b. apply eq_true_iff_eq. rewrite Hg, Hl. split.
    + intros [_ [Hb|[]]]. by apply listSetBits_in in Hb as [_ ?].
    + intros Hb. assert (In b (listSetBits f)) as Hin.
      { apply listSetBits_in. split; [|done]. destruct (Z.ltb_spec b 0); [by rewrite hasBit_neg in Hb|done]. }
      split; [|by left]. rewrite List.Forall_forall in Hall. by apply Hall.
  - destruct (holds_read [0] (fun _ => False) (holds_blank 1)) as (g & -> & Hg). exists g. split; [done|].
    apply last_None in Em. intros b. apply eq_true_iff_eq. rewrite Hg. split; [tauto|]. intros Hb.
    assert (In b (listSetBits f)) as Hin; [|by rewrite Em in Hin]. apply listSetBits_in. split; [|done].
    destruct (Z.ltb_spec b 0); [by rewrite hasBit_neg in Hb|done].
Qed.

(** ** The loop over the fields *)

Section Run.
Context `{Bech32Laws} `{NobleLaws} (sha256 : buffer -> buffer) (ecc_isPoint : buffer -> bool).

#[local] Abbreviation take_field := (Invoice.take_field ecc_isPoint).
#[local] Abbreviation take_fields := (Invoice.take_fields ecc_isPoint).
#[local] Abbreviation encode := (Invoice.encode sha256).
#[local] Abbreviation decode := (Invoice.decode sha256 ecc_isPoint).

Definition framed (fs : list (Z * list Z)) : result (list (list Z)) := mapM (fun f => encodeTaggedField f.1 f.2) fs.

Lemma field_length t ws b : encodeTaggedField t ws = Ok b -> (3 <= length b)%nat.
Proof. intros Hb. unfold encodeTaggedField in Hb. inv_result. cbn. lia. Qed.

Lemma fields_run fs : forall bs pre r fuel, framed fs = Ok bs -> (length (concat bs) <= fuel)%nat ->
  take_fields fuel (pre ++ concat bs) (Z.of_nat (length pre)) r = foldM take_field r fs.
Proof.
  induction fs as [|[t ws] fs IH]; intros bs pre r fuel Hb Hf.
  { injection Hb as <-. cbn [concat]. rewrite app_nil_r. destruct fuel; cbn [Invoice.take_fields]; by rewrite Z.ltb_irrefl. }
  unfold framed in Hb. rewrite mapM_cons in Hb. inv_result. cbn [fst snd concat foldM] in *.
  match goal with H1 : encodeTaggedField _ _ = Ok ?x, H2 : mapM _ _ = Ok ?y |- _ =>
    rename x into b; rename y into bs; rename H1 into Hb; rename H2 into Hbs end.
  pose proof (field_length _ _ _ Hb) as Hl. rewrite length_app in Hf. destruct fuel as [|fuel]; [lia|]. cbn [Invoice.take_fields].
  rewrite (proj2 (Z.ltb_lt _ _)) by (rewrite !length_app; lia).
  rewrite (tagged_field_read _ _ _ _ _ Hb), bind_Ok. destruct (take_field r (t, ws)) as [r'|e]; [|done]. rewrite !bind_Ok.
  rewrite app_assoc. apply IH; [done|lia].
Qed.

(** The words [ws] are fields that change the variables of the loop by [g]. *)
Definition carries (ws : list Z) (g : partial -> partial) : Prop :=
  exists fs bs, framed fs = Ok bs /\ ws = concat bs /\ forall r, foldM take_field r fs = Ok (g r).

Lemma carries_nil : carries [] id.
Proof. by exists [], []. Qed.

Lemma framed_app fs gs bs cs : framed fs = Ok bs -> framed gs = Ok cs -> framed (fs ++ gs) = Ok (bs ++ cs).
Proof.
  revert bs. induction fs as [|f fs IH]; intros bs Hf Hg; [by injection Hf as <-|].
  unfold framed in Hf. rewrite mapM_cons in Hf. inv_result. cbn [app]. unfold framed. rewrite mapM_cons.
  match goal with H1 : encodeTaggedField _ _ = Ok _, H2 : mapM _ fs = Ok _ |- _ => rewrite H1, bind_Ok; pose proof (IH _ H2 Hg) as E end.
  unfold framed in E. by rewrite E.
Qed.

Lemma foldM_app {A B} (f : B -> A -> result B) l1 l2 : forall acc,
  foldM f acc (l1 ++ l2) = (acc ← foldM f acc l1; foldM f acc l2).
Proof. induction l1 as [|x l1 IH]; intros acc; [done|]. cbn [app foldM]. destruct (f acc x); [|done]. by rewrite !bind_Ok. Qed.

Lemma carries_app ws1 ws2 g1 g2 : carries ws1 g1 -> carries ws2 g2 -> carries (ws1 ++ ws2) (fun r => g2 (g1 r)).
Proof.
  intros (fs1 & bs1 & Hf1 & -> & Hg1) (fs2 & bs2 & Hf2 & -> & Hg2). exists (fs1 ++ fs2), (bs1 ++ bs2). split_and!.
  - by apply framed_app.
  - by rewrite concat_app.
  - intros r. by rewrite foldM_app, Hg1, bind_Ok, Hg2.
Qed.

Lemma carries_field t ws b g : encodeTaggedField t ws = Ok b -> (forall r, take_field r (t, ws) = Ok (g r)) -> carries b g.
Proof.
  intros Hb Hg. exists [(t, ws)], [b]. split_and!; [|cbn; by rewrite app_nil_r|].
  - unfold framed. rewrite mapM_cons. cbn [fst snd]. by rewrite Hb.
  - intros r. cbn [foldM]. by rewrite Hg.
Qed.

Lemma carries_when {X} (x : option X) f ws g G : when x f = Ok ws ->
  (forall v ws, x = Some v -> f v = Ok ws -> carries ws (g v)) ->
  (forall r, G r = match x with Some v => g v r | None => r end) -> carries ws G.
Proof.
  intros Hw Hg HG. destruct x as [v|].
  - destruct (Hg v ws eq_refl Hw) as (fs & bs & ? & ? & Hr). exists fs, bs. split_and!; [done|done|]. intros r. by rewrite HG.
  - injection Hw as <-. exists [], []. split_and!; [done|done|]. intros r. cbn. by rewrite HG.
Qed.

(** ** What is read of each field *)

Lemma words_back b : wordsToBuffer (bufferToWords b) = Ok b.
Proof. apply fromWords_toWords. Qed.

Lemma hash_read b k : blen b = k -> decodeFixedLengthHash (bufferToWords b) k = Ok b.
Proof.
  intros <-. unfold decodeFixedLengthHash. rewrite words_back, bind_Ok, throw_pass by (apply Z.ltb_irrefl).
  by rewrite subarray_all.
Qed.

Lemma payee_read b : blen b = 33 -> decodePayeeNodeKey (bufferToWords b) = Ok b.
Proof.
  intros Hb. unfold decodePayeeNodeKey. rewrite words_back, bind_Ok, throw_pass by (apply Z.ltb_ge; lia).
  by rewrite subarray_all.
Qed.

Lemma words_length b k : 8 * blen b + 4 = k -> Z.of_nat (length (bufferToWords b)) = k / 5.
Proof. intros <-. apply toWords_length. Qed.

Lemma take_hash r b : blen b = 32 ->
  take_field r (PAYMENT_HASH, bufferToWords b) = Ok (set_paymentHash (Some b) r) /\
  take_field r (PAYMENT_SECRET, bufferToWords b) = Ok (set_paymentSecret (Some b) r) /\
  take_field r (DESCRIPTION_HASH, bufferToWords b) = Ok (set_descriptionHash (Some b) r).
Proof.
  intros Hb. pose proof (words_length b 260 ltac:(lia)) as Hl. change (260 / 5) with 52 in Hl.
  unfold Invoice.take_field. cbn. rewrite Hl, (hash_read b 32 Hb). done.
Qed.

Lemma take_payee r b : blen b = 33 -> take_field r (PAYEE_PUBKEY, bufferToWords b) = Ok (set_payeeNodeKey (Some b) r).
Proof.
  intros Hb. pose proof (words_length b 268 ltac:(lia)) as Hl. change (268 / 5) with 53 in Hl.
  unfold Invoice.take_field. cbn. by rewrite Hl, (payee_read b Hb).
Qed.

(** ** The options a round trip needs *)

Record options_wf (now : Z) (o : IInvoiceCreationOptions) : Prop := {
  ow_timestamp : 0 <= default now (o_timestamp o) < 2 ^ 35;
  ow_description : opt_all (fun d => isWellFormed d = true) (o_description o);
  ow_expiry : opt_all (fun e => 0 <= e) (o_expiry o);
  ow_cltv : opt_all (fun c => 0 <= c) (o_minFinalCltvExpiry o);
  ow_hints : opt_all (Forall (Forall hint_wf)) (o_routingHints o);
  ow_paths : opt_all (fun ps => (length ps <= 255)%nat /\
    Forall (fun e => path_wf ecc_isPoint (bpp_path e) /\ pay_info_wf (bpp_payInfo e)) ps) (o_blindedPaths o);
  ow_payee : opt_all (fun k => secp_getPublicKey (o_privateKey o) = Ok k) (o_payeeNodeKey o)
}.

(** The newer value where there is one. *)
Definition upd {X} (x old : option X) : option X := match x with Some _ => x | None => old end.

Lemma upd_None {X} (x : option X) : upd x None = x.
Proof. by destruct x. Qed.

Lemma carries_routes routes bs : Forall (Forall hint_wf) routes ->
  mapM (fun route => info ← encodeRoutingInfo route; encodeTaggedField ROUTING_INFO info) routes = Ok bs ->
  carries (concat bs) (fun r => set_routingHints (r_routingHints r ++ routes) r).
Proof.
  revert bs. induction routes as [|route routes IH]; intros bs Hw Hb.
  { injection Hb as <-. exists [], []. split_and!; [done|done|]. intros r. cbn. rewrite app_nil_r. by destruct r. }
  apply Forall_cons in Hw as [Hr Hw]. rewrite mapM_cons in Hb. inv_result. cbn [concat].
  match goal with H1 : encodeRoutingInfo _ = Ok _, H2 : encodeTaggedField _ _ = Ok _, H3 : mapM _ _ = Ok _ |- _ =>
    pose proof (IH _ Hw H3) as Hrest; pose proof (routing_read _ _ Hr H1) as Hread; rename H2 into Hf; match type of H1 with _ = Ok ?w => rename w into info end end.
  assert (forall r, take_field r (ROUTING_INFO, info) = Ok (set_routingHints (r_routingHints r ++ [route]) r)) as Ht
    by (intros r; unfold Invoice.take_field; cbn; by rewrite Hread).
  destruct (carries_app _ _ _ _ (carries_field _ _ _ _ Hf Ht) Hrest) as (fs & cs & ? & ? & Hg).
  exists fs, cs. split_and!; [done|done|]. intros r. rewrite Hg. f_equal. cbn. by rewrite <- app_assoc.
Qed.

Lemma carries_description (o : IInvoiceCreationOptions) ws :
  opt_all (fun d => isWellFormed d = true) (o_description o) ->
  bool_decide (is_Some (o_description o)) && bool_decide (is_Some (o_descriptionHash o)) = false ->
  match o_description o with
  | Some description => encodeTaggedField DESCRIPTION (bufferToWords (from_utf8 description))
  | None => when (o_descriptionHash o) (fun hash =>
      _ ← throw_if (negb (blen hash =? 32)) "descriptionHash must be 32 bytes";
      encodeTaggedField DESCRIPTION_HASH (bufferToWords hash))
  end = Ok ws ->
  carries ws (fun r => set_descriptionHash (upd (o_descriptionHash o) (r_descriptionHash r))
                         (set_description (upd (o_description o) (r_description r)) r)).
Proof.
  intros Hd Hb Hw. destruct (o_description o) as [d|].
  - destruct (o_descriptionHash o); [by rewrite !bool_decide_true in Hb|].
    refine (carries_field _ _ _ _ Hw _). intros r. unfold Invoice.take_field. cbn. unfold decodeDescription.
    rewrite words_back, bind_Ok, utf8_roundtrip by done. by destruct r.
  - refine (carries_when _ _ _ (fun h => set_descriptionHash (Some h)) _ Hw _ _).
    + intros h ws' _ Hf. inv_result. bool_props. eapply carries_field; [done|]. intros r. by apply take_hash.
    + intros r. by destruct (o_descriptionHash o), r.
Qed.
(** The variables of the loop hold what the options say. *)
Record read_back (o : IInvoiceCreationOptions) (r : partial) : Prop := {
  rb_hash : r_paymentHash r = Some (o_paymentHash o);
  rb_secret : r_paymentSecret r = o_paymentSecret o;
  rb_description : r_description r = o_description o;
  rb_descriptionHash : r_descriptionHash r = o_descriptionHash o;
  rb_payee : r_payeeNodeKey r = o_payeeNodeKey o;
  rb_expiry : r_expiry r = o_expiry o;
  rb_cltv : r_minFinalCltvExpiry r = o_minFinalCltvExpiry o;
  rb_fallback : r_fallbackAddress r = o_fallbackAddress o;
  rb_features : option_relation same_bits (fun _ => False) (fun _ => False) (r_featureBits r) (o_featureBits o);
  rb_metadata : r_metadata r = o_metadata o;
  rb_hints : nonempty (r_routingHints r) = o_routingHints o ≫= nonempty;
  rb_paths : r_blindedPaths r ≫= nonempty = o_blindedPaths o ≫= nonempty;
  rb_unknown : r_unknownTags r = []
}.

Lemma carries_hints (o : IInvoiceCreationOptions) ws : opt_all (Forall (Forall hint_wf)) (o_routingHints o) ->
  when (o_routingHints o) (fun routes =>
    routes ← mapM (fun route => info ← encodeRoutingInfo route; encodeTaggedField ROUTING_INFO info) routes;
    Ok (concat routes)) = Ok ws ->
  carries ws (fun r => set_routingHints (r_routingHints r ++ default [] (o_routingHints o)) r).
Proof.
  intros Hh Hw. refine (carries_when _ _ _ (fun routes r => set_routingHints (r_routingHints r ++ routes) r) _ Hw _ _).
  - intros routes ws' E Hf. rewrite E in Hh. inv_result. by apply carries_routes.
  - intros r. destruct (o_routingHints o); [done|]. cbn. rewrite app_nil_r. by destruct r.
Qed.

Lemma carries_paths (o : IInvoiceCreationOptions) ws :
  opt_all (fun ps => (length ps <= 255)%nat /\
    Forall (fun e => path_wf ecc_isPoint (bpp_path e) /\ pay_info_wf (bpp_payInfo e)) ps) (o_blindedPaths o) ->
  when (o_blindedPaths o) (fun paths =>
    if 0 <? Z.of_nat (length paths)
    then bytes ← encodeInvoiceBlindedPaymentPaths paths; encodeTaggedField BLINDED_PATHS (bufferToWords bytes)
    else Ok []) = Ok ws ->
  carries ws (fun r => set_blindedPaths (upd (o_blindedPaths o ≫= nonempty) (r_blindedPaths r)) r).
Proof.
  intros Hp Hw. destruct (o_blindedPaths o) as [[|p ps]|].
  - injection Hw as <-. exists [], []. split_and!; [done|done|]. intros r. by destruct r.
  - destruct Hp as [Hc Hp]. destruct (invoice_paths_roundtrip ecc_isPoint _ Hc Hp) as (b & He & Hd).
    cbn [when] in Hw. rewrite (proj2 (Z.ltb_lt _ _)) in Hw by (cbn; lia). rewrite He, bind_Ok in Hw.
    refine (carries_field _ _ _ _ Hw _). intros r. unfold Invoice.take_field. cbn -[decodeInvoiceBlindedPaymentPaths].
    by rewrite words_back, bind_Ok, Hd.
  - injection Hw as <-. exists [], []. split_and!; [done|done|]. intros r. by destruct r.
Qed.

(** A field that is written with its value and read with it. *)
Lemma carries_plain {X} (x : option X) f t (words : X -> list Z) ws (set : option X -> partial -> partial) get :
  when x f = Ok ws -> (forall v ws, x = Some v -> f v = Ok ws -> encodeTaggedField t (words v) = Ok ws) ->
  (forall v ws r, x = Some v -> f v = Ok ws -> take_field r (t, words v) = Ok (set (Some v) r)) -> (forall r, set (get r) r = r) ->
  carries ws (fun r => set (upd x (get r)) r).
Proof.
  intros Hw Hf Ht Hs. destruct x as [v|]; cbn [upd].
  - refine (carries_field _ _ _ _ (Hf v ws eq_refl Hw) _). intros r. by apply (Ht v ws).
  - injection Hw as <-. exists [], []. split_and!; [done|done|]. intros r. by rewrite Hs.
Qed.

Lemma take_number r t words : t = EXPIRY \/ t = MIN_FINAL_CLTV_EXPIRY -> take_field r (t, words) =
  Ok ((if t =? EXPIRY then set_expiry else set_minFinalCltvExpiry) (Some (decodeUintFromWords words)) r).
Proof. by intros [->| ->]. Qed.

Lemma carries_features (o : IInvoiceCreationOptions) ws :
  when (o_featureBits o) (fun features => encodeTaggedField FEATURE_BITS (encodeFeatureBits features)) = Ok ws ->
  exists f, option_relation same_bits (fun _ => False) (fun _ => False) f (o_featureBits o) /\
    carries ws (fun r => set_featureBits (upd f (r_featureBits r)) r).
Proof.
  intros Hw. destruct (o_featureBits o) as [f|].
  - destruct (features_read f) as (g & Hg & Hsame). exists (Some g). split; [done|].
    refine (carries_field _ _ _ _ Hw _). intros r. unfold Invoice.take_field. cbn -[decodeFeatureBits encodeFeatureBits]. by rewrite Hg.
  - exists None. split; [done|]. injection Hw as <-. exists [], []. split_and!; [done|done|]. intros r. by destruct r.
Qed.

(** Everything that is written between the timestamp and the signature. *)
Lemma encoded_fields now o s : options_wf now o -> encode now o = Ok s ->
  exists hrp tagged sig g, buildHrp (o_network o) (o_amountMsat o) = Ok hrp /\ carries tagged g /\
    read_back o (g no_fields) /\
    let dataWords := encodeUintToWords (default now (o_timestamp o)) 7 ++ tagged in
    signInvoice sha256 hrp dataWords (o_privateKey o) = Ok sig /\
    bech32_encode hrp (dataWords ++ bufferToWords sig) BECH32_MAX_LIMIT = Ok s.
Proof.
  intros [] He. unfold Invoice.encode in He.
  apply bind_Ok_inv in He as ([] & Hhash & He). apply throw_if_Ok in Hhash. bool_props.
  apply bind_Ok_inv in He as ([] & Hboth & He). apply throw_if_Ok in Hboth.
  apply bind_Ok_inv in He as ([] & _ & He). apply bind_Ok_inv in He as (hrp & Hhrp & He). cbv zeta in He.
  apply bind_Ok_inv in He as (p & Hp & He). apply bind_Ok_inv in He as (sec & Hs & He).
  apply bind_Ok_inv in He as (d & Hd & He). apply bind_Ok_inv in He as (n & Hn & He).
  apply bind_Ok_inv in He as (x & Hx & He). apply bind_Ok_inv in He as (c & Hc & He).
  apply bind_Ok_inv in He as (f & Hf & He). apply bind_Ok_inv in He as (a & Ha & He).
  apply bind_Ok_inv in He as (rt & Hr & He). apply bind_Ok_inv in He as (b & Hb & He).
  apply bind_Ok_inv in He as (m & Hm & He). apply bind_Ok_inv in He as (sig & Hsig & He).
  assert (carries p (set_paymentHash (Some (o_paymentHash o)))) as Cp
    by (refine (carries_field _ _ _ _ Hp _); intros r; by apply take_hash).
  pose proof (carries_plain _ _ PAYMENT_SECRET bufferToWords _ set_paymentSecret r_paymentSecret Hs
    ltac:(cbv beta; intros; by inv_result) ltac:(cbv beta; intros; inv_result; bool_props; by apply take_hash) ltac:(by intros [])) as Cs.
  pose proof (carries_description o d ow_description0 Hboth Hd) as Cd.
  pose proof (carries_plain _ _ PAYEE_PUBKEY bufferToWords _ set_payeeNodeKey r_payeeNodeKey Hn
    ltac:(cbv beta; intros; by inv_result) ltac:(cbv beta; intros; inv_result; bool_props; by apply take_payee) ltac:(by intros [])) as Cn.
  pose proof (carries_plain _ _ EXPIRY encodeVarInt _ set_expiry r_expiry Hx (fun v ws _ E => E)
    ltac:(intros v ? ? E ?; rewrite E in ow_expiry0; rewrite take_number by auto; by rewrite var_int_read) ltac:(by intros [])) as Cx.
  pose proof (carries_plain _ _ MIN_FINAL_CLTV_EXPIRY encodeVarInt _ set_minFinalCltvExpiry r_minFinalCltvExpiry Hc (fun v ws _ E => E)
    ltac:(intros v ? ? E ?; rewrite E in ow_cltv0; rewrite take_number by auto; by rewrite var_int_read) ltac:(by intros [])) as Cc.
  destruct (carries_features o f Hf) as (fb & Hfb & Cf).
  pose proof (carries_plain _ _ FALLBACK_ADDRESS encodeFallbackAddress _ set_fallbackAddress r_fallbackAddress Ha (fun v ws _ E => E)
    ltac:(intros [] ? ? _ _; unfold Invoice.take_field; cbn; by rewrite words_back) ltac:(by intros [])) as Ca.
  pose proof (carries_hints o rt ow_hints0 Hr) as Cr. pose proof (carries_paths o b ow_paths0 Hb) as Cb.
  pose proof (carries_plain _ _ METADATA bufferToWords _ set_metadata r_metadata Hm (fun v ws _ E => E)
    ltac:(intros v ? ? _ _; unfold Invoice.take_field; cbn; by rewrite words_back) ltac:(by intros [])) as Cm.
  pose proof (carries_app _ _ _ _ Cp (carries_app _ _ _ _ Cs (carries_app _ _ _ _ Cd (carries_app _ _ _ _ Cn
    (carries_app _ _ _ _ Cx (carries_app _ _ _ _ Cc (carries_app _ _ _ _ Cf (carries_app _ _ _ _ Ca
    (carries_app _ _ _ _ Cr (carries_app _ _ _ _ Cb Cm)))))))))) as C.
  eexists hrp, _, sig, _. split; [done|]. split; [exact C|]. split; [|by split].
  clear -Hfb. constructor; cbn; rewrite ?upd_None; try done; by destruct (o_routingHints o), (o_blindedPaths o) as [[]|].
Qed.

(** ** The prefix and the signature *)

Lemma hrp_written network amount hrp : buildHrp network amount = Ok hrp ->
  parseHrp hrp = Ok (network, amount) /\ hrp <> [] /\ forallb hrp_char hrp = true.
Proof.
  intros Hb. assert (match amount with Some n => 0 < n | None => True end) as Ha.
  { destruct amount as [n|]; [|done]. unfold buildHrp, msatToHrpAmount in Hb. inv_result. bool_props. lia. }
  destruct (hrp_read network amount Ha) as (hrp' & Hb' & Hp). assert (hrp' = hrp) as -> by congruence. split; [done|].
  unfold buildHrp in Hb. destruct amount as [n|].
  - destruct (amount_read n Ha) as (s & Hs & [_ _ Hchars]). rewrite Hs, bind_Ok in Hb.
    assert (hrp = (str "ln" ++ network_prefix network) ++ s) as -> by congruence. split; [done|].
    rewrite forallb_app. apply andb_true_intro. split; [by destruct network|]. apply forallb_forall. intros c Hc.
    apply list_elem_of_In in Hc. rewrite Forall_forall in Hchars. destruct (Hchars c Hc) as [Hd|Hm].
    + unfold is_digit in Hd. unfold hrp_char. cbn zeta in *. bool_props.
      rewrite !(proj2 (Z.leb_le _ _)) by lia. by rewrite (proj2 (Z.leb_gt 65 _)) by lia.
    + cbn in Hm. rewrite !elem_of_cons in Hm. destruct_or! Hm; subst; try done. by apply not_elem_of_nil in Hm.
  - injection Hb as <-. split; [done|]. by destruct network.
Qed.

Lemma signature_read hrp dataWords key b : signInvoice sha256 hrp dataWords key = Ok b ->
  blen b = 65 /\ exists pub, secp_getPublicKey key = Ok pub /\ verifyInvoice sha256 hrp dataWords b = Some pub.
Proof.
  intros Hs. unfold signInvoice in Hs. apply bind_Ok_inv in Hs as ([sig recId] & Hsig & [= <-]).
  destruct (signed _ _ _ _ Hsig) as (Hl & Hr & pub & Hpub & Hrec).
  assert (set_byte (copy sig (alloc 65) 0) 64 recId = sig ++ [byte_of_Z recId]) as ->.
  { rewrite copy_fill0, Hl by lia. unfold set_byte. change (Z.to_nat 64) with 64%nat.
    replace 64%nat with (length sig) by (unfold blen in Hl; lia). change (alloc (65 - 64)) with [byte_of_Z 0].
    by rewrite insert_app_r_alt, Nat.sub_diag. }
  assert (blen (sig ++ [byte_of_Z recId]) = 65) as Hl' by (rewrite blen_app, Hl; done). split; [done|].
  exists pub. split; [done|]. unfold verifyInvoice. rewrite Hl'. cbn [negb Z.eqb Pos.eqb].
  rewrite subarray_hd by lia. rewrite byte_at_skip, Hl by lia. rewrite byte_at_hd by done.
  rewrite Z_of_byte_of_Z, Z.mod_small by lia. rewrite (proj2 (Z.ltb_ge _ _)) by lia. by rewrite Hrec.
Qed.

(** ** The round trip *)

Record same_invoice (now : Z) (o : IInvoiceCreationOptions) (i : IInvoice) : Prop := {
  si_network : i_network i = o_network o;
  si_amount : i_amountMsat i = o_amountMsat o;
  si_timestamp : i_timestamp i = default now (o_timestamp o);
  si_hash : i_paymentHash i = o_paymentHash o;
  si_secret : i_paymentSecret i = o_paymentSecret o;
  si_description : i_description i = o_description o;
  si_descriptionHash : i_descriptionHash i = o_descriptionHash o;
  si_payee : i_payeeNodeKey i = o_payeeNodeKey o;
  si_expiry : i_expiry i = o_expiry o;
  si_cltv : i_minFinalCltvExpiry i = o_minFinalCltvExpiry o;
  si_fallback : i_fallbackAddress i = o_fallbackAddress o;
  si_features : option_relation same_bits (fun _ => False) (fun _ => False) (i_featureBits i) (o_featureBits o);
  si_metadata : i_metadata i = o_metadata o;
  si_hints : i_routingHints i = o_routingHints o ≫= nonempty;
  si_paths : i_blindedPaths i = o_blindedPaths o ≫= nonempty;
  si_unknown : i_unknownTags i = None;
  si_signer : exists pub, secp_getPublicKey (o_privateKey o) = Ok pub /\ i_recoveredPubkey i = Some pub
}.

Lemma slices ts tagged sig : length ts = 7%nat -> Z.of_nat (length sig) = 104 ->
  let words := (ts ++ tagged) ++ sig in let size := Z.of_nat (length words) in
  (size <? 111) = false /\ slice words 0 7 = ts /\ slice words (size - 104) size = sig /\
  slice words 7 (size - 104) = tagged /\ slice words 0 (size - 104) = ts ++ tagged.
Proof.
  intros Ht Hs. cbn zeta. rewrite !length_app. split_and!.
  - apply Z.ltb_ge. lia.
  - rewrite <- app_assoc. apply (slice_mid [] ts); cbn; lia.
  - rewrite <- (app_nil_r ((ts ++ tagged) ++ sig)), <- app_assoc. apply slice_mid; rewrite ?length_app; lia.
  - rewrite <- app_assoc. apply slice_mid; lia.
  - apply (slice_mid [] (ts ++ tagged)); rewrite ?length_app; cbn; lia.
Qed.

Lemma carried tagged g : carries tagged g -> take_fields (length tagged) tagged 0 no_fields = Ok (g no_fields).
Proof.
  intros (fs & bs & Hf & -> & Hg). rewrite <- (Hg no_fields). by apply (fields_run fs bs []).
Qed.

(** C22: an invoice that is encoded is decoded with the network,
    the amount, the timestamp and every field it was made from (features as a
    set of bits, empty lists of hints and paths left out), no unknown tag, and a
    signature that recovers to the key that signed it. *)
Theorem invoice_roundtrip now o s (Hwf : options_wf now o) (Henc : encode now o = Ok s) :
  exists i, decode s None = Ok i /\ same_invoice now o i.
Proof.
  destruct (encoded_fields now o s Hwf Henc) as (hrp & tagged & sig & g & Hhrp & Hc & Hrb & Hsig & He).
  destruct (hrp_written _ _ _ Hhrp) as (Hparse & Hne & Hch). destruct (signature_read _ _ _ _ Hsig) as (Hl & pub & Hpub & Hver).
  destruct (uint_words 7 _ (ow_timestamp _ _ Hwf)) as [Hts Htl].
  pose proof (words_length sig 524 ltac:(lia)) as Hsl. change (524 / 5) with 104 in Hsl.
  destruct (slices _ tagged _ Htl Hsl) as (Hshort & Sts & Ssig & Stag & Sdata). cbn zeta in *.
  unfold Invoice.decode. rewrite (bech32_read _ _ _ _ Hne Hch He), bind_Ok, Hparse, bind_Ok.
  unfold TIMESTAMP_WORDS, SIGNATURE_WORDS. change (7 + 104) with 111. rewrite Hshort, throw_pass by done.
  rewrite Sts, Ssig, Stag, Sdata, words_back, bind_Ok, subarray_all by lia.
  rewrite bool_decide_false, Hver, bind_Ok, (carried _ _ Hc), bind_Ok by done. destruct Hrb. rewrite rb_hash0.
  assert (opt_all (fun k => k = pub) (o_payeeNodeKey o)) as Hpayee
    by (pose proof (ow_payee _ _ Hwf) as Hk; destruct (o_payeeNodeKey o); cbn in *; congruence).
  unfold Invoice.encode in Henc. apply bind_Ok_inv in Henc as ([] & _ & Henc).
  apply bind_Ok_inv in Henc as ([] & Hb%throw_if_Ok & Henc). apply bind_Ok_inv in Henc as ([] & Hn%throw_if_Ok & _).
  rewrite throw_pass.
  2:{ rewrite rb_payee0. destruct (o_payeeNodeKey o) as [k|]; [|done]. cbn in Hpayee. subst k.
      unfold buf_equals. by rewrite bool_decide_true. }
  rewrite rb_description0, rb_descriptionHash0, Hb, Hn, !throw_pass by done.
  eexists. split; [reflexivity|]. constructor; cbn; try done; [by rewrite rb_unknown0|by exists pub].
Qed.

(** ** What every decoded invoice satisfies *)

(** More turns of the loop change nothing: every field takes three words or more. *)
Lemma take_fields_fuel ws : Forall word5 ws -> forall fuel offset r, 0 <= offset ->
  Z.of_nat (length ws) - offset <= Z.of_nat fuel -> take_fields (S fuel) ws offset r = take_fields fuel ws offset r.
Proof.
  intros Hw. assert (forall i, 0 <= word_at ws i) as Hat.
  { intros i. unfold word_at. destruct (ws !! Z.to_nat i) as [w|] eqn:E; [|done]. rewrite Forall_lookup in Hw.
    pose proof (Hw _ _ E) as Hr. unfold word5 in Hr. cbn. lia. }
  induction fuel as [|fuel IH]; intros offset r Ho Hf.
  { cbn [Invoice.take_fields]. by rewrite (proj2 (Z.ltb_ge _ _)) by lia. }
  cbn [Invoice.take_fields]. destruct (Z.ltb_spec offset (Z.of_nat (length ws))); [|done].
  destruct (decodeTaggedField ws offset) as [[[t dw] next]|] eqn:Ed; [|done]. rewrite !bind_Ok.
  destruct (take_field r (t, dw)) as [r'|]; [|done]. rewrite !bind_Ok.
  assert (offset + 3 <= next) as Hn.
  { unfold decodeTaggedField in Ed. inv_result. pose proof (Hat (offset + 1)). pose proof (Hat (offset + 2)). lia. }
  apply IH; lia.
Qed.

Record partial_wf (r : partial) : Prop := {
  pw_hash : opt_all (fun b => blen b = 32) (r_paymentHash r);
  pw_secret : opt_all (fun b => blen b = 32) (r_paymentSecret r);
  pw_descriptionHash : opt_all (fun b => blen b = 32) (r_descriptionHash r);
  pw_payee : opt_all (fun b => blen b = 33) (r_payeeNodeKey r)
}.

Lemma hash_length ws k h : 0 <= k -> decodeFixedLengthHash ws k = Ok h -> blen h = k.
Proof.
  intros Hk Hd. unfold decodeFixedLengthHash in Hd. inv_result. bool_props. rewrite blen_subarray; lia.
Qed.

Lemma payee_length ws h : decodePayeeNodeKey ws = Ok h -> blen h = 33.
Proof. intros Hd. unfold decodePayeeNodeKey in Hd. inv_result. bool_props. rewrite blen_subarray; lia. Qed.

Lemma take_field_wf r f r' : partial_wf r -> take_field r f = Ok r' -> partial_wf r'.
Proof.
  intros [] Ht. destruct f as [t ws]. unfold Invoice.take_field in Ht. cbv zeta in Ht.
  repeat match type of Ht with context [if ?c then _ else _] => destruct c | context [match FIXED_LENGTH_TAG_WORDS t with _ => _ end] => destruct (FIXED_LENGTH_TAG_WORDS t) end;
    inv_result; constructor; cbn; try done; first [by eapply hash_length | by eapply payee_length].
Qed.

Lemma take_fields_wf fuel : forall ws offset r r', partial_wf r -> take_fields fuel ws offset r = Ok r' -> partial_wf r'.
Proof.
  induction fuel as [|fuel IH]; intros ws offset r r' Hw Ht; cbn [Invoice.take_fields] in Ht; case_match; try (by injection Ht as <-).
  apply bind_Ok_inv in Ht as ([[t dw] next] & _ & Ht). apply bind_Ok_inv in Ht as (r1 & Hr1 & Ht).
  eapply IH; [|done]. by eapply take_field_wf.
Qed.

Lemma amount_positive hrp network n : parseHrp hrp = Ok (network, Some n) -> n <> 0.
Proof.
  intros Hp. unfold parseHrp in Hp. destruct (after _ hrp) as [rest|]; [|done]. cbv zeta in Hp. revert Hp.
  match goal with |- context [try_prefixes ?l _] => generalize l end. intros l. induction l as [|[px nw] l IH]; [done|]. cbn [try_prefixes]. destruct (after px rest) as [[|c cs]|]; [done| |done].
  intros (msat & Hm & [= _ ->])%bind_Ok_inv. unfold hrpAmountToMsat in Hm. inv_result. by bool_props.
Qed.

(** The invoice [i] read from the prefix and the words of a bech32 string. *)
Record decoded_wf (recoverSigner : option bool) (prefix : chars) (words : list Z) (i : IInvoice) : Prop := {
  dw_timestamp : 0 <= i_timestamp i < 2 ^ 35;
  dw_amount : opt_all (fun n => n <> 0) (i_amountMsat i);
  dw_hash : blen (i_paymentHash i) = 32;
  dw_secret : opt_all (fun b => blen b = 32) (i_paymentSecret i);
  dw_descriptionHash : opt_all (fun b => blen b = 32) (i_descriptionHash i);
  dw_payee : opt_all (fun b => blen b = 33) (i_payeeNodeKey i);
  dw_one_description : is_Some (i_description i) <-> i_descriptionHash i = None;
  dw_signature : blen (i_signature i) = 65;
  dw_signer : recoverSigner <> Some false -> exists pub,
    i_recoveredPubkey i = Some pub /\ opt_all (fun k => k = pub) (i_payeeNodeKey i) /\
    let signed_words := take (length words - 104) words in
    secp_recoverPublicKey (computeSigningHash sha256 prefix signed_words) (subarray (i_signature i) 0 64)
      (byte_at (i_signature i) 64) = Ok pub
}.

(** C23: every invoice the decoder accepts is well formed: hashes
    of 32 bytes, a payee of 33, a 65-byte signature, exactly one of description
    and description hash, an amount that is not zero.  Unless the caller turned
    the check off, the signature over the prefix and all words before it recovers
    to a key, and a payee field is that key. *)
Theorem decoded_invoice_wf s recoverSigner i (Hdec : decode s recoverSigner = Ok i) :
  exists prefix words, bech32_decode s BECH32_MAX_LIMIT = Ok (prefix, words) /\
    decoded_wf recoverSigner prefix words i.
Proof.
  unfold Invoice.decode in Hdec. apply bind_Ok_inv in Hdec as ([prefix words] & Hbech & Hdec).
  apply bind_Ok_inv in Hdec as ([network amount] & Hhrp & Hdec). apply bind_Ok_inv in Hdec as ([] & Hshort%throw_if_Ok & Hdec).
  bool_props. unfold TIMESTAMP_WORDS, SIGNATURE_WORDS in *. apply bind_Ok_inv in Hdec as (sig & Hsig & Hdec).
  apply bind_Ok_inv in Hdec as (recovered & Hrec & Hdec). apply bind_Ok_inv in Hdec as (r & Hr & Hdec).
  destruct (r_paymentHash r) as [hash|] eqn:Ehash; [|done].
  apply bind_Ok_inv in Hdec as ([] & Hpayee%throw_if_Ok & Hdec). apply bind_Ok_inv in Hdec as ([] & Hboth%throw_if_Ok & Hdec).
  apply bind_Ok_inv in Hdec as ([] & Hnone%throw_if_Ok & [= <-]).
  assert (partial_wf r) as [] by (eapply take_fields_wf; [|exact Hr]; by constructor). rewrite Ehash in *.
  pose proof (bech32_words _ _ _ _ Hbech) as Hw5.
  assert (blen (subarray sig 0 65) = 65) as Hsig65.
  { apply fromWords_length in Hsig. unfold slice in Hsig. rewrite length_take, length_drop in Hsig.
    replace (Z.of_nat _) with 104 in Hsig by lia. change (5 * 104 / 8) with 65 in Hsig. rewrite blen_subarray; lia. }
  exists prefix, words. split; [done|]. constructor; cbn; try done.
  - pose proof (decodeUint_bound (slice words 0 7)) as Hb. unfold slice in *. rewrite length_take, length_drop in Hb.
    change (2 ^ 35) with (32 ^ 7). replace (Z.of_nat _) with 7 in Hb by lia. apply Hb. by apply Forall_take, Forall_drop.
  - destruct amount as [n|]; [|done]. by apply amount_positive in Hhrp.
  - destruct (r_description r), (r_descriptionHash r); cbn in *; try done; split; try done; by intros [].
  - intros Hopt. rewrite bool_decide_false in Hrec by done.
    destruct (verifyInvoice _ _ _ _) as [pub|] eqn:Ev; [|done]. injection Hrec as <-. exists pub. split; [done|]. split.
    + destruct (r_payeeNodeKey r) as [k|]; [|done]. cbn. unfold buf_equals in Hpayee. by apply negb_false_iff, bool_decide_eq_true in Hpayee.
    + unfold verifyInvoice in Ev. rewrite Hsig65 in Ev. cbn [negb Z.eqb Pos.eqb] in Ev.
      unfold slice in Ev. rewrite drop_0 in Ev. replace (Z.to_nat (_ - _ - 0)) with (length words - 104)%nat in Ev by lia.
      destruct (3 <? _); [done|]. destruct (secp_recoverPublicKey _ _ _); congruence.
Qed.

End Run.
