(* ===== verification/InvoiceSample.v ===== *)
(** * An invoice on concrete libraries

    The regrouping of bits is that of the bech32 library; its checksum is left
    out and the signature is a stand-in, which is all the laws of [Bech32Laws]
    and [NobleLaws] need. *)

From S2P Require Import Prelude Buffer Codec Wire Features BlindedPath InvoiceAmount InvoiceWords Invoice InvoiceRun Text.
From Stdlib Require Import Strings.Ascii Strings.Byte.
Local Open Scope Z_scope.

(** ** Regrouping bits *)

Definition to_words (b : buffer) : list Z :=
  let n := (8 * blen b + 4) / 5 in
  encodeUintToWords (unbe b * 2 ^ (5 * n - 8 * blen b)) (Z.to_nat n).

Definition from_words (ws : list Z) : result buffer :=
  let bits := 5 * Z.of_nat (length ws) in
  let n := bits / 8 in
  let pad := bits - 8 * n in
  let value := decodeUintFromWords ws in
  _ ← throw_if (5 <=? pad) "Excess padding";
  _ ← throw_if (negb (value mod 2 ^ pad =? 0)) "Non-zero padding";
  Ok (be (Z.to_nat n) (value / 2 ^ pad)).

Lemma to_words_value b : let n := (8 * blen b + 4) / 5 in
  decodeUintFromWords (to_words b) = unbe b * 2 ^ (5 * n - 8 * blen b) /\ Z.of_nat (length (to_words b)) = n.
Proof.
  cbn zeta. unfold to_words. cbv zeta. set (n := (8 * blen b + 4) / 5). pose proof (blen_nonneg b) as Hb.
  assert (0 <= 5 * n - 8 * blen b < 5) as Hp by (unfold n; Z.to_euclidean_division_equations; lia).
  destruct (uint_words (Z.to_nat n) (unbe b * 2 ^ (5 * n - 8 * blen b))) as [-> ->]; [|split; [done|lia]].
  rewrite Z2Nat.id by lia. pose proof (unbe_bound b) as Hu. replace (32 ^ n) with (256 ^ blen b * 2 ^ (5 * n - 8 * blen b)); [nia|].
  change 256 with (2 ^ 8). change 32 with (2 ^ 5). rewrite <- !Z.pow_mul_r, <- Z.pow_add_r by lia. f_equal. lia.
Qed.

Lemma from_to_words b : from_words (to_words b) = Ok b.
Proof.
  destruct (to_words_value b) as [Hv Hl]. cbn zeta in *. pose proof (blen_nonneg b) as Hb.
  set (n := (8 * blen b + 4) / 5) in *. unfold from_words. rewrite Hl, Hv. cbv zeta.
  assert (0 <= 5 * n - 8 * blen b < 5) as Hp by (unfold n; Z.to_euclidean_division_equations; lia).
  assert (5 * n / 8 = blen b) as -> by (Z.to_euclidean_division_equations; lia).
  assert (0 < 2 ^ (5 * n - 8 * blen b)) by lia.
  rewrite throw_pass by (apply Z.leb_gt; lia). rewrite throw_pass by (by rewrite Z.mod_mul by lia).
  rewrite Z.div_mul by lia. f_equal. apply be_unbe. unfold blen. lia.
Qed.

Lemma from_words_length ws b : from_words ws = Ok b -> blen b = 5 * Z.of_nat (length ws) / 8.
Proof.
  intros Hf. unfold from_words in Hf. inv_result. rewrite blen_be, Z2Nat.id; [done|]. apply Z.div_pos; lia.
Qed.

(** ** Text *)

Definition charset : chars := str "qpzry9x8gf2tvdw0s3jn54khce6mua7l".

Definition to_char (w : Z) : ascii := nth (Z.to_nat w) charset "1"%char.

Fixpoint index_of (c : ascii) (cs : chars) (i : Z) : result Z :=
  match cs with
  | [] => Err "Unknown character"
  | d :: cs => if decide (c = d) then Ok i else index_of c cs (i + 1)
  end.

Fixpoint split_at_one (s acc : chars) : option (chars * chars) :=
  match s with
  | [] => None
  | c :: s => if decide (c = "1"%char) then Some (s, acc) else split_at_one s (c :: acc)
  end.

Definition text_encode (hrp : chars) (words : list Z) (limit : Z) : result chars :=
  _ ← throw_if (negb (forallb (fun w => (0 <=? w) && (w <? 32)) words)) "Non 5-bit word";
  _ ← throw_if (limit <? Z.of_nat (length hrp + 1 + length words)) "Exceeds length limit";
  Ok (hrp ++ "1"%char :: map to_char words).

Definition text_decode (s : chars) (limit : Z) : result (chars * list Z) :=
  _ ← throw_if (limit <? Z.of_nat (length s)) "Exceeds length limit";
  match split_at_one (reverse s) [] with
  | None => Err "No separator character"
  | Some (hrp, data) => words ← mapM (fun c => index_of c charset 0) data; Ok (reverse hrp, words)
  end.

Lemma char_read w : word5 w -> index_of (to_char w) charset 0 = Ok w /\ to_char w <> "1"%char.
Proof.
  intros Hw. unfold word5 in Hw. rewrite <- (Z2Nat.id w) by lia. assert (Z.to_nat w < 32)%nat as Hn by lia.
  revert Hn. generalize (Z.to_nat w). intros n Hn. do 32 (destruct n as [|n]; [split; [reflexivity|discriminate]|]). lia.
Qed.

Lemma split_read ws hrp : Forall word5 ws -> forall acc,
  split_at_one (reverse (map to_char ws) ++ "1"%char :: hrp) acc = Some (hrp, map to_char ws ++ acc).
Proof.
  induction ws as [|w ws IH] using rev_ind; intros Hw acc; [done|].
  apply Forall_app in Hw as [Hw Hx]. rewrite Forall_singleton in Hx. rewrite map_app, reverse_app. cbn.
  rewrite decide_False by (by apply char_read). rewrite IH by done. by rewrite <- app_assoc.
Qed.

Lemma text_read hrp words limit s : text_encode hrp words limit = Ok s -> text_decode s limit = Ok (hrp, words).
Proof.
  intros He. unfold text_encode in He. inv_result. bool_props.
  assert (Forall word5 words) as Hw.
  { apply List.Forall_forall. intros w Hin. match goal with H : forallb _ words = true |- _ => rewrite forallb_forall in H; specialize (H w Hin) end.
    bool_props. by split. }
  unfold text_decode. rewrite throw_pass by (apply Z.ltb_ge; rewrite length_app; cbn [length]; rewrite length_map; lia).
  rewrite reverse_app, reverse_cons, <- app_assoc. cbn [app]. rewrite split_read, app_nil_r by done.
  assert (mapM (fun c => index_of c charset 0) (map to_char words) = Ok words) as ->; [|by rewrite bind_Ok, reverse_involutive].
  clear -Hw. induction Hw as [|w ws Hw _ IH]; [done|]. cbn [map]. rewrite mapM_cons, (proj1 (char_read w Hw)), bind_Ok. by rewrite IH.
Qed.

Lemma index_bound c cs : forall i w, index_of c cs i = Ok w -> i <= w < i + Z.of_nat (length cs).
Proof.
  induction cs as [|d cs IH]; intros i w; [done|]. cbn [index_of length]. case_decide; [intros [= <-]; lia|].
  intros ?%IH. lia.
Qed.

Lemma text_words s limit hrp words : text_decode s limit = Ok (hrp, words) -> Forall word5 words.
Proof.
  intros Hd. unfold text_decode in Hd. apply bind_Ok_inv in Hd as ([] & _ & Hd). destruct (split_at_one _ _) as [[h data]|]; [|done].
  apply bind_Ok_inv in Hd as (ws & Hm & [= _ <-]). revert ws Hm. induction data as [|c data IH]; intros ws; [by intros [= <-]|].
  rewrite mapM_cons. intros (w & Hw & (ws' & Hws & [= <-])%bind_Ok_inv)%bind_Ok_inv. constructor; [|by apply IH].
  apply index_bound in Hw. change (Z.of_nat (length charset)) with 32 in Hw. unfold word5. lia.
Qed.

#[global] Instance sample_bech32 : Bech32 :=
  {| bech32_encode := text_encode; bech32_decode := text_decode; bech32_toWords := to_words; bech32_fromWords := from_words |}.

#[global] Instance sample_bech32_laws : Bech32Laws.
Proof.
  constructor; cbn.
  - intros hrp words limit s _ _. apply text_read.
  - apply text_words.
  - intros b. apply to_words_value.
  - apply from_to_words.
  - apply from_words_length.
Qed.

(** ** Signatures *)

#[global] Instance sample_noble : Noble :=
  {| secp_signSync hash key := if blen key =? 32 then Ok (key ++ alloc 32, 1) else Err "Expected 32 bytes";
     secp_getPublicKey key := if blen key =? 32 then Ok (x02 :: key) else Err "Expected 32 bytes";
     secp_recoverPublicKey hash sig recId := if blen sig =? 64 then Ok (x02 :: take 32 sig) else Err "Expected 64 bytes" |}.

#[global] Instance sample_noble_laws : NobleLaws.
Proof.
  constructor; cbn.
  - intros hash key sig recId Hs. destruct (Z.eqb_spec (blen key) 32) as [E|]; [|done].
    injection Hs as <- <-. rewrite blen_app, blen_alloc, E by lia. split; [done|]. split; [lia|]. eexists. split; [done|]. cbn.
    do 2 f_equal. rewrite take_app_le by (unfold blen in E; lia). apply take_ge. unfold blen in E. lia.
  - intros hash sig recId pub Hr. destruct (Z.eqb_spec (blen sig) 64) as [E|]; [|done]. injection Hr as <-.
    rewrite blen_cons. unfold blen in *. rewrite length_take. lia.
Qed.

(** ** A full invoice *)

Definition sample_hop : IRoutingHintHop :=
  {| rh_pubkey := x02 :: be 32 77; rh_shortChannelId := be 8 700000; rh_feeBaseMsat := 1000;
     rh_feeProportionalMillionths := 250; rh_cltvExpiryDelta := 144 |}.

Definition sample_options : IInvoiceCreationOptions :=
  {| o_network := REGTEST; o_amountMsat := Some 2500000; o_timestamp := None; o_paymentHash := be 32 11;
     o_paymentSecret := Some (be 32 12); o_description := Some [99; 97; 102; 233; 32; 0xD83C; 0xDF69]; o_descriptionHash := None;
     o_expiry := Some 86400; o_minFinalCltvExpiry := Some 18;
     o_fallbackAddress := Some {| fa_version := 0; fa_hash := be 20 9 |}; o_routingHints := Some [[sample_hop; sample_hop]; [sample_hop]];
     o_blindedPaths := Some [{| bpp_path := sample_path; bpp_payInfo := sample_info |}]; o_featureBits := Some [x02; x41; x00];
     o_metadata := Some [x01; x02]; o_payeeNodeKey := Some (x02 :: be 32 5); o_privateKey := be 32 5 |}.

Lemma sample_options_wf : options_wf (fun _ => true) 1700000000 sample_options.
Proof.
  constructor; cbn; try lia; try done; repeat (constructor; try done); cbn; try lia; by vm_compute.
Qed.

Lemma invoice_roundtrip_witness :
  match encode (fun b => b) 1700000000 sample_options with
  | Ok s => exists i, decode (fun b => b) (fun _ => true) s None = Ok i /\ same_invoice 1700000000 sample_options i
  | Err _ => False
  end.
Proof.
  destruct (encode _ _ _) as [s|e] eqn:E.
  - apply (invoice_roundtrip (fun b => b) (fun _ => true)); [apply sample_options_wf|exact E].
  - by vm_compute in E.
Defined.

Lemma decoded_invoice_wf_witness :
  match encode (fun b => b) 1700000000 sample_options with
  | Ok s => match decode (fun b => b) (fun _ => true) s None with
            | Ok i => exists prefix words, bech32_decode s BECH32_MAX_LIMIT = Ok (prefix, words) /\
                decoded_wf (fun b => b) None prefix words i
            | Err _ => False
            end
  | Err _ => False
  end.
Proof.
  destruct (encode _ _ _) as [s|e] eqn:E; [|by vm_compute in E].
  destruct (decode _ _ s None) as [i|e] eqn:D.
  - by apply (decoded_invoice_wf (fun b => b) (fun _ => true)).
  - vm_compute in E. injection E as <-. by vm_compute in D.
Defined.
