(* ===== verification/GossipTypes.v ===== *)
(** * Gossip: data and short channel ids (src/src/lightning/gossip/types.ts)

    A host name is text; the announcement of a synthetic channel, [{}] in the
    code, is [None]. *)

From S2P Require Import Prelude Buffer Codec Wire Text.
Local Open Scope Z_scope.

Record IShortChannelId := { sc_block : Z; sc_txIndex : Z; sc_outputIndex : Z }.

Record INodeAddress := { na_type : Z; na_host : string; na_port : Z }.

Record IChannelAnnouncementMessage := {
  ca_nodeSignature1 : buffer;
  ca_nodeSignature2 : buffer;
  ca_bitcoinSignature1 : buffer;
  ca_bitcoinSignature2 : buffer;
  ca_features : buffer;
  ca_chainHash : buffer;
  ca_shortChannelId : buffer;
  ca_nodeId1 : buffer;
  ca_nodeId2 : buffer;
  ca_bitcoinKey1 : buffer;
  ca_bitcoinKey2 : buffer
}.

Record ILeaseRates := {
  lr_fundingWeightWitness : Z;
  lr_leaseFeeBasis : Z;
  lr_leaseFeeBaseSat : Z;
  lr_channelFeeMaxBaseMsat : Z;
  lr_channelFeeMaxProportionalThousandths : Z
}.

Record INodeAnnouncementMessage := {
  nn_signature : buffer;
  nn_features : buffer;
  nn_timestamp : Z;
  nn_nodeId : buffer;
  nn_rgbColor : buffer;
  nn_alias : buffer;
  nn_addresses : list INodeAddress;
  nn_leaseRates : option ILeaseRates
}.

Record IChannelUpdateMessage := {
  cu_signature : buffer;
  cu_chainHash : buffer;
  cu_shortChannelId : buffer;
  cu_timestamp : Z;
  cu_messageFlags : Z;
  cu_channelFlags : Z;
  cu_cltvExpiryDelta : Z;
  cu_htlcMinimumMsat : Z;
  cu_feeBaseMsat : Z;
  cu_feeProportionalMillionths : Z;
  cu_htlcMaximumMsat : option Z
}.

Record IGraphChannel := {
  gc_shortChannelId : buffer;
  gc_nodeId1 : buffer;
  gc_nodeId2 : buffer;
  gc_features : buffer;
  gc_announcement : option IChannelAnnouncementMessage;
  gc_update1 : option IChannelUpdateMessage;
  gc_update2 : option IChannelUpdateMessage;
  gc_announcementVerified : option bool;
  gc_update1Verified : option bool;
  gc_update2Verified : option bool;
  gc_announcementVerifyDeferred : option bool;
  gc_update1VerifyDeferred : option bool;
  gc_update2VerifyDeferred : option bool;
  gc_fundingVerified : option bool
}.

Record IGraphEdge := { ge_channel : IGraphChannel; ge_scidHex : string; ge_node1Hex : string; ge_node2Hex : string }.

Record IGraphNode := {
  gn_nodeId : buffer;
  gn_announcement : option INodeAnnouncementMessage;
  gn_channels : list string;
  gn_announcementVerified : option bool;
  gn_announcementVerifyDeferred : option bool
}.

Record IRouteHop := {
  hop_pubkey : buffer;
  hop_shortChannelId : buffer;
  hop_amountToForwardMsat : Z;
  hop_outgoingCltvValue : Z;
  hop_feeBaseMsat : Z;
  hop_feeProportionalMillionths : Z;
  hop_cltvExpiryDelta : Z;
  hop_encryptedRecipientData : option buffer;
  hop_blindingPoint : option buffer
}.

Record IRoute := {
  rt_hops : list IRouteHop;
  rt_totalAmountMsat : Z;
  rt_totalCltvDelta : Z;
  rt_totalFeeMsat : Z
}.

Definition CHANNEL_FLAG_DIRECTION : Z := 1.
Definition CHANNEL_FLAG_DISABLED : Z := 2.
Definition MESSAGE_FLAG_HTLC_MAX : Z := 1.
Definition MESSAGE_FLAG_DONT_FORWARD : Z := 2.
Definition DEFAULT_PRUNE_MAX_AGE : Z := 1209600.
Definition MAX_GOSSIP_TIMESTAMP_SKEW : Z := 3600.

(** [now] is [Math.floor(Date.now() / 1000)]. *)
Definition gossipTimestampTooFarFuture (now timestamp : Z) : bool := now + MAX_GOSSIP_TIMESTAMP_SKEW <? timestamp.

(** ** Short channel ids *)

Definition encodeShortChannelId (scid : IShortChannelId) : result buffer :=
  _ ← throw_if ((sc_block scid <? 0) || (0xffffff <? sc_block scid)) "Block out of range";
  _ ← throw_if ((sc_txIndex scid <? 0) || (0xffffff <? sc_txIndex scid)) "txIndex out of range";
  _ ← throw_if ((sc_outputIndex scid <? 0) || (0xffff <? sc_outputIndex scid)) "outputIndex out of range";
  let val := Z.lor (Z.lor (Z.shiftl (sc_block scid) 40) (Z.shiftl (sc_txIndex scid) 16)) (sc_outputIndex scid) in
  writeBigUInt64BE (alloc 8) val 0.

Definition decodeShortChannelId (buf : buffer) : result IShortChannelId :=
  _ ← throw_if (negb (blen buf =? 8)) "Short channel ID must be 8 bytes";
  val ← readBigUInt64BE buf 0;
  Ok {| sc_block := Z.land (Z.shiftr val 40) 0xffffff; sc_txIndex := Z.land (Z.shiftr val 16) 0xffffff;
        sc_outputIndex := Z.land val 0xffff |}.

Definition scid_wf (s : IShortChannelId) : Prop :=
  0 <= sc_block s < 2 ^ 24 /\ 0 <= sc_txIndex s < 2 ^ 24 /\ 0 <= sc_outputIndex s < 2 ^ 16.

(** The three parts of an id are read back. *)
Lemma short_channel_id_read s : scid_wf s ->
  exists b, encodeShortChannelId s = Ok b /\ decodeShortChannelId b = Ok s.
Proof.
  intros (Hb & Ht & Ho). unfold encodeShortChannelId.
  rewrite !throw_pass by (apply orb_false_iff; split; apply Z.ltb_ge; lia).
  assert (Z.lor (Z.shiftl (sc_block s) 40) (Z.shiftl (sc_txIndex s) 16) = Z.shiftl (sc_block s * 2 ^ 24 + sc_txIndex s) 16) as ->.
  { rewrite <- lor_shiftl_add by lia. rewrite Z.shiftl_lor, Z.shiftl_shiftl by lia. done. }
  rewrite lor_shiftl_add by lia. set (v := _ + _). assert (0 <= v < 256 ^ 8) by (unfold v; lia).
  eexists. unfold writeBigUInt64BE. rewrite write_fill0 by lia. split; [reflexivity|]. change (alloc (8 - 8)) with (@nil Byte.byte).
  rewrite app_nil_r. unfold decodeShortChannelId. rewrite blen_be. rewrite throw_pass by done.
  unfold readBigUInt64BE. rewrite readUIntBE_all by done. rewrite bind_Ok. destruct s as [b t o]. cbn in *. f_equal.
  change 0xffffff with (Z.ones 24). change 0xffff with (Z.ones 16). rewrite !Z.land_ones, !Z.shiftr_div_pow2 by lia.
  f_equal; unfold v; Z.to_euclidean_division_equations; lia.
Qed.
