(* ===== verification/GossipMessages.v ===== *)
(** * Gossip messages (src/src/lightning/gossip/messages.ts, gossip-queries.ts,
      scid-encoding.ts) and the lease rates of types.ts *)

From S2P Require Import Prelude Buffer Codec Tlv Wire GossipTypes Messages Text.
From Stdlib Require Import Strings.Byte.
Local Open Scope Z_scope.

(** Writing one byte into an allocated buffer. *)
Lemma set_fill pre v k off : off = blen pre -> 1 <= k ->
  set_byte (pre ++ alloc k) off v = (pre ++ [byte_of_Z v]) ++ alloc (k - 1).
Proof.
  intros -> Hk. unfold set_byte, blen. rewrite Nat2Z.id, insert_app_r_alt, Nat.sub_diag by lia. rewrite <- app_assoc. f_equal.
  unfold alloc. replace (Z.to_nat k) with (S (Z.to_nat (k - 1))) by lia. done.
Qed.

(** Writing fields and bytes one after the other. *)
Ltac genc := unfold writeUInt16BE, writeUInt32BE, writeBigUInt64BE;
  repeat first
    [ rewrite copy_fill0 by blia | rewrite write_fill0 by rng | rewrite copy_fill by blia | rewrite write_fill by rng
    | rewrite set_fill by blia | progress rewrite ?bind_Ok ];
  repeat match goal with |- context [alloc ?n] => rewrite (alloc_0 n) by blia end;
  simpl Z.to_nat; rewrite ?app_nil_r, <- ?app_assoc.

(** ** channel_announcement *)

Definition CHANNEL_ANNOUNCEMENT_MIN_LENGTH : Z := 430.

Definition encodeChannelAnnouncementMessage (msg : IChannelAnnouncementMessage) : result buffer :=
  let flen := blen (ca_features msg) in
  let buf := alloc (256 + 2 + flen + 172) in
  let buf := copy (ca_nodeSignature1 msg) buf 0 in
  let buf := copy (ca_nodeSignature2 msg) buf 64 in
  let buf := copy (ca_bitcoinSignature1 msg) buf 128 in
  let buf := copy (ca_bitcoinSignature2 msg) buf 192 in
  buf ← writeUInt16BE buf flen 256;
  let buf := copy (ca_features msg) buf 258 in
  let offset := 258 + flen in
  let buf := copy (ca_chainHash msg) buf offset in
  let buf := copy (ca_shortChannelId msg) buf (offset + 32) in
  let buf := copy (ca_nodeId1 msg) buf (offset + 40) in
  let buf := copy (ca_nodeId2 msg) buf (offset + 73) in
  let buf := copy (ca_bitcoinKey1 msg) buf (offset + 106) in
  Ok (copy (ca_bitcoinKey2 msg) buf (offset + 139)).

Definition decodeChannelAnnouncementMessage (payload : buffer) : result IChannelAnnouncementMessage :=
  _ ← throw_if (blen payload <? CHANNEL_ANNOUNCEMENT_MIN_LENGTH) "channel_announcement too short";
  flen ← readUInt16BE payload 256;
  let offset := 258 + flen in
  Ok {| ca_nodeSignature1 := subarray payload 0 64; ca_nodeSignature2 := subarray payload 64 128;
        ca_bitcoinSignature1 := subarray payload 128 192; ca_bitcoinSignature2 := subarray payload 192 256;
        ca_features := subarray payload 258 offset; ca_chainHash := subarray payload offset (offset + 32);
        ca_shortChannelId := subarray payload (offset + 32) (offset + 40);
        ca_nodeId1 := subarray payload (offset + 40) (offset + 73); ca_nodeId2 := subarray payload (offset + 73) (offset + 106);
        ca_bitcoinKey1 := subarray payload (offset + 106) (offset + 139);
        ca_bitcoinKey2 := subarray payload (offset + 139) (offset + 172) |}.

Record channel_announcement_wf (m : IChannelAnnouncementMessage) : Prop := {
  caw_s1 : blen (ca_nodeSignature1 m) = 64; caw_s2 : blen (ca_nodeSignature2 m) = 64;
  caw_s3 : blen (ca_bitcoinSignature1 m) = 64; caw_s4 : blen (ca_bitcoinSignature2 m) = 64;
  caw_features : blen (ca_features m) < 2 ^ 16; caw_chain : blen (ca_chainHash m) = 32;
  caw_scid : blen (ca_shortChannelId m) = 8; caw_n1 : blen (ca_nodeId1 m) = 33; caw_n2 : blen (ca_nodeId2 m) = 33;
  caw_b1 : blen (ca_bitcoinKey1 m) = 33; caw_b2 : blen (ca_bitcoinKey2 m) = 33
}.

Definition channel_announcement_bytes (m : IChannelAnnouncementMessage) : buffer :=
  ca_nodeSignature1 m ++ ca_nodeSignature2 m ++ ca_bitcoinSignature1 m ++ ca_bitcoinSignature2 m ++
  be 2 (blen (ca_features m)) ++ ca_features m ++ ca_chainHash m ++ ca_shortChannelId m ++ ca_nodeId1 m ++ ca_nodeId2 m ++
  ca_bitcoinKey1 m ++ ca_bitcoinKey2 m.

Lemma channel_announcement_rt m : channel_announcement_wf m -> exists b, encodeChannelAnnouncementMessage m = Ok b /\
  decodeChannelAnnouncementMessage b = Ok m.
Proof.
  intros []. pose proof (blen_nonneg (ca_features m)). exists (channel_announcement_bytes m). split.
  - unfold encodeChannelAnnouncementMessage. cbv zeta. by genc.
  - unfold decodeChannelAnnouncementMessage, channel_announcement_bytes, CHANNEL_ANNOUNCEMENT_MIN_LENGTH. rd. by destruct m.
Qed.

(** ** channel_update *)

Definition CHANNEL_UPDATE_FIXED_LENGTH : Z := 128.

Definition has_max (messageFlags : Z) : bool := negb (Z.land messageFlags MESSAGE_FLAG_HTLC_MAX =? 0).

Definition encodeChannelUpdateMessage (msg : IChannelUpdateMessage) : result buffer :=
  let hasMax := has_max (cu_messageFlags msg) in
  let buf := alloc (CHANNEL_UPDATE_FIXED_LENGTH + (if hasMax then 8 else 0)) in
  let buf := copy (cu_signature msg) buf 0 in
  let buf := copy (cu_chainHash msg) buf 64 in
  let buf := copy (cu_shortChannelId msg) buf 96 in
  buf ← writeUInt32BE buf (cu_timestamp msg) 104;
  let buf := set_byte buf 108 (cu_messageFlags msg) in
  let buf := set_byte buf 109 (cu_channelFlags msg) in
  buf ← writeUInt16BE buf (cu_cltvExpiryDelta msg) 110;
  buf ← writeBigUInt64BE buf (cu_htlcMinimumMsat msg) 112;
  buf ← writeUInt32BE buf (cu_feeBaseMsat msg) 120;
  buf ← writeUInt32BE buf (cu_feeProportionalMillionths msg) 124;
  match hasMax, cu_htlcMaximumMsat msg with
  | true, Some m => writeBigUInt64BE buf m 128
  | _, _ => Ok buf
  end.

Definition decodeChannelUpdateMessage (payload : buffer) : result IChannelUpdateMessage :=
  _ ← throw_if (blen payload <? CHANNEL_UPDATE_FIXED_LENGTH) "channel_update too short";
  timestamp ← readUInt32BE payload 104;
  _ ← throw_if (timestamp =? 0) "channel_update timestamp must be greater than zero";
  let messageFlags := byte_at payload 108 in
  let channelFlags := byte_at payload 109 in
  cltvExpiryDelta ← readUInt16BE payload 110;
  htlcMinimumMsat ← readBigUInt64BE payload 112;
  feeBaseMsat ← readUInt32BE payload 120;
  feeProportionalMillionths ← readUInt32BE payload 124;
  maximum ← (if has_max messageFlags && (136 <=? blen payload)
             then m ← readBigUInt64BE payload 128; Ok (Some m) else Ok None);
  Ok {| cu_signature := subarray payload 0 64; cu_chainHash := subarray payload 64 96;
        cu_shortChannelId := subarray payload 96 104; cu_timestamp := timestamp; cu_messageFlags := messageFlags;
        cu_channelFlags := channelFlags; cu_cltvExpiryDelta := cltvExpiryDelta; cu_htlcMinimumMsat := htlcMinimumMsat;
        cu_feeBaseMsat := feeBaseMsat; cu_feeProportionalMillionths := feeProportionalMillionths;
        cu_htlcMaximumMsat := maximum |}.

Record channel_update_wf (m : IChannelUpdateMessage) : Prop := {
  cuw_signature : blen (cu_signature m) = 64; cuw_chain : blen (cu_chainHash m) = 32; cuw_scid : blen (cu_shortChannelId m) = 8;
  cuw_timestamp : 0 < cu_timestamp m < 2 ^ 32; cuw_mflags : 0 <= cu_messageFlags m < 256; cuw_cflags : 0 <= cu_channelFlags m < 256;
  cuw_delta : 0 <= cu_cltvExpiryDelta m < 2 ^ 16; cuw_min : 0 <= cu_htlcMinimumMsat m < 2 ^ 64;
  cuw_base : 0 <= cu_feeBaseMsat m < 2 ^ 32; cuw_prop : 0 <= cu_feeProportionalMillionths m < 2 ^ 32;
  cuw_max : match cu_htlcMaximumMsat m with
            | Some x => has_max (cu_messageFlags m) = true /\ 0 <= x < 2 ^ 64
            | None => has_max (cu_messageFlags m) = false
            end
}.

Definition channel_update_bytes (m : IChannelUpdateMessage) : buffer :=
  cu_signature m ++ cu_chainHash m ++ cu_shortChannelId m ++ be 4 (cu_timestamp m) ++ [byte_of_Z (cu_messageFlags m)] ++
  [byte_of_Z (cu_channelFlags m)] ++ be 2 (cu_cltvExpiryDelta m) ++ be 8 (cu_htlcMinimumMsat m) ++ be 4 (cu_feeBaseMsat m) ++
  be 4 (cu_feeProportionalMillionths m) ++ match cu_htlcMaximumMsat m with Some x => be 8 x | None => [] end.

Lemma channel_update_rt m : channel_update_wf m -> exists b, encodeChannelUpdateMessage m = Ok b /\
  decodeChannelUpdateMessage b = Ok m.
Proof.
  intros []. exists (channel_update_bytes m). unfold encodeChannelUpdateMessage, decodeChannelUpdateMessage, channel_update_bytes,
    CHANNEL_UPDATE_FIXED_LENGTH in *. cbv zeta. destruct m as [sig ch sc ts mf cf de mi ba pr [mx|]]; cbn [cu_signature cu_chainHash cu_shortChannelId cu_timestamp
    cu_messageFlags cu_channelFlags cu_cltvExpiryDelta cu_htlcMinimumMsat cu_feeBaseMsat cu_feeProportionalMillionths cu_htlcMaximumMsat] in *.
  - destruct cuw_max0 as [Hm Hx]. rewrite Hm. split; [by genc|]. rd. rewrite throw_pass by (apply Z.eqb_neq; lia).
    rd. rewrite !Z_of_byte_of_Z, !Z.mod_small by lia. rewrite Hm. cbn [andb]. rewrite (proj2 (Z.leb_le _ _)) by blia. by rd.
  - rewrite cuw_max0. split; [by genc|]. rewrite ?app_nil_r. rd. rewrite throw_pass by (apply Z.eqb_neq; lia).
    rd. rewrite !Z_of_byte_of_Z, !Z.mod_small by lia. by rewrite cuw_max0.
Qed.

(** ** announcement_signatures *)

Definition ANNOUNCEMENT_SIGNATURES_LENGTH : Z := 168.

Record IAnnouncementSignaturesMessage := {
  as_channelId : buffer; as_shortChannelId : buffer; as_nodeSignature : buffer; as_bitcoinSignature : buffer
}.

Definition encodeAnnouncementSignaturesMessage (msg : IAnnouncementSignaturesMessage) : buffer :=
  let buf := alloc ANNOUNCEMENT_SIGNATURES_LENGTH in
  let buf := copy (as_channelId msg) buf 0 in
  let buf := copy (as_shortChannelId msg) buf 32 in
  let buf := copy (as_nodeSignature msg) buf 40 in
  copy (as_bitcoinSignature msg) buf 104.

Definition decodeAnnouncementSignaturesMessage (payload : buffer) : result IAnnouncementSignaturesMessage :=
  _ ← throw_if (blen payload <? ANNOUNCEMENT_SIGNATURES_LENGTH) "announcement_signatures too short";
  Ok {| as_channelId := subarray payload 0 32; as_shortChannelId := subarray payload 32 40;
        as_nodeSignature := subarray payload 40 104; as_bitcoinSignature := subarray payload 104 168 |}.

Definition announcement_signatures_wf (m : IAnnouncementSignaturesMessage) : Prop :=
  blen (as_channelId m) = 32 /\ blen (as_shortChannelId m) = 8 /\ blen (as_nodeSignature m) = 64 /\ blen (as_bitcoinSignature m) = 64.

Lemma announcement_signatures_rt m : announcement_signatures_wf m -> exists b, Ok (encodeAnnouncementSignaturesMessage m) = Ok b /\
  decodeAnnouncementSignaturesMessage b = Ok m.
Proof.
  intros (H1 & H2 & H3 & H4). eexists. split; [reflexivity|]. unfold encodeAnnouncementSignaturesMessage,
    decodeAnnouncementSignaturesMessage, ANNOUNCEMENT_SIGNATURES_LENGTH. cbv zeta. genc. rd. by destruct m.
Qed.

(** ** Lists of short channel ids (scid-encoding.ts) *)

Definition encodeShortChannelIds (scids : list buffer) : buffer :=
  let body := concat scids in
  let result := set_byte (alloc (1 + blen body)) 0 0 in
  copy body result 1.

(** [for (let i = 0; i < body.length; i += 8)] *)
Fixpoint take_scids (n : nat) (body : buffer) (i : Z) : list buffer :=
  match n with
  | 0%nat => []
  | S n => subarray body i (i + 8) :: take_scids n body (i + 8)
  end.

Definition decodeShortChannelIds (encoded : buffer) : result (list buffer) :=
  match encoded with
  | [] => Ok []
  | x :: body =>
      let encodingType := Z_of_byte x in
      if encodingType =? 0 then
        _ ← throw_if (negb (blen body mod 8 =? 0)) "Decoded SCID body length is not a multiple of 8";
        Ok (take_scids (Z.to_nat (blen body / 8)) body 0)
      else if encodingType =? 1 then Err "SCID zlib encoding (type 1) is unsupported: BOLT 7 removed it"
      else Err "Unknown SCID encoding type"
  end.

Lemma take_scids_read scids : forall pre, Forall (fun b => blen b = 8) scids ->
  take_scids (length scids) (pre ++ concat scids) (blen pre) = scids.
Proof.
  induction scids as [|b scids IH]; intros pre Hw; [done|]. apply Forall_cons in Hw as [Hb Hw]. cbn [length take_scids concat].
  rewrite subarray_skip, subarray_hd by lia. f_equal.
  replace (blen pre + 8) with (blen (pre ++ b)) by (rewrite blen_app; lia). rewrite app_assoc. by apply IH.
Qed.

Lemma scids_read scids : Forall (fun b => blen b = 8) scids -> decodeShortChannelIds (encodeShortChannelIds scids) = Ok scids.
Proof.
  intros Hw. unfold encodeShortChannelIds. cbv zeta. set (body := concat scids). pose proof (blen_nonneg body).
  change (alloc (1 + blen body)) with ([] ++ alloc (1 + blen body)). rewrite (set_fill [] 0) by (rewrite ?blen_nil; lia).
  rewrite copy_fill by len. rewrite alloc_0 by lia. rewrite app_nil_r. cbn [app decodeShortChannelIds].
  assert (blen body = 8 * Z.of_nat (length scids)) as Hl.
  { unfold body. clear -Hw. induction Hw as [|b l Hb _ IH]; [done|]. cbn [concat length]. rewrite blen_app, IH, Hb. lia. }
  rewrite Z_of_byte_of_Z. cbn [Z.eqb Z.modulo]. change (0 mod 256 =? 0) with true. cbv iota.
  rewrite Hl. rewrite throw_pass by (rewrite Z.mul_comm, Z.mod_mul by lia; done).
  rewrite (Z.mul_comm 8), Z.div_mul, Nat2Z.id by lia. f_equal. apply (take_scids_read scids []). done.
Qed.

(** ** Gossip queries (gossip-queries.ts) *)

Record IQueryChannelRangeMessage := { qr_chainHash : buffer; qr_firstBlocknum : Z; qr_numberOfBlocks : Z }.

Record IReplyChannelRangeMessage := {
  rr_chainHash : buffer; rr_firstBlocknum : Z; rr_numberOfBlocks : Z; rr_syncComplete : bool; rr_encodedShortIds : buffer
}.

Record IQueryShortChannelIdsMessage := { qs_chainHash : buffer; qs_encodedShortIds : buffer }.

Record IReplyShortChannelIdsEndMessage := { re_chainHash : buffer; re_complete : bool }.

Record IGossipTimestampFilterMessage := { gf_chainHash : buffer; gf_firstTimestamp : Z; gf_timestampRange : Z }.

Definition QUERY_CHANNEL_RANGE_LENGTH : Z := 40.

Definition encodeQueryChannelRangeMessage (msg : IQueryChannelRangeMessage) : result buffer :=
  let buf := copy (qr_chainHash msg) (alloc QUERY_CHANNEL_RANGE_LENGTH) 0 in
  buf ← writeUInt32BE buf (qr_firstBlocknum msg) 32;
  writeUInt32BE buf (qr_numberOfBlocks msg) 36.

Definition decodeQueryChannelRangeMessage (payload : buffer) : result IQueryChannelRangeMessage :=
  _ ← throw_if (blen payload <? QUERY_CHANNEL_RANGE_LENGTH) "query_channel_range too short";
  firstBlocknum ← readUInt32BE payload 32;
  numberOfBlocks ← readUInt32BE payload 36;
  Ok {| qr_chainHash := subarray payload 0 32; qr_firstBlocknum := firstBlocknum; qr_numberOfBlocks := numberOfBlocks |}.

Definition REPLY_CHANNEL_RANGE_MIN_LENGTH : Z := 43.

Definition encodeReplyChannelRangeMessage (msg : IReplyChannelRangeMessage) : result buffer :=
  let len := blen (rr_encodedShortIds msg) in
  let buf := copy (rr_chainHash msg) (alloc (REPLY_CHANNEL_RANGE_MIN_LENGTH + len)) 0 in
  buf ← writeUInt32BE buf (rr_firstBlocknum msg) 32;
  buf ← writeUInt32BE buf (rr_numberOfBlocks msg) 36;
  let buf := set_byte buf 40 (if rr_syncComplete msg then 1 else 0) in
  buf ← writeUInt16BE buf len 41;
  Ok (copy (rr_encodedShortIds msg) buf 43).

Definition decodeReplyChannelRangeMessage (payload : buffer) : result IReplyChannelRangeMessage :=
  _ ← throw_if (blen payload <? REPLY_CHANNEL_RANGE_MIN_LENGTH) "reply_channel_range too short";
  firstBlocknum ← readUInt32BE payload 32;
  numberOfBlocks ← readUInt32BE payload 36;
  let syncComplete := byte_at payload 40 =? 1 in
  len ← readUInt16BE payload 41;
  Ok {| rr_chainHash := subarray payload 0 32; rr_firstBlocknum := firstBlocknum; rr_numberOfBlocks := numberOfBlocks;
        rr_syncComplete := syncComplete; rr_encodedShortIds := subarray payload 43 (43 + len) |}.

Definition QUERY_SHORT_CHANNEL_IDS_MIN_LENGTH : Z := 34.

Definition encodeQueryShortChannelIdsMessage (msg : IQueryShortChannelIdsMessage) : result buffer :=
  let len := blen (qs_encodedShortIds msg) in
  let buf := copy (qs_chainHash msg) (alloc (QUERY_SHORT_CHANNEL_IDS_MIN_LENGTH + len)) 0 in
  buf ← writeUInt16BE buf len 32;
  Ok (copy (qs_encodedShortIds msg) buf 34).

Definition decodeQueryShortChannelIdsMessage (payload : buffer) : result IQueryShortChannelIdsMessage :=
  _ ← throw_if (blen payload <? QUERY_SHORT_CHANNEL_IDS_MIN_LENGTH) "query_short_channel_ids too short";
  len ← readUInt16BE payload 32;
  Ok {| qs_chainHash := subarray payload 0 32; qs_encodedShortIds := subarray payload 34 (34 + len) |}.

Definition REPLY_SHORT_CHANNEL_IDS_END_LENGTH : Z := 33.

Definition encodeReplyShortChannelIdsEndMessage (msg : IReplyShortChannelIdsEndMessage) : buffer :=
  set_byte (copy (re_chainHash msg) (alloc REPLY_SHORT_CHANNEL_IDS_END_LENGTH) 0) 32 (if re_complete msg then 1 else 0).

Definition decodeReplyShortChannelIdsEndMessage (payload : buffer) : result IReplyShortChannelIdsEndMessage :=
  _ ← throw_if (blen payload <? REPLY_SHORT_CHANNEL_IDS_END_LENGTH) "reply_short_channel_ids_end too short";
  Ok {| re_chainHash := subarray payload 0 32; re_complete := byte_at payload 32 =? 1 |}.

Definition GOSSIP_TIMESTAMP_FILTER_LENGTH : Z := 40.

Definition encodeGossipTimestampFilterMessage (msg : IGossipTimestampFilterMessage) : result buffer :=
  let buf := copy (gf_chainHash msg) (alloc GOSSIP_TIMESTAMP_FILTER_LENGTH) 0 in
  buf ← writeUInt32BE buf (gf_firstTimestamp msg) 32;
  writeUInt32BE buf (gf_timestampRange msg) 36.

Definition decodeGossipTimestampFilterMessage (payload : buffer) : result IGossipTimestampFilterMessage :=
  _ ← throw_if (blen payload <? GOSSIP_TIMESTAMP_FILTER_LENGTH) "gossip_timestamp_filter too short";
  firstTimestamp ← readUInt32BE payload 32;
  timestampRange ← readUInt32BE payload 36;
  Ok {| gf_chainHash := subarray payload 0 32; gf_firstTimestamp := firstTimestamp; gf_timestampRange := timestampRange |}.

Definition query_channel_range_wf (m : IQueryChannelRangeMessage) : Prop :=
  blen (qr_chainHash m) = 32 /\ 0 <= qr_firstBlocknum m < 2 ^ 32 /\ 0 <= qr_numberOfBlocks m < 2 ^ 32.

Definition reply_channel_range_wf (m : IReplyChannelRangeMessage) : Prop :=
  blen (rr_chainHash m) = 32 /\ 0 <= rr_firstBlocknum m < 2 ^ 32 /\ 0 <= rr_numberOfBlocks m < 2 ^ 32 /\
  blen (rr_encodedShortIds m) < 2 ^ 16.

Definition query_scids_wf (m : IQueryShortChannelIdsMessage) : Prop :=
  blen (qs_chainHash m) = 32 /\ blen (qs_encodedShortIds m) < 2 ^ 16.

Definition timestamp_filter_wf (m : IGossipTimestampFilterMessage) : Prop :=
  blen (gf_chainHash m) = 32 /\ 0 <= gf_firstTimestamp m < 2 ^ 32 /\ 0 <= gf_timestampRange m < 2 ^ 32.

Lemma flag_read (c : bool) : (Z_of_byte (byte_of_Z (if c then 1 else 0)) =? 1) = c.
Proof. by destruct c. Qed.

Lemma query_channel_range_rt m : query_channel_range_wf m -> exists b, encodeQueryChannelRangeMessage m = Ok b /\
  decodeQueryChannelRangeMessage b = Ok m.
Proof.
  intros (H1 & H2 & H3). eexists. unfold encodeQueryChannelRangeMessage, decodeQueryChannelRangeMessage, QUERY_CHANNEL_RANGE_LENGTH.
  cbv zeta. split; [by genc|]. rd. by destruct m.
Qed.

Lemma reply_channel_range_rt m : reply_channel_range_wf m -> exists b, encodeReplyChannelRangeMessage m = Ok b /\
  decodeReplyChannelRangeMessage b = Ok m.
Proof.
  intros (H1 & H2 & H3 & H4). pose proof (blen_nonneg (rr_encodedShortIds m)). eexists. unfold encodeReplyChannelRangeMessage,
    decodeReplyChannelRangeMessage, REPLY_CHANNEL_RANGE_MIN_LENGTH. cbv zeta. split; [by genc|]. rd. rewrite flag_read. by destruct m.
Qed.

Lemma query_scids_rt m : query_scids_wf m -> exists b, encodeQueryShortChannelIdsMessage m = Ok b /\
  decodeQueryShortChannelIdsMessage b = Ok m.
Proof.
  intros (H1 & H2). pose proof (blen_nonneg (qs_encodedShortIds m)). eexists. unfold encodeQueryShortChannelIdsMessage,
    decodeQueryShortChannelIdsMessage, QUERY_SHORT_CHANNEL_IDS_MIN_LENGTH. cbv zeta. split; [by genc|]. rd. by destruct m.
Qed.

Lemma reply_scids_end_rt m : blen (re_chainHash m) = 32 -> exists b, Ok (encodeReplyShortChannelIdsEndMessage m) = Ok b /\
  decodeReplyShortChannelIdsEndMessage b = Ok m.
Proof.
  intros H1. eexists. split; [reflexivity|]. unfold encodeReplyShortChannelIdsEndMessage,
    decodeReplyShortChannelIdsEndMessage, REPLY_SHORT_CHANNEL_IDS_END_LENGTH. genc. rd.
  rewrite byte_at_hd by lia. rewrite flag_read. by destruct m.
Qed.

Lemma timestamp_filter_rt m : timestamp_filter_wf m -> exists b, encodeGossipTimestampFilterMessage m = Ok b /\
  decodeGossipTimestampFilterMessage b = Ok m.
Proof.
  intros (H1 & H2 & H3). eexists. unfold encodeGossipTimestampFilterMessage, decodeGossipTimestampFilterMessage, GOSSIP_TIMESTAMP_FILTER_LENGTH.
  cbv zeta. split; [by genc|]. rd. by destruct m.
Qed.
