(* ===== verification/GossipAddress.v ===== *)
(** * Node addresses (src/src/lightning/gossip/messages.ts)

    The address descriptors of a node_announcement: IPv4, IPv6, Tor v2 and v3 and
    DNS names.  A host is text; [parseInt] is modelled with the not-a-number case
    as [None], which a byte or a field is written as zero. *)

From S2P Require Import Prelude Buffer Codec Wire GossipTypes GossipMessages Text.
From Stdlib Require Import Strings.Byte Strings.Ascii Strings.String.
From stdpp Require Import pretty sets.
Local Open Scope Z_scope.
Local Notation "a +:+ b" := (String.append a b) (at level 60, right associativity).

Definition ADDRESS_TYPE_IPV4 : Z := 1.
Definition ADDRESS_TYPE_IPV6 : Z := 2.
Definition ADDRESS_TYPE_TORV2 : Z := 3.
Definition ADDRESS_TYPE_TORV3 : Z := 4.
Definition ADDRESS_TYPE_DNS : Z := 5.

(** ** Text of the standard library *)

(** [s.split(sep)] for a separator of one character *)
Fixpoint split (sep : ascii) (s : string) : list string :=
  match s with
  | EmptyString => [EmptyString]
  | String c s =>
      if decide (c = sep) then EmptyString :: split sep s
      else match split sep s with
           | x :: l => String c x :: l
           | [] => [String c EmptyString]
           end
  end.

(** [parts.join(sep)] *)
Fixpoint join (sep : ascii) (parts : list string) : string :=
  match parts with
  | [] => EmptyString
  | [x] => x
  | x :: parts => x +:+ String sep (join sep parts)
  end.

Definition digit_in (radix : Z) (c : ascii) : option Z :=
  v ← hex_value c; if v <? radix then Some v else None.

(** The longest prefix of digits, after the ones already read. *)
Fixpoint digits_from (radix : Z) (s : string) (acc : Z) : Z :=
  match s with
  | String c s' => match digit_in radix c with Some v => digits_from radix s' (acc * radix + v) | None => acc end
  | EmptyString => acc
  end.

Definition digits (radix : Z) (s : string) : option Z :=
  match s with
  | String c s' => v ← digit_in radix c; Some (digits_from radix s' v)
  | EmptyString => None
  end.

(** StrWhiteSpaceChar, among the single-byte characters *)
Definition is_space (c : ascii) : bool :=
  let n := Z.of_N (N_of_ascii c) in (9 <=? n) && (n <=? 13) || (n =? 32) || (n =? 160).

Fixpoint trim_start (s : string) : string :=
  match s with
  | String c s' => if is_space c then trim_start s' else s
  | EmptyString => s
  end.

Definition strip_0x (radix : Z) (s : string) : string :=
  match s with
  | String "0" (String c s') => if (radix =? 16) && (bool_decide (c = "x"%char) || bool_decide (c = "X"%char)) then s' else s
  | _ => s
  end.

(** [parseInt(s, radix)] *)
Definition parseInt (s : string) (radix : Z) : option Z :=
  match trim_start s with
  | String "-" s => Z.opp <$> digits radix (strip_0x radix s)
  | String "+" s => digits radix (strip_0x radix s)
  | s => digits radix (strip_0x radix s)
  end.

(** [n.toString(10)] of a byte *)
Definition toString10 (n : Z) : string := pretty n.

(** [n.toString(16)]: the digits without leading zeros *)
Fixpoint hex_trim (s : string) : string :=
  match s with
  | String c s' => if bool_decide (c = "0"%char) && negb (bool_decide (s' = EmptyString)) then hex_trim s' else s
  | EmptyString => s
  end.

Definition toString16 (n : Z) : string := hex_trim (hex (be 2 n)).

(** [s.padStart(4, '0')] *)
Definition padStart4 (s : string) : string := string_of_list_ascii (replicate (4 - String.length s) "0"%char) +:+ s.

(** [Buffer.from(s, 'ascii')], the low byte of each character, and [buf.toString('ascii')], which drops the high bit *)
Definition of_ascii (s : string) : buffer := map (fun c => byte_of_Z (Z.of_N (N_of_ascii c))) (list_ascii_of_string s).
Definition to_ascii (b : buffer) : string := string_of_list_ascii (map (fun x => ascii_of_N (Z.to_N (Z_of_byte x mod 128))) b).

(** ** Encoding *)

Definition tor_address (type len : Z) (addr : INodeAddress) (msg : string) : result buffer :=
  let buf := set_byte (alloc (len + 3)) 0 type in
  let hostBuf := unhex (na_host addr) in
  _ ← throw_if (negb (blen hostBuf =? len)) msg;
  writeUInt16BE (copy hostBuf buf 1) (na_port addr) (1 + len).

(** [for (let i = 0; i < 4; i++) buf[1 + i] = parseInt(parts[i], 10)] *)
Fixpoint ipv4_parts (parts : list string) (i : Z) (buf : buffer) : buffer :=
  match parts with
  | [] => buf
  | p :: parts => ipv4_parts parts (i + 1) (set_byte buf (1 + i) (default 0 (parseInt p 10)))
  end.

(** [for (let i = 0; i < 8; i++) buf.writeUInt16BE(parseInt(groups[i], 16), 1 + i * 2)] *)
Fixpoint ipv6_groups (groups : list string) (i : Z) (buf : buffer) : result buffer :=
  match groups with
  | [] => Ok buf
  | g :: groups =>
      buf ← writeUInt16BE buf (default 0 (parseInt g 16)) (1 + i * 2);
      ipv6_groups groups (i + 1) buf
  end.

Definition encodeNodeAddress (addr : INodeAddress) : result buffer :=
  let type := na_type addr in
  if type =? ADDRESS_TYPE_IPV4 then
    let buf := set_byte (alloc 7) 0 ADDRESS_TYPE_IPV4 in
    let parts := split "." (na_host addr) in
    _ ← throw_if (negb (Nat.eqb (length parts) 4)) "Invalid IPv4 address";
    writeUInt16BE (ipv4_parts parts 0 buf) (na_port addr) 5
  else if type =? ADDRESS_TYPE_IPV6 then
    let buf := set_byte (alloc 19) 0 ADDRESS_TYPE_IPV6 in
    let groups := split ":" (na_host addr) in
    _ ← throw_if (negb (Nat.eqb (length groups) 8)) "Invalid IPv6 address (must be fully expanded)";
    buf ← ipv6_groups groups 0 buf;
    writeUInt16BE buf (na_port addr) 17
  else if type =? ADDRESS_TYPE_TORV2 then tor_address ADDRESS_TYPE_TORV2 10 addr "TorV2 host must be 10 bytes (20 hex chars)"
  else if type =? ADDRESS_TYPE_TORV3 then tor_address ADDRESS_TYPE_TORV3 35 addr "TorV3 host must be 35 bytes (70 hex chars)"
  else if type =? ADDRESS_TYPE_DNS then
    let hostBuf := of_ascii (na_host addr) in
    _ ← throw_if ((blen hostBuf <? 1) || (255 <? blen hostBuf)) "DNS hostname must be 1-255 bytes";
    let buf := alloc (1 + 1 + blen hostBuf + 2) in
    let buf := set_byte (set_byte buf 0 ADDRESS_TYPE_DNS) 1 (blen hostBuf) in
    writeUInt16BE (copy hostBuf buf 2) (na_port addr) (2 + blen hostBuf)
  else Err "Unknown address type".

Definition isKnownAddressType (type : Z) : bool :=
  (type =? ADDRESS_TYPE_IPV4) || (type =? ADDRESS_TYPE_IPV6) || (type =? ADDRESS_TYPE_TORV2) ||
  (type =? ADDRESS_TYPE_TORV3) || (type =? ADDRESS_TYPE_DNS).

(** ** Decoding *)

Definition byte_text (buf : buffer) (i : Z) : string :=
  match buf !! Z.to_nat i with Some x => toString10 (Z_of_byte x) | None => "undefined" end.

Definition group_text (buf : buffer) (i : Z) : result string := v ← readUInt16BE buf i; Ok (padStart4 (toString16 v)).

Fixpoint read_groups (n : nat) (buf : buffer) (i : Z) : result (list string) :=
  match n with
  | 0%nat => Ok []
  | S n => g ← group_text buf i; gs ← read_groups n buf (i + 2); Ok (g :: gs)
  end.

(** The address and the bytes read. *)
Definition decodeNodeAddress (buf : buffer) (offset : Z) : result (INodeAddress * Z) :=
  let type := byte_at buf offset in
  if type =? ADDRESS_TYPE_IPV4 then
    let host := join "." [byte_text buf (offset + 1); byte_text buf (offset + 2); byte_text buf (offset + 3); byte_text buf (offset + 4)] in
    port ← readUInt16BE buf (offset + 5);
    Ok ({| na_type := type; na_host := host; na_port := port |}, 7)
  else if type =? ADDRESS_TYPE_IPV6 then
    groups ← read_groups 8 buf (offset + 1);
    port ← readUInt16BE buf (offset + 17);
    Ok ({| na_type := type; na_host := join ":" groups; na_port := port |}, 19)
  else if type =? ADDRESS_TYPE_TORV2 then
    port ← readUInt16BE buf (offset + 11);
    Ok ({| na_type := type; na_host := hex (subarray buf (offset + 1) (offset + 11)); na_port := port |}, 13)
  else if type =? ADDRESS_TYPE_TORV3 then
    port ← readUInt16BE buf (offset + 36);
    Ok ({| na_type := type; na_host := hex (subarray buf (offset + 1) (offset + 36)); na_port := port |}, 38)
  else if type =? ADDRESS_TYPE_DNS then
    let len := byte_at buf (offset + 1) in
    port ← readUInt16BE buf (offset + 2 + len);
    Ok ({| na_type := type; na_host := to_ascii (subarray buf (offset + 2) (offset + 2 + len)); na_port := port |}, 2 + len + 2)
  else Err "Unknown address type".

(** ** Round trip *)

(** The text of a host as the decoder prints it, for each type. *)
Inductive address_wf : INodeAddress -> Prop :=
| wf_ipv4 bs port : length bs = 4%nat -> 0 <= port < 2 ^ 16 ->
    address_wf {| na_type := ADDRESS_TYPE_IPV4; na_host := join "." (map (fun x => toString10 (Z_of_byte x)) bs); na_port := port |}
| wf_ipv6 gs port : length gs = 8%nat -> Forall (fun g => 0 <= g < 2 ^ 16) gs -> 0 <= port < 2 ^ 16 ->
    address_wf {| na_type := ADDRESS_TYPE_IPV6; na_host := join ":" (map (fun g => padStart4 (toString16 g)) gs); na_port := port |}
| wf_torv2 b port : blen b = 10 -> 0 <= port < 2 ^ 16 ->
    address_wf {| na_type := ADDRESS_TYPE_TORV2; na_host := hex b; na_port := port |}
| wf_torv3 b port : blen b = 35 -> 0 <= port < 2 ^ 16 ->
    address_wf {| na_type := ADDRESS_TYPE_TORV3; na_host := hex b; na_port := port |}
| wf_dns b port : 1 <= blen b <= 255 -> Forall (fun x => Z_of_byte x < 128) b -> 0 <= port < 2 ^ 16 ->
    address_wf {| na_type := ADDRESS_TYPE_DNS; na_host := to_ascii b; na_port := port |}.

Definition no_char (c : ascii) (s : string) : bool := forallb (fun d => negb (bool_decide (d = c))) (list_ascii_of_string s).

Lemma split_one sep s : no_char sep s = true -> split sep s = [s].
Proof.
  induction s as [|c s IH]; intros H; [done|]. cbn in H. apply andb_true_iff in H as [Hc Hs]. cbn [split].
  rewrite decide_False by (by case_bool_decide). by rewrite IH.
Qed.

Lemma split_app sep s r : no_char sep s = true -> split sep (s +:+ String sep r) = s :: split sep r.
Proof.
  induction s as [|c s IH]; intros H.
  - change (EmptyString +:+ String sep r) with (String sep r). cbn [split]. by rewrite decide_True.
  - change (String c s +:+ String sep r) with (String c (s +:+ String sep r)). cbn [split].
    cbn in H. apply andb_true_iff in H as [Hc Hs]. rewrite decide_False by (by case_bool_decide). by rewrite IH.
Qed.

Lemma split_join sep parts : parts <> [] -> Forall (fun s => no_char sep s = true) parts -> split sep (join sep parts) = parts.
Proof.
  intros Hn H. induction H as [|x l Hx Hl IH]; [done|]. destruct l as [|y l]; [by apply split_one|].
  change (join sep (x :: y :: l)) with (x +:+ String sep (join sep (y :: l))). by rewrite split_app, IH.
Qed.

(** A finite check over the first [n] numbers. *)
Definition below (n : nat) (p : Z -> bool) : bool := forallb (fun k => p (Z.of_nat k)) (seq 0 n).

Lemma below_spec n p : below n p = true -> forall v, 0 <= v < Z.of_nat n -> p v = true.
Proof.
  intros H v Hv. unfold below in H. rewrite forallb_forall in H. rewrite <- (Z2Nat.id v) by lia. apply H, in_seq. lia.
Qed.

Definition byte_text_check (v : Z) : bool :=
  no_char "." (toString10 v) && bool_decide (parseInt (toString10 v) 10 = Some v).

Lemma byte_text_ok v : 0 <= v < 256 -> no_char "." (toString10 v) = true /\ parseInt (toString10 v) 10 = Some v.
Proof.
  intros Hv. assert (below 256 byte_text_check = true) as H by (vm_compute; reflexivity).
  pose proof (below_spec _ _ H v ltac:(lia)) as [H1 H2]%andb_true_iff. exact (conj H1 (bool_decide_eq_true_1 _ H2)).
Qed.

(** Four digits of a group, with the leading zeros put back. *)
Lemma pad_trim a b c d : let s := String a (String b (String c (String d EmptyString))) in padStart4 (hex_trim s) = s.
Proof. cbn. repeat case_bool_decide; subst; done. Qed.

Lemma hex_digit_plain v : 0 <= v < 16 -> is_space (hex_digit v) = false /\ hex_digit v ∉ [":"; "-"; "+"; "x"; "X"]%char.
Proof.
  intros Hv. rewrite <- (Z2Nat.id v) by lia. assert (Z.to_nat v < 16)%nat as Hn by lia. revert Hn. generalize (Z.to_nat v).
  intros n Hn. split; [|apply (bool_decide_unpack _)]; do 16 (destruct n as [|n]; [done|]); lia.
Qed.

Lemma digit_in_hex v : 0 <= v < 16 -> digit_in 16 (hex_digit v) = Some v.
Proof. intros Hv. unfold digit_in. rewrite hex_digit_value by done. cbn. by rewrite (proj2 (Z.ltb_lt v 16)) by lia. Qed.

Lemma strip_0x_id radix a b s : b <> "x"%char -> b <> "X"%char -> strip_0x radix (String a (String b s)) = String a (String b s).
Proof.
  intros H1 H2. unfold strip_0x. rewrite !bool_decide_eq_false_2, andb_false_r by done. by destruct a as [[] [] [] [] [] [] [] []].
Qed.

Lemma parse_plain radix a s : is_space a = false -> a <> "-"%char -> a <> "+"%char ->
  parseInt (String a s) radix = digits radix (strip_0x radix (String a s)).
Proof.
  intros Hs Hm Hp. unfold parseInt. cbn [trim_start]. rewrite Hs.
  destruct a as [[] [] [] [] [] [] [] []]; done.
Qed.

Lemma hex_group v : 0 <= v < 2 ^ 16 -> exists a b c d, (0 <= a < 16 /\ 0 <= b < 16 /\ 0 <= c < 16 /\ 0 <= d < 16) /\
  v = ((a * 16 + b) * 16 + c) * 16 + d /\
  padStart4 (toString16 v) = String (hex_digit a) (String (hex_digit b) (String (hex_digit c) (String (hex_digit d) EmptyString))).
Proof.
  intros Hv. exists (v / 4096), (v / 256 mod 16), (v / 16 mod 16), (v mod 16). split; [Z.to_euclidean_division_equations; lia|].
  split; [Z.to_euclidean_division_equations; lia|]. unfold toString16.
  replace (hex (be 2 v)) with (hex [byte_of_Z (v / 256); byte_of_Z v]) by done.
  cbn [hex]. rewrite !Z_of_byte_of_Z, pad_trim. do 3 (f_equal; [f_equal; Z.to_euclidean_division_equations; lia|]). do 2 f_equal. Z.to_euclidean_division_equations; lia.
Qed.

Lemma group_text_ok v : 0 <= v < 2 ^ 16 ->
  no_char ":" (padStart4 (toString16 v)) = true /\ parseInt (padStart4 (toString16 v)) 16 = Some v.
Proof.
  intros (a & b & c & d & (Ha & Hb & Hc & Hd) & -> & ->)%hex_group. split.
  - unfold no_char. cbn [list_ascii_of_string forallb].
    assert (forall n, 0 <= n < 16 -> negb (bool_decide (hex_digit n = ":"%char)) = true) as Hn.
    { intros n Hn. apply hex_digit_plain in Hn as [_ Hn]. rewrite bool_decide_eq_false_2; [done|]. set_solver. }
    by rewrite !Hn.
  - pose proof (hex_digit_plain _ Ha) as [Hs Hx]. pose proof (hex_digit_plain _ Hb) as [_ Hy].
    rewrite parse_plain, strip_0x_id by (done || set_solver).
    cbn [digits digits_from]. by rewrite !digit_in_hex.
Qed.

(** The bytes of a descriptor. *)
Lemma ipv4_fill bs : forall pre k, Z.of_nat (length bs) <= k ->
  ipv4_parts (map (fun x => toString10 (Z_of_byte x)) bs) (blen pre - 1) (pre ++ alloc k) = (pre ++ bs) ++ alloc (k - Z.of_nat (length bs)).
Proof.
  induction bs as [|x bs IH]; intros pre k Hk; cbn [map ipv4_parts length].
  - by rewrite app_nil_r, Z.sub_0_r.
  - cbn [length] in Hk. destruct (byte_text_ok (Z_of_byte x) (Z_of_byte_range x)) as [_ ->]. cbn [from_option id].
    rewrite set_fill by lia. rewrite byte_of_Z_of_byte. replace (blen pre - 1 + 1) with (blen (pre ++ [x]) - 1) by (rewrite blen_app, blen_cons, blen_nil; lia).
    rewrite IH by lia. rewrite <- !app_assoc. cbn [app]. do 4 f_equal. lia.
Qed.

Lemma ipv6_fill gs : Forall (fun g => 0 <= g < 2 ^ 16) gs -> forall pre k i, blen pre = 1 + i * 2 -> 2 * Z.of_nat (length gs) <= k ->
  ipv6_groups (map (fun g => padStart4 (toString16 g)) gs) i (pre ++ alloc k) =
    Ok ((pre ++ concat (map (be 2) gs)) ++ alloc (k - 2 * Z.of_nat (length gs))).
Proof.
  induction 1 as [|g gs Hg _ IH]; intros pre k i Hp Hk; cbn [map ipv6_groups length concat].
  - by rewrite app_nil_r, Z.sub_0_r.
  - cbn [length] in Hk. destruct (group_text_ok g Hg) as [_ ->]. cbn [from_option id]. unfold writeUInt16BE. rewrite write_fill by rng.
    rewrite bind_Ok, IH by len. simpl Z.to_nat. rewrite <- !app_assoc. do 5 f_equal. lia.
Qed.

Lemma of_to_ascii b : Forall (fun x => Z_of_byte x < 128) b -> of_ascii (to_ascii b) = b.
Proof.
  intros H. unfold of_ascii, to_ascii. rewrite list_ascii_of_string_of_list_ascii, map_map.
  induction H as [|x b Hx _ IH]; [done|]. cbn [map]. rewrite IH. f_equal. pose proof (Z_of_byte_range x).
  rewrite N_ascii_embedding, Z2N.id, Z.mod_small, byte_of_Z_of_byte; [done|lia|Z.to_euclidean_division_equations; lia|].
  rewrite Z.mod_small by lia. lia.
Qed.

Lemma set_fill0 v k : 1 <= k -> set_byte (alloc k) 0 v = [byte_of_Z v] ++ alloc (k - 1).
Proof. intros Hk. by apply (set_fill [] v k 0). Qed.

Lemma blen_groups gs : blen (concat (map (be 2) gs)) = 2 * Z.of_nat (length gs).
Proof. induction gs as [|g gs IH]; [done|]. cbn [map concat length]. rewrite blen_app, IH, blen_be. lia. Qed.

(** Select the case of an address type. *)
Ltac kind :=
  repeat match goal with
  | |- context [if ?a =? ?b then _ else _] =>
      let r := eval vm_compute in (a =? b) in first [constr_eq r true | constr_eq r false]; change (a =? b) with r; cbv iota
  end.

(** What a well-formed address is encoded as. *)
Definition address_bytes (a : INodeAddress) : buffer :=
  match encodeNodeAddress a with Ok b => b | Err _ => [] end.

Lemma tor_encoded type len b port msg : blen b = len -> 0 <= len -> 0 <= port < 2 ^ 16 ->
  tor_address type len {| na_type := type; na_host := hex b; na_port := port |} msg = Ok ([byte_of_Z type] ++ b ++ be 2 port).
Proof.
  intros Hb Hl Hp. unfold tor_address. cbv zeta. cbn [na_host na_port]. rewrite unhex_hex, Hb, Z.eqb_refl, throw_pass by done.
  rewrite set_fill0 by lia. by genc.
Qed.

Lemma ipv4_encoded bs port : length bs = 4%nat -> 0 <= port < 2 ^ 16 ->
  encodeNodeAddress {| na_type := ADDRESS_TYPE_IPV4; na_host := join "." (map (fun x => toString10 (Z_of_byte x)) bs); na_port := port |} =
    Ok ([byte_of_Z ADDRESS_TYPE_IPV4] ++ bs ++ be 2 port).
Proof.
  intros Hb Hp. unfold encodeNodeAddress. cbn [na_type na_host na_port]. cbv zeta. kind. rewrite split_join.
  - rewrite length_map, Hb, throw_pass, set_fill0 by done. pose proof (ipv4_fill bs [byte_of_Z ADDRESS_TYPE_IPV4] 6 ltac:(lia)) as E.
    change (blen _ - 1) with 0 in E. change (7 - 1) with 6. rewrite E, Hb. change (6 - Z.of_nat 4) with 2.
    assert (blen bs = 4) by (unfold blen; lia). unfold writeUInt16BE. rewrite write_fill by rng. rewrite alloc_0 by lia.
    by rewrite app_nil_r, <- app_assoc.
  - by destruct bs.
  - apply Forall_map, Forall_true. intros x. apply byte_text_ok, Z_of_byte_range.
Qed.

Lemma ipv6_encoded gs port : length gs = 8%nat -> Forall (fun g => 0 <= g < 2 ^ 16) gs -> 0 <= port < 2 ^ 16 ->
  encodeNodeAddress {| na_type := ADDRESS_TYPE_IPV6; na_host := join ":" (map (fun g => padStart4 (toString16 g)) gs); na_port := port |} =
    Ok ([byte_of_Z ADDRESS_TYPE_IPV6] ++ concat (map (be 2) gs) ++ be 2 port).
Proof.
  intros Hg Hr Hp. unfold encodeNodeAddress. cbn [na_type na_host na_port]. cbv zeta. kind. rewrite split_join.
  - rewrite length_map, Hg, throw_pass by done. rewrite set_fill0 by lia. change (19 - 1) with 18. rewrite ipv6_fill by (done || lia).
    rewrite bind_Ok, Hg. change (18 - 2 * Z.of_nat 8) with 2.
    assert (blen (concat (map (be 2) gs)) = 16) as Hl by (rewrite blen_groups; lia).
    unfold writeUInt16BE. rewrite write_fill by (rng || len). rewrite alloc_0 by lia. by rewrite app_nil_r, <- app_assoc.
  - by destruct gs.
  - apply Forall_map. eapply Forall_impl; [exact Hr|]. intros g Hv. by apply group_text_ok.
Qed.

Lemma dns_encoded b port : 1 <= blen b <= 255 -> Forall (fun x => Z_of_byte x < 128) b -> 0 <= port < 2 ^ 16 ->
  encodeNodeAddress {| na_type := ADDRESS_TYPE_DNS; na_host := to_ascii b; na_port := port |} =
    Ok ([byte_of_Z ADDRESS_TYPE_DNS] ++ [byte_of_Z (blen b)] ++ b ++ be 2 port).
Proof.
  intros Hb Ha Hp. unfold encodeNodeAddress. cbn [na_type na_host na_port]. cbv zeta. kind. rewrite of_to_ascii by done.
  rewrite throw_pass by (apply orb_false_iff; split; apply Z.ltb_ge; lia). rewrite set_fill0 by lia. by genc.
Qed.

(** ** Reading a descriptor back *)

Lemma byte_text_read (b : buffer) i x : b !! Z.to_nat i = Some x -> byte_text b i = toString10 (Z_of_byte x).
Proof. intros E. unfold byte_text. by rewrite E. Qed.

Lemma read_groups_ok gs : Forall (fun g => 0 <= g < 2 ^ 16) gs -> forall pre rest,
  read_groups (length gs) (pre ++ concat (map (be 2) gs) ++ rest) (blen pre) = Ok (map (fun g => padStart4 (toString16 g)) gs).
Proof.
  induction 1 as [|g gs Hg _ IH]; intros pre rest; [done|]. cbn [length read_groups map concat]. unfold group_text, readUInt16BE.
  pose proof (blen_nonneg pre). rewrite <- !app_assoc, readUIntBE_skip by len. rewrite (readUIntBE_hd 2) by rng. rewrite !bind_Ok.
  replace (blen pre + 2) with (blen (pre ++ be 2 g)) by len. rewrite (app_assoc pre), IH. done.
Qed.

Lemma decode_tag pre x rest : byte_at (pre ++ [x] ++ rest) (blen pre) = Z_of_byte x.
Proof. rewrite byte_at_skip by lia. apply byte_at_one. lia. Qed.

(** What it takes to read a descriptor back. *)
Definition reads_back (a : INodeAddress) (b : buffer) : Prop :=
  0 < blen b /\ forall pre rest, isKnownAddressType (byte_at (pre ++ b ++ rest) (blen pre)) = true /\
  decodeNodeAddress (pre ++ b ++ rest) (blen pre) = Ok (a, blen b).

Ltac read_tag :=
  let pre := fresh "pre" in
  match goal with |- reads_back _ _ => split; [len|]; let rest := fresh "rest" in intros pre rest; rewrite <- !app_assoc end;
  pose proof (blen_nonneg pre); unfold decodeNodeAddress; rewrite decode_tag; split; [done|]; rewrite Z_of_byte_of_Z;
  match goal with |- context [?t mod 256] => change (t mod 256) with t end; cbv zeta; kind; unfold readUInt16BE.

Lemma ipv4_read bs port : length bs = 4%nat -> 0 <= port < 2 ^ 16 ->
  reads_back {| na_type := ADDRESS_TYPE_IPV4; na_host := join "." (map (fun x => toString10 (Z_of_byte x)) bs); na_port := port |}
    ([byte_of_Z ADDRESS_TYPE_IPV4] ++ bs ++ be 2 port).
Proof.
  intros Hb Hp. assert (blen bs = 4) by (unfold blen; lia). read_tag.
  assert (forall o k x, bs !! k = Some x -> o = blen pre + 1 + Z.of_nat k ->
    byte_text (pre ++ [byte_of_Z ADDRESS_TYPE_IPV4] ++ bs ++ be 2 port ++ rest) o = toString10 (Z_of_byte x)) as Hk.
  { intros o k x E ->. apply byte_text_read. rewrite lookup_app_r by (unfold blen; lia). rewrite lookup_app_r by (unfold blen; cbn; lia).
    rewrite lookup_app_l_Some with (x := x); [done|]. rewrite <- E. f_equal. unfold blen. cbn [length]. lia. }
  do 5 (destruct bs as [|? bs]; try done).
  rewrite (Hk _ 0%nat b), (Hk _ 1%nat b0), (Hk _ 2%nat b1), (Hk _ 3%nat b2) by (done || lia). rd.
  do 2 f_equal; len.
Qed.

Lemma ipv6_read gs port : length gs = 8%nat -> Forall (fun g => 0 <= g < 2 ^ 16) gs -> 0 <= port < 2 ^ 16 ->
  reads_back {| na_type := ADDRESS_TYPE_IPV6; na_host := join ":" (map (fun g => padStart4 (toString16 g)) gs); na_port := port |}
    ([byte_of_Z ADDRESS_TYPE_IPV6] ++ concat (map (be 2) gs) ++ be 2 port).
Proof.
  intros Hg Hr Hp. pose proof (blen_groups gs) as Hl. rewrite Hg in Hl. read_tag.
  replace (blen pre + 1) with (blen (pre ++ [byte_of_Z ADDRESS_TYPE_IPV6])) by len. rewrite <- Hg at 1.
  rewrite (app_assoc pre), read_groups_ok by done. rewrite bind_Ok. rd. do 2 f_equal; len.
Qed.

Lemma torv2_read b port : blen b = 10 -> 0 <= port < 2 ^ 16 ->
  reads_back {| na_type := ADDRESS_TYPE_TORV2; na_host := hex b; na_port := port |} ([byte_of_Z ADDRESS_TYPE_TORV2] ++ b ++ be 2 port).
Proof. intros Hb Hp. read_tag. rd. do 2 f_equal; len. Qed.

Lemma torv3_read b port : blen b = 35 -> 0 <= port < 2 ^ 16 ->
  reads_back {| na_type := ADDRESS_TYPE_TORV3; na_host := hex b; na_port := port |} ([byte_of_Z ADDRESS_TYPE_TORV3] ++ b ++ be 2 port).
Proof. intros Hb Hp. read_tag. rd. do 2 f_equal; len. Qed.

Lemma dns_read b port : 1 <= blen b <= 255 -> 0 <= port < 2 ^ 16 ->
  reads_back {| na_type := ADDRESS_TYPE_DNS; na_host := to_ascii b; na_port := port |}
    ([byte_of_Z ADDRESS_TYPE_DNS] ++ [byte_of_Z (blen b)] ++ b ++ be 2 port).
Proof.
  intros Hb Hp. read_tag. rewrite byte_at_skip, byte_at_skip, byte_at_one by len. rewrite Z_of_byte_of_Z, Z.mod_small by lia.
  rd. do 2 f_equal; len.
Qed.

(** Every well-formed address has a descriptor, which is read back wherever it stands in a buffer. *)
Lemma address_read a : address_wf a -> exists b, encodeNodeAddress a = Ok b /\ reads_back a b.
Proof.
  destruct 1.
  - eexists. split; [by apply ipv4_encoded|by apply ipv4_read].
  - eexists. split; [by apply ipv6_encoded|by apply ipv6_read].
  - eexists. split; [by apply tor_encoded|by apply torv2_read].
  - eexists. split; [by apply tor_encoded|by apply torv3_read].
  - eexists. split; [by apply dns_encoded|by apply dns_read].
Qed.
