(* ===== verification/GossipNode.v ===== *)
(** * Node announcements (src/src/lightning/gossip/messages.ts), lease rates (types.ts) and the
      signatures of gossip (validation.ts) *)

From S2P Require Import Prelude Buffer Codec Tlv Wire GossipTypes GossipMessages GossipAddress Messages Text.
From Stdlib Require Import Strings.Byte.
Local Open Scope Z_scope.

(** ** Lease rates *)

Definition LEASE_RATES_FIXED_LEN : Z := 10.

(** [while (start < 3 && full[start] === 0) start++] *)
Fixpoint tu32_start (n : nat) (full : buffer) (start : Z) : Z :=
  match n with
  | 0%nat => start
  | S n => if byte_at full start =? 0 then tu32_start n full (start + 1) else start
  end.

(** [val >>> 0] keeps the low 32 bits. *)
Definition encodeTu32 (val : Z) : result buffer :=
  if val =? 0 then Ok []
  else
    full ← writeUInt32BE (alloc 4) (val mod 2 ^ 32) 0;
    Ok (subarray full (tu32_start 3 full 0) 4).

Definition decodeTu32 (buf : buffer) : result Z :=
  if blen buf =? 0 then Ok 0
  else
    _ ← throw_if (4 <? blen buf) "lease_rates tu32 exceeds 4 bytes";
    _ ← throw_if (byte_at buf 0 =? 0) "lease_rates tu32 is not minimal";
    readUInt32BE (copy buf (alloc 4) (4 - blen buf)) 0.

Definition encodeLeaseRates (rates : ILeaseRates) : result buffer :=
  let fixed := alloc LEASE_RATES_FIXED_LEN in
  fixed ← writeUInt16BE fixed (lr_fundingWeightWitness rates) 0;
  fixed ← writeUInt16BE fixed (lr_leaseFeeBasis rates) 2;
  fixed ← writeUInt16BE fixed (lr_channelFeeMaxProportionalThousandths rates) 4;
  fixed ← writeUInt32BE fixed (lr_leaseFeeBaseSat rates) 6;
  base ← encodeTu32 (lr_channelFeeMaxBaseMsat rates);
  Ok (fixed ++ base).

Definition decodeLeaseRates (buf : buffer) : result ILeaseRates :=
  _ ← throw_if (blen buf <? LEASE_RATES_FIXED_LEN) "lease_rates too short";
  weight ← readUInt16BE buf 0;
  basis ← readUInt16BE buf 2;
  thousandths ← readUInt16BE buf 4;
  base ← readUInt32BE buf 6;
  maxBase ← decodeTu32 (subarray buf LEASE_RATES_FIXED_LEN (blen buf));
  Ok {| lr_fundingWeightWitness := weight; lr_leaseFeeBasis := basis; lr_leaseFeeBaseSat := base;
        lr_channelFeeMaxBaseMsat := maxBase; lr_channelFeeMaxProportionalThousandths := thousandths |}.

(** ** node_announcement *)

Definition NODE_ANN_TLV_LEASE_RATES : Z := 1.
Definition NODE_ANNOUNCEMENT_MIN_LENGTH : Z := 140.

Fixpoint encode_addresses (addresses : list INodeAddress) : result buffer :=
  match addresses with
  | [] => Ok []
  | addr :: addresses => b ← encodeNodeAddress addr; bs ← encode_addresses addresses; Ok (b ++ bs)
  end.

Definition is_dns (a : INodeAddress) : bool := na_type a =? ADDRESS_TYPE_DNS.

Definition lease_stream (rates : option ILeaseRates) : result buffer :=
  match rates with
  | Some r => v ← encodeLeaseRates r; encodeTlvStream [{| tlv_type := NODE_ANN_TLV_LEASE_RATES; tlv_value := v |}]
  | None => Ok []
  end.

Definition encodeNodeAnnouncementMessage (msg : INodeAnnouncementMessage) : result buffer :=
  let flen := blen (nn_features msg) in
  _ ← throw_if (1 <? Z.of_nat (length (List.filter is_dns (nn_addresses msg))))
        "node_announcement MUST NOT include more than one DNS address (type 5)";
  addrBuf ← encode_addresses (nn_addresses msg);
  let addrlen := blen addrBuf in
  tlvBuf ← lease_stream (nn_leaseRates msg);
  let buf := alloc (64 + 2 + flen + 4 + 33 + 3 + 32 + 2 + addrlen + blen tlvBuf) in
  let buf := copy (nn_signature msg) buf 0 in
  buf ← writeUInt16BE buf flen 64;
  let buf := copy (nn_features msg) buf 66 in
  let offset := 66 + flen in
  buf ← writeUInt32BE buf (nn_timestamp msg) offset;
  let buf := copy (nn_nodeId msg) buf (offset + 4) in
  let buf := copy (nn_rgbColor msg) buf (offset + 37) in
  let buf := copy (nn_alias msg) buf (offset + 40) in
  buf ← writeUInt16BE buf addrlen (offset + 72);
  let buf := copy addrBuf buf (offset + 74) in
  Ok (copy tlvBuf buf (offset + 74 + addrlen)).

(** [while (offset < addrEnd && isKnownAddressType(payload[offset]))]: a descriptor takes bytes, so [addrlen] turns are enough. *)
Fixpoint address_loop (fuel : nat) (payload : buffer) (offset addrEnd : Z) : result (list INodeAddress) :=
  match fuel with
  | 0%nat => Ok []
  | S fuel =>
      if (offset <? addrEnd) && isKnownAddressType (byte_at payload offset) then
        '(address, bytesRead) ← decodeNodeAddress payload offset;
        addresses ← address_loop fuel payload (offset + bytesRead) addrEnd;
        Ok (address :: addresses)
      else Ok []
  end.

(** The trailing records; what is malformed is ignored. *)
Definition read_leaseRates (payload : buffer) (offset : Z) : option ILeaseRates :=
  if offset <? blen payload then
    match decodeTlvStream payload offset None with
    | Ok res =>
        match findTlvRecord (records res) NODE_ANN_TLV_LEASE_RATES with
        | Some leaseVal => match decodeLeaseRates leaseVal with Ok r => Some r | Err _ => None end
        | None => None
        end
    | Err _ => None
    end
  else None.

Definition decodeNodeAnnouncementMessage (payload : buffer) : result INodeAnnouncementMessage :=
  _ ← throw_if (blen payload <? NODE_ANNOUNCEMENT_MIN_LENGTH) "node_announcement too short";
  flen ← readUInt16BE payload 64;
  let offset := 66 + flen in
  timestamp ← readUInt32BE payload offset;
  _ ← throw_if (timestamp =? 0) "node_announcement timestamp must be greater than zero";
  addrlen ← readUInt16BE payload (offset + 72);
  let addrEnd := offset + 74 + addrlen in
  addresses ← address_loop (Z.to_nat addrlen) payload (offset + 74) addrEnd;
  Ok {| nn_signature := subarray payload 0 64;
        nn_features := subarray payload 66 (66 + flen);
        nn_timestamp := timestamp;
        nn_nodeId := subarray payload (offset + 4) (offset + 37);
        nn_rgbColor := subarray payload (offset + 37) (offset + 40);
        nn_alias := subarray payload (offset + 40) (offset + 72);
        nn_addresses := addresses;
        nn_leaseRates := read_leaseRates payload addrEnd |}.

(** ** Round trips *)

Lemma zero_byte a : Z_of_byte a = 0 -> a = x00.
Proof. intros H. rewrite <- (byte_of_Z_of_byte a), H. done. Qed.

(** The leading zeros that were dropped are put back. *)
Lemma tu32_strip (a b c d : byte) : [a; b; c; d] <> [x00; x00; x00; x00] -> let full := [a; b; c; d] in
  blen (subarray full (tu32_start 3 full 0) 4) <= 4 /\
  decodeTu32 (subarray full (tu32_start 3 full 0) 4) = readUInt32BE full 0.
Proof.
  intros Hz. cbv zeta. cbn [tu32_start].
  change (byte_at [a; b; c; d] 0) with (Z_of_byte a). change (byte_at [a; b; c; d] (0 + 1)) with (Z_of_byte b).
  change (byte_at [a; b; c; d] (0 + 1 + 1)) with (Z_of_byte c).
  destruct (Z.eqb_spec (Z_of_byte a) 0) as [->%zero_byte|Ha]; [|split; [done|]].
  2: { unfold decodeTu32. change (byte_at _ 0) with (Z_of_byte a). cbn. by rewrite (proj2 (Z.eqb_neq _ _) Ha). }
  destruct (Z.eqb_spec (Z_of_byte b) 0) as [->%zero_byte|Hb]; [|split; [done|]].
  2: { unfold decodeTu32. change (byte_at _ 0) with (Z_of_byte b). cbn. by rewrite (proj2 (Z.eqb_neq _ _) Hb). }
  destruct (Z.eqb_spec (Z_of_byte c) 0) as [->%zero_byte|Hc]; (split; [done|]).
  2: { unfold decodeTu32. change (byte_at _ 0) with (Z_of_byte c). cbn. by rewrite (proj2 (Z.eqb_neq _ _) Hc). }
  unfold decodeTu32. change (byte_at _ 0) with (Z_of_byte d). cbn.
  destruct (Z.eqb_spec (Z_of_byte d) 0) as [->%zero_byte|]; done.
Qed.

Lemma tu32_read v : 0 <= v < 2 ^ 32 -> exists b, encodeTu32 v = Ok b /\ blen b <= 4 /\ decodeTu32 b = Ok v.
Proof.
  intros Hv. unfold encodeTu32. destruct (Z.eqb_spec v 0) as [->|Hz]; [by eexists|]. rewrite Z.mod_small by lia.
  unfold writeUInt32BE. rewrite write_fill0 by lia. rewrite alloc_0, app_nil_r, bind_Ok by lia. eexists. split; [reflexivity|].
  assert (readUInt32BE (be 4 v) 0 = Ok v) as <- by (unfold readUInt32BE; apply (readUIntBE_all 4); lia).
  apply (tu32_strip (byte_of_Z (v / 256 / 256 / 256)) (byte_of_Z (v / 256 / 256)) (byte_of_Z (v / 256)) (byte_of_Z v)).
  intros E. assert (be 4 v = be 4 0) as E' by exact E. apply (f_equal unbe) in E'. rewrite !unbe_be in E' by lia. lia.
Qed.

Definition lease_rates_wf (r : ILeaseRates) : Prop :=
  0 <= lr_fundingWeightWitness r < 2 ^ 16 /\ 0 <= lr_leaseFeeBasis r < 2 ^ 16 /\ 0 <= lr_leaseFeeBaseSat r < 2 ^ 32 /\
  0 <= lr_channelFeeMaxBaseMsat r < 2 ^ 32 /\ 0 <= lr_channelFeeMaxProportionalThousandths r < 2 ^ 16.

Lemma lease_rates_read r : lease_rates_wf r -> exists b, encodeLeaseRates r = Ok b /\ blen b <= 14 /\ decodeLeaseRates b = Ok r.
Proof.
  intros (H1 & H2 & H3 & H4 & H5). destruct (tu32_read _ H4) as (t & Ht & Hl & Hd). pose proof (blen_nonneg t).
  unfold encodeLeaseRates, LEASE_RATES_FIXED_LEN. cbv zeta. genc. rewrite Ht, bind_Ok. eexists. split; [reflexivity|].
  split; [len|]. unfold decodeLeaseRates, LEASE_RATES_FIXED_LEN. rewrite <- !app_assoc. rd. rewrite Hd. by destruct r.
Qed.

Record node_announcement_wf (m : INodeAnnouncementMessage) : Prop := {
  nw_signature : blen (nn_signature m) = 64;
  nw_features : blen (nn_features m) < 2 ^ 16;
  nw_timestamp : 0 < nn_timestamp m < 2 ^ 32;
  nw_nodeId : blen (nn_nodeId m) = 33;
  nw_rgb : blen (nn_rgbColor m) = 3;
  nw_alias : blen (nn_alias m) = 32;
  nw_addresses : Forall address_wf (nn_addresses m);
  nw_dns : (length (List.filter is_dns (nn_addresses m)) <= 1)%nat;
  nw_addrlen b : encode_addresses (nn_addresses m) = Ok b -> blen b < 2 ^ 16;
  nw_lease r : nn_leaseRates m = Some r -> lease_rates_wf r
}.

Lemma addresses_read l : Forall address_wf l -> exists b, encode_addresses l = Ok b /\ forall pre rest fuel, blen b <= Z.of_nat fuel ->
  address_loop fuel (pre ++ b ++ rest) (blen pre) (blen pre + blen b) = Ok l.
Proof.
  induction 1 as [|a l Ha _ (bs & Hbs & IH)].
  - exists []. split; [done|]. intros pre rest [|fuel] _; [done|]. cbn [address_loop]. rewrite blen_nil.
    by rewrite (proj2 (Z.ltb_ge _ _)) by lia.
  - destruct (address_read a Ha) as (b & Hb & Hpos & Hr). exists (b ++ bs). cbn [encode_addresses]. rewrite Hb, Hbs. split; [done|].
    intros pre rest fuel Hf. pose proof (blen_nonneg bs). rewrite blen_app in *. destruct fuel as [|fuel]; [lia|]. cbn [address_loop].
    rewrite <- app_assoc. destruct (Hr pre (bs ++ rest)) as [Hk Hd]. rewrite Hk, Hd, (proj2 (Z.ltb_lt _ _)), bind_Ok by lia.
    specialize (IH (pre ++ b) rest fuel ltac:(lia)). rewrite <- app_assoc, blen_app in IH.
    replace (blen pre + (blen b + blen bs)) with (blen pre + blen b + blen bs) by lia. cbn [andb]. by rewrite IH.
Qed.

Lemma lease_stream_read o : (forall r, o = Some r -> lease_rates_wf r) -> exists b, lease_stream o = Ok b /\
  forall pre, read_leaseRates (pre ++ b) (blen pre) = o.
Proof.
  destruct o as [r|]; intros Hw; [|exists []; split; [done|]; intros pre; unfold read_leaseRates].
  2: { rewrite app_nil_r. by rewrite Z.ltb_irrefl. }
  destruct (lease_rates_read r (Hw r eq_refl)) as (v & Hv & Hl & Hd). set (rs := [{| tlv_type := NODE_ANN_TLV_LEASE_RATES; tlv_value := v |}]).
  pose proof (blen_nonneg v).
  assert (Forall record_wf rs) as Hr. { constructor; [|done]. split; cbn; [done|lia]. }
  assert (increasing_from (-1) rs) as Hi by done.
  exists (stream_bytes rs). cbn [lease_stream]. rewrite Hv, bind_Ok. split; [by eapply encodeTlvStream_bytes|]. intros pre.
  pose proof (record_bytes_len {| tlv_type := NODE_ANN_TLV_LEASE_RATES; tlv_value := v |}) as Hn.
  assert (blen (stream_bytes rs) = blen (record_bytes {| tlv_type := NODE_ANN_TLV_LEASE_RATES; tlv_value := v |})) as E
    by (unfold rs, stream_bytes; cbn [map concat]; by rewrite app_nil_r).
  unfold read_leaseRates. rewrite blen_app, E, (proj2 (Z.ltb_lt _ _)) by lia.
  rewrite decodeTlvStream_run by (done || by constructor). cbn [records findTlvRecord]. cbn. by rewrite Hd.
Qed.

Lemma node_announcement_rt m : node_announcement_wf m -> exists b, encodeNodeAnnouncementMessage m = Ok b /\
  decodeNodeAnnouncementMessage b = Ok m.
Proof.
  intros [H1 H2 H3 H4 H5 H6 H7 H8 H9 H10]. destruct (addresses_read _ H7) as (ab & Hab & Hal). specialize (H9 _ Hab).
  destruct (lease_stream_read _ H10) as (tb & Htb & Htr). pose proof (blen_nonneg (nn_features m)).
  pose proof (blen_nonneg ab). pose proof (blen_nonneg tb).
  unfold encodeNodeAnnouncementMessage. cbv zeta. rewrite throw_pass by (apply Z.ltb_ge; lia). rewrite Hab, Htb, !bind_Ok. genc.
  eexists. split; [reflexivity|]. unfold decodeNodeAnnouncementMessage, NODE_ANNOUNCEMENT_MIN_LENGTH. cbv zeta.
  rewrite throw_pass by (apply Z.ltb_ge; len). rd.
  rewrite throw_pass by (apply Z.eqb_neq; lia).
  set (pre := nn_signature m ++ be 2 (blen (nn_features m)) ++ nn_features m ++ be 4 (nn_timestamp m) ++ nn_nodeId m ++
    nn_rgbColor m ++ nn_alias m ++ be 2 (blen ab)).
  assert (blen pre = 66 + blen (nn_features m) + 74) as <- by (unfold pre; len).
  match goal with |- context [address_loop _ ?b _ _] => assert (b = pre ++ ab ++ tb) as -> by (unfold pre; by rewrite <- !app_assoc) end.
  rewrite Hal by lia. rewrite bind_Ok. rewrite app_assoc. replace (blen pre + blen ab) with (blen (pre ++ ab)) by len.
  rewrite Htr. by destruct m.
Qed.

(** ** The codecs as messages *)

#[global] Instance channel_announcement_message : WireMessage IChannelAnnouncementMessage :=
  codec_of CHANNEL_ANNOUNCEMENT encodeChannelAnnouncementMessage decodeChannelAnnouncementMessage
    channel_announcement_wf channel_announcement_rt.
#[global] Instance node_announcement_message : WireMessage INodeAnnouncementMessage :=
  codec_of NODE_ANNOUNCEMENT encodeNodeAnnouncementMessage decodeNodeAnnouncementMessage node_announcement_wf node_announcement_rt.
#[global] Instance channel_update_message : WireMessage IChannelUpdateMessage :=
  codec_of CHANNEL_UPDATE encodeChannelUpdateMessage decodeChannelUpdateMessage channel_update_wf channel_update_rt.
#[global] Instance announcement_signatures_message : WireMessage IAnnouncementSignaturesMessage :=
  codec_of ANNOUNCEMENT_SIGNATURES (fun m => Ok (encodeAnnouncementSignaturesMessage m)) decodeAnnouncementSignaturesMessage
    announcement_signatures_wf announcement_signatures_rt.
#[global] Instance query_channel_range_message : WireMessage IQueryChannelRangeMessage :=
  codec_of QUERY_CHANNEL_RANGE encodeQueryChannelRangeMessage decodeQueryChannelRangeMessage
    query_channel_range_wf query_channel_range_rt.
#[global] Instance reply_channel_range_message : WireMessage IReplyChannelRangeMessage :=
  codec_of REPLY_CHANNEL_RANGE encodeReplyChannelRangeMessage decodeReplyChannelRangeMessage
    reply_channel_range_wf reply_channel_range_rt.
#[global] Instance query_scids_message : WireMessage IQueryShortChannelIdsMessage :=
  codec_of QUERY_SHORT_CHANNEL_IDS encodeQueryShortChannelIdsMessage decodeQueryShortChannelIdsMessage query_scids_wf query_scids_rt.
#[global] Instance reply_scids_end_message : WireMessage IReplyShortChannelIdsEndMessage :=
  codec_of REPLY_SHORT_CHANNEL_IDS_END (fun m => Ok (encodeReplyShortChannelIdsEndMessage m)) decodeReplyShortChannelIdsEndMessage
    (fun m => blen (re_chainHash m) = 32) reply_scids_end_rt.
#[global] Instance timestamp_filter_message : WireMessage IGossipTimestampFilterMessage :=
  codec_of GOSSIP_TIMESTAMP_FILTER encodeGossipTimestampFilterMessage decodeGossipTimestampFilterMessage
    timestamp_filter_wf timestamp_filter_rt.

(** A framed node_announcement is read back as it was sent:
    the addresses of every type with their textual hosts, the lease rates of the trailing
    record and the fixed fields. *)
Theorem node_announcement_roundtrip (m : INodeAnnouncementMessage) (Hwf : node_announcement_wf m) :
  exists b, frame_message m = Ok b /\ unframe_message b = Ok (MessageType_number NODE_ANNOUNCEMENT, m).
Proof. exact (frame_unframe m Hwf). Qed.

Definition sample_node : INodeAnnouncementMessage :=
  {| nn_signature := replicate 64 x01; nn_features := [x80]; nn_timestamp := 1700000000; nn_nodeId := replicate 33 x02;
     nn_rgbColor := [x0a; x0b; x0c]; nn_alias := replicate 32 x61;
     nn_addresses := [{| na_type := 1; na_host := "203.0.113.7"; na_port := 9735 |};
                      {| na_type := 2; na_host := "2001:0db8:0000:0000:0000:0000:0000:0001"; na_port := 9735 |};
                      {| na_type := 4; na_host := hex (replicate 35 xab); na_port := 80 |};
                      {| na_type := 5; na_host := "node.example"; na_port := 443 |}];
     nn_leaseRates := Some {| lr_fundingWeightWitness := 666; lr_leaseFeeBasis := 50; lr_leaseFeeBaseSat := 100;
                              lr_channelFeeMaxBaseMsat := 5000; lr_channelFeeMaxProportionalThousandths := 10 |} |}.

Lemma sample_node_wf : node_announcement_wf sample_node.
Proof.
  constructor; [reflexivity|reflexivity|by split|reflexivity..| |cbn; lia| |].
  - repeat apply Forall_cons_2; [| | | |apply Forall_nil_2].
    + apply (wf_ipv4 [xcb; x00; x71; x07] 9735); done.
    + apply (wf_ipv6 [0x2001; 0xdb8; 0; 0; 0; 0; 0; 1] 9735); [done|repeat constructor; done|done].
    + apply (wf_torv3 (replicate 35 xab) 80); done.
    + apply (wf_dns [x6e; x6f; x64; x65; x2e; x65; x78; x61; x6d; x70; x6c; x65] 443); [done|repeat constructor|done].
  - intros b E. vm_compute in E. by injection E as <-.
  - intros r E. injection E as <-. by repeat split.
Qed.

Lemma node_announcement_roundtrip_witness :
  exists b, frame_message sample_node = Ok b /\ unframe_message b = Ok (MessageType_number NODE_ANNOUNCEMENT, sample_node).
Proof. apply (node_announcement_roundtrip sample_node sample_node_wf). Defined.

(** ** Signatures of gossip (src/src/lightning/gossip/validation.ts)

    The signatures cover the double hash of everything behind them.  The hash and the
    verification and signing of ecdh.ts are parameters; both verification backends of
    [verifySha256d] give the verdict of [verify] on the hash of the first hash. *)

Section Validation.
Context (sha256 : buffer -> buffer) (verify : buffer -> buffer -> buffer -> bool) (sign : buffer -> buffer -> buffer).

Definition verifySha256d (firstHash publicKey signature : buffer) : bool := verify (sha256 firstHash) publicKey signature.

Definition computeGossipFirstHash (data : buffer) : buffer := sha256 data.

Definition computeGossipSignatureHash (data : buffer) : buffer := sha256 (computeGossipFirstHash data).

Definition getChannelAnnouncementSignedData (payload : buffer) : buffer := subarray payload 256 (blen payload).
Definition getNodeAnnouncementSignedData (payload : buffer) : buffer := subarray payload 64 (blen payload).
Definition getChannelUpdateSignedData (payload : buffer) : buffer := subarray payload 64 (blen payload).

Definition verifyChannelAnnouncement (msg : IChannelAnnouncementMessage) (payload : buffer) : bool :=
  let signedData := getChannelAnnouncementSignedData payload in
  let firstHash := computeGossipFirstHash signedData in
  verifySha256d firstHash (ca_nodeId1 msg) (ca_nodeSignature1 msg) &&
  verifySha256d firstHash (ca_nodeId2 msg) (ca_nodeSignature2 msg) &&
  verifySha256d firstHash (ca_bitcoinKey1 msg) (ca_bitcoinSignature1 msg) &&
  verifySha256d firstHash (ca_bitcoinKey2 msg) (ca_bitcoinSignature2 msg).

Definition verifyNodeAnnouncement (msg : INodeAnnouncementMessage) (payload : buffer) : bool :=
  let firstHash := computeGossipFirstHash (getNodeAnnouncementSignedData payload) in
  verifySha256d firstHash (nn_nodeId msg) (nn_signature msg).

Definition direction_of (msg : IChannelUpdateMessage) : Z := Z.land (cu_channelFlags msg) CHANNEL_FLAG_DIRECTION.

Definition verifyChannelUpdate (msg : IChannelUpdateMessage) (payload nodeId1 nodeId2 : buffer) : bool :=
  let firstHash := computeGossipFirstHash (getChannelUpdateSignedData payload) in
  let signerKey := if direction_of msg =? 0 then nodeId1 else nodeId2 in
  verifySha256d firstHash signerKey (cu_signature msg).

(** A message that does not encode again does not verify. *)
Definition on_encoding (r : result buffer) (f : buffer -> bool) : bool := match r with Ok payload => f payload | Err _ => false end.

Definition verifyChannelAnnouncementMessage (msg : IChannelAnnouncementMessage) : bool :=
  on_encoding (encodeChannelAnnouncementMessage msg) (verifyChannelAnnouncement msg).

Definition verifyNodeAnnouncementMessage (msg : INodeAnnouncementMessage) : bool :=
  on_encoding (encodeNodeAnnouncementMessage msg) (verifyNodeAnnouncement msg).

Definition verifyChannelUpdateMessage (msg : IChannelUpdateMessage) (nodeId1 nodeId2 : buffer) : bool :=
  on_encoding (encodeChannelUpdateMessage msg) (fun payload => verifyChannelUpdate msg payload nodeId1 nodeId2).

Definition signChannelAnnouncement (payload nodePrivkey bitcoinPrivkey : buffer) : buffer * buffer :=
  let hash := computeGossipSignatureHash (getChannelAnnouncementSignedData payload) in
  (sign hash nodePrivkey, sign hash bitcoinPrivkey).

Definition signNodeAnnouncement (payload nodePrivkey : buffer) : buffer :=
  sign (computeGossipSignatureHash (getNodeAnnouncementSignedData payload)) nodePrivkey.

Definition signChannelUpdate (payload nodePrivkey : buffer) : buffer :=
  sign (computeGossipSignatureHash (getChannelUpdateSignedData payload)) nodePrivkey.
End Validation.
