(* ===== verification/Pathfinding.v ===== *)
(** * Route finding (src/src/lightning/gossip/pathfinding.ts)

    The search reads the graph through the class [RoutingGraph] (network-graph.ts)
    and the penalties of mission-control.ts, which are floating-point, through a
    function.  [now] is [Math.floor(Date.now() / 1000)]. *)

From S2P Require Import Prelude Buffer JsMap GossipTypes Invoice BlindedPath Text.
From Stdlib Require Strings.String.
Local Open Scope Z_scope.

(** ** The priority queue of a route search
    (class MinHeap of src/src/lightning/gossip/pathfinding.ts)

    The array is a list; [x >> 1] is [Nat.div2].  A heap refines a bag of
    entries: [push] adds one and [pop] takes one of least cost. *)

Record IHeapEntry := { he_cost : Z; he_nodeId : string; he_amountMsat : Z; he_cltvValue : Z; he_hops : Z }.

(** [[a[i], a[j]] = [a[j], a[i]]] *)
Definition swap {A} (i j : nat) (l : list A) : list A :=
  match l !! i, l !! j with
  | Some x, Some y => <[j := x]> (<[i := y]> l)
  | _, _ => l
  end.

(** [this._data[i].cost < this._data[j].cost] *)
Definition cheaper (l : list IHeapEntry) (i j : nat) : bool :=
  match l !! i, l !! j with Some x, Some y => he_cost x <? he_cost y | _, _ => false end.

Definition parent (i : nat) : nat := Nat.div2 (i - 1).

(** The index shrinks at every turn. *)
Fixpoint siftUp_loop (fuel i : nat) (l : list IHeapEntry) : list IHeapEntry :=
  match fuel with
  | 0%nat => l
  | S fuel =>
      if (0 <? i)%nat && cheaper l i (parent i) then siftUp_loop fuel (parent i) (swap i (parent i) l) else l
  end.

Definition siftUp (i : nat) (l : list IHeapEntry) : list IHeapEntry := siftUp_loop i i l.

Definition push (entry : IHeapEntry) (l : list IHeapEntry) : list IHeapEntry :=
  let l := l ++ [entry] in siftUp (length l - 1) l.

Definition smallest_of (i : nat) (l : list IHeapEntry) : nat :=
  let n := length l in
  let left := (2 * i + 1)%nat in
  let right := (2 * i + 2)%nat in
  let smallest := if (left <? n)%nat && cheaper l left i then left else i in
  if (right <? n)%nat && cheaper l right smallest then right else smallest.

(** The index grows at every turn. *)
Fixpoint siftDown_loop (fuel i : nat) (l : list IHeapEntry) : list IHeapEntry :=
  match fuel with
  | 0%nat => l
  | S fuel =>
      let smallest := smallest_of i l in
      if (smallest =? i)%nat then l else siftDown_loop fuel smallest (swap i smallest l)
  end.

Definition siftDown (i : nat) (l : list IHeapEntry) : list IHeapEntry := siftDown_loop (length l) i l.

Definition pop (l : list IHeapEntry) : option (IHeapEntry * list IHeapEntry) :=
  match l with
  | [] => None
  | top :: _ =>
      match last l with
      | None => None
      | Some bottom =>
          let l := removelast l in
          if (0 <? length l)%nat then Some (top, siftDown 0 (<[0%nat := bottom]> l)) else Some (top, l)
      end
  end.

(** ** Swapping *)

Lemma swap_lookup {A} i j (l : list A) k : (i < length l)%nat -> (j < length l)%nat ->
  swap i j l !! k = if decide (k = j) then l !! i else if decide (k = i) then l !! j else l !! k.
Proof.
  intros Hi Hj. unfold swap. destruct (lookup_lt_is_Some_2 l i Hi) as [x Hx]. destruct (lookup_lt_is_Some_2 l j Hj) as [y Hy].
  rewrite Hx, Hy. destruct (decide (k = j)) as [->|].
  - by rewrite list_lookup_insert_eq by (by rewrite length_insert).
  - rewrite list_lookup_insert_ne by done. destruct (decide (k = i)) as [->|].
    + by rewrite list_lookup_insert_eq.
    + by rewrite list_lookup_insert_ne.
Qed.

Lemma swap_length {A} i j (l : list A) : length (swap i j l) = length l.
Proof. unfold swap. repeat case_match; by rewrite ?length_insert. Qed.

Lemma swap_perm {A} i j (l : list A) : Permutation (swap i j l) l.
Proof.
  unfold swap. destruct (l !! i) as [x|] eqn:Hx; [|done]. destruct (l !! j) as [y|] eqn:Hy; [|done].
  by apply Permutation_insert_swap.
Qed.

(** ** Heap order *)

Definition cost_at (l : list IHeapEntry) (i : nat) : Z := match l !! i with Some e => he_cost e | None => 0 end.

(** The entry at [j] costs no less than its parent. *)
Definition above (l : list IHeapEntry) (j : nat) : Prop := cost_at l (parent j) <= cost_at l j.

Definition heap_ok (l : list IHeapEntry) : Prop := forall j, (0 < j < length l)%nat -> above l j.

(** Ordered but for the entry at [i] and its parent; what is below [i] also costs no
    less than that parent. *)
Record up_ok (l : list IHeapEntry) (i : nat) : Prop := {
  uo_in : (i < length l)%nat;
  uo_rest j : (0 < j < length l)%nat -> j <> i -> above l j;
  uo_below j : (0 < j < length l)%nat -> (0 < i)%nat -> parent j = i -> cost_at l (parent i) <= cost_at l j
}.

(** Ordered but for the entry at [i] and its children. *)
Record down_ok (l : list IHeapEntry) (i : nat) : Prop := {
  do_rest j : (0 < j < length l)%nat -> parent j <> i -> above l j;
  do_below j : (0 < j < length l)%nat -> (0 < i)%nat -> parent j = i -> cost_at l (parent i) <= cost_at l j
}.

Lemma parent_lt i : (0 < i)%nat -> (parent i < i)%nat.
Proof. intros Hi. unfold parent. pose proof (Nat.div2_odd (i - 1)) as E. destruct (Nat.odd (i - 1)); cbn in E; lia. Qed.

Lemma parent_children i j : (0 < j)%nat -> parent j = i <-> (j = 2 * i + 1 \/ j = 2 * i + 2)%nat.
Proof. intros Hj. unfold parent. pose proof (Nat.div2_odd (j - 1)) as E. destruct (Nat.odd (j - 1)); cbn in E; lia. Qed.

Lemma swap_cost i j l k : (i < length l)%nat -> (j < length l)%nat ->
  cost_at (swap i j l) k = cost_at l (if decide (k = j) then i else if decide (k = i) then j else k).
Proof. intros Hi Hj. unfold cost_at. rewrite swap_lookup by done. repeat case_decide; done. Qed.

Lemma cheaper_cost l i j : (i < length l)%nat -> (j < length l)%nat -> cheaper l i j = (cost_at l i <? cost_at l j).
Proof.
  intros Hi Hj. unfold cheaper, cost_at. destruct (lookup_lt_is_Some_2 l i Hi) as [x ->].
  by destruct (lookup_lt_is_Some_2 l j Hj) as [y ->].
Qed.

Lemma siftUp_ok fuel : forall i l, (i <= fuel)%nat -> up_ok l i -> heap_ok (siftUp_loop fuel i l).
Proof.
  induction fuel as [|fuel IH]; intros i l Hf [Hin Hrest Hbelow].
  { assert (i = 0)%nat as -> by lia. intros j Hj. apply Hrest; [done|lia]. }
  cbn [siftUp_loop]. destruct (Nat.ltb_spec 0 i) as [Hi|Hi]; cbn [andb]; [|intros j Hj; apply Hrest; [done|lia]].
  pose proof (parent_lt i Hi) as Hp. rewrite cheaper_cost by lia.
  destruct (Z.ltb_spec (cost_at l i) (cost_at l (parent i))) as [Hc|Hc].
  2:{ intros j Hj. destruct (decide (j = i)) as [->|]; [done|by apply Hrest]. }
  apply IH; [lia|]. constructor.
  - rewrite swap_length. lia.
  - rewrite swap_length. intros j Hj Hne. unfold above. rewrite !swap_cost by lia.
    pose proof (parent_lt j ltac:(lia)) as Hpj.
    destruct (decide (j = i)) as [->|Hji].
    + repeat case_decide; lia.
    + rewrite (decide_False (P := j = parent i)) by done.
      destruct (decide (parent j = parent i)) as [E|E].
      * pose proof (Hrest j Hj Hji) as Hr. unfold above in Hr. rewrite E in Hr. lia.
      * destruct (decide (parent j = i)) as [E2|E2]; [by apply Hbelow|by apply Hrest].
  - rewrite swap_length. intros j Hj Hpi Ej. rewrite !swap_cost by lia.
    pose proof (parent_lt (parent i) Hpi) as Hpp. rewrite (decide_False (P := parent (parent i) = parent i)),
      (decide_False (P := parent (parent i) = i)), (decide_False (P := j = parent i)) by (try lia; intros ->; pose proof (parent_lt (parent i) Hpi); lia).
    pose proof (Hrest (parent i) ltac:(lia) ltac:(lia)) as Hr. unfold above in Hr.
    destruct (decide (j = i)) as [->|Hji]; [done|].
    pose proof (Hrest j Hj Hji) as Hr2. unfold above in Hr2. rewrite Ej in Hr2. lia.
Qed.

Lemma siftDown_ok fuel : forall i l, (length l - i <= fuel)%nat -> (i < length l)%nat -> down_ok l i ->
  heap_ok (siftDown_loop fuel i l).
Proof.
  induction fuel as [|fuel IH]; intros i l Hf Hin [Hrest Hbelow]; [lia|].
  cbn [siftDown_loop]. set (s := smallest_of i l).
  assert ((s = i \/ (s < length l)%nat /\ (0 < s)%nat /\ parent s = i /\ cost_at l s < cost_at l i) /\
    forall j, (0 < j < length l)%nat -> parent j = i -> cost_at l s <= cost_at l j) as [Hs Hmin].
  { unfold s, smallest_of. cbv zeta. set (s1 := if _ && cheaper l (2 * i + 1) i then _ else _).
    assert ((s1 = i \/ s1 = 2 * i + 1 /\ s1 < length l)%nat /\ cost_at l s1 <= cost_at l i /\
      (s1 <> i -> cost_at l s1 < cost_at l i) /\ ((2 * i + 1 < length l)%nat -> cost_at l s1 <= cost_at l (2 * i + 1))) as (H1 & H2 & H3 & H4).
    { unfold s1. destruct (Nat.ltb_spec (2 * i + 1) (length l)); cbn [andb]; [|lia].
      rewrite cheaper_cost by lia. destruct (Z.ltb_spec (cost_at l (2 * i + 1)) (cost_at l i)); lia. }
    clearbody s1. destruct (Nat.ltb_spec (2 * i + 2) (length l)); cbn [andb].
    - rewrite cheaper_cost by lia. destruct (Z.ltb_spec (cost_at l (2 * i + 2)) (cost_at l s1)).
      + split; [right; repeat split; try lia; apply parent_children; lia|]. intros j Hj [->| ->]%parent_children; lia.
      + split; [destruct H1 as [->|[-> ?]]; [by left|right]; repeat split; try lia; apply parent_children; lia|].
        intros j Hj [->| ->]%parent_children; lia.
    - split; [destruct H1 as [->|[-> ?]]; [by left|right]; repeat split; try lia; apply parent_children; lia|].
      intros j Hj [->| ->]%parent_children; lia. }
  clearbody s. destruct (Nat.eqb_spec s i) as [->|Hne].
  { intros j Hj. destruct (decide (parent j = i)) as [E|E]; [|by apply Hrest]. unfold above. rewrite E. by apply Hmin. }
  destruct Hs as [?|(Hsl & Hs0 & Hps & Hcs)]; [done|]. pose proof (parent_lt s Hs0) as Hlt.
  apply IH; rewrite ?swap_length; [lia|done|]. constructor; rewrite swap_length.
  - intros j Hj Hpj. unfold above. rewrite !swap_cost by lia. rewrite (decide_False (P := parent j = s)) by done.
    destruct (decide (parent j = i)) as [E|E].
    + destruct (decide (j = s)); [lia|]. rewrite (decide_False (P := j = i)) by (intros ->; pose proof (parent_lt i ltac:(lia)); lia).
      by apply Hmin.
    + rewrite (decide_False (P := j = s)) by (by intros ->). destruct (decide (j = i)) as [->|]; [|by apply Hrest].
      apply Hbelow; [lia|lia|done].
  - intros j Hj _ Ej. rewrite !swap_cost by lia. rewrite Hps, (decide_False (P := i = s)), (decide_True (P := i = i)) by lia.
    pose proof (parent_lt j ltac:(lia)). rewrite (decide_False (P := j = s)), (decide_False (P := j = i)) by lia.
    pose proof (Hrest j Hj ltac:(lia)) as Hr. unfold above in Hr. by rewrite Ej in Hr.
Qed.

(** ** A heap is a bag with a least entry *)

Lemma siftUp_perm fuel : forall i l, Permutation (siftUp_loop fuel i l) l.
Proof.
  induction fuel as [|fuel IH]; intros i l; [done|]. cbn [siftUp_loop]. case_match; [|done]. by rewrite IH, swap_perm.
Qed.

Lemma siftDown_perm fuel : forall i l, Permutation (siftDown_loop fuel i l) l.
Proof.
  induction fuel as [|fuel IH]; intros i l; [done|]. cbn [siftDown_loop]. case_match; [done|]. by rewrite IH, swap_perm.
Qed.

Lemma push_perm e l : Permutation (push e l) (e :: l).
Proof. unfold push, siftUp. rewrite siftUp_perm. symmetry. apply Permutation_cons_append. Qed.

Lemma cost_app l r j : (j < length l)%nat -> cost_at (l ++ r) j = cost_at l j.
Proof. intros Hj. unfold cost_at. by rewrite lookup_app_l. Qed.

Lemma push_ok e l : heap_ok l -> heap_ok (push e l).
Proof.
  intros Hl. unfold push, siftUp. cbv zeta. apply siftUp_ok; [done|]. rewrite length_app. cbn [length]. constructor; rewrite ?length_app; cbn [length].
  - lia.
  - intros j Hj Hne. assert (j < length l)%nat by lia. pose proof (parent_lt j ltac:(lia)).
    unfold above. rewrite !cost_app by lia. apply Hl. lia.
  - intros j Hj Hi Hp. pose proof (parent_lt j ltac:(lia)). lia.
Qed.

Lemma root_least l : heap_ok l -> forall j, (j < length l)%nat -> cost_at l 0 <= cost_at l j.
Proof.
  intros Hl j. induction (lt_wf j) as [j _ IH]. intros Hj. destruct j as [|j]; [done|].
  pose proof (parent_lt (S j) ltac:(lia)) as Hp. pose proof (IH _ Hp ltac:(lia)). pose proof (Hl (S j) ltac:(lia)) as Ha.
  unfold above in Ha. lia.
Qed.

Lemma pop_None l : pop l = None <-> l = [].
Proof.
  destruct l as [|x l]; [done|]. cbn [pop]. destruct (last (x :: l)) eqn:E; [|by apply last_None in E].
  cbv zeta. by destruct (0 <? _)%nat.
Qed.

Lemma pop_spec l top l' : heap_ok l -> pop l = Some (top, l') ->
  Permutation l (top :: l') /\ heap_ok l' /\ Forall (fun e => he_cost top <= he_cost e) l.
Proof.
  intros Hl Hp. destruct l as [|x l]; [done|]. cbn [pop] in Hp.
  destruct (last (x :: l)) as [bottom|] eqn:E; [|done]. apply last_Some in E as [pre E]. rewrite E, removelast_last in Hp. cbv zeta in Hp.
  assert (top = x) as ->.
  { by destruct (0 <? _)%nat in Hp; injection Hp. }
  assert (Forall (fun e => he_cost x <= he_cost e) (x :: l)) as Hmin.
  { apply Forall_lookup. intros j e Hj. pose proof (root_least _ Hl j ltac:(by eapply lookup_lt_Some)) as Hr.
    unfold cost_at in Hr. by rewrite Hj in Hr. }
  destruct pre as [|x' pre].
  - injection E as -> ->. injection Hp as <-. split_and!; [done| |done]. intros j Hj. cbn in Hj. lia.
  - injection E as <- ->. cbn [length Nat.ltb Nat.leb insert list_insert] in Hp. injection Hp as <-. split_and!; [| |done].
    + unfold siftDown. rewrite siftDown_perm. f_equiv. symmetry. apply Permutation_cons_append.
    + apply siftDown_ok; [lia|cbn; lia|]. constructor; [|intros; lia]. intros j Hj Hpj. pose proof (parent_lt j ltac:(lia)).
      cbn [length] in Hj. pose proof (Hl j ltac:(cbn [length]; rewrite length_app; lia)) as Ha. unfold above in *.
      destruct j as [|j]; [lia|]. destruct (parent (S j)) as [|k] eqn:Ek; [done|].
      change (x :: pre ++ [bottom]) with ((x :: pre) ++ [bottom]) in Ha. rewrite !cost_app in Ha by (cbn; lia). done.
Qed.

(** ** The graph *)

(** What the search uses of a NetworkGraph; [rg_nodes] are the keys of its [_nodes]. *)
Class RoutingGraph (G : Type) := {
  rg_getChannel : G -> buffer -> option IGraphChannel;
  rg_getNodeEdges : G -> string -> list IGraphEdge;
  rg_nodes : G -> list string
}.

Definition DEFAULT_MAX_HOPS : Z := 20.

Abbreviation TPolicyOverrides := (jsmap IChannelUpdateMessage).

Definition policyOverrideKey (scidHex : string) (direction : Z) : string :=
  scidHex +:+ ":" +:+ (if Z.land direction 1 =? 0 then "0" else "1").

Definition edgeDirection (upstreamHex downstreamHex : string) : Z :=
  if String.ltb upstreamHex downstreamHex then 0 else 1.

Definition policyFor (update : option IChannelUpdateMessage) (policyOverrides : option TPolicyOverrides)
    (scidHex upstreamHex downstreamHex : string) : option IChannelUpdateMessage :=
  match update, policyOverrides with
  | Some u, Some overrides =>
      match JsMap.get (policyOverrideKey scidHex (edgeDirection upstreamHex downstreamHex)) overrides with
      | Some o => Some o
      | None => Some u
      end
  | _, _ => update
  end.

Definition HOP_PENALTY_MSAT : Z := 1000.

Definition calculateFee (amountMsat feeBaseMsat feeProportionalMillionths : Z) : Z :=
  feeBaseMsat + Z.quot (amountMsat * feeProportionalMillionths) 1000000.

(** ** The overlay *)

Section Overlay.
Context {G : Type} `{RoutingGraph G} (now : Z).

(** The updates of the synthetic channel of a hint. *)
Definition hint_update (hop : IRoutingHintHop) : IChannelUpdateMessage :=
  {| cu_signature := alloc 64; cu_chainHash := alloc 32; cu_shortChannelId := rh_shortChannelId hop; cu_timestamp := now;
     cu_messageFlags := MESSAGE_FLAG_HTLC_MAX; cu_channelFlags := 0; cu_cltvExpiryDelta := rh_cltvExpiryDelta hop;
     cu_htlcMinimumMsat := 0; cu_feeBaseMsat := rh_feeBaseMsat hop;
     cu_feeProportionalMillionths := rh_feeProportionalMillionths hop; cu_htlcMaximumMsat := Some 0xffffffffffffffff |}.

Definition synthetic_channel (scid nodeId1 nodeId2 : buffer) (update : IChannelUpdateMessage) : IGraphChannel :=
  {| gc_shortChannelId := scid; gc_nodeId1 := nodeId1; gc_nodeId2 := nodeId2; gc_features := []; gc_announcement := None;
     gc_update1 := Some update; gc_update2 := Some update; gc_announcementVerified := None; gc_update1Verified := None;
     gc_update2Verified := None; gc_announcementVerifyDeferred := None; gc_update1VerifyDeferred := None;
     gc_update2VerifyDeferred := None; gc_fundingVerified := None |}.

(** [map.set(k, [...(map.get(k) ?? []), edge])] *)
Definition push_edge (k : string) (edge : IGraphEdge) (m : jsmap (list IGraphEdge)) : jsmap (list IGraphEdge) :=
  JsMap.set k (default [] (JsMap.get k m) ++ [edge]) m.

(** The node a hop leads to: the next hop of the hint, or the destination. *)
Definition next_node_hex (rest : list IRoutingHintHop) (destHex : string) : string :=
  match rest with next :: _ => hex (rh_pubkey next) | [] => destHex end.

Definition hint_edge (hop : IRoutingHintHop) : IGraphEdge :=
  let pubkeyHex := hex (rh_pubkey hop) in
  {| ge_channel := synthetic_channel (rh_shortChannelId hop) (rh_pubkey hop) (rh_pubkey hop) (hint_update hop);
     ge_scidHex := hex (rh_shortChannelId hop); ge_node1Hex := pubkeyHex; ge_node2Hex := pubkeyHex |}.

Fixpoint synthetic_route (graph : G) (destHex : string) (hintRoute : list IRoutingHintHop)
    (m : jsmap (list IGraphEdge)) : jsmap (list IGraphEdge) :=
  match hintRoute with
  | [] => m
  | hop :: rest =>
      let m := match rg_getChannel graph (rh_shortChannelId hop) with
               | Some _ => m
               | None => push_edge (next_node_hex rest destHex) (hint_edge hop) m
               end in
      synthetic_route graph destHex rest m
  end.

Definition buildSyntheticEdges (hints : list (list IRoutingHintHop)) (graph : G) (destination : buffer) :
    jsmap (list IGraphEdge) :=
  fold_left (fun m hintRoute => synthetic_route graph (hex destination) hintRoute m) hints [].

Fixpoint dest_route (graph : G) (destHex : string) (hintRoute : list IRoutingHintHop) (m : jsmap string) : jsmap string :=
  match hintRoute with
  | [] => m
  | hop :: rest =>
      let m := match rg_getChannel graph (rh_shortChannelId hop) with
               | Some _ => m
               | None => JsMap.set (hex (rh_shortChannelId hop)) (next_node_hex rest destHex) m
               end in
      dest_route graph destHex rest m
  end.

Definition buildHintDestinationMap (hints : list (list IRoutingHintHop)) (graph : G) (destination : buffer) : jsmap string :=
  fold_left (fun m hintRoute => dest_route graph (hex destination) hintRoute m) hints [].

Record ILocalChannelEdge := {
  lc_shortChannelId : buffer;
  lc_peer : buffer;
  lc_outboundMsat : Z;
  lc_htlcMinimumMsat : option Z;
  lc_cltvExpiryDelta : option Z
}.

Definition makeLocalChannelEdge (source : buffer) (lc : ILocalChannelEdge) : IGraphChannel :=
  let update :=
    {| cu_signature := alloc 64; cu_chainHash := alloc 32; cu_shortChannelId := lc_shortChannelId lc; cu_timestamp := now;
       cu_messageFlags := MESSAGE_FLAG_HTLC_MAX; cu_channelFlags := 0; cu_cltvExpiryDelta := default 0 (lc_cltvExpiryDelta lc);
       cu_htlcMinimumMsat := default 0 (lc_htlcMinimumMsat lc); cu_feeBaseMsat := 0; cu_feeProportionalMillionths := 0;
       cu_htlcMaximumMsat := Some (lc_outboundMsat lc) |} in
  synthetic_channel (lc_shortChannelId lc) source (lc_peer lc) update.

Record IEdgeOverlay := {
  ov_syntheticEdges : jsmap (list IGraphEdge);
  ov_hintDestMap : jsmap string;
  ov_shadowedScids : list string;
  ov_localFirstHopScids : option (list string)
}.

(** [while (start < hintRoute.length && hintRoute[start].pubkey.equals(source)) start++] *)
Fixpoint trim_hint (source : buffer) (hintRoute : list IRoutingHintHop) : list IRoutingHintHop :=
  match hintRoute with
  | hop :: rest => if buf_equals (rh_pubkey hop) source then trim_hint source rest else hintRoute
  | [] => []
  end.

Definition trim_hints (source : buffer) (routingHints : list (list IRoutingHintHop)) : list (list IRoutingHintHop) :=
  List.filter (fun rest => (0 <? length rest)%nat) (map (trim_hint source) routingHints).

Definition add_set (k : string) (s : list string) : list string := if bool_decide (k ∈ s) then s else s ++ [k].

Definition add_local (graph : G) (source : buffer) (o : IEdgeOverlay) (lc : ILocalChannelEdge) : IEdgeOverlay :=
  let scidHex := hex (lc_shortChannelId lc) in
  let shadowed := match rg_getChannel graph (lc_shortChannelId lc) with
                  | Some _ => add_set scidHex (ov_shadowedScids o)
                  | None => ov_shadowedScids o
                  end in
  let peerHex := hex (lc_peer lc) in
  let edge := {| ge_channel := makeLocalChannelEdge source lc; ge_scidHex := scidHex; ge_node1Hex := hex source;
                 ge_node2Hex := peerHex |} in
  {| ov_syntheticEdges := push_edge peerHex edge (ov_syntheticEdges o);
     ov_hintDestMap := JsMap.set scidHex peerHex (ov_hintDestMap o);
     ov_shadowedScids := shadowed; ov_localFirstHopScids := ov_localFirstHopScids o |}.

Definition buildEdgeOverlay (graph : G) (source destination : buffer) (routingHints : option (list (list IRoutingHintHop)))
    (localChannels : option (list ILocalChannelEdge)) : IEdgeOverlay :=
  let localFirstHopScids :=
    match localChannels with
    | Some (lc :: lcs) => Some (fold_left (fun s lc => add_set (hex (lc_shortChannelId lc)) s) (lc :: lcs) [])
    | _ => None
    end in
  let o :=
    match routingHints with
    | Some routingHints =>
        let trimmedHints := trim_hints source routingHints in
        {| ov_syntheticEdges := buildSyntheticEdges trimmedHints graph destination;
           ov_hintDestMap := buildHintDestinationMap trimmedHints graph destination;
           ov_shadowedScids := []; ov_localFirstHopScids := localFirstHopScids |}
    | None => {| ov_syntheticEdges := []; ov_hintDestMap := []; ov_shadowedScids := [];
                 ov_localFirstHopScids := localFirstHopScids |}
    end in
  fold_left (add_local graph source) (default [] localChannels) o.

End Overlay.

(** ** The search *)

Record IPredecessor := {
  pr_channel : IGraphChannel;
  pr_nextNodeId : string;
  pr_amountMsat : Z;
  pr_cltvValue : Z;
  pr_feeBaseMsat : Z;
  pr_feeProportionalMillionths : Z;
  pr_cltvExpiryDelta : Z
}.

Definition DEFAULT_MAX_CLTV_EXPIRY : Z := 2016.

(** [rs_missionControl] is [getPenalty] of the object. *)
Record IRouteSearch (G : Type) := {
  rs_graph : G;
  rs_sourceHex : string;
  rs_destHex : string;
  rs_finalCltvExpiry : Z;
  rs_maxHops : Z;
  rs_maxCltvExpiry : Z;
  rs_overlay : IEdgeOverlay;
  rs_excludedChannels : option (list string);
  rs_missionControl : option (string -> Z);
  rs_currentTimestamp : option Z;
  rs_policyOverrides : option TPolicyOverrides
}.
Arguments rs_graph {G}. Arguments rs_sourceHex {G}. Arguments rs_destHex {G}. Arguments rs_finalCltvExpiry {G}.
Arguments rs_maxHops {G}. Arguments rs_maxCltvExpiry {G}. Arguments rs_overlay {G}. Arguments rs_excludedChannels {G}.
Arguments rs_missionControl {G}. Arguments rs_currentTimestamp {G}. Arguments rs_policyOverrides {G}.

(** The variables of the search loop. *)
Record frontier := {
  fr_bestCost : jsmap Z;
  fr_predecessors : jsmap IPredecessor;
  fr_heap : list IHeapEntry
}.

Definition opt_mem (k : string) (s : option (list string)) : bool :=
  match s with Some s => bool_decide (k ∈ s) | None => false end.

Section Search.
Context {G : Type} `{RoutingGraph G}.

(** The edges explored at a node: the graph's less the shadowed ones, then the overlay's. *)
Definition node_edges (search : IRouteSearch G) (nodeId : string) : list IGraphEdge :=
  let overlay := rs_overlay search in
  let graphEdges := List.filter (fun edge => negb (bool_decide (ge_scidHex edge ∈ ov_shadowedScids overlay)))
                      (rg_getNodeEdges (rs_graph search) nodeId) in
  graphEdges ++ default [] (JsMap.get nodeId (ov_syntheticEdges overlay)).

(** The upstream node of an edge and its policy; [None] where the loop continues. *)
Definition edge_upstream (search : IRouteSearch G) (nodeId : string) (edge : IGraphEdge) :
    option (string * option IChannelUpdateMessage) :=
  match JsMap.get (ge_scidHex edge) (ov_hintDestMap (rs_overlay search)) with
  | Some hintDest =>
      if bool_decide (hintDest = nodeId) then Some (ge_node1Hex edge, gc_update1 (ge_channel edge)) else None
  | None =>
      let isCurrentNode2 := bool_decide (nodeId = ge_node2Hex edge) in
      let upstream := if isCurrentNode2 then ge_node1Hex edge else ge_node2Hex edge in
      let update := if isCurrentNode2 then gc_update1 (ge_channel edge) else gc_update2 (ge_channel edge) in
      if match ov_localFirstHopScids (rs_overlay search) with
         | Some scids => bool_decide (upstream = rs_sourceHex search) && negb (bool_decide (ge_scidHex edge ∈ scids))
         | None => false
         end
      then None else Some (upstream, update)
  end.

(** [htlcMaximumMsat]: the limit an update sets *)
Definition update_maximum (update : IChannelUpdateMessage) : option Z :=
  if negb (Z.land (cu_messageFlags update) MESSAGE_FLAG_HTLC_MAX =? 0) then cu_htlcMaximumMsat update else None.

(** Whether [amountMsat] is too much for the channel. *)
Definition over_capacity (usedCapacity : option (jsmap Z)) (scidHex : string) (update : IChannelUpdateMessage) (amountMsat : Z) : bool :=
  match usedCapacity with
  | Some usedCapacity =>
      let used := default 0 (JsMap.get scidHex usedCapacity) in
      let maxCapacity := default 0xffffffffffffffff (update_maximum update) in
      let availableCapacity := if used <? maxCapacity then maxCapacity - used else 0 in
      availableCapacity <? amountMsat
  | None => match update_maximum update with Some m => m <? amountMsat | None => false end
  end.

(** The checks of the loop body up to the fee: the upstream node and the policy of an
    edge that can carry [amountMsat] to [nodeId]. *)
Definition edge_policy (search : IRouteSearch G) (usedCapacity : option (jsmap Z)) (nodeId : string) (amountMsat : Z)
    (edge : IGraphEdge) : option (string * IChannelUpdateMessage) :=
  let scidHex := ge_scidHex edge in
  if opt_mem scidHex (rs_excludedChannels search) then None
  else
    match edge_upstream search nodeId edge with
    | None => None
    | Some (upstream, update) =>
        match policyFor update (rs_policyOverrides search) scidHex upstream nodeId with
        | None => None
        | Some update =>
            if negb (Z.land (cu_channelFlags update) CHANNEL_FLAG_DISABLED =? 0) then None
            else if match rs_currentTimestamp search, JsMap.get scidHex (ov_hintDestMap (rs_overlay search)) with
                    | Some ts, None => cu_timestamp update <? ts - DEFAULT_PRUNE_MAX_AGE
                    | _, _ => false
                    end then None
            else if amountMsat <? cu_htlcMinimumMsat update then None
            else if over_capacity usedCapacity scidHex update amountMsat then None
            else Some (upstream, update)
        end
    end.

Definition penalty (search : IRouteSearch G) (scidHex : string) : Z :=
  match rs_missionControl search with Some getPenalty => getPenalty scidHex | None => 0 end.

(** One turn of the loop over the edges of [current]. *)
Definition relax (search : IRouteSearch G) (usedCapacity : option (jsmap Z)) (current : IHeapEntry) (st : frontier)
    (edge : IGraphEdge) : frontier :=
  match edge_policy search usedCapacity (he_nodeId current) (he_amountMsat current) edge with
  | None => st
  | Some (upstream, update) =>
      let fee := calculateFee (he_amountMsat current) (cu_feeBaseMsat update) (cu_feeProportionalMillionths update) in
      let newAmount := he_amountMsat current + fee in
      let newCltv := if bool_decide (upstream = rs_sourceHex search) then he_cltvValue current
                     else he_cltvValue current + cu_cltvExpiryDelta update in
      if rs_maxCltvExpiry search <? newCltv then st
      else
        let newCost := he_cost current + fee + penalty search (ge_scidHex edge) + HOP_PENALTY_MSAT in
        if match JsMap.get upstream (fr_bestCost st) with Some existingBest => existingBest <=? newCost | None => false end
        then st
        else
          {| fr_bestCost := JsMap.set upstream newCost (fr_bestCost st);
             fr_predecessors := JsMap.set upstream
               {| pr_channel := ge_channel edge; pr_nextNodeId := he_nodeId current; pr_amountMsat := he_amountMsat current;
                  pr_cltvValue := he_cltvValue current; pr_feeBaseMsat := cu_feeBaseMsat update;
                  pr_feeProportionalMillionths := cu_feeProportionalMillionths update;
                  pr_cltvExpiryDelta := cu_cltvExpiryDelta update |} (fr_predecessors st);
             fr_heap := push {| he_cost := newCost; he_nodeId := upstream; he_amountMsat := newAmount; he_cltvValue := newCltv;
                                he_hops := he_hops current + 1 |} (fr_heap st) |}
  end.

(** [while (heap.size > 0)]; [None] when the fuel is too little *)
Fixpoint search_loop (fuel : nat) (search : IRouteSearch G) (usedCapacity : option (jsmap Z)) (st : frontier) : option frontier :=
  match pop (fr_heap st) with
  | None => Some st
  | Some (current, heap) =>
      let st := {| fr_bestCost := fr_bestCost st; fr_predecessors := fr_predecessors st; fr_heap := heap |} in
      match fuel with
      | 0%nat => None
      | S fuel =>
          if match JsMap.get (he_nodeId current) (fr_bestCost st) with Some known => known <? he_cost current | None => false end
          then search_loop fuel search usedCapacity st
          else if bool_decide (he_nodeId current = rs_sourceHex search) then Some st
          else if rs_maxHops search <=? he_hops current then search_loop fuel search usedCapacity st
          else search_loop fuel search usedCapacity
                 (fold_left (relax search usedCapacity current) (node_edges search (he_nodeId current)) st)
      end
  end.

(** Every node is expanded once, so the heap is pushed to once per edge at most. *)
Definition search_fuel (search : IRouteSearch G) : nat :=
  let nodes := remove_dups (rg_nodes (rs_graph search) ++ map fst (ov_syntheticEdges (rs_overlay search))) in
  S (list_sum (map (fun n => length (node_edges search n)) nodes)).

(** [while (currentNode !== destHex)]: the hops, or [None] for [return null] *)
Fixpoint path_loop (fuel : nat) (destHex : string) (predecessors : jsmap IPredecessor) (currentNode : string)
    (visited : list string) : option (list IRouteHop) :=
  if bool_decide (currentNode = destHex) then Some []
  else
    match fuel, JsMap.get currentNode predecessors with
    | 0%nat, _ | _, None => Some []
    | S fuel, Some pred =>
        let hopNodeHex := pr_nextNodeId pred in
        if bool_decide (hopNodeHex ∈ visited) then None
        else
          let hopPred := JsMap.get hopNodeHex predecessors in
          match path_loop fuel destHex predecessors hopNodeHex (hopNodeHex :: visited) with
          | None => None
          | Some hops =>
              Some ({| hop_pubkey := unhex hopNodeHex; hop_shortChannelId := gc_shortChannelId (pr_channel pred);
                       hop_amountToForwardMsat := pr_amountMsat pred; hop_outgoingCltvValue := pr_cltvValue pred;
                       hop_feeBaseMsat := match hopPred with Some p => pr_feeBaseMsat p | None => 0 end;
                       hop_feeProportionalMillionths := match hopPred with Some p => pr_feeProportionalMillionths p | None => 0 end;
                       hop_cltvExpiryDelta := pr_cltvExpiryDelta pred;
                       hop_encryptedRecipientData := None; hop_blindingPoint := None |} :: hops)
          end
    end.

Definition searchCheapestRoute (search : IRouteSearch G) (amountMsat : Z) (usedCapacity : option (jsmap Z)) : option IRoute :=
  let sourceHex := rs_sourceHex search in
  let destHex := rs_destHex search in
  if bool_decide (sourceHex = destHex) then None
  else
    let st := {| fr_bestCost := JsMap.set destHex amountMsat []; fr_predecessors := [];
                 fr_heap := push {| he_cost := amountMsat; he_nodeId := destHex; he_amountMsat := amountMsat;
                                    he_cltvValue := rs_finalCltvExpiry search; he_hops := 0 |} [] |} in
    match search_loop (search_fuel search) search usedCapacity st with
    | None => None
    | Some st =>
        let predecessors := fr_predecessors st in
        if negb (has sourceHex predecessors) then None
        else
          match path_loop (S (length predecessors)) destHex predecessors sourceHex [sourceHex] with
          | None => None
          | Some hops =>
              match hops with
              | [] => None
              | first :: _ =>
                  if rs_maxCltvExpiry search <? hop_outgoingCltvValue first then None
                  else
                    let totalAmountMsat := hop_amountToForwardMsat first in
                    Some {| rt_hops := hops; rt_totalAmountMsat := totalAmountMsat;
                            rt_totalCltvDelta := fold_left (fun t hop => t + hop_cltvExpiryDelta hop) hops 0;
                            rt_totalFeeMsat := totalAmountMsat - amountMsat |}
              end
          end
    end.

Definition without_missionControl (search : IRouteSearch G) : IRouteSearch G :=
  {| rs_graph := rs_graph search; rs_sourceHex := rs_sourceHex search; rs_destHex := rs_destHex search;
     rs_finalCltvExpiry := rs_finalCltvExpiry search; rs_maxHops := rs_maxHops search; rs_maxCltvExpiry := rs_maxCltvExpiry search;
     rs_overlay := rs_overlay search; rs_excludedChannels := rs_excludedChannels search; rs_missionControl := None;
     rs_currentTimestamp := rs_currentTimestamp search; rs_policyOverrides := rs_policyOverrides search |}.

Definition searchRoute (search : IRouteSearch G) (amountMsat : Z) (usedCapacity : option (jsmap Z)) : option IRoute :=
  match searchCheapestRoute search amountMsat usedCapacity, rs_missionControl search with
  | Some route, _ => Some route
  | None, None => None
  | None, Some _ => searchCheapestRoute (without_missionControl search) amountMsat usedCapacity
  end.

(** ** Single routes *)

(** The search object that findRoute and findMultiPathRoute build. *)
Definition new_search (now : Z) (graph : G) (source destination : buffer) (finalCltvExpiry maxHops : Z)
    (excludedChannels : option (list string)) (missionControl : option (string -> Z)) (maxCltvExpiry : Z)
    (routingHints : option (list (list IRoutingHintHop))) (currentTimestamp : option Z)
    (localChannels : option (list ILocalChannelEdge)) (policyOverrides : option TPolicyOverrides) : IRouteSearch G :=
  {| rs_graph := graph; rs_sourceHex := hex source; rs_destHex := hex destination; rs_finalCltvExpiry := finalCltvExpiry;
     rs_maxHops := maxHops; rs_maxCltvExpiry := maxCltvExpiry;
     rs_overlay := buildEdgeOverlay now graph source destination routingHints localChannels;
     rs_excludedChannels := excludedChannels; rs_missionControl := missionControl; rs_currentTimestamp := currentTimestamp;
     rs_policyOverrides := policyOverrides |}.

(** The arguments with defaults are given; [now] dates the synthetic updates. *)
Definition findRoute (now : Z) (graph : G) (source destination : buffer) (amountMsat finalCltvExpiry maxHops : Z)
    (excludedChannels : option (list string)) (missionControl : option (string -> Z)) (maxCltvExpiry : Z)
    (routingHints : option (list (list IRoutingHintHop))) (currentTimestamp : option Z)
    (localChannels : option (list ILocalChannelEdge)) (policyOverrides : option TPolicyOverrides) : option IRoute :=
  searchRoute (new_search now graph source destination finalCltvExpiry maxHops excludedChannels missionControl maxCltvExpiry routingHints
      currentTimestamp localChannels policyOverrides) amountMsat None.

(** ** Multi-path routes *)

Record IMultiPathRoute := { mp_parts : list IRoute; mp_totalAmountMsat : Z; mp_totalFeeMsat : Z }.

Definition DEFAULT_MAX_MPP_PARTS : Z := 4.

(** [route.hops[route.hops.length - 1].amountToForwardMsat] *)
Definition delivered (route : IRoute) : Z :=
  match last (rt_hops route) with Some hop => hop_amountToForwardMsat hop | None => 0 end.

(** The policy the search used for a hop from [upstreamHex]. *)
Definition hop_update (search : IRouteSearch G) (upstreamHex : string) (hop : IRouteHop) : option IChannelUpdateMessage :=
  let scidHex := hex (hop_shortChannelId hop) in
  let downstreamHex := hex (hop_pubkey hop) in
  let overlay := rs_overlay search in
  match (match JsMap.get scidHex (ov_hintDestMap overlay) with
         | Some hintDest =>
             Some (edge ← List.find (fun edge => bool_decide (ge_scidHex edge = scidHex))
                            (default [] (JsMap.get hintDest (ov_syntheticEdges overlay)));
                   gc_update1 (ge_channel edge))
         | None =>
             match rg_getChannel (rs_graph search) (hop_shortChannelId hop) with
             | None => None
             | Some channel =>
                 Some (if bool_decide (downstreamHex = hex (gc_nodeId2 channel)) then gc_update1 channel else gc_update2 channel)
             end
         end) with
  | None => None
  | Some update => policyFor update (rs_policyOverrides search) scidHex upstreamHex downstreamHex
  end.

Definition hop_capacity (usedCapacity : jsmap Z) (scidHex : string) (update : IChannelUpdateMessage) : Z :=
  let maximum := default 0xffffffffffffffff (update_maximum update) in
  let used := default 0 (JsMap.get scidHex usedCapacity) in
  if used <? maximum then maximum - used else 0.

Fixpoint hop_capacities (search : IRouteSearch G) (usedCapacity : jsmap Z) (upstreamHex : string) (hops : list IRouteHop) :
    option (list Z) :=
  match hops with
  | [] => Some []
  | hop :: hops =>
      match hop_update search upstreamHex hop with
      | None => None
      | Some update =>
          match hop_capacities search usedCapacity (hex (hop_pubkey hop)) hops with
          | None => None
          | Some capacities => Some (hop_capacity usedCapacity (hex (hop_shortChannelId hop)) update :: capacities)
          end
      end
  end.

Definition routeHopCapacities (search : IRouteSearch G) (route : IRoute) (usedCapacity : jsmap Z) : option (list Z) :=
  hop_capacities search usedCapacity (rs_sourceHex search) (rt_hops route).

(** The loop from the last hop to the first; the hops and the amounts are in that order. *)
Fixpoint amounts_back (hops : list IRouteHop) (amount : Z) : list Z :=
  match hops with
  | [] => []
  | _ :: hops =>
      amount :: match hops with
                | [] => []
                | hop :: _ => amounts_back hops (amount + calculateFee amount (hop_feeBaseMsat hop) (hop_feeProportionalMillionths hop))
                end
  end.

Definition hopAmountsFor (route : IRoute) (deliveredMsat : Z) : list Z :=
  reverse (amounts_back (reverse (rt_hops route)) deliveredMsat).

Definition fits (route : IRoute) (capacities : list Z) (deliveredMsat : Z) : bool :=
  forallb (fun p => p.1 <=? p.2) (zip (hopAmountsFor route deliveredMsat) capacities).

(** [while (high - low > 1n)]: the interval halves at every turn *)
Fixpoint widest (fuel : nat) (fits : Z -> bool) (low high : Z) : Z :=
  match fuel with
  | 0%nat => low
  | S fuel =>
      if 1 <? high - low then
        let mid := Z.quot (low + high) 2 in
        if fits mid then widest fuel fits mid high else widest fuel fits low mid
      else low
  end.

Definition widenPart (search : IRouteSearch G) (route : IRoute) (remaining : Z) (usedCapacity : jsmap Z) : IRoute :=
  let deliveredMsat := delivered route in
  if remaining <=? deliveredMsat then route
  else
    match routeHopCapacities search route usedCapacity with
    | None => route
    | Some capacities =>
        if negb (fits route capacities deliveredMsat) then route
        else
          let low := if fits route capacities remaining then remaining
                     else widest (S (Z.to_nat (Z.log2_up (remaining - deliveredMsat)))) (fits route capacities)
                            deliveredMsat remaining in
          if low <=? deliveredMsat then route
          else match searchRoute search low (Some usedCapacity) with Some wider => wider | None => route end
    end.

(** [for (let attempt = 0; attempt < 8 && tryAmount > 0n; attempt++)] *)
Fixpoint halving (attempts : nat) (search : IRouteSearch G) (tryAmount : Z) (usedCapacity : jsmap Z) : option IRoute :=
  match attempts with
  | 0%nat => None
  | S attempts =>
      if 0 <? tryAmount then
        match searchRoute search tryAmount (Some usedCapacity) with
        | Some route => Some route
        | None => halving attempts search (Z.quot tryAmount 2) usedCapacity
        end
      else None
  end.

Definition find_part (search : IRouteSearch G) (remaining : Z) (usedCapacity : jsmap Z) : option IRoute :=
  match searchRoute search remaining (Some usedCapacity) with
  | Some route => Some route
  | None =>
      match halving 8 search (Z.quot remaining 2) usedCapacity with
      | None => None
      | Some route => Some (widenPart search route remaining usedCapacity)
      end
  end.

Definition use_hop (usedCapacity : jsmap Z) (hop : IRouteHop) : jsmap Z :=
  let scidHex := hex (hop_shortChannelId hop) in
  JsMap.set scidHex (default 0 (JsMap.get scidHex usedCapacity) + hop_amountToForwardMsat hop) usedCapacity.

(** [for (let i = 0; i < partBound && remaining > 0n; i++)]: the parts and what remains *)
Fixpoint parts_loop (bound : nat) (search : IRouteSearch G) (remaining : Z) (usedCapacity : jsmap Z) : list IRoute * Z :=
  match bound with
  | 0%nat => ([], remaining)
  | S bound =>
      if 0 <? remaining then
        match find_part search remaining usedCapacity with
        | None => ([], remaining)
        | Some route =>
            let usedCapacity := fold_left use_hop (rt_hops route) usedCapacity in
            let '(parts, unpaid) := parts_loop bound search (remaining - delivered route) usedCapacity in
            (route :: parts, unpaid)
        end
      else ([], remaining)
  end.

Definition findMultiPathRoute (now : Z) (graph : G) (source destination : buffer) (amountMsat finalCltvExpiry : Z)
    (maxParts : option Z) (maxHops : Z) (missionControl : option (string -> Z))
    (routingHints : option (list (list IRoutingHintHop))) (currentTimestamp : option Z)
    (localChannels : option (list ILocalChannelEdge)) (excludedChannels : option (list string)) (maxCltvExpiry : Z)
    (policyOverrides : option TPolicyOverrides) : option IMultiPathRoute :=
  let partBound := default (Z.max DEFAULT_MAX_MPP_PARTS (Z.of_nat (length (default [] localChannels)))) maxParts in
  let search := new_search now graph source destination finalCltvExpiry maxHops excludedChannels missionControl maxCltvExpiry routingHints
      currentTimestamp localChannels policyOverrides in
  let '(parts, remaining) := parts_loop (Z.to_nat partBound) search amountMsat [] in
  if 0 <? remaining then None
  else Some {| mp_parts := parts; mp_totalAmountMsat := fold_left (fun t part => t + rt_totalAmountMsat part) parts 0;
               mp_totalFeeMsat := fold_left (fun t part => t + rt_totalFeeMsat part) parts 0 |}.

(** ** Routes into a blinded path *)

Definition tail_hop (amountMsat finalCltvExpiry : Z) (hop : IBlindedHop) : IRouteHop :=
  {| hop_pubkey := blindedNodeId hop; hop_shortChannelId := alloc 8; hop_amountToForwardMsat := amountMsat;
     hop_outgoingCltvValue := finalCltvExpiry; hop_feeBaseMsat := 0; hop_feeProportionalMillionths := 0; hop_cltvExpiryDelta := 0;
     hop_encryptedRecipientData := Some (encryptedData hop); hop_blindingPoint := None |}.

(** [hop.encryptedRecipientData = ...; hop.blindingPoint = ...] *)
Definition as_intro (path : IBlindedPath) (intro : IBlindedHop) (hop : IRouteHop) : IRouteHop :=
  {| hop_pubkey := hop_pubkey hop; hop_shortChannelId := hop_shortChannelId hop;
     hop_amountToForwardMsat := hop_amountToForwardMsat hop; hop_outgoingCltvValue := hop_outgoingCltvValue hop;
     hop_feeBaseMsat := hop_feeBaseMsat hop; hop_feeProportionalMillionths := hop_feeProportionalMillionths hop;
     hop_cltvExpiryDelta := hop_cltvExpiryDelta hop; hop_encryptedRecipientData := Some (encryptedData intro);
     hop_blindingPoint := Some (blindingPoint path) |}.

Definition findRouteToBlindedPath (now : Z) (graph : G) (source : buffer) (path : IBlindedPath) (payInfo : IBlindedPayInfo)
    (amountMsat finalCltvExpiry maxHops : Z) (excludedChannels : option (list string)) (missionControl : option (string -> Z))
    (localChannels : option (list ILocalChannelEdge)) (maxCltvExpiry : Z) (policyOverrides : option TPolicyOverrides) :
    option IRoute :=
  match blindedHops path with
  | [] => None
  | intro :: rest =>
      let blindedFeeMsat := bp_feeBaseMsat payInfo + Z.quot (amountMsat * bp_feeProportionalMillionths payInfo) 1000000 in
      let amountAtIntro := amountMsat + blindedFeeMsat in
      let cltvAtIntro := finalCltvExpiry + bp_cltvExpiryDelta payInfo in
      if (amountMsat <? bp_htlcMinimumMsat payInfo) || (bp_htlcMaximumMsat payInfo <? amountMsat) then None
      else
        let introNodeId := introductionNodeId path in
        let tail := map (tail_hop amountMsat finalCltvExpiry) rest in
        if bool_decide (hex source = hex introNodeId) then
          if maxCltvExpiry <? cltvAtIntro then None
          else
            let first := as_intro path intro
              {| hop_pubkey := introNodeId; hop_shortChannelId := alloc 8; hop_amountToForwardMsat := amountAtIntro;
                 hop_outgoingCltvValue := cltvAtIntro; hop_feeBaseMsat := 0; hop_feeProportionalMillionths := 0;
                 hop_cltvExpiryDelta := 0; hop_encryptedRecipientData := None; hop_blindingPoint := None |} in
            Some {| rt_hops := first :: tail; rt_totalAmountMsat := amountAtIntro; rt_totalCltvDelta := cltvAtIntro;
                    rt_totalFeeMsat := blindedFeeMsat |}
        else
          match findRoute now graph source introNodeId amountAtIntro cltvAtIntro (maxHops - Z.of_nat (length rest))
                  excludedChannels missionControl maxCltvExpiry None None localChannels policyOverrides with
          | None => None
          | Some routeToIntro =>
              let hops := match last (rt_hops routeToIntro) with
                          | Some introHop => removelast (rt_hops routeToIntro) ++ [as_intro path intro introHop]
                          | None => rt_hops routeToIntro
                          end in
              Some {| rt_hops := hops ++ tail; rt_totalAmountMsat := rt_totalAmountMsat routeToIntro;
                      rt_totalCltvDelta := rt_totalCltvDelta routeToIntro;
                      rt_totalFeeMsat := rt_totalAmountMsat routeToIntro - amountMsat |}
          end
  end.

End Search.
