(* ===== verification/PathfindingRun.v ===== *)
(** * The routes the search returns

    Dijkstra's invariant over the loop of searchCheapestRoute: a node is expanded
    once, at its final cost, so the amounts and expiries along the predecessors
    add up. *)

From S2P Require Import Prelude Buffer JsMap GossipTypes Invoice BlindedPath Pathfinding Text.
From stdpp Require Import gmap.
Local Open Scope Z_scope.

(** ** What a route must satisfy *)

Section Spec.
Context {G : Type} `{RoutingGraph G} (search : IRouteSearch G) (used : option (jsmap Z)).

(** The hop [h] goes from [up] to [down] over an edge whose policy is [u] and which
    can carry the amount of the hop. *)
Record hop_over (up : string) (u : IChannelUpdateMessage) (h : IRouteHop) (down : string) (edge : IGraphEdge) : Prop := {
  ho_edge : edge ∈ node_edges search down;
  ho_policy : edge_policy search used down (hop_amountToForwardMsat h) edge = Some (up, u);
  ho_scid : hop_shortChannelId h = gc_shortChannelId (ge_channel edge);
  ho_delta : hop_cltvExpiryDelta h = cu_cltvExpiryDelta u;
  ho_pubkey : hop_pubkey h = unhex down
}.

(** A path from [up], over an edge with policy [u], through the nodes [downs], that
    delivers [amount] with [expiry] at the destination: every node on it receives what
    it forwards, its own fee and its own delta. *)
Inductive payable (amount expiry : Z) : string -> IChannelUpdateMessage -> list string -> list IRouteHop -> Prop :=
| payable_last up u h edge :
    hop_over up u h (rs_destHex search) edge -> hop_amountToForwardMsat h = amount -> hop_outgoingCltvValue h = expiry ->
    payable amount expiry up u [rs_destHex search] [h]
| payable_cons up u h down edge u' downs h' rest :
    hop_over up u h down edge -> payable amount expiry down u' downs (h' :: rest) ->
    hop_feeBaseMsat h = cu_feeBaseMsat u' -> hop_feeProportionalMillionths h = cu_feeProportionalMillionths u' ->
    hop_amountToForwardMsat h = hop_amountToForwardMsat h' +
      calculateFee (hop_amountToForwardMsat h') (hop_feeBaseMsat h) (hop_feeProportionalMillionths h) ->
    hop_outgoingCltvValue h = hop_outgoingCltvValue h' + hop_cltvExpiryDelta h' ->
    payable amount expiry up u (down :: downs) (h :: h' :: rest).

(** Policies and penalties as they come from the network and from mission control. *)
Record search_wf : Prop := {
  sw_fees nodeId amt edge up u : edge ∈ node_edges search nodeId -> edge_policy search used nodeId amt edge = Some (up, u) ->
    0 <= cu_feeBaseMsat u /\ 0 <= cu_feeProportionalMillionths u;
  sw_penalty scid : 0 <= penalty search scid
}.

Definition fee_of (amt : Z) (u : IChannelUpdateMessage) : Z := calculateFee amt (cu_feeBaseMsat u) (cu_feeProportionalMillionths u).

Lemma route_fee_nonneg amt base prop : 0 <= amt -> 0 <= base -> 0 <= prop -> 0 <= calculateFee amt base prop.
Proof. intros. unfold calculateFee. rewrite Z.quot_div_nonneg by nia. pose proof (Z.div_pos (amt * prop) 1000000). nia. Qed.
End Spec.

(** ** The invariant *)

Section Loop.
Context {G : Type} `{RoutingGraph G} (search : IRouteSearch G) (used : option (jsmap Z)) (amount : Z).
Context (Hwf : search_wf search used) (Hamount : 0 <= amount).

#[local] Abbreviation dest := (rs_destHex search).
#[local] Abbreviation source := (rs_sourceHex search).

Definition start : IHeapEntry :=
  {| he_cost := amount; he_nodeId := dest; he_amountMsat := amount; he_cltvValue := rs_finalCltvExpiry search; he_hops := 0 |}.

Definition new_cltv (e : IHeapEntry) (n : string) (delta : Z) : Z :=
  if bool_decide (n = source) then he_cltvValue e else he_cltvValue e + delta.

Definition pred_of (e : IHeapEntry) (edge : IGraphEdge) (u : IChannelUpdateMessage) : IPredecessor :=
  {| pr_channel := ge_channel edge; pr_nextNodeId := he_nodeId e; pr_amountMsat := he_amountMsat e;
     pr_cltvValue := he_cltvValue e; pr_feeBaseMsat := cu_feeBaseMsat u;
     pr_feeProportionalMillionths := cu_feeProportionalMillionths u; pr_cltvExpiryDelta := cu_cltvExpiryDelta u |}.

(** What the node at the other end of [edge] costs when it is reached from [e]. *)
Definition edge_cost (e : IHeapEntry) (edge : IGraphEdge) (u : IChannelUpdateMessage) : Z :=
  he_cost e + fee_of (he_amountMsat e) u + penalty search (ge_scidHex edge) + HOP_PENALTY_MSAT.

(** The predecessor [p] of [n] and the cost [c] come from the expansion of [e]. *)
Record leads (e : IHeapEntry) (n : string) (p : IPredecessor) (c : Z) : Prop := {
  le_edge : exists edge u, edge ∈ node_edges search (he_nodeId e) /\
    edge_policy search used (he_nodeId e) (he_amountMsat e) edge = Some (n, u) /\
    p = pred_of e edge u /\
    c = edge_cost e edge u;
  le_hops : he_hops e < rs_maxHops search;
  le_cltv : new_cltv e n (pr_cltvExpiryDelta p) <= rs_maxCltvExpiry search
}.

(** The entry that was pushed with it. *)
Definition reached (e : IHeapEntry) (n : string) (p : IPredecessor) (c : Z) : IHeapEntry :=
  {| he_cost := c; he_nodeId := n;
     he_amountMsat := he_amountMsat e + calculateFee (he_amountMsat e) (pr_feeBaseMsat p) (pr_feeProportionalMillionths p);
     he_cltvValue := new_cltv e n (pr_cltvExpiryDelta p); he_hops := he_hops e + 1 |}.

(** The entry [e] is the one the best cost of its node comes from. *)
Definition current (settled : gmap string IHeapEntry) (st : frontier) (e : IHeapEntry) : Prop :=
  e = start \/ exists p e' c, get (he_nodeId e) (fr_predecessors st) = Some p /\ settled !! pr_nextNodeId p = Some e' /\
    leads e' (he_nodeId e) p c /\ e = reached e' (he_nodeId e) p c.

Record entry_wf (e : IHeapEntry) : Prop := { ew_cost : amount <= he_cost e; ew_amount : 0 <= he_amountMsat e; ew_hops : 0 <= he_hops e }.

Record inv (settled : gmap string IHeapEntry) (st : frontier) : Prop := {
  in_dest : get dest (fr_bestCost st) = Some amount;
  in_source : settled !! source = None;
  in_pred n p : get n (fr_predecessors st) = Some p -> n <> dest /\ exists e c,
    settled !! pr_nextNodeId p = Some e /\ leads e n p c /\ get n (fr_bestCost st) = Some c;
  in_settled n e : settled !! n = Some e ->
    he_nodeId e = n /\ get n (fr_bestCost st) = Some (he_cost e) /\ current settled st e /\ entry_wf e;
  in_heap e : e ∈ fr_heap st -> entry_wf e /\ (forall n e', settled !! n = Some e' -> he_cost e' <= he_cost e) /\
    exists b, get (he_nodeId e) (fr_bestCost st) = Some b /\ b <= he_cost e /\
      (b = he_cost e -> settled !! he_nodeId e = None /\ current settled st e);
  in_unique : NoDup (map (fun e => (he_nodeId e, he_cost e)) (fr_heap st));
  in_order : heap_ok (fr_heap st)
}.

Lemma inv_start : source <> dest -> inv ∅ {| fr_bestCost := JsMap.set dest amount []; fr_predecessors := []; fr_heap := push start [] |}.
Proof.
  intros Hne. constructor; cbn [fr_bestCost fr_predecessors fr_heap].
  - by rewrite get_set, decide_True.
  - by rewrite lookup_empty.
  - done.
  - intros n e. by rewrite lookup_empty.
  - intros e He. rewrite push_perm in He. apply list_elem_of_singleton in He as ->. split; [by constructor|]. split.
    { intros n e'. by rewrite lookup_empty. }
    exists amount. cbn [start he_nodeId]. rewrite get_set, decide_True by done. split_and!; [done|done|].
    intros _. split; [by rewrite lookup_empty|by left].
  - rewrite push_perm. apply NoDup_singleton.
  - apply push_ok. intros j Hj. cbn in Hj. lia.
Qed.

Lemma leads_cost e n p c : entry_wf e -> leads e n p c -> he_cost e < c /\ entry_wf (reached e n p c).
Proof.
  intros [Hc Ha Hh] [(edge & u & Hin & Hp & -> & ->) _ _]. destruct (sw_fees _ _ Hwf _ _ _ _ _ Hin Hp) as [Hb Hq].
  pose proof (sw_penalty _ _ Hwf (ge_scidHex edge)) as Hpen. pose proof (route_fee_nonneg (he_amountMsat e) _ _ Ha Hb Hq) as Hf.
  unfold edge_cost, fee_of, HOP_PENALTY_MSAT. split; [lia|]. constructor; cbn; lia.
Qed.

(** ** One expansion *)

Lemma inv_relax settled st e edge : inv settled st -> settled !! he_nodeId e = Some e -> he_hops e < rs_maxHops search ->
  (forall x, x ∈ fr_heap st -> he_cost e <= he_cost x) -> (forall n x, settled !! n = Some x -> he_cost x <= he_cost e) ->
  edge ∈ node_edges search (he_nodeId e) ->
  inv settled (relax search used e st edge) /\ (forall x, x ∈ fr_heap (relax search used e st edge) -> he_cost e <= he_cost x) /\
  (length (fr_heap (relax search used e st edge)) <= S (length (fr_heap st)))%nat.
Proof.
  intros Hinv He Hhops Hmin Hmax Hedge. assert (Hkeep : inv settled st /\ (forall x, x ∈ fr_heap st -> he_cost e <= he_cost x) /\
    (length (fr_heap st) <= S (length (fr_heap st)))%nat) by auto.
  unfold relax. destruct (edge_policy _ _ _ _ edge) as [[up u]|] eqn:Hp; [|done]. cbv zeta.
  destruct (Z.ltb_spec (rs_maxCltvExpiry search) (if bool_decide (up = source) then he_cltvValue e else he_cltvValue e + cu_cltvExpiryDelta u)) as [|Hcltv]; [done|].
  set (c := he_cost e + _ + _ + _). destruct (match get up _ with Some _ => _ | None => _ end) eqn:Hbest; [done|].
  destruct (in_settled _ _ Hinv _ _ He) as (_ & _ & _ & Hew).
  set (p := {| pr_channel := ge_channel edge; pr_nextNodeId := _; pr_amountMsat := _; pr_cltvValue := _; pr_feeBaseMsat := _;
               pr_feeProportionalMillionths := _; pr_cltvExpiryDelta := _ |}).
  assert (leads e up p c) as Hl by (constructor; [by exists edge, u|done|done]).
  destruct (leads_cost _ _ _ _ Hew Hl) as [Hc Hrw]. change {| he_cost := c; he_nodeId := up; he_amountMsat := _; he_cltvValue := _; he_hops := _ |} with (reached e up p c).
  set (st' := {| fr_bestCost := _; fr_predecessors := _; fr_heap := _ |}).
  assert (Hlow : forall b, get up (fr_bestCost st) = Some b -> c < b) by (intros b E; rewrite E in Hbest; by apply Z.leb_gt).
  assert (settled !! up = None) as Hup.
  { destruct (settled !! up) as [x|] eqn:Ex; [|done]. destruct (in_settled _ _ Hinv _ _ Ex) as (_ & Hb & _).
    pose proof (Hlow _ Hb). pose proof (Hmax _ _ Ex). lia. }
  assert (up <> dest) as Hnd by (intros ->; pose proof (Hlow _ (in_dest _ _ Hinv)); destruct Hew; lia).
  assert (Hcur : forall x, he_nodeId x <> up -> current settled st x -> current settled st' x).
  { intros x Hx [->|(px & ex & cx & Hpx & Hex & Hlx & Ex)]; [by left|]. right. exists px, ex, cx. split_and!; try done.
    cbn [st' fr_predecessors]. by rewrite get_set, decide_False. }
  split; [|split].
  - constructor; cbn [st' fr_bestCost fr_predecessors fr_heap].
    + rewrite get_set, decide_False by done. apply Hinv.
    + apply Hinv.
    + intros n q. rewrite !get_set. destruct (decide (n = up)) as [->|En].
      { intros [= <-]. split; [done|]. by exists e, c. }
      intros (Hn & x & cx & Hx & Hlx & Hb)%(in_pred _ _ Hinv). split; [done|]. by exists x, cx.
    + intros n x Hx. destruct (in_settled _ _ Hinv _ _ Hx) as (Hid & Hb & Hcx & Hwx). assert (n <> up) as Hne by (intros ->; congruence).
      split_and!; [done|by rewrite get_set, decide_False| |done]. apply Hcur; [by rewrite Hid|done].
    + intros x Hx. rewrite push_perm in Hx. apply elem_of_cons in Hx as [->|Hx].
      * split; [done|]. split; [intros n y Hy; pose proof (Hmax _ _ Hy); cbn; lia|]. exists c. cbn [reached he_nodeId he_cost].
        rewrite get_set, decide_True by done. split_and!; [done|done|]. intros _. split; [done|]. right. exists p, e, c.
        cbn [st' fr_predecessors he_nodeId reached]. rewrite get_set, decide_True by done. done.
      * destruct (in_heap _ _ Hinv _ Hx) as (Hwx & Hset & b & Hb & Hle & Hcx). split; [done|]. split; [done|].
        destruct (decide (he_nodeId x = up)) as [E|E].
        -- exists c. rewrite E in Hb |- *. pose proof (Hlow _ Hb). rewrite get_set, decide_True by done. split_and!; [done|lia|lia].
        -- exists b. rewrite get_set, decide_False by done. split_and!; [done|done|]. intros Eb. destruct (Hcx Eb) as [? ?].
           split; [done|by apply Hcur].
    + rewrite push_perm. cbn [map]. apply NoDup_cons. split; [|apply Hinv]. intros (x & Ex & Hx)%list_elem_of_fmap.
      injection Ex as En Ec. destruct (in_heap _ _ Hinv _ Hx) as (_ & _ & b & Hb & Hle & _). rewrite <- En in Hb.
      pose proof (Hlow _ Hb). lia.
    + apply push_ok, Hinv.
  - cbn [st' fr_heap]. intros x Hx. rewrite push_perm in Hx. apply elem_of_cons in Hx as [->|Hx]; [cbn; lia|by apply Hmin].
  - cbn [st' fr_heap]. rewrite push_perm. done.
Qed.

Lemma inv_expand settled e edges : forall st, inv settled st -> settled !! he_nodeId e = Some e -> he_hops e < rs_maxHops search ->
  (forall x, x ∈ fr_heap st -> he_cost e <= he_cost x) -> (forall n x, settled !! n = Some x -> he_cost x <= he_cost e) ->
  (forall edge, edge ∈ edges -> edge ∈ node_edges search (he_nodeId e)) ->
  inv settled (fold_left (relax search used e) edges st) /\
  (length (fr_heap (fold_left (relax search used e) edges st)) <= length edges + length (fr_heap st))%nat.
Proof.
  induction edges as [|edge edges IH]; intros st Hinv He Hh Hmin Hmax Hin; [done|]. cbn [fold_left length].
  destruct (inv_relax settled st e edge Hinv He Hh Hmin Hmax (Hin edge ltac:(by left))) as (Hi & Hm & Hl).
  destruct (IH _ Hi He Hh Hm Hmax) as [Hi' Hl']; [intros; apply Hin; by right|]. split; [done|lia].
Qed.

(** ** One turn of the loop *)

Definition with_heap (st : frontier) (heap : list IHeapEntry) : frontier :=
  {| fr_bestCost := fr_bestCost st; fr_predecessors := fr_predecessors st; fr_heap := heap |}.

Lemma inv_pop settled st e heap : inv settled st -> pop (fr_heap st) = Some (e, heap) ->
  inv settled (with_heap st heap) /\ e ∈ fr_heap st /\ (forall x, x ∈ heap -> he_cost e <= he_cost x) /\
  ((he_nodeId e, he_cost e) ∉ map (fun e => (he_nodeId e, he_cost e)) heap) /\ length (fr_heap st) = S (length heap).
Proof.
  intros Hinv Hp. destruct (pop_spec _ _ _ (in_order _ _ Hinv) Hp) as (Hperm & Hok & Hmin).
  pose proof (in_unique _ _ Hinv) as Hu. rewrite Hperm in Hu. cbn [map] in Hu. apply NoDup_cons in Hu as [Hnot Hu].
  rewrite Forall_forall in Hmin. split_and!.
  - destruct Hinv. constructor; try done. intros x Hx. apply in_heap0. rewrite Hperm. by right.
  - rewrite Hperm. by left.
  - intros x Hx. apply Hmin. rewrite Hperm. by right.
  - done.
  - by rewrite Hperm.
Qed.

Lemma inv_settle settled st e heap : inv settled st -> pop (fr_heap st) = Some (e, heap) ->
  get (he_nodeId e) (fr_bestCost st) = Some (he_cost e) -> he_nodeId e <> source ->
  settled !! he_nodeId e = None /\ inv (<[he_nodeId e := e]> settled) (with_heap st heap).
Proof.
  intros Hinv Hp Hbest Hns. destruct (inv_pop _ _ _ _ Hinv Hp) as (Hi & Hin & Hmin & Hnot & _).
  destruct (in_heap _ _ Hinv _ Hin) as (Hew & Hset & b & Hb & _ & Hcur). assert (b = he_cost e) as -> by congruence.
  destruct (Hcur eq_refl) as [Hn Hc]. split; [done|].
  assert (Hkeep : forall n x, settled !! n = Some x -> <[he_nodeId e := e]> settled !! n = Some x)
    by (intros n x Hx; rewrite lookup_insert_ne; [done|congruence]).
  assert (Hmono : forall x, current settled st x -> current (<[he_nodeId e := e]> settled) (with_heap st heap) x).
  { intros x [->|(p & y & c & Hpx & Hy & Hrest)]; [by left|]. right. exists p, y, c. split_and!; try apply Hrest; [done|by apply Hkeep]. }
  destruct Hi as [Hd Hs Hpred Hsettled Hheap Hun Hord]. constructor; try done.
  - by rewrite lookup_insert_ne.
  - intros n p Hpn. destruct (Hpred _ _ Hpn) as (? & y & c & Hy & ?). split; [done|]. exists y, c. split; [by apply Hkeep|done].
  - intros n x. rewrite lookup_insert_Some. intros [[<- <-]|[_ Hx]].
    + split_and!; [done|done|by apply Hmono|done].
    + destruct (in_settled _ _ Hinv _ _ Hx) as (? & ? & ? & ?). split_and!; [done|done|by apply Hmono|done].
  - intros x Hx. destruct (Hheap _ Hx) as (Hwx & Hsx & b & Hbx & Hle & Hcx). split; [done|]. split.
    + intros n y. rewrite lookup_insert_Some. intros [[_ <-]|[_ Hy]]; [by apply Hmin|by eapply Hsx].
    + exists b. split_and!; [done|done|]. intros ->. destruct (Hcx eq_refl) as [Hnx Hcur']. split; [|by apply Hmono].
      rewrite lookup_insert_ne; [done|]. intros E. apply Hnot. cbn in Hbx. rewrite <- E, Hbest in Hbx. injection Hbx as Ec.
      rewrite E, Ec. by apply (list_elem_of_fmap_2 (fun e => (he_nodeId e, he_cost e))).
Qed.

(** ** The whole loop *)

Context (Hlaws : forall n, n ∉ rg_nodes (rs_graph search) -> rg_getNodeEdges (rs_graph search) n = []).

Definition all_nodes : list string :=
  remove_dups (rg_nodes (rs_graph search) ++ map fst (ov_syntheticEdges (rs_overlay search))).

Lemma no_edges n : n ∉ all_nodes -> node_edges search n = [].
Proof.
  unfold all_nodes. rewrite elem_of_remove_dups. intros Hn. unfold node_edges. rewrite Hlaws by set_solver. cbn [List.filter app].
  rewrite get_None; [done|set_solver].
Qed.

(** The edges of the nodes still to be expanded. *)
Definition todo (settled : gmap string IHeapEntry) : nat :=
  list_sum (map (fun n => match settled !! n with Some _ => 0 | None => length (node_edges search n) end)%nat all_nodes).

Lemma todo_settle settled n e : settled !! n = None ->
  (todo (<[n := e]> settled) + length (node_edges search n) = todo settled)%nat.
Proof.
  intros Hn. destruct (decide (n ∈ all_nodes)) as [Hin|Hin].
  - unfold todo. assert (NoDup all_nodes) as Hd by apply NoDup_remove_dups. revert Hin Hd. generalize all_nodes.
    intros l. induction l as [|m l IH]; intros Hin Hd; [by apply not_elem_of_nil in Hin|]. apply NoDup_cons in Hd as [Hm Hd].
    cbn [map list_sum foldr]. destruct (decide (m = n)) as [->|Hne].
    + rewrite lookup_insert_eq, Hn. assert (forall k, k ∈ l -> <[n := e]> settled !! k = settled !! k) as Heq
        by (intros k Hk; rewrite lookup_insert_ne; [done|by intros ->]).
      assert (list_sum (map (fun k => match <[n := e]> settled !! k with Some _ => 0 | None => length (node_edges search k) end) l) =
              list_sum (map (fun k => match settled !! k with Some _ => 0 | None => length (node_edges search k) end) l))%nat as E.
      { f_equal. apply map_ext_in. intros k Hk. rewrite Heq; [done|by apply list_elem_of_In]. }
      unfold list_sum in *. lia.
    + rewrite lookup_insert_ne by done. apply elem_of_cons in Hin as [->|Hin]; [done|]. specialize (IH Hin Hd).
      unfold list_sum in *. lia.
  - rewrite no_edges by done. cbn. rewrite Nat.add_0_r. unfold todo. f_equal. apply map_ext_in. intros k Hk%list_elem_of_In.
    rewrite lookup_insert_ne; [done|by intros ->].
Qed.

(** ** What the loop leaves out *)

Lemma relax_cases e st edge :
  (relax search used e st edge = st /\ forall up u, edge_policy search used (he_nodeId e) (he_amountMsat e) edge = Some (up, u) ->
     new_cltv e up (cu_cltvExpiryDelta u) <= rs_maxCltvExpiry search ->
     exists b, get up (fr_bestCost st) = Some b /\ b <= edge_cost e edge u) \/
  exists up u p, edge_policy search used (he_nodeId e) (he_amountMsat e) edge = Some (up, u) /\
    (forall b, get up (fr_bestCost st) = Some b -> edge_cost e edge u < b) /\
    relax search used e st edge = {| fr_bestCost := JsMap.set up (edge_cost e edge u) (fr_bestCost st);
      fr_predecessors := JsMap.set up p (fr_predecessors st); fr_heap := push (reached e up p (edge_cost e edge u)) (fr_heap st) |}.
Proof.
  unfold relax. destruct (edge_policy _ _ _ _ edge) as [[up u]|] eqn:Hp; [|by left]. cbv zeta. fold (new_cltv e up (cu_cltvExpiryDelta u)).
  fold (fee_of (he_amountMsat e) u). fold (edge_cost e edge u).
  destruct (Z.ltb_spec (rs_maxCltvExpiry search) (new_cltv e up (cu_cltvExpiryDelta u))) as [Hc|Hc].
  { left. split; [done|]. intros ? ? [= <- <-] ?. lia. }
  destruct (get up (fr_bestCost st)) as [b|] eqn:Hb; [destruct (Z.leb_spec b (edge_cost e edge u)) as [Hle|Hgt]|].
  - left. split; [done|]. intros ? ? [= <- <-] _. by exists b.
  - right. exists up, u, (pred_of e edge u). split_and!; [done| |done]. intros b' Hb'. simplify_eq. done.
  - right. exists up, u, (pred_of e edge u). split_and!; [done| |done]. intros b' Hb'. simplify_eq.
Qed.

(** Every node with a cost is settled or waits with that cost. *)
Definition covered (settled : gmap string IHeapEntry) (st : frontier) : Prop := forall n b, get n (fr_bestCost st) = Some b ->
  (n = dest \/ is_Some (get n (fr_predecessors st))) /\
  (is_Some (settled !! n) \/ exists e, e ∈ fr_heap st /\ he_nodeId e = n /\ he_cost e = b).

(** What the edge leads to has a cost, and none above what it costs over the edge. *)
Definition edge_seen (st : frontier) (e : IHeapEntry) (edge : IGraphEdge) : Prop := forall up u,
  edge_policy search used (he_nodeId e) (he_amountMsat e) edge = Some (up, u) ->
  new_cltv e up (cu_cltvExpiryDelta u) <= rs_maxCltvExpiry search ->
  exists b, get up (fr_bestCost st) = Some b /\ b <= edge_cost e edge u.

(** Costs are only ever lowered. *)
Definition costs_fall (st st' : frontier) : Prop := forall n b, get n (fr_bestCost st) = Some b ->
  exists b', get n (fr_bestCost st') = Some b' /\ b' <= b.

Definition closed (settled : gmap string IHeapEntry) (st : frontier) : Prop := forall n e edge, settled !! n = Some e ->
  he_hops e < rs_maxHops search -> edge ∈ node_edges search n -> edge_seen st e edge.

Lemma relax_falls e st edge : costs_fall st (relax search used e st edge).
Proof.
  intros n b Hn. destruct (relax_cases e st edge) as [[-> _]|(up & u & p & _ & Hlow & ->)]; [by exists b|]. cbn [fr_bestCost].
  rewrite get_set. destruct (decide (n = up)) as [->|]; [|by exists b]. pose proof (Hlow _ Hn). eexists. split; [done|lia].
Qed.

Lemma relax_sees e st edge : edge_seen (relax search used e st edge) e edge.
Proof.
  intros up u Hp Hc. destruct (relax_cases e st edge) as [[-> Hs]|(up' & u' & p & Hp' & _ & ->)]; [by eapply Hs|].
  simplify_eq. cbn [fr_bestCost]. rewrite get_set, decide_True by done. by eexists.
Qed.

Lemma seen_falls st st' e edge : costs_fall st st' -> edge_seen st e edge -> edge_seen st' e edge.
Proof. intros Hf Hs up u Hp Hc. destruct (Hs up u Hp Hc) as (b & Hb & Hle). destruct (Hf _ _ Hb) as (b' & ? & ?). exists b'. split; [done|lia]. Qed.

Lemma relax_covered settled st e edge : covered settled st -> covered settled (relax search used e st edge).
Proof.
  intros Hc. destruct (relax_cases e st edge) as [[-> _]|(up & u & p & _ & _ & ->)]; [done|]. intros n b. cbn [fr_bestCost fr_predecessors fr_heap].
  rewrite !get_set. destruct (decide (n = up)) as [->|Hn].
  - intros [= <-]. split; [by right|]. right. eexists. rewrite push_perm. split; [by left|done].
  - intros (? & [?|(x & Hx & ? & ?)])%Hc; (split; [done|]); [by left|]. right. exists x. rewrite push_perm. split; [by right|done].
Qed.

Lemma expand_sees e edges : forall settled st, covered settled st ->
  covered settled (fold_left (relax search used e) edges st) /\
  costs_fall st (fold_left (relax search used e) edges st) /\
  (forall edge, edge ∈ edges -> edge_seen (fold_left (relax search used e) edges st) e edge).
Proof.
  induction edges as [|edge edges IH]; intros settled st Hc; cbn [fold_left].
  { split_and!; [done| |]; [intros n b ?; by exists b|]. by intros edge ?%not_elem_of_nil. }
  destruct (IH settled _ (relax_covered settled st e edge Hc)) as (Hc' & Hkeep & Hsee). split_and!; [done| |].
  - intros n b Hn. destruct (relax_falls e st edge n b Hn) as (b1 & H1 & ?). destruct (Hkeep _ _ H1) as (b2 & H2 & ?).
    exists b2. split; [done|lia].
  - intros edge' [->|Hin]%elem_of_cons; [|by apply Hsee]. eapply seen_falls, relax_sees. done.
Qed.

(** Popping an entry that is out of date, and one that is settled. *)
Lemma covered_skip settled st e heap b : covered settled st -> Permutation (fr_heap st) (e :: heap) ->
  get (he_nodeId e) (fr_bestCost st) = Some b -> b < he_cost e -> covered settled (with_heap st heap).
Proof.
  intros Hc Hp Hb Hlt n bn Hn. destruct (Hc n bn Hn) as (? & [?|(x & Hx & Hid & Hxc)]); (split; [done|]); [by left|]. right.
  exists x. split; [|done]. rewrite Hp in Hx. apply elem_of_cons in Hx as [->|]; [|done]. rewrite Hid in Hb. cbn in Hn. simplify_eq. lia.
Qed.

Lemma covered_settle settled st e heap : covered settled st -> Permutation (fr_heap st) (e :: heap) ->
  covered (<[he_nodeId e := e]> settled) (with_heap st heap).
Proof.
  intros Hc Hp n bn Hn. destruct (decide (n = he_nodeId e)) as [->|Hne].
  { split; [by apply (Hc _ _ Hn)|]. left. by rewrite lookup_insert_eq. }
  rewrite lookup_insert_ne by done. destruct (Hc n bn Hn) as (? & [?|(x & Hx & Hid & Hxc)]); (split; [done|]); [by left|]. right.
  exists x. split; [|done]. rewrite Hp in Hx. by apply elem_of_cons in Hx as [->|].
Qed.

(** The loop ends, with everything expanded unless it reached the source. *)
Lemma loop_ends fuel : forall settled st, inv settled st -> covered settled st -> closed settled st ->
  (length (fr_heap st) + todo settled <= fuel)%nat ->
  exists settled' st', search_loop fuel search used st = Some st' /\ inv settled' st' /\ closed settled' st' /\
    (is_Some (get source (fr_predecessors st')) \/ source = dest \/ fr_heap st' = [] /\ covered settled' st').
Proof.
  induction fuel as [|fuel IH]; intros settled st Hinv Hcov Hcl Hf; cbn [search_loop];
    (destruct (pop (fr_heap st)) as [[e heap]|] eqn:Hp; [|apply pop_None in Hp; exists settled, st; split_and!; auto]);
    destruct (inv_pop _ _ _ _ Hinv Hp) as (Hi & Hin & Hmin & _ & Hl); [lia|].
  destruct (pop_spec _ _ _ (in_order _ _ Hinv) Hp) as (Hperm & _ & _). cbv zeta. fold (with_heap st heap).
  change (fr_bestCost (with_heap st heap)) with (fr_bestCost st). destruct (in_heap _ _ Hinv _ Hin) as (_ & Hset & b & Hb & Hle & _). rewrite Hb.
  destruct (Z.ltb_spec b (he_cost e)) as [Hlt|Hge].
  { apply IH with settled; [done|by eapply covered_skip|done|cbn; lia]. }
  case_bool_decide as Hsrc.
  { exists settled, (with_heap st heap). split_and!; [done|done|done|]. rewrite Hsrc in Hb. destruct (Hcov _ _ Hb) as [[?|?] _]; auto. }
  assert (b = he_cost e) as -> by lia. destruct (inv_settle _ _ _ _ Hinv Hp Hb Hsrc) as [Hn Hs].
  pose proof (todo_settle settled _ e Hn) as Ht. pose proof (covered_settle _ _ _ _ Hcov Hperm) as Hcs.
  destruct (Z.leb_spec (rs_maxHops search) (he_hops e)).
  { apply IH with (<[he_nodeId e := e]> settled); [done|done| |cbn; lia]. intros n x edge.
    rewrite lookup_insert_Some. intros [[_ <-]|[_ Hx]] ?; [lia|by eapply Hcl]. }
  destruct (inv_expand _ e (node_edges search (he_nodeId e)) _ Hs) as [Hx Hlx]; try done.
  { by rewrite lookup_insert_eq. }
  { intros n x. rewrite lookup_insert_Some. intros [[_ <-]|[_ Hx]]; [done|by eapply Hset]. }
  destruct (expand_sees e (node_edges search (he_nodeId e)) _ _ Hcs) as (Hcs' & Hkeep & Hsee).
  eapply IH; [exact Hx|exact Hcs'| |cbn [with_heap fr_heap] in Hlx; lia]. intros n x edge. rewrite lookup_insert_Some.
  intros [[<- <-]|[_ Hxs]] Hxh Hed; [by apply Hsee|]. eapply seen_falls; [exact Hkeep|by eapply Hcl].
Qed.

(** ** The path along the predecessors *)

Lemma path_of settled st : inv settled st -> forall k n p e visited fuel, get n (fr_predecessors st) = Some p ->
  settled !! pr_nextNodeId p = Some e -> he_hops e = Z.of_nat k -> (k < fuel)%nat ->
  (forall v, v ∈ visited -> exists c cv, get n (fr_bestCost st) = Some c /\ get v (fr_bestCost st) = Some cv /\ c <= cv) ->
  n ∈ visited -> NoDup visited ->
  exists hops u downs, path_loop fuel dest (fr_predecessors st) n visited = Some hops /\
    payable search used amount (rs_finalCltvExpiry search) n u downs hops /\
    length hops = S k /\ NoDup (reverse downs ++ visited) /\
    (exists h rest, hops = h :: rest /\ hop_amountToForwardMsat h = he_amountMsat e /\ hop_outgoingCltvValue h = he_cltvValue e /\
      hop_cltvExpiryDelta h = pr_cltvExpiryDelta p) /\
    cu_feeBaseMsat u = pr_feeBaseMsat p /\ cu_feeProportionalMillionths u = pr_feeProportionalMillionths p /\
    cu_cltvExpiryDelta u = pr_cltvExpiryDelta p.
Proof.
  intros Hinv k. induction k as [|k IH]; intros n p e visited fuel Hp He Hk Hf Hvis Hn Hnd;
    destruct fuel as [|fuel]; try lia; destruct (in_pred _ _ Hinv _ _ Hp) as (Hdest & x & c & Hx & Hl & Hc);
    assert (x = e) as -> by congruence; destruct (in_settled _ _ Hinv _ _ He) as (Hid & Hbe & Hcur & Hew);
    destruct (leads_cost _ _ _ _ Hew Hl) as [Hlt _]; destruct (le_edge _ _ _ _ Hl) as (edge & u & Hin & Hpol & Ep & _);
    rewrite Hid in Hin, Hpol; set (m := pr_nextNodeId p) in *;
    assert (m ∉ visited) as Hm by (intros (c1 & cv & E1 & E2 & Hle)%Hvis; rewrite Hc in E1; rewrite Hbe in E2; simplify_eq; lia);
    cbn [path_loop]; rewrite bool_decide_false, Hp by done; fold m; rewrite bool_decide_false by done.
  - assert (e = start) as -> by (destruct Hcur as [|(? & y & ? & _ & Hy & _ & E)]; [done|];
      destruct (in_settled _ _ Hinv _ _ Hy) as (_ & _ & _ & [_ _ Hh]); rewrite E in Hk; cbn in Hk; lia).
    cbn [start he_nodeId] in Hid. subst m. rewrite <- Hid in *.
    assert (path_loop fuel dest (fr_predecessors st) dest (dest :: visited) = Some []) as ->
      by (destruct fuel; cbn [path_loop]; by rewrite bool_decide_true).
    eexists _, u, [dest]. split; [reflexivity|]. rewrite Ep in *. split; [|split_and!; try done].
    + eapply payable_last with (edge := edge); [|done|done]. by constructor.
    + cbn. by apply NoDup_cons.
    + eexists _, []. split; [reflexivity|]. done.
  - destruct Hcur as [->|(p' & e' & c' & Hp' & He' & Hl' & E)]; [cbn in Hk; lia|]. rewrite Hid in *.
    destruct (IH m p' e' (m :: visited) fuel Hp' He') as (hops & u' & downs & Hpath & Hpay & Hlen & Hnd' & (h & rest & -> & Ha & Hv & Hde) & Hf1 & Hf2 & Hf3).
    { rewrite E in Hk. cbn in Hk. lia. }
    { lia. }
    { intros v Hv. apply elem_of_cons in Hv as [->|Hv]; [by exists (he_cost e), (he_cost e)|].
      destruct (Hvis v Hv) as (c1 & cv & E1 & E2 & Hle). exists (he_cost e), cv. split_and!; [done|done|]. rewrite Hc in E1. simplify_eq. lia. }
    { by left. }
    { by apply NoDup_cons. }
    rewrite Hpath, Hp'. assert (m <> source) as Hms by (intros Es; rewrite Es, (in_source _ _ Hinv) in He; done).
    eexists _, u, (m :: downs). split; [reflexivity|]. split; [|split_and!].
    + eapply payable_cons with (edge := edge) (u' := u').
      * constructor; cbn; try done; rewrite Ep; done.
      * done.
      * by rewrite Hf1.
      * by rewrite Hf2.
      * cbn. rewrite Ep. cbn. rewrite E. cbn. by rewrite Ha.
      * cbn. rewrite Ep. cbn. rewrite E. cbn. unfold new_cltv. rewrite bool_decide_false by done. by rewrite Hv, Hde.
    + cbn [length] in *. lia.
    + rewrite reverse_cons, <- app_assoc. done.
    + eexists _, _. split; [reflexivity|]. cbn. by rewrite Ep.
    + by rewrite Ep.
    + by rewrite Ep.
    + by rewrite Ep.
Qed.

(** A settled entry has as many nodes with a predecessor behind it as it has hops. *)
Lemma hops_nodes settled st : inv settled st -> forall k n e, settled !! n = Some e -> he_hops e = Z.of_nat k ->
  exists l, length l = k /\ NoDup l /\
    forall m, m ∈ l -> is_Some (get m (fr_predecessors st)) /\ exists c, get m (fr_bestCost st) = Some c /\ c <= he_cost e.
Proof.
  intros Hinv k. induction k as [|k IH]; intros n e He Hk.
  { exists []. split_and!; [done|constructor|]. by intros m ?%not_elem_of_nil. }
  destruct (in_settled _ _ Hinv _ _ He) as (Hid & Hb & [->|(p & e' & c & Hp & He' & Hl & E)] & _); [cbn in Hk; lia|].
  rewrite Hid in *. destruct (in_settled _ _ Hinv _ _ He') as (_ & _ & _ & Hew). destruct (leads_cost _ _ _ _ Hew Hl) as [Hc _].
  assert (he_cost e = c) as Ec by (rewrite E; done).
  destruct (IH _ _ He') as (l & Hlen & Hnd & Hall); [rewrite E in Hk; cbn in Hk; lia|].
  exists (n :: l). split_and!; [cbn; lia| |].
  - apply NoDup_cons. split; [|done]. intros (_ & cn & Hcn & Hle)%Hall. rewrite Hb in Hcn. simplify_eq. lia.
  - intros m [->|Hm]%elem_of_cons; [split; [by rewrite Hp|]; by exists (he_cost e)|].
    destruct (Hall m Hm) as (? & cm & ? & ?). split; [done|]. exists cm. split; [done|lia].
Qed.

Lemma hops_bound settled st n e : inv settled st -> settled !! n = Some e -> (Z.to_nat (he_hops e) <= length (fr_predecessors st))%nat.
Proof.
  intros Hinv He. destruct (in_settled _ _ Hinv _ _ He) as (_ & _ & _ & [_ _ Hh]).
  destruct (hops_nodes _ _ Hinv (Z.to_nat (he_hops e)) _ _ He ltac:(lia)) as (l & <- & Hnd & Hall).
  rewrite <- (length_map fst). apply submseteq_length, NoDup_submseteq; [done|]. intros m Hm.
  destruct (Hall m Hm) as ([p Hp] & _). by eapply get_key.
Qed.

(** What is demanded of a route to the destination. *)
Record route_ok (r : IRoute) : Prop := {
  ro_path : exists u downs, payable search used amount (rs_finalCltvExpiry search) source u downs (rt_hops r) /\ NoDup (source :: downs);
  ro_length : Z.of_nat (length (rt_hops r)) <= rs_maxHops search;
  ro_first : exists h rest, rt_hops r = h :: rest /\ rt_totalAmountMsat r = hop_amountToForwardMsat h /\
    hop_outgoingCltvValue h <= rs_maxCltvExpiry search;
  ro_fee : rt_totalFeeMsat r = rt_totalAmountMsat r - amount /\ 0 <= rt_totalFeeMsat r;
  ro_delta : rt_totalCltvDelta r = fold_left (fun t hop => t + hop_cltvExpiryDelta hop) (rt_hops r) 0
}.

Lemma payable_amount expiry up u downs hops : payable search used amount expiry up u downs hops ->
  match hops with h :: _ => amount <= hop_amountToForwardMsat h | [] => False end.
Proof.
  induction 1 as [? ? ? ? ? -> ?|up u h down edge u' downs h' rest Ho Hp IH Hb Hq Ha _]; [done|]. rewrite Ha.
  assert (0 <= cu_feeBaseMsat u' /\ 0 <= cu_feeProportionalMillionths u') as [? ?] by (inversion Hp as [? ? ? ? Ho'|? ? ? ? ? ? ? ? ? Ho']; subst; destruct Ho'; by eapply (sw_fees _ _ Hwf)).
  pose proof (route_fee_nonneg (hop_amountToForwardMsat h') (hop_feeBaseMsat h) (hop_feeProportionalMillionths h)). rewrite Hb, Hq in *. lia.
Qed.

(** *** What is left when nothing is found *)

(** The entry of the node [up] when it is reached from [e] over [edge] with policy [u]. *)
Definition via (e : IHeapEntry) (edge : IGraphEdge) (up : string) (u : IChannelUpdateMessage) : IHeapEntry :=
  {| he_cost := edge_cost e edge u; he_nodeId := up; he_amountMsat := he_amountMsat e + fee_of (he_amountMsat e) u;
     he_cltvValue := new_cltv e up (cu_cltvExpiryDelta u); he_hops := he_hops e + 1 |}.

(** An edge the search may take from [n] with entry [e]: the hop limit is not spent, the
    policy carries the amount, the expiry stays within its limit. *)
Definition can_take (n : string) (e : IHeapEntry) (edge : IGraphEdge) (up : string) (u : IChannelUpdateMessage) : Prop :=
  he_hops e < rs_maxHops search /\ edge ∈ node_edges search n /\
  edge_policy search used n (he_amountMsat e) edge = Some (up, u) /\
  new_cltv e up (cu_cltvExpiryDelta u) <= rs_maxCltvExpiry search.

(** The walks from the destination over such edges through the nodes of [found]; the entry
    adds up what the walk costs, has to receive, takes in blocks and counts in hops. *)
Inductive walk (found : gmap string IHeapEntry) : string -> IHeapEntry -> Prop :=
| walk_start : walk found dest start
| walk_edge n e edge up u : walk found n e -> found !! n = Some e -> can_take n e edge up u -> walk found up (via e edge up u).

(** The search ended with nothing left to expand, and its best costs are those of [found]:
    each entry is that of a walk from the destination, and no edge leads from them to a
    node outside, or to a node inside at a lower cost. *)
Record exhausted (found : gmap string IHeapEntry) : Prop := {
  ex_ends : exists st, search_loop (search_fuel search) search used
      {| fr_bestCost := JsMap.set dest amount []; fr_predecessors := []; fr_heap := push start [] |} = Some st /\
    fr_heap st = [] /\ forall n, get n (fr_bestCost st) = he_cost <$> found !! n;
  ex_dest : found !! dest = Some start;
  ex_source : found !! source = None;
  ex_walk n e : found !! n = Some e -> walk found n e;
  ex_least n e edge up u : found !! n = Some e -> can_take n e edge up u ->
    exists e', found !! up = Some e' /\ he_cost e' <= he_cost (via e edge up u)
}.

Lemma settled_walk settled st : inv settled st -> forall k n e, settled !! n = Some e -> he_hops e = Z.of_nat k -> walk settled n e.
Proof.
  intros Hinv k. induction k as [|k IH]; intros n e He Hk;
    destruct (in_settled _ _ Hinv _ _ He) as (Hid & _ & [->|(p & e' & c & _ & He' & [(edge & u & Hin & Hpol & -> & ->) Hh Hcl] & E)] & _);
    [by rewrite <- Hid; constructor| |by rewrite <- Hid; constructor|]; destruct (in_settled _ _ Hinv _ _ He') as (Hid' & _ & _ & [_ _ Hge]).
  { rewrite E in Hk. cbn in Hk. lia. }
  rewrite Hid in *. rewrite E in Hk |- *. cbn [reached he_hops] in Hk. eapply walk_edge; [apply IH; [exact He'|lia]|done|].
  unfold can_take. cbn [pred_of pr_nextNodeId pr_cltvExpiryDelta] in *. done.
Qed.

Lemma ended_exhausted settled st : search_loop (search_fuel search) search used
      {| fr_bestCost := JsMap.set dest amount []; fr_predecessors := []; fr_heap := push start [] |} = Some st ->
  inv settled st -> closed settled st -> covered settled st -> fr_heap st = [] -> exhausted settled.
Proof.
  intros Hloop Hinv Hcl Hcov Hh. assert (Hall : forall n b, get n (fr_bestCost st) = Some b -> is_Some (settled !! n)).
  { intros n b Hb. destruct (Hcov _ _ Hb) as [_ [?|(x & Hx & _)]]; [done|]. rewrite Hh in Hx. by apply not_elem_of_nil in Hx. }
  assert (Hcost : forall n, get n (fr_bestCost st) = he_cost <$> settled !! n).
  { intros n. destruct (settled !! n) as [e|] eqn:He; cbn.
    - by apply (in_settled _ _ Hinv _ _ He).
    - destruct (get n (fr_bestCost st)) as [b|] eqn:Hb; [|done]. destruct (Hall _ _ Hb) as [? ?]. congruence. }
  constructor; [by exists st| |apply Hinv| |].
  - destruct (Hall _ _ (in_dest _ _ Hinv)) as [x Hx]. destruct (in_settled _ _ Hinv _ _ Hx) as (Hid & _ & [->|(p & ? & ? & Hpx & _)] & _); [done|].
    rewrite Hid in Hpx. by destruct (in_pred _ _ Hinv _ _ Hpx).
  - intros n e He. destruct (in_settled _ _ Hinv _ _ He) as (_ & _ & _ & [_ _ Hge]). eapply (settled_walk _ _ Hinv (Z.to_nat (he_hops e))); [done|lia].
  - intros n e edge up u He (Hhops & Hin & Hp & Hc). destruct (in_settled _ _ Hinv _ _ He) as (Hid & _). rewrite <- Hid in Hp.
    destruct (Hcl n e edge He Hhops Hin up u Hp Hc) as (b & Hb & Hle). rewrite Hcost in Hb.
    destruct (settled !! up) as [e'|]; [|done]. injection Hb as <-. by exists e'.
Qed.

(** What the search returns is payable, and it returns nothing only when the source is
    out of reach of the nodes it expanded. *)
Lemma search_outcome : source <> dest ->
  match searchCheapestRoute search amount used with
  | Some r => route_ok r
  | None => exists found, exhausted found
  end.
Proof.
  intros Hne. unfold searchCheapestRoute. rewrite bool_decide_false by done. cbv zeta. fold start.
  destruct (loop_ends (search_fuel search) ∅ _ (inv_start Hne)) as (settled & st & Hloop & Hinv & Hcl & Hend).
  { intros n b. cbn [fr_bestCost fr_heap]. rewrite get_set. case_decide; [|done]. subst. intros [= <-]. split; [by left|]. right.
    exists start. rewrite push_perm. split; [by left|done]. }
  { intros n e edge. by rewrite lookup_empty. }
  { cbn [fr_heap]. rewrite push_perm. unfold search_fuel, todo. fold all_nodes. cbn [length]. apply le_n_S.
    apply Nat.eq_le_incl. done. }
  rewrite Hloop. destruct (get source (fr_predecessors st)) as [p|] eqn:Hp.
  - unfold has. rewrite Hp. cbn [negb]. destruct (in_pred _ _ Hinv _ _ Hp) as (_ & e & c & He & Hl & Hb).
    destruct (in_settled _ _ Hinv _ _ He) as (_ & _ & _ & Hew). pose proof (hops_bound _ _ _ _ Hinv He) as Hfuel.
    destruct (path_of settled st Hinv (Z.to_nat (he_hops e)) source p e [source] (S (length (fr_predecessors st))) Hp He)
      as (hops & u & downs & -> & Hpay & Hlen & Hnd & (h & rest & -> & Ha & Hv & _) & _).
    { destruct Hew. lia. }
    { lia. }
    { intros v ->%list_elem_of_singleton. by exists c, c. }
    { by apply list_elem_of_singleton. }
    { apply NoDup_singleton. }
    assert (hop_outgoingCltvValue h <= rs_maxCltvExpiry search) as Hcltv.
    { pose proof (le_cltv _ _ _ _ Hl) as Hn. unfold new_cltv in Hn. rewrite bool_decide_true in Hn by done. by rewrite Hv. }
    rewrite (proj2 (Z.ltb_ge _ _)) by done. pose proof (payable_amount _ _ _ _ _ Hpay) as Hge. cbn in Hge. constructor; cbn.
    + exists u, downs. split; [done|]. rewrite reverse_Permutation, Permutation_app_comm in Hnd. done.
    + pose proof (le_hops _ _ _ _ Hl). destruct Hew. cbn in Hlen. lia.
    + by exists h, rest.
    + split; [done|lia].
    + done.
  - unfold has. rewrite Hp. cbn [negb]. destruct Hend as [Hs|[?|[Hh Hcov]]]; [by apply is_Some_None in Hs|done|].
    exists settled. by eapply ended_exhausted.
Qed.
End Loop.

(** ** The theorems *)

(** What the search relies on of a graph: nodes it does not list have no edges, and an
    edge carries the id of its channel. *)
Class RoutingGraphLaws (G : Type) `{RoutingGraph G} : Prop := {
  rg_no_edges (g : G) n : n ∉ rg_nodes g -> rg_getNodeEdges g n = [];
  rg_edge_scid (g : G) n edge : edge ∈ rg_getNodeEdges g n -> ge_scidHex edge = hex (gc_shortChannelId (ge_channel edge))
}.

Section Routes.
Context {G : Type} `{RoutingGraphLaws G}.

Lemma payable_same (s : IRouteSearch G) used amount expiry up u downs hops :
  payable (without_missionControl s) used amount expiry up u downs hops -> payable s used amount expiry up u downs hops.
Proof.
  induction 1 as [? ? ? edge []|? ? ? ? edge ? ? ? ? []].
  - change (rs_destHex (without_missionControl s)) with (rs_destHex s). eapply (payable_last _ _ _ _ _ _ _ edge); by try constructor.
  - eapply (payable_cons _ _ _ _ _ _ _ _ edge); by try constructor.
Qed.

Lemma wf_without (s : IRouteSearch G) used : search_wf s used -> search_wf (without_missionControl s) used.
Proof. intros [Hf _]. constructor; [exact Hf|done]. Qed.

Lemma cheapest_ok (s : IRouteSearch G) used amount r : search_wf s used -> 0 <= amount ->
  searchCheapestRoute s amount used = Some r -> route_ok s used amount r.
Proof.
  intros Hw Ha Hr. pose proof (search_outcome s used amount Hw Ha (rg_no_edges _)) as Ho. rewrite Hr in Ho. apply Ho. intros E.
  unfold searchCheapestRoute in Hr. by rewrite bool_decide_true in Hr.
Qed.

Lemma searched_ok (s : IRouteSearch G) used amount r : search_wf s used -> 0 <= amount ->
  searchRoute s amount used = Some r -> route_ok s used amount r.
Proof.
  intros Hw Ha Hr. unfold searchRoute in Hr. destruct (searchCheapestRoute s amount used) as [r'|] eqn:Hc.
  { injection Hr as ->. by apply cheapest_ok. }
  destruct (rs_missionControl s); [|done]. apply cheapest_ok in Hr; [|by apply wf_without|done].
  destruct Hr as [(u & downs & Hp & Hn) ? ? ? ?]. constructor; try done. exists u, downs. split; [by apply payable_same|done].
Qed.

(** The edges a search may meet have policies with fees that are not negative. *)
Definition fees_ok (u : IChannelUpdateMessage) : Prop := 0 <= cu_feeBaseMsat u /\ 0 <= cu_feeProportionalMillionths u.

Definition edge_fees_ok (edge : IGraphEdge) : Prop :=
  opt_all fees_ok (gc_update1 (ge_channel edge)) /\ opt_all fees_ok (gc_update2 (ge_channel edge)).

Lemma search_wf_intro (s : IRouteSearch G) used :
  (forall n edge, edge ∈ node_edges s n -> edge_fees_ok edge) ->
  (forall m k u, rs_policyOverrides s = Some m -> get k m = Some u -> fees_ok u) ->
  (forall f scid, rs_missionControl s = Some f -> 0 <= f scid) -> search_wf s used.
Proof.
  intros He Ho Hm. constructor.
  - intros n amt edge up u Hin Hp. destruct (He _ _ Hin) as [H1 H2]. unfold edge_policy in Hp. cbv zeta in Hp.
    destruct (opt_mem _ _); [done|]. destruct (edge_upstream s n edge) as [[up' upd]|] eqn:Hu; [|done].
    destruct (policyFor upd (rs_policyOverrides s) _ _ _) as [u'|] eqn:Hpol; [|done].
    assert (u' = u) as -> by (repeat case_match; congruence). clear Hp.
    assert (opt_all fees_ok upd) as Hupd by (unfold edge_upstream in Hu; repeat case_match; by simplify_eq).
    unfold policyFor in Hpol. destruct upd as [w|]; [|done]. destruct (rs_policyOverrides s) as [m|] eqn:Em; [|by simplify_eq].
    destruct (get _ m) as [o|] eqn:Eo; simplify_eq; [by eapply Ho|done].
  - intros scid. unfold penalty. destruct (rs_missionControl s) as [f|] eqn:Ef; [by apply Hm|done].
Qed.

(** C26: whatever the search returns is a route that can be paid: it leads
    from the source to the destination over usable edges without visiting a node twice,
    within the hop and expiry limits; every node on it receives what it forwards plus the
    fee and the delta of its own policy; the totals are those of the first hop. *)
Theorem route_payable (s : IRouteSearch G) used amount r (Hwf : search_wf s used) (Hamount : 0 <= amount)
    (Hr : searchRoute s amount used = Some r) : route_ok s used amount r.
Proof. by apply searched_ok. Qed.

(** C27: the search always ends, and it reports no route only when it has
    expanded everything, with the penalties of mission control and without them: the nodes
    it found, whose best costs are those its loop ended with, each carry the amount, the
    expiry, the hops and the cost of a walk from the destination over usable edges; every
    edge that may be taken from one of them leads to one of them, at no lower cost than the
    one it was given; and the source is not among them. *)
Theorem no_route_closed (s : IRouteSearch G) used amount (Hwf : search_wf s used) (Hamount : 0 <= amount)
    (Hne : rs_sourceHex s <> rs_destHex s) (Hnone : searchRoute s amount used = None) :
  (exists found, exhausted s used amount found) /\ exists found, exhausted (without_missionControl s) used amount found.
Proof.
  pose proof (search_outcome s used amount Hwf Hamount (rg_no_edges _) Hne) as Ho.
  pose proof (search_outcome _ used amount (wf_without _ _ Hwf) Hamount (rg_no_edges _) Hne) as Hw.
  unfold searchRoute in Hnone. destruct (searchCheapestRoute s amount used) as [r|] eqn:Hc; [done|]. split; [done|].
  destruct (rs_missionControl s) as [f|] eqn:Hm.
  - by rewrite Hnone in Hw.
  - assert (without_missionControl s = s) as -> by (destruct s; cbn in *; by subst). done.
Qed.
End Routes.
