(* ===== verification/PathfindingMpp.v ===== *)
(** * Payments in several parts

    What findMultiPathRoute (src/src/lightning/gossip/pathfinding.ts) returns:
    the parts add up, and together they keep within every channel. *)

From S2P Require Import Prelude Buffer JsMap GossipTypes Invoice BlindedPath Pathfinding PathfindingRun Text.
Local Open Scope Z_scope.

(** ** The search for the widest amount *)

Lemma widest_spec fits : (forall a b, a <= b -> fits b = true -> fits a = true) -> forall fuel low high,
  low < high -> high - low <= 2 ^ Z.of_nat fuel -> fits low = true -> fits high = false -> 0 <= low ->
  let w := widest fuel fits low high in low <= w < high /\ fits w = true /\ fits (w + 1) = false.
Proof.
  intros Hmono fuel. induction fuel as [|fuel IH]; intros low high Hlt Hf Hl Hh H0; cbn zeta.
  { change (2 ^ Z.of_nat 0) with 1 in Hf. assert (high = low + 1) as -> by lia. cbn. repeat split; (done || lia). }
  cbn [widest]. rewrite Nat2Z.inj_succ, Z.pow_succ_r in Hf by lia. destruct (Z.ltb_spec 1 (high - low)) as [Hd|Hd].
  - assert (low < Z.quot (low + high) 2 < high /\ high - Z.quot (low + high) 2 <= 2 ^ Z.of_nat fuel /\
      Z.quot (low + high) 2 - low <= 2 ^ Z.of_nat fuel) as (Hm & Hb1 & Hb2)
      by (rewrite Z.quot_div_nonneg by lia; Z.to_euclidean_division_equations; lia).
    destruct (fits (Z.quot (low + high) 2)) eqn:Em.
    + destruct (IH (Z.quot (low + high) 2) high) as (? & ? & ?); try done; try lia. repeat split; (done || lia).
    + destruct (IH low (Z.quot (low + high) 2)) as (? & ? & ?); try done; try lia. repeat split; (done || lia).
  - assert (high = low + 1) as -> by lia. repeat split; (done || lia).
Qed.

Lemma widest_bounds fits fuel : forall low high, low <= high -> 0 <= low -> low <= widest fuel fits low high <= high.
Proof.
  induction fuel as [|fuel IH]; intros low high Hle H0; cbn [widest]; [lia|].
  destruct (Z.ltb_spec 1 (high - low)); [|lia]. assert (low <= Z.quot (low + high) 2 <= high) as Hm
    by (rewrite Z.quot_div_nonneg by lia; Z.to_euclidean_division_equations; lia).
  case_match; [pose proof (IH (Z.quot (low + high) 2) high)|pose proof (IH low (Z.quot (low + high) 2))]; lia.
Qed.

(** ** What is used of a channel *)

Definition hop_scid (h : IRouteHop) : string := hex (hop_shortChannelId h).

(** What the hops carry over the channel. *)
Definition spent_by (scid : string) (hops : list IRouteHop) : Z :=
  fold_right (fun h t => (if decide (hop_scid h = scid) then hop_amountToForwardMsat h else 0) + t) 0 hops.

Definition spent (scid : string) (parts : list IRoute) : Z :=
  fold_right (fun r t => spent_by scid (rt_hops r) + t) 0 parts.

Definition used_of (scid : string) (used : jsmap Z) : Z := default 0 (get scid used).

Lemma used_hops hops : forall used scid,
  used_of scid (fold_left use_hop hops used) = used_of scid used + spent_by scid hops.
Proof.
  induction hops as [|h hops IH]; intros used scid; cbn [fold_left spent_by fold_right]; [lia|]. rewrite IH.
  fold (spent_by scid hops). unfold used_of, use_hop. cbv zeta. rewrite get_set. fold (hop_scid h).
  destruct (decide (scid = hop_scid h)) as [->|Hne]; [rewrite decide_True by done; cbn; lia|].
  rewrite decide_False by done. lia.
Qed.

Section Parts.
Context {G : Type} `{RoutingGraphLaws G} (s : IRouteSearch G).
Context (Hwf : forall used, search_wf s used).
Context (Hscid : forall n edge, edge ∈ node_edges s n -> ge_scidHex edge = hex (gc_shortChannelId (ge_channel edge))).

Lemma payable_delivered used amount expiry up u downs hops : payable s used amount expiry up u downs hops ->
  exists h, last hops = Some h /\ hop_amountToForwardMsat h = amount.
Proof. induction 1 as [? ? h|? ? ? ? ? ? ? ? ? ? ? (h & Hl & ?)]; [by exists h|]. exists h. split; [by rewrite last_cons_cons|done]. Qed.

Lemma ok_delivered used amount r : route_ok s used amount r -> delivered r = amount.
Proof.
  intros [(u & downs & Hp & _) _ _ _ _]. destruct (payable_delivered _ _ _ _ _ _ _ Hp) as (h & Hl & <-).
  unfold delivered. by rewrite Hl.
Qed.

Lemma halving_ok n : forall a used r, halving n s a used = Some r -> exists b, 0 < b <= a /\ route_ok s (Some used) b r.
Proof.
  induction n as [|n IH]; intros a used r Hr; [done|]. cbn [halving] in Hr. destruct (Z.ltb_spec 0 a); [|done].
  destruct (searchRoute s a (Some used)) as [r'|] eqn:Es.
  - injection Hr as ->. exists a. split; [lia|]. apply searched_ok; [apply Hwf|lia|done].
  - destruct (IH _ _ _ Hr) as (b & Hb & Hok). exists b. split; [|done]. rewrite Z.quot_div_nonneg in Hb by lia.
    pose proof (Z.div_le_upper_bound a 2 a). lia.
Qed.

Lemma widened_ok a remaining used r : 0 < a <= remaining -> route_ok s (Some used) a r ->
  exists b, 0 < b <= remaining /\ route_ok s (Some used) b (widenPart s r remaining used).
Proof.
  intros Ha Hok. assert (exists b, 0 < b <= remaining /\ route_ok s (Some used) b r) as Hkeep by eauto.
  unfold widenPart. rewrite (ok_delivered _ _ _ Hok). cbv zeta. destruct (Z.leb_spec remaining a); [done|].
  destruct (routeHopCapacities s r used) as [caps|]; [|done]. destruct (negb _); [done|]. set (low := if fits r caps remaining then _ else _).
  assert (low <= remaining) as Hlow by (unfold low; case_match; [done|apply widest_bounds; lia]).
  destruct (Z.leb_spec low a); [done|]. destruct (searchRoute s low (Some used)) as [w|] eqn:Es; [|done].
  exists low. split; [lia|]. apply searched_ok; [apply Hwf|lia|done].
Qed.

Lemma part_ok remaining used r : 0 < remaining -> find_part s remaining used = Some r ->
  exists b, 0 < b <= remaining /\ route_ok s (Some used) b r.
Proof.
  intros Hr Hf. unfold find_part in Hf. destruct (searchRoute s remaining (Some used)) as [r'|] eqn:Es.
  { injection Hf as ->. exists remaining. split; [lia|]. apply searched_ok; [apply Hwf|lia|done]. }
  destruct (halving 8 s _ used) as [r'|] eqn:Eh; [|done]. injection Hf as <-. destruct (halving_ok _ _ _ _ Eh) as (b & Hb & Hok).
  rewrite Z.quot_div_nonneg in Hb by lia. pose proof (Z.div_le_upper_bound remaining 2 remaining).
  apply (widened_ok b); [lia|done].
Qed.

(** ** The parts *)

(** The hop [h] fits in what earlier parts leave of its channel. *)
Definition hop_fits (used : jsmap Z) (h : IRouteHop) : Prop := exists up down edge u,
  hop_over s (Some used) up u h down edge /\
  used_of (hop_scid h) used + hop_amountToForwardMsat h <= default 0xffffffffffffffff (update_maximum u).

(** A part that is payable when the parts before it use [before] of each channel. *)
Definition part_wf (before : string -> Z) (r : IRoute) : Prop := 0 < delivered r /\
  exists used, (forall scid, used_of scid used = before scid) /\ route_ok s (Some used) (delivered r) r /\
    Forall (hop_fits used) (rt_hops r).

Fixpoint parts_wf (before : string -> Z) (parts : list IRoute) : Prop :=
  match parts with
  | [] => True
  | r :: parts => part_wf before r /\ parts_wf (fun scid => before scid + spent_by scid (rt_hops r)) parts
  end.

Lemma policy_fits used n amt edge up u : 0 < amt -> edge_policy s (Some used) n amt edge = Some (up, u) ->
  used_of (ge_scidHex edge) used + amt <= default 0xffffffffffffffff (update_maximum u).
Proof.
  intros Ha Hp. unfold edge_policy in Hp. cbv zeta in Hp. destruct (opt_mem _ _); [done|].
  destruct (edge_upstream _ _ _) as [[? ?]|]; [|done]. destruct (policyFor _ _ _ _ _) as [u'|]; [|done]. destruct (negb _); [done|].
  destruct (match rs_currentTimestamp s with Some _ => _ | None => _ end); [done|]. destruct (amt <? _); [done|].
  destruct (over_capacity _ _ _ _) eqn:Hcap; [done|]. simplify_eq.
  unfold over_capacity in Hcap. cbv zeta in Hcap. apply Z.ltb_ge in Hcap. fold (used_of (ge_scidHex edge) used) in Hcap.
  destruct (Z.ltb_spec (used_of (ge_scidHex edge) used) (default 0xffffffffffffffff (update_maximum u))); lia.
Qed.

Lemma payable_fits used amount expiry up u downs hops : 0 < amount -> payable s (Some used) amount expiry up u downs hops ->
  Forall (hop_fits used) hops.
Proof.
  intros Ha. assert (Hone : forall up u h down edge, hop_over s (Some used) up u h down edge -> amount <= hop_amountToForwardMsat h ->
    hop_fits used h).
  { intros up' u' h down edge Ho Hh. exists up', down, edge, u'. split; [done|]. destruct Ho as [Hin Hp Hs _ _].
    unfold hop_scid. rewrite Hs, <- (Hscid _ _ Hin). eapply policy_fits; [|done]. lia. }
  induction 1 as [? ? ? ? ? ?|? ? h ? ? ? ? ? ? ? Hp IH Hb Hq Hh].
  - constructor; [|constructor]. eapply Hone; [done|lia].
  - constructor; [|done]. eapply Hone; [done|].
    apply (payable_amount s (Some used) amount (Hwf _) ltac:(lia) expiry up u (down :: downs) (h :: h' :: rest)).
    by eapply payable_cons.
Qed.

Lemma parts_ok bound : forall remaining used before parts unpaid, (forall scid, used_of scid used = before scid) ->
  parts_loop bound s remaining used = (parts, unpaid) ->
  parts_wf before parts /\ remaining - unpaid = fold_right (fun r t => delivered r + t) 0 parts /\ (0 <= remaining -> 0 <= unpaid).
Proof.
  induction bound as [|bound IH]; intros remaining used before parts unpaid Hu Hl; cbn [parts_loop] in Hl.
  { injection Hl as <- <-. cbn. split_and!; [done|lia|done]. }
  destruct (Z.ltb_spec 0 remaining) as [Hr|Hr]; [|injection Hl as <- <-; cbn; split_and!; [done|lia|done]].
  destruct (find_part s remaining used) as [r|] eqn:Ef; [|injection Hl as <- <-; cbn; split_and!; [done|lia|done]].
  cbv zeta in Hl. destruct (parts_loop bound s _ _) as [rest left'] eqn:El. injection Hl as <- <-.
  destruct (part_ok _ _ _ Hr Ef) as (b & Hb & Hok). pose proof (ok_delivered _ _ _ Hok) as Hd. rewrite <- Hd in Hb, Hok.
  destruct (IH _ _ (fun scid => before scid + spent_by scid (rt_hops r)) _ _ ltac:(intros; by rewrite used_hops, Hu) El) as (Hp & Hs & Hn).
  cbn [parts_wf fold_right]. split_and!; [|done|lia|lia]. split; [lia|]. exists used. split_and!; [done|done|].
  destruct Hok as [(u & downs & Hpay & _) _ _ _ _]. by eapply payable_fits; [|done]; lia.
Qed.

Lemma totals parts : forall before a b, parts_wf before parts ->
  fold_left (fun t r => t + rt_totalFeeMsat r) parts a =
  fold_left (fun t r => t + rt_totalAmountMsat r) parts b - b + a - fold_right (fun r t => delivered r + t) 0 parts.
Proof.
  induction parts as [|r parts IH]; intros before a b Hp; cbn [fold_left fold_right]; [lia|].
  destruct Hp as [(_ & used & _ & [_ _ _ [Hfee _] _] & _) Hp]. rewrite (IH _ _ (b + rt_totalAmountMsat r) Hp). lia.
Qed.
End Parts.

(** ** The overlay *)

Section Overlay.
Context {G : Type} `{RoutingGraphLaws G} (now : Z).

Definition edge_id_ok (edge : IGraphEdge) : Prop := ge_scidHex edge = hex (gc_shortChannelId (ge_channel edge)).

Definition overlay_edges_ok (m : jsmap (list IGraphEdge)) : Prop := forall n edges, get n m = Some edges -> Forall edge_id_ok edges.

Lemma push_edge_ok k edge m : edge_id_ok edge -> overlay_edges_ok m -> overlay_edges_ok (push_edge k edge m).
Proof.
  intros He Hm n edges. unfold push_edge. rewrite get_set. case_decide; [|apply Hm]. intros [= <-]. apply Forall_app.
  split; [|by constructor]. destruct (get k m) as [es|] eqn:E; [by eapply Hm|constructor].
Qed.

Lemma synthetic_ok (g : G) destHex hints : forall m, overlay_edges_ok m -> overlay_edges_ok (synthetic_route now g destHex hints m).
Proof.
  induction hints as [|hop hints IH]; intros m Hm; [done|]. cbn [synthetic_route]. apply IH. case_match; [done|]. by apply push_edge_ok.
Qed.

Lemma overlay_ok (g : G) source destination hints locals :
  overlay_edges_ok (ov_syntheticEdges (buildEdgeOverlay now g source destination hints locals)).
Proof.
  unfold buildEdgeOverlay. cbv zeta. set (o := match hints with Some _ => _ | None => _ end).
  assert (overlay_edges_ok (ov_syntheticEdges o)) as Ho.
  { unfold o. destruct hints as [hints|]; [|done]. cbn. unfold buildSyntheticEdges. generalize (trim_hints source hints). intros l.
    assert (overlay_edges_ok []) as Hnil by done. revert Hnil. generalize (@nil (string * list IGraphEdge)).
    induction l as [|h l IH]; intros m Hm; [done|]. cbn [fold_left]. by apply IH, synthetic_ok. }
  clearbody o. revert o Ho. induction (default [] locals) as [|lc lcs IH]; intros o Ho; [done|]. cbn [fold_left]. apply IH.
  by apply push_edge_ok.
Qed.

(** C28: the parts of a multi-path payment deliver exactly the amount,
    their totals are the sums over the parts, and each part is a payable route in what the
    earlier ones left: what all parts up to it send over one of its channels stays within
    the maximum of the channel. *)
Theorem mpp_within_channels (g : G) source destination amount finalCltv maxParts maxHops mc hints ts locals excluded maxCltv overrides m
    (Hwf : forall used, search_wf (new_search now g source destination finalCltv maxHops excluded mc maxCltv hints ts locals overrides) used)
    (Hamount : 0 <= amount)
    (Hm : findMultiPathRoute now g source destination amount finalCltv maxParts maxHops mc hints ts locals excluded maxCltv overrides = Some m) :
  fold_right (fun r t => delivered r + t) 0 (mp_parts m) = amount /\
  mp_totalFeeMsat m = mp_totalAmountMsat m - amount /\
  parts_wf (new_search now g source destination finalCltv maxHops excluded mc maxCltv hints ts locals overrides) (fun _ => 0) (mp_parts m).
Proof.
  unfold findMultiPathRoute in Hm. cbv zeta in Hm. set (s := new_search _ _ _ _ _ _ _ _ _ _ _ _ _) in *.
  destruct (parts_loop _ s amount []) as [parts unpaid] eqn:El. destruct (Z.ltb_spec 0 unpaid); [done|]. injection Hm as <-. cbn.
  destruct (fun Hscid => parts_ok s Hwf Hscid _ amount [] (fun _ => 0) parts unpaid (fun _ => eq_refl) El) as (Hp & Hs & Hn).
  { intros n edge [Hin|Hin]%elem_of_app.
    - apply list_elem_of_In, filter_In in Hin as [Hin%list_elem_of_In _]. by eapply rg_edge_scid.
    - destruct (get n _) as [es|] eqn:E; [|by apply not_elem_of_nil in Hin]. pose proof (overlay_ok g source destination hints locals n es E) as Hf.
      rewrite Forall_forall in Hf. by apply Hf. }
  assert (unpaid = 0) as -> by lia. split_and!; [lia| |done]. rewrite (totals s _ _ 0 0 Hp). lia.
Qed.
End Overlay.
