(* ===== verification/NetworkGraph.v ===== *)
(** * The network graph (src/src/lightning/gossip/network-graph.ts)

    The maps and sets of the class in their insertion order.  An edge wraps the channel
    object that [_channels] holds under the same key (both maps are written together),
    so [g_edges] keeps the two node keys and the channel is read through [g_channels].
    The callbacks of the owner are events, in the order they fire; they do not throw.
    The clock is an argument, in seconds for the timestamp bound and in milliseconds
    for the serving budget, where [elapsed k] is what the [k]-th check takes. *)

From S2P Require Import Prelude Buffer JsMap Codec GossipTypes GossipMessages GossipNode Pathfinding CommitmentTx Text.
Local Open Scope Z_scope.

(** ** The Set of strings *)

Module JsSet.
Definition add (k : string) (s : list string) : list string := if bool_decide (k ∈ s) then s else s ++ [k].
Definition delete (k : string) (s : list string) : list string := List.filter (fun x => negb (bool_decide (x = k))) s.
End JsSet.

#[global] Arguments JsSet.add : simpl never.
#[global] Arguments JsSet.delete : simpl never.

(** ** State *)

Inductive TGossipVerified := Verified | Deferred | Unverified.

#[global] Instance TGossipVerified_eq_dec : EqDecision TGossipVerified.
Proof. solve_decision. Defined.

Inductive graph_event :=
| ChannelEvicted (scidHex : string)
| NodeEvicted (nodeIdHex : string)
| FundingUnproven (scidHex : string)
| ChannelAnnouncementFailed (scidHex : string).

Record NetworkGraph := {
  g_channels : jsmap IGraphChannel;
  g_edges : jsmap (string * string);
  g_nodeKeys : jsmap string;
  g_unverified : list string;
  g_unfunded : list string;
  g_serveVerifyWindowStart : Z;
  g_serveVerifySpentMs : Z;
  g_checks : nat;
  g_nodes : jsmap IGraphNode;
  g_deferredNodeEvictions : option (list string);
  g_events : list graph_event
}.

(** The constructor's arguments and the static limits. *)
Record GraphConfig := {
  cf_chainHash : buffer;
  cf_eagerVerify : bool;
  cf_MAX_CHANNELS : Z;
  cf_SERVE_VERIFY_BUDGET_MS : Z;
  cf_SERVE_VERIFY_WINDOW_MS : Z
}.

Definition empty_graph : NetworkGraph :=
  {| g_channels := []; g_edges := []; g_nodeKeys := []; g_unverified := []; g_unfunded := []; g_serveVerifyWindowStart := 0;
     g_serveVerifySpentMs := 0; g_checks := 0; g_nodes := []; g_deferredNodeEvictions := None; g_events := [] |}.

Definition with_channels f (g : NetworkGraph) :=
  {| g_channels := f (g_channels g); g_edges := g_edges g; g_nodeKeys := g_nodeKeys g; g_unverified := g_unverified g;
     g_unfunded := g_unfunded g; g_serveVerifyWindowStart := g_serveVerifyWindowStart g; g_serveVerifySpentMs := g_serveVerifySpentMs g;
     g_checks := g_checks g; g_nodes := g_nodes g; g_deferredNodeEvictions := g_deferredNodeEvictions g; g_events := g_events g |}.
Definition with_edges f (g : NetworkGraph) :=
  {| g_channels := g_channels g; g_edges := f (g_edges g); g_nodeKeys := g_nodeKeys g; g_unverified := g_unverified g;
     g_unfunded := g_unfunded g; g_serveVerifyWindowStart := g_serveVerifyWindowStart g; g_serveVerifySpentMs := g_serveVerifySpentMs g;
     g_checks := g_checks g; g_nodes := g_nodes g; g_deferredNodeEvictions := g_deferredNodeEvictions g; g_events := g_events g |}.
Definition with_nodeKeys f (g : NetworkGraph) :=
  {| g_channels := g_channels g; g_edges := g_edges g; g_nodeKeys := f (g_nodeKeys g); g_unverified := g_unverified g;
     g_unfunded := g_unfunded g; g_serveVerifyWindowStart := g_serveVerifyWindowStart g; g_serveVerifySpentMs := g_serveVerifySpentMs g;
     g_checks := g_checks g; g_nodes := g_nodes g; g_deferredNodeEvictions := g_deferredNodeEvictions g; g_events := g_events g |}.
Definition with_unverified f (g : NetworkGraph) :=
  {| g_channels := g_channels g; g_edges := g_edges g; g_nodeKeys := g_nodeKeys g; g_unverified := f (g_unverified g);
     g_unfunded := g_unfunded g; g_serveVerifyWindowStart := g_serveVerifyWindowStart g; g_serveVerifySpentMs := g_serveVerifySpentMs g;
     g_checks := g_checks g; g_nodes := g_nodes g; g_deferredNodeEvictions := g_deferredNodeEvictions g; g_events := g_events g |}.
Definition with_unfunded f (g : NetworkGraph) :=
  {| g_channels := g_channels g; g_edges := g_edges g; g_nodeKeys := g_nodeKeys g; g_unverified := g_unverified g;
     g_unfunded := f (g_unfunded g); g_serveVerifyWindowStart := g_serveVerifyWindowStart g; g_serveVerifySpentMs := g_serveVerifySpentMs g;
     g_checks := g_checks g; g_nodes := g_nodes g; g_deferredNodeEvictions := g_deferredNodeEvictions g; g_events := g_events g |}.
Definition with_window start spent (g : NetworkGraph) :=
  {| g_channels := g_channels g; g_edges := g_edges g; g_nodeKeys := g_nodeKeys g; g_unverified := g_unverified g;
     g_unfunded := g_unfunded g; g_serveVerifyWindowStart := start; g_serveVerifySpentMs := spent;
     g_checks := g_checks g; g_nodes := g_nodes g; g_deferredNodeEvictions := g_deferredNodeEvictions g; g_events := g_events g |}.
Definition with_checks n (g : NetworkGraph) :=
  {| g_channels := g_channels g; g_edges := g_edges g; g_nodeKeys := g_nodeKeys g; g_unverified := g_unverified g;
     g_unfunded := g_unfunded g; g_serveVerifyWindowStart := g_serveVerifyWindowStart g; g_serveVerifySpentMs := g_serveVerifySpentMs g;
     g_checks := n; g_nodes := g_nodes g; g_deferredNodeEvictions := g_deferredNodeEvictions g; g_events := g_events g |}.
Definition with_nodes f (g : NetworkGraph) :=
  {| g_channels := g_channels g; g_edges := g_edges g; g_nodeKeys := g_nodeKeys g; g_unverified := g_unverified g;
     g_unfunded := g_unfunded g; g_serveVerifyWindowStart := g_serveVerifyWindowStart g; g_serveVerifySpentMs := g_serveVerifySpentMs g;
     g_checks := g_checks g; g_nodes := f (g_nodes g); g_deferredNodeEvictions := g_deferredNodeEvictions g; g_events := g_events g |}.
Definition with_deferred d (g : NetworkGraph) :=
  {| g_channels := g_channels g; g_edges := g_edges g; g_nodeKeys := g_nodeKeys g; g_unverified := g_unverified g;
     g_unfunded := g_unfunded g; g_serveVerifyWindowStart := g_serveVerifyWindowStart g; g_serveVerifySpentMs := g_serveVerifySpentMs g;
     g_checks := g_checks g; g_nodes := g_nodes g; g_deferredNodeEvictions := d; g_events := g_events g |}.
Definition emit e (g : NetworkGraph) :=
  {| g_channels := g_channels g; g_edges := g_edges g; g_nodeKeys := g_nodeKeys g; g_unverified := g_unverified g;
     g_unfunded := g_unfunded g; g_serveVerifyWindowStart := g_serveVerifyWindowStart g; g_serveVerifySpentMs := g_serveVerifySpentMs g;
     g_checks := g_checks g; g_nodes := g_nodes g; g_deferredNodeEvictions := g_deferredNodeEvictions g; g_events := g_events g ++ [e] |}.

(** ** Messages and provenance *)

Definition ZERO_SIG : buffer := alloc 64.

(** An id that is not 8 bytes is refused as decodeShortChannelId refuses it. *)
Definition scidBlock (scid : buffer) : result Z :=
  if negb (blen scid =? 8) then s ← decodeShortChannelId scid; Ok (sc_block s)
  else Ok (Z.lor (Z.lor (Z.shiftl (byte_at scid 0) 16) (Z.shiftl (byte_at scid 1) 8)) (byte_at scid 2)).

Fixpoint compareScids (a b : buffer) : Z :=
  match a, b with
  | x :: a', y :: b' => if negb (Z_of_byte x =? Z_of_byte y) then Z_of_byte x - Z_of_byte y else compareScids a' b'
  | _, _ => blen a - blen b
  end.

Definition isSignatureless (sig : buffer) : bool := bool_decide (sig = ZERO_SIG).

Definition isDontForward (msg : IChannelUpdateMessage) : bool := negb (Z.land (cu_messageFlags msg) MESSAGE_FLAG_DONT_FORWARD =? 0).

Definition sameChannelAnnouncement (a b : IChannelAnnouncementMessage) : bool :=
  match encodeChannelAnnouncementMessage a, encodeChannelAnnouncementMessage b with
  | Ok x, Ok y => bool_decide (x = y)
  | _, _ => false
  end.

Definition normalizeVerified (verified : option TGossipVerified) (signature : buffer) : TGossipVerified :=
  match verified with
  | Some Verified => Verified
  | Some Deferred => if isSignatureless signature then Unverified else Deferred
  | _ => Unverified
  end.

(** The stored flag and the deferred marker. *)
Definition provenancePair (verified : TGossipVerified) : option bool * option bool :=
  match verified with
  | Verified => (Some true, None)
  | Deferred => (None, Some true)
  | Unverified => (Some false, None)
  end.

Definition sanitizeSlot (verified deferred : option bool) : option bool * option bool :=
  (verified, if bool_decide (verified = None) && bool_decide (deferred = Some true) then Some true else None).

(** ** Writing the fields of a channel or node object *)

Definition ch_announce (msg : IChannelAnnouncementMessage) (pair : option bool * option bool) (ch : IGraphChannel) : IGraphChannel :=
  {| gc_shortChannelId := gc_shortChannelId ch; gc_nodeId1 := gc_nodeId1 ch; gc_nodeId2 := gc_nodeId2 ch;
     gc_features := ca_features msg; gc_announcement := Some msg; gc_update1 := gc_update1 ch; gc_update2 := gc_update2 ch;
     gc_announcementVerified := pair.1; gc_update1Verified := gc_update1Verified ch; gc_update2Verified := gc_update2Verified ch;
     gc_announcementVerifyDeferred := pair.2; gc_update1VerifyDeferred := gc_update1VerifyDeferred ch;
     gc_update2VerifyDeferred := gc_update2VerifyDeferred ch; gc_fundingVerified := None |}.

Definition ch_settle (verified deferred : option bool) (ch : IGraphChannel) : IGraphChannel :=
  {| gc_shortChannelId := gc_shortChannelId ch; gc_nodeId1 := gc_nodeId1 ch; gc_nodeId2 := gc_nodeId2 ch;
     gc_features := gc_features ch; gc_announcement := gc_announcement ch; gc_update1 := gc_update1 ch; gc_update2 := gc_update2 ch;
     gc_announcementVerified := verified; gc_update1Verified := gc_update1Verified ch; gc_update2Verified := gc_update2Verified ch;
     gc_announcementVerifyDeferred := deferred; gc_update1VerifyDeferred := gc_update1VerifyDeferred ch;
     gc_update2VerifyDeferred := gc_update2VerifyDeferred ch; gc_fundingVerified := gc_fundingVerified ch |}.

Definition ch_update1 (u : option IChannelUpdateMessage) (verified deferred : option bool) (ch : IGraphChannel) : IGraphChannel :=
  {| gc_shortChannelId := gc_shortChannelId ch; gc_nodeId1 := gc_nodeId1 ch; gc_nodeId2 := gc_nodeId2 ch;
     gc_features := gc_features ch; gc_announcement := gc_announcement ch; gc_update1 := u; gc_update2 := gc_update2 ch;
     gc_announcementVerified := gc_announcementVerified ch; gc_update1Verified := verified; gc_update2Verified := gc_update2Verified ch;
     gc_announcementVerifyDeferred := gc_announcementVerifyDeferred ch; gc_update1VerifyDeferred := deferred;
     gc_update2VerifyDeferred := gc_update2VerifyDeferred ch; gc_fundingVerified := gc_fundingVerified ch |}.

Definition ch_update2 (u : option IChannelUpdateMessage) (verified deferred : option bool) (ch : IGraphChannel) : IGraphChannel :=
  {| gc_shortChannelId := gc_shortChannelId ch; gc_nodeId1 := gc_nodeId1 ch; gc_nodeId2 := gc_nodeId2 ch;
     gc_features := gc_features ch; gc_announcement := gc_announcement ch; gc_update1 := gc_update1 ch; gc_update2 := u;
     gc_announcementVerified := gc_announcementVerified ch; gc_update1Verified := gc_update1Verified ch; gc_update2Verified := verified;
     gc_announcementVerifyDeferred := gc_announcementVerifyDeferred ch; gc_update1VerifyDeferred := gc_update1VerifyDeferred ch;
     gc_update2VerifyDeferred := deferred; gc_fundingVerified := gc_fundingVerified ch |}.

Definition ch_funding (funding : option bool) (ch : IGraphChannel) : IGraphChannel :=
  {| gc_shortChannelId := gc_shortChannelId ch; gc_nodeId1 := gc_nodeId1 ch; gc_nodeId2 := gc_nodeId2 ch;
     gc_features := gc_features ch; gc_announcement := gc_announcement ch; gc_update1 := gc_update1 ch; gc_update2 := gc_update2 ch;
     gc_announcementVerified := gc_announcementVerified ch; gc_update1Verified := gc_update1Verified ch; gc_update2Verified := gc_update2Verified ch;
     gc_announcementVerifyDeferred := gc_announcementVerifyDeferred ch; gc_update1VerifyDeferred := gc_update1VerifyDeferred ch;
     gc_update2VerifyDeferred := gc_update2VerifyDeferred ch; gc_fundingVerified := funding |}.

Definition node_announce (ann : option INodeAnnouncementMessage) (verified deferred : option bool) (n : IGraphNode) : IGraphNode :=
  {| gn_nodeId := gn_nodeId n; gn_announcement := ann; gn_channels := gn_channels n;
     gn_announcementVerified := verified; gn_announcementVerifyDeferred := deferred |}.

Definition node_channels (channels : list string) (n : IGraphNode) : IGraphNode :=
  {| gn_nodeId := gn_nodeId n; gn_announcement := gn_announcement n; gn_channels := channels;
     gn_announcementVerified := gn_announcementVerified n; gn_announcementVerifyDeferred := gn_announcementVerifyDeferred n |}.

Definition fresh_node (nodeId : buffer) : IGraphNode :=
  {| gn_nodeId := nodeId; gn_announcement := None; gn_channels := []; gn_announcementVerified := None;
     gn_announcementVerifyDeferred := None |}.

Definition is_true (o : option bool) : bool := bool_decide (o = Some true).

Section Graph.
Context (sha256 : buffer -> buffer) (verify : buffer -> buffer -> buffer -> bool) (cf : GraphConfig).

Local Abbreviation verifyChannelAnnouncementMessage := (verifyChannelAnnouncementMessage sha256 verify).
Local Abbreviation verifyChannelUpdateMessage := (verifyChannelUpdateMessage sha256 verify).
Local Abbreviation verifyNodeAnnouncementMessage := (verifyNodeAnnouncementMessage sha256 verify).

Definition set_channel (scidHex : string) (ch : IGraphChannel) : NetworkGraph -> NetworkGraph := with_channels (JsMap.set scidHex ch).
Definition set_node (nodeHex : string) (n : IGraphNode) : NetworkGraph -> NetworkGraph := with_nodes (JsMap.set nodeHex n).

Definition map_size {V} (m : jsmap V) : Z := Z.of_nat (length m).

(** ** Indexes *)

Definition _syncUnverifiedIndex (scidHex : string) (channel : IGraphChannel) (g : NetworkGraph) : NetworkGraph :=
  if negb (is_true (gc_announcementVerified channel)) then
    with_unfunded (JsSet.delete scidHex) (with_unverified (JsSet.add scidHex) g)
  else
    let g := with_unverified (JsSet.delete scidHex) g in
    if is_true (gc_fundingVerified channel) then with_unfunded (JsSet.delete scidHex) g
    else if negb (bool_decide (scidHex ∈ g_unfunded g)) then
      emit (FundingUnproven scidHex) (with_unfunded (JsSet.add scidHex) g)
    else g.

(** The settled channel and the graph that holds it. *)
Definition _resolveDeferredAnnouncement (scidHex : string) (channel : IGraphChannel) (g : NetworkGraph) : IGraphChannel * NetworkGraph :=
  let verdict := match gc_announcement channel with Some a => verifyChannelAnnouncementMessage a | None => false end in
  let channel := ch_settle (Some verdict) None channel in
  let g := _syncUnverifiedIndex scidHex channel (set_channel scidHex channel g) in
  (channel, if negb verdict then emit (ChannelAnnouncementFailed scidHex) g else g).

Definition _flushDeferredNodeEvictions (g : NetworkGraph) : NetworkGraph :=
  let deferred := g_deferredNodeEvictions g in
  let g := with_deferred None g in
  match deferred with
  | None => g
  | Some hexes => fold_left (fun g h => if JsMap.has h (g_nodes g) then g else emit (NodeEvicted h) g) hexes g
  end.

(** ** Removing a channel *)

(** One endpoint's share of the removal: the node without the channel, or no node, reported. *)
Definition unlink (nodeHex scidHex : string) (gl : NetworkGraph * list string) : NetworkGraph * list string :=
  let '(g, evictedNodes) := gl in
  match JsMap.get nodeHex (g_nodes g) with
  | None => gl
  | Some node =>
      let channels := JsSet.delete scidHex (gn_channels node) in
      if Nat.eqb (length channels) 0 then
        (with_nodeKeys (JsMap.del nodeHex) (with_nodes (JsMap.del nodeHex) g), evictedNodes ++ [nodeHex])
      else (set_node nodeHex (node_channels channels node) g, evictedNodes)
  end.

Definition report_evicted (g : NetworkGraph) (nodeIdHex : string) : NetworkGraph :=
  match g_deferredNodeEvictions g with
  | Some l => with_deferred (Some (l ++ [nodeIdHex])) g
  | None => emit (NodeEvicted nodeIdHex) g
  end.

Definition removeChannel (shortChannelId : buffer) (g : NetworkGraph) : bool * NetworkGraph :=
  let scidHex := hex shortChannelId in
  match JsMap.get scidHex (g_channels g) with
  | None => (false, g)
  | Some channel =>
      let g := with_channels (JsMap.del scidHex) g in
      let g := with_edges (JsMap.del scidHex) g in
      let g := with_unverified (JsSet.delete scidHex) g in
      let g := with_unfunded (JsSet.delete scidHex) g in
      let '(g, evictedNodes) := unlink (hex (gc_nodeId2 channel)) scidHex (unlink (hex (gc_nodeId1 channel)) scidHex (g, [])) in
      (true, fold_left report_evicted evictedNodes g)
  end.

Definition _evictOne (includeUnfunded : bool) (g : NetworkGraph) : bool * NetworkGraph :=
  let victim := match g_unverified g with
                | v :: _ => Some v
                | [] => if includeUnfunded then head (g_unfunded g) else None
                end in
  match victim with
  | None => (false, g)
  | Some v =>
      let g := match JsMap.get v (g_channels g) with
               | Some channel => (removeChannel (gc_shortChannelId channel) g).2
               | None => with_unfunded (JsSet.delete v) (with_unverified (JsSet.delete v) g)
               end in
      (true, emit (ChannelEvicted v) g)
  end.

(** ** Admission *)

Definition _nodeKey (nodeHex : string) (g : NetworkGraph) : string * NetworkGraph :=
  match JsMap.get nodeHex (g_nodeKeys g) with
  | Some key => (key, g)
  | None => (nodeHex, with_nodeKeys (JsMap.set nodeHex nodeHex) g)
  end.

Definition _setChannel (scidHex : string) (channel : IGraphChannel) (node1Hex node2Hex : string) (g : NetworkGraph) : NetworkGraph :=
  let g := set_channel scidHex channel g in
  let '(k1, g) := _nodeKey node1Hex g in
  let '(k2, g) := _nodeKey node2Hex g in
  with_edges (JsMap.set scidHex (k1, k2)) g.

(** Ensure the node entry exists and link the channel. *)
Definition link (nodeHex : string) (nodeId : buffer) (scidHex : string) (g : NetworkGraph) : NetworkGraph :=
  let node := default (fresh_node nodeId) (JsMap.get nodeHex (g_nodes g)) in
  set_node nodeHex (node_channels (JsSet.add scidHex (gn_channels node)) node) g.

Record channel_keys := { k_scidHex : string; k_node1Hex : string; k_node2Hex : string }.

(** With or without copies of the buffers: the graph never writes them in place. *)
Definition _admitChannel (msg : IChannelAnnouncementMessage) (verified : TGossipVerified) (keys : channel_keys)
    (g : NetworkGraph) : NetworkGraph :=
  let pair := provenancePair verified in
  let channel :=
    {| gc_shortChannelId := ca_shortChannelId msg; gc_nodeId1 := ca_nodeId1 msg; gc_nodeId2 := ca_nodeId2 msg;
       gc_features := ca_features msg; gc_announcement := Some msg; gc_update1 := None; gc_update2 := None;
       gc_announcementVerified := pair.1; gc_update1Verified := None; gc_update2Verified := None;
       gc_announcementVerifyDeferred := pair.2; gc_update1VerifyDeferred := None; gc_update2VerifyDeferred := None;
       gc_fundingVerified := None |} in
  let g := _setChannel (k_scidHex keys) channel (k_node1Hex keys) (k_node2Hex keys) g in
  let g := _syncUnverifiedIndex (k_scidHex keys) channel g in
  let g := link (k_node1Hex keys) (ca_nodeId1 msg) (k_scidHex keys) g in
  let g := link (k_node2Hex keys) (ca_nodeId2 msg) (k_scidHex keys) g in
  _flushDeferredNodeEvictions g.

(** The signature of the announcement a channel holds. *)
Definition ann_signature1 (ch : IGraphChannel) : buffer :=
  match gc_announcement ch with Some a => ca_nodeSignature1 a | None => [] end.

Definition same_announcement (ch : IGraphChannel) (msg : IChannelAnnouncementMessage) : bool :=
  match gc_announcement ch with Some a => sameChannelAnnouncement a msg | None => false end.

(** [existing] may be replaced in place by [msg] of the given provenance *)
Definition upgrade (existing : IGraphChannel) (msg : IChannelAnnouncementMessage) (verified : TGossipVerified) : bool :=
  match verified with
  | Verified => true
  | Deferred => isSignatureless (ann_signature1 existing) ||
                bool_decide (gc_announcementVerified existing = Some false) && negb (same_announcement existing msg)
  | Unverified => false
  end.

Definition addChannelAnnouncement (msg : IChannelAnnouncementMessage) (opts_verified : option TGossipVerified)
    (g : NetworkGraph) : bool * NetworkGraph :=
  if negb (bool_decide (ca_chainHash msg = cf_chainHash cf)) then (false, g)
  else if 0 <=? buf_compare (ca_nodeId1 msg) (ca_nodeId2 msg) then (false, g)
  else
    let verified := normalizeVerified opts_verified (ca_nodeSignature1 msg) in
    let scidHex := hex (ca_shortChannelId msg) in
    match JsMap.get scidHex (g_channels g) with
    | Some existing =>
        if upgrade existing msg verified && negb (is_true (gc_announcementVerified existing)) &&
           bool_decide (gc_nodeId1 existing = ca_nodeId1 msg) && bool_decide (gc_nodeId2 existing = ca_nodeId2 msg)
        then
          let existing := ch_announce msg (provenancePair verified) existing in
          (true, _syncUnverifiedIndex scidHex existing (set_channel scidHex existing g))
        else (false, g)
    | None =>
        let keys := {| k_scidHex := scidHex; k_node1Hex := hex (ca_nodeId1 msg); k_node2Hex := hex (ca_nodeId2 msg) |} in
        if cf_MAX_CHANNELS cf <=? map_size (g_channels g) then
          if negb (bool_decide (verified = Verified)) then (false, g)
          else
            let '(evicted, g) := _evictOne true (with_deferred (Some []) g) in
            if negb evicted then (false, with_deferred None g)
            else (true, _admitChannel msg verified keys g)
        else (true, _admitChannel msg verified keys g)
    end.

Definition addRapidGossipChannel (msg : IChannelAnnouncementMessage) (keys : channel_keys) (g : NetworkGraph) : bool * NetworkGraph :=
  if negb (bool_decide (ca_chainHash msg = cf_chainHash cf)) then (false, g)
  else if 0 <=? buf_compare (ca_nodeId1 msg) (ca_nodeId2 msg) then (false, g)
  else if JsMap.has (k_scidHex keys) (g_channels g) then (false, g)
  else if cf_MAX_CHANNELS cf <=? map_size (g_channels g) then (false, g)
  else (true, _admitChannel msg Unverified keys g).

(** ** Updates and node announcements *)

Definition slot_update (direction : Z) (ch : IGraphChannel) : option IChannelUpdateMessage :=
  if direction =? 0 then gc_update1 ch else gc_update2 ch.
Definition slot_verified (direction : Z) (ch : IGraphChannel) : option bool :=
  if direction =? 0 then gc_update1Verified ch else gc_update2Verified ch.

(** The held update stands against one that is not newer, unless [msg] may take its slot over. *)
Definition holds_slot (existing : option IChannelUpdateMessage) (existingVerified : option bool) (msg : IChannelUpdateMessage)
    (verified : TGossipVerified) : bool :=
  match existing with
  | Some e =>
      (cu_timestamp msg <=? cu_timestamp e) &&
      negb (negb (is_true existingVerified) &&
            (bool_decide (verified = Verified) || bool_decide (verified = Deferred) && isSignatureless (cu_signature e)))
  | None => false
  end.

Definition _applyChannelUpdate (now : Z) (msg : IChannelUpdateMessage) (scidHex : string) (claimed : option TGossipVerified)
    (g : NetworkGraph) : bool * NetworkGraph :=
  if gossipTimestampTooFarFuture now (cu_timestamp msg) then (false, g)
  else if isDontForward msg then (false, g)
  else
    match JsMap.get scidHex (g_channels g) with
    | None => (false, g)
    | Some channel =>
        let direction := direction_of msg in
        let verified := normalizeVerified claimed (cu_signature msg) in
        if holds_slot (slot_update direction channel) (slot_verified direction channel) msg verified then (false, g)
        else
          let pair := provenancePair verified in
          let channel := if direction =? 0 then ch_update1 (Some msg) pair.1 pair.2 channel
                         else ch_update2 (Some msg) pair.1 pair.2 channel in
          (true, set_channel scidHex channel g)
    end.

Definition applyChannelUpdate (now : Z) (msg : IChannelUpdateMessage) (opts_verified : option TGossipVerified) :=
  _applyChannelUpdate now msg (hex (cu_shortChannelId msg)) opts_verified.

Definition applyRapidGossipUpdate (now : Z) (msg : IChannelUpdateMessage) (scidHex : string) :=
  _applyChannelUpdate now msg scidHex (Some Unverified).

(** A held announcement stands against one that is not newer, unless a verified one replaces an unverified one. *)
Definition holds_node (node : IGraphNode) (msg : INodeAnnouncementMessage) (verified : TGossipVerified) : bool :=
  match gn_announcement node with
  | Some a => (nn_timestamp msg <=? nn_timestamp a) &&
              negb (bool_decide (verified = Verified) && negb (is_true (gn_announcementVerified node)))
  | None => false
  end.

Definition applyNodeAnnouncement (now : Z) (msg : INodeAnnouncementMessage) (opts_verified : option TGossipVerified)
    (g : NetworkGraph) : bool * NetworkGraph :=
  if gossipTimestampTooFarFuture now (nn_timestamp msg) then (false, g)
  else
    let nodeHex := hex (nn_nodeId msg) in
    match JsMap.get nodeHex (g_nodes g) with
    | None => (false, g)
    | Some node =>
        if Nat.eqb (length (gn_channels node)) 0 then (false, g)
        else
          let verified := normalizeVerified opts_verified (nn_signature msg) in
          if holds_node node msg verified then (false, g)
          else
            let pair := provenancePair verified in
            (true, set_node nodeHex (node_announce (Some msg) pair.1 pair.2 node) g)
    end.

(** ** Pre-verification gates *)

Definition wouldAcceptChannelAnnouncement (msg : IChannelAnnouncementMessage) (g : NetworkGraph) : bool :=
  if negb (bool_decide (ca_chainHash msg = cf_chainHash cf)) then false
  else if 0 <=? buf_compare (ca_nodeId1 msg) (ca_nodeId2 msg) then false
  else
    match JsMap.get (hex (ca_shortChannelId msg)) (g_channels g) with
    | None => (map_size (g_channels g) <? cf_MAX_CHANNELS cf) || (0 <? Z.of_nat (length (g_unverified g))) ||
              (0 <? Z.of_nat (length (g_unfunded g)))
    | Some existing =>
        negb (is_true (gc_announcementVerified existing)) && bool_decide (gc_nodeId1 existing = ca_nodeId1 msg) &&
        bool_decide (gc_nodeId2 existing = ca_nodeId2 msg)
    end.

Definition wouldAcceptChannelUpdate (now : Z) (msg : IChannelUpdateMessage) (g : NetworkGraph) : bool :=
  if gossipTimestampTooFarFuture now (cu_timestamp msg) then false
  else if isDontForward msg then false
  else
    match JsMap.get (hex (cu_shortChannelId msg)) (g_channels g) with
    | None => false
    | Some channel =>
        let direction := direction_of msg in
        match slot_update direction channel with
        | Some existing => if cu_timestamp msg <=? cu_timestamp existing then negb (is_true (slot_verified direction channel)) else true
        | None => true
        end
    end.

Definition wouldAcceptNodeAnnouncement (now : Z) (msg : INodeAnnouncementMessage) (g : NetworkGraph) : bool :=
  if gossipTimestampTooFarFuture now (nn_timestamp msg) then false
  else
    match JsMap.get (hex (nn_nodeId msg)) (g_nodes g) with
    | None => false
    | Some node =>
        if Nat.eqb (length (gn_channels node)) 0 then false
        else match gn_announcement node with
             | Some a => if nn_timestamp msg <=? nn_timestamp a then negb (is_true (gn_announcementVerified node)) else true
             | None => true
             end
    end.

(** ** Reading *)

Definition getChannelCount (g : NetworkGraph) : Z := map_size (g_channels g).
Definition getNodeCount (g : NetworkGraph) : Z := map_size (g_nodes g).

Definition getChannel (g : NetworkGraph) (shortChannelId : buffer) : option IGraphChannel :=
  JsMap.get (hex shortChannelId) (g_channels g).
Definition getNode (g : NetworkGraph) (nodeId : buffer) : option IGraphNode := JsMap.get (hex nodeId) (g_nodes g).

Definition getVerifiedNodeAnnouncement (nodeId : buffer) (g : NetworkGraph) : option INodeAnnouncementMessage * NetworkGraph :=
  let nodeHex := hex nodeId in
  match JsMap.get nodeHex (g_nodes g) with
  | Some node =>
      match gn_announcement node with
      | None => (None, g)
      | Some a =>
          let '(node, g) :=
            if is_true (gn_announcementVerifyDeferred node) then
              let node := node_announce (Some a) (Some (verifyNodeAnnouncementMessage a)) None node in (node, set_node nodeHex node g)
            else (node, g) in
          (if is_true (gn_announcementVerified node) then Some a else None, g)
      end
  | None => (None, g)
  end.

Definition getVerifiedChannelAnnouncement (shortChannelId : buffer) (g : NetworkGraph) :
    option IChannelAnnouncementMessage * NetworkGraph :=
  let scidHex := hex shortChannelId in
  match JsMap.get scidHex (g_channels g) with
  | None => (None, g)
  | Some channel =>
      match gc_announcement channel with
      | None => (None, g)
      | Some a =>
          if negb (bool_decide (ca_shortChannelId a = shortChannelId)) || negb (bool_decide (ca_chainHash a = cf_chainHash cf))
          then (None, g)
          else
            let '(channel, g) := if is_true (gc_announcementVerifyDeferred channel)
                                 then _resolveDeferredAnnouncement scidHex channel g else (channel, g) in
            (if is_true (gc_announcementVerified channel) then Some a else None, g)
      end
  end.

Definition markChannelFundingProven (shortChannelId : buffer) (g : NetworkGraph) : bool * NetworkGraph :=
  let scidHex := hex shortChannelId in
  match JsMap.get scidHex (g_channels g) with
  | None => (false, g)
  | Some channel =>
      if negb (is_true (gc_announcementVerified channel)) then (false, g)
      else
        let channel := ch_funding (Some true) channel in
        (true, _syncUnverifiedIndex scidHex channel (set_channel scidHex channel g))
  end.

Definition getNodeChannels (g : NetworkGraph) (nodeId : buffer) : list IGraphChannel :=
  match JsMap.get (hex nodeId) (g_nodes g) with
  | None => []
  | Some node => omap (fun scidHex => JsMap.get scidHex (g_channels g)) (gn_channels node)
  end.

(** The routing edge under a key. *)
Definition edge_of (g : NetworkGraph) (scidHex : string) : option IGraphEdge :=
  '(n1, n2) ← JsMap.get scidHex (g_edges g);
  channel ← JsMap.get scidHex (g_channels g);
  Some {| ge_channel := channel; ge_scidHex := scidHex; ge_node1Hex := n1; ge_node2Hex := n2 |}.

Definition getNodeEdges (g : NetworkGraph) (nodeIdHex : string) : list IGraphEdge :=
  match JsMap.get nodeIdHex (g_nodes g) with
  | None => []
  | Some node => omap (edge_of g) (gn_channels node)
  end.

(** ** Pruning and listing *)

Definition latest_update (channel : IGraphChannel) : Z :=
  Z.max (from_option cu_timestamp 0 (gc_update1 channel)) (from_option cu_timestamp 0 (gc_update2 channel)).

Definition pruneStaleChannels (currentTimestamp maxAge : Z) (g : NetworkGraph) : Z * NetworkGraph :=
  let cutoff := currentTimestamp - maxAge in
  let toPrune := map gc_shortChannelId (List.filter (fun channel => latest_update channel <? cutoff) (JsMap.values (g_channels g))) in
  (Z.of_nat (length toPrune), fold_left (fun g scid => (removeChannel scid g).2) toPrune g).

Definition getAllChannelIds (g : NetworkGraph) : list buffer := map gc_shortChannelId (JsMap.values (g_channels g)).
Definition getAllNodeIds (g : NetworkGraph) : list buffer := map gn_nodeId (JsMap.values (g_nodes g)).
Definition getAllChannels (g : NetworkGraph) : list IGraphChannel := JsMap.values (g_channels g).
Definition getAllNodes (g : NetworkGraph) : list IGraphNode := JsMap.values (g_nodes g).

(** [for (const channel of this._channels.values())] with [index], the channels seen, and [page], in order *)
Fixpoint page_loop (channels : list IGraphChannel) (index offset limit : Z) (page : list IGraphChannel) : list IGraphChannel :=
  match channels with
  | [] => page
  | channel :: channels =>
      if index <? offset then page_loop channels (index + 1) offset limit page
      else
        let page := page ++ [channel] in
        if Z.of_nat (length page) =? limit then page else page_loop channels (index + 1) offset limit page
  end.

Definition getChannelPage (g : NetworkGraph) (offset limit : Z) : list IGraphChannel :=
  if limit <=? 0 then [] else page_loop (JsMap.values (g_channels g)) 0 offset limit [].

(** ** Restoring rows *)

Definition poisoned (now : Z) (u : IChannelUpdateMessage) : bool := gossipTimestampTooFarFuture now (cu_timestamp u) || isDontForward u.

Definition drop_poisoned (now : Z) (channel : IGraphChannel) : IGraphChannel :=
  let channel := match gc_update1 channel with
                 | Some u => if poisoned now u then ch_update1 None None None channel else channel
                 | None => channel
                 end in
  match gc_update2 channel with
  | Some u => if poisoned now u then ch_update2 None None None channel else channel
  | None => channel
  end.

(** [slot ?? verify()] *)
Definition or_verify (slot : option bool) (v : bool) : option bool := match slot with Some b => Some b | None => Some v end.

(** The flag and the marker of an update slot after the restore. *)
Definition restored_update (channel : IGraphChannel) (update : option IChannelUpdateMessage) (slot : option bool * option bool) :
    option bool * option bool :=
  match update with
  | None => (None, None)
  | Some u =>
      if cf_eagerVerify cf then (or_verify slot.1 (verifyChannelUpdateMessage u (gc_nodeId1 channel) (gc_nodeId2 channel)), None)
      else (slot.1, if bool_decide (slot.1 = None) then Some true else None)
  end.

Definition restored_announcement (channel : IGraphChannel) (slot : option bool * option bool) : option bool * option bool :=
  if cf_eagerVerify cf
  then (or_verify slot.1 (match gc_announcement channel with Some a => verifyChannelAnnouncementMessage a | None => false end), None)
  else (slot.1, if bool_decide (slot.1 = None) then Some true else None).

(** The row with its flags resolved. *)
Definition restored_channel (now : Z) (channel : IGraphChannel) : IGraphChannel :=
  let channel := drop_poisoned now channel in
  let ann := sanitizeSlot (gc_announcementVerified channel) (gc_announcementVerifyDeferred channel) in
  let upd1 := sanitizeSlot (gc_update1Verified channel) (gc_update1VerifyDeferred channel) in
  let upd2 := sanitizeSlot (gc_update2Verified channel) (gc_update2VerifyDeferred channel) in
  let a := restored_announcement channel ann in
  let u1 := restored_update channel (gc_update1 channel) upd1 in
  let u2 := restored_update channel (gc_update2 channel) upd2 in
  let channel := ch_settle a.1 a.2 channel in
  let channel := ch_update1 (gc_update1 channel) u1.1 u1.2 channel in
  let channel := ch_update2 (gc_update2 channel) u2.1 u2.2 channel in
  ch_funding (if is_true (gc_announcementVerified channel) && is_true (gc_fundingVerified channel) then Some true else None) channel.

(** The insertion that ends restoreChannel. *)
Definition insert_restored (scidHex : string) (channel : IGraphChannel) (g : NetworkGraph) : NetworkGraph :=
  let node1Hex := hex (gc_nodeId1 channel) in
  let node2Hex := hex (gc_nodeId2 channel) in
  let g := _setChannel scidHex channel node1Hex node2Hex g in
  let g := _syncUnverifiedIndex scidHex channel g in
  let g := link node1Hex (gc_nodeId1 channel) scidHex g in
  let g := link node2Hex (gc_nodeId2 channel) scidHex g in
  _flushDeferredNodeEvictions g.

Definition restoreChannel (now : Z) (row : IGraphChannel) (g : NetworkGraph) : NetworkGraph :=
  let channel := restored_channel now row in
  let scidHex := hex (gc_shortChannelId channel) in
  let isNew := negb (JsMap.has scidHex (g_channels g)) in
  if isNew && (cf_MAX_CHANNELS cf <=? map_size (g_channels g)) then
    if is_true (gc_announcementVerified channel) then
      let '(evicted, g) := _evictOne false (with_deferred (Some []) g) in
      if negb evicted then with_deferred None g else insert_restored scidHex channel g
    else emit (ChannelEvicted scidHex) g
  else insert_restored scidHex channel g.

Definition restoreNode (now : Z) (node : IGraphNode) (g : NetworkGraph) : NetworkGraph :=
  let announcement := match gn_announcement node with
                      | Some a => if gossipTimestampTooFarFuture now (nn_timestamp a) then None else Some a
                      | None => None
                      end in
  let slot := sanitizeSlot (gn_announcementVerified node) (gn_announcementVerifyDeferred node) in
  let flags := match announcement with
               | Some a => if cf_eagerVerify cf then (or_verify slot.1 (verifyNodeAnnouncementMessage a), None)
                           else (slot.1, if bool_decide (slot.1 = None) then Some true else None)
               | None => (None, None)
               end in
  let node := node_announce announcement flags.1 flags.2 node in
  let nodeHex := hex (gn_nodeId node) in
  match JsMap.get nodeHex (g_nodes g) with
  | Some existing => set_node nodeHex (node_announce announcement flags.1 flags.2 existing) g
  | None => set_node nodeHex node g
  end.

(** ** Serving gossip queries *)

Fixpoint in_range (channels : list IGraphChannel) (firstBlock endBlock : Z) : result (list buffer) :=
  match channels with
  | [] => Ok []
  | channel :: channels =>
      if negb (is_true (gc_announcementVerified channel)) && negb (is_true (gc_announcementVerifyDeferred channel))
      then in_range channels firstBlock endBlock
      else
        block ← scidBlock (gc_shortChannelId channel);
        rest ← in_range channels firstBlock endBlock;
        Ok (if (firstBlock <=? block) && (block <? endBlock) then gc_shortChannelId channel :: rest else rest)
  end.

Definition getChannelsByBlockRange (g : NetworkGraph) (firstBlock numberOfBlocks : Z) : result (list buffer) :=
  found ← in_range (JsMap.values (g_channels g)) firstBlock (firstBlock + numberOfBlocks);
  Ok (sort compareScids found).

Definition signatureless_update (u : option IChannelUpdateMessage) : bool :=
  match u with Some u => isSignatureless (cu_signature u) | None => false end.

Definition getMissingSCIDs (g : NetworkGraph) (remoteScids : list buffer) : list buffer :=
  List.filter (fun scid =>
    match JsMap.get (hex scid) (g_channels g) with
    | None => true
    | Some channel =>
        if negb (cf_eagerVerify cf) then false
        else isSignatureless (ann_signature1 channel) || signatureless_update (gc_update1 channel) ||
             signatureless_update (gc_update2 channel)
    end) remoteScids.

Section Serving.
Context (elapsed : nat -> Z).

(** [spend(check)]: nothing when the budget is used up *)
Definition spend (check : NetworkGraph -> NetworkGraph) (g : NetworkGraph) : option NetworkGraph :=
  if cf_SERVE_VERIFY_BUDGET_MS cf <=? g_serveVerifySpentMs g then None
  else
    let g := check g in
    Some (with_checks (S (g_checks g)) (with_window (g_serveVerifyWindowStart g) (g_serveVerifySpentMs g + elapsed (g_checks g)) g)).

(** A step of [_settleForServing]: the graph so far, and whether the budget held. *)
Definition settle_step (needed : bool) (check : NetworkGraph -> NetworkGraph) (g : NetworkGraph) : bool * NetworkGraph :=
  if needed then match spend check g with Some g => (true, g) | None => (false, g) end else (true, g).

Definition held_channel (scidHex : string) (channel : IGraphChannel) (g : NetworkGraph) : IGraphChannel :=
  default channel (JsMap.get scidHex (g_channels g)).

Definition check_update1 (scidHex : string) (channel : IGraphChannel) (g : NetworkGraph) : NetworkGraph :=
  let channel := held_channel scidHex channel g in
  match gc_update1 channel with
  | Some u => set_channel scidHex (ch_update1 (Some u) (Some (verifyChannelUpdateMessage u (gc_nodeId1 channel) (gc_nodeId2 channel))) None channel) g
  | None => g
  end.

Definition check_update2 (scidHex : string) (channel : IGraphChannel) (g : NetworkGraph) : NetworkGraph :=
  let channel := held_channel scidHex channel g in
  match gc_update2 channel with
  | Some u => set_channel scidHex (ch_update2 (Some u) (Some (verifyChannelUpdateMessage u (gc_nodeId1 channel) (gc_nodeId2 channel))) None channel) g
  | None => g
  end.

Definition check_node (nodeHex : string) (g : NetworkGraph) : NetworkGraph :=
  match JsMap.get nodeHex (g_nodes g) with
  | Some node =>
      match gn_announcement node with
      | Some a => set_node nodeHex (node_announce (Some a) (Some (verifyNodeAnnouncementMessage a)) None node) g
      | None => g
      end
  | None => g
  end.

Fixpoint settle_nodes (hexes : list string) (g : NetworkGraph) : bool * NetworkGraph :=
  match hexes with
  | [] => (true, g)
  | h :: hexes =>
      let needed := match JsMap.get h (g_nodes g) with Some node => is_true (gn_announcementVerifyDeferred node) | None => false end in
      let '(ok, g) := settle_step needed (check_node h) g in
      if negb ok then (false, g) else settle_nodes hexes g
  end.

Definition _settleForServing (scidHex : string) (channel : IGraphChannel) (nodesNeedingResolution : list string)
    (g : NetworkGraph) : bool * NetworkGraph :=
  let '(ok, g) := settle_step (is_true (gc_announcementVerifyDeferred channel))
                    (fun g => (_resolveDeferredAnnouncement scidHex channel g).2) g in
  if negb ok then (false, g)
  else if negb (is_true (gc_announcementVerified (held_channel scidHex channel g))) then (true, g)
  else
    let '(ok, g) := settle_step (bool_decide (is_Some (gc_update1 channel)) && is_true (gc_update1VerifyDeferred channel))
                      (check_update1 scidHex channel) g in
    if negb ok then (false, g)
    else
      let '(ok, g) := settle_step (bool_decide (is_Some (gc_update2 channel)) && is_true (gc_update2VerifyDeferred channel))
                        (check_update2 scidHex channel) g in
      if negb ok then (false, g) else settle_nodes nodesNeedingResolution g.

Record served := {
  sv_announcements : list IChannelAnnouncementMessage;
  sv_updates : list IChannelUpdateMessage;
  sv_nodeAnnouncements : list INodeAnnouncementMessage;
  sv_seenNodes : list string;
  sv_complete : bool
}.

Definition node_needs (g : NetworkGraph) (seen : list string) (h : string) : bool :=
  if bool_decide (h ∈ seen) then false
  else match JsMap.get h (g_nodes g) with
       | Some n => bool_decide (is_Some (gn_announcement n)) && is_true (gn_announcementVerifyDeferred n)
       | None => false
       end.

Definition serve_update (u : option IChannelUpdateMessage) (verified : option bool) : list IChannelUpdateMessage :=
  match u with Some u => if is_true verified then [u] else [] | None => [] end.

(** Collect the announcement of an endpoint, once. *)
Definition serve_node (g : NetworkGraph) (out : served) (nodeHex : string) : served :=
  if bool_decide (nodeHex ∈ sv_seenNodes out) then out
  else
    let anns := match JsMap.get nodeHex (g_nodes g) with
                | Some node => match gn_announcement node with
                               | Some a => if is_true (gn_announcementVerified node) then [a] else []
                               | None => []
                               end
                | None => []
                end in
    {| sv_announcements := sv_announcements out; sv_updates := sv_updates out;
       sv_nodeAnnouncements := sv_nodeAnnouncements out ++ anns; sv_seenNodes := sv_seenNodes out ++ [nodeHex];
       sv_complete := sv_complete out |}.

Definition serve_one (scid : buffer) (gs : NetworkGraph * served) : NetworkGraph * served :=
  let '(g, out) := gs in
  let scidHex := hex scid in
  match JsMap.get scidHex (g_channels g) with
  | None => gs
  | Some channel =>
      let endpoints := [hex (gc_nodeId1 channel); hex (gc_nodeId2 channel)] in
      let nodesNeedingResolution := List.filter (node_needs g (sv_seenNodes out)) endpoints in
      let needsResolution :=
        is_true (gc_announcementVerifyDeferred channel) ||
        bool_decide (is_Some (gc_update1 channel)) && is_true (gc_update1VerifyDeferred channel) ||
        bool_decide (is_Some (gc_update2 channel)) && is_true (gc_update2VerifyDeferred channel) ||
        (0 <? Z.of_nat (length nodesNeedingResolution)) in
      let '(ok, g) := if needsResolution then _settleForServing scidHex channel nodesNeedingResolution g else (true, g) in
      if negb ok then
        (g, {| sv_announcements := sv_announcements out; sv_updates := sv_updates out; sv_nodeAnnouncements := sv_nodeAnnouncements out;
               sv_seenNodes := sv_seenNodes out; sv_complete := false |})
      else
        let channel := held_channel scidHex channel g in
        match gc_announcement channel with
        | Some a =>
            if negb (is_true (gc_announcementVerified channel)) then (g, out)
            else
              let out := {| sv_announcements := sv_announcements out ++ [a];
                            sv_updates := sv_updates out ++ serve_update (gc_update1 channel) (gc_update1Verified channel) ++
                                          serve_update (gc_update2 channel) (gc_update2Verified channel);
                            sv_nodeAnnouncements := sv_nodeAnnouncements out; sv_seenNodes := sv_seenNodes out;
                            sv_complete := sv_complete out |} in
              (g, fold_left (serve_node g) endpoints out)
        | None => (g, out)
        end
  end.

Definition getGossipMessagesForChannels (now : Z) (scids : list buffer) (g : NetworkGraph) : NetworkGraph * served :=
  let g := if cf_SERVE_VERIFY_WINDOW_MS cf <=? now - g_serveVerifyWindowStart g then with_window now 0 g else g in
  fold_left (fun gs scid => serve_one scid gs) scids
    (g, {| sv_announcements := []; sv_updates := []; sv_nodeAnnouncements := []; sv_seenNodes := []; sv_complete := true |}).
End Serving.

(** ** Restoring from storage (gossip/graph-restore.ts) *)

(** A row that is deleted once the restore is done. *)
Inductive RowDelete := DeleteGossipChannel (scidHex : string) | DeleteGossipNode (nodeIdHex : string).

(** The storage is read page by page outside; [gr_can...] says which deletes it has. *)
Record GossipGraphRestore := {
  gr_graph : NetworkGraph;
  gr_cutoff : Z;
  gr_canDeleteChannel : bool;
  gr_canDeleteNode : bool;
  gr_staleRowDeletes : list RowDelete;
  gr_diskChannelEndpoints : list string;
  gr_staleChannels : Z;
  gr_orphanNodes : Z
}.

Definition gr_condemn (d : list RowDelete) (stale orphans : Z) (r : GossipGraphRestore) : GossipGraphRestore :=
  {| gr_graph := gr_graph r; gr_cutoff := gr_cutoff r; gr_canDeleteChannel := gr_canDeleteChannel r;
     gr_canDeleteNode := gr_canDeleteNode r; gr_staleRowDeletes := gr_staleRowDeletes r ++ d;
     gr_diskChannelEndpoints := gr_diskChannelEndpoints r; gr_staleChannels := gr_staleChannels r + stale;
     gr_orphanNodes := gr_orphanNodes r + orphans |}.

Definition gr_with (graph : NetworkGraph) (endpoints : list string) (r : GossipGraphRestore) : GossipGraphRestore :=
  {| gr_graph := graph; gr_cutoff := gr_cutoff r; gr_canDeleteChannel := gr_canDeleteChannel r;
     gr_canDeleteNode := gr_canDeleteNode r; gr_staleRowDeletes := gr_staleRowDeletes r;
     gr_diskChannelEndpoints := endpoints; gr_staleChannels := gr_staleChannels r; gr_orphanNodes := gr_orphanNodes r |}.

Definition row_timestamp (now : Z) (u : option IChannelUpdateMessage) : Z :=
  match u with
  | Some u => if gossipTimestampTooFarFuture now (cu_timestamp u) then 0 else cu_timestamp u
  | None => 0
  end.

Definition restoreChannelRow (now : Z) (channel : IGraphChannel) (r : GossipGraphRestore) : GossipGraphRestore :=
  let ts1 := row_timestamp now (gc_update1 channel) in
  let ts2 := row_timestamp now (gc_update2 channel) in
  if Z.max ts1 ts2 <? gr_cutoff r
  then gr_condemn (if gr_canDeleteChannel r then [DeleteGossipChannel (hex (gc_shortChannelId channel))] else []) 1 0 r
  else gr_with (restoreChannel now channel (gr_graph r))
         (JsSet.add (hex (gc_nodeId2 channel)) (JsSet.add (hex (gc_nodeId1 channel)) (gr_diskChannelEndpoints r))) r.

Definition restoreNodeRow (now : Z) (node : IGraphNode) (r : GossipGraphRestore) : GossipGraphRestore :=
  match getNode (gr_graph r) (gn_nodeId node) with
  | None =>
      let nodeIdHex := hex (gn_nodeId node) in
      if bool_decide (nodeIdHex ∈ gr_diskChannelEndpoints r) then r
      else gr_condemn (if gr_canDeleteNode r then [DeleteGossipNode nodeIdHex] else []) 0 1 r
  | Some _ => gr_with (restoreNode now node (gr_graph r)) (gr_diskChannelEndpoints r) r
  end.
End Graph.
