(* ===== verification/NetworkGraphInv.v ===== *)
(** * The invariant of the network graph

    What the comments of network-graph.ts promise of its maps, and that every operation
    keeps it: an edge for each channel with the keys of its endpoints, the channel sets of
    the nodes exact, the two eviction indexes exact, the channels within the ceiling, the
    flags of verified messages earned. *)

From S2P Require Import Prelude Buffer JsMap Codec GossipTypes GossipMessages GossipNode Text.
From S2P Require Import CommitmentTx Pathfinding PathfindingRun NetworkGraph.
From stdpp Require Import sets.
Local Open Scope Z_scope.

(** ** Sets and maps *)

Lemma elem_of_add k i s : i ∈ JsSet.add k s <-> i = k \/ i ∈ s.
Proof. unfold JsSet.add. case_bool_decide; set_solver. Qed.

Lemma elem_of_delete k i s : i ∈ JsSet.delete k s <-> i <> k /\ i ∈ s.
Proof.
  unfold JsSet.delete. rewrite !list_elem_of_In, filter_In. split.
  - intros [? ?]. by case_bool_decide.
  - intros [? ?]. split; [done|]. by rewrite bool_decide_eq_false_2.
Qed.

Lemma nodup_add k s : NoDup s -> NoDup (JsSet.add k s).
Proof.
  intros H. unfold JsSet.add. case_bool_decide; [done|]. apply NoDup_app. split_and!; [done| |apply NoDup_singleton]. set_solver.
Qed.

Lemma nodup_delete k s : NoDup s -> NoDup (JsSet.delete k s).
Proof.
  intros H. unfold JsSet.delete. induction H as [|x s Hx Hs IH]; [constructor|]. cbn. case_bool_decide; cbn; [done|].
  constructor; [|done]. intros Hin. apply Hx. apply (elem_of_delete k) in Hin. tauto.
Qed.

Lemma delete_notin k s : k ∉ s -> JsSet.delete k s = s.
Proof.
  induction s as [|x s IH]; [done|]. rewrite not_elem_of_cons. intros [Hn Hs]. unfold JsSet.delete. cbn. rewrite bool_decide_eq_false_2 by done.
  cbn. f_equal. by apply IH.
Qed.

Section Size.
Context {V : Type}.
Implicit Types m : jsmap V.

Lemma map_size_set_fresh k v m : get k m = None -> map_size (set k v m) = map_size m + 1.
Proof.
  unfold map_size. induction m as [|[k' v'] m IH]; intros H; [done|]. cbn in *. case_decide; [done|]. cbn. specialize (IH H). lia.
Qed.

Lemma map_size_set_held k v v' m : get k m = Some v' -> map_size (set k v m) = map_size m.
Proof.
  unfold map_size. induction m as [|[k' w] m IH]; intros H; [done|]. cbn in *. case_decide; [done|]. cbn. specialize (IH H). lia.
Qed.

Lemma del_absent k m : k ∉ map fst m -> del k m = m.
Proof.
  induction m as [|[k' v'] m IH]; [done|]. cbn. rewrite not_elem_of_cons. intros [Hn Hm]. rewrite bool_decide_eq_false_2 by done.
  cbn. f_equal. by apply IH.
Qed.

Lemma map_size_del k v m : NoDup (map fst m) -> get k m = Some v -> map_size (del k m) = map_size m - 1.
Proof.
  unfold map_size. induction m as [|[k' w] m IH]; intros Hd H; [done|]. cbn in *. apply NoDup_cons in Hd as [Hn Hd]. case_decide.
  - subst. rewrite bool_decide_eq_true_2 by done. cbn. fold (del k' m). rewrite del_absent by done. lia.
  - rewrite bool_decide_eq_false_2 by done. cbn. specialize (IH Hd H). unfold del in IH. lia.
Qed.
End Size.

#[global] Arguments JsMap.del : simpl never.
#[global] Arguments JsMap.set : simpl never.

(** ** Topology *)

(** The channels a node lists. *)
Definition chans (nodes : jsmap IGraphNode) (n : string) : list string := from_option gn_channels [] (get n nodes).

Definition ends (ch : IGraphChannel) : string * string := (hex (gc_nodeId1 ch), hex (gc_nodeId2 ch)).

Definition at_node (n : string) (ch : IGraphChannel) : Prop := n = (ends ch).1 \/ n = (ends ch).2.

#[global] Arguments chans : simpl never.
#[global] Arguments ends : simpl never.

Record topology (channels : jsmap IGraphChannel) (edges : jsmap (string * string)) (nodeKeys : jsmap string)
    (nodes : jsmap IGraphNode) : Prop := {
  tp_nodup : NoDup (map fst channels);
  tp_edges k : get k edges = ends <$> get k channels;
  tp_key k ch : get k channels = Some ch -> k = hex (gc_shortChannelId ch);
  tp_nodeKeys k v : get k nodeKeys = Some v -> v = k;
  tp_chans n k : k ∈ chans nodes n <-> exists ch, get k channels = Some ch /\ at_node n ch;
  tp_chans_nodup n : NoDup (chans nodes n);
  tp_nonempty n node : get n nodes = Some node -> gn_channels node <> [];
  tp_nodeId n node : get n nodes = Some node -> n = hex (gn_nodeId node)
}.

Definition topo_inv (g : NetworkGraph) : Prop := topology (g_channels g) (g_edges g) (g_nodeKeys g) (g_nodes g).

(** ** Indexes *)

Definition unverified_at (channels : jsmap IGraphChannel) (k : string) : Prop :=
  exists ch, get k channels = Some ch /\ is_true (gc_announcementVerified ch) = false.
Definition unfunded_at (channels : jsmap IGraphChannel) (k : string) : Prop :=
  exists ch, get k channels = Some ch /\ is_true (gc_announcementVerified ch) = true /\ is_true (gc_fundingVerified ch) = false.

Definition index_at (g : NetworkGraph) (k : string) : Prop :=
  (k ∈ g_unverified g <-> unverified_at (g_channels g) k) /\ (k ∈ g_unfunded g <-> unfunded_at (g_channels g) k).

Definition index_inv (g : NetworkGraph) : Prop := forall k, index_at g k.

Lemma unverified_held channels k ch : get k channels = Some ch -> unverified_at channels k <-> is_true (gc_announcementVerified ch) = false.
Proof. intros Hk. unfold unverified_at. split; [intros (c & E & H); congruence|eauto]. Qed.

Lemma unfunded_held channels k ch : get k channels = Some ch ->
  unfunded_at channels k <-> is_true (gc_announcementVerified ch) = true /\ is_true (gc_fundingVerified ch) = false.
Proof. intros Hk. unfold unfunded_at. split; [intros (c & E & H); naive_solver|eauto]. Qed.

(** The channel in place, the index of its key is right again; the others are untouched. *)
Lemma sync_index k ch g : get k (g_channels g) = Some ch -> (forall i, i <> k -> index_at g i) ->
  index_inv (_syncUnverifiedIndex k ch g).
Proof.
  intros Hk Ho i. unfold _syncUnverifiedIndex, index_at. destruct (decide (i = k)) as [->|Hne].
  - destruct (is_true (gc_announcementVerified ch)) eqn:Ea; cbn [negb]; [destruct (is_true (gc_fundingVerified ch)) eqn:Ef|].
    + cbn. rewrite !elem_of_delete, (unverified_held _ _ _ Hk), (unfunded_held _ _ _ Hk), Ea, Ef. intuition congruence.
    + case_bool_decide as Hin; cbn [negb with_unverified g_unfunded] in *; cbn;
        rewrite ?elem_of_delete, ?elem_of_add, (unverified_held _ _ _ Hk), (unfunded_held _ _ _ Hk), Ea, Ef; intuition congruence.
    + cbn. rewrite elem_of_delete, elem_of_add, (unverified_held _ _ _ Hk), (unfunded_held _ _ _ Hk), Ea. intuition congruence.
  - destruct (Ho i Hne) as [H1 H2].
    repeat case_match; cbn; rewrite ?elem_of_delete, ?elem_of_add; split; rewrite ?H1, ?H2; intuition congruence.
Qed.

Lemma sync_core k ch g : g_channels (_syncUnverifiedIndex k ch g) = g_channels g /\ g_edges (_syncUnverifiedIndex k ch g) = g_edges g /\
  g_nodeKeys (_syncUnverifiedIndex k ch g) = g_nodeKeys g /\ g_nodes (_syncUnverifiedIndex k ch g) = g_nodes g /\
  g_deferredNodeEvictions (_syncUnverifiedIndex k ch g) = g_deferredNodeEvictions g.
Proof. unfold _syncUnverifiedIndex. repeat case_match; done. Qed.

(** ** An object written in place *)

(** The same channel with other contents. *)
Definition same_channel (ch ch' : IGraphChannel) : Prop :=
  gc_shortChannelId ch' = gc_shortChannelId ch /\ ends ch' = ends ch.

Lemma topo_set_channel k ch ch' g : get k (g_channels g) = Some ch -> same_channel ch ch' -> topo_inv g -> topo_inv (set_channel k ch' g).
Proof.
  intros Hk [Hid He] [H1 H2 H3 H4 H5 H6 H7 H8]. constructor; cbn; try done.
  - by apply keys_set.
  - intros i. rewrite get_set, H2. case_decide; [|done]. subst. by rewrite Hk; cbn; rewrite He.
  - intros i c. rewrite get_set. case_decide; [|apply H3]. intros [= <-]. subst. rewrite Hid. by apply H3.
  - intros n i. rewrite H5, get_set. unfold at_node. case_decide; [|done]. subst. rewrite Hk.
    split; intros (c & [= <-] & Ha); eexists; (split; [done|]); by rewrite He in *.
Qed.

(** The same node with another announcement. *)
Lemma topo_set_node n node node' g : get n (g_nodes g) = Some node -> gn_channels node' = gn_channels node -> gn_nodeId node' = gn_nodeId node ->
  topo_inv g -> topo_inv (set_node n node' g).
Proof.
  intros Hn Hc Hid [H1 H2 H3 H4 H5 H6 H7 H8].
  assert (forall i, chans (set n node' (g_nodes g)) i = chans (g_nodes g) i) as E.
  { intros i. unfold chans. rewrite get_set. case_decide; [|done]. subst. by rewrite Hn; cbn. }
  constructor; cbn; try done.
  - intros i k. by rewrite E.
  - intros i. by rewrite E.
  - intros i c. rewrite get_set. case_decide; [|apply H7]. intros [= <-]. rewrite Hc. by eapply H7.
  - intros i c. rewrite get_set. case_decide; [|apply H8]. intros [= <-]. subst. rewrite Hid. by apply H8.
Qed.

(** ** Linking and unlinking *)

Lemma link_chans n id k g i : chans (g_nodes (link n id k g)) i = if decide (i = n) then JsSet.add k (chans (g_nodes g) n) else chans (g_nodes g) i.
Proof. unfold link, chans, set_node. cbn. rewrite get_set. case_decide; [|done]. subst. cbn. by destruct (get n (g_nodes g)). Qed.

Lemma link_nodes n id k g i node : get i (g_nodes (link n id k g)) = Some node ->
  (i = n /\ k ∈ gn_channels node /\ gn_nodeId node = from_option gn_nodeId id (get n (g_nodes g))) \/ get i (g_nodes g) = Some node.
Proof.
  unfold link, set_node. cbn. rewrite get_set. case_decide; [|auto]. intros [= <-]. left. split; [done|]. cbn. split.
  - apply elem_of_add. by left.
  - by destruct (get n (g_nodes g)).
Qed.

Lemma unlink_chans n k p i :
  chans (g_nodes (unlink n k p).1) i = if decide (i = n) then JsSet.delete k (chans (g_nodes p.1) n) else chans (g_nodes p.1) i.
Proof.
  destruct p as [g l]. unfold unlink, chans, set_node. cbn. destruct (get n (g_nodes g)) as [node|] eqn:Hn.
  - destruct (Nat.eqb_spec (length (JsSet.delete k (gn_channels node))) 0) as [E%nil_length_inv|E]; cbn.
    + rewrite get_del. case_decide; [|done]. subst. cbn. by rewrite E.
    + rewrite get_set. by case_decide.
  - cbn. case_decide; [|done]. subst. by rewrite Hn.
Qed.

Lemma unlink_nodes n k p i node : get i (g_nodes (unlink n k p).1) = Some node ->
  exists old, get i (g_nodes p.1) = Some old /\ gn_nodeId node = gn_nodeId old /\ (gn_channels old <> [] -> gn_channels node <> []).
Proof.
  destruct p as [g l]. unfold unlink, set_node. destruct (get n (g_nodes g)) as [old|] eqn:Hn; [|cbn; eauto].
  destruct (Nat.eqb_spec (length (JsSet.delete k (gn_channels old))) 0) as [E|E]; cbn.
  - rewrite get_del. case_decide; [done|]. eauto.
  - rewrite get_set. case_decide; [|eauto]. intros [= <-]. subst. exists old. split_and!; [done|done|]. cbn. intros _ E'. by rewrite E' in E.
Qed.

(** What taking a channel off its endpoints leaves alone. *)
Definition kept (g g' : NetworkGraph) : Prop :=
  g_channels g' = g_channels g /\ g_edges g' = g_edges g /\ g_unverified g' = g_unverified g /\ g_unfunded g' = g_unfunded g /\
  g_deferredNodeEvictions g' = g_deferredNodeEvictions g /\ (forall i v, get i (g_nodeKeys g') = Some v -> get i (g_nodeKeys g) = Some v).

#[global] Instance kept_trans : Transitive kept.
Proof. intros a b c (?&?&?&?&?&?) (?&?&?&?&?&?). unfold kept. split_and!; [congruence..|auto]. Qed.

Lemma unlink_kept n k p : kept p.1 (unlink n k p).1.
Proof.
  destruct p as [g l]. unfold kept.
  unfold unlink. destruct (get n (g_nodes g)) as [node|]; [destruct (Nat.eqb _ _)|]; cbn; (split_and!; [done..|]); [|done|done].
  intros i v. rewrite get_del. by case_decide.
Qed.

(** What reporting evicted nodes leaves alone. *)
Definition same_data (g g' : NetworkGraph) : Prop :=
  g_channels g' = g_channels g /\ g_edges g' = g_edges g /\ g_nodeKeys g' = g_nodeKeys g /\ g_nodes g' = g_nodes g /\
  g_unverified g' = g_unverified g /\ g_unfunded g' = g_unfunded g.

Lemma same_data_topo g g' : same_data g g' -> topo_inv g -> topo_inv g'.
Proof. intros (E1 & E2 & E3 & E4 & _) H. unfold topo_inv. by rewrite E1, E2, E3, E4. Qed.

Lemma same_data_index g g' : same_data g g' -> index_inv g -> index_inv g'.
Proof. intros (E1 & _ & _ & _ & E5 & E6) H k. unfold index_at. rewrite E1, E5, E6. apply H. Qed.

#[global] Instance same_data_po : PreOrder same_data.
Proof. split; [by repeat split|]. intros a b c (?&?&?&?&?&?) (?&?&?&?&?&?). repeat split; congruence. Qed.

Lemma report_data l : forall g, same_data g (fold_left report_evicted l g).
Proof.
  induction l as [|x l IH]; intros g; [done|]. cbn. etrans; [|apply IH]. unfold report_evicted. case_match; done.
Qed.

Lemma flush_data g : same_data g (_flushDeferredNodeEvictions g) /\ g_deferredNodeEvictions (_flushDeferredNodeEvictions g) = None.
Proof.
  unfold _flushDeferredNodeEvictions. destruct (g_deferredNodeEvictions g) as [l|]; [|done].
  assert (forall l g, g_deferredNodeEvictions g = None -> let g' := fold_left (fun g h => if has h (g_nodes g) then g else emit (NodeEvicted h) g) l g in
    same_data g g' /\ g_deferredNodeEvictions g' = None) as Hf.
  { clear. induction l as [|x l IH]; intros g Hg; [done|]. cbn. case_match; [by apply IH|].
    destruct (IH (emit (NodeEvicted x) g) Hg) as [H1 H2]. split; [|done]. etrans; [|exact H1]. done. }
  destruct (Hf l (with_deferred None g) eq_refl) as [H1 H2]. split; [|done]. etrans; [|exact H1]. done.
Qed.

(** ** Removing a channel *)

Lemma removed_chans n1 n2 k g i : (forall n, k ∈ chans (g_nodes g) n -> n = n1 \/ n = n2) ->
  let nodes' := g_nodes (unlink n2 k (unlink n1 k (g, []))).1 in
  (forall j, j ∈ chans nodes' i <-> j <> k /\ j ∈ chans (g_nodes g) i) /\ (NoDup (chans (g_nodes g) i) -> NoDup (chans nodes' i)).
Proof.
  intros Hk nodes'. unfold nodes'. rewrite unlink_chans, !unlink_chans. cbn [fst]. split.
  - intros j. destruct (decide (i = n2)) as [->|H2]; [|destruct (decide (i = n1)) as [->|Hn1]]; rewrite ?elem_of_delete.
    + case_decide; subst; rewrite ?elem_of_delete; tauto.
    + done.
    + split; [|tauto]. intros Hj. split; [|done]. intros ->. destruct (Hk _ Hj); done.
  - intros Hd. destruct (decide (i = n2)) as [->|H2]; [apply nodup_delete|]; case_decide; subst; auto using nodup_delete.
Qed.

(** The channel out of the maps and of the sets of its endpoints. *)
Lemma topo_remove k ch channels edges nodeKeys g g' : get k channels = Some ch ->
  topology channels edges nodeKeys (g_nodes g) ->
  g' = (unlink (ends ch).2 k (unlink (ends ch).1 k (g, []))).1 -> (forall i v, get i (g_nodeKeys g') = Some v -> get i nodeKeys = Some v) ->
  topology (del k channels) (del k edges) (g_nodeKeys g') (g_nodes g').
Proof.
  intros Hk [H1 H2 H3 H4 H5 H6 H7 H8] -> Hnk.
  assert (forall n, k ∈ chans (g_nodes g) n -> n = (ends ch).1 \/ n = (ends ch).2) as Hn.
  { intros n (c & Hc & Ha)%H5. rewrite Hk in Hc. injection Hc as <-. exact Ha. }
  constructor.
  - by apply keys_del.
  - intros i. rewrite !get_del, H2. by case_decide.
  - intros i c. rewrite get_del. case_decide; [done|apply H3].
  - intros i v Hv. by apply H4, Hnk.
  - intros n i. destruct (removed_chans _ _ k g n Hn) as [-> _]. rewrite H5. split.
    + intros (Hi & c & Hc & Ha). exists c. by rewrite get_del, decide_False.
    + intros (c & Hc & Ha). rewrite get_del in Hc. case_decide; [done|]. eauto.
  - intros n. by apply removed_chans.
  - intros n node (old & Ho & _ & Hc)%unlink_nodes. apply unlink_nodes in Ho as (o2 & Ho2 & _ & Hc2). eapply Hc, Hc2, H7, Ho2.
  - intros n node (old & Ho & -> & _)%unlink_nodes. apply unlink_nodes in Ho as (o2 & Ho2 & -> & _). by apply H8.
Qed.

Lemma report_deferred l : forall g, g_deferredNodeEvictions g = None -> g_deferredNodeEvictions (fold_left report_evicted l g) = None.
Proof. induction l as [|x l IH]; intros g Hg; [done|]. cbn. apply IH. unfold report_evicted. by rewrite Hg. Qed.

Lemma remove_spec scid ch g : let k := hex scid in let g' := (removeChannel scid g).2 in
  get k (g_channels g) = Some ch -> topo_inv g -> index_inv g ->
  topo_inv g' /\ index_inv g' /\ g_channels g' = del k (g_channels g) /\
  (g_deferredNodeEvictions g = None -> g_deferredNodeEvictions g' = None).
Proof.
  intros k g' Hk Ht Hi. unfold g', removeChannel. fold k. rewrite Hk. cbv zeta.
  set (g0 := with_unfunded _ _). change (hex (gc_nodeId1 ch)) with (ends ch).1. change (hex (gc_nodeId2 ch)) with (ends ch).2.
  destruct (unlink (ends ch).2 k (unlink (ends ch).1 k (g0, []))) as [g2 l2] eqn:E2. cbn [snd].
  assert (kept g0 g2) as (K1 & K2 & K3 & K4 & K5 & K6).
  { change g2 with (g2, l2).1. rewrite <- E2. etrans; [exact (unlink_kept (ends ch).1 k (g0, []))|apply unlink_kept]. }
  pose proof (report_data l2 g2) as Hs. split_and!.
  - eapply same_data_topo; [exact Hs|]. unfold topo_inv. rewrite K1, K2. eapply (topo_remove k ch _ _ (g_nodeKeys g) g0 g2); [done|exact Ht| |exact K6].
    by rewrite E2.
  - eapply same_data_index; [exact Hs|]. intros i. destruct (Hi i) as [Hu Hf]. unfold index_at, unverified_at, unfunded_at in *.
    rewrite K1, K3, K4. cbn. rewrite !elem_of_delete, get_del, Hu, Hf. case_decide; [|tauto]. subst. naive_solver.
  - destruct Hs as (-> & _). by rewrite K1.
  - intros Hd. apply report_deferred. rewrite K5. done.
Qed.

(** ** Inserting a channel *)

(** The tail that _admitChannel and restoreChannel share. *)
Definition insertion (k : string) (ch : IGraphChannel) (g : NetworkGraph) : NetworkGraph :=
  let g := _setChannel k ch (ends ch).1 (ends ch).2 g in
  let g := _syncUnverifiedIndex k ch g in
  let g := link (ends ch).1 (gc_nodeId1 ch) k g in
  let g := link (ends ch).2 (gc_nodeId2 ch) k g in
  _flushDeferredNodeEvictions g.

(** The key is new, or it is held with the same endpoints. *)
Definition insertable (k : string) (ch : IGraphChannel) (g : NetworkGraph) : Prop :=
  k = hex (gc_shortChannelId ch) /\ forall old, get k (g_channels g) = Some old -> ends old = ends ch.

Lemma nodeKey_ok n g : (forall k v, get k (g_nodeKeys g) = Some v -> v = k) ->
  (_nodeKey n g).1 = n /\ (forall k v, get k (g_nodeKeys (_nodeKey n g).2) = Some v -> v = k) /\
  g_channels (_nodeKey n g).2 = g_channels g /\ g_edges (_nodeKey n g).2 = g_edges g /\ g_nodes (_nodeKey n g).2 = g_nodes g /\
  g_unverified (_nodeKey n g).2 = g_unverified g /\ g_unfunded (_nodeKey n g).2 = g_unfunded g.
Proof.
  intros H. unfold _nodeKey. destruct (get n (g_nodeKeys g)) as [key|] eqn:E; cbn; split_and!; try done; [by apply H|].
  intros k v. rewrite get_set. case_decide; [congruence|apply H].
Qed.

Lemma setChannel_ok k ch n1 n2 g : (forall k v, get k (g_nodeKeys g) = Some v -> v = k) ->
  let g' := _setChannel k ch n1 n2 g in
  g_channels g' = set k ch (g_channels g) /\ g_edges g' = set k (n1, n2) (g_edges g) /\ g_nodes g' = g_nodes g /\
  g_unverified g' = g_unverified g /\ g_unfunded g' = g_unfunded g /\ (forall k v, get k (g_nodeKeys g') = Some v -> v = k).
Proof.
  intros H. unfold _setChannel. destruct (_nodeKey n1 (set_channel k ch g)) as [k1 g1] eqn:E1.
  destruct (nodeKey_ok n1 (set_channel k ch g) H) as (A1 & A2 & A3 & A4 & A5 & A6 & A7). rewrite E1 in *. cbn [fst snd] in *.
  destruct (_nodeKey n2 g1) as [k2 g2] eqn:E2.
  destruct (nodeKey_ok n2 g1 A2) as (B1 & B2 & B3 & B4 & B5 & B6 & B7). rewrite E2 in *. cbn [fst snd] in *. cbn.
  subst k1 k2. rewrite B3, A3, B4, A4, B5, A5, B6, A6, B7, A7. done.
Qed.

Lemma link_rest n id k g : g_channels (link n id k g) = g_channels g /\ g_edges (link n id k g) = g_edges g /\
  g_nodeKeys (link n id k g) = g_nodeKeys g /\ g_unverified (link n id k g) = g_unverified g /\ g_unfunded (link n id k g) = g_unfunded g.
Proof. done. Qed.

Lemma linked_chans n1 id1 n2 id2 k g i : let nodes' := g_nodes (link n2 id2 k (link n1 id1 k g)) in
  (forall j, j ∈ chans nodes' i <-> j ∈ chans (g_nodes g) i \/ j = k /\ (i = n1 \/ i = n2)) /\
  (NoDup (chans (g_nodes g) i) -> NoDup (chans nodes' i)).
Proof.
  cbv zeta. rewrite !link_chans. split.
  - intros j. destruct (decide (i = n2)) as [->|]; [|destruct (decide (i = n1)) as [->|]]; rewrite ?elem_of_add.
    + case_decide; subst; rewrite ?elem_of_add; tauto.
    + tauto.
    + tauto.
  - intros Hd. destruct (decide (i = n2)) as [->|]; [apply nodup_add|]; case_decide; subst; auto using nodup_add.
Qed.

Lemma topo_insert k ch channels edges g keys nodes' :
  topology channels edges (g_nodeKeys g) (g_nodes g) -> k = hex (gc_shortChannelId ch) ->
  (forall old, get k channels = Some old -> ends old = ends ch) -> (forall i v, get i keys = Some v -> v = i) ->
  nodes' = g_nodes (link (ends ch).2 (gc_nodeId2 ch) k (link (ends ch).1 (gc_nodeId1 ch) k g)) ->
  topology (set k ch channels) (set k (ends ch) edges) keys nodes'.
Proof.
  intros [H1 H2 H3 H4 H5 H6 H7 H8] Hkey Hold Hkeys ->. constructor.
  - by apply keys_set.
  - intros i. rewrite !get_set, H2. by case_decide.
  - intros i c. rewrite get_set. case_decide; [congruence|apply H3].
  - exact Hkeys.
  - intros n i. destruct (linked_chans (ends ch).1 (gc_nodeId1 ch) (ends ch).2 (gc_nodeId2 ch) k g n) as [-> _]. rewrite H5, get_set.
    case_decide as Hik; [subst i|split; [intros [?|[??]]; done|eauto]]. unfold at_node. split.
    + intros [(c & Hc & Ha)|[_ Ha]]; exists ch; (split; [done|]); [|done]. by rewrite <- (Hold c Hc).
    + intros (c & [= <-] & Ha). by right.
  - intros n. by apply linked_chans.
  - intros n node [(_ & Hin & _)|Hg]%link_nodes; [by intros E; rewrite E in Hin; apply not_elem_of_nil in Hin|].
    apply link_nodes in Hg as [(_ & Hin & _)|Hg]; [by intros E; rewrite E in Hin; apply not_elem_of_nil in Hin|by eapply H7].
  - intros n node Hn. assert (forall n id i nd g, get i (g_nodes (link n id k g)) = Some nd -> n = hex id ->
      (forall j m, get j (g_nodes g) = Some m -> j = hex (gn_nodeId m)) -> i = hex (gn_nodeId nd)) as Hl.
    { clear. intros n id i nd g [(-> & _ & E)|Hg]%link_nodes Hid Hg'; [|by apply Hg']. rewrite E.
      destruct (get n (g_nodes g)) as [m|] eqn:Em; cbn; [by apply Hg'|done]. }
    eapply Hl; [exact Hn|done|]. intros j m Hj. eapply Hl; [exact Hj|done|exact H8].
Qed.

Lemma insert_spec k ch g : insertable k ch g -> topo_inv g -> index_inv g ->
  let g' := insertion k ch g in
  topo_inv g' /\ index_inv g' /\ g_channels g' = set k ch (g_channels g) /\ g_deferredNodeEvictions g' = None.
Proof.
  intros [Hkey Hold] Ht Hi g'. unfold g', insertion. cbv zeta.
  destruct (setChannel_ok k ch (ends ch).1 (ends ch).2 g (tp_nodeKeys _ _ _ _ Ht)) as (S1 & S2 & S3 & S4 & S5 & S6).
  set (g1 := _setChannel _ _ _ _ g) in *. destruct (sync_core k ch g1) as (C1 & C2 & C3 & C4 & _). set (g2 := _syncUnverifiedIndex k ch g1) in *.
  set (g3 := link _ _ k (link _ _ k g2)). destruct (flush_data g3) as [Hs Hf].
  assert (index_inv g2) as Hg2.
  { apply sync_index; [by rewrite S1, get_set, decide_True|]. intros i Hne. destruct (Hi i) as [Hu Hn].
    unfold index_at, unverified_at, unfunded_at in *. by rewrite S1, S4, S5, get_set, decide_False. }
  split_and!.
  - eapply same_data_topo; [exact Hs|]. unfold topo_inv. change (g_channels g3) with (g_channels g2). change (g_edges g3) with (g_edges g2).
    change (g_nodeKeys g3) with (g_nodeKeys g2). rewrite C1, C2, C3, S1, S2.
    replace ((ends ch).1, (ends ch).2) with (ends ch) by (by destruct (ends ch)).
    eapply (topo_insert k ch _ _ (with_nodeKeys (fun _ => g_nodeKeys g) g2)); [|done|exact Hold|exact S6|done]. cbn. rewrite C4, S3. exact Ht.
  - eapply same_data_index; [exact Hs|]. exact Hg2.
  - destruct Hs as (-> & _). change (g_channels g3) with (g_channels g2). by rewrite C1, S1.
  - done.
Qed.

(** ** Provenance *)

Section Invariant.
Context (sha256 : buffer -> buffer) (verify : buffer -> buffer -> buffer -> bool) (cf : GraphConfig).

Local Abbreviation verifyChannelAnnouncementMessage := (verifyChannelAnnouncementMessage sha256 verify).
Local Abbreviation verifyChannelUpdateMessage := (verifyChannelUpdateMessage sha256 verify).
Local Abbreviation verifyNodeAnnouncementMessage := (verifyNodeAnnouncementMessage sha256 verify).

Definition update_earned (ch : IGraphChannel) (u : option IChannelUpdateMessage) (verified : option bool) : Prop :=
  verified = Some true -> exists m, u = Some m /\ verifyChannelUpdateMessage m (gc_nodeId1 ch) (gc_nodeId2 ch) = true.

(** A flag that says verified was earned by the signatures, and the endpoints are those announced. *)
Record channel_earned (ch : IGraphChannel) : Prop := {
  ce_announcement : gc_announcementVerified ch = Some true ->
    exists a, gc_announcement ch = Some a /\ verifyChannelAnnouncementMessage a = true;
  ce_update1 : update_earned ch (gc_update1 ch) (gc_update1Verified ch);
  ce_update2 : update_earned ch (gc_update2 ch) (gc_update2Verified ch);
  ce_ids a : gc_announcement ch = Some a -> ca_nodeId1 a = gc_nodeId1 ch /\ ca_nodeId2 a = gc_nodeId2 ch
}.

Definition node_earned (node : IGraphNode) : Prop :=
  gn_announcementVerified node = Some true -> exists a, gn_announcement node = Some a /\ verifyNodeAnnouncementMessage a = true.

Record graph_inv (g : NetworkGraph) : Prop := {
  gi_topo : topo_inv g;
  gi_index : index_inv g;
  gi_size : map_size (g_channels g) <= cf_MAX_CHANNELS cf;
  gi_deferred : g_deferredNodeEvictions g = None;
  gi_channels k ch : get k (g_channels g) = Some ch -> channel_earned ch;
  gi_nodes n node : get n (g_nodes g) = Some node -> node_earned node
}.

(** Objects written in place, and bookkeeping. *)
Inductive tweak : NetworkGraph -> NetworkGraph -> Prop :=
| tweak_channel k ch ch' g : get k (g_channels g) = Some ch -> same_channel ch ch' ->
    gc_announcementVerified ch' = gc_announcementVerified ch -> gc_fundingVerified ch' = gc_fundingVerified ch ->
    (channel_earned ch -> channel_earned ch') -> tweak g (set_channel k ch' g)
| tweak_settle k ch ch' g : get k (g_channels g) = Some ch -> same_channel ch ch' -> (channel_earned ch -> channel_earned ch') ->
    tweak g (_syncUnverifiedIndex k ch' (set_channel k ch' g))
| tweak_node n node node' g : get n (g_nodes g) = Some node -> gn_channels node' = gn_channels node -> gn_nodeId node' = gn_nodeId node ->
    (node_earned node -> node_earned node') -> tweak g (set_node n node' g)
| tweak_book g g' : same_data g g' -> g_deferredNodeEvictions g' = g_deferredNodeEvictions g -> tweak g g'
| tweak_trans g1 g2 g3 : tweak g1 g2 -> tweak g2 g3 -> tweak g1 g3.

Lemma tweak_refl g : tweak g g.
Proof. by apply tweak_book. Qed.

Lemma tweak_inv g g' : tweak g g' -> graph_inv g -> graph_inv g'.
Proof.
  induction 1 as [k ch ch' g Hk Hs Ha Hf He|k ch ch' g Hk Hs He|n node node' g Hn Hc Hid He|g g' Hs Hd|g1 g2 g3 _ IH1 _ IH2]; [| | | |auto].
  - intros [H1 H2 H3 H4 H5 H6]. constructor; cbn; try done.
    + by apply (topo_set_channel k ch).
    + intros i. destruct (H2 i) as [Hu Hv]. unfold index_at, unverified_at, unfunded_at in *. cbn. rewrite Hu, Hv, get_set.
      case_decide; [|done]. subst. rewrite Hk. split; split; intros (c & [= <-] & Hx); eexists; (split; [done|]); by rewrite ?Ha, ?Hf in *.
    + by erewrite map_size_set_held.
    + intros i c. rewrite get_set. case_decide; [|apply H5]. intros [= <-]. eapply He, H5, Hk.
  - intros [H1 H2 H3 H4 H5 H6]. destruct (sync_core k ch' (set_channel k ch' g)) as (C1 & C2 & C3 & C4 & C5).
    constructor.
    + unfold topo_inv. rewrite C1, C2, C3, C4. by apply (topo_set_channel k ch).
    + apply sync_index; [cbn; by rewrite get_set, decide_True|]. intros i Hne. destruct (H2 i) as [Hu Hv].
      unfold index_at, unverified_at, unfunded_at in *. cbn. by rewrite get_set, decide_False.
    + rewrite C1. cbn. by erewrite map_size_set_held.
    + by rewrite C5.
    + intros i c. rewrite C1. cbn. rewrite get_set. case_decide; [|apply H5]. intros [= <-]. eapply He, H5, Hk.
    + intros i c. rewrite C4. apply H6.
  - intros [H1 H2 H3 H4 H5 H6]. constructor; cbn; try done.
    + by apply (topo_set_node n node).
    + intros i c. rewrite get_set. case_decide; [|apply H6]. intros [= <-]. eapply He, H6, Hn.
  - intros [H1 H2 H3 H4 H5 H6]. pose proof Hs as (E1 & E2 & E3 & E4 & E5 & E6). constructor.
    + by eapply same_data_topo.
    + by eapply same_data_index.
    + by rewrite E1.
    + by rewrite Hd.
    + intros k ch. rewrite E1. apply H5.
    + intros n node. rewrite E4. apply H6.
Qed.
End Invariant.
