(* ===== verification/NetworkGraphRun.v ===== *)
(** * Runs of the network graph: every operation keeps the invariant

    The operations that change the graph as steps, the states they reach, and what holds
    in them; the graph as what route finding needs of it; what gossip queries are served. *)

From S2P Require Import Prelude Buffer JsMap Codec GossipTypes GossipMessages GossipNode Text.
From S2P Require Import CommitmentTx Pathfinding PathfindingRun NetworkGraph NetworkGraphInv.
From stdpp Require Import sets.
Local Open Scope Z_scope.

Section Run.
Context (sha256 : buffer -> buffer) (verify : buffer -> buffer -> buffer -> bool) (cf : GraphConfig).

Local Abbreviation verifyChannelAnnouncementMessage := (verifyChannelAnnouncementMessage sha256 verify).
Local Abbreviation verifyChannelUpdateMessage := (verifyChannelUpdateMessage sha256 verify).
Local Abbreviation verifyNodeAnnouncementMessage := (verifyNodeAnnouncementMessage sha256 verify).
Local Abbreviation channel_earned := (channel_earned sha256 verify).
Local Abbreviation node_earned := (node_earned sha256 verify).
Local Abbreviation graph_inv := (graph_inv sha256 verify cf).
Local Abbreviation tweak := (tweak sha256 verify).

(** ** Without the ceiling *)

Record core_inv (g : NetworkGraph) : Prop := {
  ci_topo : topo_inv g;
  ci_index : index_inv g;
  ci_channels k ch : get k (g_channels g) = Some ch -> channel_earned ch;
  ci_nodes n node : get n (g_nodes g) = Some node -> node_earned node
}.

Lemma inv_core g : graph_inv g -> core_inv g.
Proof. by intros []. Qed.

Lemma core_data g g' : same_data g g' -> core_inv g -> core_inv g'.
Proof.
  intros Hs [H1 H2 H3 H4]. constructor; [by eapply same_data_topo|by eapply same_data_index| |]; destruct Hs as (E1 & _ & _ & E4 & _).
  - intros k ch. rewrite E1. apply H3.
  - intros n node. rewrite E4. apply H4.
Qed.

(** A node keeps its announcement when channels are linked to it or taken from it. *)
Lemma earned_unlink n k p : (forall i node, get i (g_nodes p.1) = Some node -> node_earned node) ->
  forall i node, get i (g_nodes (unlink n k p).1) = Some node -> node_earned node.
Proof.
  destruct p as [g l]. intros H i node. unfold unlink, set_node. destruct (get n (g_nodes g)) as [old|] eqn:Hn; [|apply H].
  destruct (Nat.eqb _ _); cbn; [rewrite get_del|rewrite get_set]; case_decide; try done; try apply H.
  intros [= <-]. exact (H _ _ Hn).
Qed.

Lemma earned_link n id k g : (forall i node, get i (g_nodes g) = Some node -> node_earned node) ->
  forall i node, get i (g_nodes (link n id k g)) = Some node -> node_earned node.
Proof.
  intros H i node. unfold link, set_node. cbn. rewrite get_set. case_decide; [|apply H]. intros [= <-].
  destruct (get n (g_nodes g)) as [old|] eqn:Hn; [exact (H _ _ Hn)|]. intros E. done.
Qed.

Lemma removed_nodes scid g i node : core_inv g -> get i (g_nodes (removeChannel scid g).2) = Some node -> node_earned node.
Proof.
  intros Hc. unfold removeChannel. destruct (get (hex scid) (g_channels g)) as [ch|]; [|apply ci_nodes; done]. cbv zeta.
  set (g0 := with_unfunded _ _). destruct (unlink _ _ _) as [g2 l2] eqn:E. cbn [snd].
  destruct (report_data l2 g2) as (_ & _ & _ & -> & _). change g2 with (g2, l2).1. rewrite <- E.
  revert i node. apply earned_unlink, earned_unlink. cbn. apply ci_nodes, Hc.
Qed.

Lemma core_remove scid ch g : core_inv g -> get (hex scid) (g_channels g) = Some ch ->
  core_inv (removeChannel scid g).2 /\ g_channels (removeChannel scid g).2 = del (hex scid) (g_channels g) /\
  (g_deferredNodeEvictions g = None -> g_deferredNodeEvictions (removeChannel scid g).2 = None).
Proof.
  intros Hc Hk. destruct (remove_spec scid ch g Hk (ci_topo g Hc) (ci_index g Hc)) as (H1 & H2 & H3 & H4). split; [|done].
  constructor; [done|done| |].
  - intros k c. rewrite H3, get_del. case_decide; [done|]. by apply ci_channels.
  - intros n node. by apply removed_nodes.
Qed.

Lemma core_insert k ch g : core_inv g -> insertable k ch g -> channel_earned ch ->
  core_inv (insertion k ch g) /\ g_channels (insertion k ch g) = set k ch (g_channels g) /\ g_deferredNodeEvictions (insertion k ch g) = None.
Proof.
  intros Hc Hi He. destruct (insert_spec k ch g Hi (ci_topo g Hc) (ci_index g Hc)) as (H1 & H2 & H3 & H4). split; [|done].
  constructor; [done|done| |].
  - intros i c. rewrite H3, get_set. case_decide; [by intros [= <-]|by apply ci_channels].
  - unfold insertion. cbv zeta.
    destruct (setChannel_ok k ch (ends ch).1 (ends ch).2 g (tp_nodeKeys _ _ _ _ (ci_topo g Hc))) as (_ & _ & S3 & _).
    set (g1 := _setChannel _ _ _ _ g) in *. destruct (sync_core k ch g1) as (_ & _ & _ & C4 & _).
    set (g3 := link _ _ k (link _ _ k _)). destruct (flush_data g3) as [(_ & _ & _ & -> & _) _]. unfold g3.
    do 2 apply earned_link. rewrite C4, S3. by apply ci_nodes.
Qed.

(** ** Eviction *)

(** A channel that may be evicted: its funding is not proven. *)
Definition evictable (ch : IGraphChannel) : Prop :=
  is_true (gc_announcementVerified ch) = false \/ is_true (gc_fundingVerified ch) = false.

Lemma evict_spec b g : core_inv g ->
  match _evictOne b g with
  | (false, g') => g' = g /\ g_unverified g = [] /\ (b = true -> g_unfunded g = [])
  | (true, g') => exists v ch, get v (g_channels g) = Some ch /\ evictable ch /\ core_inv g' /\ g_channels g' = del v (g_channels g)
  end.
Proof.
  intros Hc. unfold _evictOne.
  assert (forall v, (v ∈ g_unverified g \/ v ∈ g_unfunded g) -> exists ch, get v (g_channels g) = Some ch /\ evictable ch) as Hv.
  { intros v. destruct (ci_index g Hc v) as [-> ->]. unfold evictable. intros [(ch & ? & ?)|(ch & ? & ? & ?)]; eauto. }
  assert (forall v, (v ∈ g_unverified g \/ v ∈ g_unfunded g) -> let g' := emit (ChannelEvicted v)
      match get v (g_channels g) with
      | Some channel => (removeChannel (gc_shortChannelId channel) g).2
      | None => with_unfunded (JsSet.delete v) (with_unverified (JsSet.delete v) g)
      end in
    exists u ch, get u (g_channels g) = Some ch /\ evictable ch /\ core_inv g' /\ g_channels g' = del u (g_channels g)) as Hone.
  { intros v Hin. destruct (Hv v Hin) as (ch & Hk & He). cbv zeta. rewrite Hk. exists v, ch.
    pose proof (tp_key _ _ _ _ (ci_topo g Hc) _ _ Hk) as E. rewrite E in Hk.
    destruct (core_remove _ _ _ Hc Hk) as (H1 & H2 & _). rewrite <- E in H2. rewrite <- E in Hk. split_and!; [done|done| |exact H2].
    eapply core_data; [|exact H1]. done. }
  destruct (g_unverified g) as [|v l] eqn:Eu; [|apply Hone; left; by apply elem_of_cons; left].
  destruct b; cbn; [|done]. destruct (g_unfunded g) as [|v l] eqn:Ef; cbn; [done|]. apply Hone. right. by apply elem_of_cons; left.
Qed.

(** ** Admission *)

Lemma inserted k ch g : core_inv g -> insertable k ch g -> channel_earned ch ->
  (get k (g_channels g) = None -> map_size (g_channels g) < cf_MAX_CHANNELS cf) -> map_size (g_channels g) <= cf_MAX_CHANNELS cf ->
  graph_inv (insertion k ch g).
Proof.
  intros Hc Hi He Hf Hs. destruct (core_insert k ch g Hc Hi He) as ([H1 H2 H3 H4] & Hch & Hd). constructor; [done|done| |done|done|done].
  rewrite Hch. destruct (get k (g_channels g)) as [old|] eqn:Hk; [by erewrite map_size_set_held|].
  rewrite map_size_set_fresh by done. specialize (Hf eq_refl). lia.
Qed.

(** The channel _admitChannel builds. *)
Definition admitted (msg : IChannelAnnouncementMessage) (verified : TGossipVerified) : IGraphChannel :=
  {| gc_shortChannelId := ca_shortChannelId msg; gc_nodeId1 := ca_nodeId1 msg; gc_nodeId2 := ca_nodeId2 msg;
     gc_features := ca_features msg; gc_announcement := Some msg; gc_update1 := None; gc_update2 := None;
     gc_announcementVerified := (provenancePair verified).1; gc_update1Verified := None; gc_update2Verified := None;
     gc_announcementVerifyDeferred := (provenancePair verified).2; gc_update1VerifyDeferred := None; gc_update2VerifyDeferred := None;
     gc_fundingVerified := None |}.

Definition keys_of (msg : IChannelAnnouncementMessage) : channel_keys :=
  {| k_scidHex := hex (ca_shortChannelId msg); k_node1Hex := hex (ca_nodeId1 msg); k_node2Hex := hex (ca_nodeId2 msg) |}.

Lemma admit_insertion msg verified g :
  _admitChannel msg verified (keys_of msg) g = insertion (hex (ca_shortChannelId msg)) (admitted msg verified) g.
Proof. done. Qed.

(** A claim of verification is true. *)
Definition honest (claim : option TGossipVerified) (holds : bool) : Prop := claim = Some Verified -> holds = true.

Lemma normalize_honest claim holds sig : honest claim holds -> normalizeVerified claim sig = Verified -> holds = true.
Proof. unfold honest, normalizeVerified. intros H. repeat case_match; try done. by intros _; apply H. Qed.

Lemma provenance_true v : (provenancePair v).1 = Some true -> v = Verified.
Proof. by destruct v. Qed.

Lemma admitted_earned msg v : (v = Verified -> verifyChannelAnnouncementMessage msg = true) -> channel_earned (admitted msg v).
Proof. intros H. constructor; cbn; [|done..|by intros a [= <-]]. intros ->%provenance_true. exists msg. auto. Qed.

Lemma fresh_insertable msg v g : get (hex (ca_shortChannelId msg)) (g_channels g) = None ->
  insertable (hex (ca_shortChannelId msg)) (admitted msg v) g.
Proof. intros H. split; [done|]. by rewrite H. Qed.

Lemma evict_insert b k ch g : graph_inv g -> get k (g_channels g) = None -> k = hex (gc_shortChannelId ch) -> channel_earned ch ->
  let '(evicted, g') := _evictOne b (with_deferred (Some []) g) in
  if evicted then graph_inv (insertion k ch g') else graph_inv (with_deferred None g').
Proof.
  intros Hg Hk Hkey He. assert (core_inv (with_deferred (Some []) g)) as Hc by (by apply (core_data g), inv_core).
  pose proof (evict_spec b _ Hc) as Hs. destruct (_evictOne b _) as [[] g'].
  - destruct Hs as (v & c & Hv & _ & Hc' & Hch). cbn in Hch, Hv. pose proof (tp_nodup _ _ _ _ (gi_topo _ _ _ g Hg)) as Hnd.
    pose proof (gi_size _ _ _ g Hg) as Hsz. apply inserted; [done| |done| |]; rewrite ?Hch, ?(map_size_del v c) by done; [|lia..].
    split; [done|]. rewrite Hch, get_del, Hk. by case_decide.
  - destruct Hs as (-> & _). apply (tweak_inv _ _ _ g); [|done]. apply tweak_book; [done|]. cbn. by rewrite (gi_deferred _ _ _ g Hg).
Qed.

Lemma add_inv msg claim g : graph_inv g -> honest claim (verifyChannelAnnouncementMessage msg) ->
  graph_inv (addChannelAnnouncement cf msg claim g).2.
Proof.
  intros Hg Hh. unfold addChannelAnnouncement. destruct (negb _); [done|]. destruct (0 <=? _); [done|]. cbv zeta.
  set (v := normalizeVerified claim _). assert (v = Verified -> verifyChannelAnnouncementMessage msg = true) as Hv by (by apply normalize_honest).
  destruct (get _ (g_channels g)) as [ex|] eqn:Hk.
  - case_match; [|done]. cbn [snd]. apply (tweak_inv _ _ _ g); [|done]. apply (tweak_settle _ _ _ ex); [done|done|].
    intros [E1 E2 E3 E4]. constructor; [|exact E2|exact E3|].
    + cbn. intros ->%provenance_true. exists msg. auto.
    + cbn. intros a [= <-]. by repeat match goal with H : _ && _ = true |- _ => apply andb_true_iff in H as [? ?%bool_decide_eq_true_1] end.
  - pose proof (admitted_earned msg v Hv) as He. pose proof (fresh_insertable msg v g Hk) as Hi.
    destruct (Z.leb_spec (cf_MAX_CHANNELS cf) (map_size (g_channels g))).
    + case_match; [done|]. pose proof (evict_insert true _ (admitted msg v) g Hg Hk eq_refl He) as Hev.
      destruct (_evictOne true _) as [[] g']; cbn [negb snd] in *; [|done]. by rewrite <- admit_insertion in Hev.
    + cbn [snd]. fold (keys_of msg). rewrite admit_insertion. apply inserted; try done; [by apply inv_core|lia].
Qed.

Lemma rapid_inv msg g : graph_inv g -> graph_inv (addRapidGossipChannel cf msg (keys_of msg) g).2.
Proof.
  intros Hg. unfold addRapidGossipChannel. repeat (case_match; [done|]). cbn [snd]. rewrite admit_insertion.
  unfold has in *. destruct (get _ (g_channels g)) eqn:Hk; [done|].
  match goal with H : (_ <=? _) = false |- _ => apply Z.leb_gt in H end.
  apply inserted; [by apply inv_core|by apply fresh_insertable|by apply admitted_earned|done|lia].
Qed.

(** ** Restored rows *)

Lemma dropped_ids now row : gc_shortChannelId (drop_poisoned now row) = gc_shortChannelId row /\ ends (drop_poisoned now row) = ends row.
Proof. unfold drop_poisoned. repeat case_match; done. Qed.

Lemma dropped_earned now row : channel_earned row -> channel_earned (drop_poisoned now row).
Proof.
  intros He. unfold drop_poisoned. cbv zeta. set (ch := match gc_update1 row with Some _ => _ | None => _ end).
  assert (channel_earned ch) as [H1 H2 H3 H4].
  { unfold ch. destruct (gc_update1 row); [|done]. destruct (poisoned now _); [|done]. destruct He as [H1 H2 H3 H4]. by constructor. }
  destruct (gc_update2 ch) eqn:E2; [destruct (poisoned now _)|]; constructor; cbn; rewrite ?E2; done.
Qed.

Lemma restored_slot ch u verified deferred : update_earned sha256 verify ch u verified ->
  update_earned sha256 verify ch u (restored_update sha256 verify cf ch u (sanitizeSlot verified deferred)).1.
Proof.
  intros He E. unfold restored_update, sanitizeSlot in E. destruct u as [m|]; [|done]. cbn [fst] in E.
  destruct (cf_eagerVerify cf); cbn [fst] in E; [|by apply He]. unfold or_verify in E.
  destruct verified; [by apply He|]. injection E as E. eauto.
Qed.

Lemma restored_earned now row : channel_earned row -> channel_earned (restored_channel sha256 verify cf now row).
Proof.
  intros [H1 H2 H3 H4]%(dropped_earned now). unfold restored_channel. cbv zeta. set (ch := drop_poisoned now row) in *.
  constructor; cbn; [|exact (restored_slot ch _ _ _ H2)|exact (restored_slot ch _ _ _ H3)|exact H4].
  unfold restored_announcement. destruct (cf_eagerVerify cf); cbn [fst]; [|exact H1]. unfold or_verify.
  destruct (gc_announcementVerified ch); [exact H1|]. intros [= E]. destruct (gc_announcement ch); [eauto|done].
Qed.

Lemma restored_ids now row : gc_shortChannelId (restored_channel sha256 verify cf now row) = gc_shortChannelId row /\
  ends (restored_channel sha256 verify cf now row) = ends row.
Proof. destruct (dropped_ids now row) as [H1 H2]. unfold restored_channel. cbv zeta. split; [exact H1|exact H2]. Qed.

Lemma insert_restored_eq k ch g : insert_restored k ch g = insertion k ch g.
Proof. reflexivity. Qed.

Lemma restore_inv now row g : graph_inv g -> channel_earned row ->
  (forall old, get (hex (gc_shortChannelId row)) (g_channels g) = Some old -> ends old = ends row) ->
  graph_inv (restoreChannel sha256 verify cf now row g).
Proof.
  intros Hg He Hold. unfold restoreChannel. cbv zeta. pose proof (restored_earned now row He) as He'.
  destruct (restored_ids now row) as [Hid Hends]. revert He' Hid Hends. generalize (restored_channel sha256 verify cf now row). intros ch He' Hid Hends.
  assert (insertable (hex (gc_shortChannelId ch)) ch g) as Hi. { split; [done|]. intros old. rewrite Hid, Hends. apply Hold. }
  rewrite ?insert_restored_eq.
  destruct (get (hex (gc_shortChannelId ch)) (g_channels g)) as [old|] eqn:Hk.
  - assert (has (hex (gc_shortChannelId ch)) (g_channels g) = true) as -> by (unfold has; by rewrite Hk). cbn [negb andb].
    apply inserted; [by apply inv_core|done|done|by rewrite Hk|apply Hg].
  - assert (has (hex (gc_shortChannelId ch)) (g_channels g) = false) as -> by (unfold has; by rewrite Hk). cbn [negb andb].
    destruct (Z.leb_spec (cf_MAX_CHANNELS cf) (map_size (g_channels g))).
    + case_match; [|by apply (tweak_inv _ _ _ g); [apply tweak_book|]].
      pose proof (evict_insert false _ ch g Hg Hk eq_refl He') as Hev. destruct (_evictOne false _) as [[] g']; cbn [negb]; rewrite ?insert_restored_eq; exact Hev.
    + apply inserted; try done; [by apply inv_core|lia].
Qed.

Lemma restore_node_inv now node old g : graph_inv g -> node_earned node -> getNode g (gn_nodeId node) = Some old ->
  graph_inv (restoreNode sha256 verify cf now node g).
Proof.
  intros Hg He Ho. unfold restoreNode. cbv zeta. cbn [gn_nodeId node_announce]. unfold getNode in Ho. rewrite Ho.
  apply (tweak_inv _ _ _ g); [|done]. apply (tweak_node _ _ _ old); [done..|]. intros _ E. cbn in *.
  destruct (gn_announcement node) as [a|] eqn:Ea; [|done]. destruct (gossipTimestampTooFarFuture _ _); [done|].
  destruct (cf_eagerVerify cf); cbn in E.
  - unfold or_verify in E. destruct (gn_announcementVerified node) as [b|] eqn:Ev.
    + rewrite E in Ev. apply He in Ev as (a' & E' & Hv). rewrite Ea in E'. clear E. rename E' into E. injection E as <-. eauto.
    + injection E as E. eauto.
  - apply He in E as (a' & E & Hv). rewrite Ea in E. injection E as <-. eauto.
Qed.

(** ** Updates, node announcements, removals *)

Lemma update_inv now msg k claim g : graph_inv g ->
  (forall ch, get k (g_channels g) = Some ch -> honest claim (verifyChannelUpdateMessage msg (gc_nodeId1 ch) (gc_nodeId2 ch))) ->
  graph_inv (_applyChannelUpdate now msg k claim g).2.
Proof.
  intros Hg Hh. unfold _applyChannelUpdate. do 2 (case_match; [done|]). destruct (get k (g_channels g)) as [ch|] eqn:Hk; [|done].
  cbv zeta. case_match; [done|]. cbn [snd]. apply (tweak_inv _ _ _ g); [|done]. specialize (Hh ch eq_refl).
  case_match; (apply (tweak_channel _ _ _ ch); [done|done|done|done|]); intros [? ? ? ?]; constructor; cbn; try done;
    intros Ev%provenance_true; exists msg; (split; [done|]); by eapply normalize_honest.
Qed.

Lemma node_ann_inv now msg claim g : graph_inv g -> honest claim (verifyNodeAnnouncementMessage msg) ->
  graph_inv (applyNodeAnnouncement now msg claim g).2.
Proof.
  intros Hg Hh. unfold applyNodeAnnouncement. case_match; [done|]. cbv zeta. destruct (get _ (g_nodes g)) as [node|] eqn:Hn; [|done].
  do 2 (case_match; [done|]). cbn [snd]. apply (tweak_inv _ _ _ g); [|done]. apply (tweak_node _ _ _ node); [done..|].
  intros _ Ev%provenance_true. exists msg. split; [done|]. by eapply normalize_honest.
Qed.

Lemma remove_inv scid g : graph_inv g -> graph_inv (removeChannel scid g).2.
Proof.
  intros Hg. destruct (get (hex scid) (g_channels g)) as [ch|] eqn:Hk; [|unfold removeChannel; by rewrite Hk].
  destruct (core_remove scid ch g (inv_core _ Hg) Hk) as ([H1 H2 H3 H4] & Hch & Hd). constructor; [done|done| |apply Hd, Hg|done|done].
  rewrite Hch, (map_size_del _ ch); [|apply (gi_topo _ _ _ g Hg)|done]. pose proof (gi_size _ _ _ g Hg). lia.
Qed.

Lemma prune_inv now age g : graph_inv g -> graph_inv (pruneStaleChannels now age g).2.
Proof.
  intros Hg. unfold pruneStaleChannels. cbn [snd]. generalize (map gc_shortChannelId (List.filter (fun channel => latest_update channel <? now - age) (values (g_channels g)))).
  intros l. revert g Hg. induction l as [|x l IH]; intros g Hg; [done|]. cbn. by apply IH, remove_inv.
Qed.

(** ** Verification on demand *)

Lemma resolve_tweak k ch g : get k (g_channels g) = Some ch -> tweak g (_resolveDeferredAnnouncement sha256 verify k ch g).2.
Proof.
  intros Hk. unfold _resolveDeferredAnnouncement. cbv zeta. set (v := match gc_announcement ch with Some _ => _ | None => _ end).
  assert (tweak g (_syncUnverifiedIndex k (ch_settle (Some v) None ch) (set_channel k (ch_settle (Some v) None ch) g))) as Ht.
  { apply (tweak_settle _ _ _ ch); [done|done|]. intros [H1 H2 H3 H4]. constructor; [|exact H2|exact H3|exact H4]. cbn. intros [= Ev].
    unfold v in Ev. destruct (gc_announcement ch); [eauto|done]. }
  cbn [snd]. case_match; [|done]. eapply tweak_trans; [exact Ht|]. by apply tweak_book.
Qed.

Lemma verified_channel_tweak scid g : tweak g (getVerifiedChannelAnnouncement sha256 verify cf scid g).2.
Proof.
  unfold getVerifiedChannelAnnouncement. cbv zeta. destruct (get (hex scid) (g_channels g)) as [ch|] eqn:Hk; [|apply tweak_refl].
  destruct (gc_announcement ch); [|apply tweak_refl]. destruct (negb _ || negb _); [apply tweak_refl|].
  destruct (is_true (gc_announcementVerifyDeferred ch)); [|apply tweak_refl].
  destruct (_resolveDeferredAnnouncement _ _ _ _ _) as [c g'] eqn:E. cbn [snd]. change g' with (c, g').2. rewrite <- E. by apply resolve_tweak.
Qed.

Lemma check_node_earned a : node_earned {| gn_nodeId := []; gn_announcement := Some a; gn_channels := [];
  gn_announcementVerified := Some (verifyNodeAnnouncementMessage a); gn_announcementVerifyDeferred := None |}.
Proof. intros [= E]. cbn. eauto. Qed.

Lemma verified_node_tweak nodeId g : tweak g (getVerifiedNodeAnnouncement sha256 verify nodeId g).2.
Proof.
  unfold getVerifiedNodeAnnouncement. cbv zeta. destruct (get (hex nodeId) (g_nodes g)) as [node|] eqn:Hn; [|apply tweak_refl].
  destruct (gn_announcement node) as [a|]; [|apply tweak_refl].
  destruct (is_true (gn_announcementVerifyDeferred node)); cbn [snd]; [|apply tweak_refl].
  apply (tweak_node _ _ _ node); [done..|]. intros _. exact (check_node_earned a).
Qed.

Lemma funding_tweak scid g : tweak g (markChannelFundingProven scid g).2.
Proof.
  unfold markChannelFundingProven. cbv zeta. destruct (get _ (g_channels g)) as [ch|] eqn:Hk; [|apply tweak_refl].
  case_match; [apply tweak_refl|]. cbn [snd]. apply (tweak_settle _ _ _ ch); [done|done|]. by intros [H1 H2 H3 H4].
Qed.

(** ** Serving *)

Lemma same_refl ch : same_channel ch ch.
Proof. done. Qed.

#[local] Hint Resolve same_refl : core.

(** A held channel stays held, the same channel. *)
Lemma tweak_held g g' : tweak g g' -> forall k ch, get k (g_channels g) = Some ch ->
  exists ch', get k (g_channels g') = Some ch' /\ same_channel ch ch'.
Proof.
  induction 1 as [i c c' g Hk Hs Ha Hf He|i c c' g Hk Hs He|n node node' g Hn Hc Hid He|g g' Hs Hd|g1 g2 g3 _ IH1 _ IH2]; intros k ch Hch.
  - cbn. rewrite get_set. case_decide; [subst|by eauto]. rewrite Hk in Hch. injection Hch as <-. eauto.
  - destruct (sync_core i c' (set_channel i c' g)) as (-> & _). cbn. rewrite get_set. case_decide; [subst|by eauto].
    rewrite Hk in Hch. injection Hch as <-. eauto.
  - cbn. eauto.
  - destruct Hs as (-> & _). eauto.
  - apply IH1 in Hch as (c & Hc & Hs1 & Hs2). apply IH2 in Hc as (c2 & Hc & Ht1 & Ht2). exists c2. split; [done|]. split; congruence.
Qed.

Section Serving.
Context (elapsed : nat -> Z).

Lemma spend_tweak check g g' : tweak g (check g) -> spend cf elapsed check g = Some g' -> tweak g g'.
Proof.
  unfold spend. intros Ht. case_match; [done|]. intros [= <-]. eapply tweak_trans; [exact Ht|]. by apply tweak_book.
Qed.

Lemma step_tweak needed check g : tweak g (check g) -> tweak g (settle_step cf elapsed needed check g).2.
Proof.
  intros Ht. unfold settle_step. destruct needed; [|apply tweak_refl].
  destruct (spend cf elapsed check g) as [g'|] eqn:E; [by eapply spend_tweak|apply tweak_refl].
Qed.

Lemma check_update1_tweak k ch g : is_Some (get k (g_channels g)) -> tweak g (check_update1 sha256 verify k ch g).
Proof.
  intros [c Hc]. unfold check_update1, held_channel. rewrite Hc. cbn. destruct (gc_update1 c) as [u|] eqn:Eu; [|apply tweak_refl].
  apply (tweak_channel _ _ _ c); [done..|]. intros [H1 H2 H3 H4]. constructor; cbn; [done| |done|done]. intros [= E]. eauto.
Qed.

Lemma check_update2_tweak k ch g : is_Some (get k (g_channels g)) -> tweak g (check_update2 sha256 verify k ch g).
Proof.
  intros [c Hc]. unfold check_update2, held_channel. rewrite Hc. cbn. destruct (gc_update2 c) as [u|] eqn:Eu; [|apply tweak_refl].
  apply (tweak_channel _ _ _ c); [done..|]. intros [H1 H2 H3 H4]. constructor; cbn; [done|done| |done]. intros [= E]. eauto.
Qed.

Lemma check_node_tweak n g : tweak g (check_node sha256 verify n g).
Proof.
  unfold check_node. destruct (get n (g_nodes g)) as [node|] eqn:Hn; [|apply tweak_refl]. destruct (gn_announcement node) as [a|]; [|apply tweak_refl].
  apply (tweak_node _ _ _ node); [done..|]. intros _. exact (check_node_earned a).
Qed.

Lemma settle_nodes_tweak l : forall g, tweak g (settle_nodes sha256 verify cf elapsed l g).2.
Proof.
  induction l as [|h l IH]; intros g; [apply tweak_refl|]. cbn.
  match goal with |- context [settle_step _ _ ?n ?c g] => pose proof (step_tweak n c g (check_node_tweak h g)) as Ht;
    destruct (settle_step cf elapsed n c g) as [[] g'] end; cbn in *; [|exact Ht]. eapply tweak_trans; [exact Ht|apply IH].
Qed.

Lemma settle_tweak k ch l g : get k (g_channels g) = Some ch -> tweak g (_settleForServing sha256 verify cf elapsed k ch l g).2.
Proof.
  intros Hk. unfold _settleForServing.
  pose proof (step_tweak (is_true (gc_announcementVerifyDeferred ch)) (fun g => (_resolveDeferredAnnouncement sha256 verify k ch g).2) g
    (resolve_tweak k ch g Hk)) as H1. destruct (settle_step _ _ _ _ g) as [[] g1]; [|done]. cbn [snd negb] in *.
  case_match; [exact H1|]. destruct (tweak_held _ _ H1 _ _ Hk) as (c1 & Hc1 & _).
  match goal with |- context [settle_step _ _ ?n (check_update1 _ _ k ch) g1] =>
    pose proof (step_tweak n _ g1 (check_update1_tweak k ch g1 ltac:(eauto))) as H2;
    destruct (settle_step _ _ n _ g1) as [[] g2] end; cbn [snd negb] in *; [|by eapply tweak_trans].
  assert (tweak g g2) as Hg2 by (by eapply tweak_trans). destruct (tweak_held _ _ Hg2 _ _ Hk) as (c2 & Hc2 & _).
  match goal with |- context [settle_step _ _ ?n (check_update2 _ _ k ch) g2] =>
    pose proof (step_tweak n _ g2 (check_update2_tweak k ch g2 ltac:(eauto))) as H3;
    destruct (settle_step _ _ n _ g2) as [[] g3] end; cbn [snd negb] in *; [|by eapply tweak_trans].
  eapply tweak_trans; [exact Hg2|]. eapply tweak_trans; [exact H3|apply settle_nodes_tweak].
Qed.

(** What a reply holds: announcements whose signatures verify, updates that their channel's
    announced endpoints signed, next to that announcement, and node announcements that verify. *)
Record reply_ok (out : served) : Prop := {
  ro_announcements a : a ∈ sv_announcements out -> verifyChannelAnnouncementMessage a = true;
  ro_updates u : u ∈ sv_updates out ->
    exists a, a ∈ sv_announcements out /\ verifyChannelUpdateMessage u (ca_nodeId1 a) (ca_nodeId2 a) = true;
  ro_nodes a : a ∈ sv_nodeAnnouncements out -> verifyNodeAnnouncementMessage a = true
}.

Lemma serve_nodes_ok g l : graph_inv g -> forall out, reply_ok out -> reply_ok (fold_left (serve_node g) l out).
Proof.
  intros Hg. induction l as [|h l IH]; intros out Ho; [done|]. cbn. apply IH. unfold serve_node. case_bool_decide; [done|]. cbv zeta.
  destruct Ho as [H1 H2 H3]. constructor; cbn; [done|done|]. intros a [Ha|Ha]%elem_of_app; [by apply H3|].
  destruct (get h (g_nodes g)) as [node|] eqn:Hn; [|by apply elem_of_nil in Ha]. destruct (gn_announcement node) as [b|] eqn:Hb; [|by apply elem_of_nil in Ha].
  destruct (is_true (gn_announcementVerified node)) eqn:Ev; [|by apply elem_of_nil in Ha]. apply list_elem_of_singleton in Ha. subst.
  apply bool_decide_eq_true_1 in Ev. destruct (gi_nodes _ _ _ g Hg _ _ Hn Ev) as (a & Ha & Hv). rewrite Hb in Ha. by injection Ha as ->.
Qed.

Lemma serve_update_ok ch u o verified a : update_earned sha256 verify ch o verified -> ca_nodeId1 a = gc_nodeId1 ch -> ca_nodeId2 a = gc_nodeId2 ch ->
  u ∈ serve_update o verified -> verifyChannelUpdateMessage u (ca_nodeId1 a) (ca_nodeId2 a) = true.
Proof.
  intros He E1 E2 Hin. unfold serve_update in Hin. destruct o as [m|]; [|by apply elem_of_nil in Hin].
  destruct (is_true verified) eqn:Ev; [|by apply elem_of_nil in Hin]. apply list_elem_of_singleton in Hin. subst u.
  apply bool_decide_eq_true_1 in Ev. destruct (He Ev) as (m' & [= <-] & Hv). by rewrite E1, E2.
Qed.

Lemma serve_one_ok scid g out : graph_inv g -> reply_ok out ->
  let '(g', out') := serve_one sha256 verify cf elapsed scid (g, out) in tweak g g' /\ reply_ok out'.
Proof.
  intros Hg Ho. unfold serve_one. cbv zeta. destruct (get (hex scid) (g_channels g)) as [ch|] eqn:Hk; [|split; [apply tweak_refl|done]].
  match goal with |- context [if ?b then _settleForServing _ _ _ _ ?k ch ?l g else _] =>
    assert (tweak g (if b then _settleForServing sha256 verify cf elapsed k ch l g else (true, g)).2) as Ht
      by (destruct b; [by apply settle_tweak|apply tweak_refl]);
    destruct (if b then _settleForServing sha256 verify cf elapsed k ch l g else (true, g)) as [[] g'] end; cbn [negb snd] in *.
  2: { split; [done|]. by destruct Ho. }
  assert (graph_inv g') as Hg' by (by eapply tweak_inv). destruct (tweak_held _ _ Ht _ _ Hk) as (c & Hc & _).
  unfold held_channel. rewrite Hc. cbn [from_option id]. destruct (gc_announcement c) as [a|] eqn:Ha; [|done].
  destruct (is_true (gc_announcementVerified c)) eqn:Ev; [|done]. cbn [negb]. split; [done|]. apply serve_nodes_ok; [done|].
  destruct (gi_channels _ _ _ g' Hg' _ _ Hc) as [E1 E2 E3 E4]. apply bool_decide_eq_true_1 in Ev.
  destruct (E1 Ev) as (a' & Ha' & Hv). rewrite Ha in Ha'. injection Ha' as <-. destruct (E4 a Ha) as [I1 I2]. destruct Ho as [H1 H2 H3].
  constructor; cbn; [| |done].
  - intros x [Hx|Hx]%elem_of_app; [by apply H1|]. apply list_elem_of_singleton in Hx. by subst.
  - intros u [Hu|Hu]%elem_of_app; [destruct (H2 u Hu) as (b & Hb & Hbv); exists b; split; [by apply elem_of_app; left|done]|].
    exists a. split; [apply elem_of_app; right; by apply list_elem_of_singleton|].
    apply elem_of_app in Hu as [Hu|Hu]; [exact (serve_update_ok c u _ _ a E2 I1 I2 Hu)|exact (serve_update_ok c u _ _ a E3 I1 I2 Hu)].
Qed.

Lemma serve_ok now scids g : graph_inv g ->
  let '(g', out) := getGossipMessagesForChannels sha256 verify cf elapsed now scids g in tweak g g' /\ reply_ok out.
Proof.
  intros Hg. unfold getGossipMessagesForChannels. cbv zeta. match goal with |- context [fold_left _ _ (?x, ?y)] => set (g0 := x); set (o0 := y) end.
  assert (tweak g g0) as Ht0 by (unfold g0; case_match; [by apply tweak_book|apply tweak_refl]).
  assert (forall l g1 out, graph_inv g1 -> reply_ok out ->
    let '(g', out') := fold_left (fun gs scid => serve_one sha256 verify cf elapsed scid gs) l (g1, out) in tweak g1 g' /\ reply_ok out') as Hf.
  { induction l as [|x l IH]; intros g1 out H1 Ho; cbn [fold_left]; [split; [apply tweak_refl|done]|].
    pose proof (serve_one_ok x g1 out H1 Ho) as Hs. destruct (serve_one _ _ _ _ x (g1, out)) as [g2 out2]. destruct Hs as [Ht Ho2].
    specialize (IH g2 out2 (tweak_inv _ _ _ _ _ Ht H1) Ho2). revert IH. destruct (fold_left _ l _) as [g3 out3]. intros [? ?]. split; [by eapply tweak_trans|done]. }
  specialize (Hf scids g0 o0 (tweak_inv _ _ _ _ _ Ht0 Hg)).
  assert (reply_ok o0) as Ho by (constructor; intros ? ?%elem_of_nil; done). specialize (Hf Ho). revert Hf.
  destruct (fold_left _ scids _) as [g3 out3]. intros [H1 H2].
  split; [by eapply tweak_trans|done].
Qed.
End Serving.

(** ** Steps *)

(** Every operation that changes a graph, under what its callers keep: a message is claimed
    verified only if it verifies, the importer's keys are those of the message, a stored row
    has earned its flags, and a node row is restored only for a node the graph holds. *)
Inductive graph_step : NetworkGraph -> NetworkGraph -> Prop :=
| step_addChannelAnnouncement msg claim g : honest claim (verifyChannelAnnouncementMessage msg) ->
    graph_step g (addChannelAnnouncement cf msg claim g).2
| step_addRapidGossipChannel msg g : graph_step g (addRapidGossipChannel cf msg (keys_of msg) g).2
| step_applyChannelUpdate now msg claim g :
    (forall ch, getChannel g (cu_shortChannelId msg) = Some ch ->
      honest claim (verifyChannelUpdateMessage msg (gc_nodeId1 ch) (gc_nodeId2 ch))) ->
    graph_step g (applyChannelUpdate now msg claim g).2
| step_applyRapidGossipUpdate now msg k g : graph_step g (applyRapidGossipUpdate now msg k g).2
| step_applyNodeAnnouncement now msg claim g : honest claim (verifyNodeAnnouncementMessage msg) ->
    graph_step g (applyNodeAnnouncement now msg claim g).2
| step_removeChannel scid g : graph_step g (removeChannel scid g).2
| step_pruneStaleChannels now age g : graph_step g (pruneStaleChannels now age g).2
| step_markChannelFundingProven scid g : graph_step g (markChannelFundingProven scid g).2
| step_getVerifiedChannelAnnouncement scid g : graph_step g (getVerifiedChannelAnnouncement sha256 verify cf scid g).2
| step_getVerifiedNodeAnnouncement nodeId g : graph_step g (getVerifiedNodeAnnouncement sha256 verify nodeId g).2
| step_restoreChannel now row g : channel_earned row ->
    (forall old, getChannel g (gc_shortChannelId row) = Some old -> ends old = ends row) ->
    graph_step g (restoreChannel sha256 verify cf now row g)
| step_restoreNode now node g : node_earned node -> is_Some (getNode g (gn_nodeId node)) ->
    graph_step g (restoreNode sha256 verify cf now node g)
| step_getGossipMessagesForChannels elapsed now scids g :
    graph_step g (getGossipMessagesForChannels sha256 verify cf elapsed now scids g).1.

Inductive graph_reachable : NetworkGraph -> Prop :=
| graph_start : graph_reachable empty_graph
| graph_next g g' : graph_reachable g -> graph_step g g' -> graph_reachable g'.

Lemma step_inv g g' : graph_step g g' -> graph_inv g -> graph_inv g'.
Proof.
  destruct 1; intros Hg.
  - by apply add_inv.
  - by apply rapid_inv.
  - by apply update_inv.
  - apply update_inv; [done|]. by intros ch _ E.
  - by apply node_ann_inv.
  - by apply remove_inv.
  - by apply prune_inv.
  - by eapply tweak_inv; [apply funding_tweak|].
  - by eapply tweak_inv; [apply verified_channel_tweak|].
  - by eapply tweak_inv; [apply verified_node_tweak|].
  - by apply restore_inv.
  - match goal with H : is_Some _ |- _ => destruct H end. by eapply restore_node_inv.
  - pose proof (serve_ok elapsed now scids g Hg) as Hs. destruct (getGossipMessagesForChannels _ _ _ _ _ _ _) as [g' out].
    destruct Hs. by eapply tweak_inv.
Qed.

Lemma empty_inv : 0 <= cf_MAX_CHANNELS cf -> graph_inv empty_graph.
Proof.
  intros H. constructor; [|intros k; unfold index_at, unverified_at, unfunded_at; cbn; set_solver|done|done|done|done].
  constructor; cbn; try done; try (intros; by constructor). intros n k. unfold chans. cbn. set_solver.
Qed.

Lemma graph_reachable_inv g : 0 <= cf_MAX_CHANNELS cf -> graph_reachable g -> graph_inv g.
Proof. intros H. induction 1 as [|g g' _ IH Hs]; [by apply empty_inv|by eapply step_inv]. Qed.

(** ** Properties *)

(** The graph of a node over its lives.  Each life starts with an empty graph; rows come from
    storage through GossipGraphRestore, which skips a node row whose node the graph does not
    hold; the other operations are those of live gossip.  Storage gives back rows as an
    earlier graph held them, or rows from before there were flags, with no message marked
    verified, an announcement being that of the channel it is stored with.  What the callers
    keep: a message is claimed verified only if it verifies, and a row for a channel that is
    held already names the same endpoints. *)
Definition unflagged (row : IGraphChannel) : Prop :=
  gc_announcementVerified row <> Some true /\ gc_update1Verified row <> Some true /\ gc_update2Verified row <> Some true /\
  forall a, gc_announcement row = Some a -> ca_nodeId1 a = gc_nodeId1 row /\ ca_nodeId2 a = gc_nodeId2 row.

Inductive live_step : NetworkGraph -> NetworkGraph -> Prop :=
| live_addChannelAnnouncement msg claim g : honest claim (verifyChannelAnnouncementMessage msg) ->
    live_step g (addChannelAnnouncement cf msg claim g).2
| live_addRapidGossipChannel msg g : live_step g (addRapidGossipChannel cf msg (keys_of msg) g).2
| live_applyChannelUpdate now msg claim g :
    (forall ch, getChannel g (cu_shortChannelId msg) = Some ch ->
      honest claim (verifyChannelUpdateMessage msg (gc_nodeId1 ch) (gc_nodeId2 ch))) ->
    live_step g (applyChannelUpdate now msg claim g).2
| live_applyRapidGossipUpdate now msg k g : live_step g (applyRapidGossipUpdate now msg k g).2
| live_applyNodeAnnouncement now msg claim g : honest claim (verifyNodeAnnouncementMessage msg) ->
    live_step g (applyNodeAnnouncement now msg claim g).2
| live_removeChannel scid g : live_step g (removeChannel scid g).2
| live_pruneStaleChannels now age g : live_step g (pruneStaleChannels now age g).2
| live_markChannelFundingProven scid g : live_step g (markChannelFundingProven scid g).2
| live_getVerifiedChannelAnnouncement scid g : live_step g (getVerifiedChannelAnnouncement sha256 verify cf scid g).2
| live_getVerifiedNodeAnnouncement nodeId g : live_step g (getVerifiedNodeAnnouncement sha256 verify nodeId g).2
| live_getGossipMessagesForChannels elapsed now scids g :
    live_step g (getGossipMessagesForChannels sha256 verify cf elapsed now scids g).1.

Inductive graph_runs : NetworkGraph -> Prop :=
| runs_start : graph_runs empty_graph
| runs_live g g' : graph_runs g -> live_step g g' -> graph_runs g'
| runs_channel_row now row r : graph_runs (gr_graph r) -> stored_channel row ->
    (forall old, getChannel (gr_graph r) (gc_shortChannelId row) = Some old -> ends old = ends row) ->
    graph_runs (gr_graph (restoreChannelRow sha256 verify cf now row r))
| runs_node_row now row r : graph_runs (gr_graph r) -> stored_node row ->
    graph_runs (gr_graph (restoreNodeRow sha256 verify cf now row r))
with stored_channel : IGraphChannel -> Prop :=
| stored_held g k row : graph_runs g -> get k (g_channels g) = Some row -> stored_channel row
| stored_unflagged row : unflagged row -> stored_channel row
with stored_node : IGraphNode -> Prop :=
| stored_node_held g n row : graph_runs g -> get n (g_nodes g) = Some row -> stored_node row
| stored_node_unflagged row : gn_announcementVerified row <> Some true -> stored_node row.

Scheme graph_runs_mind := Minimality for graph_runs Sort Prop
  with stored_channel_mind := Minimality for stored_channel Sort Prop
  with stored_node_mind := Minimality for stored_node Sort Prop.

Lemma live_graph_step g g' : live_step g g' -> graph_step g g'.
Proof. destruct 1; by constructor. Qed.

Lemma unflagged_earned row : unflagged row -> channel_earned row.
Proof. intros (H1 & H2 & H3 & H4). constructor; [by intros E..|done]. Qed.

Lemma runs_inv g : 0 <= cf_MAX_CHANNELS cf -> graph_runs g -> graph_inv g.
Proof.
  intros Hmax. revert g. apply (graph_runs_mind _ channel_earned node_earned).
  - by apply empty_inv.
  - intros g g' _ Hg Hs. eapply step_inv; [by apply live_graph_step|done].
  - intros now row r _ Hg _ He Hends. unfold restoreChannelRow. cbv zeta. destruct (_ <? _); [done|]. by apply restore_inv.
  - intros now row r _ Hg _ He. unfold restoreNodeRow. cbv zeta. destruct (getNode _ _) as [old|] eqn:Eo.
    + by eapply restore_node_inv.
    + by destruct (bool_decide _).
  - intros g k row _ Hg Hk. by apply (gi_channels _ _ _ g Hg k).
  - intros row. apply unflagged_earned.
  - intros g n row _ Hg Hn. by apply (gi_nodes _ _ _ g Hg n).
  - intros row Hno Ev. by destruct Hno.
Qed.

(** C24: over all the lives of a node, whatever gossip it takes in and whatever
    rows its storage gives back through GossipGraphRestore (graph_runs says under what its
    callers keep), the maps of the graph agree: each channel has one edge with the keys of its
    endpoints and is in the sets of exactly those nodes, no node is kept without a channel,
    the eviction indexes list exactly the channels whose announcement is not verified and the
    verified ones whose funding is not proven, the channels are within the ceiling, and every
    flag that says verified was earned by signatures over bytes the codec reproduces. *)
Theorem graph_invariant (g : NetworkGraph) (Hmax : 0 <= cf_MAX_CHANNELS cf) (Hg : graph_runs g) : graph_inv g.
Proof. by apply runs_inv. Qed.

(** A node row restored past GossipGraphRestore, for a node the graph does not hold, is kept
    with whatever channels the row lists. *)
Lemma restoreNode_orphan now node g : getNode g (gn_nodeId node) = None ->
  exists node', getNode (restoreNode sha256 verify cf now node g) (gn_nodeId node) = Some node' /\
    gn_channels node' = gn_channels node.
Proof.
  unfold getNode, restoreNode. cbv zeta. cbn [gn_nodeId node_announce]. intros Hn. rewrite Hn. eexists.
  split; [unfold set_node; cbn [g_nodes with_nodes]; by rewrite get_set, decide_True|done].
Qed.

(** C25: a reply to a gossip query holds only channel and node announcements
    whose signatures verify, and only updates signed by an endpoint of a channel whose
    announcement is in the same reply. *)
Theorem served_verified (elapsed : nat -> Z) (now : Z) (scids : list buffer) (g : NetworkGraph)
    (Hmax : 0 <= cf_MAX_CHANNELS cf) (Hg : graph_reachable g) :
  reply_ok (getGossipMessagesForChannels sha256 verify cf elapsed now scids g).2.
Proof.
  pose proof (serve_ok elapsed now scids g (graph_reachable_inv g Hmax Hg)) as Hs.
  destruct (getGossipMessagesForChannels _ _ _ _ _ _ _) as [g' out]. apply Hs.
Qed.
End Run.
