(* ===== verification/NetworkGraphGates.v ===== *)
(** * Gates, eviction and routing over the network graph

    The gates asked before signatures are checked give the verdict of the operations; a
    channel with proven funding survives every admission; a valid graph is what route
    finding needs. *)

From S2P Require Import Prelude Buffer JsMap Codec GossipTypes GossipMessages GossipNode Text.
From S2P Require Import CommitmentTx BlindedPath Pathfinding PathfindingRun NetworkGraph NetworkGraphInv NetworkGraphRun.
From stdpp Require Import sets.
Local Open Scope Z_scope.

(** ** Gates *)

Lemma evict_verdict g : (_evictOne true g).1 = (0 <? Z.of_nat (length (g_unverified g))) || (0 <? Z.of_nat (length (g_unfunded g))).
Proof. unfold _evictOne. by destruct (g_unverified g), (g_unfunded g). Qed.

Lemma evict_refused b g : (_evictOne b g).1 = false -> (_evictOne b g).2 = g.
Proof. unfold _evictOne. destruct (g_unverified g); [destruct b; [|done]|done]. by destruct (g_unfunded g). Qed.

Lemma defer_back g : g_deferredNodeEvictions g = None -> with_deferred None (with_deferred (Some []) g) = g.
Proof. intros H. destruct g. cbn in *. by subst. Qed.

Section Gates.
Context (cf : GraphConfig).

Lemma announcement_gate msg g : (addChannelAnnouncement cf msg (Some Verified) g).1 = wouldAcceptChannelAnnouncement cf msg g.
Proof.
  unfold addChannelAnnouncement, wouldAcceptChannelAnnouncement. destruct (negb (bool_decide (ca_chainHash msg = cf_chainHash cf))); [done|]. destruct (0 <=? buf_compare _ _); [done|]. cbv zeta. cbn [normalizeVerified].
  destruct (get _ (g_channels g)) as [ex|]; [by destruct (_ && _ && _)|]. rewrite bool_decide_eq_true_2 by done. cbn [negb].
  rewrite Z.leb_antisym. destruct (map_size (g_channels g) <? cf_MAX_CHANNELS cf); cbn [negb orb]; [done|].
  pose proof (evict_verdict (with_deferred (Some []) g)) as E. cbn in E. rewrite <- E. by destruct (_evictOne _ _) as [[] g'].
Qed.

Lemma announcement_refused msg claim g : g_deferredNodeEvictions g = None -> wouldAcceptChannelAnnouncement cf msg g = false ->
  addChannelAnnouncement cf msg claim g = (false, g).
Proof.
  intros Hd. unfold addChannelAnnouncement, wouldAcceptChannelAnnouncement. destruct (negb (bool_decide (ca_chainHash msg = cf_chainHash cf))); [done|]. destruct (0 <=? buf_compare _ _); [done|]. cbv zeta.
  destruct (get _ (g_channels g)) as [ex|].
  - intros H. by rewrite <- !andb_assoc, (andb_assoc (negb _)), H, andb_false_r.
  - rewrite Z.leb_antisym. destruct (map_size (g_channels g) <? cf_MAX_CHANNELS cf); cbn [negb orb]; [done|]. intros H.
    case_bool_decide; cbn [negb]; [|done]. pose proof (evict_verdict (with_deferred (Some []) g)) as E. cbn in E. rewrite H in E.
    pose proof (evict_refused true (with_deferred (Some []) g) E) as E2. destruct (_evictOne _ _) as [ok g']. cbn in E, E2. subst. cbn [negb].
    by rewrite defer_back.
Qed.

Lemma update_gate now msg g : (applyChannelUpdate now msg (Some Verified) g).1 = wouldAcceptChannelUpdate now msg g.
Proof.
  unfold applyChannelUpdate, _applyChannelUpdate, wouldAcceptChannelUpdate. destruct (gossipTimestampTooFarFuture _ _); [done|]. destruct (isDontForward msg); [done|].
  destruct (get _ (g_channels g)) as [ch|]; [|done]. cbv zeta. unfold holds_slot. cbn [normalizeVerified].
  destruct (slot_update _ ch) as [e|]; [|done]. rewrite (bool_decide_eq_true_2 (Verified = Verified)) by done. cbn [orb].
  by destruct (_ <=? _), (is_true _).
Qed.

Lemma update_refused now msg claim g : wouldAcceptChannelUpdate now msg g = false -> applyChannelUpdate now msg claim g = (false, g).
Proof.
  unfold applyChannelUpdate, _applyChannelUpdate, wouldAcceptChannelUpdate. destruct (gossipTimestampTooFarFuture _ _); [done|]. destruct (isDontForward msg); [done|].
  destruct (get _ (g_channels g)) as [ch|]; [|done]. cbv zeta. unfold holds_slot. destruct (slot_update _ ch) as [e|]; [|done].
  destruct (_ <=? _); [|done]. by destruct (is_true _).
Qed.

Lemma node_gate now msg g : (applyNodeAnnouncement now msg (Some Verified) g).1 = wouldAcceptNodeAnnouncement now msg g.
Proof.
  unfold applyNodeAnnouncement, wouldAcceptNodeAnnouncement. destruct (gossipTimestampTooFarFuture _ _); [done|]. cbv zeta.
  destruct (get _ (g_nodes g)) as [node|]; [|done]. destruct (Nat.eqb _ _); [done|]. unfold holds_node. cbn [normalizeVerified].
  rewrite bool_decide_eq_true_2 by done. destruct (gn_announcement node) as [a|]; [|done]. by destruct (_ <=? _), (is_true _).
Qed.

Lemma node_refused now msg claim g : wouldAcceptNodeAnnouncement now msg g = false -> applyNodeAnnouncement now msg claim g = (false, g).
Proof.
  unfold applyNodeAnnouncement, wouldAcceptNodeAnnouncement. destruct (gossipTimestampTooFarFuture _ _); [done|]. cbv zeta.
  destruct (get _ (g_nodes g)) as [node|]; [|done]. destruct (Nat.eqb _ _); [done|]. unfold holds_node.
  destruct (gn_announcement node) as [a|]; [|done]. destruct (_ <=? _); [|done]. destruct (is_true _); [|done]. intros _.
  by rewrite andb_false_r.
Qed.

(** C30: each gate asked before the signatures are checked says whether the
    operation would accept the message once verified; a message it turns away is refused
    under every provenance and leaves the graph as it is. *)
Theorem gates_exact (g : NetworkGraph) (now : Z) (Hd : g_deferredNodeEvictions g = None) :
  (forall msg, wouldAcceptChannelAnnouncement cf msg g = (addChannelAnnouncement cf msg (Some Verified) g).1 /\
     (wouldAcceptChannelAnnouncement cf msg g = false -> forall claim, addChannelAnnouncement cf msg claim g = (false, g))) /\
  (forall msg, wouldAcceptChannelUpdate now msg g = (applyChannelUpdate now msg (Some Verified) g).1 /\
     (wouldAcceptChannelUpdate now msg g = false -> forall claim, applyChannelUpdate now msg claim g = (false, g))) /\
  (forall msg, wouldAcceptNodeAnnouncement now msg g = (applyNodeAnnouncement now msg (Some Verified) g).1 /\
     (wouldAcceptNodeAnnouncement now msg g = false -> forall claim, applyNodeAnnouncement now msg claim g = (false, g))).
Proof.
  split_and!; intros msg; split.
  - by rewrite announcement_gate.
  - intros H claim. by apply announcement_refused.
  - by rewrite update_gate.
  - intros H claim. by apply update_refused.
  - by rewrite node_gate.
  - intros H claim. by apply node_refused.
Qed.
End Gates.

(** ** Eviction *)

Section Eviction.
Context (sha256 : buffer -> buffer) (verify : buffer -> buffer -> buffer -> bool) (cf : GraphConfig).

Definition proven (ch : IGraphChannel) : Prop := gc_announcementVerified ch = Some true /\ gc_fundingVerified ch = Some true.

Lemma proven_not_evictable ch : proven ch -> ~ evictable ch.
Proof. intros [H1 H2]. unfold evictable. rewrite H1, H2. by intros []. Qed.

(** The other channels are untouched. *)
Lemma insertion_get k ch g i : core_inv sha256 verify g -> get i (g_channels (insertion k ch g)) = if decide (i = k) then Some ch else get i (g_channels g).
Proof.
  intros Hc. unfold insertion. cbv zeta. set (g3 := link _ _ k _). destruct (flush_data g3) as [(-> & _) _]. unfold g3. cbn.
  match goal with |- context [_syncUnverifiedIndex k ch ?x] => destruct (sync_core k ch x) as (-> & _) end.
  destruct (setChannel_ok k ch (ends ch).1 (ends ch).2 g (tp_nodeKeys _ _ _ _ (ci_topo _ _ g Hc))) as (-> & _). apply get_set.
Qed.

Lemma evict_keeps b g k ch : core_inv sha256 verify g -> get k (g_channels g) = Some ch -> proven ch ->
  core_inv sha256 verify (_evictOne b (with_deferred (Some []) g)).2 /\ get k (g_channels (_evictOne b (with_deferred (Some []) g)).2) = Some ch.
Proof.
  intros Hc Hk Hp. assert (core_inv sha256 verify (with_deferred (Some []) g)) as Hc0 by (by apply (core_data _ _ g)).
  pose proof (evict_spec sha256 verify b _ Hc0) as Hs. destruct (_evictOne b _) as [[] g']; cbn [snd].
  - destruct Hs as (v & c & Hv & He & Hc' & E). split; [done|]. rewrite E, get_del. case_decide; [|done]. subst. cbn in Hv.
    rewrite Hk in Hv. injection Hv as <-. by destruct (proven_not_evictable ch Hp).
  - destruct Hs as (-> & _). done.
Qed.

Lemma add_keeps msg claim g k ch : core_inv sha256 verify g -> get k (g_channels g) = Some ch -> proven ch ->
  get k (g_channels (addChannelAnnouncement cf msg claim g).2) = Some ch.
Proof.
  intros Hc Hk Hp. unfold addChannelAnnouncement. destruct (negb (bool_decide (ca_chainHash msg = cf_chainHash cf))); [done|]. destruct (0 <=? buf_compare _ _); [done|]. cbv zeta.
  destruct (get (hex (ca_shortChannelId msg)) (g_channels g)) as [ex|] eqn:Ex.
  - destruct (_ && _) eqn:E; [|done]. cbn [snd]. destruct (sync_core (hex (ca_shortChannelId msg)) (ch_announce msg
      (provenancePair (normalizeVerified claim (ca_nodeSignature1 msg))) ex) (set_channel (hex (ca_shortChannelId msg))
      (ch_announce msg (provenancePair (normalizeVerified claim (ca_nodeSignature1 msg))) ex) g)) as (-> & _). cbn. rewrite get_set.
    destruct (decide (k = _)); [|done]. subst. rewrite Hk in Ex. injection Ex as <-. destruct Hp as [Ha _]. rewrite Ha in E. cbn in E.
    by rewrite andb_false_r in E.
  - assert (hex (ca_shortChannelId msg) <> k) as Hne by congruence.
    destruct (_ <=? _).
    + destruct (negb _); [done|]. destruct (evict_keeps true g k ch Hc Hk Hp) as [Hc' Hk'].
      destruct (_evictOne _ _) as [[] g']; cbn [negb snd] in *; [|exact Hk']. fold (keys_of msg).
      rewrite admit_insertion, insertion_get by done. by rewrite decide_False.
    + cbn [snd]. fold (keys_of msg). rewrite admit_insertion, insertion_get by done. by rewrite decide_False.
Qed.

Lemma restore_keeps now row g k ch : core_inv sha256 verify g -> get k (g_channels g) = Some ch -> proven ch ->
  hex (gc_shortChannelId row) <> k -> get k (g_channels (restoreChannel sha256 verify cf now row g)) = Some ch.
Proof.
  intros Hc Hk Hp Hne. unfold restoreChannel. cbv zeta. destruct (restored_ids sha256 verify cf now row) as [Hid _].
  revert Hid. generalize (restored_channel sha256 verify cf now row). intros c Hid. rewrite Hid.
  destruct (_ && _); [destruct (is_true _); [|done]|].
  - destruct (evict_keeps false g k ch Hc Hk Hp) as [Hc' Hk']. destruct (_evictOne _ _) as [[] g']; cbn [negb snd] in *; [|exact Hk'].
    rewrite insert_restored_eq, insertion_get by done. by rewrite decide_False.
  - rewrite insert_restored_eq, insertion_get by done. by rewrite decide_False.
Qed.

(** C29: a channel whose announcement is verified and whose funding was
    found on chain is never displaced: whatever announcement, snapshot entry or stored row
    of another channel is admitted, at the ceiling too, the channel stays as it was. *)
Theorem proven_channel_kept (g : NetworkGraph) (k : string) (ch : IGraphChannel) (Hmax : 0 <= cf_MAX_CHANNELS cf)
    (Hg : graph_reachable sha256 verify cf g) (Hk : get k (g_channels g) = Some ch) (Hp : proven ch) :
  (forall msg claim, get k (g_channels (addChannelAnnouncement cf msg claim g).2) = Some ch) /\
  (forall msg, get k (g_channels (addRapidGossipChannel cf msg (keys_of msg) g).2) = Some ch) /\
  (forall now row, hex (gc_shortChannelId row) <> k -> get k (g_channels (restoreChannel sha256 verify cf now row g)) = Some ch).
Proof.
  pose proof (inv_core _ _ _ g (graph_reachable_inv _ _ _ g Hmax Hg)) as Hc. split_and!.
  - intros msg claim. by apply add_keeps.
  - intros msg. unfold addRapidGossipChannel. repeat (case_match; [done|]). cbn [snd]. rewrite admit_insertion, insertion_get by done.
    rewrite decide_False; [done|]. intros ->. unfold has in *. cbn [k_scidHex keys_of] in *. by rewrite Hk in *.
  - intros now row. by apply restore_keeps.
Qed.
End Eviction.

(** ** Routing *)

(** A graph whose maps agree. *)
Record valid_graph := { vg_graph : NetworkGraph; vg_topo : topo_inv vg_graph }.

#[global] Instance network_routing : RoutingGraph valid_graph :=
  {| rg_getChannel g := getChannel (vg_graph g); rg_getNodeEdges g := getNodeEdges (vg_graph g); rg_nodes g := map fst (g_nodes (vg_graph g)) |}.

Lemma edge_of_spec g k edge : edge_of g k = Some edge -> ge_scidHex edge = k /\ get k (g_channels g) = Some (ge_channel edge).
Proof.
  unfold edge_of. destruct (get k (g_edges g)) as [[n1 n2]|]; [|done]. cbn. destruct (get k (g_channels g)) as [ch|]; [|done]. cbn.
  by intros [= <-].
Qed.

Lemma node_edge g n edge : edge ∈ getNodeEdges g n -> exists k, edge_of g k = Some edge.
Proof.
  unfold getNodeEdges. destruct (get n (g_nodes g)) as [node|]; [|by intros ?%elem_of_nil].
  intros (k & _ & Hk)%list_elem_of_omap. eauto.
Qed.

#[global] Instance network_routing_laws : RoutingGraphLaws valid_graph.
Proof.
  constructor.
  - intros [g Ht] n Hn. cbn in *. unfold getNodeEdges. by rewrite get_None.
  - intros [g Ht] n edge Hin. cbn in *. apply node_edge in Hin as (k & Hk). apply edge_of_spec in Hk as [-> Hk].
    exact (tp_key _ _ _ _ Ht _ _ Hk).
Qed.

Definition channel_fees_ok (ch : IGraphChannel) : Prop := opt_all fees_ok (gc_update1 ch) /\ opt_all fees_ok (gc_update2 ch).

Lemma held_value {V} (m : jsmap V) k v : get k m = Some v -> v ∈ values m.
Proof.
  induction m as [|[k' v'] m IH]; [done|]. cbn. case_decide; [intros [= <-]; by apply elem_of_cons; left|].
  intros Hg. apply elem_of_cons. right. by apply IH.
Qed.

(** Searches over the channels of a graph alone. *)
Lemma plain_search_wf now (g : valid_graph) source destination cltv maxHops excluded maxCltv ts used :
  Forall channel_fees_ok (getAllChannels (vg_graph g)) ->
  search_wf (new_search now g source destination cltv maxHops excluded None maxCltv None ts None None) used.
Proof.
  intros Hf. apply search_wf_intro; [|done|done]. intros n edge [Hin|Hin]%elem_of_app; [|by apply elem_of_nil in Hin].
  apply list_elem_of_In, filter_In in Hin as [Hin%list_elem_of_In _]. apply node_edge in Hin as (k & Hk).
  apply edge_of_spec in Hk as [_ Hk]. rewrite Forall_forall in Hf. exact (Hf _ (held_value _ _ _ Hk)).
Qed.
