(* ===== verification/GossipSample.v ===== *)
(** * A small network: the theorems on gossip and routes at concrete inputs

    Four nodes; two disjoint paths of two channels from the first to the last, each of
    which carries 600,000 msat at most. *)

From S2P Require Import Prelude Buffer JsMap Codec GossipTypes GossipMessages GossipNode Text.
From S2P Require Import CommitmentTx BlindedPath Pathfinding PathfindingRun PathfindingMpp NetworkGraph NetworkGraphInv NetworkGraphRun NetworkGraphGates.
From Stdlib Require Import Strings.Byte.
Local Open Scope Z_scope.

Definition chain : buffer := replicate 32 x06.
Definition config : GraphConfig :=
  {| cf_chainHash := chain; cf_eagerVerify := false; cf_MAX_CHANNELS := 4; cf_SERVE_VERIFY_BUDGET_MS := 50; cf_SERVE_VERIFY_WINDOW_MS := 1000 |}.

(** A signature that verifies starts with the first byte of the key it is checked against. *)
Definition toy_sha (b : buffer) : buffer := subarray b 0 32.
Definition toy_verify (hash key sig : buffer) : bool := bool_decide (head sig = head key).

Definition node_id (x : byte) : buffer := x :: replicate 32 x01.
Definition scid_of (x : byte) : buffer := [x00; x00; x01; x00; x00; x02; x00; x].

Definition announce (s a b : byte) : IChannelAnnouncementMessage :=
  {| ca_nodeSignature1 := a :: replicate 63 x00; ca_nodeSignature2 := b :: replicate 63 x00; ca_bitcoinSignature1 := x05 :: replicate 63 x00;
     ca_bitcoinSignature2 := x05 :: replicate 63 x00; ca_features := []; ca_chainHash := chain; ca_shortChannelId := scid_of s;
     ca_nodeId1 := node_id a; ca_nodeId2 := node_id b; ca_bitcoinKey1 := node_id x05; ca_bitcoinKey2 := node_id x05 |}.

Definition policy (s signer : byte) : IChannelUpdateMessage :=
  {| cu_signature := signer :: replicate 63 x00; cu_chainHash := chain; cu_shortChannelId := scid_of s; cu_timestamp := 1000;
     cu_messageFlags := 1; cu_channelFlags := 0; cu_cltvExpiryDelta := 40; cu_htlcMinimumMsat := 1; cu_feeBaseMsat := 1000;
     cu_feeProportionalMillionths := 100; cu_htlcMaximumMsat := Some 600000 |}.

Definition grow (g : NetworkGraph) (s a b : byte) : NetworkGraph :=
  (applyChannelUpdate 1000 (policy s a) (Some Deferred) (addChannelAnnouncement config (announce s a b) (Some Verified) g).2).2.

(** A = 01, B = 02, C = 03, D = 04: A-B-D and A-C-D *)
Definition network : NetworkGraph := grow (grow (grow (grow empty_graph x01 x01 x02) x02 x02 x04) x03 x01 x03) x04 x03 x04.

Local Abbreviation reachable := (graph_reachable toy_sha toy_verify config).

Lemma grow_reachable g s a b : verifyChannelAnnouncementMessage toy_sha toy_verify (announce s a b) = true -> reachable g -> reachable (grow g s a b).
Proof.
  intros Hv Hg. eapply graph_next; [eapply graph_next; [exact Hg|]|].
  - apply step_addChannelAnnouncement. by intros _.
  - apply step_applyChannelUpdate. by intros ch _ E.
Qed.

Lemma network_reachable : reachable network.
Proof. do 4 (apply grow_reachable; [vm_compute; reflexivity|]). constructor. Qed.

Lemma network_topo : topo_inv network.
Proof. apply (gi_topo toy_sha toy_verify config), graph_reachable_inv; [cbn; lia|exact network_reachable]. Qed.

Definition valid_network : valid_graph := {| vg_graph := network; vg_topo := network_topo |}.

Lemma grow_runs g s a b : verifyChannelAnnouncementMessage toy_sha toy_verify (announce s a b) = true ->
  graph_runs toy_sha toy_verify config g -> graph_runs toy_sha toy_verify config (grow g s a b).
Proof.
  intros Hv Hg. eapply runs_live; [eapply runs_live; [exact Hg|]|].
  - apply live_addChannelAnnouncement. by intros _.
  - apply live_applyChannelUpdate. by intros ch _ E.
Qed.

Lemma network_runs : graph_runs toy_sha toy_verify config network.
Proof. do 4 (apply grow_runs; [vm_compute; reflexivity|]). constructor. Qed.

(** The next life: the first channel of the network comes back from storage, then a node row of
    it and one of a node that has no channel. *)
Definition restore_start : GossipGraphRestore :=
  {| gr_graph := empty_graph; gr_cutoff := 500; gr_canDeleteChannel := true; gr_canDeleteNode := true;
     gr_staleRowDeletes := []; gr_diskChannelEndpoints := []; gr_staleChannels := 0; gr_orphanNodes := 0 |}.

Definition row_of (x : byte) : IGraphChannel :=
  match getChannel network (scid_of x) with Some ch => ch | None => admitted (announce x x x) Deferred end.
Definition node_row (x : byte) : IGraphNode :=
  match getNode network (node_id x) with
  | Some node => node
  | None => {| gn_nodeId := node_id x; gn_announcement := None; gn_channels := []; gn_announcementVerified := None;
               gn_announcementVerifyDeferred := None |}
  end.

Definition restored_network : GossipGraphRestore :=
  restoreNodeRow toy_sha toy_verify config 1000 (node_row x04)
    (restoreNodeRow toy_sha toy_verify config 1000 (node_row x01)
      (restoreChannelRow toy_sha toy_verify config 1000 (row_of x01) restore_start)).

Lemma graph_invariant_witness : graph_inv toy_sha toy_verify config network /\
  graph_inv toy_sha toy_verify config (gr_graph restored_network) /\
  gr_staleRowDeletes restored_network = [DeleteGossipNode (hex (node_id x04))].
Proof.
  split; [apply (graph_invariant toy_sha toy_verify config network); [cbn; lia|exact network_runs]|].
  split; [|vm_compute; reflexivity].
  apply (graph_invariant toy_sha toy_verify config (gr_graph restored_network)); [cbn; lia|].
  apply runs_node_row; [apply runs_node_row; [apply runs_channel_row; [apply runs_start| |]|]|].
  - apply (stored_held _ _ _ network (hex (scid_of x01))); [exact network_runs|vm_compute; reflexivity].
  - intros old H. vm_compute in H. discriminate H.
  - apply (stored_node_held _ _ _ network (hex (node_id x01))); [exact network_runs|vm_compute; reflexivity].
  - apply (stored_node_held _ _ _ network (hex (node_id x04))); [exact network_runs|vm_compute; reflexivity].
Defined.

(** The deferred updates are verified and served with their announcement. *)
Lemma served_verified_witness :
  let reply := (getGossipMessagesForChannels toy_sha toy_verify config (fun _ => 1) 5000 [scid_of x01] network).2 in
  sv_announcements reply = [announce x01 x01 x02] /\ sv_updates reply = [policy x01 x01] /\ reply_ok toy_sha toy_verify reply.
Proof.
  split_and!; [vm_compute; reflexivity..|].
  apply (served_verified toy_sha toy_verify config (fun _ => 1) 5000 [scid_of x01] network); [cbn; lia|exact network_reachable].
Defined.

Lemma gates_exact_witness : wouldAcceptChannelAnnouncement config (announce x01 x01 x02) network = false /\
  addChannelAnnouncement config (announce x01 x01 x02) (Some Verified) network = (false, network).
Proof.
  assert (wouldAcceptChannelAnnouncement config (announce x01 x01 x02) network = false) as H by (vm_compute; reflexivity).
  assert (g_deferredNodeEvictions network = None) as Hd by (vm_compute; reflexivity). split; [exact H|].
  destruct (gates_exact config network 1000 Hd) as [Ha _]. exact (proj2 (Ha (announce x01 x01 x02)) H (Some Verified)).
Defined.

(** At the ceiling of four, with one channel proven, a fifth channel displaces another one. *)
Definition proven_network : NetworkGraph := (markChannelFundingProven (scid_of x01) network).2.

Definition proven_channel : IGraphChannel := default (admitted (announce x01 x01 x02) Verified) (getChannel proven_network (scid_of x01)).

Lemma proven_channel_kept_witness :
  (addChannelAnnouncement config (announce x09 x01 x04) (Some Verified) proven_network).1 = true /\
  JsMap.get (hex (scid_of x01)) (g_channels (addChannelAnnouncement config (announce x09 x01 x04) (Some Verified) proven_network).2) = Some proven_channel.
Proof.
  split; [vm_compute; reflexivity|].
  assert (JsMap.get (hex (scid_of x01)) (g_channels proven_network) = Some proven_channel) as Hk by (vm_compute; reflexivity).
  assert (reachable proven_network) as Hr.
  { eapply graph_next; [exact network_reachable|]. apply step_markChannelFundingProven. }
  assert (proven proven_channel) as Hp by (split; vm_compute; reflexivity). assert (0 <= cf_MAX_CHANNELS config) as Hm by (cbn; lia).
  destruct (proven_channel_kept toy_sha toy_verify config proven_network _ _ Hm Hr Hk Hp) as [Ha _].
  exact (Ha (announce x09 x01 x04) (Some Verified)).
Defined.

(** ** Routes *)

Lemma network_fees : Forall channel_fees_ok (getAllChannels network).
Proof.
  vm_compute (getAllChannels network). repeat (apply Forall_cons; split; [split; cbn; try (split; cbn; lia); done|]). apply Forall_nil_2.
Qed.

Definition route_search := new_search 1000 valid_network (node_id x01) (node_id x04) 500 20 None None 2000 None None None None.

Lemma search_ok used : search_wf route_search used.
Proof. apply plain_search_wf, network_fees. Qed.

Lemma route_payable_witness : exists r, searchRoute route_search 500000 None = Some r /\ rt_totalFeeMsat r = 1050 /\ route_ok route_search None 500000 r.
Proof.
  destruct (searchRoute route_search 500000 None) as [r|] eqn:E; [|vm_compute in E; discriminate]. exists r. split; [done|].
  split; [vm_compute in E; injection E as <-; reflexivity|]. apply (route_payable route_search None 500000 r (search_ok None) ltac:(done) E).
Defined.

(** No single route carries 700,000 msat: the search for it ends with every node it could reach
    settled, mission control set aside or not. *)
Lemma no_route_closed_witness : searchRoute route_search 700000 None = None /\
  (exists found, exhausted route_search None 700000 found) /\
  exists found, exhausted (without_missionControl route_search) None 700000 found.
Proof.
  assert (searchRoute route_search 700000 None = None) as E by (vm_compute; reflexivity). split; [exact E|].
  assert (rs_sourceHex route_search <> rs_destHex route_search) as Hne by (vm_compute; discriminate).
  exact (no_route_closed route_search None 700000 (search_ok None) ltac:(lia) Hne E).
Defined.

Definition multi := findMultiPathRoute 1000 valid_network (node_id x01) (node_id x04) 1000000 500 None 20 None None None None None 2000 None.

(** 1,000,000 msat go over both paths. *)
Lemma mpp_within_channels_witness : exists m, multi = Some m /\ length (mp_parts m) = 2%nat /\
  parts_wf route_search (fun _ => 0) (mp_parts m).
Proof.
  destruct multi as [m|] eqn:E; [|vm_compute in E; discriminate]. exists m. split; [done|]. split; [vm_compute in E; by injection E as <-|].
  apply (mpp_within_channels 1000 valid_network (node_id x01) (node_id x04) 1000000 500 None 20 None None None None None 2000 None m
    search_ok ltac:(lia) E).
Defined.
