(* ===== verification/ClosingTx.v ===== *)
(** * Closing transactions (src/src/lightning/chain/closing.ts)

    The builders of the two kinds of cooperative closing transaction, the fee and weight
    estimates and the dust limits; [isValidShutdownScript] of channel/validation.ts.

    A script is a buffer and a transaction the one of CommitmentTx.v.  A weight is a JavaScript
    number; the product of a weight and a feerate stays far below 2^53, where the ceiling of the
    quotient by 1000 is exact. *)

From Stdlib Require Import Strings.Byte Sorting.Sorted Sorting.Permutation.
From S2P Require Import Prelude Buffer CommitmentTx Scripts.
Local Open Scope Z_scope.

(** ** Dust *)

(** True for an OP_RETURN scriptPubkey. *)
Definition isOpReturnScript (scriptPubkey : buffer) : bool :=
  (0 <? blen scriptPubkey) && (byte_at scriptPubkey 0 =? 0x6a).

Definition starts_with (scriptPubkey : buffer) (len b0 b1 : Z) : bool :=
  (blen scriptPubkey =? len) && (byte_at scriptPubkey 0 =? b0) && (byte_at scriptPubkey 1 =? b1).

Definition relayDustThreshold (scriptPubkey : buffer) : Z :=
  if starts_with scriptPubkey 25 0x76 0xa9 then 546
  else if starts_with scriptPubkey 23 0xa9 0x14 then 540
  else if starts_with scriptPubkey 22 0x00 0x14 then 294
  else if starts_with scriptPubkey 34 0x00 0x20 then 330
  else 354.

Definition isDustOutput (scriptPubkey : buffer) (amountSat : Z) : bool :=
  if isOpReturnScript scriptPubkey then false
  else amountSat <? relayDustThreshold scriptPubkey.

Definition getDustLimit (scriptPubkey : buffer) : Z :=
  if starts_with scriptPubkey 22 0x00 0x14 then DUST_LIMIT_P2WPKH
  else if starts_with scriptPubkey 34 0x00 0x20 then DUST_LIMIT_P2WSH
  else DUST_LIMIT_P2WSH.

Definition closingOutputDustLimit (scriptPubkey : buffer) (ownerDustLimit : option Z) : Z :=
  match ownerDustLimit with
  | None => getDustLimit scriptPubkey
  | Some owner =>
      let relay := relayDustThreshold scriptPubkey in
      if relay <? owner then owner else relay
  end.

(** ** Shutdown scripts (channel/validation.ts) *)

Definition OP_RETURN := 0x6a.
Definition OP_PUSHDATA1 := 0x4c.

Definition isValidShutdownScript (script : buffer) (allowAnySegwit allowOpReturn : bool) : bool :=
  let at_ := byte_at script in
  if blen script =? 0 then false
  else if allowOpReturn && (at_ 0 =? OP_RETURN) then
    ((8 <=? blen script) && (0x06 <=? at_ 1) && (at_ 1 <=? 0x4b) && (blen script =? at_ 1 + 2)) ||
    ((79 <=? blen script) && (at_ 1 =? OP_PUSHDATA1) && (0x4c <=? at_ 2) && (at_ 2 <=? 0x50) &&
     (blen script =? at_ 2 + 3))
  else
    ((blen script =? 25) && (at_ 0 =? OP_DUP) && (at_ 1 =? OP_HASH160) && (at_ 2 =? 0x14) &&
     (at_ 23 =? OP_EQUALVERIFY) && (at_ 24 =? OP_CHECKSIG)) ||
    ((blen script =? 23) && (at_ 0 =? OP_HASH160) && (at_ 1 =? 0x14) && (at_ 22 =? OP_EQUAL)) ||
    ((blen script =? 22) && (at_ 0 =? 0x00) && (at_ 1 =? 0x14)) ||
    ((blen script =? 34) && (at_ 0 =? 0x00) && (at_ 1 =? 0x20)) ||
    (allowAnySegwit &&
     ((at_ 0 =? 0x00) || ((OP_1 <=? at_ 0) && (at_ 0 <=? OP_16))) &&
     (0x02 <=? at_ 1) && (at_ 1 <=? 0x28) && (blen script =? at_ 1 + 2)).

(** ** Outputs in the BIP 69 order *)

Record OutputEntry (A : Type) := { oe_script : buffer; oe_value : Z; oe_type : A }.
Arguments oe_script {A} _.
Arguments oe_value {A} _.
Arguments oe_type {A} _.

Section Outputs.
Context {A : Type}.

Definition compare_entries (a b : OutputEntry A) : Z :=
  if negb (oe_value a =? oe_value b) then if oe_value a <? oe_value b then -1 else 1
  else buf_compare (oe_script a) (oe_script b).

Definition entry_out (o : OutputEntry A) : buffer * Z := (oe_script o, oe_value o).

(** The index the loop over the sorted outputs leaves in the map for a type. *)
Fixpoint index_of (isType : A -> bool) (i : Z) (l : list (OutputEntry A)) : option Z :=
  match l with
  | [] => None
  | o :: l => match index_of isType (i + 1) l with
              | Some j => Some j
              | None => if isType (oe_type o) then Some i else None
              end
  end.

End Outputs.

(** ** The legacy closing transaction *)

Inductive Owner := own_local | own_remote.

Definition is_local (t : Owner) : bool := match t with own_local => true | own_remote => false end.

Record IClosingTxParams := {
  ct_fundingTxid : buffer;
  ct_fundingOutputIndex : Z;
  ct_fundingAmount : Z;
  ct_localScriptPubkey : buffer;
  ct_remoteScriptPubkey : buffer;
  ct_localAmount : Z;
  ct_remoteAmount : Z;
  ct_feeAmount : Z;
  ct_localDustLimit : option Z;
  ct_remoteDustLimit : option Z;
  ct_sequence : option Z
}.

Record IClosingTxResult := {
  cr_tx : Transaction;
  cr_local : option Z;
  cr_remote : option Z
}.

(** The outputs above dust, in the order the code pushes them. *)
Definition closing_outputs (params : IClosingTxParams) : list (OutputEntry Owner) :=
  let localDust := closingOutputDustLimit (ct_localScriptPubkey params) (ct_localDustLimit params) in
  let remoteDust := closingOutputDustLimit (ct_remoteScriptPubkey params)
                      (ct_remoteDustLimit params) in
  (if localDust <=? ct_localAmount params
   then [{| oe_script := ct_localScriptPubkey params; oe_value := ct_localAmount params;
            oe_type := own_local |}] else []) ++
  (if remoteDust <=? ct_remoteAmount params
   then [{| oe_script := ct_remoteScriptPubkey params; oe_value := ct_remoteAmount params;
            oe_type := own_remote |}] else []).

Definition buildClosingTx (params : IClosingTxParams) : IClosingTxResult :=
  let outputs := sort compare_entries (closing_outputs params) in
  {| cr_tx := {| tx_version := 2; tx_locktime := 0;
                 tx_ins := [(ct_fundingTxid params, ct_fundingOutputIndex params,
                             default 0xffffffff (ct_sequence params))];
                 tx_outs := map entry_out outputs |};
     cr_local := index_of is_local 0 outputs;
     cr_remote := index_of (fun t => negb (is_local t)) 0 outputs |}.

(** ** Fee and weight *)

Definition closingWeightForOutputs (outputScriptLens : list Z) (isTaproot : bool) : Z :=
  let baseWeight := 206 in
  let outputWeight := fold_left (fun w scriptLen => w + 4 * (8 + 1 + scriptLen))
                        outputScriptLens 0 in
  let witnessWeight := if isTaproot then 66 else 220 in
  baseWeight + outputWeight + witnessWeight.

Definition closingTxWeight (localScriptLen remoteScriptLen : Z) (isTaproot : bool) : Z :=
  closingWeightForOutputs [localScriptLen; remoteScriptLen] isTaproot.

Definition calculateClosingFee (feeratePerKw localScriptLen remoteScriptLen : Z)
    (isTaproot : bool) : Z :=
  let totalWeight := closingTxWeight localScriptLen remoteScriptLen isTaproot in
  (totalWeight * feeratePerKw + 999) / 1000.

Record IClosingRelayParams := {
  rp_fundingAmount : Z;
  rp_localScriptPubkey : buffer;
  rp_remoteScriptPubkey : buffer;
  rp_localAmount : Z;
  rp_remoteAmount : Z;
  rp_localDustLimit : option Z;
  rp_remoteDustLimit : option Z;
  rp_isTaproot : bool
}.

(** [{ feePaid, weight }] *)
Definition closingTxRelayProfile (params : IClosingRelayParams) : Z * Z :=
  let keepsLocal := closingOutputDustLimit (rp_localScriptPubkey params)
                      (rp_localDustLimit params) <=? rp_localAmount params in
  let keepsRemote := closingOutputDustLimit (rp_remoteScriptPubkey params)
                       (rp_remoteDustLimit params) <=? rp_remoteAmount params in
  let scriptLens := (if keepsLocal then [blen (rp_localScriptPubkey params)] else []) ++
                    (if keepsRemote then [blen (rp_remoteScriptPubkey params)] else []) in
  let outputTotal := (if keepsLocal then rp_localAmount params else 0) +
                     (if keepsRemote then rp_remoteAmount params else 0) in
  (if outputTotal <? rp_fundingAmount params then rp_fundingAmount params - outputTotal else 0,
   closingWeightForOutputs scriptLens (rp_isTaproot params)).

Definition MIN_RELAY_FEERATE_SAT_PER_KVB := 1000.

Definition minRelayFeeForWeight (weightUnits : Z) : Z :=
  let vbytes := (weightUnits + 3) / 4 in
  (vbytes * MIN_RELAY_FEERATE_SAT_PER_KVB + 999) / 1000.

(** ** option_simple_close *)

Definition SIMPLE_CLOSE_SEQUENCE := 0xfffffffd.

Inductive SimpleCloseVariant := CLOSER_OUTPUT_ONLY | CLOSEE_OUTPUT_ONLY | CLOSER_AND_CLOSEE.

#[global] Instance SimpleCloseVariant_eq_dec : EqDecision SimpleCloseVariant.
Proof. solve_decision. Defined.

Inductive Party := the_closer | the_closee.

Definition is_closer (t : Party) : bool := match t with the_closer => true | the_closee => false end.

Record ISimpleClosingTxParams := {
  sp_fundingTxid : buffer;
  sp_fundingOutputIndex : Z;
  sp_closerScriptPubkey : buffer;
  sp_closeeScriptPubkey : buffer;
  sp_closerAmount : Z;
  sp_closeeAmount : Z;
  sp_feeSatoshis : Z;
  sp_locktime : Z;
  sp_variant : SimpleCloseVariant
}.

Record ISimpleClosingTxResult := {
  sr_tx : Transaction;
  sr_closer : option Z;
  sr_closee : option Z
}.

Definition includes_closer (v : SimpleCloseVariant) : bool :=
  match v with CLOSEE_OUTPUT_ONLY => false | _ => true end.
Definition includes_closee (v : SimpleCloseVariant) : bool :=
  match v with CLOSER_OUTPUT_ONLY => false | _ => true end.

Definition simple_outputs (params : ISimpleClosingTxParams) : list (OutputEntry Party) :=
  (if includes_closer (sp_variant params)
   then [{| oe_script := sp_closerScriptPubkey params;
            oe_value := if isOpReturnScript (sp_closerScriptPubkey params) then 0
                        else sp_closerAmount params - sp_feeSatoshis params;
            oe_type := the_closer |}] else []) ++
  (if includes_closee (sp_variant params)
   then [{| oe_script := sp_closeeScriptPubkey params;
            oe_value := if isOpReturnScript (sp_closeeScriptPubkey params) then 0
                        else sp_closeeAmount params;
            oe_type := the_closee |}] else []).

Definition buildSimpleClosingTx (params : ISimpleClosingTxParams) : result ISimpleClosingTxResult :=
  let closerValue := if isOpReturnScript (sp_closerScriptPubkey params) then 0
                     else sp_closerAmount params - sp_feeSatoshis params in
  _ ← throw_if (includes_closer (sp_variant params) && (closerValue <? 0))
        "simple close fee exceeds closer balance";
  _ ← throw_if (match simple_outputs params with [] => true | _ => false end) "simple close tx has no outputs";
  let outputs := sort compare_entries (simple_outputs params) in
  Ok {| sr_tx := {| tx_version := 2; tx_locktime := sp_locktime params;
                    tx_ins := [(sp_fundingTxid params, sp_fundingOutputIndex params,
                                SIMPLE_CLOSE_SEQUENCE)];
                    tx_outs := map entry_out outputs |};
        sr_closer := index_of is_closer 0 outputs;
        sr_closee := index_of (fun t => negb (is_closer t)) 0 outputs |}.

Definition estimateSimpleCloseFee (feeratePerKw closerScriptLen closeeScriptLen : Z) : Z :=
  calculateClosingFee feeratePerKw closerScriptLen closeeScriptLen false.

(** ** What a transaction pays *)

(** The fee a closing transaction leaves and the weight it has once signed. *)
Definition tx_value (tx : Transaction) : Z := fold_right Z.add 0 (map snd (tx_outs tx)).
Definition tx_fee (fundingAmount : Z) (tx : Transaction) : Z := fundingAmount - tx_value tx.
Definition tx_weight (isTaproot : bool) (tx : Transaction) : Z :=
  closingWeightForOutputs (map (fun o => blen o.1) (tx_outs tx)) isTaproot.

(** A transaction a node with the default policy relays. *)
Definition relays (fundingAmount : Z) (isTaproot : bool) (tx : Transaction) : Prop :=
  minRelayFeeForWeight (tx_weight isTaproot tx) <= tx_fee fundingAmount tx.

Lemma min_relay_fee w : minRelayFeeForWeight w = (w + 3) / 4.
Proof.
  unfold minRelayFeeForWeight, MIN_RELAY_FEERATE_SAT_PER_KVB.
  rewrite Z.add_comm, Z.div_add by lia. change (999 / 1000) with 0. lia.
Qed.

Lemma min_relay_mono v w : v <= w -> minRelayFeeForWeight v <= minRelayFeeForWeight w.
Proof. rewrite !min_relay_fee. intros. apply Z.div_le_mono; lia. Qed.

Lemma weight_sum l t :
  closingWeightForOutputs l t =
  206 + fold_right Z.add 0 (map (fun n => 4 * (9 + n)) l) + (if t then 66 else 220).
Proof.
  unfold closingWeightForOutputs. f_equal. f_equal.
  assert (forall acc, fold_left (fun w n => w + 4 * (8 + 1 + n)) l acc =
                      acc + fold_right Z.add 0 (map (fun n => 4 * (9 + n)) l)) as H.
  { induction l as [|n l IH]; intros acc; cbn [fold_left fold_right map]; [lia|]. rewrite IH. lia. }
  rewrite H. lia.
Qed.

Lemma weight_lower l t : (forall n, In n l -> 0 <= n) -> 272 <= closingWeightForOutputs l t.
Proof.
  intros H. rewrite weight_sum.
  assert (0 <= fold_right Z.add 0 (map (fun n => 4 * (9 + n)) l)); [|destruct t; lia].
  induction l as [|n l IH]; cbn [map fold_right]; [lia|].
  specialize (IH (fun m Hm => H m (or_intror Hm))). specialize (H n (or_introl eq_refl)). lia.
Qed.

Lemma min_relay_pos t tx : 0 < minRelayFeeForWeight (tx_weight t tx).
Proof.
  rewrite min_relay_fee. unfold tx_weight.
  assert (272 <= closingWeightForOutputs (map (fun o => blen o.1) (tx_outs tx)) t).
  { apply weight_lower. intros n (o & <- & _)%in_map_iff. apply blen_nonneg. }
  assert (272 / 4 <= (closingWeightForOutputs (map (fun o => blen o.1) (tx_outs tx)) t + 3) / 4)
    by (apply Z.div_le_mono; lia). change (272 / 4) with 68 in *. lia.
Qed.

Lemma fold_right_add_perm l l' :
  Permutation l l' -> fold_right Z.add 0 l = fold_right Z.add 0 l'.
Proof. induction 1; simpl; lia. Qed.

Lemma tx_value_perm tx tx' : Permutation (tx_outs tx) (tx_outs tx') -> tx_value tx = tx_value tx'.
Proof. intros H. apply fold_right_add_perm. by rewrite H. Qed.

Lemma entries_le {A} (a b : OutputEntry A) :
  compare_entries a b <= 0 -> bip69_le (entry_out a) (entry_out b).
Proof.
  unfold compare_entries, bip69_le, entry_out. simpl.
  destruct (Z.eqb_spec (oe_value a) (oe_value b)); simpl; [intros; by right|].
  destruct (Z.ltb_spec (oe_value a) (oe_value b)); lia.
Qed.

Lemma entries_gt {A} (a b : OutputEntry A) :
  0 < compare_entries a b -> bip69_le (entry_out b) (entry_out a).
Proof.
  unfold compare_entries, bip69_le, entry_out. simpl.
  pose proof (buf_compare_antisym (oe_script a) (oe_script b)).
  destruct (Z.eqb_spec (oe_value a) (oe_value b)); simpl; [intros; right; lia|].
  destruct (Z.ltb_spec (oe_value a) (oe_value b)); lia.
Qed.

(** What the sorted outputs are depends on which outputs there are, not on their order. *)
Lemma sorted_entries {A B} (l : list (OutputEntry A)) (l' : list (OutputEntry B)) :
  Permutation (map entry_out l) (map entry_out l') ->
  map entry_out (sort compare_entries l) = map entry_out (sort compare_entries l').
Proof.
  assert (forall (C : Type) (k : list (OutputEntry C)),
            StronglySorted bip69_le (map entry_out (sort compare_entries k))) as Hs.
  { intros C k. apply Sorted_StronglySorted; [exact bip69_trans|]. apply sorted_map.
    apply (sort_sorted compare_entries); [apply entries_le | apply entries_gt]. }
  intros Hp. apply sorted_unique; [apply Hs | apply Hs|].
  by rewrite !(sort_perm compare_entries).
Qed.

Lemma closing_outs_perm p :
  Permutation (tx_outs (cr_tx (buildClosingTx p))) (map entry_out (closing_outputs p)).
Proof. simpl. by rewrite (sort_perm compare_entries). Qed.

Lemma simple_outs_perm p r :
  buildSimpleClosingTx p = Ok r ->
  Permutation (tx_outs (sr_tx r)) (map entry_out (simple_outputs p)).
Proof.
  unfold buildSimpleClosingTx.
  intros (? & _ & (? & _ & [= <-])%bind_Ok_inv)%bind_Ok_inv. cbn [sr_tx tx_outs].
  by rewrite (sort_perm compare_entries).
Qed.

(** ** The two sides *)

Definition swap_closing (p : IClosingTxParams) : IClosingTxParams :=
  {| ct_fundingTxid := ct_fundingTxid p; ct_fundingOutputIndex := ct_fundingOutputIndex p;
     ct_fundingAmount := ct_fundingAmount p; ct_localScriptPubkey := ct_remoteScriptPubkey p;
     ct_remoteScriptPubkey := ct_localScriptPubkey p; ct_localAmount := ct_remoteAmount p;
     ct_remoteAmount := ct_localAmount p; ct_feeAmount := ct_feeAmount p;
     ct_localDustLimit := ct_remoteDustLimit p; ct_remoteDustLimit := ct_localDustLimit p;
     ct_sequence := ct_sequence p |}.

(** What is local to one side is remote to the other: both build one transaction. *)
Lemma closing_tx_swap p : cr_tx (buildClosingTx (swap_closing p)) = cr_tx (buildClosingTx p).
Proof.
  unfold buildClosingTx. simpl. f_equal. apply sorted_entries. unfold closing_outputs. simpl.
  rewrite !map_app, Permutation_app_comm. repeat case_match; reflexivity.
Qed.

(** ** The relay profile *)

Definition relay_params (isTaproot : bool) (p : IClosingTxParams) : IClosingRelayParams :=
  {| rp_fundingAmount := ct_fundingAmount p; rp_localScriptPubkey := ct_localScriptPubkey p;
     rp_remoteScriptPubkey := ct_remoteScriptPubkey p; rp_localAmount := ct_localAmount p;
     rp_remoteAmount := ct_remoteAmount p; rp_localDustLimit := ct_localDustLimit p;
     rp_remoteDustLimit := ct_remoteDustLimit p; rp_isTaproot := isTaproot |}.

Lemma weight_perm l l' t : Permutation l l' -> closingWeightForOutputs l t = closingWeightForOutputs l' t.
Proof. intros H. rewrite !weight_sum. f_equal. f_equal. apply fold_right_add_perm. by rewrite H. Qed.

(** The profile is the fee and the weight of the transaction that is built. *)
Lemma relay_profile_exact t p :
  closingTxRelayProfile (relay_params t p) =
  (Z.max 0 (tx_fee (ct_fundingAmount p) (cr_tx (buildClosingTx p))),
   tx_weight t (cr_tx (buildClosingTx p))).
Proof.
  unfold tx_fee. rewrite (tx_value_perm _ {| tx_version := 0; tx_locktime := 0; tx_ins := [];
    tx_outs := map entry_out (closing_outputs p) |}) by apply closing_outs_perm.
  unfold tx_weight. rewrite (weight_perm _ (map (fun o => blen o.1) (map entry_out (closing_outputs p))))
    by (by rewrite closing_outs_perm).
  unfold closingTxRelayProfile, tx_value, closing_outputs. cbn [tx_outs relay_params rp_fundingAmount
    rp_localScriptPubkey rp_remoteScriptPubkey rp_localAmount rp_remoteAmount rp_localDustLimit
    rp_remoteDustLimit rp_isTaproot].
  destruct (closingOutputDustLimit (ct_localScriptPubkey p) _ <=? _),
    (closingOutputDustLimit (ct_remoteScriptPubkey p) _ <=? _);
    cbn -[Z.ltb Z.sub Z.max Z.add closingWeightForOutputs];
    (f_equal; match goal with |- context [?a <? ?b] => destruct (Z.ltb_spec a b) end; lia).
Qed.

(** ** Dropping an output *)

Lemma dust_limit_pos s d : 294 <= closingOutputDustLimit s d.
Proof.
  assert (294 <= relayDustThreshold s) by (unfold relayDustThreshold; repeat case_match; lia).
  destruct d as [d|]; simpl.
  - destruct (Z.ltb_spec (relayDustThreshold s) d); lia.
  - unfold getDustLimit, DUST_LIMIT_P2WPKH, DUST_LIMIT_P2WSH. repeat case_match; lia.
Qed.

(** Without some of its outputs a transaction pays more and weighs less. *)
Lemma relays_fewer funding t tx tx' rest :
  Permutation (tx_outs tx) (tx_outs tx' ++ rest) -> (forall o, In o rest -> 0 <= o.2) ->
  relays funding t tx -> relays funding t tx'.
Proof.
  intros Hp Hr. unfold relays, tx_fee, tx_value, tx_weight.
  rewrite (fold_right_add_perm _ _ (Permutation_map snd Hp)).
  rewrite (weight_perm _ _ t (Permutation_map (fun o => blen o.1) Hp)), !map_app.
  assert (forall a b, fold_right Z.add 0 (a ++ b) = fold_right Z.add 0 a + fold_right Z.add 0 b) as Ha.
  { intros a b. rewrite fold_right_app. induction a; simpl; lia. }
  assert (0 <= fold_right Z.add 0 (map snd rest)).
  { clear Hp. induction rest as [|o rest IH]; simpl; [lia|].
    pose proof (Hr o (or_introl eq_refl)). specialize (IH (fun x Hx => Hr x (or_intror Hx))). lia. }
  assert (closingWeightForOutputs (map (fun o => blen o.1) (tx_outs tx')) t <=
          closingWeightForOutputs (map (fun o => blen o.1) (tx_outs tx') ++ map (fun o => blen o.1) rest) t).
  { rewrite !weight_sum, map_app, Ha. clear Hp.
    assert (0 <= fold_right Z.add 0 (map (fun n => 4 * (9 + n)) (map (fun o => blen o.1) rest))); [|lia].
    clear. induction rest as [|o rest IH]; cbn [map fold_right]; [lia|].
    pose proof (blen_nonneg o.1). lia. }
  rewrite Ha. intros Hrel. pose proof (min_relay_mono _ _ H0). lia.
Qed.

(** Amounts that leave a fee leave at least that fee whatever is dropped as dust, on a transaction
    no heavier than the one with both outputs. *)
Lemma profile_bound p fee :
  0 <= rp_localAmount p -> 0 <= rp_remoteAmount p -> 0 <= fee ->
  rp_localAmount p + rp_remoteAmount p + fee <= rp_fundingAmount p ->
  let '(feePaid, weight) := closingTxRelayProfile p in
  fee <= feePaid /\
  weight <= closingTxWeight (blen (rp_localScriptPubkey p)) (blen (rp_remoteScriptPubkey p))
              (rp_isTaproot p).
Proof.
  intros Hl Hr Hf Ht. unfold closingTxRelayProfile.
  pose proof (blen_nonneg (rp_localScriptPubkey p)). pose proof (blen_nonneg (rp_remoteScriptPubkey p)).
  unfold closingTxWeight. rewrite !weight_sum.
  destruct (_ <=? rp_localAmount p), (_ <=? rp_remoteAmount p); cbn [app map fold_right];
    (split; [match goal with |- context [?a <? ?b] => destruct (Z.ltb_spec a b) end; lia | lia]).
Qed.

Lemma profile_relays p fee :
  0 <= rp_localAmount p -> 0 <= rp_remoteAmount p ->
  rp_localAmount p + rp_remoteAmount p + fee <= rp_fundingAmount p ->
  minRelayFeeForWeight (closingTxWeight (blen (rp_localScriptPubkey p))
    (blen (rp_remoteScriptPubkey p)) (rp_isTaproot p)) <= fee ->
  minRelayFeeForWeight (closingTxRelayProfile p).2 <= (closingTxRelayProfile p).1.
Proof.
  intros Hl Hr Ht Hm.
  assert (0 <= fee) as Hf.
  { etransitivity; [|exact Hm]. rewrite min_relay_fee. apply Z.div_pos; [|lia].
    unfold closingTxWeight. assert (272 <= closingWeightForOutputs
      [blen (rp_localScriptPubkey p); blen (rp_remoteScriptPubkey p)] (rp_isTaproot p)); [|lia].
    apply weight_lower. intros n [<-|[<-|[]]]; apply blen_nonneg. }
  pose proof (profile_bound p fee Hl Hr Hf Ht) as Hb. destruct (closingTxRelayProfile p) as [f w].
  destruct Hb as [Hb Hw]. cbn. pose proof (min_relay_mono _ _ Hw). lia.
Qed.
