(* ===== verification/ClosingTypes.v ===== *)
(** * The state of a cooperative close (src/src/lightning/channel/channel-state.ts, channel.ts)

    [CloseState] is a channel with the fields that closing reads or writes and that ChannelTypes.v
    leaves out: the persisted ones of IChannelState, the recovery flags, and the private fields of
    Channel.  The session object of the MuSig2 signer is a cache of the manager and left out.  Then
    the gates every stage of a close asks and the fees it computes.

    A bigint division truncates ([Z.quot]).  An ERROR action is the fixed part of its message; its
    code and cleanup hint are left out. *)

From S2P Require Import Prelude Buffer Features CommitmentTx Scripts JsMap WireBasic WireClose.
From S2P Require Import ChannelTypes CommitmentBuilder HtlcPolicy HtlcAdmission Channel ClosingTx.
From Stdlib Require Import Strings.Byte.
Local Open Scope Z_scope.

Inductive RecoveryCloseReason :=
| local_data_loss | state_uncertain | restore_unproven | reestablish_unproven
| reestablish_secret_missing.

(** The fields the model uses of an external close intent. *)
Record IExternalClose := { ex_scriptHex : string; ex_timestamp : Z }.

Record ILocalClosingComplete := {
  lc_feeSatoshis : Z;
  lc_locktime : Z;
  lc_closerScript : buffer;
  lc_closeeScript : buffer;
  lc_sentVariants : list SimpleCloseVariant
}.

Record CloseState := {
  k_chan : IChannelState;
  k_localShutdownScript : option buffer;
  k_preReestablishState : option ChannelState;
  k_lastProposedClosingFeeSat : option Z;
  k_closingFeeMin : option Z;
  k_closingFeeMax : option Z;
  k_theirLastClosingFeeSat : option Z;
  k_simpleClose : option bool;
  k_lastLocalClosingComplete : option ILocalClosingComplete;
  k_awaitingClosingSig : option bool;
  k_externalClose : option IExternalClose;
  k_staleCloseRiskAccepted : option bool;
  k_dataLossDetected : option bool;
  k_stateUncertain : option bool;
  k_recoveryCloseReason : option RecoveryCloseReason;
  k_pendingBatch : bool;
  k_ourClosingNonce : option buffer;
  k_remoteClosingNonce : option buffer;
  k_hasSignedClosing : bool;
  k_closingFeeratePerKw : option Z;
  k_currentBlockHeight : Z
}.

Definition eta_close (c : CloseState) : CloseState :=
  {| k_chan := k_chan c; k_localShutdownScript := k_localShutdownScript c;
     k_preReestablishState := k_preReestablishState c;
     k_lastProposedClosingFeeSat := k_lastProposedClosingFeeSat c;
     k_closingFeeMin := k_closingFeeMin c; k_closingFeeMax := k_closingFeeMax c;
     k_theirLastClosingFeeSat := k_theirLastClosingFeeSat c; k_simpleClose := k_simpleClose c;
     k_lastLocalClosingComplete := k_lastLocalClosingComplete c;
     k_awaitingClosingSig := k_awaitingClosingSig c; k_externalClose := k_externalClose c;
     k_staleCloseRiskAccepted := k_staleCloseRiskAccepted c;
     k_dataLossDetected := k_dataLossDetected c; k_stateUncertain := k_stateUncertain c;
     k_recoveryCloseReason := k_recoveryCloseReason c; k_pendingBatch := k_pendingBatch c;
     k_ourClosingNonce := k_ourClosingNonce c; k_remoteClosingNonce := k_remoteClosingNonce c;
     k_hasSignedClosing := k_hasSignedClosing c; k_closingFeeratePerKw := k_closingFeeratePerKw c;
     k_currentBlockHeight := k_currentBlockHeight c |}.

Definition on_chan (f : IChannelState -> IChannelState) (c : CloseState) : CloseState :=
  ltac:(update_field eta_close (eta_close c) (k_chan c) (f (k_chan c))).
Definition set_localShutdownScript (v : option buffer) (c : CloseState) : CloseState :=
  ltac:(update_field eta_close (eta_close c) (k_localShutdownScript c) v).
Definition set_preReestablishState (v : option ChannelState) (c : CloseState) : CloseState :=
  ltac:(update_field eta_close (eta_close c) (k_preReestablishState c) v).
Definition set_lastProposedClosingFeeSat (v : option Z) (c : CloseState) : CloseState :=
  ltac:(update_field eta_close (eta_close c) (k_lastProposedClosingFeeSat c) v).
Definition set_closingFeeMin (v : option Z) (c : CloseState) : CloseState :=
  ltac:(update_field eta_close (eta_close c) (k_closingFeeMin c) v).
Definition set_closingFeeMax (v : option Z) (c : CloseState) : CloseState :=
  ltac:(update_field eta_close (eta_close c) (k_closingFeeMax c) v).
Definition set_theirLastClosingFeeSat (v : option Z) (c : CloseState) : CloseState :=
  ltac:(update_field eta_close (eta_close c) (k_theirLastClosingFeeSat c) v).
Definition set_simpleClose (v : option bool) (c : CloseState) : CloseState :=
  ltac:(update_field eta_close (eta_close c) (k_simpleClose c) v).
Definition set_lastLocalClosingComplete (v : option ILocalClosingComplete) (c : CloseState) : CloseState :=
  ltac:(update_field eta_close (eta_close c) (k_lastLocalClosingComplete c) v).
Definition set_awaitingClosingSig (v : option bool) (c : CloseState) : CloseState :=
  ltac:(update_field eta_close (eta_close c) (k_awaitingClosingSig c) v).
Definition set_externalClose (v : option IExternalClose) (c : CloseState) : CloseState :=
  ltac:(update_field eta_close (eta_close c) (k_externalClose c) v).
Definition set_staleCloseRiskAccepted (v : option bool) (c : CloseState) : CloseState :=
  ltac:(update_field eta_close (eta_close c) (k_staleCloseRiskAccepted c) v).
Definition set_recoveryCloseReason (v : option RecoveryCloseReason) (c : CloseState) : CloseState :=
  ltac:(update_field eta_close (eta_close c) (k_recoveryCloseReason c) v).
Definition set_ourClosingNonce (v : option buffer) (c : CloseState) : CloseState :=
  ltac:(update_field eta_close (eta_close c) (k_ourClosingNonce c) v).
Definition set_remoteClosingNonce (v : option buffer) (c : CloseState) : CloseState :=
  ltac:(update_field eta_close (eta_close c) (k_remoteClosingNonce c) v).
Definition set_hasSignedClosing (v : bool) (c : CloseState) : CloseState :=
  ltac:(update_field eta_close (eta_close c) (k_hasSignedClosing c) v).
Definition set_closingFeeratePerKw (v : option Z) (c : CloseState) : CloseState :=
  ltac:(update_field eta_close (eta_close c) (k_closingFeeratePerKw c) v).

Definition set_chan_state (v : ChannelState) : CloseState -> CloseState := on_chan (set_state v).

Definition set_remoteShutdownScript (v : option buffer) : CloseState -> CloseState :=
  on_chan (fun s => ltac:(update_field eta_state (eta_state s) (s_remoteShutdownScript s) v)).

(** [this._state.state] *)
Definition k_state (c : CloseState) : ChannelState := s_state (k_chan c).

(** ** Actions *)

Inductive CloseMessage :=
| M_SHUTDOWN (m : IShutdownMessage)
| M_CLOSING_SIGNED (m : IClosingSignedMessage)
| M_CLOSING_COMPLETE (m : IClosingCompleteMessage)
| M_CLOSING_SIG (m : IClosingCompleteMessage)
| M_ERROR (channelId : buffer) (data : string).

Inductive CloseAction :=
| PERSIST
| SEND (m : CloseMessage)
| FAULT (message : string)
| CHANNEL_CLOSED (channelId : buffer).

Definition close_outcome : Type := CloseState * result (list CloseAction).

Definition bare (message : string) (c : CloseState) : close_outcome := (c, Ok [FAULT message]).

Definition chan_id (c : CloseState) : buffer := default [] (s_channelId (k_chan c)).

(** ** Recovery *)

Definition getRecoveryCloseReason (c : CloseState) : option RecoveryCloseReason :=
  match k_recoveryCloseReason c with
  | Some r => Some r
  | None =>
      if flag_true (k_dataLossDetected c) || flag_true (s_restoreRevokedRisk (k_chan c))
      then Some local_data_loss
      else if flag_true (k_stateUncertain c) then Some state_uncertain
      else match recencyHoldOrigin (k_chan c) with
           | Some HOLD_SECRET_MISSING => Some reestablish_secret_missing
           | Some HOLD_RESTORE => Some restore_unproven
           | Some HOLD_REESTABLISH => Some reestablish_unproven
           | None => None
           end
  end.

Definition recovery_text (reason : RecoveryCloseReason) : string :=
  match reason with
  | local_data_loss => "peer proved our channel state is stale (data loss); awaiting your force close"
  | restore_unproven => "restored channel state has not been confirmed by channel_reestablish (recovery); awaiting your force close"
  | reestablish_unproven => "your channel_reestablish claimed our state is behind without the per-commitment secret proving it; awaiting your force close"
  | reestablish_secret_missing => "cannot produce channel_reestablish from local state; awaiting your force close"
  | state_uncertain => "restored channel state cannot be proven current (recovery); awaiting your force close"
  end.

Definition buildRecoveryCloseActions (c : CloseState) : list CloseAction :=
  match getRecoveryCloseReason c, s_channelId (k_chan c) with
  | Some reason, Some channelId => [PERSIST; SEND (M_ERROR channelId (recovery_text reason))]
  | _, _ => []
  end.

Definition _ensureRecoveryCloseDisposition (c : CloseState) : CloseState :=
  match k_recoveryCloseReason c with
  | Some _ => c
  | None => if flag_true (k_dataLossDetected c)
            then set_recoveryCloseReason (Some local_data_loss) c
            else if flag_true (k_stateUncertain c)
            then set_recoveryCloseReason (Some state_uncertain) c else c
  end.

Definition is_persist (a : CloseAction) : bool := match a with PERSIST => true | _ => false end.

Definition _heldCooperativeCloseRefusal (message : string) (c : CloseState) : close_outcome :=
  let c := set_chan_state ERRORED c in
  (c, Ok (PERSIST :: List.filter (fun a => negb (is_persist a)) (buildRecoveryCloseActions c) ++
          [FAULT message])).

Definition isMutualCloseHeld (c : CloseState) : bool :=
  if flag_true (s_restoreRevokedRisk (k_chan c)) then true
  else isRecencyUnproven (k_chan c) && negb (flag_true (k_staleCloseRiskAccepted c)).

Definition refuseHeldMutualClose : CloseState -> close_outcome :=
  _heldCooperativeCloseRefusal "Cannot resume cooperative close".

(** [_failChannelWithWireError] with the disposition it stamps. *)
Definition failChannelWithWireError (message : string) (c : CloseState) : close_outcome :=
  let c := set_chan_state ERRORED (_ensureRecoveryCloseDisposition c) in
  let channelId := default (s_temporaryChannelId (k_chan c)) (s_channelId (k_chan c)) in
  (c, Ok (PERSIST :: (if canScopeWireError channelId then [SEND (M_ERROR channelId message)] else []) ++
          [FAULT message])).

(** ** What keeps a close from starting *)

Definition closingBlockedBy (c : CloseState) : option string :=
  let st := k_chan c in
  if negb (bool_decide (s_htlcs st = [])) then Some "pending HTLCs"
  else if 0 <? Z.of_nat (length (default [] (s_signedLocalRemovals st))) then Some "pending HTLCs"
  else if flag_true (s_needsCommitment st) || isAwaitingRemoteRevocation st ||
          (0 <? Z.of_nat (length (s_pendingLocalUpdates st))) || k_pendingBatch c ||
          bool_decide (is_Some (s_pendingFeeratePerKw st)) ||
          flag_true (s_awaitingLocalFeeCommitment st) ||
          bool_decide (is_Some (s_pendingLeaseBlockheight st))
  then Some "pending updates"
  else if match s_lastSignedCommitFeeratePerKw st with
          | Some r => negb (r =? getLocalCommitmentFeeRate st false)
          | None => false
          end
  then Some "pending updates"
  else if match s_lastSignedCommitLeaseBlockheight st with
          | Some h => negb (bool_decide (Some h = getLocalCommitmentLeaseBlockheight st false))
          | None => false
          end
  then Some "pending updates"
  else None.

(** ** The closing fee *)

Definition PLACEHOLDER_SHUTDOWN_SCRIPT : buffer := [x00; x14] ++ alloc 20.

Definition is_opener (c : CloseState) : bool := bool_decide (s_role (k_chan c) = OPENER).
Definition local_sat (c : CloseState) : Z := Z.quot (s_localBalanceMsat (k_chan c)) 1000.
Definition remote_sat (c : CloseState) : Z := Z.quot (s_remoteBalanceMsat (k_chan c)) 1000.
Definition taproot (c : CloseState) : bool := isTaprootChannel (s_channelType (k_chan c)).
Definition script_len (s : option buffer) : Z := match s with Some b => blen b | None => 22 end.

Definition setClosingFeeratePerKw (feeratePerKw : Z) (c : CloseState) : CloseState :=
  if 0 <? feeratePerKw then set_closingFeeratePerKw (Some feeratePerKw) c else c.

Definition getClosingFeeratePerKw (c : CloseState) : Z :=
  let rate := c_feeratePerKw (s_localConfig (k_chan c)) in
  let commitmentRate := if rate =? 0 then 253 else rate in
  Z.max (default 0 (k_closingFeeratePerKw c)) commitmentRate.

Definition minRelayClosingFee (c : CloseState) : Z :=
  minRelayFeeForWeight (closingTxWeight (script_len (k_localShutdownScript c))
    (script_len (s_remoteShutdownScript (k_chan c))) (taproot c)).

Definition calculateIdealClosingFee (c : CloseState) : Z :=
  let fee := calculateClosingFee (getClosingFeeratePerKw c) (script_len (k_localShutdownScript c))
               (script_len (s_remoteShutdownScript (k_chan c))) (taproot c) in
  let floor := minRelayClosingFee c in
  if floor <? fee then fee else floor.

Definition closingFeePayerBalanceSat (c : CloseState) : Z :=
  if is_opener c then local_sat c else remote_sat c.

Definition refuseUnrelayableClosingFee (prefix : string) : CloseState -> close_outcome :=
  bare (prefix ++ ": the fee payer's balance cannot pay the minimum relay fee").

Definition ownClosingOutputDustLimit (c : CloseState) : Z :=
  closingOutputDustLimit (default PLACEHOLDER_SHUTDOWN_SCRIPT (k_localShutdownScript c))
    (Some (c_dustLimitSatoshis (s_localConfig (k_chan c)))).

(** What [closingFeeRelays] asks the profile for. *)
Definition fee_profile (feeSatoshis : Z) (c : CloseState) : IClosingRelayParams :=
  let st := k_chan c in
  {| rp_fundingAmount := s_fundingSatoshis st;
     rp_localScriptPubkey := default PLACEHOLDER_SHUTDOWN_SCRIPT (k_localShutdownScript c);
     rp_remoteScriptPubkey := default PLACEHOLDER_SHUTDOWN_SCRIPT (s_remoteShutdownScript st);
     rp_localAmount := if is_opener c then local_sat c - feeSatoshis else local_sat c;
     rp_remoteAmount := if is_opener c then remote_sat c else remote_sat c - feeSatoshis;
     rp_localDustLimit := Some (c_dustLimitSatoshis (s_localConfig st));
     rp_remoteDustLimit := Some (c_dustLimitSatoshis (s_remoteConfig st));
     rp_isTaproot := taproot c |}.

Definition closingFeeRelays (feeSatoshis : Z) (c : CloseState) : bool :=
  if bool_decide (is_Some (k_externalClose c)) &&
     (local_sat c - (if is_opener c then feeSatoshis else 0) <? ownClosingOutputDustLimit c)
  then false
  else let '(feePaid, weight) := closingTxRelayProfile (fee_profile feeSatoshis c) in
       minRelayFeeForWeight weight <=? feePaid.

Definition initClosingFeeRange (idealFee : Z) (c : CloseState) : CloseState :=
  let halfIdeal := Z.quot idealFee 2 in
  let relayFloor := minRelayClosingFee c in
  let min := if relayFloor <? halfIdeal then halfIdeal else relayFloor in
  let max := idealFee * 2 in
  let openerBalance := if is_opener c then local_sat c else remote_sat c in
  let openerBalance :=
    if is_opener c then
      let dust := ownClosingOutputDustLimit c in
      if dust <? openerBalance then openerBalance - dust else 0
    else openerBalance in
  set_closingFeeMax (Some (if max <? openerBalance then max else openerBalance))
    (set_closingFeeMin (Some min) c).
