(* ===== verification/Closing.v ===== *)
(** * Cooperative close of a channel (src/src/lightning/channel/channel.ts)

    The shutdown exchange and the negotiation by closing_signed, on a channel funded by a 2-of-2
    script and on a taproot channel.  A handler takes the state and returns the state and the
    actions; what it assigns before an exception is kept.  Arguments are the signer's callbacks, the
    clock, a fresh nonce, whether a stfu is pending, and what an FFOR epoch answers to a shutdown. *)

From S2P Require Import Prelude Buffer Features CommitmentTx Scripts WireClose Text.
From S2P Require Import ChannelTypes CommitmentBuilder HtlcAdmission Channel ClosingTx ClosingTypes.
From Stdlib Require Import Strings.Byte.
Local Open Scope Z_scope.

Definition closing_state (c : CloseState) : bool :=
  bool_decide (k_state c = NEGOTIATING_CLOSING) || bool_decide (k_state c = SHUTTING_DOWN).

(** ** The path of the negotiation *)

Definition setSimpleClose (simple : bool) (c : CloseState) : CloseState :=
  if taproot c then set_simpleClose (Some false) c else set_simpleClose (Some simple) c.

Definition isSimpleClose (c : CloseState) : bool := flag_true (k_simpleClose c).

Definition resetSimpleCloseNegotiation (c : CloseState) : CloseState :=
  set_awaitingClosingSig (Some false) (set_lastLocalClosingComplete None c).

Definition _refreshOurClosingNonce (nonce : buffer) (c : CloseState) : CloseState :=
  set_hasSignedClosing false (set_ourClosingNonce (Some nonce) c).

Definition _adoptRemoteClosingNonce (nonce : buffer) (c : CloseState) : CloseState :=
  set_hasSignedClosing false (set_remoteClosingNonce (Some nonce) c).

(** ** Payout estimate *)

Record ICooperativeCloseQuote := {
  q_amountSats : Z;
  q_feeSats : Z;
  q_networkFeeSats : Z;
  q_feeratePerkw : Z;
  q_localPays : bool
}.

Definition quote_remote_script : buffer := [x00; x20] ++ alloc 32.

Definition quoteCooperativeClose (quiescing : bool) (ffor : option string) (scriptPubkey : buffer)
    (simpleClose : bool) (liveFeeratePerKw : Z) (acceptStaleStateRisk : bool) (c : CloseState)
    : result ICooperativeCloseQuote :=
  let st := k_chan c in
  _ ← throw_if (negb (bool_decide (k_state c = CHANNEL_NORMAL)) || quiescing)
        "Cannot close cooperatively: channel is not ready";
  _ ← match closingBlockedBy c with
      | Some blocked => Err ("Cannot close cooperatively: " ++ blocked)
      | None => Ok tt
      end;
  _ ← throw_if (flag_true (s_restoreRevokedRisk st) ||
                (isMutualCloseHeld c && negb acceptStaleStateRisk))
        "Cannot close cooperatively";
  _ ← match ffor with
      | Some reason => Err ("Cannot close cooperatively: " ++ reason)
      | None => Ok tt
      end;
  _ ← throw_if (negb (isValidShutdownScript scriptPubkey true false))
        "Invalid local shutdown scriptPubkey";
  let simple := simpleClose && negb (taproot c) in
  let rate := Z.max liveFeeratePerKw (getClosingFeeratePerKw c) in
  let remoteLength := match s_remoteShutdownScript st with Some s => blen s | None => 34 end in
  let weight := closingTxWeight (blen scriptPubkey) remoteLength (taproot c) in
  let calculated := calculateClosingFee rate (blen scriptPubkey) remoteLength (taproot c) in
  let floor := minRelayFeeForWeight weight in
  let fee := if floor <? calculated then calculated else floor in
  let localPays := simple || is_opener c in
  let localFee := if localPays then fee else 0 in
  let amount := local_sat c - localFee in
  let dust := if simple then isDustOutput scriptPubkey amount
              else amount <? closingOutputDustLimit scriptPubkey
                               (Some (c_dustLimitSatoshis (s_localConfig st))) in
  _ ← throw_if ((amount <=? 0) || dust) "Cannot close cooperatively: our payout would be dust";
  let '(feePaid, profileWeight) := closingTxRelayProfile
    {| rp_fundingAmount := s_fundingSatoshis st; rp_localScriptPubkey := scriptPubkey;
       rp_remoteScriptPubkey := default quote_remote_script (s_remoteShutdownScript st);
       rp_localAmount := amount;
       rp_remoteAmount := remote_sat c - (if localPays then 0 else fee);
       rp_localDustLimit := Some (if simple then 0 else c_dustLimitSatoshis (s_localConfig st));
       rp_remoteDustLimit := Some (if simple then 0 else c_dustLimitSatoshis (s_remoteConfig st));
       rp_isTaproot := taproot c |} in
  _ ← throw_if (feePaid <? minRelayFeeForWeight profileWeight)
        "Cannot close cooperatively: fee payer cannot cover the network fee";
  Ok {| q_amountSats := amount; q_feeSats := localFee; q_networkFeeSats := feePaid;
        q_feeratePerkw := rate; q_localPays := localPays |}.

(** ** shutdown *)

Record IShutdownRollback := {
  rb_state : ChannelState;
  rb_localShutdownScript : option buffer;
  rb_externalClose : option IExternalClose;
  rb_staleCloseRiskAccepted : option bool;
  rb_simpleClose : option bool
}.

Definition rollbackShutdown (previous : IShutdownRollback) (c : CloseState) : CloseState :=
  let c :=
    if bool_decide (k_state c = SHUTTING_DOWN) then set_chan_state (rb_state previous) c
    else if bool_decide (k_state c = AWAITING_REESTABLISH) &&
            bool_decide (k_preReestablishState c = Some SHUTTING_DOWN)
    then set_preReestablishState (Some (rb_state previous)) c else c in
  let c := set_localShutdownScript (rb_localShutdownScript previous) c in
  let c := set_externalClose (rb_externalClose previous) c in
  let c := set_staleCloseRiskAccepted (rb_staleCloseRiskAccepted previous) c in
  set_simpleClose (rb_simpleClose previous) c.

Definition shutdown_message (scriptPubkey : buffer) (nonce : option buffer) (c : CloseState)
    : CloseMessage :=
  M_SHUTDOWN {| sd_channelId := chan_id c; sd_scriptPubkey := scriptPubkey;
                sd_shutdownNonce := nonce |}.

Definition _initiateShutdown (nonce scriptPubkey : buffer) (c : CloseState) : close_outcome :=
  let simpleCloseResend := isSimpleClose c && closing_state c in
  if negb (bool_decide (k_state c = CHANNEL_NORMAL)) && negb simpleCloseResend
  then bare "Cannot shutdown: wrong state" c
  else if negb (isValidShutdownScript scriptPubkey true (isSimpleClose c))
  then bare "Invalid local shutdown scriptPubkey" c
  else
    let c := set_localShutdownScript (Some scriptPubkey) c in
    let c := if bool_decide (k_state c = CHANNEL_NORMAL) then set_chan_state SHUTTING_DOWN c
             else resetSimpleCloseNegotiation c in
    let '(c, shutdownNonce) :=
      if taproot c then (_refreshOurClosingNonce nonce c, Some nonce) else (c, None) in
    (c, Ok [SEND (shutdown_message scriptPubkey shutdownNonce c)]).

Definition is_fault (a : CloseAction) : bool := match a with FAULT _ => true | _ => false end.

Definition initiateShutdown (now : Z) (nonce : buffer) (quiescing : bool) (ffor : option string)
    (scriptPubkey : buffer) (acceptStaleStateRisk externalDestination : bool) (c : CloseState)
    : close_outcome :=
  if flag_true (s_restoreRevokedRisk (k_chan c)) then bare "Cannot close cooperatively" c
  else if isMutualCloseHeld c && negb acceptStaleStateRisk
  then bare "Cannot close cooperatively: a mutual close may sign away funds" c
  else match ffor with
  | Some reason => bare ("Cannot close cooperatively: " ++ reason) c
  | None =>
      let quote := if externalDestination
                   then quoteCooperativeClose quiescing ffor scriptPubkey (isSimpleClose c) 0
                          acceptStaleStateRisk c ≫= fun _ => Ok tt
                   else Ok tt in
      match quote with
      | Err message => bare message c
      | Ok _ =>
          let '(c, r) := _initiateShutdown nonce scriptPubkey c in
          match r with
          | Err e => (c, Err e)
          | Ok actions =>
              let fine := negb (existsb is_fault actions) in
              let '(c, actions) :=
                if externalDestination && fine
                then (set_externalClose (Some {| ex_scriptHex := hex scriptPubkey;
                                                 ex_timestamp := now |}) c, PERSIST :: actions)
                else (c, actions) in
              if acceptStaleStateRisk && isRecencyUnproven (k_chan c) && fine
              then (set_staleCloseRiskAccepted (Some true) c, Ok (PERSIST :: actions))
              else (c, Ok actions)
          end
      end
  end.

Definition buildShutdownRetransmit (nonce : buffer) (c : CloseState)
    : CloseState * IShutdownMessage :=
  let msg n := {| sd_channelId := chan_id c;
                  sd_scriptPubkey := default [] (k_localShutdownScript c);
                  sd_shutdownNonce := n |} in
  if taproot c
  then (set_remoteClosingNonce None (_refreshOurClosingNonce nonce c), msg (Some nonce))
  else (c, msg None).

(** Our shutdown in answer to the peer's, from NORMAL. *)
Definition answer_shutdown (nonce : buffer) (localScript : option buffer) (c : CloseState)
    : CloseState * list CloseAction :=
  if bool_decide (k_state c = CHANNEL_NORMAL) then
    let c := match localScript with Some s => set_localShutdownScript (Some s) c | None => c end in
    let c := match k_localShutdownScript c with
             | None => set_localShutdownScript (Some []) c | Some _ => c end in
    let c := set_chan_state SHUTTING_DOWN c in
    let script := default [] (k_localShutdownScript c) in
    if 0 <? blen script then
      let '(c, shutdownNonce) :=
        if taproot c then (_refreshOurClosingNonce nonce c, Some nonce) else (c, None) in
      (c, [SEND (shutdown_message script shutdownNonce c)])
    else (c, [])
  else (c, []).

Definition adopt_nonce (n : option buffer) (c : CloseState) : CloseState :=
  match n with Some n => _adoptRemoteClosingNonce n c | None => c end.

Definition handleShutdown (nonce : buffer) (ffor : option string) (msg : IShutdownMessage)
    (localScript : option buffer) (c : CloseState) : close_outcome :=
  if negb (bool_decide (k_state c = CHANNEL_NORMAL)) && negb (closing_state c)
  then bare "Unexpected shutdown" c
  else match ffor with
  | Some reason => failChannelWithWireError reason c
  | None =>
      if isMutualCloseHeld c
      then _heldCooperativeCloseRefusal "Cannot close cooperatively; please force close instead" c
      else if taproot c && negb (match sd_shutdownNonce msg with
                                 | Some n => blen n =? 66 | None => false end)
      then failChannelWithWireError "Taproot shutdown missing the MuSig2 closing nonce (TLV 8)" c
      else if negb (isValidShutdownScript (sd_scriptPubkey msg) true (isSimpleClose c))
      then failChannelWithWireError "Invalid shutdown scriptPubkey" c
      else
        let negotiating := bool_decide (k_state c = NEGOTIATING_CLOSING) in
        let c := set_remoteShutdownScript (Some (sd_scriptPubkey msg)) c in
        if negotiating then
          let c := if k_hasSignedClosing c then c else adopt_nonce (sd_shutdownNonce msg) c in
          (if isSimpleClose c then resetSimpleCloseNegotiation c else c, Ok [])
        else
          let c := adopt_nonce (sd_shutdownNonce msg) c in
          let '(c, actions) := answer_shutdown nonce localScript c in
          (match closingBlockedBy c with
           | None => set_chan_state NEGOTIATING_CLOSING c | Some _ => c end, Ok actions)
  end.

Definition beginClosingNegotiationIfReady (c : CloseState) : CloseState * bool :=
  if negb (bool_decide (k_state c = SHUTTING_DOWN)) then (c, false)
  else if bool_decide (s_remoteShutdownScript (k_chan c) = None) then (c, false)
  else if bool_decide (is_Some (closingBlockedBy c)) then (c, false)
  else if isMutualCloseHeld c then (c, false)
  else (set_chan_state NEGOTIATING_CLOSING c, true).

(** ** closing_signed *)

Definition signed_message (feeSatoshis : Z) (signature : buffer) (partial : option buffer)
    (c : CloseState) : CloseMessage :=
  M_CLOSING_SIGNED {| cl_channelId := chan_id c; cl_feeSatoshis := feeSatoshis;
                      cl_signature := signature; cl_partialSignature := partial |}.

Definition closed_action (c : CloseState) : CloseAction := CHANNEL_CLOSED (chan_id c).

Section Signed.
Context (sign : Z -> result buffer) (verify : option (Z -> buffer -> bool)).

Definition propose_taproot (c : CloseState) : close_outcome :=
  if k_hasSignedClosing c then (c, Ok [])
  else if bool_decide (k_remoteClosingNonce c = None) then (c, Ok [])
  else
    let idealFee := calculateIdealClosingFee c in
    if negb (closingFeeRelays idealFee c)
    then refuseUnrelayableClosingFee "Cannot propose closing fee" c
    else
      let c := set_lastProposedClosingFeeSat (Some idealFee) c in
      match sign idealFee with
      | Err e => (c, Err e)
      | Ok partial =>
          let c := set_hasSignedClosing true c in
          (c, Ok [SEND (signed_message idealFee (alloc 64) (Some partial) c)])
      end.

Definition proposeClosingFee (c : CloseState) : close_outcome :=
  if negb (closing_state c) then bare "Cannot propose closing fee: wrong state" c
  else if isMutualCloseHeld c then refuseHeldMutualClose c
  else match closingBlockedBy c with
  | Some blocked => bare ("Cannot propose closing fee: " ++ blocked) c
  | None =>
      let c := set_chan_state NEGOTIATING_CLOSING c in
      if taproot c then propose_taproot c
      else
        let idealFee := calculateIdealClosingFee c in
        if negb (closingFeeRelays idealFee c)
        then refuseUnrelayableClosingFee "Cannot propose closing fee" c
        else
          let c := initClosingFeeRange idealFee c in
          let c := set_lastProposedClosingFeeSat (Some idealFee) c in
          match sign idealFee with
          | Err e => (c, Err e)
          | Ok signature => (c, Ok [SEND (signed_message idealFee signature None c)])
          end
  end.

Definition peerSigValid (feeSatoshis : Z) (signature : buffer) : bool :=
  match verify with Some v => v feeSatoshis signature | None => true end.

(** The band of fees a taproot responder accepts, [(min, max)]. *)
Definition taproot_band (c : CloseState) : Z * Z :=
  let rate r := if r =? 0 then 253 else r in
  let bandFeeRate := Z.max (rate (c_feeratePerKw (s_localConfig (k_chan c))))
                       (Z.max (rate (c_feeratePerKw (s_remoteConfig (k_chan c)))) 253) in
  let bandWeight := closingTxWeight (script_len (k_localShutdownScript c))
                      (script_len (s_remoteShutdownScript (k_chan c))) true in
  let idealFee := Z.quot (bandWeight * bandFeeRate + 999) 1000 in
  let relayFloor := minRelayFeeForWeight bandWeight in
  let bandFloor := Z.quot idealFee 5 in
  (if relayFloor <? bandFloor then bandFloor else relayFloor,
   if is_opener c then idealFee * 2 else idealFee * 5).

Definition taproot_accept (msg : IClosingSignedMessage) (partialSignature : buffer)
    (c : CloseState) : close_outcome :=
  let fee := cl_feeSatoshis msg in
  let '(minAcceptableFee, maxAcceptableFee) := taproot_band c in
  if (maxAcceptableFee <? fee) || (fee <? minAcceptableFee)
  then bare "Taproot closing fee outside acceptable range" c
  else if is_opener c && (local_sat c <? fee + ownClosingOutputDustLimit c)
  then failChannelWithWireError "Taproot closing fee leaves our output below dust" c
  else if negb (is_opener c) && (remote_sat c <? fee)
  then failChannelWithWireError "Taproot closing fee exceeds opener balance" c
  else if negb (peerSigValid fee partialSignature)
  then failChannelWithWireError "Coop-close: peer closing partial signature failed to verify" c
  else if k_hasSignedClosing c then (c, Ok [])
  else match sign fee with
  | Err e => (c, Err e)
  | Ok partial =>
      let c := set_hasSignedClosing true c in
      let c := set_lastProposedClosingFeeSat (Some fee) c in
      let c := set_chan_state CLOSED c in
      (c, Ok [SEND (signed_message fee (alloc 64) (Some partial) c); closed_action c])
  end.

Definition _handleTaprootClosingSigned (msg : IClosingSignedMessage) (c : CloseState)
    : close_outcome :=
  match cl_partialSignature msg with
  | None => failChannelWithWireError
              "Taproot closing_signed missing the MuSig2 partial signature (TLV 6)" c
  | Some partialSignature =>
      if bool_decide (k_remoteClosingNonce c = None) || bool_decide (k_ourClosingNonce c = None)
      then bare "Taproot closing_signed before the shutdown nonce exchange completed" c
      else match k_lastProposedClosingFeeSat c with
      | Some last =>
          if negb (cl_feeSatoshis msg =? last)
          then failChannelWithWireError "Taproot closing fee must echo our offer" c
          else if negb (peerSigValid (cl_feeSatoshis msg) partialSignature)
          then failChannelWithWireError
                 "Coop-close: peer closing partial signature failed to verify" c
          else if negb (closingFeeRelays (cl_feeSatoshis msg) c)
          then refuseUnrelayableClosingFee "Cannot close on the agreed taproot fee" c
          else let c := set_chan_state CLOSED c in (c, Ok [closed_action c])
      | None => taproot_accept msg partialSignature c
      end
  end.

(** Our range, with the relay floor under its minimum. *)
Definition ready_fee_range (c : CloseState) : CloseState :=
  let c := match k_closingFeeMin c with
           | None => initClosingFeeRange (calculateIdealClosingFee c) c
           | Some _ => c
           end in
  if default 0 (k_closingFeeMin c) <? minRelayClosingFee c
  then set_closingFeeMin (Some (minRelayClosingFee c)) c else c.

(** The midpoint, clamped to our range. *)
Definition counter_fee (theirs : Z) (c : CloseState) : Z :=
  let ourLast := match k_lastProposedClosingFeeSat c with
                 | Some f => f | None => calculateIdealClosingFee c end in
  let counterFee := Z.quot (ourLast + theirs) 2 in
  let min := default 0 (k_closingFeeMin c) in
  let max := default 0 (k_closingFeeMax c) in
  let counterFee := if counterFee <? min then min else counterFee in
  let counterFee := if max <? counterFee then max else counterFee in
  if counterFee <? minRelayClosingFee c then closingFeePayerBalanceSat c else counterFee.

Definition counter_propose (theirs : Z) (c : CloseState) : close_outcome :=
  let counterFee := counter_fee theirs c in
  if negb (closingFeeRelays counterFee c)
  then bare "Cannot counter-propose a closing fee: the fee payer's balance cannot pay the minimum relay fee" c
  else
    let c := set_lastProposedClosingFeeSat (Some counterFee) c in
    match sign counterFee with
    | Err e => (c, Err e)
    | Ok sig => (c, Ok [SEND (signed_message counterFee sig None c)])
    end.

Definition in_range (fee : Z) (c : CloseState) : bool :=
  (default 0 (k_closingFeeMin c) <=? fee) && (fee <=? default 0 (k_closingFeeMax c)) &&
  closingFeeRelays fee c.

(** [handleClosingSigned] past its gates, on a channel that is not taproot. *)
Definition negotiate (msg : IClosingSignedMessage) (c : CloseState) : close_outcome :=
  let fee := cl_feeSatoshis msg in
  let c := ready_fee_range c in
  if negb (peerSigValid fee (cl_signature msg))
  then failChannelWithWireError "Coop-close: peer closing signature failed to verify" c
  else if bool_decide (k_lastProposedClosingFeeSat c = Some fee) && closingFeeRelays fee c
  then let c := set_chan_state CLOSED c in (c, Ok [closed_action c])
  else if in_range fee c then
    match sign fee with
    | Err e => (c, Err e)
    | Ok sig =>
        let c := set_lastProposedClosingFeeSat (Some fee) c in
        let c := set_chan_state CLOSED c in
        (c, Ok [SEND (signed_message fee sig None c); closed_action c])
    end
  else counter_propose fee c.

Definition handleClosingSigned (msg : IClosingSignedMessage) (c : CloseState) : close_outcome :=
  if negb (closing_state c) then bare "Unexpected closing_signed" c
  else if isMutualCloseHeld c then refuseHeldMutualClose c
  else match closingBlockedBy c with
  | Some blocked => bare ("Unexpected closing_signed: " ++ blocked) c
  | None =>
      let c := set_chan_state NEGOTIATING_CLOSING c in
      let c := set_theirLastClosingFeeSat (Some (cl_feeSatoshis msg)) c in
      if taproot c then _handleTaprootClosingSigned msg c else negotiate msg c
  end.

End Signed.
