(* ===== verification/SimpleClose.v ===== *)
(** * Cooperative close with option_simple_close (src/src/lightning/channel/channel.ts)

    closing_complete and closing_sig: each side offers, as the closer, transactions whose fee comes
    out of its own output, and answers, as the closee, the offer of the peer.  The signer's callbacks
    are arguments; they are given the variant, the fee, the locktime and the two scripts. *)

From S2P Require Import Prelude Buffer CommitmentTx Scripts WireClose.
From S2P Require Import ChannelTypes Channel ClosingTx ClosingTypes Closing.
Local Open Scope Z_scope.

Definition SIMPLE_CLOSE_LOCKTIME_FUTURE_TOLERANCE := 6.

(** The variants a closer signs, or why it cannot. *)
Definition selectCloserVariants (feeSatoshis : Z) (closerScript closeeScript : buffer)
    (c : CloseState) : result (list SimpleCloseVariant) :=
  let ourValue := local_sat c - feeSatoshis in
  let theirValue := remote_sat c in
  let ourDust := isDustOutput closerScript ourValue in
  let theirDust := isDustOutput closeeScript theirValue in
  if bool_decide (is_Some (k_externalClose c)) && ourDust
  then Err "Cannot close cooperatively: external payout would be dust"
  else if ourDust && theirDust
  then Err "Simple close: both outputs would be dust; use force-close"
  else if ourDust then Ok [CLOSEE_OUTPUT_ONLY]
  else if theirDust then Ok [CLOSER_OUTPUT_ONLY]
  else if s_localBalanceMsat (k_chan c) <? s_remoteBalanceMsat (k_chan c)
  then Ok [CLOSER_AND_CLOSEE]
  else Ok [CLOSER_OUTPUT_ONLY; CLOSER_AND_CLOSEE].

(** A signature in the field of its variant. *)
Definition with_variant_sig (variant : SimpleCloseVariant) (sig : buffer)
    (m : IClosingCompleteMessage) : IClosingCompleteMessage :=
  {| cc_channelId := cc_channelId m; cc_closerScriptPubkey := cc_closerScriptPubkey m;
     cc_closeeScriptPubkey := cc_closeeScriptPubkey m; cc_feeSatoshis := cc_feeSatoshis m;
     cc_locktime := cc_locktime m;
     cc_closerOutputOnlySig := match variant with
       | CLOSER_OUTPUT_ONLY => Some sig | _ => cc_closerOutputOnlySig m end;
     cc_closeeOutputOnlySig := match variant with
       | CLOSEE_OUTPUT_ONLY => Some sig | _ => cc_closeeOutputOnlySig m end;
     cc_closerAndCloseeSig := match variant with
       | CLOSER_AND_CLOSEE => Some sig | _ => cc_closerAndCloseeSig m end |}.

Definition unsigned_complete (channelId closerScript closeeScript : buffer) (fee locktime : Z)
    : IClosingCompleteMessage :=
  {| cc_channelId := channelId; cc_closerScriptPubkey := closerScript;
     cc_closeeScriptPubkey := closeeScript; cc_feeSatoshis := fee; cc_locktime := locktime;
     cc_closerOutputOnlySig := None; cc_closeeOutputOnlySig := None;
     cc_closerAndCloseeSig := None |}.

(** The signatures of a message, in the order the code collects them. *)
Definition message_sigs (m : IClosingCompleteMessage) : list (SimpleCloseVariant * buffer) :=
  (match cc_closerOutputOnlySig m with Some s => [(CLOSER_OUTPUT_ONLY, s)] | None => [] end) ++
  (match cc_closeeOutputOnlySig m with Some s => [(CLOSEE_OUTPUT_ONLY, s)] | None => [] end) ++
  (match cc_closerAndCloseeSig m with Some s => [(CLOSER_AND_CLOSEE, s)] | None => [] end).

(** What [handleClosingComplete] asks the profile for; no dust limits are given. *)
Definition complete_profile (msg : IClosingCompleteMessage) (c : CloseState) : IClosingRelayParams :=
  {| rp_fundingAmount := s_fundingSatoshis (k_chan c);
     rp_localScriptPubkey := cc_closeeScriptPubkey msg;
     rp_remoteScriptPubkey := cc_closerScriptPubkey msg;
     rp_localAmount := local_sat c;
     rp_remoteAmount := remote_sat c - cc_feeSatoshis msg;
     rp_localDustLimit := None; rp_remoteDustLimit := None; rp_isTaproot := taproot c |}.

(** Why a closing_complete is refused before a signature is looked at. *)
Definition complete_refusal (msg : IClosingCompleteMessage) (c : CloseState) : option string :=
  let locktime := cc_locktime msg in
  let height := k_currentBlockHeight c in
  let '(feePaid, weight) := closingTxRelayProfile (complete_profile msg c) in
  if negb (flag_true (k_simpleClose c))
  then Some "Unexpected closing_complete: simple close not negotiated"
  else if remote_sat c <? cc_feeSatoshis msg
  then Some "closing_complete: fee exceeds closer balance"
  else if feePaid <? minRelayFeeForWeight weight
  then Some "closing_complete: fee below the relay floor"
  else if 500000000 <=? locktime then Some "closing_complete: locktime is not a block height"
  else if (0 <? locktime) && (height <=? 0)
  then Some "closing_complete: no chain tip to validate locktime against"
  else if (0 <? locktime) && (height + SIMPLE_CLOSE_LOCKTIME_FUTURE_TOLERANCE <? locktime)
  then Some "closing_complete: locktime is beyond our chain tip"
  else if negb (bool_decide (k_localShutdownScript c = Some (cc_closeeScriptPubkey msg)))
  then Some "closing_complete: closee script does not match ours"
  else if negb (isValidShutdownScript (cc_closerScriptPubkey msg) true true)
  then Some "closing_complete: invalid closer script"
  else None.

(** The variant the closee signs, with the closer's signature for it. *)
Definition closee_choice (msg : IClosingCompleteMessage) (c : CloseState)
    : result (SimpleCloseVariant * buffer) :=
  let ourDust := isDustOutput (cc_closeeScriptPubkey msg) (local_sat c) in
  if bool_decide (is_Some (k_externalClose c)) && ourDust
  then Err "Cannot close cooperatively: external payout would be dust"
  else if ourDust then
    match cc_closerOutputOnlySig msg with
    | None => Err "closing_complete: our output is dust but no closer_output_only sig"
    | Some sig => Ok (CLOSER_OUTPUT_ONLY, sig)
    end
  else match cc_closerAndCloseeSig msg, cc_closeeOutputOnlySig msg with
  | Some sig, _ => Ok (CLOSER_AND_CLOSEE, sig)
  | None, Some sig => Ok (CLOSEE_OUTPUT_ONLY, sig)
  | None, None => Err "closing_complete: peer offered only closer_output_only for our non-dust output"
  end.

Section Simple.
Context (signFn : SimpleCloseVariant -> Z -> Z -> buffer -> buffer -> result buffer)
        (verifyFn : SimpleCloseVariant -> Z -> Z -> buffer -> buffer -> buffer -> bool).

(** ** The closer *)

Fixpoint sign_variants (variants : list SimpleCloseVariant) (m : IClosingCompleteMessage)
    : result IClosingCompleteMessage :=
  match variants with
  | [] => Ok m
  | v :: variants =>
      sig ← signFn v (cc_feeSatoshis m) (cc_locktime m) (cc_closerScriptPubkey m)
              (cc_closeeScriptPubkey m);
      sign_variants variants (with_variant_sig v sig m)
  end.

Definition sendClosingComplete (feeSatoshis locktime : Z) (c : CloseState) : close_outcome :=
  if negb (closing_state c) then bare "Cannot send closing_complete: wrong state" c
  else if isMutualCloseHeld c then refuseHeldMutualClose c
  else match closingBlockedBy c with
  | Some blocked => bare ("Cannot send closing_complete: " ++ blocked) c
  | None =>
      if negb (flag_true (k_simpleClose c))
      then bare "Cannot send closing_complete: simple close not negotiated" c
      else if flag_true (k_awaitingClosingSig c)
      then bare "Cannot send closing_complete: awaiting closing_sig for previous one" c
      else match k_localShutdownScript c, s_remoteShutdownScript (k_chan c) with
      | Some ((_ :: _) as closerScript), Some closeeScript =>
          if feeSatoshis <? 0 then bare "Cannot send closing_complete: negative fee" c
          else if local_sat c <? feeSatoshis
          then bare "Cannot send closing_complete: fee exceeds our balance" c
          else if match k_lastLocalClosingComplete c with
                  | Some prev => feeSatoshis <=? lc_feeSatoshis prev | None => false end
          then bare "Cannot send closing_complete: RBF fee must increase" c
          else match selectCloserVariants feeSatoshis closerScript closeeScript c with
          | Err error => bare error c
          | Ok variants =>
              match sign_variants variants
                      (unsigned_complete (chan_id c) closerScript closeeScript feeSatoshis locktime)
              with
              | Err e => (c, Err e)
              | Ok msg =>
                  let c := set_chan_state NEGOTIATING_CLOSING c in
                  let c := set_lastLocalClosingComplete
                             (Some {| lc_feeSatoshis := feeSatoshis; lc_locktime := locktime;
                                      lc_closerScript := closerScript;
                                      lc_closeeScript := closeeScript;
                                      lc_sentVariants := variants |}) c in
                  let c := set_awaitingClosingSig (Some true) c in
                  (c, Ok [SEND (M_CLOSING_COMPLETE msg)])
              end
          end
      | _, _ => bare "Cannot send closing_complete: shutdown scripts not set" c
      end
  end.

Definition bumpClosingFee (newFeeSatoshis locktime : Z) (c : CloseState) : close_outcome :=
  match k_lastLocalClosingComplete c with
  | None => bare "Cannot bump closing fee: no closing_complete sent yet" c
  | Some _ => sendClosingComplete newFeeSatoshis locktime c
  end.

(** ** The closee *)

Definition simple_closed (c : CloseState) : bool :=
  bool_decide (k_state c = CLOSED) && flag_true (k_simpleClose c).

(** Verify the chosen signature, sign, and close unless the channel is closed already. *)
Definition answer_complete (alreadyClosed : bool) (msg : IClosingCompleteMessage)
    (variant : SimpleCloseVariant) (theirSig : buffer) (c : CloseState) : close_outcome :=
  let fee := cc_feeSatoshis msg in
  let locktime := cc_locktime msg in
  let closer := cc_closerScriptPubkey msg in
  let closee := cc_closeeScriptPubkey msg in
  if negb (verifyFn variant fee locktime closer closee theirSig)
  then bare "closing_complete: peer signature failed to verify" c
  else match signFn variant fee locktime closer closee with
  | Err e => (c, Err e)
  | Ok ourSig =>
      let reply := with_variant_sig variant ourSig
                     (unsigned_complete (chan_id c) closer closee fee locktime) in
      if alreadyClosed then (c, Ok [SEND (M_CLOSING_SIG reply)])
      else let c := set_chan_state CLOSED c in
           (c, Ok [SEND (M_CLOSING_SIG reply); closed_action c])
  end.

Definition handleClosingComplete (msg : IClosingCompleteMessage) (c : CloseState) : close_outcome :=
  let alreadyClosed := simple_closed c in
  if negb (closing_state c) && negb alreadyClosed then bare "Unexpected closing_complete" c
  else if isMutualCloseHeld c then refuseHeldMutualClose c
  else match closingBlockedBy c with
  | Some blocked => bare ("Unexpected closing_complete: " ++ blocked) c
  | None =>
      match complete_refusal msg c with
      | Some reason => bare reason c
      | None =>
          let c := set_remoteShutdownScript (Some (cc_closerScriptPubkey msg)) c in
          let c := if alreadyClosed then c else set_chan_state NEGOTIATING_CLOSING c in
          match closee_choice msg c with
          | Err reason => bare reason c
          | Ok (variant, theirSig) => answer_complete alreadyClosed msg variant theirSig c
          end
      end
  end.

(** ** The closer again *)

Definition echoes (msg : IClosingCompleteMessage) (last : ILocalClosingComplete) : bool :=
  (cc_feeSatoshis msg =? lc_feeSatoshis last) && (cc_locktime msg =? lc_locktime last) &&
  bool_decide (cc_closerScriptPubkey msg = lc_closerScript last) &&
  bool_decide (cc_closeeScriptPubkey msg = lc_closeeScript last).

Definition handleClosingSig (msg : IClosingCompleteMessage) (c : CloseState) : close_outcome :=
  let alreadyClosed := simple_closed c in
  if negb (bool_decide (k_state c = NEGOTIATING_CLOSING)) && negb alreadyClosed
  then bare "Unexpected closing_sig" c
  else if isMutualCloseHeld c then refuseHeldMutualClose c
  else match closingBlockedBy c with
  | Some blocked => bare ("Unexpected closing_sig: " ++ blocked) c
  | None =>
      match k_lastLocalClosingComplete c, flag_true (k_awaitingClosingSig c) with
      | Some last, true =>
          if negb (echoes msg last) then bare "closing_sig does not echo our closing_complete" c
          else match message_sigs msg with
          | [(variant, sig)] =>
              if negb (bool_decide (variant ∈ lc_sentVariants last))
              then bare "closing_sig signature variant was not offered by us" c
              else if negb (verifyFn variant (cc_feeSatoshis msg) (cc_locktime msg)
                              (cc_closerScriptPubkey msg) (cc_closeeScriptPubkey msg) sig)
              then bare "closing_sig: peer signature failed to verify" c
              else
                let c := set_awaitingClosingSig (Some false) c in
                if alreadyClosed then (c, Ok [])
                else let c := set_chan_state CLOSED c in (c, Ok [closed_action c])
          | _ => bare "closing_sig must carry exactly one signature" c
          end
      | _, _ => bare "closing_sig without a pending closing_complete" c
      end
  end.

End Simple.
