(* ===== verification/ClosingManager.v ===== *)
(** * Closing at the channel manager (src/src/lightning/channel/channel-manager.ts)

    The manager builds the closing transaction a channel asks to sign or verify, and broadcasts the
    mutual close once the channel has agreed.  The model is the one of a channel that is not
    taproot.  The signer is an argument; the encoding of a signature is a library's.  The decoding
    of the messages is Messages.v; the lookup of the channel, the dispatch of the returned actions, the
    events and the history kept for an external close are left out.  The callbacks are given the channel as it was before the handler:
    what they read of it (balances, scripts, keys, the funding output) no handler here changes.  A
    null dereference is the error ["TypeError"]. *)

From S2P Require Import Prelude Buffer CommitmentTx Scripts WireClose.
From S2P Require Import ChannelTypes Channel ClosingTx ClosingTypes Closing SimpleClose.
From Stdlib Require Import Strings.Byte.
Local Open Scope Z_scope.

(** What the code returns of a closing transaction that is built. *)
Record BuiltClose := {
  bc_tx : Transaction;
  bc_witnessScript : buffer;
  bc_fundingSatoshis : Z;
  bc_localFundingPubkey : buffer;
  bc_remoteFundingPubkey : buffer
}.

Record SignedClose := { sc_tx : Transaction; sc_witness : list buffer }.

(** The state, the actions and the transaction that is broadcast, by an event or, for an external
    close, by an action after a persist. *)
Record ManagerOut := {
  mo_state : CloseState;
  mo_actions : result (list CloseAction);
  mo_broadcast : option SignedClose
}.

Definition deref {A} (x : option A) : result A :=
  match x with Some a => Ok a | None => Err "TypeError" end.

Definition is_closed_action (a : CloseAction) : bool :=
  match a with CHANNEL_CLOSED _ => true | _ => false end.

Definition applyClosingFeerate (rate : option Z) (c : CloseState) : CloseState :=
  match rate with
  | Some rate => if 0 <? rate then setClosingFeeratePerKw rate c else c
  | None => c
  end.

Definition markNegotiatingClosing (c : CloseState) : CloseState := set_chan_state NEGOTIATING_CLOSING c.

(** The single signature of a message, with its variant. *)
Definition singleClosingSig (msg : IClosingCompleteMessage) : option (SimpleCloseVariant * buffer) :=
  match message_sigs msg with [x] => Some x | _ => None end.

(** The actions that go with a broadcast. *)
Definition broadcast_actions (actions : list CloseAction) (c : CloseState) : list CloseAction :=
  match k_externalClose c with Some _ => PERSIST :: actions | None => actions end.

Section Manager.
Context `{L : BitcoinLib}.
Context (toDer : buffer -> buffer)
        (signClosing : Transaction -> buffer -> Z -> buffer)
        (verifyCommitmentSig : Transaction -> buffer -> buffer -> buffer -> Z -> bool).

(** ** Building *)

Definition with_funding_script (tx : Transaction) (c : CloseState) : result BuiltClose :=
  let st := k_chan c in
  remote ← deref (s_remoteBasepoints st);
  witnessScript ← createFundingScript (bp_fundingPubkey (s_localBasepoints st))
                    (bp_fundingPubkey remote);
  Ok {| bc_tx := tx; bc_witnessScript := witnessScript;
        bc_fundingSatoshis := s_fundingSatoshis st;
        bc_localFundingPubkey := bp_fundingPubkey (s_localBasepoints st);
        bc_remoteFundingPubkey := bp_fundingPubkey remote |}.

Definition closing_params (feeSatoshis : Z) (omitRemoteOutput : bool)
    (txid localScript remoteScript : buffer) (c : CloseState) : IClosingTxParams :=
  let st := k_chan c in
  {| ct_fundingTxid := txid; ct_fundingOutputIndex := s_fundingOutputIndex st;
     ct_fundingAmount := s_fundingSatoshis st;
     ct_localScriptPubkey := localScript; ct_remoteScriptPubkey := remoteScript;
     ct_localAmount := if is_opener c then local_sat c - feeSatoshis else local_sat c;
     ct_remoteAmount := if omitRemoteOutput then 0
                        else if is_opener c then remote_sat c else remote_sat c - feeSatoshis;
     ct_feeAmount := feeSatoshis;
     ct_localDustLimit := Some (c_dustLimitSatoshis (s_localConfig st));
     ct_remoteDustLimit := Some (c_dustLimitSatoshis (s_remoteConfig st));
     ct_sequence := Some (if taproot c then 0xfffffffd else 0xffffffff) |}.

Definition buildClosingTxAndScript (feeSatoshis : Z) (omitRemoteOutput : bool) (c : CloseState)
    : result BuiltClose :=
  txid ← deref (s_fundingTxid (k_chan c));
  localScript ← deref (k_localShutdownScript c);
  remoteScript ← deref (s_remoteShutdownScript (k_chan c));
  with_funding_script
    (cr_tx (buildClosingTx (closing_params feeSatoshis omitRemoteOutput txid localScript
              remoteScript c))) c.

Definition buildSimpleClosingTxAndScript (variant : SimpleCloseVariant) (feeSatoshis locktime : Z)
    (closerIsLocal : bool) (closerScript closeeScript : buffer) (c : CloseState)
    : result BuiltClose :=
  txid ← deref (s_fundingTxid (k_chan c));
  r ← buildSimpleClosingTx
        {| sp_fundingTxid := txid; sp_fundingOutputIndex := s_fundingOutputIndex (k_chan c);
           sp_closerScriptPubkey := closerScript; sp_closeeScriptPubkey := closeeScript;
           sp_closerAmount := if closerIsLocal then local_sat c else remote_sat c;
           sp_closeeAmount := if closerIsLocal then remote_sat c else local_sat c;
           sp_feeSatoshis := feeSatoshis; sp_locktime := locktime; sp_variant := variant |};
  with_funding_script (sr_tx r) c.

Definition sign_built (built : BuiltClose) : buffer :=
  signClosing (bc_tx built) (bc_witnessScript built) (bc_fundingSatoshis built).

(** [signer.verifyCommitmentSig] over a transaction that is built. *)
Definition covers (theirSig : buffer) (built : BuiltClose) : bool :=
  verifyCommitmentSig (bc_tx built) theirSig (bc_remoteFundingPubkey built)
    (bc_witnessScript built) (bc_fundingSatoshis built).

Definition buildFundingWitness (localSig remoteSig localFundingPubkey remoteFundingPubkey
    fundingWitnessScript : buffer) : list buffer :=
  let localDer := toDer localSig ++ [x01] in
  let remoteDer := toDer remoteSig ++ [x01] in
  if buf_compare localFundingPubkey remoteFundingPubkey <? 0
  then [[]; localDer; remoteDer; fundingWitnessScript]
  else [[]; remoteDer; localDer; fundingWitnessScript].

Definition with_witness (theirSig : buffer) (built : BuiltClose) : SignedClose :=
  {| sc_tx := bc_tx built;
     sc_witness := buildFundingWitness (sign_built built) theirSig (bc_localFundingPubkey built)
                     (bc_remoteFundingPubkey built) (bc_witnessScript built) |}.

(** ** closing_signed *)

Definition signClosingTx (c : CloseState) (feeSatoshis : Z) : result buffer :=
  built ← buildClosingTxAndScript feeSatoshis false c;
  Ok (sign_built built).

Definition buildVerifiedLegacyCloseTx (feeSatoshis : Z) (theirSig : buffer) (c : CloseState)
    : result (option BuiltClose) :=
  canonical ← buildClosingTxAndScript feeSatoshis false c;
  if covers theirSig canonical then Ok (Some canonical)
  else if Z.of_nat (length (tx_outs (bc_tx canonical))) <? 2 then Ok None
  else
    eliminated ← buildClosingTxAndScript feeSatoshis true c;
    Ok (if covers theirSig eliminated then Some eliminated else None).

Definition verifyPeerClosingSig (c : CloseState) (feeSatoshis : Z) (theirSig : buffer) : bool :=
  match buildVerifiedLegacyCloseTx feeSatoshis theirSig c with
  | Ok (Some _) => true
  | _ => false
  end.

Definition buildSignedMutualCloseTx (feeSatoshis : Z) (theirSig : buffer) (c : CloseState)
    : option SignedClose :=
  match buildVerifiedLegacyCloseTx feeSatoshis theirSig c with
  | Ok (Some built) => Some (with_witness theirSig built)
  | _ => None
  end.

Definition handleClosingSignedMsg (rate : option Z) (msg : IClosingSignedMessage) (c : CloseState)
    : ManagerOut :=
  let c := applyClosingFeerate rate c in
  let '(c', r) := handleClosingSigned (signClosingTx c) (Some (verifyPeerClosingSig c)) msg c in
  match r with
  | Err e => {| mo_state := c'; mo_actions := Err e; mo_broadcast := None |}
  | Ok actions =>
      if existsb is_closed_action actions then
        match buildSignedMutualCloseTx (cl_feeSatoshis msg) (cl_signature msg) c' with
        | Some closeTx =>
            {| mo_state := c'; mo_actions := Ok (broadcast_actions actions c');
               mo_broadcast := Some closeTx |}
        | None =>
            {| mo_state := markNegotiatingClosing c';
               mo_actions := Ok (PERSIST :: List.filter (fun a => negb (is_closed_action a)) actions);
               mo_broadcast := None |}
        end
      else {| mo_state := c'; mo_actions := Ok actions; mo_broadcast := None |}
  end.

(** ** option_simple_close *)

Definition signSimpleClosingTx (closerIsLocal : bool) (c : CloseState) (variant : SimpleCloseVariant)
    (feeSatoshis locktime : Z) (closerScript closeeScript : buffer) : result buffer :=
  built ← buildSimpleClosingTxAndScript variant feeSatoshis locktime closerIsLocal closerScript
            closeeScript c;
  Ok (sign_built built).

Definition verifyPeerSimpleClosingSig (closerIsLocal : bool) (c : CloseState)
    (variant : SimpleCloseVariant) (feeSatoshis locktime : Z) (closerScript closeeScript : buffer)
    (theirSig : buffer) : bool :=
  match buildSimpleClosingTxAndScript variant feeSatoshis locktime closerIsLocal closerScript
          closeeScript c with
  | Ok built => covers theirSig built
  | Err _ => false
  end.

Definition buildSignedSimpleMutualCloseTx (closerIsLocal : bool) (variant : SimpleCloseVariant)
    (feeSatoshis locktime : Z) (closerScript closeeScript theirSig : buffer) (c : CloseState)
    : option SignedClose :=
  match buildSimpleClosingTxAndScript variant feeSatoshis locktime closerIsLocal closerScript
          closeeScript c with
  | Ok built => if covers theirSig built then Some (with_witness theirSig built) else None
  | Err _ => None
  end.

Definition startSimpleClose (rate : option Z) (c : CloseState) : close_outcome :=
  let c := applyClosingFeerate rate c in
  match k_localShutdownScript c, s_remoteShutdownScript (k_chan c) with
  | Some ((_ :: _) as localScript), Some remoteScript =>
      let fee := estimateSimpleCloseFee (getClosingFeeratePerKw c) (blen localScript)
                   (blen remoteScript) in
      if local_sat c <? fee then (c, Ok [])
      else sendClosingComplete (signSimpleClosingTx true c) fee 0 c
  | _, _ => (c, Ok [])
  end.

Definition startClosingNegotiation (rate : option Z) (c : CloseState) : close_outcome :=
  if isSimpleClose c then startSimpleClose rate c
  else if is_opener c then
    let c := applyClosingFeerate rate c in proposeClosingFee (signClosingTx c) c
  else (c, Ok []).

(** A close that is signed, or the actions without the one that ends the watch. *)
Definition broadcast_or_keep (closeTx : option SignedClose) (actions : list CloseAction)
    (c : CloseState) : ManagerOut :=
  match closeTx with
  | Some tx => {| mo_state := c; mo_actions := Ok (broadcast_actions actions c);
                  mo_broadcast := Some tx |}
  | None => {| mo_state := c;
               mo_actions := Ok (List.filter (fun a => negb (is_closed_action a)) actions);
               mo_broadcast := None |}
  end.

Definition find_sig_reply (actions : list CloseAction) : option IClosingCompleteMessage :=
  head (omap (fun a => match a with SEND (M_CLOSING_SIG m) => Some m | _ => None end) actions).

(** The peer's signature for a variant. *)
Definition sig_of (variant : SimpleCloseVariant) (msg : IClosingCompleteMessage) : option buffer :=
  match variant with
  | CLOSER_OUTPUT_ONLY => cc_closerOutputOnlySig msg
  | CLOSEE_OUTPUT_ONLY => cc_closeeOutputOnlySig msg
  | CLOSER_AND_CLOSEE => cc_closerAndCloseeSig msg
  end.

Definition handleClosingCompleteMsg (msg : IClosingCompleteMessage) (c : CloseState) : ManagerOut :=
  let '(c', r) := handleClosingComplete (signSimpleClosingTx false c)
                    (verifyPeerSimpleClosingSig false c) msg c in
  match r with
  | Err e => {| mo_state := c'; mo_actions := Err e; mo_broadcast := None |}
  | Ok actions =>
      match find_sig_reply actions with
      | None => {| mo_state := c'; mo_actions := Ok actions; mo_broadcast := None |}
      | Some reply =>
          let closeTx :=
            '(variant, _) ← singleClosingSig reply;
            theirSig ← sig_of variant msg;
            buildSignedSimpleMutualCloseTx false variant (cc_feeSatoshis msg) (cc_locktime msg)
              (cc_closerScriptPubkey msg) (cc_closeeScriptPubkey msg) theirSig c' in
          broadcast_or_keep closeTx actions c'
      end
  end.

Definition handleClosingSigMsg (msg : IClosingCompleteMessage) (c : CloseState) : ManagerOut :=
  let '(c', r) := handleClosingSig (verifyPeerSimpleClosingSig true c) msg c in
  match r with
  | Err e => {| mo_state := c'; mo_actions := Err e; mo_broadcast := None |}
  | Ok actions =>
      if existsb is_fault actions
      then {| mo_state := c'; mo_actions := Ok actions; mo_broadcast := None |}
      else
        let closeTx :=
          '(variant, sig) ← singleClosingSig msg;
          buildSignedSimpleMutualCloseTx true variant (cc_feeSatoshis msg) (cc_locktime msg)
            (cc_closerScriptPubkey msg) (cc_closeeScriptPubkey msg) sig c' in
        broadcast_or_keep closeTx actions c'
  end.

(** The RBF entry: our fee again, at locktime 0. *)
Definition bumpCloseFee (feeSatoshis : Z) (c : CloseState) : close_outcome :=
  bumpClosingFee (signSimpleClosingTx true c) feeSatoshis 0 c.

Definition getDefaultShutdownScript (walletDestinationScript : option buffer) (fundingPubkey : buffer)
    : buffer :=
  match walletDestinationScript with
  | Some script => if isValidShutdownScript script true false then script else p2wpkh fundingPubkey
  | None => p2wpkh fundingPubkey
  end.

(** The peer's shutdown, and our first move when it finds the channel empty. *)
Definition handleShutdownMsg (nonce : buffer) (ffor : option string) (simple : bool)
    (rate : option Z) (defaultScript : buffer) (msg : IShutdownMessage) (c : CloseState)
    : CloseState * result (list CloseAction) :=
  let c := setSimpleClose simple c in
  match handleShutdown nonce ffor msg (Some defaultScript) c with
  | (c, Err e) => (c, Err e)
  | (c, Ok actions) =>
      if bool_decide (k_state c = NEGOTIATING_CLOSING) then
        let '(c, r) := startClosingNegotiation rate c in
        (c, r ≫= fun more => Ok (actions ++ more))
      else (c, Ok actions)
  end.

Definition maybeStartClosingNegotiation (rate : option Z) (c : CloseState)
    : CloseState * result (list CloseAction) :=
  let '(c, ready) := beginClosingNegotiationIfReady c in
  if ready then
    let '(c, r) := startClosingNegotiation rate c in
    (c, r ≫= fun more => Ok (PERSIST :: more))
  else (c, Ok []).

(** The end of handleChannelReestablish for a channel that was closing. *)
Definition resume_close (nonce : buffer) (simple : bool) (rate : option Z) (c : CloseState)
    : CloseState * result (list CloseAction) :=
  if negb (closing_state c) then (c, Ok [])
  else if isMutualCloseHeld c then refuseHeldMutualClose c
  else
    let negotiating := bool_decide (k_state c = NEGOTIATING_CLOSING) in
    let c := resetSimpleCloseNegotiation (setSimpleClose simple c) in
    let '(c, sent) :=
      match k_localShutdownScript c with
      | Some (_ :: _) => let '(c, m) := buildShutdownRetransmit nonce c in (c, [SEND (M_SHUTDOWN m)])
      | _ => (c, [])
      end in
    if negotiating then
      let '(c, r) := startClosingNegotiation rate c in
      (c, r ≫= fun more => Ok (sent ++ more))
    else (c, Ok sent).

End Manager.
