(* ===== verification/ClosingSafety.v ===== *)
(** * What a cooperative close guarantees

    The handlers of Closing.v and SimpleClose.v against their callers: what is left behind when one
    refuses, and what has been signed when one closes. *)

From S2P Require Import Prelude Buffer CommitmentTx Scripts WireBasic WireClose.
From S2P Require Import ChannelTypes CommitmentBuilder HtlcAdmission Channel Text.
From S2P Require Import ClosingTx ClosingTypes Closing SimpleClose ClosingManager.
From Stdlib Require Import Strings.Byte Sorting.Permutation.
Local Open Scope Z_scope.

(** ** The terms of a close *)

(** What a closing transaction is made from; no stage of the negotiation changes it. *)
Definition terms (c : CloseState) :=
  let st := k_chan c in
  (s_role st, s_localBalanceMsat st, s_remoteBalanceMsat st, s_localConfig st, s_remoteConfig st,
   (s_fundingTxid st, s_fundingOutputIndex st, s_fundingSatoshis st, s_channelType st),
   (k_localShutdownScript c, s_remoteShutdownScript st, s_localBasepoints st, s_remoteBasepoints st),
   k_externalClose c).

(** Rewrite with the equations of equal terms. *)
Ltac by_terms :=
  intros;
  match goal with H : terms ?c = terms ?d |- _ =>
    unfold terms in H; cbv zeta in H; injection H; clear H; intros
  end;
  repeat match goal with H : _ = _ |- _ => rewrite H; clear H end.

Lemma relays_terms c d fee : terms c = terms d -> closingFeeRelays fee c = closingFeeRelays fee d.
Proof.
  unfold closingFeeRelays, fee_profile, ownClosingOutputDustLimit, is_opener, local_sat, remote_sat,
    taproot. by by_terms.
Qed.

Lemma floor_terms c d : terms c = terms d -> minRelayClosingFee c = minRelayClosingFee d.
Proof. unfold minRelayClosingFee, taproot. by by_terms. Qed.

Lemma ready_terms c : terms (ready_fee_range c) = terms c.
Proof. unfold ready_fee_range. repeat case_match; reflexivity. Qed.

Lemma rate_terms r c : terms (applyClosingFeerate r c) = terms c.
Proof. unfold applyClosingFeerate, setClosingFeeratePerKw. repeat case_match; reflexivity. Qed.

Section Build.
Context `{L : BitcoinLib}.

Lemma build_terms c d fee omit :
  terms c = terms d -> buildClosingTxAndScript fee omit c = buildClosingTxAndScript fee omit d.
Proof.
  unfold buildClosingTxAndScript, closing_params, with_funding_script, is_opener, local_sat,
    remote_sat, taproot. by by_terms.
Qed.

(** The transaction that is built, with where its parts come from. *)
Lemma close_build_inv fee omit c b :
  buildClosingTxAndScript fee omit c = Ok b ->
  exists txid ls rs remote,
    s_fundingTxid (k_chan c) = Some txid /\ k_localShutdownScript c = Some ls /\
    s_remoteShutdownScript (k_chan c) = Some rs /\ s_remoteBasepoints (k_chan c) = Some remote /\
    bc_tx b = cr_tx (buildClosingTx (closing_params fee omit txid ls rs c)) /\
    createFundingScript (bp_fundingPubkey (s_localBasepoints (k_chan c))) (bp_fundingPubkey remote) =
      Ok (bc_witnessScript b) /\
    bc_fundingSatoshis b = s_fundingSatoshis (k_chan c) /\
    bc_localFundingPubkey b = bp_fundingPubkey (s_localBasepoints (k_chan c)) /\
    bc_remoteFundingPubkey b = bp_fundingPubkey remote.
Proof.
  unfold buildClosingTxAndScript, with_funding_script, deref.
  intros H. destruct (s_fundingTxid (k_chan c)) as [txid|]; [|done].
  destruct (k_localShutdownScript c) as [ls|]; [|done].
  destruct (s_remoteShutdownScript (k_chan c)) as [rs|]; [|done].
  destruct (s_remoteBasepoints (k_chan c)) as [remote|]; [|done].
  apply bind_Ok_inv in H as (? & [= <-] & H). apply bind_Ok_inv in H as (? & [= <-] & H).
  apply bind_Ok_inv in H as (? & [= <-] & H). apply bind_Ok_inv in H as (? & [= <-] & H).
  apply bind_Ok_inv in H as (w & Hw & [= <-]).
  by exists txid, ls, rs, remote.
Qed.

End Build.

(** ** What relays *)

(** A fee that passes the check is one the closing transaction pays. *)
Lemma fee_relays `{L : BitcoinLib} fee c b :
  buildClosingTxAndScript fee false c = Ok b -> closingFeeRelays fee c = true ->
  relays (s_fundingSatoshis (k_chan c)) (taproot c) (bc_tx b).
Proof.
  intros (txid & ls & rs & remote & _ & Hl & Hr & _ & -> & _)%close_build_inv.
  unfold closingFeeRelays. destruct (bool_decide _ && _); [done|].
  assert (fee_profile fee c = relay_params (taproot c) (closing_params fee false txid ls rs c)) as ->.
  { unfold fee_profile, relay_params. by rewrite Hl, Hr. }
  rewrite relay_profile_exact. unfold relays.
  set (tx := cr_tx _). change (ct_fundingAmount _) with (s_fundingSatoshis (k_chan c)).
  assert (0 < minRelayFeeForWeight (tx_weight (taproot c) tx)) by apply min_relay_pos. lia.
Qed.

(** BOLT 2 lets the peer drop its own output. *)
Lemma eliminated_outs fee txid ls rs c :
  exists rest,
    Permutation (tx_outs (cr_tx (buildClosingTx (closing_params fee false txid ls rs c))))
      (tx_outs (cr_tx (buildClosingTx (closing_params fee true txid ls rs c))) ++ rest) /\
    forall o, In o rest -> 0 <= o.2.
Proof.
  pose proof (dust_limit_pos rs (Some (c_dustLimitSatoshis (s_remoteConfig (k_chan c))))) as Hd.
  assert (Hz : (closingOutputDustLimit rs (Some (c_dustLimitSatoshis (s_remoteConfig (k_chan c))))
                  <=? 0) = false) by (apply Z.leb_gt; lia).
  exists (map entry_out (drop (length (closing_outputs (closing_params fee true txid ls rs c)))
                          (closing_outputs (closing_params fee false txid ls rs c)))).
  split.
  - rewrite !closing_outs_perm, <- map_app. apply Permutation_map.
    unfold closing_outputs, closing_params. cbn -[closingOutputDustLimit]. rewrite Hz.
    repeat case_match; reflexivity.
  - unfold closing_outputs, closing_params. cbn -[closingOutputDustLimit]. rewrite Hz.
    intros o. repeat case_match; simpl; try done; intros [<-|[]]; simpl;
      repeat match goal with H : (_ <=? _) = true |- _ => apply Z.leb_le in H end; lia.
Qed.

(** ** Closing on a closing_signed *)

(** A fee we offered, or one within our range. *)
Definition accepted_fee (fee : Z) (c : CloseState) : Prop :=
  k_lastProposedClosingFeeSat c = Some fee \/
  (default 0 (k_closingFeeMin (ready_fee_range c)) <= fee <=
   default 0 (k_closingFeeMax (ready_fee_range c))).

(** The gates in front of every signature. *)
Definition gates_open (c : CloseState) : Prop :=
  isMutualCloseHeld c = false /\ closingBlockedBy c = None.

Lemma negotiate_closed sign verify msg c c' r :
  k_state c <> CLOSED -> negotiate sign verify msg c = (c', r) -> k_state c' = CLOSED ->
  (exists actions, r = Ok actions /\ existsb is_closed_action actions = true) /\
  terms c' = terms c /\ peerSigValid verify (cl_feeSatoshis msg) (cl_signature msg) = true /\
  closingFeeRelays (cl_feeSatoshis msg) c = true /\ accepted_fee (cl_feeSatoshis msg) c.
Proof.
  intros Hn. unfold negotiate, counter_propose, in_range. set (fee := cl_feeSatoshis msg).
  assert (k_state (ready_fee_range c) = k_state c) as Hk
    by (unfold ready_fee_range; repeat case_match; reflexivity).
  assert (k_lastProposedClosingFeeSat (ready_fee_range c) = k_lastProposedClosingFeeSat c) as Hl
    by (unfold ready_fee_range; repeat case_match; reflexivity).
  pose proof (ready_terms c) as Ht. unfold accepted_fee. revert Hk Hl Ht.
  generalize (ready_fee_range c) as d. intros d Hk Hl Ht. rewrite <- (relays_terms d c) by done.
  repeat (case_match; try done); intros [= <- <-] Hc;
    try (exfalso; exact (Hn (eq_trans (eq_sym Hk) Hc))); try discriminate Hc;
    repeat match goal with H : negb _ = false |- _ => apply negb_false_iff in H end;
    repeat match goal with H : (_ && _) = true |- _ => apply andb_true_iff in H as [? ?] end;
    (split; [eexists; split; [reflexivity | reflexivity] | split; [exact Ht|]]); split; [done| |done|].
  - split; [done|]. left. rewrite <- Hl. by apply bool_decide_eq_true_1 in H0.
  - split; [done|]. right. lia.
Qed.

(** What is noted of a closing_signed before the range is read. *)
Definition received (fee : Z) (c : CloseState) : CloseState :=
  set_theirLastClosingFeeSat (Some fee) (set_chan_state NEGOTIATING_CLOSING c).

(** The range of a fee, as [ready_fee_range] leaves it. *)
Definition first_min (c : CloseState) : Z :=
  Z.max (minRelayClosingFee c) (Z.quot (calculateIdealClosingFee c) 2).
Definition payer_limit (c : CloseState) : Z :=
  if is_opener c then Z.max 0 (local_sat c - ownClosingOutputDustLimit c) else remote_sat c.
Definition first_max (c : CloseState) : Z :=
  Z.min (calculateIdealClosingFee c * 2) (payer_limit c).

Lemma init_range c :
  initClosingFeeRange (calculateIdealClosingFee c) c =
  set_closingFeeMax (Some (first_max c)) (set_closingFeeMin (Some (first_min c)) c).
Proof.
  unfold initClosingFeeRange, first_max, first_min, payer_limit. cbv zeta.
  f_equal; [|f_equal]; f_equal.
  - destruct (is_opener c); [destruct (Z.ltb_spec (ownClosingOutputDustLimit c) (local_sat c))|];
      repeat match goal with |- context [?a <? ?b] => destruct (Z.ltb_spec a b) end; lia.
  - destruct (Z.ltb_spec (minRelayClosingFee c) (Z.quot (calculateIdealClosingFee c) 2)); lia.
Qed.

Lemma ready_min c :
  k_closingFeeMin (ready_fee_range c) =
  Some (Z.max (minRelayClosingFee c) (default (first_min c) (k_closingFeeMin c))).
Proof.
  unfold ready_fee_range. rewrite init_range. unfold first_min.
  destruct (k_closingFeeMin c) as [m|] eqn:Hm; cbn -[Z.ltb Z.quot];
    rewrite ?Hm; cbn -[Z.ltb Z.quot];
    match goal with |- context [if ?b then _ else _] => destruct b eqn:Hb end;
    cbn -[Z.quot]; rewrite ?Hm; f_equal; first [apply Z.ltb_lt in Hb | apply Z.ltb_ge in Hb]; try lia.
  change (minRelayClosingFee (set_closingFeeMax _ _)) with (minRelayClosingFee c) in *. lia.
Qed.

Lemma ready_max c :
  k_closingFeeMax (ready_fee_range c) =
  match k_closingFeeMin c with Some _ => k_closingFeeMax c | None => Some (first_max c) end.
Proof.
  unfold ready_fee_range. rewrite init_range.
  destruct (k_closingFeeMin c); case_match; reflexivity.
Qed.

Lemma closed_inv sign verify msg c c' r :
  taproot c = false -> k_state c <> CLOSED ->
  handleClosingSigned sign verify msg c = (c', r) -> k_state c' = CLOSED ->
  gates_open c /\
  (exists actions, r = Ok actions /\ existsb is_closed_action actions = true) /\
  terms c' = terms c /\ peerSigValid verify (cl_feeSatoshis msg) (cl_signature msg) = true /\
  closingFeeRelays (cl_feeSatoshis msg) c = true /\ accepted_fee (cl_feeSatoshis msg) c.
Proof.
  intros Ht Hn. unfold handleClosingSigned.
  destruct (negb (closing_state c)); [intros [= <- <-]; done|].
  destruct (isMutualCloseHeld c) eqn:Hh; [intros [= <- <-] Hc; cbn in Hc; done|].
  destruct (closingBlockedBy c) eqn:Hb; [intros [= <- <-]; done|].
  change (taproot _) with (taproot c). rewrite Ht. intros H Hc.
  apply negotiate_closed in H as (Ha & Hterms & Hs & Hr & Hf); [|discriminate|exact Hc].
  unfold accepted_fee in *. rewrite !ready_min, !ready_max in *.
  split; [done|]. split; [done|]. split; [done|]. done.
Qed.

(** ** What has been broadcast when a channel is closed *)

(** Our share of the channel after a closing fee the opener pays. *)
Definition our_share (fee : Z) (c : CloseState) : Z := local_sat c - if is_opener c then fee else 0.

Section Broadcast.
Context `{L : BitcoinLib}.
Context (toDer : buffer -> buffer)
        (signClosing : Transaction -> buffer -> Z -> buffer)
        (verifyCommitmentSig : Transaction -> buffer -> buffer -> buffer -> Z -> bool).

(** A transaction that ends the channel [c] with [fee]: the peer's signature is over it, it relays,
    and it pays our share to the script we named, unless that is dust. *)
Record good_close (fee : Z) (theirSig : buffer) (c : CloseState) (tx : SignedClose) : Prop := {
  gc_signed : exists remote script,
    s_remoteBasepoints (k_chan c) = Some remote /\
    createFundingScript (bp_fundingPubkey (s_localBasepoints (k_chan c)))
      (bp_fundingPubkey remote) = Ok script /\
    verifyCommitmentSig (sc_tx tx) theirSig (bp_fundingPubkey remote) script
      (s_fundingSatoshis (k_chan c)) = true;
  gc_input : exists txid, s_fundingTxid (k_chan c) = Some txid /\
    tx_ins (sc_tx tx) = [(txid, s_fundingOutputIndex (k_chan c), 0xffffffff)];
  gc_relays : relays (s_fundingSatoshis (k_chan c)) false (sc_tx tx);
  gc_pays : exists script, k_localShutdownScript c = Some script /\
    (ownClosingOutputDustLimit c <= our_share fee c -> In (script, our_share fee c) (tx_outs (sc_tx tx)))
}.

(** Both variants of the transaction keep our output. *)
Lemma built_good fee omit theirSig c b :
  taproot c = false -> buildClosingTxAndScript fee omit c = Ok b ->
  covers verifyCommitmentSig theirSig b = true -> closingFeeRelays fee c = true ->
  good_close fee theirSig c (with_witness toDer signClosing theirSig b).
Proof.
  intros Ht Hb Hc Hr.
  destruct (close_build_inv _ _ _ _ Hb) as (txid & ls & rs & remote & Htx & Hl & Hrs & Hrem & Etx & Hw & Hf & _ & Hrp).
  unfold covers in Hc. rewrite Hf, Hrp in Hc. constructor; cbn [sc_tx with_witness].
  - by exists remote, (bc_witnessScript b).
  - exists txid. split; [done|]. rewrite Etx. unfold buildClosingTx, closing_params.
    cbn -[sort closing_outputs]. by rewrite Ht.
  - assert (relays (s_fundingSatoshis (k_chan c)) false
              (cr_tx (buildClosingTx (closing_params fee false txid ls rs c)))) as Hcan.
    { destruct (buildClosingTxAndScript fee false c) as [b0|] eqn:Hb0.
      - pose proof (fee_relays _ _ _ Hb0 Hr) as Hrel. rewrite Ht in Hrel.
        destruct (close_build_inv _ _ _ _ Hb0) as (? & ? & ? & ? & ? & ? & ? & ? & Etx0 & _).
        rewrite Etx0 in Hrel. by simplify_eq.
      - revert Hb0 Hb. unfold buildClosingTxAndScript, with_funding_script. rewrite Htx, Hl, Hrs, Hrem.
        cbn. unfold deref. cbn. by destruct (createFundingScript _ _). }
    rewrite Etx. destruct omit; [|done].
    destruct (eliminated_outs fee txid ls rs c) as (rest & Hp & Hrest).
    by eapply relays_fewer; [exact Hp|..].
  - exists ls. split; [done|]. intros Hd. rewrite Etx.
    eapply Permutation_in; [symmetry; apply closing_outs_perm|].
    apply in_map_iff. eexists {| oe_script := ls; oe_value := our_share fee c; oe_type := own_local |}.
    split; [done|]. unfold closing_outputs, our_share, closing_params in *.
    unfold ownClosingOutputDustLimit in Hd. rewrite Hl in Hd. simpl in Hd.
    apply in_or_app. left. cbn -[closingOutputDustLimit].
    destruct (is_opener c); rewrite (proj2 (Z.leb_le _ _)) by (simpl; lia); [by left|].
    left. f_equal. lia.
Qed.

Lemma verified_variant fee theirSig c b :
  buildVerifiedLegacyCloseTx verifyCommitmentSig fee theirSig c = Ok (Some b) ->
  exists omit, buildClosingTxAndScript fee omit c = Ok b /\ covers verifyCommitmentSig theirSig b = true.
Proof.
  unfold buildVerifiedLegacyCloseTx. intros (can & Hcan & H)%bind_Ok_inv.
  destruct (covers _ _ can) eqn:?; [injection H as ->; by exists false|].
  case_match; [done|]. apply bind_Ok_inv in H as (el & Hel & H).
  destruct (covers _ _ el) eqn:?; [|done]. injection H as ->. by exists true.
Qed.

(** C13: A channel that a closing_signed closes has been wound up: no HTLC and no update was
    pending, the fee is one we offered or within our range, and the transaction the manager
    broadcasts carries a signature of the peer over it, spends the funding output, relays under the
    default policy and pays our whole share to our own script unless that share is dust. *)
Theorem closing_signed_closes rate msg c :
  taproot c = false -> k_state c <> CLOSED ->
  let o := handleClosingSignedMsg toDer signClosing verifyCommitmentSig rate msg c in
  k_state (mo_state o) = CLOSED ->
  gates_open c /\ accepted_fee (cl_feeSatoshis msg) (applyClosingFeerate rate c) /\
  exists tx, mo_broadcast o = Some tx /\ good_close (cl_feeSatoshis msg) (cl_signature msg) c tx.
Proof.
  intros Ht Hn o. subst o. unfold handleClosingSignedMsg.
  pose proof (rate_terms rate c) as Hrt. set (d := applyClosingFeerate rate c) in *.
  assert (taproot d = taproot c /\ k_state d = k_state c /\
          (gates_open d -> gates_open c)) as (Htd & Hkd & Hg).
  { unfold d, applyClosingFeerate, setClosingFeeratePerKw. repeat case_match; done. }
  destruct (handleClosingSigned _ _ msg d) as [c' r] eqn:Hh.
  intros Hc. assert (k_state c' = CLOSED) as Hc'.
  { destruct r; [|done]. repeat case_match; cbn in Hc; try done. }
  apply closed_inv in Hh as (Hgo & (actions & -> & Ha) & Hterms & Hs & Hr & Hf);
    [|congruence|congruence|done].
  split; [by apply Hg|]. split; [done|]. rewrite Ha in *. cbn in Hs.
  unfold verifyPeerClosingSig in Hs. unfold buildSignedMutualCloseTx in *.
  destruct (buildVerifiedLegacyCloseTx _ _ _ d) as [[b|]|] eqn:Hb; try done.
  assert (buildVerifiedLegacyCloseTx verifyCommitmentSig (cl_feeSatoshis msg) (cl_signature msg) c' =
          Ok (Some b)) as ->.
  { rewrite <- Hb. unfold buildVerifiedLegacyCloseTx.
    by rewrite !(build_terms c' d) by congruence. }
  eexists. split; [reflexivity|]. apply verified_variant in Hb as (omit & Hb & Hcov).
  eapply built_good; [done| |done|].
  - rewrite <- Hb. apply build_terms. congruence.
  - rewrite <- Hr. apply relays_terms. congruence.
Qed.

End Broadcast.

(** ** Refusals *)

Definition is_signature (a : CloseAction) : bool :=
  match a with
  | SEND (M_CLOSING_SIGNED _) | SEND (M_CLOSING_COMPLETE _) | SEND (M_CLOSING_SIG _) => true
  | _ => false
  end.

Definition is_wire_error (a : CloseAction) : bool :=
  match a with SEND (M_ERROR _ _) => true | _ => false end.

(** A refusal that only tells the caller; the channel stays where it was, or in the negotiation. *)
Definition refused_bare (c c' : CloseState) (actions : list CloseAction) : Prop :=
  (exists m, actions = [FAULT m]) /\
  (k_state c' = k_state c \/
   k_state c' = NEGOTIATING_CLOSING /\ k_state c <> CLOSED).

(** A refusal that fails the channel: it is persisted, and then the peer is told with one error of
    this channel, unless the channel has no id yet that an error could name. *)
Definition refused_failed (c c' : CloseState) (actions : list CloseAction) : Prop :=
  k_state c' = ERRORED /\
  exists errors m, actions = PERSIST :: errors ++ [FAULT m] /\ forallb is_wire_error errors = true /\
    forall id, s_channelId (k_chan c) = Some id -> canScopeWireError id = true ->
      exists text, errors = [SEND (M_ERROR id text)].

Record safe_outcome (c c' : CloseState) (actions : list CloseAction) : Prop := {
  so_closes : existsb is_closed_action actions = true ->
    k_state c' = CLOSED /\ k_state c <> CLOSED /\ gates_open c;
  so_closed : k_state c' = CLOSED -> k_state c = CLOSED \/ existsb is_closed_action actions = true;
  so_signs : existsb is_signature actions = true -> gates_open c;
  so_refuses : existsb is_fault actions = true ->
    existsb is_closed_action actions = false /\ existsb is_signature actions = false /\
    (refused_bare c c' actions \/ refused_failed c c' actions)
}.

Definition safe (c : CloseState) (o : close_outcome) : Prop :=
  match o with
  | (c', Ok actions) => safe_outcome c c' actions
  | (c', Err _) => k_state c' = CLOSED -> k_state c = CLOSED
  end.

Lemma safe_bare c d m :
  k_state d = k_state c \/ (k_state d = NEGOTIATING_CLOSING /\ k_state c <> CLOSED) ->
  safe c (bare m d).
Proof.
  intros H. constructor; cbn; try done; [intros Hd; left; destruct H as [H|[H _]]; congruence|].
  intros _. do 2 (split; [done|]). left. split; [by exists m | done].
Qed.

Lemma safe_failed c d actions errors m :
  k_state d = ERRORED -> actions = PERSIST :: errors ++ [FAULT m] ->
  forallb is_wire_error errors = true ->
  (forall id, s_channelId (k_chan c) = Some id -> canScopeWireError id = true ->
     exists text, errors = [SEND (M_ERROR id text)]) -> safe c (d, Ok actions).
Proof.
  intros Hd -> He Hid.
  assert (existsb is_closed_action errors = false /\ existsb is_signature errors = false) as [Hc Hs].
  { clear Hid. induction errors as [|a l IH]; [done|]. simpl in *. apply andb_true_iff in He as [Ha He].
    destruct (IH He). destruct a as [|m'| |]; try done. by destruct m'. }
  constructor; simpl; rewrite ?existsb_app, ?Hc, ?Hs; simpl; try done; [congruence|].
  intros _. do 2 (split; [done|]). right. split; [done|]. exists errors, m. by split_and!.
Qed.

Lemma disposition_chan c : k_chan (_ensureRecoveryCloseDisposition c) = k_chan c.
Proof. unfold _ensureRecoveryCloseDisposition. by repeat case_match. Qed.

Lemma safe_wire c d m : s_channelId (k_chan d) = s_channelId (k_chan c) -> safe c (failChannelWithWireError m d).
Proof.
  intros Hd. unfold failChannelWithWireError. eapply safe_failed; [reflexivity | reflexivity|by case_match|].
  intros id Hid Hs. cbn. rewrite disposition_chan, Hd, Hid. cbn. rewrite Hs. by eexists.
Qed.

(** A held close has a reason to tell. *)
Lemma held_reason c : isMutualCloseHeld c = true -> is_Some (getRecoveryCloseReason (set_chan_state ERRORED c)).
Proof.
  unfold isMutualCloseHeld, getRecoveryCloseReason. cbn. destruct (k_recoveryCloseReason c); [done|].
  destruct (flag_true (s_restoreRevokedRisk (k_chan c))); [by rewrite orb_true_r|]. intros [Hu _]%andb_prop.
  rewrite orb_false_r. destruct (flag_true (k_dataLossDetected c)); [done|]. destruct (flag_true (k_stateUncertain c)); [done|].
  unfold isRecencyUnproven in Hu. unfold recencyHoldOrigin. cbn.
  destruct (flag_true (s_reestablishSecretMissing (k_chan c))); [done|].
  destruct (flag_true (s_restoreRecencyUnproven (k_chan c))); [done|].
  by destruct (flag_true (s_reestablishRecencyUnproven (k_chan c))).
Qed.

Lemma safe_held c d m : isMutualCloseHeld d = true -> s_channelId (k_chan d) = s_channelId (k_chan c) ->
  safe c (_heldCooperativeCloseRefusal m d).
Proof.
  intros Hh Hd. unfold _heldCooperativeCloseRefusal. eapply safe_failed; [reflexivity | reflexivity|..].
  - unfold buildRecoveryCloseActions. by repeat case_match.
  - intros id Hid _. unfold buildRecoveryCloseActions. destruct (held_reason d Hh) as [r ->]. cbn. rewrite Hd, Hid. cbn. by eexists.
Qed.

(** Actions without a fault and without a closing. *)
Lemma safe_quiet c d actions :
  (k_state d = CLOSED -> k_state c = CLOSED) -> existsb is_closed_action actions = false ->
  existsb is_fault actions = false -> (existsb is_signature actions = true -> gates_open c) ->
  safe c (d, Ok actions).
Proof.
  intros H1 H2 H3 H4. constructor; rewrite ?H2, ?H3; try done. intros Hd. left. by apply H1.
Qed.

Lemma safe_closing c d actions :
  k_state d = CLOSED -> k_state c <> CLOSED -> gates_open c ->
  existsb is_fault actions = false -> existsb is_closed_action actions = true ->
  safe c (d, Ok actions).
Proof. intros. constructor; try done; [by right | congruence]. Qed.

Lemma closing_not_closed c : closing_state c = true -> k_state c <> CLOSED.
Proof. unfold closing_state. intros H E. rewrite E in H. done. Qed.

(** Which state a channel is left in. *)
Ltac by_state := unfold k_state in *; cbn in *; intros; solve [done | congruence].

(** The end of a branch of a handler. *)
Ltac safe_case :=
  match goal with
  | |- safe _ (failChannelWithWireError _ _) => apply safe_wire; by_state
  | |- safe _ (_heldCooperativeCloseRefusal _ _) => apply safe_held; by_state
  | |- safe _ (refuseHeldMutualClose _) => apply safe_held; by_state
  | |- safe _ (refuseUnrelayableClosingFee _ _) => unfold refuseUnrelayableClosingFee; safe_case
  | |- safe _ (bare _ _) => apply safe_bare; solve [left; by_state | right; split; by_state]
  | |- safe _ (_, Err _) => cbn [safe]; by_state
  | |- safe _ (_, Ok _) =>
      solve [apply safe_closing; [by_state | by_state | done | done | done]
            | apply safe_quiet; [by_state | done | done | done]]
  | |- safe _ (if ?b then _ else _) => destruct b eqn:?; safe_case
  | |- safe _ (match ?x with _ => _ end) => destruct x eqn:?; safe_case
  | |- safe _ (let '(_, _) := ?x in _) => destruct x eqn:?; safe_case
  end.

Section Refusals.
Context (sign : Z -> result buffer) (verify : option (Z -> buffer -> bool))
        (signFn : SimpleCloseVariant -> Z -> Z -> buffer -> buffer -> result buffer)
        (verifyFn : SimpleCloseVariant -> Z -> Z -> buffer -> buffer -> buffer -> bool).

Section Stage.
Context (c d : CloseState) (Hc : k_state c <> CLOSED) (Hg : gates_open c)
        (Hd : k_state d = NEGOTIATING_CLOSING) (Hsame : s_channelId (k_chan d) = s_channelId (k_chan c)).

Lemma safe_negotiate msg : safe c (negotiate sign verify msg d).
Proof.
  unfold negotiate, counter_propose.
  assert (k_state (ready_fee_range d) = NEGOTIATING_CLOSING) as Hk
    by (unfold ready_fee_range; repeat case_match; done).
  assert (s_channelId (k_chan (ready_fee_range d)) = s_channelId (k_chan c)) as He
    by (rewrite <- Hsame; unfold ready_fee_range; repeat case_match; done).
  generalize dependent (ready_fee_range d). intros e Hk He. cbv zeta. safe_case.
Qed.

Lemma safe_taproot msg : safe c (_handleTaprootClosingSigned sign verify msg d).
Proof. unfold _handleTaprootClosingSigned, taproot_accept. cbv zeta. safe_case. Qed.

Lemma safe_propose_taproot : safe c (propose_taproot sign d).
Proof. unfold propose_taproot. cbv zeta. safe_case. Qed.

End Stage.

Lemma safe_signed msg c : safe c (handleClosingSigned sign verify msg c).
Proof.
  unfold handleClosingSigned. destruct (closing_state c) eqn:Hs; cbn [negb]; [|safe_case].
  apply closing_not_closed in Hs. destruct (isMutualCloseHeld c) eqn:Hh; [safe_case|].
  destruct (closingBlockedBy c) eqn:Hb; [safe_case|].
  case_match; [by apply safe_taproot | by apply safe_negotiate].
Qed.

Lemma safe_propose c : safe c (proposeClosingFee sign c).
Proof.
  unfold proposeClosingFee. destruct (closing_state c) eqn:Hs; cbn [negb]; [|safe_case].
  apply closing_not_closed in Hs. destruct (isMutualCloseHeld c) eqn:Hh; [safe_case|].
  destruct (closingBlockedBy c) eqn:Hb; [safe_case|].
  case_match; [by apply safe_propose_taproot|]. cbv zeta. safe_case.
Qed.

Lemma safe_send fee locktime c : safe c (sendClosingComplete signFn fee locktime c).
Proof.
  unfold sendClosingComplete. destruct (closing_state c) eqn:Hs; cbn [negb]; [|safe_case].
  apply closing_not_closed in Hs. destruct (isMutualCloseHeld c) eqn:Hh; [safe_case|].
  destruct (closingBlockedBy c) eqn:Hb; [safe_case|]. cbv zeta. safe_case.
Qed.

Lemma safe_bump fee locktime c : safe c (bumpClosingFee signFn fee locktime c).
Proof. unfold bumpClosingFee. case_match; [apply safe_send | safe_case]. Qed.

Lemma safe_answer (already : bool) msg v sig c d :
  gates_open c -> s_channelId (k_chan d) = s_channelId (k_chan c) -> (if already then k_state d = k_state c
                   else k_state d = NEGOTIATING_CLOSING /\ k_state c <> CLOSED) ->
  safe c (answer_complete signFn verifyFn already msg v sig d).
Proof. intros Hg Hsame Hd. unfold answer_complete. destruct already; cbv zeta; [|destruct Hd]; safe_case. Qed.

Lemma safe_complete msg c : safe c (handleClosingComplete signFn verifyFn msg c).
Proof.
  unfold handleClosingComplete.
  destruct (closing_state c) eqn:Hs; destruct (simple_closed c) eqn:Ha; cbn [negb andb];
    try (exfalso; unfold simple_closed in Ha; apply closing_not_closed in Hs; bool_props;
         by apply Hs, bool_decide_eq_true_1); [..|safe_case].
  all: destruct (isMutualCloseHeld c) eqn:Hh; [safe_case|];
    destruct (closingBlockedBy c) eqn:Hb; [safe_case|];
    destruct (complete_refusal msg c); [safe_case|]; cbv zeta;
    try apply closing_not_closed in Hs;
    destruct (closee_choice _ _) as [[v sig]|]; [|safe_case]; by apply safe_answer.
Qed.

Lemma safe_sig msg c : safe c (handleClosingSig verifyFn msg c).
Proof.
  unfold handleClosingSig.
  destruct (bool_decide (k_state c = NEGOTIATING_CLOSING)) eqn:Hs;
    destruct (simple_closed c) eqn:Ha; cbn [negb andb];
    try apply bool_decide_eq_true_1 in Hs; [..|safe_case].
  all: destruct (isMutualCloseHeld c) eqn:Hh; [safe_case|];
    destruct (closingBlockedBy c) eqn:Hb; [safe_case|]; cbv zeta; try safe_case.
Qed.

Lemma answer_shutdown_quiet nonce script d e actions :
  answer_shutdown nonce script d = (e, actions) -> k_state d <> CLOSED ->
  k_state e <> CLOSED /\ existsb is_closed_action actions = false /\
  existsb is_fault actions = false /\ existsb is_signature actions = false.
Proof.
  unfold answer_shutdown. intros H Hd.
  destruct (bool_decide (k_state d = CHANNEL_NORMAL)); [|by injection H as <- <-].
  set (e1 := match script with Some _ => _ | None => _ end) in H.
  set (e2 := match k_localShutdownScript e1 with Some _ => _ | None => _ end) in H.
  cbv zeta in H. destruct (0 <? _); [|injection H as <- <-; by split].
  destruct (taproot _); injection H as <- <-; by split.
Qed.

Lemma safe_shutdown nonce ffor msg script c : safe c (handleShutdown nonce ffor msg script c).
Proof.
  unfold handleShutdown.
  assert (negb (bool_decide (k_state c = CHANNEL_NORMAL)) && negb (closing_state c) = false ->
          k_state c <> CLOSED) as Hlive.
  { unfold closing_state. intros H E. by rewrite E in H. }
  destruct (negb _ && _); [safe_case|]. specialize (Hlive eq_refl).
  destruct ffor; [safe_case|]. destruct (isMutualCloseHeld c) eqn:Hheld; [safe_case|].
  destruct (taproot c && _); [safe_case|]. destruct (negb (isValidShutdownScript _ _ _)); [safe_case|].
  cbv zeta. set (d := set_remoteShutdownScript _ c). assert (k_state d <> CLOSED) as Hd by done.
  assert (forall n e, k_state (adopt_nonce n e) = k_state e) as Ha by (by intros []).
  destruct (bool_decide _).
  - apply safe_quiet; try done. intros He. exfalso. revert He.
    destruct (k_hasSignedClosing d); destruct (isSimpleClose _); unfold resetSimpleCloseNegotiation;
      rewrite <- ?(Ha (sd_shutdownNonce msg) d) in Hd; by_state.
  - destruct (answer_shutdown _ _ _) as [e actions] eqn:E.
    apply answer_shutdown_quiet in E as (He & H1 & H2 & H3); [|by rewrite Ha].
    apply safe_quiet; try done; [|by rewrite H3]. destruct (closingBlockedBy e); by_state.
Qed.

Lemma safe_initiate now nonce quiescing ffor script ack ext c :
  safe c (initiateShutdown now nonce quiescing ffor script ack ext c).
Proof.
  unfold initiateShutdown. destruct (flag_true _); [safe_case|]. destruct (_ && _); [safe_case|].
  destruct ffor; [safe_case|]. cbv zeta. destruct (if ext then _ else _); [|safe_case].
  unfold _initiateShutdown. cbv zeta.
  destruct (negb (bool_decide (k_state c = CHANNEL_NORMAL)) && _) eqn:Hs.
  { cbn. rewrite !andb_false_r. cbn. by apply (safe_bare c c _ (or_introl eq_refl)). }
  destruct (negb (isValidShutdownScript _ _ _)).
  { cbn. rewrite !andb_false_r. cbn. by apply (safe_bare c c _ (or_introl eq_refl)). }
  assert (k_state c <> CLOSED) as Hc.
  { unfold isSimpleClose, closing_state in Hs. intros E. rewrite E in Hs. cbn in Hs.
    by rewrite andb_false_r in Hs. }
  set (d := if bool_decide _ then _ else _).
  assert (k_state d <> CLOSED) as Hd.
  { unfold d, resetSimpleCloseNegotiation. by case_match. }
  clearbody d. clear Hs.
  destruct (taproot d); cbn -[isRecencyUnproven hex safe]; rewrite andb_true_r;
    destruct ext; cbn -[isRecencyUnproven hex safe]; destruct (ack && _); apply safe_quiet; by_state.
Qed.

Lemma safe_begin c : safe c ((beginClosingNegotiationIfReady c).1, Ok []).
Proof.
  unfold beginClosingNegotiationIfReady. repeat case_match; apply safe_quiet; by_state.
Qed.

End Refusals.

(** ** All stages *)

(** A call into the channel or a message of the peer, with the callbacks it is given. *)
Inductive CloseEvent :=
| On_initiate (now : Z) (nonce : buffer) (quiescing : bool) (ffor : option string) (script : buffer)
    (acceptStaleStateRisk externalDestination : bool)
| On_shutdown (nonce : buffer) (ffor : option string) (msg : IShutdownMessage)
    (localScript : option buffer)
| On_ready
| On_propose (sign : Z -> result buffer)
| On_closing_signed (sign : Z -> result buffer) (verify : option (Z -> buffer -> bool))
    (msg : IClosingSignedMessage)
| On_send (signFn : SimpleCloseVariant -> Z -> Z -> buffer -> buffer -> result buffer)
    (fee locktime : Z)
| On_bump (signFn : SimpleCloseVariant -> Z -> Z -> buffer -> buffer -> result buffer)
    (fee locktime : Z)
| On_closing_complete (signFn : SimpleCloseVariant -> Z -> Z -> buffer -> buffer -> result buffer)
    (verifyFn : SimpleCloseVariant -> Z -> Z -> buffer -> buffer -> buffer -> bool)
    (msg : IClosingCompleteMessage)
| On_closing_sig (verifyFn : SimpleCloseVariant -> Z -> Z -> buffer -> buffer -> buffer -> bool)
    (msg : IClosingCompleteMessage).

Definition handle (ev : CloseEvent) (c : CloseState) : close_outcome :=
  match ev with
  | On_initiate now nonce quiescing ffor script ack ext =>
      initiateShutdown now nonce quiescing ffor script ack ext c
  | On_shutdown nonce ffor msg script => handleShutdown nonce ffor msg script c
  | On_ready => ((beginClosingNegotiationIfReady c).1, Ok [])
  | On_propose sign => proposeClosingFee sign c
  | On_closing_signed sign verify msg => handleClosingSigned sign verify msg c
  | On_send signFn fee locktime => sendClosingComplete signFn fee locktime c
  | On_bump signFn fee locktime => bumpClosingFee signFn fee locktime c
  | On_closing_complete signFn verifyFn msg => handleClosingComplete signFn verifyFn msg c
  | On_closing_sig verifyFn msg => handleClosingSig verifyFn msg c
  end.

Lemma handle_safe ev c : safe c (handle ev c).
Proof.
  destruct ev; cbn [handle];
    [apply safe_initiate | apply safe_shutdown | apply safe_begin | apply safe_propose
    | apply safe_signed | apply safe_send | apply safe_bump | apply safe_complete | apply safe_sig].
Qed.

(** C15: Whatever stage of a close is entered, with whatever signer, on whatever channel: a
    stage that reports an error has sent no signature and announced no closing, and either leaves
    the channel where it was or in the negotiation, telling only the caller, or fails it, persisted
    first and then, when the channel has an id an error can name, with one error of this channel sent
    to the peer; a stage that throws does not close the channel; and a signature or a closing goes out
    only when no HTLC and no update is pending and the balances are not in doubt. *)
Theorem close_refusals ev c :
  match handle ev c with
  | (c', Err _) => k_state c' = CLOSED -> k_state c = CLOSED
  | (c', Ok actions) =>
      (existsb is_fault actions = true ->
       existsb is_closed_action actions = false /\ existsb is_signature actions = false /\
       (refused_bare c c' actions \/ refused_failed c c' actions)) /\
      (existsb is_signature actions = true \/ existsb is_closed_action actions = true ->
       gates_open c) /\
      (existsb is_closed_action actions = true <-> k_state c <> CLOSED /\ k_state c' = CLOSED)
  end.
Proof.
  pose proof (handle_safe ev c) as Hs. destruct (handle ev c) as [c' [actions|]]; [|done].
  destruct Hs as [H1 H2 H3 H4]. split; [done|]. split; [intros [?|Ha]; [auto | apply H1, Ha]|].
  split; [intros Ha; destruct (H1 Ha) as (? & ? & ?); done|].
  intros [Hn Hc]. destruct (H2 Hc); done.
Qed.
