(* ===== verification/SimpleCloseSafety.v ===== *)
(** * What option_simple_close guarantees

    The transaction a closee signs, and the exchange of two nodes: one offers, the other signs, both
    are closed on the same transaction. *)

From S2P Require Import Prelude Buffer CommitmentTx Scripts WireClose.
From S2P Require Import ChannelTypes CommitmentBuilder Channel.
From S2P Require Import ClosingTx ClosingTypes Closing SimpleClose ClosingManager ClosingSafety.
From stdpp Require Import sets.
From Stdlib Require Import Strings.Byte Sorting.Permutation.
Local Open Scope Z_scope.

Section SimpleSafety.
Context `{L : BitcoinLib}.
Context (toDer : buffer -> buffer)
        (signClosing : Transaction -> buffer -> Z -> buffer)
        (verifyCommitmentSig : Transaction -> buffer -> buffer -> buffer -> Z -> bool).

(** What a simple closing transaction is made from. *)
Definition simple_terms (c : CloseState) :=
  let st := k_chan c in
  (s_localBalanceMsat st, s_remoteBalanceMsat st, s_fundingTxid st, s_fundingOutputIndex st,
   s_fundingSatoshis st, s_localBasepoints st, s_remoteBasepoints st).

Lemma simple_build_terms v fee locktime loc s1 s2 c d :
  simple_terms c = simple_terms d ->
  buildSimpleClosingTxAndScript v fee locktime loc s1 s2 c =
  buildSimpleClosingTxAndScript v fee locktime loc s1 s2 d.
Proof.
  unfold simple_terms, buildSimpleClosingTxAndScript, with_funding_script, local_sat, remote_sat.
  cbv zeta. intros H. injection H; clear H; intros.
  by repeat match goal with H : _ = _ |- _ => rewrite H; clear H end.
Qed.

Definition simple_params (v : SimpleCloseVariant) (fee locktime : Z) (closerIsLocal : bool)
    (closer closee txid : buffer) (c : CloseState) : ISimpleClosingTxParams :=
  {| sp_fundingTxid := txid; sp_fundingOutputIndex := s_fundingOutputIndex (k_chan c);
     sp_closerScriptPubkey := closer; sp_closeeScriptPubkey := closee;
     sp_closerAmount := if closerIsLocal then local_sat c else remote_sat c;
     sp_closeeAmount := if closerIsLocal then remote_sat c else local_sat c;
     sp_feeSatoshis := fee; sp_locktime := locktime; sp_variant := v |}.

Lemma simple_build_inv v fee locktime loc s1 s2 c b :
  buildSimpleClosingTxAndScript v fee locktime loc s1 s2 c = Ok b ->
  exists txid r remote,
    s_fundingTxid (k_chan c) = Some txid /\ s_remoteBasepoints (k_chan c) = Some remote /\
    buildSimpleClosingTx (simple_params v fee locktime loc s1 s2 txid c) = Ok r /\
    bc_tx b = sr_tx r /\
    createFundingScript (bp_fundingPubkey (s_localBasepoints (k_chan c))) (bp_fundingPubkey remote) =
      Ok (bc_witnessScript b) /\
    bc_fundingSatoshis b = s_fundingSatoshis (k_chan c) /\
    bc_remoteFundingPubkey b = bp_fundingPubkey remote.
Proof.
  unfold buildSimpleClosingTxAndScript, with_funding_script, deref.
  destruct (s_fundingTxid (k_chan c)) as [txid|]; [|done].
  destruct (s_remoteBasepoints (k_chan c)) as [remote|];
    intros (? & [= <-] & (r & Hr & H)%bind_Ok_inv)%bind_Ok_inv; [|done].
  apply bind_Ok_inv in H as (? & [= <-] & H). apply bind_Ok_inv in H as (w & Hw & [= <-]).
  by exists txid, r, remote.
Qed.

(** The parts of a simple closing transaction that is built. *)
Lemma simple_tx_inv p r :
  buildSimpleClosingTx p = Ok r ->
  tx_locktime (sr_tx r) = sp_locktime p /\
  tx_ins (sr_tx r) = [(sp_fundingTxid p, sp_fundingOutputIndex p, SIMPLE_CLOSE_SEQUENCE)].
Proof.
  unfold buildSimpleClosingTx. by intros (? & _ & (? & _ & [= <-])%bind_Ok_inv)%bind_Ok_inv.
Qed.

Lemma simple_pays_closee p r :
  buildSimpleClosingTx p = Ok r -> includes_closee (sp_variant p) = true ->
  isOpReturnScript (sp_closeeScriptPubkey p) = false ->
  In (sp_closeeScriptPubkey p, sp_closeeAmount p) (tx_outs (sr_tx r)).
Proof.
  intros H Hv Ho. eapply Permutation_in; [symmetry; by apply simple_outs_perm|].
  apply in_map_iff. eexists {| oe_script := _; oe_value := _; oe_type := the_closee |}.
  split; [reflexivity|]. apply in_or_app. right. rewrite Hv, Ho. by left.
Qed.

Lemma simple_pays_closer p r :
  buildSimpleClosingTx p = Ok r -> includes_closer (sp_variant p) = true ->
  isOpReturnScript (sp_closerScriptPubkey p) = false ->
  In (sp_closerScriptPubkey p, sp_closerAmount p - sp_feeSatoshis p) (tx_outs (sr_tx r)).
Proof.
  intros H Hv Ho. eapply Permutation_in; [symmetry; by apply simple_outs_perm|].
  apply in_map_iff. eexists {| oe_script := _; oe_value := _; oe_type := the_closer |}.
  split; [reflexivity|]. apply in_or_app. left. rewrite Hv, Ho. by left.
Qed.

(** ** The closee *)

(** A transaction a closee may sign: the closer's signature is over it, it can be mined now, and it
    pays our whole balance to our script, unless that is dust; the fee is the closer's. *)
Record closee_close (msg : IClosingCompleteMessage) (c : CloseState) (tx : SignedClose) : Prop := {
  cs_signed : exists variant sig remote script,
    sig_of variant msg = Some sig /\ s_remoteBasepoints (k_chan c) = Some remote /\
    createFundingScript (bp_fundingPubkey (s_localBasepoints (k_chan c)))
      (bp_fundingPubkey remote) = Ok script /\
    verifyCommitmentSig (sc_tx tx) sig (bp_fundingPubkey remote) script
      (s_fundingSatoshis (k_chan c)) = true;
  cs_input : exists txid, s_fundingTxid (k_chan c) = Some txid /\
    tx_ins (sc_tx tx) = [(txid, s_fundingOutputIndex (k_chan c), SIMPLE_CLOSE_SEQUENCE)];
  cs_locktime : tx_locktime (sc_tx tx) < 500000000 /\
    (tx_locktime (sc_tx tx) <= 0 \/
     tx_locktime (sc_tx tx) <= k_currentBlockHeight c + SIMPLE_CLOSE_LOCKTIME_FUTURE_TOLERANCE);
  cs_pays : exists script, k_localShutdownScript c = Some script /\
    (isOpReturnScript script = false -> relayDustThreshold script <= local_sat c ->
     In (script, local_sat c) (tx_outs (sc_tx tx)));
  cs_fee : cc_feeSatoshis msg <= remote_sat c;
  cs_relays : forall script, k_localShutdownScript c = Some script ->
    isOpReturnScript script = false -> isOpReturnScript (cc_closerScriptPubkey msg) = false ->
    getDustLimit script <= local_sat c ->
    getDustLimit (cc_closerScriptPubkey msg) <= remote_sat c - cc_feeSatoshis msg ->
    relays (s_fundingSatoshis (k_chan c)) (taproot c) (sc_tx tx)
}.

(** What a closing_complete that is not refused satisfies. *)
Lemma complete_refusal_none msg c :
  complete_refusal msg c = None ->
  cc_feeSatoshis msg <= remote_sat c /\ cc_locktime msg < 500000000 /\
  (cc_locktime msg <= 0 \/
   cc_locktime msg <= k_currentBlockHeight c + SIMPLE_CLOSE_LOCKTIME_FUTURE_TOLERANCE) /\
  k_localShutdownScript c = Some (cc_closeeScriptPubkey msg) /\
  minRelayFeeForWeight (closingTxRelayProfile (complete_profile msg c)).2 <=
    (closingTxRelayProfile (complete_profile msg c)).1.
Proof.
  unfold complete_refusal. destruct (closingTxRelayProfile _) as [feePaid weight].
  repeat (case_match; try done). intros _.
  repeat match goal with
  | H : negb _ = false |- _ => apply negb_false_iff in H
  | H : bool_decide _ = true |- _ => apply bool_decide_eq_true_1 in H
  | H : (_ && _) = false |- _ => apply andb_false_iff in H
  end. bool_props. split; [lia|]. split; [lia|]. split; [|split; [done | cbn; lia]].
  repeat match goal with H : _ \/ _ |- _ => destruct H end; bool_props; lia.
Qed.

(** Where both outputs are above the limits of the profile, it judges the transaction that is built. *)
Lemma profiled_relays msg c v txid r :
  minRelayFeeForWeight (closingTxRelayProfile (complete_profile msg c)).2 <=
    (closingTxRelayProfile (complete_profile msg c)).1 ->
  isOpReturnScript (cc_closeeScriptPubkey msg) = false ->
  isOpReturnScript (cc_closerScriptPubkey msg) = false ->
  getDustLimit (cc_closeeScriptPubkey msg) <= local_sat c ->
  getDustLimit (cc_closerScriptPubkey msg) <= remote_sat c - cc_feeSatoshis msg ->
  buildSimpleClosingTx (simple_params v (cc_feeSatoshis msg) (cc_locktime msg) false
    (cc_closerScriptPubkey msg) (cc_closeeScriptPubkey msg) txid c) = Ok r ->
  relays (s_fundingSatoshis (k_chan c)) (taproot c) (sr_tx r).
Proof.
  intros Hp Ho1 Ho2 H1 H2 Hb.
  pose proof (dust_limit_pos (cc_closeeScriptPubkey msg) None) as Hd1.
  pose proof (dust_limit_pos (cc_closerScriptPubkey msg) None) as Hd2. cbn in Hd1, Hd2.
  set (full := {| tx_version := 2; tx_locktime := 0; tx_ins := [];
    tx_outs := [(cc_closeeScriptPubkey msg, local_sat c);
                (cc_closerScriptPubkey msg, remote_sat c - cc_feeSatoshis msg)] |}).
  assert (relays (s_fundingSatoshis (k_chan c)) (taproot c) full) as Hfull.
  { revert Hp. unfold closingTxRelayProfile, complete_profile. cbn -[getDustLimit closingWeightForOutputs
      minRelayFeeForWeight]. rewrite !(proj2 (Z.leb_le _ _)) by done.
    unfold relays, tx_fee, tx_value. cbn -[closingWeightForOutputs minRelayFeeForWeight].
    pose proof (min_relay_pos (taproot c) full) as Hpos.
    change (tx_weight (taproot c) full) with (closingWeightForOutputs
      [blen (cc_closeeScriptPubkey msg); blen (cc_closerScriptPubkey msg)] (taproot c)) in *.
    match goal with |- context [?x <? ?y] => destruct (Z.ltb_spec x y) end; lia. }
  eapply (relays_fewer _ _ full _
    ((if includes_closer v then [] else [(cc_closerScriptPubkey msg, remote_sat c - cc_feeSatoshis msg)]) ++
     (if includes_closee v then [] else [(cc_closeeScriptPubkey msg, local_sat c)]))); [| |exact Hfull].
  - rewrite (simple_outs_perm _ _ Hb). unfold simple_outputs. cbn -[isOpReturnScript]. rewrite Ho1, Ho2.
    destruct v; cbn; [| |apply Permutation.perm_swap]; try reflexivity; apply Permutation.perm_swap.
  - intros o. destruct v; cbn; intros H; repeat (destruct H as [<-|H]; [cbn; lia|]); done.
Qed.

(** The choice covers our output unless it is dust, with the closer's signature for it. *)
Lemma closee_choice_ok msg c v sig :
  closee_choice msg c = Ok (v, sig) ->
  sig_of v msg = Some sig /\
  (isDustOutput (cc_closeeScriptPubkey msg) (local_sat c) = false -> includes_closee v = true).
Proof. unfold closee_choice. repeat (case_match; try done); by intros [= <- <-]. Qed.

Lemma message_sig_single v sig id s1 s2 fee locktime :
  singleClosingSig (with_variant_sig v sig (unsigned_complete id s1 s2 fee locktime)) = Some (v, sig).
Proof. by destruct v. Qed.

Lemma complete_closed signFn verifyFn msg c c' r :
  k_state c <> CLOSED -> handleClosingComplete signFn verifyFn msg c = (c', r) ->
  k_state c' = CLOSED ->
  exists v theirSig ourSig,
    gates_open c /\ complete_refusal msg c = None /\ simple_terms c' = simple_terms c /\
    sig_of v msg = Some theirSig /\
    (isDustOutput (cc_closeeScriptPubkey msg) (local_sat c) = false -> includes_closee v = true) /\
    verifyFn v (cc_feeSatoshis msg) (cc_locktime msg) (cc_closerScriptPubkey msg)
      (cc_closeeScriptPubkey msg) theirSig = true /\
    let reply := with_variant_sig v ourSig (unsigned_complete (chan_id c)
                   (cc_closerScriptPubkey msg) (cc_closeeScriptPubkey msg)
                   (cc_feeSatoshis msg) (cc_locktime msg)) in
    r = Ok [SEND (M_CLOSING_SIG reply); closed_action c].
Proof.
  intros Hn. unfold handleClosingComplete, gates_open.
  assert (simple_closed c = false) as Hs.
  { unfold simple_closed. destruct (k_state c); done. }
  rewrite Hs. destruct (negb (closing_state c) && _); [by intros [= <- <-]|].
  destruct (isMutualCloseHeld c); [intros [= <- <-] H; discriminate H|].
  destruct (closingBlockedBy c); [by intros [= <- <-]|].
  destruct (complete_refusal msg c); [by intros [= <- <-]|]. cbv zeta.
  destruct (closee_choice _ _) as [[v sig]|] eqn:Hch; [|intros [= <- <-] H; discriminate H].
  apply closee_choice_ok in Hch as [Hsig Hdust]. unfold answer_complete.
  destruct (verifyFn _ _ _ _ _ _) eqn:Hv; [|intros [= <- <-] H; discriminate H]. cbn [negb].
  destruct (signFn _ _ _ _ _) as [ourSig|]; intros [= <- <-] H; [|discriminate H].
  by exists v, sig, ourSig.
Qed.

(** C16: A closing_complete that closes the channel is answered only when nothing is pending,
    and the transaction that is broadcast carries the closer's signature, spends the funding output,
    is not locked beyond our tip, and pays our whole balance to the script we named, unless that is
    dust; the whole fee is the closer's.  It relays if both outputs would be above the limits of
    [getDustLimit]. *)
Theorem closing_complete_pays msg c :
  k_state c <> CLOSED ->
  let o := handleClosingCompleteMsg toDer signClosing verifyCommitmentSig msg c in
  k_state (mo_state o) = CLOSED ->
  gates_open c /\ exists tx, mo_broadcast o = Some tx /\ closee_close msg c tx.
Proof.
  intros Hn o. subst o. unfold handleClosingCompleteMsg.
  destruct (handleClosingComplete _ _ msg c) as [c' r] eqn:Hh. intros Hc.
  assert (k_state c' = CLOSED) as Hc'.
  { destruct r; [|done]. revert Hc. unfold broadcast_or_keep. repeat case_match; done. }
  apply complete_closed in Hh as (v & theirSig & ourSig & Hg & Href & Hst & Hsig & Hd & Hver & ->);
    [|done|done].
  split; [done|]. cbn [find_sig_reply omap list_omap head]. rewrite message_sig_single. cbn [mbind option_bind].
  rewrite Hsig. cbn [mbind option_bind]. unfold buildSignedSimpleMutualCloseTx.
  rewrite (simple_build_terms _ _ _ _ _ _ c' c) by done.
  unfold verifyPeerSimpleClosingSig in Hver.
  destruct (buildSimpleClosingTxAndScript _ _ _ _ _ _ c) as [b|] eqn:Hb; [|done]. rewrite Hver.
  eexists. split; [reflexivity|].
  apply simple_build_inv in Hb as (txid & t & remote & Htx & Hrem & Ht & Etx & Hw & Hf & Hrp).
  destruct (simple_tx_inv _ _ Ht) as [Hlt Hin].
  apply complete_refusal_none in Href as (Hfee & Hl1 & Hl2 & Hscript & Hrel).
  unfold covers in Hver. rewrite Hf, Hrp in Hver.
  constructor; cbn [sc_tx with_witness]; rewrite ?Etx, ?Hlt.
  - rewrite Etx in Hver. by exists v, theirSig, remote, (bc_witnessScript b).
  - by exists txid.
  - done.
  - eexists. split; [done|]. intros Ho Hdust. apply (simple_pays_closee _ _ Ht); [|done].
    apply Hd. unfold isDustOutput. rewrite Ho. apply Z.ltb_ge. lia.
  - done.
  - rewrite Hscript. intros ? [= <-] Ho1 Ho2 Hk1 Hk2. by eapply profiled_relays.
Qed.

End SimpleSafety.

(** ** Two nodes *)

(** The two ends of one channel. *)
Record close_mirror (a b : CloseState) : Prop := {
  cm_role : s_role (k_chan a) <> s_role (k_chan b);
  cm_local : s_localBalanceMsat (k_chan a) = s_remoteBalanceMsat (k_chan b);
  cm_remote : s_remoteBalanceMsat (k_chan a) = s_localBalanceMsat (k_chan b);
  cm_txid : s_fundingTxid (k_chan a) = s_fundingTxid (k_chan b);
  cm_index : s_fundingOutputIndex (k_chan a) = s_fundingOutputIndex (k_chan b);
  cm_sats : s_fundingSatoshis (k_chan a) = s_fundingSatoshis (k_chan b);
  cm_type : s_channelType (k_chan a) = s_channelType (k_chan b);
  cm_dust_a : c_dustLimitSatoshis (s_localConfig (k_chan a)) =
              c_dustLimitSatoshis (s_remoteConfig (k_chan b));
  cm_dust_b : c_dustLimitSatoshis (s_remoteConfig (k_chan a)) =
              c_dustLimitSatoshis (s_localConfig (k_chan b));
  cm_points_a : s_remoteBasepoints (k_chan a) = Some (s_localBasepoints (k_chan b));
  cm_points_b : s_remoteBasepoints (k_chan b) = Some (s_localBasepoints (k_chan a));
  cm_script_a : k_localShutdownScript a = s_remoteShutdownScript (k_chan b);
  cm_script_b : s_remoteShutdownScript (k_chan a) = k_localShutdownScript b
}.

Lemma close_mirror_sym a b : close_mirror a b -> close_mirror b a.
Proof. intros []. constructor; congruence. Qed.

Section Pair.
Context `{L : BitcoinLib}.
Context (toDer : buffer -> buffer)
        (verifyCommitmentSig : Transaction -> buffer -> buffer -> buffer -> Z -> bool).

(** A signer whose signatures verify under a key. *)
Definition signs_for (sign : Transaction -> buffer -> Z -> buffer) (key : buffer) : Prop :=
  forall tx script amount, verifyCommitmentSig tx (sign tx script amount) key script amount = true.

Definition funding_key (c : CloseState) : buffer := bp_fundingPubkey (s_localBasepoints (k_chan c)).

(** The transaction one side builds as the closer the other builds as the closee. *)
Lemma simple_build_mirror a b v fee locktime loc s1 s2 built :
  close_mirror a b ->
  buildSimpleClosingTxAndScript v fee locktime loc s1 s2 a = Ok built ->
  exists built', buildSimpleClosingTxAndScript v fee locktime (negb loc) s1 s2 b = Ok built' /\
    bc_tx built' = bc_tx built /\ bc_witnessScript built' = bc_witnessScript built /\
    bc_fundingSatoshis built' = bc_fundingSatoshis built /\
    bc_remoteFundingPubkey built' = funding_key a.
Proof.
  intros [] (txid & r & remote & Htx & Hrem & Ht & Etx & Hw & Hf & Hrp)%simple_build_inv.
  assert (simple_params v fee locktime (negb loc) s1 s2 txid b =
          simple_params v fee locktime loc s1 s2 txid a) as Ep.
  { unfold simple_params, local_sat, remote_sat. rewrite cm_index0, cm_local0, cm_remote0.
    by destruct loc. }
  exists {| bc_tx := bc_tx built; bc_witnessScript := bc_witnessScript built;
            bc_fundingSatoshis := s_fundingSatoshis (k_chan b);
            bc_localFundingPubkey := funding_key b; bc_remoteFundingPubkey := funding_key a |}.
  split; [|cbn; rewrite Hf, cm_sats0; done].
  unfold buildSimpleClosingTxAndScript. rewrite <- cm_txid0, Htx. cbn [deref mbind result_bind].
  fold (simple_params v fee locktime (negb loc) s1 s2 txid b). rewrite Ep, Ht. cbn [mbind result_bind].
  unfold with_funding_script. rewrite cm_points_b0. cbn [deref mbind result_bind].
  rewrite cm_points_a0 in Hrem. injection Hrem as <-. rewrite funding_script_sym, Hw.
  cbn [mbind result_bind]. by rewrite Etx.
Qed.

(** A signature of one side is over what the other builds. *)
Lemma simple_covers a b sign v fee locktime loc s1 s2 sig :
  close_mirror a b -> signs_for sign (funding_key a) ->
  signSimpleClosingTx sign loc a v fee locktime s1 s2 = Ok sig ->
  verifyPeerSimpleClosingSig verifyCommitmentSig (negb loc) b v fee locktime s1 s2 sig = true.
Proof.
  intros Hm Hs. unfold signSimpleClosingTx. intros (built & Hb & [= <-])%bind_Ok_inv.
  destruct (simple_build_mirror _ _ _ _ _ _ _ _ _ Hm Hb) as (built' & Hb' & E1 & E2 & E3 & E4).
  unfold verifyPeerSimpleClosingSig. rewrite Hb'. unfold covers, sign_built. rewrite E1, E2, E3, E4.
  apply Hs.
Qed.

(** ** The exchange *)

(** An offer a closer can make and the other side can take. *)
Record simple_offer (a b : CloseState) (fee locktime : Z) (closer closee : buffer) : Prop := {
  of_mirror : close_mirror a b;
  of_state_a : closing_state a = true;
  of_state_b : closing_state b = true;
  of_gates_a : gates_open a;
  of_gates_b : gates_open b;
  of_simple_a : k_simpleClose a = Some true;
  of_simple_b : k_simpleClose b = Some true;
  of_idle : flag_true (k_awaitingClosingSig a) = false;
  of_bump : match k_lastLocalClosingComplete a with
            | Some prev => lc_feeSatoshis prev < fee | None => True end;
  of_closer : k_localShutdownScript a = Some closer;
  of_closee : k_localShutdownScript b = Some closee;
  of_valid : isValidShutdownScript closer true true = true;
  of_floor : minRelayFeeForWeight (closingTxWeight (blen closee) (blen closer) (taproot b)) <= fee;
  of_fee : 0 <= fee <= local_sat a;
  of_remote : 0 <= remote_sat a;
  of_total : local_sat a + remote_sat a <= s_fundingSatoshis (k_chan a);
  of_external_a : k_externalClose a = None;
  of_external_b : k_externalClose b = None;
  of_dust : isDustOutput closer (local_sat a - fee) && isDustOutput closee (remote_sat a) = false;
  of_locktime : 0 <= locktime < 500000000 /\
    (locktime = 0 \/
     0 < k_currentBlockHeight b /\
     locktime <= k_currentBlockHeight b + SIMPLE_CLOSE_LOCKTIME_FUTURE_TOLERANCE);
  of_txid : is_Some (s_fundingTxid (k_chan a));
  of_keys : is_ok (createFundingScript (funding_key a) (funding_key b)) = true
}.

Section Exchange.
Context (signA signB : Transaction -> buffer -> Z -> buffer).
Context (a b : CloseState) (fee locktime : Z) (closer closee : buffer).
Context (HA : signs_for signA (funding_key a)) (HB : signs_for signB (funding_key b)).
Context (Hoff : simple_offer a b fee locktime closer closee).

Lemma offer_builds v :
  exists built, buildSimpleClosingTxAndScript v fee locktime true closer closee a = Ok built.
Proof.
  destruct Hoff. destruct of_txid0 as [txid Htx]. unfold buildSimpleClosingTxAndScript. rewrite Htx.
  cbn [deref mbind result_bind]. unfold with_funding_script.
  rewrite (cm_points_a _ _ of_mirror0). cbn [deref mbind result_bind].
  unfold funding_key in of_keys0. destruct (createFundingScript _ _); [|done].
  fold (simple_params v fee locktime true closer closee txid a).
  assert (exists r, buildSimpleClosingTx (simple_params v fee locktime true closer closee txid a) = Ok r)
    as [r ->]; [|by eexists].
  unfold buildSimpleClosingTx. cbn [sp_closerScriptPubkey simple_params sp_closerAmount sp_feeSatoshis
    sp_variant]. rewrite (proj2 (Z.ltb_ge _ 0)) by (destruct (isOpReturnScript closer); lia).
  rewrite andb_false_r. cbn [throw_if mbind result_bind].
  destruct v; cbn -[sort]; by eexists.
Qed.

Lemma offer_signs v : exists sig, signSimpleClosingTx signA true a v fee locktime closer closee = Ok sig.
Proof.
  destruct (offer_builds v) as [built Hb]. unfold signSimpleClosingTx. rewrite Hb. by eexists.
Qed.

(** The signatures in a message are those of the variants that were signed. *)
Lemma offer_message variants m :
  cc_feeSatoshis m = fee -> cc_locktime m = locktime -> cc_closerScriptPubkey m = closer ->
  cc_closeeScriptPubkey m = closee ->
  exists m', sign_variants (signSimpleClosingTx signA true a) variants m = Ok m' /\
    cc_feeSatoshis m' = fee /\ cc_locktime m' = locktime /\ cc_closerScriptPubkey m' = closer /\
    cc_closeeScriptPubkey m' = closee /\
    (forall v, v ∉ variants -> sig_of v m' = sig_of v m) /\
    (forall v, v ∈ variants ->
       exists sig, sig_of v m' = Some sig /\
         signSimpleClosingTx signA true a v fee locktime closer closee = Ok sig).
Proof.
  revert m. induction variants as [|v vs IH]; intros m H1 H2 H3 H4.
  { exists m. repeat split; try done. by intros v ?%elem_of_nil. }
  cbn [sign_variants]. rewrite H1, H2, H3, H4. destruct (offer_signs v) as [sig Hsig]. rewrite Hsig.
  cbn [mbind result_bind].
  destruct (IH (with_variant_sig v sig m)) as (m' & -> & E1 & E2 & E3 & E4 & Hout & Hin); [done..|].
  exists m'. repeat split; try done.
  - intros w Hw. rewrite not_elem_of_cons in Hw. destruct Hw as [Hne Hw]. rewrite Hout by done.
    by destruct v, w.
  - intros w Hw. destruct (decide (w ∈ vs)) as [Hvs|Hvs]; [by apply Hin|].
    apply elem_of_cons in Hw as [->|?]; [|done]. exists sig. split; [|done].
    rewrite Hout by done. by destruct v.
Qed.

Lemma mirror_sats : local_sat b = remote_sat a /\ remote_sat b = local_sat a.
Proof.
  destruct Hoff. unfold local_sat, remote_sat.
  by rewrite (cm_local _ _ of_mirror0), (cm_remote _ _ of_mirror0).
Qed.

(** The closer signs a variant the closee is willing to sign. *)
Lemma offer_variants :
  exists variants, selectCloserVariants fee closer closee a = Ok variants /\
    forall m, cc_closeeScriptPubkey m = closee ->
      (forall v, v ∉ variants -> sig_of v m = None) ->
      (forall v, v ∈ variants -> is_Some (sig_of v m)) ->
      forall d, local_sat d = local_sat b -> k_externalClose d = None ->
      exists v sig, closee_choice m d = Ok (v, sig) /\ v ∈ variants /\ sig_of v m = Some sig.
Proof.
  destruct mirror_sats as [E _]. destruct Hoff. unfold selectCloserVariants. rewrite of_external_a0.
  cbn [is_Some]. rewrite bool_decide_eq_false_2 by (by intros []). cbn [andb].
  destruct (isDustOutput closer (local_sat a - fee)), (isDustOutput closee (remote_sat a)) eqn:Hd;
    try done; cbn [andb]; try destruct (s_localBalanceMsat (k_chan a) <? _); eexists; (split; [reflexivity|]); intros m Hm Hout Hin d Hl Hext;
    unfold closee_choice; rewrite Hm, Hl, E, Hd, Hext, bool_decide_eq_false_2 by (by intros []); cbn [andb].
  - destruct (Hin CLOSEE_OUTPUT_ONLY) as [sig Hs]; [set_solver|].
    pose proof (Hout CLOSER_AND_CLOSEE ltac:(set_solver)) as Hn. cbn [sig_of] in Hs, Hn.
    rewrite Hn, Hs. exists CLOSEE_OUTPUT_ONLY, sig. split; [done|]. split; [set_solver|done].
  - destruct (Hin CLOSER_OUTPUT_ONLY) as [sig Hs]; [set_solver|]. cbn [sig_of] in Hs. rewrite Hs.
    exists CLOSER_OUTPUT_ONLY, sig. split; [done|]. split; [set_solver|done].
  - destruct (Hin CLOSER_AND_CLOSEE) as [sig Hs]; [set_solver|]. cbn [sig_of] in Hs. rewrite Hs.
    exists CLOSER_AND_CLOSEE, sig. split; [done|]. split; [set_solver|done].
  - destruct (Hin CLOSER_AND_CLOSEE) as [sig Hs]; [set_solver|]. cbn [sig_of] in Hs. rewrite Hs.
    exists CLOSER_AND_CLOSEE, sig. split; [done|]. split; [set_solver|done].
Qed.

(** The closer's state once its offer is out. *)
Definition offered (variants : list SimpleCloseVariant) : CloseState :=
  set_awaitingClosingSig (Some true)
    (set_lastLocalClosingComplete
       (Some {| lc_feeSatoshis := fee; lc_locktime := locktime; lc_closerScript := closer;
                lc_closeeScript := closee; lc_sentVariants := variants |})
       (set_chan_state NEGOTIATING_CLOSING a)).

Lemma offer_sent variants m :
  selectCloserVariants fee closer closee a = Ok variants ->
  sign_variants (signSimpleClosingTx signA true a) variants
    (unsigned_complete (chan_id a) closer closee fee locktime) = Ok m ->
  sendClosingComplete (signSimpleClosingTx signA true a) fee locktime a =
  (offered variants, Ok [SEND (M_CLOSING_COMPLETE m)]).
Proof.
  intros Hv Hm. destruct Hoff. unfold sendClosingComplete. destruct of_gates_a0 as [Hh Hb].
  rewrite of_state_a0, Hh, Hb, of_simple_a0, of_idle0. cbn [negb flag_true].
  rewrite of_closer0, (cm_script_b _ _ of_mirror0), of_closee0.
  destruct closer as [|x l] eqn:Hc; [done|]. rewrite <- Hc in *.
  rewrite (proj2 (Z.ltb_ge fee 0)), (proj2 (Z.ltb_ge (local_sat a) fee)) by lia.
  assert (match k_lastLocalClosingComplete a with
          | Some prev => fee <=? lc_feeSatoshis prev | None => false end = false) as ->.
  { destruct (k_lastLocalClosingComplete a); [apply Z.leb_gt; lia | done]. }
  by rewrite Hv, Hm.
Qed.

(** The closee has no objection to it. *)
Lemma offer_admitted m :
  cc_feeSatoshis m = fee -> cc_locktime m = locktime -> cc_closerScriptPubkey m = closer ->
  cc_closeeScriptPubkey m = closee -> complete_refusal m b = None.
Proof.
  intros E1 E2 E3 E4. destruct mirror_sats as [El Er]. destruct Hoff.
  pose proof (profile_relays (complete_profile m b) fee) as Hp. unfold complete_refusal.
  destruct (closingTxRelayProfile _) as [feePaid weight]. cbn [fst snd] in Hp.
  unfold complete_profile in Hp. cbn in Hp. rewrite El, Er, E1, E3, E4 in Hp.
  rewrite (cm_sats _ _ of_mirror0) in of_total0.
  specialize (Hp ltac:(lia) ltac:(lia) ltac:(lia) of_floor0).
  rewrite of_simple_b0, E1, E2, E3, E4, of_closee0, of_valid0, Er. cbn [flag_true negb].
  rewrite (proj2 (Z.ltb_ge (local_sat a) fee)) by lia.
  rewrite (proj2 (Z.ltb_ge feePaid _)) by lia. rewrite (proj2 (Z.leb_gt 500000000 _)) by lia.
  rewrite bool_decide_eq_true_2 by done. cbn [negb].
  destruct of_locktime0 as [_ [->|[Hh Hl]]]; [done|].
  rewrite (proj2 (Z.leb_gt _ 0)) by lia. rewrite (proj2 (Z.ltb_ge (_ + _) locktime)) by lia.
  by rewrite !andb_false_r.
Qed.

(** The closee's answer: the closer's transaction, signed. *)
Lemma offer_answered m v sig built :
  complete_refusal m b = None -> cc_feeSatoshis m = fee -> cc_locktime m = locktime ->
  cc_closerScriptPubkey m = closer -> cc_closeeScriptPubkey m = closee ->
  closee_choice m (set_chan_state NEGOTIATING_CLOSING (set_remoteShutdownScript (Some closer) b)) =
    Ok (v, sig) ->
  sig_of v m = Some sig ->
  buildSimpleClosingTxAndScript v fee locktime false closer closee b = Ok built ->
  covers verifyCommitmentSig sig built = true ->
  let reply := with_variant_sig v (sign_built signB built)
                 (unsigned_complete (chan_id b) closer closee fee locktime) in
  let ob := handleClosingCompleteMsg toDer signB verifyCommitmentSig m b in
  k_state (mo_state ob) = CLOSED /\
  mo_actions ob = Ok [SEND (M_CLOSING_SIG reply); closed_action b] /\
  mo_broadcast ob = Some (with_witness toDer signB sig built).
Proof.
  intros Href E1 E2 E3 E4 Hch Hsig Hb Hcov reply ob. subst ob. unfold handleClosingCompleteMsg.
  assert (simple_closed b = false) as Hs.
  { pose proof (closing_not_closed _ (of_state_b _ _ _ _ _ _ Hoff)). unfold simple_closed.
    by rewrite bool_decide_eq_false_2. }
  assert (handleClosingComplete (signSimpleClosingTx signB false b)
            (verifyPeerSimpleClosingSig verifyCommitmentSig false b) m b =
          (set_chan_state CLOSED (set_chan_state NEGOTIATING_CLOSING
             (set_remoteShutdownScript (Some closer) b)),
           Ok [SEND (M_CLOSING_SIG reply); closed_action b])) as ->.
  { destruct Hoff. destruct of_gates_b0 as [Hh Hbl]. unfold handleClosingComplete.
    rewrite Hs, of_state_b0, Hh, Hbl, Href, E3. cbn [negb andb]. rewrite Hch.
    unfold answer_complete, verifyPeerSimpleClosingSig, signSimpleClosingTx.
    by rewrite E1, E2, E3, E4, Hb, Hcov. }
  cbn [find_sig_reply omap list_omap head]. subst reply. rewrite message_sig_single.
  cbn [mbind option_bind]. rewrite Hsig. cbn [mbind option_bind].
  unfold buildSignedSimpleMutualCloseTx. rewrite E1, E2, E3, E4.
  rewrite (simple_build_terms _ _ _ _ _ _ _ b) by done. rewrite Hb, Hcov.
  split; [done|]. split; [|done]. unfold broadcast_or_keep, broadcast_actions. cbn.
  by rewrite (of_external_b _ _ _ _ _ _ Hoff).
Qed.

(** The closer takes the answer. *)
Lemma answer_taken variants v sig built id :
  v ∈ variants ->
  buildSimpleClosingTxAndScript v fee locktime true closer closee a = Ok built ->
  covers verifyCommitmentSig sig built = true ->
  let reply := with_variant_sig v sig (unsigned_complete id closer closee fee locktime) in
  let oa := handleClosingSigMsg toDer signA verifyCommitmentSig reply (offered variants) in
  k_state (mo_state oa) = CLOSED /\ mo_actions oa = Ok [closed_action a] /\
  mo_broadcast oa = Some (with_witness toDer signA sig built).
Proof.
  intros Hv Hb Hcov reply oa. subst oa. unfold handleClosingSigMsg.
  assert (handleClosingSig (verifyPeerSimpleClosingSig verifyCommitmentSig true (offered variants)) reply
            (offered variants) =
          (set_chan_state CLOSED (set_awaitingClosingSig (Some false) (offered variants)),
           Ok [closed_action a])) as ->.
  { destruct Hoff. destruct of_gates_a0 as [Hh Hbl]. unfold handleClosingSig.
    change (isMutualCloseHeld (offered variants)) with (isMutualCloseHeld a).
    change (closingBlockedBy (offered variants)) with (closingBlockedBy a). rewrite Hh, Hbl.
    cbn [k_state offered]. cbn -[verifyPeerSimpleClosingSig with_variant_sig bool_decide echoes].
    rewrite bool_decide_eq_true_2 by done. cbn [negb andb].
    assert (echoes reply {| lc_feeSatoshis := fee; lc_locktime := locktime; lc_closerScript := closer;
              lc_closeeScript := closee; lc_sentVariants := variants |} = true) as ->.
    { unfold echoes, reply. cbn. rewrite !Z.eqb_refl, !bool_decide_eq_true_2 by (by destruct v). done. }
    assert (message_sigs reply = [(v, sig)]) as -> by (by destruct v).
    cbn [lc_sentVariants]. rewrite bool_decide_eq_true_2 by done. cbn [negb].
    unfold verifyPeerSimpleClosingSig. cbn [reply with_variant_sig unsigned_complete cc_feeSatoshis
      cc_locktime cc_closerScriptPubkey cc_closeeScriptPubkey].
    rewrite (simple_build_terms _ _ _ _ _ _ _ a) by done. rewrite Hb, Hcov. done. }
  cbn [existsb is_fault orb closed_action].
  assert (singleClosingSig reply = Some (v, sig)) as -> by apply message_sig_single.
  cbn [mbind option_bind]. unfold buildSignedSimpleMutualCloseTx.
  cbn [reply with_variant_sig unsigned_complete cc_feeSatoshis cc_locktime cc_closerScriptPubkey
    cc_closeeScriptPubkey].
  rewrite (simple_build_terms _ _ _ _ _ _ _ a) by done. rewrite Hb, Hcov.
  split; [done|]. split; [|done]. unfold broadcast_or_keep, broadcast_actions. cbn.
  by rewrite (of_external_a _ _ _ _ _ _ Hoff).
Qed.

(** C17: An offer of a closer that both sides can afford ends the channel in one exchange: the
    closee takes it and answers with its signature, the closer takes the answer, both are closed and
    both broadcast the same transaction. *)
Theorem simple_close_completes :
  exists a1 m reply txa txb,
    sendClosingComplete (signSimpleClosingTx signA true a) fee locktime a =
      (a1, Ok [SEND (M_CLOSING_COMPLETE m)]) /\
    let ob := handleClosingCompleteMsg toDer signB verifyCommitmentSig m b in
    k_state (mo_state ob) = CLOSED /\
    mo_actions ob = Ok [SEND (M_CLOSING_SIG reply); closed_action b] /\
    mo_broadcast ob = Some txb /\
    let oa := handleClosingSigMsg toDer signA verifyCommitmentSig reply a1 in
    k_state (mo_state oa) = CLOSED /\ mo_actions oa = Ok [closed_action a] /\
    mo_broadcast oa = Some txa /\ sc_tx txa = sc_tx txb.
Proof.
  destruct offer_variants as (variants & Hsel & Hchoice).
  destruct (offer_message variants (unsigned_complete (chan_id a) closer closee fee locktime))
    as (m & Hm & E1 & E2 & E3 & E4 & Hout & Hin); [done..|].
  set (b1 := set_chan_state NEGOTIATING_CLOSING (set_remoteShutdownScript (Some closer) b)).
  destruct (Hchoice m) with (d := b1) as (v & sig & Hch & Hv & Hsig); [done| | |done| |].
  { intros v Hv. rewrite Hout by done. by destruct v. }
  { intros v Hv. destruct (Hin v Hv) as (sig & -> & _). by eexists. }
  { exact (of_external_b _ _ _ _ _ _ Hoff). }
  destruct (Hin v Hv) as (sig' & Hsig' & Hs). rewrite Hsig in Hsig'. injection Hsig' as <-.
  pose proof (of_mirror _ _ _ _ _ _ Hoff) as Hmir.
  pose proof (simple_covers a b _ _ _ _ _ _ _ _ Hmir HA Hs) as Hver. cbn [negb] in Hver.
  destruct (offer_builds v) as [built Hb].
  destruct (simple_build_mirror _ _ _ _ _ _ _ _ _ Hmir Hb) as (built' & Hb' & F1 & F2 & F3 & F4).
  cbn [negb] in Hb'.
  assert (covers verifyCommitmentSig sig built' = true) as Hcov.
  { unfold verifyPeerSimpleClosingSig in Hver. by rewrite Hb' in Hver. }
  assert (covers verifyCommitmentSig (sign_built signB built') built = true) as Hcov'.
  { destruct (simple_build_inv _ _ _ _ _ _ _ _ Hb) as (? & ? & remote & _ & Hrem & _ & _ & _ & _ & Hrp).
    rewrite (cm_points_a _ _ Hmir) in Hrem. injection Hrem as <-. unfold covers, sign_built.
    rewrite F1, F2, F3, Hrp. apply HB. }
  exists (offered variants), m,
    (with_variant_sig v (sign_built signB built') (unsigned_complete (chan_id b) closer closee fee locktime)),
    (with_witness toDer signA (sign_built signB built') built), (with_witness toDer signB sig built').
  split; [by apply offer_sent|].
  destruct (offer_answered m v sig built') as (? & ? & ?); try done; [by apply offer_admitted|].
  destruct (answer_taken variants v (sign_built signB built') built (chan_id b)) as (? & ? & ?); try done.
Qed.

End Exchange.

End Pair.
