(* ===== verification/ClosingRun.v ===== *)
(** * Two nodes negotiate a closing fee

    The opener proposes, and each side answers the closing_signed of the other until both are
    closed.  Ranges that meet lead to a close; ranges that do not keep both sides answering. *)

From S2P Require Import Prelude Buffer CommitmentTx Scripts WireClose.
From S2P Require Import ChannelTypes CommitmentBuilder Channel ClosingTx ClosingTypes Closing.
From S2P Require Import SimpleClose ClosingManager ClosingSafety SimpleCloseSafety.
From Stdlib Require Import Strings.Byte Sorting.Permutation.
Local Open Scope Z_scope.

(** A node: its channel, its signer, the live feerate its manager injects, what it broadcast. *)
Record ClosingNode := {
  n_state : CloseState;
  n_sign : Transaction -> buffer -> Z -> buffer;
  n_rate : option Z;
  n_tx : option SignedClose
}.

Definition signed_reply (actions : list CloseAction) : option IClosingSignedMessage :=
  head (omap (fun a => match a with SEND (M_CLOSING_SIGNED m) => Some m | _ => None end) actions).

(** The channel a handler of a node works on. *)
Definition n_chan (n : ClosingNode) : CloseState := applyClosingFeerate (n_rate n) (n_state n).

Inductive Progress :=
| Running (to from : ClosingNode) (msg : IClosingSignedMessage)
| Finished (last first : ClosingNode)
| Threw.

Section Run.
Context `{L : BitcoinLib}.
Context (toDer : buffer -> buffer)
        (verifyCommitmentSig : Transaction -> buffer -> buffer -> buffer -> Z -> bool).

Definition node_receive (msg : IClosingSignedMessage) (n : ClosingNode)
    : result (ClosingNode * option IClosingSignedMessage) :=
  let o := handleClosingSignedMsg toDer (n_sign n) verifyCommitmentSig (n_rate n) msg (n_state n) in
  actions ← mo_actions o;
  Ok ({| n_state := mo_state o; n_sign := n_sign n; n_rate := n_rate n; n_tx := mo_broadcast o |},
      signed_reply actions).

(** [k] messages are delivered, the first to [to]. *)
Fixpoint exchange (k : nat) (to from : ClosingNode) (msg : IClosingSignedMessage) : Progress :=
  match k with
  | O => Running to from msg
  | S k =>
      match node_receive msg to with
      | Err _ => Threw
      | Ok (to', None) => Finished to' from
      | Ok (to', Some reply) => exchange k from to' reply
      end
  end.

(** ** The two ends *)

Lemma closing_params_swap a b fee txid ls rs :
  close_mirror a b ->
  closing_params fee false txid rs ls b = swap_closing (closing_params fee false txid ls rs a).
Proof.
  intros [Hro Hlo Hre _ Hin Hsa Hty Hda Hdb _ _ _ _].
  unfold closing_params, swap_closing, is_opener, local_sat, remote_sat, taproot. cbn.
  rewrite Hin, Hsa, Hlo, Hre, Hty, Hda, Hdb.
  destruct (s_role (k_chan a)) eqn:Ea, (s_role (k_chan b)) eqn:Eb; try done.
Qed.

Lemma build_mirror a b fee built :
  close_mirror a b -> buildClosingTxAndScript fee false a = Ok built ->
  exists built', buildClosingTxAndScript fee false b = Ok built' /\
    bc_tx built' = bc_tx built /\ bc_witnessScript built' = bc_witnessScript built /\
    bc_fundingSatoshis built' = bc_fundingSatoshis built /\
    bc_remoteFundingPubkey built' = funding_key a.
Proof.
  intros Hm (txid & ls & rs & remote & Htx & Hl & Hr & Hrem & Etx & Hw & Hf & _ & _)%close_build_inv.
  exists {| bc_tx := bc_tx built; bc_witnessScript := bc_witnessScript built;
            bc_fundingSatoshis := s_fundingSatoshis (k_chan b);
            bc_localFundingPubkey := funding_key b; bc_remoteFundingPubkey := funding_key a |}.
  split; [|cbn; rewrite Hf, (cm_sats _ _ Hm); done].
  unfold buildClosingTxAndScript, with_funding_script.
  rewrite <- (cm_txid _ _ Hm), Htx, <- (cm_script_b _ _ Hm), Hr, <- (cm_script_a _ _ Hm), Hl.
  rewrite (cm_points_b _ _ Hm). cbn [deref mbind result_bind].
  rewrite (cm_points_a _ _ Hm) in Hrem. injection Hrem as <-. rewrite funding_script_sym, Hw.
  cbn [mbind result_bind]. rewrite (closing_params_swap a b) by done.
  by rewrite closing_tx_swap, Etx.
Qed.

(** A signature of one side is over what the other builds. *)
Lemma legacy_covers a b sign fee built :
  close_mirror a b -> signs_for verifyCommitmentSig sign (funding_key a) ->
  buildClosingTxAndScript fee false a = Ok built ->
  exists built', buildClosingTxAndScript fee false b = Ok built' /\ bc_tx built' = bc_tx built /\
    covers verifyCommitmentSig (sign_built sign built) built' = true.
Proof.
  intros Hm Hs Hb. destruct (build_mirror _ _ _ _ Hm Hb) as (built' & Hb' & E1 & E2 & E3 & E4).
  exists built'. split; [done|]. split; [done|]. unfold covers, sign_built. rewrite E1, E2, E3, E4.
  apply Hs.
Qed.

End Run.

(** ** Fees that relay *)

(** The channel can be closed at all. *)
Record closable (c : CloseState) : Prop := {
  cb_state : closing_state c = true;
  cb_gates : gates_open c;
  cb_legacy : taproot c = false;
  cb_external : k_externalClose c = None;
  cb_local : 0 <= local_sat c;
  cb_remote : 0 <= remote_sat c;
  cb_total : local_sat c + remote_sat c <= s_fundingSatoshis (k_chan c)
}.

Lemma script_len_default s : blen (default PLACEHOLDER_SHUTDOWN_SCRIPT s) = script_len s.
Proof. by destruct s. Qed.

Lemma payer_relays c fee :
  closable c -> minRelayClosingFee c <= fee <= closingFeePayerBalanceSat c ->
  closingFeeRelays fee c = true.
Proof.
  intros [_ _ _ Hext Hl Hr Ht] [H1 H2]. unfold closingFeeRelays. rewrite Hext.
  rewrite bool_decide_eq_false_2 by (by intros []). cbn [andb].
  pose proof (profile_relays (fee_profile fee c) fee) as Hp.
  destruct (closingTxRelayProfile _) as [f w]. apply Z.leb_le. cbn in Hp.
  rewrite !script_len_default in Hp. unfold minRelayClosingFee, closingFeePayerBalanceSat in *.
  apply Hp; [..|exact H1]; destruct (is_opener c); lia.
Qed.

(** ** One answer *)

(** The range of a channel and its last offer, as a closing_signed finds them. *)
Definition range_lo (c : CloseState) : Z :=
  Z.max (minRelayClosingFee c) (default (first_min c) (k_closingFeeMin c)).
Definition range_hi (c : CloseState) : Z :=
  match k_closingFeeMin c with Some _ => default 0 (k_closingFeeMax c) | None => first_max c end.
Definition our_last (c : CloseState) : Z :=
  match k_lastProposedClosingFeeSat c with Some f => f | None => calculateIdealClosingFee c end.

Definition clamp (lo hi x : Z) : Z := Z.min hi (Z.max lo x).

(** A range whose fees the payer can pay. *)
Definition payable (c : CloseState) : Prop :=
  range_lo c <= range_hi c <= closingFeePayerBalanceSat c.

(** The channel once a closing_signed has been looked at. *)
Definition looked (fee : Z) (c : CloseState) : CloseState := ready_fee_range (received fee c).

Lemma ready_ideal c : calculateIdealClosingFee (ready_fee_range c) = calculateIdealClosingFee c.
Proof. unfold ready_fee_range. repeat case_match; reflexivity. Qed.

Lemma looked_spec fee c :
  k_closingFeeMin (looked fee c) = Some (range_lo c) /\
  default 0 (k_closingFeeMax (looked fee c)) = range_hi c /\ terms (looked fee c) = terms c /\
  k_lastProposedClosingFeeSat (looked fee c) = k_lastProposedClosingFeeSat c /\
  calculateIdealClosingFee (looked fee c) = calculateIdealClosingFee c /\
  k_closingFeeratePerKw (looked fee c) = k_closingFeeratePerKw c /\
  k_state (looked fee c) = NEGOTIATING_CLOSING /\
  (gates_open c -> gates_open (looked fee c)).
Proof.
  unfold looked. rewrite ready_min, ready_max. split; [done|].
  split; [unfold range_hi; cbn; by destruct (k_closingFeeMin c)|].
  split; [exact (ready_terms _)|]. split; [unfold ready_fee_range; by repeat case_match|].
  split; [exact (ready_ideal _)|]. unfold ready_fee_range; by repeat case_match.
Qed.

Lemma terms_payer c d : terms c = terms d -> closingFeePayerBalanceSat c = closingFeePayerBalanceSat d.
Proof. unfold closingFeePayerBalanceSat, is_opener, local_sat, remote_sat. by by_terms. Qed.

Lemma counter_clamped fee c :
  payable c -> counter_fee fee (looked fee c) = clamp (range_lo c) (range_hi c) (Z.quot (our_last c + fee) 2).
Proof.
  intros [H1 H2]. destruct (looked_spec fee c) as (Hlo & Hhi & Ht & Hl & Hi & _).
  unfold counter_fee. rewrite Hlo, Hhi, Hl, Hi, (floor_terms _ c Ht). cbn [from_option]. unfold id. fold (our_last c).
  assert (minRelayClosingFee c <= range_lo c) by (unfold range_lo; lia).
  unfold clamp. set (x := Z.quot _ 2).
  destruct (Z.ltb_spec x (range_lo c));
    [destruct (Z.ltb_spec (range_hi c) (range_lo c)) | destruct (Z.ltb_spec (range_hi c) x)];
    match goal with |- (if ?a <? ?b then _ else _) = _ => destruct (Z.ltb_spec a b) end; lia.
Qed.

Section Answer.
Context (sign : Z -> result buffer) (verify : Z -> buffer -> bool) (msg : IClosingSignedMessage)
        (c : CloseState).
Context (Hcl : closable c) (Hpay : payable c)
        (Hver : verify (cl_feeSatoshis msg) (cl_signature msg) = true).

Lemma handle_negotiates :
  handleClosingSigned sign (Some verify) msg c =
  negotiate sign (Some verify) msg (received (cl_feeSatoshis msg) c).
Proof.
  destruct Hcl as [Hs [Hh Hb] Ht _ _ _ _]. unfold handleClosingSigned. rewrite Hs, Hh, Hb. cbn [negb].
  change (taproot _) with (taproot c). by rewrite Ht.
Qed.

Lemma looked_relays fee' :
  minRelayClosingFee c <= fee' <= closingFeePayerBalanceSat c ->
  closingFeeRelays fee' (looked (cl_feeSatoshis msg) c) = true.
Proof.
  intros H. destruct (looked_spec (cl_feeSatoshis msg) c) as (_ & _ & Ht & _).
  rewrite (relays_terms _ c _ Ht). by apply payer_relays.
Qed.

(** The peer accepts what we offered. *)
Lemma answer_agreed :
  k_lastProposedClosingFeeSat c = Some (cl_feeSatoshis msg) ->
  minRelayClosingFee c <= cl_feeSatoshis msg <= closingFeePayerBalanceSat c ->
  handleClosingSigned sign (Some verify) msg c =
  (set_chan_state CLOSED (looked (cl_feeSatoshis msg) c), Ok [closed_action (looked (cl_feeSatoshis msg) c)]).
Proof.
  intros Hl Hf. rewrite handle_negotiates. unfold negotiate. fold (looked (cl_feeSatoshis msg) c).
  cbn [peerSigValid]. rewrite Hver. cbn [negb].
  destruct (looked_spec (cl_feeSatoshis msg) c) as (_ & _ & _ & El & _). rewrite El.
  rewrite bool_decide_eq_true_2 by done. by rewrite looked_relays.
Qed.

Context (Hnew : k_lastProposedClosingFeeSat c <> Some (cl_feeSatoshis msg)).

Lemma negotiate_new :
  handleClosingSigned sign (Some verify) msg c =
  let d := looked (cl_feeSatoshis msg) c in
  let fee := cl_feeSatoshis msg in
  if (range_lo c <=? fee) && (fee <=? range_hi c) then
    match sign fee with
    | Err e => (d, Err e)
    | Ok sig =>
        let d := set_chan_state CLOSED (set_lastProposedClosingFeeSat (Some fee) d) in
        (d, Ok [SEND (signed_message fee sig None d); closed_action d])
    end
  else counter_propose sign fee d.
Proof.
  rewrite handle_negotiates. unfold negotiate. fold (looked (cl_feeSatoshis msg) c).
  cbn [peerSigValid]. rewrite Hver. cbn [negb].
  destruct (looked_spec (cl_feeSatoshis msg) c) as (Elo & Ehi & _ & El & _). rewrite El.
  rewrite bool_decide_eq_false_2 by done. cbn [andb]. unfold in_range. rewrite Elo, Ehi. cbn [from_option]. unfold id.
  destruct (_ <=? cl_feeSatoshis msg) eqn:E1, (cl_feeSatoshis msg <=? _) eqn:E2; cbn [andb]; try done.
  apply Z.leb_le in E1, E2. rewrite looked_relays; [done|].
  destruct Hpay. unfold range_lo in *. lia.
Qed.

Lemma counter_goes_out :
  handleClosingSigned sign (Some verify) msg c =
  counter_propose sign (cl_feeSatoshis msg) (looked (cl_feeSatoshis msg) c) ->
  forall sig, let q := clamp (range_lo c) (range_hi c) (Z.quot (our_last c + cl_feeSatoshis msg) 2) in
  sign q = Ok sig ->
  handleClosingSigned sign (Some verify) msg c =
  (set_lastProposedClosingFeeSat (Some q) (looked (cl_feeSatoshis msg) c),
   Ok [SEND (signed_message q sig None (looked (cl_feeSatoshis msg) c))]).
Proof.
  intros H sig q Hs. rewrite H. unfold counter_propose. rewrite counter_clamped by done. fold q.
  rewrite looked_relays; [by rewrite Hs|].
  destruct Hpay. unfold q, clamp, range_lo in *. lia.
Qed.

End Answer.

(** ** One delivery *)

(** What it takes to build does not depend on the fee. *)
Lemma builds_fee `{L : BitcoinLib} fee fee' c b :
  buildClosingTxAndScript fee false c = Ok b ->
  exists b', buildClosingTxAndScript fee' false c = Ok b'.
Proof.
  unfold buildClosingTxAndScript, with_funding_script.
  destruct (s_fundingTxid _), (k_localShutdownScript _), (s_remoteShutdownScript _), (s_remoteBasepoints _);
    try done. cbn [deref mbind result_bind]. destruct (createFundingScript _ _); [|done].
  intros _. by eexists.
Qed.

Lemma rate_fields r c :
  k_closingFeeMin (applyClosingFeerate r c) = k_closingFeeMin c /\
  k_closingFeeMax (applyClosingFeerate r c) = k_closingFeeMax c /\
  k_lastProposedClosingFeeSat (applyClosingFeerate r c) = k_lastProposedClosingFeeSat c /\
  k_state (applyClosingFeerate r c) = k_state c /\
  (gates_open c -> gates_open (applyClosingFeerate r c)).
Proof. unfold applyClosingFeerate, setClosingFeeratePerKw. repeat case_match; done. Qed.

Lemma terms_closable c d :
  terms d = terms c -> k_state d = NEGOTIATING_CLOSING -> gates_open d -> closable c -> closable d.
Proof.
  intros Ht Hs Hg []. constructor; try done.
  - unfold closing_state. by rewrite Hs.
  - rewrite <- cb_legacy0. unfold terms, taproot in *. congruence.
  - unfold terms in Ht. congruence.
  - unfold terms, local_sat in *. congruence.
  - unfold terms, remote_sat in *. congruence.
  - unfold terms, local_sat, remote_sat in *. congruence.
Qed.

Section Delivery.
Context `{L : BitcoinLib}.
Context (toDer : buffer -> buffer)
        (verifyCommitmentSig : Transaction -> buffer -> buffer -> buffer -> Z -> bool).

(** A node that negotiates in the range [lo] to [hi], and its next midpoint is with [last]. *)
Record haggler (o : CloseState) (n : ClosingNode) (lo hi last : Z) : Prop := {
  hg_terms : terms (n_state n) = terms o;
  hg_closable : closable (n_chan n);
  hg_lo : range_lo (n_chan n) = lo;
  hg_hi : range_hi (n_chan n) = hi;
  hg_payable : payable (n_chan n);
  hg_last : our_last (n_chan n) = last;
  hg_signs : signs_for verifyCommitmentSig (n_sign n) (funding_key o)
}.

(** The message carries the node's signature over the transaction with its fee. *)
Definition signed_by (n : ClosingNode) (o : CloseState) (msg : IClosingSignedMessage) : Prop :=
  exists built, buildClosingTxAndScript (cl_feeSatoshis msg) false o = Ok built /\
    cl_signature msg = sign_built (n_sign n) built.

(** The node is closed on the transaction with this fee. *)
Definition closed_on (n : ClosingNode) (o : CloseState) (fee : Z) : Prop :=
  k_state (n_state n) = CLOSED /\
  exists tx built, n_tx n = Some tx /\ buildClosingTxAndScript fee false o = Ok built /\
    sc_tx tx = bc_tx built.

Context (oT oF : CloseState) (T F : ClosingNode) (lo hi last : Z) (msg : IClosingSignedMessage).
Context (Hm : close_mirror oF oT) (HT : haggler oT T lo hi last)
        (HF : signs_for verifyCommitmentSig (n_sign F) (funding_key oF)) (Hs : signed_by F oF msg).

Local Abbreviation c := (n_chan T).
Local Abbreviation fee := (cl_feeSatoshis msg).

Lemma chan_terms : terms c = terms oT.
Proof. unfold n_chan. rewrite rate_terms. apply (hg_terms _ _ _ _ _ HT). Qed.

Lemma peer_covers : exists built, buildClosingTxAndScript fee false oT = Ok built /\
  covers verifyCommitmentSig (cl_signature msg) built = true.
Proof.
  destruct Hs as (b & Hb & ->). destruct (legacy_covers _ _ _ _ _ _ Hm HF Hb) as (b' & Hb' & _ & Hc).
  by exists b'.
Qed.

Lemma peer_verifies d : terms d = terms oT ->
  exists built, buildClosingTxAndScript fee false oT = Ok built /\
    verifyPeerClosingSig verifyCommitmentSig d fee (cl_signature msg) = true /\
    forall sign, buildSignedMutualCloseTx toDer sign verifyCommitmentSig fee (cl_signature msg) d =
      Some (with_witness toDer sign (cl_signature msg) built).
Proof.
  intros Hd. destruct peer_covers as (b & Hb & Hc). exists b. split; [done|].
  unfold verifyPeerClosingSig, buildSignedMutualCloseTx, buildVerifiedLegacyCloseTx.
  rewrite !(build_terms d oT) by done. rewrite Hb. cbn [mbind result_bind]. by rewrite Hc.
Qed.

Lemma builds_all fee' : exists built, buildClosingTxAndScript fee' false oT = Ok built.
Proof.
  destruct peer_covers as (b & Hb & _). by apply (builds_fee _ _ _ _ Hb).
Qed.

Lemma signs_all fee' : exists built, buildClosingTxAndScript fee' false oT = Ok built /\
  signClosingTx (n_sign T) c fee' = Ok (sign_built (n_sign T) built).
Proof.
  destruct (builds_all fee') as [b Hb]. exists b. split; [done|]. unfold signClosingTx.
  rewrite (build_terms c oT) by apply chan_terms. by rewrite Hb.
Qed.

(** Our own offer comes back: agreed. *)
Lemma receive_agreed :
  k_lastProposedClosingFeeSat c = Some fee -> lo <= fee <= hi ->
  exists T', node_receive toDer verifyCommitmentSig msg T = Ok (T', None) /\ closed_on T' oT fee.
Proof.
  intros Hl Hf. destruct HT. unfold node_receive, handleClosingSignedMsg. fold (n_chan T).
  destruct (peer_verifies c chan_terms) as (b & Hb & Hv & _).
  rewrite (answer_agreed _ _ _ _ hg_closable0 Hv Hl).
  2: { destruct hg_payable0. unfold range_lo in *. lia. }
  cbn [existsb is_closed_action closed_action orb].
  destruct (peer_verifies (set_chan_state CLOSED (looked fee c))) as (b' & Hb' & _ & Hw).
  { destruct (looked_spec fee c) as (_ & _ & E & _). rewrite <- chan_terms. exact E. }
  rewrite (Hw (n_sign T)). cbn [mo_actions mbind result_bind mo_state mo_broadcast].
  eexists. split.
  - unfold broadcast_actions. destruct (k_externalClose _); reflexivity.
  - split; [done|]. eexists _, b'. by repeat split.
Qed.

Context (Hnew : k_lastProposedClosingFeeSat c <> Some fee).

(** An offer within our range: accepted. *)
Lemma receive_accepts :
  lo <= fee <= hi ->
  exists T' m', node_receive toDer verifyCommitmentSig msg T = Ok (T', Some m') /\
    closed_on T' oT fee /\ cl_feeSatoshis m' = fee /\ signed_by T' oT m' /\ n_sign T' = n_sign T.
Proof.
  intros Hf. destruct HT. unfold node_receive, handleClosingSignedMsg. fold (n_chan T).
  destruct (peer_verifies c chan_terms) as (b & Hb & Hv & _).
  rewrite (negotiate_new _ _ _ _ hg_closable0 hg_payable0 Hv Hnew). cbv zeta. rewrite hg_lo0, hg_hi0.
  rewrite !(proj2 (Z.leb_le _ _)) by lia. cbn [andb].
  destruct (signs_all fee) as (b1 & Hb1 & Hsig). rewrite Hsig.
  set (d := set_chan_state CLOSED _). cbn [existsb is_closed_action closed_action orb].
  destruct (peer_verifies d) as (b' & Hb' & _ & Hw).
  { destruct (looked_spec fee c) as (_ & _ & E & _). rewrite <- chan_terms. exact E. }
  rewrite (Hw (n_sign T)). cbn [mo_actions mbind result_bind mo_state mo_broadcast].
  eexists _, _. split.
  - unfold broadcast_actions. destruct (k_externalClose d); reflexivity.
  - split; [split; [done|]; eexists _, b'; by repeat split|]. split; [done|]. split; [|done].
    by exists b1.
Qed.

(** Any other offer: a counter-offer in our range. *)
Lemma receive_counters :
  ~ (lo <= fee <= hi) ->
  let q := clamp lo hi (Z.quot (last + fee) 2) in
  exists T' m', node_receive toDer verifyCommitmentSig msg T = Ok (T', Some m') /\
    haggler oT T' lo hi q /\ k_lastProposedClosingFeeSat (n_chan T') = Some q /\
    cl_feeSatoshis m' = q /\ signed_by T' oT m'.
Proof.
  intros Hf q. destruct HT. unfold node_receive, handleClosingSignedMsg. fold (n_chan T).
  destruct (peer_verifies c chan_terms) as (b & Hb & Hv & _).
  destruct (signs_all q) as (b1 & Hb1 & Hsig).
  pose proof (negotiate_new (signClosingTx (n_sign T) c) _ _ _ hg_closable0 hg_payable0 Hv Hnew) as Hn.
  cbv zeta in Hn. rewrite hg_lo0, hg_hi0 in Hn.
  assert ((lo <=? fee) && (fee <=? hi) = false) as E.
  { apply not_true_is_false. intros [?%Z.leb_le ?%Z.leb_le]%andb_true_iff. lia. }
  rewrite E in Hn.
  pose proof (counter_goes_out _ _ _ _ hg_closable0 hg_payable0 Hn (sign_built (n_sign T) b1)) as Hc.
  cbv zeta in Hc. rewrite hg_lo0, hg_hi0, hg_last0 in Hc. fold q in Hc. rewrite (Hc Hsig).
  cbn [existsb is_closed_action orb mo_actions mbind result_bind mo_state mo_broadcast].
  set (d := looked fee c). destruct (looked_spec fee c) as (Elo & Ehi & Et & El & Ei & Er & Es & Eg).
  fold d in Elo, Ehi, Et, El, Ei, Er, Es, Eg.
  eexists _, _. split; [reflexivity|]. cbn [n_state n_sign n_rate n_chan].
  set (e := applyClosingFeerate (n_rate T) (set_lastProposedClosingFeeSat (Some q) d)).
  assert (terms e = terms c) as Ete.
  { unfold e. rewrite rate_terms. exact Et. }
  assert (k_closingFeeMin e = Some lo /\ k_closingFeeMax e = k_closingFeeMax d /\
          k_lastProposedClosingFeeSat e = Some q /\ k_state e = NEGOTIATING_CLOSING /\
          gates_open e) as (E1 & E2 & E3 & E4 & E5).
  { unfold e. destruct (rate_fields (n_rate T) (set_lastProposedClosingFeeSat (Some q) d))
      as (-> & -> & -> & -> & Hg).
    rewrite <- hg_lo0, <- Elo. repeat split; try done; apply Hg, (Eg (cb_gates _ hg_closable0)). }
  assert (range_lo e = lo) as E6.
  { unfold range_lo. rewrite E1, (floor_terms e c Ete). cbn. unfold id.
    rewrite <- hg_lo0. unfold range_lo. lia. }
  assert (range_hi e = hi) as E7 by (unfold range_hi; rewrite E1, E2, Ehi; done).
  split; [|split; [done|split; [done|by exists b1]]].
  constructor; cbn [n_state n_sign]; change (n_chan _) with e; try done.
  - rewrite <- chan_terms. exact Et.
  - by apply (terms_closable c).
  - unfold payable. rewrite E6, E7, (terms_payer e c Ete), <- hg_lo0, <- hg_hi0. exact hg_payable0.
  - unfold our_last. by rewrite E3.
Qed.

End Delivery.

(** ** Ranges that meet *)

Lemma midpoint a b : 0 <= a -> 0 <= b -> 2 * Z.quot (a + b) 2 <= a + b < 2 * Z.quot (a + b) 2 + 2.
Proof.
  intros Ha Hb. rewrite Z.quot_div_nonneg by lia. pose proof (Z.div_mod (a + b) 2 ltac:(lia)).
  pose proof (Z.mod_pos_bound (a + b) 2 ltac:(lia)). lia.
Qed.

Lemma floor_nonneg c : 0 <= minRelayClosingFee c.
Proof.
  unfold minRelayClosingFee, closingTxWeight. rewrite min_relay_fee. apply Z.div_pos; [|lia].
  assert (272 <= closingWeightForOutputs [script_len (k_localShutdownScript c);
            script_len (s_remoteShutdownScript (k_chan c))] (taproot c)); [|lia].
  apply weight_lower. intros n [<-|[<-|[]]]; unfold script_len; case_match; pose proof blen_nonneg; auto; lia.
Qed.

(** A counter-offer moves towards the offer it answers, and not past the edge of the range. *)
Lemma counter_closer loT hiT loF hiF p q :
  0 <= p -> 0 <= q -> loF <= p <= hiF -> loT <= q <= hiT -> ~ (loF <= q <= hiF) ->
  ~ (loT <= p <= hiT) -> loT <= hiF -> loF <= hiT ->
  let q' := clamp loT hiT (Z.quot (q + p) 2) in
  loT <= q' <= hiT /\ Z.abs (p - q') < Z.abs (q - p).
Proof.
  intros. pose proof (midpoint q p ltac:(lia) ltac:(lia)). unfold q', clamp. lia.
Qed.

Section Meet.
Context `{L : BitcoinLib}.
Context (toDer : buffer -> buffer)
        (verifyCommitmentSig : Transaction -> buffer -> buffer -> buffer -> Z -> bool).

(** Both nodes are closed, and on one transaction with a fee from [lo] to [hi]. *)
Definition closed_alike (o : CloseState) (lo hi : Z) (pr : Progress) : Prop :=
  match pr with
  | Finished x y =>
      k_state (n_state x) = CLOSED /\ k_state (n_state y) = CLOSED /\
      exists fee built tx ty, lo <= fee <= hi /\ buildClosingTxAndScript fee false o = Ok built /\
        n_tx x = Some tx /\ n_tx y = Some ty /\ sc_tx tx = bc_tx built /\ sc_tx ty = bc_tx built
  | _ => False
  end.

Lemma closed_on_alike oT oF x y fee lo hi :
  close_mirror oT oF -> closed_on x oT fee -> closed_on y oF fee -> lo <= fee <= hi ->
  closed_alike oT lo hi (Finished x y).
Proof.
  intros Hm (Hx & tx & b & Ex & Hb & Etx) (Hy & ty & b' & Ey & Hb' & Ety) Hf.
  split; [done|]. split; [done|]. destruct (build_mirror _ _ _ _ Hm Hb) as (b'' & Hb'' & E & _).
  rewrite Hb' in Hb''. injection Hb'' as <-. exists fee, b, tx, ty. rewrite Ety, E. done.
Qed.

Lemma closed_alike_mirror oT oF lo hi pr :
  close_mirror oT oF -> closed_alike oT lo hi pr -> closed_alike oF lo hi pr.
Proof.
  intros Hm. destruct pr; try done. intros (Hx & Hy & fee & b & tx & ty & Hf & Hb & H).
  destruct (build_mirror _ _ _ _ Hm Hb) as (b' & Hb' & E & _).
  split; [done|]. split; [done|]. exists fee, b', tx, ty. by rewrite E.
Qed.

(** An offer within the range of the receiver settles it in two messages. *)
Lemma offer_settles oT oF T F loT hiT q loF hiF p msg :
  close_mirror oF oT -> haggler verifyCommitmentSig oT T loT hiT q ->
  haggler verifyCommitmentSig oF F loF hiF p -> cl_feeSatoshis msg = p -> signed_by F oF msg ->
  k_lastProposedClosingFeeSat (n_chan F) = Some p ->
  k_lastProposedClosingFeeSat (n_chan T) <> Some p ->
  loF <= p <= hiF -> loT <= p <= hiT ->
  closed_alike oT (Z.max loT loF) (Z.min hiT hiF) (exchange toDer verifyCommitmentSig 2 T F msg).
Proof.
  intros Hm HT HF Ep Hs HlF HlT HpF HpT. subst p.
  destruct (receive_accepts toDer _ oT oF T F loT hiT q msg Hm HT (hg_signs _ _ _ _ _ _ HF) Hs HlT HpT)
    as (T' & m' & E & Hc & Ef & Hs' & En).
  cbn [exchange]. rewrite E.
  assert (signs_for verifyCommitmentSig (n_sign T') (funding_key oT)) as HsT
    by (rewrite En; exact (hg_signs _ _ _ _ _ _ HT)).
  destruct (receive_agreed toDer _ oF oT F T' loF hiF (cl_feeSatoshis msg) m' (close_mirror_sym _ _ Hm)
              HF HsT Hs') as (F' & E' & Hc'); [by rewrite Ef | by rewrite Ef|].
  rewrite E'. rewrite Ef in Hc'. apply (closed_alike_mirror oF oT); [done|].
  apply (closed_on_alike oF oT _ _ (cl_feeSatoshis msg)); try done. lia.
Qed.

Lemma haggling_settles g : forall oT oF T F loT hiT q loF hiF p msg,
  close_mirror oF oT -> haggler verifyCommitmentSig oT T loT hiT q ->
  haggler verifyCommitmentSig oF F loF hiF p -> cl_feeSatoshis msg = p -> signed_by F oF msg ->
  k_lastProposedClosingFeeSat (n_chan F) = Some p ->
  k_lastProposedClosingFeeSat (n_chan T) = Some q ->
  loF <= p <= hiF -> loT <= q <= hiT -> ~ (loF <= q <= hiF) -> loT <= hiF -> loF <= hiT ->
  Z.abs (q - p) <= Z.of_nat g ->
  exists k, (k <= g + 2)%nat /\
    closed_alike oT (Z.max loT loF) (Z.min hiT hiF) (exchange toDer verifyCommitmentSig k T F msg).
Proof.
  induction g as [|g IH]; intros oT oF T F loT hiT q loF hiF p msg Hm HT HF Ep Hs HlF HlT HpF HqT HqF H1 H2 Hg.
  { assert (p = q) as -> by lia. lia. }
  destruct (decide (loT <= p <= hiT)) as [Hin|Hout].
  { exists 2%nat. split; [lia|]. eapply offer_settles; try done. rewrite HlT. intros [= ->]. lia. }
  assert (0 <= p /\ 0 <= q) as [Hp0 Hq0].
  { pose proof (floor_nonneg (n_chan T)). pose proof (floor_nonneg (n_chan F)).
    pose proof (hg_lo _ _ _ _ _ _ HT) as E1. pose proof (hg_lo _ _ _ _ _ _ HF) as E2.
    unfold range_lo in E1, E2. lia. }
  destruct (counter_closer loT hiT loF hiF p q) as [Hq' Hgap]; try done. subst p.
  assert (k_lastProposedClosingFeeSat (n_chan T) <> Some (cl_feeSatoshis msg)) as Hne.
  { rewrite HlT. intros [= E]. lia. }
  destruct (receive_counters toDer _ oT oF T F loT hiT q msg Hm HT (hg_signs _ _ _ _ _ _ HF) Hs Hne Hout)
    as (T' & m' & E & HT' & HlT' & Ef & Hs').
  destruct (IH oF oT F T' loF hiF (cl_feeSatoshis msg) loT hiT _ m' (close_mirror_sym _ _ Hm) HF HT' Ef Hs'
              HlT' HlF Hq' HpF Hout H2 H1) as (k & Hk & Hc); [lia|].
  exists (S k). split; [lia|]. cbn [exchange]. rewrite E.
  rewrite (Z.max_comm loT), (Z.min_comm hiT). by apply (closed_alike_mirror oF oT).
Qed.

(** ** From the first proposal *)

(** Two nodes after the shutdown exchange, before the first closing_signed. *)
Record legacy_start (A B : ClosingNode) : Prop := {
  ls_mirror : close_mirror (n_state A) (n_state B);
  ls_opener : is_opener (n_state A) = true;
  ls_legacy : isSimpleClose (n_state A) = false;
  ls_closable_a : closable (n_chan A);
  ls_closable_b : closable (n_chan B);
  ls_last_b : k_lastProposedClosingFeeSat (n_state B) = None;
  ls_sign_a : signs_for verifyCommitmentSig (n_sign A) (funding_key (n_state A));
  ls_sign_b : signs_for verifyCommitmentSig (n_sign B) (funding_key (n_state B));
  ls_builds : exists built, buildClosingTxAndScript 0 false (n_state A) = Ok built
}.

(** The opener can pay its own ideal fee and keep an output above the dust limit. *)
Definition affords_ideal (A : ClosingNode) : Prop := calculateIdealClosingFee (n_chan A) <= payer_limit (n_chan A).

(** The opener once its first proposal is out. *)
Definition proposed (A : ClosingNode) : ClosingNode :=
  let fee := calculateIdealClosingFee (n_chan A) in
  {| n_state := set_lastProposedClosingFeeSat (Some fee)
       (initClosingFeeRange fee (set_chan_state NEGOTIATING_CLOSING (n_chan A)));
     n_sign := n_sign A; n_rate := n_rate A; n_tx := None |}.

Lemma ideal_floor c : minRelayClosingFee c <= calculateIdealClosingFee c.
Proof.
  unfold calculateIdealClosingFee. set (f := calculateClosingFee _ _ _ _).
  destruct (Z.ltb_spec (minRelayClosingFee c) f); lia.
Qed.

Lemma first_min_ideal c : first_min c <= calculateIdealClosingFee c.
Proof.
  unfold first_min. pose proof (ideal_floor c). pose proof (floor_nonneg c).
  rewrite Z.quot_div_nonneg by lia.
  pose proof (Z.div_le_upper_bound (calculateIdealClosingFee c) 2 (calculateIdealClosingFee c)). lia.
Qed.

Lemma payer_limit_balance c : closable c -> payer_limit c <= closingFeePayerBalanceSat c.
Proof.
  intros []. unfold payer_limit, closingFeePayerBalanceSat, ownClosingOutputDustLimit.
  pose proof (dust_limit_pos (default PLACEHOLDER_SHUTDOWN_SCRIPT (k_localShutdownScript c))
    (Some (c_dustLimitSatoshis (s_localConfig (k_chan c))))). destruct (is_opener c); lia.
Qed.

Section Start.
Context (A B : ClosingNode) (Hst : legacy_start A B) (Haff : affords_ideal A) (Hpay : payable (n_chan B)).

Local Abbreviation ideal := (calculateIdealClosingFee (n_chan A)).

Local Abbreviation chanA := (n_chan A).

Lemma ideal_in_range :
  first_min chanA <= ideal <= first_max chanA /\ first_max chanA <= closingFeePayerBalanceSat chanA.
Proof.
  destruct Hst. pose proof (first_min_ideal chanA). pose proof (ideal_floor chanA).
  pose proof (floor_nonneg chanA). pose proof (payer_limit_balance chanA ls_closable_a0).
  unfold first_max, affords_ideal in *. lia.
Qed.

Lemma proposed_state :
  n_state (proposed A) =
  set_lastProposedClosingFeeSat (Some ideal) (set_closingFeeMax (Some (first_max chanA))
    (set_closingFeeMin (Some (first_min chanA)) (set_chan_state NEGOTIATING_CLOSING chanA))).
Proof.
  unfold proposed. cbn [n_state].
  change (calculateIdealClosingFee chanA) with
    (calculateIdealClosingFee (set_chan_state NEGOTIATING_CLOSING chanA)) at 2.
  by rewrite init_range.
Qed.

Lemma proposed_haggles :
  haggler verifyCommitmentSig (n_state A) (proposed A) (first_min chanA) (first_max chanA) ideal /\
  k_lastProposedClosingFeeSat (n_chan (proposed A)) = Some ideal.
Proof.
  pose proof ideal_in_range as [Hin Hmax]. destruct Hst. set (e := n_chan (proposed A)).
  destruct (rate_fields (n_rate A) (n_state (proposed A))) as (E1 & E2 & E3 & E4 & E5).
  change (applyClosingFeerate (n_rate A) (n_state (proposed A))) with e in *.
  assert (terms e = terms chanA) as Ete.
  { unfold e, n_chan at 1. rewrite rate_terms, proposed_state. done. }
  rewrite proposed_state in E1, E2, E3, E4, E5. cbn in E1, E2, E3.
  assert (range_lo e = first_min chanA /\ range_hi e = first_max chanA) as [Elo Ehi].
  { unfold range_lo, range_hi. rewrite E1, E2, (floor_terms e chanA Ete). cbn. unfold id, first_min.
    split; [lia|done]. }
  split; [|done]. constructor; try done.
  - rewrite proposed_state. exact (rate_terms (n_rate A) (n_state A)).
  - apply (terms_closable chanA); try done. apply E5. exact (cb_gates _ ls_closable_a0).
  - unfold payable. fold e. rewrite Elo, Ehi, (terms_payer e chanA Ete). lia.
  - unfold our_last. fold e. by rewrite E3.
Qed.

(** The first proposal is our ideal fee. *)
Lemma proposal_out :
  exists m,
    startClosingNegotiation (n_sign A) (n_rate A) (n_state A) =
      (n_state (proposed A), Ok [SEND (M_CLOSING_SIGNED m)]) /\
    cl_feeSatoshis m = ideal /\ signed_by (proposed A) (n_state A) m.
Proof.
  pose proof ideal_in_range as [Hin Hmax]. destruct Hst. destruct ls_builds0 as [b0 Hb0].
  destruct (builds_fee _ ideal _ _ Hb0) as [b Hb].
  assert (signClosingTx (n_sign A) chanA ideal = Ok (sign_built (n_sign A) b)) as Hsig.
  { unfold signClosingTx. rewrite (build_terms chanA (n_state A)) by apply rate_terms. by rewrite Hb. }
  eexists {| cl_channelId := _; cl_feeSatoshis := ideal; cl_signature := sign_built (n_sign A) b;
             cl_partialSignature := None |}.
  split; [|split; [done|by exists b]].
  unfold startClosingNegotiation. rewrite ls_legacy0, ls_opener0. fold (n_chan A).
  unfold proposeClosingFee. destruct (cb_gates _ ls_closable_a0) as [Hh Hbl].
  rewrite (cb_state _ ls_closable_a0), Hh, Hbl. cbn [negb].
  set (d := set_chan_state NEGOTIATING_CLOSING chanA).
  change (taproot d) with (taproot chanA). rewrite (cb_legacy _ ls_closable_a0).
  change (calculateIdealClosingFee d) with (calculateIdealClosingFee chanA).
  rewrite (relays_terms d chanA) by done.
  rewrite payer_relays; [|done|pose proof (ideal_floor chanA); lia].
  rewrite Hsig. reflexivity.
Qed.

(** The acceptor before it has made an offer. *)
Lemma acceptor_haggles :
  haggler verifyCommitmentSig (n_state B) B (range_lo (n_chan B)) (range_hi (n_chan B))
    (our_last (n_chan B)) /\ k_lastProposedClosingFeeSat (n_chan B) = None.
Proof.
  destruct Hst. destruct (rate_fields (n_rate B) (n_state B)) as (_ & _ & E & _).
  split; [by constructor|]. unfold n_chan. by rewrite E.
Qed.

(** The first answer of the acceptor, whose range the proposal is not in. *)
Lemma first_counter m :
  cl_feeSatoshis m = ideal -> signed_by (proposed A) (n_state A) m ->
  ~ (range_lo (n_chan B) <= ideal <= range_hi (n_chan B)) ->
  exists B' m' q, node_receive toDer verifyCommitmentSig m B = Ok (B', Some m') /\
    haggler verifyCommitmentSig (n_state B) B' (range_lo (n_chan B)) (range_hi (n_chan B)) q /\
    k_lastProposedClosingFeeSat (n_chan B') = Some q /\ cl_feeSatoshis m' = q /\
    signed_by B' (n_state B) m' /\ range_lo (n_chan B) <= q <= range_hi (n_chan B).
Proof.
  intros Ef Hs Hout. destruct acceptor_haggles as [HB HlB]. destruct proposed_haggles as [HA _].
  pose proof Hpay as [Hr _].
  destruct (receive_counters toDer _ (n_state B) (n_state A) B (proposed A) _ _ _ m (ls_mirror _ _ Hst) HB
              (hg_signs _ _ _ _ _ _ HA) Hs) as (B' & m' & E & HB' & HlB' & Ef' & Hs').
  - rewrite HlB. done.
  - by rewrite Ef.
  - exists B', m'. eexists. do 5 (split; [done|]). unfold clamp. lia.
Qed.

End Start.

(** C14: After the shutdown exchange, when the opener can pay its own ideal fee and keep an output
    above the dust limit, and the acceptor's range is not empty and within what the opener has, two nodes
    whose ranges of fees meet agree: the opener's proposal goes out, and after at most as many messages as
    the larger end of the ranges has satoshis, and three more, both are closed and have broadcast the same
    transaction, with a fee in both ranges. *)
Theorem closing_negotiation_converges A B :
  legacy_start A B -> affords_ideal A ->
  range_lo (n_chan B) <= range_hi (n_chan B) <= closingFeePayerBalanceSat (n_chan B) ->
  first_min (n_chan A) <= range_hi (n_chan B) -> range_lo (n_chan B) <= first_max (n_chan A) ->
  exists a1 m k,
    startClosingNegotiation (n_sign A) (n_rate A) (n_state A) = (a1, Ok [SEND (M_CLOSING_SIGNED m)]) /\
    (k <= Z.to_nat (Z.max (first_max (n_chan A)) (range_hi (n_chan B))) + 3)%nat /\
    closed_alike (n_state A) (Z.max (first_min (n_chan A)) (range_lo (n_chan B)))
      (Z.min (first_max (n_chan A)) (range_hi (n_chan B)))
      (exchange toDer verifyCommitmentSig k B
         {| n_state := a1; n_sign := n_sign A; n_rate := n_rate A; n_tx := None |} m).
Proof.
  intros Hst Haff Hpay H1 H2. destruct (proposal_out A B Hst Haff) as (m & Hp & Ef & Hs).
  destruct (proposed_haggles A B Hst Haff) as [HA HlA]. destruct (acceptor_haggles A B Hst Hpay) as [HB HlB].
  destruct (ideal_in_range A B Hst Haff) as [Hin _]. pose proof (ls_mirror _ _ Hst) as Hm.
  pose proof (close_mirror_sym _ _ Hm) as Hm'.
  exists (n_state (proposed A)), m. rewrite Hp.
  change {| n_state := n_state (proposed A); n_sign := _; n_rate := _; n_tx := _ |} with (proposed A).
  set (p := calculateIdealClosingFee (n_chan A)) in *.
  set (lo := range_lo (n_chan B)) in *. set (hi := range_hi (n_chan B)) in *.
  destruct (decide (lo <= p <= hi)) as [Hpin|Hout].
  { exists 2%nat. split; [done|]. split; [lia|]. rewrite Z.max_comm, Z.min_comm.
    apply (closed_alike_mirror (n_state B)); [done|]. eapply offer_settles; try done. by rewrite HlB. }
  destruct (first_counter A B Hst Haff Hpay m Ef Hs Hout) as (B' & m' & q & E & HB' & HlB' & Ef' & Hs' & Hq).
  assert (0 <= p /\ 0 <= q) as [Hp0 Hq0].
  { pose proof (floor_nonneg (n_chan A)). pose proof (floor_nonneg (n_chan B)).
    unfold first_min, lo, range_lo in *. lia. }
  destruct (haggling_settles (Z.to_nat (Z.abs (p - q))) (n_state A) (n_state B) (proposed A) B' _ _ p lo hi q
              m' Hm' HA HB' Ef' Hs' HlB' HlA Hq Hin Hout H1 H2) as (k & Hk & Hc); [lia|].
  exists (S k). split; [done|]. split; [lia|]. cbn [exchange]. by rewrite E.
Qed.

(** Ranges that do not meet: each answer is a counter-offer. *)
Lemma haggling_goes_on k : forall oT oF T F loT hiT q loF hiF p msg,
  close_mirror oF oT -> haggler verifyCommitmentSig oT T loT hiT q ->
  haggler verifyCommitmentSig oF F loF hiF p -> cl_feeSatoshis msg = p -> signed_by F oF msg ->
  k_lastProposedClosingFeeSat (n_chan F) = Some p ->
  k_lastProposedClosingFeeSat (n_chan T) <> Some p ->
  loF <= p <= hiF -> hiF < loT \/ hiT < loF ->
  exists x y m, exchange toDer verifyCommitmentSig k T F msg = Running x y m /\
    k_state (n_state x) <> CLOSED /\ k_state (n_state y) <> CLOSED.
Proof.
  assert (forall o n lo hi last, haggler verifyCommitmentSig o n lo hi last -> k_state (n_state n) <> CLOSED) as Hk.
  { intros o n lo hi last H. destruct (rate_fields (n_rate n) (n_state n)) as (_ & _ & _ & E & _).
    rewrite <- E. apply closing_not_closed, (cb_state _ (hg_closable _ _ _ _ _ _ H)). }
  induction k as [|k IH]; intros oT oF T F loT hiT q loF hiF p msg Hm HT HF Ep Hs HlF HlT HpF Hd.
  { exists T, F, msg. eauto. }
  subst p. pose proof (hg_payable _ _ _ _ _ _ HT) as [Hr _].
  rewrite (hg_lo _ _ _ _ _ _ HT), (hg_hi _ _ _ _ _ _ HT) in Hr.
  destruct (receive_counters toDer _ oT oF T F loT hiT q msg Hm HT (hg_signs _ _ _ _ _ _ HF) Hs HlT)
    as (T' & m' & E & HT' & HlT' & Ef & Hs'); [lia|].
  cbn [exchange]. rewrite E.
  refine (IH oF oT F T' loF hiF _ loT hiT _ m' (close_mirror_sym _ _ Hm) HF HT' Ef Hs' HlT' _ _ _).
  - rewrite HlF. intros [= E']. unfold clamp in E'. lia.
  - unfold clamp. lia.
  - lia.
Qed.

(** C18: When the opener can pay its own ideal fee and keep an output above the dust limit, and the
    acceptor's range is not empty and within what the opener has, two nodes whose ranges of fees do not
    meet never agree: however many messages are delivered, one more is on its way and neither channel is
    closed. *)
Theorem closing_negotiation_diverges A B :
  legacy_start A B -> affords_ideal A ->
  range_lo (n_chan B) <= range_hi (n_chan B) <= closingFeePayerBalanceSat (n_chan B) ->
  first_max (n_chan A) < range_lo (n_chan B) \/ range_hi (n_chan B) < first_min (n_chan A) ->
  exists a1 m,
    startClosingNegotiation (n_sign A) (n_rate A) (n_state A) = (a1, Ok [SEND (M_CLOSING_SIGNED m)]) /\
    forall k, exists x y m',
      exchange toDer verifyCommitmentSig k B
        {| n_state := a1; n_sign := n_sign A; n_rate := n_rate A; n_tx := None |} m = Running x y m' /\
      k_state (n_state x) <> CLOSED /\ k_state (n_state y) <> CLOSED.
Proof.
  intros Hst Haff Hpay Hd. destruct (proposal_out A B Hst Haff) as (m & Hp & Ef & Hs).
  destruct (proposed_haggles A B Hst Haff) as [HA HlA]. destruct (acceptor_haggles A B Hst Hpay) as [HB HlB].
  destruct (ideal_in_range A B Hst Haff) as [Hin _]. pose proof (ls_mirror _ _ Hst) as Hm.
  exists (n_state (proposed A)), m. split; [done|]. intros k.
  eapply (haggling_goes_on k _ _ B (proposed A)); try done; [by rewrite HlB].
Qed.

End Meet.
