(* ===== verification/ClosingSample.v ===== *)
(** * A channel to close

    Two ends of a channel of a million satoshis, with a toy signer, on which the theorems about
    closing are applied; and a closing_complete that closes a channel on a transaction no node
    relays. *)

From S2P Require Import Prelude Buffer CommitmentTx Scripts WireClose.
From S2P Require Import ChannelTypes CommitmentBuilder Channel ClosingTx ClosingTypes Closing.
From S2P Require Import SimpleClose ClosingManager ClosingSafety SimpleCloseSafety ClosingRun.
From Stdlib Require Import Strings.Byte.
Local Open Scope Z_scope.

(** A signature is the key with what is signed. *)
Definition toy_sign (key : buffer) (tx : Transaction) (script : buffer) (amount : Z) : buffer :=
  key ++ script ++ be 8 amount ++ be 4 (tx_locktime tx) ++
  concat (map (fun o => o.1 ++ be 8 o.2) (tx_outs tx)).
Definition toy_verify (tx : Transaction) (sig key script : buffer) (amount : Z) : bool :=
  bool_decide (sig = toy_sign key tx script amount).

Lemma toy_honest key : signs_for toy_verify (toy_sign key) key.
Proof. intros tx script amount. by apply bool_decide_eq_true_2. Qed.

Definition p2wpkh_script (n : Z) : buffer := [x00; x14] ++ replicate 20 (byte_of_Z n).
Definition p2tr_script (n : Z) : buffer := [x51; x20] ++ replicate 32 (byte_of_Z n).

(** One end: role, balances, the two scripts, the path of the close, the live feerate. *)
Definition demo_close (role : ChannelRole) (local remote : Z) (ls rs : buffer) (simple : bool)
    : CloseState :=
  set_remoteShutdownScript (Some rs)
    {| k_chan := set_state NEGOTIATING_CLOSING (demo_state role anchors_type local remote []);
       k_localShutdownScript := Some ls; k_preReestablishState := None;
       k_lastProposedClosingFeeSat := None; k_closingFeeMin := None; k_closingFeeMax := None;
       k_theirLastClosingFeeSat := None; k_simpleClose := Some simple;
       k_lastLocalClosingComplete := None; k_awaitingClosingSig := Some false;
       k_externalClose := None; k_staleCloseRiskAccepted := None; k_dataLossDetected := None;
       k_stateUncertain := None; k_recoveryCloseReason := None; k_pendingBatch := false;
       k_ourClosingNonce := None; k_remoteClosingNonce := None; k_hasSignedClosing := false;
       k_closingFeeratePerKw := None; k_currentBlockHeight := 800000 |}.

Definition demo_a (simple : bool) : CloseState :=
  demo_close OPENER 600000000 400000000 (p2wpkh_script 1) (p2wpkh_script 2) simple.
Definition demo_b (simple : bool) : CloseState :=
  demo_close ACCEPTOR 400000000 600000000 (p2wpkh_script 2) (p2wpkh_script 1) simple.

Lemma demo_close_mirror simple : close_mirror (demo_a simple) (demo_b simple).
Proof. constructor; try reflexivity. done. Qed.

Definition demo_node (c : CloseState) (rate : option Z) : ClosingNode :=
  {| n_state := c; n_sign := toy_sign (funding_key c); n_rate := rate; n_tx := None |}.

Lemma demo_start rate_a rate_b :
  legacy_start (L := demo_lib) toy_verify (demo_node (demo_a false) rate_a)
    (demo_node (demo_b false) rate_b).
Proof.
  assert (forall r, closable (n_chan (demo_node (demo_a false) r)) /\
                    closable (n_chan (demo_node (demo_b false) r))) as Hc.
  { intros r. destruct (rate_fields r (demo_a false)) as (_ & _ & _ & E1 & E2).
    destruct (rate_fields r (demo_b false)) as (_ & _ & _ & E3 & E4).
    split; [apply (terms_closable (demo_a false)) | apply (terms_closable (demo_b false))];
      try apply rate_terms; try done; try (apply E2 || apply E4); try (by vm_compute);
      constructor; by vm_compute. }
  constructor; try done; try apply Hc; try apply toy_honest.
  destruct (buildClosingTxAndScript (L := demo_lib) 0 false (demo_a false)) as [b|] eqn:E;
    [by exists b | by vm_compute in E].
Qed.

(** ** Witnesses *)

Definition demo_signed (fee : Z) : IClosingSignedMessage :=
  {| cl_channelId := replicate 32 x01; cl_feeSatoshis := fee;
     cl_signature := match buildClosingTxAndScript (L := demo_lib) fee false (demo_a false) with
                     | Ok built => sign_built (toy_sign (funding_key (demo_a false))) built
                     | Err _ => [] end;
     cl_partialSignature := None |}.

Lemma closing_signed_closes_witness :
  let o := handleClosingSignedMsg (L := demo_lib) id (toy_sign (funding_key (demo_b false))) toy_verify
             None (demo_signed 1000) (demo_b false) in
  gates_open (demo_b false) /\
  exists tx, mo_broadcast o = Some tx /\
    good_close (L := demo_lib) toy_verify 1000 (cl_signature (demo_signed 1000)) (demo_b false) tx.
Proof.
  destruct (closing_signed_closes (L := demo_lib) id (toy_sign (funding_key (demo_b false))) toy_verify
    None (demo_signed 1000) (demo_b false)) as (Hg & _ & Htx).
  - reflexivity.
  - discriminate.
  - vm_compute. reflexivity.
  - exact (conj Hg Htx).
Defined.

Lemma closing_negotiation_converges_witness :
  let A := demo_node (demo_a false) None in
  let B := demo_node (demo_b false) (Some 6000) in
  exists a1 m k,
    startClosingNegotiation (L := demo_lib) (n_sign A) (n_rate A) (n_state A) =
      (a1, Ok [SEND (M_CLOSING_SIGNED m)]) /\
    closed_alike (L := demo_lib) (n_state A) (Z.max (first_min (n_chan A)) (range_lo (n_chan B)))
      (Z.min (first_max (n_chan A)) (range_hi (n_chan B)))
      (exchange (L := demo_lib) id toy_verify k B
         {| n_state := a1; n_sign := n_sign A; n_rate := n_rate A; n_tx := None |} m).
Proof.
  cbv zeta.
  destruct (closing_negotiation_converges (L := demo_lib) id toy_verify (demo_node (demo_a false) None)
    (demo_node (demo_b false) (Some 6000))) as (a1 & m & k & E & _ & Hc).
  - apply demo_start.
  - by vm_compute.
  - split; by vm_compute.
  - by vm_compute.
  - by vm_compute.
  - exists a1, m, k. exact (conj E Hc).
Defined.

Lemma closing_negotiation_diverges_witness :
  let A := demo_node (demo_a false) None in
  let B := demo_node (demo_b false) (Some 20000) in
  exists a1 m,
    startClosingNegotiation (L := demo_lib) (n_sign A) (n_rate A) (n_state A) =
      (a1, Ok [SEND (M_CLOSING_SIGNED m)]) /\
    forall k, exists x y m',
      exchange (L := demo_lib) id toy_verify k B
        {| n_state := a1; n_sign := n_sign A; n_rate := n_rate A; n_tx := None |} m = Running x y m' /\
      k_state (n_state x) <> CLOSED /\ k_state (n_state y) <> CLOSED.
Proof.
  cbv zeta. apply (closing_negotiation_diverges (L := demo_lib) id toy_verify
    (demo_node (demo_a false) None) (demo_node (demo_b false) (Some 20000))).
  - apply demo_start.
  - by vm_compute.
  - split; by vm_compute.
  - left. by vm_compute.
Defined.

(** An opener with 1,800 satoshis left, whose ideal fee is 1,685. *)
Definition poor_a : CloseState := demo_close OPENER 1800000 998200000 (p2wpkh_script 1) (p2wpkh_script 2) false.
Definition poor_b : CloseState := demo_close ACCEPTOR 998200000 1800000 (p2wpkh_script 2) (p2wpkh_script 1) false.

(** What a node broadcast pays, in satoshis. *)
Definition broadcast_amounts (n : ClosingNode) : list Z :=
  match n_tx n with Some t => map snd (tx_outs (sc_tx t)) | None => [] end.

(** An opener that does not afford its ideal fee: its range ends at 1,446 satoshis, what it may pay
    and keep an output, but it proposes 1,685; the peer accepts, and both close on a transaction in
    which the opener's output is gone. *)
Lemma poor_opener_overpays :
  let A := demo_node poor_a None in
  let B := demo_node poor_b None in
  first_max (n_chan A) = 1446 /\
  match startClosingNegotiation (L := demo_lib) (n_sign A) (n_rate A) (n_state A) with
  | (a1, Ok [SEND (M_CLOSING_SIGNED m)]) =>
      cl_feeSatoshis m = 1685 /\
      match exchange (L := demo_lib) id toy_verify 2 B
              {| n_state := a1; n_sign := n_sign A; n_rate := n_rate A; n_tx := None |} m with
      | Finished x y => k_state (n_state x) = CLOSED /\ k_state (n_state y) = CLOSED /\
          broadcast_amounts x = [998200] /\ broadcast_amounts y = [998200]
      | _ => False
      end
  | _ => False
  end.
Proof. vm_compute. split_and!; reflexivity. Qed.

(** A closing_complete for the channel [c] with one signature, of the node with [key]. *)
Definition demo_complete (key closer closee : buffer) (fee : Z) (c : CloseState)
    : IClosingCompleteMessage :=
  let m := unsigned_complete (replicate 32 x01) closer closee fee 0 in
  match buildSimpleClosingTxAndScript (L := demo_lib) CLOSER_AND_CLOSEE fee 0 false closer closee c with
  | Ok built => with_variant_sig CLOSER_AND_CLOSEE (sign_built (toy_sign key) built) m
  | Err _ => m
  end.

Lemma closing_complete_pays_witness :
  let msg := demo_complete (funding_key (demo_a true)) (p2wpkh_script 1) (p2wpkh_script 2) 500
               (demo_b true) in
  let o := handleClosingCompleteMsg (L := demo_lib) id (toy_sign (funding_key (demo_b true))) toy_verify
             msg (demo_b true) in
  gates_open (demo_b true) /\
  exists tx, mo_broadcast o = Some tx /\ closee_close (L := demo_lib) toy_verify msg (demo_b true) tx.
Proof.
  cbv zeta. apply (closing_complete_pays (L := demo_lib) id (toy_sign (funding_key (demo_b true))) toy_verify).
  - discriminate.
  - vm_compute. reflexivity.
Defined.

Lemma demo_offer :
  simple_offer (L := demo_lib) (demo_a true) (demo_b true) 500 0 (p2wpkh_script 1) (p2wpkh_script 2).
Proof.
  constructor; try (by vm_compute); try apply demo_close_mirror.
  - split; [by vm_compute | by left].
  - by eexists.
Qed.

Lemma simple_close_completes_witness :
  exists a1 m reply txa txb,
    sendClosingComplete (signSimpleClosingTx (L := demo_lib) (toy_sign (funding_key (demo_a true))) true
      (demo_a true)) 500 0 (demo_a true) = (a1, Ok [SEND (M_CLOSING_COMPLETE m)]) /\
    mo_broadcast (handleClosingCompleteMsg (L := demo_lib) id (toy_sign (funding_key (demo_b true)))
      toy_verify m (demo_b true)) = Some txb /\
    mo_broadcast (handleClosingSigMsg (L := demo_lib) id (toy_sign (funding_key (demo_a true)))
      toy_verify reply a1) = Some txa /\ sc_tx txa = sc_tx txb.
Proof.
  destruct (simple_close_completes (L := demo_lib) id toy_verify (toy_sign (funding_key (demo_a true)))
    (toy_sign (funding_key (demo_b true))) (demo_a true) (demo_b true) 500 0 (p2wpkh_script 1)
    (p2wpkh_script 2) (toy_honest _) (toy_honest _) demo_offer)
    as (a1 & m & reply & txa & txb & E & _ & _ & Hb & _ & _ & Ha & Heq).
  exists a1, m, reply, txa, txb. exact (conj E (conj Hb (conj Ha Heq))).
Defined.

(** ** A close that cannot be broadcast *)

(** A closee with almost the whole channel; the closer's 400 satoshis go to a taproot script. *)
Definition gap_state : CloseState :=
  demo_close ACCEPTOR 999600000 400000 (p2wpkh_script 2) (p2tr_script 1) true.

Definition gap_message : IClosingCompleteMessage :=
  demo_complete (funding_key (demo_a true)) (p2tr_script 1) (p2wpkh_script 2) 0 gap_state.

(** C19: The check of a closing_complete for a relayable fee does not judge the transaction that is
    signed: it drops an output below the limit of [getDustLimit], 546 for a taproot script, which
    the builder keeps.  A closer with 400 satoshis offers a transaction without any fee, and the
    closee signs it, is closed and broadcasts it, although it does not relay. *)
Theorem closee_closes_unrelayable :
  k_state gap_state = NEGOTIATING_CLOSING /\
  let o := handleClosingCompleteMsg (L := demo_lib) id (toy_sign (funding_key (demo_b true))) toy_verify
             gap_message gap_state in
  k_state (mo_state o) = CLOSED /\
  exists tx, mo_broadcast o = Some tx /\
    tx_fee (s_fundingSatoshis (k_chan gap_state)) (sc_tx tx) = 0 /\
    tx_outs (sc_tx tx) = [(p2tr_script 1, 400); (p2wpkh_script 2, 999600)] /\
    ~ relays (s_fundingSatoshis (k_chan gap_state)) false (sc_tx tx).
Proof.
  split; [done|]. cbv zeta. split; [by vm_compute|].
  destruct (mo_broadcast _) as [tx|] eqn:E; [|by vm_compute in E].
  exists tx. split; [done|]. vm_compute in E. injection E as <-.
  split; [by vm_compute|]. split; [by vm_compute|]. unfold relays. vm_compute. intros H. by apply H.
Qed.
