(* ===== verification/Reestablish.v ===== *)
(** * Reconnection (src/src/lightning/channel/channel.ts, channel-manager.ts)

    What a channel does when the connection is lost (markForReestablish), the channel_reestablish it
    then sends (createReestablish), and what it does with the one of its peer (handleReestablish),
    with the part of the manager around it (handleChannelReestablish).

    The channel has no splice, no interactive open in flight, no FFOR epoch and no funding
    confirmation that waits, and is not taproot; the code for these is left out.  Quiescence, which a
    disconnection ends, is in Quiescence.v.  The events the manager emits are left out. *)

From S2P Require Import Prelude Buffer Features CommitmentTx Scripts JsMap ShaChain.
From S2P Require Import WireBasic WireUpdate WireCommitment WireFunding WireTx.
From S2P Require Import ChannelTypes CommitmentBuilder HtlcPolicy HtlcAdmission Channel ChannelPair.
From S2P Require Import ClosingTypes Closing ClosingManager.
From Stdlib Require Import Strings.Byte.
Local Open Scope Z_scope.

Inductive ReestablishOutcome := REPLAY | CLEAN.

(** A channel with the fields of a reconnection that ClosingTypes.v leaves out. *)
Record ReState := {
  x_close : CloseState;
  x_dlpRemotePerCommitmentPoint : option buffer;
  x_localChannelReady : bool;
  x_scidAlias : option buffer;
  x_lastReestablishOutcome : option ReestablishOutcome;
  x_reestablishSecretMissingNotice : option (Z * Z);
  x_reestablishRetransmitted : bool;
  x_spliceAbortPending : bool;
  x_txAbortSent : bool
}.

Definition eta_re (r : ReState) : ReState :=
  {| x_close := x_close r; x_dlpRemotePerCommitmentPoint := x_dlpRemotePerCommitmentPoint r;
     x_localChannelReady := x_localChannelReady r; x_scidAlias := x_scidAlias r;
     x_lastReestablishOutcome := x_lastReestablishOutcome r;
     x_reestablishSecretMissingNotice := x_reestablishSecretMissingNotice r;
     x_reestablishRetransmitted := x_reestablishRetransmitted r;
     x_spliceAbortPending := x_spliceAbortPending r; x_txAbortSent := x_txAbortSent r |}.

Definition on_close (f : CloseState -> CloseState) (r : ReState) : ReState :=
  ltac:(update_field eta_re (eta_re r) (x_close r) (f (x_close r))).
Definition set_dlpRemotePerCommitmentPoint (v : option buffer) (r : ReState) : ReState :=
  ltac:(update_field eta_re (eta_re r) (x_dlpRemotePerCommitmentPoint r) v).
Definition set_lastReestablishOutcome (v : option ReestablishOutcome) (r : ReState) : ReState :=
  ltac:(update_field eta_re (eta_re r) (x_lastReestablishOutcome r) v).
Definition set_reestablishSecretMissingNotice (v : option (Z * Z)) (r : ReState) : ReState :=
  ltac:(update_field eta_re (eta_re r) (x_reestablishSecretMissingNotice r) v).
Definition set_reestablishRetransmitted (v : bool) (r : ReState) : ReState :=
  ltac:(update_field eta_re (eta_re r) (x_reestablishRetransmitted r) v).
Definition set_spliceAbortPending (v : bool) (r : ReState) : ReState :=
  ltac:(update_field eta_re (eta_re r) (x_spliceAbortPending r) v).
Definition set_txAbortSent (v : bool) (r : ReState) : ReState :=
  ltac:(update_field eta_re (eta_re r) (x_txAbortSent r) v).

Definition set_pendingBatch (v : bool) (c : CloseState) : CloseState :=
  ltac:(update_field eta_close (eta_close c) (k_pendingBatch c) v).
Definition set_dataLossDetected (v : option bool) (c : CloseState) : CloseState :=
  ltac:(update_field eta_close (eta_close c) (k_dataLossDetected c) v).
Definition set_reestablishRecencyUnproven (v : option bool) (s : IChannelState) : IChannelState :=
  ltac:(update_field eta_state (eta_state s) (s_reestablishRecencyUnproven s) v).
Definition set_reestablishSecretMissing (v : option bool) (s : IChannelState) : IChannelState :=
  ltac:(update_field eta_state (eta_state s) (s_reestablishSecretMissing s) v).

Definition x_chan (r : ReState) : IChannelState := k_chan (x_close r).
Definition on_state (f : IChannelState -> IChannelState) : ReState -> ReState := on_close (on_chan f).
Definition x_state (r : ReState) : ChannelState := s_state (x_chan r).

(** ** Actions *)

Inductive ReMessage :=
| RM_UPDATE (m : ChannelMessage)
| RM_REESTABLISH (m : IChannelReestablishMessage)
| RM_READY (m : IChannelReadyMessage)
| RM_TX_ABORT (m : ITxAbortMessage).

(** [RE_SEND] with the replay flag of the action; the other actions are those of a close. *)
Inductive ReAction :=
| RE_SEND (replay : bool) (m : ReMessage)
| RE_CLOSE (a : CloseAction).

Definition re_outcome : Type := ReState * result (list ReAction).

Definition RE_PERSIST : ReAction := RE_CLOSE PERSIST.

(** Run a stage of the closing state. *)
Definition in_close (f : CloseState -> close_outcome) (r : ReState) : re_outcome :=
  let '(c, res) := f (x_close r) in
  (on_close (fun _ => c) r, res ≫= fun actions => Ok (map RE_CLOSE actions)).

(** ** The connection is lost *)

Definition is_update_fee (m : ChannelMessage) : bool :=
  match m with UPDATE_FEERATE _ => true | _ => false end.

Definition markable (st : ChannelState) : bool :=
  match st with
  | CHANNEL_NORMAL | SHUTTING_DOWN | NEGOTIATING_CLOSING | AWAITING_CHANNEL_READY
  | AWAITING_FUNDING_CONFIRMED => true
  | _ => false
  end.

(** A peer's add that no commitment_signed of the peer covered. *)
Definition forgets_add (key : string) (e : IHtlcEntry) : bool :=
  String.prefix "received-" key && bool_decide (e_state e = PENDING) &&
  flag_false (e_addLocallyRevoked e).

(** A peer's settle that no commitment_signed of the peer covered. *)
Definition forgets_settle (key : string) (e : IHtlcEntry) : bool :=
  String.prefix "offered-" key && removed e && flag_false (e_removalLocallyRevoked e).

Definition restored_entry (e : IHtlcEntry) : IHtlcEntry :=
  with_removalLocallyRevoked None (with_removalRemoteCommitted None (with_state COMMITTED e)).

Definition rollback_entry (st : IChannelState) (kv : string * IHtlcEntry) : IChannelState :=
  let '(key, e) := kv in
  if forgets_add key e
  then set_remoteBalanceMsat (s_remoteBalanceMsat st + e_amountMsat e)
         (set_htlcs (del key (s_htlcs st)) st)
  else if forgets_settle key e then set_htlcs (set key (restored_entry e) (s_htlcs st)) st
  else st.

Definition rollback_updates (st : IChannelState) : IChannelState :=
  fold_left rollback_entry (s_htlcs st) st.

Definition rollback_fee (st : IChannelState) : IChannelState :=
  if negb (flag_true (s_pendingFeerateSignable st)) && negb (flag_true (s_pendingFeerateCommitted st))
  then set_pendingLocalUpdates
         (List.filter (fun u => negb (is_update_fee u)) (s_pendingLocalUpdates st))
         (set_pendingFeeratePerKw None st)
  else st.

Definition rollback_lease (st : IChannelState) : IChannelState :=
  if negb (flag_true (s_pendingLeaseBlockheightSignable st)) &&
     negb (flag_true (s_pendingLeaseBlockheightCommitted st))
  then set_pendingLeaseBlockheight None st else st.

Record IAbandonedLocalAdd := {
  aa_htlcId : Z;
  aa_paymentHash : buffer;
  aa_amountMsat : Z
}.

(** Something still owes the peer a commitment_signed. *)
Definition owes_entry (e : IHtlcEntry) : bool :=
  negb (flag_true (e_commitCoverPending e)) &&
  ((flag_true (e_addLocallyRevoked e) && bool_decide (e_state e = PENDING)) ||
   (flag_true (e_removalLocallyRevoked e) && negb (flag_true (e_removalRemoteCommitted e)) &&
    removed e)).

Definition _owesCommitmentSignature (st : IChannelState) : bool :=
  (s_pendingLocalUpdatesSignedCount st <? Z.of_nat (length (s_pendingLocalUpdates st))) ||
  (bool_decide (is_Some (s_pendingFeeratePerKw st)) && negb (flag_true (s_pendingFeerateCommitted st))) ||
  (bool_decide (is_Some (s_pendingLeaseBlockheight st)) &&
   negb (flag_true (s_pendingLeaseBlockheightCommitted st))) ||
  existsb owes_entry (values (s_htlcs st)).

(** One update behind the signed ones: what is kept of the queue, and what is given up. *)
Definition drop_update (acc : IChannelState * list ChannelMessage * list IAbandonedLocalAdd)
    (update : ChannelMessage) : IChannelState * list ChannelMessage * list IAbandonedLocalAdd :=
  let '(st, kept, dropped) := acc in
  match update with
  | UPDATE_ADD msg =>
      let key := htlc_key OFFERED (ua_id msg) in
      match get key (s_htlcs st) with
      | Some entry =>
          if bool_decide (e_state entry = PENDING) && flag_false (e_addRemoteCommitted entry) &&
             negb (flag_true (e_commitCoverPending entry))
          then (set_localBalanceMsat (s_localBalanceMsat st + e_amountMsat entry)
                  (set_htlcs (del key (s_htlcs st)) st), kept,
                dropped ++ [{| aa_htlcId := ua_id msg; aa_paymentHash := e_paymentHash entry;
                               aa_amountMsat := e_amountMsat entry |}])
          else (st, kept ++ [update], dropped)
      | None => (st, kept, dropped ++ [{| aa_htlcId := ua_id msg; aa_paymentHash := ua_paymentHash msg;
                                          aa_amountMsat := ua_amountMsat msg |}])
      end
  | _ => (st, kept ++ [update], dropped)
  end.

Definition _dropUnsignedLocalAddsIfHeld (st : IChannelState)
    : IChannelState * list IAbandonedLocalAdd :=
  if negb (flag_true (s_restoreRecencyUnproven st)) then (st, [])
  else
    let queue := s_pendingLocalUpdates st in
    let signed := Z.to_nat (s_pendingLocalUpdatesSignedCount st) in
    if Z.of_nat (length queue) <=? s_pendingLocalUpdatesSignedCount st then (st, [])
    else
      let '(st', kept, dropped) := fold_left drop_update (drop signed queue) (st, take signed queue, []) in
      match dropped with
      | [] => (st, [])
      | _ =>
          let st' := set_pendingLocalUpdates kept st' in
          (if _owesCommitmentSignature st' then st' else set_needsCommitment (Some false) st', dropped)
      end.

Definition dropUnsignedHeldAdds (r : ReState) : ReState * list IAbandonedLocalAdd :=
  let '(st, dropped) := _dropUnsignedLocalAddsIfHeld (x_chan r) in (on_state (fun _ => st) r, dropped).

Definition markForReestablish (r : ReState) : ReState * list IAbandonedLocalAdd :=
  if negb (markable (x_state r)) then (r, [])
  else
    let r := set_spliceAbortPending false (set_txAbortSent false (set_reestablishRetransmitted false r)) in
    let r := on_close (set_pendingBatch false) r in
    let r := on_close (fun c => set_preReestablishState (Some (k_state c)) c) r in
    let r := on_state (set_state AWAITING_REESTABLISH) r in
    let r := on_state rollback_updates r in
    let r := on_state rollback_fee r in
    let r := on_state rollback_lease r in
    dropUnsignedHeldAdds r.

(** ** Our channel_reestablish *)

Section Reestablish.
Context `{L : BitcoinLib}.

(** [_failChannelWithWireError] with another text for the caller. *)
Definition _failReestablishSecretMissing (revocationIndex secretIndex : Z) (r : ReState) : re_outcome :=
  let r := on_state (set_reestablishSecretMissing (Some true)) r in
  let r := set_reestablishSecretMissingNotice (Some (revocationIndex, secretIndex)) r in
  let '(r, res) := in_close (failChannelWithWireError
    "cannot produce channel_reestablish from local state; this channel is failed and awaiting your force close") r in
  (r, res ≫= fun actions => Ok (map (fun a => match a with
        | RE_CLOSE (FAULT _) => RE_CLOSE (FAULT "Cannot send channel_reestablish")
        | a => a end) actions)).

Definition createReestablish (r : ReState) : re_outcome :=
  let st := x_chan r in
  let revocationCount := _remoteRevocationCount st in
  let lastSecret := if 0 <? revocationCount
                    then getSecret sha256 (s_shaChainStore st) (MAX_INDEX - (revocationCount - 1))
                    else Some (alloc 32) in
  match lastSecret with
  | None => _failReestablishSecretMissing (revocationCount - 1) (MAX_INDEX - (revocationCount - 1)) r
  | Some lastSecret =>
      match getPerCommitmentPoint (s_localPerCommitmentSeed st) (s_localCommitmentNumber st) with
      | Err e => (r, Err e)
      | Ok myCurrentPoint =>
          (r, Ok [RE_SEND false (RM_REESTABLISH
            {| rm_channelId := channel_id st;
               rm_nextCommitmentNumber := s_localCommitmentNumber st + 1;
               rm_nextRevocationNumber := revocationCount;
               rm_yourLastPerCommitmentSecret := lastSecret;
               rm_myCurrentPerCommitmentPoint := myCurrentPoint;
               rm_nextFundingTxid := None; rm_nextFundingRetransmitFlags := None;
               rm_nextLocalNonce := None; rm_ffor := None |})])
      end
  end.

Definition takeReestablishSecretMissingNotice (r : ReState) : ReState * option (Z * Z) :=
  (set_reestablishSecretMissingNotice None r, x_reestablishSecretMissingNotice r).

Definition shouldRetransmitReestablish (r : ReState) : ReState * bool :=
  if bool_decide (x_state r = AWAITING_REESTABLISH) then (r, false)
  else if x_reestablishRetransmitted r then (r, false)
  else (set_reestablishRetransmitted true r, true).

(** ** What the peer missed *)

(** The last revoke_and_ack and the last commitment_signed we sent. *)
Definition cached_revoke (st : IChannelState) : list ChannelMessage :=
  match s_lastSentRevokeSecret st, s_lastSentRevokeNextPoint st with
  | Some secret, Some point =>
      [REVOKE {| ra_channelId := channel_id st; ra_perCommitmentSecret := secret;
                 ra_nextPerCommitmentPoint := point; ra_nextLocalNonce := None |}]
  | _, _ => []
  end.

Definition cached_commit (st : IChannelState) : list ChannelMessage :=
  match s_lastSentCommitmentSigned st with
  | Some signature =>
      [COMMIT {| cs_channelId := channel_id st; cs_signature := signature;
                 cs_htlcSignatures := s_lastSentHtlcSignatures st; cs_fundingTxid := None;
                 cs_partialSignatureWithNonce := None |}]
  | None => []
  end.

Definition revoke_retransmit (nextRevocationNumber : Z) (st : IChannelState) : list ChannelMessage :=
  if nextRevocationNumber + 1 =? s_localCommitmentNumber st then cached_revoke st else [].

Definition peerMissedCommitment (nextCommitmentNumber : Z) (st : IChannelState) : bool :=
  (nextCommitmentNumber <=? s_remoteCommitmentNumber st) && (0 <? s_remoteCommitmentNumber st).

Definition commit_retransmit (nextCommitmentNumber : Z) (st : IChannelState) : list ChannelMessage :=
  if peerMissedCommitment nextCommitmentNumber st then cached_commit st else [].

(** The loop over the queue from index [i]: the updates for before and for after the
    retransmitted commitment_signed. *)
Fixpoint split_queue (peerHasCommitment : bool) (signedCount covered i : Z)
    (queue : list ChannelMessage) : list ChannelMessage * list ChannelMessage :=
  match queue with
  | [] => ([], [])
  | update :: queue =>
      let '(ahead, later) := split_queue peerHasCommitment signedCount covered (i + 1) queue in
      if peerHasCommitment && (i <? signedCount) && is_update_fee update then (ahead, later)
      else if i <? covered then (update :: ahead, later) else (ahead, update :: later)
  end.

Definition replayed_updates (nextCommitmentNumber : Z) (st : IChannelState)
    : list ChannelMessage * list ChannelMessage :=
  let queue := s_pendingLocalUpdates st in
  let signedCount := s_pendingLocalUpdatesSignedCount st in
  let peerHasCommitment := nextCommitmentNumber =? s_remoteCommitmentNumber st + 1 in
  let covered := if peerMissedCommitment nextCommitmentNumber st
                 then Z.min (Z.max signedCount 0) (Z.of_nat (length queue))
                 else Z.of_nat (length queue) in
  split_queue peerHasCommitment signedCount covered 0 queue.

(** Everything the peer is sent again, in the order it leaves. *)
Definition retransmission (msg : IChannelReestablishMessage) (st : IChannelState)
    : list ChannelMessage :=
  let revoke := revoke_retransmit (rm_nextRevocationNumber msg) st in
  let revokeLast := flag_true (s_lastSentWasRevoke st) in
  let '(ahead, later) := replayed_updates (rm_nextCommitmentNumber msg) st in
  let commit := commit_retransmit (rm_nextCommitmentNumber msg) st in
  let deferred := if revokeLast then revoke else [] in
  (if revokeLast then [] else revoke) ++ ahead ++ commit ++
  match commit with [] => later ++ deferred | _ => deferred ++ later end.

(** ** The peer's channel_reestablish *)

Definition _heldReestablishGapFailure (message : string) (r : ReState) : re_outcome :=
  if negb (flag_true (s_restoreRecencyUnproven (x_chan r))) then (r, Ok [RE_CLOSE (FAULT message)])
  else in_close (_heldCooperativeCloseRefusal message) r.

(** The secret of the last revocation the peer received. *)
Definition secret_valid (msg : IChannelReestablishMessage) (st : IChannelState) : result bool :=
  if 0 <? rm_nextRevocationNumber msg then
    expectedSecret ← getPerCommitmentSecret sha256 (s_localPerCommitmentSeed st)
                       (rm_nextRevocationNumber msg - 1);
    Ok (buf_equals (rm_yourLastPerCommitmentSecret msg) expectedSecret)
  else Ok true.

Definition unproven_claim (msg : IChannelReestablishMessage) (r : ReState) : re_outcome :=
  let r := if s_localCommitmentNumber (x_chan r) <? rm_nextRevocationNumber msg
           then on_state (set_reestablishRecencyUnproven (Some true)) r else r in
  in_close (failChannelWithWireError "Invalid per-commitment secret in channel_reestablish") r.

Definition fell_behind (msg : IChannelReestablishMessage) (st : IChannelState) : bool :=
  ((s_remoteCommitmentNumber st + 1 <? rm_nextCommitmentNumber msg) ||
   (s_localCommitmentNumber st + 1 <? rm_nextRevocationNumber msg)) &&
  (s_localCommitmentNumber st <? rm_nextRevocationNumber msg) &&
  negb (buf_equals (rm_yourLastPerCommitmentSecret msg) (alloc 32)).

(** The channel is given up and the peer is asked to close. *)
Definition stop_for (reason : RecoveryCloseReason) (message : string) (r : ReState) : re_outcome :=
  let r := on_close (fun c => set_chan_state ERRORED (set_recoveryCloseReason (Some reason) c)) r in
  (r, Ok [RE_PERSIST; RE_CLOSE (SEND (M_ERROR (chan_id (x_close r)) (recovery_text reason)));
          RE_CLOSE (FAULT message)]).

Context (ecc_isPoint : buffer -> bool).

Definition data_loss (msg : IChannelReestablishMessage) (r : ReState) : re_outcome :=
  let r := on_close (set_dataLossDetected (Some true)) r in
  let r := if isValidPublicKey ecc_isPoint (rm_myCurrentPerCommitmentPoint msg)
           then set_dlpRemotePerCommitmentPoint (Some (rm_myCurrentPerCommitmentPoint msg)) r else r in
  stop_for local_data_loss
    "Channel fell behind: peer proved our state is stale (data loss); refusing to broadcast, awaiting peer force close" r.

(** The peer holds the revocation of the commitment we would broadcast. *)
Definition note_revoked (msg : IChannelReestablishMessage) (r : ReState) : ReState * list ReAction :=
  let st := x_chan r in
  if (rm_nextRevocationNumber msg =? s_localCommitmentNumber st + 1) &&
     negb (buf_equals (rm_yourLastPerCommitmentSecret msg) (alloc 32)) &&
     negb (flag_true (s_restoreRevokedRisk st))
  then (on_state (set_restoreRevokedRisk (Some true)) r, [RE_PERSIST])
  else (r, []).

Definition restore_state (r : ReState) : ReState :=
  match x_state r, k_preReestablishState (x_close r) with
  | AWAITING_REESTABLISH, Some before =>
      let c := set_preReestablishState None (set_chan_state before (x_close r)) in
      on_close (fun _ => if bool_decide (before = NEGOTIATING_CLOSING) &&
                            bool_decide (is_Some (closingBlockedBy c))
                         then set_chan_state SHUTTING_DOWN c else c) r
  | _, _ => r
  end.

(** A funding transaction of the peer we know nothing of. *)
Definition unknown_funding (msg : IChannelReestablishMessage) (r : ReState)
    : ReState * list ReAction :=
  match rm_nextFundingTxid msg, s_channelId (x_chan r) with
  | Some _, Some channelId =>
      (set_txAbortSent true (set_spliceAbortPending true r),
       [RE_SEND false (RM_TX_ABORT {| tx_channelId := channelId;
                                      tx_data := String.list_byte_of_string "unknown next_funding_txid" |})])
  | _, _ => (r, [])
  end.

Definition ready_retransmit (msg : IChannelReestablishMessage) (r : ReState)
    : result (list ReAction) :=
  let st := x_chan r in
  if x_localChannelReady r &&
     ((rm_nextCommitmentNumber msg =? 1) || bool_decide (s_state st = AWAITING_CHANNEL_READY) ||
      bool_decide (s_state st = AWAITING_FUNDING_CONFIRMED))
  then secondPoint ← getPerCommitmentPoint (s_localPerCommitmentSeed st) 1;
       Ok [RE_SEND true (RM_READY {| cr_channelId := channel_id st;
             cr_secondPerCommitmentPoint := secondPoint; cr_shortChannelId := x_scidAlias r;
             cr_nextLocalNonce := None |})]
  else Ok [].

Definition is_send (a : ReAction) : bool := match a with RE_SEND _ _ => true | _ => false end.
Definition is_replay (a : ReAction) : bool := match a with RE_SEND replay _ => replay | _ => false end.

Definition resume (msg : IChannelReestablishMessage) (actions : list ReAction) (r : ReState)
    : re_outcome :=
  let actions := actions ++ map (fun m => RE_SEND true (RM_UPDATE m)) (retransmission msg (x_chan r)) in
  let r := restore_state r in
  let '(r, abort) := unknown_funding msg r in
  match ready_retransmit msg r with
  | Err e => (r, Err e)
  | Ok ready =>
      let actions := actions ++ abort ++ ready in
      let r := set_lastReestablishOutcome
                 (Some (if existsb is_replay actions then REPLAY else CLEAN)) r in
      (r, Ok (if existsb is_send actions then RE_PERSIST :: actions else actions))
  end.

Definition handleReestablish (msg : IChannelReestablishMessage) (r : ReState) : re_outcome :=
  let r := set_lastReestablishOutcome None r in
  if rm_nextCommitmentNumber msg =? 0
  then in_close (failChannelWithWireError "channel_reestablish next_commitment_number is 0") r
  else match secret_valid msg (x_chan r) with
  | Err e => (r, Err e)
  | Ok false => unproven_claim msg r
  | Ok true =>
      if fell_behind msg (x_chan r) then data_loss msg r
      else if flag_true (k_stateUncertain (x_close r))
      then stop_for state_uncertain
             "Restored state is unprovable (StateUncertain): refusing to resume or broadcast, awaiting peer force close" r
      else
        let '(r, actions) := note_revoked msg r in
        let st := x_chan r in
        if s_remoteCommitmentNumber st + 1 <? rm_nextCommitmentNumber msg
        then _heldReestablishGapFailure "Remote expects future commitment we have not created" r
        else if s_localCommitmentNumber st + 1 <? rm_nextRevocationNumber msg
        then _heldReestablishGapFailure "Remote expects future revocation we have not sent" r
        else if rm_nextCommitmentNumber msg <? s_remoteCommitmentNumber st
        then in_close (failChannelWithWireError
               "channel_reestablish next_commitment_number is more than one behind") r
        else if rm_nextRevocationNumber msg + 1 <? s_localCommitmentNumber st
        then in_close (failChannelWithWireError
               "channel_reestablish next_revocation_number is more than one behind") r
        else resume msg actions r
  end.

(** ** The manager *)

Context (signCommitmentTx signClosing : Transaction -> buffer -> Z -> buffer).

Definition canSettleHtlcs (r : ReState) : bool :=
  bool_decide (x_state r = CHANNEL_NORMAL) || bool_decide (x_state r = SHUTTING_DOWN).

(** The actions of an update handler among those of a reconnection. *)
Definition update_action (a : ChannelAction) : list ReAction :=
  match a with
  | PERSIST_STATE => [RE_PERSIST]
  | SEND_MESSAGE m => [RE_SEND false (RM_UPDATE m)]
  | ERROR message => [RE_CLOSE (FAULT message)]
  | _ => []
  end.

(** The signature that is still owed. *)
Definition release_commitment (htlcSignatures : list buffer) (r : ReState) : re_outcome :=
  if canSettleHtlcs r && bool_decide (is_Some (s_channelId (x_chan r))) &&
     negb (k_pendingBatch (x_close r))
  then let '(st, res) := autoSignAndSendCommitment signCommitmentTx htlcSignatures (x_chan r) in
       (on_state (fun _ => st) r, res ≫= fun actions => Ok (flat_map update_action actions))
  else (r, Ok []).

Definition dead_state (st : ChannelState) : bool :=
  match st with FORCE_CLOSED | CLOSED | ERRORED => true | _ => false end.

(** Run two stages one after the other. *)
Definition and_then (first : re_outcome) (second : ReState -> re_outcome) : re_outcome :=
  let '(r, res) := first in
  match res with
  | Err e => (r, Err e)
  | Ok actions => let '(r, res) := second r in (r, res ≫= fun more => Ok (actions ++ more))
  end.

(** The handler for a message that names this channel and comes from its peer. *)
Definition handleChannelReestablish (nonce : buffer) (simple : bool) (rate : option Z)
    (htlcSignatures : list buffer) (msg : IChannelReestablishMessage) (r : ReState) : re_outcome :=
  if negb (canScopeWireError (rm_channelId msg))
  then (r, Ok [RE_CLOSE (FAULT "channel_reestablish dropped: channel_id is the reserved all-zero id")])
  else if dead_state (x_state r)
  then (r, Ok [RE_CLOSE (SEND (M_ERROR (rm_channelId msg)
                 (if bool_decide (x_state r = ERRORED) then "channel failed; closing on chain"
                  else "unknown or closed channel")))])
  else
    let '(r, again) := shouldRetransmitReestablish r in
    and_then (if again then createReestablish r else (r, Ok [])) (fun r =>
      if again && bool_decide (x_state r = ERRORED) then (r, Ok [])
      else and_then (handleReestablish msg r) (fun r =>
             and_then (in_close (resume_close signClosing nonce simple rate) r)
               (release_commitment htlcSignatures))).

End Reestablish.
