(* ===== verification/ReestablishRun.v ===== *)
(** * What a side keeps for a reconnection

    In a run of two nodes (ChannelPair.v), the messages of one side that are still under way are the
    end of what it would send again: its last signature and revocation, in the order they left, and a
    tail of its queue of updates, split where its signature splits it ([Kept]).  It keeps every update of its own in the queue it
    replays until its peer has revoked for it ([Awaits]). *)

From stdpp Require Import sets.
From S2P Require Import Prelude Buffer JsMap ShaChain CommitmentTx Scripts.
From S2P Require Import WireBasic WireUpdate WireCommitment.
From S2P Require Import ChannelTypes CommitmentBuilder HtlcPolicy HtlcAdmission Channel ChannelFee HtlcProtocol ChannelEntries.
From S2P Require Import ChannelTrack ChannelPair ChannelRates ChannelRun Reestablish.
Local Open Scope Z_scope.

Definition is_commit_msg (m : ChannelMessage) : bool := match m with COMMIT _ => true | _ => false end.
Definition is_revoke_msg (m : ChannelMessage) : bool := match m with REVOKE _ => true | _ => false end.
Definition is_signing (m : ChannelMessage) : bool := is_commit_msg m || is_revoke_msg m.
Definition is_update (m : ChannelMessage) : bool :=
  match m with
  | UPDATE_ADD _ | UPDATE_FULFILL _ | UPDATE_FAIL _ | UPDATE_MALFORMED _ | UPDATE_FEERATE _ => true
  | _ => false
  end.

Abbreviation signing := (List.filter is_signing).
Abbreviation updates := (List.filter is_update).
Abbreviation commits := (List.filter is_commit_msg).
Abbreviation revokes := (List.filter is_revoke_msg).

Definition msgs (l : list Flight) : list ChannelMessage := map f_msg l.

(** The fields a reconnection reads. *)
Definition memory (st : IChannelState) :=
  (s_lastSentCommitmentSigned st, s_lastSentHtlcSignatures st, s_lastSentRevokeSecret st,
   s_lastSentRevokeNextPoint st, s_lastSentWasRevoke st, s_channelId st, s_restoreRecencyUnproven st).
Definition queued (st : IChannelState) :=
  (s_pendingLocalUpdates st, s_pendingLocalUpdatesSignedCount st).
Definition staged (st : IChannelState) :=
  (s_role st, s_pendingFeeratePerKw st, s_pendingFeerateSignable st, s_pendingFeerateCommitted st).

Definition in_order (st : IChannelState) (commit revoke : list ChannelMessage) : list ChannelMessage :=
  if flag_true (s_lastSentWasRevoke st) then commit ++ revoke else revoke ++ commit.

Definition signed_count (st : IChannelState) : nat := Z.to_nat (s_pendingLocalUpdatesSignedCount st).
Abbreviation has_fee := (existsb is_update_fee).

(** [l] is what is under way from a side in state [st]. *)
Record Kept (st : IChannelState) (l : list ChannelMessage) : Prop := {
  kp_signing : signing l =
    in_order st (if existsb is_commit_msg l then cached_commit st else [])
                (if existsb is_revoke_msg l then cached_revoke st else []);
  kp_once : (length (commits l) <= 1)%nat /\ (length (revokes l) <= 1)%nat;
  kp_count : 0 <= s_pendingLocalUpdatesSignedCount st <= Z.of_nat (length (s_pendingLocalUpdates st));
  kp_queue : exists d, s_pendingLocalUpdates st = d ++ updates l /\
    (existsb is_commit_msg l = false -> (signed_count st <= length d)%nat);
  kp_split l1 c l2 : l = l1 ++ COMMIT c :: l2 ->
    updates l2 = drop (signed_count st) (s_pendingLocalUpdates st);
  kp_fee : has_fee (s_pendingLocalUpdates st) = true ->
    s_role st = OPENER /\ is_Some (s_pendingFeeratePerKw st);
  kp_fee_signed : has_fee (take (signed_count st) (s_pendingLocalUpdates st)) = true ->
    flag_true (s_pendingFeerateCommitted st) = true;
  kp_fee_later : has_fee (drop (signed_count st) (s_pendingLocalUpdates st)) = true ->
    flag_true (s_pendingFeerateCommitted st) = false;
  kp_signable : s_role st = OPENER -> flag_true (s_pendingFeerateSignable st) = false;
  kp_proven : flag_true (s_restoreRecencyUnproven st) = false;
  kp_plain : forallb is_update (s_pendingLocalUpdates st) = true
}.

Lemma kept_same st st' l :
  memory st' = memory st -> queued st' = queued st -> staged st' = staged st -> Kept st l -> Kept st' l.
Proof.
  unfold memory, queued, staged. intros [= M1 M2 M3 M4 M5 M6 M7] [= Q1 Q2] [= S1 S2 S3 S4] [].
  constructor; unfold in_order, cached_commit, cached_revoke, signed_count, channel_id in *;
    rewrite ?M1, ?M2, ?M3, ?M4, ?M5, ?M6, ?M7, ?Q1, ?Q2, ?S1, ?S2, ?S3, ?S4; done.
Qed.

Lemma updates_app l l' : updates (l ++ l') = updates l ++ updates l'.
Proof. apply List.filter_app. Qed.

Lemma update_plain m : is_update m = true -> is_commit_msg m = false /\ is_revoke_msg m = false.
Proof. by destruct m. Qed.

(** ** Sending *)

Lemma split_last {A} (l l1 l2 : list A) x y : l ++ [x] = l1 ++ y :: l2 -> y <> x ->
  exists l3, l2 = l3 ++ [x] /\ l = l1 ++ y :: l3.
Proof.
  intros E Hne. destruct l2 as [|z l2] using rev_ind.
  - apply app_inj_tail in E as [_ ->]. done.
  - rewrite app_comm_cons, app_assoc in E. apply app_inj_tail in E as [-> ->]. by exists l2.
Qed.

Lemma drop_snoc {A} n (l : list A) x : (n <= length l)%nat -> drop n (l ++ [x]) = drop n l ++ [x].
Proof. intros H. rewrite drop_app. by replace (n - length l)%nat with 0%nat by lia. Qed.

Lemma take_snoc {A} n (l : list A) x : (n <= length l)%nat -> take n (l ++ [x]) = take n l.
Proof. intros H. rewrite take_app. replace (n - length l)%nat with 0%nat by lia. by rewrite app_nil_r. Qed.

(** A state that differs in the queue, by one update, and in a staged fee. *)
Lemma kept_push st st' l m :
  Kept st l -> is_update m = true -> memory st' = memory st ->
  queued st' = (s_pendingLocalUpdates st ++ [m], s_pendingLocalUpdatesSignedCount st) ->
  (if is_update_fee m
   then s_role st = OPENER /\ s_role st' = OPENER /\ is_Some (s_pendingFeeratePerKw st') /\
        flag_true (s_pendingFeerateSignable st') = false /\
        flag_true (s_pendingFeerateCommitted st') = false /\
        bool_decide (is_Some (s_pendingFeeratePerKw st)) && flag_true (s_pendingFeerateCommitted st) = false
   else staged st' = staged st) ->
  Kept st' (l ++ [m]).
Proof.
  intros [K1 K2 K3 K4 K5 K6 K7 K8 K9 K10 K11] Hm Em Eq Hs. destruct (update_plain m Hm) as [Hc Hr].
  assert (is_signing m = false) as Hg by (unfold is_signing; by rewrite Hc, Hr).
  injection Eq as Q1 Q2. injection Em as M1 M2 M3 M4 M5 M6 M7.
  assert (signed_count st' = signed_count st) as Ec by (unfold signed_count; by rewrite Q2).
  assert (signed_count st <= length (s_pendingLocalUpdates st))%nat as Hle by (unfold signed_count; lia).
  assert (existsb is_commit_msg (l ++ [m]) = existsb is_commit_msg l) as Xc
    by (rewrite existsb_app; cbn; by rewrite Hc, !orb_false_r).
  assert (existsb is_revoke_msg (l ++ [m]) = existsb is_revoke_msg l) as Xr
    by (rewrite existsb_app; cbn; by rewrite Hr, !orb_false_r).
  constructor; rewrite ?Ec, ?Q1, ?Q2, ?Xc, ?Xr, ?drop_snoc, ?take_snoc by done.
  - rewrite List.filter_app. cbn [List.filter]. rewrite Hg, app_nil_r, K1.
    unfold in_order, cached_commit, cached_revoke, channel_id. by rewrite M1, M2, M3, M4, M5, M6.
  - rewrite !List.filter_app. cbn [List.filter]. by rewrite Hc, Hr, !app_nil_r.
  - rewrite length_app. cbn. lia.
  - destruct K4 as (d & E & Hd). exists d. rewrite updates_app. cbn [List.filter]. rewrite Hm, E.
    by rewrite app_assoc.
  - intros l1 c l2 E. apply split_last in E as (l3 & -> & ->); [|intros <-; done].
    rewrite updates_app, (K5 _ _ _ eq_refl). cbn [List.filter]. by rewrite Hm.
  - rewrite existsb_app. cbn. rewrite orb_false_r. destruct (is_update_fee m).
    + by destruct Hs as (_ & ? & ? & _).
    + rewrite orb_false_r. injection Hs as -> -> _ _. done.
  - destruct (is_update_fee m).
    + destruct Hs as (_ & _ & _ & _ & -> & Hn). intros H. exfalso.
      assert (has_fee (s_pendingLocalUpdates st) = true) as Hf.
      { rewrite <- (take_drop (signed_count st) (s_pendingLocalUpdates st)), existsb_app, H. done. }
      destruct (K6 Hf) as [_ Hp]. rewrite (bool_decide_true _ Hp), (K7 H) in Hn. done.
    + injection Hs as _ _ _ ->. done.
  - rewrite existsb_app. cbn. rewrite orb_false_r. destruct (is_update_fee m).
    + by destruct Hs as (_ & _ & _ & _ & ? & _).
    + rewrite orb_false_r. injection Hs as _ _ _ ->. done.
  - destruct (is_update_fee m).
    + by destruct Hs as (_ & _ & _ & ? & _).
    + injection Hs as -> _ -> _. done.
  - by rewrite M7.
  - rewrite forallb_app, K11. cbn. by rewrite Hm.
Qed.

(** ** Signing and revoking *)

Lemma existsb_filter {A} (p : A -> bool) l : existsb p l = false -> List.filter p l = [].
Proof.
  induction l as [|x l IH]; [done|]. cbn. intros [-> H]%orb_false_iff. auto.
Qed.

Lemma signing_only_revokes l : existsb is_commit_msg l = false -> signing l = revokes l.
Proof.
  induction l as [|m l IH]; [done|]. cbn [existsb List.filter]. intros [Hm H]%orb_false_iff.
  rewrite (IH H). unfold is_signing. by rewrite Hm.
Qed.

Lemma signing_only_commits l : existsb is_revoke_msg l = false -> signing l = commits l.
Proof.
  induction l as [|m l IH]; [done|]. cbn [existsb List.filter]. intros [Hm H]%orb_false_iff.
  rewrite (IH H). unfold is_signing. by rewrite Hm, orb_false_r.
Qed.

(** Split at the only signature. *)
Lemma split_new l l1 l2 c c' : existsb is_commit_msg l = false -> l ++ [COMMIT c] = l1 ++ COMMIT c' :: l2 ->
  l2 = [].
Proof.
  intros H E. destruct l2 as [|z l2] using rev_ind; [done|].
  rewrite app_comm_cons, app_assoc in E. apply app_inj_tail in E as [-> _].
  rewrite existsb_app in H. cbn in H. by rewrite orb_true_r in H.
Qed.

Lemma kept_sign st st' l m :
  Kept st l -> existsb is_commit_msg l = false ->
  s_lastSentWasRevoke st' = Some false -> cached_commit st' = [COMMIT m] ->
  cached_revoke st' = cached_revoke st ->
  queued st' = (s_pendingLocalUpdates st, Z.of_nat (length (s_pendingLocalUpdates st))) ->
  s_role st' = s_role st -> s_pendingFeeratePerKw st' = s_pendingFeeratePerKw st ->
  s_pendingFeerateSignable st' = s_pendingFeerateSignable st ->
  (s_role st = OPENER -> is_Some (s_pendingFeeratePerKw st) ->
   flag_true (s_pendingFeerateCommitted st') = true) ->
  s_restoreRecencyUnproven st' = s_restoreRecencyUnproven st -> Kept st' (l ++ [COMMIT m]).
Proof.
  intros [K1 K2 K3 K4 K5 K6 K7 K8 K9 K10 K11] Hc Ew Ec Er [= Q1 Q2] S1 S2 S3 Hf Hu.
  assert (signed_count st' = length (s_pendingLocalUpdates st)) as En
    by (unfold signed_count; rewrite Q2; lia).
  constructor; rewrite ?En, ?Q1, ?Q2, ?S1, ?S2, ?S3, ?drop_all, ?firstn_all.
  - rewrite !existsb_app, List.filter_app, K1, Hc, Ec, Er. unfold in_order. rewrite Ew.
    cbn [existsb is_commit_msg is_revoke_msg List.filter is_signing flag_true]. rewrite ?orb_false_r.
    cbn [orb]. by destruct (flag_true (s_lastSentWasRevoke st)); rewrite ?app_nil_r.
  - rewrite !List.filter_app, !length_app, (existsb_filter _ _ Hc). cbn. lia.
  - lia.
  - destruct K4 as (d & E & _). exists d. rewrite updates_app. cbn [List.filter is_update]. rewrite app_nil_r.
    split; [done|]. rewrite existsb_app. cbn. by rewrite orb_true_r.
  - intros l1 c l2 E. by rewrite (split_new _ _ _ _ _ Hc E).
  - done.
  - intros H. destruct (K6 H). by apply Hf.
  - done.
  - done.
  - by rewrite Hu.
  - done.
Qed.

Lemma kept_revoke st st' l m :
  Kept st l -> existsb is_revoke_msg l = false ->
  s_lastSentWasRevoke st' = Some true -> cached_revoke st' = [REVOKE m] ->
  cached_commit st' = cached_commit st -> queued st' = queued st ->
  s_role st' = s_role st -> s_pendingFeeratePerKw st' = s_pendingFeeratePerKw st ->
  s_pendingFeerateCommitted st' = s_pendingFeerateCommitted st ->
  (s_role st = OPENER -> s_pendingFeerateSignable st' = s_pendingFeerateSignable st) ->
  s_restoreRecencyUnproven st' = s_restoreRecencyUnproven st -> Kept st' (l ++ [REVOKE m]).
Proof.
  intros [K1 K2 K3 K4 K5 K6 K7 K8 K9 K10 K11] Hc Ew Er Ec [= Q1 Q2] S1 S2 S3 S4 Hu.
  assert (signed_count st' = signed_count st) as En by (unfold signed_count; by rewrite Q2).
  constructor; rewrite ?En, ?Q1, ?Q2, ?S1, ?S2, ?S3; try done.
  - rewrite !existsb_app, List.filter_app, K1, Hc, Ec, Er. unfold in_order. rewrite Ew.
    cbn [existsb is_commit_msg is_revoke_msg List.filter is_signing flag_true]. rewrite ?orb_false_r.
    cbn [orb]. by destruct (flag_true (s_lastSentWasRevoke st)); rewrite ?app_nil_r.
  - rewrite !List.filter_app, !length_app, (existsb_filter _ _ Hc). cbn. lia.
  - destruct K4 as (d & E & Hd). exists d. rewrite updates_app, existsb_app. cbn.
    by rewrite orb_false_r, app_nil_r.
  - intros l1 c l2 E. apply split_last in E as (l3 & -> & ->); [|done].
    rewrite updates_app, (K5 _ _ _ eq_refl). cbn. by rewrite app_nil_r.
  - intros H. rewrite (S4 H). auto.
  - by rewrite Hu.
Qed.

(** ** Acknowledged *)

Lemma kept_ack st st' l :
  Kept st l -> existsb is_commit_msg l = false -> memory st' = memory st ->
  queued st' = (drop (signed_count st) (s_pendingLocalUpdates st), 0) -> s_role st' = s_role st ->
  (if bool_decide (is_Some (s_pendingFeeratePerKw st)) && flag_true (s_pendingFeerateCommitted st)
   then flag_true (s_pendingFeerateSignable st') = false
   else s_pendingFeeratePerKw st' = s_pendingFeeratePerKw st /\
        s_pendingFeerateSignable st' = s_pendingFeerateSignable st /\
        s_pendingFeerateCommitted st' = s_pendingFeerateCommitted st) ->
  Kept st' l.
Proof.
  intros [K1 K2 K3 K4 K5 K6 K7 K8 K9 K10 K11] Hc [= M1 M2 M3 M4 M5 M6 M7] [= Q1 Q2] S1 Hf.
  assert (signed_count st' = 0%nat) as En by (unfold signed_count; by rewrite Q2).
  assert (has_fee (drop (signed_count st) (s_pendingLocalUpdates st)) = true ->
    has_fee (s_pendingLocalUpdates st) = true) as Hsub.
  { intros H. rewrite <- (take_drop (signed_count st) (s_pendingLocalUpdates st)), existsb_app, H.
    apply orb_true_r. }
  assert (has_fee (drop (signed_count st) (s_pendingLocalUpdates st)) = true ->
    (bool_decide (is_Some (s_pendingFeeratePerKw st)) && flag_true (s_pendingFeerateCommitted st)) = false) as Hn
    by (intros H; rewrite (K8 H); apply andb_false_r).
  constructor; rewrite ?En, ?Q1, ?Q2, ?S1; cbn [drop take existsb].
  - rewrite K1. unfold in_order, cached_commit, cached_revoke, channel_id. by rewrite M1, M2, M3, M4, M5, M6.
  - done.
  - lia.
  - destruct K4 as (d & E & Hd). exists (drop (signed_count st) d). rewrite E at 1.
    rewrite drop_app. specialize (Hd Hc). replace (signed_count st - length d)%nat with 0%nat by lia.
    split; [done|]. intros _. lia.
  - intros l1 c l2 ->. rewrite existsb_app in Hc. cbn in Hc. by rewrite orb_true_r in Hc.
  - intros H. rewrite (Hn H) in Hf. destruct Hf as (-> & _). auto.
  - done.
  - intros H. rewrite (Hn H) in Hf. destruct Hf as (_ & _ & ->). auto.
  - intros H. destruct (_ && _); [done|]. destruct Hf as (_ & -> & _). auto.
  - by rewrite M7.
  - rewrite <- (take_drop (signed_count st) (s_pendingLocalUpdates st)), forallb_app in K11.
    by apply andb_true_iff in K11 as [_ ?].
Qed.

(** ** Delivered *)

Lemma cached_commit_cases st : cached_commit st = [] \/ exists c, cached_commit st = [COMMIT c].
Proof. unfold cached_commit. destruct (s_lastSentCommitmentSigned st); eauto. Qed.

Lemma cached_revoke_cases st : cached_revoke st = [] \/ exists c, cached_revoke st = [REVOKE c].
Proof.
  unfold cached_revoke. destruct (s_lastSentRevokeSecret st), (s_lastSentRevokeNextPoint st); eauto.
Qed.

(** The first signing message goes, the other one stays. *)
Lemma signing_tail st (bc br : bool) m l :
  is_signing m = true ->
  m :: signing l = in_order st (if bc then cached_commit st else []) (if br then cached_revoke st else []) ->
  signing l = in_order st (if is_commit_msg m then [] else if bc then cached_commit st else [])
                (if is_revoke_msg m then [] else if br then cached_revoke st else []).
Proof.
  unfold in_order. intros Hm.
  destruct (cached_commit_cases st) as [->|[c ->]], (cached_revoke_cases st) as [->|[r ->]], bc, br,
    (flag_true (s_lastSentWasRevoke st)); cbn [app]; intros E; try discriminate E;
    injection E as -> E; rewrite ?E; done.
Qed.

Lemma none_left (p : ChannelMessage -> bool) m l :
  (length (List.filter p (m :: l)) <= 1)%nat -> p m = true -> existsb p l = false.
Proof.
  cbn [List.filter]. intros H Hm. rewrite Hm in H. cbn in H. destruct (existsb p l) eqn:E; [|done].
  apply existsb_exists in E as (x & Hx & Hp).
  assert (x ∈ List.filter p l) as Hin by (apply list_elem_of_In, filter_In; done).
  destruct (List.filter p l); [by apply elem_of_nil in Hin|]. cbn in H. lia.
Qed.

Lemma kept_head st m l : Kept st (m :: l) -> Kept st l.
Proof.
  intros [K1 K2 K3 K4 K5 K6 K7 K8 K9 K10 K11]. destruct K2 as [O1 O2].
  assert (is_commit_msg m = true -> existsb is_commit_msg l = false) as Hc by (by apply none_left).
  assert (is_revoke_msg m = true -> existsb is_revoke_msg l = false) as Hr by (by apply none_left).
  constructor; try done.
  - cbn [List.filter existsb] in K1. destruct (is_signing m) eqn:Hm.
    + apply signing_tail in K1; [|done]. rewrite K1.
      destruct m; try discriminate Hm; cbn [is_commit_msg is_revoke_msg orb] in *.
      * by rewrite (Hc eq_refl).
      * by rewrite (Hr eq_refl).
    + apply orb_false_iff in Hm as [E1 E2]. by rewrite E1, E2 in K1.
  - cbn [List.filter] in O1, O2. split; [destruct (is_commit_msg m)|destruct (is_revoke_msg m)];
      cbn in *; lia.
  - destruct (is_commit_msg m) eqn:Hm.
    + destruct m; try discriminate Hm. specialize (K5 [] m l eq_refl).
      exists (take (signed_count st) (s_pendingLocalUpdates st)). rewrite K5, take_drop.
      split; [done|]. intros _. rewrite length_take. unfold signed_count in *. lia.
    + destruct K4 as (d & E & Hd). cbn [List.filter existsb] in E, Hd. rewrite Hm in Hd. cbn [orb] in Hd.
      destruct (is_update m).
      * exists (d ++ [m]). rewrite <- app_assoc. split; [done|]. rewrite length_app. intros H.
        specialize (Hd H). lia.
      * by exists d.
  - intros l1 c l2 ->. by apply (K5 (m :: l1) c l2).
Qed.

(** ** Nothing sent yet *)

Record fresh (st : IChannelState) : Prop := {
  fr_queue : queued st = ([], 0);
  fr_signable : flag_true (s_pendingFeerateSignable st) = false;
  fr_committed : flag_true (s_pendingFeerateCommitted st) = false;
  fr_proven : flag_true (s_restoreRecencyUnproven st) = false
}.

Lemma kept_fresh st : fresh st -> Kept st [].
Proof.
  intros [[= Q1 Q2] H1 H2 H3]. constructor; unfold signed_count; rewrite ?Q1, ?Q2; cbn; try done.
  - unfold in_order. by destruct (s_lastSentWasRevoke st) as [[]|].
  - lia.
  - by exists [].
  - by intros [|? ?].
Qed.

(** ** The handlers *)

Section Handlers.
Context `{L : BitcoinLib}.

Lemma memory_map f st : memory (map_entries f st) = memory st.
Proof. reflexivity. Qed.

Lemma queued_map f st : queued (map_entries f st) = queued st.
Proof. reflexivity. Qed.

Lemma memory_revocation secret point st :
  memory (record_revocation secret point (advance_local st)) =
    (s_lastSentCommitmentSigned st, s_lastSentHtlcSignatures st, Some secret, Some point, Some true,
     s_channelId st, s_restoreRecencyUnproven st).
Proof. reflexivity. Qed.

Lemma queued_revocation secret point st :
  queued (record_revocation secret point (advance_local st)) = queued st.
Proof. reflexivity. Qed.

Lemma memo_accept m st :
  memory (accept_signature m st) = memory st /\ queued (accept_signature m st) = queued st.
Proof.
  assert (forall x, (memory (accept_removals x), queued (accept_removals x)) = (memory x, queued x)) as H1
    by (intros; unfold accept_removals; by destruct (existsb _ _)).
  assert (forall x, (memory (accept_lease x), queued (accept_lease x)) = (memory x, queued x)) as H2
    by (intros; unfold accept_lease; by destruct (_ && _)).
  assert (forall x, (memory (accept_fee x), queued (accept_fee x)) = (memory x, queued x)) as H3
    by (intros; unfold accept_fee; by destruct (_ && _)).
  unfold accept_signature, _markOfferedAddsRemoteSigned. rewrite memory_map, queued_map.
  apply pair_eq. by rewrite H1, H2, H3.
Qed.

Lemma memo_finish l st :
  memory (fold_left finish_entry l st) = memory st /\ queued (fold_left finish_entry l st) = queued st.
Proof.
  revert st. induction l as [|[k e] l IH]; intros st; [done|]. cbn [fold_left].
  destruct (IH (finish_entry st (k, e))) as [-> ->].
  unfold finish_entry, _retainSignedLocalRemoval. destruct (flag_false (e_removalRemoteCommitted e)); [done|].
  by destruct (e_state e), (e_direction e), (flag_false (e_addLocallyRevoked e)).
Qed.

Lemma memo_signed sig hs st :
  memory (sign_writes sig hs None st) =
    (Some sig, hs, s_lastSentRevokeSecret st, s_lastSentRevokeNextPoint st, Some false,
     s_channelId st, s_restoreRecencyUnproven st) /\
  queued (sign_writes sig hs None st) =
    (s_pendingLocalUpdates st, Z.of_nat (length (s_pendingLocalUpdates st))).
Proof.
  unfold sign_writes, sign_lease, sign_fee, record_sent, _snapshotRemoteCommitmentHtlcs.
  by destruct (map _ _), (_ && _), (_ && _).
Qed.

Lemma kept_signed sig hs st l :
  Kept st l -> existsb is_commit_msg l = false ->
  Kept (sign_writes sig hs None st)
    (l ++ [COMMIT {| cs_channelId := channel_id st; cs_signature := sig; cs_htlcSignatures := hs;
                     cs_fundingTxid := None; cs_partialSignatureWithNonce := None |}]).
Proof.
  intros K Hc. pose proof (fees_sign_writes sig hs None st) as Ef.
  destruct (memo_signed sig hs st) as [Em Eq].
  revert Ef Em Eq. generalize (sign_writes sig hs None st). intros st' Ef Em Eq.
  assert (s_role st' = s_role st /\ s_pendingFeeratePerKw st' = s_pendingFeeratePerKw st /\
    s_pendingFeerateSignable st' = s_pendingFeerateSignable st /\
    s_pendingFeerateCommitted st' = s_pendingFeerateCommitted (sign_fee st)) as (F1 & F2 & F3 & F4).
  { unfold fees in Ef. injection Ef as -> _ _ -> -> ->. unfold sign_fee. by destruct (_ && _). }
  injection Em as M1 M2 M3 M4 M5 M6 M7. apply (kept_sign st); try done.
  - unfold cached_commit, channel_id. by rewrite M1, M2, M6.
  - unfold cached_revoke, channel_id. by rewrite M3, M4, M6.
  - intros Hr Hp. rewrite F4. unfold sign_fee. by rewrite !bool_decide_true.
Qed.

Lemma memo_revoked m secret point st :
  memory (record_revocation secret point (advance_local (accept_signature m st))) =
    (s_lastSentCommitmentSigned st, s_lastSentHtlcSignatures st, Some secret, Some point, Some true,
     s_channelId st, s_restoreRecencyUnproven st) /\
  queued (record_revocation secret point (advance_local (accept_signature m st))) = queued st.
Proof.
  destruct (memo_accept m st) as [E1 E2]. rewrite memory_revocation, queued_revocation.
  revert E1 E2. generalize (accept_signature m st). intros x [= E1 E2 _ _ _ E3 E4] E5.
  by rewrite E1, E2, E3, E4, E5.
Qed.

Lemma kept_revoked m secret point st l :
  Kept st l -> existsb is_revoke_msg l = false ->
  Kept (record_revocation secret point (advance_local (accept_signature m st)))
    (l ++ [REVOKE {| ra_channelId := channel_id st; ra_perCommitmentSecret := secret;
                     ra_nextPerCommitmentPoint := point; ra_nextLocalNonce := None |}]).
Proof.
  intros K Hr. pose proof (fees_commit m secret point st) as Ef.
  destruct (memo_revoked m secret point st) as [Em Eq].
  revert Ef Em Eq. generalize (record_revocation secret point (advance_local (accept_signature m st))).
  intros st' Ef Em Eq.
  assert (s_role st' = s_role st /\ s_pendingFeeratePerKw st' = s_pendingFeeratePerKw st /\
    s_pendingFeerateSignable st' = s_pendingFeerateSignable (accept_fee st) /\
    s_pendingFeerateCommitted st' = s_pendingFeerateCommitted st) as (F1 & F2 & F3 & F4).
  { unfold fees in Ef. injection Ef as -> _ _ -> -> ->. unfold accept_fee. by destruct (_ && _). }
  injection Em as M1 M2 M3 M4 M5 M6 M7. apply (kept_revoke st); try done.
  - unfold cached_revoke, channel_id. by rewrite M3, M4, M6.
  - unfold cached_commit, channel_id. by rewrite M1, M2, M6.
  - intros Ho. rewrite F3. unfold accept_fee. rewrite Ho.
    rewrite (bool_decide_false (OPENER = ACCEPTOR)) by done. by rewrite andb_false_r.
Qed.

Lemma memo_promote st :
  memory (promote_lease (promote_fee st)) = memory st /\ queued (promote_lease (promote_fee st)) = queued st.
Proof.
  assert (forall x, memory (promote_lease x) = memory x /\ queued (promote_lease x) = queued x) as H.
  { intros x. unfold promote_lease, _promoteLeaseBlockheight.
    destruct (s_pendingLeaseBlockheight x); [|done]. destruct (flag_true _); [|done].
    by destruct (bool_decide _). }
  destruct (H (promote_fee st)) as [-> ->]. clear H. unfold promote_fee.
  destruct (s_pendingFeeratePerKw st); [|done]. destruct (flag_true _); [|done]. by destruct (s_role st).
Qed.

Lemma memo_acked point store n st :
  0 <= s_pendingLocalUpdatesSignedCount st ->
  let st' := map_entries mark_forwarded (revoke_writes
    (set_remoteNextPerCommitmentPoint point (store_secret store n st))) in
  memory st' = memory st /\ queued st' = (drop (signed_count st) (s_pendingLocalUpdates st), 0).
Proof.
  intros Hn. cbv zeta. set (st0 := set_remoteNextPerCommitmentPoint point (store_secret store n st)).
  unfold revoke_writes, finish_removals.
  rewrite memory_map, queued_map, (proj1 (memo_promote _)), (proj2 (memo_promote _)).
  rewrite (proj1 (memo_finish _ _)), (proj2 (memo_finish _ _)), !memory_map, !queued_map.
  unfold drop_signed, signed_count.
  change (s_pendingLocalUpdatesSignedCount st0) with (s_pendingLocalUpdatesSignedCount st).
  destruct (Z.ltb_spec 0 (s_pendingLocalUpdatesSignedCount st)); [done|].
  replace (s_pendingLocalUpdatesSignedCount st) with 0 by lia. split; [done|].
  unfold queued. change (s_pendingLocalUpdatesSignedCount st0) with (s_pendingLocalUpdatesSignedCount st).
  apply pair_eq. split; [done|lia].
Qed.

Lemma kept_acked point store n st l :
  Kept st l -> existsb is_commit_msg l = false ->
  Kept (map_entries mark_forwarded (revoke_writes
    (set_remoteNextPerCommitmentPoint point (store_secret store n st)))) l.
Proof.
  intros K Hc. pose proof (fees_revoke point store n st) as Ef.
  destruct (memo_acked point store n st (proj1 (kp_count _ _ K))) as [Em Eq].
  revert Ef Em Eq. generalize (map_entries mark_forwarded (revoke_writes
    (set_remoteNextPerCommitmentPoint point (store_secret store n st)))).
  intros st' Ef Em Eq. unfold fees in Ef. injection Ef as F1 _ _ F2 F3 F4.
  apply (kept_ack st); try done.
  - rewrite F1. unfold promote_fee. destruct (s_pendingFeeratePerKw st); [|done].
    destruct (flag_true _); [|done]. by destruct (s_role st) eqn:?.
  - rewrite F2, F3, F4. unfold promote_fee. destruct (s_pendingFeeratePerKw st) as [rate|] eqn:Ep; [|done].
    rewrite (bool_decide_true (is_Some (Some rate))) by done. cbn [andb].
    destruct (flag_true (s_pendingFeerateCommitted st)); [|done]. by destruct (s_role st).
Qed.

Lemma memo_replace_fee rate st :
  memory (replace_fee rate st) = memory st /\ queued (replace_fee rate st) = queued st /\
  s_role (replace_fee rate st) = s_role st.
Proof. unfold replace_fee. destruct (s_pendingFeeratePerKw st); [|done]. by destruct (flag_true _). Qed.

Lemma kept_replace_fee rate st l : s_role st = ACCEPTOR -> Kept st l -> Kept (replace_fee rate st) l.
Proof.
  intros Hr [K1 K2 K3 K4 K5 K6 K7 K8 K9 K10 K11].
  assert (has_fee (s_pendingLocalUpdates st) = false) as Hn.
  { destruct (has_fee _) eqn:E; [|done]. destruct (K6 eq_refl). congruence. }
  destruct (memo_replace_fee rate st) as (Em & Eq & Er).
  revert Em Eq Er. generalize (replace_fee rate st). intros st' [= M1 M2 M3 M4 M5 M6 M7] [= Q1 Q2] Er.
  assert (signed_count st' = signed_count st) as En by (unfold signed_count; by rewrite Q2).
  rewrite <- (take_drop (signed_count st) (s_pendingLocalUpdates st)), existsb_app in Hn.
  apply orb_false_iff in Hn as [H1 H2].
  constructor; rewrite ?En, ?Q1, ?Q2, ?Er, ?M7; try done; try (rewrite ?H1, ?H2; done).
  - rewrite K1. unfold in_order, cached_commit, cached_revoke, channel_id. by rewrite M1, M2, M3, M4, M5, M6.
  - intros H. destruct (K6 H). congruence.
  - congruence.
Qed.

(** ** A run *)

Lemma msgs_app l l' : msgs (l ++ l') = msgs l ++ msgs l'.
Proof. apply map_app. Qed.

Lemma commit_in l : existsb is_commit_msg (msgs l) = (0 <? count is_COMMIT l).
Proof. rewrite <- count_existsb. induction l as [|f l IH]; [done|]. cbn [existsb msgs map]. by f_equal. Qed.

Lemma revoke_in l : existsb is_revoke_msg (msgs l) = (0 <? count is_REVOKE l).
Proof. rewrite <- count_existsb. induction l as [|f l IH]; [done|]. cbn [existsb msgs map]. by f_equal. Qed.

Definition Keeps (w : World) : Prop := forall s, Kept (chan w s) (msgs (out w s)).

Lemma keeps_acted s st' m w :
  Keeps w -> Kept st' (msgs (out w s) ++ msgs m) -> Keeps (acted s st' m w).
Proof.
  intros K H s'. cbn. destruct (side_cases s s') as [->| ->].
  - by rewrite !upd_same, msgs_app.
  - by rewrite !upd_other.
Qed.

Lemma keeps_took s st' m f rest w :
  Keeps w -> out w (other s) = f :: rest -> Kept st' (msgs (out w s) ++ msgs m) ->
  Keeps (took s st' m rest w).
Proof.
  intros K Eo H s'. cbn. destruct (side_cases s s') as [->| ->].
  - by rewrite upd_same, upd_other', upd_same, msgs_app.
  - rewrite upd_other, upd_same. pose proof (K (other s)) as Ko. rewrite Eo in Ko.
    by apply kept_head in Ko.
Qed.

Lemma keeps_idle w s acts : sent (chan w s) acts = [] -> Keeps w ->
  Keeps (acted s (chan w s) (sent (chan w s) acts) w).
Proof. intros -> K. apply keeps_acted; [done|]. rewrite app_nil_r. apply K. Qed.

Lemma keeps_send w s m st' :
  Keeps w -> is_update m = true -> is_update_fee m = false ->
  memory st' = memory (chan w s) -> queued st' = queued (chan w s) -> staged st' = staged (chan w s) ->
  Keeps (acted s (send_update m st').1 [{| f_msg := m; f_from := chan w s |}] w).
Proof.
  intros K Hm Hf E1 E2 E3. apply keeps_acted; [done|]. apply (kept_push (chan w s)); [apply K|done|exact E1| |].
  - by injection E2 as <- <-.
  - cbn [f_msg]. rewrite Hf. exact E3.
Qed.

Section Steps.
Context (signCommitmentTx : Peer -> Transaction -> buffer -> Z -> buffer)
        (verifyCommitmentSig : Transaction -> buffer -> buffer -> buffer -> Z -> bool)
        (verifyRemoteHtlcSignatures : IChannelState -> buffer -> list buffer -> bool)
        (ecc_isPoint : buffer -> bool).
Context (init : Peer -> IChannelState) (N : nat) (Hopened : opened init).

Lemma offer_keeps w s q height amount hash cltv onion bp skimmed w' :
  Keeps w -> call s (addHtlc q height amount hash cltv onion bp skimmed (chan w s)) w = Some w' -> Keeps w'.
Proof.
  intros K (r & Ha & ->)%call_inv. revert Ha. unfold addHtlc.
  destruct (match skimmed with Some f => _ | None => _ end); [discriminate|].
  destruct (validateOutgoingHtlc _ _ _ _ _ _) as [[reason|]|]; [| |discriminate].
  { intros ->%alive_refuse. by apply keeps_idle. }
  intros ->%alive_send. by apply keeps_send.
Qed.

Lemma settle_keeps w s q i preimage reason sha code w' :
  Keeps w ->
  call s (fulfillHtlc q i preimage (chan w s)) w = Some w' \/
  call s (failHtlc q i reason RECEIVED (chan w s)) w = Some w' \/
  call s (failMalformedHtlc q i sha code (chan w s)) w = Some w' -> Keeps w'.
Proof.
  intros K. unfold fulfillHtlc, failHtlc, failMalformedHtlc.
  intros [H|[H|H]]; apply call_inv in H as (r & Ha & ->); revert Ha;
    repeat (lazymatch goal with
    | |- alive (if ?b then _ else _) = _ -> _ => destruct b
    | |- alive (match ?x with _ => _ end) = _ -> _ => destruct x eqn:?
    end); try discriminate;
    try (intros ->%alive_refuse; by apply keeps_idle);
    try (intros ->%alive_Some; apply keeps_idle; [by eapply repeat_silent|done]);
    intros ->%alive_send; by apply keeps_send.
Qed.

Lemma fee_keeps w s q rate w' :
  Keeps w -> call s (updateFee q rate (chan w s)) w = Some w' -> Keeps w'.
Proof.
  intros K (r & Ha & ->)%call_inv.
  apply fee_sent in Ha as [[msg ->]|(Hr & Hg & m & Em & ->)]; [by apply keeps_idle|].
  apply keeps_acted; [done|]. apply (kept_push (chan w s)); try done.
Qed.

Lemma sign_message sig hs st r :
  s_state st = CHANNEL_NORMAL -> isTaprootChannel (s_channelType st) = false ->
  alive (signCommitment sig hs None st) = Some r ->
  r = (sign_writes sig hs None st, [PERSIST_STATE; SEND_MESSAGE (COMMIT
        {| cs_channelId := channel_id st; cs_signature := sig; cs_htlcSignatures := hs;
           cs_fundingTxid := None; cs_partialSignatureWithNonce := None |})]).
Proof.
  intros Hn Ht. unfold signCommitment. rewrite (updatable_normal _ Hn), Ht. cbn [negb andb].
  destruct (match signing_point st with Some p => _ | None => _ end); [by rewrite alive_fail|].
  generalize (sign_writes sig hs None st). by intros st' ->%alive_Some.
Qed.

Lemma sign_keeps w s hs w' :
  Good signCommitmentTx init N w -> Keeps w ->
  call s (autoSignAndSendCommitment (signCommitmentTx s) hs (chan w s)) w = Some w' -> Keeps w'.
Proof.
  intros Hw K (r & Ha & ->)%call_inv. revert Ha. unfold autoSignAndSendCommitment.
  destruct (flag_true _); cbn [negb]; [|intros ->%alive_Some; by apply keeps_idle].
  destruct (isAwaitingRemoteRevocation _) eqn:Hq; [intros ->%alive_Some; by apply keeps_idle|].
  destruct (signing_point (chan w s)) as [p|] eqn:Hp; [|intros ->%alive_Some; by apply keeps_idle].
  unfold signRemoteCommitment.
  destruct (buildRemoteCommitment _ _ _) as [built|] eqn:Hb; [|discriminate]. rewrite bind_Ok.
  intros ->%sign_message;
    [|by eapply (good_normal _ _ _ Hopened)|by eapply (good_plain _ _ _ Hopened)].
  destruct (g_step _ _ _ _ Hw s) as [q S]. destruct (not_awaiting _ _ _ _ _ S Hq) as (Hc & _ & _).
  cbn [fst snd]. apply keeps_acted; [done|]. apply kept_signed; [apply K|by rewrite commit_in, Hc].
Qed.

Lemma revoke_message st r :
  alive (revoke_and_ack st) = Some r ->
  exists secret point, r = (record_revocation secret point (advance_local st),
    [PERSIST_STATE; SEND_MESSAGE (REVOKE
       {| ra_channelId := channel_id st; ra_perCommitmentSecret := secret;
          ra_nextPerCommitmentPoint := point; ra_nextLocalNonce := None |})]).
Proof.
  unfold revoke_and_ack.
  destruct (getPerCommitmentSecret _ _ _) as [secret|]; [|discriminate].
  destruct (getPerCommitmentPoint _ _) as [point|]; [|discriminate].
  intros ->%alive_Some. by exists secret, point.
Qed.

Lemma kept_quiet st st' l :
  Kept st l -> memory st' = memory st -> queued st' = queued st -> staged st' = staged st ->
  Kept st' (l ++ msgs []).
Proof. intros K E1 E2 E3. rewrite app_nil_r. by apply (kept_same st). Qed.

(** The peer's settle leaves what we keep alone. *)
Lemma peer_settle_quiet m st r :
  match m with UPDATE_FULFILL _ | UPDATE_FAIL _ | UPDATE_MALFORMED _ => True | _ => False end ->
  alive (receive verifyCommitmentSig verifyRemoteHtlcSignatures ecc_isPoint false 0 m st) = Some r ->
  (memory r.1 = memory st /\ queued r.1 = queued st /\ staged r.1 = staged st) /\ sent st r.2 = [].
Proof.
  intros Hm. unfold receive, handleUpdateFulfillHtlc, handleUpdateFailHtlc, handleUpdateFailMalformedHtlc,
    peer_fail.
  destruct m; try done; cbv zeta;
    repeat (lazymatch goal with
    | |- alive (if ?b then _ else _) = _ -> _ => destruct b
    | |- alive (match ?x with _ => _ end) = _ -> _ => destruct x
    end); rewrite ?alive_fail; try discriminate; intros ->%alive_Some; split; reflexivity || split_and!; reflexivity.
Qed.

Lemma receive_keeps w s f rest stfu height r :
  Good signCommitmentTx init N w -> Keeps w -> out w (other s) = f :: rest ->
  alive (receive verifyCommitmentSig verifyRemoteHtlcSignatures ecc_isPoint stfu height (f_msg f)
           (chan w s)) = Some r ->
  Kept r.1 (msgs (out w s) ++ msgs (sent (chan w s) r.2)).
Proof.
  intros Hw K Eo. specialize (K s). pose proof (good_normal _ _ _ Hopened _ s Hw) as Hn.
  assert (match f_msg f with UPDATE_FULFILL _ | UPDATE_FAIL _ | UPDATE_MALFORMED _ => True | _ => False end ->
    alive (receive verifyCommitmentSig verifyRemoteHtlcSignatures ecc_isPoint stfu height (f_msg f)
           (chan w s)) = Some r -> Kept r.1 (msgs (out w s) ++ msgs (sent (chan w s) r.2))) as Hset.
  { intros Hm Ha. assert (alive (receive verifyCommitmentSig verifyRemoteHtlcSignatures ecc_isPoint false 0
      (f_msg f) (chan w s)) = Some r) as Ha' by (rewrite <- Ha; by destruct (f_msg f)).
    apply peer_settle_quiet in Ha' as [(E1 & E2 & E3) ->]; [|done]. by apply (kept_quiet (chan w s)). }
  destruct (f_msg f) as [m|m|m|m|m|m|m|] eqn:Em; try by apply Hset.
  - intros H. pose proof Hw as [(T & G & gs & I) _ _].
    assert (get (htlc_key RECEIVED (ua_id m)) (s_htlcs (chan w s)) = None) as Hg
      by apply (holds_take_add _ _ _ _ _ _ s _ _ m (refused "") I Eo Em).
    apply (add_applied _ _ _ _ _ Hn Hg) in H as [adm ->]. by apply (kept_quiet (chan w s)).
  - intros [Hr ->]%(fee_applied _ _ _ Hn). cbn [fst snd sent omap list_omap msgs map].
    rewrite app_nil_r. by apply kept_replace_fee.
  - intros H%(commit_answered _ _ _ _ _ Hn (good_basepoints _ _ _ Hopened _ s Hw)).
    apply revoke_message in H as (secret & point & ->). cbn [fst snd].
    destruct (g_step _ _ _ _ Hw (other s)) as [q S]. pose proof (st_one _ _ _ _ _ S) as Ho.
    rewrite other_other, Eo, count_cons, (commit_kind _ _ Em) in Ho.
    pose proof (count_nonneg is_COMMIT rest). pose proof (count_nonneg is_REVOKE (out w s)).
    assert (channel_id (accept_signature m (chan w s)) = channel_id (chan w s)) as E.
    { pose proof (proj1 (memo_accept m (chan w s))) as E. revert E. generalize (accept_signature m (chan w s)).
      intros x [= _ _ _ _ _ E _]. unfold channel_id. by rewrite E. }
    cbn [sent omap list_omap msgs map f_msg]. rewrite E. apply kept_revoked; [done|].
    rewrite revoke_in. apply Z.ltb_ge. lia.
  - destruct (g_step _ _ _ _ Hw s) as [q S]. intros H.
    assert (_remoteRevocationCountForRaa (chan w s) = q) as Eq
      by (unfold _remoteRevocationCountForRaa; by rewrite (st_rev _ _ _ _ _ S)).
    pose proof (st_one _ _ _ _ _ S) as Ho. pose proof (st_remote _ _ _ _ _ S) as Hr.
    rewrite Eo, count_cons, (revoke_kind _ _ Em) in Ho, Hr.
    pose proof (count_nonneg is_COMMIT (out w s)). pose proof (count_nonneg is_REVOKE rest).
    apply revocation_applied in H as (store & Ha & H); [|done|lia].
    unfold apply_revocation in H. apply alive_Some in H as ->. cbn [fst snd].
    rewrite sent_forward, app_nil_r. apply kept_acked; [done|]. rewrite commit_in. apply Z.ltb_ge. lia.
  - discriminate.
Qed.

Lemma exec_keeps c w w' :
  Good signCommitmentTx init N w -> Keeps w ->
  exec signCommitmentTx verifyCommitmentSig verifyRemoteHtlcSignatures ecc_isPoint c w = Some w' -> Keeps w'.
Proof.
  intros Hw K He. destruct c as [| s q id p | s q id p | s q id p code | | | s]; cbn [exec] in He.
  - by eapply offer_keeps.
  - destruct (settle_ready _ _); [|discriminate]. apply (settle_keeps w s q id p [] [] 0); auto.
  - destruct (settle_ready _ _); [|discriminate]. apply (settle_keeps w s q id [] p [] 0); auto.
  - destruct (settle_ready _ _); [|discriminate]. apply (settle_keeps w s q id [] [] p code); auto.
  - by eapply fee_keeps.
  - by eapply sign_keeps.
  - rewrite <- (other_other s) in He. revert He. generalize (other s). clear s. intros s. unfold deliver.
    destruct (out w (other s)) as [|f rest] eqn:Eo; [discriminate|]. rewrite other_other. cbv zeta.
    destruct (alive _) as [[st acts]|] eqn:Ha; [|discriminate]. cbn. intros [= <-].
    apply (keeps_took s _ _ f); [done..|]. by apply (receive_keeps _ _ _ _ _ _ _ Hw K Eo) in Ha.
Qed.

End Steps.

Lemma run_keeps sign verify verifyHtlcs ecc_isPoint init cs w :
  opened init -> (forall s, fresh (init s)) ->
  run sign verify verifyHtlcs ecc_isPoint cs (begin init) = Some w ->
  exists N, Good sign init N w /\ Keeps w.
Proof.
  intros Ho Hf Hr.
  assert (forall cs w0 w1, run sign verify verifyHtlcs ecc_isPoint cs w0 = Some w1 ->
    exists n, forall N, (n <= N)%nat -> Good sign init N w0 /\ Keeps w0 -> Good sign init N w1 /\ Keeps w1) as H.
  { clear cs Hr. intros cs. induction cs as [|c cs IH]; intros w0 w1 Hr; cbn in Hr.
    - injection Hr as <-. by exists 0%nat.
    - destruct (exec _ _ _ _ c w0) as [w2|] eqn:He; [|discriminate]. cbn in Hr.
      destruct (IH _ _ Hr) as [n Hn].
      exists (n + Z.to_nat (s_localHtlcCounter (chan w2 Alice)) +
              Z.to_nat (s_localHtlcCounter (chan w2 Bob)))%nat.
      intros N HN [HG HK]. apply Hn; [lia|]. split; [|by eapply exec_keeps].
      eapply exec_good; [done..|]. intros []; lia. }
  destruct (H _ _ _ Hr) as [n Hn]. exists n. apply Hn; [done|]. split; [by apply good_begin|].
  intros s. by apply kept_fresh.
Qed.

End Handlers.

(** ** How long an update is kept

    What the peer forgets when the connection is lost is among the updates that wait. *)

(** Our add, or our settle, which the peer has not revoked for. *)
Definition unacked_add (e : IHtlcEntry) : bool := flag_false (e_addRemoteCommitted e).
Definition unacked_settle (e : IHtlcEntry) : bool := removed e && flag_false (e_removalRemoteCommitted e).
Definition covered (e : IHtlcEntry) : bool := flag_true (e_commitCoverPending e).

(** ** What the protocol of one HTLC says *)

Definition replayable (p : Pair) : bool :=
  match h_entry (p_offerer p) with
  | Some o => (negb (unacked_add o) || open_htlc o) &&
              (negb (removed o && flag_false (e_removalLocallyRevoked o)) ||
               match h_entry (p_receiver p) with
               | Some e => unacked_settle e && bool_decide (e_state e = e_state o)
               | None => false
               end)
  | None => true
  end &&
  match h_entry (p_receiver p) with
  | Some e => (negb (unacked_settle e) || negb (flag_false (e_removalLocallyRevoked e))) &&
              (negb (flag_false (e_addLocallyRevoked e)) ||
               match h_entry (p_offerer p) with Some o => unacked_add o | None => false end)
  | None => true
  end.

Lemma replayable_checked : forallb replayable reachable = true.
Proof. vm_compute. reflexivity. Qed.

Lemma reachable_replayable p : p ∈ reachable -> replayable p = true.
Proof.
  intros Hp. pose proof replayable_checked as H. rewrite forallb_forall in H.
  apply list_elem_of_In, H in Hp. exact Hp.
Qed.

Section Facts.
Context `{L : BitcoinLib}.
Context (signCommitmentTx : Peer -> Transaction -> buffer -> Z -> buffer).
Context (init : Peer -> IChannelState) (N : nat) (w : World).
Context (Hw : Good signCommitmentTx init N w).

Lemma good_pair k : exists p, replayable p = true /\
  forall s, h_entry (half s k p) = shape <$> get (lkey s k) (s_htlcs (chan w s)).
Proof.
  destruct Hw as [(T & G & gs & I) _ _]. exists (G k). split.
  - apply reachable_replayable, (i_reach _ _ _ _ _ _ I).
  - intros s. apply (t_entry _ _ _ _ _ _ (i_chan _ _ _ _ _ _ I s)).
Qed.

Lemma offerer_facts s i o : get (htlc_key OFFERED i) (s_htlcs (chan w s)) = Some o ->
  (unacked_add o = true -> open_htlc o = true) /\
  (removed o && flag_false (e_removalLocallyRevoked o) = true ->
   exists e, get (htlc_key RECEIVED i) (s_htlcs (chan w (other s))) = Some e /\ unacked_settle e = true /\
     e_state e = e_state o /\ remote_terms e = local_terms o).
Proof.
  intros E. pose proof Hw as [(T & G & gs & I) _ _]. set (p := G (s, i)).
  pose proof (reachable_replayable _ (i_reach _ _ _ _ _ _ I (s, i))) as Hp. fold p in Hp.
  pose proof (i_chan _ _ _ _ _ _ I s) as Ht. pose proof (i_chan _ _ _ _ _ _ I (other s)) as Ht'.
  pose proof (t_entry _ _ _ _ _ _ Ht (s, i)) as E1. pose proof (t_entry _ _ _ _ _ _ Ht' (s, i)) as E2.
  cbn beta in E1, E2. fold p in E1, E2.
  assert (half s (s, i) p = p_offerer p) as Hh by (by destruct s).
  assert (half (other s) (s, i) p = p_receiver p) as Hh' by (by destruct s).
  assert (lkey (other s) (s, i) = htlc_key RECEIVED i) as K.
  { rewrite <- (other_other s) at 2. apply lkey_received. }
  rewrite lkey_offered, E, Hh in E1. rewrite K, Hh' in E2. cbn [fmap option_fmap option_map] in E1.
  unfold replayable in Hp. rewrite E1, E2 in Hp. apply andb_true_iff in Hp as [Hp _].
  apply andb_true_iff in Hp as [P1 P2].
  change (unacked_add (shape o)) with (unacked_add o) in P1. change (open_htlc (shape o)) with (open_htlc o) in P1.
  change (removed (shape o)) with (removed o) in P2.
  change (e_removalLocallyRevoked (shape o)) with (e_removalLocallyRevoked o) in P2. split.
  - intros H. by rewrite H in P1.
  - intros H. rewrite H in P2. destruct (get (htlc_key RECEIVED i) _) as [e|] eqn:Ee; [|done]. exists e.
    apply andb_true_iff in P2 as [P2 P3]. apply bool_decide_eq_true in P3. split_and!; [done..|].
    assert (local_terms o = terms_at OFFERED (T (s, i))) as To.
    { rewrite <- (dir_offered s i). apply (t_terms _ _ _ _ _ _ Ht (s, i)). by rewrite lkey_offered. }
    assert (local_terms e = terms_at RECEIVED (T (s, i))) as Te.
    { assert (dir (other s) (s, i) = RECEIVED) as <- by (rewrite <- (other_other s) at 2; apply dir_received).
      apply (t_terms _ _ _ _ _ _ Ht' (s, i)). by rewrite K. }
    rewrite To. unfold remote_terms. by injection Te as -> -> -> ->.
Qed.

Lemma receiver_facts s i e : get (htlc_key RECEIVED i) (s_htlcs (chan w s)) = Some e ->
  (unacked_settle e = true -> flag_false (e_removalLocallyRevoked e) = false) /\
  (flag_false (e_addLocallyRevoked e) = true ->
   exists o, get (htlc_key OFFERED i) (s_htlcs (chan w (other s))) = Some o /\ unacked_add o = true /\
     remote_terms o = local_terms e).
Proof.
  intros E. pose proof Hw as [(T & G & gs & I) _ _]. set (k := (other s, i)).
  pose proof (reachable_replayable _ (i_reach _ _ _ _ _ _ I k)) as Hp.
  pose proof (i_chan _ _ _ _ _ _ I s) as Ht. pose proof (i_chan _ _ _ _ _ _ I (other s)) as Ht'.
  pose proof (t_entry _ _ _ _ _ _ Ht k) as E1. pose proof (t_entry _ _ _ _ _ _ Ht' k) as E2.
  cbn beta in E1, E2. assert (lkey s k = htlc_key RECEIVED i) as K by apply lkey_received.
  assert (lkey (other s) k = htlc_key OFFERED i) as K' by apply lkey_offered.
  assert (half s k (G k) = p_receiver (G k)) as Hh by (by destruct s).
  assert (half (other s) k (G k) = p_offerer (G k)) as Hh' by (by destruct s).
  rewrite Hh, K, E in E1. rewrite Hh', K' in E2. cbn [fmap option_fmap option_map] in E1.
  unfold replayable in Hp. rewrite E1, E2 in Hp. apply andb_true_iff in Hp as [_ Hp].
  apply andb_true_iff in Hp as [P1 P2].
  change (unacked_settle (shape e)) with (unacked_settle e) in P1.
  change (e_removalLocallyRevoked (shape e)) with (e_removalLocallyRevoked e) in P1.
  change (e_addLocallyRevoked (shape e)) with (e_addLocallyRevoked e) in P2. split.
  - intros H. rewrite H in P1. by apply negb_true_iff in P1.
  - intros H. rewrite H in P2.
    destruct (get (htlc_key OFFERED i) (s_htlcs (chan w (other s)))) as [o|] eqn:Eo; [|done]. exists o.
    split_and!; [done..|].
    assert (local_terms o = terms_at OFFERED (T k)) as To.
    { rewrite <- (dir_offered (other s) i). apply (t_terms _ _ _ _ _ _ Ht' k). by rewrite K'. }
    assert (local_terms e = terms_at RECEIVED (T k)) as Te.
    { rewrite <- (dir_received s i). apply (t_terms _ _ _ _ _ _ Ht k). by rewrite K. }
    rewrite Te. unfold remote_terms. by injection To as -> -> -> ->.
Qed.

End Facts.

(** ** The queue serves the entries *)

Section Serves.
Context `{L : BitcoinLib}.

(** The settlement of the entry [e]: with its preimage when [e] is fulfilled. *)
Definition is_settle_of (i : Z) (e : IHtlcEntry) (m : ChannelMessage) : Prop :=
  match m with
  | UPDATE_FULFILL m => ff_id m = i /\ e_state e = FULFILLED /\ sha256 (ff_paymentPreimage m) = e_paymentHash e
  | UPDATE_FAIL m => uh_id m = i /\ e_state e = FAILED
  | UPDATE_MALFORMED m => um_id m = i /\ e_state e = FAILED
  | _ => False
  end.

Definition is_add_of (i : Z) (e : IHtlcEntry) (m : ChannelMessage) : Prop :=
  match m with
  | UPDATE_ADD m => ua_id m = i /\ e_amountMsat e = ua_amountMsat m /\
      e_paymentHash e = ua_paymentHash m /\ e_cltvExpiry e = ua_cltvExpiry m
  | _ => False
  end.

Definition unsigned (st : IChannelState) : list ChannelMessage :=
  drop (signed_count st) (s_pendingLocalUpdates st).

(** Where the update of an entry is: anywhere once a signature covers it. *)
Definition held_for (st : IChannelState) (e : IHtlcEntry) : list ChannelMessage :=
  if covered e then s_pendingLocalUpdates st else unsigned st.

Definition served (st : IChannelState) (d : HtlcDirection) (i : Z) (e : IHtlcEntry) : Prop :=
  match d with
  | OFFERED => unacked_add e = true -> exists m, is_add_of i e m /\ m ∈ held_for st e
  | RECEIVED => unacked_settle e = true -> exists m, is_settle_of i e m /\ m ∈ held_for st e
  end.

Definition Awaits (st : IChannelState) : Prop :=
  forall d i e, get (htlc_key d i) (s_htlcs st) = Some e -> served st d i e.

(** The fields of an entry that matter. *)
Definition same_for (d : HtlcDirection) (e e' : IHtlcEntry) : Prop :=
  local_terms e' = local_terms e /\ covered e' = covered e /\
  match d with
  | OFFERED => unacked_add e' = unacked_add e
  | RECEIVED => unacked_settle e' = unacked_settle e /\ (unacked_settle e = true -> e_state e' = e_state e)
  end.

Lemma settle_of_same i e e' m : e_paymentHash e' = e_paymentHash e -> e_state e' = e_state e ->
  is_settle_of i e m -> is_settle_of i e' m.
Proof. unfold is_settle_of. intros -> ->. done. Qed.

Lemma same_for_refl d e : same_for d e e.
Proof. by destruct d. Qed.

Lemma served_same st st' d i e e' :
  served st d i e -> same_for d e e' ->
  (forall m, m ∈ s_pendingLocalUpdates st -> m ∈ s_pendingLocalUpdates st') ->
  (forall m, m ∈ unsigned st -> m ∈ unsigned st') -> served st' d i e'.
Proof.
  intros Hs (Et & Ec & Ea) Hq Hu. unfold served in *.
  assert (forall m, m ∈ held_for st e -> m ∈ held_for st' e') as Hh
    by (unfold held_for; rewrite Ec; by destruct (covered e)).
  destruct d.
  - rewrite Ea. intros H; destruct (Hs H) as (m & H1 & H2); exists m; (split; [|auto]).
    unfold is_add_of in *. unfold local_terms in Et. injection Et as _ -> -> ->. done.
  - destruct Ea as [-> Est]. intros H; destruct (Hs H) as (m & H1 & H2); exists m; (split; [|auto]).
    eapply settle_of_same; [|by apply Est|done]. unfold local_terms in Et. by injection Et.
Qed.

(** Each entry is an old one, or served on its own. *)
Lemma awaits_step st st' :
  Awaits st ->
  (forall m, m ∈ s_pendingLocalUpdates st -> m ∈ s_pendingLocalUpdates st') ->
  (forall m, m ∈ unsigned st -> m ∈ unsigned st') ->
  (forall d i e', get (htlc_key d i) (s_htlcs st') = Some e' ->
     served st' d i e' \/ exists e, get (htlc_key d i) (s_htlcs st) = Some e /\ same_for d e e') ->
  Awaits st'.
Proof.
  intros A Hq Hu He d i e' E. destruct (He _ _ _ E) as [H|(e & E0 & Hsame)]; [done|].
  eapply served_same; [by apply A|done..].
Qed.

Lemma queued_same st st' : queued st' = queued st ->
  (forall m, m ∈ s_pendingLocalUpdates st -> m ∈ s_pendingLocalUpdates st') /\
  (forall m, m ∈ unsigned st -> m ∈ unsigned st').
Proof. intros [= E1 E2]. unfold unsigned, signed_count. by rewrite E1, E2. Qed.

(** A function on the entries. *)
Lemma awaits_map st st' f :
  Awaits st -> queued st' = queued st -> s_htlcs st' = with_htlcs f (s_htlcs st) ->
  (forall d e, same_for d e (f e)) -> Awaits st'.
Proof.
  intros A Eq Eh Hf. destruct (queued_same _ _ Eq) as [H1 H2]. apply (awaits_step st); [done..|].
  intros d i e'. rewrite Eh. unfold with_htlcs. rewrite get_map_values.
  destruct (get _ (s_htlcs st)) as [e|]; [|done]. intros [= <-]. right. eauto.
Qed.

(** One entry. *)
Lemma awaits_set st st' d0 i0 e0 :
  Awaits st -> (forall m, m ∈ s_pendingLocalUpdates st -> m ∈ s_pendingLocalUpdates st') ->
  (forall m, m ∈ unsigned st -> m ∈ unsigned st') ->
  s_htlcs st' = set (htlc_key d0 i0) e0 (s_htlcs st) -> served st' d0 i0 e0 -> Awaits st'.
Proof.
  intros A Hq Hu Eh Hs. apply (awaits_step st); [done..|]. intros d i e'. rewrite Eh, get_set.
  case_decide as Hd; [|intros H; right; exists e'; split; [done|apply same_for_refl]].
  apply htlc_key_inj in Hd as [-> ->]. intros [= <-]. by left.
Qed.

End Serves.

(** ** The handlers *)

Lemma elem_snoc (l : list ChannelMessage) x m : m ∈ l -> m ∈ l ++ [x].
Proof. set_solver. Qed.

(** An update of ours joins the queue, behind the signed ones. *)
Lemma pushed st st' m :
  0 <= s_pendingLocalUpdatesSignedCount st <= Z.of_nat (length (s_pendingLocalUpdates st)) ->
  queued st' = (s_pendingLocalUpdates st ++ [m], s_pendingLocalUpdatesSignedCount st) ->
  (forall x, x ∈ s_pendingLocalUpdates st -> x ∈ s_pendingLocalUpdates st') /\
  (forall x, x ∈ unsigned st -> x ∈ unsigned st') /\ forall e, m ∈ held_for st' e.
Proof.
  intros Hc [= E1 E2]. assert (unsigned st' = unsigned st ++ [m]) as Eu.
  { unfold unsigned, signed_count. rewrite E1, E2. apply drop_snoc. lia. }
  rewrite E1, Eu. split_and!; [by auto using elem_snoc..|]. intros e. unfold held_for. rewrite E1, Eu.
  destruct (covered e); set_solver.
Qed.

(** The last stamp of a signature is for the peer's adds. *)
Lemma sign_covers e :
  unacked_add (sign_entry e) = unacked_add e /\ unacked_settle (sign_entry e) = unacked_settle e /\
  local_terms (sign_entry e) = local_terms e /\
  (unacked_add e = true -> open_htlc e = true -> covered (sign_entry e) = true) /\
  (unacked_settle e = true -> flag_false (e_removalLocallyRevoked e) = false -> covered (sign_entry e) = true) /\
  (unacked_settle e = true -> e_state (sign_entry e) = e_state e).
Proof.
  destruct e, e_state, e_addRemoteCommitted as [[]|], e_removalRemoteCommitted as [[]|],
    e_removalLocallyRevoked as [[]|]; unfold sign_entry, sign_stamp; cbn;
    repeat (case_match; cbn); split_and!; (reflexivity || discriminate || (intros; discriminate || reflexivity)).
Qed.

Lemma commit_same d e : same_for d e (commit_entry e).
Proof.
  split; [apply terms_commit|]. destruct d, e, e_state; unfold commit_entry, revoke_entry, mark_remote_signed; cbn;
    repeat (case_match; cbn); split_and!; (reflexivity || discriminate || (intros; discriminate || reflexivity)).
Qed.

Lemma forwarded_same d e : same_for d e (mark_forwarded e).
Proof. split; [apply terms_forwarded|]. unfold mark_forwarded. destruct (to_forward e); by destruct d. Qed.

(** The peer's revocation finds the covered entries and no other. *)
Lemma promote_acks d e :
  (d = OFFERED -> unacked_add e = true -> open_htlc e = true) ->
  match d with OFFERED => unacked_add (promote_entry e) | RECEIVED => unacked_settle (promote_entry e) end = true ->
  covered e = false /\ same_for d e (promote_entry e).
Proof.
  intros Ho H. unfold same_for. rewrite terms_promote.
  destruct d; [specialize (Ho eq_refl)|clear Ho]; destruct e, e_state, e_commitCoverPending as [[]|];
    unfold promote_entry in *; cbn in *; repeat (case_match; cbn in *); try discriminate;
    split_and!; try done; by specialize (Ho H).
Qed.

Section Steps.
Context `{L : BitcoinLib}.
Context (signCommitmentTx : Peer -> Transaction -> buffer -> Z -> buffer)
        (verifyCommitmentSig : Transaction -> buffer -> buffer -> buffer -> Z -> bool)
        (verifyRemoteHtlcSignatures : IChannelState -> buffer -> list buffer -> bool)
        (ecc_isPoint : buffer -> bool).
Context (init : Peer -> IChannelState) (N : nat) (Hopened : opened init) (w : World) (s : Peer).
Context (Hw : Good signCommitmentTx init N w) (K : Keeps w) (A : Awaits (chan w s)).

Lemma awaits_signed sig hs : Awaits (sign_writes sig hs None (chan w s)).
Proof.
  destruct (memo_signed sig hs (chan w s)) as [_ Eq].
  pose proof (view_sign sig hs None (chan w s)) as (Eh & _)%view_inv.
  revert Eq Eh. generalize (sign_writes sig hs None (chan w s)). intros st' [= E1 E2] Eh d i e'.
  rewrite Eh. unfold with_htlcs. rewrite get_map_values.
  destruct (get (htlc_key d i) (s_htlcs (chan w s))) as [e|] eqn:E; [|done]. intros [= <-].
  destruct (sign_covers e) as (S1 & S2 & S3 & S4 & S5 & S6). pose proof (A d i e E) as Hs.
  assert (forall m, m ∈ held_for (chan w s) e -> m ∈ s_pendingLocalUpdates (chan w s)) as Hq.
  { unfold held_for, unsigned. destruct (covered e); [done|]. intros m Hm.
    rewrite <- (take_drop (signed_count (chan w s)) (s_pendingLocalUpdates (chan w s))). set_solver. }
  unfold served in *. destruct d.
  - rewrite S1. intros Hu. destruct (Hs Hu) as (m & H1 & H2). exists m.
    unfold held_for. rewrite S4, E1; [|done|by apply (offerer_facts _ _ _ _ Hw s i e E)].
    split; [|auto]. unfold is_add_of in *. unfold local_terms in S3. by injection S3 as _ -> -> ->.
  - rewrite S2. intros Hu. destruct (Hs Hu) as (m & H1 & H2). exists m.
    unfold held_for. rewrite S5, E1; [|done|by apply (receiver_facts _ _ _ _ Hw s i e E)].
    split; [|auto]. eapply settle_of_same; [|by apply S6|done]. unfold local_terms in S3. by injection S3.
Qed.

Lemma awaits_acked point store n :
  Awaits (map_entries mark_forwarded (revoke_writes
    (set_remoteNextPerCommitmentPoint point (store_secret store n (chan w s))))).
Proof.
  destruct (memo_acked point store n (chan w s) (proj1 (kp_count _ _ (K s)))) as [_ Eq].
  pose proof Hw as [(T & G & gs & I) _ _].
  pose proof (frame_pending _ _ (i_frame _ _ _ _ _ _ I s)) as Hlease.
  rewrite (o_lease _ Hopened) in Hlease.
  destruct (view_revoke store n point (chan w s) (t_nodup _ _ _ _ _ _ (i_chan _ _ _ _ _ _ I s)) Hlease)
    as (Hg & _).
  revert Eq Hg. generalize (map_entries mark_forwarded (revoke_writes
    (set_remoteNextPerCommitmentPoint point (store_secret store n (chan w s))))).
  intros st' [= E1 E2] Hg d i e'. rewrite Hg.
  destruct (get (htlc_key d i) (s_htlcs (chan w s))) as [e|] eqn:E; [|done]. cbn.
  unfold revoked_entry. destruct (finished _); [done|]. cbn. intros [= <-].
  pose proof (A d i e E) as Hs.
  assert (unsigned st' = unsigned (chan w s) /\ s_pendingLocalUpdates st' = unsigned (chan w s)) as [Eu Eq].
  { unfold unsigned, signed_count in *. rewrite E1, E2. done. }
  assert (match d with OFFERED => unacked_add (promote_entry e) | RECEIVED => unacked_settle (promote_entry e) end
    = true -> served st' d i (promote_entry e)) as Hp.
  { intros H. apply promote_acks in H as [Hc Hsame];
      [|intros ->; by apply (offerer_facts _ _ _ _ Hw s i e E)].
    assert (served st' d i e) as Hs'.
    { unfold served in *. destruct d; intros Hu; destruct (Hs Hu) as (m & H1 & H2); exists m; (split; [done|]);
        unfold held_for in *; rewrite Hc in *; by rewrite Eu. }
    by eapply served_same. }
  eapply served_same; [|apply forwarded_same|done..].
  unfold served in *. destruct d; intros Hu; by apply Hp.
Qed.

Lemma awaits_commit m secret point :
  Awaits (record_revocation secret point (advance_local (accept_signature m (chan w s)))).
Proof.
  destruct (memo_revoked m secret point (chan w s)) as [_ Eq].
  pose proof (view_commit m secret point (chan w s)) as (Eh & _)%view_inv.
  apply (awaits_map (chan w s) _ commit_entry); auto using commit_same.
Qed.

(** An update of our own: the entry it writes is served by it. *)
Lemma awaits_send m st' d0 i0 e0 :
  queued st' = queued (chan w s) -> s_htlcs st' = set (htlc_key d0 i0) e0 (s_htlcs (chan w s)) ->
  match d0 with OFFERED => is_add_of i0 e0 m | RECEIVED => is_settle_of i0 e0 m end ->
  Awaits (send_update m st').1.
Proof.
  intros [= E1 E2] Eh Hm.
  destruct (pushed (chan w s) (send_update m st').1 m (kp_count _ _ (K s))) as (H1 & H2 & H3).
  { unfold queued. cbn. by rewrite E1, E2. }
  apply (awaits_set (chan w s) _ d0 i0 e0); [done..|].
  destruct d0; intros _; exists m; auto.
Qed.

Lemma add_awaits q height amount hash cltv onion bp skimmed r :
  alive (addHtlc q height amount hash cltv onion bp skimmed (chan w s)) = Some r -> Awaits r.1.
Proof.
  unfold addHtlc. destruct (match skimmed with Some f => _ | None => _ end); [discriminate|].
  destruct (validateOutgoingHtlc _ _ _ _ _ _) as [[reason|]|]; [by intros ->%alive_refuse| |discriminate].
  intros ->%alive_send.
  eapply (awaits_send _ _ OFFERED (s_localHtlcCounter (chan w s))); [reflexivity..|by split_and!].
Qed.

Lemma settle_awaits q i preimage reason sha code r :
  alive (fulfillHtlc q i preimage (chan w s)) = Some r \/
  alive (failHtlc q i reason RECEIVED (chan w s)) = Some r \/
  alive (failMalformedHtlc q i sha code (chan w s)) = Some r -> Awaits r.1.
Proof.
  unfold fulfillHtlc, failHtlc, failMalformedHtlc. intros H. revert H.
  intros [H|[H|H]]; revert H;
    repeat (lazymatch goal with
    | |- alive (if ?b then _ else _) = _ -> _ => destruct b eqn:?
    | |- alive (match ?x with _ => _ end) = _ -> _ => destruct x eqn:?
    end); try discriminate; try (intros ->%alive_refuse; exact A); try (intros ->%alive_Some; exact A);
    intros ->%alive_send; (eapply (awaits_send _ _ RECEIVED i); first [reflexivity | idtac]);
    cbn; split_and!; try done; bool_props; by eapply bool_decide_eq_true_1.
Qed.

Lemma fee_awaits q rate r : alive (updateFee q rate (chan w s)) = Some r -> Awaits r.1.
Proof.
  intros [[msg ->]|(_ & _ & m & _ & ->)]%fee_sent; [exact A|]. cbn [fst].
  destruct (pushed (chan w s) (send_update (UPDATE_FEERATE m) (stage_fee rate (chan w s))).1 (UPDATE_FEERATE m)
    (kp_count _ _ (K s)) eq_refl) as (H1 & H2 & _).
  apply (awaits_step (chan w s)); [done..|]. intros d i e E. right. exists e. split; [done|apply same_for_refl].
Qed.

Lemma sign_awaits hs r :
  alive (autoSignAndSendCommitment (signCommitmentTx s) hs (chan w s)) = Some r -> Awaits r.1.
Proof.
  unfold autoSignAndSendCommitment.
  destruct (flag_true _); cbn [negb]; [|by intros ->%alive_Some].
  destruct (isAwaitingRemoteRevocation _); [by intros ->%alive_Some|].
  destruct (signing_point (chan w s)) as [p|]; [|by intros ->%alive_Some].
  unfold signRemoteCommitment.
  destruct (buildRemoteCommitment _ _ _) as [built|]; [|discriminate]. rewrite bind_Ok.
  intros ->%sign_message;
    [|by eapply (good_normal _ _ _ Hopened)|by eapply (good_plain _ _ _ Hopened)].
  apply awaits_signed.
Qed.

(** The peer's settle changes the state of an HTLC we offered, not whether its add is acknowledged. *)
Lemma awaits_peer_settle i e intent :
  get (htlc_key OFFERED i) (s_htlcs (chan w s)) = Some e ->
  Awaits (set_htlcs (set (htlc_key OFFERED i) (peer_settle_entry intent e) (s_htlcs (chan w s))) (chan w s)).
Proof.
  intros E. apply (awaits_set (chan w s) _ OFFERED i (peer_settle_entry intent e)); [done..|].
  eapply served_same; [by apply (A OFFERED i e)|done..].
Qed.

Lemma peer_settle_awaits m r :
  match m with UPDATE_FULFILL _ | UPDATE_FAIL _ | UPDATE_MALFORMED _ => True | _ => False end ->
  alive (receive verifyCommitmentSig verifyRemoteHtlcSignatures ecc_isPoint false 0 m (chan w s)) = Some r ->
  Awaits r.1.
Proof.
  intros Hm. unfold receive, handleUpdateFulfillHtlc, handleUpdateFailHtlc, handleUpdateFailMalformedHtlc,
    peer_fail.
  destruct m; try done; cbv zeta;
    repeat (lazymatch goal with
    | |- alive (if ?b then _ else _) = _ -> _ => destruct b
    | |- alive (match ?x with _ => _ end) = _ -> _ => destruct x eqn:?
    end); rewrite ?alive_fail; try discriminate; intros ->%alive_Some; try exact A; by apply awaits_peer_settle.
Qed.

Lemma awaits_replace_fee rate : Awaits (replace_fee rate (chan w s)).
Proof.
  destruct (memo_replace_fee rate (chan w s)) as (_ & Eq & _).
  pose proof (view_replace_fee rate (chan w s)) as E.
  assert (s_htlcs (replace_fee rate (chan w s)) = s_htlcs (chan w s)) as Eh
    by (revert E; generalize (replace_fee rate (chan w s)); unfold view; congruence).
  destruct (queued_same _ _ Eq) as [H1 H2]. apply (awaits_step (chan w s)); [done..|].
  intros d i e Ee. rewrite Eh in Ee. right. exists e. split; [done|apply same_for_refl].
Qed.

Lemma receive_awaits f rest stfu height r :
  out w (other s) = f :: rest ->
  alive (receive verifyCommitmentSig verifyRemoteHtlcSignatures ecc_isPoint stfu height (f_msg f)
           (chan w s)) = Some r -> Awaits r.1.
Proof.
  intros Eo. pose proof (good_normal _ _ _ Hopened _ s Hw) as Hn.
  assert (match f_msg f with UPDATE_FULFILL _ | UPDATE_FAIL _ | UPDATE_MALFORMED _ => True | _ => False end ->
    alive (receive verifyCommitmentSig verifyRemoteHtlcSignatures ecc_isPoint stfu height (f_msg f)
           (chan w s)) = Some r -> Awaits r.1) as Hset.
  { intros Hm Ha. apply (peer_settle_awaits _ _ Hm). rewrite <- Ha. by destruct (f_msg f). }
  destruct (f_msg f) as [m|m|m|m|m|m|m|] eqn:Em; try by apply Hset.
  - intros H. pose proof Hw as [(T & G & gs & I) _ _].
    assert (get (htlc_key RECEIVED (ua_id m)) (s_htlcs (chan w s)) = None) as Hg
      by apply (holds_take_add _ _ _ _ _ _ s _ _ m (refused "") I Eo Em).
    apply (add_applied _ _ _ _ _ Hn Hg) in H as [adm ->].
    eapply (awaits_set (chan w s) _ RECEIVED (ua_id m)); [done..|reflexivity|]. intros H. discriminate H.
  - intros [_ ->]%(fee_applied _ _ _ Hn). apply awaits_replace_fee.
  - intros H%(commit_answered _ _ _ _ _ Hn (good_basepoints _ _ _ Hopened _ s Hw)).
    apply revoke_message in H as (secret & point & ->). apply awaits_commit.
  - destruct (g_step _ _ _ _ Hw s) as [q S]. intros H.
    assert (_remoteRevocationCountForRaa (chan w s) = q) as Eq
      by (unfold _remoteRevocationCountForRaa; by rewrite (st_rev _ _ _ _ _ S)).
    pose proof (st_remote _ _ _ _ _ S) as Hr. rewrite Eo, count_cons, (revoke_kind _ _ Em) in Hr.
    pose proof (count_nonneg is_COMMIT (out w s)). pose proof (count_nonneg is_REVOKE rest).
    apply revocation_applied in H as (store & Ha & H); [|done|lia].
    unfold apply_revocation in H. apply alive_Some in H as ->. apply awaits_acked.
  - discriminate.
Qed.

End Steps.

(** ** A run *)

Section Run.
Context `{L : BitcoinLib}.
Context (sign : Peer -> Transaction -> buffer -> Z -> buffer)
        (verify : Transaction -> buffer -> buffer -> buffer -> Z -> bool)
        (verifyHtlcs : IChannelState -> buffer -> list buffer -> bool)
        (ecc_isPoint : buffer -> bool).
Context (init : Peer -> IChannelState) (Hopened : opened init).

Lemma call_awaits w s o w' :
  (forall p, Awaits (chan w p)) -> (forall r, alive o = Some r -> Awaits r.1) -> call s o w = Some w' ->
  forall p, Awaits (chan w' p).
Proof.
  intros A H (r & Ha & ->)%call_inv p. cbn. destruct (side_cases s p) as [->| ->].
  - rewrite upd_same. auto.
  - by rewrite upd_other.
Qed.

Lemma exec_awaits N c w w' :
  Good sign init N w -> Keeps w -> (forall p, Awaits (chan w p)) ->
  exec sign verify verifyHtlcs ecc_isPoint c w = Some w' -> forall p, Awaits (chan w' p).
Proof.
  intros Hw K A He. destruct c as [s | s q id x | s q id x | s q id x code | s | s | s]; cbn [exec] in He;
    try (destruct (settle_ready _ _); [|discriminate]);
    try (eapply call_awaits; [exact A| |exact He]; intros r Hr).
  - by eapply add_awaits.
  - apply (settle_awaits w s K (A s) q id x [] [] 0). auto.
  - apply (settle_awaits w s K (A s) q id [] x [] 0). auto.
  - apply (settle_awaits w s K (A s) q id [] [] x code). auto.
  - by eapply fee_awaits.
  - by eapply sign_awaits.
  - rewrite <- (other_other s) in He. revert He. generalize (other s). clear s. intros s. unfold deliver.
    destruct (out w (other s)) as [|f rest] eqn:Eo; [discriminate|]. rewrite other_other. cbv zeta.
    destruct (alive _) as [[st acts]|] eqn:Ha; [|discriminate]. cbn. intros [= <-] p. cbn.
    destruct (side_cases s p) as [->| ->]; [rewrite upd_same|by rewrite upd_other].
    by eapply (receive_awaits _ _ _ _ _ _ Hopened w s Hw K (A s) _ _ _ _ (st, acts)).
Qed.

Lemma run_app cs c w :
  run sign verify verifyHtlcs ecc_isPoint (cs ++ [c]) w =
  (run sign verify verifyHtlcs ecc_isPoint cs w ≫= fun w => run sign verify verifyHtlcs ecc_isPoint [c] w).
Proof.
  revert w. induction cs as [|c0 cs IH]; intros w; [done|]. cbn [app run].
  destruct (exec _ _ _ _ c0 w) as [w0|]; [|done]. cbn. apply IH.
Qed.

Lemma run_awaits cs w :
  (forall s, fresh (init s)) -> run sign verify verifyHtlcs ecc_isPoint cs (begin init) = Some w ->
  exists N, Good sign init N w /\ Keeps w /\ forall p, Awaits (chan w p).
Proof.
  intros Hf. assert (forall p, Awaits (init p)) as H0
    by (intros p d i e H; by rewrite (o_htlcs _ Hopened) in H).
  revert w. induction cs as [|c cs IH] using rev_ind; intros w Hr.
  - destruct (run_keeps _ _ _ _ _ _ _ Hopened Hf Hr) as (N & Hw & K). exists N. split_and!; [done..|].
    cbn in Hr. by injection Hr as <-.
  - destruct (run_keeps _ _ _ _ _ _ _ Hopened Hf Hr) as (N & Hw & K). exists N. split_and!; [done..|].
    rewrite run_app in Hr. destruct (run _ _ _ _ cs _) as [w0|] eqn:E0; [|done]. cbn in Hr.
    destruct (exec _ _ _ _ c w0) as [w1|] eqn:E1; [|done]. cbn in Hr. injection Hr as <-.
    destruct (IH _ eq_refl) as (N0 & Hw0 & K0 & A0). by eapply exec_awaits.
Qed.

End Run.
