(* ===== verification/ReestablishSafety.v ===== *)
(** * Two nodes reconnect

    When the connection of two nodes in a run (ChannelPair.v) is lost, with whatever was under way,
    each accepts the channel_reestablish of the other, returns to its NORMAL state, and sends again
    what the other lost.  The last part says when a node believes that it has lost data. *)

From stdpp Require Import sets.
From S2P Require Import Prelude Buffer JsMap ShaChain CommitmentTx Scripts.
From S2P Require Import WireBasic WireUpdate WireCommitment WireFunding.
From S2P Require Import ChannelTypes CommitmentBuilder HtlcPolicy HtlcAdmission Channel ChannelFee HtlcProtocol ChannelEntries.
From S2P Require Import ChannelTrack ChannelPair ChannelRates ChannelRun ChannelSafety.
From S2P Require Import ClosingTypes Closing ClosingManager Reestablish ReestablishRun.
Local Open Scope Z_scope.

(** ** The rollback *)

(** The fields a disconnection leaves alone. *)
Definition lasting (st : IChannelState) :=
  (memory st, numbers st, points st, s_localPerCommitmentSeed st, s_role st,
   s_pendingLocalUpdatesSignedCount st, s_pendingFeerateSignable st, s_pendingFeerateCommitted st).

Lemma rollback_updates_lasting st :
  lasting (rollback_updates st) = lasting st /\
  s_pendingLocalUpdates (rollback_updates st) = s_pendingLocalUpdates st /\
  s_pendingFeeratePerKw (rollback_updates st) = s_pendingFeeratePerKw st /\
  s_state (rollback_updates st) = s_state st.
Proof.
  unfold rollback_updates. generalize (s_htlcs st). intros l. revert st.
  induction l as [|[k e] l IH]; intros st; [done|]. cbn [fold_left].
  destruct (IH (rollback_entry st (k, e))) as (-> & -> & -> & ->).
  unfold rollback_entry. destruct (forgets_add k e); [done|]. by destruct (forgets_settle k e).
Qed.

(** The updates that survive: all, once a signature covers the fee rate that waits. *)
Definition surviving (st : IChannelState) (l : list ChannelMessage) : list ChannelMessage :=
  if flag_true (s_pendingFeerateCommitted st) then l
  else List.filter (fun u => negb (is_update_fee u)) l.

Definition rolled_back (st : IChannelState) : IChannelState :=
  rollback_lease (rollback_fee (rollback_updates (set_state AWAITING_REESTABLISH st))).

(** The map after the rollback. *)
Definition rolled_entry (key : string) (e : IHtlcEntry) : option IHtlcEntry :=
  if forgets_add key e then None else if forgets_settle key e then Some (restored_entry e) else Some e.

Lemma rollback_fold key l st : NoDup (map fst l) ->
  get key (s_htlcs (fold_left rollback_entry l st)) =
    match get key l with Some e => match rolled_entry key e with
                                   | Some e' => if forgets_settle key e then Some e' else get key (s_htlcs st)
                                   | None => None end
    | None => get key (s_htlcs st) end /\
  s_remoteBalanceMsat (fold_left rollback_entry l st) =
    s_remoteBalanceMsat st + zsum (fun kv => if forgets_add kv.1 kv.2 then e_amountMsat kv.2 else 0) l.
Proof.
  revert st. induction l as [|[k e] l IH]; intros st Hn; [cbn; split; [done|lia]|].
  cbn [map fst] in Hn. apply NoDup_cons in Hn as [Hk Hn]. cbn [fold_left zsum fst snd].
  destruct (IH (rollback_entry st (k, e)) Hn) as [-> ->].
  assert (Hr : s_remoteBalanceMsat (rollback_entry st (k, e)) =
    s_remoteBalanceMsat st + (if forgets_add k e then e_amountMsat e else 0)).
  { unfold rollback_entry. destruct (forgets_add k e); [done|]. destruct (forgets_settle k e); cbn; lia. }
  rewrite Hr. split; [|lia]. clear Hr.
  assert (Hg : get key (s_htlcs (rollback_entry st (k, e))) =
    if decide (key = k) then match rolled_entry k e with
      | Some e' => if forgets_settle k e then Some e' else get k (s_htlcs st) | None => None end
    else get key (s_htlcs st)).
  { unfold rollback_entry, rolled_entry. destruct (forgets_add k e).
    - cbn. rewrite get_del. by case_decide.
    - destruct (forgets_settle k e); cbn; [rewrite get_set; by case_decide|]. case_decide; by subst. }
  rewrite Hg. cbn [get]. destruct (decide (key = k)) as [->|Hne]; [|done]. by rewrite get_None.
Qed.

Lemma settle_not_add key e : forgets_settle key e = true -> forgets_add key e = false.
Proof.
  unfold forgets_add, forgets_settle. intros [[_ Hp]%andb_prop _]%andb_prop.
  rewrite bool_decide_false, andb_false_r; [done|]. intros E. unfold removed in Hp. by rewrite E in Hp.
Qed.

(** A disconnection takes out the adds it forgets, with their value back to the peer, restores the
    HTLCs whose settlement it forgets, and leaves the others. *)
Lemma rolled_htlcs st : NoDup (map fst (s_htlcs st)) ->
  (forall key, get key (s_htlcs (rolled_back st)) = get key (s_htlcs st) ≫= rolled_entry key) /\
  s_remoteBalanceMsat (rolled_back st) = s_remoteBalanceMsat st +
    zsum (fun kv => if forgets_add kv.1 kv.2 then e_amountMsat kv.2 else 0) (s_htlcs st).
Proof.
  intros Hn. unfold rolled_back.
  assert (forall x, s_htlcs (rollback_lease x) = s_htlcs x /\ s_remoteBalanceMsat (rollback_lease x) = s_remoteBalanceMsat x) as Hl
    by (intros x; unfold rollback_lease; by destruct (_ && _)).
  assert (forall x, s_htlcs (rollback_fee x) = s_htlcs x /\ s_remoteBalanceMsat (rollback_fee x) = s_remoteBalanceMsat x) as Hf
    by (intros x; unfold rollback_fee; by destruct (_ && _)).
  set (st0 := set_state AWAITING_REESTABLISH st).
  destruct (Hl (rollback_fee (rollback_updates st0))) as [-> ->]. destruct (Hf (rollback_updates st0)) as [-> ->].
  unfold rollback_updates. change (s_htlcs st0) with (s_htlcs st).
  pose proof (rollback_fold "" (s_htlcs st) st0 Hn) as [_ ->]. split; [|done]. intros key.
  pose proof (rollback_fold key (s_htlcs st) st0 Hn) as [-> _]. change (s_htlcs st0) with (s_htlcs st).
  destruct (get key (s_htlcs st)) as [e|]; [|done]. cbn. unfold rolled_entry.
  destruct (forgets_add key e) eqn:Ea; [done|]. by destruct (forgets_settle key e).
Qed.

Lemma has_fee_none l : has_fee l = false -> List.filter (fun u => negb (is_update_fee u)) l = l.
Proof.
  induction l as [|x l IH]; [done|]. cbn. intros [Hx H]%orb_false_iff. rewrite Hx. cbn. by rewrite IH.
Qed.

(** Either nothing happens to the fee, or it goes from the queue too. *)
Definition fee_rolled (st st' : IChannelState) : Prop :=
  (s_pendingLocalUpdates st' = s_pendingLocalUpdates st /\
   s_pendingFeeratePerKw st' = s_pendingFeeratePerKw st /\
   flag_true (s_pendingFeerateSignable st) || flag_true (s_pendingFeerateCommitted st) = true) \/
  (s_pendingLocalUpdates st' = List.filter (fun u => negb (is_update_fee u)) (s_pendingLocalUpdates st) /\
   flag_true (s_pendingFeerateCommitted st) = false).

Lemma rollback_fee_lasting st :
  lasting (rollback_fee st) = lasting st /\ s_state (rollback_fee st) = s_state st /\
  fee_rolled st (rollback_fee st).
Proof.
  unfold rollback_fee, fee_rolled.
  destruct (flag_true (s_pendingFeerateSignable st)), (flag_true (s_pendingFeerateCommitted st)) eqn:E;
    cbn [negb andb orb]; (split; [done|]); (split; [done|]); auto.
Qed.

Lemma rollback_lease_lasting st :
  lasting (rollback_lease st) = lasting st /\
  s_pendingLocalUpdates (rollback_lease st) = s_pendingLocalUpdates st /\
  s_pendingFeeratePerKw (rollback_lease st) = s_pendingFeeratePerKw st /\
  s_state (rollback_lease st) = s_state st.
Proof. unfold rollback_lease. by destruct (_ && _). Qed.

Lemma rolled_back_spec st :
  lasting (rolled_back st) = lasting st /\ s_state (rolled_back st) = AWAITING_REESTABLISH /\
  fee_rolled st (rolled_back st).
Proof.
  unfold rolled_back.
  destruct (rollback_updates_lasting (set_state AWAITING_REESTABLISH st)) as (E1 & E2 & E3 & E4).
  change (lasting (set_state AWAITING_REESTABLISH st)) with (lasting st) in E1.
  change (s_state (set_state AWAITING_REESTABLISH st)) with AWAITING_REESTABLISH in E4.
  change (s_pendingLocalUpdates (set_state AWAITING_REESTABLISH st)) with (s_pendingLocalUpdates st) in E2.
  change (s_pendingFeeratePerKw (set_state AWAITING_REESTABLISH st)) with (s_pendingFeeratePerKw st) in E3.
  revert E1 E2 E3 E4. generalize (rollback_updates (set_state AWAITING_REESTABLISH st)). intros x E1 E2 E3 E4.
  destruct (rollback_fee_lasting x) as (F1 & F2 & F3).
  destruct (rollback_lease_lasting (rollback_fee x)) as (L1 & L2 & L3 & L4).
  revert F1 F2 F3 L1 L2 L3 L4. generalize (rollback_fee x). intros y F1 F2 F3.
  generalize (rollback_lease y). intros z L1 L2 L3 L4.
  split; [congruence|]. split; [congruence|]. unfold fee_rolled in *.
  assert (s_pendingFeerateSignable x = s_pendingFeerateSignable st /\
    s_pendingFeerateCommitted x = s_pendingFeerateCommitted st) as [G1 G2]
    by (unfold lasting in E1; split; congruence).
  rewrite L2, L3, <- E2, <- E3, <- G1, <- G2. exact F3.
Qed.

Lemma surviving_signing st l : signing (surviving st l) = signing l.
Proof.
  unfold surviving. destruct (flag_true _); [done|]. induction l as [|m l IH]; [done|].
  cbn. by destruct m; cbn; rewrite ?IH.
Qed.

Lemma surviving_exists (p : ChannelMessage -> bool) st l :
  (forall m, is_update_fee m = true -> p m = false) -> existsb p (surviving st l) = existsb p l.
Proof.
  intros Hp. unfold surviving. destruct (flag_true _); [done|]. induction l as [|m l IH]; [done|].
  cbn. destruct (is_update_fee m) eqn:E; cbn; rewrite IH; [by rewrite (Hp m E)|done].
Qed.

Lemma surviving_app st l l' : surviving st (l ++ l') = surviving st l ++ surviving st l'.
Proof. unfold surviving. destruct (flag_true _); [done|]. apply List.filter_app. Qed.

Lemma surviving_updates st l : updates (surviving st l) = surviving st (updates l).
Proof.
  unfold surviving. destruct (flag_true _); [done|]. induction l as [|m l IH]; [done|].
  by destruct m; cbn; rewrite ?IH.
Qed.

Lemma surviving_split st l l1 c l2 : surviving st l = l1 ++ COMMIT c :: l2 ->
  exists k1 k2, l = k1 ++ COMMIT c :: k2 /\ l1 = surviving st k1 /\ l2 = surviving st k2.
Proof.
  unfold surviving. destruct (flag_true _); [by exists l1, l2|].
  revert l1. induction l as [|m l IH]; [by destruct l1|]. cbn. intros l1 E.
  destruct (is_update_fee m) eqn:Em; cbn in E.
  - destruct (IH _ E) as (k1 & k2 & -> & -> & ->). exists (m :: k1), k2. cbn. by rewrite Em.
  - destruct l1 as [|x l1]; cbn in E.
    + injection E as -> <-. by exists [], l.
    + injection E as <- E. destruct (IH _ E) as (k1 & k2 & -> & -> & ->). exists (m :: k1), k2. cbn.
      by rewrite Em.
Qed.

Lemma surviving_none st l :
  (has_fee l = true -> flag_true (s_pendingFeerateCommitted st) = true) -> surviving st l = l.
Proof.
  intros H. unfold surviving. destruct (flag_true _); [done|]. apply has_fee_none.
  destruct (has_fee l); [by discriminate H|done].
Qed.

Lemma surviving_fee st l : has_fee (surviving st l) = true ->
  flag_true (s_pendingFeerateCommitted st) = true /\ has_fee l = true.
Proof.
  unfold surviving. destruct (flag_true _); [done|]. induction l as [|m l IH]; [done|]. cbn.
  destruct (is_update_fee m) eqn:E; cbn; [|rewrite E]; intros H; by destruct (IH H).
Qed.

Lemma surviving_prefix st n q :
  (n <= length q)%nat -> surviving st (take n q) = take n q ->
  take n (surviving st q) = take n q /\ drop n (surviving st q) = surviving st (drop n q) /\
  (n <= length (surviving st q))%nat.
Proof.
  intros Hn E.
  assert (surviving st q = take n q ++ surviving st (drop n q)) as ->
    by (rewrite <- (take_drop n q) at 1; by rewrite surviving_app, E).
  rewrite take_app_length', drop_app_length' by (rewrite length_take; lia).
  split_and!; [done..|]. rewrite length_app, length_take. lia.
Qed.

Lemma rolled_queue st l : Kept st l ->
  s_pendingLocalUpdates (rolled_back st) = surviving st (s_pendingLocalUpdates st).
Proof.
  intros K. destruct (rolled_back_spec st) as (_ & _ & [(-> & _ & H)|(-> & H)]).
  - symmetry. apply surviving_none. intros Hf. destruct (kp_fee _ _ K Hf) as [Hr _].
    by rewrite (kp_signable _ _ K Hr) in H.
  - unfold surviving. by rewrite H.
Qed.

Lemma kept_rollback st l : Kept st l -> Kept (rolled_back st) (surviving st l).
Proof.
  intros K. pose proof (rolled_queue _ _ K) as Eq.
  destruct (rolled_back_spec st) as (El & _ & Hf). destruct K as [K1 K2 K3 K4 K5 K6 K7 K8 K9 K10 K11].
  unfold signed_count in *. set (n := Z.to_nat (s_pendingLocalUpdatesSignedCount st)) in *.
  destruct (surviving_prefix st n (s_pendingLocalUpdates st)) as (P1 & P2 & P3);
    [lia|by apply surviving_none|].
  revert Eq El Hf. generalize (rolled_back st). intros st' Eq El Hf. unfold lasting in El.
  assert (memory st' = memory st) as [= M1 M2 M3 M4 M5 M6 M7] by congruence.
  assert (s_role st' = s_role st /\ s_pendingLocalUpdatesSignedCount st' = s_pendingLocalUpdatesSignedCount st /\
    s_pendingFeerateSignable st' = s_pendingFeerateSignable st /\
    s_pendingFeerateCommitted st' = s_pendingFeerateCommitted st) as (S1 & S2 & S3 & S4)
    by (split_and!; congruence). clear El.
  assert (Z.to_nat (s_pendingLocalUpdatesSignedCount st') = n) as En by by rewrite S2.
  constructor; unfold signed_count; rewrite ?En, ?S1, ?S2, ?S3, ?S4, ?M7, ?Eq, ?P1, ?P2; try done.
  - rewrite surviving_signing, K1, !surviving_exists by (by intros []).
    unfold in_order, cached_commit, cached_revoke, channel_id. by rewrite M1, M2, M3, M4, M5, M6.
  - destruct K2. unfold surviving. destruct (flag_true _); [done|].
    assert (forall p : ChannelMessage -> bool,
      (length (List.filter p (List.filter (fun u => negb (is_update_fee u)) l)) <= length (List.filter p l))%nat) as Hle.
    { intros p. clear. induction l as [|m l IH]; [done|]. cbn. destruct (is_update_fee m); cbn;
        destruct (p m); cbn; lia. }
    split; (etrans; [apply Hle|done]).
  - lia.
  - destruct K4 as (d & E & Hd). exists (surviving st d). rewrite surviving_updates, <- surviving_app, <- E.
    split; [done|]. rewrite surviving_exists by (by intros []). intros Hc. specialize (Hd Hc).
    assert (take n d = take n (s_pendingLocalUpdates st)) as Et by (rewrite E, take_app_le; done).
    apply (surviving_prefix st n d); [done|]. rewrite Et. by apply surviving_none.
  - intros l1 c l2 (k1 & k2 & -> & -> & ->)%surviving_split. by rewrite surviving_updates, (K5 _ _ _ eq_refl).
  - intros [Hc Hh]%surviving_fee. destruct (K6 Hh) as [Hr Hp]. split; [done|].
    destruct Hf as [(_ & -> & _)|(_ & Hn)]; [done|congruence].
  - intros [_ H]%surviving_fee. auto.
  - unfold surviving. destruct (flag_true _); [done|]. revert K11. generalize (s_pendingLocalUpdates st). clear.
    intros l. induction l as [|m l IH]; [done|]. cbn. intros [Hm H]%andb_true_iff.
    destruct (is_update_fee m); cbn; rewrite ?Hm; auto.
Qed.

(** ** The replay *)

Lemma split_missed n k i q :
  split_queue false n k i q = (take (Z.to_nat (k - i)) q, drop (Z.to_nat (k - i)) q).
Proof.
  revert i. induction q as [|m q IH]; intros i; cbn [split_queue].
  - by rewrite take_nil, drop_nil.
  - rewrite IH. cbn [andb]. destruct (Z.ltb_spec i k).
    + by replace (Z.to_nat (k - i)) with (S (Z.to_nat (k - (i + 1)))) by lia.
    + by replace (Z.to_nat (k - i)) with 0%nat by lia; replace (Z.to_nat (k - (i + 1))) with 0%nat by lia.
Qed.

Lemma split_had n k i q : i + Z.of_nat (length q) <= k ->
  exists a, split_queue true n k i q = (a ++ drop (Z.to_nat (n - i)) q, []) /\
    sublist a (take (Z.to_nat (n - i)) q).
Proof.
  revert i. induction q as [|m q IH]; intros i Hk; cbn [split_queue length] in *.
  - exists []. rewrite drop_nil, take_nil. done.
  - destruct (IH (i + 1)) as (a & -> & Ha); [lia|]. cbn [andb].
    destruct (Z.ltb_spec i n); cbn [andb].
    + replace (Z.to_nat (n - i)) with (S (Z.to_nat (n - (i + 1)))) by lia. cbn [drop take].
      destruct (is_update_fee m).
      * exists a. split; [done|by constructor].
      * rewrite (proj2 (Z.ltb_lt i k)) by lia. exists (m :: a). split; [done|by constructor].
    + rewrite (proj2 (Z.ltb_lt i k)) by lia. exists [].
      replace (Z.to_nat (n - i)) with 0%nat by lia. replace (Z.to_nat (n - (i + 1))) with 0%nat in * by lia.
      apply sublist_nil_r in Ha as ->. done.
Qed.

(** [again] makes up for the loss of [lost]: the same signature and revocation in the same order, every
    lost update after whatever else is repeated, on the same side of the signature as before. *)
Record makes_up (lost again : list ChannelMessage) : Prop := {
  mu_signing : signing again = signing lost;
  mu_updates : suffix (updates lost) (updates again);
  mu_split l1 c l2 : lost = l1 ++ COMMIT c :: l2 ->
    exists p1 p2, again = p1 ++ COMMIT c :: p2 /\
      suffix (updates l1) (updates p1) /\ updates p2 = updates l2
}.

Lemma updates_all l : forallb is_update l = true -> updates l = l /\ signing l = [].
Proof.
  induction l as [|m l IH]; [done|]. cbn. intros [Hm H]%andb_true_iff. destruct (IH H) as [-> ->].
  by destruct m.
Qed.

Lemma updates_idem l : updates (updates l) = updates l.
Proof. induction l as [|m l IH]; [done|]. by destruct m; cbn; rewrite ?IH. Qed.

Lemma updates_revoke st : updates (cached_revoke st) = [] /\ signing (cached_revoke st) = cached_revoke st.
Proof. by destruct (cached_revoke_cases st) as [->|[c ->]]. Qed.

Lemma bool_cases (b : bool) : b = true \/ b = false.
Proof. destruct b; auto. Qed.

Section Replay.
Context (msg : IChannelReestablishMessage) (st : IChannelState) (l : list ChannelMessage).
Context (K : Kept st l).
Context (Hmissed : peerMissedCommitment (rm_nextCommitmentNumber msg) st = existsb is_commit_msg l).
Context (Hhas : (rm_nextCommitmentNumber msg =? s_remoteCommitmentNumber st + 1) = negb (existsb is_commit_msg l)).
Context (Hrevoked : (rm_nextRevocationNumber msg + 1 =? s_localCommitmentNumber st) = existsb is_revoke_msg l).

Let q := s_pendingLocalUpdates st.
Let n := signed_count st.
Let R := if existsb is_revoke_msg l then cached_revoke st else [].

Lemma R_plain : updates R = [] /\ signing R = R.
Proof. unfold R. destruct (existsb is_revoke_msg l); [apply updates_revoke|done]. Qed.

Lemma queue_plain : updates (take n q) = take n q /\ signing (take n q) = [] /\
  updates (drop n q) = drop n q /\ signing (drop n q) = [].
Proof.
  pose proof (kp_plain _ _ K) as H. fold q in H. rewrite <- (take_drop n q), forallb_app in H.
  apply andb_true_iff in H as [[? ?]%updates_all [? ?]%updates_all]. done.
Qed.

(** The signature is among the lost messages. *)
Lemma replay_lost_commit l1 c l2 : l = l1 ++ COMMIT c :: l2 ->
  cached_commit st = [COMMIT c] /\ drop n q = updates l2 /\ suffix (updates l1) (take n q) /\
  retransmission msg st =
    ((if flag_true (s_lastSentWasRevoke st) then [] else R) ++ take n q) ++
    COMMIT c :: (if flag_true (s_lastSentWasRevoke st) then R else []) ++ drop n q.
Proof.
  intros E. assert (existsb is_commit_msg l = true) as Hc
    by (rewrite E, existsb_app; cbn; apply orb_true_r).
  assert (cached_commit st = [COMMIT c]) as Ec.
  { pose proof (kp_signing _ _ K) as H. rewrite Hc in H. fold R in H.
    assert (COMMIT c ∈ signing l) as Hin.
    { apply list_elem_of_In, filter_In. split; [|done]. rewrite E. apply in_app_iff. right. by left. }
    rewrite H in Hin. unfold in_order in Hin.
    destruct (cached_commit_cases st) as [Ec|[c' Ec]], (cached_revoke_cases st) as [Er|[r Er]];
      rewrite Ec in *; unfold R in Hin; rewrite Er in Hin;
      destruct (flag_true (s_lastSentWasRevoke st)), (existsb is_revoke_msg l); cbn in Hin; set_solver. }
  pose proof (kp_split _ _ K _ _ _ E) as Hd. fold q n in Hd. split_and!; [done..| |].
  - destruct (kp_queue _ _ K) as (d & Eq & _). fold q in Eq. exists d.
    rewrite E, updates_app in Eq. cbn [List.filter is_update] in Eq. rewrite Hd in Eq.
    apply (app_inv_tail (drop n q)). by rewrite <- app_assoc, take_drop.
  - unfold retransmission, replayed_updates, revoke_retransmit, commit_retransmit. fold q.
    rewrite Hmissed, Hhas, Hrevoked, Hc. cbn [negb]. rewrite split_missed. fold R. rewrite Ec.
    replace (Z.to_nat (Z.min (Z.max (s_pendingLocalUpdatesSignedCount st) 0) (Z.of_nat (length q)) - 0))
      with n by (pose proof (kp_count _ _ K); unfold n, signed_count, q; lia).
    rewrite <- app_assoc. done.
Qed.

(** The signature has arrived, or there is none. *)
Lemma replay_no_commit : existsb is_commit_msg l = false ->
  exists a, sublist a (take n q) /\ suffix (updates l) (drop n q) /\
  retransmission msg st =
    (if flag_true (s_lastSentWasRevoke st) then [] else R) ++ (a ++ drop n q) ++
    (if flag_true (s_lastSentWasRevoke st) then R else []).
Proof.
  intros Hc. destruct (split_had (s_pendingLocalUpdatesSignedCount st) (Z.of_nat (length q)) 0 q)
    as (a & Es & Ha); [lia|]. rewrite Z.sub_0_r in Es, Ha. exists a. split_and!; [done| |].
  - destruct (kp_queue _ _ K) as (d & Eq & Hd). fold q n in Eq, Hd. exists (drop n d).
    rewrite Eq, drop_app. specialize (Hd Hc). by replace (n - length d)%nat with 0%nat by lia.
  - unfold retransmission, replayed_updates, revoke_retransmit, commit_retransmit. fold q.
    rewrite Hmissed, Hhas, Hrevoked, Hc. cbn [negb]. rewrite Es. fold R. done.
Qed.

Lemma replay_makes_up : makes_up l (retransmission msg st).
Proof.
  destruct R_plain as [R1 R2], queue_plain as (Q1 & Q2 & Q3 & Q4).
  pose proof (kp_signing _ _ K) as Hs. fold R in Hs. unfold in_order in Hs.
  destruct (bool_cases (existsb is_commit_msg l)) as [Hc|Hc]; rewrite Hc in Hs.
  - apply existsb_exists in Hc as (m & Hin & Hm). destruct m; try discriminate Hm.
    apply list_elem_of_In, list_elem_of_split in Hin as (l1 & l2 & E).
    destruct (replay_lost_commit _ _ _ E) as (Ec & Ed & Et & ->). rewrite Ec in Hs. constructor.
    + rewrite !List.filter_app. cbn [List.filter is_signing is_commit_msg orb]. rewrite List.filter_app, Q2, Q4, Hs.
      destruct (flag_true (s_lastSentWasRevoke st)); rewrite ?R2; cbn; rewrite ?app_nil_r; done.
    + rewrite E, !updates_app. cbn [List.filter is_update]. rewrite updates_app, Q1, Q3, Ed.
      destruct Et as [d ->]. exists d. rewrite !app_assoc.
      destruct (flag_true (s_lastSentWasRevoke st)); rewrite ?R1; cbn; rewrite ?app_nil_r; done.
    + intros l1' c' l2' E'. destruct (replay_lost_commit _ _ _ E') as (Ec' & Ed' & Et' & _).
      assert (c' = m) as -> by congruence. eexists _, _. split; [reflexivity|].
      rewrite !updates_app, Q1, Q3, Ed'.
      destruct (flag_true (s_lastSentWasRevoke st)); rewrite ?R1; cbn; done.
  - destruct (replay_no_commit Hc) as (a & Ha & Hsuf & ->).
    assert (updates a = a /\ signing a = []) as [A1 A2].
    { apply updates_all. pose proof (kp_plain _ _ K) as H. fold q in H. rewrite <- (take_drop n q), forallb_app in H.
      apply andb_true_iff in H as [H _]. revert H. rewrite !forallb_forall. intros H x Hx. apply H.
      apply list_elem_of_In in Hx. apply list_elem_of_In. by eapply elem_of_sublist. }
    constructor.
    + rewrite !List.filter_app, A2, Q4, Hs. destruct (flag_true (s_lastSentWasRevoke st)); rewrite ?R2; cbn; rewrite ?app_nil_r; done.
    + rewrite !updates_app, A1, Q3. destruct Hsuf as [d ->]. exists (a ++ d). rewrite !app_assoc.
      destruct (flag_true (s_lastSentWasRevoke st)); rewrite ?R1; cbn; rewrite ?app_nil_r; done.
    + intros l1 c l2 E. rewrite E, existsb_app in Hc. cbn in Hc. by rewrite orb_true_r in Hc.
Qed.

End Replay.

(** ** The exchange *)

Definition marked (r : ReState) : ReState := (markForReestablish r).1.

(** The updates and signatures among the actions. *)
Definition replayed (actions : list ReAction) : list ChannelMessage :=
  omap (fun a => match a with RE_SEND true (RM_UPDATE m) => Some m | _ => None end) actions.

Lemma replayed_app l l' : replayed (l ++ l') = replayed l ++ replayed l'.
Proof. apply omap_app. Qed.

Lemma replayed_map l : replayed (map (fun m => RE_SEND true (RM_UPDATE m)) l) = l.
Proof. induction l as [|m l IH]; [done|]. cbn. by f_equal. Qed.

Lemma marked_spec r :
  x_state r = CHANNEL_NORMAL -> flag_true (s_restoreRecencyUnproven (x_chan r)) = false ->
  x_chan (marked r) = rolled_back (x_chan r) /\ (markForReestablish r).2 = [] /\
  k_preReestablishState (x_close (marked r)) = Some CHANNEL_NORMAL /\
  k_stateUncertain (x_close (marked r)) = k_stateUncertain (x_close r).
Proof.
  intros Hn Hu. destruct (rolled_back_spec (x_chan r)) as (El & _ & _).
  assert (s_restoreRecencyUnproven (rolled_back (x_chan r)) = s_restoreRecencyUnproven (x_chan r)) as Eu.
  { revert El. generalize (rolled_back (x_chan r)). unfold lasting, memory. congruence. }
  unfold marked, markForReestablish. rewrite Hn. cbn [markable negb].
  unfold dropUnsignedHeldAdds.
  match goal with |- context [_dropUnsignedLocalAddsIfHeld ?y] =>
    change y with (rolled_back (x_chan r)) end.
  unfold _dropUnsignedLocalAddsIfHeld. rewrite Eu, Hu. cbn [negb].
  assert (k_state (x_close r) = CHANNEL_NORMAL) as <- by done.
  split_and!; reflexivity.
Qed.

Section Exchange.
Context `{L : BitcoinLib} (ecc_isPoint : buffer -> bool).

Lemma handle_resumes msg r p :
  1 <= rm_nextCommitmentNumber msg -> secret_valid msg (x_chan r) = Ok true ->
  s_remoteCommitmentNumber (x_chan r) <= rm_nextCommitmentNumber msg <= s_remoteCommitmentNumber (x_chan r) + 1 ->
  s_localCommitmentNumber (x_chan r) - 1 <= rm_nextRevocationNumber msg <= s_localCommitmentNumber (x_chan r) ->
  flag_true (k_stateUncertain (x_close r)) = false -> x_state r = AWAITING_REESTABLISH ->
  k_preReestablishState (x_close r) = Some CHANNEL_NORMAL -> rm_nextFundingTxid msg = None ->
  getPerCommitmentPoint (s_localPerCommitmentSeed (x_chan r)) 1 = Ok p ->
  exists r' actions, handleReestablish ecc_isPoint msg r = (r', Ok actions) /\
    x_state r' = CHANNEL_NORMAL /\ replayed actions = retransmission msg (x_chan r).
Proof.
  intros Hc Hs [H1 H2] [H3 H4] Hu Hw Hp Hf Hpt. unfold handleReestablish.
  rewrite (proj2 (Z.eqb_neq _ 0)) by lia. set (r0 := set_lastReestablishOutcome None r).
  change (x_chan r0) with (x_chan r). rewrite Hs.
  assert (fell_behind msg (x_chan r) = false) as ->.
  { unfold fell_behind. rewrite (proj2 (Z.ltb_ge (s_localCommitmentNumber (x_chan r)) _)) by lia.
    by rewrite andb_false_r. }
  change (k_stateUncertain (x_close r0)) with (k_stateUncertain (x_close r)). rewrite Hu.
  unfold note_revoked. change (x_chan r0) with (x_chan r).
  rewrite (proj2 (Z.eqb_neq (rm_nextRevocationNumber msg) _)) by lia. cbn [andb].
  change (x_chan r0) with (x_chan r).
  rewrite !(proj2 (Z.ltb_ge _ _)) by lia.
  unfold resume. change (x_chan r0) with (x_chan r).
  assert (restore_state r0 = on_close (fun c => set_preReestablishState None (set_chan_state CHANNEL_NORMAL c)) r0) as ->.
  { unfold restore_state. change (x_state r0) with (x_state r).
    change (k_preReestablishState (x_close r0)) with (k_preReestablishState (x_close r)). by rewrite Hw, Hp. }
  set (r1 := on_close _ r0). unfold unknown_funding. rewrite Hf.
  assert (exists ready, ready_retransmit msg r1 = Ok ready /\ replayed ready = []) as (ready & -> & Er).
  { unfold ready_retransmit.
    change (s_localPerCommitmentSeed (x_chan r1)) with (s_localPerCommitmentSeed (x_chan r)). rewrite Hpt.
    destruct (_ && _); by eexists. }
  eexists _, _. split; [reflexivity|]. split; [reflexivity|].
  cbn [app]. assert (replayed (map (fun m => RE_SEND true (RM_UPDATE m)) (retransmission msg (x_chan r)) ++ ready) =
    retransmission msg (x_chan r)) as E by (by rewrite replayed_app, replayed_map, Er, app_nil_r).
  by destruct (existsb is_send _).
Qed.

Lemma create_sends r (revs : Z) secret point :
  _remoteRevocationCount (x_chan r) = revs ->
  (if 0 <? revs then getSecret sha256 (s_shaChainStore (x_chan r)) (MAX_INDEX - (revs - 1)) = Some secret
   else secret = alloc 32) ->
  getPerCommitmentPoint (s_localPerCommitmentSeed (x_chan r)) (s_localCommitmentNumber (x_chan r)) = Ok point ->
  exists m, createReestablish r = (r, Ok [RE_SEND false (RM_REESTABLISH m)]) /\
    rm_nextCommitmentNumber m = s_localCommitmentNumber (x_chan r) + 1 /\
    rm_nextRevocationNumber m = revs /\ rm_yourLastPerCommitmentSecret m = secret /\
    rm_nextFundingTxid m = None.
Proof.
  intros Er Hs Hp. unfold createReestablish. cbv zeta. rewrite Er, Hp.
  destruct (0 <? revs); [rewrite Hs|rewrite <- Hs]; eexists; split; [done|by split_and!|done|by split_and!].
Qed.

Context (signCommitmentTx : Peer -> Transaction -> buffer -> Z -> buffer)
        (verifyCommitmentSig : Transaction -> buffer -> buffer -> buffer -> Z -> bool)
        (verifyRemoteHtlcSignatures : IChannelState -> buffer -> list buffer -> bool).
Context (init : Peer -> IChannelState) (w : World).

(** The secret a side would prove its position with, and the check of its peer. *)
Lemma last_secret s r :
  opened init -> in_step signCommitmentTx init w s r -> 0 < r ->
  exists secret, getSecret sha256 (s_shaChainStore (chan w s)) (MAX_INDEX - (r - 1)) = Some secret /\
    getPerCommitmentSecret sha256 (seed init (other s)) (r - 1) = Ok secret.
Proof.
  intros Ho S Hr. pose proof (st_store _ _ _ _ _ S) as Hacc.
  pose proof (accepted_bound _ _ _ Hacc) as Hb. rewrite honest_length in Hb.
  exists (deriveChild sha256 (seed init (other s)) 0 (MAX_INDEX - (r - 1))). split.
  - replace (r - 1) with (Z.of_nat (Z.to_nat (r - 1))) by lia.
    rewrite (getSecret_known sha256 _ _ _ Hacc) by (rewrite honest_length; lia).
    rewrite honest_lookup by lia. done.
  - unfold getPerCommitmentSecret. apply generate_derive; [apply (o_seed _ Ho)|]. unfold MAX_INDEX in *. lia.
Qed.

(** The point of the commitment a side is at. *)
Lemma current_point s r :
  in_step signCommitmentTx init w s r ->
  exists p, getPerCommitmentPoint (seed init (other s)) (s_localCommitmentNumber (chan w (other s))) = Ok p.
Proof.
  intros S. destruct (st_points _ _ _ _ _ S) as (p & q & _ & Ep & Eq).
  pose proof (st_local _ _ _ _ _ S) as El. pose proof (st_one _ _ _ _ _ S) as Ho.
  pose proof (count_nonneg is_COMMIT (out w s)). pose proof (count_nonneg is_REVOKE (out w (other s))).
  assert (s_localCommitmentNumber (chan w (other s)) = r \/ s_localCommitmentNumber (chan w (other s)) = r + 1)
    as [->| ->] by lia; eauto.
Qed.

Lemma rolled_numbers st :
  numbers (rolled_back st) = numbers st /\ s_shaChainStore (rolled_back st) = s_shaChainStore st /\
  s_localPerCommitmentSeed (rolled_back st) = s_localPerCommitmentSeed st /\
  _remoteRevocationCount (rolled_back st) = _remoteRevocationCount st.
Proof.
  destruct (rolled_back_spec st) as (El & _ & _). revert El. generalize (rolled_back st). intros x El.
  unfold lasting in El. assert (numbers x = numbers st /\ points x = points st) as [En Ep] by (split; congruence).
  unfold points in Ep. unfold numbers in *. unfold _remoteRevocationCount.
  injection En as -> -> -> ->. split_and!; congruence.
Qed.

(** Where the two sides are, seen from [s]. *)
Lemma position s q q' :
  in_step signCommitmentTx init w s q -> in_step signCommitmentTx init w (other s) q' ->
  0 <= q /\ 0 <= s_localCommitmentNumber (chan w s) /\
  s_localCommitmentNumber (chan w (other s)) = q + count is_REVOKE (out w (other s)) /\
  s_remoteCommitmentNumber (chan w (other s)) =
    s_localCommitmentNumber (chan w s) + count is_COMMIT (out w (other s)) /\
  0 <= count is_COMMIT (out w (other s)) <= 1 /\ 0 <= count is_REVOKE (out w (other s)) <= 1.
Proof.
  intros S S'. pose proof (st_pos _ _ _ _ _ S). pose proof (st_pos _ _ _ _ _ S').
  pose proof (st_local _ _ _ _ _ S). pose proof (st_local _ _ _ _ _ S').
  pose proof (st_one _ _ _ _ _ S). pose proof (st_one _ _ _ _ _ S').
  pose proof (st_remote _ _ _ _ _ S'). rewrite other_other in *.
  pose proof (count_nonneg is_COMMIT (out w (other s))). pose proof (count_nonneg is_REVOKE (out w (other s))).
  pose proof (count_nonneg is_COMMIT (out w s)). pose proof (count_nonneg is_REVOKE (out w s)).
  split_and!; lia.
Qed.

(** The secret [s] sends is there, and its peer finds it right. *)
Lemma proves_position s q :
  opened init -> in_step signCommitmentTx init w s q ->
  exists secret,
    (if 0 <? q then getSecret sha256 (s_shaChainStore (chan w s)) (MAX_INDEX - (q - 1)) = Some secret
     else secret = alloc 32) /\
    forall m st, s_localPerCommitmentSeed st = seed init (other s) -> rm_nextRevocationNumber m = q ->
      rm_yourLastPerCommitmentSecret m = secret -> secret_valid m st = Ok true.
Proof.
  intros Ho S. destruct (Z.ltb_spec 0 q) as [Hq|Hq].
  - destruct (last_secret s q Ho S Hq) as (secret & E1 & E2). exists secret. split; [done|].
    intros m st Es Er Em. unfold secret_valid. rewrite Er, (proj2 (Z.ltb_lt 0 q) Hq), Es, E2, bind_Ok, Em.
    unfold buf_equals. by rewrite bool_decide_true.
  - exists (alloc 32). split; [done|]. intros m st _ Er _. unfold secret_valid.
    by rewrite Er, (proj2 (Z.ltb_ge 0 q) Hq).
Qed.

Context (r : Peer -> ReState).
Hypothesis Hopened : opened init.
Hypothesis Hfresh : forall p, fresh (init p).
Hypothesis Hreached : reached signCommitmentTx verifyCommitmentSig verifyRemoteHtlcSignatures ecc_isPoint init w.
Hypothesis Hchan : forall p, x_chan (r p) = chan w p.
Hypothesis Hsure : forall p, flag_true (k_stateUncertain (x_close (r p))) = false.

Lemma reached_awaits : exists N, Good signCommitmentTx init N w /\ Keeps w /\ forall p, Awaits (chan w p).
Proof. destruct Hreached as [cs Hrun]. by eapply run_awaits. Qed.

(** [s] sends its channel_reestablish and its peer answers with a replay. *)
Lemma reconnect_replays s :
  exists m r' actions,
    createReestablish (marked (r s)) = (marked (r s), Ok [RE_SEND false (RM_REESTABLISH m)]) /\
    handleReestablish ecc_isPoint m (marked (r (other s))) = (r', Ok actions) /\
    x_state r' = CHANNEL_NORMAL /\
    replayed actions = retransmission m (rolled_back (chan w (other s))) /\
    rm_nextCommitmentNumber m = s_localCommitmentNumber (chan w s) + 1 /\
    s_remoteRevocationNumber (chan w s) = Some (rm_nextRevocationNumber m).
Proof.
  destruct reached_awaits as (N & Hw & K & _).
  assert (forall p, x_state (r p) = CHANNEL_NORMAL) as Hn
    by (intros p; unfold x_state; rewrite Hchan; by apply (good_normal _ _ _ Hopened _ p Hw)).
  assert (forall p, flag_true (s_restoreRecencyUnproven (x_chan (r p))) = false) as Hu
    by (intros p; rewrite Hchan; apply (kp_proven _ _ (K p))).
  destruct (marked_spec (r s) (Hn s) (Hu s)) as (C1 & _ & _ & _). rewrite Hchan in C1.
  destruct (marked_spec (r (other s)) (Hn _) (Hu _)) as (C2 & _ & P2 & U2). rewrite Hchan in C2.
  destruct (g_step _ _ _ _ Hw s) as [q S], (g_step _ _ _ _ Hw (other s)) as [q' S'].
  destruct (position s q q' S S') as (B1 & B2 & B3 & B4 & B5 & B6).
  destruct (rolled_numbers (chan w s)) as ((N1 & _ & _ & _)%numbers_inv & N5 & N6 & N7).
  destruct (rolled_numbers (chan w (other s))) as ((M1 & M2 & _ & _)%numbers_inv & _ & M6 & _).
  pose proof (good_seed _ _ _ _ s Hw) as Sd. pose proof (good_seed _ _ _ _ (other s) Hw) as Sd'.
  destruct (proves_position s q Hopened S) as (secret & Hsec & Hval).
  destruct (current_point (other s) q' S') as [point Hpt]. rewrite other_other in Hpt.
  destruct (o_next _ Hopened s) as (p1 & _ & Hp1).
  destruct (create_sends (marked (r s)) q secret point) as (m & Ec & E1 & E2 & E3 & E4);
    rewrite ?C1, ?N1, ?N5, ?N6, ?N7, ?Sd; [|done..|].
  { unfold _remoteRevocationCount. by rewrite (st_rev _ _ _ _ _ S). }
  rewrite C1, N1 in E1.
  destruct (handle_resumes m (marked (r (other s))) p1) as (r' & actions & Eh & Hst & Hrep);
    rewrite ?C2, ?E1, ?E2, ?M1, ?M2, ?M6, ?U2, ?Sd'; try done; try lia.
  { apply Hval; [|done..]. congruence. }
  { unfold x_state. rewrite C2. apply rolled_back_spec. }
  exists m, r', actions. rewrite <- C2, E2. split_and!; [done..|]. apply (st_rev _ _ _ _ _ S).
Qed.

(** C10: however many messages the loss of the connection has destroyed, in either direction, and
    at whatever point of the update protocol, two nodes that reconnect accept each other's
    channel_reestablish and go on: each returns to its NORMAL state and sends again exactly the
    signature and the revocation the other lost, in the order they were first sent, every lost update,
    and each update on the side of the signature it was on.  Only an update_fee that no signature
    covered is left out, which both sides forget. *)
Theorem reconnect_resumes s :
  exists m r' actions,
    createReestablish (marked (r s)) = (marked (r s), Ok [RE_SEND false (RM_REESTABLISH m)]) /\
    handleReestablish ecc_isPoint m (marked (r (other s))) = (r', Ok actions) /\
    x_state r' = CHANNEL_NORMAL /\
    makes_up (surviving (chan w (other s)) (msgs (out w (other s)))) (replayed actions).
Proof.
  destruct (reconnect_replays s) as (m & r' & actions & Ec & Eh & Hst & Hrep & E1 & E2).
  exists m, r', actions. split_and!; [done..|]. rewrite Hrep. destruct reached_awaits as (N & Hw & K & _).
  destruct (g_step _ _ _ _ Hw s) as [q S], (g_step _ _ _ _ Hw (other s)) as [q' S'].
  destruct (position s q q' S S') as (B1 & B2 & B3 & B4 & B5 & B6).
  assert (rm_nextRevocationNumber m = q) as Er by (rewrite (st_rev _ _ _ _ _ S) in E2; congruence).
  destruct (rolled_numbers (chan w (other s))) as ((M1 & M2 & _ & _)%numbers_inv & _).
  apply replay_makes_up; [by apply kept_rollback|..]; rewrite surviving_exists, ?commit_in, ?revoke_in by (by intros []);
    unfold peerMissedCommitment; rewrite ?E1, ?Er, ?M1, ?M2.
  - destruct (Z.leb_spec (s_localCommitmentNumber (chan w s) + 1) (s_remoteCommitmentNumber (chan w (other s)))),
      (Z.ltb_spec 0 (s_remoteCommitmentNumber (chan w (other s)))), (Z.ltb_spec 0 (count is_COMMIT (out w (other s))));
      lia || done.
  - destruct (Z.eqb_spec (s_localCommitmentNumber (chan w s) + 1) (s_remoteCommitmentNumber (chan w (other s)) + 1)),
      (Z.ltb_spec 0 (count is_COMMIT (out w (other s)))); lia || done.
  - destruct (Z.eqb_spec (q + 1) (s_localCommitmentNumber (chan w (other s)))),
      (Z.ltb_spec 0 (count is_REVOKE (out w (other s)))); lia || done.
Qed.

(** Everything but a fee is sent again. *)
Lemma queue_replayed m st x l :
  Kept st l -> x ∈ s_pendingLocalUpdates st -> is_update_fee x = false ->
  x ∈ retransmission m (rolled_back st).
Proof.
  intros K Hx Hf. assert (x ∈ s_pendingLocalUpdates (rolled_back st)) as Hq.
  { rewrite (rolled_queue _ _ K). unfold surviving. destruct (flag_true _); [done|].
    apply list_elem_of_In, filter_In. split; [by apply list_elem_of_In|by rewrite Hf]. }
  revert Hq. generalize (rolled_back st). intros st' Hq. unfold retransmission, replayed_updates.
  assert (forall b n k i q, x ∈ q -> let '(ahead, later) := split_queue b n k i q in x ∈ ahead \/ x ∈ later) as Hs.
  { intros b n k i q'. revert i. induction q' as [|y q' IH]; intros i H; [by apply elem_of_nil in H|].
    cbn [split_queue]. specialize (IH (i + 1)). destruct (split_queue b n k (i + 1) q') as [ahead later].
    apply elem_of_cons in H as [->|H].
    - rewrite Hf, andb_false_r. destruct (i <? k); [left|right]; by left.
    - destruct (IH H), (_ && _), (i <? k); set_solver. }
  match goal with |- context [split_queue ?b ?n ?k ?i ?q] => specialize (Hs b n k i q Hq);
    destruct (split_queue b n k i q) as [ahead later] end.
  destruct (commit_retransmit _ _); set_solver.
Qed.

Lemma key_cases N s k e : Good signCommitmentTx init N w -> get k (s_htlcs (chan w s)) = Some e ->
  exists d i, k = htlc_key d i.
Proof.
  intros [(T & G & gs & I) _ _] E. pose proof (i_chan _ _ _ _ _ _ I s) as Ht.
  destruct (t_keys _ _ _ _ _ _ Ht k) as (k' & _ & <-); [by eapply get_key|]. by eexists _, _.
Qed.

(** C11: what a node forgets when the connection is lost, its peer sends again after it.  An HTLC
    that the peer had offered and not committed to is gone from the node's map, with its value back in
    the peer's balance, and the peer's replay has an update_add_htlc with the same id, amount, payment
    hash and expiry.  An HTLC of the node whose settlement the peer had sent and not committed to is
    committed again, and the replay has a settlement of the same id and the same kind: an
    update_fulfill_htlc with a preimage of its payment hash, or a failure.  Every other entry stays. *)
Theorem forgotten_sent_again s key e
    (Hentry : get key (s_htlcs (chan w s)) = Some e) :
  s_remoteBalanceMsat (x_chan (marked (r s))) = s_remoteBalanceMsat (chan w s) +
    zsum (fun kv => if forgets_add kv.1 kv.2 then e_amountMsat kv.2 else 0) (s_htlcs (chan w s)) /\
  (forgets_add key e = false -> forgets_settle key e = false ->
     get key (s_htlcs (x_chan (marked (r s)))) = Some e) /\
  exists m r' actions,
    createReestablish (marked (r s)) = (marked (r s), Ok [RE_SEND false (RM_REESTABLISH m)]) /\
    handleReestablish ecc_isPoint m (marked (r (other s))) = (r', Ok actions) /\
    (forgets_add key e = true ->
       get key (s_htlcs (x_chan (marked (r s)))) = None /\
       exists a, key = htlc_key RECEIVED (ua_id a) /\
       UPDATE_ADD a ∈ replayed actions /\ ua_amountMsat a = e_amountMsat e /\
       ua_paymentHash a = e_paymentHash e /\ ua_cltvExpiry a = e_cltvExpiry e) /\
    (forgets_settle key e = true ->
       get key (s_htlcs (x_chan (marked (r s)))) =
         Some (with_removalLocallyRevoked None (with_removalRemoteCommitted None (with_state COMMITTED e))) /\
       exists i x, key = htlc_key OFFERED i /\ x ∈ replayed actions /\ is_settle_of i e x).
Proof.
  destruct (reconnect_replays s) as (m & r' & actions & Ec & Eh & _ & Hrep & _).
  destruct reached_awaits as (N & Hw & K & A).
  assert (x_chan (marked (r s)) = rolled_back (chan w s)) as Em.
  { rewrite <- Hchan. apply marked_spec; [|rewrite Hchan; apply (kp_proven _ _ (K s))].
    unfold x_state. rewrite Hchan. by apply (good_normal _ _ _ Hopened _ s Hw). }
  assert (NoDup (map fst (s_htlcs (chan w s)))) as Hn
    by (destruct Hw as [(T & G & gs & I) _ _]; apply (t_nodup _ _ _ _ _ _ (i_chan _ _ _ _ _ _ I s))).
  destruct (rolled_htlcs (chan w s) Hn) as [Hmap Hbal]. rewrite Em. specialize (Hmap key). rewrite Hentry in Hmap.
  cbn in Hmap. unfold rolled_entry in Hmap. split; [exact Hbal|]. split; [intros E1 E2; by rewrite E1, E2 in Hmap|].
  exists m, r', actions. split; [done|]. split; [done|]. rewrite Hrep.
  assert (forall st e x, x ∈ held_for st e -> x ∈ s_pendingLocalUpdates st) as Hheld.
  { intros st e0 x. unfold held_for, unsigned. destruct (covered e0); [done|].
    rewrite <- (take_drop (signed_count st) (s_pendingLocalUpdates st)) at 2. set_solver. }
  destruct (key_cases _ _ _ _ Hw Hentry) as (d & i & ->).
  split; intros H; (split; [by rewrite ?H, ?(settle_not_add _ _ H) in Hmap|]); clear Hmap;
    unfold forgets_add, forgets_settle in H; rewrite !andb_true_iff in H; destruct d; try (exfalso; by destruct H as [[H _] _]).
  - destruct H as [_ H]. destruct (receiver_facts _ _ _ _ Hw s i e Hentry) as [_ Ho].
    destruct (Ho H) as (o & Eo & Hu & Et). destruct (A (other s) OFFERED i o Eo Hu) as (x & Hx & Hin).
    destruct x as [a|?|?|?|?|?|?|?]; try done. cbn in Hx. destruct Hx as (<- & Ea & Ehh & Ect).
    exists a. unfold remote_terms, local_terms in Et. injection Et as _ E1 E2 E3.
    split_and!; [done| |congruence..]. eapply queue_replayed; [apply K|by eapply Hheld|done].
  - destruct H as [[_ Hr] Hl]. destruct (offerer_facts _ _ _ _ Hw s i e Hentry) as [_ Ho].
    destruct Ho as (e' & Ee & Hu & Est & Et); [by rewrite Hr, Hl|].
    destruct (A (other s) RECEIVED i e' Ee Hu) as (x & Hx & Hin). exists i, x.
    split_and!; [done| |]. { eapply queue_replayed; [apply K|by eapply Hheld|by destruct x]. }
    eapply settle_of_same; [|symmetry; exact Est|exact Hx]. unfold remote_terms, local_terms in Et. by injection Et.
Qed.

End Exchange.

(** ** When a node believes that it has lost data

    A peer that knows a later state makes a node give the channel up without publishing its own
    commitment; the node asks for a proof first. *)

Section Guard.
Context `{L : BitcoinLib} (ecc_isPoint : buffer -> bool).

(** The peer is ahead of us and shows the secret of a commitment we have not revoked. *)
Record proven_behind (msg : IChannelReestablishMessage) (st : IChannelState) : Prop := {
  pb_secret : getPerCommitmentSecret sha256 (s_localPerCommitmentSeed st) (rm_nextRevocationNumber msg - 1) =
    Ok (rm_yourLastPerCommitmentSecret msg);
  pb_shown : rm_yourLastPerCommitmentSecret msg <> alloc 32;
  pb_unrevoked : s_localCommitmentNumber st <= rm_nextRevocationNumber msg - 1;
  pb_ahead : s_remoteCommitmentNumber st + 1 < rm_nextCommitmentNumber msg \/
             s_localCommitmentNumber st + 1 < rm_nextRevocationNumber msg;
  pb_number : rm_nextCommitmentNumber msg <> 0
}.

Definition lost (r : ReState) : bool := flag_true (k_dataLossDetected (x_close r)).

Lemma fell_behind_spec msg st :
  0 <= s_localCommitmentNumber st ->
  rm_nextCommitmentNumber msg <> 0 /\ secret_valid msg st = Ok true /\ fell_behind msg st = true <->
  proven_behind msg st.
Proof.
  intros Hpos. unfold fell_behind, secret_valid. rewrite !andb_true_iff, orb_true_iff, !Z.ltb_lt, negb_true_iff.
  unfold buf_equals. rewrite bool_decide_eq_false. split.
  - intros (Hn & Hs & [Ha Hl] & Hz). rewrite (proj2 (Z.ltb_lt 0 _)) in Hs by lia.
    apply bind_Ok_inv in Hs as (secret & Es & Hs). injection Hs as Hs%bool_decide_eq_true.
    constructor; [congruence|done|lia|done|done].
  - intros [P1 P2 P3 P4 P5]. rewrite (proj2 (Z.ltb_lt 0 _)) by lia. rewrite P1, bind_Ok, bool_decide_true by done.
    split_and!; try done. lia.
Qed.

Lemma in_close_lost f r r' res :
  (forall c c' out, f c = (c', out) -> k_dataLossDetected c' = k_dataLossDetected c) ->
  in_close f r = (r', res) -> lost r' = lost r.
Proof.
  intros Hf. unfold in_close. destruct (f (x_close r)) as [c out] eqn:E. intros [= <- _].
  unfold lost. cbn. by rewrite (Hf _ _ _ E).
Qed.

Lemma fail_lost message c c' out :
  failChannelWithWireError message c = (c', out) -> k_dataLossDetected c' = k_dataLossDetected c.
Proof.
  unfold failChannelWithWireError, _ensureRecoveryCloseDisposition. intros [= <- _].
  destruct (k_recoveryCloseReason c); [reflexivity|]. destruct (flag_true _); [reflexivity|]. destruct (flag_true _); reflexivity.
Qed.

Lemma held_lost message r r' res : _heldReestablishGapFailure message r = (r', res) -> lost r' = lost r.
Proof.
  unfold _heldReestablishGapFailure. destruct (negb _); [by intros [= <- _]|].
  apply in_close_lost. unfold _heldCooperativeCloseRefusal. by intros c c' out [= <- _].
Qed.

Lemma resume_lost msg actions r r' res : resume msg actions r = (r', res) -> lost r' = lost r.
Proof.
  unfold resume.
  assert (lost (restore_state r) = lost r) as E.
  { unfold restore_state, lost. destruct (x_state r); try done. destruct (k_preReestablishState _); [|done].
    cbv zeta. destruct (_ && _); reflexivity. }
  assert (forall x, lost (unknown_funding msg x).1 = lost x) as E'.
  { intros x. unfold unknown_funding. destruct (rm_nextFundingTxid msg); [|done]. destruct (s_channelId _); reflexivity. }
  rewrite <- E, <- (E' (restore_state r)). destruct (unknown_funding msg (restore_state r)) as [r1 abort]. cbn [fst].
  destruct (ready_retransmit msg r1); by intros [= <- _].
Qed.

Lemma note_revoked_lost msg r : lost (note_revoked msg r).1 = lost r.
Proof. unfold note_revoked. by destruct (_ && _). Qed.

(** Without the proof the mark stays as it was. *)
Lemma handle_lost msg r r' actions :
  handleReestablish ecc_isPoint msg r = (r', Ok actions) ->
  (rm_nextCommitmentNumber msg <> 0 /\ secret_valid msg (x_chan r) = Ok true /\ fell_behind msg (x_chan r) = true) \/
  lost r' = lost r.
Proof.
  unfold handleReestablish. set (r0 := set_lastReestablishOutcome None r).
  assert (lost r0 = lost r) as E0 by done. change (x_chan r0) with (x_chan r).
  assert (forall m x res, in_close (failChannelWithWireError m) x = (r', res) -> lost r' = lost x) as Hfail
    by (intros m x res; apply in_close_lost, fail_lost).
  destruct (Z.eqb_spec (rm_nextCommitmentNumber msg) 0) as [Hn|Hn]; [intros H; right; by apply Hfail in H|].
  destruct (secret_valid msg (x_chan r)) as [[]|] eqn:Hs; [| |done].
  2: { unfold unproven_claim. intros H. right. apply Hfail in H as ->. by destruct (_ <? _). }
  destruct (fell_behind msg (x_chan r)) eqn:Hf; [by left|]. intros H. right. revert H.
  destruct (flag_true (k_stateUncertain (x_close r0))); [by intros [= <- _]|].
  pose proof (note_revoked_lost msg r0) as En. destruct (note_revoked msg r0) as [r1 acts]. cbn in En.
  repeat (lazymatch goal with |- (if ?b then _ else _) = _ -> _ => destruct b end); intros H.
  - apply held_lost in H. congruence.
  - apply held_lost in H. congruence.
  - apply Hfail in H. congruence.
  - apply Hfail in H. congruence.
  - apply resume_lost in H. congruence.
Qed.

(** C12: a node marks its channel as having lost data exactly when the peer's
    channel_reestablish is ahead of it and carries the secret of one of its own commitments that it has
    not revoked, which the peer can only have from the node itself; a message without that proof never
    does.  The channel then ends in the ERRORED state with that reason on record, and nothing is sent
    again. *)
Theorem data_loss_needs_proof msg r r' actions
    (Hhandled : handleReestablish ecc_isPoint msg r = (r', Ok actions))
    (Hbefore : lost r = false) (Hnumber : 0 <= s_localCommitmentNumber (x_chan r)) :
  (lost r' = true <-> proven_behind msg (x_chan r)) /\
  (lost r' = true -> x_state r' = ERRORED /\ replayed actions = [] /\
     k_recoveryCloseReason (x_close r') = Some local_data_loss).
Proof.
  rewrite <- (fell_behind_spec msg _ Hnumber).
  destruct (handle_lost _ _ _ _ Hhandled) as [(Hn & Hs & Hf)|E].
  - unfold handleReestablish in Hhandled. rewrite (proj2 (Z.eqb_neq _ _) Hn) in Hhandled.
    change (x_chan (set_lastReestablishOutcome None r)) with (x_chan r) in Hhandled.
    rewrite Hs, Hf in Hhandled. unfold data_loss, stop_for in Hhandled. injection Hhandled as <- <-.
    destruct (isValidPublicKey _ _); by split_and!.
  - assert (lost r' = false) as El by congruence. rewrite El. split; [|done]. split; [done|].
    intros (Hn & Hs & Hf). exfalso. unfold handleReestablish in Hhandled.
    rewrite (proj2 (Z.eqb_neq _ _) Hn) in Hhandled.
    change (x_chan (set_lastReestablishOutcome None r)) with (x_chan r) in Hhandled.
    rewrite Hs, Hf in Hhandled. unfold data_loss, stop_for in Hhandled. injection Hhandled as <- _.
    by destruct (isValidPublicKey _ _).
Qed.

End Guard.
