(* ===== verification/ReestablishSample.v ===== *)
(** * Reconnections to evaluate

    Runs of the two demo nodes of ChannelSafety.v that lose their connection. *)

From S2P Require Import Prelude Buffer JsMap ShaChain CommitmentTx Scripts.
From S2P Require Import WireBasic WireUpdate WireCommitment WireFunding.
From S2P Require Import ChannelTypes CommitmentBuilder HtlcPolicy HtlcAdmission Channel ChannelFee.
From S2P Require Import ChannelTrack ChannelPair ChannelRun ChannelSafety.
From S2P Require Import ClosingTypes Closing ClosingManager.
From S2P Require Import Reestablish ReestablishRun ReestablishSafety.
Local Open Scope Z_scope.

(** A node with nothing special about its channel. *)
Definition demo_re (st : IChannelState) : ReState :=
  {| x_close :=
       {| k_chan := st; k_localShutdownScript := None; k_preReestablishState := None;
          k_lastProposedClosingFeeSat := None; k_closingFeeMin := None; k_closingFeeMax := None;
          k_theirLastClosingFeeSat := None; k_simpleClose := None;
          k_lastLocalClosingComplete := None; k_awaitingClosingSig := None;
          k_externalClose := None; k_staleCloseRiskAccepted := None; k_dataLossDetected := None;
          k_stateUncertain := None; k_recoveryCloseReason := None; k_pendingBatch := false;
          k_ourClosingNonce := None; k_remoteClosingNonce := None; k_hasSignedClosing := false;
          k_closingFeeratePerKw := None; k_currentBlockHeight := 700000 |};
     x_dlpRemotePerCommitmentPoint := None; x_localChannelReady := true; x_scidAlias := None;
     x_lastReestablishOutcome := None; x_reestablishSecretMissingNotice := None;
     x_reestablishRetransmitted := false; x_spliceAbortPending := false; x_txAbortSent := false |}.

Lemma demo_fresh p : fresh (demo_init p).
Proof. destruct p; by constructor. Qed.

(** The channel_reestablish a node sends, and the replay of its peer. *)
Definition demo_message (r : ReState) : option IChannelReestablishMessage :=
  match createReestablish (L := demo_lib) r with
  | (_, Ok [RE_SEND _ (RM_REESTABLISH m)]) => Some m
  | _ => None
  end.

Definition demo_replay (w : World) (s : Peer) : list ChannelMessage :=
  match demo_message (marked (demo_re (chan w s))) with
  | Some m =>
      match handleReestablish (L := demo_lib) (fun _ => true) m (marked (demo_re (chan w (other s)))) with
      | (_, Ok actions) => replayed actions
      | _ => []
      end
  | None => []
  end.

Lemma demo_at (w : World) p : x_chan (demo_re (chan w p)) = chan w p.
Proof. reflexivity. Qed.

Lemma demo_sure (w : World) p : flag_true (k_stateUncertain (x_close (demo_re (chan w p)))) = false.
Proof. reflexivity. Qed.

Lemma reconnect_resumes_witness :
  match out (demo_world demo_cross) Alice with
  | [f] => exists u v c, demo_replay (demo_world demo_cross) Bob =
             [UPDATE_ADD u; UPDATE_FEERATE v; COMMIT c] /\ f_msg f = COMMIT c
  | _ => False
  end /\
  exists m r' actions,
    createReestablish (L := demo_lib) (marked (demo_re (chan (demo_world demo_cross) Bob))) =
      (marked (demo_re (chan (demo_world demo_cross) Bob)), Ok [RE_SEND false (RM_REESTABLISH m)]) /\
    handleReestablish (L := demo_lib) (fun _ => true) m (marked (demo_re (chan (demo_world demo_cross) Alice)))
      = (r', Ok actions) /\ x_state r' = CHANNEL_NORMAL.
Proof.
  split; [vm_compute; eexists _, _, _; split; reflexivity|].
  destruct (reconnect_resumes (L := demo_lib) (fun _ => true) toy_sign toy_verify (fun _ _ _ => true)
    demo_init (demo_world demo_cross) (fun p => demo_re (chan (demo_world demo_cross) p)) demo_opened demo_fresh
    (demo_ran demo_cross ltac:(vm_compute; reflexivity)) (demo_at _) (demo_sure _) Bob)
    as (m & r' & actions & H1 & H2 & H3 & _).
  exists m, r', actions. split; [exact H1|]. split; [exact H2|exact H3].
Defined.

(** Alice's add has arrived and her signature has not. *)
Definition demo_added : list Command :=
  [CAdd Alice false 700000 50000000 demo_hash 800000 [] None None; from Alice; CSign Alice []].

(** Bob has fulfilled Alice's HTLC, and his signature has not arrived. *)
Definition demo_fulfilled : list Command := demo_locked ++ [CFulfill Bob false 0 demo_preimage; from Bob].

Lemma forgotten_sent_again_witness :
  (exists e a, get (htlc_key RECEIVED 0) (s_htlcs (chan (demo_world demo_added) Bob)) = Some e /\
    forgets_add (htlc_key RECEIVED 0) e = true /\ ua_amountMsat a = e_amountMsat e /\
    get (htlc_key RECEIVED 0) (s_htlcs (x_chan (marked (demo_re (chan (demo_world demo_added) Bob))))) = None /\
    exists m r' actions,
      createReestablish (L := demo_lib) (marked (demo_re (chan (demo_world demo_added) Bob))) =
        (marked (demo_re (chan (demo_world demo_added) Bob)), Ok [RE_SEND false (RM_REESTABLISH m)]) /\
      handleReestablish (L := demo_lib) (fun _ => true) m (marked (demo_re (chan (demo_world demo_added) Alice)))
        = (r', Ok actions) /\ UPDATE_ADD a ∈ replayed actions) /\
  exists e i x, get (htlc_key OFFERED 0) (s_htlcs (chan (demo_world demo_fulfilled) Alice)) = Some e /\
    e_state e = FULFILLED /\ forgets_settle (htlc_key OFFERED 0) e = true /\
    get (htlc_key OFFERED 0) (s_htlcs (x_chan (marked (demo_re (chan (demo_world demo_fulfilled) Alice))))) =
      Some (restored_entry e) /\
    exists m r' actions,
      createReestablish (L := demo_lib) (marked (demo_re (chan (demo_world demo_fulfilled) Alice))) =
        (marked (demo_re (chan (demo_world demo_fulfilled) Alice)), Ok [RE_SEND false (RM_REESTABLISH m)]) /\
      handleReestablish (L := demo_lib) (fun _ => true) m (marked (demo_re (chan (demo_world demo_fulfilled) Bob)))
        = (r', Ok actions) /\ x ∈ replayed actions /\ is_settle_of (L := demo_lib) i e x.
Proof.
  split.
  - destruct (get (htlc_key RECEIVED 0) (s_htlcs (chan (demo_world demo_added) Bob))) as [e|] eqn:E;
      [|vm_compute in E; discriminate E].
    assert (forgets_add (htlc_key RECEIVED 0) e = true) as Hf
      by (vm_compute in E; injection E as <-; vm_compute; reflexivity).
    destruct (forgotten_sent_again (L := demo_lib) (fun _ => true) toy_sign toy_verify (fun _ _ _ => true)
      demo_init (demo_world demo_added) (fun p => demo_re (chan (demo_world demo_added) p)) demo_opened demo_fresh
      (demo_ran demo_added ltac:(vm_compute; reflexivity)) (demo_at _) (demo_sure _) Bob _ e E)
      as (_ & _ & m & r' & actions & H1 & H2 & H3 & _).
    destruct (H3 Hf) as (Hn & a & _ & Ha & Hm & _).
    exists e, a. split; [reflexivity|]. split; [exact Hf|]. split; [exact Hm|]. split; [exact Hn|].
    exists m, r', actions. split; [exact H1|]. split; [exact H2|exact Ha].
  - destruct (get (htlc_key OFFERED 0) (s_htlcs (chan (demo_world demo_fulfilled) Alice))) as [e|] eqn:E;
      [|vm_compute in E; discriminate E].
    assert (e_state e = FULFILLED /\ forgets_settle (htlc_key OFFERED 0) e = true) as [Hs Hf]
      by (vm_compute in E; injection E as <-; split; vm_compute; reflexivity).
    destruct (forgotten_sent_again (L := demo_lib) (fun _ => true) toy_sign toy_verify (fun _ _ _ => true)
      demo_init (demo_world demo_fulfilled) (fun p => demo_re (chan (demo_world demo_fulfilled) p)) demo_opened demo_fresh
      (demo_ran demo_fulfilled ltac:(vm_compute; reflexivity)) (demo_at _) (demo_sure _) Alice _ e E)
      as (_ & _ & m & r' & actions & H1 & H2 & _ & H3).
    destruct (H3 Hf) as (Hn & i & x & _ & Hx & Hk).
    exists e, i, x. split; [reflexivity|]. split; [exact Hs|]. split; [exact Hf|]. split; [exact Hn|].
    exists m, r', actions. split; [exact H1|]. split; [exact H2|]. split; [exact Hx|exact Hk].
Defined.

(** Bob's state from before the first commitment, against Alice two commitments later. *)
Definition demo_stale : ReState := marked (demo_re (demo_init Bob)).
Definition demo_ahead : IChannelReestablishMessage :=
  {| rm_channelId := []; rm_nextCommitmentNumber := 3; rm_nextRevocationNumber := 2;
     rm_yourLastPerCommitmentSecret :=
       match getPerCommitmentSecret (sha256 (BitcoinLib := demo_lib)) (s_localPerCommitmentSeed (demo_init Bob)) 1 with
       | Ok secret => secret | Err _ => [] end;
     rm_myCurrentPerCommitmentPoint := []; rm_nextFundingTxid := None;
     rm_nextFundingRetransmitFlags := None; rm_nextLocalNonce := None; rm_ffor := None |}.

Lemma data_loss_needs_proof_witness :
  exists r' actions,
    handleReestablish (L := demo_lib) (fun _ => true) demo_ahead demo_stale = (r', Ok actions) /\
    lost r' = true /\ proven_behind (L := demo_lib) demo_ahead (x_chan demo_stale).
Proof.
  assert (lost (handleReestablish (L := demo_lib) (fun _ => true) demo_ahead demo_stale).1 = true /\
    match (handleReestablish (L := demo_lib) (fun _ => true) demo_ahead demo_stale).2 with
    | Ok _ => true | Err _ => false end = true) as [Hl Hr] by (split; vm_compute; reflexivity).
  destruct (handleReestablish (L := demo_lib) (fun _ => true) demo_ahead demo_stale) as [r' res] eqn:E.
  cbn [fst snd] in Hl, Hr. destruct res as [actions|]; [|discriminate Hr].
  exists r', actions. split; [reflexivity|]. split; [exact Hl|].
  destruct (data_loss_needs_proof (L := demo_lib) (fun _ => true) demo_ahead demo_stale r' actions E)
    as [[H _] _].
  - vm_compute. reflexivity.
  - vm_compute. discriminate.
  - exact (H Hl).
Defined.

(** ** An add that is neither committed nor forgotten *)

(** Alice's add has arrived, her signature has not, and Bob has signed in between. *)
Definition demo_between : list Command :=
  [CAdd Alice false 700000 50000000 demo_hash 800000 [] None None;
   CAdd Bob false 700000 30000000 demo_hash 800010 [] None None; from Alice; CSign Bob []].

(** Another HTLC under the id of Alice's add. *)
Definition demo_reuse : IUpdateAddHtlcMessage :=
  {| ua_channelId := []; ua_id := 0; ua_amountMsat := 40000000; ua_paymentHash := demo_hash;
     ua_cltvExpiry := 800000; ua_onionRoutingPacket := []; ua_blindingPoint := None;
     ua_skimmedFeeMsat := None |}.

(** A received add that no commitment_signed of the peer covers can survive a
    disconnection.  signCommitment moves every PENDING entry to COMMITTED, and the rollback of
    markForReestablish only drops entries that are PENDING; the amount stays taken from the peer's
    balance, and a peer that has forgotten its add and uses the id for another one fails the
    channel. *)
Theorem uncommitted_add_survives :
  exists w e, demo_reached w /\ get (htlc_key RECEIVED 0) (s_htlcs (chan w Bob)) = Some e /\
    flag_false (e_addLocallyRevoked e) = true /\
    let st := x_chan (marked (demo_re (chan w Bob))) in
    get (htlc_key RECEIVED 0) (s_htlcs st) = Some e /\
    s_remoteBalanceMsat st = s_remoteBalanceMsat (demo_init Bob) - e_amountMsat e /\
    s_state (handleUpdateAddHtlc (L := demo_lib) false 700000 demo_reuse (set_state CHANNEL_NORMAL st)).1 = ERRORED.
Proof.
  destruct (get (htlc_key RECEIVED 0) (s_htlcs (chan (demo_world demo_between) Bob))) as [e|] eqn:E;
    [|vm_compute in E; discriminate E].
  exists (demo_world demo_between), e. split; [apply demo_ran; vm_compute; reflexivity|].
  split; [exact E|]. vm_compute in E. injection E as <-. vm_compute. repeat split.
Qed.

(** ** A signature that covers nothing *)

(** A new fee rate is all Alice has sent. *)
Definition demo_fee : list Command := [CFee Alice false 1000].

(** What Alice's manager does with Bob's channel_reestablish. *)
Definition demo_resumed (w : World) : list ReAction :=
  match demo_message (marked (demo_re (chan w Bob))) with
  | Some m =>
      match handleChannelReestablish (L := demo_lib) (fun _ => true) (toy_sign Alice) (fun _ _ _ => [])
              [] false None [] m (marked (demo_re (chan w Alice))) with
      | (_, Ok actions) => actions
      | _ => []
      end
  | None => []
  end.

Definition is_commit_action (a : ReAction) : bool :=
  match a with RE_SEND _ (RM_UPDATE (COMMIT _)) => true | _ => false end.

(** After a reconnection a node can send a commitment_signed that covers no update.  The
    rollback of an update_fee that no signature covered leaves the flag needsCommitment set, and the
    manager signs for it: nothing is queued, no HTLC or fee rate is pending, and nothing is owed. *)
Theorem empty_signature_sent :
  exists w, demo_reached w /\
    let st := x_chan (marked (demo_re (chan w Alice))) in
    _owesCommitmentSignature st = false /\ s_pendingLocalUpdates st = [] /\ s_htlcs st = [] /\
    s_pendingFeeratePerKw st = None /\ existsb is_commit_action (demo_resumed w) = true.
Proof.
  exists (demo_world demo_fee). split; [apply demo_ran; vm_compute; reflexivity|].
  vm_compute. repeat split.
Qed.
